(* ===== verification/_CoqProject ===== *)
-Q . S2P
Prelude.v
CLib.v
ListHead.v
RBTree.v
RBInsert.v
RBErase.v
RBSearch.v
PollerTimer.v
Poller.v
PollerSpec.v
PollerIO.v
PollerFrame.v
PollerThread.v
MPoller.v
HttpParser.v
HttpScan.v
HttpHeader.v
HttpChunk.v
HttpAppend.v
HttpHeaders.v
HttpBody.v
HttpMessage.v
HttpMap.v
MsgQueue.v
ThrdPool.v
JsonText.v
JsonNumber.v
JsonObject.v
JsonValue.v
JsonParser.v
Series.v
Workflow.v
Crc32c.v
CommSched.v
StringUtil.v
HttpTask.v
URIParser.v
EncodeStream.v
Executor.v
OrderedTree.v
LRUCache.v
CommConn.v
CommClient.v
CommClientConn.v
CommClientSafe.v
CommServer.v
CommServerConn.v
CommServerPoll.v
CommServerSafe.v
