(* ===== verification/Prelude.v ===== *)
(** * Verification of the core of the workflow library

    The library is an asynchronous network framework: a poller thread multiplexes
    descriptors and timers and hands results to a message queue, from which handler
    threads take them and drive the connections; clients send requests over connections
    to targets, services receive them; messages are parsed as their bytes arrive; what
    has to be done is put together from tasks in series and in parallel.  This
    development models the files that carry this core, function by function, and proves
    what they promise.

    ** How the parts interact

    - [src/kernel/list.h] ([ListHead]) and [src/kernel/rbtree.c] ([RBTree],
      [RBInsert], [RBErase], [RBSearch]) are the containers.  The poller keeps its
      timers in both, the JSON objects their members, the HTTP parser its headers in
      a list, the cache its handles.
    - [src/kernel/poller.c] is five files: [PollerTimer] is the timer queue (two
      lists and a tree with remembered ends), [Poller] the registrations, the pipe,
      timeouts, creation and shutdown, [PollerSpec] the specification and the proof
      that every operation refines it, [PollerIO] the event handlers,
      [PollerFrame] and [PollerThread] the poller thread interleaved with its
      clients.
    - [src/kernel/msgqueue.c] ([MsgQueue]) is the queue between the poller and the
      handler threads: memory, locks and conditions as an interleaving semantics.
      [src/kernel/thrdpool.c] ([ThrdPool]) runs tasks over such a queue, taken as the
      sequence [MsgQueue] promises; [src/kernel/Executor.cc] ([Executor]) serves queues of
      computations with tasks of a pool.
    - [src/kernel/Communicator.cc]: [CommConn] is what both sides share, the states of a
      connection and the poller and the queue as [PollerThread] and [MsgQueue] promise
      them.  [CommClient] is the client side (requests, replies, idle connections),
      [CommClientConn] the invariant of a connection under each of its steps,
      [CommClientSafe] the theorems about the library.  [CommServer],
      [CommServerConn], [CommServerPoll] and [CommServerSafe] are the same for services.
      [src/kernel/CommScheduler.cc] ([CommSched]) chooses the targets.
    - [src/kernel/SubTask.cc] and [src/factory/Workflow.cc]: [Series] is the ring buffer of a
      series, [Workflow] the life of tasks, series and parallels over the sequence
      [Series] implements.
    - [src/protocol/http_parser.c] ([HttpParser] the code, [HttpScan], [HttpHeader],
      [HttpChunk], [HttpAppend], [HttpHeaders] its theory) parses messages in pieces;
      its [append] function is what a read handler of the poller calls, by way of
      [src/protocol/HttpMessage.cc] ([HttpMessage]; the part of [encode] before the body is in
      [HttpHeaders]), which also encodes what is sent.  [src/protocol/HttpUtil.cc] is
      [HttpBody] (the bodies in chunks) and [HttpMap] (the header map, the status lines).
      [src/util/EncodeStream.cc] ([EncodeStream]) collects the vectors of other protocols.
    - [src/util]: [json_parser.c] ([JsonText] strings, [JsonNumber] numbers,
      [JsonObject] the containers, [JsonValue] creation, copy and destruction,
      [JsonParser] the recursive descent), [crc32c.c] ([Crc32c]), [StringUtil.cc]
      ([StringUtil]), [URIParser.cc] ([URIParser]), [LRUCache.h] ([LRUCache], a client of
      the interface [ordered_tree] of [OrderedTree], which the red-black trees implement).
    - [Prelude] (this file) has the notations, the machine integers, the tactics
      and the lemmas on lists that the others share; [CLib] the C library.

    ** Conventions

    A definition has the name of the function it translates; a definition that
    translates a loop or a block of one is named after what the block does and
    its comment quotes the code.  State is passed explicitly and in the order of
    the source's statements.  Undefined behaviour (a bad pointer, an index outside a
    buffer, a signed overflow, a double free) is [None] in the option monad, so a
    theorem that an operation is [Some] is a theorem of memory safety ([Fault] in the
    files of the communicator, whose steps may also be [Blocked]); the errors
    the code reports are values inside.  Addresses are positives ([loc]), NULL is
    [None] ([ptr]); [container_of] is the identity on addresses, since a structure
    and its fields share one.  Integers are [Z] with their wrap-around written out
    ([wrap], [u32], [u64], [s32]); bytes are [Z] in [[0, 256)].  What the program
    does not define (the answers of [malloc], of the kernel and of the clock, and
    the functions of the user) is an argument, or a field of the class [functions]
    of [PollerIO], and the theorems quantify over it; contracts on it
    ([clock_ok], [append_progress], [writev_ok], [events_ok] and the like) are named
    hypotheses with an instance in each witness.

    Concurrent code is a step relation: a step is what happens between two points at
    which other threads can come in (the operations on a mutex, a condition, a queue, the
    calls of the user), and the theorems are about all states that can be reached.

    ** Fuel

    Every loop that is not structural takes fuel, and running out of it is [None],
    so the same theorems that show an operation to be [Some] show that it ends.
    [rb_fuel n] (twice the binary logarithm of [n + 1], and one more) bounds every
    loop on a red-black tree of [n] nodes; [tree_fuel] is this bound for a store.  The
    list loops take the size of the store, the scanning loops the number of bytes
    left, the JSON descent the levels that are left ([depth_fuel], at most 1025, the
    limit of the source and one), the read loop of the poller one more than the
    bytes it has, the loop over the chunks of a body one more than the bytes of the
    message, the loop over the headers one more than their number.

    ** What the theorems show

    - Lists: each operation implements its operation on sequences, aliasing
      included, and frames the rest of the store ([list_insert_refines],
      [list_move_tail_refines], [list_splice_init_refines]).
    - Trees: search, insertion, erasure and traversal keep the in-order sequence and
      the red-black invariant, within logarithmic fuel ([rb_insert_correct],
      [rb_erase_correct], [rb_traversal_correct], [rb_find_correct]).
    - Poller: the interface refines a finite map of watched nodes, errors included
      ([poller_calls_refine]); timeouts expire exactly what is due
      ([poller_timeout_correct]) and the timer is never armed too late
      ([poller_timer_armed]); reading and writing do what they mean to
      ([poller_read_correct], [poller_write_correct]); creation gives back what it
      acquired when it fails ([poller_lifecycle]); shutdown delivers everything
      ([poller_stop_correct]); and over all interleavings of the thread and its
      clients nothing freed is touched ([poller_thread_safe]) and every accepted
      node is delivered exactly once ([poller_exactly_once]).
    - Message queue: linearisation to a sequence of messages ([msgqueue_refines]),
      conservation and order, no lost wake-up, mutual exclusion, the bound.
    - Thread pool: a task is executed or handed to [pending] once
      ([thrdpool_tasks_once]); [thrdpool_destroy] joins every thread, frees everything
      once ([thrdpool_destroy_correct]) and ends ([thrdpool_destroy_terminates]).
      Executor: sessions of a queue start in order, each is run or canceled once
      ([executor_correct]).
    - Communicator, client side: in no interleaving is a freed entry, a session handed
      back or a broken list used ([client_safe]), but for one race that a theorem exhibits
      ([reply_unlock_race]); every session is handed back once ([client_once]).  Server
      side: the same ([server_safe], [server_once], with the exceptions in [server_races]); the service is
      unbound when its last target goes, and everything is freed ([server_unbound]).
      Scheduling: loads, the heap of a group and its indices keep their invariant
      ([sched_invariant]), a group gives its least loaded target.
    - Workflow: no step of a task, a series or a parallel uses a deleted object
      ([workflow_safe]), a parallel ends when all of its series have ([parallel_joins]), and when nothing
      runs everything that was started is done and deleted ([workflow_quiescent]).
    - HTTP: the result does not depend on how the bytes are cut ([feed_pieces]),
      every call stays in its buffers whatever allocations fail ([append_safe]),
      the three outcomes and the bytes taken ([append_accounts]), the header list as
      a map ([set_header_correct], [cursor_correct], [find_and_erase_correct], [header_map_correct]), and printing then
      parsing gives the headers back ([encode_parse]); the vectors sent are the message
      ([encode_message_correct]); what a request answers by itself ([request_replies]) and
      what a response skips ([response_interim]); the chunks of a body are what the
      parser accepted ([decode_chunked_correct], with the exception
      [decode_chunked_nul]); status lines ([response_status]).
    - JSON: strings, numbers and documents are accepted exactly according to the
      grammar, with their values ([json_string_correct], [json_number_correct],
      [json_parse_correct]); the conversion to doubles ([json_number_value]); UTF-8
      ([json_unicode_utf8]); containers and values keep their invariants and leak
      nothing, failed allocations included.
    - Utilities: both routines compute CRC-32C ([crc32c_sw_correct], [crc32c_hw_correct]);
      percent coding and queries are read back ([url_code_roundtrip],
      [query_roundtrip]); a printed URI is parsed to its parts ([uri_parse_print]) and any
      text is parsed within its bounds ([uri_parse_safe]); an encode stream keeps the bytes
      within its vectors ([encode_stream_correct]); the cache deletes a value once, when nobody
      has it ([lru_safe]), and evicts the oldest one not in use ([lru_policy]).

    ** Bounds and simplifications

    The [long] differences of times do not overflow (times of a monotonic clock).
    The callbacks of one [__poller_handle_timeout] are one step with the collection
    of the nodes; these nodes belong to the thread, so only the order of results
    relative to other threads is coarser.  A write to the poller's pipe never blocks
    (more than 8192 nodes removed while the thread is busy would fill it).  The
    payload of an event counter written back is not modelled.  The C locale is
    assumed by the HTTP and JSON scanners.

    In the communicator an address is not used again after it was freed (a pointer kept too long is
    thus seen as such), results are handled in any order, and the section under
    the mutex of a target is one step.  The blocks of an HTTP body that are not copied are
    taken as they are when they are appended.  References of the cache are unbounded.

    ** Not modelled

    Of the communicator: time limits, unreliable services ([recvfrom]), push, sleep and
    the set-up of threads and sockets; of the scheduler: the time limit of a wait; of HTTP
    messages: their moves, and members that only call the parser.  The IO services (system calls
    around one list), the array of pollers of [mpoller.c], the task factories, the
    servers and the global manager, which put these parts together; functions that only free
    ([http_parser_deinit], [msgqueue_destroy]); the kqueue branch of [poller.c]. *)

From Stdlib Require Export ZArith Lia ZifyBool ZifyNat.
From stdpp Require Export base tactics gmap numbers option list sorting.

(** ** Notations of the development *)

Declare Scope c_scope.
Delimit Scope c_scope with C.

(** ASCII codes the sources spell as character literals. *)
Abbreviation NUL := 0%Z.
Abbreviation HT := 9%Z.
Abbreviation LF := 10%Z.
Abbreviation CR := 13%Z.
Abbreviation SP := 32%Z.
Abbreviation COLON := 58%Z.

(** ** Machine integers

    A [w]-bit unsigned integer is a [Z] in [[0, 2^w)]; an operation that can
    leave that range is followed by the wrap-around C prescribes. *)

Definition wrap (w z : Z) : Z := (z mod 2 ^ w)%Z.
Abbreviation u8 := (wrap 8).
Abbreviation u32 := (wrap 32).
Abbreviation u64 := (wrap 64).

(** A value converted to [int]. *)
Definition s32 (z : Z) : Z := (wrap 32 (z + 2 ^ 31) - 2 ^ 31)%Z.

(** The number of bytes of a buffer, as a [size_t]. *)
Abbreviation len l := (Z.of_nat (length l)).

(** [(size_t)-1], the sentinel for an unknown length. *)
Definition SIZE_MAX : Z := (2 ^ 64 - 1)%Z.

(** The value of a byte read through [signed char]. *)
Definition schar (b : Z) : Z := if (b <? 128)%Z then b else (b - 256)%Z.

(** A byte of memory. *)
Definition is_byte (b : Z) : Prop := (0 <= b < 256)%Z.

Lemma wrap_range w z : (0 <= w)%Z -> (0 <= wrap w z < 2 ^ w)%Z.
Proof. intros. unfold wrap. apply Z.mod_pos_bound. lia. Qed.

Lemma wrap_small w z : (0 <= z < 2 ^ w)%Z -> wrap w z = z.
Proof. intros. unfold wrap. by apply Z.mod_small. Qed.

Lemma wrap_wrap w z : (0 <= w)%Z -> wrap w (wrap w z) = wrap w z.
Proof. intros. apply wrap_small, wrap_range; done. Qed.

Lemma s32_small z : (- 2 ^ 31 <= z < 2 ^ 31)%Z -> s32 z = z.
Proof. intros. unfold s32. rewrite wrap_small; lia. Qed.

(** ** Automation *)

Create HintDb workflow discriminated.

(** Split the conjunctions and existentials of the context. *)
Ltac split_hyps :=
  repeat match goal with
  | H : _ /\ _ |- _ => destruct H
  | H : exists _, _ |- _ => destruct H
  end.

(** Run an option-monad program: whenever the goal or a hypothesis binds a
    value that is known, substitute it. *)
Ltac obind :=
  repeat (simplify_option_eq; cbn [mbind option_bind] in * ).

(** Split the tests of a Boolean program and turn them into linear facts. *)
Ltac bsplit :=
  repeat match goal with
  | |- context [if ?b then _ else _] => destruct b eqn:?
  | H : context [if ?b then _ else _] |- _ => destruct b eqn:?
  end.

(** ** Generic lemmas on lists *)

Section Lists.
Context {A : Type}.
Implicit Types (xs ys : list A) (x : A).

Lemma NoDup_app_inv xs ys :
  NoDup (xs ++ ys) -> NoDup xs /\ NoDup ys /\ (forall x, x ∈ xs -> x ∈ ys -> False).
Proof.
  rewrite list.NoDup_app. intros (H1 & H2 & H3). split_and!; done.
Qed.

Lemma NoDup_middle_iff xs x ys :
  NoDup (xs ++ x :: ys) <-> (x ∉ xs) /\ (x ∉ ys) /\ NoDup (xs ++ ys).
Proof.
  rewrite <- (Permutation_middle xs ys x), list.NoDup_cons.
  rewrite list.not_elem_of_app. tauto.
Qed.

(** Inserting a foreign block keeps a list free of duplicates. *)
Lemma NoDup_splice l1 xs l2 :
  NoDup (l1 ++ l2) -> NoDup xs -> (forall x, x ∈ xs -> x ∈ l1 ++ l2 -> False) ->
  NoDup (l1 ++ xs ++ l2).
Proof.
  intros Hd Hx Hap. rewrite (Permutation_app_swap_app l1 xs l2), list.NoDup_app.
  split_and!; [done| |done]. intros x H1 H2. by eapply Hap.
Qed.

(** A node of a duplicate-free list has one position. *)
Lemma NoDup_split_unique l1 x l2 l1' l2' :
  NoDup (l1 ++ x :: l2) -> l1 ++ x :: l2 = l1' ++ x :: l2' -> l1 = l1' /\ l2 = l2'.
Proof.
  revert l1'. induction l1 as [|a l1 IH]; intros l1' Hd E; destruct l1' as [|b l1'];
    cbn in *; simplify_eq; [done|..].
  - apply list.NoDup_cons in Hd as [Hd _]. set_solver.
  - apply list.NoDup_cons in Hd as [Hd _]. set_solver.
  - apply list.NoDup_cons in Hd as [_ Hd]. destruct (IH l1') as [-> ->]; done.
Qed.

Lemma filter_ne_id `{EqDecision A} (b : A) (l : list A) : b ∉ l -> filter (fun c => c <> b) l = l.
Proof.
  induction l as [|x l IH]; [done|]. intros [H1 H2]%not_elem_of_cons. rewrite filter_cons_True by congruence. by rewrite IH.
Qed.

(** One occurrence removed. *)
Fixpoint remove_one `{EqDecision A} (e : A) (l : list A) : list A :=
  match l with [] => [] | x :: l => if decide (x = e) then l else x :: remove_one e l end.
Lemma remove_one_perm `{EqDecision A} (e : A) (l : list A) : e ∈ l -> l ≡ₚ e :: remove_one e l.
Proof.
  induction l as [|x l IH]; [by intros ?%elem_of_nil|]. cbn. intros H. destruct (decide (x = e)) as [->|Hne]; [done|]. apply elem_of_cons in H as [->|H]; [done|].
  rewrite (IH H) at 1. by constructor.
Qed.

End Lists.

(** ** Sorted lists *)

Section Sorted.
Context {A : Type} (R : A -> A -> Prop).

Lemma sorted_partition (P : A -> bool) l :
  StronglySorted R l -> (forall x y, R x y -> P x = true -> P y = true) ->
  exists l1 l2, l = l1 ++ l2 /\ Forall (fun y => P y = false) l1 /\ Forall (fun y => P y = true) l2.
Proof.
  intros Hs HP. induction Hs as [|x l Hs IH Hx]; [exists [], []; by split_and!; constructor|]. destruct (P x) eqn:E.
  - exists [], (x :: l). split_and!; [done|constructor|]. constructor; [done|]. eapply Forall_impl; [exact Hx|]. eauto.
  - destruct IH as (l1 & l2 & -> & H1 & H2). exists (x :: l1), l2. split_and!; [done|by constructor|done].
Qed.

Lemma sorted_insert l1 x l2 :
  StronglySorted R (l1 ++ l2) -> Forall (fun y => R y x) l1 -> Forall (R x) l2 ->
  StronglySorted R (l1 ++ x :: l2).
Proof.
  intros Hs H1 H2. induction H1 as [|y l1 Hy H1 IH]; cbn in *; [by constructor|].
  apply StronglySorted_cons in Hs as [Hf Hs]. constructor; [by apply IH|].
  apply Forall_app in Hf as [? ?]. apply Forall_app. split; [done|by constructor].
Qed.

Lemma sorted_remove l1 x l2 : StronglySorted R (l1 ++ x :: l2) -> StronglySorted R (l1 ++ l2).
Proof.
  induction l1 as [|y l1 IH]; cbn; intros Hs; apply StronglySorted_cons in Hs as [Hf Hs]; [done|].
  constructor; [by apply IH|]. apply Forall_app in Hf as [? Hf]. apply Forall_cons in Hf as [? ?].
  by apply Forall_app.
Qed.

End Sorted.

Lemma sorted_impl {A} (R R' : A -> A -> Prop) l :
  (forall x y, x ∈ l -> y ∈ l -> R x y -> R' x y) -> StronglySorted R l -> StronglySorted R' l.
Proof.
  intros H Hs. induction Hs as [|x l Hs IH Hx]; constructor.
  - apply IH. intros y z Hy Hz. apply H; by right.
  - rewrite Forall_forall in Hx |- *. intros y Hy. apply H; [by left|by right|by apply Hx].
Qed.
