(* ===== verification/CLib.v ===== *)
(** * The C library as the sources use it

    Bytes are integers in [[0, 256)]; a C buffer is the list of the bytes readable
    from the pointer on, so a pointer that moves forward is a suffix.  The functions
    that would read past the end of their buffer return [None].

    The outcome of every [malloc], [realloc] and [strdup] is decided by a [heap]
    argument, a list of answers (an exhausted list means that memory is available),
    so the error paths are values of the models.  The character classes are those
    of the C locale. *)

From S2P Require Import Prelude.

Local Open Scope Z_scope.

(** ** The environment *)

Definition heap := list bool.

(** The answer to an allocation and the answers left. *)
Definition malloc (h : heap) : bool * heap :=
  match h with [] => (true, []) | b :: h => (b, h) end.

(** [memcpy] from a buffer: the first [n] bytes. *)
Definition memcpy (n : Z) (src : list Z) : option (list Z) :=
  if (0 <=? n) && (n <=? len src) then Some (take (Z.to_nat n) src) else None.

(** Overwrite the bytes of a buffer from offset [off]. *)
Definition write (off : Z) (bs buf : list Z) : option (list Z) :=
  if (0 <=? off) && (off + len bs <=? len buf) then
    Some (take (Z.to_nat off) buf ++ bs ++ drop (Z.to_nat off + length bs) buf)
  else None.

Definition tolower (c : Z) : Z := if (65 <=? c) && (c <=? 90) then c + 32 else c.

(** [strncasecmp(a, b, n) == 0]; a buffer is followed by a NUL. *)
Fixpoint strncasecmp_eq (n : nat) (a b : list Z) : bool :=
  match n with
  | O => true
  | S n =>
      let x := hd NUL a in let y := hd NUL b in
      (tolower x =? tolower y) && ((x =? NUL) || strncasecmp_eq n (tl a) (tl b))
  end.

(** [strlen] of the string a buffer starts with; [None] when no NUL follows. *)
Fixpoint strlen (s : list Z) : option Z :=
  match s with
  | [] => None
  | c :: s => if c =? NUL then Some 0 else n ← strlen s; Some (n + 1)
  end.

(** [strchr(s, c)]: the text before the first [c] and the text after it. *)
Fixpoint strchr_split (c : Z) (s : list Z) : option (list Z * list Z) :=
  match s with
  | [] => None
  | x :: s =>
      if x =? c then Some ([], s)
      else '(a, b) ← strchr_split c s; Some (x :: a, b)
  end.

Definition is_digit (c : Z) : bool := (48 <=? c) && (c <=? 57).

(** The decimal number a string starts with ([atol] of a string that starts with
    a digit and has at most 15 characters). *)
Fixpoint atol_digits (acc : Z) (s : list Z) : Z :=
  match s with
  | c :: s => if is_digit c then atol_digits (10 * acc + (c - 48)) s else acc
  | [] => acc
  end.

Definition isspace (c : Z) : bool := (c =? 32) || ((9 <=? c) && (c <=? 13)).

Definition hex_value (c : Z) : option Z :=
  if is_digit c then Some (c - 48)
  else if (97 <=? c) && (c <=? 102) then Some (c - 87)
  else if (65 <=? c) && (c <=? 70) then Some (c - 55)
  else None.

(** The hexadecimal digits a string starts with: their value, and how many. *)
Fixpoint hex_digits (acc : Z) (s : list Z) : Z * nat :=
  match s with
  | c :: s =>
      match hex_value c with
      | Some v => let '(r, n) := hex_digits (16 * acc + v) s in (r, S n)
      | None => (acc, O)
      end
  | [] => (acc, O)
  end.

(** [strtol(s, &end, 16)]: [None] when no conversion is performed ([end == s]).
    White space, a sign and a [0x] prefix are accepted; the result saturates. *)
Definition strtol16 (s : list Z) : option Z :=
  let fix skip (s : list Z) : list Z :=
    match s with c :: s' => if isspace c then skip s' else s | [] => [] end in
  let s := skip s in
  let '(neg, s) :=
    match s with
    | c :: s' => if c =? 45 then (true, s') else if c =? 43 then (false, s') else (false, s)
    | [] => (false, [])
    end in
  let s :=
    match s with
    | z :: x :: s' =>
        if (z =? 48) && (tolower x =? 120) && (0 <? snd (hex_digits 0 s'))%nat then s' else s
    | _ => s
    end in
  let '(v, n) := hex_digits 0 s in
  if (n =? 0)%nat then None
  else Some (if neg : bool then Z.max (- 2 ^ 63) (- v) else Z.min (2 ^ 63 - 1) v).

Lemma memcpy_all (v : list Z) : memcpy (len v) v = Some v.
Proof. unfold memcpy. replace (_ && _) with true by lia. f_equal. rewrite Nat2Z.id. by apply firstn_all. Qed.
