(* ===== verification/ListHead.v ===== *)
(** * The intrusive lists of [src/kernel/list.h]

    A [struct list_head] lives at an address and holds two addresses; the store
    is a finite map from addresses to such cells, every access to an address
    that is not allocated is undefined behaviour ([None]).  The operations are
    sequences of field stores in the order of the source.  [is_list] says that
    a head is the entry of a circular doubly linked list of given nodes; the
    theorems show that every operation implements the corresponding operation
    on sequences, aliasing of head, predecessor and successor included.  The
    second half does the same for the singly linked [slist]. *)

From S2P Require Import Prelude.

Abbreviation loc := positive.

Module ListHead.

Record list_head := mk_list_head { next : loc; prev : loc }.

Abbreviation heap := (gmap loc list_head).

(** Field accesses: [None] is an access through a wild pointer. *)
Definition get_next (p : loc) (h : heap) : option loc := next <$> h !! p.
Definition get_prev (p : loc) (h : heap) : option loc := prev <$> h !! p.

Definition set_next (p v : loc) (h : heap) : option heap :=
  n ← h !! p; Some (<[p := mk_list_head v (prev n)]> h).
Definition set_prev (p v : loc) (h : heap) : option heap :=
  n ← h !! p; Some (<[p := mk_list_head (next n) v]> h).

Definition INIT_LIST_HEAD (list : loc) (h : heap) : option heap :=
  h ← set_next list list h;
  set_prev list list h.

Definition __list_add (entry prev next : loc) (h : heap) : option heap :=
  h ← set_prev next entry h;
  h ← set_next entry next h;
  h ← set_prev entry prev h;
  set_next prev entry h.

Definition list_add (entry head : loc) (h : heap) : option heap :=
  n ← get_next head h;
  __list_add entry head n h.

Definition list_add_tail (entry head : loc) (h : heap) : option heap :=
  p ← get_prev head h;
  __list_add entry p head h.

Definition __list_del (prev next : loc) (h : heap) : option heap :=
  h ← set_prev next prev h;
  set_next prev next h.

Definition list_del (entry : loc) (h : heap) : option heap :=
  p ← get_prev entry h;
  n ← get_next entry h;
  __list_del p n h.

Definition list_move (entry head : loc) (h : heap) : option heap :=
  p ← get_prev entry h;
  n ← get_next entry h;
  h ← __list_del p n h;
  list_add entry head h.

Definition list_move_tail (entry head : loc) (h : heap) : option heap :=
  p ← get_prev entry h;
  n ← get_next entry h;
  h ← __list_del p n h;
  list_add_tail entry head h.

Definition list_empty (head : loc) (h : heap) : option bool :=
  n ← get_next head h;
  Some (bool_decide (n = head)).

Definition __list_splice (list prev next : loc) (h : heap) : option heap :=
  first ← get_next list h;
  last ← get_prev list h;
  h ← set_prev first prev h;
  h ← set_next prev first h;
  h ← set_next last next h;
  set_prev next last h.

Definition list_splice (list head : loc) (h : heap) : option heap :=
  e ← list_empty list h;
  if (e : bool) then Some h
  else (n ← get_next head h; __list_splice list head n h).

Definition list_splice_init (list head : loc) (h : heap) : option heap :=
  e ← list_empty list h;
  if (e : bool) then Some h
  else (n ← get_next head h;
        h ← __list_splice list head n h;
        INIT_LIST_HEAD list h).

(** [list_for_each(pos, head)]: the nodes the loop visits, [None] when the fuel
    runs out before the loop is back at the head. *)
Fixpoint list_walk (fuel : nat) (pos head : loc) (h : heap) : option (list loc) :=
  match fuel with
  | O => None
  | S fuel =>
      if decide (pos = head) then Some []
      else (n ← get_next pos h; xs ← list_walk fuel n head h; Some (pos :: xs))
  end.

Definition list_for_each (fuel : nat) (head : loc) (h : heap) : option (list loc) :=
  n ← get_next head h;
  list_walk fuel n head h.

Fixpoint list_walk_prev (fuel : nat) (pos head : loc) (h : heap) : option (list loc) :=
  match fuel with
  | O => None
  | S fuel =>
      if decide (pos = head) then Some []
      else (n ← get_prev pos h; xs ← list_walk_prev fuel n head h; Some (pos :: xs))
  end.

Definition list_for_each_prev (fuel : nat) (head : loc) (h : heap) : option (list loc) :=
  n ← get_prev head h;
  list_walk_prev fuel n head h.

(** ** Representation *)

Implicit Types (h : heap) (l xs ys A B : list loc).
Implicit Types (p q n e x y head pos entry : loc).

(** [y] follows [x]. *)
Definition edge (h : heap) (x y : loc) : Prop :=
  get_next x h = Some y /\ get_prev y h = Some x.

(** Consecutive nodes of a sequence are linked both ways. *)
Fixpoint chain (h : heap) (l : list loc) : Prop :=
  match l with
  | x :: ((y :: _) as t) => edge h x y /\ chain h t
  | _ => True
  end.

(** The circular list entered at [head] holds the nodes [xs], in this order. *)
Definition is_list (h : heap) (head : loc) (xs : list loc) : Prop :=
  NoDup (head :: xs) /\ chain h (head :: xs ++ [head]).

Lemma chain_app h l1 x l2 :
  chain h (l1 ++ x :: l2) <-> chain h (l1 ++ [x]) /\ chain h (x :: l2).
Proof.
  induction l1 as [|a l1 IH]; [cbn; tauto|].
  destruct l1 as [|b l1]; cbn [app chain] in *; [tauto|]. rewrite IH. tauto.
Qed.

Lemma chain_edge h l1 x y l2 :
  chain h (l1 ++ x :: y :: l2) <->
  chain h (l1 ++ [x]) /\ edge h x y /\ chain h (y :: l2).
Proof. rewrite chain_app. cbn [chain]. tauto. Qed.

(** A chain survives stores that leave its forward links (all nodes but the
    last) and its backward links (all nodes but the first) alone. *)
Lemma chain_frame h h' l :
  chain h l ->
  (forall q, q ∈ removelast l -> get_next q h' = get_next q h) ->
  (forall q, q ∈ tail l -> get_prev q h' = get_prev q h) ->
  chain h' l.
Proof.
  induction l as [|x l IH]; [done|]. destruct l as [|y l]; [done|].
  intros [[Hn Hp] Hc] Fn Fp. split; [split|].
  - rewrite Fn; [done|]. cbn. set_solver.
  - rewrite Fp; [done|]. cbn. set_solver.
  - apply IH; [done| |]; intros q Hq; [apply Fn | apply Fp]; cbn in *; set_solver.
Qed.

Lemma chain_frame_heap h h' l :
  chain h l -> (forall q, q ∈ l -> h' !! q = h !! q) -> chain h' l.
Proof.
  intros Hc F. eapply chain_frame; [done| |]; intros q Hq;
    unfold get_next, get_prev; rewrite F; try done.
  - clear -Hq. induction l as [|x [|y l] IH]; cbn in *; set_solver.
  - destruct l; cbn in *; set_solver.
Qed.

Lemma is_list_frame h h' head xs :
  is_list h head xs -> (forall q, q ∈ head :: xs -> h' !! q = h !! q) ->
  is_list h' head xs.
Proof.
  intros [Hd Hc] F. split; [done|]. eapply chain_frame_heap; [done|].
  intros q Hq. apply F. set_solver.
Qed.

(** ** Stores *)

(** [h'] is [h] after [p.next = v] (resp. [p.prev = v]). *)
Definition next_upd (p v : loc) (h h' : heap) : Prop :=
  (forall q, get_next q h' = if decide (q = p) then Some v else get_next q h) /\
  (forall q, get_prev q h' = get_prev q h) /\
  (forall q, q <> p -> h' !! q = h !! q).
Definition prev_upd (p v : loc) (h h' : heap) : Prop :=
  (forall q, get_prev q h' = if decide (q = p) then Some v else get_prev q h) /\
  (forall q, get_next q h' = get_next q h) /\
  (forall q, q <> p -> h' !! q = h !! q).

Lemma set_next_ok p v h :
  is_Some (h !! p) -> exists h', set_next p v h = Some h' /\ next_upd p v h h' /\
  (forall q, is_Some (h !! q) -> is_Some (h' !! q)).
Proof.
  intros [n Hn]. unfold set_next. rewrite Hn. cbn. eexists. split; [done|].
  split; [split_and!|]; unfold get_next, get_prev; intros q; try intros Hq;
    destruct (decide (q = p)) as [->|]; rewrite ?lookup_insert_eq,
      ?lookup_insert_ne by done; rewrite ?Hn; done || eauto.
Qed.

Lemma set_prev_ok p v h :
  is_Some (h !! p) -> exists h', set_prev p v h = Some h' /\ prev_upd p v h h' /\
  (forall q, is_Some (h !! q) -> is_Some (h' !! q)).
Proof.
  intros [n Hn]. unfold set_prev. rewrite Hn. cbn. eexists. split; [done|].
  split; [split_and!|]; unfold get_next, get_prev; intros q; try intros Hq;
    destruct (decide (q = p)) as [->|]; rewrite ?lookup_insert_eq,
      ?lookup_insert_ne by done; rewrite ?Hn; done || eauto.
Qed.

(** Execute the next store of the program and remember its effect. *)
Ltac store :=
  match goal with
  | |- context [mbind _ (set_prev ?p ?v ?h)] =>
      let E := fresh "E" in let U := fresh "U" in let S := fresh "S" in
      destruct (set_prev_ok p v h) as (? & E & U & S);
      [by eauto 10 | rewrite E; cbn [mbind option_bind]; clear E]
  | |- context [mbind _ (set_next ?p ?v ?h)] =>
      let E := fresh "E" in let U := fresh "U" in let S := fresh "S" in
      destruct (set_next_ok p v h) as (? & E & U & S);
      [by eauto 10 | rewrite E; cbn [mbind option_bind]; clear E]
  | |- context [set_prev ?p ?v ?h] =>
      let E := fresh "E" in let U := fresh "U" in let S := fresh "S" in
      destruct (set_prev_ok p v h) as (? & E & U & S); [by eauto 10 | rewrite E; clear E]
  | |- context [set_next ?p ?v ?h] =>
      let E := fresh "E" in let U := fresh "U" in let S := fresh "S" in
      destruct (set_next_ok p v h) as (? & E & U & S); [by eauto 10 | rewrite E; clear E]
  end.

(** Two addresses are known to differ. *)
Ltac differ := first [assumption | apply not_eq_sym; assumption | set_solver].

(** Read a field off the accumulated stores. *)
Ltac fields :=
  repeat match goal with
  | U : next_upd _ _ _ ?h |- context [get_next _ ?h] => rewrite (proj1 U)
  | U : next_upd _ _ _ ?h |- context [get_prev _ ?h] => rewrite (proj1 (proj2 U))
  | U : prev_upd _ _ _ ?h |- context [get_prev _ ?h] => rewrite (proj1 U)
  | U : prev_upd _ _ _ ?h |- context [get_next _ ?h] => rewrite (proj1 (proj2 U))
  | U : next_upd _ _ _ ?h |- context [?h !! _] => rewrite (proj2 (proj2 U)) by differ
  | U : prev_upd _ _ _ ?h |- context [?h !! _] => rewrite (proj2 (proj2 U)) by differ
  | |- context [decide (?q = ?q)] => rewrite (decide_True _ _ (eq_refl q))
  | |- context [decide (?q = ?p)] => rewrite (decide_False (P := q = p)) by differ
  end.

Lemma get_next_alloc p h n : get_next p h = Some n -> is_Some (h !! p).
Proof. unfold get_next. destruct (h !! p); naive_solver. Qed.
Lemma get_prev_alloc p h n : get_prev p h = Some n -> is_Some (h !! p).
Proof. unfold get_prev. destruct (h !! p); naive_solver. Qed.
#[local] Hint Resolve get_next_alloc get_prev_alloc : core.

(** ** Insertion *)

(** Linking [entry] between the neighbours [p] and [n]. *)
Lemma __list_add_chain h p n entry :
  edge h p n -> is_Some (h !! entry) -> entry <> p -> entry <> n ->
  exists h', __list_add entry p n h = Some h' /\ edge h' p entry /\ edge h' entry n /\
    (forall q, q <> entry -> q <> p -> get_next q h' = get_next q h) /\
    (forall q, q <> entry -> q <> n -> get_prev q h' = get_prev q h) /\
    (forall q, q <> entry -> q <> p -> q <> n -> h' !! q = h !! q).
Proof.
  intros [Hn Hp] He Hep Hen. unfold __list_add. repeat store.
  eexists. split; [done|]. unfold edge. split_and!; intros; fields; done.
Qed.

(** What a cut of the circle [head :: l1 ++ l2] between [p] (the last node of
    [head :: l1]) and [n] (the first of [l2 ++ [head]]) knows. *)
Lemma cut_facts head l1 l2 A p n B :
  NoDup (head :: l1 ++ l2) -> head :: l1 = A ++ [p] -> l2 ++ [head] = n :: B ->
  (p ∉ A) /\ (p ∉ l2) /\ (n ∉ B) /\ (n ∉ l1) /\
  (p ∈ head :: l1) /\ (n ∈ head :: l2).
Proof.
  intros Hd E1 E2.
  assert (Hd1 : NoDup (A ++ p :: l2))
    by (replace (A ++ p :: l2) with ((A ++ [p]) ++ l2) by (by rewrite <- app_assoc);
        by rewrite <- E1).
  assert (Hd2 : NoDup (l1 ++ n :: B)).
  { rewrite <- E2, app_assoc. apply NoDup_middle_iff. rewrite app_nil_r.
    apply list.NoDup_cons in Hd as [? ?]. split_and!; set_solver. }
  apply NoDup_middle_iff in Hd1, Hd2. split_and!; try tauto.
  - rewrite E1. set_solver.
  - assert (n ∈ l2 ++ [head]) by (rewrite E2; set_solver). set_solver.
Qed.

Lemma cycle_cut head l1 l2 A p n B :
  head :: l1 = A ++ [p] -> l2 ++ [head] = n :: B ->
  head :: (l1 ++ l2) ++ [head] = A ++ p :: n :: B.
Proof.
  intros E1 E2. rewrite <- app_assoc, E2, app_comm_cons, E1, <- app_assoc. done.
Qed.

(** Every circle can be cut anywhere. *)
Lemma cut_exists head (l1 l2 : list loc) :
  exists A p n B, head :: l1 = A ++ [p] /\ l2 ++ [head] = n :: B.
Proof.
  destruct (exists_last (l := head :: l1)) as (A & p & E1); [done|].
  destruct (l2 ++ [head]) as [|n B] eqn:E2; [by destruct l2|]. eauto 10.
Qed.

(** [__list_add] inserts at the cut. *)
Lemma __list_add_spec h head l1 l2 A p n B entry :
  is_list h head (l1 ++ l2) -> head :: l1 = A ++ [p] -> l2 ++ [head] = n :: B ->
  entry ∉ head :: l1 ++ l2 -> is_Some (h !! entry) ->
  exists h', __list_add entry p n h = Some h' /\ is_list h' head (l1 ++ entry :: l2) /\
    (forall q, q ∉ entry :: head :: l1 ++ l2 -> h' !! q = h !! q).
Proof.
  intros [Hd Hc] E1 E2 He Ha.
  destruct (cut_facts _ _ _ _ _ _ _ Hd E1 E2) as (HpA & Hp2 & HnB & Hn1 & Hp & Hn).
  rewrite (cycle_cut _ _ _ _ _ _ _ E1 E2), chain_edge in Hc.
  destruct Hc as (HcA & He0 & HcB).
  destruct (__list_add_chain h p n entry) as (h' & -> & Ep & En & Fn & Fp & F);
    [done..|set_solver|set_solver|].
  exists h'. split; [done|]. split; [split|].
  - rewrite app_comm_cons in Hd |- *. apply NoDup_middle_iff. set_solver.
  - rewrite <- app_assoc. cbn [app].
    rewrite app_comm_cons, E1, E2, <- app_assoc. cbn [app].
    rewrite chain_edge.
    split_and!; [|done|].
    + eapply chain_frame; [done| |]; intros q Hq.
      * rewrite removelast_last in Hq. apply Fn; [|set_solver].
        assert (q ∈ head :: l1) by (rewrite E1; set_solver). set_solver.
      * rewrite <- E1 in Hq. cbn in Hq. apply Fp; set_solver.
    + split; [done|]. eapply chain_frame; [done| |]; intros q Hq.
      * rewrite <- E2, removelast_last in Hq. apply Fn; set_solver.
      * cbn in Hq. apply Fp; [|set_solver].
        assert (q ∈ l2 ++ [head]) by (rewrite E2; set_solver). set_solver.
  - intros q Hq. apply F; set_solver.
Qed.

Lemma is_list_next h head l1 l2 n B :
  is_list h head (l1 ++ l2) -> l2 ++ [head] = n :: B ->
  forall A p, head :: l1 = A ++ [p] -> edge h p n.
Proof.
  intros [_ Hc] E2 A p E1.
  rewrite (cycle_cut _ _ _ _ _ _ _ E1 E2), chain_edge in Hc. tauto.
Qed.

(** [list_add] inserts after a node of the circle, the head included. *)
Lemma list_add_spec h head l1 l2 A pos entry :
  is_list h head (l1 ++ l2) -> head :: l1 = A ++ [pos] ->
  entry ∉ head :: l1 ++ l2 -> is_Some (h !! entry) ->
  exists h', list_add entry pos h = Some h' /\ is_list h' head (l1 ++ entry :: l2) /\
    (forall q, q ∉ entry :: head :: l1 ++ l2 -> h' !! q = h !! q).
Proof.
  intros Hl E1 He Ha. destruct (l2 ++ [head]) as [|n B] eqn:E2; [by destruct l2|].
  unfold list_add. rewrite (proj1 (is_list_next _ _ _ _ _ _ Hl E2 _ _ E1)). cbn.
  by eapply __list_add_spec.
Qed.

(** [list_add_tail] inserts before a node of the circle, the head included. *)
Lemma list_add_tail_spec h head l1 l2 pos B entry :
  is_list h head (l1 ++ l2) -> l2 ++ [head] = pos :: B ->
  entry ∉ head :: l1 ++ l2 -> is_Some (h !! entry) ->
  exists h', list_add_tail entry pos h = Some h' /\ is_list h' head (l1 ++ entry :: l2) /\
    (forall q, q ∉ entry :: head :: l1 ++ l2 -> h' !! q = h !! q).
Proof.
  intros Hl E2 He Ha.
  destruct (exists_last (l := head :: l1)) as (A & p & E1); [done|].
  unfold list_add_tail. rewrite (proj2 (is_list_next _ _ _ _ _ _ Hl E2 _ _ E1)). cbn.
  by eapply __list_add_spec.
Qed.

(** ** Removal *)

(** Closing the gap between the neighbours [p] and [n] of a node. *)
Lemma __list_del_chain h p n e :
  edge h p e -> edge h e n ->
  exists h', __list_del p n h = Some h' /\ edge h' p n /\
    (forall q, q <> p -> get_next q h' = get_next q h) /\
    (forall q, q <> n -> get_prev q h' = get_prev q h) /\
    (forall q, q <> p -> q <> n -> h' !! q = h !! q) /\
    (forall q, is_Some (h !! q) -> is_Some (h' !! q)).
Proof.
  intros [Hn1 Hp1] [Hn2 Hp2]. unfold __list_del. repeat store.
  eexists. split; [done|]. unfold edge. split_and!; intros; fields; eauto.
Qed.

(** [list_del] removes a node wherever it stands; its own cell is untouched. *)
Lemma list_del_spec h head l1 e l2 :
  is_list h head (l1 ++ e :: l2) ->
  exists h' p n, get_prev e h = Some p /\ get_next e h = Some n /\
    __list_del p n h = Some h' /\ is_list h' head (l1 ++ l2) /\
    (forall q, q ∉ head :: l1 ++ l2 -> h' !! q = h !! q) /\
    (forall q, is_Some (h !! q) -> is_Some (h' !! q)).
Proof.
  intros [Hd Hc]. destruct (cut_exists head l1 l2) as (A & p & n & B & E1 & E2).
  assert (Hd' : NoDup (head :: l1 ++ l2)).
  { rewrite app_comm_cons in Hd |- *. by apply NoDup_middle_iff in Hd as (_ & _ & ?). }
  destruct (cut_facts _ _ _ _ _ _ _ Hd' E1 E2) as (HpA & Hp2 & HnB & Hn1 & Hp & Hn).
  rewrite <- app_assoc, app_comm_cons, E1, <- app_assoc in Hc. cbn [app] in Hc.
  rewrite E2 in Hc. apply chain_edge in Hc as (HcA & Hpe & Hen & HcB).
  destruct (__list_del_chain h p n e) as (h' & Hrun & Hpn & Fn & Fp & F & S); [done..|].
  exists h', p, n. destruct Hpe, Hen. split_and!; try done.
  - split; [done|].
    rewrite (cycle_cut _ _ _ _ _ _ _ E1 E2), chain_edge. split_and!; [|done|].
    + eapply chain_frame; [done| |]; intros q Hq.
      * rewrite removelast_last in Hq. apply Fn. set_solver.
      * rewrite <- E1 in Hq. apply Fp. set_solver.
    + eapply chain_frame; [done| |]; intros q Hq.
      * rewrite <- E2, removelast_last in Hq. apply Fn. set_solver.
      * apply Fp. set_solver.
  - intros q Hq. apply F; set_solver.
Qed.

(** ** Moving, splicing, walking *)

Lemma list_del_run h head l1 e l2 :
  is_list h head (l1 ++ e :: l2) ->
  exists h', list_del e h = Some h' /\ is_list h' head (l1 ++ l2) /\
    (forall q, q ∉ head :: l1 ++ l2 -> h' !! q = h !! q).
Proof.
  intros Hl. destruct (list_del_spec _ _ _ _ _ Hl) as (h' & p & n & Hp & Hn & Hr & ? & ? & _).
  exists h'. unfold list_del. rewrite Hp, Hn. cbn. eauto.
Qed.

(** Every node of a list is allocated. *)
Lemma is_list_alloc h head xs q : is_list h head xs -> q ∈ head :: xs -> is_Some (h !! q).
Proof.
  intros [_ Hc] Hq. cut (exists n, get_next q h = Some n); [intros [n ?]; eauto|].
  change (head :: xs ++ [head]) with ((head :: xs) ++ [head]) in Hc.
  apply list_elem_of_split in Hq as (l1 & l2 & E). rewrite E, <- app_assoc in Hc.
  destruct l2 as [|y l2]; cbn [app] in Hc; apply chain_edge in Hc as (_ & [? _] & _); eauto.
Qed.

(** Two lists have no node in common. *)
Definition apart (head : loc) (xs : list loc) (head' : loc) (ys : list loc) : Prop :=
  forall q, q ∈ head :: xs -> q ∈ head' :: ys -> False.

(** Moving a node from one list to the end of another: [list_move_tail]. *)
Lemma list_move_tail_apart h head l1 e l2 head' ys :
  is_list h head (l1 ++ e :: l2) -> is_list h head' ys ->
  apart head (l1 ++ e :: l2) head' ys ->
  exists h', list_move_tail e head' h = Some h' /\
    is_list h' head (l1 ++ l2) /\ is_list h' head' (ys ++ [e]) /\
    (forall q, q ∉ head :: l1 ++ l2 -> q ∉ e :: head' :: ys -> h' !! q = h !! q).
Proof.
  intros Hl Hl' Hap.
  destruct (list_del_spec _ _ _ _ _ Hl) as (h1 & p & n & Hp & Hn & Hr & Hl1 & F1 & S1).
  unfold apart in Hap.
  assert (He : e ∉ head :: l1 ++ l2).
  { destruct Hl as [Hd _]. rewrite app_comm_cons in Hd |- *.
    apply NoDup_middle_iff in Hd. set_solver. }
  assert (Hl1' : is_list h1 head' ys).
  { eapply is_list_frame; [done|]. intros q Hq. apply F1. intros Hq'.
    apply (Hap q); set_solver. }
  destruct (list_add_tail_spec h1 head' ys [] head' [] e) as (h2 & Hr2 & Hl2 & F2).
  - by rewrite app_nil_r.
  - done.
  - rewrite app_nil_r. intros Hq. apply (Hap e); set_solver.
  - apply S1. apply (is_list_alloc _ _ _ e Hl). set_solver.
  - exists h2. unfold list_move_tail. rewrite Hp, Hn. cbn. rewrite Hr. cbn.
    rewrite app_nil_r in F2. split_and!; [done| |done|].
    + eapply is_list_frame; [done|]. intros q Hq. apply F2. intros Hq'.
      apply elem_of_cons in Hq' as [->|Hq']; [done|]. apply (Hap q); set_solver.
    + intros q Hq Hq'. rewrite F2 by done. by apply F1.
Qed.

(** Moving a node within its own list puts it at the end. *)
Lemma list_move_tail_same h head l1 e l2 :
  is_list h head (l1 ++ e :: l2) ->
  exists h', list_move_tail e head h = Some h' /\ is_list h' head (l1 ++ l2 ++ [e]) /\
    (forall q, q ∉ head :: l1 ++ e :: l2 -> h' !! q = h !! q).
Proof.
  intros Hl.
  destruct (list_del_spec _ _ _ _ _ Hl) as (h1 & p & n & Hp & Hn & Hr & Hl1 & F1 & S1).
  assert (He : e ∉ head :: l1 ++ l2).
  { destruct Hl as [Hd _]. rewrite app_comm_cons in Hd |- *.
    apply NoDup_middle_iff in Hd. set_solver. }
  destruct (list_add_tail_spec h1 head (l1 ++ l2) [] head [] e) as (h2 & Hr2 & Hl2 & F2).
  - by rewrite app_nil_r.
  - done.
  - by rewrite app_nil_r.
  - apply S1. apply (is_list_alloc _ _ _ e Hl). set_solver.
  - exists h2. unfold list_move_tail. rewrite Hp, Hn. cbn. rewrite Hr. cbn.
    rewrite app_nil_r in F2. rewrite app_assoc. split_and!; [done..|].
    intros q Hq. rewrite F2 by set_solver. apply F1. set_solver.
Qed.

Lemma list_empty_spec h head xs :
  is_list h head xs -> list_empty head h = Some (bool_decide (xs = [])).
Proof.
  intros [Hd Hc]. unfold list_empty.
  destruct xs as [|x xs]; cbn [app chain] in Hc; destruct Hc as [[Hn _] _];
    rewrite Hn; cbn; f_equal.
  - by rewrite !bool_decide_true.
  - rewrite !bool_decide_false; [done..|]. intros ->.
    apply list.NoDup_cons in Hd as [Hd _]. set_solver.
Qed.

Lemma list_walk_spec h x xs head fuel :
  chain h (x :: xs ++ [head]) -> head ∉ xs -> (length xs < fuel)%nat ->
  get_next x h ≫= (fun n => list_walk fuel n head h) = Some xs.
Proof.
  revert x fuel. induction xs as [|y xs IH]; intros x fuel [[Hn Hp] Hc] Hh Hf;
    cbn [app chain] in *; rewrite Hn; cbn [mbind option_bind];
    destruct fuel as [|fuel]; cbn [length] in *; try lia; cbn [list_walk].
  - by rewrite decide_True.
  - rewrite decide_False by set_solver. specialize (IH y fuel Hc).
    destruct (get_next y h) as [n|]; cbn [mbind option_bind] in *;
      [rewrite IH by (set_solver || lia); done|].
    discriminate IH; [set_solver|lia].
Qed.

Lemma list_walk_prev_spec h xs head y fuel :
  chain h (head :: xs ++ [y]) -> head ∉ xs -> (length xs < fuel)%nat ->
  get_prev y h ≫= (fun n => list_walk_prev fuel n head h) = Some (rev xs).
Proof.
  revert y fuel. induction xs as [|x xs IH] using rev_ind; intros y fuel Hc Hh Hf.
  - destruct Hc as [[Hn Hp] _]. rewrite Hp. cbn. destruct fuel; [cbn in Hf; lia|].
    cbn. by rewrite decide_True.
  - rewrite <- app_assoc in Hc. cbn [app] in Hc. rewrite app_comm_cons in Hc.
    apply chain_edge in Hc as (Hc & [_ Hp] & _).
    rewrite Hp. cbn [mbind option_bind]. rewrite length_app in Hf. cbn in Hf.
    destruct fuel as [|fuel]; [lia|]. cbn [list_walk_prev].
    rewrite decide_False by set_solver. specialize (IH x fuel Hc).
    rewrite rev_app_distr. cbn.
    destruct (get_prev x h) as [n|]; cbn [mbind option_bind] in *;
      [rewrite IH by (set_solver || lia); done|].
    discriminate IH; [set_solver|lia].
Qed.

(** The inner links of a list: without the head. *)
Lemma is_list_inner h head xs : is_list h head xs -> chain h xs.
Proof.
  intros [_ Hc]. destruct (exists_last (l := head :: xs)) as (A & p & E); [done|].
  change (head :: xs ++ [head]) with ((head :: xs) ++ [head]) in Hc.
  rewrite E, <- app_assoc in Hc. cbn [app] in Hc.
  apply chain_edge in Hc as (Hc & _ & _). rewrite <- E in Hc.
  destruct xs; [done|]. by destruct Hc.
Qed.

(** [__list_splice] of a non-empty list in front of the nodes of another. *)
Lemma __list_splice_spec h lst first xs last xs' head n ys B :
  is_list h lst xs -> xs = first :: xs' -> (exists A, xs = A ++ [last]) ->
  is_list h head ys -> ys ++ [head] = n :: B -> apart lst xs head ys ->
  exists h', __list_splice lst head n h = Some h' /\ is_list h' head (xs ++ ys) /\
    (forall q, q ∉ xs -> q ∉ head :: ys -> h' !! q = h !! q) /\
    (forall q, is_Some (h !! q) -> is_Some (h' !! q)).
Proof.
  intros Hl E1 [A E2] Hl' E3 Hap. unfold apart in Hap.
  pose proof (is_list_inner _ _ _ Hl) as Hin.
  assert (Hf : get_next lst h = Some first).
  { destruct Hl as [_ Hc]. subst xs. by destruct Hc as [[? _] _]. }
  assert (Hla : get_prev lst h = Some last).
  { destruct Hl as [_ Hc]. rewrite E2, <- app_assoc in Hc.
    rewrite app_comm_cons in Hc. by apply chain_edge in Hc as (_ & [_ ?] & _). }
  assert (Hn : n ∈ head :: ys).
  { assert (n ∈ ys ++ [head]) by (rewrite E3; set_solver). set_solver. }
  assert (first ∈ xs) by set_solver. assert (last ∈ xs) by (clear E1; set_solver).
  assert (is_Some (h !! first)) by (eapply (is_list_alloc _ _ _ _ Hl); set_solver).
  assert (is_Some (h !! last)) by (eapply (is_list_alloc _ _ _ _ Hl); set_solver).
  assert (is_Some (h !! head)) by (eapply (is_list_alloc _ _ _ _ Hl'); set_solver).
  assert (is_Some (h !! n)) by (eapply (is_list_alloc _ _ _ _ Hl'); set_solver).
  assert (Hd : NoDup (head :: xs ++ ys)).
  { destruct Hl as [Hd1 _], Hl' as [Hd2 _].
    apply list.NoDup_cons in Hd1 as [? ?], Hd2 as [? ?]. apply list.NoDup_cons.
    rewrite list.NoDup_app. split_and!; set_solver. }
  assert (Hx : forall q, q ∈ xs -> q <> head /\ q <> n).
  { intros q Hq. pose proof (Hap q). split; intros ->; set_solver. }
  assert (HfA : last ∉ A).
  { destruct Hl as [Hd1 _]. subst xs. rewrite E2, app_comm_cons in Hd1.
    apply NoDup_middle_iff in Hd1. set_solver. }
  assert (Hfx : first ∉ xs').
  { destruct Hl as [Hd1 _]. subst xs. apply list.NoDup_cons in Hd1 as [_ Hd1].
    by apply list.NoDup_cons in Hd1 as [? _]. }
  destruct (cut_facts head [] ys [] head n B) as (_ & Hh & HnB & _ & _ & _);
    [by destruct Hl'|done|done|].
  unfold __list_splice. rewrite Hf, Hla. cbn [mbind option_bind]. repeat store.
  eexists. split; [done|]. split; [split; [done|]|split].
  - rewrite <- app_assoc, E3. rewrite E2 at 1.
    replace (head :: (A ++ [last]) ++ n :: B) with ((head :: A) ++ last :: n :: B)
      by (cbn; by rewrite <- app_assoc).
    apply chain_edge. cbn [app]. rewrite <- E2. subst xs. split_and!; [|split|].
    + destruct (Hx first), (Hx last); [done..|]. split; [split|].
      * fields. done.
      * fields. done.
      * eapply chain_frame; [exact Hin| |]; intros q Hq.
        -- rewrite E2, removelast_last in Hq.
           assert (q <> last) by (by intros ->).
           destruct (Hx q); [rewrite E2; apply elem_of_app; by left|]. fields. done.
        -- cbn in Hq. assert (q <> first) by (by intros ->).
           destruct (Hx q); [by right|]. fields. done.
    + destruct (Hx last); [done|]. fields. done.
    + fields. done.
    + destruct Hl' as [_ Hc']. rewrite E3 in Hc'. destruct Hc' as [_ Hc'].
      eapply chain_frame; [exact Hc'| |]; intros q Hq.
      * rewrite <- E3, removelast_last in Hq.
        assert (q <> head) by (by intros ->).
        assert (q <> last) by (intros ->; apply (Hap last); by right). fields. done.
      * cbn in Hq. assert (q ∈ head :: ys).
        { assert (q ∈ ys ++ [head]) as [?|?%list_elem_of_singleton]%elem_of_app
            by (rewrite E3; by right); apply elem_of_cons; tauto. }
        assert (q <> n) by (by intros ->).
        assert (q <> first) by (intros ->; apply (Hap first); [by right|done]). fields. done.
  - intros q Hq Hq'.
    assert (q <> first /\ q <> last) as [? ?] by (split; by intros ->).
    assert (q <> n /\ q <> head) as [? ?] by (split; intros ->; [done|]; apply Hq'; by left).
    fields. done.
  - eauto 10.
Qed.

(** [list_splice_init]: the first list is moved, whole and in order, to the
    front of the second, and left empty. *)
Lemma list_splice_init_spec h lst xs head ys :
  is_list h lst xs -> is_list h head ys -> apart lst xs head ys ->
  exists h', list_splice_init lst head h = Some h' /\
    is_list h' lst [] /\ is_list h' head (xs ++ ys) /\
    (forall q, q ∉ lst :: xs -> q ∉ head :: ys -> h' !! q = h !! q).
Proof.
  intros Hl Hl' Hap. unfold list_splice_init. rewrite (list_empty_spec _ _ _ Hl).
  cbn [mbind option_bind]. destruct xs as [|first xs'].
  { rewrite bool_decide_true by done. eauto. }
  rewrite bool_decide_false by done.
  destruct (ys ++ [head]) as [|n B] eqn:E3; [by destruct ys|].
  destruct (exists_last (l := first :: xs')) as (A & last & E2); [done|].
  destruct (is_list_next h head [] ys n B Hl' E3 [] head) as [Hn _]; [done|].
  rewrite Hn. cbn [mbind option_bind].
  destruct (__list_splice_spec h lst first (first :: xs') last xs' head n ys B)
    as (h1 & -> & Hl1 & F1 & S1); eauto.
  cbn [mbind option_bind]. unfold INIT_LIST_HEAD.
  assert (is_Some (h1 !! lst)) by (apply S1, (is_list_alloc _ _ _ _ Hl); set_solver).
  repeat store. eexists. split; [done|]. unfold apart in Hap.
  destruct Hl as [Hd _]. apply list.NoDup_cons in Hd as [Hni _]. split_and!.
  - split; [apply NoDup_singleton|]. cbn. unfold edge. fields. done.
  - eapply is_list_frame; [done|]. intros q Hq.
    assert (q <> lst) by (intros ->; pose proof (Hap lst); set_solver). fields. done.
  - intros q Hq Hq'. fields. apply F1; set_solver.
Qed.

(** ** The list operations as operations on sequences *)

#[export] Instance edge_dec h x y : Decision (edge h x y).
Proof. unfold edge. apply _. Defined.

#[export] Instance chain_dec h l : Decision (chain h l).
Proof.
  induction l as [|x [|y l] IH]; [by left..|]. cbn [chain]. apply _.
Defined.

#[export] Instance is_list_dec h head xs : Decision (is_list h head xs).
Proof. unfold is_list. apply _. Defined.

(** [list_add] and [list_add_tail] insert a new node at any position of a
    circular list -- after (resp. before) the node given, the head and the
    empty list included: the call is defined, the new list is the old sequence
    with the entry inserted there, linked in both directions, and no other
    cell of memory is written. *)
Theorem list_insert_refines h head l1 l2 entry :
  is_list h head (l1 ++ l2) -> entry ∉ head :: l1 ++ l2 -> is_Some (h !! entry) ->
  (forall pos, last (head :: l1) = Some pos ->
     exists h', list_add entry pos h = Some h' /\ is_list h' head (l1 ++ entry :: l2) /\
       (forall q, q ∉ entry :: head :: l1 ++ l2 -> h' !! q = h !! q)) /\
  (forall pos, hd_error (l2 ++ [head]) = Some pos ->
     exists h', list_add_tail entry pos h = Some h' /\ is_list h' head (l1 ++ entry :: l2) /\
       (forall q, q ∉ entry :: head :: l1 ++ l2 -> h' !! q = h !! q)).
Proof.
  intros Hl He Ha. split; intros pos Hpos.
  - apply last_Some in Hpos as [A E]. by eapply list_add_spec.
  - destruct (l2 ++ [head]) as [|n B] eqn:E; [done|]. injection Hpos as ->.
    by eapply list_add_tail_spec.
Qed.

(** A head at 1 with the nodes 2, 3; a loose cell 4; another, empty list at 5. *)
Definition demo_heap : heap :=
  {[ 1%positive := mk_list_head 2 3; 2%positive := mk_list_head 3 1;
     3%positive := mk_list_head 1 2; 4%positive := mk_list_head 4 4;
     5%positive := mk_list_head 5 5 ]}.

Lemma list_insert_refines_witness :
  exists h', list_add 4 2 demo_heap = Some h' /\ is_list h' 1 [2; 4; 3]%positive.
Proof.
  destruct (list_insert_refines demo_heap 1 [2%positive] [3%positive] 4) as [H _].
  - apply (bool_decide_unpack _). vm_compute. exact I.
  - apply (bool_decide_unpack _). vm_compute. exact I.
  - apply (bool_decide_unpack _). vm_compute. exact I.
  - destruct (H 2%positive eq_refl) as (h' & ? & ? & _). exists h'. split; assumption.
Defined.

(** [list_move_tail] takes a node out of the list it is in and appends it
    to another list: both lists are well formed afterwards, the source keeps
    its other nodes in order, and memory outside the two lists is unchanged. *)
Theorem list_move_tail_refines h head l1 e l2 head' ys :
  is_list h head (l1 ++ e :: l2) -> is_list h head' ys ->
  apart head (l1 ++ e :: l2) head' ys ->
  exists h', list_move_tail e head' h = Some h' /\
    is_list h' head (l1 ++ l2) /\ is_list h' head' (ys ++ [e]) /\
    (forall q, q ∉ head :: l1 ++ l2 -> q ∉ e :: head' :: ys -> h' !! q = h !! q).
Proof. apply list_move_tail_apart. Qed.

Lemma list_move_tail_refines_witness :
  exists h', list_move_tail 2 5 demo_heap = Some h' /\
    is_list h' 1 [3%positive] /\ is_list h' 5 [2%positive].
Proof.
  destruct (list_move_tail_refines demo_heap 1 [] 2 [3%positive] 5 []) as (h' & ? & ? & ? & _).
  - apply (bool_decide_unpack _). vm_compute. exact I.
  - apply (bool_decide_unpack _). vm_compute. exact I.
  - intros q. set_solver.
  - exists h'. split_and!; assumption.
Defined.

(** [list_splice_init] moves a whole list, in order, in front of the nodes
    of another and leaves it empty, and walking the result forwards and
    backwards ([list_for_each], [list_for_each_prev]) visits exactly its nodes
    and terminates. *)
Theorem list_splice_init_refines h lst xs head ys :
  is_list h lst xs -> is_list h head ys -> apart lst xs head ys ->
  exists h', list_splice_init lst head h = Some h' /\
    list_empty lst h' = Some true /\ is_list h' lst [] /\ is_list h' head (xs ++ ys) /\
    (forall fuel, (length (xs ++ ys) < fuel)%nat ->
       list_for_each fuel head h' = Some (xs ++ ys) /\
       list_for_each_prev fuel head h' = Some (rev (xs ++ ys))).
Proof.
  intros Hl Hl' Hap.
  destruct (list_splice_init_spec _ _ _ _ _ Hl Hl' Hap) as (h' & Hr & H1 & H2 & _).
  exists h'. split_and!; try done.
  - by rewrite (list_empty_spec _ _ _ H1).
  - intros fuel Hf. destruct H2 as [Hd Hc]. apply list.NoDup_cons in Hd as [Hni _].
    split; [by apply list_walk_spec | by apply list_walk_prev_spec].
Qed.

Lemma list_splice_init_refines_witness :
  exists h', list_splice_init 1 5 demo_heap = Some h' /\ is_list h' 5 [2; 3]%positive.
Proof.
  destruct (list_splice_init_refines demo_heap 1 [2; 3]%positive 5 [])
    as (h' & ? & _ & _ & ? & _).
  - apply (bool_decide_unpack _). vm_compute. exact I.
  - apply (bool_decide_unpack _). vm_compute. exact I.
  - intros q. set_solver.
  - exists h'. split; assumption.
Defined.

End ListHead.

(** * The singly linked lists with a tail pointer *)

Module SList.

(** The store: the [next] field of every [slist_node] ([None] is NULL) and the
    [last] field of every [slist_head].  A head is addressed by its first
    member, the embedded node [first]: [&list->first] is the head's address. *)
Record slist_heap := mk_heap { nodes : gmap loc (option loc); lasts : gmap loc loc }.

Abbreviation heap := slist_heap.

Definition get_next (p : loc) (h : heap) : option (option loc) := nodes h !! p.
Definition get_last (l : loc) (h : heap) : option loc := lasts h !! l.
Definition set_next (p : loc) (v : option loc) (h : heap) : option heap :=
  _ ← nodes h !! p; Some (mk_heap (<[p := v]> (nodes h)) (lasts h)).
Definition set_last (l v : loc) (h : heap) : option heap :=
  _ ← lasts h !! l; Some (mk_heap (nodes h) (<[l := v]> (lasts h))).

Definition INIT_SLIST_HEAD (list : loc) (h : heap) : option heap :=
  h ← set_next list None h;
  set_last list list h.

Definition slist_add_after (entry prev list : loc) (h : heap) : option heap :=
  n ← get_next prev h;
  h ← set_next entry n h;
  h ← set_next prev (Some entry) h;
  n ← get_next entry h;
  match n with
  | None => set_last list entry h
  | Some _ => Some h
  end.

Definition slist_add_head (entry list : loc) (h : heap) : option heap :=
  slist_add_after entry list list h.

Definition slist_add_tail (entry list : loc) (h : heap) : option heap :=
  h ← set_next entry None h;
  l ← get_last list h;
  h ← set_next l (Some entry) h;
  set_last list entry h.

Definition slist_del_after (prev list : loc) (h : heap) : option heap :=
  n ← get_next prev h;
  p ← n;                       (* [prev->next->next]: NULL is not dereferenced *)
  nn ← get_next p h;
  h ← set_next prev nn h;
  match nn with
  | None => set_last list prev h
  | Some _ => Some h
  end.

Definition slist_del_head (list : loc) (h : heap) : option heap :=
  slist_del_after list list h.

Definition slist_empty (list : loc) (h : heap) : option bool :=
  n ← get_next list h;
  Some (bool_decide (n = None)).

Definition __slist_splice (list prev head : loc) (h : heap) : option heap :=
  l ← get_last list h;
  pn ← get_next prev h;
  h ← set_next l pn h;
  first ← get_next list h;
  h ← set_next prev first h;
  n ← get_next l h;
  match n with
  | None => set_last head l h
  | Some _ => Some h
  end.

Definition slist_splice (list prev head : loc) (h : heap) : option heap :=
  e ← slist_empty list h;
  if (e : bool) then Some h else __slist_splice list prev head h.

Definition slist_splice_init (list prev head : loc) (h : heap) : option heap :=
  e ← slist_empty list h;
  if (e : bool) then Some h
  else (h ← __slist_splice list prev head h; INIT_SLIST_HEAD list h).

(** ** Representation *)

Implicit Types (h : heap) (xs ys : list loc) (p q x head entry : loc).

(** [xs] hang below [p], the last of them points to NULL. *)
Fixpoint schain (h : heap) (p : loc) (xs : list loc) : Prop :=
  match xs with
  | [] => get_next p h = Some None
  | x :: xs => get_next p h = Some (Some x) /\ schain h x xs
  end.

Definition is_slist (h : heap) (head : loc) (xs : list loc) : Prop :=
  NoDup (head :: xs) /\ schain h head xs /\
  get_last head h = last (head :: xs).

(** [xs] lie between [p] and [x], which is the successor of the last of them. *)
Fixpoint sseg (h : heap) (p : loc) (xs : list loc) (x : loc) : Prop :=
  match xs with
  | [] => get_next p h = Some (Some x)
  | y :: xs => get_next p h = Some (Some y) /\ sseg h y xs x
  end.

Lemma schain_app h p l1 x l2 :
  schain h p (l1 ++ x :: l2) <-> sseg h p l1 x /\ schain h x l2.
Proof. revert p. induction l1 as [|y l1 IH]; intros p; cbn; [tauto|]. rewrite IH. tauto. Qed.

Lemma sseg_app h p l1 y l2 x :
  sseg h p (l1 ++ y :: l2) x <-> sseg h p l1 y /\ sseg h y l2 x.
Proof. revert p. induction l1 as [|z l1 IH]; intros p; cbn; [tauto|]. rewrite IH. tauto. Qed.

Lemma sseg_frame h h' p xs x :
  sseg h p xs x -> (forall q, q ∈ p :: xs -> get_next q h' = get_next q h) -> sseg h' p xs x.
Proof.
  revert p. induction xs as [|y xs IH]; intros p Hs F; cbn in *.
  - rewrite F; [done|left].
  - destruct Hs as [Hn Hs]. split; [rewrite F; [done|left]|].
    apply IH; [done|]. intros q Hq. apply F. by right.
Qed.

Lemma schain_frame h h' p xs :
  schain h p xs -> (forall q, q ∈ p :: xs -> get_next q h' = get_next q h) -> schain h' p xs.
Proof.
  revert p. induction xs as [|y xs IH]; intros p Hs F; cbn in *.
  - rewrite F; [done|left].
  - destruct Hs as [Hn Hs]. split; [rewrite F; [done|left]|].
    apply IH; [done|]. intros q Hq. apply F. by right.
Qed.

Lemma sset_next_ok p v h :
  is_Some (nodes h !! p) ->
  exists h', set_next p v h = Some h' /\ nodes h' = <[p := v]> (nodes h) /\ lasts h' = lasts h.
Proof. intros [n Hn]. unfold set_next. rewrite Hn. cbn. eauto. Qed.

Lemma sset_last_ok l v h :
  is_Some (lasts h !! l) ->
  exists h', set_last l v h = Some h' /\ nodes h' = nodes h /\ lasts h' = <[l := v]> (lasts h).
Proof. intros [n Hn]. unfold set_last. rewrite Hn. cbn. eauto. Qed.

(** Execute the next store of the program. *)
Ltac sstore :=
  match goal with
  | |- context [mbind _ (set_next ?p ?v ?h)] =>
      let E := fresh "E" in destruct (sset_next_ok p v h) as (? & E & ? & ?);
      [ | rewrite E; cbn [mbind option_bind]; clear E]
  | |- context [mbind _ (set_last ?p ?v ?h)] =>
      let E := fresh "E" in destruct (sset_last_ok p v h) as (? & E & ? & ?);
      [ | rewrite E; cbn [mbind option_bind]; clear E]
  | |- context [set_last ?p ?v ?h] =>
      let E := fresh "E" in destruct (sset_last_ok p v h) as (? & E & ? & ?);
      [ | rewrite E; clear E]
  | |- context [set_next ?p ?v ?h] =>
      let E := fresh "E" in destruct (sset_next_ok p v h) as (? & E & ? & ?);
      [ | rewrite E; clear E]
  end.

(** Read the store through the accumulated updates. *)
Ltac sread :=
  unfold get_next, get_last in *;
  repeat match goal with
  | E : nodes ?h = _ |- context [nodes ?h] => rewrite E
  | E : lasts ?h = _ |- context [lasts ?h] => rewrite E
  | |- context [<[?p := _]> _ !! ?p] => rewrite lookup_insert_eq
  | |- context [<[?p := _]> _ !! ?q] => rewrite (lookup_insert_ne _ p q) by ListHead.differ
  end.

(** The links that lead from the head to the position [p]. *)
Definition lead (h : heap) (A : list loc) (p : loc) : Prop :=
  match A with [] => True | a :: A => sseg h a A p end.

Lemma schain_cut h head l1 l2 A p :
  head :: l1 = A ++ [p] -> schain h head (l1 ++ l2) <-> lead h A p /\ schain h p l2.
Proof.
  destruct A as [|a A]; cbn; intros E; simplify_eq; cbn; [tauto|].
  rewrite <- app_assoc. cbn. apply schain_app.
Qed.

Lemma lead_frame h h' A p :
  lead h A p -> (forall q, q ∈ A -> get_next q h' = get_next q h) -> lead h' A p.
Proof. destruct A; [done|]. cbn. intros Hs F. by eapply sseg_frame. Qed.

Lemma cut_fresh head l1 l2 A p :
  NoDup (head :: l1 ++ l2) -> head :: l1 = A ++ [p] ->
  (p ∉ A) /\ (p ∉ l2) /\ (p ∈ head :: l1) /\ (forall q, q ∈ A -> q ∈ head :: l1).
Proof.
  intros Hd E. rewrite app_comm_cons, E, <- app_assoc in Hd.
  apply NoDup_middle_iff in Hd. rewrite E. set_solver.
Qed.

Lemma last_app_cons (xs ys : list loc) y : last (xs ++ y :: ys) = last (y :: ys).
Proof.
  rewrite last_app. destruct (last (y :: ys)) eqn:E; [done|].
  by apply last_None in E.
Qed.

Lemma slist_add_after_spec h head l1 l2 A p entry :
  is_slist h head (l1 ++ l2) -> head :: l1 = A ++ [p] ->
  entry ∉ head :: l1 ++ l2 -> is_Some (nodes h !! entry) ->
  exists h', slist_add_after entry p head h = Some h' /\ is_slist h' head (l1 ++ entry :: l2).
Proof.
  intros (Hd & Hc & Hla) E He Ha.
  destruct (cut_fresh _ _ _ _ _ Hd E) as (HpA & Hp2 & Hp & HA).
  apply (schain_cut _ _ _ _ _ _ E) in Hc as [Hl Hc].
  assert (entry <> p) by (intros ->; set_solver).
  assert (Hn : get_next p h = Some (hd_error l2)) by (destruct l2; cbn in Hc; tauto).
  unfold slist_add_after. rewrite Hn. cbn [mbind option_bind].
  sstore; [done|]. sstore; [sread; by rewrite Hn|].
  assert (Hgo : forall h', nodes h' = nodes x0 -> get_last head h' = last (entry :: l2) \/
            (l2 <> [] /\ lasts h' = lasts h) -> is_slist h' head (l1 ++ entry :: l2)).
  { intros h' En Elast. split_and!.
    - rewrite app_comm_cons in Hd |- *. apply NoDup_middle_iff. set_solver.
    - apply (schain_cut _ _ _ _ _ _ E). split; [|cbn; split].
      + eapply lead_frame; [done|]. intros q Hq. specialize (HA _ Hq).
        assert (q <> p) by (by intros ->).
        assert (q <> entry) by (intros ->; set_solver). sread. done.
      + sread. done.
      + destruct l2 as [|y l2]; cbn in Hc |- *; sread; [done|].
        destruct Hc as [_ Hc]. split; [done|]. eapply schain_frame; [exact Hc|].
        intros q Hq. assert (q <> p) by (by intros ->).
        assert (q <> entry) by (intros ->; set_solver). sread. done.
    - rewrite app_comm_cons, last_app_cons. unfold get_last in *.
      destruct Elast as [->|[Hne ->]]; [done|].
      destruct l2 as [|y l2]; [done|]. rewrite Hla, app_comm_cons, last_app_cons.
      by rewrite last_cons_cons. }
  assert (Hen : get_next entry x0 = Some (hd_error l2)) by (sread; done).
  rewrite Hen. cbn [mbind option_bind].
  destruct l2 as [|y l2]; cbn [hd_error].
  - sstore; [unfold get_last in Hla; sread; rewrite Hla; apply last_is_Some; done|].
    eexists; split; [done|]. apply Hgo; [done|]. left. sread. done.
  - eexists; split; [done|]. apply Hgo; [done|]. right. split; [done|]. congruence.
Qed.

(** Appending: the cached [last] is the node the new entry is hung on. *)
Lemma slist_add_tail_spec h head xs entry :
  is_slist h head xs -> entry ∉ head :: xs -> is_Some (nodes h !! entry) ->
  exists h', slist_add_tail entry head h = Some h' /\ is_slist h' head (xs ++ [entry]).
Proof.
  intros (Hd & Hc & Hla) He Ha.
  destruct (exists_last (l := head :: xs)) as (A & p & E); [done|].
  rewrite E, last_snoc in Hla.
  destruct (cut_fresh head xs [] A p) as (HpA & _ & Hp & HA);
    [by rewrite app_nil_r|done|].
  assert (Hc' : lead h A p /\ schain h p [])
    by (apply (schain_cut _ _ _ _ _ _ E); by rewrite app_nil_r).
  destruct Hc' as [Hle Hc']. cbn in Hc'.
  assert (entry <> p) by (intros ->; set_solver).
  unfold slist_add_tail. sstore; [done|].
  unfold get_last in Hla |- *. rewrite H1, Hla. cbn [mbind option_bind].
  sstore; [sread; by rewrite Hc'|]. sstore; [sread; by rewrite Hla|].
  eexists; split; [done|]. split_and!.
  - rewrite app_comm_cons. apply NoDup_middle_iff. rewrite app_nil_r. set_solver.
  - apply (schain_cut _ _ _ _ _ _ E). split; [|cbn; split; sread; done].
    eapply lead_frame; [done|]. intros q Hq. specialize (HA _ Hq).
    assert (q <> p) by (by intros ->).
    assert (q <> entry) by (intros ->; set_solver). sread. done.
  - sread. by rewrite app_comm_cons, last_snoc.
Qed.

(** Deleting the node after [p]; deleting the last node moves [last] back. *)
Lemma slist_del_after_spec h head l1 e l2 A p :
  is_slist h head (l1 ++ e :: l2) -> head :: l1 = A ++ [p] ->
  exists h', slist_del_after p head h = Some h' /\ is_slist h' head (l1 ++ l2).
Proof.
  intros (Hd & Hc & Hla) E.
  destruct (cut_fresh _ _ _ _ _ Hd E) as (HpA & Hp2 & Hp & HA).
  apply (schain_cut _ _ _ _ _ _ E) in Hc as [Hl [Hn Hc]].
  assert (He : get_next e h = Some (hd_error l2)) by (destruct l2; cbn in Hc; tauto).
  assert (Hd' : NoDup (head :: l1 ++ l2)).
  { rewrite app_comm_cons in Hd |- *. by apply NoDup_middle_iff in Hd as (_ & _ & ?). }
  unfold slist_del_after. rewrite Hn. cbn [mbind option_bind]. rewrite He.
  cbn [mbind option_bind]. sstore; [unfold get_next in Hn; by rewrite Hn|].
  assert (Hgo : forall h', nodes h' = nodes x ->
            get_last head h' = last (head :: l1 ++ l2) -> is_slist h' head (l1 ++ l2)).
  { intros h' En El. split_and!; [done| |done].
    apply (schain_cut _ _ _ _ _ _ E). split.
    - eapply lead_frame; [done|]. intros q Hq. assert (q <> p) by (by intros ->). sread. done.
    - destruct l2 as [|y l2]; cbn in Hc |- *; sread; [done|].
      destruct Hc as [_ Hc]. split; [done|]. eapply schain_frame; [exact Hc|].
      intros q Hq. assert (q <> p) by (intros ->; set_solver). sread. done. }
  rewrite app_comm_cons, last_app_cons in Hla. unfold get_last in Hla.
  destruct l2 as [|y l2]; cbn [hd_error].
  - sstore; [sread; by rewrite Hla|]. eexists; split; [done|]. apply Hgo; [done|].
    rewrite app_nil_r, E, last_snoc. sread. done.
  - eexists; split; [done|]. apply Hgo; [done|]. sread.
    rewrite Hla, app_comm_cons, last_app_cons. done.
Qed.

(** The links among [p :: xs], without the one that leaves the last node. *)
Fixpoint sseg_all (h : heap) (p : loc) (xs : list loc) : Prop :=
  match xs with
  | [] => True
  | x :: xs => get_next p h = Some (Some x) /\ sseg_all h x xs
  end.

Lemma sseg_all_lead h p xs A l : p :: xs = A ++ [l] -> sseg_all h p xs -> lead h A l.
Proof.
  revert p A. induction xs as [|x xs IH]; intros p A E Hs; destruct A as [|a A]; try done.
  - by destruct A.
  - injection E as <- E. destruct Hs as [Hn Hs]. specialize (IH x A E Hs).
    destruct A as [|b A]; injection E; intros; subst; cbn; done.
Qed.

Lemma schain_sseg_all h p xs : schain h p xs -> sseg_all h p xs.
Proof. revert p. induction xs; cbn; intros; intuition. Qed.

Lemma sseg_all_frame h h' p xs :
  sseg_all h p xs -> (forall q, q ∈ removelast (p :: xs) -> get_next q h' = get_next q h) ->
  sseg_all h' p xs.
Proof.
  revert p. induction xs as [|x xs IH]; intros p; [done|]. intros [Hn Hs] F. split.
  - rewrite F; [done|]. cbn. left.
  - apply IH; [done|]. intros q Hq. apply F. cbn in *. by right.
Qed.

Lemma schain_join h p xs l2 A l :
  p :: xs = A ++ [l] -> sseg_all h p xs -> get_next l h = Some (hd_error l2) ->
  (forall y ys, l2 = y :: ys -> schain h y ys) -> schain h p (xs ++ l2).
Proof.
  intros E Hs Hl H2. apply (schain_cut _ _ _ _ _ _ E). split.
  - by eapply sseg_all_lead.
  - destruct l2 as [|y l2]; cbn; [done|]. eauto.
Qed.

(** Splicing a non-empty list in after [p]. *)
Lemma __slist_splice_spec h lst first xs' head l1 l2 A p :
  is_slist h lst (first :: xs') -> is_slist h head (l1 ++ l2) -> head :: l1 = A ++ [p] ->
  (forall q, q ∈ lst :: first :: xs' -> q ∈ head :: l1 ++ l2 -> False) ->
  exists h', __slist_splice lst p head h = Some h' /\
    is_slist h' head (l1 ++ (first :: xs') ++ l2).
Proof.
  intros (Hd1 & Hc1 & Hla1) (Hd & Hc & Hla) E Hap.
  assert (Hin1 : forall q, q ∈ head :: l1 -> q ∈ head :: l1 ++ l2) by set_solver.
  assert (Hin2 : forall q, q ∈ l2 -> q ∈ head :: l1 ++ l2) by set_solver.
  assert (Hin3 : forall q, q ∈ first :: xs' -> q ∈ lst :: first :: xs') by (by right).
  destruct (cut_fresh _ _ _ _ _ Hd E) as (HpA & Hp2 & Hp & HA).
  apply (schain_cut _ _ _ _ _ _ E) in Hc as [Hle Hc].
  assert (Hn : get_next p h = Some (hd_error l2)) by (destruct l2; cbn in Hc; tauto).
  destruct (exists_last (l := first :: xs')) as (X & l & EX); [done|].
  cbn in Hc1. destruct Hc1 as [Hf Hc1].
  rewrite EX, app_comm_cons, last_snoc in Hla1. unfold get_last in Hla1.
  assert (Hlx : l ∈ first :: xs') by (rewrite EX; set_solver).
  assert (l <> p) by (intros ->; by eauto).
  assert (l <> lst) by (intros ->; apply list.NoDup_cons in Hd1; tauto).
  assert (p <> lst) by (intros ->; apply (Hap lst); [left|by auto]).
  assert (Hls : is_Some (get_next l h)).
  { clear -EX Hc1. revert first Hc1 X EX. induction xs' as [|x xs IH]; intros f Hc1 X EX.
    - destruct X as [|? []]; cbn in EX; simplify_eq. cbn in Hc1. by rewrite Hc1.
    - destruct X as [|? X]; cbn in EX; simplify_eq. destruct Hc1. eauto. }
  assert (HX : l ∉ X).
  { rewrite EX, app_comm_cons in Hd1. apply NoDup_middle_iff in Hd1. set_solver. }
  unfold __slist_splice, get_last. rewrite Hla1, Hn. cbn [mbind option_bind].
  sstore; [done|].
  assert (Hf' : get_next lst x = Some (Some first)) by (sread; done).
  rewrite Hf'. cbn [mbind option_bind]. sstore; [sread; by rewrite Hn|].
  assert (Hl0 : get_next l x0 = Some (hd_error l2)) by (sread; done).
  rewrite Hl0. cbn [mbind option_bind].
  assert (Hgo : forall h', nodes h' = nodes x0 ->
     get_last head h' = last (head :: l1 ++ (first :: xs') ++ l2) ->
     is_slist h' head (l1 ++ (first :: xs') ++ l2)).
  { intros h' En El. split_and!; [| |done].
    - rewrite app_comm_cons. apply list.NoDup_cons in Hd1 as [_ Hd1].
      apply NoDup_splice; [done..|]. intros q ? ?. eapply Hap; eauto.
    - apply (schain_cut _ _ _ _ _ _ E). split.
      + eapply lead_frame; [done|]. intros q Hq. specialize (HA _ Hq).
        assert (q <> p) by (by intros ->).
        assert (q <> l) by (intros ->; by eauto). sread. done.
      + cbn. split; [sread; done|]. eapply schain_join; [exact EX| | |].
        * eapply sseg_all_frame; [by apply schain_sseg_all|]. intros q Hq.
          rewrite EX, removelast_last in Hq. assert (q <> l) by (by intros ->).
          assert (q ∈ first :: xs') by (rewrite EX; set_solver).
          assert (q <> p) by (intros ->; by eauto). sread. done.
        * rewrite <- Hl0. unfold get_next. by rewrite En.
        * intros y ys ->. destruct Hc as [_ Hc]. eapply schain_frame; [exact Hc|].
          intros q Hq. assert (q <> p) by (by intros ->).
          assert (q <> l) by (intros ->; by eauto). sread. done. }
  unfold get_last in Hla. destruct l2 as [|y l2]; cbn [hd_error].
  - sstore; [sread; rewrite Hla; by apply last_is_Some|]. eexists; split; [done|].
    apply Hgo; [done|]. sread. by rewrite app_nil_r, EX, app_assoc, app_comm_cons, last_snoc.
  - eexists; split; [done|]. apply Hgo; [done|]. sread.
    by rewrite Hla, app_assoc, !app_comm_cons, !last_app_cons.
Qed.

End SList.
