(* ===== verification/RBTree.v ===== *)
(** * The red-black trees of [src/kernel/rbtree.c] and [rbtree.h]

    A [struct rb_node] holds three pointers and a colour; the store is a finite
    map from addresses to such nodes together with the [rb_node] field of the
    root.  NULL is [None]; following it, or an address that is not allocated,
    is undefined behaviour (the operation returns [None]).  The operations are
    the source's, statement by statement; loops take fuel, and the theorems
    give the fuel that is enough.

    The second half relates stores to trees: [is_tree s t] says that the store
    holds the tree [t], parent pointers included.  A tree is focused at a node
    by a zipper ([ctx]); the rotations, recolourings and relinkings of the
    source are operations on the focus. *)

From S2P Require Import Prelude.

Abbreviation loc := positive.
Abbreviation ptr := (option positive).

Inductive color := RB_RED | RB_BLACK.

#[export] Instance color_eq_dec : EqDecision color.
Proof. solve_decision. Defined.

Record rb_node := mk_rb_node {
  rb_parent : ptr;
  rb_right : ptr;
  rb_left : ptr;
  rb_color : color }.

#[export] Instance rb_node_eq_dec : EqDecision rb_node.
Proof. solve_decision. Defined.

(** The store: the nodes and [root->rb_node]. *)
Record state := mk_state { mem : gmap loc rb_node; rb_root : ptr }.

(** ** Field accesses *)

Definition get_parent (p : loc) (s : state) : option ptr := rb_parent <$> mem s !! p.
Definition get_left (p : loc) (s : state) : option ptr := rb_left <$> mem s !! p.
Definition get_right (p : loc) (s : state) : option ptr := rb_right <$> mem s !! p.
Definition get_color (p : loc) (s : state) : option color := rb_color <$> mem s !! p.

Definition upd (p : loc) (f : rb_node -> rb_node) (s : state) : option state :=
  n ← mem s !! p; Some (mk_state (<[p := f n]> (mem s)) (rb_root s)).
Definition set_parent (p : loc) (v : ptr) : state -> option state :=
  upd p (fun n => mk_rb_node v (rb_right n) (rb_left n) (rb_color n)).
Definition set_left (p : loc) (v : ptr) : state -> option state :=
  upd p (fun n => mk_rb_node (rb_parent n) (rb_right n) v (rb_color n)).
Definition set_right (p : loc) (v : ptr) : state -> option state :=
  upd p (fun n => mk_rb_node (rb_parent n) v (rb_left n) (rb_color n)).
Definition set_color (p : loc) (v : color) : state -> option state :=
  upd p (fun n => mk_rb_node (rb_parent n) (rb_right n) (rb_left n) v).
Definition set_root (v : ptr) (s : state) : option state := Some (mk_state (mem s) v).

(** [if (p) p->rb_parent = v]. *)
Definition set_parent_opt (p : ptr) (v : ptr) (s : state) : option state :=
  match p with Some x => set_parent x v s | None => Some s end.

(** [p && p->rb_color == RB_RED]; its negation is [!p || p->rb_color == RB_BLACK]. *)
Definition is_red (p : ptr) (s : state) : option bool :=
  match p with
  | None => Some false
  | Some x => c ← get_color x s; Some (bool_decide (c = RB_RED))
  end.

(** The address a link lives at: [&root->rb_node], [&p->rb_left], [&p->rb_right]. *)
Inductive link := LRoot | LLeft (p : loc) | LRight (p : loc).

Definition get_link (l : link) (s : state) : option ptr :=
  match l with
  | LRoot => Some (rb_root s)
  | LLeft p => get_left p s
  | LRight p => get_right p s
  end.
Definition set_link (l : link) (v : ptr) (s : state) : option state :=
  match l with
  | LRoot => set_root v s
  | LLeft p => set_left p v s
  | LRight p => set_right p v s
  end.

(** The statement
<<
    if (parent) {
      if (parent->rb_left == node) parent->rb_left = v; else parent->rb_right = v;
    } else root->rb_node = v;
>>
    and its variant that tests [rb_right] first. *)
Definition relink (parent : ptr) (node : loc) (v : ptr) (s : state) : option state :=
  match parent with
  | Some p =>
      l ← get_left p s;
      if decide (l = Some node) then set_left p v s else set_right p v s
  | None => set_root v s
  end.
Definition relink_r (parent : ptr) (node : loc) (v : ptr) (s : state) : option state :=
  match parent with
  | Some p =>
      r ← get_right p s;
      if decide (r = Some node) then set_right p v s else set_left p v s
  | None => set_root v s
  end.

(** ** The operations *)

Definition __rb_rotate_left (node : loc) (s : state) : option state :=
  right ← get_right node s;
  right ← right;
  rl ← get_left right s;
  s ← set_right node rl s;
  s ← set_parent_opt rl (Some node) s;
  s ← set_left right (Some node) s;
  parent ← get_parent node s;
  s ← set_parent right parent s;
  s ← relink parent node (Some right) s;
  set_parent node (Some right) s.

Definition __rb_rotate_right (node : loc) (s : state) : option state :=
  left ← get_left node s;
  left ← left;
  lr ← get_right left s;
  s ← set_left node lr s;
  s ← set_parent_opt lr (Some node) s;
  s ← set_right left (Some node) s;
  parent ← get_parent node s;
  s ← set_parent left parent s;
  s ← relink_r parent node (Some left) s;
  set_parent node (Some left) s.

Definition rb_link_node (node : loc) (parent : ptr) (l : link) (s : state) : option state :=
  s ← set_parent node parent s;
  s ← set_color node RB_RED s;
  s ← set_right node None s;
  s ← set_left node None s;
  set_link l (Some node) s.

(** The loop of [rb_insert_color]. *)
Fixpoint rb_insert_loop (fuel : nat) (node : loc) (s : state) : option state :=
  match fuel with
  | O => None
  | S fuel =>
    parent ← get_parent node s;
    match parent with
    | None => Some s
    | Some parent =>
      c ← get_color parent s;
      if decide (c = RB_BLACK) then Some s else
      gparent ← get_parent parent s;
      gparent ← gparent;
      gl ← get_left gparent s;
      if decide (gl = Some parent) then
        uncle ← get_right gparent s;
        ur ← is_red uncle s;
        if (ur : bool) then
            uncle ← uncle;
            s ← set_color uncle RB_BLACK s;
            s ← set_color parent RB_BLACK s;
            s ← set_color gparent RB_RED s;
            rb_insert_loop fuel gparent s
        else
            pr ← get_right parent s;
            '(parent, node, s) ←
              (if decide (pr = Some node) then
                 s ← __rb_rotate_left parent s; Some (node, parent, s)
               else Some (parent, node, s));
            s ← set_color parent RB_BLACK s;
            s ← set_color gparent RB_RED s;
            s ← __rb_rotate_right gparent s;
            rb_insert_loop fuel node s
      else
        uncle ← get_left gparent s;
        ur ← is_red uncle s;
        if (ur : bool) then
            uncle ← uncle;
            s ← set_color uncle RB_BLACK s;
            s ← set_color parent RB_BLACK s;
            s ← set_color gparent RB_RED s;
            rb_insert_loop fuel gparent s
        else
            pl ← get_left parent s;
            '(parent, node, s) ←
              (if decide (pl = Some node) then
                 s ← __rb_rotate_right parent s; Some (node, parent, s)
               else Some (parent, node, s));
            s ← set_color parent RB_BLACK s;
            s ← set_color gparent RB_RED s;
            s ← __rb_rotate_left gparent s;
            rb_insert_loop fuel node s
    end
  end.

Definition rb_insert_color (fuel : nat) (node : loc) (s : state) : option state :=
  s ← rb_insert_loop fuel node s;
  r ← rb_root s;
  set_color r RB_BLACK s.

(** One iteration of [__rb_erase_color], [node] being the left child of [p]:
    the final recolouring and rotation, the part after the red sibling has been
    rotated away, and the whole.
    [true]: the iteration ends with [node = parent; parent = node->rb_parent];
    [false]: it ends with [node = root->rb_node; break]. *)
Definition erase_left_far (p other : loc) (s : state) : option state :=
  pc ← get_color p s;
  s ← set_color other pc s;
  s ← set_color p RB_BLACK s;
  far ← get_right other s;
  s ← (match far with Some x => set_color x RB_BLACK s | None => Some s end);
  __rb_rotate_left p s.

Definition erase_left_black (p other : loc) (s : state) : option (bool * state) :=
  ol ← get_left other s; olr ← is_red ol s;
  or' ← get_right other s; orr ← is_red or' s;
  if negb olr && negb orr then
    s ← set_color other RB_RED s;
    Some (true, s)
  else
    '(other, s) ←
      (if negb orr then
         s ← (match ol with Some near => set_color near RB_BLACK s | None => Some s end);
         s ← set_color other RB_RED s;
         s ← __rb_rotate_right other s;
         other ← get_right p s; other ← other;
         Some (other, s)
       else Some (other, s));
    s ← erase_left_far p other s;
    Some (false, s).

Definition erase_left (p : loc) (s : state) : option (bool * state) :=
  other ← get_right p s; other ← other;
  oc ← get_color other s;
  if decide (oc = RB_RED) then
    s ← set_color other RB_BLACK s;
    s ← set_color p RB_RED s;
    s ← __rb_rotate_left p s;
    other ← get_right p s; other ← other;
    erase_left_black p other s
  else erase_left_black p other s.

(** The same, [node] not being the left child of [p]. *)
Definition erase_right_far (p other : loc) (s : state) : option state :=
  pc ← get_color p s;
  s ← set_color other pc s;
  s ← set_color p RB_BLACK s;
  far ← get_left other s;
  s ← (match far with Some x => set_color x RB_BLACK s | None => Some s end);
  __rb_rotate_right p s.

Definition erase_right_black (p other : loc) (s : state) : option (bool * state) :=
  ol ← get_left other s; olr ← is_red ol s;
  or' ← get_right other s; orr ← is_red or' s;
  if negb olr && negb orr then
    s ← set_color other RB_RED s;
    Some (true, s)
  else
    '(other, s) ←
      (if negb olr then
         s ← (match or' with Some near => set_color near RB_BLACK s | None => Some s end);
         s ← set_color other RB_RED s;
         s ← __rb_rotate_left other s;
         other ← get_left p s; other ← other;
         Some (other, s)
       else Some (other, s));
    s ← erase_right_far p other s;
    Some (false, s).

Definition erase_right (p : loc) (s : state) : option (bool * state) :=
  other ← get_left p s; other ← other;
  oc ← get_color other s;
  if decide (oc = RB_RED) then
    s ← set_color other RB_BLACK s;
    s ← set_color p RB_RED s;
    s ← __rb_rotate_right p s;
    other ← get_left p s; other ← other;
    erase_right_black p other s
  else erase_right_black p other s.

(** The loop of [__rb_erase_color]: the node it ends with. *)
Fixpoint rb_erase_loop (fuel : nat) (node parent : ptr) (s : state)
    : option (ptr * state) :=
  match fuel with
  | O => None
  | S fuel =>
    nr ← is_red node s;
    if (nr : bool) || bool_decide (node = rb_root s) then Some (node, s) else
    p ← parent;
    pl ← get_left p s;
    '(up, s) ← (if decide (pl = node) then erase_left p s else erase_right p s);
    if (up : bool) then gp ← get_parent p s; rb_erase_loop fuel (Some p) gp s
    else Some (rb_root s, s)
  end.

Definition __rb_erase_color (fuel : nat) (node parent : ptr) (s : state) : option state :=
  '(node, s) ← rb_erase_loop fuel node parent s;
  match node with Some x => set_color x RB_BLACK s | None => Some s end.

(** [while ((left = node->rb_left)) node = left;] *)
Fixpoint leftmost (fuel : nat) (node : loc) (s : state) : option loc :=
  match fuel with
  | O => None
  | S fuel =>
      l ← get_left node s;
      match l with Some x => leftmost fuel x s | None => Some node end
  end.
Fixpoint rightmost (fuel : nat) (node : loc) (s : state) : option loc :=
  match fuel with
  | O => None
  | S fuel =>
      r ← get_right node s;
      match r with Some x => rightmost fuel x s | None => Some node end
  end.

(** The statements of [rb_erase] that move the successor [node] to the place
    of [old]: copy the four fields, then redirect the pointers to [old]. *)
Definition erase_take_place (old node : loc) (s : state) : option state :=
  op ← get_parent old s; s ← set_parent node op s;
  oc ← get_color old s; s ← set_color node oc s;
  or' ← get_right old s; s ← set_right node or' s;
  ol ← get_left old s; s ← set_left node ol s;
  op ← get_parent old s; s ← relink op old (Some node) s;
  ol ← get_left old s; ol ← ol; s ← set_parent ol (Some node) s;
  or' ← get_right old s; set_parent_opt or' (Some node) s.

Definition rb_erase (fuel : nat) (node : loc) (s : state) : option state :=
  lft ← get_left node s;
  rgt ← get_right node s;
  '(child, parent, color, s) ←
    (match lft, rgt with
     | Some _, Some rgt =>
         let old := node in
         node ← leftmost fuel rgt s;
         child ← get_right node s;
         parent ← get_parent node s;
         color ← get_color node s;
         s ← set_parent_opt child parent s;
         s ← relink parent node child s;
         np ← get_parent node s;
         let parent := if decide (np = Some old) then Some node else parent in
         s ← erase_take_place old node s;
         Some (child, parent, color, s)
     | _, _ =>
         let child := match lft with None => rgt | Some _ => lft end in
         parent ← get_parent node s;
         color ← get_color node s;
         s ← set_parent_opt child parent s;
         s ← relink parent node child s;
         Some (child, parent, color, s)
     end);
  if decide (color = RB_BLACK) then __rb_erase_color fuel child parent s
  else Some s.

Definition rb_first (fuel : nat) (s : state) : option ptr :=
  match rb_root s with
  | None => Some None
  | Some n => Some <$> leftmost fuel n s
  end.

Definition rb_last (fuel : nat) (s : state) : option ptr :=
  match rb_root s with
  | None => Some None
  | Some n => Some <$> rightmost fuel n s
  end.

(** [while (node->rb_parent && node == node->rb_parent->rb_right) node =
    node->rb_parent; return node->rb_parent;] and its mirror image. *)
Fixpoint up_from_right (fuel : nat) (node : loc) (s : state) : option ptr :=
  match fuel with
  | O => None
  | S fuel =>
      parent ← get_parent node s;
      match parent with
      | None => Some None
      | Some p =>
          r ← get_right p s;
          if decide (r = Some node) then up_from_right fuel p s else Some (Some p)
      end
  end.
Fixpoint up_from_left (fuel : nat) (node : loc) (s : state) : option ptr :=
  match fuel with
  | O => None
  | S fuel =>
      parent ← get_parent node s;
      match parent with
      | None => Some None
      | Some p =>
          l ← get_left p s;
          if decide (l = Some node) then up_from_left fuel p s else Some (Some p)
      end
  end.

Definition rb_next (fuel : nat) (node : loc) (s : state) : option ptr :=
  right ← get_right node s;
  match right with
  | Some r => Some <$> leftmost fuel r s
  | None => up_from_right fuel node s
  end.

Definition rb_prev (fuel : nat) (node : loc) (s : state) : option ptr :=
  left ← get_left node s;
  match left with
  | Some l => Some <$> rightmost fuel l s
  | None => up_from_left fuel node s
  end.

Definition rb_replace_node (victim newnode : loc) (s : state) : option state :=
  parent ← get_parent victim s;
  s ← relink parent victim (Some newnode) s;
  l ← get_left victim s; s ← set_parent_opt l (Some newnode) s;
  r ← get_right victim s; s ← set_parent_opt r (Some newnode) s;
  v ← mem s !! victim;
  upd newnode (fun _ => v) s.

(** ** Trees and zippers *)

Inductive tree := Leaf | Node (c : color) (l : tree) (x : loc) (r : tree).

Definition root_of (t : tree) : ptr :=
  match t with Leaf => None | Node _ _ x _ => Some x end.

Fixpoint inorder (t : tree) : list loc :=
  match t with Leaf => [] | Node _ l x r => inorder l ++ x :: inorder r end.

Fixpoint height (t : tree) : nat :=
  match t with Leaf => 0 | Node _ l _ r => S (Nat.max (height l) (height r)) end.

(** One step of the path from the focus to the root: the focus is the left
    child of [x] (whose right child is [r]), or its right child. *)
Inductive frame :=
  | InL (c : color) (x : loc) (r : tree)
  | InR (c : color) (l : tree) (x : loc).

Abbreviation ctx := (list frame).

Definition fill (f : frame) (t : tree) : tree :=
  match f with InL c x r => Node c t x r | InR c l x => Node c l x t end.
Definition plug (k : ctx) (t : tree) : tree := fold_left (fun t f => fill f t) k t.

Definition floc (f : frame) : loc := match f with InL _ x _ => x | InR _ _ x => x end.
Definition parent_of (k : ctx) : ptr := floc <$> hd_error k.

(** The nodes around the focus, in order. *)
Fixpoint kpre (k : ctx) : list loc :=
  match k with
  | [] => []
  | InL _ _ _ :: k => kpre k
  | InR _ l x :: k => kpre k ++ inorder l ++ [x]
  end.
Fixpoint kpost (k : ctx) : list loc :=
  match k with
  | [] => []
  | InL _ x r :: k => x :: inorder r ++ kpost k
  | InR _ _ _ :: k => kpost k
  end.
Definition klocs (k : ctx) : list loc := kpre k ++ kpost k.

Lemma inorder_plug k t : inorder (plug k t) = kpre k ++ inorder t ++ kpost k.
Proof.
  revert t. induction k as [|[c x r|c l x] k IH]; intros t; cbn; [by rewrite app_nil_r|..];
    rewrite IH; cbn; by rewrite <- ?app_assoc.
Qed.

Lemma plug_app k1 k2 t : plug (k1 ++ k2) t = plug k2 (plug k1 t).
Proof. apply fold_left_app. Qed.

Lemma ctx_length k t : (length k + height t <= height (plug k t))%nat.
Proof.
  revert t. induction k as [|[c x r|c l x] k IH]; intros t; [done|..]; cbn;
    [specialize (IH (Node c t x r))|specialize (IH (Node c l x t))]; cbn in IH; unfold plug in IH; lia.
Qed.

(** ** A store holds a tree *)

Fixpoint rep (m : gmap loc rb_node) (par : ptr) (t : tree) : Prop :=
  match t with
  | Leaf => True
  | Node c l x r =>
      m !! x = Some (mk_rb_node par (root_of r) (root_of l) c) /\
      rep m (Some x) l /\ rep m (Some x) r
  end.

(** The store holds the path [k] above a focus whose root is [p]. *)
Fixpoint repk (s : state) (k : ctx) (p : ptr) : Prop :=
  match k with
  | [] => rb_root s = p
  | InL c x r :: k =>
      mem s !! x = Some (mk_rb_node (parent_of k) (root_of r) p c) /\
      rep (mem s) (Some x) r /\ repk s k (Some x)
  | InR c l x :: k =>
      mem s !! x = Some (mk_rb_node (parent_of k) p (root_of l) c) /\
      rep (mem s) (Some x) l /\ repk s k (Some x)
  end.

Definition is_tree (s : state) (t : tree) : Prop :=
  NoDup (inorder t) /\ rep (mem s) None t /\ rb_root s = root_of t.

Lemma rep_plug s k t :
  rep (mem s) None (plug k t) /\ rb_root s = root_of (plug k t) <->
  rep (mem s) (parent_of k) t /\ repk s k (root_of t).
Proof.
  revert t. induction k as [|[c x r|c l x] k IH]; intros t; [done|..];
    cbn [plug fold_left]; fold (plug k); rewrite IH; cbn; tauto.
Qed.

Lemma is_tree_plug s k t :
  is_tree s (plug k t) <->
  NoDup (kpre k ++ inorder t ++ kpost k) /\ rep (mem s) (parent_of k) t /\ repk s k (root_of t).
Proof. unfold is_tree. rewrite <- inorder_plug, rep_plug. done. Qed.

Lemma rep_frame m m' par t :
  rep m par t -> (forall q, q ∈ inorder t -> m' !! q = m !! q) -> rep m' par t.
Proof.
  revert par. induction t as [|c l IHl x r IHr]; intros par; [done|].
  cbn. intros (Hx & Hl & Hr) F. split_and!.
  - rewrite F; [done|]. set_solver.
  - apply IHl; [done|]. set_solver.
  - apply IHr; [done|]. set_solver.
Qed.

(** Only the parent pointer of the root of a subtree has changed. *)
Lemma rep_reparent m m' par par' t :
  NoDup (inorder t) -> rep m par t ->
  (forall c l x r, t = Node c l x r ->
     m' !! x = Some (mk_rb_node par' (root_of r) (root_of l) c)) ->
  (forall q, q ∈ inorder t -> Some q <> root_of t -> m' !! q = m !! q) ->
  rep m' par' t.
Proof.
  destruct t as [|c l x r]; [done|]. cbn [inorder rep root_of].
  intros (? & ? & ?)%NoDup_middle_iff (Hx & Hl & Hr) Hx' F. split_and!; [by apply Hx'| |];
    (eapply rep_frame; [done|]); intros q Hq; apply F; [set_solver|congruence|set_solver|congruence].
Qed.

Lemma repk_frame s s' k p :
  repk s k p -> rb_root s' = rb_root s ->
  (forall q, q ∈ klocs k -> mem s' !! q = mem s !! q) -> repk s' k p.
Proof.
  unfold klocs. revert p. induction k as [|[c x r|c l x] k IH]; intros p;
    cbn [repk kpre kpost]; [congruence|..]; intros (Hx & Ht & Hk) Hr F; split_and!.
  1,4: (rewrite F; [done|set_solver]).
  1,3: (eapply rep_frame; [done|set_solver]).
  1,2: (apply IH; [done..|]; set_solver).
Qed.

Lemma parent_of_klocs k p : parent_of k = Some p -> p ∈ klocs k.
Proof. unfold klocs. destruct k as [|[] k]; cbn; intros; simplify_eq; set_solver. Qed.

Lemma root_of_inorder t p : root_of t = Some p -> p ∈ inorder t.
Proof. destruct t; cbn; intros; simplify_eq; set_solver. Qed.

(** ** Stores on a known cell *)

Lemma upd_run p f s n :
  mem s !! p = Some n -> upd p f s = Some (mk_state (<[p := f n]> (mem s)) (rb_root s)).
Proof. unfold upd. by intros ->. Qed.

(** [relink] changes the link that leads to the focus, and nothing else. *)
Lemma repk_relink k s p v :
  NoDup (klocs k) -> (p ∉ klocs k) -> repk s k (Some p) ->
  exists s', relink (parent_of k) p v s = Some s' /\
    relink_r (parent_of k) p v s = Some s' /\
    repk s' k v /\ (forall q, q ∉ klocs k -> mem s' !! q = mem s !! q).
Proof.
  unfold klocs. intros Hd Hp Hk.
  destruct k as [|[c x r|c l x] k]; cbn [parent_of hd_error fmap option_fmap option_map floc].
  - exists (mk_state (mem s) v). done.
  - destruct Hk as (Hx & Hr & Hk). cbn [kpre kpost] in *.
    assert (root_of r <> Some p) by (intros E%root_of_inorder; set_solver).
    unfold relink, relink_r, get_left, get_right. rewrite Hx. cbn.
    rewrite decide_True, decide_False by done.
    unfold set_left. erewrite upd_run by done. cbn.
    eexists. split; [done|]. split; [done|]. split.
    + apply NoDup_middle_iff in Hd as (? & ? & Hd). cbn. split_and!.
      * by rewrite lookup_insert_eq.
      * eapply rep_frame; [done|]. intros q Hq. cbn.
        rewrite lookup_insert_ne; [done|]. set_solver.
      * eapply repk_frame; [done..|]. intros q Hq. cbn. unfold klocs in Hq.
        rewrite lookup_insert_ne; [done|]. set_solver.
    + intros q Hq. cbn. rewrite lookup_insert_ne; [done|]. set_solver.
  - destruct Hk as (Hx & Hl & Hk). cbn [kpre kpost] in *.
    assert (root_of l <> Some p) by (intros E%root_of_inorder; set_solver).
    unfold relink, relink_r, get_left, get_right. rewrite Hx. cbn.
    rewrite decide_False, decide_True by done.
    unfold set_right. erewrite upd_run by done. cbn.
    rewrite <- !app_assoc in Hd. cbn in Hd.
    rewrite app_assoc in Hd. apply NoDup_middle_iff in Hd as (? & ? & Hd).
    eexists. split; [done|]. split; [done|]. split.
    + cbn. split_and!.
      * by rewrite lookup_insert_eq.
      * eapply rep_frame; [done|]. intros q Hq. cbn.
        rewrite lookup_insert_ne; [done|]. set_solver.
      * eapply repk_frame; [done..|]. intros q Hq. cbn. unfold klocs in Hq.
        rewrite lookup_insert_ne; [done|]. set_solver.
    + intros q Hq. cbn. rewrite lookup_insert_ne; [done|]. set_solver.
Qed.

(** The part of [NoDup] the rotations use: the pieces around two nodes are
    pairwise apart. *)
Lemma NoDup_pieces (a b d : list loc) k x y :
  NoDup (kpre k ++ (a ++ x :: b ++ y :: d) ++ kpost k) ->
  NoDup (klocs k) /\ (x ∉ klocs k) /\ (y ∉ klocs k) /\ x <> y /\
  NoDup a /\ NoDup b /\ NoDup d /\
  (forall q, q ∈ a -> q <> x /\ q <> y /\ (q ∉ b) /\ (q ∉ d) /\ (q ∉ klocs k)) /\
  (forall q, q ∈ b -> q <> x /\ q <> y /\ (q ∉ a) /\ (q ∉ d) /\ (q ∉ klocs k)) /\
  (forall q, q ∈ d -> q <> x /\ q <> y /\ (q ∉ a) /\ (q ∉ b) /\ (q ∉ klocs k)).
Proof.
  intros Hd.
  assert (Hd' : NoDup ((a ++ x :: b ++ y :: d) ++ klocs k))
    by (unfold klocs; by rewrite (Permutation_app_swap_app _ (kpre k))). clear Hd.
  apply NoDup_app_inv in Hd' as (HX & Hk & Hdis).
  apply NoDup_app_inv in HX as (Ha & (Hx & HY)%list.NoDup_cons & Hda).
  apply NoDup_app_inv in HY as (Hb & (Hy & Hd)%list.NoDup_cons & Hdb).
  rewrite not_elem_of_app, not_elem_of_cons in Hx.
  assert (Hka : forall q, q ∈ a -> q ∉ klocs k)
    by (intros q ? ?; apply (Hdis q); [|done]; clear -H; set_solver).
  assert (Hkb : forall q, q ∈ b -> q ∉ klocs k)
    by (intros q ? ?; apply (Hdis q); [|done]; clear -H; set_solver).
  assert (Hkd : forall q, q ∈ d -> q ∉ klocs k)
    by (intros q ? ?; apply (Hdis q); [|done]; clear -H; set_solver).
  assert (Hkx : x ∉ klocs k) by (intros ?; apply (Hdis x); [clear; set_solver|done]).
  assert (Hky : y ∉ klocs k) by (intros ?; apply (Hdis y); [clear; set_solver|done]).
  assert (Ha' : forall q, q ∈ a -> q <> x /\ q <> y /\ (q ∉ b) /\ (q ∉ d)).
  { intros q Hq. specialize (Hda q Hq). clear -Hda. set_solver. }
  assert (Hb' : forall q, q ∈ b -> q <> y /\ (q ∉ d)).
  { intros q Hq. specialize (Hdb q Hq). clear -Hdb. set_solver. }
  destruct Hx as (Hxb & Hxy & Hxd).
  assert (Hsep : forall q, (q ∈ b -> q ∉ a) /\ (q ∈ d -> (q ∉ a) /\ (q ∉ b))).
  { intros q. specialize (Ha' q). specialize (Hb' q). tauto. }
  split_and!; try done; intros q Hq; specialize (Ha' q); specialize (Hb' q);
    specialize (Hsep q); specialize (Hka q); specialize (Hkb q); specialize (Hkd q);
    split_and!; try tauto; intros ->; tauto.
Qed.

(** A store at [p], as facts about the new state. *)
Lemma upd_ok p f s n :
  mem s !! p = Some n ->
  exists s', upd p f s = Some s' /\ mem s' !! p = Some (f n) /\
    (forall q, q <> p -> mem s' !! q = mem s !! q) /\ rb_root s' = rb_root s.
Proof.
  intros E. exists (mk_state (<[p := f n]> (mem s)) (rb_root s)). cbn.
  rewrite (upd_run _ _ _ _ E), lookup_insert_eq. split_and!; [done..| |done].
  intros q Hq. by rewrite lookup_insert_ne.
Qed.

(** [if (p) p->rb_parent = v] at the root of a subtree. *)
Lemma set_parent_opt_ok s par v t :
  NoDup (inorder t) -> rep (mem s) par t ->
  exists s', set_parent_opt (root_of t) v s = Some s' /\ rep (mem s') v t /\
    (forall q, q ∉ inorder t -> mem s' !! q = mem s !! q) /\ rb_root s' = rb_root s.
Proof.
  intros Hd Ht. destruct t as [|c l x r]; cbn [root_of set_parent_opt].
  { exists s. done. }
  pose proof (proj1 Ht) as Hx. unfold set_parent.
  edestruct (upd_ok x) as (s' & -> & Hx' & F & Hr); [exact Hx|]. exists s'. split; [done|].
  split; [|split; [|done]].
  - eapply (rep_reparent (mem s)); [done..| |]; cbn.
    + intros. simplify_eq. done.
    + intros q Hq Hne. apply F. congruence.
  - intros q Hq. apply F. intros ->. apply Hq. cbn. set_solver.
Qed.

(** Discharge the side conditions of store lemmas from the pieces' facts. *)
Ltac apart_tac :=
  try done;
  match goal with
  | |- ?q <> ?p => first [assumption | apply not_eq_sym; assumption | intros ->; by eauto | intros <-; by eauto]
  | |- _ ∉ _ => first [assumption | by eauto | intros ?; by eauto]
  | |- _ => by eauto
  end.

(** Read a cell through the stores made so far. *)
Ltac chase :=
  repeat match goal with
  | E : mem ?s !! ?p = Some _ |- context [mem ?s !! ?p] => rewrite E
  | F : forall q, q <> _ -> mem ?s !! q = mem _ !! q |- context [mem ?s !! ?p] =>
      rewrite (F p) by apart_tac
  | F : forall q, q ∉ _ -> mem ?s !! q = mem _ !! q |- context [mem ?s !! ?p] =>
      rewrite (F p) by apart_tac
  end.

(** Execute the store at the head of the program. *)
Ltac run_upd :=
  match goal with
  | |- context [upd ?p ?f ?s] =>
      let E := fresh "E" in let F := fresh "F" in
      let R := fresh "R" in let C := fresh "C" in let V := fresh "V" in
      eassert (C : mem s !! p = Some _) by (chase; reflexivity);
      destruct (upd_ok p f s _ C) as (? & E & V & F & R); rewrite E; clear E C;
      cbn [mbind option_bind rb_parent rb_left rb_right rb_color] in *
  end.

(** Open what is known about a node of one of the pieces. *)
Ltac piece q Hq :=
  repeat match goal with
  | H : forall q, q ∈ ?L -> _ /\ _ |- _ =>
      match type of Hq with _ ∈ L => destruct (H q Hq) as (? & ? & ? & ? & ?); clear H end
  end.

(** A piece is unchanged by stores outside it. *)
Ltac frame_tac :=
  (eapply rep_frame; [eassumption|]); intros ?q ?Hq;
  match goal with Hq : ?q ∈ _ |- _ => piece q Hq end; chase; done.

Lemma not_piece (a b d : list loc) k x y q :
  (q ∉ kpre k ++ (a ++ x :: b ++ y :: d) ++ kpost k) ->
  q <> x /\ q <> y /\ (q ∉ a) /\ (q ∉ b) /\ (q ∉ d) /\ (q ∉ klocs k).
Proof. unfold klocs. set_solver. Qed.

Lemma rotate_left_ok s k c a x c' b y d :
  is_tree s (plug k (Node c a x (Node c' b y d))) ->
  exists s', __rb_rotate_left x s = Some s' /\
    is_tree s' (plug k (Node c' (Node c a x b) y d)) /\
    (forall q, q ∉ inorder (plug k (Node c a x (Node c' b y d))) -> mem s' !! q = mem s !! q).
Proof.
  rewrite !is_tree_plug, inorder_plug. cbn [inorder root_of rep].
  intros (Hd & (Hx & Ha & Hy & Hb & Hdd) & Hk).
  destruct (NoDup_pieces _ _ _ _ _ _ Hd)
    as (Hdk & Hxk & Hyk & Hxy & Hda & Hdb & Hddd & HA & HB & HD).
  assert (Hxb : x ∉ inorder b) by (intros Hq; piece x Hq; done).
  assert (Hyb : y ∉ inorder b) by (intros Hq; piece y Hq; done).
  unfold __rb_rotate_left, get_right, get_left, set_right, set_left, set_parent, get_parent.
  rewrite Hx. cbn [fmap option_fmap option_map mbind option_bind rb_right root_of].
  rewrite Hy. cbn [fmap option_fmap option_map mbind option_bind rb_left].
  run_upd.
  destruct (set_parent_opt_ok x0 (Some y) (Some x) b) as (s2 & -> & Hb2 & F2 & R2);
    [done|frame_tac|].
  cbn [mbind option_bind]. run_upd.
  eassert (C : mem x1 !! x = Some _) by (chase; reflexivity). rewrite C.
  cbn [fmap option_fmap option_map mbind option_bind rb_parent]. run_upd.
  destruct (repk_relink k x2 x (Some y)) as (s5 & -> & _ & Hk5 & F5); [done..| |].
  { eapply repk_frame; [exact Hk|congruence|]. intros q Hq.
    assert (q <> x) by (by intros ->). assert (q <> y) by (by intros ->).
    assert (q ∉ inorder b) by (intros Hq'; piece q Hq'; done). chase. done. }
  cbn [mbind option_bind]. run_upd.
  eexists. split; [done|].
  split; [apply is_tree_plug; cbn [inorder root_of rep]; split; [|split]|].
  - by rewrite <- (app_assoc (inorder a)).
  - split; [chase; done|]. split; [|frame_tac]. split; [chase; done|].
    split; [frame_tac|frame_tac].
  - eapply repk_frame; [exact Hk5|congruence|]. intros q Hq.
    assert (q <> x) by (by intros ->). chase. done.
  - intros q Hq. apply not_piece in Hq as (? & ? & ? & ? & ? & ?). chase. done.
Qed.

Lemma rotate_right_ok s k c a x c' b y d :
  is_tree s (plug k (Node c (Node c' a x b) y d)) ->
  exists s', __rb_rotate_right y s = Some s' /\
    is_tree s' (plug k (Node c' a x (Node c b y d))) /\
    (forall q, q ∉ inorder (plug k (Node c (Node c' a x b) y d)) -> mem s' !! q = mem s !! q).
Proof.
  rewrite !is_tree_plug, inorder_plug. cbn [inorder root_of rep].
  rewrite <- (app_assoc (inorder a)). cbn [app].
  intros (Hd & (Hy & (Hx & Ha & Hb) & Hdd) & Hk).
  destruct (NoDup_pieces _ _ _ _ _ _ Hd)
    as (Hdk & Hxk & Hyk & Hxy & Hda & Hdb & Hddd & HA & HB & HD).
  assert (Hxb : x ∉ inorder b) by (intros Hq; piece x Hq; done).
  assert (Hyb : y ∉ inorder b) by (intros Hq; piece y Hq; done).
  unfold __rb_rotate_right, get_right, get_left, set_right, set_left, set_parent, get_parent.
  rewrite Hy. cbn [fmap option_fmap option_map mbind option_bind rb_left root_of].
  rewrite Hx. cbn [fmap option_fmap option_map mbind option_bind rb_right].
  run_upd.
  destruct (set_parent_opt_ok x0 (Some x) (Some y) b) as (s2 & -> & Hb2 & F2 & R2);
    [done|frame_tac|].
  cbn [mbind option_bind]. run_upd.
  eassert (C : mem x1 !! y = Some _) by (chase; reflexivity). rewrite C.
  cbn [fmap option_fmap option_map mbind option_bind rb_parent]. run_upd.
  destruct (repk_relink k x2 y (Some x)) as (s5 & _ & -> & Hk5 & F5); [done..| |].
  { eapply repk_frame; [exact Hk|congruence|]. intros q Hq.
    assert (q <> x) by (by intros ->). assert (q <> y) by (by intros ->).
    assert (q ∉ inorder b) by (intros Hq'; piece q Hq'; done). chase. done. }
  cbn [mbind option_bind]. run_upd.
  eexists. split; [done|].
  split; [apply is_tree_plug; cbn [inorder root_of rep]; split; [|split]|].
  - done.
  - split; [chase; done|]. split; [frame_tac|]. split; [chase; done|].
    split; [frame_tac|frame_tac].
  - eapply repk_frame; [exact Hk5|congruence|]. intros q Hq.
    assert (q <> y) by (by intros ->). chase. done.
  - intros q Hq. apply not_piece in Hq as (? & ? & ? & ? & ? & ?). chase. done.
Qed.

(** ** Sequences of operations *)

(** From the store [s] holding [t], the program has reached [s'], which holds
    [t'], the same nodes in the same order; other memory is unchanged. *)
Definition evolves (s : state) (t : tree) (s' : state) (t' : tree) : Prop :=
  is_tree s' t' /\ inorder t' = inorder t /\
  (forall q, q ∉ inorder t -> mem s' !! q = mem s !! q).

Lemma evolves_refl s t : is_tree s t -> evolves s t s t.
Proof. done. Qed.

Lemma evolves_trans s t s1 t1 s2 t2 :
  evolves s t s1 t1 -> evolves s1 t1 s2 t2 -> evolves s t s2 t2.
Proof.
  intros (? & E1 & F1) (? & E2 & F2). split; [done|]. split; [congruence|].
  intros q Hq. rewrite F2 by congruence. by apply F1.
Qed.

Lemma set_color_ok s k c l x r c' :
  is_tree s (plug k (Node c l x r)) ->
  exists s', set_color x c' s = Some s' /\
    evolves s (plug k (Node c l x r)) s' (plug k (Node c' l x r)).
Proof.
  intros Ht. pose proof Ht as (Hd & (Hx & Hl & Hr) & Hk)%is_tree_plug.
  unfold set_color. destruct (upd_ok x (fun n => mk_rb_node (rb_parent n) (rb_right n) (rb_left n) c') s _ Hx)
    as (s' & -> & Hx' & F & R). exists s'. split; [done|].
  assert (Hne : forall q, (q ∈ inorder l) \/ (q ∈ inorder r) \/ (q ∈ klocs k) -> q <> x).
  { intros q Hq ->. cbn [inorder] in Hd.
    rewrite (Permutation_app_swap_app (kpre k)), <- app_assoc in Hd. cbn in Hd.
    apply NoDup_middle_iff in Hd as (? & ? & _). unfold klocs in Hq. set_solver. }
  split; [|split].
  - apply is_tree_plug. cbn [inorder rep root_of] in *. split_and!; try done.
    + eapply rep_frame; [done|]. intros q Hq. apply F, Hne. tauto.
    + eapply rep_frame; [done|]. intros q Hq. apply F, Hne. tauto.
    + eapply repk_frame; [done..|]. intros q Hq. apply F, Hne. tauto.
  - by rewrite !inorder_plug.
  - intros q Hq. apply F. intros ->. apply Hq. rewrite inorder_plug. cbn. set_solver.
Qed.

Lemma rotate_left_evolves s k c a x c' b y d :
  is_tree s (plug k (Node c a x (Node c' b y d))) ->
  exists s', __rb_rotate_left x s = Some s' /\
    evolves s (plug k (Node c a x (Node c' b y d))) s' (plug k (Node c' (Node c a x b) y d)).
Proof.
  intros (s' & ? & ? & ?)%rotate_left_ok. exists s'. split; [done|].
  split; [done|]. split; [|done]. rewrite !inorder_plug. cbn. do 2 f_equal.
  by rewrite <- app_assoc.
Qed.

Lemma rotate_right_evolves s k c a x c' b y d :
  is_tree s (plug k (Node c (Node c' a x b) y d)) ->
  exists s', __rb_rotate_right y s = Some s' /\
    evolves s (plug k (Node c (Node c' a x b) y d)) s' (plug k (Node c' a x (Node c b y d))).
Proof.
  intros (s' & ? & ? & ?)%rotate_right_ok. exists s'. split; [done|].
  split; [done|]. split; [|done]. rewrite !inorder_plug. cbn. do 2 f_equal.
  by rewrite <- app_assoc.
Qed.

(** The two children of a node, and the siblings of a focus, differ. *)
Lemma sibling_ne s k c l x r p :
  is_tree s (plug k (Node c l x r)) -> root_of r = Some p -> root_of l <> Some p.
Proof.
  intros (Hd & _)%is_tree_plug Hr%root_of_inorder Hl%root_of_inorder. cbn in Hd.
  apply NoDup_app_inv in Hd as (_ & (Hd & _)%NoDup_app_inv & _).
  apply NoDup_app_inv in Hd as (_ & _ & Hd). apply (Hd p); set_solver.
Qed.

(** The cells of the nodes named in a focused tree. *)
Ltac cells H :=
  let H' := fresh in
  pose proof (proj2 (proj1 (is_tree_plug _ _ _) H)) as H';
  cbn [rep repk root_of parent_of hd_error fmap option_fmap option_map floc] in H';
  split_hyps.

(** Read the program's next fields off the known cells. *)
Ltac rd :=
  unfold get_parent, get_left, get_right, get_color;
  repeat (match goal with
  | E : mem ?s !! ?p = Some _ |- context [mem ?s !! ?p] => rewrite E
  end; cbn [fmap option_fmap option_map mbind option_bind rb_parent rb_left rb_right
            rb_color root_of parent_of hd_error floc]).

(** Decide the equality tests of the program. *)
Ltac dec :=
  repeat match goal with
  | |- context [decide (?a = ?a)] => rewrite (decide_True (P := a = a)) by reflexivity
  | |- context [decide (?a = ?b)] =>
      first [rewrite (decide_False (P := a = b)) by congruence
            | rewrite (decide_True (P := a = b)) by congruence]
  end; cbn [mbind option_bind].
