(* ===== verification/RBInsert.v ===== *)
(** * Red-black balance, and the correctness of [rb_insert_color]

    [valid t] is the red-black invariant: the root is black, no red node has a
    red child, every path to a leaf crosses the same number of black nodes.
    [rbk] is the same invariant for the context of a focus.  The loop of
    [rb_insert_color] is followed on zippers: at every iteration the focus is a
    red node whose subtrees are balanced, in a balanced context, so the only
    defect is a red parent; it ends after at most one iteration per level. *)

From S2P Require Import Prelude RBTree.

(** ** The invariant *)

(** [rb c n t]: [t] is balanced, its root has colour [c] (a leaf is black) and
    every path from the root to a leaf has [n] black nodes. *)
Inductive rb : color -> nat -> tree -> Prop :=
  | rb_leaf : rb RB_BLACK 0 Leaf
  | rb_node_red n l x r :
      rb RB_BLACK n l -> rb RB_BLACK n r -> rb RB_RED n (Node RB_RED l x r)
  | rb_node_black n cl cr l x r :
      rb cl n l -> rb cr n r -> rb RB_BLACK (S n) (Node RB_BLACK l x r).

Definition valid (t : tree) : Prop := exists n, rb RB_BLACK n t.

(** [rbk c n k]: around a hole of black height [n] the path [k] is balanced;
    the hole may be filled with a red node when [c] is red. *)
Inductive rbk : color -> nat -> ctx -> Prop :=
  | rbk_nil n : rbk RB_BLACK n []
  | rbk_blackL n c c' x r k :
      rb c n r -> rbk c' (S n) k -> rbk RB_RED n (InL RB_BLACK x r :: k)
  | rbk_blackR n c c' x l k :
      rb c n l -> rbk c' (S n) k -> rbk RB_RED n (InR RB_BLACK l x :: k)
  | rbk_redL n x r k :
      rb RB_BLACK n r -> rbk RB_RED n k -> rbk RB_BLACK n (InL RB_RED x r :: k)
  | rbk_redR n x l k :
      rb RB_BLACK n l -> rbk RB_RED n k -> rbk RB_BLACK n (InR RB_RED l x :: k).

#[export] Hint Constructors rb rbk : workflow.

Lemma plug_valid k t c c' n :
  rbk c n k -> rb c' n t -> (c' = RB_BLACK \/ c = RB_RED) -> valid (plug k t).
Proof.
  revert t c c' n. induction k as [|f k IH]; intros t c c' n Hk Ht Hc.
  - inversion Hk; subst. destruct Hc; simplify_eq. by exists n.
  - inversion Hk; subst; cbn [plug fold_left fill]; destruct c'; destruct Hc; simplify_eq;
      (eapply IH; [eassumption|eauto with workflow|auto]).
Qed.

Lemma plug_valid_inv k t :
  valid (plug k t) ->
  exists c c' n, rbk c n k /\ rb c' n t /\ (c' = RB_BLACK \/ c = RB_RED).
Proof.
  revert t. induction k as [|f k IH]; intros t.
  - intros [n Hn]. eauto 10 with workflow.
  - cbn [plug fold_left]. intros (c & c' & n & Hk & Hf & Hc)%IH.
    destruct f as [c0 x r|c0 l x]; cbn [fill] in Hf; inversion Hf; subst;
      destruct Hc; simplify_eq; eauto 10 with workflow.
Qed.

(** ** The loop of [rb_insert_color] *)

(** What the loop leaves: a valid tree, or one whose root has to be blackened. *)
Definition almost_valid (t : tree) : Prop :=
  valid t \/ exists l x r n, t = Node RB_RED l x r /\ rb RB_BLACK n l /\ rb RB_BLACK n r.

(** Apply a lemma about one operation of the program and move to the new state. *)
Ltac step lem H :=
  let s' := fresh "s" in let E := fresh "E" in let V := fresh "V" in
  let T := fresh "T" in
  destruct lem as (s' & E & V); [exact H|];
  rewrite E; clear E; cbn [mbind option_bind]; pose proof (proj1 V) as T;
  match goal with
  | W : evolves ?s ?t ?s1 ?t1 |- _ =>
      match type of V with evolves s1 _ _ _ =>
        let W' := fresh "V" in
        pose proof (evolves_trans _ _ _ _ _ _ W V) as W'; clear W V; rename W' into V end
  | _ => idtac
  end.

Lemma insert_loop_black_parent fuel s k f c l x r :
  is_tree s (plug (f :: k) (Node c l x r)) ->
  (exists y t, f = InL RB_BLACK y t \/ f = InR RB_BLACK t y) ->
  rb_insert_loop (S fuel) x s = Some s.
Proof.
  intros H (y & t & [-> | ->]); cells H; cbn [rb_insert_loop]; rd; done.
Qed.

(** The colour test on a subtree that the store holds. *)
Lemma is_red_rep s par t c n :
  rep (mem s) par t -> rb c n t -> is_red (root_of t) s = Some (if c is RB_RED then true else false).
Proof. intros Hs Ht. inversion Ht; subst; [done|..]; destruct Hs as [E _];
  unfold is_red, get_color; cbn; by rewrite E. Qed.

(** The rotations of the last iteration: the focus [x] under a red parent [p]
    with a black uncle, on the left (resp. right) of the grandparent [g].  The
    new top is black, with the same black height as the old one. *)
Lemma insert_rotations_L fuel s k g u x l r f n :
  is_tree s (plug (f :: InL RB_BLACK g u :: k) (Node RB_RED l x r)) ->
  rb RB_BLACK n l -> rb RB_BLACK n r -> rbk RB_BLACK n (f :: InL RB_BLACK g u :: k) ->
  rb RB_BLACK n u ->
  exists s' t', rb_insert_loop (S (S fuel)) x s = Some s' /\
    evolves s (plug (f :: InL RB_BLACK g u :: k) (Node RB_RED l x r)) s' (plug k t') /\
    rb RB_BLACK (S n) t'.
Proof.
  intros H Hl Hr Hk Hu.
  assert (Hf : exists p sib, rb RB_BLACK n sib /\ (f = InL RB_RED p sib \/ f = InR RB_RED sib p))
    by (inversion Hk; subst; eauto).
  destruct Hf as (p & sib & Hsib & [-> | ->]); cells H; cbn [rb_insert_loop]; rd; dec; rd; dec;
    (erewrite is_red_rep by eassumption); cbn [mbind option_bind].
  - (* [x] is the outer grandchild: one rotation *)
    assert (root_of sib <> Some x) by (intros E; by apply (sibling_ne s (InL RB_BLACK g u :: k) RB_RED (Node RB_RED l x r) p sib x H)).
    rd. dec.
    step (set_color_ok s (InL RB_BLACK g u :: k) RB_RED (Node RB_RED l x r) p sib RB_BLACK) H.
    step (set_color_ok s0 k RB_BLACK (Node RB_BLACK (Node RB_RED l x r) p sib) g u RB_RED) T.
    step (rotate_right_evolves s1 k RB_RED (Node RB_RED l x r) p RB_BLACK sib g u) T0.
    eexists _, (Node RB_BLACK (Node RB_RED l x r) p (Node RB_RED sib g u)).
    split; [|split; [exact V|]].
    + eapply (insert_loop_black_parent _ _ _ (InL RB_BLACK p _) RB_RED); [exact T1|eauto].
    + eauto with workflow.
  - (* [x] is the inner grandchild: two rotations *)
    rd. dec.
    step (rotate_left_evolves s (InL RB_BLACK g u :: k) RB_RED sib p RB_RED l x r) H.
    step (set_color_ok s0 (InL RB_BLACK g u :: k) RB_RED (Node RB_RED sib p l) x r RB_BLACK) T.
    step (set_color_ok s1 k RB_BLACK (Node RB_BLACK (Node RB_RED sib p l) x r) g u RB_RED) T0.
    step (rotate_right_evolves s2 k RB_RED (Node RB_RED sib p l) x RB_BLACK r g u) T1.
    eexists _, (Node RB_BLACK (Node RB_RED sib p l) x (Node RB_RED r g u)).
    split; [|split; [eassumption|]].
    + eapply (insert_loop_black_parent _ _ _ (InL RB_BLACK x _) RB_RED); [exact T2|eauto].
    + eauto with workflow.
Qed.

Lemma insert_rotations_R fuel s k g u x l r f n :
  is_tree s (plug (f :: InR RB_BLACK u g :: k) (Node RB_RED l x r)) ->
  rb RB_BLACK n l -> rb RB_BLACK n r -> rbk RB_BLACK n (f :: InR RB_BLACK u g :: k) ->
  rb RB_BLACK n u ->
  exists s' t', rb_insert_loop (S (S fuel)) x s = Some s' /\
    evolves s (plug (f :: InR RB_BLACK u g :: k) (Node RB_RED l x r)) s' (plug k t') /\
    rb RB_BLACK (S n) t'.
Proof.
  intros H Hl Hr Hk Hu.
  assert (Hf : exists p sib, rb RB_BLACK n sib /\ (f = InL RB_RED p sib \/ f = InR RB_RED sib p))
    by (inversion Hk; subst; eauto).
  destruct Hf as (p & sib & Hsib & [-> | ->]).
  - (* [x] is the inner grandchild: two rotations *)
    assert (root_of u <> Some p)
      by (by apply (sibling_ne s k RB_BLACK u g (Node RB_RED (Node RB_RED l x r) p sib) p H)).
    cells H; cbn [rb_insert_loop]; rd; dec; rd; dec.
    (erewrite is_red_rep by eassumption); cbn [mbind option_bind]. rd. dec.
    step (rotate_right_evolves s (InR RB_BLACK u g :: k) RB_RED l x RB_RED r p sib) H.
    step (set_color_ok s0 (InR RB_BLACK u g :: k) RB_RED l x (Node RB_RED r p sib) RB_BLACK) T.
    step (set_color_ok s1 k RB_BLACK u g (Node RB_BLACK l x (Node RB_RED r p sib)) RB_RED) T0.
    step (rotate_left_evolves s2 k RB_RED u g RB_BLACK l x (Node RB_RED r p sib)) T1.
    eexists _, (Node RB_BLACK (Node RB_RED u g l) x (Node RB_RED r p sib)).
    split; [|split; [eassumption|]].
    + eapply (insert_loop_black_parent _ _ _ (InR RB_BLACK _ x) RB_RED); [exact T2|eauto].
    + eauto with workflow.
  - (* [x] is the outer grandchild: one rotation *)
    assert (root_of u <> Some p)
      by (by apply (sibling_ne s k RB_BLACK u g (Node RB_RED sib p (Node RB_RED l x r)) p H)).
    assert (root_of sib <> Some x)
      by (by apply (sibling_ne s (InR RB_BLACK u g :: k) RB_RED sib p (Node RB_RED l x r) x H)).
    cells H; cbn [rb_insert_loop]; rd; dec; rd; dec.
    (erewrite is_red_rep by eassumption); cbn [mbind option_bind]. rd. dec.
    step (set_color_ok s (InR RB_BLACK u g :: k) RB_RED sib p (Node RB_RED l x r) RB_BLACK) H.
    step (set_color_ok s0 k RB_BLACK u g (Node RB_BLACK sib p (Node RB_RED l x r)) RB_RED) T.
    step (rotate_left_evolves s1 k RB_RED u g RB_BLACK sib p (Node RB_RED l x r)) T0.
    eexists _, (Node RB_BLACK (Node RB_RED u g sib) p (Node RB_RED l x r)).
    split; [|split; [eassumption|]].
    + eapply (insert_loop_black_parent _ _ _ (InR RB_BLACK _ p) RB_RED); [exact T1|eauto].
    + eauto with workflow.
Qed.

(** A red uncle: recolour, and go on two levels up. *)
Lemma insert_loop_red_uncle fuel s k p pl pr x g u fg cl cr n :
  is_tree s (plug (fg :: k) (Node RB_RED pl p pr)) -> get_parent x s = Some (Some p) ->
  (fg = InL RB_BLACK g u \/ fg = InR RB_BLACK u g) ->
  rb cl n pl -> rb cr n pr -> rb RB_RED n u ->
  exists s' lg rg, rb_insert_loop (S fuel) x s = rb_insert_loop fuel g s' /\
    evolves s (plug (fg :: k) (Node RB_RED pl p pr)) s' (plug k (Node RB_RED lg g rg)) /\
    rb RB_BLACK (S n) lg /\ rb RB_BLACK (S n) rg.
Proof.
  intros H Hx Hfg Hl Hr Hu. inversion Hu as [|? ul ux ur Hul Hur|]; subst.
  cbn [rb_insert_loop]. rewrite Hx. cbn [mbind option_bind]. destruct Hfg as [-> | ->].
  - cells H. rd. dec. rd. dec. cbn [is_red]. rd.
    rewrite bool_decide_true by done.
    step (set_color_ok s (InR RB_BLACK (Node RB_RED pl p pr) g :: k) RB_RED ul ux ur RB_BLACK) H.
    step (set_color_ok s0 (InL RB_BLACK g (Node RB_BLACK ul ux ur) :: k) RB_RED pl p pr RB_BLACK) T.
    step (set_color_ok s1 k RB_BLACK (Node RB_BLACK pl p pr) g (Node RB_BLACK ul ux ur) RB_RED) T0.
    eexists _, _, _. split; [done|]. split; [eassumption|]. eauto with workflow.
  - assert (Some ux <> Some p)
      by (by apply (sibling_ne s k RB_BLACK (Node RB_RED ul ux ur) g (Node RB_RED pl p pr) p H)).
    cells H. rd. dec. rd. dec. cbn [is_red]. rd.
    rewrite bool_decide_true by done.
    step (set_color_ok s (InL RB_BLACK g (Node RB_RED pl p pr) :: k) RB_RED ul ux ur RB_BLACK) H.
    step (set_color_ok s0 (InR RB_BLACK (Node RB_BLACK ul ux ur) g :: k) RB_RED pl p pr RB_BLACK) T.
    step (set_color_ok s1 k RB_BLACK (Node RB_BLACK ul ux ur) g (Node RB_BLACK pl p pr) RB_RED) T0.
    eexists _, _, _. split; [done|]. split; [eassumption|]. eauto with workflow.
Qed.

(** The loop: one unit of fuel per level is enough. *)
Lemma insert_loop_ok fuel : forall s k x l r n c,
  (length k < fuel)%nat -> is_tree s (plug k (Node RB_RED l x r)) ->
  rb RB_BLACK n l -> rb RB_BLACK n r -> rbk c n k ->
  exists s' t', rb_insert_loop fuel x s = Some s' /\
    evolves s (plug k (Node RB_RED l x r)) s' t' /\ almost_valid t'.
Proof.
  induction fuel as [fuel IH] using lt_wf_ind. intros s k x l r n c Hf H Hl Hr Hk.
  destruct fuel as [|fuel]; [lia|].
  destruct k as [|f k].
  { (* the focus is the root *)
    exists s, (Node RB_RED l x r). cbn [rb_insert_loop]. cells H. rd.
    split; [done|]. split; [by apply evolves_refl|]. right. eauto 10. }
  destruct c.
  { (* the parent is black *)
    exists s, (plug (f :: k) (Node RB_RED l x r)).
    split; [|split; [by apply evolves_refl|left]].
    - eapply insert_loop_black_parent; [exact H|]. inversion Hk; subst; eauto.
    - eapply plug_valid; [exact Hk|eauto with workflow|auto]. }
  assert (Hf' : exists p pl pr cl cr, fill f (Node RB_RED l x r) = Node RB_RED pl p pr /\
     rb cl n pl /\ rb cr n pr /\ get_parent x s = Some (Some p)).
  { inversion Hk; subst; cells H; eexists _, _, _, _, _; cbn [fill]; rd; eauto 10 with workflow. }
  destruct Hf' as (p & pl & pr & cl & cr & Ef & Hpl & Hpr & Hpx).
  assert (Hk' : rbk RB_RED n k) by (inversion Hk; subst; done).
  inversion Hk' as [|? cu c' g u k' Hu Hk''|? cu c' g u k' Hu Hk''| |]; subst; cbn in Hf.
  - destruct cu.
    + assert (H' := H). change (is_tree s (plug (InL RB_BLACK g u :: k') (fill f (Node RB_RED l x r)))) in H'.
      rewrite Ef in H'.
      destruct (insert_loop_red_uncle fuel s k' p pl pr x g u _ _ _ n H' Hpx
                  (or_introl eq_refl) Hpl Hpr Hu) as (s1 & lg & rg & -> & V & Hlg & Hrg).
      destruct (IH fuel (Nat.lt_succ_diag_r _) s1 k' g lg rg (S n) c') as (s2 & t2 & E2 & V2 & A2);
        [lia|exact (proj1 V)|done..|].
      exists s2, t2. split; [done|]. split; [|done]. eapply evolves_trans; [|exact V2].
      rewrite <- Ef in V. exact V.
    + destruct fuel as [|fuel]; [lia|].
      destruct (insert_rotations_L fuel s k' g u x l r f n) as (s1 & t1 & E1 & V & Ht1); [done..|].
      exists s1, (plug k' t1). split; [done|]. split; [done|]. left.
      eapply plug_valid; [exact Hk''|exact Ht1|auto].
  - destruct cu.
    + assert (H' := H). change (is_tree s (plug (InR RB_BLACK u g :: k') (fill f (Node RB_RED l x r)))) in H'.
      rewrite Ef in H'.
      destruct (insert_loop_red_uncle fuel s k' p pl pr x g u _ _ _ n H' Hpx
                  (or_intror eq_refl) Hpl Hpr Hu) as (s1 & lg & rg & -> & V & Hlg & Hrg).
      destruct (IH fuel (Nat.lt_succ_diag_r _) s1 k' g lg rg (S n) c') as (s2 & t2 & E2 & V2 & A2);
        [lia|exact (proj1 V)|done..|].
      exists s2, t2. split; [done|]. split; [|done]. eapply evolves_trans; [|exact V2].
      rewrite <- Ef in V. exact V.
    + destruct fuel as [|fuel]; [lia|].
      destruct (insert_rotations_R fuel s k' g u x l r f n) as (s1 & t1 & E1 & V & Ht1); [done..|].
      exists s1, (plug k' t1). split; [done|]. split; [done|]. left.
      eapply plug_valid; [exact Hk''|exact Ht1|auto].
Qed.

(** [rb_insert_color] on a red node whose context and subtrees are balanced. *)
Lemma rb_insert_color_ok fuel s k x l r n c :
  (length k < fuel)%nat -> is_tree s (plug k (Node RB_RED l x r)) ->
  rb RB_BLACK n l -> rb RB_BLACK n r -> rbk c n k ->
  exists s' t', rb_insert_color fuel x s = Some s' /\
    evolves s (plug k (Node RB_RED l x r)) s' t' /\ valid t'.
Proof.
  intros Hf H Hl Hr Hk. unfold rb_insert_color.
  destruct (insert_loop_ok fuel s k x l r n c Hf H Hl Hr Hk) as (s1 & t1 & -> & V & A).
  cbn [mbind option_bind].
  assert (Hroot : exists c0 l0 x0 r0, t1 = Node c0 l0 x0 r0 /\ valid (Node RB_BLACK l0 x0 r0)).
  { destruct A as [[n1 Hv] | (l1 & x1 & r1 & n1 & -> & Hl1 & Hr1)].
    - inversion Hv; subst; [|by unfold valid; eauto 10 with workflow].
      destruct V as (_ & E & _). rewrite inorder_plug in E. cbn in E.
      by destruct (kpre k); destruct (inorder l).
    - eexists _, _, _, _. split; [done|]. exists (S n1). eauto with workflow. }
  destruct Hroot as (c0 & l0 & x0 & r0 & -> & Hv0).
  pose proof (proj1 V) as T. rewrite (proj2 (proj2 T)). cbn [root_of mbind option_bind].
  destruct (set_color_ok s1 [] c0 l0 x0 r0 RB_BLACK T) as (s2 & E2 & V2).
  exists s2, (Node RB_BLACK l0 x0 r0). split; [done|]. split; [|done].
  by eapply evolves_trans.
Qed.
