(* ===== verification/RBErase.v ===== *)
(** * The correctness of [rb_erase]

    [rb_erase] unlinks a node (or its in-order successor, which then takes its
    place) and, when a black node was unlinked, repairs the black height in
    [__rb_erase_color].  The repair is followed on zippers: the focus is one
    black node short ([rb n] in a context that wants [S n]), and every
    iteration either finishes or moves the defect one level up. *)

From S2P Require Import Prelude RBTree RBInsert.

(** Blacken the root of a tree. *)
Definition blacken (t : tree) : tree :=
  match t with Leaf => Leaf | Node _ l x r => Node RB_BLACK l x r end.

(** ** One iteration *)

(** What an iteration that moves up leaves: the focus is the old parent, of
    colour [pc]; it is still one short, or it only has to be blackened. *)
Definition moved_up (pc : color) (n : nat) (k k' : ctx) (t' : tree) : Prop :=
  match pc with
  | RB_BLACK => k' = k /\ rb RB_BLACK (S n) t' /\ exists c, rbk c (S (S n)) k
  | RB_RED => (exists l x r, t' = Node RB_RED l x r) /\ valid (plug k' (blacken t'))
  end.

(** The last rotation of an iteration: the far child of the sibling is red. *)
Lemma erase_left_far_ok s k pc p t q a bl y br n c0 ca :
  is_tree s (plug (InL pc p (Node RB_BLACK a q (Node RB_RED bl y br)) :: k) t) ->
  rb c0 n t -> rb ca n a -> rb RB_BLACK n bl -> rb RB_BLACK n br ->
  (pc = RB_BLACK -> exists c', rbk c' (S (S n)) k) -> (pc = RB_RED -> rbk RB_RED (S n) k) ->
  exists s' t', erase_left_far p q s = Some s' /\
    evolves s (plug (InL pc p (Node RB_BLACK a q (Node RB_RED bl y br)) :: k) t) s' t' /\ valid t'.
Proof.
  intros H Ht Ha Hbl Hbr Hkb Hkr. unfold erase_left_far. cells H. rd.
  step (set_color_ok s (InR pc t p :: k) RB_BLACK a q (Node RB_RED bl y br) pc) H.
  step (set_color_ok s0 k pc t p (Node pc a q (Node RB_RED bl y br)) RB_BLACK) T.
  change (is_tree s1 (plug (InR RB_BLACK t p :: k) (Node pc a q (Node RB_RED bl y br)))) in T0.
  cells T0. rd.
  step (set_color_ok s1 (InR pc a q :: InR RB_BLACK t p :: k) RB_RED bl y br RB_BLACK) T0.
  step (rotate_left_evolves s2 k RB_BLACK t p pc a q (Node RB_BLACK bl y br)) T1.
  eexists _, _. split; [done|]. split; [eassumption|].
  destruct pc.
  - eapply plug_valid; [by apply Hkr|eauto with workflow|auto].
  - destruct Hkb as [c' Hk]; [done|]. eapply plug_valid; [exact Hk|eauto with workflow|auto].
Qed.

(** The context of the iteration, seen from above the parent. *)
Definition above (pc : color) (n : nat) (k : ctx) : Prop :=
  (pc = RB_BLACK -> exists c', rbk c' (S (S n)) k) /\ (pc = RB_RED -> rbk RB_RED (S n) k).

(** The part of an iteration with a black sibling. *)
Lemma erase_left_black_ok s k pc p t q a b n ca cb :
  is_tree s (plug (InL pc p (Node RB_BLACK a q b) :: k) t) ->
  rb RB_BLACK n t -> rb ca n a -> rb cb n b -> above pc n k ->
  exists up s' k' t', erase_left_black p q s = Some (up, s') /\
    evolves s (plug (InL pc p (Node RB_BLACK a q b) :: k) t) s' (plug k' t') /\
    (if up : bool then root_of t' = Some p /\ moved_up pc n k k' t' else valid (plug k' t')).
Proof.
  intros H Ht Ha Hb [Hkb Hkr]. unfold erase_left_black. cells H. rd.
  (erewrite (is_red_rep s _ a) by eassumption). cbn [mbind option_bind].
  (erewrite (is_red_rep s _ b) by eassumption). cbn [mbind option_bind].
  destruct cb.
  - (* the far child is red *)
    rewrite andb_false_r. cbn [negb mbind option_bind].
    inversion Hb as [|? bl y br Hbl Hbr|]; subst.
    destruct (erase_left_far_ok s k pc p t q a bl y br n _ _ H Ht Ha Hbl Hbr Hkb Hkr)
      as (s' & t' & -> & V & Hv).
    eexists false, s', [], t'. cbn [mbind option_bind]. done.
  - destruct ca; cbn [negb andb mbind option_bind].
    + (* the near child is red, the far one black *)
      inversion Ha as [|? al y ar Hal Har|]; subst. cbn [root_of].
      step (set_color_ok s (InL RB_BLACK q b :: InR pc t p :: k) RB_RED al y ar RB_BLACK) H.
      step (set_color_ok s0 (InR pc t p :: k) RB_BLACK (Node RB_BLACK al y ar) q b RB_RED) T.
      step (rotate_right_evolves s1 (InR pc t p :: k) RB_RED al y RB_BLACK ar q b) T0.
      change (is_tree s2 (plug (InL pc p (Node RB_BLACK al y (Node RB_RED ar q b)) :: k) t)) in T1.
      cells T1. rd.
      destruct (erase_left_far_ok s2 k pc p t y al ar q b n _ _ T1 Ht Hal Har Hb Hkb Hkr)
        as (s' & t' & -> & V' & Hv).
      eexists false, s', [], t'. cbn [mbind option_bind]. split; [done|]. split; [|done].
      eapply evolves_trans; [eassumption|exact V'].
    + (* both children are black: the sibling turns red *)
      step (set_color_ok s (InR pc t p :: k) RB_BLACK a q b RB_RED) H.
      eexists true, _, k, (Node pc t p (Node RB_RED a q b)).
      split; [done|]. split; [eassumption|]. split; [done|]. destruct pc.
      * split; [eauto|]. cbn [blacken].
        eapply plug_valid; [by apply Hkr|eauto with workflow|auto].
      * split; [done|]. split; [eauto with workflow|auto].
Qed.

(** An iteration with [node] on the left of its parent. *)
Lemma erase_left_ok s k pc p t sib n c :
  is_tree s (plug (InL pc p sib :: k) t) ->
  rb RB_BLACK n t -> rbk c (S n) (InL pc p sib :: k) ->
  exists up s' k' t', erase_left p s = Some (up, s') /\
    evolves s (plug (InL pc p sib :: k) t) s' (plug k' t') /\
    (if up : bool then root_of t' = Some p /\ exists pc', moved_up pc' n k k' t'
     else valid (plug k' t')).
Proof.
  intros H Ht Hk.
  assert (Hab : above pc n k /\ exists cs, rb cs (S n) sib /\ (pc = RB_RED -> cs = RB_BLACK)).
  { inversion Hk; subst; (split; [split; intros E; try discriminate E; eauto|]);
      (eexists; split; [eassumption|intros E; try discriminate E; auto]). }
  destruct Hab as [Hab (cs & Hs & Hcs)]. unfold erase_left.
  inversion Hs as [|? sl o sr Hsl Hsr|? cl cr a q b Ha Hb]; subst.
  - (* a red sibling: rotate it above the parent, which turns red *)
    destruct pc; [by specialize (Hcs eq_refl)|]. destruct Hab as [[c' Hk'] _]; [done|].
    cells H. rd. dec.
    step (set_color_ok s (InR RB_BLACK t p :: k) RB_RED sl o sr RB_BLACK) H.
    step (set_color_ok s0 k RB_BLACK t p (Node RB_BLACK sl o sr) RB_RED) T.
    step (rotate_left_evolves s1 k RB_RED t p RB_BLACK sl o sr) T0.
    change (is_tree s2 (plug (InL RB_RED p sl :: InL RB_BLACK o sr :: k) t)) in T1.
    inversion Hsl as [| |? cl cr a q b Ha Hb]; subst. cells T1. rd.
    destruct (erase_left_black_ok s2 (InL RB_BLACK o sr :: k) RB_RED p t q a b n _ _ T1 Ht Ha Hb)
      as (up & s' & k' & t' & -> & V' & Hup).
    { split; [done|]. intros _. eauto with workflow. }
    exists up, s', k', t'. split; [done|].
    split; [eapply evolves_trans; [eassumption|exact V']|].
    destruct up; [|done]. destruct Hup as [Hr Hup]. split; [done|]. exists RB_RED. exact Hup.
  - cells H. rd. dec.
    destruct (erase_left_black_ok s k pc p t q a b n _ _ H Ht Ha Hb Hab)
      as (up & s' & k' & t' & -> & V' & Hup). exists up, s', k', t'.
    split; [done|]. split; [done|]. destruct up; [|done]. destruct Hup. eauto.
Qed.

(** ** The mirror image: [node] on the right of its parent *)

Lemma erase_right_far_ok s k pc p t q b al y ar n c0 cb :
  is_tree s (plug (InR pc (Node RB_BLACK (Node RB_RED al y ar) q b) p :: k) t) ->
  rb c0 n t -> rb cb n b -> rb RB_BLACK n al -> rb RB_BLACK n ar -> above pc n k ->
  exists s' t', erase_right_far p q s = Some s' /\
    evolves s (plug (InR pc (Node RB_BLACK (Node RB_RED al y ar) q b) p :: k) t) s' t' /\ valid t'.
Proof.
  intros H Ht Hb Hal Har [Hkb Hkr]. unfold erase_right_far. cells H. rd.
  step (set_color_ok s (InL pc p t :: k) RB_BLACK (Node RB_RED al y ar) q b pc) H.
  step (set_color_ok s0 k pc (Node pc (Node RB_RED al y ar) q b) p t RB_BLACK) T.
  change (is_tree s1 (plug (InL RB_BLACK p t :: k) (Node pc (Node RB_RED al y ar) q b))) in T0.
  cells T0. rd.
  step (set_color_ok s1 (InL pc q b :: InL RB_BLACK p t :: k) RB_RED al y ar RB_BLACK) T0.
  step (rotate_right_evolves s2 k RB_BLACK (Node RB_BLACK al y ar) q pc b p t) T1.
  eexists _, _. split; [done|]. split; [eassumption|].
  destruct pc.
  - eapply plug_valid; [by apply Hkr|eauto with workflow|auto].
  - destruct Hkb as [c' Hk]; [done|]. eapply plug_valid; [exact Hk|eauto with workflow|auto].
Qed.

Lemma erase_right_black_ok s k pc p t q a b n ca cb :
  is_tree s (plug (InR pc (Node RB_BLACK a q b) p :: k) t) ->
  rb RB_BLACK n t -> rb ca n a -> rb cb n b -> above pc n k ->
  exists up s' k' t', erase_right_black p q s = Some (up, s') /\
    evolves s (plug (InR pc (Node RB_BLACK a q b) p :: k) t) s' (plug k' t') /\
    (if up : bool then root_of t' = Some p /\ moved_up pc n k k' t' else valid (plug k' t')).
Proof.
  intros H Ht Ha Hb Hab. unfold erase_right_black. cells H. rd.
  (erewrite (is_red_rep s _ a) by eassumption). cbn [mbind option_bind].
  (erewrite (is_red_rep s _ b) by eassumption). cbn [mbind option_bind].
  destruct ca.
  - (* the far child is red *)
    cbn [negb andb mbind option_bind].
    inversion Ha as [|? al y ar Hal Har|]; subst.
    destruct (erase_right_far_ok s k pc p t q b al y ar n _ _ H Ht Hb Hal Har Hab)
      as (s' & t' & -> & V & Hv).
    eexists false, s', [], t'. cbn [mbind option_bind]. done.
  - destruct cb; cbn [negb andb mbind option_bind].
    + (* the near child is red, the far one black *)
      inversion Hb as [|? bl y br Hbl Hbr|]; subst. cbn [root_of].
      step (set_color_ok s (InR RB_BLACK a q :: InL pc p t :: k) RB_RED bl y br RB_BLACK) H.
      step (set_color_ok s0 (InL pc p t :: k) RB_BLACK a q (Node RB_BLACK bl y br) RB_RED) T.
      step (rotate_left_evolves s1 (InL pc p t :: k) RB_RED a q RB_BLACK bl y br) T0.
      change (is_tree s2 (plug (InR pc (Node RB_BLACK (Node RB_RED a q bl) y br) p :: k) t)) in T1.
      cells T1. rd.
      destruct (erase_right_far_ok s2 k pc p t y br a q bl n _ _ T1 Ht Hbr Ha Hbl Hab)
        as (s' & t' & -> & V' & Hv).
      eexists false, s', [], t'. cbn [mbind option_bind]. split; [done|]. split; [|done].
      eapply evolves_trans; [eassumption|exact V'].
    + (* both children are black: the sibling turns red *)
      step (set_color_ok s (InL pc p t :: k) RB_BLACK a q b RB_RED) H.
      eexists true, _, k, (Node pc (Node RB_RED a q b) p t).
      split; [done|]. split; [eassumption|]. split; [done|]. destruct Hab as [Hkb Hkr]. destruct pc.
      * split; [eauto|]. cbn [blacken].
        eapply plug_valid; [by apply Hkr|eauto with workflow|auto].
      * split; [done|]. split; [eauto with workflow|auto].
Qed.

Lemma erase_right_ok s k pc p t sib n c :
  is_tree s (plug (InR pc sib p :: k) t) ->
  rb RB_BLACK n t -> rbk c (S n) (InR pc sib p :: k) ->
  exists up s' k' t', erase_right p s = Some (up, s') /\
    evolves s (plug (InR pc sib p :: k) t) s' (plug k' t') /\
    (if up : bool then root_of t' = Some p /\ exists pc', moved_up pc' n k k' t'
     else valid (plug k' t')).
Proof.
  intros H Ht Hk.
  assert (Hab : above pc n k /\ exists cs, rb cs (S n) sib /\ (pc = RB_RED -> cs = RB_BLACK)).
  { inversion Hk; subst; (split; [split; intros E; try discriminate E; eauto|]);
      (eexists; split; [eassumption|intros E; try discriminate E; auto]). }
  destruct Hab as [Hab (cs & Hs & Hcs)]. unfold erase_right.
  inversion Hs as [|? sl o sr Hsl Hsr|? cl cr a q b Ha Hb]; subst.
  - (* a red sibling: rotate it above the parent, which turns red *)
    destruct pc; [by specialize (Hcs eq_refl)|]. destruct Hab as [[c' Hk'] _]; [done|].
    cells H. rd. dec.
    step (set_color_ok s (InL RB_BLACK p t :: k) RB_RED sl o sr RB_BLACK) H.
    step (set_color_ok s0 k RB_BLACK (Node RB_BLACK sl o sr) p t RB_RED) T.
    step (rotate_right_evolves s1 k RB_RED sl o RB_BLACK sr p t) T0.
    change (is_tree s2 (plug (InR RB_RED sr p :: InR RB_BLACK sl o :: k) t)) in T1.
    inversion Hsr as [| |? cl cr a q b Ha Hb]; subst. cells T1. rd.
    destruct (erase_right_black_ok s2 (InR RB_BLACK sl o :: k) RB_RED p t q a b n _ _ T1 Ht Ha Hb)
      as (up & s' & k' & t' & -> & V' & Hup).
    { split; [done|]. intros _. eauto with workflow. }
    exists up, s', k', t'. split; [done|].
    split; [eapply evolves_trans; [eassumption|exact V']|].
    destruct up; [|done]. destruct Hup as [Hr Hup]. split; [done|]. exists RB_RED. exact Hup.
  - cells H. rd. dec.
    destruct (erase_right_black_ok s k pc p t q a b n _ _ H Ht Ha Hb Hab)
      as (up & s' & k' & t' & -> & V' & Hup). exists up, s', k', t'.
    split; [done|]. split; [done|]. destruct up; [|done]. destruct Hup. eauto.
Qed.

(** ** The loop *)

(** The node the loop ends with, and the tree it is to be blackened in. *)
Definition repaired (node : ptr) (t' : tree) : Prop :=
  (node = root_of t' /\ valid t') \/
  (exists k' l x r, t' = plug k' (Node RB_RED l x r) /\ node = Some x /\
     valid (plug k' (Node RB_BLACK l x r))).

(** The focus is the root only in the empty context. *)
Lemma focus_not_root s f k t :
  is_tree s (plug (f :: k) t) -> root_of t <> rb_root s.
Proof.
  intros H. destruct (exists_last (l := f :: k)) as (k0 & g & E); [done|].
  rewrite E in H. pose proof H as (_ & _ & Hr). rewrite plug_app in Hr.
  assert (Hr' : rb_root s = Some (floc g)) by (rewrite Hr; by destruct g). clear Hr.
  pose proof (proj1 (proj1 (is_tree_plug _ _ _) H)) as Hd. rewrite Hr'.
  intros Ht. destruct t as [|c l x r]; [done|]. cbn in Ht. simplify_eq.
  assert (Hg : floc g ∈ klocs (k0 ++ [g])).
  { clear. unfold klocs. induction k0 as [|[] k0 IH]; cbn; [destruct g; cbn; set_solver|..];
      set_solver. }
  rewrite (Permutation_app_swap_app (kpre _)) in Hd.
  apply NoDup_app_inv in Hd as (_ & _ & Hd). apply (Hd (floc g)); [cbn; set_solver|done].
Qed.

Lemma erase_loop_ok fuel : forall s k t n c,
  (length k < fuel)%nat -> is_tree s (plug k t) -> rb RB_BLACK n t -> rbk c (S n) k ->
  exists node s' t', rb_erase_loop fuel (root_of t) (parent_of k) s = Some (node, s') /\
    evolves s (plug k t) s' t' /\ repaired node t'.
Proof.
  induction fuel as [|fuel IH]; intros s k t n c Hf H Ht Hk; [lia|].
  pose proof H as (Hd & Hrep & Hrk)%is_tree_plug. cbn [rb_erase_loop].
  erewrite is_red_rep by eassumption. cbn [mbind option_bind orb].
  destruct k as [|f k].
  { cbn in Hrk. rewrite bool_decide_true by done.
    exists (root_of t), s, t. split; [done|]. split; [by apply evolves_refl|].
    left. split; [done|]. by exists n. }
  rewrite bool_decide_false by (eapply focus_not_root; exact H).
  assert (Hstep : exists p pl up s' k' t', parent_of (f :: k) = Some p /\
    get_left p s = Some pl /\
    (if decide (pl = root_of t) then erase_left p s else erase_right p s) = Some (up, s') /\
    evolves s (plug (f :: k) t) s' (plug k' t') /\
    (if up : bool then root_of t' = Some p /\ exists pc', moved_up pc' n k k' t'
     else valid (plug k' t'))).
  { destruct f as [pc p sib|pc sib p].
    - destruct (erase_left_ok s k pc p t sib n c H Ht Hk) as (up & s' & k' & t' & E & V & Hup).
      exists p, (root_of t), up, s', k', t'. destruct Hrk as (Hp & _ & _). rd.
      rewrite decide_True by done. done.
    - destruct (erase_right_ok s k pc p t sib n c H Ht Hk) as (up & s' & k' & t' & E & V & Hup).
      exists p, (root_of sib), up, s', k', t'. destruct Hrk as (Hp & _ & _). rd.
      rewrite decide_False; [done|]. intros Eq. destruct (root_of t) as [x|] eqn:Ex.
      + by apply (sibling_ne s k pc sib p t x H).
      + destruct sib; [|done]. inversion Hk; subst; match goal with X : rb _ (S _) Leaf |- _ => inversion X end. }
  destruct Hstep as (p & pl & up & s1 & k1 & t1 & -> & E1 & E2 & V & Hup).
  cbn [mbind option_bind]. rewrite E1. cbn [mbind option_bind]. rewrite E2.
  cbn [mbind option_bind].
  destruct up.
  - destruct Hup as (Hr1 & pc' & Hup).
    assert (Hgp : get_parent p s1 = Some (parent_of k1)).
    { destruct t1 as [|c1 l1 x1 r1]; [done|]. cbn in Hr1. simplify_eq.
      pose proof (proj1 V) as T. cells T. rd. done. }
    rewrite Hgp. cbn [mbind option_bind]. rewrite <- Hr1.
    destruct pc'.
    + destruct Hup as [(l1 & x1 & r1 & ->) Hv]. destruct fuel as [|fuel]; [cbn in Hf; lia|].
      pose proof (proj1 V) as T. cells T. cbn [rb_erase_loop is_red root_of]. rd.
      rewrite bool_decide_true by done. cbn [mbind option_bind orb].
      eexists _, _, _. split; [done|]. split; [exact V|]. right.
      exists k1, l1, x1, r1. done.
    + destruct Hup as (-> & Hb1 & c1 & Hk1).
      destruct (IH s1 k t1 (S n) c1) as (node & s2 & t2 & -> & V2 & R2);
        [cbn in Hf; lia|exact (proj1 V)|done..|].
      exists node, s2, t2. split; [done|]. split; [|done]. by eapply evolves_trans.
  - exists (rb_root s1), s1, (plug k1 t1). split; [done|]. split; [done|].
    left. split; [|done]. apply (proj1 V).
Qed.

(** [__rb_erase_color] restores the invariant. *)
Lemma __rb_erase_color_ok fuel s k t n ct c :
  (length k < fuel)%nat -> is_tree s (plug k t) -> rb ct n t -> rbk c (S n) k ->
  exists s' t', __rb_erase_color fuel (root_of t) (parent_of k) s = Some s' /\
    evolves s (plug k t) s' t' /\ valid t'.
Proof.
  intros Hf H Ht Hk. unfold __rb_erase_color.
  assert (Hloop : exists node s' t',
    rb_erase_loop fuel (root_of t) (parent_of k) s = Some (node, s') /\
    evolves s (plug k t) s' t' /\ repaired node t').
  { destruct ct; [|by eapply erase_loop_ok].
    inversion Ht as [|? l x r Hl Hr|]; subst. destruct fuel as [|fuel]; [lia|].
    cells H. cbn [rb_erase_loop is_red root_of]. rd.
    rewrite bool_decide_true by done. cbn [mbind option_bind orb].
    eexists _, _, _. split; [done|]. split; [by apply evolves_refl|]. right.
    exists k, l, x, r. split; [done|]. split; [done|].
    eapply plug_valid; [exact Hk|eauto with workflow|auto]. }
  destruct Hloop as (node & s1 & t1 & -> & V & R). cbn [mbind option_bind].
  destruct R as [[-> Hv] | (k1 & l & x & r & -> & -> & Hv)].
  - destruct t1 as [|c1 l1 x1 r1]; cbn [root_of]; [eauto|].
    destruct (set_color_ok s1 [] c1 l1 x1 r1 RB_BLACK (proj1 V)) as (s2 & -> & V2).
    exists s2, (Node RB_BLACK l1 x1 r1). split; [done|]. split; [by eapply evolves_trans|].
    destruct Hv as [m Hv]. inversion Hv; subst. exists (S n0). eauto with workflow.
  - destruct (set_color_ok s1 k1 RB_RED l x r RB_BLACK (proj1 V)) as (s2 & -> & V2).
    eexists s2, _. split; [done|]. split; [by eapply evolves_trans|done].
Qed.

(** ** Unlinking a node *)

Lemma NoDup_piece1 (a b : list loc) k x :
  NoDup (kpre k ++ (a ++ x :: b) ++ kpost k) ->
  NoDup (klocs k) /\ (x ∉ klocs k) /\ (x ∉ a) /\ (x ∉ b) /\ NoDup a /\ NoDup b /\
  (forall q, q ∈ a -> q <> x /\ (q ∉ b) /\ (q ∉ klocs k)) /\
  (forall q, q ∈ b -> q <> x /\ (q ∉ a) /\ (q ∉ klocs k)).
Proof.
  intros Hd.
  assert (Hd' : NoDup ((a ++ x :: b) ++ klocs k))
    by (unfold klocs; by rewrite (Permutation_app_swap_app _ (kpre k))). clear Hd.
  apply NoDup_app_inv in Hd' as (HX & Hk & Hdis).
  apply NoDup_middle_iff in HX as (Hxa & Hxb & HX).
  apply NoDup_app_inv in HX as (Ha & Hb & Hab).
  assert (Hkx : x ∉ klocs k) by (intros ?; apply (Hdis x); [clear; set_solver|done]).
  split_and!; try done.
  - intros q Hq. split_and!; [by intros ->|by intros ?; eapply Hab|].
    intros ?. apply (Hdis q); [clear -Hq; set_solver|done].
  - intros q Hq. split_and!; [by intros ->|by intros ?; eapply Hab|].
    intros ?. apply (Hdis q); [clear -Hq; set_solver|done].
Qed.

(** Replacing a node with at most one child by that child. *)
Lemma unlink_ok s k c l x r child :
  is_tree s (plug k (Node c l x r)) ->
  (l = Leaf /\ child = r) \/ (r = Leaf /\ child = l) ->
  exists s1 s', set_parent_opt (root_of child) (parent_of k) s = Some s1 /\
    relink (parent_of k) x (root_of child) s1 = Some s' /\
    is_tree s' (plug k child) /\ mem s' !! x = mem s !! x /\
    (forall q, q ∉ inorder (plug k (Node c l x r)) -> mem s' !! q = mem s !! q).
Proof.
  intros (Hd & (Hx & Hl & Hr) & Hk)%is_tree_plug Hc. cbn [inorder] in Hd.
  destruct (NoDup_piece1 _ _ _ _ Hd) as (Hdk & Hxk & Hxl & Hxr & Hdl & Hdr & HL & HR).
  assert (Hch : NoDup (inorder child) /\ rep (mem s) (Some x) child /\ (x ∉ inorder child) /\
    (forall q, q ∈ inorder child -> q ∉ klocs k) /\ inorder l ++ inorder r = inorder child).
  { destruct Hc as [[-> ->] | [-> ->]]; cbn [inorder]; rewrite ?app_nil_r;
      split_and!; try done; intros q Hq; [by apply HR|by apply HL]. }
  destruct Hch as (Hdc & Hrc & Hxc & Hck & Hio).
  destruct (set_parent_opt_ok s (Some x) (parent_of k) child Hdc Hrc) as (s1 & E1 & Hc1 & F1 & R1).
  destruct (repk_relink k s1 x (root_of child)) as (s2 & E2 & _ & Hk2 & F2); [done..| |].
  { eapply repk_frame; [exact Hk|done|]. intros q Hq. apply F1. intros Hq'. by apply (Hck q). }
  exists s1, s2. split; [done|]. split; [done|]. split; [|split].
  - apply is_tree_plug. split; [|split; [|done]].
    + rewrite <- Hio. replace (inorder l ++ x :: inorder r) with ((inorder l ++ [x]) ++ inorder r) in Hd
        by (by rewrite <- app_assoc).
      rewrite <- !app_assoc in Hd. cbn in Hd. rewrite app_assoc in Hd.
      apply NoDup_middle_iff in Hd as (_ & _ & Hd). by rewrite <- !app_assoc in *.
    + eapply rep_frame; [done|]. intros q Hq. apply F2. by apply Hck.
  - rewrite F2, F1 by done. done.
  - intros q Hq. rewrite inorder_plug in Hq. cbn [inorder] in Hq.
    rewrite F2, F1; [done| |].
    + rewrite <- Hio. clear -Hq. set_solver.
    + unfold klocs. clear -Hq. set_solver.
Qed.

(** ** Putting a node in the place of another *)

(** The fresh node [y] has been given the fields of [x], the link to [x] and
    the parent pointers of its children now name [y]: [y] stands for [x]. *)
Lemma replaced_ok s s' k c l x r y :
  is_tree s (plug k (Node c l x r)) -> y ∉ inorder (plug k (Node c l x r)) ->
  repk s' k (Some y) ->
  mem s' !! y = Some (mk_rb_node (parent_of k) (root_of r) (root_of l) c) ->
  rep (mem s') (Some y) l -> rep (mem s') (Some y) r ->
  is_tree s' (plug k (Node c l y r)).
Proof.
  intros (Hd & _)%is_tree_plug Hy Hk Hyc Hl Hr. apply is_tree_plug. cbn [inorder rep root_of] in *.
  rewrite inorder_plug in Hy. cbn [inorder] in Hy. split; [|done].
  replace (inorder l ++ x :: inorder r) with ((inorder l ++ [x]) ++ inorder r) in Hd
    by (by rewrite <- app_assoc).
  replace (inorder l ++ y :: inorder r) with ((inorder l ++ [y]) ++ inorder r)
    by (by rewrite <- app_assoc).
  rewrite <- !app_assoc in Hd |- *. cbn in Hd |- *. rewrite app_assoc in Hd |- *.
  apply NoDup_middle_iff in Hd as (_ & _ & Hd). apply NoDup_middle_iff.
  split_and!; [clear -Hy; set_solver..|done].
Qed.

Lemma rb_replace_node_ok s k c l x r y ny :
  is_tree s (plug k (Node c l x r)) -> y ∉ inorder (plug k (Node c l x r)) ->
  mem s !! y = Some ny ->
  exists s', rb_replace_node x y s = Some s' /\ is_tree s' (plug k (Node c l y r)) /\
    (forall q, q ∉ y :: inorder (plug k (Node c l x r)) -> mem s' !! q = mem s !! q).
Proof.
  intros H Hy Hny. pose proof H as (Hd & (Hx & Hl & Hr) & Hk)%is_tree_plug. cbn [inorder] in Hd.
  destruct (NoDup_piece1 _ _ _ _ Hd) as (Hdk & Hxk & Hxl & Hxr & Hdl & Hdr & HL & HR).
  assert (Hy' : (y ∉ klocs k) /\ (y ∉ inorder l) /\ (y ∉ inorder r) /\ y <> x).
  { rewrite inorder_plug in Hy. cbn in Hy. unfold klocs. clear -Hy. set_solver. }
  destruct Hy' as (Hyk & Hyl & Hyr & Hyx).
  unfold rb_replace_node, get_parent, get_left, get_right. rewrite Hx.
  cbn [fmap option_fmap option_map mbind option_bind rb_parent].
  destruct (repk_relink k s x (Some y)) as (s1 & -> & _ & Hk1 & F1); [done..|].
  cbn [mbind option_bind]. assert (Hx1 : mem s1 !! x = mem s !! x) by (by apply F1).
  rewrite Hx1, Hx. cbn [fmap option_fmap option_map mbind option_bind rb_left].
  destruct (set_parent_opt_ok s1 (Some x) (Some y) l) as (s2 & -> & Hl2 & F2 & R2); [done| |].
  { eapply rep_frame; [exact Hl|]. intros q Hq. apply F1. by apply HL. }
  cbn [mbind option_bind]. assert (Hx2 : mem s2 !! x = mem s !! x) by (by rewrite F2).
  rewrite Hx2, Hx. cbn [fmap option_fmap option_map mbind option_bind rb_right].
  destruct (set_parent_opt_ok s2 (Some x) (Some y) r) as (s3 & -> & Hr3 & F3 & R3); [done| |].
  { eapply rep_frame; [exact Hr|]. intros q Hq. destruct (HR q Hq) as (? & ? & ?).
    rewrite F2, F1 by done. done. }
  cbn [mbind option_bind]. assert (Hx3 : mem s3 !! x = mem s !! x) by (by rewrite F3).
  rewrite Hx3, Hx. cbn [mbind option_bind].
  assert (Hy3 : mem s3 !! y = Some ny) by (by rewrite F3, F2, F1).
  destruct (upd_ok y (fun _ => mk_rb_node (parent_of k) (root_of r) (root_of l) c) s3 _ Hy3)
    as (s4 & -> & Hy4 & F4 & R4).
  exists s4. split; [done|]. split.
  - eapply replaced_ok; [exact H|done| |done|..].
    + eapply repk_frame; [exact Hk1|congruence|]. intros q Hq.
      assert (q ∉ inorder l) by (intros Hq'; by apply (HL q)).
      assert (q ∉ inorder r) by (intros Hq'; by apply (HR q)).
      rewrite F4, F3, F2; [done..|]. by intros ->.
    + eapply rep_frame; [exact Hl2|]. intros q Hq. destruct (HL q Hq) as (? & ? & ?).
      rewrite F4, F3; [done..|]. by intros ->.
    + eapply rep_frame; [exact Hr3|]. intros q Hq. rewrite F4; [done|]. by intros ->.
  - intros q Hq. rewrite inorder_plug in Hq. cbn [inorder] in Hq.
    assert (q <> y /\ (q ∉ klocs k) /\ (q ∉ inorder l) /\ (q ∉ inorder r)) as (? & ? & ? & ?).
    { unfold klocs. clear -Hq. set_solver. }
    rewrite F4, F3, F2, F1 by done. done.
Qed.

Lemma erase_replace_ok s k c l x r y ny lx :
  is_tree s (plug k (Node c l x r)) -> y ∉ inorder (plug k (Node c l x r)) ->
  mem s !! y = Some ny -> root_of l = Some lx ->
  exists s', erase_take_place x y s = Some s' /\
    is_tree s' (plug k (Node c l y r)) /\
    (forall q, q ∉ y :: inorder (plug k (Node c l x r)) -> mem s' !! q = mem s !! q).
Proof.
  intros H Hy Hny Hlx. pose proof H as (Hd & (Hx & Hl & Hr) & Hk)%is_tree_plug.
  cbn [inorder] in Hd.
  destruct (NoDup_piece1 _ _ _ _ Hd) as (Hdk & Hxk & Hxl & Hxr & Hdl & Hdr & HL & HR).
  assert (Hy' : (y ∉ klocs k) /\ (y ∉ inorder l) /\ (y ∉ inorder r) /\ y <> x).
  { rewrite inorder_plug in Hy. cbn in Hy. unfold klocs. clear -Hy. set_solver. }
  destruct Hy' as (Hyk & Hyl & Hyr & Hyx). assert (x <> y) by done.
  unfold erase_take_place, get_parent, get_left, get_right, get_color, set_parent,
    set_color, set_right, set_left.
  rewrite Hx. cbn [fmap option_fmap option_map mbind option_bind rb_parent].
  run_upd. eassert (C1 : mem x0 !! x = Some _) by (chase; reflexivity). rewrite C1.
  cbn [fmap option_fmap option_map mbind option_bind rb_color].
  run_upd. eassert (C2 : mem x1 !! x = Some _) by (chase; reflexivity). rewrite C2.
  cbn [fmap option_fmap option_map mbind option_bind rb_right].
  run_upd. eassert (C3 : mem x2 !! x = Some _) by (chase; reflexivity). rewrite C3.
  cbn [fmap option_fmap option_map mbind option_bind rb_left].
  run_upd. eassert (C4 : mem x3 !! x = Some _) by (chase; reflexivity). rewrite C4.
  cbn [fmap option_fmap option_map mbind option_bind rb_parent].
  assert (Fs : forall q, q <> y -> mem x3 !! q = mem s !! q) by (intros q Hq; chase; done).
  assert (Rs : rb_root x3 = rb_root s) by congruence.
  clear F F0 F1 F2 V V0 V1 R R0 R1 R2 C1 C2 C3.
  destruct (repk_relink k x3 x (Some y)) as (s4 & -> & _ & Hk4 & F4); [done..| |].
  { eapply repk_frame; [exact Hk|done|]. intros q Hq. apply Fs. by intros ->. }
  cbn [mbind option_bind]. assert (Hx4 : mem s4 !! x = mem s !! x) by (rewrite F4 by done; by apply Fs).
  rewrite Hx4, Hx. cbn [fmap option_fmap option_map mbind option_bind rb_left].
  rewrite Hlx. cbn [mbind option_bind].
  change (upd lx _ s4) with (set_parent_opt (Some lx) (Some y) s4). rewrite <- Hlx.
  destruct (set_parent_opt_ok s4 (Some x) (Some y) l) as (s5 & -> & Hl5 & F5 & R5); [done| |].
  { eapply rep_frame; [exact Hl|]. intros q Hq. destruct (HL q Hq) as (? & ? & ?).
    rewrite F4 by done. apply Fs. by intros ->. }
  cbn [mbind option_bind]. assert (Hx5 : mem s5 !! x = mem s !! x) by (by rewrite F5).
  rewrite Hx5, Hx. cbn [fmap option_fmap option_map mbind option_bind rb_right].
  destruct (set_parent_opt_ok s5 (Some x) (Some y) r) as (s6 & -> & Hr6 & F6 & R6); [done| |].
  { eapply rep_frame; [exact Hr|]. intros q Hq. destruct (HR q Hq) as (? & ? & ?).
    rewrite F5, F4 by done. apply Fs. by intros ->. }
  exists s6. split; [done|]. split.
  - eapply replaced_ok; [exact H|done|..].
    + eapply repk_frame; [exact Hk4|congruence|]. intros q Hq.
      assert (q ∉ inorder l) by (intros Hq'; by apply (HL q)).
      assert (q ∉ inorder r) by (intros Hq'; by apply (HR q)).
      rewrite F6, F5; done.
    + rewrite F6, F5, F4 by done. rewrite V2. done.
    + eapply rep_frame; [exact Hl5|]. intros q Hq. destruct (HL q Hq) as (? & ? & ?).
      rewrite F6; done.
    + done.
  - intros q Hq. rewrite inorder_plug in Hq. cbn [inorder] in Hq.
    assert (q <> y /\ (q ∉ klocs k) /\ (q ∉ inorder l) /\ (q ∉ inorder r)) as (? & ? & ? & ?).
    { unfold klocs. clear -Hq. set_solver. }
    rewrite F6, F5, F4 by done. by apply Fs.
Qed.

(** ** The in-order successor inside a subtree *)

Definition is_InL (f : frame) : Prop := match f with InL _ _ _ => True | InR _ _ _ => False end.

Lemma leftmost_ok s t : forall k x,
  is_tree s (plug k t) -> root_of t = Some x ->
  exists kr cy y yr, t = plug kr (Node cy Leaf y yr) /\ Forall is_InL kr /\
    (forall fuel, (length kr < fuel)%nat -> leftmost fuel x s = Some y).
Proof.
  induction t as [|c l IHl z r IHr]; intros k x H Hx; cbn in Hx; simplify_eq.
  destruct (root_of l) as [w|] eqn:Ew.
  - destruct (IHl (InL c x r :: k) w H eq_refl) as (kr & cy & y & yr & E & Hin & Hrun).
    exists (kr ++ [InL c x r]), cy, y, yr. split_and!.
    + rewrite plug_app, <- E. done.
    + apply Forall_app. split; [done|]. by repeat constructor.
    + intros fuel Hf. rewrite length_app in Hf. cbn in Hf. destruct fuel as [|fuel]; [lia|].
      cells H. cbn [leftmost]. rd. rewrite Ew. apply Hrun. lia.
  - destruct l; [|done]. exists [], c, x, r. split_and!; [done|constructor|].
    intros fuel Hf. cbn in Hf. destruct fuel as [|fuel]; [lia|]. cells H. cbn [leftmost]. rd. done.
Qed.

Lemma kpre_InL k k' : Forall is_InL k -> kpre (k ++ k') = kpre k'.
Proof. induction 1 as [|[] ? Hf ? IH]; cbn; done. Qed.

(** Every node of a tree can be focused. *)
Lemma focus_exists t x : x ∈ inorder t -> exists k c l r, t = plug k (Node c l x r).
Proof.
  cut (forall k, x ∈ inorder t -> exists k' c l r, plug k t = plug k' (Node c l x r)).
  { intros Hc Hx. apply (Hc [] Hx). }
  induction t as [|c l IHl y r IHr]; intros k; cbn [inorder]; [set_solver|].
  rewrite elem_of_app, elem_of_cons. intros [Hx | [-> | Hx]].
  - apply (IHl (InL c y r :: k) Hx).
  - eauto 10.
  - apply (IHr (InR c l y :: k) Hx).
Qed.

(** The balance of a context does not depend on the names of its nodes. *)
Lemma rbk_rename kr c l x y k c0 n :
  rbk c0 n (kr ++ InR c l x :: k) -> rbk c0 n (kr ++ InR c l y :: k).
Proof.
  revert c0 n. induction kr as [|f kr IH]; intros c0 n Hk; cbn [app] in *;
    inversion Hk; subst; eauto with workflow.
Qed.

(** ** [rb_erase] *)

(** The repair after a black node was unlinked above [child]; nothing is
    needed after a red one. *)
Lemma erase_repair fuel s k child c ck ct n :
  (length k < fuel)%nat -> is_tree s (plug k child) -> rb ct n child ->
  (c = RB_BLACK -> rbk ck (S n) k) -> (c = RB_RED -> valid (plug k child)) ->
  exists s' t',
    (if decide (c = RB_BLACK) then __rb_erase_color fuel (root_of child) (parent_of k) s
     else Some s) = Some s' /\ evolves s (plug k child) s' t' /\ valid t'.
Proof.
  intros Hf H Hc Hb Hr. destruct (decide (c = RB_BLACK)) as [E|E].
  - eapply __rb_erase_color_ok; eauto.
  - exists s, (plug k child). split; [done|]. split; [by apply evolves_refl|].
    apply Hr. by destruct c.
Qed.

(** What is left of the balance when a node with one child is cut out. *)
Lemma cut_balance k c l x r child :
  valid (plug k (Node c l x r)) -> (l = Leaf /\ child = r) \/ (r = Leaf /\ child = l) ->
  exists ck ct n, rb ct n child /\ (c = RB_BLACK -> rbk ck (S n) k) /\
    (c = RB_RED -> valid (plug k child)).
Proof.
  intros (ck & c' & m & Hk & Hn & Hc)%plug_valid_inv Hch.
  inversion Hn; subst; destruct Hch as [[-> ->] | [-> ->]];
    (exists ck; eexists _, _; split; [eassumption|]; split; intros E; try discriminate E; try eassumption);
    (eapply plug_valid; [exact Hk|eassumption|auto]).
Qed.

(** A node with at most one child. *)
Lemma rb_erase_one fuel s k c l x r child :
  (length k < fuel)%nat -> is_tree s (plug k (Node c l x r)) -> valid (plug k (Node c l x r)) ->
  (l = Leaf /\ child = r) \/ (r = Leaf /\ child = l) ->
  exists s' t', rb_erase fuel x s = Some s' /\ is_tree s' t' /\ valid t' /\
    inorder t' = kpre k ++ (inorder l ++ inorder r) ++ kpost k /\
    (forall q, q ∉ inorder (plug k (Node c l x r)) -> mem s' !! q = mem s !! q).
Proof.
  intros Hf H Hv Hch.
  destruct (unlink_ok s k c l x r child H Hch) as (s1 & s2 & E1 & E2 & T2 & _ & F2).
  destruct (cut_balance k c l x r child Hv Hch) as (ck & ct & n & Hct & Hb & Hr).
  destruct (erase_repair fuel s2 k child c ck ct n Hf T2 Hct Hb Hr) as (s3 & t3 & E3 & V3 & Hv3).
  exists s3, t3. destruct V3 as (T3 & I3 & F3).
  assert (Hio : inorder l ++ inorder r = inorder child).
  { destruct Hch as [[-> ->] | [-> ->]]; cbn [inorder]; by rewrite ?app_nil_r. }
  split; [|split; [done|split; [done|split]]].
  - unfold rb_erase. cells H. rd.
    destruct Hch as [[-> ->] | [-> ->]]; cbn [root_of] in *.
    + rd. rewrite E1. cbn [mbind option_bind]. rewrite E2. cbn [mbind option_bind]. done.
    + destruct (root_of l) eqn:El; rd; rewrite E1; cbn [mbind option_bind]; rewrite E2;
        cbn [mbind option_bind]; done.
  - rewrite I3, inorder_plug, Hio. done.
  - intros q Hq. rewrite F3; [by apply F2|]. rewrite inorder_plug, <- Hio in *.
    cbn [inorder] in Hq. clear -Hq. set_solver.
Qed.

(** A node with two children: its successor takes its place. *)
Lemma rb_erase_two fuel s k c l x r :
  (height (plug k (Node c l x r)) < fuel)%nat ->
  is_tree s (plug k (Node c l x r)) -> valid (plug k (Node c l x r)) ->
  l <> Leaf -> r <> Leaf ->
  exists s' t', rb_erase fuel x s = Some s' /\ is_tree s' t' /\ valid t' /\
    inorder t' = kpre k ++ (inorder l ++ inorder r) ++ kpost k /\
    (forall q, q ∉ inorder (plug k (Node c l x r)) -> mem s' !! q = mem s !! q).
Proof.
  intros Hf H Hv Hl Hr.
  destruct (root_of l) as [lx|] eqn:Elx; [|by destruct l].
  destruct (root_of r) as [rx|] eqn:Erx; [|by destruct r].
  destruct (leftmost_ok s r (InR c l x :: k) rx H Erx) as (kr & cy & y & yr & -> & Hin & Hrun).
  set (K := kr ++ InR c l x :: k). set (K' := kr ++ InR c l y :: k).
  assert (EK : forall t, plug k (Node c l x (plug kr t)) = plug K t)
    by (intros t; unfold K; by rewrite plug_app).
  assert (EK' : forall t, plug k (Node c l y (plug kr t)) = plug K' t)
    by (intros t; unfold K'; by rewrite plug_app).
  assert (HfK : (length K < fuel)%nat).
  { rewrite EK in Hf. pose proof (ctx_length K (Node cy Leaf y yr)). lia. }
  assert (Hlr : leftmost fuel rx s = Some y)
    by (apply Hrun; unfold K in HfK; rewrite length_app in HfK; cbn in HfK; lia).
  (* the nodes of the tree, and the place of [y] among them *)
  assert (HIO : inorder (plug kr (Node cy Leaf y yr)) = y :: inorder (plug kr yr)).
  { rewrite !inorder_plug. pose proof (kpre_InL kr [] Hin) as E. rewrite app_nil_r in E.
    rewrite E. done. }
  assert (Hyfresh : y ∉ inorder (plug k (Node c l x (plug kr yr)))).
  { pose proof (proj1 (proj1 (is_tree_plug _ _ _) H)) as Hd. rewrite inorder_plug.
    cbn [inorder] in Hd |- *. rewrite HIO in Hd.
    replace (kpre k ++ (inorder l ++ x :: y :: inorder (plug kr yr)) ++ kpost k)
      with ((kpre k ++ inorder l ++ [x]) ++ y :: inorder (plug kr yr) ++ kpost k) in Hd
      by (by rewrite <- !app_assoc).
    apply NoDup_middle_iff in Hd as (? & ? & _). set_solver. }
  (* unlink [y] *)
  pose proof H as HK. rewrite EK in HK. pose proof Hv as HvK. rewrite EK in HvK.
  destruct (unlink_ok s K cy Leaf y yr yr HK) as (s1 & s2 & E1 & E2 & T2 & Hy2 & F2); [auto|].
  destruct (cut_balance K cy Leaf y yr yr HvK) as (ck & ct & n & Hct & Hb & Hred); [auto|].
  pose proof T2 as T2'. rewrite <- EK in T2'.
  cells HK. rename H0 into Hycell.
  assert (Hycell' : mem s !! y = Some (mk_rb_node (parent_of K) (root_of yr) None cy)) by tauto.
  (* put it in the place of [x] *)
  destruct (erase_replace_ok s2 k c l x (plug kr yr) y _ lx T2' Hyfresh
              (eq_trans Hy2 Hycell') Elx) as (s3 & E3 & T3 & F3).
  rewrite EK' in T3.
  assert (HlenK' : length K' = length K) by (unfold K, K'; by rewrite !length_app).
  destruct (erase_repair fuel s3 K' yr cy ck ct n) as (s4 & t4 & E4 & V4 & Hv4).
  { lia. }
  { done. }
  { done. }
  { intros E. by eapply rbk_rename, Hb. }
  { intros E. specialize (Hred E). unfold K in Hred. unfold K'.
    apply plug_valid_inv in Hred as (c1 & c2 & m & Hk1 & Hy1 & Hor).
    eapply plug_valid; [by eapply rbk_rename|exact Hy1|done]. }
  exists s4, t4. destruct V4 as (T4 & I4 & F4).
  assert (HP : (if decide (parent_of K = Some x) then Some y else parent_of K) = parent_of K').
  { unfold K', K. destruct kr as [|f kr]; cbn; [by rewrite decide_True|].
    rewrite decide_False; [done|]. intros E. injection E as E.
    pose proof T2' as (Hd & _)%is_tree_plug. cbn [inorder] in Hd.
    apply NoDup_piece1 in Hd as (_ & _ & _ & Hx & _). apply Hx. rewrite <- E.
    rewrite inorder_plug. pose proof (parent_of_klocs (f :: kr) (floc f) eq_refl) as Hin'.
    unfold klocs in Hin'. clear -Hin'. set_solver. }
  split; [|split; [done|split; [done|split]]].
  - unfold rb_erase. clear Hycell. cells H. rd. rewrite Elx, Erx. rd. rewrite Hlr.
    cbn [mbind option_bind]. rd.
    rewrite E1. cbn [mbind option_bind]. rewrite E2. cbn [mbind option_bind].
    unfold get_parent. rewrite Hy2, Hycell'.
    cbn [fmap option_fmap option_map mbind option_bind rb_parent]. rewrite E3.
    cbn [mbind option_bind]. rewrite HP. done.
  - rewrite I4, <- EK', inorder_plug. cbn [inorder]. rewrite HIO. done.
  - intros q Hq. assert (Hq' : q <> y /\ (q ∉ inorder (plug k (Node c l x (plug kr yr))))).
    { rewrite (inorder_plug k) in Hq |- *. cbn [inorder] in *. rewrite HIO in Hq.
      clear -Hq. set_solver. }
    destruct Hq' as [Hqy Hq']. rewrite F4, F3, F2; [done|by rewrite <- EK|set_solver|].
    rewrite <- EK', (inorder_plug k). rewrite (inorder_plug k) in Hq'. cbn [inorder] in *.
    clear -Hq' Hqy. set_solver.
Qed.

(** [rb_erase] removes its node and nothing else, and keeps the invariant. *)
Lemma rb_erase_ok fuel s t x l1 l2 :
  (height t < fuel)%nat -> is_tree s t -> valid t -> inorder t = l1 ++ x :: l2 ->
  exists s' t', rb_erase fuel x s = Some s' /\ is_tree s' t' /\ valid t' /\
    inorder t' = l1 ++ l2 /\ (forall q, q ∉ inorder t -> mem s' !! q = mem s !! q).
Proof.
  intros Hf H Hv E.
  destruct (focus_exists t x) as (k & c & l & r & ->); [rewrite E; set_solver|].
  assert (Hio : kpre k ++ (inorder l ++ inorder r) ++ kpost k = l1 ++ l2).
  { destruct H as (Hd & _ & _). rewrite inorder_plug in E, Hd. cbn [inorder] in E, Hd.
    assert (E' : (kpre k ++ inorder l) ++ x :: (inorder r ++ kpost k) = l1 ++ x :: l2)
      by (rewrite <- E; by rewrite <- !app_assoc).
    rewrite E, <- E' in Hd.
    destruct (NoDup_split_unique _ _ _ _ _ Hd E') as [<- <-]. by rewrite <- !app_assoc. }
  rewrite <- Hio. pose proof (ctx_length k (Node c l x r)).
  destruct l as [|lc ll lx lr] eqn:El.
  - eapply (rb_erase_one _ _ _ _ Leaf _ _ r); eauto. lia.
  - destruct r as [|rc rl rx rr] eqn:Er.
    + eapply (rb_erase_one _ _ _ _ _ _ Leaf); eauto. lia.
    + by apply rb_erase_two.
Qed.
