(* ===== verification/RBSearch.v ===== *)
(** * Insertion points, traversal and height of the red-black trees

    The clients of [rbtree.h] (the members of a JSON object, the timeouts of a
    poller, the entries of the cache) find the place of a new node with the same
    loop, follow it with [rb_link_node] and [rb_insert_color], and walk the tree
    with [rb_first], [rb_next] and their mirrors.  This file gives the loop once,
    over the client's comparison, and its correctness: the new node lands at the
    border between the nodes the comparison keeps left and right of it. *)

From S2P Require Import Prelude RBTree RBInsert RBErase.

(** ** The search loops of the clients *)

(** [while ( *p) { parent = *p; if (before( *p)) p = &( *p)->rb_left;
    else p = &( *p)->rb_right; }], from the link [p]: the final [parent] and [p]. *)
Fixpoint rb_descend (before : loc -> bool) (fuel : nat) (parent : ptr) (p : link) (s : state)
    : option (ptr * link) :=
  match fuel with
  | O => None
  | S fuel =>
      n ← get_link p s;
      match n with
      | None => Some (parent, p)
      | Some x => rb_descend before fuel (Some x) (if before x then LLeft x else LRight x) s
      end
  end.

(** The loop, [rb_link_node] and [rb_insert_color]. *)
Definition rb_insert_sorted (before : loc -> bool) (fuel : nat) (node : loc) (s : state)
    : option state :=
  '(parent, p) ← rb_descend before fuel None LRoot s;
  s ← rb_link_node node parent p s;
  rb_insert_color fuel node s.

(** [while (p) { n = cmp(key, p); if (n < 0) p = p->rb_left; else if (n > 0)
    p = p->rb_right; else return p; } return NULL;] *)
Fixpoint rb_find (cmp : loc -> Z) (fuel : nat) (p : ptr) (s : state) : option ptr :=
  match fuel with
  | O => None
  | S fuel =>
      match p with
      | None => Some None
      | Some x =>
          if (cmp x <? 0)%Z then l ← get_left x s; rb_find cmp fuel l s
          else if (0 <? cmp x)%Z then r ← get_right x s; rb_find cmp fuel r s
          else Some (Some x)
      end
  end.

(** ** Linking a node at an empty link *)

Definition klink (k : ctx) : link :=
  match k with
  | [] => LRoot
  | InL _ x _ :: _ => LLeft x
  | InR _ _ x :: _ => LRight x
  end.

Lemma get_klink s k t : is_tree s (plug k t) -> get_link (klink k) s = Some (root_of t).
Proof.
  intros H. destruct k as [|[] k]; cells H; cbn [klink get_link]; try rd; congruence.
Qed.

Lemma set_klink s k v w :
  NoDup (klocs k) -> repk s k w ->
  exists s', set_link (klink k) v s = Some s' /\ repk s' k v /\
    (forall q, q ∉ klocs k -> mem s' !! q = mem s !! q).
Proof.
  unfold klocs. intros Hd Hk.
  destruct k as [|[c x r|c l x] k]; cbn [klink set_link].
  - by exists (mk_state (mem s) v).
  - destruct Hk as (Hx & Hr & Hk). cbn [kpre kpost] in *. unfold set_left.
    edestruct (upd_ok x) as (s' & -> & Hx' & F & R); [exact Hx|]. exists s'.
    apply NoDup_middle_iff in Hd as (Hn1 & Hn2 & Hd). split; [done|]. split.
    + cbn. split_and!; [done| |].
      * eapply rep_frame; [done|]. intros q Hq. apply F. clear -Hn2 Hq. set_solver.
      * eapply repk_frame; [done..|]. intros q Hq. apply F. clear -Hn1 Hn2 Hq.
        unfold klocs in Hq. set_solver.
    + intros q Hq. apply F. clear -Hq. set_solver.
  - destruct Hk as (Hx & Hl & Hk). cbn [kpre kpost] in *. unfold set_right.
    edestruct (upd_ok x) as (s' & -> & Hx' & F & R); [exact Hx|]. exists s'.
    rewrite <- !app_assoc in Hd. cbn in Hd. rewrite app_assoc in Hd.
    apply NoDup_middle_iff in Hd as (Hn1 & Hn2 & Hd). split; [done|]. split.
    + cbn. split_and!; [done| |].
      * eapply rep_frame; [done|]. intros q Hq. apply F. clear -Hn1 Hq. set_solver.
      * eapply repk_frame; [done..|]. intros q Hq. apply F. clear -Hn1 Hn2 Hq.
        unfold klocs in Hq. set_solver.
    + intros q Hq. apply F. clear -Hq. set_solver.
Qed.

Lemma rb_link_node_ok s k x n :
  is_tree s (plug k Leaf) -> x ∉ inorder (plug k Leaf) -> mem s !! x = Some n ->
  exists s', rb_link_node x (parent_of k) (klink k) s = Some s' /\
    is_tree s' (plug k (Node RB_RED Leaf x Leaf)) /\
    (forall q, q ∉ x :: inorder (plug k Leaf) -> mem s' !! q = mem s !! q).
Proof.
  intros H Hx Hn. pose proof H as (Hd & _ & Hk)%is_tree_plug. rewrite inorder_plug in *.
  cbn [inorder app] in *. fold (klocs k) in *.
  unfold rb_link_node, set_parent, set_color, set_right, set_left. repeat run_upd.
  assert (Fs : forall q, q <> x -> mem x3 !! q = mem s !! q)
    by (intros q Hq; by rewrite F2, F1, F0, F).
  assert (Hk3 : repk x3 k None).
  { eapply repk_frame; [exact Hk|congruence|]. intros q Hq. apply Fs. congruence. }
  destruct (set_klink x3 k (Some x) None) as (s' & -> & Hk' & F'); [done..|].
  exists s'. split; [done|]. split.
  - apply is_tree_plug. cbn [inorder rep root_of app]. split_and!; [|by rewrite F'|done..].
    rewrite <- Permutation_middle. by apply list.NoDup_cons.
  - intros q [Hq1 Hq2]%not_elem_of_cons. rewrite F' by done. by apply Fs.
Qed.

(** ** The descent *)

Lemma app_split_cases {A} (a b l1 l2 : list A) x :
  a ++ x :: b = l1 ++ l2 ->
  (exists l1', l1 = a ++ x :: l1' /\ b = l1' ++ l2) \/
  (exists l2', l2 = l2' ++ x :: b /\ a = l1 ++ l2').
Proof.
  revert l1. induction a as [|y a IH]; intros [|z l1] E; cbn in *; simplify_eq.
  - right. by exists [].
  - left. by exists l1.
  - right. exists (y :: a). done.
  - match goal with E : _ = _ |- _ => destruct (IH l1 E) as [(l1' & -> & ->) | (l2' & -> & ->)] end;
      [left|right]; eauto.
Qed.

Lemma descend_ok before s t : forall k l1 l2,
  is_tree s (plug k t) -> inorder t = l1 ++ l2 ->
  Forall (fun y => before y = false) l1 -> Forall (fun y => before y = true) l2 ->
  exists kr, t = plug kr Leaf /\ kpre (kr ++ k) = kpre k ++ l1 /\
    kpost (kr ++ k) = l2 ++ kpost k /\
    (forall fuel, (length kr < fuel)%nat ->
       rb_descend before fuel (parent_of k) (klink k) s =
       Some (parent_of (kr ++ k), klink (kr ++ k))).
Proof.
  induction t as [|c l IHl x r IHr]; intros k l1 l2 H E H1 H2; cbn [inorder] in E.
  - symmetry in E. apply app_nil in E as [-> ->].
    exists []. rewrite app_nil_r. split_and!; [done..|].
    intros [|fuel] Hf; [lia|]. cbn [rb_descend app]. by rewrite (get_klink _ _ _ H).
  - destruct (app_split_cases _ _ _ _ _ E) as [(l1' & -> & E') | (l2' & -> & E')].
    + apply Forall_app in H1 as [_ [Hx H1]%Forall_cons].
      destruct (IHr (InR c l x :: k) l1' l2 H E' H1 H2) as (kr & Ek & Epre & Epost & Hrun).
      exists (kr ++ [InR c l x]). rewrite <- app_assoc. cbn [app]. split_and!.
      * rewrite plug_app, <- Ek. done.
      * rewrite Epre. cbn. by rewrite <- !app_assoc.
      * done.
      * intros [|fuel] Hf; [lia|]. rewrite length_app in Hf. cbn in Hf. cbn [rb_descend].
        rewrite (get_klink _ _ _ H). cbn. rewrite Hx. apply Hrun. lia.
    + apply Forall_app in H2 as [H2 [Hx _]%Forall_cons].
      destruct (IHl (InL c x r :: k) l1 l2' H E' H1 H2) as (kr & Ek & Epre & Epost & Hrun).
      exists (kr ++ [InL c x r]). rewrite <- app_assoc. cbn [app]. split_and!.
      * rewrite plug_app, <- Ek. done.
      * done.
      * rewrite Epost. cbn. by rewrite <- !app_assoc.
      * intros [|fuel] Hf; [lia|]. rewrite length_app in Hf. cbn in Hf. cbn [rb_descend].
        rewrite (get_klink _ _ _ H). cbn. rewrite Hx. apply Hrun. lia.
Qed.

(** Linking at an empty link of a valid tree, then [rb_insert_color]. *)
Lemma link_insert_ok fuel s k x n :
  (length k < fuel)%nat -> is_tree s (plug k Leaf) -> valid (plug k Leaf) ->
  x ∉ inorder (plug k Leaf) -> mem s !! x = Some n ->
  exists s' t', (s1 ← rb_link_node x (parent_of k) (klink k) s; rb_insert_color fuel x s1)
      = Some s' /\
    is_tree s' t' /\ valid t' /\ inorder t' = kpre k ++ x :: kpost k /\
    (forall q, q ∉ x :: inorder (plug k Leaf) -> mem s' !! q = mem s !! q).
Proof.
  intros Hf H Hv Hx Hn.
  destruct (rb_link_node_ok s k x n H Hx Hn) as (s1 & -> & H1 & F1).
  apply plug_valid_inv in Hv as (c & c' & m & Hk & Hleaf & _). inversion Hleaf; subst.
  destruct (rb_insert_color_ok fuel s1 k x Leaf Leaf 0 c) as (s2 & t2 & E2 & V & Hv2);
    [done..|].
  destruct V as (T2 & I2 & F2). rewrite inorder_plug in I2.
  exists s2, t2. cbn [mbind option_bind]. split_and!; [done..|].
  intros q Hq. rewrite F2, F1; [done..|]. rewrite inorder_plug in *. cbn [inorder app] in *.
  clear -Hq. set_solver.
Qed.

Lemma rb_insert_sorted_ok before fuel s t x n l1 l2 :
  (height t < fuel)%nat -> is_tree s t -> valid t -> x ∉ inorder t ->
  mem s !! x = Some n -> inorder t = l1 ++ l2 ->
  Forall (fun y => before y = false) l1 -> Forall (fun y => before y = true) l2 ->
  exists s' t', rb_insert_sorted before fuel x s = Some s' /\ is_tree s' t' /\ valid t' /\
    inorder t' = l1 ++ x :: l2 /\ (forall q, q ∉ x :: inorder t -> mem s' !! q = mem s !! q).
Proof.
  intros Hf H Hv Hx Hn E H1 H2.
  destruct (descend_ok before s t [] l1 l2 H E H1 H2) as (k & -> & Epre & Epost & Hrun).
  pose proof (ctx_length k Leaf). rewrite app_nil_r in *. cbn in Epre, Epost.
  rewrite app_nil_r in Epost.
  unfold rb_insert_sorted. cbn in Hrun. rewrite (Hrun fuel) by lia. cbn [mbind option_bind].
  rewrite <- Epre, <- Epost. eapply link_insert_ok; eauto. lia.
Qed.

(** ** Looking a key up *)

(** [cmp] is negative on the nodes after the key's, positive on those before. *)
Lemma rb_find_ok cmp s t : forall k l1 l2 eq fuel,
  is_tree s (plug k t) -> inorder t = l1 ++ eq ++ l2 ->
  Forall (fun y => 0 < cmp y)%Z l1 -> Forall (fun y => cmp y = 0%Z) eq ->
  Forall (fun y => cmp y < 0)%Z l2 -> (height t < fuel)%nat ->
  exists r, rb_find cmp fuel (root_of t) s = Some r /\
    match r with Some x => x ∈ eq | None => eq = [] end.
Proof.
  induction t as [|c l IHl x r IHr]; intros k l1 l2 eq fuel H E H1 H0 H2 Hf;
    (destruct fuel as [|fuel]; [lia|]); cbn [inorder root_of rb_find height] in *.
  - symmetry in E. apply app_nil in E as [-> E]. apply app_nil in E as [-> ->]. by exists None.
  - destruct (app_split_cases _ _ _ _ _ E) as [(l1' & -> & E') | (l2' & E2 & E')].
    + apply Forall_app in H1 as [_ [Hx H1]%Forall_cons].
      replace (cmp x <? 0)%Z with false by lia. replace (0 <? cmp x)%Z with true by lia.
      cells H. rd. apply (IHr (InR c l x :: k) l1' l2); [done..|lia].
    + symmetry in E2. destruct (app_split_cases _ _ _ _ _ E2) as [(m & -> & E3) | (m & -> & E3)].
      * apply Forall_app in H0 as [_ [Hx _]%Forall_cons]. rewrite Hx. cbn.
        eexists. split; [done|]. set_solver.
      * apply Forall_app in H2 as [H2 [Hx _]%Forall_cons].
        replace (cmp x <? 0)%Z with true by lia. cells H. rd.
        apply (IHl (InL c x r :: k) l1 m); [done| |done..|lia]. by rewrite E', E3.
Qed.

(** ** Traversal *)

Definition is_InR (f : frame) : Prop := match f with InL _ _ _ => False | InR _ _ _ => True end.

Lemma rightmost_ok s t : forall k x,
  is_tree s (plug k t) -> root_of t = Some x ->
  exists kr cy yl y, t = plug kr (Node cy yl y Leaf) /\ Forall is_InR kr /\
    (forall fuel, (length kr < fuel)%nat -> rightmost fuel x s = Some y).
Proof.
  induction t as [|c l IHl z r IHr]; intros k x H Hx; cbn in Hx; simplify_eq.
  destruct (root_of r) as [w|] eqn:Ew.
  - destruct (IHr (InR c l x :: k) w H eq_refl) as (kr & cy & yl & y & E & Hin & Hrun).
    exists (kr ++ [InR c l x]), cy, yl, y. split_and!.
    + rewrite plug_app, <- E. done.
    + apply Forall_app. split; [done|]. by repeat constructor.
    + intros fuel Hf. rewrite length_app in Hf. cbn in Hf. destruct fuel as [|fuel]; [lia|].
      cells H. cbn [rightmost]. rd. rewrite Ew. apply Hrun. lia.
  - destruct r; [|done]. exists [], c, l, x. split_and!; [done|constructor|].
    intros fuel Hf. cbn in Hf. destruct fuel as [|fuel]; [lia|]. cells H. cbn [rightmost]. rd. done.
Qed.

Lemma kpost_InR k : Forall is_InR k -> kpost k = [].
Proof. induction 1 as [|[] ? Hf ? IH]; cbn; done. Qed.
Lemma kpre_InL_nil k : Forall is_InL k -> kpre k = [].
Proof. induction 1 as [|[] ? Hf ? IH]; cbn; done. Qed.

(** The extreme nodes of a subtree. *)
Lemma leftmost_head fuel s k t x :
  is_tree s (plug k t) -> root_of t = Some x -> (height t < fuel)%nat ->
  leftmost fuel x s = head (inorder t).
Proof.
  intros H Hx Hf. destruct (leftmost_ok s t k x H Hx) as (kr & cy & y & yr & -> & Hin & Hrun).
  pose proof (ctx_length kr (Node cy Leaf y yr)). rewrite Hrun by lia.
  by rewrite inorder_plug, (kpre_InL_nil _ Hin).
Qed.

Lemma rightmost_last fuel s k t x :
  is_tree s (plug k t) -> root_of t = Some x -> (height t < fuel)%nat ->
  rightmost fuel x s = last (inorder t).
Proof.
  intros H Hx Hf. destruct (rightmost_ok s t k x H Hx) as (kr & cy & yl & y & -> & Hin & Hrun).
  pose proof (ctx_length kr (Node cy yl y Leaf)). rewrite Hrun by lia.
  rewrite inorder_plug, (kpost_InR _ Hin). cbn [inorder]. rewrite app_nil_r.
  by rewrite app_assoc, last_snoc.
Qed.

Lemma up_from_right_ok s k : forall fuel t x,
  is_tree s (plug k t) -> root_of t = Some x -> (length k < fuel)%nat ->
  up_from_right fuel x s = Some (head (kpost k)).
Proof.
  induction k as [|f k IH]; intros [|fuel] t x H Hx Hf; cbn in Hf; try lia;
    (destruct t as [|c l y r]; cbn in Hx; simplify_eq); cbn [up_from_right].
  - cells H. rd. done.
  - destruct f as [c0 p r0|c0 l0 p]; cbn [kpost].
    + pose proof (fun E => sibling_ne s k c0 _ p r0 x H E eq_refl) as Hne.
      cells H. rd. rewrite decide_False; [done|exact Hne].
    + cells H. rd. rewrite decide_True by done.
      apply (IH fuel (Node c0 l0 p (Node c l x r))); [done..|lia].
Qed.

Lemma up_from_left_ok s k : forall fuel t x,
  is_tree s (plug k t) -> root_of t = Some x -> (length k < fuel)%nat ->
  up_from_left fuel x s = Some (last (kpre k)).
Proof.
  induction k as [|f k IH]; intros [|fuel] t x H Hx Hf; cbn in Hf; try lia;
    (destruct t as [|c l y r]; cbn in Hx; simplify_eq); cbn [up_from_left].
  - cells H. rd. done.
  - destruct f as [c0 p r0|c0 l0 p]; cbn [kpre].
    + cells H. rd. rewrite decide_True by done.
      apply (IH fuel (Node c0 (Node c l x r) p r0)); [done..|lia].
    + pose proof (fun E => sibling_ne s k c0 l0 p _ x H eq_refl E) as Hne.
      cells H. rd. rewrite decide_False; [by rewrite app_assoc, last_snoc|exact Hne].
Qed.

Lemma focus_split s t x l1 l2 :
  is_tree s t -> inorder t = l1 ++ x :: l2 ->
  exists k c l r, t = plug k (Node c l x r) /\ l1 = kpre k ++ inorder l /\
    l2 = inorder r ++ kpost k.
Proof.
  intros (Hd & _ & _) E.
  destruct (focus_exists t x) as (k & c & l & r & ->); [rewrite E; set_solver|].
  exists k, c, l, r. split; [done|]. rewrite inorder_plug in *. cbn [inorder] in *.
  assert (E' : (kpre k ++ inorder l) ++ x :: (inorder r ++ kpost k) = l1 ++ x :: l2)
    by (rewrite <- E; by rewrite <- !app_assoc).
  rewrite E, <- E' in Hd. by destruct (NoDup_split_unique _ _ _ _ _ Hd E') as [<- <-].
Qed.

Lemma rb_next_ok fuel s t x l1 l2 :
  is_tree s t -> inorder t = l1 ++ x :: l2 -> (height t < fuel)%nat ->
  rb_next fuel x s = Some (head l2).
Proof.
  intros H E Hf. destruct (focus_split s t x l1 l2 H E) as (k & c & l & r & -> & -> & ->).
  pose proof (ctx_length k (Node c l x r)). cbn [height] in *. unfold rb_next.
  destruct r as [|cr rl rx rr] eqn:Er.
  - pose proof H as H'. cells H. rd. cbn [inorder app].
    eapply up_from_right_ok; [exact H'|done|lia].
  - cells H. rd. rewrite (leftmost_head fuel s (InR c l x :: k) r rx); subst r; [|done..|cbn [height] in *; lia].
    cbn [inorder]. by destruct (inorder rl).
Qed.

Lemma rb_prev_ok fuel s t x l1 l2 :
  is_tree s t -> inorder t = l1 ++ x :: l2 -> (height t < fuel)%nat ->
  rb_prev fuel x s = Some (last l1).
Proof.
  intros H E Hf. destruct (focus_split s t x l1 l2 H E) as (k & c & l & r & -> & -> & ->).
  pose proof (ctx_length k (Node c l x r)). cbn [height] in *. unfold rb_prev.
  destruct l as [|cl ll lx lr] eqn:El.
  - pose proof H as H'. cells H. rd. cbn [inorder]. rewrite app_nil_r.
    eapply up_from_left_ok; [exact H'|done|lia].
  - cells H. rd. rewrite (rightmost_last fuel s (InL c x r :: k) l lx); subst l; [|done..|cbn [height] in *; lia].
    cbn [inorder]. rewrite (last_app (kpre k)). rewrite last_app_cons.
    by destruct (last (lx :: inorder lr)) eqn:El'; [|apply last_None in El'].
Qed.

(** ** Height *)

Lemma rb_height c n t :
  rb c n t -> (2 ^ n <= S (length (inorder t)) /\
               height t <= 2 * n + (if c is RB_RED then 1 else 0))%nat.
Proof.
  induction 1; cbn [inorder height]; rewrite ?length_app; cbn [length Nat.pow] in *;
    repeat match goal with c : color |- _ => destruct c end; lia.
Qed.

Lemma valid_height t : valid t -> (height t <= 2 * Nat.log2 (S (length (inorder t))))%nat.
Proof.
  intros [n Hn]. apply rb_height in Hn as [H1 H2]. apply Nat.log2_le_mono in H1.
  rewrite Nat.log2_pow2 in H1; lia.
Qed.

(** The fuel a tree of [n] nodes needs: the loops go at most once through each
    level. *)
Definition rb_fuel (n : nat) : nat := S (2 * Nat.log2 (S n)).

Lemma rb_fuel_enough t n : valid t -> (length (inorder t) <= n)%nat -> (height t < rb_fuel n)%nat.
Proof.
  intros Hv%valid_height Hn. unfold rb_fuel.
  pose proof (Nat.log2_le_mono (S (length (inorder t))) (S n)). lia.
Qed.

(** ** The operations against sequences *)

(** The store holds a red-black tree, and its nodes in order are [l]. *)
Definition rb_holds (s : state) (l : list loc) : Prop :=
  exists t, is_tree s t /\ valid t /\ inorder t = l.

Lemma rb_holds_frame s s' l :
  rb_holds s l -> rb_root s' = rb_root s -> (forall q, q ∈ l -> mem s' !! q = mem s !! q) -> rb_holds s' l.
Proof.
  intros (t & (Hd & Hr & Hroot) & Hv & <-) E F. exists t. split_and!; try done. split_and!; [done| |congruence].
  by eapply rep_frame.
Qed.
Lemma rb_holds_nodup s l : rb_holds s l -> NoDup l.
Proof. by intros (t & (Hd & _) & _ & <-). Qed.

Lemma fuel_height t n : valid t -> (rb_fuel (length (inorder t)) <= n)%nat -> (height t < n)%nat.
Proof. intros Hv. pose proof (rb_fuel_enough t _ Hv (le_n _)). lia. Qed.

(** C39. Insertion: the search loop of the clients, [rb_link_node] and
    [rb_insert_color] put a node [x] exactly between the nodes that stay left of
    it ([l1]) and right of it ([l2]), return within [2 log2 (n + 1) + 1]
    iterations, keep the red-black invariant and write no cell outside the tree
    and [x]. *)
Theorem rb_insert_correct before fuel s x l1 l2 :
  rb_holds s (l1 ++ l2) -> (rb_fuel (length (l1 ++ l2)) <= fuel)%nat ->
  (x ∉ l1 ++ l2) -> is_Some (mem s !! x) ->
  Forall (fun y => before y = false) l1 -> Forall (fun y => before y = true) l2 ->
  exists s', rb_insert_sorted before fuel x s = Some s' /\ rb_holds s' (l1 ++ x :: l2) /\
    (forall q, q ∉ x :: l1 ++ l2 -> mem s' !! q = mem s !! q).
Proof.
  intros (t & Ht & Hv & E) Hf Hx [n Hn] H1 H2. rewrite <- E in Hf, Hx.
  destruct (rb_insert_sorted_ok before fuel s t x n l1 l2) as (s' & t' & ? & ? & ? & ? & F);
    eauto using fuel_height. rewrite E in F. exists s'. unfold rb_holds. eauto 10.
Qed.

(** C40. Erasure: [rb_erase] removes its node from the sequence the tree holds
    and nothing else, whatever the number of its children, within
    [2 log2 (n + 1) + 1] iterations of each of its loops; the red-black invariant
    is kept and no cell outside the tree is written. *)
Theorem rb_erase_correct fuel s x l1 l2 :
  rb_holds s (l1 ++ x :: l2) -> (rb_fuel (length (l1 ++ x :: l2)) <= fuel)%nat ->
  exists s', rb_erase fuel x s = Some s' /\ rb_holds s' (l1 ++ l2) /\
    (forall q, q ∉ l1 ++ x :: l2 -> mem s' !! q = mem s !! q).
Proof.
  intros (t & Ht & Hv & E) Hf. rewrite <- E in Hf.
  destruct (rb_erase_ok fuel s t x l1 l2) as (s' & t' & ? & ? & ? & ? & F);
    eauto using fuel_height. rewrite E in F. exists s'. unfold rb_holds. eauto 10.
Qed.

(** Traversal: [rb_first] and [rb_last] return the ends of the sequence the
    tree holds (NULL when it is empty), [rb_next] and [rb_prev] the neighbours of
    a node in it (NULL at the ends). *)
Theorem rb_traversal_correct fuel s l :
  rb_holds s l -> (rb_fuel (length l) <= fuel)%nat ->
  rb_first fuel s = Some (head l) /\ rb_last fuel s = Some (last l) /\
  (forall x l1 l2, l = l1 ++ x :: l2 ->
     rb_next fuel x s = Some (head l2) /\ rb_prev fuel x s = Some (last l1)).
Proof.
  intros (t & Ht & Hv & <-) Hf. apply fuel_height in Hf; [|done]. split_and!.
  - unfold rb_first. rewrite (proj2 (proj2 Ht)). destruct t as [|c l x r] eqn:Et; cbn; [done|].
    rewrite (leftmost_head fuel s [] t x); subst t; [|done..]. cbn. by destruct (inorder l).
  - unfold rb_last. rewrite (proj2 (proj2 Ht)).
    destruct t as [|c l x r] eqn:Et; cbn [root_of]; [done|].
    rewrite (rightmost_last fuel s [] t x); subst t; [|done..]. cbn [inorder].
    rewrite last_app_cons. by destruct (last (x :: inorder r)) eqn:E; [|apply last_None in E].
  - intros x l1 l2 E. split; [eapply rb_next_ok|eapply rb_prev_ok]; eauto.
Qed.

(** [rb_replace_node] puts the new node in the place of the victim: the
    sequence changes at that position only, the red-black invariant is kept, and
    nothing outside the tree and the new node is written. *)
Theorem rb_replace_node_correct s x y l1 l2 :
  rb_holds s (l1 ++ x :: l2) -> (y ∉ l1 ++ x :: l2) -> is_Some (mem s !! y) ->
  exists s', rb_replace_node x y s = Some s' /\ rb_holds s' (l1 ++ y :: l2) /\
    (forall q, q ∉ y :: l1 ++ x :: l2 -> mem s' !! q = mem s !! q).
Proof.
  intros (t & Ht & Hv & E) Hy [ny Hny]. rewrite <- E in Hy |- *.
  destruct (focus_split s t x l1 l2 Ht E) as (k & c & l & r & -> & -> & ->).
  destruct (rb_replace_node_ok s k c l x r y ny) as (s' & E' & T & F); [done..|].
  exists s'. split; [done|]. split; [|done]. exists (plug k (Node c l y r)). split_and!; [done| |].
  - apply plug_valid_inv in Hv as (c1 & c2 & n & Hk & Hn & Hor).
    eapply (plug_valid _ _ _ c2); [exact Hk| |exact Hor]. inversion Hn; subst; eauto with workflow.
  - rewrite inorder_plug. cbn [inorder]. by rewrite <- !app_assoc.
Qed.

(** Lookup: with a comparison that is positive on the nodes before the key's
    position and negative on those after it, the search loop returns a node equal
    to the key, and NULL only when there is none. *)
Theorem rb_find_correct cmp fuel s l1 eq l2 :
  rb_holds s (l1 ++ eq ++ l2) -> (rb_fuel (length (l1 ++ eq ++ l2)) <= fuel)%nat ->
  Forall (fun y => 0 < cmp y)%Z l1 -> Forall (fun y => cmp y = 0%Z) eq ->
  Forall (fun y => cmp y < 0)%Z l2 ->
  exists r, rb_find cmp fuel (rb_root s) s = Some r /\
    match r with Some x => x ∈ eq | None => eq = [] end.
Proof.
  intros (t & Ht & Hv & E) Hf H1 H0 H2. rewrite <- E in Hf. rewrite (proj2 (proj2 Ht)).
  eapply (rb_find_ok cmp s t []); eauto using fuel_height.
Qed.

(** *** Concrete instances *)

(** Four nodes; 1, 2 and 3 form a tree, 4 is free. *)
Definition demo_tree : tree :=
  Node RB_BLACK (Node RB_RED Leaf 1%positive Leaf) 2%positive (Node RB_RED Leaf 3%positive Leaf).
Definition demo_state : state :=
  mk_state
    (<[1%positive := mk_rb_node (Some 2%positive) None None RB_RED]>
    (<[2%positive := mk_rb_node None (Some 3%positive) (Some 1%positive) RB_BLACK]>
    (<[3%positive := mk_rb_node (Some 2%positive) None None RB_RED]>
    (<[4%positive := mk_rb_node None None None RB_BLACK]> ∅))))
    (Some 2%positive).

Lemma demo_holds : rb_holds demo_state [1; 2; 3]%positive.
Proof.
  exists demo_tree. split; [|split; [|reflexivity]].
  - split; [apply (bool_decide_unpack _); vm_compute; exact I|]. split; [|reflexivity].
    repeat split.
  - exists 1%nat. unfold demo_tree. eauto 10 with workflow.
Qed.

Lemma rb_insert_correct_witness :
  exists s', rb_insert_sorted (fun _ => false) 5 4%positive demo_state = Some s' /\
    rb_holds s' [1; 2; 3; 4]%positive.
Proof.
  destruct (rb_insert_correct (fun _ => false) 5 demo_state 4%positive [1; 2; 3]%positive [])
    as (s' & H).
  - exact demo_holds.
  - vm_compute. lia.
  - apply (bool_decide_unpack _); vm_compute; exact I.
  - by eexists.
  - repeat constructor.
  - constructor.
  - exists s'. tauto.
Defined.

Lemma rb_erase_correct_witness :
  exists s', rb_erase 5 2%positive demo_state = Some s' /\ rb_holds s' [1; 3]%positive.
Proof.
  destruct (rb_erase_correct 5 demo_state 2%positive [1%positive] [3%positive]) as (s' & H).
  - exact demo_holds.
  - vm_compute. lia.
  - exists s'. tauto.
Defined.

Lemma rb_traversal_correct_witness :
  rb_first 5 demo_state = Some (Some 1%positive) /\ rb_last 5 demo_state = Some (Some 3%positive) /\
  rb_next 5 3%positive demo_state = Some None.
Proof.
  destruct (rb_traversal_correct 5 demo_state [1; 2; 3]%positive demo_holds
    ltac:(vm_compute; lia)) as (H1 & H2 & H3).
  split; [exact H1|]. split; [exact H2|].
  exact (proj1 (H3 3%positive [1; 2]%positive [] eq_refl)).
Defined.

Lemma rb_replace_node_correct_witness :
  exists s', rb_replace_node 2%positive 4%positive demo_state = Some s' /\
    rb_holds s' [1; 4; 3]%positive.
Proof.
  destruct (rb_replace_node_correct demo_state 2%positive 4%positive [1%positive] [3%positive])
    as (s' & H).
  - exact demo_holds.
  - apply (bool_decide_unpack _); vm_compute; exact I.
  - by eexists.
  - exists s'. tauto.
Defined.

Lemma rb_find_correct_witness :
  exists r, rb_find (fun y => 3 - Zpos y)%Z 5 (Some 2%positive) demo_state = Some r /\
    match r with Some x => x ∈ [3%positive] | None => [3%positive] = [] end.
Proof.
  apply (rb_find_correct (fun y => 3 - Zpos y)%Z 5 demo_state [1; 2]%positive [3%positive] []).
  - exact demo_holds.
  - vm_compute. lia.
  - repeat constructor.
  - repeat constructor.
  - constructor.
Defined.
