(* ===== verification/PollerTimer.v ===== *)
(** * The timer queue of [src/kernel/poller.c]

    A poller keeps the nodes that have a deadline in two structures: the list
    [timeo_list], which only grows at its end by nodes that are not earlier than
    the last one, and the red-black tree [timeo_tree] for the others, with its
    first and last node remembered; the nodes without a deadline are in
    [no_timeo_list].  A [timerfd] wakes the poller thread up.

    The two link fields of a node share their storage (a [union]): [as_list] and
    [as_rb] are the accesses that make a node a list node or a tree node, and an
    access through the other member is undefined afterwards.

    [tq s L T N] says that the store holds the lists [L] and [N] and the tree [T],
    sorted; the lemmas give what every operation does to these sequences. *)

From S2P Require Import Prelude ListHead RBTree RBInsert RBErase RBSearch.

Local Open Scope Z_scope.

(** ** Data *)

Record timespec := mk_timespec { tv_sec : Z; tv_nsec : Z }.

#[export] Instance timespec_eq_dec : EqDecision timespec.
Proof. solve_decision. Defined.

(** [struct poller_data]: [callback] and [message] are its two unions of
    pointers, opaque here. *)
Record poller_data := mk_data {
  operation : Z; iovcnt : Z; fd : Z; callback : Z; context : Z; message : Z }.

Definition PD_OP_TIMER : Z := 0.
Definition PD_OP_READ : Z := 1.
Definition PD_OP_WRITE : Z := 2.
Definition PD_OP_LISTEN : Z := 3.
Definition PD_OP_CONNECT : Z := 4.
Definition PD_OP_RECVFROM : Z := 5.
Definition PD_OP_EVENT : Z := 9.
Definition PD_OP_NOTIFY : Z := 10.

Definition PR_ST_SUCCESS : Z := 0.
Definition PR_ST_FINISHED : Z := 1.
Definition PR_ST_ERROR : Z := 2.
Definition PR_ST_DELETED : Z := 3.
Definition PR_ST_MODIFIED : Z := 4.
Definition PR_ST_STOPPED : Z := 5.

(** [struct __poller_node] without its link fields. *)
Record poller_node := mk_node {
  pn_state : Z;
  pn_error : Z;
  pn_data : poller_data;
  in_rbtree : bool;
  removed : bool;
  pn_event : Z;
  timeout : timespec;
  res : ptr }.

Definition set_in_rbtree (b : bool) (n : poller_node) : poller_node :=
  mk_node (pn_state n) (pn_error n) (pn_data n) b (removed n) (pn_event n) (timeout n) (res n).
Definition set_removed (n : poller_node) : poller_node :=
  mk_node (pn_state n) (pn_error n) (pn_data n) (in_rbtree n) true (pn_event n) (timeout n) (res n).
Definition set_timeout (t : timespec) (n : poller_node) : poller_node :=
  mk_node (pn_state n) (pn_error n) (pn_data n) (in_rbtree n) (removed n) (pn_event n) t (res n).
Definition set_outcome (st err : Z) (n : poller_node) : poller_node :=
  mk_node st err (pn_data n) (in_rbtree n) (removed n) (pn_event n) (timeout n) (res n).

(** The fields of [struct __poller] for the timers, the memory of the nodes, and
    the time [timerfd] is set to (zero: disarmed). *)
Record timers := mk_timers {
  timeo_tree : RBTree.state;
  tree_first : ptr;
  tree_last : ptr;
  links : gmap loc ListHead.list_head;
  pnodes : gmap loc poller_node;
  timerfd : timespec }.

(** The heads: two fields of the poller and a local variable. *)
Definition TIMEO_LIST : loc := 1%positive.
Definition NO_TIMEO_LIST : loc := 2%positive.
Definition LOCAL_LIST : loc := 3%positive.

Definition with_tree (t : RBTree.state) (s : timers) : timers :=
  mk_timers t (tree_first s) (tree_last s) (links s) (pnodes s) (timerfd s).
Definition with_first (p : ptr) (s : timers) : timers :=
  mk_timers (timeo_tree s) p (tree_last s) (links s) (pnodes s) (timerfd s).
Definition with_last (p : ptr) (s : timers) : timers :=
  mk_timers (timeo_tree s) (tree_first s) p (links s) (pnodes s) (timerfd s).
Definition with_links (h : gmap loc ListHead.list_head) (s : timers) : timers :=
  mk_timers (timeo_tree s) (tree_first s) (tree_last s) h (pnodes s) (timerfd s).
Definition with_pnodes (m : gmap loc poller_node) (s : timers) : timers :=
  mk_timers (timeo_tree s) (tree_first s) (tree_last s) (links s) m (timerfd s).
Definition with_timerfd (t : timespec) (s : timers) : timers :=
  mk_timers (timeo_tree s) (tree_first s) (tree_last s) (links s) (pnodes s) t.

Definition on_tree (f : RBTree.state -> option RBTree.state) (s : timers) : option timers :=
  t ← f (timeo_tree s); Some (with_tree t s).
Definition on_links (f : gmap loc ListHead.list_head -> option (gmap loc ListHead.list_head))
    (s : timers) : option timers :=
  h ← f (links s); Some (with_links h s).
Definition upd_node (x : loc) (f : poller_node -> poller_node) (s : timers) : option timers :=
  n ← pnodes s !! x; Some (with_pnodes (<[x := f n]> (pnodes s)) s).

(** The union of [list] and [rb]. *)
Definition as_rb (x : loc) (s : timers) : timers :=
  let m := mem (timeo_tree s) in
  let m := match m !! x with
           | Some _ => m
           | None => <[x := mk_rb_node None None None RB_RED]> m
           end in
  with_links (delete x (links s)) (with_tree (mk_state m (rb_root (timeo_tree s))) s).
Definition as_list (x : loc) (s : timers) : timers :=
  let h := match links s !! x with
           | Some _ => links s
           | None => <[x := ListHead.mk_list_head x x]> (links s)
           end in
  with_links h
    (with_tree (mk_state (delete x (mem (timeo_tree s))) (rb_root (timeo_tree s))) s).

(** Fuel for the loops on the tree: it has at most the nodes of the store. *)
Definition tree_fuel (s : timers) : nat := rb_fuel (size (mem (timeo_tree s))).

(** ** Operations *)

(** [__timeout_cmp] on two times and on two nodes.  [long] differences: the
    times of a clock that starts at zero do not overflow them. *)
Definition timespec_cmp (t1 t2 : timespec) : Z :=
  let ret := tv_sec t1 - tv_sec t2 in
  if ret =? 0 then tv_nsec t1 - tv_nsec t2 else ret.
Definition deadline (s : timers) (x : loc) : timespec :=
  match pnodes s !! x with Some n => timeout n | None => mk_timespec 0 0 end.
Definition __timeout_cmp (x y : loc) (s : timers) : Z :=
  timespec_cmp (deadline s x) (deadline s y).

#[export] Instance link_eq_dec : EqDecision link.
Proof. solve_decision. Defined.

(** The first half of [__poller_tree_insert]: the parent and the link of the new
    node, and the poller with the new ends of the tree. *)
Definition tree_place (node : loc) (s : timers) : option (ptr * link * timers) :=
  match rb_root (timeo_tree s) with
  | None => Some (None, LRoot, with_last (Some node) (with_first (Some node) s))
  | Some _ =>
      entry ← tree_last s;
      if 0 <=? __timeout_cmp node entry s then
        Some (Some entry, LRight entry, with_last (Some node) s)
      else
        '(parent, p) ← rb_descend (fun y => __timeout_cmp node y s <? 0)
                         (tree_fuel s) None LRoot (timeo_tree s);
        first ← tree_first s;
        Some (parent, p, if decide (p = LLeft first) then with_first (Some node) s else s)
  end.

Definition __poller_tree_insert (node : loc) (s : timers) : option timers :=
  '(parent, p, s) ← tree_place node s;
  s ← upd_node node (set_in_rbtree true) s;
  let s := as_rb node s in
  on_tree (fun t => t ← rb_link_node node parent p t; rb_insert_color (tree_fuel s) node t) s.

Definition __poller_tree_erase (node : loc) (s : timers) : option timers :=
  s ← (if decide (tree_first s = Some node) then
         n ← rb_next (tree_fuel s) node (timeo_tree s); Some (with_first n s)
       else Some s);
  s ← (if decide (tree_last s = Some node) then
         n ← rb_prev (tree_fuel s) node (timeo_tree s); Some (with_last n s)
       else Some s);
  s ← on_tree (rb_erase (tree_fuel s) node) s;
  upd_node node (set_in_rbtree false) s.

(** [if (node->in_rbtree) __poller_tree_erase(node, poller); else list_del(&node->list);] *)
Definition detach (node : loc) (s : timers) : option timers :=
  n ← pnodes s !! node;
  if in_rbtree n then __poller_tree_erase node s else on_links (ListHead.list_del node) s.

(** [if (!poller->tree_first || __timeout_cmp(node, end) < 0) __poller_set_timerfd(...);] *)
Definition arm_earlier (node : loc) (end_ : ptr) (s : timers) : option timers :=
  match tree_first s with
  | None => Some (with_timerfd (deadline s node) s)
  | Some _ =>
      e ← end_;
      Some (if __timeout_cmp node e s <? 0 then with_timerfd (deadline s node) s else s)
  end.

Definition __poller_insert_node (node : loc) (s : timers) : option timers :=
  end_ ← ListHead.get_prev TIMEO_LIST (links s);
  e ← ListHead.list_empty TIMEO_LIST (links s);
  if (e : bool) then
    s ← on_links (ListHead.list_add node TIMEO_LIST) (as_list node s);
    arm_earlier node (tree_first s) s
  else if 0 <=? __timeout_cmp node end_ s then
    on_links (ListHead.list_add_tail node TIMEO_LIST) (as_list node s)
  else
    s ← __poller_tree_insert node s;
    if decide (tree_first s <> Some node) then Some s else
    end_ ← ListHead.get_next TIMEO_LIST (links s);
    arm_earlier node (Some end_) s.

(** [list_add_tail(&node->list, &poller->no_timeo_list)] *)
Definition insert_no_timeout (node : loc) (s : timers) : option timers :=
  on_links (ListHead.list_add_tail node NO_TIMEO_LIST) (as_list node s).

(** [if (timeout >= 0) __poller_insert_node(...) else list_add_tail(...)] *)
Definition insert_timeout (t : Z) (node : loc) (s : timers) : option timers :=
  if 0 <=? t then __poller_insert_node node s else insert_no_timeout node s.

Definition __poller_set_timer (s : timers) : option timers :=
  e ← ListHead.list_empty TIMEO_LIST (links s);
  n ← ListHead.get_next TIMEO_LIST (links s);
  let node := if (e : bool) then None else Some n in
  let node :=
    match tree_first s with
    | None => node
    | Some first =>
        match node with
        | None => Some first
        | Some n => if __timeout_cmp first n s <? 0 then Some first else Some n
        end
    end in
  Some (with_timerfd
          (match node with Some n => deadline s n | None => mk_timespec 0 0 end) s).

(** [LIST_HEAD(timeo_list)] *)
Definition local_list (s : timers) : timers :=
  with_links (<[LOCAL_LIST := ListHead.mk_list_head LOCAL_LIST LOCAL_LIST]> (links s)) s.

(** The end of an iteration of the second loop of [__poller_handle_timeout]: the
    first node of the tree goes to the local list. *)
Definition take_first (x : loc) (s : timers) : option timers :=
  n ← rb_next (tree_fuel s) x (timeo_tree s);
  let s := with_first n s in
  s ← on_tree (rb_erase (tree_fuel s) x) s;
  s ← on_links (ListHead.list_add_tail x LOCAL_LIST) (as_list x s);
  Some (match tree_first s with None => with_last None s | Some _ => s end).

(** [while (timeo_tree.rb_node) { rb_erase(...); list_add(&node->list, &node_list); }] *)
Fixpoint drain_tree (fuel : nat) (s : timers) : option timers :=
  match fuel with
  | O => None
  | S fuel =>
      match rb_root (timeo_tree s) with
      | None => Some s
      | Some x =>
          s ← on_tree (rb_erase (tree_fuel s) x) s;
          s ← on_links (ListHead.list_add x LOCAL_LIST) (as_list x s);
          drain_tree fuel s
      end
  end.

(** [__poller_node_set_timeout], [now] being the time of the clock; the same
    carry ends [poller_add_timer]. *)
Definition carry (t : timespec) : timespec :=
  if 1000000000 <=? tv_nsec t then mk_timespec (tv_sec t + 1) (tv_nsec t - 1000000000) else t.
Definition __poller_node_set_timeout (now : timespec) (t : Z) : timespec :=
  carry (mk_timespec (tv_sec now + Z.quot t 1000) (tv_nsec now + Z.rem t 1000 * 1000000)).

(** ** Times *)

Definition ts_le (t1 t2 : timespec) : Prop := timespec_cmp t1 t2 <= 0.

Lemma timespec_cmp_opp t1 t2 : timespec_cmp t1 t2 = - timespec_cmp t2 t1.
Proof. unfold timespec_cmp. bsplit; lia. Qed.

Lemma ts_le_refl t : ts_le t t.
Proof. unfold ts_le, timespec_cmp. bsplit; lia. Qed.

Lemma ts_le_trans t1 t2 t3 : ts_le t1 t2 -> ts_le t2 t3 -> ts_le t1 t3.
Proof. unfold ts_le, timespec_cmp. bsplit; lia. Qed.

Lemma ts_lt_le t1 t2 : timespec_cmp t1 t2 < 0 -> ts_le t1 t2.
Proof. unfold ts_le. lia. Qed.

Lemma ts_ge_le t1 t2 : 0 <= timespec_cmp t1 t2 -> ts_le t2 t1.
Proof. unfold ts_le. rewrite (timespec_cmp_opp t2). lia. Qed.

Lemma ts_gt t1 t2 : ~ ts_le t1 t2 -> timespec_cmp t2 t1 < 0.
Proof. unfold ts_le. rewrite (timespec_cmp_opp t2). lia. Qed.

#[export] Hint Resolve ts_le_refl ts_lt_le ts_ge_le : workflow.

(** ** The places of a tree *)

Lemma rb_holds_root s l : rb_holds s l -> rb_root s = None <-> l = [].
Proof.
  intros (t & (Hd & Hr & Hroot) & Hv & <-). rewrite Hroot. destruct t as [|c a x b]; cbn; [done|].
  split; [done|]. intros E. by destruct (inorder a).
Qed.

Lemma rep_alloc m par t x : rep m par t -> x ∈ inorder t -> is_Some (m !! x).
Proof.
  revert par. induction t as [|c l IHl y r IHr]; cbn; intros par; [set_solver|]. intros (Hy & Hl & Hr) Hx.
  apply elem_of_app in Hx as [Hx|[->|Hx]%elem_of_cons]; eauto.
Qed.

Lemma rb_holds_alloc s l x : rb_holds s l -> x ∈ l -> is_Some (mem s !! x).
Proof. intros (t & (Hd & Hr & _) & _ & <-). by eapply rep_alloc. Qed.

(** The store bounds the length of what it holds. *)
Lemma NoDup_dom_length {V} (m : gmap loc V) l :
  NoDup l -> (forall x, x ∈ l -> is_Some (m !! x)) -> (length l <= size m)%nat.
Proof.
  intros Hd Ha. rewrite <- (size_list_to_set (C := gset loc) l), <- size_dom by done. apply subseteq_size.
  intros x Hx. apply elem_of_dom, Ha. by apply elem_of_list_to_set in Hx.
Qed.

Lemma rb_fuel_mono a b : (a <= b)%nat -> (rb_fuel a <= rb_fuel b)%nat.
Proof. intros H. unfold rb_fuel. pose proof (Nat.log2_le_mono (S a) (S b)). lia. Qed.

Lemma tree_fuel_ok s l : rb_holds (timeo_tree s) l -> (rb_fuel (length l) <= tree_fuel s)%nat.
Proof.
  intros H. apply rb_fuel_mono, NoDup_dom_length; [by eapply rb_holds_nodup|]. intros x. by apply rb_holds_alloc.
Qed.

(** An empty link of the tree, between the nodes [l1] and [l2]. *)
Record place (s : RBTree.state) (k : ctx) (l1 l2 : list loc) : Prop := mk_place {
  pl_tree : is_tree s (plug k Leaf);
  pl_valid : valid (plug k Leaf);
  pl_pre : kpre k = l1;
  pl_post : kpost k = l2 }.

Lemma descend_place before fuel s l1 l2 :
  rb_holds s (l1 ++ l2) -> (rb_fuel (length (l1 ++ l2)) <= fuel)%nat ->
  Forall (fun y => before y = false) l1 -> Forall (fun y => before y = true) l2 ->
  exists k, rb_descend before fuel None LRoot s = Some (parent_of k, klink k) /\ place s k l1 l2.
Proof.
  intros (t & Ht & Hv & E) Hf H1 H2. rewrite <- E in Hf. apply fuel_height in Hf; [|done].
  destruct (descend_ok before s t [] l1 l2 Ht E H1 H2) as (k & -> & Epre & Epost & Hrun).
  rewrite app_nil_r in *. exists k. pose proof (ctx_length k Leaf). split; [apply Hrun; lia|].
  cbn in Epre, Epost. rewrite app_nil_r in Epost. by constructor.
Qed.

Lemma place_nil s k : place s k [] [] -> k = [].
Proof.
  intros [_ _ E1 E2]. destruct k as [|[c x r|c l x] k]; cbn in *; [done..|].
  apply app_nil in E1 as [_ E1]. by apply app_nil in E1 as [_ E1].
Qed.

Lemma place_end s k l x : place s k (l ++ [x]) [] -> parent_of k = Some x /\ klink k = LRight x.
Proof.
  intros [_ _ E1 E2]. destruct k as [|[c y r|c a y] k]; cbn in *; [by destruct l|done|].
  rewrite app_assoc in E1. by apply app_inj_tail in E1 as [_ ->].
Qed.

Lemma place_front s k l1 l2 f :
  place s k l1 l2 -> head (l1 ++ l2) = Some f -> (klink k = LLeft f <-> l1 = []).
Proof.
  intros [Ht _ E1 E2] Hh. destruct Ht as (Hd & _ & _). rewrite inorder_plug in Hd. cbn [inorder app] in Hd.
  rewrite E1, E2 in Hd. destruct k as [|[c y r|c a y] k]; cbn in *.
  - subst. done.
  - split; [|by intros ->; subst; cbn in Hh; simplify_eq]. intros [= ->]. destruct l1 as [|z l1]; [done|].
    cbn in Hh. simplify_eq. exfalso. apply list.NoDup_cons in Hd as [Hd _]. set_solver.
  - split; [done|]. intros ->. apply app_nil in E1 as [_ E1]. by apply app_nil in E1 as [_ E1].
Qed.

(** [rb_link_node] and [rb_insert_color] at a place. *)
Lemma place_insert fuel s k l1 l2 x :
  place s k l1 l2 -> (rb_fuel (length (l1 ++ l2)) <= fuel)%nat -> (x ∉ l1 ++ l2) -> is_Some (mem s !! x) ->
  exists s', (s1 ← rb_link_node x (parent_of k) (klink k) s; rb_insert_color fuel x s1) = Some s' /\
    rb_holds s' (l1 ++ x :: l2) /\ (forall q, q ∉ x :: l1 ++ l2 -> mem s' !! q = mem s !! q).
Proof.
  intros [Ht Hv <- <-] Hf Hx [n Hn].
  assert (E : inorder (plug k Leaf) = kpre k ++ kpost k) by apply inorder_plug. rewrite <- E in Hf, Hx |- *.
  pose proof (fuel_height _ _ Hv Hf). pose proof (ctx_length k Leaf).
  destruct (link_insert_ok fuel s k x n) as (s' & t' & Er & T & V & I & F); [lia|done..|].
  exists s'. split; [done|]. split; [|done]. by exists t'.
Qed.

Lemma place_frame s s' k l1 l2 :
  place s k l1 l2 -> rb_root s' = rb_root s -> (forall q, q ∈ l1 ++ l2 -> mem s' !! q = mem s !! q) ->
  place s' k l1 l2.
Proof.
  intros [(Hd & Hr & Hroot) Hv E1 E2] Er F. constructor; [split_and!|done..]; [done| |congruence].
  eapply rep_frame; [done|]. rewrite inorder_plug, E1, E2. done.
Qed.

(** ** What the poller holds *)

Definition HEADS : list loc := [TIMEO_LIST; NO_TIMEO_LIST; LOCAL_LIST].
#[global] Arguments HEADS : simpl never.
#[global] Arguments deadline : simpl never.
#[global] Arguments timespec_cmp : simpl never.
#[global] Arguments ts_le : simpl never.

Definition flagged (s : timers) (b : bool) (x : loc) : Prop :=
  exists n, pnodes s !! x = Some n /\ in_rbtree n = b.

(** [timeo_list] is [L], [timeo_tree] is [T], [no_timeo_list] is [N]. *)
Record tq (s : timers) (L T N : list loc) : Prop := mk_tq {
  tq_timeo : ListHead.is_list (links s) TIMEO_LIST L;
  tq_no : ListHead.is_list (links s) NO_TIMEO_LIST N;
  tq_tree : rb_holds (timeo_tree s) T;
  tq_first : tree_first s = head T;
  tq_last : tree_last s = last T;
  tq_apart : NoDup (HEADS ++ L ++ T ++ N);
  tq_in_tree : forall x, x ∈ T -> flagged s true x;
  tq_in_list : forall x, x ∈ L ++ N -> flagged s false x;
  tq_sorted_list : StronglySorted (fun x y => ts_le (deadline s x) (deadline s y)) L;
  tq_sorted_tree : StronglySorted (fun x y => ts_le (deadline s x) (deadline s y)) T }.

(** A change of a node outside the queue, or of fields the queue does not use. *)
Lemma deadline_other s m x n : pnodes s !! x = Some n ->
  (forall y, m !! y = if decide (y = x) then Some n else pnodes s !! y) ->
  forall y, deadline (with_pnodes m s) y = deadline s y.
Proof. intros E F y. unfold deadline. cbn. rewrite F. case_decide; [by subst; rewrite E|done]. Qed.

Lemma deadline_flag s s' x n b : pnodes s !! x = Some n ->
  pnodes s' = <[x := set_in_rbtree b n]> (pnodes s) -> forall y, deadline s' y = deadline s y.
Proof.
  intros E F y. unfold deadline. rewrite F. destruct (decide (y = x)) as [->|Hy].
  - by rewrite lookup_insert_eq, E.
  - by rewrite lookup_insert_ne.
Qed.

Lemma flagged_other s s' x v b y :
  flagged s b y -> pnodes s' = <[x := v]> (pnodes s) -> y <> x -> flagged s' b y.
Proof. intros (n & E & Eb) F Hy. exists n. by rewrite F, lookup_insert_ne. Qed.

Lemma sorted_deadline s s' l : (forall y, y ∈ l -> deadline s' y = deadline s y) ->
  StronglySorted (fun x y => ts_le (deadline s x) (deadline s y)) l ->
  StronglySorted (fun x y => ts_le (deadline s' x) (deadline s' y)) l.
Proof. intros F. apply sorted_impl. intros x y Hx Hy. by rewrite !F. Qed.

Lemma tree_place_ok s T1 T2 x :
  rb_holds (timeo_tree s) (T1 ++ T2) -> tree_first s = head (T1 ++ T2) -> tree_last s = last (T1 ++ T2) ->
  Forall (fun y => ts_le (deadline s y) (deadline s x)) T1 ->
  Forall (fun y => timespec_cmp (deadline s x) (deadline s y) < 0) T2 ->
  exists k, place (timeo_tree s) k T1 T2 /\
    tree_place x s = Some (parent_of k, klink k,
      with_last (last (T1 ++ x :: T2)) (with_first (head (T1 ++ x :: T2)) s)).
Proof.
  intros Ht Hf Hl H1 H2. unfold tree_place.
  destruct (rb_root (timeo_tree s)) as [r|] eqn:Er.
  2:{ pose proof (proj1 (rb_holds_root _ _ Ht) Er) as [-> ->]%app_nil.
      destruct (descend_place (fun _ => false) (tree_fuel s) (timeo_tree s) [] []) as (k & _ & P);
        [done|by apply tree_fuel_ok|constructor..|].
      exists k. split; [done|]. by rewrite (place_nil _ _ P). }
  assert (Hne : T1 ++ T2 <> []) by (intros E; apply (rb_holds_root _ _ Ht) in E; congruence).
  destruct (exists_last Hne) as (A & e & EA). rewrite EA, last_snoc in Hl. rewrite Hl. cbn [mbind option_bind].
  unfold __timeout_cmp. destruct (Z.leb_spec 0 (timespec_cmp (deadline s x) (deadline s e))) as [Hc|Hc].
  - assert (T2 = []) as ->.
    { destruct T2 as [|y T2']; [done|exfalso].
      destruct (exists_last (l := y :: T2')) as (B & e' & E2); [done|]. rewrite E2 in H2, EA.
      rewrite app_assoc in EA. apply app_inj_tail in EA as [_ ->]. apply Forall_app in H2 as [_ [H2 _]%Forall_cons]. lia. }
    rewrite app_nil_r in *. subst T1.
    destruct (descend_place (fun _ => false) (tree_fuel s) (timeo_tree s) (A ++ [e]) []) as (k & _ & P).
    { by rewrite app_nil_r. } { rewrite app_nil_r. by apply tree_fuel_ok. } { by apply Forall_true. } { constructor. }
    exists k. split; [done|]. destruct (place_end _ _ _ _ P) as [-> ->]. rewrite last_snoc. do 2 f_equal.
    destruct s; cbn in *. subst. f_equal. by destruct A.
  - assert (exists y T2', T2 = y :: T2') as (y & T2' & ->).
    { destruct T2 as [|y T2']; [|eauto]. exfalso. rewrite app_nil_r in EA. subst T1.
      apply Forall_app in H1 as [_ [H1 _]%Forall_cons]. unfold ts_le in H1. rewrite timespec_cmp_opp in H1. lia. }
    destruct (descend_place (fun y => __timeout_cmp x y s <? 0) (tree_fuel s) (timeo_tree s) T1 (y :: T2'))
      as (k & Er2 & P); [done|by apply tree_fuel_ok|..].
    { eapply Forall_impl; [exact H1|]. intros z Hz. unfold ts_le in Hz. rewrite timespec_cmp_opp in Hz. cbn.
      unfold __timeout_cmp. lia. }
    { eapply Forall_impl; [exact H2|]. intros z Hz. cbn. unfold __timeout_cmp in *. lia. }
    unfold __timeout_cmp in Er2. rewrite Er2. cbn [mbind option_bind]. exists k. split; [done|].
    destruct (head (T1 ++ y :: T2')) as [f|] eqn:Eh; [|by destruct T1].
    rewrite Hf. cbn [mbind option_bind]. do 2 f_equal.
    pose proof (place_front _ _ _ _ _ P Eh) as Hk.
    assert (El : last (T1 ++ x :: y :: T2') = tree_last s).
    { rewrite Hl, last_app_cons. change (x :: y :: T2') with ([x] ++ y :: T2'). rewrite last_app_cons.
      rewrite <- (last_app_cons T1), EA. by rewrite last_snoc. }
    rewrite El. case_decide as D.
    + apply Hk in D as ->. destruct s; cbn in *. done.
    + destruct T1 as [|z T1]; [by destruct D; apply Hk|]. cbn in Eh. simplify_eq. destruct s; cbn in *. by subst.
Qed.

(** Facts of membership in the sequences, from [tq_apart]. *)
Ltac apart_hyps :=
  repeat match goal with
  | H : _ ∉ _ :: _ |- _ => apply not_elem_of_cons in H as [? ?]
  | H : _ ∉ _ ++ _ |- _ => apply not_elem_of_app in H as [? ?]
  end.

Lemma apart_insert_tree L T1 T2 N x :
  NoDup (HEADS ++ L ++ (T1 ++ T2) ++ N) -> (x ∉ HEADS ++ L ++ (T1 ++ T2) ++ N) ->
  NoDup (HEADS ++ L ++ (T1 ++ x :: T2) ++ N).
Proof.
  intros Hd Hx. rewrite <- (Permutation_middle T1 T2 x). cbn [app].
  rewrite (app_assoc HEADS L) in Hd, Hx |- *. apply NoDup_middle_iff.
  rewrite not_elem_of_app in Hx. tauto.
Qed.

Lemma tree_insert_ok s L T1 T2 N x n :
  tq s L (T1 ++ T2) N -> pnodes s !! x = Some n -> (x ∉ HEADS ++ L ++ (T1 ++ T2) ++ N) ->
  Forall (fun y => ts_le (deadline s y) (deadline s x)) T1 ->
  Forall (fun y => timespec_cmp (deadline s x) (deadline s y) < 0) T2 ->
  exists s', __poller_tree_insert x s = Some s' /\ tq s' L (T1 ++ x :: T2) N /\
    pnodes s' = <[x := set_in_rbtree true n]> (pnodes s) /\ timerfd s' = timerfd s /\
    (forall q, q <> x -> links s' !! q = links s !! q).
Proof.
  intros Q Hn Hx H1 H2. destruct Q as [QL QN QT Qf Ql Qa Qt Qi QsL QsT].
  destruct (tree_place_ok s T1 T2 x) as (k & P & E); [done..|].
  unfold __poller_tree_insert. rewrite E. cbn [mbind option_bind]. unfold upd_node. cbn [pnodes with_last with_first].
  rewrite Hn. cbn [mbind option_bind]. unfold on_tree.
  set (s1 := as_rb _ _).
  assert (Ft : forall q, q <> x -> mem (timeo_tree s1) !! q = mem (timeo_tree s) !! q).
  { intros q Hq. subst s1. cbn. destruct (mem (timeo_tree s) !! x); [done|by rewrite lookup_insert_ne]. }
  assert (At : is_Some (mem (timeo_tree s1) !! x)).
  { subst s1. cbn. destruct (mem (timeo_tree s) !! x) eqn:Em; [by rewrite Em; eauto|by rewrite lookup_insert_eq; eauto]. }
  assert (Hx' : x ∉ T1 ++ T2) by (clear -Hx; apart_hyps; set_solver).
  assert (Fo : forall q, q ∈ T1 ++ T2 -> mem (timeo_tree s1) !! q = mem (timeo_tree s) !! q)
    by (intros q Hq; apply Ft; intros ->; done).
  destruct (place_insert (tree_fuel s1) (timeo_tree s1) k T1 T2 x) as (t' & -> & Ht' & F').
  { eapply place_frame; [exact P|done|exact Fo]. }
  { apply tree_fuel_ok. eapply rb_holds_frame; [exact QT|done|exact Fo]. }
  { done. } { done. }
  cbn [mbind option_bind]. eexists. split; [done|].
  assert (Ep : pnodes s1 = <[x := set_in_rbtree true n]> (pnodes s)) by done.
  assert (El : forall q, q <> x -> links s1 !! q = links s !! q)
    by (intros q Hq; subst s1; cbn; by rewrite lookup_delete_ne).
  split; [|done].
  assert (HxL : x ∉ TIMEO_LIST :: L) by (clear -Hx; unfold HEADS in Hx; cbn [app] in Hx; apart_hyps; set_solver).
  assert (HxN : x ∉ NO_TIMEO_LIST :: N) by (clear -Hx; unfold HEADS in Hx; cbn [app] in Hx; apart_hyps; set_solver).
  assert (Dl : forall y, deadline (with_tree t' s1) y = deadline s y) by (by eapply deadline_flag).
  constructor; cbn; try done.
  - eapply ListHead.is_list_frame; [exact QL|]. intros q Hq. apply El. by intros ->.
  - eapply ListHead.is_list_frame; [exact QN|]. intros q Hq. apply El. by intros ->.
  - by apply apart_insert_tree.
  - intros y Hy. destruct (decide (y = x)) as [->|Hyx].
    + exists (set_in_rbtree true n). cbn. by rewrite lookup_insert_eq.
    + eapply flagged_other; [apply Qt|exact Ep|done]. set_solver.
  - intros y Hy. eapply flagged_other; [by apply Qi|exact Ep|]. intros ->. set_solver.
  - by apply (sorted_deadline s).
  - apply (sorted_deadline s); [done|]. apply sorted_insert; [done|done|].
    eapply Forall_impl; [exact H2|]. eauto with workflow.
Qed.

(** The tree operations at the level of [rb_holds]. *)
Lemma next_holds s fuel x l1 l2 :
  rb_holds s (l1 ++ x :: l2) -> (rb_fuel (length (l1 ++ x :: l2)) <= fuel)%nat ->
  rb_next fuel x s = Some (head l2) /\ rb_prev fuel x s = Some (last l1).
Proof.
  intros (t & Ht & Hv & E) Hf. rewrite <- E in Hf. apply fuel_height in Hf; [|done].
  split; [eapply rb_next_ok|eapply rb_prev_ok]; eauto.
Qed.

Lemma erase_holds s fuel x l1 l2 :
  rb_holds s (l1 ++ x :: l2) -> (rb_fuel (length (l1 ++ x :: l2)) <= fuel)%nat ->
  exists s', rb_erase fuel x s = Some s' /\ rb_holds s' (l1 ++ l2).
Proof.
  intros (t & Ht & Hv & E) Hf. rewrite <- E in Hf.
  destruct (rb_erase_ok fuel s t x l1 l2) as (s' & t' & ? & ? & ? & ? & F); eauto using fuel_height.
  exists s'. split; [done|]. by exists t'.
Qed.

Lemma head_erase (l1 : list loc) x l2 : NoDup (l1 ++ x :: l2) ->
  head (l1 ++ l2) = if decide (head (l1 ++ x :: l2) = Some x) then head l2 else head (l1 ++ x :: l2).
Proof.
  intros Hd. destruct l1 as [|y l1]; cbn; [by rewrite decide_True|]. apply list.NoDup_cons in Hd as [Hd _].
  rewrite decide_False; [done|]. intros [= ->]. set_solver.
Qed.

Lemma last_erase (l1 : list loc) x l2 : NoDup (l1 ++ x :: l2) ->
  last (l1 ++ l2) = if decide (last (l1 ++ x :: l2) = Some x) then last l1 else last (l1 ++ x :: l2).
Proof.
  intros Hd. destruct l2 as [|y l2]; [by rewrite app_nil_r, last_snoc, decide_True|].
  replace (last (l1 ++ x :: y :: l2)) with (last (l1 ++ y :: l2)).
  2:{ by rewrite !last_app_cons. }
  rewrite decide_False; [done|]. rewrite last_app_cons. intros E. apply last_Some_elem_of in E.
  apply NoDup_middle_iff in Hd. set_solver.
Qed.

Lemma tq_parts s L T N : tq s L T N ->
  NoDup L /\ NoDup T /\ NoDup N /\ (forall x, x ∈ L -> x ∈ T -> False) /\
  (forall x, x ∈ L -> x ∈ N -> False) /\ (forall x, x ∈ T -> x ∈ N -> False) /\
  (forall x, x ∈ HEADS -> x ∈ L ++ T ++ N -> False).
Proof.
  intros Q. pose proof (tq_apart _ _ _ _ Q) as Hd.
  apply NoDup_app_inv in Hd as (_ & Hd & Hh). apply NoDup_app_inv in Hd as (HL & Hd & HLo).
  apply NoDup_app_inv in Hd as (HT & HN & HTN). split_and!; [done..| | |done|done]; intros x H1 H2; apply (HLo x H1); set_solver.
Qed.

Lemma apart_remove_tree L T1 T2 N x :
  NoDup (HEADS ++ L ++ (T1 ++ x :: T2) ++ N) -> NoDup (HEADS ++ L ++ (T1 ++ T2) ++ N).
Proof.
  rewrite <- (Permutation_middle T1 T2 x). cbn [app]. rewrite !(app_assoc HEADS L). intros Hd.
  by apply NoDup_middle_iff in Hd as (_ & _ & Hd).
Qed.

Lemma tree_erase_ok s L T1 T2 N x :
  tq s L (T1 ++ x :: T2) N ->
  exists s' n, __poller_tree_erase x s = Some s' /\ tq s' L (T1 ++ T2) N /\
    pnodes s !! x = Some n /\ pnodes s' = <[x := set_in_rbtree false n]> (pnodes s) /\
    timerfd s' = timerfd s /\ links s' = links s.
Proof.
  intros Q. pose proof (tq_parts _ _ _ _ Q) as (_ & HdT & _ & HLT & _ & HTN & _).
  destruct Q as [QL QN QT Qf Ql Qa Qt Qi QsL QsT].
  destruct (Qt x) as (n & Hn & _); [set_solver|].
  destruct (next_holds (timeo_tree s) (tree_fuel s) x T1 T2 QT) as [En Ep]; [by apply tree_fuel_ok|].
  destruct (erase_holds (timeo_tree s) (tree_fuel s) x T1 T2 QT) as (t' & Ee & Ht'); [by apply tree_fuel_ok|].
  assert (Ex : __poller_tree_erase x s =
    Some (mk_timers t' (head (T1 ++ T2)) (last (T1 ++ T2)) (links s)
            (<[x := set_in_rbtree false n]> (pnodes s)) (timerfd s))).
  { rewrite (head_erase T1 x T2), (last_erase T1 x T2) by done. rewrite <- Qf, <- Ql.
    unfold __poller_tree_erase. rewrite En. cbn [mbind option_bind]. case_decide; cbn [mbind option_bind];
      cbn [tree_last with_first timeo_tree]; fold (tree_fuel s); unfold tree_fuel; cbn [with_first timeo_tree];
      fold (tree_fuel s); rewrite Ep; cbn [mbind option_bind]; case_decide; cbn [mbind option_bind];
      unfold on_tree, tree_fuel; cbn [with_first with_last timeo_tree]; fold (tree_fuel s); rewrite Ee;
      unfold upd_node; cbn; rewrite Hn; cbn; by destruct s. }
  eexists _, n. split; [exact Ex|]. split; [|done].
  assert (Dl : forall y, deadline (mk_timers t' (head (T1 ++ T2)) (last (T1 ++ T2)) (links s)
            (<[x := set_in_rbtree false n]> (pnodes s)) (timerfd s)) y = deadline s y)
    by (intros y; by eapply (deadline_flag s)).
  assert (Hx : x ∉ T1 ++ T2) by (apply NoDup_middle_iff in HdT; set_solver).
  constructor; try done.
  - by eapply apart_remove_tree.
  - intros y Hy. eapply flagged_other; [apply Qt|done|]; [set_solver|by intros ->].
  - intros y Hy. eapply flagged_other; [by apply Qi|done|]. intros ->.
    apply elem_of_app in Hy as [Hy|Hy]; [eapply HLT|eapply HTN]; try exact Hy; set_solver.
  - by apply (sorted_deadline s).
  - apply (sorted_deadline s); [done|]. by eapply sorted_remove.
Qed.

(** *** The lists *)

Lemma tq_as_list s L T N x :
  tq s L T N -> (x ∉ HEADS ++ L ++ T ++ N) ->
  tq (as_list x s) L T N /\ is_Some (links (as_list x s) !! x) /\
  (forall q, q <> x -> links (as_list x s) !! q = links s !! q).
Proof.
  intros Q Hx.
  assert (F : forall q, q <> x -> links (as_list x s) !! q = links s !! q).
  { intros q Hq. cbn. destruct (links s !! x) eqn:E; [done|by rewrite lookup_insert_ne]. }
  split_and!; [| |done].
  - destruct Q. constructor; try done.
    + eapply ListHead.is_list_frame; [done|]. intros q Hq. apply F. intros ->. apply Hx. unfold HEADS. clear -Hq. set_solver.
    + eapply ListHead.is_list_frame; [done|]. intros q Hq. apply F. intros ->. apply Hx. unfold HEADS. clear -Hq. set_solver.
    + eapply rb_holds_frame; [done|done|]. intros q Hq. cbn. rewrite lookup_delete_ne; [done|]. intros ->. set_solver.
  - cbn. destruct (links s !! x) eqn:E; [by rewrite E; eauto|rewrite lookup_insert_eq; eauto].
Qed.

(** New lists in place of the old ones. *)
Lemma tq_with_links s L T N h L' N' :
  tq s L T N -> ListHead.is_list h TIMEO_LIST L' -> ListHead.is_list h NO_TIMEO_LIST N' ->
  NoDup (HEADS ++ L' ++ T ++ N') -> (forall x, x ∈ L' ++ N' -> flagged s false x) ->
  StronglySorted (fun x y => ts_le (deadline s x) (deadline s y)) L' ->
  tq (with_links h s) L' T N'.
Proof. intros []. by constructor. Qed.

Lemma apart_frame (h h' : gmap loc ListHead.list_head) head xs (l : list loc) :
  ListHead.is_list h head xs -> (forall q, q ∉ l -> h' !! q = h !! q) ->
  (forall q, q ∈ head :: xs -> q ∈ l -> False) -> ListHead.is_list h' head xs.
Proof. intros H F D. eapply ListHead.is_list_frame; [done|]. eauto. Qed.

(** The two lists and a new node have nothing in common. *)
Lemma tq_disjoint s L T N : tq s L T N ->
  forall q, q ∈ TIMEO_LIST :: L -> q ∈ NO_TIMEO_LIST :: N -> False.
Proof.
  intros Q q H1 H2. pose proof (tq_parts _ _ _ _ Q) as (_ & _ & _ & _ & HLN & _ & HH).
  unfold HEADS in HH. apply elem_of_cons in H1 as [->|H1]; apply elem_of_cons in H2 as [E|H2].
  - discriminate E.
  - eapply (HH TIMEO_LIST); set_solver.
  - subst. eapply (HH NO_TIMEO_LIST); set_solver.
  - by eapply HLN.
Qed.

Lemma tq_fresh_head L T N x (head : loc) : (x ∉ HEADS ++ L ++ T ++ N) -> head ∈ HEADS ->
  (x ∉ head :: L) /\ (x ∉ head :: N).
Proof. unfold HEADS. set_solver. Qed.

(** A node has been added at the end of a list. *)
Lemma tq_pushed_timeo s L T N x n h :
  tq s L T N -> (x ∉ HEADS ++ L ++ T ++ N) -> pnodes s !! x = Some n -> in_rbtree n = false ->
  Forall (fun y => ts_le (deadline s y) (deadline s x)) L ->
  ListHead.is_list h TIMEO_LIST (L ++ [x]) ->
  (forall q, q ∉ x :: TIMEO_LIST :: L -> h !! q = links s !! q) ->
  tq (with_links h s) (L ++ [x]) T N.
Proof.
  intros Q Hx Hn Hb Hs HL F. apply (tq_with_links _ L T N); [done|done| | | |].
  - eapply apart_frame; [apply Q|exact F|]. intros q H1 [->|H2]%elem_of_cons; [|by eapply tq_disjoint].
    by destruct (tq_fresh_head _ _ _ _ NO_TIMEO_LIST Hx) as [_ ?]; [unfold HEADS; set_solver|].
  - rewrite <- app_assoc. cbn [app]. rewrite (app_assoc HEADS L). apply NoDup_middle_iff. rewrite <- app_assoc.
    pose proof (tq_apart _ _ _ _ Q) as Hd. clear -Hx Hd. rewrite !not_elem_of_app in *. tauto.
  - intros y Hy. destruct (decide (y = x)) as [->|]; [by exists n|]. apply (tq_in_list _ _ _ _ Q). clear -Hy n0. set_solver.
  - apply sorted_insert; [rewrite app_nil_r; apply Q|exact Hs|constructor].
Qed.

Lemma tq_pushed_no s L T N x n h :
  tq s L T N -> (x ∉ HEADS ++ L ++ T ++ N) -> pnodes s !! x = Some n -> in_rbtree n = false ->
  ListHead.is_list h NO_TIMEO_LIST (N ++ [x]) ->
  (forall q, q ∉ x :: NO_TIMEO_LIST :: N -> h !! q = links s !! q) ->
  tq (with_links h s) L T (N ++ [x]).
Proof.
  intros Q Hx Hn Hb HL F. apply (tq_with_links _ L T N); [done| |done| | |apply Q].
  - eapply apart_frame; [apply Q|exact F|]. intros q H1 [->|H2]%elem_of_cons; [|by eapply tq_disjoint].
    by destruct (tq_fresh_head _ _ _ _ TIMEO_LIST Hx) as [? _]; [unfold HEADS; set_solver|].
  - rewrite !app_assoc. apply NoDup_middle_iff. rewrite app_nil_r, <- !app_assoc.
    pose proof (tq_apart _ _ _ _ Q) as Hd. clear -Hx Hd. rewrite !app_assoc in *. set_solver.
  - intros y Hy. destruct (decide (y = x)) as [->|]; [by exists n|]. apply (tq_in_list _ _ _ _ Q). clear -Hy n0. set_solver.
Qed.

(** What an insertion in a list leaves alone. *)
Definition list_step (s s' : timers) : Prop :=
  pnodes s' = pnodes s /\ timerfd s' = timerfd s /\ tree_first s' = tree_first s.

Lemma push_timeo_ok s L T N x n :
  tq s L T N -> (x ∉ HEADS ++ L ++ T ++ N) -> pnodes s !! x = Some n -> in_rbtree n = false ->
  Forall (fun y => ts_le (deadline s y) (deadline s x)) L ->
  exists s', on_links (ListHead.list_add_tail x TIMEO_LIST) (as_list x s) = Some s' /\
    tq s' (L ++ [x]) T N /\ list_step s s'.
Proof.
  intros Q Hx Hn Hb Hs. destruct (tq_as_list s L T N x Q Hx) as (Q1 & A1 & F1).
  destruct (ListHead.list_add_tail_spec (links (as_list x s)) TIMEO_LIST L [] TIMEO_LIST [] x) as (h & E & HL & F).
  { rewrite app_nil_r. apply Q1. } { done. }
  { rewrite app_nil_r. by apply (tq_fresh_head L T N); [|unfold HEADS; set_solver]. } { done. }
  rewrite app_nil_r in F. unfold on_links. rewrite E. cbn [mbind option_bind]. eexists. split; [done|].
  split; [|done]. by eapply tq_pushed_timeo.
Qed.

Lemma push_first_ok s T N x n :
  tq s [] T N -> (x ∉ HEADS ++ T ++ N) -> pnodes s !! x = Some n -> in_rbtree n = false ->
  exists s', on_links (ListHead.list_add x TIMEO_LIST) (as_list x s) = Some s' /\
    tq s' [x] T N /\ list_step s s'.
Proof.
  intros Q Hx Hn Hb. destruct (tq_as_list s [] T N x Q Hx) as (Q1 & A1 & F1).
  destruct (ListHead.list_add_spec (links (as_list x s)) TIMEO_LIST [] [] [] TIMEO_LIST x) as (h & E & HL & F).
  { apply Q1. } { done. } { by apply (tq_fresh_head [] T N); [|unfold HEADS; set_solver]. } { done. }
  unfold on_links. rewrite E. cbn [mbind option_bind]. eexists. split; [done|].
  split; [|done]. by eapply (tq_pushed_timeo _ []).
Qed.

Lemma insert_no_timeout_ok s L T N x n :
  tq s L T N -> (x ∉ HEADS ++ L ++ T ++ N) -> pnodes s !! x = Some n -> in_rbtree n = false ->
  exists s', insert_no_timeout x s = Some s' /\ tq s' L T (N ++ [x]) /\ list_step s s'.
Proof.
  intros Q Hx Hn Hb. destruct (tq_as_list s L T N x Q Hx) as (Q1 & A1 & F1).
  destruct (ListHead.list_add_tail_spec (links (as_list x s)) NO_TIMEO_LIST N [] NO_TIMEO_LIST [] x) as (h & E & HL & F).
  { rewrite app_nil_r. apply Q1. } { done. }
  { rewrite app_nil_r. by apply (tq_fresh_head L T N); [|unfold HEADS; set_solver]. } { done. }
  rewrite app_nil_r in F. unfold insert_no_timeout, on_links. rewrite E. cbn [mbind option_bind]. eexists. split; [done|].
  split; [|done]. by eapply tq_pushed_no.
Qed.

Lemma list_del_timeo_ok s L1 L2 T N x :
  tq s (L1 ++ x :: L2) T N ->
  exists s', on_links (ListHead.list_del x) s = Some s' /\ tq s' (L1 ++ L2) T N /\ list_step s s'.
Proof.
  intros Q. destruct (ListHead.list_del_run (links s) TIMEO_LIST L1 x L2) as (h & E & HL & F); [apply Q|].
  unfold on_links. rewrite E. cbn [mbind option_bind]. eexists. split; [done|]. split; [|done].
  apply (tq_with_links _ (L1 ++ x :: L2) T N); [done|done| | | |].
  - eapply apart_frame; [apply Q|exact F|]. intros q H1 H2. apply (tq_disjoint _ _ _ _ Q q); [clear -H2; set_solver|done].
  - pose proof (tq_apart _ _ _ _ Q) as Hd. rewrite <- (Permutation_middle L1 L2 x) in Hd. cbn [app] in Hd.
    by apply NoDup_middle_iff in Hd as (_ & _ & Hd).
  - intros y Hy. apply (tq_in_list _ _ _ _ Q). clear -Hy. set_solver.
  - eapply sorted_remove, Q.
Qed.

Lemma list_del_no_ok s L T N1 N2 x :
  tq s L T (N1 ++ x :: N2) ->
  exists s', on_links (ListHead.list_del x) s = Some s' /\ tq s' L T (N1 ++ N2) /\ list_step s s'.
Proof.
  intros Q. destruct (ListHead.list_del_run (links s) NO_TIMEO_LIST N1 x N2) as (h & E & HL & F); [apply Q|].
  unfold on_links. rewrite E. cbn [mbind option_bind]. eexists. split; [done|]. split; [|done].
  apply (tq_with_links _ L T (N1 ++ x :: N2)); [done| |done| | |apply Q].
  - eapply apart_frame; [apply Q|exact F|]. intros q H1 H2. apply (tq_disjoint _ _ _ _ Q q); [done|clear -H2; set_solver].
  - pose proof (tq_apart _ _ _ _ Q) as Hd. rewrite <- (Permutation_middle N1 N2 x) in Hd. rewrite !app_assoc in Hd |- *.
    by apply NoDup_middle_iff in Hd as (_ & _ & Hd).
  - intros y Hy. apply (tq_in_list _ _ _ _ Q). clear -Hy. set_solver.
Qed.

(** *** Insertion of a node with a deadline *)

(** Equal nodes, the flag [in_rbtree] apart. *)
Definition same_nodes (s s' : timers) : Prop :=
  forall y, set_in_rbtree false <$> pnodes s' !! y = set_in_rbtree false <$> pnodes s !! y.

Lemma same_nodes_refl s s' : pnodes s' = pnodes s -> same_nodes s s'.
Proof. intros E y. by rewrite E. Qed.

Lemma same_nodes_trans s1 s2 s3 : same_nodes s1 s2 -> same_nodes s2 s3 -> same_nodes s1 s3.
Proof. intros H1 H2 y. by rewrite H2, H1. Qed.

Lemma same_nodes_flag s s' x n b :
  pnodes s !! x = Some n -> pnodes s' = <[x := set_in_rbtree b n]> (pnodes s) -> same_nodes s s'.
Proof.
  intros Hn E y. rewrite E. destruct (decide (y = x)) as [->|Hy].
  - by rewrite lookup_insert_eq, Hn.
  - by rewrite lookup_insert_ne.
Qed.

Lemma same_nodes_deadline s s' : same_nodes s s' -> forall y, deadline s' y = deadline s y.
Proof.
  intros H y. specialize (H y). unfold deadline.
  destruct (pnodes s' !! y), (pnodes s !! y); cbn in H; simplify_eq; [|done..]. congruence.
Qed.

#[export] Hint Resolve same_nodes_refl same_nodes_flag : workflow.

Lemma sorted_head_le s y l z :
  StronglySorted (fun a b => ts_le (deadline s a) (deadline s b)) (y :: l) -> z ∈ y :: l ->
  ts_le (deadline s y) (deadline s z).
Proof.
  intros [Hf _]%StronglySorted_cons [->|Hz]%elem_of_cons; [apply ts_le_refl|].
  rewrite Forall_forall in Hf. by apply Hf.
Qed.

Lemma sorted_last_le s l y z :
  StronglySorted (fun a b => ts_le (deadline s a) (deadline s b)) (l ++ [y]) -> z ∈ l ++ [y] ->
  ts_le (deadline s z) (deadline s y).
Proof.
  induction l as [|a l IH]; cbn; intros [Hf Hs]%StronglySorted_cons Hz.
  - apply list_elem_of_singleton in Hz as ->. apply ts_le_refl.
  - apply elem_of_cons in Hz as [->|Hz]; [|by apply IH]. rewrite Forall_forall in Hf. apply Hf. set_solver.
Qed.

(** What an insertion does to the timer: it is set to the deadline of the new
    node exactly when that node is earlier than all the others. *)
Definition arming (s s' : timers) (l : list loc) (x : loc) : Prop :=
  (timerfd s' = deadline s x /\ forall y, y ∈ l -> timespec_cmp (deadline s x) (deadline s y) < 0) \/
  (timerfd s' = timerfd s /\ exists y, y ∈ l /\ ts_le (deadline s y) (deadline s x)).

Lemma is_list_ends h head l : ListHead.is_list h head l ->
  ListHead.get_next head h = Some (default head (List.hd_error l)) /\
  ListHead.get_prev head h = Some (default head (last l)).
Proof.
  intros H. destruct (exists_last (l := head :: l)) as (A & p & E); [done|].
  destruct (l ++ [head]) as [|n B] eqn:E2; [by destruct l|].
  split.
  - destruct (ListHead.is_list_next h head [] l n B H E2 [] head) as [Hn _]; [done|].
    rewrite Hn. destruct l; cbn in *; by simplify_eq.
  - destruct (ListHead.is_list_next h head l [] head []) with (A := A) (p := p) as [_ Hp];
      [by rewrite app_nil_r|done|done|]. rewrite Hp. f_equal.
    destruct l as [|z l]; [destruct A as [|? [|]]; cbn in E; by simplify_eq|].
    change (head :: z :: l) with ([head] ++ z :: l) in E.
    assert (El : last (A ++ [p]) = Some p) by apply last_snoc. rewrite <- E, last_app_cons in El. by rewrite El.
Qed.

Lemma tree_case_ok s L T N x n :
  tq s L T N -> (x ∉ HEADS ++ L ++ T ++ N) -> pnodes s !! x = Some n ->
  exists s' T1 T2, __poller_tree_insert x s = Some s' /\ T = T1 ++ T2 /\ tq s' L (T1 ++ x :: T2) N /\
    pnodes s' = <[x := set_in_rbtree true n]> (pnodes s) /\ timerfd s' = timerfd s /\
    Forall (fun y => ts_le (deadline s y) (deadline s x)) T1 /\
    Forall (fun y => timespec_cmp (deadline s x) (deadline s y) < 0) T2.
Proof.
  intros Q Hx Hn.
  destruct (sorted_partition _ (fun y => timespec_cmp (deadline s x) (deadline s y) <? 0) T
              (tq_sorted_tree _ _ _ _ Q)) as (T1 & T2 & -> & H1 & H2).
  { intros y z Hyz Hy. unfold ts_le, timespec_cmp in *. bsplit; lia. }
  assert (G1 : Forall (fun y => ts_le (deadline s y) (deadline s x)) T1)
    by (eapply Forall_impl; [exact H1|]; cbn; intros y Hy; apply ts_ge_le; lia).
  assert (G2 : Forall (fun y => timespec_cmp (deadline s x) (deadline s y) < 0) T2)
    by (eapply Forall_impl; [exact H2|]; cbn; intros y Hy; lia).
  destruct (tree_insert_ok s L T1 T2 N x n Q Hn Hx G1 G2) as (s' & E & Q' & Ep & Et & _).
  exists s', T1, T2. split_and!; done.
Qed.

Lemma insert_node_ok s L T N x n :
  tq s L T N -> (x ∉ HEADS ++ L ++ T ++ N) -> pnodes s !! x = Some n -> in_rbtree n = false ->
  exists s' L' T', __poller_insert_node x s = Some s' /\ tq s' L' T' N /\
    L' ++ T' ≡ₚ x :: L ++ T /\ same_nodes s s' /\ arming s s' (L ++ T) x.
Proof.
  intros Q Hx Hn Hb. unfold __poller_insert_node.
  destruct (is_list_ends _ _ _ (tq_timeo _ _ _ _ Q)) as [_ ->]. cbn [mbind option_bind].
  rewrite (ListHead.list_empty_spec _ _ _ (tq_timeo _ _ _ _ Q)). cbn [mbind option_bind].
  destruct L as [|y L].
  - rewrite bool_decide_true by done.
    destruct (push_first_ok s T N x n Q Hx Hn Hb) as (s1 & -> & Q1 & Ep & Et & Ef). cbn [mbind option_bind].
    assert (Ed : forall z, deadline s1 z = deadline s z) by (apply same_nodes_deadline, same_nodes_refl, Ep).
    unfold arm_earlier, __timeout_cmp. rewrite (tq_first _ _ _ _ Q1). destruct T as [|f T]; cbn [head mbind option_bind].
    + eexists _, [x], []. split; [done|]. split; [by destruct Q1|]. split; [done|]. split; [by apply same_nodes_refl|].
      left. cbn. rewrite Ed. split; [done|]. set_solver.
    + eexists _, [x], (f :: T). split; [done|]. rewrite !Ed.
      pose proof (fun z => sorted_head_le s f T z (tq_sorted_tree _ _ _ _ Q)) as Hs.
      destruct (Z.ltb_spec (timespec_cmp (deadline s x) (deadline s f)) 0) as [Hc|Hc].
      * split; [by destruct Q1|]. split; [done|]. split; [by apply same_nodes_refl|]. left. cbn. split; [done|].
        intros z Hz. specialize (Hs z Hz). unfold ts_le, timespec_cmp in *. bsplit; lia.
      * split; [done|]. split; [done|]. split; [by apply same_nodes_refl|]. right. split; [done|].
        exists f. split; [set_solver|]. by apply ts_ge_le.
  - rewrite bool_decide_false by done. destruct (exists_last (l := y :: L)) as (A & e & EA); [done|].
    rewrite EA, last_snoc in *. cbn [from_option id]. unfold __timeout_cmp.
    destruct (Z.leb_spec 0 (timespec_cmp (deadline s x) (deadline s e))) as [Hc|Hc].
    + destruct (push_timeo_ok s (A ++ [e]) T N x n Q Hx Hn Hb) as (s1 & -> & Q1 & Ep & Et & Ef).
      { apply Forall_forall. intros z Hz. eapply ts_le_trans; [|apply ts_ge_le; exact Hc].
        by eapply sorted_last_le; [apply Q|]. }
      eexists s1, _, T. split; [done|]. split; [exact Q1|]. split; [|split; [by apply same_nodes_refl|right]].
      * rewrite <- app_assoc. cbn [app]. by rewrite <- Permutation_middle.
      * split; [done|]. exists e. split; [set_solver|]. by apply ts_ge_le.
    + destruct (tree_case_ok s _ T N x n Q Hx Hn) as (s1 & T1 & T2 & -> & -> & Q1 & Ep & Et & G1 & G2).
      cbn [mbind option_bind].
      assert (Sn : same_nodes s s1) by eauto with workflow.
      assert (Ed : forall z, deadline s1 z = deadline s z) by (by apply same_nodes_deadline).
      assert (Pm : (A ++ [e]) ++ (T1 ++ x :: T2) ≡ₚ x :: (A ++ [e]) ++ (T1 ++ T2))
        by (rewrite <- (Permutation_middle T1), <- Permutation_middle; done).
      rewrite (tq_first _ _ _ _ Q1). destruct T1 as [|f T1]; cbn [app head].
      2:{ rewrite decide_True. 2:{ intros [= ->]. apply Hx. set_solver. }
          eexists s1, _, _. split; [done|]. split; [exact Q1|]. split; [exact Pm|]. split; [done|]. right.
          split; [done|]. exists f. split; [set_solver|]. by apply Forall_cons in G1 as [? _]. }
      rewrite decide_False by (intros H; by apply H).
      destruct (is_list_ends _ _ _ (tq_timeo _ _ _ _ Q1)) as [-> _]. cbn [mbind option_bind].
      rewrite <- EA in *. cbn [List.hd_error from_option id]. unfold arm_earlier, __timeout_cmp.
      rewrite (tq_first _ _ _ _ Q1). cbn [head app mbind option_bind]. rewrite !Ed.
      pose proof (fun z => sorted_head_le s y L z (tq_sorted_list _ _ _ _ Q)) as Hs. rewrite Forall_forall in G2.
      eexists _, (y :: L), (x :: T2). split; [done|].
      destruct (Z.ltb_spec (timespec_cmp (deadline s x) (deadline s y)) 0) as [Hc'|Hc'].
      * split; [by destruct Q1|]. split; [exact Pm|]. split; [exact Sn|]. left. cbn. split; [done|].
        intros z [Hz|Hz]%(elem_of_app (y :: L)); [|by apply G2]. specialize (Hs z Hz). unfold ts_le, timespec_cmp in *. bsplit; lia.
      * split; [done|]. split; [exact Pm|]. split; [exact Sn|]. right. split; [done|].
        exists y. split; [set_solver|]. by apply ts_ge_le.
Qed.

(** Removal of any node of the queue. *)
Lemma detach_ok s L T N x :
  tq s L T N -> x ∈ L ++ T ++ N ->
  exists s' L' T' N', detach x s = Some s' /\ tq s' L' T' N' /\
    same_nodes s s' /\ timerfd s' = timerfd s /\ (exists n, pnodes s' !! x = Some n /\ in_rbtree n = false) /\
    (forall y, y <> x -> pnodes s' !! y = pnodes s !! y) /\
    ((x :: L' ++ T' ≡ₚ L ++ T /\ N' = N) \/ (L' = L /\ T' = T /\ x :: N' ≡ₚ N)).
Proof.
  intros Q Hx. unfold detach. rewrite !elem_of_app in Hx. destruct Hx as [Hx|[Hx|Hx]].
  - destruct (tq_in_list _ _ _ _ Q x) as (n & En & Eb); [set_solver|]. rewrite En. cbn [mbind option_bind]. rewrite Eb.
    apply list_elem_of_split in Hx as (L1 & L2 & ->).
    destruct (list_del_timeo_ok s L1 L2 T N x Q) as (s' & -> & Q' & Ep & Et & _).
    eexists s', _, _, _. split; [done|]. split; [exact Q'|]. split; [by apply same_nodes_refl|]. split; [done|]. split; [exists n; by rewrite Ep|].
    split; [intros z _; by rewrite Ep|].
    left. split; [|done]. rewrite <- (Permutation_middle L1 L2 x). done.
  - destruct (tq_in_tree _ _ _ _ Q x Hx) as (n & -> & Eb). cbn [mbind option_bind]. rewrite Eb.
    apply list_elem_of_split in Hx as (T1 & T2 & ->).
    destruct (tree_erase_ok s L T1 T2 N x Q) as (s' & m & -> & Q' & Em & Ep & Et & _).
    eexists s', _, _, _. split; [done|]. split; [exact Q'|]. split; [eauto with workflow|]. split; [done|].
    split; [eexists; by rewrite Ep, lookup_insert_eq|].
    split; [intros z Hz; by rewrite Ep, lookup_insert_ne|].
    left. split; [|done]. rewrite <- (Permutation_middle T1 T2 x). by rewrite <- Permutation_middle.
  - destruct (tq_in_list _ _ _ _ Q x) as (n & En & Eb); [set_solver|]. rewrite En. cbn [mbind option_bind]. rewrite Eb.
    apply list_elem_of_split in Hx as (N1 & N2 & ->).
    destruct (list_del_no_ok s L T N1 N2 x Q) as (s' & -> & Q' & Ep & Et & _).
    eexists s', _, _, _. split; [done|]. split; [exact Q'|]. split; [by apply same_nodes_refl|]. split; [done|]. split; [exists n; by rewrite Ep|].
    split; [intros z _; by rewrite Ep|].
    right. split_and!; [done..|]. by rewrite <- (Permutation_middle N1 N2 x).
Qed.

(** [x] is one of the earliest of [l]. *)
Definition earliest (s : timers) (l : list loc) (x : loc) : Prop :=
  x ∈ l /\ forall y, y ∈ l -> ts_le (deadline s x) (deadline s y).

Lemma set_timer_ok s L T N :
  tq s L T N ->
  exists s', __poller_set_timer s = Some s' /\ tq s' L T N /\ pnodes s' = pnodes s /\
    (L ++ T = [] /\ timerfd s' = mk_timespec 0 0 \/
     exists x, earliest s (L ++ T) x /\ timerfd s' = deadline s x).
Proof.
  intros Q. unfold __poller_set_timer.
  rewrite (ListHead.list_empty_spec _ _ _ (tq_timeo _ _ _ _ Q)). cbn [mbind option_bind].
  destruct (is_list_ends _ _ _ (tq_timeo _ _ _ _ Q)) as [-> _]. cbn [mbind option_bind].
  rewrite (tq_first _ _ _ _ Q). eexists. split; [done|]. split; [by destruct Q|]. split; [done|].
  pose proof (tq_sorted_list _ _ _ _ Q) as SL. pose proof (tq_sorted_tree _ _ _ _ Q) as ST.
  destruct L as [|y L], T as [|f T]; cbn [app head List.hd_error from_option id].
  - left. by rewrite bool_decide_true.
  - right. rewrite bool_decide_true by done. exists f. split; [|done]. split; [set_solver|]. intros z. by apply sorted_head_le.
  - right. rewrite bool_decide_false by done. exists y. split; [|done]. rewrite app_nil_r. split; [set_solver|]. intros z. by apply sorted_head_le.
  - right. rewrite bool_decide_false by done. unfold __timeout_cmp.
    destruct (Z.ltb_spec (timespec_cmp (deadline s f) (deadline s y)) 0) as [Hc|Hc].
    + exists f. split; [|done]. split; [set_solver|]. intros z [Hz|Hz]%(elem_of_app (y :: L)); [|by eapply sorted_head_le].
      eapply ts_le_trans; [by apply ts_lt_le|]. by eapply sorted_head_le.
    + exists y. split; [|done]. split; [set_solver|]. intros z [Hz|Hz]%(elem_of_app (y :: L)); [by eapply sorted_head_le|].
      eapply ts_le_trans; [by apply ts_ge_le|]. by eapply sorted_head_le.
Qed.

(** ** The queue as a map

    What the poller watches: each node with its descriptor, its events and its
    deadline, if it has one. *)

Record watched := mk_watched { w_fd : Z; w_event : Z; w_deadline : option timespec }.

Definition entry (b : bool) (n : poller_node) : watched :=
  mk_watched (fd (pn_data n)) (pn_event n) (if b then Some (timeout n) else None).

Definition watch_at (s : timers) (L T N : list loc) (x : loc) : option watched :=
  if decide (x ∈ L ++ T) then entry true <$> pnodes s !! x
  else if decide (x ∈ N) then entry false <$> pnodes s !! x
  else None.

Definition watching (s : timers) (L T N : list loc) (w : gmap loc watched) : Prop :=
  forall x, w !! x = watch_at s L T N x.

(** The clock and the times it is compared with. *)
Definition ts_pos (t : timespec) : Prop := 0 < timespec_cmp t (mk_timespec 0 0).

(** The timer goes off before any deadline has passed. *)
Definition armed (t : timespec) (w : gmap loc watched) : Prop :=
  forall x e d, w !! x = Some e -> w_deadline e = Some d -> ts_le t d /\ ts_pos t.

Lemma same_nodes_entry s s' b : same_nodes s s' ->
  forall y, entry b <$> pnodes s' !! y = entry b <$> pnodes s !! y.
Proof.
  intros H y. specialize (H y).
  destruct (pnodes s' !! y) as [n'|], (pnodes s !! y) as [n|]; cbn in *; simplify_eq; [|done..].
  unfold set_in_rbtree in *. destruct n, n'; cbn in *. by simplify_eq.
Qed.

Lemma watch_at_same s s' L T N : same_nodes s s' -> forall y, watch_at s' L T N y = watch_at s L T N y.
Proof. intros H y. unfold watch_at. by rewrite !(same_nodes_entry s s'). Qed.

Lemma watch_at_perm s L T N L' T' N' y :
  L ++ T ≡ₚ L' ++ T' -> N ≡ₚ N' -> watch_at s L T N y = watch_at s L' T' N' y.
Proof.
  intros H1 H2. unfold watch_at. repeat case_decide; try done; exfalso; rewrite ?H1, ?H2 in *; done.
Qed.

Lemma watch_at_in s L T N w y : tq s L T N -> watching s L T N w -> is_Some (w !! y) <-> y ∈ L ++ T ++ N.
Proof.
  intros Q W. rewrite (W y). unfold watch_at. split.
  - case_decide as D1; [intros _; set_solver|]. case_decide; [set_solver|]. by intros [? ?].
  - intros Hy.
    assert (is_Some (pnodes s !! y)) as [n En].
    { rewrite !elem_of_app in Hy. destruct Hy as [Hy|[Hy|Hy]].
      - destruct (tq_in_list _ _ _ _ Q y) as (n & ? & _); [set_solver|]. eauto.
      - destruct (tq_in_tree _ _ _ _ Q y Hy) as (n & ? & _). eauto.
      - destruct (tq_in_list _ _ _ _ Q y) as (n & ? & _); [set_solver|]. eauto. }
    rewrite En. case_decide; [cbn; eauto|]. rewrite decide_True; [cbn; eauto|]. set_solver.
Qed.

Lemma watch_at_None s L T N x : (x ∉ L ++ T ++ N) -> watch_at s L T N x = None.
Proof. intros H. unfold watch_at. rewrite !decide_False; [done| |]; set_solver. Qed.

(** Adding a node to the sequences, and taking one out of them. *)
Lemma watching_add s s' L T N L' T' N' w x n (b : bool) :
  watching s L T N w -> same_nodes s s' -> pnodes s !! x = Some n -> (x ∉ L ++ T ++ N) ->
  (if b then L' ++ T' ≡ₚ x :: L ++ T /\ N' ≡ₚ N else L' ++ T' ≡ₚ L ++ T /\ N' ≡ₚ x :: N) ->
  watching s' L' T' N' (<[x := entry b n]> w).
Proof.
  intros W Sn En Hx P y. rewrite (watch_at_same s) by done. destruct (decide (y = x)) as [->|Hy].
  - rewrite lookup_insert_eq. unfold watch_at. rewrite En. destruct b, P as [P1 P2].
    + rewrite decide_True; [done|]. rewrite P1. set_solver.
    + rewrite decide_False by (rewrite P1; set_solver). rewrite decide_True; [done|]. rewrite P2. set_solver.
  - rewrite lookup_insert_ne, W by done. unfold watch_at. destruct b, P as [P1 P2].
    + repeat case_decide; rewrite ?P1, ?P2 in *; try done; set_solver.
    + repeat case_decide; rewrite ?P1, ?P2 in *; try done; set_solver.
Qed.

Lemma watching_remove s s' L T N L' T' N' w x :
  tq s L T N -> watching s L T N w -> same_nodes s s' ->
  ((x :: L' ++ T' ≡ₚ L ++ T /\ N' = N) \/ (L' = L /\ T' = T /\ x :: N' ≡ₚ N)) ->
  watching s' L' T' N' (delete x w).
Proof.
  intros Q W Sn P y. rewrite (watch_at_same s) by done.
  pose proof (tq_apart _ _ _ _ Q) as Hd. rewrite (app_assoc L T) in Hd.
  apply NoDup_app_inv in Hd as (_ & Hd & _).
  destruct (decide (y = x)) as [->|Hy].
  - rewrite lookup_delete_eq. symmetry. apply watch_at_None. rewrite app_assoc. intros Hx.
    destruct P as [(P1 & ->)|(-> & -> & P2)].
    + rewrite <- P1 in Hd. cbn [app] in Hd. by apply list.NoDup_cons in Hd as [Hd _].
    + rewrite <- P2 in Hd. apply NoDup_middle_iff in Hd as (H1 & H2 & _). set_solver.
  - rewrite lookup_delete_ne, W by done. unfold watch_at. destruct P as [(P1 & ->)|(-> & -> & P2)].
    + repeat case_decide; rewrite <- ?P1 in *; try done; set_solver.
    + repeat case_decide; rewrite <- ?P2 in *; try done; set_solver.
Qed.

Lemma armed_delete t w x : armed t w -> armed t (delete x w).
Proof. intros A y e d Hy. apply lookup_delete_Some in Hy as [_ Hy]. by eapply A. Qed.

Lemma insert_timeout_ok s L T N w x n t :
  tq s L T N -> watching s L T N w -> armed (timerfd s) w ->
  (x ∉ HEADS ++ L ++ T ++ N) -> pnodes s !! x = Some n -> in_rbtree n = false ->
  (0 <= t -> ts_pos (timeout n)) ->
  exists s' L' T' N', insert_timeout t x s = Some s' /\ tq s' L' T' N' /\ same_nodes s s' /\
    L' ++ T' ++ N' ≡ₚ x :: L ++ T ++ N /\
    watching s' L' T' N' (<[x := entry (0 <=? t) n]> w) /\
    armed (timerfd s') (<[x := entry (0 <=? t) n]> w).
Proof.
  intros Q W A Hx En Eb Hp. unfold insert_timeout.
  assert (Hx' : x ∉ L ++ T ++ N) by set_solver.
  assert (Ed : deadline s x = timeout n) by (unfold deadline; by rewrite En).
  destruct (Z.leb_spec 0 t) as [Ht|Ht].
  - destruct (insert_node_ok s L T N x n Q Hx En Eb) as (s' & L' & T' & E & Q' & P & Sn & Ar).
    exists s', L', T', N. split_and!; [done|done|done| | |].
    + rewrite app_assoc, P. cbn. by rewrite <- app_assoc.
    + eapply (watching_add s); [done..|]. by split.
    + intros y e d Hy Hd. rewrite lookup_insert_Some in Hy.
      destruct Ar as [[Et Lt]|[Et (z & Hz & Hle)]]; rewrite Et.
      * rewrite Ed in *. split; [|by apply Hp]. destruct Hy as [[<- <-]|[Hyx Hy]]; cbn in Hd; [simplify_eq; apply ts_le_refl|].
        rewrite W in Hy. unfold watch_at in Hy. case_decide as D.
        -- apply fmap_Some in Hy as (m & Em & ->). cbn in Hd. simplify_eq. specialize (Lt y D).
           unfold deadline in Lt. rewrite Em in Lt. by apply ts_lt_le.
        -- case_decide; [|done]. apply fmap_Some in Hy as (m & Em & ->). done.
      * assert (Hz' : is_Some (w !! z)) by (apply (watch_at_in s L T N w z Q W); set_solver).
        destruct Hz' as [ez Hz']. pose proof Hz' as Hw. rewrite W in Hz'. unfold watch_at in Hz'.
        rewrite decide_True in Hz' by done. apply fmap_Some in Hz' as (m & Em & ->).
        destruct (A z _ (timeout m) Hw eq_refl) as [A1 A2]. split; [|done].
        destruct Hy as [[<- <-]|[Hyx Hy]]; [|by destruct (A y e d Hy Hd)]. cbn in Hd. simplify_eq.
        eapply ts_le_trans; [exact A1|]. unfold deadline in Hle. by rewrite Em, En in Hle.
  - destruct (insert_no_timeout_ok s L T N x n Q Hx En Eb) as (s' & E & Q' & Ep & Et & _).
    assert (P : N ++ [x] ≡ₚ x :: N) by (rewrite Permutation_app_comm; done).
    exists s', L, T, (N ++ [x]). split_and!; [done|done|by apply same_nodes_refl| | |].
    + rewrite P. rewrite (app_assoc L T (x :: N)), <- Permutation_middle. by rewrite <- app_assoc.
    + eapply (watching_add s); [done|by apply same_nodes_refl|done..].
    + rewrite Et. intros y e d Hy Hd. rewrite lookup_insert_Some in Hy. destruct Hy as [[<- <-]|[_ Hy]]; [done|by eapply A].
Qed.

(** The queue depends on these parts of the state only. *)
Lemma tq_frame s s' L T N :
  tq s L T N -> tree_first s' = tree_first s -> tree_last s' = tree_last s ->
  rb_root (timeo_tree s') = rb_root (timeo_tree s) ->
  (forall x, x ∈ T -> mem (timeo_tree s') !! x = mem (timeo_tree s) !! x) ->
  (forall x, x ∈ TIMEO_LIST :: NO_TIMEO_LIST :: L ++ N -> links s' !! x = links s !! x) ->
  (forall x, x ∈ L ++ T ++ N ->
     (fun n => (in_rbtree n, timeout n)) <$> pnodes s' !! x =
     (fun n => (in_rbtree n, timeout n)) <$> pnodes s !! x) ->
  tq s' L T N.
Proof.
  intros Q Ef El Er Fm Fl Fn.
  assert (Ff : forall b x, x ∈ L ++ T ++ N -> flagged s b x -> flagged s' b x).
  { intros b x Hx (n & En & Eb). specialize (Fn x Hx). rewrite En in Fn. cbn in Fn.
    apply fmap_Some in Fn as (n' & En' & E). simplify_eq. by exists n'. }
  assert (Fd : forall x, x ∈ L ++ T ++ N -> deadline s' x = deadline s x).
  { intros x Hx. specialize (Fn x Hx). unfold deadline.
    destruct (pnodes s' !! x), (pnodes s !! x); cbn in Fn; by simplify_eq. }
  destruct Q as [QL QN QT Qf Ql Qa Qt Qi QsL QsT]. constructor; try congruence.
  - eapply ListHead.is_list_frame; [done|]. intros q Hq. apply Fl. clear -Hq. set_solver.
  - eapply ListHead.is_list_frame; [done|]. intros q Hq. apply Fl. clear -Hq. set_solver.
  - by eapply rb_holds_frame.
  - intros x Hx. apply Ff; [set_solver|]. by apply Qt.
  - intros x Hx. apply Ff; [set_solver|]. by apply Qi.
  - apply (sorted_deadline s); [|done]. intros y Hy. apply Fd. set_solver.
  - apply (sorted_deadline s); [|done]. intros y Hy. apply Fd. set_solver.
Qed.

Lemma watching_frame s s' L T N w :
  watching s L T N w ->
  (forall x b, x ∈ L ++ T ++ N -> entry b <$> pnodes s' !! x = entry b <$> pnodes s !! x) ->
  watching s' L T N w.
Proof.
  intros W F x. rewrite W. unfold watch_at. repeat case_decide; [..|done]; symmetry; apply F; set_solver.
Qed.

(** ** The local list of the expired nodes *)

Lemma local_list_ok s L T N : tq s L T N ->
  tq (local_list s) L T N /\ ListHead.is_list (links (local_list s)) LOCAL_LIST [].
Proof.
  intros Q. pose proof (tq_parts _ _ _ _ Q) as (_ & _ & _ & _ & _ & _ & HH). split.
  - eapply tq_frame; [exact Q|done..| |done]. intros x Hx. cbn. apply lookup_insert_ne. intros <-.
    rewrite !elem_of_cons in Hx. destruct Hx as [E|[E|Hx]]; [discriminate E..|].
    eapply (HH LOCAL_LIST); [unfold HEADS; set_solver|]. clear -Hx. set_solver.
  - split; [by apply NoDup_singleton|]. cbn. split; [|done].
    unfold ListHead.edge, ListHead.get_next, ListHead.get_prev. by rewrite lookup_insert_eq.
Qed.

Lemma head_apart s L T N Q q head : tq s L T N -> ListHead.is_list (links s) LOCAL_LIST Q ->
  (forall q, q ∈ Q -> (q ∉ HEADS) /\ (q ∉ L ++ T ++ N)) -> (head = TIMEO_LIST \/ head = NO_TIMEO_LIST) ->
  q ∈ head :: L ++ N -> q ∈ LOCAL_LIST :: Q -> False.
Proof.
  intros Qt _ HQ Hhd H1 H2. pose proof (tq_parts _ _ _ _ Qt) as (_ & _ & _ & _ & _ & _ & HH).
  apply elem_of_cons in H1 as [->|H1]; apply elem_of_cons in H2 as [E|H2].
  - subst. destruct Hhd; discriminate.
  - apply HQ in H2 as [H2 _]. apply H2. unfold HEADS. destruct Hhd as [->| ->]; set_solver.
  - subst. eapply (HH LOCAL_LIST); [unfold HEADS; set_solver|]. clear -H1. set_solver.
  - apply HQ in H2 as [_ H2]. apply H2. clear -H1. set_solver.
Qed.

(** The first node of [timeo_list] moves to the local list. *)
Lemma move_local_ok s x L T N Q :
  tq s (x :: L) T N -> ListHead.is_list (links s) LOCAL_LIST Q ->
  (forall q, q ∈ Q -> (q ∉ HEADS) /\ (q ∉ (x :: L) ++ T ++ N)) ->
  exists s', on_links (ListHead.list_move_tail x LOCAL_LIST) s = Some s' /\ tq s' L T N /\
    ListHead.is_list (links s') LOCAL_LIST (Q ++ [x]) /\ list_step s s'.
Proof.
  intros Qt HQ Hd. pose proof (tq_parts _ _ _ _ Qt) as (HdL & _ & _ & _ & HLN & _ & HH).
  destruct (ListHead.list_move_tail_apart (links s) TIMEO_LIST [] x L LOCAL_LIST Q) as (h & E & HL & HQ' & F);
    [apply Qt|done| |].
  { intros q H1 H2. eapply (head_apart s _ _ _ Q q TIMEO_LIST); [done..|by left| |done]. clear -H1. set_solver. }
  cbn [app] in *. unfold on_links. rewrite E. cbn [mbind option_bind]. eexists. split; [done|]. split; [|done].
  apply (tq_with_links _ (x :: L) T N); [done|done| | | |].
  - eapply ListHead.is_list_frame; [apply Qt|]. intros q Hq. apply F.
    + intros Hc. eapply (tq_disjoint _ _ _ _ Qt q); [|exact Hq]. clear -Hc. set_solver.
    + intros [->|Hc]%elem_of_cons.
      * apply (tq_disjoint _ _ _ _ Qt x); [set_solver|done].
      * eapply (head_apart s _ _ _ Q q NO_TIMEO_LIST); [done..|by right| |exact Hc]. clear -Hq. set_solver.
  - pose proof (tq_apart _ _ _ _ Qt) as Ha. cbn [app] in Ha. by apply NoDup_middle_iff in Ha as (_ & _ & Ha).
  - intros y Hy. apply (tq_in_list _ _ _ _ Qt). cbn. by right.
  - pose proof (tq_sorted_list _ _ _ _ Qt) as Hs. by apply StronglySorted_cons in Hs as [_ Hs].
Qed.

(** The first node of the tree does. *)
Lemma take_first_ok s x L T N Q :
  tq s L (x :: T) N -> ListHead.is_list (links s) LOCAL_LIST Q ->
  (forall q, q ∈ Q -> (q ∉ HEADS) /\ (q ∉ L ++ (x :: T) ++ N)) ->
  exists s', take_first x s = Some s' /\ tq s' L T N /\
    ListHead.is_list (links s') LOCAL_LIST (Q ++ [x]) /\ pnodes s' = pnodes s /\ timerfd s' = timerfd s.
Proof.
  intros Qt HQ Hd. pose proof (tq_parts _ _ _ _ Qt) as (_ & HdT & _ & HLT & _ & HTN & HH).
  pose proof Qt as [QL QN QT Qf Ql Qa Qtr Qi QsL QsT].
  unfold take_first. destruct (next_holds (timeo_tree s) (tree_fuel s) x [] T QT) as [-> _]; [by apply tree_fuel_ok|].
  cbn [mbind option_bind].
  destruct (erase_holds (timeo_tree s) (tree_fuel s) x [] T QT) as (t' & Ee & Ht'); [by apply tree_fuel_ok|]. cbn [app] in Ht'.
  unfold on_tree at 1. change (timeo_tree (with_first (head T) s)) with (timeo_tree s).
  change (tree_fuel (with_first (head T) s)) with (tree_fuel s). rewrite Ee. cbn [mbind option_bind].
  set (s1 := as_list x _).
  assert (Hx : x ∉ HEADS ++ L ++ N).
  { pose proof Qa as Ha. cbn [app] in Ha. rewrite (app_assoc HEADS L) in Ha. apply NoDup_middle_iff in Ha as (H1 & H2 & _).
    clear -H1 H2. set_solver. }
  assert (HxT : x ∉ T) by (by apply list.NoDup_cons in HdT as [? _]).
  assert (F1 : forall q, q <> x -> links s1 !! q = links s !! q).
  { intros q Hq. subst s1. cbn. destruct (links s !! x) eqn:E; [done|by rewrite lookup_insert_ne]. }
  assert (A1 : is_Some (links s1 !! x)).
  { subst s1. cbn. destruct (links s !! x) eqn:E; [rewrite E; eauto|rewrite lookup_insert_eq; eauto]. }
  destruct (ListHead.list_add_tail_spec (links s1) LOCAL_LIST Q [] LOCAL_LIST [] x) as (h & E & HQ' & F).
  { rewrite app_nil_r. eapply ListHead.is_list_frame; [exact HQ|]. intros q Hq. apply F1. intros ->.
    apply elem_of_cons in Hq as [->|Hq]; [apply Hx; unfold HEADS; set_solver|]. apply Hd in Hq as [_ Hq]. apply Hq. set_solver. }
  { done. }
  { rewrite app_nil_r. intros [->|Hq]%elem_of_cons; [apply Hx; unfold HEADS; set_solver|]. apply Hd in Hq as [_ Hq]. apply Hq. set_solver. }
  { done. }
  rewrite app_nil_r in F. unfold on_links. rewrite E. cbn [mbind option_bind].
  assert (F2 : forall q hd, hd = TIMEO_LIST \/ hd = NO_TIMEO_LIST -> q ∈ hd :: L ++ N -> h !! q = links s !! q).
  { intros q hd Hhd Hq.
    assert (Hqx : q <> x).
    { intros ->. apply Hx. apply elem_of_cons in Hq as [->|Hq]; [|clear -Hq; set_solver]. unfold HEADS. destruct Hhd as [->| ->]; set_solver. }
    rewrite F, F1; [done|done|]. intros [->|Hc]%elem_of_cons; [done|].
    by eapply (head_apart s L (x :: T) N Q q hd). }
  set (s2 := with_links h s1).
  exists (mk_timers (timeo_tree s2) (head T) (last T) h (pnodes s) (timerfd s)). split.
  { change (tree_first s2) with (head T). subst s2 s1. cbn. destruct T as [|y T]; [done|]. cbn [head].
    unfold with_links, as_list, with_tree, with_first. cbn. do 2 f_equal. rewrite Ql. done. }
  split; [|done]. constructor; cbn; try done.
  - eapply ListHead.is_list_frame; [exact QL|]. intros q Hq. apply (F2 q TIMEO_LIST); [by left|]. clear -Hq. set_solver.
  - eapply ListHead.is_list_frame; [exact QN|]. intros q Hq. apply (F2 q NO_TIMEO_LIST); [by right|]. clear -Hq. set_solver.
  - eapply rb_holds_frame; [exact Ht'|done|]. intros q Hq. cbn. rewrite lookup_delete_ne; [done|]. by intros ->.
  - cbn [app] in Qa. rewrite (app_assoc HEADS L) in Qa |- *. by apply NoDup_middle_iff in Qa as (_ & _ & Qa).
  - intros y Hy. apply Qtr. by right.
  - by apply StronglySorted_cons in QsT as [_ QsT].
Qed.

(** ** Emptying the queue: [poller_stop] *)

(** The lists and the tree, without their ends. *)
Record bare (s : timers) (L T N Q : list loc) : Prop := mk_bare {
  br_timeo : ListHead.is_list (links s) TIMEO_LIST L;
  br_no : ListHead.is_list (links s) NO_TIMEO_LIST N;
  br_local : ListHead.is_list (links s) LOCAL_LIST Q;
  br_tree : rb_holds (timeo_tree s) T;
  br_apart : NoDup (HEADS ++ L ++ T ++ N ++ Q) }.

Lemma bare_apart s L T N Q : bare s L T N Q ->
  ListHead.apart TIMEO_LIST L LOCAL_LIST Q /\ ListHead.apart NO_TIMEO_LIST N LOCAL_LIST Q /\
  ListHead.apart TIMEO_LIST L NO_TIMEO_LIST N.
Proof.
  intros [_ _ _ _ Hd]. apply NoDup_app_inv in Hd as (_ & Hd & Hh). apply NoDup_app_inv in Hd as (_ & Hd & HL).
  apply NoDup_app_inv in Hd as (_ & Hd & _). apply NoDup_app_inv in Hd as (_ & _ & HN).
  assert (D : forall h1 h2 (l1 l2 : list loc), h1 ∈ HEADS -> h2 ∈ HEADS -> h1 <> h2 -> l1 ⊆ L ++ T ++ N ++ Q -> l2 ⊆ L ++ T ++ N ++ Q ->
     (forall q, q ∈ l1 -> q ∈ l2 -> False) -> ListHead.apart h1 l1 h2 l2).
  { intros h1 h2 l1 l2 H1 H2 Hne S1 S2 Hl q [->|Hq1]%elem_of_cons [E|Hq2]%elem_of_cons.
    - done.
    - eapply Hh; [exact H1|by apply S2].
    - subst. eapply Hh; [exact H2|by apply S1].
    - by eapply Hl. }
  split_and!; apply D; try done; try (unfold HEADS; set_solver); try set_solver.
Qed.

Lemma drain_step s L T1 x T2 N Q t' :
  bare s L (T1 ++ x :: T2) N Q -> rb_holds t' (T1 ++ T2) ->
  exists s', on_links (ListHead.list_add x LOCAL_LIST) (as_list x (with_tree t' s)) = Some s' /\
    bare s' L (T1 ++ T2) N (x :: Q) /\ pnodes s' = pnodes s /\ tree_first s' = tree_first s /\
    tree_last s' = tree_last s /\ timerfd s' = timerfd s.
Proof.
  intros B Ht. destruct (bare_apart _ _ _ _ _ B) as (A1 & A2 & _). destruct B as [BL BN BQ BT Bd].
  rewrite <- (Permutation_middle T1 T2 x) in Bd. cbn [app] in Bd. rewrite (app_assoc HEADS L) in Bd.
  apply NoDup_middle_iff in Bd as (Hx1 & Hx2 & Bd).
  set (s1 := as_list x (with_tree t' s)).
  assert (F1 : forall q, q <> x -> links s1 !! q = links s !! q).
  { intros q Hq. subst s1. cbn. destruct (links s !! x) eqn:E; [done|by rewrite lookup_insert_ne]. }
  assert (Av : is_Some (links s1 !! x)).
  { subst s1. cbn. destruct (links s !! x) eqn:E; [rewrite E; eauto|rewrite lookup_insert_eq; eauto]. }
  assert (Hh : forall h l, h ∈ HEADS -> (x ∉ l) -> ListHead.is_list (links s) h l -> ListHead.is_list (links s1) h l).
  { intros h l Hh Hl Hi. eapply ListHead.is_list_frame; [exact Hi|]. intros q Hq. apply F1. intros ->.
    apply elem_of_cons in Hq as [->|Hq]; [|done]. apply Hx1. set_solver. }
  destruct (ListHead.list_add_spec (links s1) LOCAL_LIST [] Q [] LOCAL_LIST x) as (h & E & HQ & F).
  { apply Hh; [unfold HEADS; set_solver|set_solver|done]. } { done. }
  { intros [->|Hq]%elem_of_cons; [apply Hx1; unfold HEADS; set_solver|set_solver]. } { done. }
  unfold on_links. rewrite E. cbn [mbind option_bind app] in *. eexists. split; [done|]. split; [|done].
  constructor; cbn.
  - eapply ListHead.is_list_frame; [apply (Hh TIMEO_LIST L); [unfold HEADS; set_solver|set_solver|done]|].
    intros q Hq. apply F. intros [->|Hc]%elem_of_cons; [|by eapply A1].
    apply elem_of_cons in Hq as [->|Hq]; [apply Hx1; unfold HEADS; set_solver|set_solver].
  - eapply ListHead.is_list_frame; [apply (Hh NO_TIMEO_LIST N); [unfold HEADS; set_solver|set_solver|done]|].
    intros q Hq. apply F. intros [->|Hc]%elem_of_cons; [|by eapply A2].
    apply elem_of_cons in Hq as [->|Hq]; [apply Hx1; unfold HEADS; set_solver|set_solver].
  - exact HQ.
  - eapply rb_holds_frame; [exact Ht|done|]. intros q Hq. cbn. rewrite lookup_delete_ne; [done|]. intros ->. set_solver.
  - rewrite !(app_assoc _ _ (x :: Q)). rewrite !app_assoc. apply NoDup_middle_iff. rewrite <- !app_assoc in *.
    split_and!; [set_solver|set_solver|done].
Qed.

Lemma drain_ok fuel : forall s L T N Q,
  bare s L T N Q -> (length T < fuel)%nat ->
  exists s' Q', drain_tree fuel s = Some s' /\ bare s' L [] N Q' /\ Q' ≡ₚ T ++ Q /\ pnodes s' = pnodes s /\
    tree_first s' = tree_first s /\ tree_last s' = tree_last s /\ timerfd s' = timerfd s.
Proof.
  induction fuel as [|fuel IH]; intros s L T N Q B Hf; [lia|]. cbn [drain_tree].
  destruct (rb_root (timeo_tree s)) as [x|] eqn:Er.
  2:{ apply (rb_holds_root _ _ (br_tree _ _ _ _ _ B)) in Er as ->. exists s, Q. by split_and!. }
  assert (exists T1 T2, T = T1 ++ x :: T2) as (T1 & T2 & ->).
  { destruct (br_tree _ _ _ _ _ B) as (t & (_ & _ & Hroot) & _ & <-). rewrite Er in Hroot.
    destruct t as [|c a y b]; cbn in *; simplify_eq. eauto. }
  destruct (erase_holds (timeo_tree s) (tree_fuel s) x T1 T2 (br_tree _ _ _ _ _ B)) as (t' & Ee & Ht');
    [apply tree_fuel_ok, B|].
  unfold on_tree. rewrite Ee. cbn [mbind option_bind].
  destruct (drain_step s L T1 x T2 N Q t' B Ht') as (s1 & -> & B1 & E1 & E2 & E3 & E4). cbn [mbind option_bind].
  rewrite length_app in Hf. cbn in Hf.
  destruct (IH s1 L (T1 ++ T2) N (x :: Q) B1) as (s' & Q' & E & B' & P & G1 & G2 & G3 & G4); [rewrite length_app; lia|].
  exists s', Q'. split_and!; [done|done| |congruence..].
  rewrite P, <- (Permutation_middle T1 T2 x). by rewrite <- Permutation_middle.
Qed.

Lemma splice_ok s L N Q :
  bare s L [] N Q ->
  exists s1 s2, on_links (ListHead.list_splice_init TIMEO_LIST LOCAL_LIST) s = Some s1 /\
    on_links (ListHead.list_splice_init NO_TIMEO_LIST LOCAL_LIST) s1 = Some s2 /\
    bare s2 [] [] [] (N ++ L ++ Q) /\ list_step s s2 /\ tree_last s2 = tree_last s.
Proof.
  intros B. destruct (bare_apart _ _ _ _ _ B) as (A1 & A2 & A3). destruct B as [BL BN BQ BT Bd]. cbn [app] in Bd.
  destruct (ListHead.list_splice_init_spec (links s) TIMEO_LIST L LOCAL_LIST Q BL BQ A1) as (h1 & E1 & L1 & Q1 & F1).
  assert (N1 : ListHead.is_list h1 NO_TIMEO_LIST N).
  { eapply ListHead.is_list_frame; [exact BN|]. intros q Hq. apply F1; intros Hc; [by eapply A3|by eapply A2]. }
  assert (A4 : ListHead.apart NO_TIMEO_LIST N LOCAL_LIST (L ++ Q)).
  { intros q Hq [->|[Hc|Hc]%elem_of_app]%elem_of_cons; [by eapply (A2 LOCAL_LIST); [|by left]| |].
    - by eapply (A3 q); [right|].
    - by eapply (A2 q); [|right]. }
  destruct (ListHead.list_splice_init_spec h1 NO_TIMEO_LIST N LOCAL_LIST (L ++ Q) N1 Q1 A4) as (h2 & E2 & N2 & Q2 & F2).
  exists (with_links h1 s), (with_links h2 s). unfold on_links. rewrite E1. cbn [mbind option_bind links with_links]. rewrite E2.
  split_and!; [done|done| |done|done]. constructor; cbn; try done.
  - eapply ListHead.is_list_frame; [exact L1|]. intros q ->%list_elem_of_singleton. apply F2.
    + intros Hc. eapply (A3 TIMEO_LIST); [by left|done].
    + intros [E|[Hc|Hc]%elem_of_app]%elem_of_cons; [done| |].
      * destruct BL as [Hn _]. by apply list.NoDup_cons in Hn as [Hn _].
      * by eapply (A1 TIMEO_LIST); [left|right].
  - rewrite (Permutation_app_swap_app N L). exact Bd.
Qed.
