(* ===== verification/Poller.v ===== *)
(** * The poller of [src/kernel/poller.c]: registration, timers, shutdown

    The poller watches file descriptors and timers.  [nodes] maps a descriptor to
    its node, the epoll set [pfd] holds the same association, and the timer queue
    ([PollerTimer]) the deadlines.  A node that is deleted or replaced while the
    poller runs is not freed: it is marked [removed] and sent through a pipe to
    the poller thread, which alone may still hold a pointer to it.

    Memory is explicit.  A node is allocated as long as it is in [pnodes]; giving
    it to the callback, which frees it, and [free] remove it, and any later access
    to it is undefined ([None]).  The answers of the system are arguments: the
    clock, [malloc] ([None]: it failed), [epoll_ctl] ([Some e]: it failed with
    [errno] [e]).  Every function is the source's, its lock included when it is
    one critical section. *)

From S2P Require Import Prelude ListHead RBTree RBInsert RBErase RBSearch PollerTimer.

Local Open Scope Z_scope.

Definition ENOENT : Z := 2.
Definition EBADF : Z := 9.
Definition ENOMEM : Z := 12.
Definition EEXIST : Z := 17.
Definition EINVAL : Z := 22.
Definition EMFILE : Z := 24.
Definition ETIMEDOUT : Z := 110.

Definition EPOLLIN : Z := 1.
Definition EPOLLOUT : Z := 4.
Definition EPOLLET : Z := 2 ^ 31.

(** [struct __poller]: the fields for the timers are [tmr]; [pfd] is the epoll set
    (descriptor to events and [data.ptr]), [pipe_buf] what has been written to
    [pipe_wr] and not read, [results] the calls of [callback], oldest first: the
    node and its contents. *)
Record poller := mk_poller {
  max_open_files : Z;
  stopped : bool;
  tmr : timers;
  nodes : list ptr;
  pfd : gmap Z (Z * loc);
  pipe_buf : list ptr;
  results : list (loc * poller_node) }.

Definition with_tmr (t : timers) (p : poller) : poller :=
  mk_poller (max_open_files p) (stopped p) t (nodes p) (pfd p) (pipe_buf p) (results p).
Definition with_nodes (l : list ptr) (p : poller) : poller :=
  mk_poller (max_open_files p) (stopped p) (tmr p) l (pfd p) (pipe_buf p) (results p).
Definition with_pfd (m : gmap Z (Z * loc)) (p : poller) : poller :=
  mk_poller (max_open_files p) (stopped p) (tmr p) (nodes p) m (pipe_buf p) (results p).
Definition with_pipe (l : list ptr) (p : poller) : poller :=
  mk_poller (max_open_files p) (stopped p) (tmr p) (nodes p) (pfd p) l (results p).
Definition with_results (l : list (loc * poller_node)) (p : poller) : poller :=
  mk_poller (max_open_files p) (stopped p) (tmr p) (nodes p) (pfd p) (pipe_buf p) l.
Definition with_stopped (b : bool) (p : poller) : poller :=
  mk_poller (max_open_files p) b (tmr p) (nodes p) (pfd p) (pipe_buf p) (results p).

Definition on_tmr (f : timers -> option timers) (p : poller) : option poller :=
  t ← f (tmr p); Some (with_tmr t p).
Definition node_at (x : loc) (p : poller) : option poller_node := pnodes (tmr p) !! x.

(** [poller->nodes[fd]]: an access outside the array is undefined. *)
Definition get_slot (fd : Z) (p : poller) : option ptr :=
  if 0 <=? fd then nodes p !! Z.to_nat fd else None.
Definition set_slot (fd : Z) (v : ptr) (p : poller) : option poller :=
  _ ← get_slot fd p; Some (with_nodes (<[Z.to_nat fd := v]> (nodes p)) p).

(** ** The system *)

Definition __poller_add_fd (fd event : Z) (data : loc) (p : poller) : poller :=
  with_pfd (<[fd := (event, data)]> (pfd p)) p.
Definition __poller_del_fd (fd : Z) (p : poller) : poller := with_pfd (delete fd (pfd p)) p.
Definition __poller_mod_fd (fd event : Z) (data : loc) (p : poller) : poller :=
  with_pfd (<[fd := (event, data)]> (pfd p)) p.
Definition pipe_write (v : ptr) (p : poller) : poller := with_pipe (pipe_buf p ++ [v]) p.

(** Releasing the memory of a node, its links included. *)
Definition release (x : loc) (s : timers) : timers :=
  mk_timers (mk_state (delete x (mem (timeo_tree s))) (rb_root (timeo_tree s)))
    (tree_first s) (tree_last s) (delete x (links s)) (delete x (pnodes s)) (timerfd s).
Definition free_node (x : ptr) (p : poller) : option poller :=
  match x with
  | None => Some p
  | Some x => _ ← node_at x p; Some (with_tmr (release x (tmr p)) p)
  end.
(** [poller->callback((struct poller_result * )node, poller->context)]: the node
    belongs to the callback from now on. *)
Definition call_back (x : loc) (p : poller) : option poller :=
  n ← node_at x p;
  Some (with_results (results p ++ [(x, n)]) (with_tmr (release x (tmr p)) p)).

(** [node->error = err; node->state = st;] *)
Definition set_result (x : loc) (st err : Z) (p : poller) : option poller :=
  on_tmr (upd_node x (set_outcome st err)) p.

(** [node->state = st; node->error = err; free(node->res); callback(node);] *)
Definition finish (x : loc) (st err : Z) (p : poller) : option poller :=
  p ← set_result x st err p;
  n ← node_at x p;
  p ← free_node (res n) p;
  call_back x p.

(** ** Nodes *)

(** [__poller_data_get_event]: the events and whether a result node is needed;
    [None] is the error EINVAL. *)
Definition __poller_data_get_event (d : poller_data) : option (Z * bool) :=
  if operation d =? PD_OP_READ then Some (Z.lor EPOLLIN EPOLLET, negb (message d =? 0))
  else if operation d =? PD_OP_WRITE then Some (Z.lor EPOLLOUT EPOLLET, false)
  else if operation d =? PD_OP_LISTEN then Some (EPOLLIN, true)
  else if operation d =? PD_OP_CONNECT then Some (Z.lor EPOLLOUT EPOLLET, false)
  else if operation d =? PD_OP_RECVFROM then Some (Z.lor EPOLLIN EPOLLET, true)
  else if operation d =? PD_OP_EVENT then Some (Z.lor EPOLLIN EPOLLET, true)
  else if operation d =? PD_OP_NOTIFY then Some (Z.lor EPOLLIN EPOLLET, true)
  else None.

(** What the system answers to a call: the two results of [malloc] (the node's
    contents are then arbitrary), the time, and the error of [epoll_ctl]. *)
Record answers := mk_answers {
  malloc_res : ptr;
  malloc_node : ptr;
  junk : poller_node;
  now : timespec;
  ctl : option Z }.

Definition set_pnode (x : loc) (n : poller_node) (p : poller) : poller :=
  with_tmr (with_pnodes (<[x := n]> (pnodes (tmr p))) (tmr p)) p.

(** [(size_t)fd >= poller->max_open_files] and the [errno] it gives. *)
Definition bad_fd (fd : Z) (p : poller) : option Z :=
  if max_open_files p <=? u64 fd then Some (if fd <? 0 then EBADF else EMFILE) else None.

(** The outcome of a call: [inl errno] is NULL or -1. *)
Definition __poller_new_node (d : poller_data) (timeo : Z) (a : answers) (p : poller)
    : (Z + loc) * poller :=
  match bad_fd (fd d) p with
  | Some e => (inl e, p)
  | None =>
  match __poller_data_get_event d with
  | None => (inl EINVAL, p)
  | Some (event, need_res) =>
  if need_res && bool_decide (malloc_res a = None) then (inl ENOMEM, p) else
  let res := if (need_res : bool) then malloc_res a else None in
  let p := match res with Some r => set_pnode r (junk a) p | None => p end in
  match malloc_node a with
  | None => (inl ENOMEM, p)
  | Some x =>
      let t := if 0 <=? timeo then __poller_node_set_timeout (now a) timeo else timeout (junk a) in
      (inr x, set_pnode x (mk_node (pn_state (junk a)) (pn_error (junk a)) d false false event t res) p)
  end end end.

(** [free(node->res); free(node); return -1;] *)
Definition discard (x : loc) (e : Z) (p : poller) : option (option Z * poller) :=
  n ← node_at x p;
  p ← free_node (res n) p;
  p ← free_node (Some x) p;
  Some (Some e, p).

(** The API returns [None] for 0 and [Some errno] for -1. *)
Definition poller_add (d : poller_data) (timeo : Z) (a : answers) (p : poller)
    : option (option Z * poller) :=
  match __poller_new_node d timeo a p with
  | (inl e, p) => Some (Some e, p)
  | (inr x, p) =>
      cur ← get_slot (fd d) p;
      match cur with
      | Some _ => discard x EEXIST p
      | None =>
          match ctl a with
          | Some e => discard x e p
          | None =>
              n ← node_at x p;
              let p := __poller_add_fd (fd d) (pn_event n) x p in
              p ← on_tmr (insert_timeout timeo x) p;
              p ← set_slot (fd d) (Some x) p;
              Some (None, p)
          end
      end
  end.

(** The statements that take a node out of service, common to [poller_del] and
    [poller_mod]: its result, and the pipe unless the poller is stopped. *)
Definition retire (x : loc) (st : Z) (p : poller) : option poller :=
  p ← set_result x st 0 p;
  if stopped p then Some p
  else p ← on_tmr (upd_node x set_removed) p; Some (pipe_write (Some x) p).

(** [if (stopped) { free(node->res); callback(node); }] *)
Definition deliver_if (b : bool) (x : loc) (p : poller) : option poller :=
  if b then n ← node_at x p; p ← free_node (res n) p; call_back x p else Some p.

Definition poller_del (fd : Z) (p : poller) : option (option Z * poller) :=
  match bad_fd fd p with
  | Some e => Some (Some e, p)
  | None =>
      cur ← get_slot fd p;
      match cur with
      | None => Some (Some ENOENT, p)
      | Some x =>
          p ← set_slot fd None p;
          p ← on_tmr (detach x) p;
          let p := __poller_del_fd fd p in
          p ← retire x PR_ST_DELETED p;
          p ← deliver_if (stopped p) x p;
          Some (None, p)
      end
  end.

Definition poller_mod (d : poller_data) (timeo : Z) (a : answers) (p : poller)
    : option (option Z * poller) :=
  match __poller_new_node d timeo a p with
  | (inl e, p) => Some (Some e, p)
  | (inr x, p) =>
      cur ← get_slot (fd d) p;
      match cur with
      | None => discard x ENOENT p
      | Some orig =>
          match ctl a with
          | Some e => discard x e p
          | None =>
              n ← node_at x p;
              let p := __poller_mod_fd (fd d) (pn_event n) x p in
              p ← on_tmr (detach orig) p;
              p ← retire orig PR_ST_MODIFIED p;
              p ← on_tmr (insert_timeout timeo x) p;
              p ← set_slot (fd d) (Some x) p;
              p ← deliver_if (stopped p) orig p;
              Some (None, p)
          end
      end
  end.

Definition poller_set_timeout (fd timeo : Z) (now : timespec) (p : poller)
    : option (option Z * poller) :=
  match bad_fd fd p with
  | Some e => Some (Some e, p)
  | None =>
      cur ← get_slot fd p;
      match cur with
      | None => Some (Some ENOENT, p)
      | Some x =>
          p ← on_tmr (detach x) p;
          p ← (if 0 <=? timeo
               then on_tmr (upd_node x (set_timeout (__poller_node_set_timeout now timeo))) p
               else Some p);
          p ← on_tmr (insert_timeout timeo x) p;
          Some (None, p)
      end
  end.

(** [*timer] is the node. *)
Definition poller_add_timer (value : timespec) (ctx : Z) (a : answers) (p : poller)
    : option (option Z * poller) :=
  match malloc_node a with
  | None => Some (Some ENOMEM, p)
  | Some x =>
      let d := mk_data PD_OP_TIMER 0 (-1) 0 ctx 0 in
      let t := carry (mk_timespec (tv_sec (now a) + tv_sec value) (tv_nsec (now a) + tv_nsec value)) in
      let p := set_pnode x (mk_node (pn_state (junk a)) (pn_error (junk a)) d false false
                              (pn_event (junk a)) t None) p in
      p ← on_tmr (__poller_insert_node x) p;
      Some (None, p)
  end.

Definition poller_del_timer (x : loc) (p : poller) : option (option Z * poller) :=
  n ← node_at x p;
  if removed n then Some (Some ENOENT, p)
  else
    p ← on_tmr (upd_node x set_removed) p;
    p ← on_tmr (detach x) p;
    p ← set_result x PR_ST_DELETED 0 p;
    p ← call_back x p;
    Some (None, p).

(** ** The poller thread *)

(** [removed] and the poller. *)
Definition __poller_remove_node (x : loc) (p : poller) : option (bool * poller) :=
  n ← node_at x p;
  if removed n then Some (true, p)
  else
    p ← set_slot (fd (pn_data n)) None p;
    p ← on_tmr (detach x) p;
    Some (false, __poller_del_fd (fd (pn_data n)) p).

(** [__poller_handle_pipe]: [cnt] pointers are read at once; the result is [stop]. *)
Fixpoint handle_pipe_loop (l : list ptr) (stop : bool) (p : poller) : option (bool * poller) :=
  match l with
  | [] => Some (stop, p)
  | Some x :: l => p ← deliver_if true x p; handle_pipe_loop l stop p
  | None :: l => handle_pipe_loop l true p
  end.
Definition __poller_handle_pipe (cnt : nat) (p : poller) : option (bool * poller) :=
  handle_pipe_loop (take cnt (pipe_buf p)) false (with_pipe (drop cnt (pipe_buf p)) p).

(** The statement of both loops of [__poller_handle_timeout] and of [poller_stop]:
    [if (fd >= 0) { nodes[fd] = NULL; del_fd(fd); } else removed = 1;] *)
Definition unregister (x : loc) (p : poller) : option poller :=
  n ← node_at x p;
  if 0 <=? fd (pn_data n) then
    p ← set_slot (fd (pn_data n)) None p; Some (__poller_del_fd (fd (pn_data n)) p)
  else on_tmr (upd_node x set_removed) p.

(** The loop on [timeo_list], from [pos]. *)
Fixpoint timeout_list_loop (fuel : nat) (now : timespec) (pos : loc) (p : poller) : option poller :=
  match fuel with
  | O => None
  | S fuel =>
      if decide (pos = TIMEO_LIST) then Some p else
      tmp ← ListHead.get_next pos (links (tmr p));
      _ ← node_at pos p;
      if 0 <? timespec_cmp (deadline (tmr p) pos) now then Some p
      else
        p ← unregister pos p;
        p ← on_tmr (on_links (ListHead.list_move_tail pos LOCAL_LIST)) p;
        timeout_list_loop fuel now tmp p
  end.

(** The loop on [tree_first]. *)
Fixpoint timeout_tree_loop (fuel : nat) (now : timespec) (p : poller) : option poller :=
  match fuel with
  | O => None
  | S fuel =>
      match tree_first (tmr p) with
      | None => Some p
      | Some x =>
          _ ← node_at x p;
          if 0 <? timespec_cmp (deadline (tmr p) x) now then Some p
          else
            p ← unregister x p;
            p ← on_tmr (take_first x) p;
            timeout_tree_loop fuel now p
      end
  end.

(** The critical section of [__poller_handle_timeout]. *)
Definition timeout_collect (now : timespec) (p : poller) : option poller :=
  let p := with_tmr (local_list (tmr p)) p in
  pos ← ListHead.get_next TIMEO_LIST (links (tmr p));
  p ← timeout_list_loop (S (size (links (tmr p)))) now pos p;
  timeout_tree_loop (S (size (mem (timeo_tree (tmr p))))) now p.

(** [list_for_each_safe(pos, tmp, head)] with a body. *)
Fixpoint for_each_safe (fuel : nat) (f : loc -> poller -> option poller) (pos tmp head : loc)
    (p : poller) : option poller :=
  match fuel with
  | O => None
  | S fuel =>
      if decide (pos = head) then Some p else
      p ← f pos p;
      n ← ListHead.get_next tmp (links (tmr p));
      for_each_safe fuel f tmp n head p
  end.
Definition each_local (f : loc -> poller -> option poller) (p : poller) : option poller :=
  pos ← ListHead.get_next LOCAL_LIST (links (tmr p));
  tmp ← ListHead.get_next pos (links (tmr p));
  for_each_safe (S (size (links (tmr p)))) f pos tmp LOCAL_LIST p.

(** Its second half: the callbacks. *)
Definition finish_timeout (x : loc) (p : poller) : option poller :=
  n ← node_at x p;
  if 0 <=? fd (pn_data n) then finish x PR_ST_ERROR ETIMEDOUT p
  else finish x PR_ST_FINISHED 0 p.
Definition timeout_deliver (p : poller) : option poller := each_local finish_timeout p.

Definition __poller_handle_timeout (now : timespec) (p : poller) : option poller :=
  p ← timeout_collect now p; timeout_deliver p.

(** ** Shutdown *)

(** [poller_stop] after [pthread_join]. *)
Definition poller_stop (p : poller) : option poller :=
  let p := with_stopped true p in
  '(_, p) ← __poller_handle_pipe (length (pipe_buf p)) p;
  let p := with_tmr (with_last None (with_first None (local_list (tmr p)))) p in
  p ← on_tmr (drain_tree (S (size (mem (timeo_tree (tmr p)))))) p;
  p ← on_tmr (on_links (ListHead.list_splice_init TIMEO_LIST LOCAL_LIST)) p;
  p ← on_tmr (on_links (ListHead.list_splice_init NO_TIMEO_LIST LOCAL_LIST)) p;
  p ← each_local unregister p;
  each_local (fun x p => finish x PR_ST_STOPPED 0 p) p.

(** ** Creation and destruction

    What the system grants: [ok] answers each request of [poller_create] and
    [poller_start].  Their second result lists what is allocated or open. *)

Inductive request :=
  | QCalloc | QMalloc | QEpoll | QTimerfd | QAddTimerfd | QMutex | QPipe | QAddPipe | QThread.
Inductive resource := RNodes | RPoller | RPfd | RTimerfd | RMutex | RPipe_rd | RPipe_wr.

#[export] Instance resource_eq_dec : EqDecision resource.
Proof. solve_decision. Defined.

(** [free], [close] and the like: giving back what is not held is an error. *)
Definition give_back (r : resource) (rs : list resource) : option (list resource) :=
  if decide (r ∈ rs) then Some (filter (fun r' => r' <> r) rs) else None.

Definition INIT_LIST_HEADs : gmap loc ListHead.list_head :=
  <[NO_TIMEO_LIST := ListHead.mk_list_head NO_TIMEO_LIST NO_TIMEO_LIST]>
  {[TIMEO_LIST := ListHead.mk_list_head TIMEO_LIST TIMEO_LIST]}.

(** The fields [__poller_create] sets; [nodes] is zeroed by [calloc]. *)
Definition new_poller (max : Z) : poller :=
  mk_poller max true
    (mk_timers (mk_state ∅ None) None None INIT_LIST_HEADs ∅ (mk_timespec 0 0))
    (repeat None (Z.to_nat max)) ∅ [] [].

Definition __poller_create_timer (ok : request -> bool) (rs : list resource)
    : option (bool * list resource) :=
  if ok QTimerfd then
    let rs := RTimerfd :: rs in
    if ok QAddTimerfd then Some (true, rs)
    else rs ← give_back RTimerfd rs; Some (false, rs)
  else Some (false, rs).

Definition __poller_create (max : Z) (ok : request -> bool) (rs : list resource)
    : option (option poller * list resource) :=
  if ok QMalloc then
    let rs := RPoller :: rs in
    '(r, rs) ←
      (if ok QEpoll then
         let rs := RPfd :: rs in
         '(t, rs) ← __poller_create_timer ok rs;
         '(r, rs) ←
           (if (t : bool) then
              if ok QMutex then Some (Some (new_poller max), RMutex :: rs)
              else rs ← give_back RTimerfd rs; Some (None, rs)
            else Some (None, rs));
         match r with
         | Some p => Some (Some p, rs)
         | None => rs ← give_back RPfd rs; Some (None, rs)
         end
       else Some (None, rs));
    match r with
    | Some p => Some (Some p, rs)
    | None => rs ← give_back RPoller rs; Some (None, rs)
    end
  else Some (None, rs).

Definition poller_create (max : Z) (ok : request -> bool) (rs : list resource)
    : option (option poller * list resource) :=
  if ok QCalloc then
    let rs := RNodes :: rs in
    '(r, rs) ← __poller_create max ok rs;
    match r with
    | Some p => Some (Some p, rs)
    | None => rs ← give_back RNodes rs; Some (None, rs)
    end
  else Some (None, rs).

Definition __poller_destroy (rs : list resource) : option (list resource) :=
  rs ← give_back RMutex rs;
  rs ← give_back RTimerfd rs;
  rs ← give_back RPfd rs;
  give_back RPoller rs.
Definition poller_destroy (rs : list resource) : option (list resource) :=
  rs ← give_back RNodes rs;
  __poller_destroy rs.

(** The pipe of [__poller_open_pipe] is new: nothing has been written to it. *)
Definition __poller_open_pipe (ok : request -> bool) (p : poller) (rs : list resource)
    : option (bool * poller * list resource) :=
  if ok QPipe then
    let rs := RPipe_wr :: RPipe_rd :: rs in
    if ok QAddPipe then Some (true, with_pipe [] p, rs)
    else rs ← give_back RPipe_rd rs; rs ← give_back RPipe_wr rs; Some (false, p, rs)
  else Some (false, p, rs).

(** The return value is [-poller->stopped]. *)
Definition poller_start (ok : request -> bool) (p : poller) (rs : list resource)
    : option (Z * poller * list resource) :=
  '(opened, p, rs) ← __poller_open_pipe ok p rs;
  '(p, rs) ←
    (if (opened : bool) then
       if ok QThread then Some (with_stopped false p, rs)
       else rs ← give_back RPipe_wr rs; rs ← give_back RPipe_rd rs; Some (p, rs)
     else Some (p, rs));
  Some (if stopped p then -1 else 0, p, rs).

(** The descriptors [poller_stop] closes. *)
Definition close_pipe (rs : list resource) : option (list resource) :=
  rs ← give_back RPipe_wr rs; give_back RPipe_rd rs.

(** ** Ownership of the nodes *)

Definition res_of (p : poller) (x : loc) : list loc :=
  match node_at x p with Some n => option_list (res n) | None => [] end.

(** The nodes [W], and the result nodes they hold, are allocated and distinct. *)
Definition own (p : poller) (W : list loc) : Prop :=
  NoDup (HEADS ++ W ++ (W ≫= res_of p)) /\
  forall x, x ∈ W ++ (W ≫= res_of p) -> is_Some (node_at x p).

(** The nodes that wait in the pipe. *)
Definition pipe_nodes (p : poller) : list loc := omap id (pipe_buf p).

Lemma own_perm p W W' : W ≡ₚ W' -> own p W -> own p W'.
Proof. intros P [H1 H2]. split; [by rewrite <- P|]. intros x. rewrite <- P. apply H2. Qed.

Lemma bind_ext_in {A B} (f g : A -> list B) l : (forall x, x ∈ l -> f x = g x) -> l ≫= f = l ≫= g.
Proof.
  induction l as [|y l IH]; cbn; intros H; [done|]. rewrite H by set_solver. f_equal. apply IH. set_solver.
Qed.

Lemma own_frame p p' W :
  own p W -> (forall x, x ∈ W -> res_of p' x = res_of p x) ->
  (forall x, x ∈ W ++ (W ≫= res_of p) -> is_Some (node_at x p) -> is_Some (node_at x p')) -> own p' W.
Proof.
  intros [H1 H2] Fr Fa. unfold own. rewrite (bind_ext_in (res_of p') (res_of p) W Fr).
  split; [done|]. intros x Hx. apply Fa; [done|]. by apply H2.
Qed.

Lemma own_cons p x W : own p (x :: W) <->
  own p W /\ (x ∉ HEADS ++ W ++ (W ≫= res_of p)) /\ is_Some (node_at x p) /\
  NoDup (res_of p x) /\
  (forall r, r ∈ res_of p x -> r <> x /\ (r ∉ HEADS ++ W ++ (W ≫= res_of p)) /\ is_Some (node_at r p)).
Proof.
  unfold own. rewrite list.bind_cons. set (R := W ≫= res_of p). cbn [app].
  assert (P : HEADS ++ x :: W ++ res_of p x ++ R ≡ₚ x :: res_of p x ++ (HEADS ++ W ++ R)).
  { rewrite <- Permutation_middle. constructor. rewrite (Permutation_app_swap_app W).
    by rewrite (Permutation_app_swap_app HEADS). }
  rewrite P, list.NoDup_cons, list.NoDup_app, not_elem_of_app. split.
  - intros ((Hd1 & Hd2 & Hd3 & Hd4) & Ha). split_and!.
    + done.
    + intros y Hy. apply Ha. set_solver.
    + tauto.
    + apply Ha. set_solver.
    + done.
    + intros r Hr. split_and!; [intros ->; tauto|by apply Hd3|apply Ha; set_solver].
  - intros ((H1 & H2) & H3 & H4 & H5 & H6). split_and!; try done.
    + intros Hx. by apply H6 in Hx as [? _].
    + intros r Hr. by apply H6.
    + intros y Hy. rewrite elem_of_cons, !elem_of_app in Hy. destruct Hy as [->|[Hy|[Hy|Hy]]]; [done| | |].
      * apply H2. set_solver.
      * by apply H6.
      * apply H2. set_solver.
Qed.

Lemma own_app_l p W W' : own p (W ++ W') -> own p W.
Proof.
  revert W. induction W' as [|x W' IH]; intros W; [by rewrite app_nil_r|]. intros H.
  assert (H' : own p (x :: W ++ W')) by (eapply own_perm; [|exact H]; by rewrite Permutation_middle).
  apply own_cons in H' as [H' _]. by apply IH.
Qed.

(** Fields of the nodes. *)
Definition field {A} (f : poller_node -> A) (p : poller) (x : loc) : option A := f <$> node_at x p.

Lemma same_field {A} (f : poller_node -> A) p p' :
  same_nodes (tmr p) (tmr p') -> (forall n b, f (set_in_rbtree b n) = f n) ->
  forall x, field f p' x = field f p x.
Proof.
  intros H Hf x. specialize (H x). unfold field, node_at.
  destruct (pnodes (tmr p') !! x) as [n'|], (pnodes (tmr p) !! x) as [n|]; cbn in *; [|done..].
  assert (E : set_in_rbtree false n' = set_in_rbtree false n) by congruence.
  by rewrite <- (Hf n' false), <- (Hf n false), E.
Qed.

Lemma res_of_field p p' x : field res p' x = field res p x -> res_of p' x = res_of p x.
Proof.
  unfold field, res_of. destruct (node_at x p'), (node_at x p); cbn; intros H; simplify_eq; [|done].
  by match goal with E : res _ = res _ |- _ => rewrite E end.
Qed.

Lemma field_alloc {A} (f : poller_node -> A) p p' x :
  field f p' x = field f p x -> is_Some (node_at x p) -> is_Some (node_at x p').
Proof. unfold field. intros H [n Hn]. rewrite Hn in H. cbn in H. apply fmap_Some in H as (? & -> & _). eauto. Qed.

Lemma own_same p p' W : own p W -> same_nodes (tmr p) (tmr p') -> own p' W.
Proof.
  intros O S. pose proof (same_field res p p' S ltac:(done)) as F.
  eapply own_frame; [done| |].
  - intros x _. apply res_of_field, F.
  - intros x _. eapply field_alloc, F.
Qed.

(** A change of one node that keeps its result node. *)
Lemma own_upd p p' W x :
  own p W -> (forall y, y <> x -> node_at y p' = node_at y p) -> field res p' x = field res p x -> own p' W.
Proof.
  intros O F Fx. assert (G : forall y, field res p' y = field res p y).
  { intros y. destruct (decide (y = x)) as [->|Hy]; [done|]. unfold field. by rewrite F. }
  eapply own_frame; [done| |].
  - intros y _. apply res_of_field, G.
  - intros y _. eapply field_alloc, G.
Qed.

(** ** The invariant of the memory *)

(** Only the timers and the memory have changed. *)
Definition tmr_only (p p' : poller) : Prop := p' = with_tmr (tmr p') p.

Lemma tmr_only_refl p : tmr_only p p.
Proof. by destruct p. Qed.
Lemma tmr_only_trans p1 p2 p3 : tmr_only p1 p2 -> tmr_only p2 p3 -> tmr_only p1 p3.
Proof. unfold tmr_only. intros E1 E2. rewrite E2, E1. done. Qed.
Lemma tmr_only_with p t : tmr_only p (with_tmr t p).
Proof. done. Qed.
#[export] Hint Resolve tmr_only_refl tmr_only_with : workflow.

Lemma tmr_only_fields p p' : tmr_only p p' ->
  max_open_files p' = max_open_files p /\ stopped p' = stopped p /\ nodes p' = nodes p /\
  pfd p' = pfd p /\ pipe_buf p' = pipe_buf p /\ results p' = results p.
Proof. intros ->. done. Qed.

Section Memory.

(** The state the nodes in the pipe were given. *)
Context (g : loc -> Z).

(** What a node in the pipe holds. *)
Definition retired (n : poller_node) : bool * Z * Z := (removed n, pn_state n, pn_error n).

(** The queue holds [L], [T] and [N] and watches [w]; the pipe holds removed nodes;
    [H] are the nodes in the hands of a caller.  They are all different. *)
Record held (p : poller) (L T N H : list loc) (w : gmap loc watched) : Prop := mk_held {
  h_tq : tq (tmr p) L T N;
  h_watch : watching (tmr p) L T N w;
  h_armed : armed (timerfd (tmr p)) w;
  h_own : own p ((L ++ T ++ N) ++ pipe_nodes p ++ H);
  h_live : forall x, x ∈ L ++ T ++ N -> field removed p x = Some false;
  h_pipe : forall x, x ∈ pipe_nodes p -> field retired p x = Some (true, g x, 0) }.

(** The parts of the poller [held] does not mention. *)
Lemma held_other p p' L T N H w :
  held p L T N H w -> tmr p' = tmr p -> pipe_buf p' = pipe_buf p -> held p' L T N H w.
Proof.
  intros [] Et Ep.
  assert (En : forall x, node_at x p' = node_at x p) by (intros x; unfold node_at; by rewrite Et).
  assert (Epn : pipe_nodes p' = pipe_nodes p) by (unfold pipe_nodes; by rewrite Ep).
  constructor; rewrite ?Et, ?Epn; try done.
  - eapply own_upd; [done| |]; unfold field; rewrite ?En; [intros; apply En|done].
    Unshelve. exact 1%positive.
  - intros x Hx. unfold field. rewrite En. by apply h_live0.
  - intros x Hx. unfold field. rewrite En. by apply h_pipe0.
Qed.

Lemma held_perm p L T N H H' w : H ≡ₚ H' -> held p L T N H w -> held p L T N H' w.
Proof. intros P []. constructor; try done. eapply own_perm; [|done]. by rewrite P. Qed.

(** A node that nobody owns. *)
Definition unowned (p : poller) (W : list loc) (x : loc) : Prop :=
  x ∉ HEADS ++ W ++ (W ≫= res_of p).

Lemma own_unowned p W x : own p W -> node_at x p = None -> (x ∉ HEADS) -> unowned p W x.
Proof.
  intros [_ Ha] Hn Hh. unfold unowned. rewrite not_elem_of_app. split; [done|].
  intros Hx. apply Ha in Hx as [n Hx]. congruence.
Qed.

(** A state that differs in the memory of one unowned node. *)
Lemma held_frame p p' L T N H w x :
  held p L T N H w -> unowned p ((L ++ T ++ N) ++ pipe_nodes p ++ H) x ->
  (forall y, y <> x -> node_at y p' = node_at y p) ->
  (forall y, y <> x -> links (tmr p') !! y = links (tmr p) !! y) ->
  (forall y, y <> x -> mem (timeo_tree (tmr p')) !! y = mem (timeo_tree (tmr p)) !! y) ->
  rb_root (timeo_tree (tmr p')) = rb_root (timeo_tree (tmr p)) ->
  tree_first (tmr p') = tree_first (tmr p) -> tree_last (tmr p') = tree_last (tmr p) ->
  timerfd (tmr p') = timerfd (tmr p) -> pipe_buf p' = pipe_buf p ->
  held p' L T N H w.
Proof.
  intros [Q W A O Lv Pi] U Fn Fl Fm Er Ef El Et Ep. unfold unowned in U.
  set (Ws := (L ++ T ++ N) ++ pipe_nodes p ++ H) in *.
  assert (Hne : forall y, y ∈ L ++ T ++ N -> y <> x).
  { intros y Hy ->. apply U. subst Ws. clear -Hy. set_solver. }
  assert (Hnp : forall y, y ∈ pipe_nodes p -> y <> x).
  { intros y Hy ->. apply U. subst Ws. clear -Hy. set_solver. }
  assert (Epn : pipe_nodes p' = pipe_nodes p) by (unfold pipe_nodes; by rewrite Ep).
  constructor.
  - eapply tq_frame; [exact Q|done..| | |].
    + intros y Hy. apply Fm, Hne. set_solver.
    + intros y Hy. apply Fl. rewrite !elem_of_cons in Hy. destruct Hy as [->|[->|Hy]].
      * intros <-. apply U. unfold HEADS. clear. set_solver.
      * intros <-. apply U. unfold HEADS. clear. set_solver.
      * apply Hne. set_solver.
    + intros y Hy. unfold node_at in Fn. rewrite Fn; [done|by apply Hne].
  - eapply watching_frame; [exact W|]. intros y b Hy. unfold node_at in Fn. rewrite Fn; [done|by apply Hne].
  - by rewrite Et.
  - rewrite Epn. fold Ws. eapply own_frame; [exact O| |].
    + intros y Hy. unfold res_of. rewrite Fn; [done|]. intros ->. apply U. clear -Hy. set_solver.
    + intros y Hy. rewrite Fn; [done|]. intros ->. apply U. clear -Hy. set_solver.
  - intros y Hy. unfold field. rewrite Fn by (by apply Hne). by apply Lv.
  - rewrite Epn. intros y Hy. unfold field. rewrite Fn by (by apply Hnp). by apply Pi.
Qed.

(** The memory of a new node. *)
Lemma held_fresh p L T N H w x n :
  held p L T N H w -> node_at x p = None -> (x ∉ HEADS) -> held (set_pnode x n p) L T N H w.
Proof.
  intros Hh Hx Hd. eapply (held_frame p _ _ _ _ _ _ x); [done| |try done..].
  - eapply own_unowned; [apply Hh|done..].
  - intros y Hy. unfold node_at, set_pnode. cbn. by rewrite lookup_insert_ne.
Qed.

Lemma held_take p L T N H w x n :
  held p L T N H w -> node_at x p = Some n ->
  unowned p ((L ++ T ++ N) ++ pipe_nodes p ++ H) x ->
  (forall r, res n = Some r -> r <> x /\ unowned p ((L ++ T ++ N) ++ pipe_nodes p ++ H) r /\ is_Some (node_at r p)) ->
  held p L T N (x :: H) w.
Proof.
  intros Hh Hx U Hr. pose proof (h_own _ _ _ _ _ _ Hh) as O. destruct Hh. constructor; try done.
  eapply own_perm; [symmetry; rewrite app_assoc, <- Permutation_middle; reflexivity|].
  rewrite <- app_assoc. apply own_cons. unfold unowned in *. unfold res_of at 2 3. rewrite Hx.
  split_and!; [done|done|eauto| |].
  - destruct (res n); cbn; [apply NoDup_singleton|constructor].
  - intros r Hin. destruct (res n) as [r'|]; cbn in Hin; [|set_solver].
    apply list_elem_of_singleton in Hin as ->. by apply Hr.
Qed.

Lemma held_drop p L T N H w x :
  held p L T N (x :: H) w ->
  held p L T N H w /\ unowned p ((L ++ T ++ N) ++ pipe_nodes p ++ H) x /\
  exists n, node_at x p = Some n /\
    forall r, res n = Some r -> r <> x /\ unowned p ((L ++ T ++ N) ++ pipe_nodes p ++ H) r /\ is_Some (node_at r p).
Proof.
  intros Hh. pose proof (h_own _ _ _ _ _ _ Hh) as O.
  eapply own_perm in O; [|rewrite app_assoc, <- Permutation_middle; reflexivity].
  rewrite <- app_assoc in O. apply own_cons in O as (O & U & [n Hn] & _ & Hr).
  split; [by destruct Hh|]. split; [exact U|]. exists n. split; [done|].
  intros r Er. apply Hr. unfold res_of. rewrite Hn, Er. cbn. set_solver.
Qed.

(** *** A node in hand *)

Lemma upd_hand p L T N H w x n (f : poller_node -> poller_node) :
  held p L T N (x :: H) w -> node_at x p = Some n -> res (f n) = res n ->
  on_tmr (upd_node x f) p = Some (set_pnode x (f n) p) /\ held (set_pnode x (f n) p) L T N (x :: H) w.
Proof.
  intros Hh Hn Er. split.
  { unfold on_tmr, upd_node, node_at in *. rewrite Hn. done. }
  destruct (held_drop _ _ _ _ _ _ _ Hh) as (Hd & U & m & Em & Hr). simplify_eq.
  assert (F : forall y, y <> x -> node_at y (set_pnode x (f n) p) = node_at y p)
    by (intros y Hy; unfold node_at, set_pnode; cbn; by rewrite lookup_insert_ne).
  assert (Fx : node_at x (set_pnode x (f n) p) = Some (f n))
    by (unfold node_at, set_pnode; cbn; by rewrite lookup_insert_eq).
  assert (R : forall W y, unowned p W y -> W ⊆ (L ++ T ++ N) ++ pipe_nodes p ++ H ->
      unowned (set_pnode x (f n) p) W y).
  { intros W y Hy Hs. unfold unowned in *. rewrite (bind_ext_in _ (res_of p)); [done|]. intros z Hz.
    unfold res_of. rewrite F; [done|]. intros ->. apply U. specialize (Hs x Hz). clear -Hs. set_solver. }
  eapply held_take; [|exact Fx|by apply R|].
  - eapply (held_frame p _ _ _ _ _ _ x); done.
  - intros r Hres. rewrite Er in Hres. destruct (Hr r Hres) as (Hrx & Ur & Ar).
    split_and!; [done|by apply R|by rewrite F].
Qed.

Lemma held_release p L T N H w y :
  held p L T N H w -> unowned p ((L ++ T ++ N) ++ pipe_nodes p ++ H) y ->
  held (with_tmr (release y (tmr p)) p) L T N H w.
Proof.
  intros Hq Uq. eapply (held_frame p _ _ _ _ _ _ y); try done; intros z Hz; unfold node_at, release; cbn;
    by rewrite lookup_delete_ne.
Qed.

(** The node [y] and its links are untouched. *)
Definition same_at (p p' : poller) (y : loc) : Prop :=
  node_at y p' = node_at y p /\ links (tmr p') !! y = links (tmr p) !! y.

Lemma same_at_release p x y : y <> x -> same_at p (with_tmr (release x (tmr p)) p) y.
Proof. intros Hy. unfold same_at, node_at, release. cbn. by rewrite !lookup_delete_ne. Qed.

Lemma same_at_trans p1 p2 p3 y : same_at p1 p2 y -> same_at p2 p3 y -> same_at p1 p3 y.
Proof. unfold same_at. intros [-> ->] [-> ->]. done. Qed.

Lemma unowned_ne p W x y : unowned p W x -> y ∈ HEADS ++ W -> y <> x.
Proof. unfold unowned. intros U Hy ->. apply U. clear -Hy. set_solver. Qed.

Lemma free_hand p L T N H w x n :
  held p L T N (x :: H) w -> node_at x p = Some n ->
  exists p1, free_node (res n) p = Some p1 /\ tmr_only p p1 /\ node_at x p1 = Some n /\
    held (with_tmr (release x (tmr p1)) p1) L T N H w /\
    (forall y, y ∈ HEADS ++ (L ++ T ++ N) ++ pipe_nodes p ++ H ->
       same_at p (with_tmr (release x (tmr p1)) p1) y).
Proof.
  intros Hh Hn. destruct (held_drop _ _ _ _ _ _ _ Hh) as (Hd & U & m & Em & Hr). simplify_eq.
  destruct (res n) as [r|] eqn:Er; cbn [free_node].
  2:{ exists p. split_and!; [done|apply tmr_only_refl|done|by apply held_release|].
      intros y Hy. apply same_at_release. by eapply unowned_ne. }
  destruct (Hr r eq_refl) as (Hrx & Ur & [nr Ar]). rewrite Ar. cbn [mbind option_bind].
  eexists. split; [done|]. split; [done|].
  assert (F : forall z, z <> r -> node_at z (with_tmr (release r (tmr p)) p) = node_at z p)
    by (intros z Hz; unfold node_at, release; cbn; by rewrite lookup_delete_ne).
  split; [by rewrite F|]. split.
  - apply held_release; [by apply held_release|].
    unfold unowned in *. rewrite (bind_ext_in _ (res_of p)); [done|]. intros z Hz. unfold res_of.
    rewrite F; [done|]. intros ->. apply Ur. clear -Hz. set_solver.
  - intros y Hy. eapply same_at_trans; apply same_at_release; by eapply unowned_ne.
Qed.

(** The poller after a callback. *)
Definition delivered (p p' : poller) (x : loc) (n : poller_node) : Prop :=
  p' = with_results (results p ++ [(x, n)]) (with_tmr (tmr p') p).

Lemma deliver_hand p L T N H w x n :
  held p L T N (x :: H) w -> node_at x p = Some n ->
  exists p', deliver_if true x p = Some p' /\ held p' L T N H w /\ delivered p p' x n /\
    (forall y, y ∈ HEADS ++ (L ++ T ++ N) ++ pipe_nodes p ++ H -> same_at p p' y).
Proof.
  intros Hh Hn. destruct (free_hand _ _ _ _ _ _ _ _ Hh Hn) as (p1 & E1 & K & Hn1 & Hh1 & Sa).
  unfold deliver_if. rewrite Hn. cbn [mbind option_bind]. rewrite E1. cbn [mbind option_bind].
  unfold call_back. rewrite Hn1. cbn [mbind option_bind]. eexists. split; [done|].
  apply tmr_only_fields in K as K'. destruct K' as (_ & _ & _ & _ & _ & Er). split_and!.
  - by eapply held_other.
  - unfold delivered. cbn [tmr with_results with_tmr]. rewrite Er. by rewrite K.
  - exact Sa.
Qed.

(** The callback alone: [poller_del_timer]. *)
Lemma call_back_hand p L T N H w x n :
  held p L T N (x :: H) w -> node_at x p = Some n ->
  exists p', call_back x p = Some p' /\ held p' L T N H w /\ delivered p p' x n.
Proof.
  intros Hh Hn. destruct (held_drop _ _ _ _ _ _ _ Hh) as (Hd & U & _).
  unfold call_back. rewrite Hn. cbn [mbind option_bind]. eexists. split; [done|]. split; [|done].
  apply (held_other (with_tmr (release x (tmr p)) p)); [by apply held_release|done..].
Qed.

Lemma finish_hand p L T N H w x n st err :
  held p L T N (x :: H) w -> node_at x p = Some n ->
  exists p', finish x st err p = Some p' /\ held p' L T N H w /\
    delivered p p' x (set_outcome st err n) /\
    (forall y, y ∈ HEADS ++ (L ++ T ++ N) ++ pipe_nodes p ++ H -> same_at p p' y).
Proof.
  intros Hh Hn. destruct (upd_hand p L T N H w x n (set_outcome st err) Hh Hn eq_refl) as [E Hh1].
  unfold finish, set_result. rewrite E. cbn [mbind option_bind].
  destruct (deliver_hand _ _ _ _ _ _ x (set_outcome st err n) Hh1) as (p' & E' & Hh' & D & Sa).
  { unfold node_at, set_pnode. cbn. by rewrite lookup_insert_eq. }
  exists p'. split; [exact E'|]. split; [done|]. unfold delivered in *. split; [by rewrite D at 1|].
  destruct (held_drop _ _ _ _ _ _ _ Hh) as (_ & U & _).
  intros y Hy. eapply same_at_trans; [|by apply Sa]. pose proof (unowned_ne _ _ _ _ U Hy).
  unfold same_at, node_at, set_pnode. cbn. by rewrite lookup_insert_ne.
Qed.

Lemma discard_hand p L T N H w x e :
  held p L T N (x :: H) w ->
  exists p', discard x e p = Some (Some e, p') /\ held p' L T N H w /\ tmr_only p p'.
Proof.
  intros Hh. destruct (held_drop _ _ _ _ _ _ _ Hh) as (_ & _ & n & Hn & _).
  destruct (free_hand _ _ _ _ _ _ _ _ Hh Hn) as (p1 & E1 & K & Hn1 & Hh1 & _).
  unfold discard. rewrite Hn. cbn [mbind option_bind]. rewrite E1. cbn [mbind option_bind free_node].
  rewrite Hn1. cbn [mbind option_bind]. eexists. split; [done|]. split; [done|].
  by eapply tmr_only_trans.
Qed.

(** *** In and out of the queue *)

Lemma on_tmr_run f p s' : f (tmr p) = Some s' -> on_tmr f p = Some (with_tmr s' p).
Proof. intros E. unfold on_tmr. by rewrite E. Qed.

(** The flag [removed] of one node of the queue is free. *)
Record held_but (x : loc) (p : poller) (L T N H : list loc) (w : gmap loc watched) : Prop := mk_held_but {
  hb_tq : tq (tmr p) L T N;
  hb_watch : watching (tmr p) L T N w;
  hb_armed : armed (timerfd (tmr p)) w;
  hb_own : own p ((L ++ T ++ N) ++ pipe_nodes p ++ H);
  hb_live : forall y, y ∈ L ++ T ++ N -> y <> x -> field removed p y = Some false;
  hb_pipe : forall y, y ∈ pipe_nodes p -> field retired p y = Some (true, g y, 0) }.

Lemma held_held_but x p L T N H w : held p L T N H w -> held_but x p L T N H w.
Proof. intros []. constructor; eauto. Qed.

(** A node of the queue has been marked as removed. *)
Lemma mark_removed p L T N H w x n :
  held p L T N H w -> x ∈ L ++ T ++ N -> node_at x p = Some n ->
  on_tmr (upd_node x set_removed) p = Some (set_pnode x (set_removed n) p) /\
  held_but x (set_pnode x (set_removed n) p) L T N H w.
Proof.
  intros [Q W A O Lv Pi] Hx En. split; [unfold on_tmr, upd_node, node_at in *; by rewrite En|].
  set (p1 := set_pnode x (set_removed n) p).
  assert (F : forall y, y <> x -> node_at y p1 = node_at y p)
    by (intros y Hy; unfold node_at, set_pnode; cbn; by rewrite lookup_insert_ne).
  assert (Fx : node_at x p1 = Some (set_removed n)) by (unfold node_at, set_pnode; cbn; by rewrite lookup_insert_eq).
  assert (G : forall A (f : poller_node -> A), f (set_removed n) = f n -> forall y,
      f <$> pnodes (tmr p1) !! y = f <$> pnodes (tmr p) !! y).
  { intros A' f Ef y. destruct (decide (y = x)) as [->|Hy].
    - unfold node_at in Fx, En. rewrite Fx, En. cbn. by rewrite Ef.
    - unfold node_at in F. by rewrite F. }
  constructor.
  - eapply tq_frame; [exact Q|done..|]. intros y _. by apply G.
  - eapply watching_frame; [exact W|]. intros y c _. by apply G.
  - done.
  - eapply own_upd; [exact O|exact F|]. unfold field. by rewrite Fx, En.
  - intros y Hy Hne. unfold field. rewrite F by done. by apply Lv.
  - intros y Hy. unfold field. rewrite F; [by apply Pi|]. intros ->. destruct O as [Hd _].
    apply NoDup_app_inv in Hd as (_ & Hd & _). apply NoDup_app_inv in Hd as (Hd & _ & _).
    apply NoDup_app_inv in Hd as (_ & _ & Hd). eapply Hd; [exact Hx|].
    change (pipe_nodes p1) with (pipe_nodes p) in Hy. clear -Hy. set_solver.
Qed.

Lemma held_remove p s' L T N L' T' N' H w x :
  held_but x p L T N H w -> tq s' L' T' N' -> same_nodes (tmr p) s' -> timerfd s' = timerfd (tmr p) ->
  ((x :: L' ++ T' ≡ₚ L ++ T /\ N' = N) \/ (L' = L /\ T' = T /\ x :: N' ≡ₚ N)) ->
  held (with_tmr s' p) L' T' N' (x :: H) (delete x w).
Proof.
  intros [Q W A O Lv Pi] Q' Sn Et P.
  pose proof (same_field removed p (with_tmr s' p) Sn ltac:(done)) as SF.
  pose proof (same_field retired p (with_tmr s' p) Sn ltac:(done)) as SR.
  assert (Pm : x :: L' ++ T' ++ N' ≡ₚ L ++ T ++ N).
  { destruct P as [(P & ->)|(-> & -> & P)].
    - rewrite (app_assoc L T), <- P. cbn. by rewrite <- app_assoc.
    - rewrite <- P. rewrite (app_assoc L T (x :: N')), <- Permutation_middle. by rewrite <- app_assoc. }
  assert (Hin : forall y, y ∈ L' ++ T' ++ N' -> y ∈ L ++ T ++ N /\ y <> x).
  { intros y Hy. split; [rewrite <- Pm; by right|]. intros ->.
    pose proof (tq_apart _ _ _ _ Q) as Hd. apply NoDup_app_inv in Hd as (_ & Hd & _). rewrite <- Pm in Hd.
    apply list.NoDup_cons in Hd as [Hd _]. done. }
  constructor; [done|by eapply (watching_remove (tmr p))|cbn; rewrite Et; by apply armed_delete| | |].
  - eapply own_same; [|exact Sn]. eapply own_perm; [|exact O]. rewrite <- Pm. cbn.
    change (pipe_nodes (with_tmr s' p)) with (pipe_nodes p).
    rewrite !(app_assoc _ _ (x :: H)), <- Permutation_middle. by rewrite <- !app_assoc.
  - intros y Hy. rewrite SF. apply Hin in Hy as [? ?]. by apply Lv.
  - intros y Hy. rewrite SR. by apply Pi.
Qed.

Lemma held_but_detach p L T N H w x :
  held_but x p L T N H w -> x ∈ L ++ T ++ N ->
  exists p' L' T' N' n, on_tmr (detach x) p = Some p' /\ held p' L' T' N' (x :: H) (delete x w) /\
    tmr_only p p' /\ same_nodes (tmr p) (tmr p') /\ (forall y, y <> x -> node_at y p' = node_at y p) /\
    node_at x p' = Some n /\ in_rbtree n = false.
Proof.
  intros Hb Hx. destruct (detach_ok _ _ _ _ x (hb_tq _ _ _ _ _ _ _ Hb) Hx)
    as (s' & L' & T' & N' & E & Q' & Sn & Et & (n & En & Eb) & Fo & P).
  exists (with_tmr s' p), L', T', N', n. split_and!; [by apply on_tmr_run| |done..].
  by eapply held_remove.
Qed.

Lemma held_detach p L T N H w x :
  held p L T N H w -> x ∈ L ++ T ++ N ->
  exists p' L' T' N' n, on_tmr (detach x) p = Some p' /\ held p' L' T' N' (x :: H) (delete x w) /\
    tmr_only p p' /\ same_nodes (tmr p) (tmr p') /\ (forall y, y <> x -> node_at y p' = node_at y p) /\
    node_at x p' = Some n /\ in_rbtree n = false.
Proof. intros Hh. by apply held_but_detach, held_held_but. Qed.

Lemma held_insert p L T N H w x n t :
  held p L T N (x :: H) w -> node_at x p = Some n -> in_rbtree n = false -> removed n = false ->
  (0 <= t -> ts_pos (timeout n)) ->
  exists p' L' T' N', on_tmr (insert_timeout t x) p = Some p' /\
    held p' L' T' N' H (<[x := entry (0 <=? t) n]> w) /\ tmr_only p p' /\ same_nodes (tmr p) (tmr p').
Proof.
  intros Hh Hn Eb Er Hp. destruct (held_drop _ _ _ _ _ _ _ Hh) as (_ & U & _).
  pose proof Hh as [Q W A O Lv Pi].
  assert (Hx : x ∉ HEADS ++ L ++ T ++ N).
  { unfold unowned in U. clear -U. rewrite !not_elem_of_app in *. tauto. }
  destruct (insert_timeout_ok (tmr p) L T N w x n t) as (s' & L' & T' & N' & E & Q' & Sn & P & W' & A'); [done..|].
  exists (with_tmr s' p), L', T', N'. split_and!; [by apply on_tmr_run| |done..].
  pose proof (same_field removed p (with_tmr s' p) Sn ltac:(done)) as SF.
  pose proof (same_field retired p (with_tmr s' p) Sn ltac:(done)) as SR.
  constructor; [done..| | |].
  - eapply own_same; [|exact Sn]. eapply own_perm; [|exact O]. rewrite P. cbn.
    change (pipe_nodes (with_tmr s' p)) with (pipe_nodes p).
    rewrite !(app_assoc _ _ (x :: H)), <- Permutation_middle. by rewrite <- !app_assoc.
  - intros y Hy. rewrite SF. rewrite P in Hy. apply elem_of_cons in Hy as [->|Hy]; [|by apply Lv].
    unfold field. by rewrite Hn, <- Er.
  - intros y Hy. rewrite SR. by apply Pi.
Qed.

(** Sending a removed node through the pipe. *)
Lemma held_pipe p L T N H w x n :
  held p L T N (x :: H) w -> node_at x p = Some n -> retired n = (true, g x, 0) ->
  held (pipe_write (Some x) p) L T N H w.
Proof.
  intros [Q W A O Lv Pi] Hn Er.
  assert (Ep : pipe_nodes (pipe_write (Some x) p) = pipe_nodes p ++ [x]).
  { unfold pipe_nodes, pipe_write. cbn. by rewrite omap_app. }
  constructor; rewrite ?Ep; [done|done|done| |done|].
  - change (own (pipe_write (Some x) p)) with (own p). eapply own_perm; [|exact O].
    by rewrite <- (app_assoc (pipe_nodes p)).
  - intros y Hy. apply elem_of_app in Hy as [Hy|Hy]; [by apply Pi|]. apply list_elem_of_singleton in Hy as ->.
    unfold field. change (node_at x (pipe_write (Some x) p)) with (node_at x p). by rewrite Hn, <- Er.
Qed.

End Memory.

Lemma held_ghost g g' p L T N H w :
  held g p L T N H w -> (forall x, x ∈ pipe_nodes p -> g' x = g x) -> held g' p L T N H w.
Proof. intros [] E. constructor; try done. intros x Hx. rewrite E by done. by apply h_pipe0. Qed.

(** ** The invariant of the registrations *)

Record regs (max : Z) (slots : list ptr) (ep : gmap Z (Z * loc)) (w : gmap loc watched) : Prop := mk_regs {
  rg_len : Z.of_nat (length slots) = max;
  rg_max : max <= 2 ^ 63;
  rg_slot : forall i x, slots !! i = Some (Some x) <-> exists e, w !! x = Some e /\ w_fd e = Z.of_nat i;
  rg_ep : forall z ev x, ep !! z = Some (ev, x) <->
            0 <= z /\ exists e, w !! x = Some e /\ w_fd e = z /\ w_event e = ev }.

Lemma regs_at max slots ep w z : regs max slots ep w -> 0 <= z < max ->
  exists v, slots !! Z.to_nat z = Some v.
Proof. intros [] Hz. apply lookup_lt_is_Some. lia. Qed.

Lemma regs_unique max slots ep w x y e e' : regs max slots ep w ->
  w !! x = Some e -> w !! y = Some e' -> w_fd e = w_fd e' -> 0 <= w_fd e -> x = y.
Proof.
  intros [_ _ Rs _] Hx Hy E Hz.
  assert (H1 : slots !! Z.to_nat (w_fd e) = Some (Some x)) by (apply Rs; exists e; split; [done|lia]).
  assert (H2 : slots !! Z.to_nat (w_fd e) = Some (Some y)) by (apply Rs; exists e'; split; [done|lia]).
  congruence.
Qed.

Lemma regs_lt max slots ep w x e : regs max slots ep w -> w !! x = Some e -> 0 <= w_fd e ->
  w_fd e < max /\ slots !! Z.to_nat (w_fd e) = Some (Some x).
Proof.
  intros [Hl _ Rs _] Hx Hz.
  assert (H1 : slots !! Z.to_nat (w_fd e) = Some (Some x)) by (apply Rs; exists e; split; [done|lia]).
  split; [|done]. apply lookup_lt_Some in H1. lia.
Qed.

Lemma regs_insert max slots ep w x e :
  regs max slots ep w -> 0 <= w_fd e < max -> slots !! Z.to_nat (w_fd e) = Some None -> w !! x = None ->
  regs max (<[Z.to_nat (w_fd e) := Some x]> slots) (<[w_fd e := (w_event e, x)]> ep) (<[x := e]> w).
Proof.
  intros [Hl Hm Rs Re] Hz Hs Hx. constructor; [by rewrite length_insert|done| |].
  - intros i y. destruct (decide (i = Z.to_nat (w_fd e))) as [->|Hi].
    + rewrite list_lookup_insert_eq by lia. split.
      * intros [= <-]. exists e. rewrite lookup_insert_eq. split; [done|lia].
      * intros (e' & He' & Ez). rewrite lookup_insert_Some in He'. destruct He' as [[<- _]|[_ He']]; [done|].
        assert (slots !! Z.to_nat (w_fd e) = Some (Some y)) by (apply Rs; exists e'; split; [done|lia]). congruence.
    + rewrite list_lookup_insert_ne by done. rewrite Rs. split; intros (e' & He' & Ez); exists e'.
      * rewrite lookup_insert_ne; [done|]. intros ->. congruence.
      * rewrite lookup_insert_Some in He'. destruct He' as [[<- <-]|[_ He']]; [lia|done].
  - intros z ev y. rewrite lookup_insert_Some, Re. split.
    + intros [[<- [= <- <-]]|[Hne (Hz' & e' & He' & Ez & Ev)]].
      * split; [lia|]. exists e. by rewrite lookup_insert_eq.
      * split; [done|]. exists e'. rewrite lookup_insert_ne; [done|]. intros ->. congruence.
    + intros (Hz' & e' & He' & Ez & Ev). rewrite lookup_insert_Some in He'.
      destruct He' as [[<- <-]|[_ He']]; [left; by subst|]. right. split.
      * intros <-. assert (slots !! Z.to_nat (w_fd e) = Some (Some y)) by (apply Rs; exists e'; split; [done|lia]). congruence.
      * split; [done|]. by exists e'.
Qed.

Lemma regs_delete max slots ep w x e :
  regs max slots ep w -> w !! x = Some e -> 0 <= w_fd e ->
  regs max (<[Z.to_nat (w_fd e) := None]> slots) (delete (w_fd e) ep) (delete x w).
Proof.
  intros R Hx Hz. destruct (regs_lt _ _ _ _ _ _ R Hx Hz) as [Hlt Hs].
  pose proof (fun y e' He' E => regs_unique max slots ep w x y e e' R Hx He' E Hz) as Un.
  destruct R as [Hl Hm Rs Re]. constructor; [by rewrite length_insert|done| |].
  - intros i y. destruct (decide (i = Z.to_nat (w_fd e))) as [->|Hi].
    + rewrite list_lookup_insert_eq by lia. split; [done|]. intros (e' & He' & Ez).
      apply lookup_delete_Some in He' as [Hne He']. destruct Hne. eapply Un; [done|lia].
    + rewrite list_lookup_insert_ne by done. rewrite Rs. split; intros (e' & He' & Ez); exists e'.
      * rewrite lookup_delete_ne; [done|]. intros ->. simplify_eq. lia.
      * by apply lookup_delete_Some in He' as [_ He'].
  - intros z ev y. rewrite lookup_delete_Some, Re. split.
    + intros [Hne (Hz' & e' & He' & Ez & Ev)]. split; [done|]. exists e'.
      rewrite lookup_delete_ne; [done|]. intros ->. by simplify_eq.
    + intros (Hz' & e' & He' & Ez & Ev). apply lookup_delete_Some in He' as [Hne He'].
      split; [|split; [done|by exists e']]. intros <-. destruct Hne. by eapply Un.
Qed.

Lemma regs_timer max slots ep w x e :
  regs max slots ep w -> w_fd e < 0 -> w !! x = None -> regs max slots ep (<[x := e]> w).
Proof.
  intros [Hl Hm Rs Re] Hz Hx. constructor; [done..| |].
  - intros i y. rewrite Rs. split; intros (e' & He' & Ez); exists e'.
    + rewrite lookup_insert_ne; [done|]. intros ->. congruence.
    + rewrite lookup_insert_Some in He'. destruct He' as [[<- <-]|[_ He']]; [lia|done].
  - intros z ev y. rewrite Re. split; intros (Hz' & e' & He' & Ez & Ev); (split; [done|]); exists e'.
    + rewrite lookup_insert_ne; [done|]. intros ->. congruence.
    + rewrite lookup_insert_Some in He'. destruct He' as [[<- <-]|[_ He']]; [lia|done].
Qed.

Lemma regs_delete_timer max slots ep w x e :
  regs max slots ep w -> w !! x = Some e -> w_fd e < 0 -> regs max slots ep (delete x w).
Proof.
  intros [Hl Hm Rs Re] Hx Hz. constructor; [done..| |].
  - intros i y. rewrite Rs. split; intros (e' & He' & Ez); exists e'.
    + rewrite lookup_delete_ne; [done|]. intros ->. simplify_eq. lia.
    + by apply lookup_delete_Some in He' as [_ He'].
  - intros z ev y. rewrite Re. split; intros (Hz' & e' & He' & Ez & Ev); (split; [done|]); exists e'.
    + rewrite lookup_delete_ne; [done|]. intros ->. simplify_eq. lia.
    + by apply lookup_delete_Some in He' as [_ He'].
Qed.

(** Another deadline for a node. *)
Lemma regs_change max slots ep w x e e' :
  regs max slots ep w -> w !! x = Some e -> w_fd e' = w_fd e -> w_event e' = w_event e ->
  regs max slots ep (<[x := e']> w).
Proof.
  intros [Hl Hm Rs Re] Hx Ef Ev0. constructor; [done..| |].
  - intros i y. rewrite Rs. destruct (decide (y = x)) as [->|Hy].
    + rewrite lookup_insert_eq. split; [intros (? & ? & ?); simplify_eq|intros (? & ? & ?); simplify_eq]; eauto with congruence.
    + by rewrite lookup_insert_ne.
  - intros z ev y. rewrite Re. destruct (decide (y = x)) as [->|Hy].
    + rewrite lookup_insert_eq. split; intros (? & ? & ? & ? & ?); simplify_eq; (split; [done|]); eexists; split_and!; eauto; congruence.
    + by rewrite lookup_insert_ne.
Qed.
