(* ===== verification/PollerSpec.v ===== *)
(** * What the poller of [src/kernel/poller.c] promises, and that it does

    [aspec] is the poller as its callers see it: a finite map of watched nodes with
    their descriptor, events and deadline, the nodes that wait in the pipe, and
    the results delivered.  [refines] relates it to the memory of [Poller]: array,
    epoll set, lists, tree, flags and ownership.  Every call, the pipe, the
    timeouts and the shutdown are operations of the map, errors included. *)

From S2P Require Import Prelude ListHead RBTree RBInsert RBErase RBSearch PollerTimer Poller.

Local Open Scope Z_scope.

(** ** What the poller promises

    One finite map of watched nodes, the nodes that wait in the pipe with their
    state, and the results delivered so far: node, state, error. *)

Record aspec := mk_aspec {
  a_max : Z;
  a_stopped : bool;
  a_watch : gmap loc watched;
  a_pipe : list (loc * Z);
  a_out : list (loc * Z * Z) }.

Definition spec_watch (w : gmap loc watched) (s : aspec) : aspec :=
  mk_aspec (a_max s) (a_stopped s) w (a_pipe s) (a_out s).
Definition spec_deliver (x : loc) (st err : Z) (s : aspec) : aspec :=
  mk_aspec (a_max s) (a_stopped s) (a_watch s) (a_pipe s) (a_out s ++ [(x, st, err)]).
(** A node taken out of service goes to the pipe, or to the callback. *)
Definition spec_retire (x : loc) (st : Z) (s : aspec) : aspec :=
  if a_stopped s then spec_deliver x st 0 s
  else mk_aspec (a_max s) (a_stopped s) (a_watch s) (a_pipe s ++ [(x, st)]) (a_out s).

(** The node that watches a descriptor. *)
Definition find_fd (z : Z) (w : gmap loc watched) : ptr :=
  fst <$> head (filter (fun kv => w_fd kv.2 = z) (map_to_list w)).

Definition spec_fd (z : Z) (s : aspec) : option Z :=
  if (0 <=? z) && (z <? a_max s) then None else Some (if z <? 0 then EBADF else EMFILE).

(** The new node, with its events. *)
Definition spec_new (d : poller_data) (a : answers) (s : aspec) : Z + (loc * Z) :=
  match spec_fd (fd d) s with
  | Some e => inl e
  | None =>
      match __poller_data_get_event d with
      | None => inl EINVAL
      | Some (ev, need) =>
          match malloc_node a with
          | Some x => if need && bool_decide (malloc_res a = None) then inl ENOMEM else inr (x, ev)
          | None => inl ENOMEM
          end
      end
  end.

Definition spec_deadline (t : Z) (now : timespec) : option timespec :=
  if 0 <=? t then Some (__poller_node_set_timeout now t) else None.

Inductive call :=
  | CAdd (d : poller_data) (t : Z) (a : answers)
  | CDel (z : Z)
  | CMod (d : poller_data) (t : Z) (a : answers)
  | CSetTimeout (z t : Z) (now : timespec)
  | CAddTimer (value : timespec) (ctx : Z) (a : answers)
  | CDelTimer (x : loc).

Definition run_call (c : call) : poller -> option (option Z * poller) :=
  match c with
  | CAdd d t a => poller_add d t a
  | CDel z => poller_del z
  | CMod d t a => poller_mod d t a
  | CSetTimeout z t now => poller_set_timeout z t now
  | CAddTimer v ctx a => poller_add_timer v ctx a
  | CDelTimer x => poller_del_timer x
  end.

Definition spec_call (c : call) (s : aspec) : option Z * aspec :=
  let w := a_watch s in
  match c with
  | CAdd d t a =>
      match spec_new d a s with
      | inl e => (Some e, s)
      | inr (x, ev) =>
          match find_fd (fd d) w, ctl a with
          | Some _, _ => (Some EEXIST, s)
          | None, Some e => (Some e, s)
          | None, None =>
              (None, spec_watch (<[x := mk_watched (fd d) ev (spec_deadline t (now a))]> w) s)
          end
      end
  | CDel z =>
      match spec_fd z s, find_fd z w with
      | Some e, _ => (Some e, s)
      | None, None => (Some ENOENT, s)
      | None, Some x => (None, spec_retire x PR_ST_DELETED (spec_watch (delete x w) s))
      end
  | CMod d t a =>
      match spec_new d a s with
      | inl e => (Some e, s)
      | inr (x, ev) =>
          match find_fd (fd d) w, ctl a with
          | None, _ => (Some ENOENT, s)
          | Some _, Some e => (Some e, s)
          | Some y, None =>
              (None, spec_retire y PR_ST_MODIFIED
                 (spec_watch (<[x := mk_watched (fd d) ev (spec_deadline t (now a))]> (delete y w)) s))
          end
      end
  | CSetTimeout z t now =>
      match spec_fd z s, find_fd z w with
      | Some e, _ => (Some e, s)
      | None, None => (Some ENOENT, s)
      | None, Some x =>
          (None, spec_watch (alter (fun e => mk_watched (w_fd e) (w_event e) (spec_deadline t now)) x w) s)
      end
  | CAddTimer v ctx a =>
      match malloc_node a with
      | None => (Some ENOMEM, s)
      | Some x =>
          (None, spec_watch (<[x := mk_watched (-1) (pn_event (junk a))
                   (Some (carry (mk_timespec (tv_sec (now a) + tv_sec v) (tv_nsec (now a) + tv_nsec v))))]> w) s)
      end
  | CDelTimer x =>
      match w !! x with
      | Some _ => (None, spec_deliver x PR_ST_DELETED 0 (spec_watch (delete x w) s))
      | None => (Some ENOENT, s)
      end
  end.

(** The poller implements the specification; [H]: nodes in the hands of a thread. *)
Definition out_of (r : loc * poller_node) : loc * Z * Z := (r.1, pn_state r.2, pn_error r.2).

Record refines_with (g : loc -> Z) (p : poller) (L T N H : list loc) (s : aspec) : Prop := mk_refines {
  rf_held : held g p L T N H (a_watch s);
  rf_regs : regs (max_open_files p) (nodes p) (pfd p) (a_watch s);
  rf_max : a_max s = max_open_files p;
  rf_stopped : a_stopped s = stopped p;
  rf_pipe : a_pipe s = (fun x => (x, g x)) <$> pipe_nodes p;
  rf_out : a_out s = out_of <$> results p }.

Definition refines (p : poller) (H : list loc) (s : aspec) : Prop :=
  exists g L T N, refines_with g p L T N H s.

(** What the caller and the system must respect: descriptors are ints, [malloc]
    returns fresh memory, the clock is positive, a timer is deleted only before
    its callback. *)
Definition is_int (z : Z) : Prop := - 2 ^ 31 <= z < 2 ^ 31.
Definition clock_ok (t : timespec) : Prop :=
  0 <= tv_sec t /\ 0 <= tv_nsec t < 1000000000 /\ 0 < tv_sec t + tv_nsec t.
Definition fresh_at (p : poller) (x : ptr) : Prop :=
  forall y, x = Some y -> node_at y p = None /\ (y ∉ HEADS).
Definition answers_ok (p : poller) (a : answers) : Prop :=
  fresh_at p (malloc_res a) /\ fresh_at p (malloc_node a) /\ clock_ok (now a) /\
  (malloc_node a <> None -> malloc_node a <> malloc_res a).

Definition valid_call (c : call) (p : poller) (w : gmap loc watched) : Prop :=
  match c with
  | CAdd d _ a | CMod d _ a => is_int (fd d) /\ answers_ok p a
  | CDel z => is_int z
  | CSetTimeout z _ now => is_int z /\ clock_ok now
  | CAddTimer v _ a => answers_ok p a /\ 0 <= tv_sec v /\ 0 <= tv_nsec v < 1000000000
  | CDelTimer x =>
      (exists e, w !! x = Some e /\ w_fd e < 0) \/ (w !! x = None /\ field removed p x = Some true)
  end.

Lemma carry_pos t : 0 <= tv_sec t -> 0 <= tv_nsec t < 2000000000 -> 0 < tv_sec t + tv_nsec t -> ts_pos (carry t).
Proof.
  intros. unfold ts_pos, carry, timespec_cmp. destruct (Z.leb_spec 1000000000 (tv_nsec t)); cbn; bsplit; lia.
Qed.

Lemma set_timeout_pos now t : clock_ok now -> 0 <= t -> ts_pos (__poller_node_set_timeout now t).
Proof.
  intros (H1 & H2 & H3) Ht. unfold __poller_node_set_timeout.
  rewrite Z.quot_div_nonneg, Z.rem_mod_nonneg by lia.
  pose proof (Z.mod_pos_bound t 1000). pose proof (Z.div_pos t 1000). apply carry_pos; cbn; lia.
Qed.

Lemma bad_fd_spec p s z : is_int z -> a_max s = max_open_files p -> 0 <= max_open_files p <= 2 ^ 63 ->
  bad_fd z p = spec_fd z s.
Proof.
  intros Hz E Hm. unfold bad_fd, spec_fd, is_int in *. rewrite E.
  destruct (Z.ltb_spec z 0) as [H|H].
  - unfold wrap. rewrite <- (Z.mod_unique z (2 ^ 64) (-1) (z + 2 ^ 64)) by lia.
    destruct (Z.leb_spec (max_open_files p) (z + 2 ^ 64)); [|lia].
    destruct (Z.leb_spec 0 z); [lia|done].
  - rewrite wrap_small by lia. destruct (Z.leb_spec (max_open_files p) z), (Z.ltb_spec z (max_open_files p)), (Z.leb_spec 0 z);
      try lia; done.
Qed.

Lemma find_fd_some max slots ep w z x : regs max slots ep w -> 0 <= z ->
  slots !! Z.to_nat z = Some (Some x) -> find_fd z w = Some x /\ exists e, w !! x = Some e /\ w_fd e = z.
Proof.
  intros R Hz Hs. pose proof R as [_ _ Rs _]. apply Rs in Hs as (e & He & Ee). split; [|exists e; split; [done|lia]].
  unfold find_fd. destruct (filter _ (map_to_list w)) as [|[y e'] l] eqn:E; cbn.
  - exfalso. assert (Hin : (x, e) ∈ filter (fun kv : loc * watched => w_fd kv.2 = z) (map_to_list w)).
    { apply list_elem_of_filter. split; [cbn; lia|by apply elem_of_map_to_list]. }
    rewrite E in Hin. set_solver.
  - assert (Hin : (y, e') ∈ filter (fun kv : loc * watched => w_fd kv.2 = z) (map_to_list w)) by (rewrite E; by left).
    apply list_elem_of_filter in Hin as [E1 E2%elem_of_map_to_list]. cbn in E1. f_equal.
    eapply (regs_unique _ _ _ _ y x); [exact R|exact E2|exact He|lia|lia].
Qed.

Lemma find_fd_none max slots ep w z : regs max slots ep w -> 0 <= z ->
  slots !! Z.to_nat z = Some None -> find_fd z w = None.
Proof.
  intros R Hz Hs. unfold find_fd. destruct (filter _ (map_to_list w)) as [|[y e'] l] eqn:E; cbn; [done|].
  exfalso. assert (Hin : (y, e') ∈ filter (fun kv : loc * watched => w_fd kv.2 = z) (map_to_list w)) by (rewrite E; by left).
  apply list_elem_of_filter in Hin as [E1 E2%elem_of_map_to_list]. cbn in E1.
  destruct (regs_lt _ _ _ _ _ _ R E2) as [_ H]; [lia|]. rewrite E1 in H. congruence.
Qed.

(** *** [__poller_new_node] *)

Lemma node_in_queue g p L T N H w x : held g p L T N H w -> x ∈ L ++ T ++ N -> exists n, node_at x p = Some n /\ removed n = false.
Proof. intros Hh Hx. pose proof (h_live _ _ _ _ _ _ _ Hh x Hx) as E. apply fmap_Some in E as (n & -> & E). eauto. Qed.

Lemma watch_node g p L T N H w x e : held g p L T N H w -> w !! x = Some e ->
  x ∈ L ++ T ++ N /\ exists n b, node_at x p = Some n /\ e = entry b n.
Proof.
  intros Hh He. split; [apply (watch_at_in _ _ _ _ w x (h_tq _ _ _ _ _ _ _ Hh) (h_watch _ _ _ _ _ _ _ Hh)); eauto|].
  destruct Hh as [_ W _ _ _ _]. rewrite W in He. unfold watch_at in He.
  repeat case_decide; [..|done]; apply fmap_Some in He as (n & En & ->); eauto.
Qed.

Lemma fresh_unwatched g p L T N H w x : held g p L T N H w -> node_at x p = None -> w !! x = None.
Proof.
  intros Hh Hn. destruct (w !! x) as [e|] eqn:E; [|done].
  destruct (watch_node _ _ _ _ _ _ _ _ _ Hh E) as (_ & n & b & E' & _). congruence.
Qed.

Lemma node_at_set x y n p : node_at y (set_pnode x n p) = if decide (y = x) then Some n else node_at y p.
Proof.
  unfold node_at, set_pnode. cbn. case_decide as D; [subst; by rewrite lookup_insert_eq|by rewrite lookup_insert_ne].
Qed.

Lemma unowned_set p W x y n : (x ∉ W) -> unowned p W y -> unowned (set_pnode x n p) W y.
Proof.
  unfold unowned. intros Hx. rewrite (bind_ext_in (res_of (set_pnode x n p)) (res_of p)); [done|].
  intros z Hz. unfold res_of. rewrite node_at_set, decide_False; [done|]. by intros ->.
Qed.

(** A fresh node that holds a fresh result node. *)
Lemma held_new g p L T N H w x n :
  held g p L T N H w -> (forall r, res n = Some r -> r <> x /\ unowned p ((L ++ T ++ N) ++ pipe_nodes p ++ H) r /\ is_Some (node_at r p)) ->
  node_at x p = None -> (x ∉ HEADS) -> held g (set_pnode x n p) L T N (x :: H) w.
Proof.
  intros Hh Hr Hx Hd.
  assert (U : unowned p ((L ++ T ++ N) ++ pipe_nodes p ++ H) x) by (eapply own_unowned; [apply Hh|done..]).
  assert (Hw : x ∉ (L ++ T ++ N) ++ pipe_nodes p ++ H) by (unfold unowned in U; clear -U; set_solver).
  eapply held_take; [by apply held_fresh|by rewrite node_at_set, decide_True|by apply unowned_set|].
  intros r Er. destruct (Hr r Er) as (H1 & H2 & H3). split_and!; [done|by apply unowned_set|].
  by rewrite node_at_set, decide_False.
Qed.

Lemma new_node_ok g p L T N H s d t a :
  refines_with g p L T N H s -> is_int (fd d) -> answers_ok p a ->
  match spec_new d a s with
  | inl e => exists p1, __poller_new_node d t a p = (inl e, p1) /\
      held g p1 L T N H (a_watch s) /\ tmr_only p p1
  | inr (x, ev) => exists p1 n, __poller_new_node d t a p = (inr x, p1) /\
      held g p1 L T N (x :: H) (a_watch s) /\ tmr_only p p1 /\
      node_at x p1 = Some n /\ in_rbtree n = false /\ removed n = false /\ pn_event n = ev /\
      pn_data n = d /\ (0 <= t -> timeout n = __poller_node_set_timeout (now a) t) /\
      a_watch s !! x = None /\ 0 <= fd d < max_open_files p
  end.
Proof.
  intros [Hh R Em Es Ep Eo] Hi (Fr & Fn & _ & Ne). destruct a as [mr mn jk nw ct]. cbn in Fr, Fn, Ne.
  pose proof R as [Rl Rm _ _]. unfold spec_new, __poller_new_node.
  rewrite (bad_fd_spec p s) by (done || lia).
  destruct (spec_fd (fd d) s) as [e|] eqn:Es'; [eauto with workflow|].
  destruct (__poller_data_get_event d) as [[ev need]|]; [|eauto with workflow]. cbn [malloc_res malloc_node junk now].
  assert (Hz : 0 <= fd d < max_open_files p) by (unfold spec_fd in Es'; rewrite Em in Es'; bsplit; [lia|done..]).
  assert (Hr : forall r, (if (need : bool) then mr else None) = Some r -> node_at r p = None /\ (r ∉ HEADS) /\
            held g (set_pnode r jk p) L T N H (a_watch s)).
  { intros r Er. destruct need; [|done]. destruct (Fr r Er) as [? ?]. split_and!; [done..|]. by apply held_fresh. }
  destruct mn as [x|].
  2:{ destruct (need && _); [eauto with workflow|]. destruct (if (need : bool) then mr else None) as [r|] eqn:Er; [|eauto with workflow].
      destruct (Hr r eq_refl) as (_ & _ & ?). eexists. split; [done|]. split; [done|]. apply tmr_only_with. }
  destruct (need && bool_decide (mr = None)) eqn:En; [eauto with workflow|].
  destruct (Fn x eq_refl) as [Fx Hx]. assert (Hxr : Some x <> mr) by (by apply Ne).
  destruct (if (need : bool) then mr else None) as [r|] eqn:Er.
  - destruct (Hr r eq_refl) as (Ar & Hrh & Hh1). assert (r <> x) by (intros ->; destruct need; congruence).
    eexists _, _. split; [done|]. rewrite !node_at_set, decide_True by done.
    split; [|split_and!; try done].
    + apply held_new; [done| |by rewrite node_at_set, decide_False|done]. intros r' [= <-]. split; [done|].
      rewrite node_at_set, decide_True by done. split; [|eauto].
      assert (U : unowned p ((L ++ T ++ N) ++ pipe_nodes p ++ H) r) by (eapply own_unowned; [apply Hh|done..]).
      apply unowned_set; [unfold unowned in U; clear -U; set_solver|done].
    + intros Ht. cbn. by rewrite (proj2 (Z.leb_le 0 t) Ht).
    + by eapply (fresh_unwatched g p).
    + lia.
    + lia.
  - eexists _, _. split; [done|]. rewrite !node_at_set, decide_True by done. split_and!; try done; [|..].
    + by apply held_new.
    + intros Ht. cbn. by rewrite (proj2 (Z.leb_le 0 t) Ht).
    + by eapply (fresh_unwatched g p).
    + lia.
    + lia.
Qed.

(** *** The calls *)

Lemma refines_tmr g p p' L T N H H' L' T' N' s :
  refines_with g p L T N H s -> held g p' L' T' N' H' (a_watch s) -> tmr_only p p' -> refines p' H' s.
Proof.
  intros [] Hh K. destruct (tmr_only_fields _ _ K) as (E1 & E2 & E3 & E4 & E5 & E6).
  exists g, L', T', N'. constructor; try congruence.
  unfold pipe_nodes. by rewrite E5.
Qed.

Lemma get_slot_run fd p v : 0 <= fd -> nodes p !! Z.to_nat fd = Some v -> get_slot fd p = Some v.
Proof. intros H E. unfold get_slot. by rewrite (proj2 (Z.leb_le 0 fd) H). Qed.

Lemma set_slot_run fd p v u : 0 <= fd -> nodes p !! Z.to_nat fd = Some v ->
  set_slot fd u p = Some (with_nodes (<[Z.to_nat fd := u]> (nodes p)) p).
Proof. intros H E. unfold set_slot. by rewrite (get_slot_run fd p v). Qed.

Lemma entry_new d n t now : pn_data n = d -> (0 <= t -> timeout n = __poller_node_set_timeout now t) ->
  entry (0 <=? t) n = mk_watched (fd d) (pn_event n) (spec_deadline t now).
Proof.
  intros <- Ht. unfold entry, spec_deadline. destruct (Z.leb_spec 0 t); [by rewrite Ht|done].
Qed.

Lemma add_ok p H s d t a :
  refines p H s -> is_int (fd d) -> answers_ok p a ->
  exists p', poller_add d t a p = Some ((spec_call (CAdd d t a) s).1, p') /\
    refines p' H (spec_call (CAdd d t a) s).2.
Proof.
  intros (g & L & T & N & RW) Hi Ha. pose proof (new_node_ok g p L T N H s d t a RW Hi Ha) as Hn.
  unfold poller_add. cbn [spec_call]. destruct (spec_new d a s) as [e|[x ev]].
  { destruct Hn as (p1 & -> & Hh & K). exists p1. split; [done|]. by eapply refines_tmr. }
  destruct Hn as (p1 & n & -> & Hh & K & En & Eb & Er & Ee & Ed & Et & Ew & Hz).
  destruct (tmr_only_fields _ _ K) as (E1 & E2 & E3 & E4 & E5 & E6). pose proof (rf_regs _ _ _ _ _ _ _ RW) as R.
  destruct (regs_at _ _ _ _ (fd d) R Hz) as [v Ev]. rewrite (get_slot_run _ p1 v) by (rewrite ?E3; done || lia).
  cbn [mbind option_bind]. destruct v as [y|].
  { destruct (find_fd_some _ _ _ _ (fd d) y R) as [-> _]; [lia|done|].
    destruct (discard_hand g p1 L T N H _ x EEXIST Hh) as (p' & -> & Hh' & K'). exists p'. split; [done|].
    eapply refines_tmr; [exact RW|exact Hh'|by eapply tmr_only_trans]. }
  rewrite (find_fd_none _ _ _ _ (fd d) R) by (done || lia). destruct (ctl a) as [e|].
  { destruct (discard_hand g p1 L T N H _ x e Hh) as (p' & -> & Hh' & K'). exists p'. split; [done|].
    eapply refines_tmr; [exact RW|exact Hh'|by eapply tmr_only_trans]. }
  rewrite En. cbn [mbind option_bind]. rewrite Ee.
  destruct (held_insert g (__poller_add_fd (fd d) ev x p1) L T N H (a_watch s) x n t) as (p2 & L' & T' & N' & E & Hh' & K' & _).
  { by eapply held_other. } { done. } { done. } { done. }
  { intros Ht. rewrite Et by done. apply set_timeout_pos; [apply Ha|done]. }
  rewrite E. cbn [mbind option_bind].
  destruct (tmr_only_fields _ _ K') as (F1 & F2 & F3 & F4 & F5 & F6). cbn in F1, F2, F3, F4, F5, F6.
  rewrite (set_slot_run _ p2 None) by (rewrite ?F3, ?E3; done || lia). cbn [mbind option_bind]. eexists. split; [done|].
  rewrite (entry_new d n t (now a)) in Hh' by done. rewrite Ee in Hh'. destruct RW as [_ _ Em Es Ep Eo].
  exists g, L', T', N'. constructor; cbn; try congruence.
  - by eapply held_other.
  - rewrite F1, F3, F4, E1, E3, E4.
    apply (regs_insert _ _ _ _ x (mk_watched (fd d) ev (spec_deadline t (now a)))); done.
  - rewrite Ep. unfold pipe_nodes. cbn. by rewrite F5, E5.
Qed.

Definition set_ghost (g : loc -> Z) (x : loc) (st : Z) : loc -> Z := fun y => if decide (y = x) then st else g y.

Lemma hand_not_piped g p L T N H w x : held g p L T N (x :: H) w -> x ∉ pipe_nodes p.
Proof. intros Hh. destruct (held_drop _ _ _ _ _ _ _ _ Hh) as (_ & U & _). unfold unowned in U. clear -U. set_solver. Qed.

(** [retire] on a node in hand: it keeps the node exactly when the poller is stopped. *)
Lemma retire_ok g p L T N H w x n st :
  held g p L T N (x :: H) w -> node_at x p = Some n ->
  exists p' g' n', retire x st p = Some p' /\
    held g' p' L T N (if stopped p then x :: H else H) w /\
    p' = with_pipe (if stopped p then pipe_buf p else pipe_buf p ++ [Some x]) (with_tmr (tmr p') p) /\
    node_at x p' = Some n' /\ pn_state n' = st /\ pn_error n' = 0 /\
    (forall y, y <> x -> node_at y p' = node_at y p) /\
    (fun y => (y, g' y)) <$> pipe_nodes p' =
      ((fun y => (y, g y)) <$> pipe_nodes p) ++ (if stopped p then [] else [(x, st)]).
Proof.
  intros Hh Hn. unfold retire, set_result.
  destruct (upd_hand g p L T N H w x n (set_outcome st 0) Hh Hn eq_refl) as [-> Hh1]. cbn [mbind option_bind].
  set (p1 := set_pnode x (set_outcome st 0 n) p) in *.
  assert (Hn1 : node_at x p1 = Some (set_outcome st 0 n)) by (subst p1; by rewrite node_at_set, decide_True).
  change (stopped p1) with (stopped p). destruct (stopped p) eqn:Es.
  { exists p1, g, (set_outcome st 0 n). rewrite app_nil_r. split_and!; try done.
    - intros y Hy. subst p1. by rewrite node_at_set, decide_False. }
  destruct (upd_hand g p1 L T N H w x _ set_removed Hh1 Hn1 eq_refl) as [-> Hh2]. cbn [mbind option_bind].
  set (p2 := set_pnode x _ p1) in *.
  assert (Hn2 : node_at x p2 = Some (set_removed (set_outcome st 0 n))) by (subst p2; by rewrite node_at_set, decide_True).
  pose proof (hand_not_piped _ _ _ _ _ _ _ _ Hh2) as Hx.
  exists (pipe_write (Some x) p2), (set_ghost g x st), (set_removed (set_outcome st 0 n)). split; [done|]. split.
  { eapply (held_pipe _ p2); [|exact Hn2|].
    - eapply held_ghost; [exact Hh2|]. intros y Hy. unfold set_ghost. rewrite decide_False; [done|]. by intros ->.
    - unfold retired, set_ghost. by rewrite decide_True. }
  split_and!; try done.
  - intros y Hy. change (node_at y (pipe_write (Some x) p2)) with (node_at y p2). subst p2 p1.
    by rewrite !node_at_set, !decide_False.
  - unfold pipe_write, pipe_nodes. cbn. rewrite omap_app, fmap_app. cbn.
    replace (set_ghost g x st x) with st by (unfold set_ghost; by rewrite decide_True). f_equal.
    change (omap id (pipe_buf p)) with (pipe_nodes p2). apply list_fmap_ext. intros i y Hy%list_elem_of_lookup_2.
    unfold set_ghost. rewrite decide_False; [done|]. by intros ->.
Qed.

Lemma del_ok p H s z :
  refines p H s -> is_int z ->
  exists p', poller_del z p = Some ((spec_call (CDel z) s).1, p') /\ refines p' H (spec_call (CDel z) s).2.
Proof.
  intros (g & L & T & N & RW) Hi. destruct RW as [Hh R Em Es Ep Eo]. pose proof R as [Rl Rm _ _].
  unfold poller_del. cbn [spec_call]. rewrite (bad_fd_spec p s) by (done || lia).
  destruct (spec_fd z s) as [e|] eqn:Ez; [exists p; split; [done|]; by exists g, L, T, N|].
  assert (Hz : 0 <= z < max_open_files p) by (unfold spec_fd in Ez; rewrite Em in Ez; bsplit; [lia|done..]).
  destruct (regs_at _ _ _ _ z R Hz) as [v Ev]. rewrite (get_slot_run _ p v) by (done || lia). cbn [mbind option_bind].
  destruct v as [x|].
  2:{ rewrite (find_fd_none _ _ _ _ z R) by (done || lia). exists p. split; [done|]. by exists g, L, T, N. }
  destruct (find_fd_some _ _ _ _ z x R) as (-> & e & Hw & Efd); [lia|done|].
  destruct (watch_node _ _ _ _ _ _ _ _ _ Hh Hw) as (Hx & _).
  rewrite (set_slot_run _ p (Some x)) by (done || lia). cbn [mbind option_bind].
  set (p1 := with_nodes _ p).
  assert (Hh1 : held g p1 L T N H (a_watch s)) by (by eapply held_other).
  destruct (held_detach _ _ _ _ _ _ _ _ Hh1 Hx) as (p2 & L' & T' & N' & n & -> & Hh2 & K & _ & _ & En & _). cbn [mbind option_bind].
  set (p3 := __poller_del_fd z p2).
  assert (Hh3 : held g p3 L' T' N' (x :: H) (delete x (a_watch s))) by (by eapply held_other).
  destruct (retire_ok g p3 L' T' N' H _ x n PR_ST_DELETED Hh3 En) as (p4 & g' & n' & -> & Hh4 & E4 & En' & St & Er & _ & Pp).
  cbn [mbind option_bind].
  assert (Es4 : stopped p4 = stopped p) by (rewrite E4; cbn; by rewrite K).
  assert (Es3 : stopped p3 = stopped p) by (cbn; by rewrite K). rewrite Es3 in Hh4, E4, Pp. rewrite Es4.
  assert (R' : regs (max_open_files p4) (nodes p4) (pfd p4) (delete x (a_watch s))).
  { rewrite E4. cbn. rewrite K. cbn. subst z. by apply regs_delete; [|done|lia]. }
  unfold spec_retire. cbn [a_stopped spec_watch]. rewrite Es. destruct (stopped p) eqn:Est.
  - destruct (deliver_hand _ _ _ _ _ _ _ _ n' Hh4 En') as (p5 & -> & Hh5 & D & _). cbn [mbind option_bind].
    eexists. split; [done|]. exists g', L', T', N'. unfold delivered in D. rewrite D. constructor; cbn.
    + rewrite D in Hh5. exact Hh5.
    + exact R'.
    + rewrite E4. cbn. by rewrite K.
    + by rewrite Es4.
    + transitivity ((fun y => (y, g' y)) <$> pipe_nodes p4); [|done].
      rewrite Pp, app_nil_r, Ep. unfold pipe_nodes. cbn. by rewrite K.
    + rewrite fmap_app. cbn. unfold out_of at 2. cbn. rewrite St, Er. f_equal. rewrite Eo, E4. cbn. by rewrite K.
  - cbn [deliver_if mbind option_bind]. eexists. split; [done|]. exists g', L', T', N'. constructor; cbn.
    + exact Hh4.
    + exact R'.
    + rewrite E4. cbn. by rewrite K.
    + by rewrite Es4.
    + transitivity ((fun y => (y, g' y)) <$> pipe_nodes p4); [|done].
      rewrite Pp, Ep. unfold pipe_nodes. cbn. by rewrite K.
    + rewrite Eo, E4. cbn. by rewrite K.
Qed.

Lemma mod_ok p H s d t a :
  refines p H s -> is_int (fd d) -> answers_ok p a ->
  exists p', poller_mod d t a p = Some ((spec_call (CMod d t a) s).1, p') /\
    refines p' H (spec_call (CMod d t a) s).2.
Proof.
  intros (g & L & T & N & RW) Hi Ha. pose proof (new_node_ok g p L T N H s d t a RW Hi Ha) as Hn.
  unfold poller_mod. cbn [spec_call]. destruct (spec_new d a s) as [e|[x ev]].
  { destruct Hn as (p1 & -> & Hh & K). exists p1. split; [done|]. by eapply refines_tmr. }
  destruct Hn as (p1 & n & -> & Hh & K & En & Eb & Er & Ee & Ed & Et & Ew & Hz).
  destruct (tmr_only_fields _ _ K) as (E1 & E2 & E3 & E4 & E5 & E6). pose proof (rf_regs _ _ _ _ _ _ _ RW) as R.
  destruct (regs_at _ _ _ _ (fd d) R Hz) as [v Ev]. rewrite (get_slot_run _ p1 v) by (rewrite ?E3; done || lia).
  cbn [mbind option_bind]. destruct v as [y|].
  2:{ rewrite (find_fd_none _ _ _ _ (fd d) R) by (done || lia).
      destruct (discard_hand g p1 L T N H _ x ENOENT Hh) as (p' & -> & Hh' & K'). exists p'. split; [done|].
      eapply refines_tmr; [exact RW|exact Hh'|by eapply tmr_only_trans]. }
  destruct (find_fd_some _ _ _ _ (fd d) y R) as (-> & e & Hw & Efd); [lia|done|]. destruct (ctl a) as [err|].
  { destruct (discard_hand g p1 L T N H _ x err Hh) as (p' & -> & Hh' & K'). exists p'. split; [done|].
    eapply refines_tmr; [exact RW|exact Hh'|by eapply tmr_only_trans]. }
  rewrite En. cbn [mbind option_bind]. rewrite Ee.
  destruct (watch_node _ _ _ _ _ _ _ _ _ Hh Hw) as (Hy & _).
  set (p2 := __poller_mod_fd (fd d) ev x p1).
  assert (Hh2 : held g p2 L T N (x :: H) (a_watch s)) by (by eapply held_other).
  destruct (held_detach _ _ _ _ _ _ _ _ Hh2 Hy) as (p3 & L3 & T3 & N3 & m & -> & Hh3 & K3 & Sn & Fo & Em & _). cbn [mbind option_bind].
  destruct (retire_ok g p3 L3 T3 N3 (x :: H) _ y m PR_ST_MODIFIED Hh3 Em)
    as (p4 & g' & m' & -> & Hh4 & E4' & Em' & St & Err & F4 & Pp). cbn [mbind option_bind].
  assert (Es3 : stopped p3 = stopped p) by (rewrite K3; cbn; done). rewrite Es3 in Hh4, E4', Pp.
  assert (Es4 : stopped p4 = stopped p) by (rewrite E4'; cbn; done).
  assert (Hxy : x <> y).
  { intros ->. rewrite Hw in Ew. done. }
  assert (En4 : node_at x p4 = Some n) by (rewrite F4, Fo by done; exact En).
  assert (Hh4' : held g' p4 L3 T3 N3 (x :: if stopped p then y :: H else H) (delete y (a_watch s))).
  { destruct (stopped p); [eapply held_perm; [apply perm_swap|done]|done]. }
  destruct (held_insert g' p4 L3 T3 N3 _ _ x n t Hh4' En4 Eb Er) as (p5 & L' & T' & N' & -> & Hh5 & K5 & Sn5).
  { intros Ht. rewrite Et by done. apply set_timeout_pos; [apply Ha|done]. }
  cbn [mbind option_bind]. rewrite (entry_new d n t (now a)) in Hh5 by done. rewrite Ee in Hh5.
  assert (N5 : nodes p5 = nodes p) by (rewrite K5; cbn; rewrite E4'; cbn; rewrite K3; cbn; done).
  rewrite (set_slot_run _ p5 (Some y)) by (rewrite ?N5; done || lia). cbn [mbind option_bind].
  set (p6 := with_nodes _ p5).
  assert (Es6 : stopped p6 = stopped p) by (cbn; by rewrite K5). rewrite Es6.
  assert (Hh6 : held g' p6 L' T' N' (if stopped p then y :: H else H)
     (<[x := mk_watched (fd d) ev (spec_deadline t (now a))]> (delete y (a_watch s)))) by (by eapply held_other).
  assert (R' : regs (max_open_files p6) (nodes p6) (pfd p6)
     (<[x := mk_watched (fd d) ev (spec_deadline t (now a))]> (delete y (a_watch s)))).
  { cbn. rewrite K5. cbn. rewrite E4'. cbn. rewrite K3. cbn. rewrite E1, E3, E4.
    pose proof (regs_delete _ _ _ _ y e R Hw) as R1. rewrite Efd in R1. specialize (R1 ltac:(lia)).
    pose proof (regs_insert _ _ _ _ x (mk_watched (fd d) ev (spec_deadline t (now a))) R1 Hz) as R2. cbn in R2.
    rewrite list_insert_insert_eq, insert_delete_eq in R2. apply R2.
    - apply list_lookup_insert_eq. apply lookup_lt_Some in Ev. done.
    - rewrite lookup_delete_ne by done. done. }
  destruct RW as [_ _ Emx Es Ep Eo].
  assert (Pp6 : (fun z => (z, g' z)) <$> pipe_nodes p6 = a_pipe s ++ (if stopped p then [] else [(y, PR_ST_MODIFIED)])).
  { transitivity ((fun z => (z, g' z)) <$> pipe_nodes p4); [unfold pipe_nodes; cbn; by rewrite K5|].
    rewrite Pp, Ep. f_equal. unfold pipe_nodes. rewrite K3. cbn. by rewrite E5. }
  assert (Eo6 : results p6 = results p) by (cbn; rewrite K5; cbn; rewrite E4'; cbn; rewrite K3; cbn; done).
  assert (Em6 : a_max s = max_open_files p6) by (cbn; rewrite K5; cbn; rewrite E4'; cbn; rewrite K3; cbn; by rewrite E1).
  unfold spec_retire. cbn [a_stopped spec_watch]. rewrite Es. destruct (stopped p) eqn:Est.
  - assert (F6 : field (fun n => (pn_state n, pn_error n)) p6 y = Some (PR_ST_MODIFIED, 0)).
    { change (field (fun n => (pn_state n, pn_error n)) p5 y = Some (PR_ST_MODIFIED, 0)).
      rewrite (same_field _ p4 p5 Sn5) by done. unfold field. by rewrite Em', <- St, <- Err. }
    apply fmap_Some in F6 as (n6 & En6 & E6'). simplify_eq.
    destruct (deliver_hand _ _ _ _ _ _ _ _ n6 Hh6 En6) as (p7 & -> & Hh7 & D & _). cbn [mbind option_bind].
    eexists. split; [done|]. exists g', L', T', N'. unfold delivered in D. rewrite D. constructor; cbn [a_watch a_max a_stopped a_pipe a_out spec_deliver spec_watch].
    + rewrite D in Hh7. exact Hh7.
    + exact R'.
    + exact Em6.
    + cbn. rewrite Es. exact (eq_sym Es6).
    + rewrite app_nil_r in Pp6. exact (eq_sym Pp6).
    + cbn [snd a_out spec_deliver spec_watch results with_results]. rewrite fmap_app, Eo, <- Eo6. cbn. unfold out_of at 3. cbn. congruence.
  - cbn [deliver_if mbind option_bind]. eexists. split; [done|]. exists g', L', T', N'.
    constructor; cbn [a_watch a_max a_stopped a_pipe a_out spec_watch].
    + exact Hh6.
    + exact R'.
    + exact Em6.
    + exact (eq_sym Es6).
    + exact (eq_sym Pp6).
    + cbn [snd a_out spec_watch]. by rewrite Eo6.
Qed.

Lemma set_timeout_ok p H s z t now :
  refines p H s -> is_int z -> clock_ok now ->
  exists p', poller_set_timeout z t now p = Some ((spec_call (CSetTimeout z t now) s).1, p') /\
    refines p' H (spec_call (CSetTimeout z t now) s).2.
Proof.
  intros (g & L & T & N & RW) Hi Hc. destruct RW as [Hh R Em Es Ep Eo]. pose proof R as [Rl Rm _ _].
  unfold poller_set_timeout. cbn [spec_call]. rewrite (bad_fd_spec p s) by (done || lia).
  destruct (spec_fd z s) as [e|] eqn:Ez; [exists p; split; [done|]; by exists g, L, T, N|].
  assert (Hz : 0 <= z < max_open_files p) by (unfold spec_fd in Ez; rewrite Em in Ez; bsplit; [lia|done..]).
  destruct (regs_at _ _ _ _ z R Hz) as [v Ev]. rewrite (get_slot_run _ p v) by (done || lia). cbn [mbind option_bind].
  destruct v as [x|].
  2:{ rewrite (find_fd_none _ _ _ _ z R) by (done || lia). exists p. split; [done|]. by exists g, L, T, N. }
  destruct (find_fd_some _ _ _ _ z x R) as (-> & e & Hw & Efd); [lia|done|].
  destruct (watch_node _ _ _ _ _ _ _ _ _ Hh Hw) as (Hx & n0 & b & En0 & Ee).
  destruct (held_detach _ _ _ _ _ _ _ _ Hh Hx) as (p1 & L1 & T1 & N1 & n & -> & Hh1 & K & Sn & _ & En & Eb).
  cbn [mbind option_bind].
  assert (Er : removed n = false).
  { pose proof (same_field removed _ _ Sn ltac:(done) x) as F. rewrite (h_live _ _ _ _ _ _ _ Hh x Hx) in F.
    unfold field in F. rewrite En in F. cbn in F. congruence. }
  assert (En1 : set_in_rbtree false n = set_in_rbtree false n0).
  { pose proof (Sn x) as S. unfold node_at in En, En0. rewrite En, En0 in S. cbn in S. congruence. }
  assert (Ew : forall n', pn_data n' = pn_data n -> pn_event n' = pn_event n -> 
    (0 <= t -> timeout n' = __poller_node_set_timeout now t) ->
    <[x := entry (0 <=? t) n']> (delete x (a_watch s)) =
    alter (fun e => mk_watched (w_fd e) (w_event e) (spec_deadline t now)) x (a_watch s)).
  { intros n' E1 E2 E3. rewrite insert_delete_eq. apply map_eq. intros y. destruct (decide (y = x)) as [->|Hy].
    - rewrite lookup_insert_eq, lookup_alter, decide_True, Hw by done. cbn. f_equal. subst e. cbn.
      unfold entry, spec_deadline. rewrite E1, E2. f_equal.
      + change (fd (pn_data (set_in_rbtree false n)) = fd (pn_data n0)). by rewrite En1.
      + change (pn_event (set_in_rbtree false n) = pn_event n0). by rewrite En1.
      + destruct (Z.leb_spec 0 t); [by rewrite E3|done].
    - by rewrite lookup_insert_ne, lookup_alter_ne. }
  assert (Fin : forall p2 n2, held g p2 L1 T1 N1 (x :: H) (delete x (a_watch s)) -> tmr_only p p2 ->
    node_at x p2 = Some n2 -> pn_data n2 = pn_data n -> pn_event n2 = pn_event n -> in_rbtree n2 = false -> removed n2 = false ->
    (0 <= t -> timeout n2 = __poller_node_set_timeout now t) ->
    exists p', (p ← on_tmr (insert_timeout t x) p2; Some (None, p)) = Some (None : option Z, p') /\
      refines p' H (spec_watch (alter (fun e => mk_watched (w_fd e) (w_event e) (spec_deadline t now)) x (a_watch s)) s)).
  { intros p2 n2 Hh2 K2 En2 E1 E2 E3 E4 E5.
    destruct (held_insert g p2 _ _ _ _ _ x n2 t Hh2 En2 E3 E4) as (p3 & L' & T' & N' & -> & Hh3 & K3 & _).
    { intros Ht. rewrite E5 by done. by apply set_timeout_pos. }
    cbn [mbind option_bind]. exists p3. split; [done|]. rewrite Ew in Hh3 by done.
    destruct (tmr_only_fields _ _ (tmr_only_trans _ _ _ K2 K3)) as (F1 & F2 & F3 & F4 & F5 & F6).
    exists g, L', T', N'. constructor; cbn; try congruence.
    - rewrite F1, F3, F4. rewrite <- (Ew (mk_node 0 0 (pn_data n) false false (pn_event n) (__poller_node_set_timeout now t) None)) by done.
      rewrite insert_delete_eq. eapply regs_change; [done|exact Hw| |]; subst e; cbn.
      + change (fd (pn_data (set_in_rbtree false n)) = fd (pn_data n0)). by rewrite En1.
      + change (pn_event (set_in_rbtree false n) = pn_event n0). by rewrite En1.
    - rewrite Ep. unfold pipe_nodes. by rewrite F5. }
  destruct (Z.leb_spec 0 t) as [Ht|Ht].
  - destruct (upd_hand g p1 _ _ _ _ _ x n (set_timeout (__poller_node_set_timeout now t)) Hh1 En eq_refl) as [-> Hh2].
    cbn [mbind option_bind]. eapply Fin; [exact Hh2| |by rewrite node_at_set, decide_True|done..].
    eapply tmr_only_trans; [exact K|done].
  - cbn [mbind option_bind]. eapply Fin; [exact Hh1|done|exact En|try done..]. lia.
Qed.

Lemma add_timer_ok p H s v ctx a :
  refines p H s -> answers_ok p a -> 0 <= tv_sec v -> 0 <= tv_nsec v < 1000000000 ->
  exists p', poller_add_timer v ctx a p = Some ((spec_call (CAddTimer v ctx a) s).1, p') /\
    refines p' H (spec_call (CAddTimer v ctx a) s).2.
Proof.
  intros (g & L & T & N & RW) (_ & Fn & Hc & _) Hv1 Hv2. destruct RW as [Hh R Em Es Ep Eo].
  unfold poller_add_timer. cbn [spec_call]. destruct (malloc_node a) as [x|] eqn:Ex.
  2:{ exists p. split; [done|]. by exists g, L, T, N. }
  destruct (Fn x eq_refl) as [Fx Hx]. set (n := mk_node _ _ _ _ _ _ _ _).
  assert (Hh1 : held g (set_pnode x n p) L T N (x :: H) (a_watch s)) by (apply held_new; done).
  destruct (held_insert g _ _ _ _ _ _ x n 0 Hh1) as (p1 & L' & T' & N' & E & Hh2 & K & _).
  { by rewrite node_at_set, decide_True. } { done. } { done. }
  { intros _. apply carry_pos; cbn; destruct Hc as (? & ? & ?); lia. }
  change (on_tmr (__poller_insert_node x) (set_pnode x n p) = Some p1) in E. change (0 <=? 0) with true in Hh2.
  rewrite E. cbn [mbind option_bind]. exists p1. split; [done|].
  destruct (tmr_only_fields _ _ K) as (F1 & F2 & F3 & F4 & F5 & F6). cbn in F1, F2, F3, F4, F5, F6.
  exists g, L', T', N'. constructor; cbn; try congruence.
  - exact Hh2.
  - rewrite F1, F3, F4. apply regs_timer; [done|cbn; lia|]. by eapply (fresh_unwatched g p).
  - rewrite Ep. unfold pipe_nodes. by rewrite F5.
Qed.

Lemma del_timer_ok p H s x :
  refines p H s ->
  (exists e, a_watch s !! x = Some e /\ w_fd e < 0) \/ (a_watch s !! x = None /\ field removed p x = Some true) ->
  exists p', poller_del_timer x p = Some ((spec_call (CDelTimer x) s).1, p') /\
    refines p' H (spec_call (CDelTimer x) s).2.
Proof.
  intros (g & L & T & N & RW) Hv. destruct RW as [Hh R Em Es Ep Eo]. unfold poller_del_timer. cbn [spec_call].
  destruct Hv as [(e & Hw & Hz)|(Hw & Hr)]; rewrite Hw.
  2:{ apply fmap_Some in Hr as (n & -> & Er). cbn [mbind option_bind]. rewrite <- Er. exists p. split; [done|]. by exists g, L, T, N. }
  destruct (watch_node _ _ _ _ _ _ _ _ _ Hh Hw) as (Hx & n & b & En & Ee).
  pose proof (node_in_queue _ _ _ _ _ _ _ _ Hh Hx) as (n' & En' & Er). simplify_eq. rewrite En. cbn [mbind option_bind]. rewrite Er.
  destruct (mark_removed g p L T N H _ x n Hh Hx En) as [-> Hb]. cbn [mbind option_bind].
  destruct (held_but_detach _ _ _ _ _ _ _ _ Hb Hx) as (p2 & L' & T' & N' & n2 & -> & Hh2 & K & Sn & _ & En2 & _).
  cbn [mbind option_bind]. unfold set_result.
  destruct (upd_hand g p2 _ _ _ _ _ x n2 (set_outcome PR_ST_DELETED 0) Hh2 En2 eq_refl) as [-> Hh3]. cbn [mbind option_bind].
  set (p3 := set_pnode x _ p2) in *.
  destruct (call_back_hand g p3 _ _ _ _ _ x (set_outcome PR_ST_DELETED 0 n2) Hh3) as (p4 & -> & Hh4 & D).
  { subst p3. by rewrite node_at_set, decide_True. }
  cbn [mbind option_bind]. exists p4. split; [done|].
  destruct (tmr_only_fields _ _ K) as (F1 & F2 & F3 & F4 & F5 & F6). cbn in F1, F2, F3, F4, F5, F6.
  unfold delivered in D. exists g, L', T', N'. rewrite D. constructor; cbn [snd spec_deliver spec_watch a_watch a_max a_stopped a_pipe a_out].
  - rewrite D in Hh4. exact Hh4.
  - cbn. rewrite F1, F3, F4. by eapply regs_delete_timer.
  - cbn. congruence.
  - cbn. congruence.
  - rewrite Ep. unfold pipe_nodes. cbn. by rewrite F5.
  - cbn. rewrite fmap_app, F6, Eo. done.
Qed.

(** *** The poller thread *)

Lemma remove_node_ok p H s x e :
  refines p H s -> a_watch s !! x = Some e -> 0 <= w_fd e ->
  exists p', __poller_remove_node x p = Some (false, p') /\
    refines p' (x :: H) (spec_watch (delete x (a_watch s)) s) /\
    same_nodes (tmr p) (tmr p') /\ results p' = results p.
Proof.
  intros (g & L & T & N & RW) Hw Hz. destruct RW as [Hh R Em Es Ep Eo].
  destruct (watch_node _ _ _ _ _ _ _ _ _ Hh Hw) as (Hx & n & b & En & Ee).
  pose proof (node_in_queue _ _ _ _ _ _ _ _ Hh Hx) as (n' & En' & Er). simplify_eq.
  destruct (regs_lt _ _ _ _ _ _ R Hw Hz) as [Hlt Hs]. cbn [w_fd entry] in *.
  unfold __poller_remove_node. rewrite En. cbn [mbind option_bind]. rewrite Er.
  rewrite (set_slot_run _ p (Some x)) by done. cbn [mbind option_bind]. set (p1 := with_nodes _ p).
  assert (Hh1 : held g p1 L T N H (a_watch s)) by (by eapply held_other).
  destruct (held_detach _ _ _ _ _ _ _ _ Hh1 Hx) as (p2 & L' & T' & N' & n2 & -> & Hh2 & K & Sn & _ & En2 & _).
  cbn [mbind option_bind]. eexists. split; [done|].
  destruct (tmr_only_fields _ _ K) as (F1 & F2 & F3 & F4 & F5 & F6). cbn in F1, F2, F3, F4, F5, F6.
  split; [|by split; [exact Sn|exact F6]].
  exists g, L', T', N'. constructor; cbn; try congruence.
  - by eapply held_other.
  - rewrite F1, F3, F4. by apply (regs_delete _ _ _ _ x (entry b n)).
  - rewrite Ep. unfold pipe_nodes. cbn. by rewrite F5.
Qed.

Lemma remove_removed p x : field removed p x = Some true -> __poller_remove_node x p = Some (true, p).
Proof. intros (n & En & Er)%fmap_Some. unfold __poller_remove_node. rewrite En. cbn. by rewrite <- Er. Qed.

(** The contents of the pipe are delivered in order. *)
Definition spec_pipe (k : nat) (s : aspec) : aspec :=
  mk_aspec (a_max s) (a_stopped s) (a_watch s) (drop k (a_pipe s))
    (a_out s ++ ((fun xs : loc * Z => (xs.1, xs.2, 0)) <$> take k (a_pipe s))).

Lemma handle_pipe_loop_ok g L T N H w l : forall stop p,
  held g p L T N (omap id l ++ H) w ->
  (forall x, x ∈ omap id l -> field retired p x = Some (true, g x, 0)) ->
  exists p', handle_pipe_loop l stop p = Some (stop || bool_decide (None ∈ l), p') /\
    held g p' L T N H w /\
    p' = with_results (results p') (with_tmr (tmr p') p) /\
    out_of <$> results p' = (out_of <$> results p) ++ ((fun x => (x, g x, 0)) <$> omap id l).
Proof.
  induction l as [|[x|] l IH]; intros stop p Hh Hl; cbn [handle_pipe_loop omap list_omap] in *.
  - exists p. rewrite orb_false_r, app_nil_r. split_and!; try done. by destruct p.
  - cbn [id app] in *. destruct (held_drop _ _ _ _ _ _ _ _ Hh) as (_ & _ & n & En & _).
    destruct (deliver_hand _ _ _ _ _ _ _ _ n Hh En) as (p1 & E1 & Hh1 & D & Sa). rewrite E1. cbn [mbind option_bind].
    pose proof (Hl x ltac:(by left)) as Rx. unfold field in Rx. rewrite En in Rx. cbn in Rx.
    destruct (IH stop p1) as (p' & E & Hh' & K & Er).
    { done. }
    { intros y Hy. destruct (Sa y) as [E _]; [clear -Hy; set_solver|]. unfold field. rewrite E. apply Hl. by right. }
    exists p'. split_and!; [|done| |].
    + rewrite E. f_equal. f_equal. f_equal. apply bool_decide_ext. rewrite elem_of_cons. clear. naive_solver.
    + rewrite K, D. done.
    + rewrite Er, D. cbn. rewrite fmap_app, <- app_assoc. cbn. unfold out_of at 2. cbn. unfold retired in Rx. injection Rx as _ R1 R2. by rewrite R1, R2.
  - cbn [id] in *. destruct (IH true p Hh Hl) as (p' & E & R). exists p'. split; [|exact R]. rewrite E. f_equal. f_equal.
    rewrite orb_true_l. symmetry. apply orb_true_iff. right. apply bool_decide_eq_true. by left.
Qed.

Lemma omap_take_drop {A} (l : list (option A)) k :
  omap id l = omap id (take k l) ++ omap id (drop k l).
Proof. by rewrite <- omap_app, take_drop. Qed.

Lemma handle_pipe_ok p H s k :
  refines p H s ->
  exists p', __poller_handle_pipe k p = Some (bool_decide (None ∈ take k (pipe_buf p)), p') /\
    refines p' H (spec_pipe (length (omap id (take k (pipe_buf p)))) s) /\
    pipe_buf p' = drop k (pipe_buf p).
Proof.
  intros (g & L & T & N & RW). destruct RW as [Hh R Em Es Ep Eo]. unfold __poller_handle_pipe.
  set (l := take k (pipe_buf p)). set (p1 := with_pipe (drop k (pipe_buf p)) p).
  assert (Epn : pipe_nodes p = omap id l ++ pipe_nodes p1) by apply (omap_take_drop (pipe_buf p) k).
  destruct Hh as [Q W A O Lv Pi].
  destruct (handle_pipe_loop_ok g L T N H (a_watch s) l false p1) as (p' & E & Hh' & K & Er).
  { constructor; [done..| |done|].
    - change (own p1) with (own p). eapply own_perm; [|exact O]. rewrite Epn.
      rewrite <- (app_assoc (omap id l)). by rewrite (Permutation_app_swap_app (omap id l)).
    - intros y Hy. apply Pi. rewrite Epn. set_solver. }
  { intros y Hy. apply Pi. rewrite Epn. set_solver. }
  exists p'. split; [by rewrite E|]. split; [|by rewrite K].
  exists g, L, T, N. unfold spec_pipe. constructor; cbn.
  - done.
  - rewrite K. exact R.
  - rewrite K. exact Em.
  - rewrite K. exact Es.
  - rewrite Ep, Epn, fmap_app, drop_app_length'; [|by rewrite length_fmap]. unfold pipe_nodes. by rewrite K.
  - rewrite Er, Ep, Epn, fmap_app, take_app_length'; [|by rewrite length_fmap]. rewrite Eo. cbn. f_equal.
    rewrite <- list_fmap_compose. done.
Qed.

(** One node leaves the registrations. *)
Lemma unregister_ok g p L T N H w x e :
  held g p L T N H w -> regs (max_open_files p) (nodes p) (pfd p) w -> w !! x = Some e ->
  exists p1, unregister x p = Some p1 /\ held_but g x p1 L T N H w /\
    regs (max_open_files p1) (nodes p1) (pfd p1) (delete x w) /\
    max_open_files p1 = max_open_files p /\ stopped p1 = stopped p /\ pipe_buf p1 = pipe_buf p /\ results p1 = results p /\
    links (tmr p1) = links (tmr p) /\
    (forall y, y <> x -> node_at y p1 = node_at y p) /\
    field (fun n => fd (pn_data n)) p1 x = Some (w_fd e) /\
    (w_fd e < 0 -> field removed p1 x = Some true) /\
    (forall y, deadline (tmr p1) y = deadline (tmr p) y).
Proof.
  intros Hh R Hw. destruct (watch_node _ _ _ _ _ _ _ _ _ Hh Hw) as (Hx & n & b & En & Ee). subst e. cbn [w_fd entry].
  unfold unregister. rewrite En. cbn [mbind option_bind]. destruct (Z.leb_spec 0 (fd (pn_data n))) as [Hz|Hz].
  - destruct (regs_lt _ _ _ _ _ _ R Hw Hz) as [Hlt Hs]. cbn [w_fd entry] in *.
    rewrite (set_slot_run _ p (Some x)) by done. cbn [mbind option_bind]. eexists. split; [done|]. split.
    { apply held_held_but. by eapply held_other. }
    split; [by apply (regs_delete _ _ _ _ x (entry b n))|]. split_and!; try done; [|lia].
    unfold field. change (node_at x _) with (node_at x p). by rewrite En.
  - destruct (mark_removed g p L T N H _ x n Hh Hx En) as [-> Hb]. eexists. split; [done|]. split; [done|].
    split; [by apply (regs_delete_timer _ _ _ _ x (entry b n))|].
    split_and!; try done.
    + intros y Hy. by rewrite node_at_set, decide_False.
    + unfold field. by rewrite node_at_set, decide_True.
    + intros _. unfold field. by rewrite node_at_set, decide_True.
    + intros y. unfold deadline, set_pnode. cbn. destruct (decide (y = x)) as [->|Hy].
      * rewrite lookup_insert_eq. unfold node_at in En. by rewrite En.
      * by rewrite lookup_insert_ne.
Qed.

(** *** Timeouts *)

(** The fields of the poller that the timeouts leave alone. *)
Definition same_rest (p p' : poller) : Prop :=
  max_open_files p' = max_open_files p /\ stopped p' = stopped p /\ pipe_buf p' = pipe_buf p /\ results p' = results p.

Lemma same_rest_trans p1 p2 p3 : same_rest p1 p2 -> same_rest p2 p3 -> same_rest p1 p3.
Proof. unfold same_rest. intros (-> & -> & -> & ->) (-> & -> & -> & ->). done. Qed.

(** A node in hand keeps the descriptor it was watched with; a timer is marked. *)
Definition in_hand (w0 : gmap loc watched) (p : poller) (x : loc) : Prop :=
  exists e, w0 !! x = Some e /\ field (fun n => fd (pn_data n)) p x = Some (w_fd e) /\
    (w_fd e < 0 -> field removed p x = Some true).

Lemma in_hand_frame w0 p p' x : node_at x p' = node_at x p -> in_hand w0 p x -> in_hand w0 p' x.
Proof. intros E (e & H1 & H2 & H3). exists e. unfold field in *. by rewrite E. Qed.

Lemma hand_disjoint g p L T N Q H w : held g p L T N (Q ++ H) w ->
  forall q, q ∈ Q -> (q ∉ HEADS) /\ (q ∉ L ++ T ++ N).
Proof.
  intros Hh q Hq. destruct (h_own _ _ _ _ _ _ _ Hh) as [Hd _]. apply NoDup_app_inv in Hd as (_ & Hd & D1).
  apply NoDup_app_inv in Hd as (Hd & _ & _). apply NoDup_app_inv in Hd as (_ & _ & D2). split.
  - intros H1. eapply D1; [exact H1|]. set_solver.
  - intros H1. eapply D2; [exact H1|]. set_solver.
Qed.

(** One iteration of either loop: a node goes from the queue to the local list. *)
Lemma expire_step g p L T N Q H w w0 x e L' T' (f : timers -> option timers) :
  held g p L T N (Q ++ H) w -> regs (max_open_files p) (nodes p) (pfd p) w -> w !! x = Some e -> w0 !! x = Some e ->
  ListHead.is_list (links (tmr p)) LOCAL_LIST Q -> (forall q, q ∈ Q -> in_hand w0 p q) ->
  (forall s, tq s L T N -> ListHead.is_list (links s) LOCAL_LIST Q ->
     (forall q, q ∈ Q -> (q ∉ HEADS) /\ (q ∉ L ++ T ++ N)) ->
     exists s', f s = Some s' /\ tq s' L' T' N /\ ListHead.is_list (links s') LOCAL_LIST (Q ++ [x]) /\
       pnodes s' = pnodes s /\ timerfd s' = timerfd s) ->
  x :: L' ++ T' ≡ₚ L ++ T ->
  exists p', (p ← unregister x p; on_tmr f p) = Some p' /\
    held g p' L' T' N ((Q ++ [x]) ++ H) (delete x w) /\
    regs (max_open_files p') (nodes p') (pfd p') (delete x w) /\
    ListHead.is_list (links (tmr p')) LOCAL_LIST (Q ++ [x]) /\
    (forall q, q ∈ Q ++ [x] -> in_hand w0 p' q) /\
    (forall y, deadline (tmr p') y = deadline (tmr p) y) /\ same_rest p p'.
Proof.
  intros Hh R Hw Hw0 HL Hin Hf P.
  destruct (unregister_ok g p L T N (Q ++ H) w x e Hh R Hw) as
    (p1 & -> & Hb & R1 & E1 & E2 & E3 & E4 & El & Fo & Ffd & Frm & Fd). cbn [mbind option_bind].
  pose proof (hand_disjoint _ _ _ _ _ _ _ _ Hh) as Hd.
  destruct (Hf (tmr p1)) as (s' & E & Q' & HL' & En & Et); [apply Hb|by rewrite El|done|].
  exists (with_tmr s' p1). split; [by apply on_tmr_run|].
  assert (Hh' : held g (with_tmr s' p1) L' T' N (x :: Q ++ H) (delete x w)).
  { eapply held_remove; [exact Hb|exact Q'|by apply same_nodes_refl|exact Et|]. by left. }
  split; [eapply held_perm; [|exact Hh']; rewrite <- app_assoc; cbn [app]; by rewrite <- Permutation_middle|].
  split; [exact R1|]. split; [exact HL'|].
  assert (En' : forall y, node_at y (with_tmr s' p1) = node_at y p1) by (intros y; unfold node_at; cbn; by rewrite En).
  assert (HxQ : x ∉ Q).
  { intros Hx. destruct (Hd x Hx) as [_ Hn]. apply Hn.
    destruct (watch_node _ _ _ _ _ _ _ _ _ Hh Hw) as (? & _). done. }
  split; [|split; [|by unfold same_rest]].
  - intros q Hq. apply elem_of_app in Hq as [Hq|Hq].
    + eapply in_hand_frame; [|by apply Hin]. rewrite En'. apply Fo. intros ->. done.
    + apply list_elem_of_singleton in Hq as ->. exists e. unfold field in *. by rewrite En'.
  - intros y. rewrite <- Fd. unfold deadline. cbn. by rewrite En.
Qed.

Lemma deadline_watch g p L T N H w x : held g p L T N H w -> x ∈ L ++ T ->
  exists e, w !! x = Some e /\ w_deadline e = Some (deadline (tmr p) x).
Proof.
  intros Hh Hx. destruct Hh as [Q W _ _ _ _].
  assert (is_Some (w !! x)) as [e He] by (apply (watch_at_in _ _ _ _ w x Q W); set_solver).
  exists e. split; [done|]. rewrite W in He. unfold watch_at in He. rewrite decide_True in He by done.
  apply fmap_Some in He as (n & En & ->). unfold deadline. by rewrite En.
Qed.

Definition due (now : timespec) (e : watched) : Prop :=
  match w_deadline e with Some d => ts_le d now | None => False end.

#[export] Instance due_dec now e : Decision (due now e).
Proof. unfold due, ts_le. destruct (w_deadline e); apply _. Defined.

(** The state of both loops: [done] are the nodes taken so far. *)
Record taking (g : loc -> Z) (now : timespec) (w0 : gmap loc watched) (p0 p : poller)
    (L T N H done : list loc) (w : gmap loc watched) : Prop := mk_taking {
  tk_held : held g p L T N (done ++ H) w;
  tk_regs : regs (max_open_files p) (nodes p) (pfd p) w;
  tk_local : ListHead.is_list (links (tmr p)) LOCAL_LIST done;
  tk_hand : forall q, q ∈ done -> in_hand w0 p q;
  tk_due : forall q, q ∈ done -> exists e, w0 !! q = Some e /\ due now e;
  tk_w : forall y, w !! y = if decide (y ∈ done) then None else w0 !! y;
  tk_rest : same_rest p0 p }.

Lemma taking_step g now w0 p0 p L T N H done w x L' T' (f : timers -> option timers) :
  taking g now w0 p0 p L T N H done w -> x ∈ L ++ T -> ts_le (deadline (tmr p) x) now ->
  (forall s, tq s L T N -> ListHead.is_list (links s) LOCAL_LIST done ->
     (forall q, q ∈ done -> (q ∉ HEADS) /\ (q ∉ L ++ T ++ N)) ->
     exists s', f s = Some s' /\ tq s' L' T' N /\ ListHead.is_list (links s') LOCAL_LIST (done ++ [x]) /\
       pnodes s' = pnodes s /\ timerfd s' = timerfd s) ->
  x :: L' ++ T' ≡ₚ L ++ T ->
  exists p', (p ← unregister x p; on_tmr f p) = Some p' /\
    taking g now w0 p0 p' L' T' N H (done ++ [x]) (delete x w) /\
    (forall y, deadline (tmr p') y = deadline (tmr p) y).
Proof.
  intros [Hh R HL Hin Hdue Hw Hr] Hx Hle Hf P.
  destruct (deadline_watch _ _ _ _ _ _ _ _ Hh Hx) as (e & He & Ed).
  assert (He0 : w0 !! x = Some e) by (rewrite Hw in He; by case_decide).
  destruct (expire_step g p L T N done H w w0 x e L' T' f) as (p' & E & Hh' & R' & HL' & Hin' & Dl & Hr'); [done..|].
  exists p'. split; [done|]. split; [|done]. constructor; try done.
  - intros q Hq. apply elem_of_app in Hq as [Hq|Hq]; [by apply Hdue|]. apply list_elem_of_singleton in Hq as ->.
    exists e. split; [done|]. unfold due. by rewrite Ed.
  - intros y. destruct (decide (y = x)) as [->|Hy].
    + rewrite lookup_delete_eq, decide_True; [done|set_solver].
    + rewrite lookup_delete_ne, Hw by done. repeat case_decide; try done; set_solver.
  - by eapply same_rest_trans.
Qed.

Lemma timeout_list_ok g now w0 p0 T N H fuel : forall L p done w,
  taking g now w0 p0 p L T N H done w -> (length L < fuel)%nat ->
  exists p' L' done' w', timeout_list_loop fuel now (default TIMEO_LIST (List.hd_error L)) p = Some p' /\
    taking g now w0 p0 p' L' T N H done' w' /\
    forall y, y ∈ L' -> ~ ts_le (deadline (tmr p') y) now.
Proof.
  induction fuel as [|fuel IH]; intros L p done w Tk Hf; [lia|]. pose proof Tk as [Hh R HL Hin Hdue Hw Hr].
  pose proof Hh as [Q W A O Lv Pi]. destruct L as [|x L]; cbn [List.hd_error from_option id timeout_list_loop].
  { rewrite decide_True by done. exists p, [], done, w. split_and!; [done..|]. set_solver. }
  rewrite decide_False.
  2:{ intros ->. pose proof (tq_parts _ _ _ _ Q) as (_ & _ & _ & _ & _ & _ & HH). eapply (HH TIMEO_LIST); [unfold HEADS; set_solver|set_solver]. }
  assert (En : ListHead.get_next x (links (tmr p)) = Some (default TIMEO_LIST (List.hd_error L))).
  { destruct (tq_timeo _ _ _ _ Q) as [_ Hc]. destruct L as [|y L]; cbn [app ListHead.chain] in Hc; by destruct Hc as (_ & [Hc _] & _). }
  rewrite En. cbn [mbind option_bind].
  destruct (node_in_queue _ _ _ _ _ _ _ x Hh) as (n & -> & _); [set_solver|]. cbn [mbind option_bind].
  destruct (Z.ltb_spec 0 (timespec_cmp (deadline (tmr p) x) now)) as [Hc|Hc].
  - exists p, (x :: L), done, w. split_and!; [done..|]. intros y Hy Hle.
    pose proof (sorted_head_le _ _ _ y (tq_sorted_list _ _ _ _ Q) Hy) as Hxy.
    pose proof (ts_le_trans _ _ _ Hxy Hle) as Hx. unfold ts_le in Hx. lia.
  - destruct (taking_step g now w0 p0 p (x :: L) T N H done w x L T
        (on_links (ListHead.list_move_tail x LOCAL_LIST)) Tk) as (p1 & E & Tk1 & _); [set_solver|done| |done|].
    { intros s Qs HLs Hd. destruct (move_local_ok s x L T N done Qs HLs Hd) as (s' & E & Q' & HL' & Ep & Et & _). by exists s'. }
    destruct (unregister x p) as [p2|]; [|done]. cbn [mbind option_bind] in E |- *. rewrite E. cbn [mbind option_bind].
    destruct (IH L p1 _ _ Tk1) as (p' & L' & done' & w' & E' & R'); [cbn in Hf; lia|]. exists p', L', done', w'. by split.
Qed.

Lemma timeout_tree_ok g now w0 p0 L N H fuel : forall T p done w,
  taking g now w0 p0 p L T N H done w -> (length T < fuel)%nat ->
  (forall y, y ∈ L -> ~ ts_le (deadline (tmr p) y) now) ->
  exists p' T' done' w', timeout_tree_loop fuel now p = Some p' /\
    taking g now w0 p0 p' L T' N H done' w' /\
    forall y, y ∈ L ++ T' -> ~ ts_le (deadline (tmr p') y) now.
Proof.
  induction fuel as [|fuel IH]; intros T p done w Tk Hf HdL; [lia|]. pose proof Tk as [Hh R HL Hin Hdue Hw Hr].
  pose proof Hh as [Q W A O Lv Pi]. cbn [timeout_tree_loop]. rewrite (tq_first _ _ _ _ Q). destruct T as [|x T]; cbn [head].
  { exists p, [], done, w. split_and!; [done..|]. by rewrite app_nil_r. }
  destruct (node_in_queue _ _ _ _ _ _ _ x Hh) as (n & -> & _); [set_solver|]. cbn [mbind option_bind].
  destruct (Z.ltb_spec 0 (timespec_cmp (deadline (tmr p) x) now)) as [Hc|Hc].
  - exists p, (x :: T), done, w. split_and!; [done..|]. intros y [Hy|Hy]%elem_of_app Hle; [by apply (HdL y)|].
    pose proof (sorted_head_le _ _ _ y (tq_sorted_tree _ _ _ _ Q) Hy) as Hxy.
    pose proof (ts_le_trans _ _ _ Hxy Hle) as Hx. unfold ts_le in Hx. lia.
  - destruct (deadline_watch _ _ _ _ _ _ _ x Hh) as (e & He & _); [set_solver|].
    destruct (taking_step g now w0 p0 p L (x :: T) N H done w x L T (take_first x) Tk) as (p1 & E & Tk1 & Dl);
      [set_solver|done| |by rewrite Permutation_middle|].
    { intros s Qs HLs Hd. destruct (take_first_ok s x L T N done Qs HLs Hd) as (s' & E & Q' & HL' & Ep & Et). by exists s'. }
    destruct (unregister x p) as [p2|]; [|done]. cbn [mbind option_bind] in E |- *. rewrite E. cbn [mbind option_bind].
    destruct (IH T p1 _ _ Tk1) as (p' & T' & done' & w' & E' & R'); [cbn in Hf; lia| |by exists p', T', done', w'].
    intros y Hy. rewrite Dl. by apply HdL.
Qed.

(** *** The loops on the local list *)

Fixpoint forward (h : gmap loc ListHead.list_head) (l : list loc) : Prop :=
  match l with
  | [] => is_Some (h !! LOCAL_LIST)
  | x :: l => ListHead.get_next x h = Some (default LOCAL_LIST (List.hd_error l)) /\ forward h l
  end.

Lemma forward_frame h h' l : forward h l -> (forall q, q ∈ LOCAL_LIST :: l -> h' !! q = h !! q) -> forward h' l.
Proof.
  induction l as [|x l IH]; cbn; intros Hf F; [rewrite F; [done|set_solver]|]. destruct Hf as [H1 H2]. split.
  - unfold ListHead.get_next. rewrite F; [done|set_solver].
  - apply IH; [done|]. intros q Hq. apply F. set_solver.
Qed.

Lemma is_list_forward h l : ListHead.is_list h LOCAL_LIST l -> forward h l.
Proof.
  intros Hl. assert (A : is_Some (h !! LOCAL_LIST)) by (eapply ListHead.is_list_alloc; [done|by left]).
  destruct Hl as [_ Hc]. revert Hc. generalize LOCAL_LIST at 1. induction l as [|x l IH]; intros p Hc; cbn [forward]; [done|].
  cbn [app ListHead.chain] in Hc. destruct Hc as [_ Hc]. split; [|by eapply IH].
  destruct l as [|y l]; cbn [app ListHead.chain] in Hc; by destruct Hc as [[Hc _] _].
Qed.

Section Loop.
Context (f : loc -> poller -> option poller) (I : list loc -> list loc -> poller -> Prop).
Hypothesis body : forall d x t p, I d (x :: t) p -> (x ∉ LOCAL_LIST :: t) ->
  exists p', f x p = Some p' /\ I (d ++ [x]) t p' /\
    (forall q, q ∈ LOCAL_LIST :: t -> links (tmr p') !! q = links (tmr p) !! q).

Lemma for_each_safe_ok fuel : forall todo d p tmp,
  I d todo p -> forward (links (tmr p)) todo -> NoDup (LOCAL_LIST :: todo) -> (length todo < fuel)%nat ->
  (todo <> [] -> tmp = default LOCAL_LIST (List.hd_error (tail todo))) ->
  exists p', for_each_safe fuel f (default LOCAL_LIST (List.hd_error todo)) tmp LOCAL_LIST p = Some p' /\
    I (d ++ todo) [] p' /\ links (tmr p') !! LOCAL_LIST = links (tmr p) !! LOCAL_LIST.
Proof.
  induction fuel as [|fuel IH]; intros todo d p tmp Hi Hf Hd Hl Ht; [lia|].
  destruct todo as [|x t]; cbn [List.hd_error from_option id for_each_safe].
  - rewrite decide_True by done. exists p. by rewrite app_nil_r.
  - apply list.NoDup_cons in Hd as [Hn Hd]. apply list.NoDup_cons in Hd as [Hx Hd].
    rewrite decide_False by set_solver. cbn [forward] in Hf. destruct Hf as [_ Hf].
    destruct (body d x t p Hi) as (p1 & E & Hi1 & F); [set_solver|]. rewrite E. cbn [mbind option_bind].
    rewrite (Ht ltac:(done)). cbn [tail]. pose proof (forward_frame _ _ _ Hf F) as Hf1.
    assert (exists n, ListHead.get_next (default LOCAL_LIST (List.hd_error t)) (links (tmr p1)) = Some n /\
              (t <> [] -> n = default LOCAL_LIST (List.hd_error (tail t)))) as (n & -> & Hnx).
    { destruct t as [|y t]; cbn in *.
      - destruct Hf1 as [v Hv]. exists (ListHead.next v). unfold ListHead.get_next. by rewrite Hv.
      - destruct Hf1 as [-> _]. eauto. }
    cbn [mbind option_bind].
    destruct (IH t (d ++ [x]) p1 n Hi1 Hf1) as (p' & E' & Hi' & El); [|cbn in Hl; lia|done|].
    { apply list.NoDup_cons. split; [|done]. set_solver. }
    exists p'. split; [done|]. rewrite <- app_assoc in Hi'. split; [done|]. rewrite El. apply F. by left.
Qed.

Lemma each_local_ok p todo :
  ListHead.is_list (links (tmr p)) LOCAL_LIST todo -> I [] todo p ->
  exists p', each_local f p = Some p' /\ I todo [] p'.
Proof.
  intros Hl Hi. pose proof (is_list_forward _ _ Hl) as Hf. unfold each_local.
  destruct (is_list_ends _ _ _ Hl) as [-> _]. cbn [mbind option_bind].
  assert (exists n, ListHead.get_next (default LOCAL_LIST (List.hd_error todo)) (links (tmr p)) = Some n /\
            (todo <> [] -> n = default LOCAL_LIST (List.hd_error (tail todo)))) as (n & -> & Hn).
  { destruct todo as [|y t]; cbn in *.
    - destruct Hf as [v Hv]. exists (ListHead.next v). unfold ListHead.get_next. by rewrite Hv.
    - destruct Hf as [-> _]. eauto. }
  cbn [mbind option_bind]. destruct Hl as [Hd Hc].
  destruct (for_each_safe_ok (S (size (links (tmr p)))) todo [] p n Hi Hf Hd) as (p' & E & Hi' & _); [|done|by exists p'].
  pose proof (NoDup_dom_length (links (tmr p)) todo) as Hs. apply list.NoDup_cons in Hd as [Hd0 Hd].
  assert (length todo <= size (links (tmr p)))%nat; [|lia]. apply Hs; [done|]. intros x Hx.
  eapply ListHead.is_list_alloc; [split; [|exact Hc]; by apply list.NoDup_cons|by right].
Qed.
End Loop.

(** The results of the expired nodes: a descriptor times out, a timer finishes. *)
Definition timeout_result (w : gmap loc watched) (x : loc) : loc * Z * Z :=
  match w !! x with
  | Some e => if 0 <=? w_fd e then (x, PR_ST_ERROR, ETIMEDOUT) else (x, PR_ST_FINISHED, 0)
  | None => (x, 0, 0)
  end.

Lemma collect_ok now p H s :
  refines p H s ->
  exists g L T N p' xs, timeout_collect now p = Some p' /\
    taking g now (a_watch s) p p' L T N H xs (filter (fun kv => ~ due now kv.2) (a_watch s)) /\
    a_pipe s = (fun x => (x, g x)) <$> pipe_nodes p' /\
    forall y, y ∈ xs <-> exists e, a_watch s !! y = Some e /\ due now e.
Proof.
  intros (g & L & T & N & RW). destruct RW as [Hh R Em Es Ep Eo]. unfold timeout_collect.
  set (p1 := with_tmr (local_list (tmr p)) p).
  destruct (local_list_ok _ _ _ _ (h_tq _ _ _ _ _ _ _ Hh)) as [Q1 HL1].
  assert (Tk : taking g now (a_watch s) p p1 L T N H [] (a_watch s)).
  { constructor; try done; [|set_solver..]. destruct Hh as [Q W A O Lv Pi]. by constructor. }
  destruct (is_list_ends _ _ _ (tq_timeo _ _ _ _ Q1)) as [E1 _].
  change (links (local_list (tmr p))) with (links (tmr p1)) in E1. rewrite E1. cbn [mbind option_bind].
  destruct (timeout_list_ok g now (a_watch s) p T N H (S (size (links (tmr p1)))) L p1 [] (a_watch s) Tk)
    as (p2 & L' & xs & w' & -> & Tk2 & HdL).
  { pose proof (tq_parts _ _ _ _ Q1) as (HdL & _). apply le_n_S, NoDup_dom_length; [done|]. intros x Hx.
    eapply ListHead.is_list_alloc; [apply Q1|by right]. }
  cbn [mbind option_bind].
  destruct (timeout_tree_ok g now (a_watch s) p L' N H (S (size (mem (timeo_tree (tmr p2))))) T p2 xs w' Tk2)
    as (p3 & T' & ys & w3 & -> & Tk3 & HdT); [|done|].
  { pose proof (tk_held _ _ _ _ _ _ _ _ _ _ _ Tk2) as Hh2. pose proof (h_tq _ _ _ _ _ _ _ Hh2) as Q2.
    apply le_n_S, NoDup_dom_length; [by eapply rb_holds_nodup, Q2|]. intros x. apply rb_holds_alloc, Q2. }
  assert (Ew : w3 = filter (fun kv => ~ due now kv.2) (a_watch s)).
  { destruct Tk3 as [Hh3 _ _ _ Hdue Hw _]. apply map_eq. intros y. destruct (decide (y ∈ ys)) as [D|D].
    - pose proof (Hw y) as Ey. rewrite decide_True in Ey by done. rewrite Ey. symmetry. apply map_lookup_filter_None.
      right. intros e He Hnd. destruct (Hdue y D) as (e' & He' & Hd'). cbn in Hnd. simplify_eq. by apply Hnd.
    - pose proof (Hw y) as Ey. rewrite decide_False in Ey by done. rewrite Ey.
      destruct (a_watch s !! y) as [e|] eqn:He; symmetry; [|apply map_lookup_filter_None; by left].
      apply map_lookup_filter_Some. split; [done|]. cbn. intros Hdu.
      pose proof Hh3 as [Q W _ _ _ _]. pose proof (W y) as Wy. rewrite Ey in Wy. unfold watch_at in Wy.
      case_decide as DL.
      + apply (HdT y DL). destruct (deadline_watch _ _ _ _ _ _ _ y Hh3 DL) as (e' & He' & Ed').
        rewrite Ey in He'. simplify_eq. unfold due in Hdu. by rewrite Ed' in Hdu.
      + case_decide; [|done]. symmetry in Wy. apply fmap_Some in Wy as (n & _ & ->). done. }
  exists g, L', T', N, p3, ys. split; [done|]. split; [by rewrite <- Ew|]. split.
  { rewrite Ep. f_equal. destruct Tk3 as [_ _ _ _ _ _ (_ & _ & Epp & _)]. unfold pipe_nodes. by rewrite Epp. }
  intros y. split; [apply (tk_due _ _ _ _ _ _ _ _ _ _ _ Tk3)|]. intros (e & He & Hdu).
  destruct (decide (y ∈ ys)) as [|D]; [done|]. exfalso.
  pose proof (tk_w _ _ _ _ _ _ _ _ _ _ _ Tk3 y) as Ey. rewrite decide_False, He, Ew in Ey by done.
  apply map_lookup_filter_Some in Ey as [_ Ey]. done.
Qed.

(** Delivering the nodes of the local list, one after the other. *)
Record delivering (g : loc -> Z) (w0 w : gmap loc watched) (p0 : poller) (L T N H : list loc)
    (out : loc -> loc * Z * Z) (d t : list loc) (p : poller) : Prop := mk_delivering {
  dl_held : held g p L T N (t ++ H) w;
  dl_hand : forall x, x ∈ t -> in_hand w0 p x;
  dl_out : out_of <$> results p = (out_of <$> results p0) ++ (out <$> d);
  dl_rest : p = with_results (results p) (with_tmr (tmr p) p0) }.

Lemma deliver_step g w0 w p0 L T N H out d x t p st err :
  delivering g w0 w p0 L T N H out d (x :: t) p -> out x = (x, st, err) ->
  exists p', finish x st err p = Some p' /\ delivering g w0 w p0 L T N H out (d ++ [x]) t p' /\
    (forall q, q ∈ LOCAL_LIST :: t -> links (tmr p') !! q = links (tmr p) !! q).
Proof.
  intros [Hh Hi Ho Hr] Ex. destruct (held_drop _ _ _ _ _ _ _ _ Hh) as (_ & _ & n & En & _).
  destruct (finish_hand _ _ _ _ _ _ _ _ n st err Hh En) as (p' & E & Hh' & D & Sa). exists p'. split; [done|].
  split; [constructor|].
  - done.
  - intros y Hy. destruct (Sa y) as [Ey _]; [clear -Hy; set_solver|]. eapply in_hand_frame; [exact Ey|]. apply Hi. by right.
  - unfold delivered in D. rewrite D. cbn [results with_results]. rewrite !fmap_app, Ho, <- app_assoc. cbn. rewrite Ex. done.
  - unfold delivered in D. rewrite D. cbn. by rewrite Hr.
  - intros q Hq. apply Sa. unfold HEADS. clear -Hq. set_solver.
Qed.

Lemma finish_timeout_ok g w0 w p0 L T N H d x t p :
  delivering g w0 w p0 L T N H (timeout_result w0) d (x :: t) p ->
  exists p', finish_timeout x p = Some p' /\ delivering g w0 w p0 L T N H (timeout_result w0) (d ++ [x]) t p' /\
    (forall q, q ∈ LOCAL_LIST :: t -> links (tmr p') !! q = links (tmr p) !! q).
Proof.
  intros Dl. destruct (dl_hand _ _ _ _ _ _ _ _ _ _ _ _ Dl x ltac:(by left)) as (e & He & Hf & _).
  apply fmap_Some in Hf as (n & En & Ef). unfold finish_timeout. rewrite En. cbn [mbind option_bind]. rewrite <- Ef.
  destruct (0 <=? w_fd e) eqn:Ez; eapply deliver_step; try exact Dl; unfold timeout_result; by rewrite He, Ez.
Qed.

(** The expired nodes, each once, get their result; the others stay. *)
Definition spec_timeout (now : timespec) (xs : list loc) (s : aspec) : aspec :=
  mk_aspec (a_max s) (a_stopped s) (filter (fun kv => ~ due now kv.2) (a_watch s)) (a_pipe s)
    (a_out s ++ (timeout_result (a_watch s) <$> xs)).

Lemma hand_nodup g p L T N Q H w : held g p L T N (Q ++ H) w -> NoDup Q.
Proof.
  intros Hh. destruct (h_own _ _ _ _ _ _ _ Hh) as [Hd _]. apply NoDup_app_inv in Hd as (_ & Hd & _).
  apply NoDup_app_inv in Hd as (Hd & _ & _). apply NoDup_app_inv in Hd as (_ & Hd & _).
  apply NoDup_app_inv in Hd as (_ & Hd & _). by apply NoDup_app_inv in Hd as (Hd & _ & _).
Qed.

Lemma handle_timeout_ok now p H s :
  refines p H s ->
  exists xs p', __poller_handle_timeout now p = Some p' /\ refines p' H (spec_timeout now xs s) /\ NoDup xs /\
    (forall y, y ∈ xs <-> exists e, a_watch s !! y = Some e /\ due now e).
Proof.
  intros Rf. pose proof Rf as (g0 & L0 & T0 & N0 & RW). destruct (collect_ok now p H s Rf) as
    (g & L & T & N & p1 & xs & E & [Hh R HL Hin Hdue Hw (E1 & E2 & E3 & E4)] & Ep & Hxs).
  unfold __poller_handle_timeout. rewrite E. cbn [mbind option_bind]. unfold timeout_deliver.
  set (w := filter _ (a_watch s)) in *.
  destruct (each_local_ok finish_timeout (delivering g (a_watch s) w p1 L T N H (timeout_result (a_watch s)))) with (p := p1) (todo := xs)
    as (p2 & Er & [Hh2 _ Ho2 Hr2]).
  { intros d x t p' Dl _. by apply finish_timeout_ok. }
  { exact HL. }
  { constructor; [done|done|by rewrite app_nil_r|by destruct p1]. }
  rewrite Er. exists xs, p2. split; [done|]. split; [|split; [by eapply hand_nodup|done]].
  destruct RW as [_ _ Em Es _ Eo]. exists g, L, T, N. constructor; cbn [a_watch a_max a_stopped a_pipe a_out spec_timeout].
  - exact Hh2.
  - rewrite Hr2. exact R.
  - rewrite Hr2. cbn. congruence.
  - rewrite Hr2. cbn. congruence.
  - rewrite Ep. f_equal. unfold pipe_nodes. by rewrite Hr2.
  - by rewrite Ho2, E4, Eo.
Qed.

(** *** The timer of the thread *)

Lemma set_timer_refines p H s :
  refines p H s -> exists p', on_tmr __poller_set_timer p = Some p' /\ refines p' H s /\
    ((forall x e, a_watch s !! x = Some e -> w_deadline e = None) /\ timerfd (tmr p') = mk_timespec 0 0 \/
     exists x e d, a_watch s !! x = Some e /\ w_deadline e = Some d /\ timerfd (tmr p') = d).
Proof.
  intros (g & L & T & N & RW). destruct RW as [Hh R Em Es Ep Eo]. pose proof Hh as [Q W A O Lv Pi].
  destruct (set_timer_ok (tmr p) L T N Q) as (s' & E & Q' & En & Hc). exists (with_tmr s' p). split; [by apply on_tmr_run|].
  assert (Sn : same_nodes (tmr p) s') by (by apply same_nodes_refl).
  assert (Et : (L ++ T = [] /\ timerfd s' = mk_timespec 0 0) \/
     exists x e d, a_watch s !! x = Some e /\ w_deadline e = Some d /\ timerfd s' = d /\
       forall y e' d', a_watch s !! y = Some e' -> w_deadline e' = Some d' -> ts_le d d').
  { destruct Hc as [Hc|(x & [Hx Hle] & Et)]; [by left|right].
    destruct (deadline_watch _ _ _ _ _ _ _ x Hh Hx) as (e & He & Ed). exists x, e, (deadline (tmr p) x).
    split_and!; [done..|]. intros y e' d' He' Ed'. pose proof (W y) as Wy. rewrite He' in Wy. unfold watch_at in Wy.
    case_decide as Dy; [|case_decide; [|done]; symmetry in Wy; by apply fmap_Some in Wy as (n & _ & ->)].
    symmetry in Wy. apply fmap_Some in Wy as (n & Ey & ->). cbn in Ed'. injection Ed' as <-.
    specialize (Hle y Dy). unfold deadline at 2 in Hle. by rewrite Ey in Hle. }
  split.
  - exists g, L, T, N. constructor; try done. constructor; try done.
    + eapply watching_frame; [exact W|]. intros y b _. cbn. by rewrite En.
    + cbn. intros y e d He Ed. destruct Et as [[HLT _]|(x & e0 & d0 & He0 & Ed0 & -> & Hle)].
      * pose proof (W y) as Wy. rewrite He in Wy. unfold watch_at in Wy. rewrite HLT in Wy.
        rewrite decide_False in Wy by set_solver. case_decide; [|done]. symmetry in Wy.
        apply fmap_Some in Wy as (n & _ & ->). done.
      * split; [by eapply Hle|]. by destruct (A x e0 d0 He0 Ed0) as [Hle' Hp']; unfold ts_pos, ts_le, timespec_cmp in *; cbn in *; bsplit; lia.
    + by eapply own_same.
    + intros y Hy. rewrite (same_field removed p (with_tmr s' p) Sn) by done. by apply Lv.
    + intros y Hy. rewrite (same_field retired p (with_tmr s' p) Sn) by done. by apply Pi.
  - cbn [tmr with_tmr]. destruct Et as [[HLT Et]|(x & e & d & He & Ed & Et & _)]; [left|right; by exists x, e, d].
    split; [|done]. intros x e He. pose proof (W x) as Wx. rewrite He in Wx. unfold watch_at in Wx. rewrite HLT in Wx.
    rewrite decide_False in Wx by set_solver. case_decide; [|done]. symmetry in Wx. by apply fmap_Some in Wx as (n & _ & ->).
Qed.

(** *** Shutdown *)

Lemma unregister_hand g p L T N H w wr x e :
  held g p L T N H w -> x ∈ H -> regs (max_open_files p) (nodes p) (pfd p) wr -> wr !! x = Some e ->
  field (fun n => fd (pn_data n)) p x = Some (w_fd e) ->
  exists p1, unregister x p = Some p1 /\ held g p1 L T N H w /\
    regs (max_open_files p1) (nodes p1) (pfd p1) (delete x wr) /\ same_rest p p1 /\
    links (tmr p1) = links (tmr p) /\
    (forall y, field (fun n => fd (pn_data n)) p1 y = field (fun n => fd (pn_data n)) p y) /\
    (forall y, y <> x -> node_at y p1 = node_at y p) /\
    (w_fd e < 0 -> field removed p1 x = Some true).
Proof.
  intros Hh Hx R Hw Hf. apply fmap_Some in Hf as (n & En & Ef). unfold unregister. rewrite En. cbn [mbind option_bind].
  rewrite <- Ef. destruct (Z.leb_spec 0 (w_fd e)) as [Hz|Hz].
  - destruct (regs_lt _ _ _ _ _ _ R Hw Hz) as [Hlt Hs].
    rewrite (set_slot_run _ p (Some x)) by done. cbn [mbind option_bind]. eexists. split; [done|].
    split; [by eapply held_other|]. split; [by apply regs_delete|]. split_and!; done || lia.
  - apply list_elem_of_split in Hx as (H1 & H2 & ->).
    assert (P : H1 ++ x :: H2 ≡ₚ x :: H1 ++ H2) by (by rewrite <- Permutation_middle).
    destruct (upd_hand g p L T N (H1 ++ H2) w x n set_removed) as [-> Hh1]; [by eapply held_perm|done|done|].
    eexists. split; [done|]. split; [by eapply held_perm|]. split; [by eapply regs_delete_timer|].
    split; [done|]. split; [done|]. split; [|split].
    + intros y. unfold field. rewrite node_at_set. case_decide; [subst; by rewrite En|done].
    + intros y Hy. by rewrite node_at_set, decide_False.
    + intros _. unfold field. by rewrite node_at_set, decide_True.
Qed.

(** The first loop of [poller_stop] on the nodes it has collected. *)
Record unwatching (g : loc -> Z) (w0 : gmap loc watched) (p0 : poller) (H d t : list loc) (p : poller) : Prop := mk_unwatching {
  uw_held : held g p [] [] [] ((d ++ t) ++ H) ∅;
  uw_regs : exists wr, regs (max_open_files p) (nodes p) (pfd p) wr /\
              forall y, wr !! y = if decide (y ∈ d) then None else w0 !! y;
  uw_fd : forall y, y ∈ d ++ t -> exists e, w0 !! y = Some e /\ field (fun n => fd (pn_data n)) p y = Some (w_fd e);
  uw_removed : forall y e, y ∈ d -> w0 !! y = Some e -> w_fd e < 0 -> field removed p y = Some true;
  uw_links : links (tmr p) = links (tmr p0);
  uw_rest : same_rest p0 p }.

Lemma unwatch_step g w0 p0 H d x t p :
  unwatching g w0 p0 H d (x :: t) p -> (x ∉ LOCAL_LIST :: t) ->
  exists p', unregister x p = Some p' /\ unwatching g w0 p0 H (d ++ [x]) t p' /\
    (forall q, q ∈ LOCAL_LIST :: t -> links (tmr p') !! q = links (tmr p) !! q).
Proof.
  intros [Hh (wr & R & Hwr) Hfd Hrm Hl Hr] Hx.
  destruct (Hfd x) as (e & He & Hf); [set_solver|].
  assert (Hxd : x ∉ d).
  { pose proof (hand_nodup _ _ _ _ _ _ _ _ Hh) as Hd. by apply NoDup_middle_iff in Hd as (? & _ & _). }
  destruct (unregister_hand g p [] [] [] ((d ++ x :: t) ++ H) ∅ wr x e Hh) as (p1 & E & Hh1 & R1 & Hr1 & El & Ef & Fo & Frm);
    [set_solver|done|by rewrite Hwr, decide_False|done|].
  exists p1. split; [done|]. split; [|by intros q _; rewrite El].
  assert (Ea : (d ++ [x]) ++ t = d ++ x :: t) by (by rewrite <- app_assoc). constructor; rewrite ?Ea.
  - done.
  - exists (delete x wr). split; [done|]. intros y. destruct (decide (y = x)) as [->|Hy].
    + rewrite lookup_delete_eq, decide_True; [done|set_solver].
    + rewrite lookup_delete_ne, Hwr by done. repeat case_decide; try done; set_solver.
  - intros y Hy. rewrite Ef. by apply Hfd.
  - intros y e' [Hy|Hy]%elem_of_app He' Hz.
    + unfold field. rewrite Fo; [by eapply Hrm|]. by intros ->.
    + apply list_elem_of_singleton in Hy as ->. simplify_eq. by apply Frm.
  - congruence.
  - by eapply same_rest_trans.
Qed.

(** Everything that was watched is delivered, each node once. *)
Definition spec_stop (xs : list loc) (s : aspec) : aspec :=
  mk_aspec (a_max s) true ∅ []
    (a_out s ++ ((fun xs : loc * Z => (xs.1, xs.2, 0)) <$> a_pipe s) ++ ((fun x => (x, PR_ST_STOPPED, 0)) <$> xs)).

Lemma stop_ok p H s :
  refines p H s ->
  exists xs p', poller_stop p = Some p' /\ refines p' H (spec_stop xs s) /\ NoDup xs /\
    (forall y, y ∈ xs <-> is_Some (a_watch s !! y)).
Proof.
  intros (g & L & T & N & RW). destruct RW as [Hh R Em Es Ep Eo]. unfold poller_stop.
  set (p1 := with_stopped true p). set (s1 := mk_aspec (a_max s) true (a_watch s) (a_pipe s) (a_out s)).
  assert (Rf1 : refines p1 H s1).
  { exists g, L, T, N. constructor; try done. by eapply held_other. }
  destruct (handle_pipe_ok p1 H s1 (length (pipe_buf p1)) Rf1) as (p2 & E2 & (g2 & L2 & T2 & N2 & RW2) & Ebuf).
  rewrite E2. cbn [mbind option_bind].
  rewrite take_ge, drop_ge in * by (cbn; lia).
  assert (El : length (omap id (pipe_buf p)) = length (a_pipe s)) by (rewrite Ep, length_fmap; done).
  change (pipe_buf p1) with (pipe_buf p) in RW2. rewrite El in RW2.
  destruct RW2 as [Hh2 R2 Em2 Es2 Ep2 Eo2]. unfold spec_pipe in *. cbn [a_watch a_max a_stopped a_pipe a_out] in *.
  rewrite take_ge in Eo2 by (cbn; lia). change (a_watch s1) with (a_watch s) in *. change (a_pipe s1) with (a_pipe s) in *.
  pose proof Hh2 as [Q2 W2 A2 O2 Lv2 Pi2].
  set (p3 := with_tmr _ p2).
  destruct (local_list_ok _ _ _ _ Q2) as [Q3 HL3].
  assert (B3 : bare (tmr p3) L2 T2 N2 []).
  { constructor; [apply Q3|apply Q3|exact HL3|apply Q3|]. rewrite app_nil_r. apply Q3. }
  destruct (drain_ok (S (size (mem (timeo_tree (tmr p3))))) (tmr p3) L2 T2 N2 [] B3)
    as (t4 & xs4 & E4 & B4 & P4 & F1 & F2 & F3 & F4).
  { pose proof (br_tree _ _ _ _ _ B3) as Hrb. apply le_n_S, NoDup_dom_length; [by eapply rb_holds_nodup|].
    intros x. by apply rb_holds_alloc. }
  rewrite (on_tmr_run _ p3 t4 E4). cbn [mbind option_bind].
  destruct (splice_ok t4 L2 N2 xs4 B4) as (t5 & t6 & E5 & E6 & B6 & (G1 & G2 & G3) & G4).
  rewrite (on_tmr_run _ (with_tmr t4 p3) t5 E5). cbn [mbind option_bind].
  rewrite (on_tmr_run _ (with_tmr t5 (with_tmr t4 p3)) t6 E6). cbn [mbind option_bind].
  set (p6 := with_tmr t6 _). set (xs := N2 ++ L2 ++ xs4) in *. rewrite app_nil_r in P4.
  assert (Pxs : xs ≡ₚ L2 ++ T2 ++ N2) by (subst xs; rewrite P4; rewrite Permutation_app_comm; by rewrite <- app_assoc).
  assert (Sn : same_nodes (tmr p2) t6) by (apply same_nodes_refl; by rewrite G1, F1).
  assert (Epn : pipe_nodes p6 = []) by (unfold pipe_nodes; cbn; by rewrite Ebuf).
  assert (Epn2 : pipe_nodes p2 = []) by (unfold pipe_nodes; by rewrite Ebuf).
  assert (U6 : unwatching g2 (a_watch s) p6 H [] xs p6).
  { constructor; [| | | |done|done].
    - cbn [app]. constructor; [| |by intros ? ? ? ?| |by intros ? ?%elem_of_nil|by rewrite Epn; intros ? ?%elem_of_nil].
      + constructor; [apply B6|apply B6|apply B6|cbn; by rewrite G3, F2|cbn; by rewrite G4, F3| |
                      by intros ? ?%elem_of_nil|by intros ? ?%elem_of_nil|constructor|constructor].
        pose proof (br_apart _ _ _ _ _ B6) as Hd. cbn [app] in Hd |- *. rewrite app_nil_r.
        by apply NoDup_app_inv in Hd as (Hd & _).
      + intros y. rewrite watch_at_None; [apply lookup_empty|apply not_elem_of_nil].
      + rewrite Epn. cbn. eapply own_same; [|exact Sn]. eapply own_perm; [|exact O2]. rewrite Epn2. cbn. by rewrite Pxs.
    - exists (a_watch s). split; [exact R2|]. done.
    - cbn [app]. intros y Hy. rewrite Pxs in Hy.
      assert (is_Some (a_watch s !! y)) as [e He] by (by apply (watch_at_in _ _ _ _ _ y Q2 W2)).
      exists e. split; [done|]. destruct (watch_node _ _ _ _ _ _ _ _ _ Hh2 He) as (_ & n & b & En & ->).
      rewrite (same_field (fun n => fd (pn_data n)) p2 p6 Sn) by done. unfold field. by rewrite En.
    - set_solver. }
  destruct (each_local_ok unregister (unwatching g2 (a_watch s) p6 H)) with (p := p6) (todo := xs) as (p7 & -> & U7).
  { intros d x t p' Hu Hx. by apply unwatch_step. } { apply B6. } { exact U6. }
  cbn [mbind option_bind]. destruct U7 as [Hh7 (wr & R7 & Hwr) Hfd7 Hrm7 Hl7 (Q71 & Q72 & Q73 & Q74)].
  rewrite app_nil_r in *.
  assert (Exs : forall y, y ∈ xs <-> is_Some (a_watch s !! y)).
  { intros y. rewrite Pxs. symmetry. by apply (watch_at_in _ _ _ _ _ y Q2 W2). }
  assert (wr = ∅) as ->.
  { apply map_empty. intros y. rewrite Hwr. destruct (decide (y ∈ xs)) as [D|D]; [done|]. apply eq_None_not_Some. by rewrite <- Exs. }
  destruct (each_local_ok (fun x p => finish x PR_ST_STOPPED 0 p)
    (delivering g2 (a_watch s) ∅ p7 [] [] [] H (fun x => (x, PR_ST_STOPPED, 0)))) with (p := p7) (todo := xs) as (p8 & -> & [Hh8 _ Ho8 Hr8]).
  { intros d x t p' Dl _. by eapply deliver_step. }
  { rewrite Hl7. apply B6. }
  { constructor; [done| |by rewrite app_nil_r|by destruct p7]. intros y Hy.
    destruct (Hfd7 y Hy) as (e & He & Hf). exists e. split; [done|]. split; [done|]. intros Hz. by eapply Hrm7. }
  exists xs, p8. split; [done|]. split; [|split; [by eapply hand_nodup|exact Exs]].
  exists g2, [], [], []. constructor; cbn [a_watch a_max a_stopped a_pipe a_out spec_stop].
  - exact Hh8.
  - rewrite Hr8. exact R7.
  - rewrite Hr8. cbn [max_open_files with_results with_tmr]. rewrite Q71. exact Em2.
  - rewrite Hr8. cbn [stopped with_results with_tmr]. rewrite Q72. exact Es2.
  - rewrite Hr8. unfold pipe_nodes. cbn [pipe_buf with_results with_tmr]. rewrite Q73. cbn. by rewrite Ebuf.
  - rewrite Ho8, Q74. change (results p6) with (results p2). rewrite <- Eo2, <- app_assoc. done.
Qed.

(** *** A new poller *)

Definition spec_new_poller (max : Z) : aspec := mk_aspec max true ∅ [] [].

Lemma repeat_lookup {A} (v : A) n i : (i < n)%nat -> repeat v n !! i = Some v.
Proof. revert i. induction n as [|n IH]; intros [|i] Hi; cbn; [lia|lia|done|apply IH; lia]. Qed.

Lemma new_poller_ok max : 0 <= max <= 2 ^ 63 -> refines (new_poller max) [] (spec_new_poller max).
Proof.
  intros Hm. exists (fun _ => 0), [], [], []. constructor; cbn; try done.
  - constructor; cbn; try (by intros ? ?%elem_of_nil).
    + constructor; try (by intros ? ?%elem_of_nil). all: try done.
      * split; [apply NoDup_singleton|]. by repeat split; vm_compute.
      * split; [apply NoDup_singleton|]. by repeat split; vm_compute.
      * exists Leaf. split_and!; [split_and!; [apply NoDup_nil_2|done|done]|by exists 0%nat; constructor|done].
      * apply (bool_decide_unpack (NoDup HEADS)). by vm_compute.
      * constructor.
      * constructor.
    + intros x. unfold watch_at. rewrite !decide_False by set_solver. apply lookup_empty.
    + intros x e d E. by rewrite lookup_empty in E.
    + split; [apply (bool_decide_unpack (NoDup HEADS)); by vm_compute|set_solver].
  - constructor; cbn.
    + rewrite repeat_length. lia.
    + lia.
    + intros i x. split.
      * intros E. assert (i < Z.to_nat max)%nat by (rewrite <- (repeat_length (@None loc) (Z.to_nat max)); by eapply lookup_lt_Some).
        rewrite repeat_lookup in E; done.
      * intros (e & E & _). by rewrite lookup_empty in E.
    + intros z ev x. rewrite lookup_empty. split; [done|]. intros (_ & e & E & _). by rewrite lookup_empty in E.
Qed.

(** ** The interface *)

Lemma call_ok p H s c : refines p H s -> valid_call c p (a_watch s) ->
  exists p', run_call c p = Some ((spec_call c s).1, p') /\ refines p' H (spec_call c s).2.
Proof.
  intros R V. destruct c; cbn [valid_call run_call] in *.
  - destruct V. by apply add_ok.
  - by apply del_ok.
  - destruct V. by apply mod_ok.
  - destruct V. by apply set_timeout_ok.
  - destruct V as (V1 & V2 & V3). by apply add_timer_ok.
  - by apply del_timer_ok.
Qed.

(** A sequence of calls: the results, and the poller at the end. *)
Fixpoint run_calls (cs : list call) (p : poller) : option (list (option Z) * poller) :=
  match cs with
  | [] => Some ([], p)
  | c :: cs => '(r, p) ← run_call c p; '(rs, p) ← run_calls cs p; Some (r :: rs, p)
  end.
Fixpoint spec_calls (cs : list call) (s : aspec) : list (option Z) * aspec :=
  match cs with
  | [] => ([], s)
  | c :: cs => let '(r, s) := spec_call c s in let '(rs, s) := spec_calls cs s in (r :: rs, s)
  end.

(** Each call is valid when it is made. *)
Fixpoint valid_calls (cs : list call) (p : poller) (s : aspec) : Prop :=
  match cs with
  | [] => True
  | c :: cs =>
      valid_call c p (a_watch s) /\
      valid_calls cs (match run_call c p with Some (_, p) => p | None => p end) (spec_call c s).2
  end.

Lemma calls_ok cs : forall p H s, refines p H s -> valid_calls cs p s ->
  exists p', run_calls cs p = Some ((spec_calls cs s).1, p') /\ refines p' H (spec_calls cs s).2.
Proof.
  induction cs as [|c cs IH]; intros p H s R V; [by exists p|]. destruct V as [V Vs].
  destruct (call_ok p H s c R V) as (p1 & E1 & R1). rewrite E1 in Vs. cbn [run_calls spec_calls].
  rewrite E1. destruct (spec_call c s) as [r s1] eqn:Es. cbn [mbind option_bind fst snd] in *.
  destruct (IH p1 H s1 R1 Vs) as (p2 & -> & R2). destruct (spec_calls cs s1) as [rs s2]. by exists p2.
Qed.

(** C7. The interface of the poller implements a finite map of watched nodes.  Any
    sequence of [poller_add], [poller_del], [poller_mod], [poller_set_timeout],
    [poller_add_timer] and [poller_del_timer], with any answers of [malloc],
    [epoll_ctl] and the clock, runs without touching memory it does not own, returns
    the results the map prescribes (EBADF, EMFILE, EINVAL, ENOMEM, EEXIST, ENOENT
    and the errors of the kernel included) and leaves the memory consistent: the
    descriptor array, the epoll set, both lists, the red-black tree, the armed
    timer, the pipe and the nodes given to the callback agree with the map. *)
Theorem poller_calls_refine (cs : list call) p H s :
  refines p H s -> valid_calls cs p s ->
  exists p', run_calls cs p = Some ((spec_calls cs s).1, p') /\ refines p' H (spec_calls cs s).2.
Proof. apply calls_ok. Qed.

(** A poller at work: a listener, readers, a timer. *)
Definition demo_answers (r x : positive) (sec : Z) : answers :=
  mk_answers (Some r) (Some x) (mk_node 0 0 (mk_data 0 0 0 0 0 0) false false 0 (mk_timespec 0 0) None)
    (mk_timespec sec 0) None.

Definition demo_calls : list call :=
  [ CAdd (mk_data PD_OP_LISTEN 0 1 0 0 0) 1500 (demo_answers 10 11 100);
    CAdd (mk_data PD_OP_READ 0 2 0 0 0) (-1) (demo_answers 12 13 100);
    CAdd (mk_data PD_OP_READ 0 2 0 0 0) (-1) (demo_answers 14 15 100);
    CAdd (mk_data PD_OP_READ 0 4 0 0 0) (-1) (demo_answers 14 15 100);
    CAddTimer (mk_timespec 0 5000) 7 (demo_answers 16 17 100);
    CMod (mk_data PD_OP_WRITE 0 1 0 0 0) 200 (demo_answers 18 19 101);
    CSetTimeout 2 3000 (mk_timespec 101 0);
    CDel 3; CDel 2; CDelTimer 17 ].

Lemma demo_valid : valid_calls demo_calls (new_poller 4) (spec_new_poller 4).
Proof.
  unfold demo_calls. repeat match goal with
    | |- valid_calls (_ :: _) _ _ => split
    | |- valid_calls [] _ _ => exact I
    | |- valid_call _ _ _ => cbn [valid_call]
    | |- answers_ok _ _ => unfold answers_ok
    | |- fresh_at _ _ => intros ? [= <-]; split; [by vm_compute|by apply (bool_decide_unpack (_ ∉ HEADS)); vm_compute]
    | |- _ \/ _ => left; eexists; split; [vm_compute; reflexivity|]
    | |- _ /\ _ => split
    end; by vm_compute.
Qed.

Lemma poller_calls_refine_witness :
  exists p', run_calls demo_calls (new_poller 4) =
      Some ([None; None; Some EEXIST; Some EMFILE; None; None; None; Some ENOENT; None; None], p') /\
    refines p' [] (spec_calls demo_calls (spec_new_poller 4)).2.
Proof.
  apply (poller_calls_refine demo_calls (new_poller 4) [] (spec_new_poller 4)).
  - apply new_poller_ok. lia.
  - apply demo_valid.
Defined.

(** C25. [__poller_handle_timeout] expires exactly the nodes that are due.  It
    terminates without an error, each node whose deadline is not after [now] is
    unregistered and given to the callback once, with ETIMEDOUT when it watches a
    descriptor and as finished when it is a timer, and the other nodes stay
    watched, as do the pipe and the results so far. *)
Theorem poller_timeout_correct (now : timespec) p H s :
  refines p H s ->
  exists xs p', __poller_handle_timeout now p = Some p' /\ refines p' H (spec_timeout now xs s) /\ NoDup xs /\
    (forall y, y ∈ xs <-> exists e, a_watch s !! y = Some e /\ due now e).
Proof. apply handle_timeout_ok. Qed.


(** The poller and its specification after the first seven of these calls: a
    writer with a deadline, a reader with one and a timer. *)
Definition demo_poller : poller :=
  match run_calls (take 7 demo_calls) (new_poller 4) with Some (_, p) => p | None => new_poller 4 end.
Definition demo_spec : aspec := (spec_calls (take 7 demo_calls) (spec_new_poller 4)).2.

Lemma valid_calls_take n cs : forall p s, valid_calls cs p s -> valid_calls (take n cs) p s.
Proof. revert cs. induction n as [|n IH]; intros [|c cs] p s; cbn; [done..|]. intros [V Vs]. split; [done|by apply IH]. Qed.

Lemma demo_refines : refines demo_poller [] demo_spec.
Proof.
  destruct (calls_ok (take 7 demo_calls) (new_poller 4) [] (spec_new_poller 4)) as (p & E & R).
  - apply new_poller_ok. lia.
  - apply valid_calls_take, demo_valid.
  - unfold demo_poller, demo_spec. by rewrite E.
Qed.

Lemma poller_timeout_correct_witness :
  exists xs p', __poller_handle_timeout (mk_timespec 102 0) demo_poller = Some p' /\
    refines p' [] (spec_timeout (mk_timespec 102 0) xs demo_spec) /\ NoDup xs /\
    (forall y, y ∈ xs <-> exists e, a_watch demo_spec !! y = Some e /\ due (mk_timespec 102 0) e).
Proof. apply (poller_timeout_correct (mk_timespec 102 0) demo_poller [] demo_spec demo_refines). Defined.



(** [poller_stop] hands every node back.  It terminates without an error, the
    nodes in the pipe are delivered with their state, every node still watched is
    unregistered and delivered once as stopped, and nothing is left watched. *)
Theorem poller_stop_correct p H s :
  refines p H s ->
  exists xs p', poller_stop p = Some p' /\ refines p' H (spec_stop xs s) /\ NoDup xs /\
    (forall y, y ∈ xs <-> is_Some (a_watch s !! y)).
Proof. apply stop_ok. Qed.

Lemma poller_stop_correct_witness :
  exists xs p', poller_stop demo_poller = Some p' /\ refines p' [] (spec_stop xs demo_spec) /\ NoDup xs /\
    (forall y, y ∈ xs <-> is_Some (a_watch demo_spec !! y)).
Proof. apply (poller_stop_correct demo_poller [] demo_spec demo_refines). Defined.

(** Creation, start and destruction, whatever the system refuses.  A failed
    [poller_create] gives back everything it acquired; a poller that was created
    watches nothing and is stopped; [poller_start] either succeeds or returns -1
    with the poller and its resources as they were; [poller_destroy] gives back
    everything. *)
Theorem poller_lifecycle (max : Z) (ok : request -> bool) :
  0 <= max <= 2 ^ 63 ->
  exists r rs, poller_create max ok [] = Some (r, rs) /\
  match r with
  | None => rs = []
  | Some p =>
      refines p [] (spec_new_poller max) /\ poller_destroy rs = Some [] /\
      exists z p1 rs1, poller_start ok p rs = Some (z, p1, rs1) /\
        (z = 0 /\ refines p1 [] (mk_aspec max false ∅ [] []) /\ close_pipe rs1 = Some rs \/
         z = -1 /\ p1 = p /\ rs1 = rs)
  end.
Proof.
  intros Hm. unfold poller_create, __poller_create, __poller_create_timer.
  destruct (ok QCalloc); [|by eexists _, _]. destruct (ok QMalloc); [|by eexists _, _].
  destruct (ok QEpoll); [|by eexists _, _]. destruct (ok QTimerfd); [|by eexists _, _].
  destruct (ok QAddTimerfd); [|by eexists _, _]. destruct (ok QMutex); [|by eexists _, _].
  eexists (Some (new_poller max)), _. split; [done|]. split; [by apply new_poller_ok|]. split; [done|].
  unfold poller_start, __poller_open_pipe.
  destruct (ok QPipe); [|eexists _, _, _; split; [done|by right]].
  destruct (ok QAddPipe); [|eexists _, _, _; split; [done|by right]].
  destruct (ok QThread); [|eexists _, _, _; split; [done|by right]].
  eexists _, _, _. split; [done|]. left. split; [done|]. split; [|done].
  destruct (new_poller_ok max Hm) as (g & L & T & N & [Hh R Em Es Ep Eo]).
  exists g, L, T, N. constructor; try done. by eapply held_other.
Qed.

Lemma poller_lifecycle_witness :
  exists r rs, poller_create 4 (fun _ => true) [] = Some (r, rs) /\
  match r with
  | None => rs = []
  | Some p =>
      refines p [] (spec_new_poller 4) /\ poller_destroy rs = Some [] /\
      exists z p1 rs1, poller_start (fun _ => true) p rs = Some (z, p1, rs1) /\
        (z = 0 /\ refines p1 [] (mk_aspec 4 false ∅ [] []) /\ close_pipe rs1 = Some rs \/
         z = -1 /\ p1 = p /\ rs1 = rs)
  end.
Proof. apply (poller_lifecycle 4 (fun _ => true)). lia. Defined.

(** When the node itself cannot be allocated, the result node [__poller_new_node]
    has allocated before is neither freed nor reachable any more. *)
Lemma new_node_leak :
  let a := mk_answers (Some 12%positive) None (junk (demo_answers 1 1 0)) (mk_timespec 100 0) None in
  exists p', poller_add (mk_data PD_OP_LISTEN 0 1 0 0 0) 100 a (new_poller 4) = Some (Some ENOMEM, p') /\
    is_Some (node_at 12 p') /\ nodes p' = nodes (new_poller 4) /\ results p' = [] /\ pipe_buf p' = [].
Proof. eexists. split; [vm_compute; reflexivity|]. split_and!; try by vm_compute. by eexists. Qed.
