(* ===== verification/PollerIO.v ===== *)
(** * The event handlers of [src/kernel/poller.c]

    Each handler talks to the kernel until it would block, hands what it gets to
    the functions of [struct poller_data], delivers a result node for every
    complete item, and takes the node out of service at the end of the stream or
    on an error.  The answers of the kernel are a list, consumed in order; the
    functions of the user, [malloc] and [errno] act on a state [U].

    [io] functions are a handler up to [__poller_remove_node]: their verdict is
    [Return] or the state and error to finish the node with. *)

From S2P Require Import Prelude ListHead RBTree RBInsert RBErase RBSearch PollerTimer Poller PollerSpec.

Local Open Scope Z_scope.

Definition EAGAIN : Z := 11.
Definition ENFILE : Z := 23.
Definition ECONNABORTED : Z := 103.
Definition POLLER_BUFSIZE : Z := 256 * 1024.
Definition IOV_MAX : Z := 1024.

Inductive verdict := Return | Done (st err : Z).

(** [read] and [recvfrom]: the bytes (none: end of file) or [errno]. *)
Inductive read_answer := RBytes (b : list Z) | RErr (e : Z).
Inductive accept_answer := AConn (sockfd : Z) | AErr (e : Z).
Inductive writev_answer := WCount (n : Z) | WErr (e : Z).
(** Reads of one word: the whole word, a number of bytes that is not its size, or [errno]. *)
Inductive word_answer := NWord (v : Z) | NShort (n : Z) | NErr (e : Z).

Definition set_message (m : Z) (d : poller_data) : poller_data :=
  mk_data (operation d) (iovcnt d) (fd d) (callback d) (context d) m.
Definition set_iov (cnt : Z) (iov : Z) (d : poller_data) : poller_data :=
  mk_data (operation d) cnt (fd d) (callback d) (context d) iov.
Definition set_data (d : poller_data) (n : poller_node) : poller_node :=
  mk_node (pn_state n) (pn_error n) d (in_rbtree n) (removed n) (pn_event n) (timeout n) (res n).
Definition set_res (r : ptr) (n : poller_node) : poller_node :=
  mk_node (pn_state n) (pn_error n) (pn_data n) (in_rbtree n) (removed n) (pn_event n) (timeout n) r.

(** An address [malloc] can return. *)
Definition fresh_node (p : poller) : loc := fresh (dom (pnodes (tmr p)) ∪ list_to_set HEADS).

(** What the handlers call: the functions of [struct poller_data] and of the
    messages, [malloc] and [errno]; [junk_node]: what [malloc] leaves in a node. *)
Class functions (U : Type) := {
  malloc : U -> bool * U;
  errno : U -> Z;
  create_message : Z -> U -> Z * U;
  append : Z -> list Z -> U -> Z * Z * U;
  partial_written : Z -> Z -> U -> Z * U;
  accept_ : Z -> Z -> U -> Z * U;
  recvfrom_ : list Z -> Z -> U -> Z * U;
  event_ : Z -> U -> Z * U;
  notify_ : Z -> Z -> U -> Z * U;
  junk_node : poller_node }.

Set Default Proof Using "Type".

Section Handlers.
Context {U : Type} {UF : functions U}.

(** [res->data = d; res->error = 0; res->state = PR_ST_SUCCESS; callback(res);] *)
Definition deliver_res (r : loc) (d : poller_data) (p : poller) : option poller :=
  rn ← node_at r p;
  call_back r (set_pnode r (set_data d (set_outcome PR_ST_SUCCESS 0 rn)) p).

(** [__poller_append_message]: the return value and the final [*n]. *)
Definition feed_message (buf : list Z) (x : loc) (m : Z) (p : poller) (u : U) : option (Z * Z * poller * U) :=
  n ← node_at x p;
  let '(ret, k, u) := append m buf u in
  if 0 <? ret then
    r ← res n;
    p ← deliver_res r (pn_data n) p;
    n ← node_at x p;
    Some (ret, k, set_pnode x (set_res None (set_data (set_message 0 (pn_data n)) n)) p, u)
  else Some (ret, k, p, u).

Definition __poller_append_message (buf : list Z) (x : loc) (p : poller) (u : U)
    : option (Z * Z * poller * U) :=
  n ← node_at x p;
  if message (pn_data n) =? 0 then
    let '(ok, u) := malloc u in
    if negb ok then Some (-1, len buf, p, u) else
    let r := fresh_node p in
    let '(m, u) := create_message (context (pn_data n)) u in
    if m =? 0 then Some (-1, len buf, p, u) else
    let p := set_pnode r junk_node p in
    let p := set_pnode x (set_res (Some r) (set_data (set_message m (pn_data n)) n)) p in
    feed_message buf x m p u
  else feed_message buf x (message (pn_data n)) p u.

(** The inner loop of [__poller_handle_read]: whether [nleft] ends at zero. *)
Fixpoint feed_loop (fuel : nat) (buf : list Z) (x : loc) (p : poller) (u : U) : option (bool * poller * U) :=
  match fuel with
  | O => None
  | S fuel =>
      '(ret, k, p, u) ← __poller_append_message buf x p u;
      if ret <? 0 then Some (false, p, u)
      else if len buf <? k then Some (false, p, u)
      else if len buf =? k then Some (true, p, u)
      else feed_loop fuel (drop (Z.to_nat k) buf) x p u
  end.

Fixpoint read_io (l : list read_answer) (x : loc) (p : poller) (u : U) : option (verdict * poller * U) :=
  match l with
  | [] => None
  | RErr e :: _ => Some (if e =? EAGAIN then Return else Done PR_ST_ERROR e, p, u)
  | RBytes [] :: _ => Some (Done PR_ST_FINISHED 0, p, u)
  | RBytes b :: l =>
      '(ok, p, u) ← feed_loop (S (length b)) b x p u;
      if (ok : bool) then read_io l x p u else Some (Done PR_ST_ERROR (errno u), p, u)
  end.

(** The inner loop of [__poller_handle_write], on the bytes the entries of the
    vector designate. *)
Fixpoint consume (nleft : Z) (iov : list (list Z)) : list (list Z) :=
  match iov with
  | [] => []
  | b :: t => if len b <=? nleft then consume (nleft - len b) t else drop (Z.to_nat nleft) b :: t
  end.

(** The outer loop: [count], the vector that is left, and the error that ended it. *)
Fixpoint write_loop (l : list writev_answer) (count : Z) (iov : list (list Z))
    : option (Z * list (list Z) * option Z) :=
  match iov with
  | [] => Some (count, [], None)
  | _ :: _ =>
      match l with
      | [] => None
      | WErr e :: _ => Some (count, iov, Some e)
      | WCount n :: l => write_loop l (count + n) (consume n iov)
      end
  end.

Definition write_io (l : list writev_answer) (iov : list (list Z)) (x : loc) (p : poller) (u : U)
    : option (verdict * poller * U) :=
  n ← node_at x p;
  '(count, rest, err) ← write_loop l 0 iov;
  let d := pn_data n in
  let moved := len iov - len rest in
  let p := set_pnode x (set_data (set_iov (len rest) (message d + 16 * moved) d) n) p in
  match err with
  | None => Some (Done PR_ST_FINISHED 0, p, u)
  | Some e =>
      if e =? EAGAIN then
        if count =? 0 then Some (Return, p, u)
        else
          let '(ret, u) := partial_written count (context d) u in
          Some (if 0 <=? ret then Return else Done PR_ST_ERROR (errno u), p, u)
      else Some (Done PR_ST_ERROR e, p, u)
  end.

(** The end of an iteration of the other handlers:
    [res->data = node->data; res->data.result = result; ...; callback(res);
     res = malloc(...); node->res = res; if (!res) break;] *)
Definition emit (x : loc) (result : Z) (p : poller) (u : U) : option (bool * poller * U) :=
  n ← node_at x p;
  r ← res n;
  p ← deliver_res r (set_message result (pn_data n)) p;
  let '(ok, u) := malloc u in
  n ← node_at x p;
  if (ok : bool) then
    let r := fresh_node p in
    Some (true, set_pnode x (set_res (Some r) n) (set_pnode r junk_node p), u)
  else Some (false, set_pnode x (set_res None n) p, u).

Fixpoint listen_io (l : list accept_answer) (x : loc) (p : poller) (u : U) : option (verdict * poller * U) :=
  match l with
  | [] => None
  | AErr e :: l =>
      if (e =? EAGAIN) || (e =? EMFILE) || (e =? ENFILE) then Some (Return, p, u)
      else if e =? ECONNABORTED then listen_io l x p u
      else Some (Done PR_ST_ERROR e, p, u)
  | AConn sockfd :: l =>
      n ← node_at x p;
      let '(result, u) := accept_ sockfd (context (pn_data n)) u in
      if result =? 0 then Some (Done PR_ST_ERROR (errno u), p, u) else
      '(ok, p, u) ← emit x result p u;
      if (ok : bool) then listen_io l x p u else Some (Done PR_ST_ERROR (errno u), p, u)
  end.

Definition connect_io (sockopt : Z + Z) (x : loc) (p : poller) (u : U) : option (verdict * poller * U) :=
  let error := match sockopt with inl error => error | inr e => e end in
  Some (if error =? 0 then Done PR_ST_FINISHED 0 else Done PR_ST_ERROR error, p, u).

Fixpoint recvfrom_io (l : list read_answer) (x : loc) (p : poller) (u : U) : option (verdict * poller * U) :=
  match l with
  | [] => None
  | RErr e :: _ => Some (if e =? EAGAIN then Return else Done PR_ST_ERROR e, p, u)
  | RBytes b :: l =>
      n ← node_at x p;
      let '(result, u) := recvfrom_ b (context (pn_data n)) u in
      if result =? 0 then Some (Done PR_ST_ERROR (errno u), p, u) else
      '(ok, p, u) ← emit x result p u;
      if (ok : bool) then recvfrom_io l x p u else Some (Done PR_ST_ERROR (errno u), p, u)
  end.

(** The first loop of [__poller_handle_event]: [cnt] ([unsigned long long]) and [errno]. *)
Fixpoint event_count (l : list word_answer) (cnt : Z) : option (Z * Z) :=
  match l with
  | [] => None
  | NWord v :: l => event_count l (u64 (cnt + v))
  | NShort _ :: _ => Some (cnt, EINVAL)
  | NErr e :: _ => Some (cnt, e)
  end.

(** The second loop: the verdict and the count that is written back. *)
Fixpoint event_loop (cnt : nat) (x : loc) (p : poller) (u : U) : option (verdict * Z * poller * U) :=
  match cnt with
  | O => Some (Return, 0, p, u)
  | S cnt =>
      n ← node_at x p;
      let '(result, u) := event_ (context (pn_data n)) u in
      if result =? 0 then Some (Done PR_ST_ERROR (errno u), Z.of_nat cnt, p, u) else
      '(ok, p, u) ← emit x result p u;
      if (ok : bool) then event_loop cnt x p u else Some (Done PR_ST_ERROR (errno u), Z.of_nat cnt, p, u)
  end.

Definition event_io (l : list word_answer) (x : loc) (p : poller) (u : U) : option (verdict * Z * poller * U) :=
  '(cnt, e) ← event_count l 0;
  if e =? EAGAIN then event_loop (Z.to_nat cnt) x p u
  else Some (Done PR_ST_ERROR e, cnt, p, u).

Fixpoint notify_io (l : list word_answer) (x : loc) (p : poller) (u : U) : option (verdict * poller * U) :=
  match l with
  | [] => None
  | NWord v :: l =>
      n ← node_at x p;
      let '(result, u) := notify_ v (context (pn_data n)) u in
      if result =? 0 then Some (Done PR_ST_ERROR (errno u), p, u) else
      '(ok, p, u) ← emit x result p u;
      if (ok : bool) then notify_io l x p u else Some (Done PR_ST_ERROR (errno u), p, u)
  | NShort n :: _ => Some (if n =? 0 then Done PR_ST_FINISHED 0 else Done PR_ST_ERROR EINVAL, p, u)
  | NErr e :: _ => Some (if e =? EAGAIN then Return else Done PR_ST_ERROR e, p, u)
  end.

(** The end of every handler; [has_res]: whether it frees [node->res]. *)
Definition conclude (has_res : bool) (x : loc) (v : verdict) (p : poller) : option poller :=
  match v with
  | Return => Some p
  | Done st err =>
      '(rm, p) ← __poller_remove_node x p;
      if (rm : bool) then Some p
      else if has_res then finish x st err p
      else p ← set_result x st err p; call_back x p
  end.

Definition __poller_handle_read (l : list read_answer) (x : loc) (p : poller) (u : U) : option (poller * U) :=
  '(v, p, u) ← read_io l x p u; p ← conclude true x v p; Some (p, u).
Definition __poller_handle_write (l : list writev_answer) (iov : list (list Z)) (x : loc) (p : poller) (u : U)
    : option (poller * U) :=
  '(v, p, u) ← write_io l iov x p u; p ← conclude false x v p; Some (p, u).
Definition __poller_handle_listen (l : list accept_answer) (x : loc) (p : poller) (u : U) : option (poller * U) :=
  '(v, p, u) ← listen_io l x p u; p ← conclude true x v p; Some (p, u).
Definition __poller_handle_connect (sockopt : Z + Z) (x : loc) (p : poller) (u : U) : option (poller * U) :=
  '(v, p, u) ← connect_io sockopt x p u; p ← conclude false x v p; Some (p, u).
Definition __poller_handle_recvfrom (l : list read_answer) (x : loc) (p : poller) (u : U) : option (poller * U) :=
  '(v, p, u) ← recvfrom_io l x p u; p ← conclude true x v p; Some (p, u).
Definition __poller_handle_event (l : list word_answer) (x : loc) (p : poller) (u : U) : option (poller * U) :=
  '(v, cnt, p, u) ← event_io l x p u; p ← conclude true x v p; Some (p, u).
Definition __poller_handle_notify (l : list word_answer) (x : loc) (p : poller) (u : U) : option (poller * U) :=
  '(v, p, u) ← notify_io l x p u; p ← conclude true x v p; Some (p, u).

(** The answers of the kernel to one event, and the [switch] of
    [__poller_thread_routine]. *)
Inductive io_answer :=
  | IoRead (l : list read_answer)
  | IoWrite (l : list writev_answer) (iov : list (list Z))
  | IoListen (l : list accept_answer)
  | IoConnect (sockopt : Z + Z)
  | IoWord (l : list word_answer).

Definition handle_event_io (a : io_answer) (x : loc) (p : poller) (u : U) : option (verdict * bool * poller * U) :=
  n ← node_at x p;
  let op := operation (pn_data n) in
  match a with
  | IoRead l =>
      if op =? PD_OP_READ then '(v, p, u) ← read_io l x p u; Some (v, true, p, u)
      else if op =? PD_OP_RECVFROM then '(v, p, u) ← recvfrom_io l x p u; Some (v, true, p, u)
      else None
  | IoWrite l iov =>
      if op =? PD_OP_WRITE then '(v, p, u) ← write_io l iov x p u; Some (v, false, p, u) else None
  | IoListen l =>
      if op =? PD_OP_LISTEN then '(v, p, u) ← listen_io l x p u; Some (v, true, p, u) else None
  | IoConnect o =>
      if op =? PD_OP_CONNECT then '(v, p, u) ← connect_io o x p u; Some (v, false, p, u) else None
  | IoWord l =>
      if op =? PD_OP_EVENT then '(v, _, p, u) ← event_io l x p u; Some (v, true, p, u)
      else if op =? PD_OP_NOTIFY then '(v, p, u) ← notify_io l x p u; Some (v, true, p, u)
      else None
  end.

(** ** The memory during a handler *)

(** The parts of a node the queue, the registrations and the pipe rely on. *)
Definition key (n : poller_node) : bool * timespec * Z * Z * bool * (Z * Z) :=
  (in_rbtree n, timeout n, fd (pn_data n), pn_event n, removed n, (pn_state n, pn_error n)).

(** The nodes the poller holds. *)
Definition all_nodes (L T N H : list loc) (p : poller) : list loc := (L ++ T ++ N) ++ pipe_nodes p ++ H.

Lemma held_change g p p' L T N H w x n n' :
  held g p L T N H w -> x ∈ all_nodes L T N H p -> node_at x p = Some n -> node_at x p' = Some n' -> key n' = key n ->
  (forall y, y <> x -> (forall r, res n = Some r -> y <> r) -> is_Some (node_at y p) -> node_at y p' = node_at y p) ->
  (forall r, res n' = Some r -> res n = Some r \/ (node_at r p = None /\ (r ∉ HEADS) /\ is_Some (node_at r p'))) ->
  (res n = res n' -> forall r, res n = Some r -> is_Some (node_at r p')) ->
  (forall y, (forall r, res n = Some r -> y <> r) -> links (tmr p') !! y = links (tmr p) !! y /\
     mem (timeo_tree (tmr p')) !! y = mem (timeo_tree (tmr p)) !! y) ->
  rb_root (timeo_tree (tmr p')) = rb_root (timeo_tree (tmr p)) ->
  tree_first (tmr p') = tree_first (tmr p) -> tree_last (tmr p') = tree_last (tmr p) ->
  timerfd (tmr p') = timerfd (tmr p) -> pipe_buf p' = pipe_buf p ->
  held g p' L T N H w.
Proof.
  intros [Q W A O Lv Pi] Hx En En' Ek Fn Fr Fsame Fl Er Ef El Et Ep. unfold all_nodes in Hx.
  set (Ws := (L ++ T ++ N) ++ pipe_nodes p ++ H) in *.
  assert (Epn : pipe_nodes p' = pipe_nodes p) by (unfold pipe_nodes; by rewrite Ep).
  apply list_elem_of_split in Hx as (W1 & W2 & EW).
  assert (PW : Ws ≡ₚ x :: W1 ++ W2) by (rewrite EW; by rewrite <- Permutation_middle).
  pose proof (own_perm _ _ _ PW O) as O'. apply own_cons in O' as (O0 & Ux & _ & Hd & Hr).
  assert (Hres : forall r, res n = Some r -> r <> x /\ (r ∉ HEADS ++ (W1 ++ W2) ++ ((W1 ++ W2) ≫= res_of p)) /\ is_Some (node_at r p)).
  { intros r Er'. apply Hr. unfold res_of. rewrite En, Er'. cbn. set_solver. }
  assert (Hne : forall y, y ∈ HEADS ++ Ws -> forall r, res n = Some r -> y <> r).
  { intros y Hy r Er' ->. destruct (Hres r Er') as (H1 & H2 & _). apply elem_of_app in Hy as [Hy|Hy]; [clear -Hy H2; set_solver|].
    rewrite PW in Hy. clear -Hy H1 H2. set_solver. }
  assert (Hkey : forall y, y ∈ Ws -> key <$> node_at y p' = key <$> node_at y p).
  { intros y Hy. destruct (decide (y = x)) as [->|Hyx]; [by rewrite En, En'; cbn; rewrite Ek|].
    rewrite Fn; [done|done| |]. { apply Hne. clear -Hy. set_solver. }
    destruct O as [_ O]. apply O. clear -Hy. set_solver. }
  assert (Hproj : forall A (f : poller_node -> A) (h : _ -> A), (forall m, f m = h (key m)) -> forall y, y ∈ Ws ->
      f <$> node_at y p' = f <$> node_at y p).
  { intros A' f h Hf y Hy. specialize (Hkey y Hy). destruct (node_at y p'), (node_at y p); cbn [fmap option_fmap option_map] in *; try done.
    rewrite !Hf. congruence. }
  assert (HLW : forall y, y ∈ L ++ T ++ N -> y ∈ Ws) by (intros y Hy; subst Ws; clear -Hy; set_solver).
  assert (HPW : forall y, y ∈ pipe_nodes p -> y ∈ Ws) by (intros y Hy; subst Ws; clear -Hy; set_solver).
  constructor.
  - eapply tq_frame; [exact Q|done..| | |].
    + intros y Hy. apply Fl. apply Hne. specialize (HLW y). clear -Hy HLW. set_solver.
    + intros y Hy. apply Fl. apply Hne. rewrite !elem_of_cons in Hy. unfold HEADS.
      destruct Hy as [->|[->|Hy]]; [set_solver..|]. specialize (HLW y). clear -Hy HLW. set_solver.
    + intros y Hy. apply (Hproj _ (fun n => (in_rbtree n, timeout n)) (fun k => (k.1.1.1.1.1, k.1.1.1.1.2))); [done|]. by apply HLW.
  - eapply watching_frame; [exact W|]. intros y b Hy.
    apply (Hproj _ (entry b) (fun k => mk_watched (k.1.1.1.2) (k.1.1.2) (if b then Some (k.1.1.1.1.2) else None))); [done|]. by apply HLW.
  - by rewrite Et.
  - rewrite Epn. fold Ws. eapply own_perm; [symmetry; exact PW|]. apply own_cons.
    assert (Fo : forall y, y ∈ (W1 ++ W2) ++ ((W1 ++ W2) ≫= res_of p) -> node_at y p' = node_at y p).
    { intros y Hy. apply Fn.
      - intros ->. apply Ux. clear -Hy. set_solver.
      - intros r Er' ->. destruct (Hres r Er') as (_ & H2 & _). clear -Hy H2. set_solver.
      - destruct O0 as [_ O0]. by apply O0. }
    assert (Eb : (W1 ++ W2) ≫= res_of p' = (W1 ++ W2) ≫= res_of p).
    { apply bind_ext_in. intros y Hy. unfold res_of. rewrite Fo; [done|]. clear -Hy. set_solver. }
    rewrite Eb. split_and!.
    + eapply own_frame; [exact O0| |].
      * intros y Hy. unfold res_of. rewrite Fo; [done|]. clear -Hy. set_solver.
      * intros y Hy. by rewrite Fo.
    + exact Ux.
    + eauto.
    + unfold res_of. rewrite En'. destruct (res n'); cbn; [apply NoDup_singleton|constructor].
    + intros r Hin. unfold res_of in Hin. rewrite En' in Hin. destruct (res n') as [r'|] eqn:Er'; cbn in Hin; [|set_solver].
      apply list_elem_of_singleton in Hin as ->. destruct (Fr r' eq_refl) as [Eo|(Ha & Hh & Hs)].
      * destruct (Hres r' Eo) as (H1 & H2 & H3). split_and!; [done|done|]. apply Fsame; [congruence|done].
      * split_and!; [intros ->; congruence| |done]. rewrite not_elem_of_app. split; [done|]. intros Hin.
        destruct O0 as [_ O0]. apply O0 in Hin as [? Hin]. congruence.
  - intros y Hy. unfold field. rewrite (Hproj _ removed (fun k => k.1.2)); [by apply Lv|done|by apply HLW].
  - rewrite Epn. intros y Hy. unfold field. rewrite (Hproj _ retired (fun k => (k.1.2, k.2.1, k.2.2))); [by apply Pi|done|by apply HPW].
Qed.

Lemma all_nodes_alloc g p L T N H w y : held g p L T N H w -> y ∈ all_nodes L T N H p -> is_Some (node_at y p).
Proof. intros Hh Hy. destruct (h_own _ _ _ _ _ _ _ Hh) as [_ Ha]. apply Ha. unfold all_nodes in Hy. clear -Hy. set_solver. Qed.

(** Only the results, the node [x] and result nodes change during a handler. *)
Definition same_fields (p p' : poller) : Prop :=
  max_open_files p' = max_open_files p /\ stopped p' = stopped p /\ nodes p' = nodes p /\
  pfd p' = pfd p /\ pipe_buf p' = pipe_buf p.
Definition io_rest (x : loc) (L T N H : list loc) (p p' : poller) : Prop :=
  same_fields p p' /\ forall y, y ∈ all_nodes L T N H p -> y <> x -> node_at y p' = node_at y p.

Lemma all_nodes_same L T N H p p' : same_fields p p' -> all_nodes L T N H p' = all_nodes L T N H p.
Proof. intros (_ & _ & _ & _ & E). unfold all_nodes, pipe_nodes. by rewrite E. Qed.

Lemma io_rest_trans x L T N H p1 p2 p3 :
  io_rest x L T N H p1 p2 -> io_rest x L T N H p2 p3 -> io_rest x L T N H p1 p3.
Proof.
  intros [F1 O1] [F2 O2]. pose proof (all_nodes_same L T N H _ _ F1) as Ea. split.
  - unfold same_fields in *. destruct F2 as (-> & -> & -> & -> & ->). done.
  - intros y Hy Hx. rewrite O2, O1 by (done || by rewrite Ea). done.
Qed.

Lemma io_rest_refl x L T N H p : io_rest x L T N H p p.
Proof. done. Qed.

Lemma all_nodes_rest x L T N H p p' : io_rest x L T N H p p' -> all_nodes L T N H p' = all_nodes L T N H p.
Proof. intros [F _]. by apply all_nodes_same. Qed.

Lemma fresh_node_ok p : node_at (fresh_node p) p = None /\ (fresh_node p ∉ HEADS).
Proof.
  unfold fresh_node. pose proof (is_fresh (dom (pnodes (tmr p)) ∪ list_to_set HEADS)) as F.
  apply not_elem_of_union in F as [F1 F2]. split.
  - by apply not_elem_of_dom in F1.
  - by rewrite elem_of_list_to_set in F2.
Qed.

(** A result node: a success that carries [m] for the descriptor of [d]. *)
Definition success (d : poller_data) (m : Z) (r : loc * poller_node) : Prop :=
  pn_data r.2 = set_message m d /\ pn_state r.2 = PR_ST_SUCCESS /\ pn_error r.2 = 0.

Lemma deliver_res_run p r rn d : node_at r p = Some rn ->
  deliver_res r d p = Some (with_results (results p ++ [(r, set_data d (set_outcome PR_ST_SUCCESS 0 rn))])
    (with_tmr (release r (tmr (set_pnode r (set_data d (set_outcome PR_ST_SUCCESS 0 rn)) p)))
              (set_pnode r (set_data d (set_outcome PR_ST_SUCCESS 0 rn)) p))).
Proof.
  intros E. unfold deliver_res. rewrite E. cbn [mbind option_bind]. unfold call_back.
  rewrite node_at_set, decide_True by done. done.
Qed.

(** The result node [r] of [x] is delivered and [x] becomes [n'], which has no
    result node or a fresh one. *)
Lemma swap_result g p L T N H w x n r n' (new : bool) :
  held g p L T N H w -> x ∈ all_nodes L T N H p -> node_at x p = Some n -> res n = Some r -> key n' = key n ->
  exists rn p1, node_at r p = Some rn /\
    (forall d, exists p1', deliver_res r d p = Some p1' /\ tmr p1' = tmr p1 /\
       p1' = with_results (results p ++ [(r, set_data d (set_outcome PR_ST_SUCCESS 0 rn))]) (with_tmr (tmr p1) p)) /\
    node_at x p1 = Some n /\
    (res n' = (if new then Some (fresh_node p1) else None) ->
     held g (set_pnode x n' (if new then set_pnode (fresh_node p1) junk_node p1 else p1)) L T N H w) /\
    (if new then fresh_node p1 <> x else True) /\ p1 = with_tmr (tmr p1) p /\
    (forall y, y ∈ all_nodes L T N H p -> node_at y p1 = node_at y p /\ y <> fresh_node p1).
Proof.
  intros Hh Hx En Er Ek. pose proof (h_own _ _ _ _ _ _ _ Hh) as O. fold (all_nodes L T N H p) in O.
  apply list_elem_of_split in Hx as (W1 & W2 & EW).
  assert (PW : all_nodes L T N H p ≡ₚ x :: W1 ++ W2) by (rewrite EW; by rewrite <- Permutation_middle).
  pose proof (own_perm _ _ _ PW O) as O'. apply own_cons in O' as (_ & _ & _ & _ & Hr).
  destruct (Hr r) as (Hrx & Hrs & [rn Ern]); [unfold res_of; rewrite En, Er; cbn; set_solver|].
  set (p1 := with_tmr (release r (tmr p)) p).
  assert (Rel : forall d, release r (tmr (set_pnode r (set_data d (set_outcome PR_ST_SUCCESS 0 rn)) p)) = release r (tmr p)).
  { intros d. unfold release, set_pnode. cbn. by rewrite delete_insert_eq. }
  assert (F1 : forall y, y <> r -> node_at y p1 = node_at y p)
    by (intros y Hy; unfold p1, node_at, release; cbn; by rewrite lookup_delete_ne).
  exists rn, p1. split; [done|]. split; [|split; [by rewrite F1|]].
  { intros d. rewrite (deliver_res_run p r rn d Ern). eexists. split; [done|]. rewrite (Rel d). split; done. }
  destruct (fresh_node_ok p1) as [Ff Fh]. set (f := fresh_node p1) in *.
  assert (Hfx : f <> x) by (intros ->; rewrite F1 in Ff; congruence).
  assert (Hnr : forall y, y ∈ all_nodes L T N H p -> y <> r).
  { intros y Hy ->. rewrite PW in Hy. apply elem_of_cons in Hy as [->|Hy]; [done|]. apply Hrs. clear -Hy. set_solver. }
  split; [|split; [by destruct new|split; [done|]]].
  2:{ intros y Hy. rewrite F1 by (by apply Hnr). split; [done|]. intros ->. rewrite F1 in Ff by (by apply Hnr).
      destruct O as [_ O]. destruct (O f) as [m Em]; [clear -Hy; set_solver|congruence]. }
  intros Er'.
  set (p2 := if new then set_pnode f junk_node p1 else p1).
  assert (F2 : forall y, y <> f -> node_at y p2 = node_at y p1).
  { intros y Hy. unfold p2. destruct new; [by rewrite node_at_set, decide_False|done]. }
  assert (F3 : forall y, y <> x -> y <> f -> y <> r -> node_at y (set_pnode x n' p2) = node_at y p).
  { intros y H1 H2 H3. rewrite node_at_set, decide_False, F2, F1; done. }
  assert (Fa : forall y, y <> r -> is_Some (node_at y p) -> y <> f).
  { intros y Hy [m Em] ->. rewrite F1 in Ff by done. congruence. }
  assert (Ef : new = true -> is_Some (node_at f (set_pnode x n' p2))).
  { intros ->. unfold p2. rewrite node_at_set, decide_False, node_at_set, decide_True by done. eauto. }
  eapply (held_change g p _ L T N H w x n n'); [done| |done|by rewrite node_at_set, decide_True|done|..].
  - rewrite EW. set_solver.
  - intros y Hy Hyr Ha. apply F3; [done| |by apply Hyr]. apply Fa; [by apply Hyr|done].
  - intros r' E'. rewrite Er' in E'. destruct new; [|done]. injection E' as <-.
    destruct (decide (f = r)) as [->|Hfr]; [by left|right]. split_and!; [by rewrite <- F1|done|by apply Ef].
  - intros E' r' E''. rewrite Er' in E'. destruct new; [|congruence].
    assert (r' = f) as -> by congruence. by apply Ef.
  - intros y Hy. pose proof (Hy r Er) as Hyr. unfold p2, set_pnode, p1, release. destruct new; cbn; by rewrite !lookup_delete_ne.
  - unfold p2. by destruct new.
  - unfold p2. by destruct new.
  - unfold p2. by destruct new.
  - unfold p2. by destruct new.
  - unfold p2. by destruct new.
Qed.

(** ** Reading messages

    The reference: what [__poller_handle_read] does to the messages, without nodes
    and memory.  [m] is the unfinished message ([0]: none); the result has the
    messages that are complete, in order. *)

Definition append_ref (ctx : Z) (buf : list Z) (m : Z) (u : U) : Z * Z * Z * list Z * U :=
  let go m u :=
    let '(ret, k, u) := append m buf u in
    if 0 <? ret then (ret, k, 0, [m], u) else (ret, k, m, [], u) in
  if m =? 0 then
    let '(ok, u) := malloc u in
    if negb ok then (-1, len buf, 0, [], u) else
    let '(m, u) := create_message ctx u in
    if m =? 0 then (-1, len buf, 0, [], u) else go m u
  else go m u.

Fixpoint feed_ref (ctx : Z) (fuel : nat) (buf : list Z) (m : Z) (u : U) : option (bool * Z * list Z * U) :=
  match fuel with
  | O => None
  | S fuel =>
      let '(ret, k, m, ms, u) := append_ref ctx buf m u in
      if ret <? 0 then Some (false, m, ms, u)
      else if len buf <? k then Some (false, m, ms, u)
      else if len buf =? k then Some (true, m, ms, u)
      else '(ok, m, ms', u) ← feed_ref ctx fuel (drop (Z.to_nat k) buf) m u; Some (ok, m, ms ++ ms', u)
  end.

Fixpoint read_ref (ctx : Z) (l : list read_answer) (m : Z) (u : U) : option (verdict * Z * list Z * U) :=
  match l with
  | [] => None
  | RErr e :: _ => Some (if e =? EAGAIN then Return else Done PR_ST_ERROR e, m, [], u)
  | RBytes [] :: _ => Some (Done PR_ST_FINISHED 0, m, [], u)
  | RBytes b :: l =>
      '(ok, m, ms, u) ← feed_ref ctx (S (length b)) b m u;
      if (ok : bool) then '(v, m, ms', u) ← read_ref ctx l m u; Some (v, m, ms ++ ms', u)
      else Some (Done PR_ST_ERROR (errno u), m, ms, u)
  end.

(** The node [x] during a read: [d0] is its data, [m] its message. *)
Record reading (g : loc -> Z) (L T N H : list loc) (w : gmap loc watched) (x : loc) (n0 : poller_node)
    (m : Z) (n : poller_node) (p : poller) : Prop := mk_reading {
  rd_held : held g p L T N H w;
  rd_in : x ∈ all_nodes L T N H p;
  rd_node : node_at x p = Some n;
  rd_key : key n = key n0;
  rd_data : pn_data n = set_message m (pn_data n0);
  rd_res : m <> 0 -> res n <> None }.

(** Delivered results: one success per message, in order. *)
Definition successes (d : poller_data) (ms : list Z) (rs : list (loc * poller_node)) : Prop :=
  Forall2 (success d) ms rs.

Lemma set_message_twice m m' d : set_message m (set_message m' d) = set_message m d.
Proof. by destruct d. Qed.

Lemma feed_message_ok g L T N H w x n0 m n p buf u ret k u' :
  reading g L T N H w x n0 m n p -> m <> 0 -> append m buf u = (ret, k, u') ->
  exists p' n' rs, feed_message buf x m p u = Some (ret, k, p', u') /\
    reading g L T N H w x n0 (if 0 <? ret then 0 else m) n' p' /\ io_rest x L T N H p p' /\
    results p' = results p ++ rs /\ successes (pn_data n0) (if 0 <? ret then [m] else []) rs.
Proof.
  intros [Hh Hx En Ek Ed Er] Hm Ea. unfold feed_message. rewrite En. cbn [mbind option_bind]. rewrite Ea.
  destruct (Z.ltb_spec 0 ret) as [Hp|Hp].
  2:{ exists p, n, []. rewrite app_nil_r. split_and!; [done|done|done|done|constructor]. }
  destruct (res n) as [r|] eqn:Eres; [|by destruct (Er Hm)]. cbn [mbind option_bind].
  set (n' := set_res None (set_data (set_message 0 (pn_data n)) n)).
  destruct (swap_result g p L T N H w x n r n' false Hh Hx En Eres) as (rn & p1 & Ern & Hdel & En1 & Hh' & _ & Ep1 & Ho); [done|].
  destruct (Hdel (pn_data n)) as (p1' & -> & Et & Ep'). cbn [mbind option_bind].
  assert (En1' : node_at x p1' = Some n) by (unfold node_at in *; by rewrite Et). rewrite En1'. cbn [mbind option_bind].
  fold n'. exists (set_pnode x n' p1'), n', [(r, set_data (pn_data n) (set_outcome PR_ST_SUCCESS 0 rn))].
  assert (Io : io_rest x L T N H p (set_pnode x n' p1')).
  { split; [by rewrite Ep'|]. intros y Hy Hyx. rewrite node_at_set, decide_False by done.
    transitivity (node_at y p1); [unfold node_at; by rewrite Et|by apply Ho]. }
  split; [done|]. split; [constructor|].
  - eapply held_other; [apply Hh'; done|unfold set_pnode; cbn; by rewrite Et|rewrite Ep', Ep1; done].
  - by rewrite (all_nodes_rest x _ _ _ _ p).
  - by rewrite node_at_set, decide_True.
  - by rewrite <- Ek.
  - cbn. by rewrite Ed, set_message_twice.
  - done.
  - split; [done|]. split; [by rewrite Ep'|]. constructor; [|constructor]. split_and!; [|done|done]. cbn. by rewrite Ed.
Qed.

Lemma append_message_ok g L T N H w x n0 m n p buf u ret k m' ms u' :
  reading g L T N H w x n0 m n p -> append_ref (context (pn_data n0)) buf m u = (ret, k, m', ms, u') ->
  exists p' n' rs, __poller_append_message buf x p u = Some (ret, k, p', u') /\
    reading g L T N H w x n0 m' n' p' /\ io_rest x L T N H p p' /\
    results p' = results p ++ rs /\ successes (pn_data n0) ms rs.
Proof.
  intros Rd Ea. pose proof Rd as [Hh Hx En Ek Ed Er]. unfold __poller_append_message. rewrite En. cbn [mbind option_bind].
  replace (message (pn_data n)) with m by (by rewrite Ed). replace (context (pn_data n)) with (context (pn_data n0)) by (by rewrite Ed).
  assert (Go : forall p n m u ret k m' ms u', reading g L T N H w x n0 m n p -> m <> 0 ->
     (let '(ret, k, u) := append m buf u in if 0 <? ret then (ret, k, 0, [m], u) else (ret, k, m, [], u)) = (ret, k, m', ms, u') ->
     exists p' n' rs, feed_message buf x m p u = Some (ret, k, p', u') /\
       reading g L T N H w x n0 m' n' p' /\ io_rest x L T N H p p' /\ results p' = results p ++ rs /\ successes (pn_data n0) ms rs).
  { intros q nq mq v ret' k' m'' ms' v' Rq Hm E. destruct (append mq buf v) as [[ret1 k1] u1] eqn:Eap.
    destruct (feed_message_ok _ _ _ _ _ _ _ _ _ _ _ buf v _ _ _ Rq Hm Eap) as (p' & n' & rs & R).
    exists p', n', rs. revert E R. destruct (0 <? ret1); intros E R; injection E as <- <- <- <- <-; exact R. }
  unfold append_ref in Ea. destruct (Z.eqb_spec m 0) as [->|Hm]; [|by eapply Go].
  destruct (malloc u) as [ok u1]. destruct ok; cbn [negb] in *.
  2:{ simplify_eq. exists p, n, []. rewrite app_nil_r. split_and!; [done|done|done|done|constructor]. }
  destruct (create_message (context (pn_data n0)) u1) as [m1 u2]. destruct (Z.eqb_spec m1 0) as [->|Hm1].
  { simplify_eq. exists p, n, []. rewrite app_nil_r. split_and!; [done|done|done|done|constructor]. }
  destruct (fresh_node_ok p) as [Ff Fh]. set (f := fresh_node p) in *.
  set (n1 := set_res (Some f) (set_data (set_message m1 (pn_data n)) n)).
  set (p1 := set_pnode x n1 (set_pnode f junk_node p)).
  assert (Hfx : f <> x) by (intros ->; congruence).
  assert (Rd1 : reading g L T N H w x n0 m1 n1 p1).
  { constructor; try done.
    - eapply (held_change g p p1 L T N H w x n n1); [done|done|done|by unfold p1; rewrite node_at_set, decide_True|done|..]; try done.
      + intros y Hy _ [my Ey]. unfold p1. rewrite node_at_set, decide_False by done. rewrite node_at_set, decide_False; [done|].
        intros ->. congruence.
      + intros r [= <-]. right. split_and!; [done|done|]. unfold p1. rewrite node_at_set, decide_False by done.
        rewrite node_at_set, decide_True by done. eauto.
      + intros E r Hr. assert (r = f) as -> by (cbn in E; congruence). unfold p1. rewrite node_at_set, decide_False by done.
        rewrite node_at_set, decide_True by done. eauto.
    - unfold p1. by rewrite node_at_set, decide_True.
    - unfold n1. cbn. by rewrite Ed, set_message_twice. }
  destruct (Go p1 n1 m1 u2 ret k m' ms u' Rd1 Hm1 Ea) as (p' & n' & rs & E & R1 & Io & R2).
  exists p', n', rs. split; [done|]. split; [done|]. split; [|done]. eapply io_rest_trans; [|exact Io].
  split; [done|]. intros y Hy Hyx. destruct (all_nodes_alloc _ _ _ _ _ _ _ y Hh Hy) as [my Ey]. unfold p1.
  rewrite node_at_set, decide_False by done. rewrite node_at_set, decide_False; [done|]. by intros ->; congruence.
Qed.

Lemma successes_app d ms ms' rs rs' : successes d ms rs -> successes d ms' rs' -> successes d (ms ++ ms') (rs ++ rs').
Proof. apply Forall2_app. Qed.

Lemma feed_loop_ok g L T N H w x n0 fuel : forall m n p buf u ok m' ms u',
  reading g L T N H w x n0 m n p -> feed_ref (context (pn_data n0)) fuel buf m u = Some (ok, m', ms, u') ->
  exists p' n' rs, feed_loop fuel buf x p u = Some (ok, p', u') /\
    reading g L T N H w x n0 m' n' p' /\ io_rest x L T N H p p' /\
    results p' = results p ++ rs /\ successes (pn_data n0) ms rs.
Proof.
  induction fuel as [|fuel IH]; intros m n p buf u ok m' ms u' Rd E; [done|]. cbn [feed_ref feed_loop] in *.
  destruct (append_ref (context (pn_data n0)) buf m u) as [[[[ret k] m1] ms1] u1] eqn:Ea.
  destruct (append_message_ok _ _ _ _ _ _ _ _ _ _ _ _ _ _ _ _ _ _ Rd Ea) as (p1 & n1 & rs1 & -> & Rd1 & Io1 & Er1 & S1).
  cbn [mbind option_bind].
  destruct (ret <? 0); [injection E as <- <- <- <-; by exists p1, n1, rs1|].
  destruct (len buf <? k); [injection E as <- <- <- <-; by exists p1, n1, rs1|].
  destruct (len buf =? k); [injection E as <- <- <- <-; by exists p1, n1, rs1|].
  destruct (feed_ref _ fuel (drop (Z.to_nat k) buf) m1 u1) as [[[[ok2 m2] ms2] u2]|] eqn:Ef; [|done]. cbn [mbind option_bind] in E.
  injection E as <- <- <- <-. destruct (IH _ _ _ _ _ _ _ _ _ Rd1 Ef) as (p2 & n2 & rs2 & -> & Rd2 & Io2 & Er2 & S2).
  exists p2, n2, (rs1 ++ rs2). split; [done|]. split; [done|]. split; [by eapply io_rest_trans|].
  split; [by rewrite Er2, Er1, app_assoc|by apply successes_app].
Qed.

Lemma read_io_ok g L T N H w x n0 l : forall m n p u v m' ms u',
  reading g L T N H w x n0 m n p -> read_ref (context (pn_data n0)) l m u = Some (v, m', ms, u') ->
  exists p' n' rs, read_io l x p u = Some (v, p', u') /\
    reading g L T N H w x n0 m' n' p' /\ io_rest x L T N H p p' /\
    results p' = results p ++ rs /\ successes (pn_data n0) ms rs.
Proof.
  induction l as [|a l IH]; intros m n p u v m' ms u' Rd E; [done|]. cbn [read_ref read_io] in *.
  assert (Z0 : forall v : verdict, Some (v, m, [] : list Z, u) = Some (v, m', ms, u') -> exists p' n' rs, Some (v, p, u) = Some (v, p', u') /\
    reading g L T N H w x n0 m' n' p' /\ io_rest x L T N H p p' /\ results p' = results p ++ rs /\ successes (pn_data n0) ms rs).
  { intros v' E'. injection E' as <- <- <-. exists p, n, []. rewrite app_nil_r. split_and!; [done|done|done|done|constructor]. }
  destruct a as [[|c b]|e].
  - injection E as <- <- <- <-. apply Z0. done.
  - destruct (feed_ref (context (pn_data n0)) (S (length (c :: b))) (c :: b) m u) as [[[[ok m1] ms1] u1]|] eqn:Ef; [|done].
    cbn [mbind option_bind] in E.
    destruct (feed_loop_ok _ _ _ _ _ _ _ _ _ _ _ _ _ _ _ _ _ _ Rd Ef) as (p1 & n1 & rs1 & -> & Rd1 & Io1 & Er1 & S1).
    cbn [mbind option_bind]. destruct ok.
    + destruct (read_ref _ l m1 u1) as [[[[v2 m2] ms2] u2]|] eqn:El; [|done]. cbn [mbind option_bind] in E.
      injection E as <- <- <- <-. destruct (IH _ _ _ _ _ _ _ _ Rd1 El) as (p2 & n2 & rs2 & -> & Rd2 & Io2 & Er2 & S2).
      exists p2, n2, (rs1 ++ rs2). split; [done|]. split; [done|]. split; [by eapply io_rest_trans|].
      split; [by rewrite Er2, Er1, app_assoc|by apply successes_app].
    + injection E as <- <- <- <-. by exists p1, n1, rs1.
  - injection E as <- <- <- <-. apply Z0. done.
Qed.

(** [msg->append] consumes at least one byte, and none it was not given. *)
Definition append_progress : Prop :=
  forall m buf u, buf <> [] -> let '(ret, k, _) := append m buf u in 0 <= ret -> 1 <= k <= len buf.

Lemma feed_ref_total ctx fuel : append_progress -> forall buf m u, buf <> [] -> (length buf < fuel)%nat ->
  is_Some (feed_ref ctx fuel buf m u).
Proof.
  intros Hp. induction fuel as [|fuel IH]; intros buf m u Hb Hf; [lia|]. cbn [feed_ref].
  destruct (append_ref ctx buf m u) as [[[[ret k] m1] ms1] u1] eqn:Ea.
  destruct (Z.ltb_spec ret 0); [eauto|]. destruct (Z.ltb_spec (len buf) k); [eauto|]. destruct (Z.eqb_spec (len buf) k); [eauto|].
  assert (1 <= k).
  { assert (Go : forall m u, (let '(ret, k, u) := append m buf u in if 0 <? ret then (ret, k, 0, [m], u) else (ret, k, m, [], u)) =
       (ret, k, m1, ms1, u1) -> 1 <= k).
    { intros mq v E. pose proof (Hp mq buf v Hb) as H1. destruct (append mq buf v) as [[r' k'] u'].
      destruct (0 <? r'); injection E; intros; subst; lia. }
    unfold append_ref in Ea. destruct (m =? 0); [|by eapply Go]. destruct (malloc u) as [[] v]; cbn [negb] in Ea; [|injection Ea; intros; lia].
    destruct (create_message ctx v) as [mc v']. destruct (mc =? 0); [injection Ea; intros; lia|by eapply Go]. }
  destruct (IH (drop (Z.to_nat k) buf) m1 u1) as [[[[ok m2] ms2] u2] ->]; [|rewrite length_drop; lia|cbn; eauto].
  intros E. apply (f_equal length) in E. rewrite length_drop in E. cbn in E. lia.
Qed.

(** The kernel ends the stream of answers: end of file, an error, or EAGAIN. *)
Definition read_ends (l : list read_answer) : Prop :=
  Exists (fun a => match a with RErr _ | RBytes [] => True | RBytes (_ :: _) => False end) l.

Lemma read_ref_total ctx l : append_progress -> read_ends l -> forall m u, is_Some (read_ref ctx l m u).
Proof.
  intros Hp He. induction He as [a l Ha|a l He IH]; intros m u; cbn [read_ref].
  - destruct a as [[|]|]; eauto. done.
  - destruct a as [[|c b]|]; eauto.
    destruct (feed_ref_total ctx (S (length (c :: b))) Hp (c :: b) m u) as [[[[ok m1] ms1] u1] ->]; [done|lia|].
    cbn [mbind option_bind]. destruct ok; [|eauto]. destruct (IH m1 u1) as [[[[v m2] ms2] u2] ->]. cbn. eauto.
Qed.

(** ** The handlers that produce one result per item *)

(** The node [x] during the handler: its data is [d0]. *)
Record serving (g : loc -> Z) (L T N H : list loc) (w : gmap loc watched) (x : loc) (n0 : poller_node)
    (p : poller) : Prop := mk_serving {
  sv_held : held g p L T N H w;
  sv_in : x ∈ all_nodes L T N H p;
  sv_node : exists n, node_at x p = Some n /\ key n = key n0 /\ pn_data n = pn_data n0 /\ res n <> None }.

(** The same when the handler stops: the result node may be missing. *)
Definition served (g : loc -> Z) (L T N H : list loc) (w : gmap loc watched) (x : loc) (n0 : poller_node)
    (p0 p : poller) : Prop :=
  held g p L T N H w /\ io_rest x L T N H p0 p /\ (exists n, node_at x p = Some n /\ key n = key n0) /\
  exists ms rs, results p = results p0 ++ rs /\ successes (pn_data n0) ms rs /\ Forall (fun m => m <> 0) ms.

Lemma served_refl g L T N H w x n0 p : serving g L T N H w x n0 p -> served g L T N H w x n0 p p.
Proof.
  intros [Hh Hx (n & En & Ek & _)]. split; [done|]. split; [done|]. split; [by exists n|].
  exists [], []. rewrite app_nil_r. split_and!; [done|constructor..].
Qed.

Lemma served_trans g L T N H w x n0 p1 p2 p3 :
  served g L T N H w x n0 p1 p2 -> served g L T N H w x n0 p2 p3 -> served g L T N H w x n0 p1 p3.
Proof.
  intros (_ & Io1 & _ & ms1 & rs1 & E1 & S1 & Z1) (Hh & Io2 & Hn & ms2 & rs2 & E2 & S2 & Z2).
  split; [done|]. split; [by eapply io_rest_trans|]. split; [done|]. exists (ms1 ++ ms2), (rs1 ++ rs2).
  split; [by rewrite E2, E1, app_assoc|]. split; [by apply successes_app|]. by apply Forall_app.
Qed.

Lemma emit_ok g L T N H w x n0 p u result :
  serving g L T N H w x n0 p -> result <> 0 ->
  exists ok p' u', emit x result p u = Some (ok, p', u') /\ served g L T N H w x n0 p p' /\
    (ok = true -> serving g L T N H w x n0 p').
Proof.
  intros [Hh Hx (n & En & Ek & Ed & Er)] Hz. unfold emit. rewrite En. cbn [mbind option_bind].
  destruct (res n) as [r|] eqn:Eres; [|done]. cbn [mbind option_bind]. destruct (malloc u) as [ok u1] eqn:Em.
  destruct ok.
  - destruct (swap_result g p L T N H w x n r n true Hh Hx En Eres eq_refl) as (rn & p1 & Ern & Hdel & En1 & _ & Hfx & Ep1 & Ho).
    set (n' := set_res (Some (fresh_node p1)) n).
    destruct (swap_result g p L T N H w x n r n' true Hh Hx En Eres eq_refl) as (rn' & p1' & _ & Hdel' & _ & Hh' & _ & Ep1' & _).
    destruct (Hdel (set_message result (pn_data n))) as (q & Eq & Etq & Eqq).
    destruct (Hdel' (set_message result (pn_data n))) as (q' & Eq' & Etq' & Eqq').
    rewrite Eq in Eq'. injection Eq' as <-. assert (p1' = p1) as -> by (rewrite Ep1, Ep1'; congruence).
    rewrite Eq. cbn [mbind option_bind].
    assert (Enq : node_at x q = Some n) by (unfold node_at in *; by rewrite Etq). rewrite Enq. cbn [mbind option_bind].
    assert (Efq : fresh_node q = fresh_node p1) by (unfold fresh_node; by rewrite Etq). rewrite Efq. fold n'.
    set (p' := set_pnode x n' (set_pnode (fresh_node p1) junk_node q)).
    assert (Hhp : held g p' L T N H w).
    { eapply held_other; [apply Hh'; done|unfold p', set_pnode; cbn; by rewrite Etq|unfold p'; rewrite Eqq, Ep1; done]. }
    assert (Io : io_rest x L T N H p p').
    { split; [unfold p'; rewrite Eqq; done|]. intros y Hy Hyx. destruct (Ho y Hy) as [Ey Hyf]. unfold p'.
      rewrite !node_at_set, !decide_False by done. rewrite <- Ey. unfold node_at. by rewrite Etq. }
    assert (Sv : served g L T N H w x n0 p p').
    { split; [done|]. split; [done|]. split; [exists n'; unfold p'; by rewrite node_at_set, decide_True|].
      exists [result], [(r, set_data (set_message result (pn_data n)) (set_outcome PR_ST_SUCCESS 0 rn))].
      split; [unfold p'; by rewrite Eqq|]. split; [|by repeat constructor]. constructor; [|constructor].
      split_and!; [cbn; by rewrite Ed|done|done]. }
    exists true, p', u1. split; [done|]. split; [exact Sv|]. intros _. constructor; [done|by rewrite (all_nodes_rest x _ _ _ _ p)|].
    exists n'. split_and!; [unfold p'; by rewrite node_at_set, decide_True|done|done|done].
  - set (n' := set_res None n).
    destruct (swap_result g p L T N H w x n r n' false Hh Hx En Eres eq_refl) as (rn & p1 & Ern & Hdel & En1 & Hh' & _ & Ep1 & Ho).
    destruct (Hdel (set_message result (pn_data n))) as (q & Eq & Etq & Eqq). rewrite Eq. cbn [mbind option_bind].
    assert (Enq : node_at x q = Some n) by (unfold node_at in *; by rewrite Etq). rewrite Enq. cbn [mbind option_bind]. fold n'.
    eexists _, _, _. split; [done|]. split; [|done]. split.
    { eapply held_other; [apply Hh'; done|unfold set_pnode; cbn; by rewrite Etq|rewrite Eqq, Ep1; done]. }
    split.
    { split; [rewrite Eqq; done|]. intros y Hy Hyx. destruct (Ho y Hy) as [Ey _].
      rewrite node_at_set, decide_False by done. rewrite <- Ey. unfold node_at. by rewrite Etq. }
    split; [exists n'; by rewrite node_at_set, decide_True|].
    exists [result], [(r, set_data (set_message result (pn_data n)) (set_outcome PR_ST_SUCCESS 0 rn))].
    split; [by rewrite Eqq|]. split; [|by repeat constructor]. constructor; [|constructor].
    split_and!; [cbn; by rewrite Ed|done|done].
Qed.

(** The outcome of a loop: [served], and still in service when it returns. *)
Definition io_done (g : loc -> Z) (L T N H : list loc) (w : gmap loc watched) (x : loc) (n0 : poller_node)
    (p : poller) (v : verdict) (p' : poller) : Prop :=
  served g L T N H w x n0 p p' /\ (v = Return -> serving g L T N H w x n0 p') /\
  (forall st err, v = Done st err -> st <> PR_ST_SUCCESS).

Lemma io_done_refl g L T N H w x n0 p v : serving g L T N H w x n0 p ->
  (forall st err, v = Done st err -> st <> PR_ST_SUCCESS) -> io_done g L T N H w x n0 p v p.
Proof. intros Sv Hst. split; [by apply served_refl|by split]. Qed.

Lemma io_done_stop g L T N H w x n0 p p' st err : served g L T N H w x n0 p p' ->
  st <> PR_ST_SUCCESS -> io_done g L T N H w x n0 p (Done st err) p'.
Proof. intros Sd Hst. split; [done|]. split; [done|]. by intros ? ? [= <- _]. Qed.

Lemma io_done_trans g L T N H w x n0 p1 p2 p3 v :
  served g L T N H w x n0 p1 p2 -> io_done g L T N H w x n0 p2 v p3 -> io_done g L T N H w x n0 p1 v p3.
Proof. intros S1 (S2 & R). split; [by eapply served_trans|done]. Qed.

(** One iteration: a result of the user's function, then [emit]; [vd] and [out]
    are the verdict and the poller in the outcome of the loop. *)
Lemma item_ok {A} (vd : A -> verdict) (out : A -> poller) g L T N H w x n0 p (ru : Z * U)
    (next : poller -> U -> option A) (stop : poller -> U -> A) :
  (forall p u, out (stop p u) = p /\ vd (stop p u) = Done PR_ST_ERROR (errno u)) -> serving g L T N H w x n0 p ->
  (forall p' u, serving g L T N H w x n0 p' ->
     exists a, next p' u = Some a /\ io_done g L T N H w x n0 p' (vd a) (out a)) ->
  exists a, (let '(result, u) := ru in
     if result =? 0 then Some (stop p u) else
     '(ok, p, u) ← emit x result p u;
     if (ok : bool) then next p u else Some (stop p u)) = Some a /\ io_done g L T N H w x n0 p (vd a) (out a).
Proof.
  intros Ho Sv Hn. destruct ru as [result u]. destruct (Z.eqb_spec result 0) as [_|Hz].
  - eexists. split; [done|]. destruct (Ho p u) as [-> ->]. by apply io_done_stop; [apply served_refl|].
  - destruct (emit_ok g L T N H w x n0 p u result Sv Hz) as (ok & p' & u' & -> & Sd & Sv'). cbn [mbind option_bind].
    destruct ok.
    + destruct (Hn p' u' (Sv' eq_refl)) as (a & -> & Sa). exists a. split; [done|]. by eapply io_done_trans.
    + eexists. split; [done|]. destruct (Ho p' u') as [-> ->]. by apply io_done_stop.
Qed.

Definition io_verdict (r : verdict * poller * U) : verdict := r.1.1.
Definition io_out (r : verdict * poller * U) : poller := r.1.2.

Definition accept_ends (l : list accept_answer) : Prop :=
  Exists (fun a => match a with AErr e => e <> ECONNABORTED | AConn _ => False end) l.
Definition recv_ends (l : list read_answer) : Prop :=
  Exists (fun a => match a with RErr _ => True | RBytes _ => False end) l.
Definition word_ends (l : list word_answer) : Prop :=
  Exists (fun a => match a with NWord _ => False | _ => True end) l.

(** A loop that ends here, with an error unless it would block. *)
Ltac io_stop := eexists; split; [done|]; apply io_done_refl; [done|];
  cbn; bsplit; intros ? ?; first [discriminate|by intros [= <- _]].

Lemma listen_ok g L T N H w x n0 l : accept_ends l -> forall p u, serving g L T N H w x n0 p ->
  exists r, listen_io l x p u = Some r /\ io_done g L T N H w x n0 p (io_verdict r) (io_out r).
Proof.
  induction l as [|a l IH]; intros He p u Sv; [by inversion He|]. cbn [listen_io]. destruct a as [sockfd|e].
  - pose proof Sv as [_ _ (n & En & _)]. rewrite En. cbn [mbind option_bind].
    apply (item_ok io_verdict io_out g L T N H w x n0 p _ (fun p u => listen_io l x p u)
      (fun p u => (Done PR_ST_ERROR (errno u), p, u))); [done|done|]. intros p' u' Sv'. apply IH; [|done]. by inversion He.
  - destruct (_ || _ || _); [io_stop|]. destruct (Z.eqb_spec e ECONNABORTED) as [->|Hne]; [|io_stop].
    apply IH; [|done]. inversion He as [? ? Hd|]; [by destruct Hd|done].
Qed.

Lemma recvfrom_ok g L T N H w x n0 l : recv_ends l -> forall p u, serving g L T N H w x n0 p ->
  exists r, recvfrom_io l x p u = Some r /\ io_done g L T N H w x n0 p (io_verdict r) (io_out r).
Proof.
  induction l as [|a l IH]; intros He p u Sv; [by inversion He|]. cbn [recvfrom_io]. destruct a as [b|e]; [|io_stop].
  pose proof Sv as [_ _ (n & En & _)]. rewrite En. cbn [mbind option_bind].
  apply (item_ok io_verdict io_out g L T N H w x n0 p _ (fun p u => recvfrom_io l x p u)
    (fun p u => (Done PR_ST_ERROR (errno u), p, u))); [done|done|]. intros p' u' Sv'. apply IH; [|done]. by inversion He.
Qed.

Lemma notify_ok g L T N H w x n0 l : word_ends l -> forall p u, serving g L T N H w x n0 p ->
  exists r, notify_io l x p u = Some r /\ io_done g L T N H w x n0 p (io_verdict r) (io_out r).
Proof.
  induction l as [|a l IH]; intros He p u Sv; [by inversion He|]. cbn [notify_io]. destruct a as [v|k|e]; [|io_stop|io_stop].
  pose proof Sv as [_ _ (n & En & _)]. rewrite En. cbn [mbind option_bind].
  apply (item_ok io_verdict io_out g L T N H w x n0 p _ (fun p u => notify_io l x p u)
    (fun p u => (Done PR_ST_ERROR (errno u), p, u))); [done|done|]. intros p' u' Sv'. apply IH; [|done]. by inversion He.
Qed.

Lemma event_count_total l : word_ends l -> forall cnt, is_Some (event_count l cnt).
Proof. induction 1 as [a l Ha|a l He IH]; intros cnt; destruct a; cbn; eauto. done. Qed.

Lemma event_ok g L T N H w x n0 l p u : word_ends l -> serving g L T N H w x n0 p ->
  exists r, event_io l x p u = Some r /\ io_done g L T N H w x n0 p r.1.1.1 r.1.2.
Proof.
  intros He Sv. unfold event_io. destruct (event_count_total l He 0) as [[cnt e] ->]. cbn [mbind option_bind].
  destruct (e =? EAGAIN); [|io_stop]. clear He. generalize (Z.to_nat cnt) as k.
  intros k. revert p u Sv. induction k as [|k IH]; intros p u Sv; cbn [event_loop]; [io_stop|].
  pose proof Sv as [_ _ (n & En & _)]. rewrite En. cbn [mbind option_bind].
  apply (item_ok (fun r : verdict * Z * poller * U => r.1.1.1) (fun r => r.1.2) g L T N H w x n0 p _
    (fun p u => event_loop k x p u) (fun p u => (Done PR_ST_ERROR (errno u), Z.of_nat k, p, u))); [done|done|].
  intros p' u' Sv'. by apply IH.
Qed.

(** ** Writing *)

(** What [writev] can answer: at most the bytes of the first [IOV_MAX] entries. *)
Fixpoint writev_ok (l : list writev_answer) (iov : list (list Z)) : Prop :=
  match l with
  | WCount n :: l => 0 <= n <= len (concat (take (Z.to_nat IOV_MAX) iov)) /\ writev_ok l (consume n iov)
  | _ => True
  end.

Lemma consume_concat n iov : 0 <= n <= len (concat iov) -> concat (consume n iov) = drop (Z.to_nat n) (concat iov).
Proof.
  revert n. induction iov as [|b t IH]; intros n Hn; cbn [consume concat]; [by rewrite drop_nil|].
  cbn [concat] in Hn. rewrite length_app in Hn. destruct (Z.leb_spec (len b) n) as [Hb|Hb].
  - rewrite IH by lia. rewrite drop_app, (drop_ge b) by lia. cbn. f_equal. lia.
  - cbn [concat]. rewrite drop_app. replace (Z.to_nat n - length b)%nat with 0%nat by lia. by rewrite drop_0.
Qed.

Lemma concat_take_le k (iov : list (list Z)) : (length (concat (take k iov)) <= length (concat iov))%nat.
Proof. rewrite <- (take_drop k iov) at 2. rewrite concat_app, length_app. lia. Qed.

(** The vector after the loop holds the bytes that were not written. *)
Lemma write_loop_ok l : forall count iov count' rest err,
  writev_ok l iov -> write_loop l count iov = Some (count', rest, err) ->
  count <= count' <= count + len (concat iov) /\
  concat rest = drop (Z.to_nat (count' - count)) (concat iov) /\
  (err = None <-> rest = []).
Proof.
  induction l as [|a l IH]; intros count iov count' rest err Hok E; destruct iov as [|b iov]; cbn [write_loop] in E;
    try (injection E as <- <- <-; rewrite Z.sub_diag; cbn; split_and!; [lia|lia|done|done]); [done|].
  destruct a as [n|e].
  - destruct Hok as [Hn Hok]. pose proof (concat_take_le (Z.to_nat IOV_MAX) (b :: iov)) as Hle.
    destruct (IH _ _ _ _ _ Hok E) as (H1 & H2 & H3).
    rewrite consume_concat in H1, H2 by (revert Hn Hle; generalize (concat (b :: iov)); intros; lia).
    revert Hn Hle H1 H2.
    generalize (concat (b :: iov)) as bs. generalize (concat (take (Z.to_nat IOV_MAX) (b :: iov))) as cs.
    intros cs bs Hn Hle H1 H2. rewrite length_drop in H1. split_and!; [lia|lia| |exact H3].
    rewrite H2, drop_drop. f_equal. lia.
  - injection E as <- <- <-. rewrite Z.sub_diag. split_and!; [lia|lia|done|done].
Qed.

(** Enough answers: each [writev] that ends the loop or makes progress. *)
Definition write_ends (l : list writev_answer) : Prop :=
  Exists (fun a => match a with WErr _ => True | WCount _ => False end) l.

Lemma write_loop_total l : write_ends l -> forall count iov, is_Some (write_loop l count iov).
Proof. induction 1 as [a l Ha|a l He IH]; intros count [|b iov]; cbn; eauto; destruct a; eauto. done. Qed.

(** ** The handlers on the specification *)

Definition spec_out (os : list (loc * Z * Z)) (s : aspec) : aspec :=
  mk_aspec (a_max s) (a_stopped s) (a_watch s) (a_pipe s) (a_out s ++ os).

(** The end of a handler: a node that is still watched is delivered. *)
Definition spec_conclude (x : loc) (v : verdict) (s : aspec) : aspec :=
  match v with
  | Return => s
  | Done st err =>
      match a_watch s !! x with
      | Some _ => spec_deliver x st err (spec_watch (delete x (a_watch s)) s)
      | None => s
      end
  end.

(** A node an event can name: it watches a descriptor, or it did and is in the pipe. *)
Definition serves (s : aspec) (x : loc) : Prop :=
  (exists e, a_watch s !! x = Some e /\ 0 <= w_fd e) \/ x ∈ (a_pipe s).*1.

Lemma serves_node g p L T N H s x : refines_with g p L T N H s -> serves s x ->
  x ∈ all_nodes L T N H p /\ (exists n, node_at x p = Some n) /\
  (a_watch s !! x = None -> field removed p x = Some true).
Proof.
  intros [Hh R Em Es Ep Eo] Sx.
  assert (Hx : x ∈ (L ++ T ++ N) ++ pipe_nodes p).
  { destruct Sx as [(e & He & _)|Hp].
    - apply elem_of_app. left. eapply (watch_at_in _ _ _ _ (a_watch s) x); [apply Hh|apply Hh|eauto].
    - apply elem_of_app. right. by rewrite Ep, <- list_fmap_compose, list_fmap_id in Hp. }
  split; [unfold all_nodes; clear -Hx; set_solver|]. split.
  - destruct (h_own _ _ _ _ _ _ _ Hh) as [_ Ha]. apply Ha. clear -Hx. set_solver.
  - intros Hw. apply elem_of_app in Hx as [Hx|Hx].
    + apply (watch_at_in (tmr p) _ _ _ (a_watch s) x (h_tq _ _ _ _ _ _ _ Hh) (h_watch _ _ _ _ _ _ _ Hh)) in Hx as [e He].
      congruence.
    + pose proof (h_pipe _ _ _ _ _ _ _ Hh x Hx) as (n & En & Er)%fmap_Some. unfold field. rewrite En. cbn.
      unfold retired in Er. congruence.
Qed.

Lemma refines_io g p L T N H s p' rs :
  refines_with g p L T N H s -> held g p' L T N H (a_watch s) -> same_fields p p' -> results p' = results p ++ rs ->
  refines_with g p' L T N H (spec_out (out_of <$> rs) s).
Proof.
  intros [_ R Em Es Ep Eo] Hh (E1 & E2 & E3 & E4 & E5) Er. constructor; cbn; rewrite ?E1, ?E3, ?E4; try congruence.
  - by unfold pipe_nodes; rewrite E5.
  - by rewrite Er, fmap_app, Eo.
Qed.

Lemma deliver_refines p x H s st err (b : bool) :
  refines p (x :: H) s ->
  exists p', (if b then finish x st err p else p ← set_result x st err p; call_back x p) = Some p' /\
    refines p' H (spec_deliver x st err s) /\ exists n, results p' = results p ++ [(x, n)].
Proof.
  intros (g & L & T & N & [Hh R Em Es Ep Eo]).
  destruct (held_drop _ _ _ _ _ _ _ _ Hh) as (_ & _ & n & En & _).
  assert (Fin : forall p' n', held g p' L T N H (a_watch s) -> delivered p p' x n' -> pn_state n' = st -> pn_error n' = err ->
    refines p' H (spec_deliver x st err s) /\ exists n, results p' = results p ++ [(x, n)]).
  { intros p' n' Hh' D E1 E2. unfold delivered in D. split; [|exists n'; by rewrite D]. exists g, L, T, N. rewrite D.
    constructor; cbn; try done; [by rewrite D in Hh'|]. rewrite fmap_app, Eo. cbn. unfold out_of at 3. cbn. by rewrite E1, E2. }
  destruct b.
  - destruct (finish_hand _ _ _ _ _ _ _ _ n st err Hh En) as (p' & -> & Hh' & D & _). exists p'. split; [done|]. by eapply Fin.
  - destruct (upd_hand g p L T N H _ x n (set_outcome st err) Hh En eq_refl) as [E Hh1].
    unfold set_result. rewrite E. cbn [mbind option_bind].
    destruct (call_back_hand _ _ _ _ _ _ _ x (set_outcome st err n) Hh1) as (p' & -> & Hh' & D).
    { by rewrite node_at_set, decide_True. }
    exists p'. split; [done|]. eapply (Fin p' (set_outcome st err n)); [done| |done|done]. unfold delivered in *. by rewrite D at 1.
Qed.

Lemma conclude_ok b x v p H s : refines p H s -> serves s x ->
  exists p', conclude b x v p = Some p' /\ refines p' H (spec_conclude x v s) /\
    (match v with Return => p' = p | Done _ _ => exists fin, results p' = results p ++ fin /\ (length fin <= 1)%nat end).
Proof.
  intros Rf Sx. destruct v as [|st err]; cbn [conclude spec_conclude]; [by exists p|].
  destruct (a_watch s !! x) as [e|] eqn:Hw.
  - assert (Hz : 0 <= w_fd e).
    { destruct Sx as [(e' & He' & Hz)|Hp]; [congruence|]. destruct Rf as (g & L & T & N & RW).
      destruct (watch_node _ _ _ _ _ _ _ _ _ (rf_held _ _ _ _ _ _ _ RW) Hw) as (Hx & _).
      pose proof (h_own _ _ _ _ _ _ _ (rf_held _ _ _ _ _ _ _ RW)) as [Hd _].
      rewrite (rf_pipe _ _ _ _ _ _ _ RW), <- list_fmap_compose, list_fmap_id in Hp.
      apply NoDup_app_inv in Hd as (_ & Hd & _). apply NoDup_app_inv in Hd as (Hd & _). apply NoDup_app_inv in Hd as (_ & _ & Hd).
      exfalso. apply (Hd x Hx). clear -Hp. set_solver. }
    destruct (remove_node_ok p H s x e Rf Hw Hz) as (p1 & -> & R1 & _ & Er1). cbn [mbind option_bind].
    destruct (deliver_refines p1 x H _ st err b R1) as (p2 & E2 & R2 & n & Er2). exists p2. split; [|split; [done|]].
    + destruct b; exact E2.
    + exists [(x, n)]. rewrite Er2, Er1. split; [done|cbn; lia].
  - destruct Rf as (g & L & T & N & RW). destruct (serves_node _ _ _ _ _ _ _ _ RW Sx) as (_ & _ & Hr).
    rewrite (remove_removed p x (Hr Hw)). cbn [mbind option_bind]. exists p. split; [done|].
    split; [by exists g, L, T, N|]. exists []. rewrite app_nil_r. split; [done|cbn; lia].
Qed.

Lemma serves_out os s x : serves (spec_out os s) x <-> serves s x.
Proof. done. Qed.

(** A node that can take an event: what the handlers rely on. *)
Definition ready (n : poller_node) : Prop :=
  let op := operation (pn_data n) in
  op = PD_OP_READ /\ (message (pn_data n) <> 0 -> res n <> None) \/
  op = PD_OP_WRITE \/ op = PD_OP_CONNECT \/
  (op = PD_OP_LISTEN \/ op = PD_OP_RECVFROM \/ op = PD_OP_EVENT \/ op = PD_OP_NOTIFY) /\ res n <> None.

(** Answers of the kernel for an operation, up to one that ends the handler. *)
Definition answer_ok (a : io_answer) (op : Z) : Prop :=
  match a with
  | IoRead l => op = PD_OP_READ /\ read_ends l \/ op = PD_OP_RECVFROM /\ recv_ends l
  | IoWrite l iov => op = PD_OP_WRITE /\ write_ends l
  | IoListen l => op = PD_OP_LISTEN /\ accept_ends l
  | IoConnect _ => op = PD_OP_CONNECT
  | IoWord l => (op = PD_OP_EVENT \/ op = PD_OP_NOTIFY) /\ word_ends l
  end.

Lemma write_held g L T N H w x n n1 p :
  held g p L T N H w -> x ∈ all_nodes L T N H p -> node_at x p = Some n -> key n1 = key n -> res n1 = res n ->
  held g (set_pnode x n1 p) L T N H w.
Proof.
  intros Hh Hx En Ek Er. eapply (held_change g p _ L T N H w x n n1); try done; [by rewrite node_at_set, decide_True|..].
  - intros y Hy _ _. by rewrite node_at_set, decide_False.
  - intros r. rewrite Er. by left.
  - intros _ r Hr. rewrite node_at_set. case_decide; [eauto|].
    assert (Ho : r ∈ all_nodes L T N H p ++ (all_nodes L T N H p ≫= res_of p)).
    { apply elem_of_app. right. apply list_elem_of_bind. exists x. split; [|done]. unfold res_of. rewrite En, Hr. cbn. by left. }
    destruct (h_own _ _ _ _ _ _ _ Hh) as [_ Ha]. by apply Ha.
Qed.

(** What any handler does before [__poller_remove_node]. *)
Record io_result (g : loc -> Z) (L T N H : list loc) (s : aspec) (x : loc) (p : poller) (v : verdict)
    (p' : poller) : Prop := mk_io_result {
  ir_refines : exists rs, refines_with g p' L T N H (spec_out (out_of <$> rs) s) /\
                 Forall (fun r => pn_state r.2 = PR_ST_SUCCESS) rs;
  ir_others : forall y, y ∈ all_nodes L T N H p -> y <> x -> node_at y p' = node_at y p;
  ir_ready : v = Return -> exists n, node_at x p' = Some n /\ ready n;
  ir_final : forall st err, v = Done st err -> st <> PR_ST_SUCCESS }.

Lemma io_result_items g L T N H s x n p v p' :
  refines_with g p L T N H s -> ready n ->
  operation (pn_data n) = PD_OP_LISTEN \/ operation (pn_data n) = PD_OP_RECVFROM \/
  operation (pn_data n) = PD_OP_EVENT \/ operation (pn_data n) = PD_OP_NOTIFY ->
  io_done g L T N H (a_watch s) x n p v p' -> io_result g L T N H s x p v p'.
Proof.
  intros RW Rn Ho ((Hh & [Sf Oth] & _ & ms & rs & Er & S & _) & Sv & Hst). constructor; [| |intros E|done].
  - exists rs. split; [by eapply refines_io|]. clear -S. induction S as [|m r ms rs (_ & E & _) S IH]; by constructor.
  - exact Oth.
  - destruct (Sv E) as [_ _ (n' & En' & _ & Ed & Hr)]. exists n'. split; [done|]. unfold ready in *. rewrite Ed. tauto.
Qed.

Lemma read_ref_final ctx l : forall m u st err m' ms u',
  read_ref ctx l m u = Some (Done st err, m', ms, u') -> st <> PR_ST_SUCCESS.
Proof.
  induction l as [|a l IH]; intros m u st err m' ms u' E; [done|]. cbn [read_ref] in E. destruct a as [[|c b]|e].
  - by injection E as <- _ _ _ _.
  - destruct (feed_ref _ _ _ m u) as [[[[ok m1] ms1] u1]|]; [|done]. cbn [mbind option_bind] in E. destruct ok.
    + destruct (read_ref ctx l m1 u1) as [[[[v m2] ms2] u2]|] eqn:El; [|done]. cbn [mbind option_bind] in E.
      injection E as -> _ _ _. by eapply IH.
    + by injection E as <- _ _ _ _.
  - destruct (e =? EAGAIN); [done|]. by injection E as <- _ _ _ _.
Qed.

Lemma read_result g L T N H s x n p l u :
  append_progress -> refines_with g p L T N H s -> serves s x -> node_at x p = Some n -> ready n ->
  operation (pn_data n) = PD_OP_READ -> read_ends l ->
  exists v p' u', read_io l x p u = Some (v, p', u') /\ io_result g L T N H s x p v p'.
Proof.
  intros Hp RW Sx En Rn Eo He. pose proof (rf_held _ _ _ _ _ _ _ RW) as Hh.
  destruct (serves_node _ _ _ _ _ _ _ _ RW Sx) as (Hx & _ & _).
  destruct (read_ref_total (context (pn_data n)) l Hp He (message (pn_data n)) u) as [[[[v m] ms] u'] Eref].
  assert (Hr : message (pn_data n) <> 0 -> res n <> None).
  { unfold ready, PD_OP_READ, PD_OP_WRITE, PD_OP_CONNECT, PD_OP_LISTEN, PD_OP_RECVFROM, PD_OP_EVENT, PD_OP_NOTIFY in *.
    rewrite Eo in Rn. naive_solver. }
  assert (Rd : reading g L T N H (a_watch s) x n (message (pn_data n)) n p).
  { constructor; try done. by destruct (pn_data n). }
  destruct (read_io_ok _ _ _ _ _ _ _ _ l _ _ _ _ _ _ _ _ Rd Eref) as (p1 & n1 & rs & E1 & Rd1 & [Sf Oth] & Er & S).
  exists v, p1, u'. split; [done|]. destruct Rd1 as [Hh1 _ En1 _ Ed1 Hr1]. constructor.
  - exists rs. split; [by eapply refines_io|]. clear -S. induction S as [|? ? ? ? (_ & E & _) S IH]; by constructor.
  - exact Oth.
  - intros _. exists n1. split; [done|]. left. by rewrite Ed1.
  - intros st err ->. by eapply read_ref_final.
Qed.

Lemma write_result g L T N H s x n p l iov u :
  refines_with g p L T N H s -> serves s x -> node_at x p = Some n ->
  operation (pn_data n) = PD_OP_WRITE -> write_ends l ->
  exists v p' u', write_io l iov x p u = Some (v, p', u') /\ io_result g L T N H s x p v p'.
Proof.
  intros RW Sx En Eo He. destruct (serves_node _ _ _ _ _ _ _ _ RW Sx) as (Hx & _ & _).
  destruct (write_loop_total l He 0 iov) as [[[count rest] err] Ew]. unfold write_io. rewrite En. cbn [mbind option_bind].
  rewrite Ew. cbn [mbind option_bind].
  set (n1 := set_data _ n). assert (R1 : forall v, (forall st err, v = Done st err -> st <> PR_ST_SUCCESS) ->
    io_result g L T N H s x p v (set_pnode x n1 p)).
  { intros v Hv. constructor; [| | |exact Hv].
    - exists []. split; [|constructor]. eapply refines_io; [done| |done|by rewrite app_nil_r].
      eapply write_held; [apply RW|done..].
    - intros y _ Hy. by rewrite node_at_set, decide_False.
    - intros _. exists n1. split; [by rewrite node_at_set, decide_True|]. right. by left. }
  destruct err as [e|]; [|eexists _, _, _; split; [done|apply R1; by intros ? ? [= <- _]]].
  destruct (e =? EAGAIN); [|eexists _, _, _; split; [done|apply R1; by intros ? ? [= <- _]]].
  destruct (count =? 0); [eexists _, _, _; split; [done|by apply R1]|].
  destruct (partial_written _ _ u) as [ret u1]. eexists _, _, _. split; [done|]. apply R1.
  destruct (0 <=? ret); [done|by intros ? ? [= <- _]].
Qed.

Lemma handle_event_io_ok g L T N H s x n p a u :
  append_progress -> refines_with g p L T N H s -> serves s x -> node_at x p = Some n -> ready n ->
  answer_ok a (operation (pn_data n)) ->
  exists v b p' u', handle_event_io a x p u = Some (v, b, p', u') /\ io_result g L T N H s x p v p'.
Proof.
  intros Hp RW Sx En Rn Ha. pose proof (rf_held _ _ _ _ _ _ _ RW) as Hh.
  destruct (serves_node _ _ _ _ _ _ _ _ RW Sx) as (Hx & _ & _).
  assert (Sv : (operation (pn_data n) = PD_OP_LISTEN \/ operation (pn_data n) = PD_OP_RECVFROM \/
     operation (pn_data n) = PD_OP_EVENT \/ operation (pn_data n) = PD_OP_NOTIFY) -> serving g L T N H (a_watch s) x n p).
  { intros Ho. constructor; [done|done|]. exists n. split_and!; try done.
    unfold ready, PD_OP_READ, PD_OP_WRITE, PD_OP_CONNECT, PD_OP_LISTEN, PD_OP_RECVFROM, PD_OP_EVENT, PD_OP_NOTIFY in *.
    naive_solver lia. }
  unfold handle_event_io. rewrite En. cbn [mbind option_bind]. unfold answer_ok in Ha. destruct a as [l|l iov|l|o|l].
  - destruct Ha as [[Eo He]|[Eo He]]; rewrite Eo; cbn [Z.eqb Pos.eqb PD_OP_READ PD_OP_RECVFROM].
    + destruct (read_result g L T N H s x n p l u) as (v & p' & u' & -> & R); [done..|]. by exists v, true, p', u'.
    + destruct (recvfrom_ok g L T N H (a_watch s) x n l He p u) as ([[v p'] u'] & -> & D); [auto|].
      exists v, true, p', u'. split; [done|]. eapply io_result_items; [done|exact Rn|auto|exact D].
  - destruct Ha as [Eo He]. rewrite Eo. cbn [Z.eqb Pos.eqb PD_OP_WRITE].
    destruct (write_result g L T N H s x n p l iov u) as (v & p' & u' & -> & R); [done..|]. by exists v, false, p', u'.
  - destruct Ha as [Eo He]. rewrite Eo. cbn [Z.eqb Pos.eqb PD_OP_LISTEN].
    destruct (listen_ok g L T N H (a_watch s) x n l He p u) as ([[v p'] u'] & -> & D); [auto|].
    exists v, true, p', u'. split; [done|]. eapply io_result_items; [done|exact Rn|auto|exact D].
  - rewrite Ha. cbn [Z.eqb Pos.eqb PD_OP_CONNECT]. unfold connect_io. cbn [mbind option_bind].
    eexists _, _, _, _. split; [done|]. constructor; [|done|by exists n|].
    + exists []. split; [|constructor]. by eapply refines_io; [|..|by rewrite app_nil_r].
    + intros st err E. destruct (_ =? 0); by injection E as <- _.
  - destruct Ha as [[Eo|Eo] He]; rewrite Eo; cbn [Z.eqb Pos.eqb PD_OP_EVENT PD_OP_NOTIFY].
    + destruct (event_ok g L T N H (a_watch s) x n l p u He) as ([[[v c] p'] u'] & -> & D); [auto|].
      exists v, true, p', u'. split; [done|]. eapply io_result_items; [done|exact Rn|auto|exact D].
    + destruct (notify_ok g L T N H (a_watch s) x n l He p u) as ([[v p'] u'] & -> & D); [auto|].
      exists v, true, p', u'. split; [done|]. eapply io_result_items; [done|exact Rn|auto|exact D].
Qed.

(** C27. [__poller_handle_read] is the loop on messages it looks like.  Whatever the
    kernel answers until the stream ends, would block or fails, and whatever the
    functions of the user and [malloc] return, provided [append] consumes what it
    accepts, the handler terminates without touching memory it does not own, and
    does what [read_ref] does on the messages alone: one result per complete
    message, in order, the unfinished message kept for the next event, and at the
    end of the stream or on an error the node is unregistered and delivered, unless
    another thread has removed it. *)
Theorem poller_read_correct p H s x n (l : list read_answer) (u : U) :
  append_progress -> read_ends l ->
  refines p H s -> serves s x -> node_at x p = Some n -> (message (pn_data n) <> 0 -> res n <> None) ->
  exists v m ms u' p' rs fin,
    read_ref (context (pn_data n)) l (message (pn_data n)) u = Some (v, m, ms, u') /\
    __poller_handle_read l x p u = Some (p', u') /\
    results p' = results p ++ rs ++ fin /\ successes (pn_data n) ms rs /\ (length fin <= 1)%nat /\
    refines p' H (spec_conclude x v (spec_out (out_of <$> rs) s)) /\
    (v = Return -> fin = [] /\ exists n', node_at x p' = Some n' /\
       pn_data n' = set_message m (pn_data n) /\ (m <> 0 -> res n' <> None)).
Proof.
  intros Hp He (g & L & T & N & RW) Sx En Hr.
  destruct (read_ref_total (context (pn_data n)) l Hp He (message (pn_data n)) u) as [[[[v m] ms] u'] Eref].
  destruct (serves_node _ _ _ _ _ _ _ _ RW Sx) as (Hx & _ & _).
  assert (Rd : reading g L T N H (a_watch s) x n (message (pn_data n)) n p).
  { constructor; try done; [apply RW|by destruct (pn_data n)]. }
  destruct (read_io_ok _ _ _ _ _ _ _ _ l _ _ _ _ _ _ _ _ Rd Eref) as (p1 & n1 & rs & E1 & Rd1 & Io & Er & S).
  pose proof (refines_io _ _ _ _ _ _ _ _ _ RW (rd_held _ _ _ _ _ _ _ _ _ _ _ Rd1) (proj1 Io) Er) as RW1.
  destruct (conclude_ok true x v p1 H (spec_out (out_of <$> rs) s)) as (p2 & E2 & R2 & C); [by exists g, L, T, N|done|].
  unfold __poller_handle_read. rewrite E1. cbn [mbind option_bind]. rewrite E2. cbn [mbind option_bind]. destruct v as [|st err].
  - subst p2. exists Return, m, ms, u', p1, rs, []. rewrite app_nil_r. split_and!; try done; [cbn; lia|].
    intros _. split; [done|]. destruct Rd1. by exists n1.
  - destruct C as (fin & Ef & Hf). exists (Done st err), m, ms, u', p2, rs, fin. rewrite Ef, Er, <- app_assoc.
    by split_and!.
Qed.

(** [__poller_handle_write] writes the vector in order.  Whatever [writev]
    accepts each time (partial writes and more than [IOV_MAX] entries included),
    the entries left designate exactly the bytes not yet written; when nothing is
    left the node is delivered as finished; when the descriptor would block it
    stays watched, after [partial_written] if something was written; any other
    error, and a refusal of [partial_written], delivers the node as an error. *)
Theorem poller_write_correct p H s x n (l : list writev_answer) (iov : list (list Z)) (u : U) :
  writev_ok l iov -> write_ends l ->
  refines p H s -> serves s x -> node_at x p = Some n ->
  exists count rest err p' u' v,
    write_loop l 0 iov = Some (count, rest, err) /\
    0 <= count <= len (concat iov) /\ concat rest = drop (Z.to_nat count) (concat iov) /\
    write_io l iov x p u = Some (v, set_pnode x (set_data (set_iov (len rest)
      (message (pn_data n) + 16 * (len iov - len rest)) (pn_data n)) n) p, u') /\
    (v, u') = match err with
        | None => (Done PR_ST_FINISHED 0, u)
        | Some e =>
            if e =? EAGAIN then
              if count =? 0 then (Return, u) else
              let '(ret, u') := partial_written count (context (pn_data n)) u in
              (if 0 <=? ret then Return else Done PR_ST_ERROR (errno u'), u')
            else (Done PR_ST_ERROR e, u)
        end /\
    (err = None <-> rest = []) /\
    __poller_handle_write l iov x p u = Some (p', u') /\ refines p' H (spec_conclude x v s).
Proof.
  intros Hok He (g & L & T & N & RW) Sx En.
  destruct (write_loop_total l He 0 iov) as [[[count rest] err] Ew].
  destruct (write_loop_ok l 0 iov count rest err Hok Ew) as (Hc & Hrest & Herr). rewrite Z.sub_0_r in Hrest.
  destruct (serves_node _ _ _ _ _ _ _ _ RW Sx) as (Hx & _ & _).
  set (n1 := set_data (set_iov (len rest) (message (pn_data n) + 16 * (len iov - len rest)) (pn_data n)) n).
  set (p1 := set_pnode x n1 p).
  assert (Hh1 : held g p1 L T N H (a_watch s)).
  { eapply write_held; [apply RW|done..]. }
  set (vu := match err with
        | None => (Done PR_ST_FINISHED 0, u)
        | Some e =>
            if e =? EAGAIN then
              if count =? 0 then (Return, u) else
              let '(ret, u') := partial_written count (context (pn_data n)) u in
              (if 0 <=? ret then Return else Done PR_ST_ERROR (errno u'), u')
            else (Done PR_ST_ERROR e, u)
        end).
  assert (Eio : write_io l iov x p u = Some (vu.1, p1, vu.2)).
  { unfold write_io. rewrite En. cbn [mbind option_bind]. rewrite Ew. cbn [mbind option_bind]. fold n1 p1. unfold vu.
    destruct err as [e|]; [|done]. destruct (e =? EAGAIN); [|done]. destruct (count =? 0); [done|].
    by destruct (partial_written count (context (pn_data n)) u). }
  assert (R1 : refines p1 H s).
  { exists g, L, T, N. destruct RW as [_ R Em Es Ep Eo]. by constructor. }
  destruct (conclude_ok false x vu.1 p1 H s R1 Sx) as (p2 & E2 & R2 & _).
  exists count, rest, err, p2, vu.2, vu.1. split_and!; try done; [lia|lia|symmetry; apply surjective_pairing|].
  unfold __poller_handle_write. rewrite Eio. cbn [mbind option_bind]. by rewrite E2.
Qed.

End Handlers.

(** ** Examples *)

(** Messages that are lines, read byte by byte. *)
Definition line_functions : functions unit := {|
  malloc u := (true, u); errno _ := 5; create_message ctx u := (7, u);
  append m buf u := match buf with [] => (-1, 0, u) | b :: _ => (if b =? 10 then 1 else 0, 1, u) end;
  partial_written n ctx u := (0, u); accept_ fd ctx u := (fd, u); recvfrom_ b ctx u := (len b, u);
  event_ ctx u := (1, u); notify_ v ctx u := (v, u); junk_node := junk (demo_answers 1 1 0) |}.

Lemma line_progress : append_progress (UF := line_functions).
Proof.
  intros m buf [] Hb. destruct buf as [|b buf]; [done|]. cbn. intros _. lia.
Qed.

Definition demo_node (x : loc) : poller_node :=
  match node_at x demo_poller with Some n => n | None => junk (demo_answers 1 1 0) end.

Lemma demo_serves : serves demo_spec 13 /\ serves demo_spec 19.
Proof. split; left; eexists; (split; [vm_compute; reflexivity|by vm_compute]). Qed.

Definition two_lines : list read_answer := [RBytes [72; 105; 10; 89]; RBytes [111; 10; 33]; RErr EAGAIN].

Lemma poller_read_correct_witness : exists v m ms u' p' rs fin,
    read_ref (UF := line_functions) 0 two_lines 0 () = Some (v, m, ms, u') /\
    __poller_handle_read (UF := line_functions) two_lines 13 demo_poller () = Some (p', u') /\
    results p' = results demo_poller ++ rs ++ fin /\ successes (pn_data (demo_node 13)) ms rs /\ (length fin <= 1)%nat /\
    refines p' [] (spec_conclude 13 v (spec_out (out_of <$> rs) demo_spec)) /\
    (v = Return -> fin = [] /\ exists n', node_at 13 p' = Some n' /\
       pn_data n' = set_message m (pn_data (demo_node 13)) /\ (m <> 0 -> res n' <> None)).
Proof.
  apply (poller_read_correct (UF := line_functions) demo_poller [] demo_spec 13 (demo_node 13) two_lines ()).
  - apply line_progress.
  - apply Exists_cons_tl, Exists_cons_tl, Exists_cons_hd. exact I.
  - apply demo_refines.
  - apply demo_serves.
  - by vm_compute.
  - by vm_compute.
Defined.

Definition two_buffers : list (list Z) := [[1; 2; 3]; [4; 5; 6; 7]].

Lemma poller_write_correct_witness : exists count rest err p' u' v,
    write_loop [WCount 5; WErr EAGAIN] 0 two_buffers = Some (count, rest, err) /\
    0 <= count <= len (concat two_buffers) /\ concat rest = drop (Z.to_nat count) (concat two_buffers) /\
    write_io (UF := line_functions) [WCount 5; WErr EAGAIN] two_buffers 19 demo_poller () =
      Some (v, set_pnode 19 (set_data (set_iov (len rest)
        (message (pn_data (demo_node 19)) + 16 * (len two_buffers - len rest)) (pn_data (demo_node 19)))
        (demo_node 19)) demo_poller, u') /\
    (v, u') = match err with
        | None => (Done PR_ST_FINISHED 0, ())
        | Some e =>
            if e =? EAGAIN then
              if count =? 0 then (Return, ()) else
              let '(ret, u') := (0, ()) in
              (if 0 <=? ret then Return else Done PR_ST_ERROR 5, u')
            else (Done PR_ST_ERROR e, ())
        end /\
    (err = None <-> rest = []) /\
    __poller_handle_write (UF := line_functions) [WCount 5; WErr EAGAIN] two_buffers 19 demo_poller () = Some (p', u') /\
    refines p' [] (spec_conclude 19 v demo_spec).
Proof.
  apply (poller_write_correct (UF := line_functions) demo_poller [] demo_spec 19 (demo_node 19)
    [WCount 5; WErr EAGAIN] two_buffers ()).
  - split; [by vm_compute|done].
  - apply Exists_cons_tl, Exists_cons_hd. exact I.
  - apply demo_refines.
  - apply demo_serves.
  - by vm_compute.
Defined.
