(* ===== verification/PollerFrame.v ===== *)
(** * What the operations of the poller leave in the nodes

    The handlers of the poller thread rely on the data and the result node of the
    node an event names.  No operation of another thread changes them: [keeps]
    says that every node left has the data and the result node it had, [keeps_old]
    the same of the nodes that were there; a new node is [ready] for its events. *)

From S2P Require Import Prelude ListHead RBTree RBInsert RBErase RBSearch PollerTimer Poller PollerSpec PollerIO.

Local Open Scope Z_scope.

(** The part of a node the handlers rely on. *)
Definition stuff (n : poller_node) : poller_data * ptr := (pn_data n, res n).

Definition tkeeps (s s' : timers) : Prop :=
  forall y n', pnodes s' !! y = Some n' -> exists n, pnodes s !! y = Some n /\ stuff n' = stuff n.
Definition keeps (p p' : poller) : Prop := tkeeps (tmr p) (tmr p').

Lemma tkeeps_refl s s' : pnodes s' = pnodes s -> tkeeps s s'.
Proof. intros E y n'. rewrite E. eauto. Qed.
Lemma tkeeps_trans s1 s2 s3 : tkeeps s1 s2 -> tkeeps s2 s3 -> tkeeps s1 s3.
Proof. intros H1 H2 y n' E. apply H2 in E as (n & E & ->). by apply H1 in E. Qed.
Lemma keeps_refl p p' : tmr p' = tmr p -> keeps p p'.
Proof. intros E. apply tkeeps_refl. by rewrite E. Qed.
Lemma keeps_trans p1 p2 p3 : keeps p1 p2 -> keeps p2 p3 -> keeps p1 p3.
Proof. apply tkeeps_trans. Qed.

Lemma ready_stuff n n' : stuff n' = stuff n -> ready n -> ready n'.
Proof. unfold stuff, ready. intros [= -> ->]. done. Qed.

(** Invert a computation that succeeded, one bind or test at a time. *)
Ltac run_inv := repeat match goal with
  | H : Some _ = Some _ |- _ => injection H; clear H; intros; subst
  | H : None = Some _ |- _ => discriminate H
  | H : mbind _ _ = Some _ |- _ => let H1 := fresh in apply bind_Some in H as (? & H1 & H)
  | H : (let '(_, _) := ?x in _) = Some _ |- _ => destruct x
  | H : (if ?b then _ else _) = Some _ |- _ => destruct b
  | H : match ?x with Some _ => _ | None => _ end = Some _ |- _ => destruct x
  end.

Lemma tkeeps_tree f s s' : on_tree f s = Some s' -> tkeeps s s'.
Proof. unfold on_tree. intros E. run_inv. by apply tkeeps_refl. Qed.
Lemma tkeeps_links f s s' : on_links f s = Some s' -> tkeeps s s'.
Proof. unfold on_links. intros E. run_inv. by apply tkeeps_refl. Qed.

Lemma tkeeps_upd x f s s' : upd_node x f s = Some s' -> (forall n, stuff (f n) = stuff n) -> tkeeps s s'.
Proof.
  unfold upd_node. intros E Hf. run_inv. intros y n'. cbn. destruct (decide (x = y)) as [<-|Hxy].
  - rewrite lookup_insert_eq. intros [= <-]. eauto.
  - rewrite lookup_insert_ne by done. eauto.
Qed.

Lemma tkeeps_tree_insert x s s' : __poller_tree_insert x s = Some s' -> tkeeps s s'.
Proof.
  unfold __poller_tree_insert, tree_place. intros E.
  apply bind_Some in E as ([[par lk] s1] & E1 & E).
  assert (K1 : tkeeps s s1) by (clear E; run_inv; by (apply tkeeps_refl; repeat case_decide)).
  clear E1. run_inv. eapply tkeeps_trans; [exact K1|]. eapply tkeeps_trans; [by eapply (tkeeps_upd x)|].
  eapply tkeeps_trans; [|by eapply tkeeps_tree]. by apply tkeeps_refl.
Qed.

Lemma tkeeps_tree_erase x s s' : __poller_tree_erase x s = Some s' -> tkeeps s s'.
Proof.
  unfold __poller_tree_erase. intros E. apply bind_Some in E as (s1 & E1 & E). apply bind_Some in E as (s2 & E2 & E).
  apply bind_Some in E as (s3 & E3 & E).
  assert (K1 : tkeeps s s1) by (clear - E1; run_inv; by apply tkeeps_refl).
  assert (K2 : tkeeps s1 s2) by (clear - E2; run_inv; by apply tkeeps_refl).
  eapply tkeeps_trans; [exact K1|]. eapply tkeeps_trans; [exact K2|].
  eapply tkeeps_trans; [by eapply tkeeps_tree|]. by eapply (tkeeps_upd x).
Qed.

Lemma tkeeps_detach x s s' : detach x s = Some s' -> tkeeps s s'.
Proof.
  unfold detach. intros E. apply bind_Some in E as (n & _ & E). destruct (in_rbtree n).
  - by eapply tkeeps_tree_erase.
  - by eapply tkeeps_links.
Qed.

Lemma tkeeps_as_list x f s s' : on_links f (as_list x s) = Some s' -> tkeeps s s'.
Proof. intros E. eapply tkeeps_trans; [|by eapply tkeeps_links]. by apply tkeeps_refl. Qed.

Lemma tkeeps_arm x e s s' : arm_earlier x e s = Some s' -> tkeeps s s'.
Proof. unfold arm_earlier. intros E. run_inv; apply tkeeps_refl; [by destruct (_ <? _)|done]. Qed.

Lemma tkeeps_insert_node x s s' : __poller_insert_node x s = Some s' -> tkeeps s s'.
Proof.
  unfold __poller_insert_node. intros E. apply bind_Some in E as (z & _ & E). apply bind_Some in E as (b & _ & E).
  destruct b; [|destruct (0 <=? _)].
  - apply bind_Some in E as (s1 & E1 & E). eapply tkeeps_trans; [by eapply tkeeps_as_list|by eapply tkeeps_arm].
  - by eapply tkeeps_as_list.
  - apply bind_Some in E as (s1 & E1 & E). eapply tkeeps_trans; [by eapply tkeeps_tree_insert|].
    case_decide; [injection E as ->; by apply tkeeps_refl|]. apply bind_Some in E as (y & _ & E). by eapply tkeeps_arm.
Qed.

Lemma tkeeps_insert t x s s' : insert_timeout t x s = Some s' -> tkeeps s s'.
Proof.
  unfold insert_timeout, insert_no_timeout. destruct (0 <=? t); [by apply tkeeps_insert_node|by apply tkeeps_as_list].
Qed.

Lemma tkeeps_take_first x s s' : take_first x s = Some s' -> tkeeps s s'.
Proof.
  unfold take_first. intros E. apply bind_Some in E as (n & _ & E). apply bind_Some in E as (s1 & E1 & E).
  apply bind_Some in E as (s2 & E2 & E). injection E as <-.
  eapply tkeeps_trans; [|destruct (tree_first s2); by apply tkeeps_refl].
  eapply tkeeps_trans; [|by eapply tkeeps_as_list]. eapply tkeeps_trans; [|by eapply tkeeps_tree]. by apply tkeeps_refl.
Qed.

(** *** The operations of the poller *)

Lemma keeps_tmr f p p' : on_tmr f p = Some p' -> (forall s', f (tmr p) = Some s' -> tkeeps (tmr p) s') -> keeps p p'.
Proof. unfold on_tmr. intros E H. apply bind_Some in E as (s' & E1 & E). injection E as <-. by apply H. Qed.

Lemma keeps_slot z v p p' : set_slot z v p = Some p' -> keeps p p'.
Proof. unfold set_slot. intros E. apply bind_Some in E as (w & _ & E). injection E as <-. by apply keeps_refl. Qed.

Lemma keeps_release x s : tkeeps s (release x s).
Proof. intros y n' E. cbn in E. apply lookup_delete_Some in E as [_ E]. eauto. Qed.

Lemma keeps_free x p p' : free_node x p = Some p' -> keeps p p'.
Proof.
  unfold free_node. destruct x as [x|]; intros E; [|injection E as <-; by apply keeps_refl].
  apply bind_Some in E as (n & _ & E). injection E as <-. apply keeps_release.
Qed.

Lemma keeps_call_back x p p' : call_back x p = Some p' -> keeps p p'.
Proof. unfold call_back. intros E. apply bind_Some in E as (n & _ & E). injection E as <-. apply keeps_release. Qed.

Lemma keeps_upd x f p p' : on_tmr (upd_node x f) p = Some p' -> (forall n, stuff (f n) = stuff n) -> keeps p p'.
Proof. intros E Hf. eapply keeps_tmr; [done|]. intros s' E'. by eapply tkeeps_upd. Qed.

Lemma keeps_detach x p p' : on_tmr (detach x) p = Some p' -> keeps p p'.
Proof. intros E. eapply keeps_tmr; [done|]. intros s'. by apply tkeeps_detach. Qed.

Lemma keeps_insert t x p p' : on_tmr (insert_timeout t x) p = Some p' -> keeps p p'.
Proof. intros E. eapply keeps_tmr; [done|]. intros s'. by apply tkeeps_insert. Qed.

Lemma keeps_finish x st err p p' : finish x st err p = Some p' -> keeps p p'.
Proof.
  unfold finish, set_result. intros E. apply bind_Some in E as (p1 & E1 & E). apply bind_Some in E as (n & _ & E).
  apply bind_Some in E as (p2 & E2 & E). eapply keeps_trans; [by eapply (keeps_upd x)|].
  eapply keeps_trans; [by eapply keeps_free|by eapply keeps_call_back].
Qed.

Lemma keeps_deliver b x p p' : deliver_if b x p = Some p' -> keeps p p'.
Proof.
  unfold deliver_if. destruct b; intros E; [|injection E as <-; by apply keeps_refl].
  apply bind_Some in E as (n & _ & E). apply bind_Some in E as (p2 & E2 & E).
  eapply keeps_trans; [by eapply keeps_free|by eapply keeps_call_back].
Qed.

Lemma keeps_retire x st p p' : retire x st p = Some p' -> keeps p p'.
Proof.
  unfold retire, set_result. intros E. apply bind_Some in E as (p1 & E1 & E).
  eapply keeps_trans; [by eapply (keeps_upd x)|]. destruct (stopped p1); [injection E as <-; by apply keeps_refl|].
  apply bind_Some in E as (p2 & E2 & E). injection E as <-. eapply keeps_trans; [by eapply (keeps_upd x)|by apply keeps_refl].
Qed.

Lemma keeps_discard x e p r p' : discard x e p = Some (r, p') -> keeps p p'.
Proof.
  unfold discard. intros E. apply bind_Some in E as (n & _ & E). apply bind_Some in E as (p1 & E1 & E).
  apply bind_Some in E as (p2 & E2 & E). injection E as _ <-. eapply keeps_trans; by eapply keeps_free.
Qed.

(** A new node is ready; the others keep what they hold. *)
Definition keeps_old (p p' : poller) : Prop :=
  forall y n n', node_at y p = Some n -> node_at y p' = Some n' -> stuff n' = stuff n.

Lemma keeps_old_of p p' : keeps p p' -> keeps_old p p'.
Proof. intros K y n n' E E'. apply K in E' as (m & Em & ->). unfold node_at in E. congruence. Qed.

Lemma keeps_old_trans p p1 p' : keeps_old p p1 -> (forall y, is_Some (node_at y p) -> is_Some (node_at y p1)) ->
  keeps p1 p' -> keeps_old p p'.
Proof.
  intros K Ha K' y n n' E E'. apply K' in E' as (m & Em & ->). by eapply K.
Qed.

Lemma event_ready d ev need : __poller_data_get_event d = Some (ev, need) ->
  forall n, pn_data n = d -> (need = true -> res n <> None) -> ready n.
Proof.
  unfold __poller_data_get_event, ready. intros E n -> Hr.
  destruct (Z.eqb_spec (operation d) PD_OP_READ); [injection E as _ <-; left; split; [done|]; intros Hm; apply Hr; by destruct (Z.eqb_spec (message d) 0)|].
  destruct (Z.eqb_spec (operation d) PD_OP_WRITE); [tauto|].
  destruct (Z.eqb_spec (operation d) PD_OP_LISTEN); [injection E as _ <-; tauto|].
  destruct (Z.eqb_spec (operation d) PD_OP_CONNECT); [tauto|].
  destruct (Z.eqb_spec (operation d) PD_OP_RECVFROM); [injection E as _ <-; tauto|].
  destruct (Z.eqb_spec (operation d) PD_OP_EVENT); [injection E as _ <-; tauto|].
  destruct (Z.eqb_spec (operation d) PD_OP_NOTIFY); [injection E as _ <-; tauto|done].
Qed.

Lemma keeps_old_set x n p : node_at x p = None -> keeps_old p (set_pnode x n p).
Proof. intros Hx y m m' E. rewrite node_at_set. case_decide; [congruence|intros E'; congruence]. Qed.

Lemma set_pnode_alloc x n p y : is_Some (node_at y p) -> is_Some (node_at y (set_pnode x n p)).
Proof. rewrite node_at_set. case_decide; [eauto|done]. Qed.

Lemma new_node_keeps d t a p r p1 : __poller_new_node d t a p = (r, p1) -> answers_ok p a ->
  keeps_old p p1 /\ (forall y, is_Some (node_at y p) -> is_Some (node_at y p1)) /\
  (forall x, r = inr x -> malloc_node a = Some x /\ exists n, node_at x p1 = Some n /\ ready n).
Proof.
  unfold __poller_new_node. intros E (Fr & Fn & _ & Ne).
  assert (K0 : keeps_old p p) by (by apply keeps_old_of, keeps_refl).
  destruct (bad_fd (fd d) p); [by injection E as <- <-|].
  destruct (__poller_data_get_event d) as [[ev need]|] eqn:Ed; [|by injection E as <- <-].
  destruct (need && bool_decide (malloc_res a = None)) eqn:En; [by injection E as <- <-|].
  set (rs := if need then malloc_res a else None) in E.
  set (p0 := match rs with Some r => set_pnode r (junk a) p | None => p end) in E.
  assert (H0 : keeps_old p p0 /\ forall y, is_Some (node_at y p) -> is_Some (node_at y p0)).
  { subst p0 rs. destruct need; [|done]. destruct (malloc_res a) as [r0|] eqn:Er; [|done].
    split; [apply keeps_old_set; by apply Fr|intros y; apply set_pnode_alloc]. }
  destruct H0 as [K1 A1]. destruct (malloc_node a) as [x|] eqn:Ex; [|by injection E as <- <-].
  injection E as <- <-.
  assert (Hx0 : node_at x p0 = None).
  { subst p0 rs. destruct (Fn x eq_refl) as [Hx _]. destruct need; [|done]. destruct (malloc_res a) as [r0|] eqn:Er; [|done].
    rewrite node_at_set, decide_False; [done|]. intros ->. by apply Ne. }
  split; [|split].
  - intros y n n' Ey. rewrite node_at_set. case_decide as Dy.
    + subst y. destruct (A1 x) as [m Em]; [eauto|congruence].
    + by apply K1.
  - intros y Hy. by apply set_pnode_alloc, A1.
  - intros y [= <-]. split; [done|]. rewrite node_at_set, decide_True by done. eexists. split; [done|].
    eapply event_ready; [exact Ed|done|]. cbn. intros ->. subst rs. by destruct (malloc_res a).
Qed.

Lemma keeps_ready p p' x n : keeps p p' -> node_at x p = Some n -> ready n ->
  forall n', node_at x p' = Some n' -> ready n'.
Proof. intros K En Rn n' E'. apply K in E' as (m & Em & Es). unfold node_at in En. eapply ready_stuff; [done|congruence]. Qed.

(** The two calls that make a node for a descriptor. *)
Lemma add_keeps d t a p r p' : answers_ok p a -> poller_add d t a p = Some (r, p') ->
  keeps_old p p' /\ (r = None -> forall x n', malloc_node a = Some x -> node_at x p' = Some n' -> ready n').
Proof.
  unfold poller_add. intros Ha E. destruct (__poller_new_node d t a p) as [r0 p1] eqn:Enew.
  destruct (new_node_keeps _ _ _ _ _ _ Enew Ha) as (K1 & A1 & Nx).
  destruct r0 as [e|x]; [by injection E as <- <-|]. destruct (Nx x eq_refl) as (Ex & n & En & Rn).
  apply bind_Some in E as (cur & _ & E).
  assert (Fin : keeps p1 p' -> keeps_old p p' /\ (r = None -> forall x n', malloc_node a = Some x -> node_at x p' = Some n' -> ready n')).
  { intros K. split; [by eapply keeps_old_trans|]. intros _ y n' Ey. rewrite Ex in Ey. injection Ey as <-. by eapply keeps_ready. }
  apply Fin. destruct cur; [by eapply keeps_discard|]. destruct (ctl a); [by eapply keeps_discard|].
  apply bind_Some in E as (n1 & _ & E). apply bind_Some in E as (p2 & E2 & E). apply bind_Some in E as (p3 & E3 & E).
  injection E as _ <-. eapply keeps_trans; [|by eapply keeps_slot]. eapply keeps_trans; [|by eapply keeps_insert]. by apply keeps_refl.
Qed.

Lemma mod_keeps d t a p r p' : answers_ok p a -> poller_mod d t a p = Some (r, p') ->
  keeps_old p p' /\ (r = None -> forall x n', malloc_node a = Some x -> node_at x p' = Some n' -> ready n').
Proof.
  unfold poller_mod. intros Ha E. destruct (__poller_new_node d t a p) as [r0 p1] eqn:Enew.
  destruct (new_node_keeps _ _ _ _ _ _ Enew Ha) as (K1 & A1 & Nx).
  destruct r0 as [e|x]; [by injection E as <- <-|]. destruct (Nx x eq_refl) as (Ex & n & En & Rn).
  apply bind_Some in E as (cur & _ & E).
  assert (Fin : keeps p1 p' -> keeps_old p p' /\ (r = None -> forall x n', malloc_node a = Some x -> node_at x p' = Some n' -> ready n')).
  { intros K. split; [by eapply keeps_old_trans|]. intros _ y n' Ey. rewrite Ex in Ey. injection Ey as <-. by eapply keeps_ready. }
  apply Fin. destruct cur as [orig|]; [|by eapply keeps_discard]. destruct (ctl a); [by eapply keeps_discard|].
  apply bind_Some in E as (n1 & _ & E). apply bind_Some in E as (p2 & E2 & E). apply bind_Some in E as (p3 & E3 & E).
  apply bind_Some in E as (p4 & E4 & E). apply bind_Some in E as (p5 & E5 & E). apply bind_Some in E as (p6 & E6 & E).
  injection E as _ <-.
  eapply keeps_trans; [|by eapply keeps_deliver]. eapply keeps_trans; [|by eapply keeps_slot].
  eapply keeps_trans; [|by eapply keeps_insert]. eapply keeps_trans; [|by eapply keeps_retire].
  eapply keeps_trans; [|by eapply keeps_detach]. by apply keeps_refl.
Qed.

Lemma del_keeps z p r p' : poller_del z p = Some (r, p') -> keeps p p'.
Proof.
  unfold poller_del. intros E. destruct (bad_fd z p); [injection E as _ <-; by apply keeps_refl|].
  apply bind_Some in E as (cur & _ & E). destruct cur as [x|]; [|injection E as _ <-; by apply keeps_refl].
  apply bind_Some in E as (p1 & E1 & E). apply bind_Some in E as (p2 & E2 & E). apply bind_Some in E as (p3 & E3 & E).
  apply bind_Some in E as (p4 & E4 & E). injection E as _ <-.
  eapply keeps_trans; [|by eapply keeps_deliver]. eapply keeps_trans; [|by eapply keeps_retire].
  eapply keeps_trans; [by eapply keeps_slot|]. eapply keeps_trans; [by eapply keeps_detach|]. by apply keeps_refl.
Qed.

Lemma set_timeout_keeps z t now p r p' : poller_set_timeout z t now p = Some (r, p') -> keeps p p'.
Proof.
  unfold poller_set_timeout. intros E. destruct (bad_fd z p); [injection E as _ <-; by apply keeps_refl|].
  apply bind_Some in E as (cur & _ & E). destruct cur as [x|]; [|injection E as _ <-; by apply keeps_refl].
  apply bind_Some in E as (p1 & E1 & E). apply bind_Some in E as (p2 & E2 & E). apply bind_Some in E as (p3 & E3 & E).
  injection E as _ <-. eapply keeps_trans; [by eapply keeps_detach|]. eapply keeps_trans; [|by eapply keeps_insert].
  destruct (0 <=? t); [by eapply keeps_upd|injection E2 as <-; by apply keeps_refl].
Qed.

Lemma del_timer_keeps x p r p' : poller_del_timer x p = Some (r, p') -> keeps p p'.
Proof.
  unfold poller_del_timer, set_result. intros E. apply bind_Some in E as (n & _ & E).
  destruct (removed n); [injection E as _ <-; by apply keeps_refl|].
  apply bind_Some in E as (p1 & E1 & E). apply bind_Some in E as (p2 & E2 & E). apply bind_Some in E as (p3 & E3 & E).
  apply bind_Some in E as (p4 & E4 & E). injection E as _ <-.
  eapply keeps_trans; [by eapply keeps_upd|]. eapply keeps_trans; [by eapply keeps_detach|].
  eapply keeps_trans; [by eapply keeps_upd|by eapply keeps_call_back].
Qed.

Lemma add_timer_keeps v ctx a p r p' : answers_ok p a -> poller_add_timer v ctx a p = Some (r, p') -> keeps_old p p'.
Proof.
  unfold poller_add_timer. intros (_ & Fn & _) E. destruct (malloc_node a) as [x|].
  2:{ injection E as _ <-. by apply keeps_old_of, keeps_refl. }
  apply bind_Some in E as (p1 & E1 & E). injection E as _ <-.
  eapply keeps_old_trans; [apply (keeps_old_set x); by apply Fn|intros y; by apply set_pnode_alloc|].
  eapply keeps_tmr; [exact E1|]. intros s'. by apply tkeeps_insert_node.
Qed.

(** *** The steps of the thread *)

Lemma conclude_keeps b x v p p' : conclude b x v p = Some p' -> keeps p p'.
Proof.
  unfold conclude. destruct v as [|st err]; intros E; [injection E as <-; by apply keeps_refl|].
  apply bind_Some in E as ([rm p1] & E1 & E).
  assert (K1 : keeps p p1).
  { unfold __poller_remove_node in E1. apply bind_Some in E1 as (n & _ & E1). destruct (removed n); [injection E1 as _ <-; by apply keeps_refl|].
    apply bind_Some in E1 as (p2 & E2 & E1). apply bind_Some in E1 as (p3 & E3 & E1). injection E1 as _ <-.
    eapply keeps_trans; [by eapply keeps_slot|]. eapply keeps_trans; [by eapply keeps_detach|]. by apply keeps_refl. }
  eapply keeps_trans; [exact K1|]. destruct rm; [injection E as <-; by apply keeps_refl|].
  destruct b; [by eapply keeps_finish|]. apply bind_Some in E as (p2 & E2 & E).
  eapply keeps_trans; [by eapply keeps_upd|by eapply keeps_call_back].
Qed.

Lemma pipe_keeps k p stop p' : __poller_handle_pipe k p = Some (stop, p') -> keeps p p'.
Proof.
  unfold __poller_handle_pipe. generalize (take k (pipe_buf p)), false. intros l b E.
  assert (G : forall q, handle_pipe_loop l b q = Some (stop, p') -> keeps q p').
  { clear E. revert b. induction l as [|[x|] l IH]; intros b q E; cbn [handle_pipe_loop] in E.
    - injection E as _ <-. by apply keeps_refl.
    - apply bind_Some in E as (q1 & E1 & E). eapply keeps_trans; [by eapply keeps_deliver|by eapply IH].
    - by eapply IH. }
  eapply keeps_trans; [|by apply G]. by apply keeps_refl.
Qed.

Lemma unregister_keeps x p p' : unregister x p = Some p' -> keeps p p'.
Proof.
  unfold unregister. intros E. apply bind_Some in E as (n & _ & E). destruct (0 <=? fd (pn_data n)); [|by eapply keeps_upd].
  apply bind_Some in E as (p1 & E1 & E). injection E as <-. eapply keeps_trans; [by eapply keeps_slot|by apply keeps_refl].
Qed.

Lemma timeout_list_keeps now fuel : forall pos p p', timeout_list_loop fuel now pos p = Some p' -> keeps p p'.
Proof.
  induction fuel as [|fuel IH]; intros pos p p' E; [done|]. cbn [timeout_list_loop] in E.
  case_decide; [injection E as <-; by apply keeps_refl|]. apply bind_Some in E as (tmp & _ & E). apply bind_Some in E as (n & _ & E).
  destruct (0 <? _); [injection E as <-; by apply keeps_refl|].
  apply bind_Some in E as (p1 & E1 & E). apply bind_Some in E as (p2 & E2 & E).
  eapply keeps_trans; [by eapply unregister_keeps|]. eapply keeps_trans; [|by eapply IH].
  eapply keeps_tmr; [done|]. intros s'. by apply tkeeps_links.
Qed.

Lemma timeout_tree_keeps now fuel : forall p p', timeout_tree_loop fuel now p = Some p' -> keeps p p'.
Proof.
  induction fuel as [|fuel IH]; intros p p' E; [done|]. cbn [timeout_tree_loop] in E.
  destruct (tree_first (tmr p)) as [x|]; [|injection E as <-; by apply keeps_refl]. apply bind_Some in E as (n & _ & E).
  destruct (0 <? _); [injection E as <-; by apply keeps_refl|].
  apply bind_Some in E as (p1 & E1 & E). apply bind_Some in E as (p2 & E2 & E).
  eapply keeps_trans; [by eapply unregister_keeps|]. eapply keeps_trans; [|by eapply IH].
  eapply keeps_tmr; [done|]. intros s'. by apply tkeeps_take_first.
Qed.

Lemma each_local_keeps f p p' : (forall x q q', f x q = Some q' -> keeps q q') -> each_local f p = Some p' -> keeps p p'.
Proof.
  unfold each_local. intros Hf E. apply bind_Some in E as (pos & _ & E). apply bind_Some in E as (tmp & _ & E).
  revert E. generalize (S (size (links (tmr p)))) as fuel. intros fuel. revert pos tmp p.
  induction fuel as [|fuel IH]; intros pos tmp p E; [done|]. cbn [for_each_safe] in E.
  case_decide; [injection E as <-; by apply keeps_refl|]. apply bind_Some in E as (p1 & E1 & E). apply bind_Some in E as (n & _ & E).
  eapply keeps_trans; [by eapply Hf|by eapply IH].
Qed.

Lemma timeout_keeps now p p' : __poller_handle_timeout now p = Some p' -> keeps p p'.
Proof.
  unfold __poller_handle_timeout, timeout_collect, timeout_deliver. intros E. apply bind_Some in E as (p1 & E1 & E).
  apply bind_Some in E1 as (pos & _ & E1). apply bind_Some in E1 as (p2 & E2 & E1).
  eapply keeps_trans; [|eapply each_local_keeps; [|exact E]].
  - eapply keeps_trans; [|by eapply timeout_tree_keeps]. eapply keeps_trans; [|by eapply timeout_list_keeps]. by apply tkeeps_refl.
  - intros x q q' Eq. unfold finish_timeout in Eq. apply bind_Some in Eq as (n & _ & Eq). destruct (0 <=? _); by eapply keeps_finish.
Qed.

Lemma set_timer_keeps p p' : on_tmr __poller_set_timer p = Some p' -> keeps p p' /\ results p' = results p.
Proof.
  intros E. split.
  - eapply keeps_tmr; [exact E|]. intros s' Es. unfold __poller_set_timer in Es. apply bind_Some in Es as (b & _ & Es).
    apply bind_Some in Es as (y & _ & Es). injection Es as <-. by apply tkeeps_refl.
  - unfold on_tmr in E. apply bind_Some in E as (s' & _ & E). by injection E as <-.
Qed.

