(* ===== verification/PollerThread.v ===== *)
(** * The poller thread of [src/kernel/poller.c] and its clients

    A transition system: the thread runs [__poller_thread_routine], one step per
    critical section or handler, and between two of its steps any client may call
    the interface, as the mutex allows.  The handlers are two steps, because a
    client may remove the node of an event between the work on its descriptor and
    [__poller_remove_node]; a client may also remove or replace a node after
    [epoll_wait] has reported it.  The invariant: a node the thread still has to
    handle is registered, or it is in the pipe and so not freed.

    [accepted] and [handles] are the history of the clients: the nodes of
    successful calls, and the timers whose callback has not been called. *)

From S2P Require Import Prelude ListHead RBTree RBInsert RBErase RBSearch PollerTimer Poller PollerSpec PollerIO PollerFrame.

Local Open Scope Z_scope.

Definition POLLER_EVENTS_MAX : nat := 256.

(** [data.ptr] of an event: NULL (the timer), 1 (the pipe), a node. *)
Inductive poll_event := EvTimer | EvPipe | EvNode (x : loc).

(** Where the thread is in the loop of [__poller_thread_routine]. *)
Inductive pc :=
  | PSetTimer
  | PWait
  | PBatch (evs : list poll_event) (has_pipe_event : bool) (time_node : timespec)
  | PConclude (x : loc) (has_res : bool) (v : verdict)
      (evs : list poll_event) (has_pipe_event : bool) (time_node : timespec)
  | PPipe (time_node : timespec)
  | PTimeout (time_node : timespec)
  | PExit.

Record sys (U : Type) := mk_sys {
  pl : poller;
  ctr : pc;
  user : U;
  accepted : list loc;
  handles : list loc }.
Arguments mk_sys {U} pl ctr user accepted handles.
Arguments pl {U}.
Arguments ctr {U}.
Arguments user {U}.
Arguments accepted {U}.
Arguments handles {U}.

(** What [epoll_wait] reports: registered nodes, each once, and the pipe if it is
    not empty. *)
Definition events_ok (evs : list poll_event) (p : poller) : Prop :=
  NoDup evs /\ (length evs <= POLLER_EVENTS_MAX)%nat /\
  (forall x, EvNode x ∈ evs -> exists z ev, pfd p !! z = Some (ev, x)) /\
  (EvPipe ∈ evs -> pipe_buf p <> []).

(** One [read] of [__poller_handle_pipe]: at most the buffer. *)
Definition pipe_count (p : poller) : nat :=
  Nat.min (length (pipe_buf p)) (Z.to_nat (POLLER_BUFSIZE / 8)).

(** The node of a successful call. *)
Definition accepted_by (c : call) (r : option Z) : list loc :=
  match r, c with
  | None, CAdd _ _ a | None, CMod _ _ a | None, CAddTimer _ _ a => option_list (malloc_node a)
  | _, _ => []
  end.
Definition handle_of (c : call) (r : option Z) : list loc :=
  match c with CAddTimer _ _ _ => accepted_by c r | _ => [] end.

(** The nodes given to the callback between two states. *)
Definition given (p p' : poller) : list loc := (drop (length (results p)) (results p')).*1.
Definition still (p p' : poller) (hs : list loc) : list loc := filter (fun x => x ∉ given p p') hs.

(** What a client must respect. *)
Definition client_ok (c : call) (p : poller) (hs : list loc) : Prop :=
  match c with
  | CAdd d _ a | CMod d _ a => is_int (fd d) /\ answers_ok p a
  | CDel z => is_int z
  | CSetTimeout z _ now => is_int z /\ clock_ok now
  | CAddTimer v _ a => answers_ok p a /\ 0 <= tv_sec v /\ 0 <= tv_nsec v < 1000000000
  | CDelTimer x => x ∈ hs
  end.

Section Thread.
Context {U : Type} {UF : functions U}.

Inductive step : sys U -> sys U -> Prop :=
  | step_call c r p p' k u acc hs :
      client_ok c p hs -> run_call c p = Some (r, p') ->
      step (mk_sys p k u acc hs)
           (mk_sys p' k u (accepted_by c r ++ acc) (handle_of c r ++ still p p' hs))
  | step_stop p k u acc hs :
      step (mk_sys p k u acc hs) (mk_sys (pipe_write None p) k u acc hs)
  | step_set_timer p p' u acc hs :
      on_tmr __poller_set_timer p = Some p' ->
      step (mk_sys p PSetTimer u acc hs) (mk_sys p' PWait u acc (still p p' hs))
  | step_wait evs now p u acc hs :
      events_ok evs p -> clock_ok now ->
      step (mk_sys p PWait u acc hs) (mk_sys p (PBatch evs false now) u acc hs)
  | step_timer evs b now p u acc hs :
      step (mk_sys p (PBatch (EvTimer :: evs) b now) u acc hs) (mk_sys p (PBatch evs b now) u acc hs)
  | step_pipe evs b now p u acc hs :
      step (mk_sys p (PBatch (EvPipe :: evs) b now) u acc hs) (mk_sys p (PBatch evs true now) u acc hs)
  | step_handle x n a v hr evs b now p p' u u' acc hs :
      node_at x p = Some n -> answer_ok a (operation (pn_data n)) ->
      handle_event_io a x p u = Some (v, hr, p', u') ->
      step (mk_sys p (PBatch (EvNode x :: evs) b now) u acc hs)
           (mk_sys p' (PConclude x hr v evs b now) u' acc (still p p' hs))
  | step_conclude x hr v evs b now p p' u acc hs :
      conclude hr x v p = Some p' ->
      step (mk_sys p (PConclude x hr v evs b now) u acc hs)
           (mk_sys p' (PBatch evs b now) u acc (still p p' hs))
  | step_batch_end b now p u acc hs :
      step (mk_sys p (PBatch [] b now) u acc hs)
           (mk_sys p (if (b : bool) then PPipe now else PTimeout now) u acc hs)
  | step_handle_pipe now stop p p' u acc hs :
      __poller_handle_pipe (pipe_count p) p = Some (stop, p') ->
      step (mk_sys p (PPipe now) u acc hs)
           (mk_sys p' (if (stop : bool) then PExit else PTimeout now) u acc (still p p' hs))
  | step_timeout now p p' u acc hs :
      __poller_handle_timeout now p = Some p' ->
      step (mk_sys p (PTimeout now) u acc hs) (mk_sys p' PSetTimer u acc (still p p' hs)).

(** A poller that [poller_create] and [poller_start] have just made. *)
Definition started (max : Z) (u : U) : sys U :=
  mk_sys (with_stopped false (with_pipe [] (new_poller max))) PSetTimer u [] [].

Inductive reachable (max : Z) : sys U -> Prop :=
  | reach_start u : reachable max (started max u)
  | reach_step a b : reachable max a -> step a b -> reachable max b.

End Thread.

(** ** Calls and the nodes of the others *)

Lemma run_call_keeps c p r p' hs : client_ok c p hs -> run_call c p = Some (r, p') ->
  keeps_old p p' /\
  (forall x n', x ∈ accepted_by c r -> (x ∉ handle_of c r) -> node_at x p' = Some n' -> ready n').
Proof.
  intros V E. destruct c; cbn [client_ok run_call] in *.
  - destruct V as [_ V]. destruct (add_keeps _ _ _ _ _ _ V E) as [K R]. split; [done|]. intros x n' Hx _ En.
    destruct r; cbn in Hx; [set_solver|]. apply (R eq_refl x); [|done]. destruct (malloc_node a); cbn in Hx; set_solver.
  - split; [by eapply keeps_old_of, del_keeps|]. intros x n' Hx. destruct r; cbn in Hx; set_solver.
  - destruct V as [_ V]. destruct (mod_keeps _ _ _ _ _ _ V E) as [K R]. split; [done|]. intros x n' Hx _ En.
    destruct r; cbn in Hx; [set_solver|]. apply (R eq_refl x); [|done]. destruct (malloc_node a); cbn in Hx; set_solver.
  - split; [by eapply keeps_old_of, set_timeout_keeps|]. intros x n' Hx. destruct r; cbn in Hx; set_solver.
  - destruct V as (V & _). split; [by eapply add_timer_keeps|]. intros y n' Hx Hy. by destruct Hy.
  - split; [by eapply keeps_old_of, del_timer_keeps|]. intros y n' Hx. destruct r; cbn in Hx; set_solver.
Qed.

(** ** Accounting

    Every accepted node is watched, in the pipe, or was given to the callback with
    a final state. *)

Definition finals (os : list (loc * Z * Z)) : list loc :=
  (filter (fun o => o.1.2 <> PR_ST_SUCCESS) os).*1.*1.
Definition keys (w : gmap loc watched) : list loc := (map_to_list w).*1.
Arguments finals : simpl never.
Arguments keys : simpl never.
Definition account (s : aspec) : list loc := keys (a_watch s) ++ (a_pipe s).*1 ++ finals (a_out s).

Lemma keys_insert w x e : w !! x = None -> keys (<[x := e]> w) ≡ₚ x :: keys w.
Proof. intros H. unfold keys. by rewrite map_to_list_insert. Qed.
Lemma keys_delete w x e : w !! x = Some e -> keys w ≡ₚ x :: keys (delete x w).
Proof. intros H. unfold keys. by rewrite <- (map_to_list_delete w x e H). Qed.
Lemma keys_alter f w x : keys (alter f x w) ≡ₚ keys w.
Proof.
  destruct (w !! x) as [e|] eqn:E.
  - rewrite (keys_delete w x e E), (keys_delete (alter f x w) x (f e)); [|by rewrite lookup_alter_eq, E].
    by rewrite delete_alter_eq.
  - replace (alter f x w) with w; [done|]. apply map_eq. intros y.
    destruct (decide (x = y)) as [<-|Hy]; [by rewrite lookup_alter_eq, E|by rewrite lookup_alter_ne].
Qed.
Lemma keys_in w x : x ∈ keys w <-> is_Some (w !! x).
Proof.
  unfold keys. rewrite list_elem_of_fmap. split.
  - intros ([y e] & -> & H%elem_of_map_to_list). eauto.
  - intros [e H%elem_of_map_to_list]. by exists (x, e).
Qed.
Lemma keys_nodup w : NoDup (keys w).
Proof. apply NoDup_fst_map_to_list. Qed.

Lemma finals_app a b : finals (a ++ b) = finals a ++ finals b.
Proof. unfold finals. by rewrite filter_app, !fmap_app. Qed.
Lemma finals_success rs : Forall (fun r : loc * poller_node => pn_state r.2 = PR_ST_SUCCESS) rs ->
  finals (out_of <$> rs) = [].
Proof.
  induction 1 as [|r rs E H IH]; [done|]. unfold finals in *. cbn [fmap list_fmap]. rewrite filter_cons_False; [done|].
  cbn. by intros [].
Qed.
Lemma finals_all os : (forall o, o ∈ os -> o.1.2 <> PR_ST_SUCCESS) -> finals os = os.*1.*1.
Proof.
  induction os as [|o os IH]; intros H; [done|]. unfold finals in *. rewrite filter_cons_True by (apply H; by left).
  cbn. f_equal. apply IH. intros o' Ho. apply H. by right.
Qed.

(** What a step does to the specification: [new] is accepted, nothing is lost, a
    watched timer stays watched unless it is delivered. *)
Record moved (new : list loc) (s s' : aspec) : Prop := mk_moved {
  mv_account : account s' ≡ₚ new ++ account s;
  mv_timer : exists d, a_out s' = a_out s ++ d /\
    forall x e, a_watch s !! x = Some e -> w_fd e < 0 ->
      x ∈ d.*1.*1 \/ exists e', a_watch s' !! x = Some e' /\ w_fd e' = w_fd e;
  mv_watch : forall x e', a_watch s' !! x = Some e' ->
    x ∈ new \/ exists e, a_watch s !! x = Some e /\ w_fd e = w_fd e' }.

Lemma find_fd_in z w x : find_fd z w = Some x -> exists e, w !! x = Some e /\ w_fd e = z.
Proof.
  unfold find_fd. destruct (filter _ (map_to_list w)) as [|[y e] l] eqn:E; [done|]. cbn. intros [= <-].
  assert (Hin : (y, e) ∈ filter (fun kv : loc * watched => w_fd kv.2 = z) (map_to_list w)) by (rewrite E; by left).
  apply list_elem_of_filter in Hin as [E1 E2%elem_of_map_to_list]. by exists e.
Qed.

Lemma moved_refl s : moved [] s s.
Proof.
  constructor; [done| |by intros x e; eauto]. exists []. rewrite app_nil_r. split; [done|]. intros x e Hx _. right. by exists e.
Qed.

(** A new node, and the watch map otherwise the same. *)
Lemma moved_insert s x e : a_watch s !! x = None -> moved [x] s (spec_watch (<[x := e]> (a_watch s)) s).
Proof.
  intros Hx. constructor.
  - unfold account. cbn. by rewrite keys_insert.
  - exists []. cbn. rewrite app_nil_r. split; [done|]. intros y e' Hy _. right. exists e'.
    rewrite lookup_insert_ne; [done|]. intros ->. congruence.
  - intros y e' Hy. destruct (decide (y = x)) as [->|Hyx]; [left; by left|right]. exists e'.
    cbn in Hy. by rewrite lookup_insert_ne in Hy.
Qed.

Lemma moved_trans n1 n2 s1 s2 s3 : moved n1 s1 s2 -> moved n2 s2 s3 -> moved (n2 ++ n1) s1 s3.
Proof.
  intros [A1 (d1 & O1 & T1) W1] [A2 (d2 & O2 & T2) W2]. constructor.
  - by rewrite A2, A1, app_assoc.
  - exists (d1 ++ d2). rewrite O2, O1, app_assoc. split; [done|]. intros x e Hx Hz. rewrite !fmap_app, elem_of_app.
    destruct (T1 x e Hx Hz) as [H|(e' & Hx' & Ee)]; [by left; left|].
    destruct (T2 x e' Hx') as [H|(e2 & Hx2 & E2)]; [lia|by left; right|]. right. exists e2. split; [done|congruence].
  - intros x e3 H3. rewrite elem_of_app. destruct (W2 x e3 H3) as [H|(e2 & H2 & E2)]; [by left; left|].
    destruct (W1 x e2 H2) as [H|(e1 & H1 & E1)]; [by left; right|]. right. exists e1. split; [done|congruence].
Qed.

Lemma delete_watch s x y e' : delete x (a_watch s) !! y = Some e' -> exists e, a_watch s !! y = Some e /\ w_fd e = w_fd e'.
Proof. intros [_ H]%lookup_delete_Some. eauto. Qed.

(** A watched node is taken out of service. *)
Lemma moved_retire s x e st : a_watch s !! x = Some e -> 0 <= w_fd e -> a_stopped s = false ->
  moved [] s (spec_retire x st (spec_watch (delete x (a_watch s)) s)).
Proof.
  intros Hx Hz Es. unfold spec_retire. cbn. rewrite Es. constructor.
  - unfold account. cbn. rewrite (keys_delete _ _ _ Hx), fmap_app. cbn. rewrite <- app_assoc. cbn.
    by rewrite Permutation_middle, (Permutation_middle (a_pipe s).*1).
  - exists []. cbn. rewrite app_nil_r. split; [done|]. intros y e' Hy Hz'. right. exists e'.
    rewrite lookup_delete_ne; [done|]. intros ->. assert (e' = e) by congruence. subst. lia.
  - intros y e' Hy. right. by eapply delete_watch.
Qed.

Lemma moved_deliver s x e st err : a_watch s !! x = Some e -> st <> PR_ST_SUCCESS ->
  moved [] s (spec_deliver x st err (spec_watch (delete x (a_watch s)) s)).
Proof.
  intros Hx Hst. constructor.
  - unfold account. cbn. rewrite (keys_delete _ _ _ Hx), finals_app.
    rewrite (finals_all [(x, st, err)]) by (intros o ->%list_elem_of_singleton; done). cbn.
    rewrite !app_assoc. symmetry. apply Permutation_cons_append.
  - exists [(x, st, err)]. cbn. split; [done|]. intros y e' Hy _. destruct (decide (y = x)) as [->|Hyx]; [left; by left|].
    right. exists e'. by rewrite lookup_delete_ne.
  - intros y e' Hy. right. exact (delete_watch s x y e' Hy).
Qed.

Lemma spec_new_inr d a s x ev : spec_new d a s = inr (x, ev) -> malloc_node a = Some x /\ spec_fd (fd d) s = None.
Proof. unfold spec_new. intros E. repeat case_match; try discriminate E; by injection E as <- <-. Qed.

Lemma spec_fd_pos z s : spec_fd z s = None -> 0 <= z.
Proof. unfold spec_fd. destruct (Z.leb_spec 0 z); [lia|]. done. Qed.

Lemma call_moved c s : a_stopped s = false ->
  (forall x, x ∈ accepted_by c (spec_call c s).1 -> a_watch s !! x = None) ->
  moved (accepted_by c (spec_call c s).1) s (spec_call c s).2.
Proof.
  intros Es Hn. destruct c as [d t a|z|d t a|z t now|v ctx a|x]; cbn [spec_call] in *.
  - destruct (spec_new d a s) as [e|[x ev]] eqn:En; [apply moved_refl|]. destruct (find_fd (fd d) (a_watch s)); [apply moved_refl|].
    destruct (ctl a); [apply moved_refl|]. cbn [fst snd accepted_by] in *. destruct (spec_new_inr _ _ _ _ _ En) as [Ex _].
    rewrite Ex in *. apply moved_insert. apply Hn. cbn. by left.
  - destruct (spec_fd z s) eqn:Hz; [apply moved_refl|]. destruct (find_fd z (a_watch s)) as [x|] eqn:Ef; [|apply moved_refl].
    apply find_fd_in in Ef as (e & He & Ez). eapply moved_retire; [done| |done]. rewrite Ez. by eapply spec_fd_pos.
  - destruct (spec_new d a s) as [e|[x ev]] eqn:En; [apply moved_refl|]. destruct (find_fd (fd d) (a_watch s)) as [y|] eqn:Ef; [|apply moved_refl].
    destruct (ctl a); [apply moved_refl|]. cbn [fst snd accepted_by] in *.
    destruct (spec_new_inr _ _ _ _ _ En) as [Ex Hf]. rewrite Ex in *. apply find_fd_in in Ef as (e & He & Ez).
    assert (Hxy : y <> x). { intros ->. rewrite Hn in He; [done|]. cbn. by left. }
    set (e1 := mk_watched _ _ _).
    replace (<[x := e1]> (delete y (a_watch s))) with (delete y (<[x := e1]> (a_watch s))) by (by rewrite delete_insert_ne).
    apply (moved_trans [x] [] s (spec_watch (<[x := e1]> (a_watch s)) s)).
    + apply moved_insert, Hn. cbn. by left.
    + change (spec_watch (delete y (<[x := e1]> (a_watch s))) s) with
        (spec_watch (delete y (a_watch (spec_watch (<[x := e1]> (a_watch s)) s))) (spec_watch (<[x := e1]> (a_watch s)) s)).
      apply (moved_retire _ y e); cbn; [by rewrite lookup_insert_ne| |done].
      rewrite Ez. by eapply spec_fd_pos.
  - destruct (spec_fd z s); [apply moved_refl|]. destruct (find_fd z (a_watch s)) as [x|]; [|apply moved_refl].
    constructor; cbn [fst snd accepted_by].
    + unfold account. cbn. by rewrite keys_alter.
    + exists []. cbn. rewrite app_nil_r. split; [done|]. intros y e Hy _. right. destruct (decide (x = y)) as [->|Hxy].
      * rewrite lookup_alter_eq, Hy. cbn. by eexists.
      * rewrite lookup_alter_ne by done. by exists e.
    + cbn. intros y e' Hy. right. destruct (decide (x = y)) as [->|Hxy].
      * rewrite lookup_alter_eq in Hy. apply fmap_Some in Hy as (e & He & ->). by exists e.
      * rewrite lookup_alter_ne in Hy by done. by exists e'.
  - destruct (malloc_node a) as [x|] eqn:Ex; [|apply moved_refl]. cbn [fst snd accepted_by] in *. rewrite Ex in *.
    apply moved_insert, Hn. cbn. by left.
  - destruct (a_watch s !! x) as [e|] eqn:Hx; [|apply moved_refl]. by eapply moved_deliver.
Qed.

Lemma conclude_moved x v s : (forall st err, v = Done st err -> st <> PR_ST_SUCCESS) -> moved [] s (spec_conclude x v s).
Proof.
  intros Hv. destruct v as [|st err]; cbn [spec_conclude]; [apply moved_refl|].
  destruct (a_watch s !! x) as [e|] eqn:Hx; [|apply moved_refl]. eapply moved_deliver; [done|by eapply Hv].
Qed.

Lemma out_moved rs s : Forall (fun r : loc * poller_node => pn_state r.2 = PR_ST_SUCCESS) rs ->
  moved [] s (spec_out (out_of <$> rs) s).
Proof.
  intros H. constructor; [| |by intros x e; eauto].
  - unfold account. cbn. by rewrite finals_app, finals_success, app_nil_r.
  - exists (out_of <$> rs). split; [done|]. intros x e Hx _. right. by exists e.
Qed.

(** The states of the nodes in the pipe. *)
Definition pipe_final (s : aspec) : Prop := forall o, o ∈ a_pipe s -> o.2 <> PR_ST_SUCCESS.

Lemma pipe_outs (l : list (loc * Z)) :
  (forall o, o ∈ l -> o.2 <> PR_ST_SUCCESS) -> finals ((fun xs : loc * Z => (xs.1, xs.2, 0)) <$> l) = l.*1.
Proof.
  intros H. rewrite finals_all.
  - rewrite <- !list_fmap_compose. done.
  - intros o (xs & -> & Hx)%list_elem_of_fmap. cbn. by apply (H xs).
Qed.

Lemma pipe_moved k s : pipe_final s -> moved [] s (spec_pipe k s).
Proof.
  intros Hf. constructor; [| |by intros x e; eauto].
  - unfold account. cbn. rewrite finals_app, pipe_outs.
    2:{ intros o Ho. apply Hf. rewrite <- (take_drop k (a_pipe s)). apply elem_of_app. by left. }
    f_equiv. rewrite <- (take_drop k (a_pipe s)) at 3. rewrite fmap_app, <- app_assoc, !app_assoc.
    rewrite (Permutation_app_comm _ (take k (a_pipe s)).*1). by rewrite app_assoc.
  - eexists. split; [done|]. intros x e Hx _. right. by exists e.
Qed.

Lemma timeout_moved now xs s : NoDup xs -> (forall y, y ∈ xs <-> exists e, a_watch s !! y = Some e /\ due now e) ->
  moved [] s (spec_timeout now xs s).
Proof.
  intros Hd Hxs.
  assert (Ef : (timeout_result (a_watch s) <$> xs).*1.*1 = xs).
  { rewrite <- !list_fmap_compose. rewrite <- (list_fmap_id xs) at 2. apply list_fmap_ext. intros i x Hx.
    unfold compose, timeout_result. by repeat case_match. }
  assert (Ho : finals (timeout_result (a_watch s) <$> xs) = xs).
  { rewrite finals_all; [done|]. intros o (x & -> & Hx)%list_elem_of_fmap. destruct (proj1 (Hxs x)) as (e & He & _); [done|].
    unfold timeout_result. rewrite He. by destruct (0 <=? w_fd e). }
  constructor; cbn.
  - unfold account. cbn. rewrite finals_app, Ho, (app_assoc _ _ xs), (app_assoc _ _ xs).
    rewrite (Permutation_app_comm _ xs), !app_assoc. do 2 f_equiv. cbn.
    apply NoDup_Permutation.
    + apply NoDup_app. split_and!; [done| |apply keys_nodup]. intros x Hx Hk. apply keys_in in Hk as [e He].
      apply map_lookup_filter_Some in He as [He Hn]. apply Hxs in Hx as (e' & He' & Hdue). simplify_eq. done.
    + apply keys_nodup.
    + intros x. rewrite elem_of_app, !keys_in, Hxs. split.
      * intros [(e & He & _)|[e He]]; [eauto|]. apply map_lookup_filter_Some in He as [He _]. eauto.
      * intros [e He]. destruct (decide (due now e)) as [D|D]; [left; eauto|right]. exists e.
        apply map_lookup_filter_Some. by split.
  - eexists. split; [done|]. rewrite Ef. intros x e He Hz. destruct (decide (due now e)) as [D|D].
    + left. apply Hxs. eauto.
    + right. exists e. split; [|done]. apply map_lookup_filter_Some. by split.
  - intros x e' He. apply map_lookup_filter_Some in He as [He _]. eauto.
Qed.

(** A node an event has named is not freed by a call: it goes to the pipe. *)
Lemma retire_serves s x y st : a_stopped s = false -> serves s x ->
  serves (spec_retire y st (spec_watch (delete y (a_watch s)) s)) x.
Proof.
  intros Es Sx. unfold spec_retire. cbn. rewrite Es. destruct (decide (x = y)) as [->|Hxy].
  - right. cbn. rewrite fmap_app. apply elem_of_app. right. by left.
  - destruct Sx as [(e & He & Hz)|Hp]; [left|right].
    + exists e. split; [|done]. cbn. by rewrite lookup_delete_ne.
    + cbn. rewrite fmap_app. apply elem_of_app. by left.
Qed.

Lemma insert_serves s x y e : a_watch s !! y = None -> serves s x -> serves (spec_watch (<[y := e]> (a_watch s)) s) x.
Proof.
  intros Hy [(e' & He & Hz)|Hp]; [left|by right]. exists e'. split; [|done]. cbn. rewrite lookup_insert_ne; [done|].
  intros ->. congruence.
Qed.

Lemma call_serves c s x : a_stopped s = false ->
  (forall y, y ∈ accepted_by c (spec_call c s).1 -> a_watch s !! y = None) ->
  (forall y, c = CDelTimer y -> exists e, a_watch s !! y = Some e /\ w_fd e < 0) ->
  serves s x -> serves (spec_call c s).2 x.
Proof.
  intros Es Hn Ht Sx. destruct c as [d t a|z|d t a|z t now|v ctx a|y]; cbn [spec_call] in *.
  - destruct (spec_new d a s) as [e|[y ev]] eqn:En; [done|]. destruct (find_fd (fd d) (a_watch s)); [done|].
    destruct (ctl a); [done|]. cbn [fst snd accepted_by] in *. destruct (spec_new_inr _ _ _ _ _ En) as [Ex _]. rewrite Ex in *.
    apply insert_serves; [|done]. apply Hn. cbn. by left.
  - destruct (spec_fd z s); [done|]. destruct (find_fd z (a_watch s)); [|done]. by apply retire_serves.
  - destruct (spec_new d a s) as [e|[y ev]] eqn:En; [done|]. destruct (find_fd (fd d) (a_watch s)) as [o|] eqn:Ef; [|done].
    destruct (ctl a); [done|]. cbn [fst snd accepted_by] in *. destruct (spec_new_inr _ _ _ _ _ En) as [Ex _]. rewrite Ex in *.
    apply find_fd_in in Ef as (e & He & Ez). set (e1 := mk_watched _ _ _).
    assert (Hoy : o <> y). { intros ->. rewrite Hn in He; [done|]. cbn. by left. }
    rewrite <- delete_insert_ne by done.
    change (spec_watch (delete o (<[y := e1]> (a_watch s))) s) with
        (spec_watch (delete o (a_watch (spec_watch (<[y := e1]> (a_watch s)) s))) (spec_watch (<[y := e1]> (a_watch s)) s)).
    apply retire_serves; [done|]. apply insert_serves; [|done]. apply Hn. cbn. by left.
  - destruct (spec_fd z s); [done|]. destruct (find_fd z (a_watch s)) as [y|]; [|done].
    destruct Sx as [(e & He & Hz)|Hp]; [left|by right]. cbn. destruct (decide (y = x)) as [->|Hxy].
    + rewrite lookup_alter_eq, He. cbn. by eexists.
    + rewrite lookup_alter_ne by done. by exists e.
  - destruct (malloc_node a) as [y|] eqn:Ex; [|done]. cbn [fst snd accepted_by] in *. rewrite Ex in *.
    apply insert_serves; [|done]. apply Hn. cbn. by left.
  - destruct (Ht y eq_refl) as (e & He & Hz). rewrite He. cbn.
    destruct Sx as [(e' & He' & Hz')|Hp]; [left|by right]. exists e'. split; [|done]. cbn.
    rewrite lookup_delete_ne; [done|]. intros ->. assert (e' = e) by congruence. subst. lia.
Qed.

Lemma call_pipe_final c s : pipe_final s -> pipe_final (spec_call c s).2.
Proof.
  intros Hf. assert (R : forall s' x st, a_pipe s' = a_pipe s -> st <> PR_ST_SUCCESS -> pipe_final (spec_retire x st s')).
  { intros s' x st Ep Hst o. unfold spec_retire, spec_deliver. destruct (a_stopped s'); cbn; rewrite Ep; [apply Hf|].
    intros [Ho| ->%list_elem_of_singleton]%elem_of_app; [by apply Hf|done]. }
  destruct c; cbn [spec_call]; repeat case_match; cbn [snd]; try done; by apply R.
Qed.

(** ** The invariant *)

(** What holds of the memory, whatever the thread is doing. *)
Record core (p : poller) (s : aspec) (acc hs : list loc) : Prop := mk_core {
  co_refines : refines p [] s;
  co_stopped : a_stopped s = false;
  co_pipe : pipe_final s;
  co_account : account s ≡ₚ acc;
  co_handles : forall x, x ∈ hs -> exists e, a_watch s !! x = Some e /\ w_fd e < 0 }.

(** The watched descriptors can take an event, but for the node [ex]. *)
Definition all_ready (p : poller) (s : aspec) (ex : option loc) : Prop :=
  forall x e n, a_watch s !! x = Some e -> 0 <= w_fd e -> ex <> Some x -> node_at x p = Some n -> ready n.

(** The events that are left. *)
Definition batch_ok (p : poller) (s : aspec) (evs : list poll_event) : Prop :=
  NoDup evs /\ forall x, EvNode x ∈ evs -> serves s x /\ forall n, node_at x p = Some n -> ready n.

Definition unready (x : loc) (v : verdict) : option loc := match v with Return => None | Done _ _ => Some x end.

Definition at_pc (k : pc) (p : poller) (s : aspec) : Prop :=
  match k with
  | PBatch evs _ _ => all_ready p s None /\ batch_ok p s evs
  | PConclude x _ v evs _ _ =>
      all_ready p s (unready x v) /\ batch_ok p s evs /\ serves s x /\ (EvNode x ∉ evs) /\
      (forall st err, v = Done st err -> st <> PR_ST_SUCCESS)
  | _ => all_ready p s None
  end.

Definition inv {U} (a : sys U) : Prop :=
  exists s, core (pl a) s (accepted a) (handles a) /\ at_pc (ctr a) (pl a) s.

Lemma given_out p p' s s' d : refines p [] s -> refines p' [] s' -> a_out s' = a_out s ++ d -> given p p' = d.*1.*1.
Proof.
  intros (? & ? & ? & ? & [_ _ _ _ _ Eo]) (? & ? & ? & ? & [_ _ _ _ _ Eo']) Ed. rewrite Eo, Eo' in Ed. unfold given.
  assert (d = drop (length (results p)) (out_of <$> results p')) as ->.
  { rewrite Ed, <- (length_fmap out_of (results p)). by rewrite drop_app_length. }
  rewrite <- fmap_drop, <- !list_fmap_compose. done.
Qed.

Lemma core_move p p' s s' new acc hs : core p s acc hs -> refines p' [] s' -> moved new s s' ->
  a_stopped s' = false -> pipe_final s' -> core p' s' (new ++ acc) (still p p' hs).
Proof.
  intros [R _ _ A Hh] R' [A' (d & Eo & Ht) _] Es Hf. constructor; [done..|by rewrite A', A|].
  intros x [Hx Hin]%list_elem_of_filter. rewrite (given_out _ _ _ _ d R R' Eo) in Hx. destruct (Hh x Hin) as (e & He & Hz).
  destruct (Ht x e He Hz) as [|(e' & He' & Ez)]; [done|]. exists e'. split; [done|lia].
Qed.

Lemma watched_alloc p s x e : refines p [] s -> a_watch s !! x = Some e -> exists n, node_at x p = Some n.
Proof. intros (? & ? & ? & ? & RW) Hx. destruct (watch_node _ _ _ _ _ _ _ _ _ (rf_held _ _ _ _ _ _ _ RW) Hx) as (_ & n & _ & En & _). eauto. Qed.

Lemma serves_alloc p s x : refines p [] s -> serves s x -> exists n, node_at x p = Some n.
Proof. intros (? & ? & ? & ? & RW) Sx. by destruct (serves_node _ _ _ _ _ _ _ _ RW Sx) as (_ & Hn & _). Qed.

Lemma all_ready_move p p' s s' new ex : refines p [] s -> moved new s s' -> keeps_old p p' ->
  (forall x e n, x ∈ new -> a_watch s' !! x = Some e -> 0 <= w_fd e -> node_at x p' = Some n -> ready n) ->
  all_ready p s ex -> all_ready p' s' ex.
Proof.
  intros R [_ _ W] K Hn Ar x e' n' Hx Hz Hex En'. destruct (W x e' Hx) as [Hin|(e & He & Ez)]; [by eapply Hn|].
  destruct (watched_alloc _ _ _ _ R He) as [n En]. eapply ready_stuff; [by eapply K|]. eapply Ar; [done|lia|done|done].
Qed.

Lemma batch_move p p' s s' evs : refines p [] s -> keeps_old p p' -> (forall x, EvNode x ∈ evs -> serves s x -> serves s' x) ->
  batch_ok p s evs -> batch_ok p' s' evs.
Proof.
  intros R K Hs [Hd Hb]. split; [done|]. intros x Hx. destruct (Hb x Hx) as [Sx Rx]. split; [by apply Hs|].
  intros n' En'. destruct (serves_alloc _ _ _ R Sx) as [n En]. eapply ready_stuff; [by eapply K|]. by apply Rx.
Qed.

(** *** The steps of the clients *)

Lemma client_valid c p s acc hs : core p s acc hs -> client_ok c p hs -> valid_call c p (a_watch s).
Proof.
  intros C. destruct c; cbn [client_ok valid_call]; try done. intros Hx. left. by apply (co_handles _ _ _ _ C).
Qed.

Lemma accepted_fresh c p s hs : refines p [] s -> client_ok c p hs ->
  forall r y, y ∈ accepted_by c r -> a_watch s !! y = None.
Proof.
  intros (? & ? & ? & ? & RW) V r y Hy.
  assert (Ha : forall a, answers_ok p a -> y ∈ option_list (malloc_node a) -> a_watch s !! y = None).
  { intros a (_ & Fn & _) Hin. destruct (malloc_node a) as [z|]; cbn in Hin; [|set_solver].
    apply list_elem_of_singleton in Hin as ->. destruct (Fn z eq_refl) as [Hz _].
    eapply fresh_unwatched; [apply RW|done]. }
  destruct c, r; cbn [accepted_by client_ok] in *; try (by apply elem_of_nil in Hy); [destruct V..|destruct V as (V & _)]; by eapply Ha.
Qed.

Lemma handle_watched c s x e : x ∈ handle_of c (spec_call c s).1 -> a_watch (spec_call c s).2 !! x = Some e -> w_fd e < 0.
Proof.
  destruct c as [| | | |v ctx a|]; cbn [handle_of]; try (by intros ?%elem_of_nil). cbn [spec_call].
  destruct (malloc_node a) as [y|] eqn:Ey; cbn [fst snd accepted_by option_list]; [|by intros ?%elem_of_nil].
  rewrite Ey. intros ->%list_elem_of_singleton. cbn. rewrite lookup_insert_eq. by intros [= <-].
Qed.

Lemma call_core c p s acc hs r p' : core p s acc hs -> client_ok c p hs -> run_call c p = Some (r, p') ->
  r = (spec_call c s).1 /\ moved (accepted_by c r) s (spec_call c s).2 /\
  core p' (spec_call c s).2 (accepted_by c r ++ acc) (handle_of c r ++ still p p' hs).
Proof.
  intros C V E. destruct (call_ok p [] s c (co_refines _ _ _ _ C) (client_valid _ _ _ _ _ C V)) as (q & E' & R').
  rewrite E in E'. injection E' as -> <-. split; [done|].
  assert (M : moved (accepted_by c (spec_call c s).1) s (spec_call c s).2).
  { apply call_moved; [apply C|]. eapply accepted_fresh; [apply C|done]. }
  split; [done|]. assert (Es : a_stopped (spec_call c s).2 = a_stopped s).
  { clear. destruct c; cbn [spec_call]; unfold spec_retire; repeat case_match; done. }
  destruct (core_move _ _ _ _ _ _ _ C R' M) as [? ? ? ? Hh]; [by rewrite Es; apply C|by apply call_pipe_final, C|].
  constructor; [done..|]. intros x [Hx|Hx]%elem_of_app; [|by apply Hh].
  assert (is_Some (a_watch (spec_call c s).2 !! x)) as [e He].
  { destruct c as [| | | |v ctx a|]; cbn [handle_of] in Hx; try (by apply elem_of_nil in Hx). cbn [spec_call] in *.
    destruct (malloc_node a) as [y|] eqn:Ey; cbn [fst snd accepted_by option_list] in *; [|by apply elem_of_nil in Hx].
    rewrite Ey in Hx. apply list_elem_of_singleton in Hx as ->. cbn. rewrite lookup_insert_eq. eauto. }
  exists e. split; [done|]. by eapply handle_watched.
Qed.

Lemma at_pc_call k c p s acc hs r p' : core p s acc hs -> client_ok c p hs -> run_call c p = Some (r, p') ->
  at_pc k p s -> at_pc k p' (spec_call c s).2.
Proof.
  intros C V E Hk. destruct (call_core _ _ _ _ _ _ _ C V E) as (Er & M & C'). destruct (run_call_keeps _ _ _ _ _ V E) as [K Kn].
  assert (Hf : forall y, y ∈ accepted_by c (spec_call c s).1 -> a_watch s !! y = None) by (eapply accepted_fresh; [apply C|done]).
  assert (Ar : forall ex, all_ready p s ex -> all_ready p' (spec_call c s).2 ex).
  { intros ex. eapply all_ready_move; [apply C|exact M|exact K|]. intros x e n Hx He Hz En.
    destruct (decide (x ∈ handle_of c r)) as [Hh|Hh]; [|by eapply Kn]. subst r. pose proof (handle_watched _ _ _ _ Hh He). lia. }
  assert (Sv : forall x, serves s x -> serves (spec_call c s).2 x).
  { intros x. apply call_serves; [apply C|done|]. intros y ->. by apply (co_handles _ _ _ _ C). }
  assert (Bt : forall evs, batch_ok p s evs -> batch_ok p' (spec_call c s).2 evs).
  { intros evs. eapply batch_move; [apply C|done|]. intros x _. apply Sv. }
  destruct k; cbn [at_pc] in *; [by apply Ar..| | |by apply Ar|by apply Ar|by apply Ar].
  - destruct Hk. split; [by apply Ar|by apply Bt].
  - destruct Hk as (H1 & H2 & H3 & H4 & H5). split_and!; [by apply Ar|apply (Bt _ H2)..|by apply Sv|done|done].
Qed.

Lemma stop_request_ok p s acc hs k : core p s acc hs -> at_pc k p s ->
  core (pipe_write None p) s acc hs /\ at_pc k (pipe_write None p) s.
Proof.
  intros [R Es Hf A Hh] Hk. split; [|exact Hk]. constructor; try done. destruct R as (g & L & T & N & [H1 H2 H3 H4 H5 H6]).
  assert (Ep : pipe_nodes (pipe_write None p) = pipe_nodes p) by (unfold pipe_nodes; cbn; by rewrite omap_app, app_nil_r).
  exists g, L, T, N. constructor; try done; [|by rewrite Ep]. destruct H1. constructor; rewrite ?Ep; done.
Qed.

(** *** The steps of the thread *)

Lemma core_thread p p' s s' acc hs : core p s acc hs -> refines p' [] s' -> moved [] s s' ->
  a_stopped s' = a_stopped s -> pipe_final s' -> core p' s' acc (still p p' hs).
Proof. intros C R M Es Hf. eapply (core_move p p' s s' []); try done. rewrite Es. apply C. Qed.

Lemma ready_thread p p' s s' ex : refines p [] s -> moved [] s s' -> keeps_old p p' -> all_ready p s ex -> all_ready p' s' ex.
Proof. intros R M K. eapply all_ready_move; [done..|]. by intros ? ? ? ?%elem_of_nil. Qed.

Lemma wait_ok evs p s : refines p [] s -> events_ok evs p -> all_ready p s None -> batch_ok p s evs.
Proof.
  intros (g & L & T & N & RW) (Hd & _ & He & _) Ar. split; [done|]. intros x Hx. destruct (He x Hx) as (z & ev & Hz).
  apply (rg_ep _ _ _ _ (rf_regs _ _ _ _ _ _ _ RW)) in Hz as (Hz & e & Hw & Ez & _).
  split; [left; exists e; split; [done|lia]|]. intros n En. eapply Ar; [done|lia|done|done].
Qed.

Lemma set_timer_step p p' s acc hs : core p s acc hs -> on_tmr __poller_set_timer p = Some p' -> all_ready p s None ->
  core p' s acc (still p p' hs) /\ all_ready p' s None.
Proof.
  intros C E Ar. destruct (set_timer_refines p [] s (co_refines _ _ _ _ C)) as (q & Eq & R & _). rewrite E in Eq. injection Eq as <-.
  destruct (set_timer_keeps _ _ E) as [K _]. split.
  - eapply core_thread; [done..|apply moved_refl|done|apply C].
  - eapply ready_thread; [apply C|apply moved_refl|by apply keeps_old_of|done].
Qed.

Lemma pipe_step k p p' s stop acc hs : core p s acc hs -> __poller_handle_pipe k p = Some (stop, p') -> all_ready p s None ->
  exists s', core p' s' acc (still p p' hs) /\ all_ready p' s' None.
Proof.
  intros C E Ar. destruct (handle_pipe_ok p [] s k (co_refines _ _ _ _ C)) as (q & Eq & R & _). rewrite E in Eq. injection Eq as _ <-.
  eexists. split.
  - eapply core_thread; [done..|apply pipe_moved, C|done|]. intros o Ho. apply (co_pipe _ _ _ _ C). cbn in Ho.
    rewrite <- (take_drop (length (omap id (take k (pipe_buf p)))) (a_pipe s)). apply elem_of_app. by right.
  - eapply ready_thread; [apply C|apply pipe_moved, C|by eapply keeps_old_of, pipe_keeps|done].
Qed.

Lemma timeout_step now p p' s acc hs : core p s acc hs -> __poller_handle_timeout now p = Some p' -> all_ready p s None ->
  exists s', core p' s' acc (still p p' hs) /\ all_ready p' s' None.
Proof.
  intros C E Ar. destruct (handle_timeout_ok now p [] s (co_refines _ _ _ _ C)) as (xs & q & Eq & R & Hd & Hxs).
  rewrite E in Eq. injection Eq as <-. exists (spec_timeout now xs s). split.
  - eapply core_thread; [done..|by apply timeout_moved|done|apply C].
  - eapply ready_thread; [apply C|by apply timeout_moved|by eapply keeps_old_of, timeout_keeps|done].
Qed.

Lemma conclude_serves x y v s : x <> y -> serves s y -> serves (spec_conclude x v s) y.
Proof.
  intros Hxy Sy. destruct v as [|st err]; cbn [spec_conclude]; [done|]. destruct (a_watch s !! x); [|done].
  destruct Sy as [(e & He & Hz)|Hp]; [left|by right]. exists e. split; [|done]. cbn. by rewrite lookup_delete_ne.
Qed.

Lemma conclude_step b x v evs hp now p p' s acc hs : core p s acc hs -> conclude b x v p = Some p' ->
  at_pc (PConclude x b v evs hp now) p s ->
  exists s', core p' s' acc (still p p' hs) /\ at_pc (PBatch evs hp now) p' s'.
Proof.
  intros C E (Ar & Hb & Sx & Hx & Hv). destruct (conclude_ok b x v p [] s (co_refines _ _ _ _ C) Sx) as (q & Eq & R & _).
  rewrite E in Eq. injection Eq as <-. pose proof (conclude_moved x v s Hv) as M. pose proof (conclude_keeps _ _ _ _ _ E) as K.
  exists (spec_conclude x v s). split; [|split].
  - eapply core_thread; [done..| |]; destruct v; cbn; try case_match; cbn; apply C || done.
  - intros y e n Hy Hz _ En. pose proof (ready_thread _ _ _ _ _ (co_refines _ _ _ _ C) M (keeps_old_of _ _ K) Ar) as Ar'.
    eapply Ar'; [done|done| |done]. destruct v as [|st err]; [done|]. cbn. intros [= ->]. cbn in Hy.
    destruct (a_watch s !! y) eqn:Ey; [cbn in Hy; by rewrite lookup_delete_eq in Hy|congruence].
  - eapply batch_move; [apply C|by apply keeps_old_of| |done]. intros y Hy. apply conclude_serves. by intros ->.
Qed.

Section Steps.
Context {U : Type} {UF : functions U}.

Lemma handle_step x n a v hr evs hp now p p' u u' s acc hs : append_progress -> core p s acc hs ->
  at_pc (PBatch (EvNode x :: evs) hp now) p s -> node_at x p = Some n -> answer_ok a (operation (pn_data n)) ->
  handle_event_io a x p u = Some (v, hr, p', u') ->
  exists s', core p' s' acc (still p p' hs) /\ at_pc (PConclude x hr v evs hp now) p' s'.
Proof.
  intros Hp C (Ar & Hd & Hb) En Ha E. destruct (co_refines _ _ _ _ C) as (g & L & T & N & RW).
  destruct (Hb x) as [Sx Rx]; [by left|].
  destruct (handle_event_io_ok g L T N [] s x n p a u Hp RW Sx En (Rx n En) Ha) as (v1 & b1 & p1 & u1 & E1 & I).
  rewrite E in E1. injection E1 as <- <- <- <-. destruct I as [(rs & RW' & Hrs) Ho Hr Hst].
  apply NoDup_cons in Hd as [Hxe Hd].
  assert (Oth : forall y, serves s y -> y <> x -> node_at y p' = node_at y p).
  { intros y Sy Hy. apply Ho; [|done]. by destruct (serves_node _ _ _ _ _ _ _ _ RW Sy). }
  exists (spec_out (out_of <$> rs) s). split; [|split_and!; try done].
  - eapply core_thread; [done|by exists g, L, T, N|by apply out_moved|done|apply C].
  - intros y e m Hy Hz Hex Em. cbn in Hy. destruct (decide (y = x)) as [->|Hyx].
    + destruct v; [|done]. destruct (Hr eq_refl) as (n' & En' & Rn'). by simplify_eq.
    + rewrite (Oth y) in Em; [by eapply Ar|left; by exists e|done].
  - split; [done|]. intros y Hy. destruct (Hb y) as [Sy Ry]; [by right|]. split; [done|].
    intros m Em. apply Ry. rewrite <- Em. symmetry. apply Oth; [done|]. by intros ->.
Qed.

Lemma started_inv max (u : U) : 0 <= max <= 2 ^ 63 -> inv (started max u).
Proof.
  intros Hm. exists (mk_aspec max false ∅ [] []). split; [constructor|]; cbn; try done.
  - destruct (new_poller_ok max Hm) as (g & L & T & N & [Hh R Em Es Ep Eo]).
    exists g, L, T, N. constructor; try done. by eapply held_other.
  - by intros o ?%elem_of_nil.
  - by intros x ?%elem_of_nil.
Qed.

Lemma poller_step_inv a b : append_progress -> step a b -> inv a -> inv b.
Proof.
  intros Hp St (s & C & Hk). unfold inv. destruct St; cbn [pl ctr accepted handles] in *.
  - destruct (call_core _ _ _ _ _ _ _ C H H0) as (_ & _ & C'). eexists. split; [done|]. by eapply at_pc_call.
  - exists s. by apply stop_request_ok.
  - exists s. by apply set_timer_step.
  - exists s. split; [done|]. split; [done|]. apply wait_ok; [apply C|done|done].
  - exists s. destruct Hk as (Ar & Hd & Hb). split; [done|]. split; [done|]. apply NoDup_cons in Hd as [_ Hd]. split; [done|].
    intros x Hx. apply Hb. by right.
  - exists s. destruct Hk as (Ar & Hd & Hb). split; [done|]. split; [done|]. apply NoDup_cons in Hd as [_ Hd]. split; [done|].
    intros x Hx. apply Hb. by right.
  - by eapply handle_step.
  - by eapply conclude_step.
  - exists s. split; [done|]. destruct Hk. by destruct b.
  - destruct (pipe_step _ _ _ _ _ _ _ C H Hk) as (s' & C' & Hk'). exists s'. split; [done|]. by destruct stop.
  - destruct (timeout_step _ _ _ _ _ _ C H Hk) as (s' & C' & Hk'). by exists s'.
Qed.

Lemma reachable_inv max a : append_progress -> 0 <= max <= 2 ^ 63 -> reachable max a -> inv a.
Proof. intros Hp Hm. induction 1; [by apply started_inv|by eapply poller_step_inv]. Qed.

(** ** What the invariant gives *)

(** The next operation of the thread is defined. *)
Definition thread_defined (a : sys U) : Prop :=
  match ctr a with
  | PSetTimer => is_Some (on_tmr __poller_set_timer (pl a))
  | PBatch (EvNode x :: _) _ _ =>
      exists n, node_at x (pl a) = Some n /\
      forall io, answer_ok io (operation (pn_data n)) -> is_Some (handle_event_io io x (pl a) (user a))
  | PWait | PBatch _ _ _ => True
  | PConclude x hr v _ _ _ => is_Some (conclude hr x v (pl a))
  | PPipe _ => is_Some (__poller_handle_pipe (pipe_count (pl a)) (pl a))
  | PTimeout now => is_Some (__poller_handle_timeout now (pl a))
  | PExit => is_Some (poller_stop (pl a))
  end.

(** C9. No run of the poller touches memory it does not own.  In any interleaving of
    the thread with the calls of its clients, whatever the kernel and the functions
    of the user answer, the next operation of the thread and any call a client may
    make are defined and terminate: an event whose node another thread has deleted
    or replaced since [epoll_wait] is still handled on a node that exists. *)
Theorem poller_thread_safe (max : Z) (a : sys U) :
  append_progress -> 0 <= max <= 2 ^ 63 -> reachable max a ->
  thread_defined a /\
  forall c, client_ok c (pl a) (handles a) -> is_Some (run_call c (pl a)).
Proof.
  intros Hp Hm Hr. destruct (reachable_inv max a Hp Hm Hr) as (s & C & Hk). pose proof (co_refines _ _ _ _ C) as R. split.
  - unfold thread_defined. destruct (ctr a) as [| |[|[| |x] evs] hp now|x hr v evs hp now|now|now|]; cbn [at_pc] in Hk; try done.
    + destruct (set_timer_refines _ _ _ R) as (p' & E & _). eauto.
    + destruct Hk as (_ & _ & Hb). destruct (Hb x) as [Sx Rx]; [by left|]. destruct (serves_alloc _ _ _ R Sx) as [n En].
      exists n. split; [done|]. intros io Hio. destruct R as (g & L & T & N & RW).
      destruct (handle_event_io_ok g L T N [] s x n (pl a) io (user a) Hp RW Sx En (Rx n En) Hio) as (? & ? & ? & ? & -> & _). eauto.
    + destruct Hk as (_ & _ & Sx & _). destruct (conclude_ok hr x v _ _ _ R Sx) as (p' & E & _). eauto.
    + destruct (handle_pipe_ok _ _ _ (pipe_count (pl a)) R) as (p' & E & _). eauto.
    + destruct (handle_timeout_ok now _ _ _ R) as (xs & p' & E & _). eauto.
    + destruct (stop_ok _ _ _ R) as (xs & p' & E & _). eauto.
  - intros c V. destruct (call_ok _ _ _ c R (client_valid _ _ _ _ _ C V)) as (p' & E & _). eauto.
Qed.

Lemma stop_account xs s : pipe_final s -> NoDup xs -> (forall y, y ∈ xs <-> is_Some (a_watch s !! y)) ->
  finals (a_out (spec_stop xs s)) ≡ₚ account s.
Proof.
  intros Hf Hd Hxs. unfold account. cbn. rewrite !finals_app, pipe_outs by done.
  rewrite (finals_all ((fun x => (x, PR_ST_STOPPED, 0)) <$> xs)) by (by intros o (x & -> & _)%list_elem_of_fmap).
  rewrite <- !list_fmap_compose. change (_ <$> xs) with (id <$> xs). rewrite list_fmap_id.
  rewrite (NoDup_Permutation xs (keys (a_watch s))) by (done || apply keys_nodup || (intros y; by rewrite keys_in)).
  rewrite (Permutation_app_comm (finals _)), <- app_assoc. rewrite (Permutation_app_comm _ (keys _ ++ _)), <- app_assoc.
  f_equiv. apply Permutation_app_comm.
Qed.

(** C2. Every node is given back exactly once.  At any time no node has been given to
    the callback with a final state more often than it was accepted; and when the
    thread has ended, [poller_stop] gives back the rest: every node that [poller_add],
    [poller_mod] or [poller_add_timer] accepted has been given to the callback with
    a final state (finished, error, deleted, modified or stopped), as often as it
    was accepted. *)
Theorem poller_exactly_once (max : Z) (a : sys U) :
  append_progress -> 0 <= max <= 2 ^ 63 -> reachable max a ->
  finals (out_of <$> results (pl a)) ⊆+ accepted a /\
  (ctr a = PExit -> exists p', poller_stop (pl a) = Some p' /\
     finals (out_of <$> results p') ≡ₚ accepted a).
Proof.
  intros Hp Hm Hr. destruct (reachable_inv max a Hp Hm Hr) as (s & C & _). pose proof (co_refines _ _ _ _ C) as R. split.
  - destruct R as (? & ? & ? & ? & RW). rewrite <- (rf_out _ _ _ _ _ _ _ RW), <- (co_account _ _ _ _ C).
    unfold account. rewrite app_assoc. apply submseteq_inserts_l. done.
  - intros _. destruct (stop_ok _ _ _ R) as (xs & p' & E & (? & ? & ? & ? & RW) & Hd & Hxs). exists p'. split; [done|].
    rewrite <- (rf_out _ _ _ _ _ _ _ RW), <- (co_account _ _ _ _ C). apply stop_account; [apply C|done|done].
Qed.

End Steps.

(** ** An example

    A client adds a reader; its event is reported, and before the thread handles it
    the client deletes the descriptor.  The handler still delivers the message it
    reads, the node goes through the pipe, and the poller is stopped. *)

Definition the {A} (d : A) (o : option A) : A := match o with Some a => a | None => d end.

Definition run0 : poller := with_stopped false (with_pipe [] (new_poller 4)).
Definition run_add : call := CAdd (mk_data PD_OP_READ 0 2 0 0 0) 3000 (demo_answers 12 13 100).
Definition run1 : poller := (the (None, run0) (run_call run_add run0)).2.
Definition run2 : poller := the run1 (on_tmr __poller_set_timer run1).
Definition run3 : poller := (the (None, run2) (run_call (CDel 2) run2)).2.
Definition run_read : io_answer := IoRead [RBytes [72; 10]; RErr EAGAIN].
Definition run4 : poller :=
  (the (Return, true, run3, ()) (handle_event_io (UF := line_functions) run_read 13 run3 ())).1.2.
Definition run_now : timespec := mk_timespec 101 0.
Definition run5 : poller := pipe_write None run4.
Definition run6 : poller := the run5 (__poller_handle_timeout run_now run5).
Definition run7 : poller := the run6 (on_tmr __poller_set_timer run6).
Definition run8 : poller := (the (true, run7) (__poller_handle_pipe (pipe_count run7) run7)).2.

Lemma demo_batch : reachable (UF := line_functions) 4
  (mk_sys run3 (PBatch [EvNode 13] false run_now) () [13%positive] []).
Proof.
  eapply reach_step; [|apply (step_call (CDel 2) None run2 run3 _ _ [13%positive] []); [split; lia|by vm_compute]].
  eapply reach_step; [|apply (step_wait [EvNode 13] run_now)].
  - eapply reach_step; [|apply (step_set_timer run1 run2 () [13%positive] []); by vm_compute].
    eapply reach_step; [apply (reach_start 4 ())|].
    apply (step_call run_add None run0 run1 PSetTimer () [] []); [|by vm_compute].
    cbn [client_ok run_add]. unfold answers_ok. split; [by vm_compute|].
    repeat match goal with
    | |- fresh_at _ _ => intros ? [= <-]; split; [by vm_compute|by apply (bool_decide_unpack (_ ∉ HEADS)); vm_compute]
    | |- _ /\ _ => split
    end; by vm_compute.
  - split; [apply NoDup_singleton|]. split; [unfold POLLER_EVENTS_MAX; cbn; lia|]. split; [|by intros ?%list_elem_of_singleton].
    intros x [= ->]%list_elem_of_singleton. eexists 2, _. vm_compute. reflexivity.
  - by vm_compute.
Qed.

Lemma demo_exit : reachable (UF := line_functions) 4 (mk_sys run8 PExit () [13%positive] []).
Proof.
  eapply reach_step; [|apply (step_handle_pipe run_now true run7 run8 () [13%positive] []); by vm_compute].
  eapply reach_step; [|apply (step_batch_end true)].
  eapply reach_step; [|apply step_pipe].
  eapply reach_step; [|apply (step_wait [EvPipe] run_now)].
  - eapply reach_step; [|apply (step_set_timer run6 run7 () [13%positive] []); by vm_compute].
    eapply reach_step; [|apply (step_timeout run_now run5 run6 () [13%positive] []); by vm_compute].
    eapply reach_step; [|apply (step_batch_end false)].
    eapply reach_step; [|apply step_stop].
    eapply reach_step; [|apply (step_conclude 13 true Return [] false run_now run4 run4 () [13%positive] []); done].
    eapply reach_step; [apply demo_batch|].
    apply (step_handle 13 (the (junk (demo_answers 1 1 0)) (node_at 13 run3)) run_read Return true [] false run_now
      run3 run4 () () [13%positive] []); [by vm_compute| |by vm_compute].
    left. split; [by vm_compute|]. apply Exists_cons_tl, Exists_cons_hd. exact I.
  - split; [apply NoDup_singleton|]. split; [unfold POLLER_EVENTS_MAX; cbn; lia|]. split; [by intros x ?%list_elem_of_singleton|by vm_compute].
  - by vm_compute.
Qed.

Lemma poller_thread_safe_witness :
  (exists n, node_at 13 run3 = Some n /\ removed n = true) /\
  thread_defined (UF := line_functions) (mk_sys run3 (PBatch [EvNode 13] false run_now) () [13%positive] []) /\
  forall c, client_ok c run3 [] -> is_Some (run_call c run3).
Proof.
  split; [eexists; split; [vm_compute; reflexivity|done]|].
  apply (poller_thread_safe (UF := line_functions) 4 _ line_progress ltac:(lia) demo_batch).
Defined.

Lemma poller_exactly_once_witness :
  finals (out_of <$> results run8) ⊆+ [13%positive] /\ length (results run8) = 2%nat /\
  (PExit = PExit -> exists p', poller_stop run8 = Some p' /\
     finals (out_of <$> results p') ≡ₚ [13%positive]).
Proof.
  destruct (poller_exactly_once (UF := line_functions) 4 _ line_progress ltac:(lia) demo_exit) as [H1 H2].
  split; [exact H1|]. split; [by vm_compute|exact H2].
Defined.
