(* ===== verification/MPoller.v ===== *)
(** * The group of pollers: [src/kernel/mpoller.c], [mpoller.h]

    A group is an array of pollers with one array [nodes_buf] of registrations between
    them: a descriptor belongs to the poller with the number [(unsigned int)fd % nthreads], which
    is the only one to use its entry.  The model keeps the array once and gives it to a poller for
    each call, so that what a poller writes is seen by the others; a call of a poller is one step, as its mutex makes
    it.  [mpoller_calls_refine] shows that each of the pollers nevertheless behaves as
    [PollerSpec] says of a poller alone. *)

From S2P Require Import Prelude ListHead RBTree PollerTimer Poller PollerSpec.

Local Open Scope Z_scope.

(** ** Definitions *)

(** [struct __mpoller]; [timer_n] is the static [n] of [mpoller_add_timer]. *)
Record mpoller := mk_mpoller { nodes_buf : list ptr; group : list poller; timer_n : Z }.
Definition nthreads (m : mpoller) : Z := len (group m).

(** A call of the poller with a number, on the array all of them share. *)
Definition on_poller {A} (index : Z) (f : poller -> option (A * poller)) (m : mpoller) : option (A * mpoller) :=
  p ← group m !! Z.to_nat index;
  '(r, p) ← f (with_nodes (nodes_buf m) p);
  Some (r, mk_mpoller (nodes p) (<[Z.to_nat index := p]> (group m)) (timer_n m)).

(** [(unsigned int)fd % mpoller->nthreads] *)
Definition fd_index (fd : Z) (m : mpoller) : Z := u32 fd mod nthreads m.

Definition mpoller_add (d : poller_data) (timeo : Z) (a : answers) (m : mpoller) : option (option Z * mpoller) :=
  on_poller (fd_index (fd d) m) (poller_add d timeo a) m.
Definition mpoller_del (fd : Z) (m : mpoller) : option (option Z * mpoller) :=
  on_poller (fd_index fd m) (poller_del fd) m.
Definition mpoller_mod (d : poller_data) (timeo : Z) (a : answers) (m : mpoller) : option (option Z * mpoller) :=
  on_poller (fd_index (fd d) m) (poller_mod d timeo a) m.
Definition mpoller_set_timeout (fd timeo : Z) (now : timespec) (m : mpoller) : option (option Z * mpoller) :=
  on_poller (fd_index fd m) (poller_set_timeout fd timeo now) m.
(** [*index = n++ % nthreads]; the result comes with [*index]. *)
Definition mpoller_add_timer (value : timespec) (ctx : Z) (a : answers) (m : mpoller) : option (option Z * mpoller) :=
  let index := timer_n m mod nthreads m in
  on_poller index (poller_add_timer value ctx a) (mk_mpoller (nodes_buf m) (group m) (u32 (timer_n m + 1))).
Definition mpoller_del_timer (x : loc) (index : Z) (m : mpoller) : option (option Z * mpoller) :=
  on_poller index (poller_del_timer x) m.

(** *** Creation, start, stop, destruction

    Each poller has resources of its own; [NBuf] and [NGroup] are the array and the group. *)
Inductive shared := NBuf | NGroup.
#[export] Instance shared_eq_dec : EqDecision shared.
Proof. solve_decision. Defined.
Record held_by := mk_heldby { of_group : list shared; of_pollers : list (list resource) }.

Section Create.
Variable (max : Z) (ok : nat -> request -> bool) (ok_buf ok_group : bool).

(** The loop of [__mpoller_create]: pollers number [i] and on, until one fails. *)
Fixpoint create_loop (n i : nat) : option (list poller * list (list resource) * bool) :=
  match n with
  | O => Some ([], [], true)
  | S n =>
      '(o, rs) ← __poller_create max (ok i) [];
      match o with
      | None => Some ([], [rs], false)
      | Some p => '(ps, rss, b) ← create_loop n (S i); Some (p :: ps, rs :: rss, b)
      end
  end.
(** [while (i > 0) __poller_destroy(mpoller->poller[--i])] *)
Fixpoint destroy_loop (rss : list (list resource)) : option (list (list resource)) :=
  match rss with
  | [] => Some []
  | rs :: rss => rss ← destroy_loop rss; rs ← __poller_destroy rs; Some (rs :: rss)
  end.

Definition __mpoller_create (n : nat) : option (option (list ptr * list poller) * list shared * list (list resource)) :=
  if ok_buf then
    '(ps, rss, all) ← create_loop n 0;
    if (all : bool) then Some (Some (repeat None (Z.to_nat max), ps), [NBuf], rss)
    else rss' ← destroy_loop (take (length ps) rss); Some (None, [], rss' ++ drop (length ps) rss)
  else Some (None, [], []).

Definition mpoller_create (nthreads : nat) : option (option mpoller * held_by) :=
  let nthreads := if (nthreads =? 0)%nat then 1%nat else nthreads in
  if ok_group then
    '(o, sh, rss) ← __mpoller_create nthreads;
    match o with
    | Some (buf, ps) => Some (Some (mk_mpoller buf ps 0), mk_heldby (NGroup :: sh) rss)
    | None => Some (None, mk_heldby sh rss)
    end
  else Some (None, mk_heldby [] []).

(** The loop of [mpoller_start]: how many were started, and the group. *)
Fixpoint start_loop (i : nat) (ps : list poller) (rss : list (list resource)) : option (nat * list poller * list (list resource)) :=
  match ps, rss with
  | [], _ => Some (O, [], rss)
  | p :: ps, rs :: rss =>
      '(ret, p, rs) ← poller_start (ok i) p rs;
      if ret <? 0 then Some (O, p :: ps, rs :: rss)
      else '(k, ps, rss) ← start_loop (S i) ps rss; Some (S k, p :: ps, rs :: rss)
  | _ :: _, [] => None
  end.
End Create.

(** [poller_stop] of poller [i], on the shared array, which closes its pipe. *)
Definition stop_one (i : nat) (m : mpoller) (rss : list (list resource)) : option (mpoller * list (list resource)) :=
  '(_, m) ← on_poller (Z.of_nat i) (fun p => p ← poller_stop p; Some (tt, p)) m;
  rs ← rss !! i; rs ← close_pipe rs; Some (m, <[i := rs]> rss).
(** [while (i > 0) poller_stop(mpoller->poller[--i])] *)
Fixpoint stop_down (k : nat) (m : mpoller) (rss : list (list resource)) : option (mpoller * list (list resource)) :=
  match k with O => Some (m, rss) | S k => '(m, rss) ← stop_one k m rss; stop_down k m rss end.
(** [for (i = 0; i < mpoller->nthreads; i++) poller_stop(mpoller->poller[i])] *)
Fixpoint stop_up (n i : nat) (m : mpoller) (rss : list (list resource)) : option (mpoller * list (list resource)) :=
  match n with O => Some (m, rss) | S n => '(m, rss) ← stop_one i m rss; stop_up n (S i) m rss end.

(** The value returned, the group, the resources. *)
Definition mpoller_start (ok : nat -> request -> bool) (m : mpoller) (rss : list (list resource)) : option (Z * mpoller * list (list resource)) :=
  '(k, ps, rss) ← start_loop ok 0 (group m) rss;
  let m' := mk_mpoller (nodes_buf m) ps (timer_n m) in
  if (k =? length (group m))%nat then Some (0, m', rss)
  else '(m', rss) ← stop_down k m' rss; Some (-1, m', rss).
Definition mpoller_stop (m : mpoller) (rss : list (list resource)) : option (mpoller * list (list resource)) :=
  stop_up (length (group m)) 0 m rss.
Definition mpoller_destroy (held : held_by) : option held_by :=
  rss ← destroy_loop (of_pollers held);
  if decide (NBuf ∈ of_group held /\ NGroup ∈ of_group held) then
    Some (mk_heldby (filter (fun x => x <> NBuf /\ x <> NGroup) (of_group held)) rss)
  else None.

(** ** A call only uses the entry of its descriptor *)

Definition lift {A} (l : list ptr) (o : option (A * poller)) : option (A * poller) := prod_map id (with_nodes l) <$> o.

(** A statement that does not look at the array. *)
Definition blind (f : poller -> option poller) : Prop := forall l p, f (with_nodes l p) = with_nodes l <$> f p.

Lemma with_nodes_twice l l' p : with_nodes l (with_nodes l' p) = with_nodes l p.
Proof. done. Qed.
Lemma with_own_nodes p : with_nodes (nodes p) p = p.
Proof. by destruct p. Qed.

Lemma blind_bind f g : blind f -> blind g -> blind (fun p => q ← f p; g q).
Proof. intros Hf Hg l p. cbn beta. rewrite Hf. destruct (f p) as [q|]; [|done]. cbn [mbind option_bind fmap option_map option_fmap]. apply Hg. Qed.
Lemma blind_on_tmr f : blind (on_tmr f).
Proof. intros l p. unfold on_tmr. change (tmr (with_nodes l p)) with (tmr p). by destruct (f (tmr p)). Qed.
Lemma blind_free_node x : blind (free_node x).
Proof. intros l p. unfold free_node. destruct x as [x|]; [|done]. change (node_at x (with_nodes l p)) with (node_at x p). by destruct (node_at x p). Qed.
Lemma blind_call_back x : blind (call_back x).
Proof. intros l p. unfold call_back. change (node_at x (with_nodes l p)) with (node_at x p). by destruct (node_at x p). Qed.
Lemma blind_set_result x st err : blind (set_result x st err).
Proof. apply blind_on_tmr. Qed.
Lemma blind_retire x st : blind (retire x st).
Proof.
  apply blind_bind; [apply blind_set_result|]. intros l p. change (stopped (with_nodes l p)) with (stopped p).
  destruct (stopped p); [done|]. rewrite blind_on_tmr. by destruct (on_tmr (upd_node x set_removed) p).
Qed.
Lemma blind_deliver_if b x : blind (deliver_if b x).
Proof.
  intros l p. unfold deliver_if. destruct b; [|done]. change (node_at x (with_nodes l p)) with (node_at x p).
  destruct (node_at x p) as [n|]; [|done]. cbn [mbind option_bind]. apply blind_bind; [apply blind_free_node|apply blind_call_back].
Qed.

(** The same for a call, which has a result. *)
Definition blind_call (f : poller -> option (option Z * poller)) : Prop := forall l p, f (with_nodes l p) = lift l (f p).
Lemma blind_call_bind f g : blind f -> blind_call g -> blind_call (fun p => q ← f p; g q).
Proof. intros Hf Hg l p. cbn beta. rewrite Hf. destruct (f p) as [q|]; [|done]. cbn [mbind option_bind fmap option_map option_fmap]. apply Hg. Qed.
Lemma blind_call_ret r : blind_call (fun p => Some (r, p)).
Proof. done. Qed.
Lemma blind_discard x e : blind_call (discard x e).
Proof.
  intros l p. unfold discard. change (node_at x (with_nodes l p)) with (node_at x p). destruct (node_at x p) as [n|]; [|done].
  cbn [mbind option_bind]. apply (blind_call_bind (free_node (res n))); [apply blind_free_node|].
  apply blind_call_bind; [apply blind_free_node|apply blind_call_ret].
Qed.
Lemma blind_add_timer v ctx a : blind_call (poller_add_timer v ctx a).
Proof.
  intros l p. unfold poller_add_timer. destruct (malloc_node a) as [x|]; [|done].
  change (set_pnode x ?n (with_nodes l p)) with (with_nodes l (set_pnode x n p)).
  apply (blind_call_bind (on_tmr _)); [apply blind_on_tmr|apply blind_call_ret].
Qed.
Lemma blind_del_timer x : blind_call (poller_del_timer x).
Proof.
  intros l p. unfold poller_del_timer. change (node_at x (with_nodes l p)) with (node_at x p). destruct (node_at x p) as [n|]; [|done].
  cbn [mbind option_bind]. destruct (removed n); [done|]. apply (blind_call_bind (on_tmr _)); [apply blind_on_tmr|].
  apply (blind_call_bind (on_tmr _)); [apply blind_on_tmr|]. apply (blind_call_bind (set_result _ _ _)); [apply blind_set_result|].
  apply (blind_call_bind (call_back x)); [apply blind_call_back|apply blind_call_ret].
Qed.

(** A call that looks at the entry of [z] only, and may set it. *)
Definition local_call (z : Z) (f : poller -> option (option Z * poller)) : Prop := forall p,
  exists (u : list ptr -> list ptr) o, (u = id \/ 0 <= z /\ exists v, u = insert (Z.to_nat z) v) /\
    forall l, length l = length (nodes p) -> (0 <= z -> l !! Z.to_nat z = nodes p !! Z.to_nat z) ->
      f (with_nodes l p) = lift (u l) o.

Lemma blind_local z f : blind_call f -> local_call z f.
Proof. intros H p. exists id, (f p). split; [by left|]. intros l _ _. apply H. Qed.

Lemma get_slot_entry z l p : (0 <= z -> l !! Z.to_nat z = nodes p !! Z.to_nat z) -> get_slot z (with_nodes l p) = get_slot z p.
Proof. intros H. unfold get_slot. change (nodes (with_nodes l p)) with l. destruct (Z.leb_spec 0 z); [by rewrite H|done]. Qed.
Lemma set_slot_entry z v l p c : get_slot z p = Some c -> (0 <= z -> l !! Z.to_nat z = nodes p !! Z.to_nat z) ->
  0 <= z /\ forall q, set_slot z v (with_nodes l q) = Some (with_nodes (<[Z.to_nat z := v]> l) q).
Proof.
  intros Hc Hl. unfold set_slot, get_slot in *. destruct (Z.leb_spec 0 z) as [Hz|]; [|done]. split; [done|].
  intros q. change (nodes (with_nodes l q)) with l. rewrite Hl, Hc by done. done.
Qed.

Lemma local_del z : local_call z (poller_del z).
Proof.
  intros p. unfold poller_del. destruct (bad_fd z p) as [e|] eqn:Eb.
  { exists id, (Some (Some e, p)). split; [by left|]. intros l _ _. change (bad_fd z (with_nodes l p)) with (bad_fd z p). by rewrite Eb. }
  destruct (get_slot z p) as [[x|]|] eqn:Es.
  - set (F := fun p => q ← on_tmr (detach x) p; (fun q => p ← retire x PR_ST_DELETED (__poller_del_fd z q); (fun p => p ← deliver_if (stopped p) x p; Some (@None Z, p)) p) q).
    assert (HF : blind_call F).
    { apply blind_call_bind; [apply blind_on_tmr|]. intros l q. change (__poller_del_fd z (with_nodes l q)) with (with_nodes l (__poller_del_fd z q)).
      apply (blind_call_bind (retire x PR_ST_DELETED)); [apply blind_retire|]. clear. intros l p. change (stopped (with_nodes l p)) with (stopped p).
      apply (blind_call_bind (deliver_if (stopped p) x)); [apply blind_deliver_if|apply blind_call_ret]. }
    exists (insert (Z.to_nat z) None), (F p). split.
    + right. split; [|by exists None]. unfold get_slot in Es. by destruct (Z.leb_spec 0 z).
    + intros l _ Hl. change (bad_fd z (with_nodes l p)) with (bad_fd z p). rewrite Eb, (get_slot_entry _ _ _ Hl), Es. cbn [mbind option_bind].
      destruct (set_slot_entry z None l p _ Es Hl) as [_ H]. rewrite H. cbn [mbind option_bind]. apply (HF _ p).
  - exists id, (Some (Some ENOENT, p)). split; [by left|]. intros l _ Hl. change (bad_fd z (with_nodes l p)) with (bad_fd z p).
    by rewrite Eb, (get_slot_entry _ _ _ Hl), Es.
  - exists id, None. split; [by left|]. intros l _ Hl. change (bad_fd z (with_nodes l p)) with (bad_fd z p).
    by rewrite Eb, (get_slot_entry _ _ _ Hl), Es.
Qed.

Lemma new_node_blind d t a l p : __poller_new_node d t a (with_nodes l p) = prod_map id (with_nodes l) (__poller_new_node d t a p).
Proof.
  unfold __poller_new_node. change (bad_fd (fd d) (with_nodes l p)) with (bad_fd (fd d) p). destruct (bad_fd (fd d) p); [done|].
  destruct (__poller_data_get_event d) as [[ev need]|]; [|done]. destruct (need && bool_decide (malloc_res a = None)); [done|].
  destruct (if need then malloc_res a else None); by destruct (malloc_node a).
Qed.
Lemma new_node_nodes d t a p r q : __poller_new_node d t a p = (r, q) -> nodes q = nodes p.
Proof.
  intros E. pose proof (new_node_blind d t a (nodes p) p) as H. rewrite with_own_nodes, E in H. by injection H as ->.
Qed.

(** [poller_add] and [poller_mod]: what is done with the new node, [F], sets the entry when it gets that far. *)
Lemma local_new (z : Z) d t a (F : loc -> poller -> option (option Z * poller)) :
  (forall x, local_call z (F x)) ->
  local_call z (fun p => match __poller_new_node d t a p with (inl e, p) => Some (Some e, p) | (inr x, p) => F x p end).
Proof.
  intros HF p. destruct (__poller_new_node d t a p) as [[e|x] q] eqn:E; pose proof (new_node_nodes _ _ _ _ _ _ E) as En.
  - exists id, (Some (Some e, q)). split; [by left|]. intros l _ _. by rewrite new_node_blind, E.
  - destruct (HF x q) as (u & o & Hu & H). exists u, o. split; [done|]. intros l Hl Hz. rewrite new_node_blind, E. cbn.
    apply H; by rewrite En.
Qed.

(** An entry that is there may be set behind blind statements. *)
Lemma local_after z (f : poller -> option poller) v (g : poller -> option (option Z * poller)) p :
  blind f -> blind_call g -> is_Some (get_slot z p) ->
  exists (u : list ptr -> list ptr) o, (u = id \/ 0 <= z /\ exists v, u = insert (Z.to_nat z) v) /\
    forall l, length l = length (nodes p) -> (0 <= z -> l !! Z.to_nat z = nodes p !! Z.to_nat z) ->
      (q ← f (with_nodes l p); q ← set_slot z v q; g q) = lift (u l) o.
Proof.
  intros Hf Hg [c Hc]. exists (insert (Z.to_nat z) v), (q ← f p; g q).
  destruct (set_slot_entry z v (nodes p) p c Hc ltac:(done)) as [Hz _]. split; [right; eauto|].
  intros l _ Hl. destruct (set_slot_entry z v l p c Hc Hl) as [_ H]. rewrite Hf.
  destruct (f p) as [q|]; [|done]. cbn [mbind option_bind fmap option_map option_fmap]. rewrite H. cbn [mbind option_bind]. apply Hg.
Qed.

Lemma local_add d t a : local_call (fd d) (poller_add d t a).
Proof.
  apply (local_new (fd d) d t a (fun x p => cur ← get_slot (fd d) p; _)). intros x p.
  destruct (get_slot (fd d) p) as [cur|] eqn:Es.
  2: { exists id, None. split; [by left|]. intros l _ Hl. by rewrite (get_slot_entry _ _ _ Hl), Es. }
  destruct cur as [y|].
  { exists id, (discard x EEXIST p). split; [by left|]. intros l _ Hl. rewrite (get_slot_entry _ _ _ Hl), Es. apply blind_discard. }
  destruct (ctl a) as [e|].
  { exists id, (discard x e p). split; [by left|]. intros l _ Hl. rewrite (get_slot_entry _ _ _ Hl), Es. apply blind_discard. }
  destruct (node_at x p) as [n|] eqn:En.
  2: { exists id, None. split; [by left|]. intros l _ Hl. rewrite (get_slot_entry _ _ _ Hl), Es. cbn [mbind option_bind].
       change (node_at x (with_nodes l p)) with (node_at x p). by rewrite En. }
  destruct (local_after (fd d) (fun p => on_tmr (insert_timeout t x) (__poller_add_fd (fd d) (pn_event n) x p)) (Some x) (fun p => Some (None, p)) p)
    as (u & o & Hu & H).
  { intros l q. apply (blind_on_tmr _ l (__poller_add_fd (fd d) (pn_event n) x q)). }
  { apply blind_call_ret. }
  { by eexists. }
  exists u, o. split; [done|]. intros l Hl Hz. rewrite (get_slot_entry _ _ _ Hz), Es. cbn [mbind option_bind].
  change (node_at x (with_nodes l p)) with (node_at x p). rewrite En. cbn [mbind option_bind]. by apply H.
Qed.

Lemma local_mod d t a : local_call (fd d) (poller_mod d t a).
Proof.
  apply (local_new (fd d) d t a (fun x p => cur ← get_slot (fd d) p; _)). intros x p.
  destruct (get_slot (fd d) p) as [[orig|]|] eqn:Es.
  2: { exists id, (discard x ENOENT p). split; [by left|]. intros l _ Hl. rewrite (get_slot_entry _ _ _ Hl), Es. apply blind_discard. }
  2: { exists id, None. split; [by left|]. intros l _ Hl. by rewrite (get_slot_entry _ _ _ Hl), Es. }
  destruct (ctl a) as [e|].
  { exists id, (discard x e p). split; [by left|]. intros l _ Hl. rewrite (get_slot_entry _ _ _ Hl), Es. apply blind_discard. }
  destruct (node_at x p) as [n|] eqn:En.
  2: { exists id, None. split; [by left|]. intros l _ Hl. rewrite (get_slot_entry _ _ _ Hl), Es. cbn [mbind option_bind].
       change (node_at x (with_nodes l p)) with (node_at x p). by rewrite En. }
  set (f := fun p => q ← on_tmr (detach orig) (__poller_mod_fd (fd d) (pn_event n) x p); (fun q => q ← retire orig PR_ST_MODIFIED q; on_tmr (insert_timeout t x) q) q).
  set (g := fun p => q ← deliver_if (stopped p) orig p; Some (@None Z, q)).
  destruct (local_after (fd d) f (Some x) g p) as (u & o & Hu & H).
  { apply (blind_bind (fun p => on_tmr (detach orig) (__poller_mod_fd (fd d) (pn_event n) x p))).
    - intros l q. apply (blind_on_tmr _ l (__poller_mod_fd (fd d) (pn_event n) x q)).
    - apply blind_bind; [apply blind_retire|apply blind_on_tmr]. }
  { intros l q. unfold g. change (stopped (with_nodes l q)) with (stopped q).
    apply (blind_call_bind (deliver_if (stopped q) orig)); [apply blind_deliver_if|apply blind_call_ret]. }
  { by eexists. }
  exists u, o. split; [done|]. intros l Hl Hz. rewrite (get_slot_entry _ _ _ Hz), Es. cbn [mbind option_bind].
  change (node_at x (with_nodes l p)) with (node_at x p). rewrite En. cbn [mbind option_bind]. rewrite <- (H l Hl Hz). unfold f, g.
  change (__poller_mod_fd (fd d) (pn_event n) x (with_nodes l p)) with (with_nodes l (__poller_mod_fd (fd d) (pn_event n) x p)).
  destruct (on_tmr (detach orig) _) as [q|]; [|done]. cbn [mbind option_bind]. destruct (retire orig PR_ST_MODIFIED q) as [q1|]; [|done].
  cbn [mbind option_bind]. by destruct (on_tmr (insert_timeout t x) q1).
Qed.

Lemma local_set_timeout z t now : local_call z (poller_set_timeout z t now).
Proof.
  intros p. unfold poller_set_timeout. destruct (bad_fd z p) as [e|] eqn:Eb.
  { exists id, (Some (Some e, p)). split; [by left|]. intros l _ _. change (bad_fd z (with_nodes l p)) with (bad_fd z p). by rewrite Eb. }
  destruct (get_slot z p) as [[x|]|] eqn:Es.
  2: { exists id, (Some (Some ENOENT, p)). split; [by left|]. intros l _ Hl. change (bad_fd z (with_nodes l p)) with (bad_fd z p).
       by rewrite Eb, (get_slot_entry _ _ _ Hl), Es. }
  2: { exists id, None. split; [by left|]. intros l _ Hl. change (bad_fd z (with_nodes l p)) with (bad_fd z p).
       by rewrite Eb, (get_slot_entry _ _ _ Hl), Es. }
  set (F := fun p => q ← on_tmr (detach x) p; (fun q => q ← (if 0 <=? t then on_tmr (upd_node x (set_timeout (__poller_node_set_timeout now t))) q else Some q);
    (fun q => q ← on_tmr (insert_timeout t x) q; Some (@None Z, q)) q) q).
  assert (HF : blind_call F).
  { apply blind_call_bind; [apply blind_on_tmr|]. apply (blind_call_bind (fun q => if 0 <=? t then on_tmr _ q else Some q)).
    - destruct (0 <=? t); [apply blind_on_tmr|done].
    - apply blind_call_bind; [apply blind_on_tmr|apply blind_call_ret]. }
  exists id, (F p). split; [by left|]. intros l _ Hl. change (bad_fd z (with_nodes l p)) with (bad_fd z p).
  rewrite Eb, (get_slot_entry _ _ _ Hl), Es. cbn [mbind option_bind]. apply (HF _ p).
Qed.

(** ** The group *)

(** The entries of the array that belong to poller [i] of [n]. *)
Definition mask (n i : Z) (l : list ptr) : list ptr :=
  imap (fun k v => if decide (Z.of_nat k mod n = i) then v else None) l.

Lemma mask_lookup n i l k : mask n i l !! k = (fun v => if decide (Z.of_nat k mod n = i) then v else None) <$> l !! k.
Proof. unfold mask. apply list_lookup_imap. Qed.
Lemma mask_length n i l : length (mask n i l) = length l.
Proof. apply length_imap. Qed.
Lemma mask_own n i l z : 0 <= z -> z mod n = i -> mask n i l !! Z.to_nat z = l !! Z.to_nat z.
Proof.
  intros Hz Hi. rewrite mask_lookup. destruct (l !! Z.to_nat z) as [v|]; [|done].
  cbn [fmap option_fmap option_map]. by rewrite Z2Nat.id, decide_True.
Qed.
Lemma mask_insert n i l z v : 0 <= z -> mask n i (<[Z.to_nat z := v]> l) = if decide (z mod n = i) then <[Z.to_nat z := v]> (mask n i l) else mask n i l.
Proof.
  intros Hz. apply list_eq. intros k. rewrite mask_lookup. destruct (decide (z mod n = i)) as [E|E].
  - destruct (decide (Z.to_nat z = k /\ (Z.to_nat z < length l)%nat)) as [[<- Hk]|Hk].
    + rewrite !list_lookup_insert_eq by (by rewrite ?mask_length). cbn [fmap option_fmap option_map]. by rewrite Z2Nat.id, decide_True.
    + rewrite !list_lookup_insert, mask_length, !decide_False by done. by rewrite mask_lookup.
  - destruct (decide (Z.to_nat z = k /\ (Z.to_nat z < length l)%nat)) as [[<- Hk]|Hk].
    + rewrite list_lookup_insert_eq, mask_lookup by done. apply lookup_lt_is_Some in Hk as [w ->].
      cbn [fmap option_fmap option_map]. by rewrite Z2Nat.id, !decide_False.
    + by rewrite list_lookup_insert, decide_False, mask_lookup by done.
Qed.

(** A call of the group. *)
Inductive mcall :=
  | MAdd (d : poller_data) (t : Z) (a : answers)
  | MDel (z : Z)
  | MMod (d : poller_data) (t : Z) (a : answers)
  | MSetTimeout (z t : Z) (now : timespec)
  | MAddTimer (value : timespec) (ctx : Z) (a : answers)
  | MDelTimer (x : loc) (index : Z).
Definition run_mcall (c : mcall) : mpoller -> option (option Z * mpoller) :=
  match c with
  | MAdd d t a => mpoller_add d t a
  | MDel z => mpoller_del z
  | MMod d t a => mpoller_mod d t a
  | MSetTimeout z t now => mpoller_set_timeout z t now
  | MAddTimer v ctx a => mpoller_add_timer v ctx a
  | MDelTimer x index => mpoller_del_timer x index
  end.

(** The poller a call goes to, and the call it gets. *)
Definition goes_to (n tn : Z) (c : mcall) : Z * call :=
  match c with
  | MAdd d t a => (u32 (fd d) mod n, CAdd d t a)
  | MDel z => (u32 z mod n, CDel z)
  | MMod d t a => (u32 (fd d) mod n, CMod d t a)
  | MSetTimeout z t now => (u32 z mod n, CSetTimeout z t now)
  | MAddTimer v ctx a => (tn mod n, CAddTimer v ctx a)
  | MDelTimer x index => (index, CDelTimer x)
  end.
Definition timers_after (c : mcall) (tn : Z) : Z := match c with MAddTimer _ _ _ => u32 (tn + 1) | _ => tn end.

Lemma run_mcall_eq c m : run_mcall c m =
  on_poller (goes_to (nthreads m) (timer_n m) c).1 (run_call (goes_to (nthreads m) (timer_n m) c).2)
    (mk_mpoller (nodes_buf m) (group m) (timers_after c (timer_n m))).
Proof. by destruct m, c. Qed.

(** The specification: independent pollers, each with its own map. *)
Definition spec_on (index : Z) (c : call) (ss : list aspec) : option Z * list aspec :=
  match ss !! Z.to_nat index with
  | Some s => let '(r, s) := spec_call c s in (r, <[Z.to_nat index := s]> ss)
  | None => (None, ss)
  end.

(** Each poller, with its entries of the array, implements its specification; [H i]: nodes of poller [i] in the hands of its thread. *)
Definition view (m : mpoller) (i : nat) (p : poller) : poller := with_nodes (mask (nthreads m) (Z.of_nat i) (nodes_buf m)) p.
Record mrefines (m : mpoller) (H : nat -> list loc) (ss : list aspec) : Prop := mk_mrefines {
  mr_length : length ss = length (group m);
  mr_some : 0 < nthreads m;
  mr_timer : 0 <= timer_n m;
  mr_each : forall i p s, group m !! i = Some p -> ss !! i = Some s -> refines (view m i p) (H i) s }.

(** The descriptor whose entry a call uses; a timer has none. *)
Definition entry_of (c : call) : Z :=
  match c with CAdd d _ _ | CMod d _ _ => fd d | CDel z | CSetTimeout z _ _ => z | CAddTimer _ _ _ | CDelTimer _ => -1 end.
Lemma run_call_local c : local_call (entry_of c) (run_call c).
Proof.
  destruct c; cbn [entry_of run_call];
    [apply local_add|apply local_del|apply local_mod|apply local_set_timeout|apply blind_local, blind_add_timer|apply blind_local, blind_del_timer].
Qed.
Lemma entry_int c p w : valid_call c p w -> is_int (entry_of c).
Proof. destruct c; cbn [valid_call entry_of]; try tauto; intros _; unfold is_int; lia. Qed.

(** One call on one poller of the group. *)
Lemma on_poller_ok m H ss index c p s :
  mrefines m H ss -> 0 <= index < nthreads m -> (0 <= entry_of c -> entry_of c mod nthreads m = index) ->
  group m !! Z.to_nat index = Some p -> ss !! Z.to_nat index = Some s -> valid_call c p (a_watch s) ->
  exists m', on_poller index (run_call c) m = Some ((spec_on index c ss).1, m') /\ mrefines m' H (spec_on index c ss).2 /\
    nthreads m' = nthreads m /\ timer_n m' = timer_n m.
Proof.
  intros [Hl Hn Ht He] Hi Hz Hp Hs Hv. set (i := Z.to_nat index) in *. set (n := nthreads m) in *. set (A := nodes_buf m) in *.
  assert (Ei : Z.of_nat i = index) by lia.
  set (p0 := view m i p). pose proof (He i p s Hp Hs) as R. fold p0 in R.
  assert (Hv0 : valid_call c p0 (a_watch s)) by (by destruct c).
  destruct (call_ok p0 (H i) s c R Hv0) as (q & E & Rq).
  destruct (run_call_local c p0) as (u & o & Hu & Hloc).
  assert (Hm : nodes p0 = mask n index A) by (unfold p0, view; cbn; by rewrite Ei).
  pose proof (Hloc (nodes p0) eq_refl ltac:(done)) as E0. rewrite with_own_nodes, E in E0.
  destruct o as [[r q0]|]; [|done]. cbn in E0. injection E0 as Er Eq.
  assert (EA : run_call c (with_nodes A p) = Some ((spec_call c s).1, with_nodes (u A) q0)).
  { change (with_nodes A p) with (with_nodes A p0). rewrite (Hloc A); [cbn; by rewrite Er| |].
    - by rewrite Hm, mask_length.
    - intros Hz0. rewrite Hm. symmetry. apply mask_own; [done|]. by apply Hz. }
  assert (Hmask : forall j, mask n j (u A) = if decide (j = index) then u (mask n j A) else mask n j A).
  { intros j. destruct Hu as [-> | (Hz0 & v & ->)]; [by destruct (decide (j = index))|].
    rewrite (mask_insert n j A _ v Hz0), (Hz Hz0). destruct (decide (index = j)) as [<-|Hne]; [by rewrite decide_True|by rewrite decide_False]. }
  unfold on_poller. fold i A. rewrite Hp. cbn [mbind option_bind]. rewrite EA. cbn [mbind option_bind].
  unfold spec_on. fold i. rewrite Hs. destruct (spec_call c s) as [r' s'] eqn:Ec. cbn [fst snd] in *.
  eexists. split; [done|]. split; [|split; [unfold nthreads; cbn [group]; by rewrite length_insert|done]].
  constructor; cbn [group nodes_buf timer_n]; [by rewrite !length_insert|unfold nthreads; cbn [group]; by rewrite length_insert|done|].
  intros j pj sj Hpj Hsj. unfold view, nthreads. cbn [group nodes_buf]. rewrite length_insert. fold (nthreads m). fold n.
  change (nodes (with_nodes (u A) q0)) with (u A). rewrite Hmask.
  destruct (decide (j = i)) as [->|Hj].
  - rewrite list_lookup_insert_eq in Hpj by (by eapply lookup_lt_Some). rewrite list_lookup_insert_eq in Hsj by (by eapply lookup_lt_Some). injection Hpj as <-. injection Hsj as <-.
    rewrite decide_True by lia. rewrite with_nodes_twice. rewrite Eq in Rq. exact Rq.
  - rewrite list_lookup_insert_ne in Hpj by done. rewrite list_lookup_insert_ne in Hsj by done. rewrite decide_False by lia. exact (He j pj sj Hpj Hsj).
Qed.

(** One call of the group: validity is that of the call its poller gets. *)
Definition valid_mcall (c : mcall) (m : mpoller) (ss : list aspec) : Prop :=
  let '(i, c') := goes_to (nthreads m) (timer_n m) c in
  0 <= i < nthreads m /\
  forall p s, group m !! Z.to_nat i = Some p -> ss !! Z.to_nat i = Some s -> valid_call c' p (a_watch s).

Lemma goes_to_entry n tn c : 0 < n -> is_int (entry_of (goes_to n tn c).2) ->
  0 <= entry_of (goes_to n tn c).2 -> entry_of (goes_to n tn c).2 mod n = (goes_to n tn c).1.
Proof.
  intros Hn Hi Hz. unfold is_int in Hi. destruct c; cbn [goes_to entry_of fst snd] in *; try lia; by rewrite wrap_small by lia.
Qed.

Lemma mcall_ok m H ss c : mrefines m H ss -> valid_mcall c m ss ->
  let '(i, c') := goes_to (nthreads m) (timer_n m) c in
  exists m', run_mcall c m = Some ((spec_on i c' ss).1, m') /\ mrefines m' H (spec_on i c' ss).2 /\
    nthreads m' = nthreads m /\ timer_n m' = timers_after c (timer_n m).
Proof.
  intros R V. rewrite run_mcall_eq. unfold valid_mcall in V. pose proof (goes_to_entry (nthreads m) (timer_n m) c (mr_some _ _ _ R)) as Hg.
  destruct (goes_to (nthreads m) (timer_n m) c) as [i c']. cbn [fst snd] in *. destruct V as [Hi V].
  set (m0 := mk_mpoller (nodes_buf m) (group m) (timers_after c (timer_n m))).
  assert (R0 : mrefines m0 H ss).
  { destruct R as [R1 R2 R3 R4]. constructor; [exact R1|exact R2| |exact R4]. cbn. destruct c; cbn; try done. apply wrap_range; lia. }
  destruct (lookup_lt_is_Some_2 (group m) (Z.to_nat i)) as [p Hp]; [unfold nthreads in Hi; lia|].
  destruct (lookup_lt_is_Some_2 ss (Z.to_nat i)) as [s Hs]; [rewrite (mr_length _ _ _ R); unfold nthreads in Hi; lia|].
  specialize (V p s Hp Hs).
  destruct (on_poller_ok m0 H ss i c' p s R0 Hi) as (m' & E & R' & En & Et); [|done|done|done|by exists m'].
  apply Hg. by eapply entry_int.
Qed.

(** A sequence of calls. *)
Fixpoint run_mcalls (cs : list mcall) (m : mpoller) : option (list (option Z) * mpoller) :=
  match cs with
  | [] => Some ([], m)
  | c :: cs => '(r, m) ← run_mcall c m; '(rs, m) ← run_mcalls cs m; Some (r :: rs, m)
  end.
Fixpoint spec_mcalls (n tn : Z) (cs : list mcall) (ss : list aspec) : list (option Z) * list aspec :=
  match cs with
  | [] => ([], ss)
  | c :: cs =>
      let '(r, ss) := spec_on (goes_to n tn c).1 (goes_to n tn c).2 ss in
      let '(rs, ss) := spec_mcalls n (timers_after c tn) cs ss in (r :: rs, ss)
  end.
Fixpoint valid_mcalls (cs : list mcall) (m : mpoller) (ss : list aspec) : Prop :=
  match cs with
  | [] => True
  | c :: cs =>
      valid_mcall c m ss /\
      valid_mcalls cs (match run_mcall c m with Some (_, m) => m | None => m end)
        (spec_on (goes_to (nthreads m) (timer_n m) c).1 (goes_to (nthreads m) (timer_n m) c).2 ss).2
  end.

(** C16. The pollers of a group do not disturb each other, although they share the array
    of registrations.  Any sequence of [mpoller_add], [mpoller_del], [mpoller_mod],
    [mpoller_set_timeout], [mpoller_add_timer] and [mpoller_del_timer], with any answers of the
    system, runs without touching memory it does not own and gives the results of
    pollers that are alone, each with the map of its own descriptors, where the descriptor [fd] goes to
    the poller [fd % nthreads] and timers go round; and a descriptor is
    watched by no other poller than this one. *)
Theorem mpoller_calls_refine cs m H ss :
  mrefines m H ss -> valid_mcalls cs m ss ->
  exists m', run_mcalls cs m = Some ((spec_mcalls (nthreads m) (timer_n m) cs ss).1, m') /\
    mrefines m' H (spec_mcalls (nthreads m) (timer_n m) cs ss).2 /\
    forall i s x e, (spec_mcalls (nthreads m) (timer_n m) cs ss).2 !! i = Some s -> a_watch s !! x = Some e -> 0 <= w_fd e ->
      w_fd e mod nthreads m = Z.of_nat i.
Proof.
  intros R V.
  assert (Hrun : exists m', run_mcalls cs m = Some ((spec_mcalls (nthreads m) (timer_n m) cs ss).1, m') /\
    mrefines m' H (spec_mcalls (nthreads m) (timer_n m) cs ss).2 /\ nthreads m' = nthreads m).
  { revert m ss R V. induction cs as [|c cs IH]; intros m ss R V; [by exists m|]. destruct V as [V Vs].
    pose proof (mcall_ok m H ss c R V) as Hc. cbn [run_mcalls spec_mcalls].
    destruct (goes_to (nthreads m) (timer_n m) c) as [i c']. cbn [fst snd] in *. destruct Hc as (m1 & E & R1 & En & Et).
    rewrite E in Vs |- *. cbn [mbind option_bind]. destruct (spec_on i c' ss) as [r ss1]. cbn [fst snd] in *.
    destruct (IH m1 ss1 R1 Vs) as (m2 & E2 & R2 & En2). rewrite En, Et in *. rewrite E2. cbn [mbind option_bind].
    destruct (spec_mcalls (nthreads m) (timers_after c (timer_n m)) cs ss1) as [rs ss2]. exists m2. split; [done|]. by split; [|rewrite En2]. }
  destruct Hrun as (m' & E & R' & En). exists m'. split; [done|]. split; [done|].
  intros i s x e Hs Hx Hz. destruct R' as [R1 R2 R3 R4]. rewrite <- En.
  destruct (lookup_lt_is_Some_2 (group m') i) as [p Hp]; [rewrite <- R1; by eapply lookup_lt_Some|].
  destruct (R4 i p s Hp Hs) as (g & L & T & N & Rp). destruct (rf_regs _ _ _ _ _ _ _ Rp) as [_ _ Rs _].
  assert (Hslot : nodes (view m' i p) !! Z.to_nat (w_fd e) = Some (Some x)) by (apply Rs; exists e; split; [done|lia]).
  unfold view in Hslot. cbn [nodes with_nodes] in Hslot. rewrite mask_lookup in Hslot.
  destruct (nodes_buf m' !! Z.to_nat (w_fd e)) as [v|]; [|done]. cbn [fmap option_fmap option_map] in Hslot.
  rewrite Z2Nat.id in Hslot by done. by destruct (decide (w_fd e mod nthreads m' = Z.of_nat i)).
Qed.

(** ** Creation, start and stop *)

Section Lifecycle.
Context (max : Z) (Hmax : 0 <= max <= 2 ^ 63).

(** A poller of the group when it is new, started, stopped again, without the array. *)
Definition fresh_poller : poller := with_nodes [] (new_poller max).
Definition started_poller : poller := with_stopped false (with_pipe [] fresh_poller).
Definition stopped_poller : poller := default fresh_poller (poller_stop started_poller).
Definition none_watched : list ptr := repeat None (Z.to_nat max).
Definition own_resources : list resource := [RMutex; RTimerfd; RPfd; RPoller].
Definition with_pipe_ends : list resource := RPipe_wr :: RPipe_rd :: own_resources.

Lemma stop_started l : poller_stop (with_nodes l started_poller) = Some (with_nodes l stopped_poller).
Proof. vm_compute. reflexivity. Qed.

Lemma fresh_refines : refines (with_nodes none_watched fresh_poller) [] (spec_new_poller max).
Proof. apply (new_poller_ok max Hmax). Qed.
Lemma started_refines : refines (with_nodes none_watched started_poller) [] (mk_aspec max false ∅ [] []).
Proof.
  destruct (new_poller_ok max Hmax) as (g & L & T & N & [Hh R Em Es Ep Eo]).
  exists g, L, T, N. constructor; try done. by eapply held_other.
Qed.
Lemma stopped_refines : refines (with_nodes none_watched stopped_poller) [] (spec_new_poller max).
Proof.
  destruct (stop_ok _ _ _ started_refines) as (xs & p & E & R & _ & Hxs). rewrite stop_started in E. injection E as <-.
  destruct xs as [|x xs]; [exact R|]. destruct (proj1 (Hxs x) ltac:(by left)) as [e He]. cbn in He. by rewrite lookup_empty in He.
Qed.

Lemma mask_none n i : mask n i none_watched = none_watched.
Proof.
  apply list_eq. intros k. rewrite mask_lookup. unfold none_watched.
  destruct (decide (k < Z.to_nat max)%nat) as [Hk|Hk].
  - rewrite repeat_lookup by done. cbn. by destruct (decide _).
  - by rewrite lookup_ge_None_2 by (rewrite repeat_length; lia).
Qed.

(** The pollers of a group without the array. *)
Definition shape (m : mpoller) : list poller := with_nodes [] <$> group m.

Lemma shape_refines m s n : nodes_buf m = none_watched -> length (shape m) = n -> (0 < n)%nat -> 0 <= timer_n m ->
  Forall (fun q => refines (with_nodes none_watched q) [] s) (shape m) -> mrefines m (fun _ => []) (repeat s n).
Proof.
  intros Hb Hs Hn Ht R. unfold shape in Hs. rewrite length_fmap in Hs.
  constructor; [by rewrite repeat_length|unfold nthreads; lia|done|]. intros i p s' Hp Hs'.
  assert (Hi : (i < n)%nat) by (rewrite <- Hs; by eapply lookup_lt_Some).
  rewrite repeat_lookup in Hs' by done. injection Hs' as <-.
  assert (E : shape m !! i = Some (with_nodes [] p)) by (unfold shape; by rewrite list_lookup_fmap, Hp).
  unfold view. rewrite Hb, mask_none, <- (with_nodes_twice none_watched [] p). by apply (Forall_lookup_1 _ _ _ _ R E).
Qed.
Lemma shape_repeat p k : with_nodes [] <$> repeat p k = repeat (with_nodes [] p) k.
Proof. induction k as [|k IH]; [done|]. cbn. by f_equal. Qed.
Lemma Forall_repeat {A : Type} (P : A -> Prop) x k : P x -> Forall P (repeat x k).
Proof. intros H. apply List.Forall_forall. intros y Hy. by apply repeat_spec in Hy as ->. Qed.

(** *** Creation *)

Lemma poller_create_cases ok : __poller_create max ok [] = Some (Some (new_poller max), own_resources) \/ __poller_create max ok [] = Some (None, []).
Proof.
  unfold __poller_create, __poller_create_timer.
  destruct (ok QMalloc), (ok QEpoll), (ok QTimerfd), (ok QAddTimerfd), (ok QMutex); (by left) || by right.
Qed.

Lemma create_loop_ok ok n : forall i, exists k b, create_loop max ok n i =
  Some (repeat (new_poller max) k, if (b : bool) then repeat own_resources n else repeat own_resources k ++ [[]], b) /\ (b = true -> k = n).
Proof.
  induction n as [|n IH]; intros i; cbn [create_loop]; [by exists 0%nat, true|].
  destruct (poller_create_cases (ok i)) as [-> | ->]; cbn [mbind option_bind]; [|by exists 0%nat, false].
  destruct (IH (S i)) as (k & b & -> & Hk). cbn [mbind option_bind]. exists (S k), b. split; [by destruct b|]. intros E. by rewrite Hk.
Qed.

Lemma group_destroy_ok n : destroy_loop (repeat own_resources n) = Some (repeat [] n).
Proof. induction n as [|n IH]; [done|]. cbn [repeat destroy_loop]. by rewrite IH. Qed.

(** *** Start and stop *)

Lemma start_cases ok :
  poller_start ok (new_poller max) own_resources = Some (0, with_nodes none_watched started_poller, with_pipe_ends) \/
  poller_start ok (new_poller max) own_resources = Some (-1, new_poller max, own_resources).
Proof.
  unfold poller_start, __poller_open_pipe. destruct (ok QPipe), (ok QAddPipe), (ok QThread); (by left) || by right.
Qed.

Lemma start_loop_ok ok n : forall i, exists k, (k <= n)%nat /\ start_loop ok i (repeat (new_poller max) n) (repeat own_resources n) =
  Some (k, repeat (with_nodes none_watched started_poller) k ++ repeat (new_poller max) (n - k), repeat with_pipe_ends k ++ repeat own_resources (n - k)).
Proof.
  induction n as [|n IH]; intros i; cbn [repeat start_loop]; [by exists 0%nat|].
  destruct (start_cases (ok i)) as [-> | ->]; cbn [mbind option_bind Z.ltb Z.compare].
  - destruct (IH (S i)) as (k & Hk & ->). exists (S k). split; [lia|done].
  - exists 0%nat. split; [lia|done].
Qed.

Lemma insert_middle {A} (l1 l2 : list A) x y : <[length l1 := y]> (l1 ++ x :: l2) = l1 ++ y :: l2.
Proof. rewrite insert_app_r_alt by lia. by rewrite Nat.sub_diag. Qed.

Lemma stop_one_ok l1 l2 r1 r2 m rss : length r1 = length l1 ->
  nodes_buf m = none_watched -> shape m = l1 ++ started_poller :: l2 -> rss = r1 ++ with_pipe_ends :: r2 ->
  exists m', stop_one (length l1) m rss = Some (m', r1 ++ own_resources :: r2) /\
    nodes_buf m' = none_watched /\ shape m' = l1 ++ stopped_poller :: l2 /\ timer_n m' = timer_n m.
Proof.
  intros Hl Hb Hs ->. unfold stop_one, on_poller. rewrite Nat2Z.id.
  assert (Hp : exists p, group m !! length l1 = Some p /\ with_nodes [] p = started_poller).
  { assert (E : shape m !! length l1 = Some started_poller) by (rewrite Hs; by apply list_lookup_middle).
    unfold shape in E. rewrite list_lookup_fmap in E. destruct (group m !! length l1) as [p|]; [|done]. exists p. split; [done|]. by apply (inj Some) in E. }
  destruct Hp as (p & -> & Ep). cbn [mbind option_bind]. rewrite Hb, <- (with_nodes_twice none_watched [] p), Ep, stop_started.
  cbn [mbind option_bind]. rewrite <- Hl, list_lookup_middle by done. cbn [mbind option_bind].
  change (close_pipe with_pipe_ends) with (Some own_resources). cbn [mbind option_bind]. rewrite insert_middle.
  eexists. split; [done|]. split; [done|]. split; [|done]. unfold shape. cbn [group]. rewrite list_fmap_insert. fold (shape m).
  rewrite Hs, Hl, insert_middle. done.
Qed.

Lemma repeat_middle {A : Type} (x : A) k l : repeat x (S k) ++ l = repeat x k ++ x :: l.
Proof. cbn [repeat]. rewrite repeat_cons, <- app_assoc. done. Qed.

(** From the last one down, as after a failed start. *)
Lemma stop_down_ok k : forall l2 r2 m rss,
  nodes_buf m = none_watched -> shape m = repeat started_poller k ++ l2 -> rss = repeat with_pipe_ends k ++ r2 ->
  exists m', stop_down k m rss = Some (m', repeat own_resources k ++ r2) /\
    nodes_buf m' = none_watched /\ shape m' = repeat stopped_poller k ++ l2 /\ timer_n m' = timer_n m.
Proof.
  induction k as [|k IH]; intros l2 r2 m rss Hb Hs ->; [by exists m|]. cbn [stop_down].
  rewrite repeat_middle in Hs.
  destruct (stop_one_ok (repeat started_poller k) l2 (repeat with_pipe_ends k) r2 m (repeat with_pipe_ends (S k) ++ r2))
    as (m1 & E & Hb1 & Hs1 & Ht1); [by rewrite !repeat_length|done|done|by rewrite repeat_middle|].
  rewrite repeat_length in E. rewrite E. cbn [mbind option_bind].
  destruct (IH (stopped_poller :: l2) (own_resources :: r2) m1 _ Hb1 Hs1 eq_refl) as (m2 & -> & Hb2 & Hs2 & Ht2).
  exists m2. rewrite !repeat_middle, Ht2, <- Ht1. done.
Qed.
(** From the first one up. *)
Lemma stop_up_ok k : forall i m rss,
  nodes_buf m = none_watched -> shape m = repeat stopped_poller i ++ repeat started_poller k -> rss = repeat own_resources i ++ repeat with_pipe_ends k ->
  exists m', stop_up k i m rss = Some (m', repeat own_resources (i + k)) /\
    nodes_buf m' = none_watched /\ shape m' = repeat stopped_poller (i + k) /\ timer_n m' = timer_n m.
Proof.
  induction k as [|k IH]; intros i m rss Hb Hs ->; [exists m; cbn in Hs |- *; rewrite app_nil_r in Hs |- *; by rewrite Nat.add_0_r|].
  cbn [stop_up]. change (repeat with_pipe_ends (S k)) with (with_pipe_ends :: repeat with_pipe_ends k).
  destruct (stop_one_ok (repeat stopped_poller i) (repeat started_poller k) (repeat own_resources i) (repeat with_pipe_ends k) m _
    ltac:(by rewrite !repeat_length) Hb Hs eq_refl) as (m1 & E & Hb1 & Hs1 & Ht1).
  rewrite repeat_length in E. rewrite E. cbn [mbind option_bind]. rewrite <- repeat_middle in Hs1.
  destruct (IH (S i) m1 (repeat own_resources i ++ own_resources :: repeat with_pipe_ends k) Hb1 Hs1 ltac:(by rewrite <- repeat_middle))
    as (m2 & E2 & Hb2 & Hs2 & Ht2).
  exists m2. rewrite E2, Nat.add_succ_r, Ht2, <- Ht1. done.
Qed.

(** The life of a group, whatever the system refuses: a failed [mpoller_create] gives back everything; a group that
    was created watches nothing and can be destroyed; [mpoller_start] starts all of its pollers or gives -1,
    having stopped those it started, with the resources as they were; [mpoller_stop] undoes a start. *)
Theorem mpoller_lifecycle ok ok_buf ok_group n :
  exists o held, mpoller_create max ok ok_buf ok_group n = Some (o, held) /\
  match o with
  | None => of_group held = [] /\ Forall (fun rs => rs = []) (of_pollers held)
  | Some m =>
      let k := (if (n =? 0)%nat then 1 else n)%nat in
      mrefines m (fun _ => []) (repeat (spec_new_poller max) k) /\
      (exists held', mpoller_destroy held = Some held' /\ of_group held' = [] /\ Forall (fun rs => rs = []) (of_pollers held')) /\
      forall ok', exists z m1 rss, mpoller_start ok' m (of_pollers held) = Some (z, m1, rss) /\
        (z = 0 /\ mrefines m1 (fun _ => []) (repeat (mk_aspec max false ∅ [] []) k) /\
           (exists m2, mpoller_stop m1 rss = Some (m2, of_pollers held) /\ mrefines m2 (fun _ => []) (repeat (spec_new_poller max) k)) \/
         z = -1 /\ mrefines m1 (fun _ => []) (repeat (spec_new_poller max) k) /\ rss = of_pollers held)
  end.
Proof.
  unfold mpoller_create, __mpoller_create. set (k := if (n =? 0)%nat then 1%nat else n).
  assert (Hk : (0 < k)%nat) by (unfold k; destruct (Nat.eqb_spec n 0); lia).
  destruct ok_group; [|eexists None, _; split; [done|split; [done|constructor]]].
  destruct ok_buf; cbn [mbind option_bind]; [|eexists None, _; split; [done|split; [done|constructor]]].
  destruct (create_loop_ok ok k 0) as (j & b & -> & Hj). cbn [mbind option_bind]. destruct b; cbn [mbind option_bind].
  2: { rewrite repeat_length, take_app_length' by (by rewrite repeat_length). rewrite group_destroy_ok. cbn [mbind option_bind].
       rewrite drop_app_length' by (by rewrite repeat_length). eexists None, _. split; [done|]. split; [done|].
       apply Forall_app. split; [by apply Forall_repeat|by constructor]. }
  rewrite (Hj eq_refl). set (m := mk_mpoller _ _ _). eexists (Some m), _. split; [done|]. cbv zeta.
  assert (Hsm : shape m = repeat fresh_poller k) by apply shape_repeat.
  split; [|split].
  - apply shape_refines; [done|by rewrite Hsm, repeat_length|done|done|]. rewrite Hsm. apply Forall_repeat, fresh_refines.
  - unfold mpoller_destroy. cbn [of_pollers of_group]. rewrite group_destroy_ok. cbn [mbind option_bind].
    rewrite decide_True by set_solver. eexists. split; [done|]. split; [done|]. by apply Forall_repeat.
  - intros ok'. unfold mpoller_start. cbn [of_pollers group m].
    destruct (start_loop_ok ok' k 0) as (i & Hi & ->). cbn [mbind option_bind]. rewrite repeat_length.
    set (m1 := mk_mpoller (nodes_buf m) _ _).
    assert (Hs1 : shape m1 = repeat started_poller i ++ repeat fresh_poller (k - i))
      by (unfold shape, m1; cbn [group]; rewrite fmap_app, !shape_repeat; done).
    destruct (Nat.eqb_spec i k) as [->|Hne].
    + rewrite Nat.sub_diag in *. cbn [repeat] in Hs1 |- *. rewrite app_nil_r in *.
      eexists 0, m1, _. split; [done|]. left. split; [done|]. split.
      { apply shape_refines; [done|by rewrite Hs1, repeat_length|done|done|]. rewrite Hs1. apply Forall_repeat, started_refines. }
      destruct (stop_up_ok k 0 m1 (repeat with_pipe_ends k) eq_refl Hs1 eq_refl) as (m2 & E & Hb2 & Hs2 & Ht2).
      exists m2. unfold mpoller_stop. replace (length (group m1)) with k.
      2: { apply (f_equal length) in Hs1. unfold shape in Hs1. by rewrite length_fmap, repeat_length in Hs1. }
      split; [exact E|]. apply shape_refines; [done|by rewrite Hs2, repeat_length|done|by rewrite Ht2|]. rewrite Hs2. apply Forall_repeat, stopped_refines.
    + destruct (stop_down_ok i (repeat fresh_poller (k - i)) (repeat own_resources (k - i)) m1 _ eq_refl Hs1 eq_refl) as (m2 & -> & Hb2 & Hs2 & Ht2).
      cbn [mbind option_bind]. eexists (-1), m2, _. split; [done|]. right. split; [done|]. split.
      * apply shape_refines; [done|rewrite Hs2, length_app, !repeat_length; lia|done|by rewrite Ht2|]. rewrite Hs2.
        apply Forall_app. split; apply Forall_repeat; [apply stopped_refines|apply fresh_refines].
      * rewrite <- repeat_app. by replace (i + (k - i))%nat with k by lia.
Qed.
End Lifecycle.

(** ** Concrete instances *)

(** Two pollers: descriptors 1 and 3 go to one, 2 to the other, where the timer goes too. *)
Definition demo_group : mpoller := mk_mpoller (repeat None 4) [new_poller 4; new_poller 4] 0.
Definition demo_mcalls : list mcall :=
  [ MAdd (mk_data PD_OP_READ 0 1 0 0 0) 1500 (demo_answers 10 11 100);
    MAdd (mk_data PD_OP_READ 0 2 0 0 0) (-1) (demo_answers 10 11 100);
    MAdd (mk_data PD_OP_READ 0 1 0 0 0) (-1) (demo_answers 12 13 100);
    MAdd (mk_data PD_OP_READ 0 3 0 0 0) (-1) (demo_answers 12 13 100);
    MAddTimer (mk_timespec 0 5000) 7 (demo_answers 16 17 100);
    MDel 2; MDel 2; MDelTimer 17 0 ].

Lemma demo_group_refines : mrefines demo_group (fun _ => []) (repeat (spec_new_poller 4) 2).
Proof.
  apply (shape_refines 4); [done|done|lia|done|].
  apply (Forall_repeat _ (fresh_poller 4) 2). apply fresh_refines. lia.
Qed.

Lemma demo_mvalid : valid_mcalls demo_mcalls demo_group (repeat (spec_new_poller 4) 2).
Proof.
  unfold demo_mcalls. repeat match goal with
    | |- valid_mcalls (_ :: _) _ _ => split
    | |- valid_mcalls [] _ _ => exact I
    | |- valid_mcall _ _ _ =>
        let p := fresh "p" in let s := fresh "s" in let Hp := fresh "Hp" in let Hs := fresh "Hs" in
        split; [by vm_compute|intros p s Hp Hs; vm_compute in Hp; injection Hp as <-; vm_compute in Hs; injection Hs as <-]
    | |- valid_call _ _ _ => cbn [valid_call]
    | |- answers_ok _ _ => unfold answers_ok
    | |- fresh_at _ _ => intros ? [= <-]; split; [by vm_compute|by apply (bool_decide_unpack (_ ∉ HEADS)); vm_compute]
    | |- _ \/ _ => left; eexists; split; [vm_compute; reflexivity|]
    | |- _ /\ _ => split
    end; by vm_compute.
Qed.

Lemma mpoller_calls_refine_witness :
  exists m', run_mcalls demo_mcalls demo_group = Some ([None; None; Some EEXIST; None; None; None; Some ENOENT; None], m') /\
    mrefines m' (fun _ => []) (spec_mcalls 2 0 demo_mcalls (repeat (spec_new_poller 4) 2)).2.
Proof.
  destruct (mpoller_calls_refine demo_mcalls demo_group (fun _ => []) (repeat (spec_new_poller 4) 2) demo_group_refines demo_mvalid) as (m' & E & R & _).
  exists m'. split; [|exact R]. rewrite E. by vm_compute.
Defined.

Lemma mpoller_lifecycle_witness :
  exists o held, mpoller_create 4 (fun _ _ => true) true true 2 = Some (o, held) /\ is_Some o.
Proof.
  destruct (mpoller_lifecycle 4 ltac:(lia) (fun _ _ => true) true true 2) as (o & held & E & _).
  exists o, held. split; [exact E|]. vm_compute in E. injection E as <- _. by eexists.
Defined.
