(* ===== verification/HttpParser.v ===== *)
(** * The incremental HTTP parser of [src/protocol/http_parser.c]

    The parser receives a message in pieces ([http_parser_append_message]),
    keeps all the bytes seen so far in [msgbuf], and resumes the header or the
    chunked body at [header_offset] or [chunk_offset] each time.  Bytes are
    integers in [[0, 256)]; a C buffer is the list of the bytes readable from the
    pointer on.  A read or a write outside its buffer is undefined behaviour: the
    operation returns [None].

    The outcome of every [malloc], [realloc] and [strdup] is decided by the
    [heap] argument, a list of answers (an exhausted list means that memory is
    available), so the error paths are values of the model. *)

From S2P Require Import Prelude CLib.

Local Open Scope Z_scope.

(** ** The parser's data *)

Definition HTTP_START_LINE_MAX : nat := Z.to_nat 8192.
Definition HTTP_HEADER_VALUE_MAX : nat := Z.to_nat 8192.
Definition HTTP_CHUNK_LINE_MAX : nat := Z.to_nat 1024.
Definition HTTP_TRAILER_LINE_MAX : nat := Z.to_nat 8192.
Definition HTTP_HEADER_NAME_MAX : nat := 64.
Definition HTTP_MSGBUF_INIT_SIZE : Z := 2048.
Definition CHUNK_SIZE_MAX : Z := 2 * 1024 * 1024 * 1024 - Z.of_nat HTTP_CHUNK_LINE_MAX - 4.

Inductive header_states := HPS_START_LINE | HPS_HEADER_NAME | HPS_HEADER_VALUE | HPS_HEADER_COMPLETE.
Inductive chunk_states := CPS_CHUNK_DATA | CPS_TRAILER_PART | CPS_CHUNK_COMPLETE.

#[export] Instance header_states_eq_dec : EqDecision header_states.
Proof. solve_decision. Defined.
#[export] Instance chunk_states_eq_dec : EqDecision chunk_states.
Proof. solve_decision. Defined.

(** [struct __header_line]; the two lengths are [int]s.  [inplace] says that
    [buf] is the storage behind the structure itself. *)
Record header_line := mk_line {
  name_len : Z;
  value_len : Z;
  inplace : bool;
  buf : list Z }.

(** [http_parser_t].  A NULL string is [None]; the flags are the [char] fields
    the code uses as Booleans; [msgbuf] holds the bytes of the message buffer that
    have been written, out of the [bufsize] allocated. *)
Record http_parser := mk_parser {
  header_state : header_states;
  chunk_state : chunk_states;
  header_offset : Z;
  chunk_offset : Z;
  content_length : Z;
  transfer_length : Z;
  version : option (list Z);
  method : option (list Z);
  uri : option (list Z);
  code : option (list Z);
  phrase : option (list Z);
  header_list : list header_line;
  namebuf : list Z;
  msgbuf : list Z;
  msgsize : Z;
  bufsize : Z;
  has_connection : bool;
  has_content_length : bool;
  has_keep_alive : bool;
  expect_continue : bool;
  keep_alive : bool;
  chunked : bool;
  complete : bool;
  is_resp : bool }.

(** Assignments to one field. *)
Definition set_header_state (v : header_states) (p : http_parser) : http_parser :=
  mk_parser v (chunk_state p) (header_offset p) (chunk_offset p) (content_length p)
    (transfer_length p) (version p) (method p) (uri p) (code p) (phrase p) (header_list p)
    (namebuf p) (msgbuf p) (msgsize p) (bufsize p) (has_connection p) (has_content_length p)
    (has_keep_alive p) (expect_continue p) (keep_alive p) (chunked p) (complete p) (is_resp
    p).
Definition set_chunk_state (v : chunk_states) (p : http_parser) : http_parser :=
  mk_parser (header_state p) v (header_offset p) (chunk_offset p) (content_length p)
    (transfer_length p) (version p) (method p) (uri p) (code p) (phrase p) (header_list p)
    (namebuf p) (msgbuf p) (msgsize p) (bufsize p) (has_connection p) (has_content_length p)
    (has_keep_alive p) (expect_continue p) (keep_alive p) (chunked p) (complete p) (is_resp
    p).
Definition set_header_offset (v : Z) (p : http_parser) : http_parser :=
  mk_parser (header_state p) (chunk_state p) v (chunk_offset p) (content_length p)
    (transfer_length p) (version p) (method p) (uri p) (code p) (phrase p) (header_list p)
    (namebuf p) (msgbuf p) (msgsize p) (bufsize p) (has_connection p) (has_content_length p)
    (has_keep_alive p) (expect_continue p) (keep_alive p) (chunked p) (complete p) (is_resp
    p).
Definition set_chunk_offset (v : Z) (p : http_parser) : http_parser :=
  mk_parser (header_state p) (chunk_state p) (header_offset p) v (content_length p)
    (transfer_length p) (version p) (method p) (uri p) (code p) (phrase p) (header_list p)
    (namebuf p) (msgbuf p) (msgsize p) (bufsize p) (has_connection p) (has_content_length p)
    (has_keep_alive p) (expect_continue p) (keep_alive p) (chunked p) (complete p) (is_resp
    p).
Definition set_content_length (v : Z) (p : http_parser) : http_parser :=
  mk_parser (header_state p) (chunk_state p) (header_offset p) (chunk_offset p) v
    (transfer_length p) (version p) (method p) (uri p) (code p) (phrase p) (header_list p)
    (namebuf p) (msgbuf p) (msgsize p) (bufsize p) (has_connection p) (has_content_length p)
    (has_keep_alive p) (expect_continue p) (keep_alive p) (chunked p) (complete p) (is_resp
    p).
Definition set_transfer_length (v : Z) (p : http_parser) : http_parser :=
  mk_parser (header_state p) (chunk_state p) (header_offset p) (chunk_offset p)
    (content_length p) v (version p) (method p) (uri p) (code p) (phrase p) (header_list p)
    (namebuf p) (msgbuf p) (msgsize p) (bufsize p) (has_connection p) (has_content_length p)
    (has_keep_alive p) (expect_continue p) (keep_alive p) (chunked p) (complete p) (is_resp
    p).
Definition set_version (v : option (list Z)) (p : http_parser) : http_parser :=
  mk_parser (header_state p) (chunk_state p) (header_offset p) (chunk_offset p)
    (content_length p) (transfer_length p) v (method p) (uri p) (code p) (phrase p)
    (header_list p) (namebuf p) (msgbuf p) (msgsize p) (bufsize p) (has_connection p)
    (has_content_length p) (has_keep_alive p) (expect_continue p) (keep_alive p) (chunked p)
    (complete p) (is_resp p).
Definition set_method (v : option (list Z)) (p : http_parser) : http_parser :=
  mk_parser (header_state p) (chunk_state p) (header_offset p) (chunk_offset p)
    (content_length p) (transfer_length p) (version p) v (uri p) (code p) (phrase p)
    (header_list p) (namebuf p) (msgbuf p) (msgsize p) (bufsize p) (has_connection p)
    (has_content_length p) (has_keep_alive p) (expect_continue p) (keep_alive p) (chunked p)
    (complete p) (is_resp p).
Definition set_uri (v : option (list Z)) (p : http_parser) : http_parser :=
  mk_parser (header_state p) (chunk_state p) (header_offset p) (chunk_offset p)
    (content_length p) (transfer_length p) (version p) (method p) v (code p) (phrase p)
    (header_list p) (namebuf p) (msgbuf p) (msgsize p) (bufsize p) (has_connection p)
    (has_content_length p) (has_keep_alive p) (expect_continue p) (keep_alive p) (chunked p)
    (complete p) (is_resp p).
Definition set_code (v : option (list Z)) (p : http_parser) : http_parser :=
  mk_parser (header_state p) (chunk_state p) (header_offset p) (chunk_offset p)
    (content_length p) (transfer_length p) (version p) (method p) (uri p) v (phrase p)
    (header_list p) (namebuf p) (msgbuf p) (msgsize p) (bufsize p) (has_connection p)
    (has_content_length p) (has_keep_alive p) (expect_continue p) (keep_alive p) (chunked p)
    (complete p) (is_resp p).
Definition set_phrase (v : option (list Z)) (p : http_parser) : http_parser :=
  mk_parser (header_state p) (chunk_state p) (header_offset p) (chunk_offset p)
    (content_length p) (transfer_length p) (version p) (method p) (uri p) (code p) v
    (header_list p) (namebuf p) (msgbuf p) (msgsize p) (bufsize p) (has_connection p)
    (has_content_length p) (has_keep_alive p) (expect_continue p) (keep_alive p) (chunked p)
    (complete p) (is_resp p).
Definition set_header_list (v : list header_line) (p : http_parser) : http_parser :=
  mk_parser (header_state p) (chunk_state p) (header_offset p) (chunk_offset p)
    (content_length p) (transfer_length p) (version p) (method p) (uri p) (code p) (phrase
    p) v (namebuf p) (msgbuf p) (msgsize p) (bufsize p) (has_connection p)
    (has_content_length p) (has_keep_alive p) (expect_continue p) (keep_alive p) (chunked p)
    (complete p) (is_resp p).
Definition set_namebuf (v : list Z) (p : http_parser) : http_parser :=
  mk_parser (header_state p) (chunk_state p) (header_offset p) (chunk_offset p)
    (content_length p) (transfer_length p) (version p) (method p) (uri p) (code p) (phrase
    p) (header_list p) v (msgbuf p) (msgsize p) (bufsize p) (has_connection p)
    (has_content_length p) (has_keep_alive p) (expect_continue p) (keep_alive p) (chunked p)
    (complete p) (is_resp p).
Definition set_msgbuf (v : list Z) (p : http_parser) : http_parser :=
  mk_parser (header_state p) (chunk_state p) (header_offset p) (chunk_offset p)
    (content_length p) (transfer_length p) (version p) (method p) (uri p) (code p) (phrase
    p) (header_list p) (namebuf p) v (msgsize p) (bufsize p) (has_connection p)
    (has_content_length p) (has_keep_alive p) (expect_continue p) (keep_alive p) (chunked p)
    (complete p) (is_resp p).
Definition set_msgsize (v : Z) (p : http_parser) : http_parser :=
  mk_parser (header_state p) (chunk_state p) (header_offset p) (chunk_offset p)
    (content_length p) (transfer_length p) (version p) (method p) (uri p) (code p) (phrase
    p) (header_list p) (namebuf p) (msgbuf p) v (bufsize p) (has_connection p)
    (has_content_length p) (has_keep_alive p) (expect_continue p) (keep_alive p) (chunked p)
    (complete p) (is_resp p).
Definition set_bufsize (v : Z) (p : http_parser) : http_parser :=
  mk_parser (header_state p) (chunk_state p) (header_offset p) (chunk_offset p)
    (content_length p) (transfer_length p) (version p) (method p) (uri p) (code p) (phrase
    p) (header_list p) (namebuf p) (msgbuf p) (msgsize p) v (has_connection p)
    (has_content_length p) (has_keep_alive p) (expect_continue p) (keep_alive p) (chunked p)
    (complete p) (is_resp p).
Definition set_has_connection (v : bool) (p : http_parser) : http_parser :=
  mk_parser (header_state p) (chunk_state p) (header_offset p) (chunk_offset p)
    (content_length p) (transfer_length p) (version p) (method p) (uri p) (code p) (phrase
    p) (header_list p) (namebuf p) (msgbuf p) (msgsize p) (bufsize p) v (has_content_length
    p) (has_keep_alive p) (expect_continue p) (keep_alive p) (chunked p) (complete p)
    (is_resp p).
Definition set_has_content_length (v : bool) (p : http_parser) : http_parser :=
  mk_parser (header_state p) (chunk_state p) (header_offset p) (chunk_offset p)
    (content_length p) (transfer_length p) (version p) (method p) (uri p) (code p) (phrase
    p) (header_list p) (namebuf p) (msgbuf p) (msgsize p) (bufsize p) (has_connection p) v
    (has_keep_alive p) (expect_continue p) (keep_alive p) (chunked p) (complete p) (is_resp
    p).
Definition set_has_keep_alive (v : bool) (p : http_parser) : http_parser :=
  mk_parser (header_state p) (chunk_state p) (header_offset p) (chunk_offset p)
    (content_length p) (transfer_length p) (version p) (method p) (uri p) (code p) (phrase
    p) (header_list p) (namebuf p) (msgbuf p) (msgsize p) (bufsize p) (has_connection p)
    (has_content_length p) v (expect_continue p) (keep_alive p) (chunked p) (complete p)
    (is_resp p).
Definition set_expect_continue (v : bool) (p : http_parser) : http_parser :=
  mk_parser (header_state p) (chunk_state p) (header_offset p) (chunk_offset p)
    (content_length p) (transfer_length p) (version p) (method p) (uri p) (code p) (phrase
    p) (header_list p) (namebuf p) (msgbuf p) (msgsize p) (bufsize p) (has_connection p)
    (has_content_length p) (has_keep_alive p) v (keep_alive p) (chunked p) (complete p)
    (is_resp p).
Definition set_keep_alive (v : bool) (p : http_parser) : http_parser :=
  mk_parser (header_state p) (chunk_state p) (header_offset p) (chunk_offset p)
    (content_length p) (transfer_length p) (version p) (method p) (uri p) (code p) (phrase
    p) (header_list p) (namebuf p) (msgbuf p) (msgsize p) (bufsize p) (has_connection p)
    (has_content_length p) (has_keep_alive p) (expect_continue p) v (chunked p) (complete p)
    (is_resp p).
Definition set_chunked (v : bool) (p : http_parser) : http_parser :=
  mk_parser (header_state p) (chunk_state p) (header_offset p) (chunk_offset p)
    (content_length p) (transfer_length p) (version p) (method p) (uri p) (code p) (phrase
    p) (header_list p) (namebuf p) (msgbuf p) (msgsize p) (bufsize p) (has_connection p)
    (has_content_length p) (has_keep_alive p) (expect_continue p) (keep_alive p) v (complete
    p) (is_resp p).
Definition set_complete (v : bool) (p : http_parser) : http_parser :=
  mk_parser (header_state p) (chunk_state p) (header_offset p) (chunk_offset p)
    (content_length p) (transfer_length p) (version p) (method p) (uri p) (code p) (phrase
    p) (header_list p) (namebuf p) (msgbuf p) (msgsize p) (bufsize p) (has_connection p)
    (has_content_length p) (has_keep_alive p) (expect_continue p) (keep_alive p) (chunked p)
    v (is_resp p).

(** ** Header lines *)

(** The layout of a stored line, and of the line on the wire. *)
Definition line_bytes (name value : list Z) : list Z := name ++ [COLON; SP] ++ value ++ [CR; LF].

Definition __add_message_header (name : list Z) (name_len : Z) (value : list Z) (value_len : Z)
    (p : http_parser) (h : heap) : option (Z * http_parser * heap) :=
  let '(ok, h) := malloc h in
  if ok then
    n ← memcpy name_len name;
    v ← memcpy value_len value;
    let line := mk_line (s32 name_len) (s32 value_len) true (line_bytes n v) in
    Some (0, set_header_list (header_list p ++ [line]) p, h)
  else Some (-1, p, h).

(** [line->name_len == name_len && strncasecmp(line->buf, name, name_len) == 0];
    the comparison is made on [size_t]. *)
Definition line_matches (name : list Z) (name_len : Z) (line : header_line) : bool :=
  (u64 (HttpParser.name_len line) =? name_len) && strncasecmp_eq (Z.to_nat name_len) (buf line) name.

(** The body of the loop of [__set_message_header] on the line that matches. *)
Definition set_line (name : list Z) (name_len : Z) (value : list Z) (value_len : Z)
    (line : header_line) (h : heap) : option (option header_line * heap) :=
  '(line, h) ←
    (if u64 (HttpParser.value_len line) <? value_len then
       let '(ok, h) := malloc h in
       if ok then
         n ← memcpy name_len name;
         Some (Some (mk_line (HttpParser.name_len line) (HttpParser.value_len line) false
                       (n ++ [COLON; SP] ++ repeat NUL (Z.to_nat (value_len + 2)))), h)
       else Some (None, h)
     else Some (Some line, h));
  match line with
  | None => Some (None, h)
  | Some line =>
      v ← memcpy value_len value;
      b ← write (name_len + 2) (v ++ [CR; LF]) (buf line);
      Some (Some (mk_line (HttpParser.name_len line) (s32 value_len) (inplace line) b), h)
  end.

(** The loop: [None] in the result when no line matches, otherwise the value
    returned and the lines. *)
Fixpoint set_lines (name : list Z) (name_len : Z) (value : list Z) (value_len : Z)
    (lines : list header_line) (h : heap) : option (option (Z * list header_line) * heap) :=
  match lines with
  | [] => Some (None, h)
  | line :: rest =>
      if line_matches name name_len line then
        '(line', h) ← set_line name name_len value value_len line h;
        match line' with
        | Some line' => Some (Some (0, line' :: rest), h)
        | None => Some (Some (-1, line :: rest), h)
        end
      else
        '(r, h) ← set_lines name name_len value value_len rest h;
        Some (match r with Some (ret, rest') => Some (ret, line :: rest') | None => None end, h)
  end.

Definition __set_message_header (name : list Z) (name_len : Z) (value : list Z) (value_len : Z)
    (p : http_parser) (h : heap) : option (Z * http_parser * heap) :=
  '(r, h) ← set_lines name name_len value value_len (header_list p) h;
  match r with
  | Some (ret, lines) => Some (ret, set_header_list lines p, h)
  | None => __add_message_header name name_len value value_len p h
  end.

(** ** The start line *)

(** String literals of the source. *)
Definition HTTP_1_0 : list Z := [72; 84; 84; 80; 47; 49; 46; 48].
Definition HTTP_0 : list Z := [72; 84; 84; 80; 47; 48].
Definition str_204 : list Z := [50; 48; 52].
Definition str_304 : list Z := [51; 48; 52].

(** [strcmp(version, "HTTP/1.0") == 0 || strncmp(version, "HTTP/0", 6) == 0] *)
Definition old_version (version : list Z) : bool :=
  bool_decide (version = HTTP_1_0) || bool_decide (take 6 version = HTTP_0).

Definition check_version (version : list Z) (p : http_parser) : http_parser :=
  if old_version version then set_keep_alive false p else p.

Definition __match_request_line (method uri version : list Z) (p : http_parser) (h : heap)
    : Z * http_parser * heap :=
  let p := check_version version p in
  let '(ok1, h) := malloc h in
  if ok1 then
    let '(ok2, h) := malloc h in
    if ok2 then
      let '(ok3, h) := malloc h in
      if ok3 then
        (0, set_version (Some version) (set_uri (Some uri) (set_method (Some method) p)), h)
      else (-1, p, h)
    else (-1, p, h)
  else (-1, p, h).

(** [*code == '1' || strcmp(code, "204") == 0 || strcmp(code, "304") == 0] *)
Definition no_body_code (code : list Z) : bool :=
  (hd NUL code =? 49) || bool_decide (code = str_204) || bool_decide (code = str_304).

Definition __match_status_line (version code phrase : list Z) (p : http_parser) (h : heap)
    : Z * http_parser * heap :=
  let p := check_version version p in
  let p := if no_body_code code then set_transfer_length 0 p else p in
  let '(ok1, h) := malloc h in
  if ok1 then
    let '(ok2, h) := malloc h in
    if ok2 then
      let '(ok3, h) := malloc h in
      if ok3 then
        (0, set_phrase (Some phrase) (set_code (Some code) (set_version (Some version) p)), h)
      else (-1, p, h)
    else (-1, p, h)
  else (-1, p, h).

(** ** The headers the parser itself looks at *)

Definition str_Expect : list Z := [69; 120; 112; 101; 99; 116].
Definition str_100_continue : list Z := [49; 48; 48; 45; 99; 111; 110; 116; 105; 110; 117; 101].
Definition str_Connection : list Z := [67; 111; 110; 110; 101; 99; 116; 105; 111; 110].
Definition str_Keep_Alive : list Z := [75; 101; 101; 112; 45; 65; 108; 105; 118; 101].
Definition str_close : list Z := [99; 108; 111; 115; 101].
Definition str_Content_Length : list Z :=
  [67; 111; 110; 116; 101; 110; 116; 45; 76; 101; 110; 103; 116; 104].
Definition str_Transfer_Encoding : list Z :=
  [84; 114; 97; 110; 115; 102; 101; 114; 45; 69; 110; 99; 111; 100; 105; 110; 103].
Definition str_identity : list Z := [105; 100; 101; 110; 116; 105; 116; 121].

Definition __check_message_header (name : list Z) (name_len : Z) (value : list Z) (value_len : Z)
    (p : http_parser) : option http_parser :=
  if name_len =? 6 then
    if strncasecmp_eq 6 name str_Expect then
      if (value_len =? 12) && strncasecmp_eq 12 value str_100_continue
      then Some (set_expect_continue true p) else Some p
    else Some p
  else if name_len =? 10 then
    if strncasecmp_eq 10 name str_Connection then
      let p := set_has_connection true p in
      if (value_len =? 10) && strncasecmp_eq 10 value str_Keep_Alive
      then Some (set_keep_alive true p)
      else if (value_len =? 5) && strncasecmp_eq 5 value str_close
      then Some (set_keep_alive false p) else Some p
    else if strncasecmp_eq 10 name str_Keep_Alive then Some (set_has_keep_alive true p)
    else Some p
  else if name_len =? 14 then
    if strncasecmp_eq 14 name str_Content_Length then
      let p := set_has_content_length true p in
      c ← value !! O;
      if is_digit c && (value_len <=? 15) then
        b ← memcpy value_len value;
        Some (set_content_length (atol_digits 0 b) p)
      else Some p
    else Some p
  else if name_len =? 17 then
    if strncasecmp_eq 17 name str_Transfer_Encoding then
      if negb (value_len =? 8) || negb (strncasecmp_eq 8 value str_identity)
      then Some (set_chunked true p) else Some (set_chunked false p)
    else Some p
  else Some p.

Definition http_parser_add_header (name : list Z) (name_len : Z) (value : list Z) (value_len : Z)
    (p : http_parser) (h : heap) : option (Z * http_parser * heap) :=
  '(r, p, h) ← __add_message_header name name_len value value_len p h;
  if 0 <=? r then
    p ← __check_message_header name name_len value value_len p;
    Some (0, p, h)
  else Some (-1, p, h).

Definition http_parser_set_header (name : list Z) (name_len : Z) (value : list Z) (value_len : Z)
    (p : http_parser) (h : heap) : option (Z * http_parser * heap) :=
  '(r, p, h) ← __set_message_header name name_len value value_len p h;
  if 0 <=? r then
    p ← __check_message_header name name_len value value_len p;
    Some (0, p, h)
  else Some (-1, p, h).

(** ** Parsing *)

(** The loop that the start line, the chunk line and the trailer line share:
    [for (i = 0; i < MIN(max, len); i++)] over the bytes, stopping at a CR, which
    an LF has to follow; with [nul], a NUL byte is an error too.  [room] is
    [max - i], so that running out of it is the test [i == max] after the loop,
    and running out of bytes is the final [return 0]. *)
Inductive scan_result := Need | Bad | Line (line : list Z).

Fixpoint scan_line (nul : bool) (room : nat) (ptr : list Z) : scan_result :=
  match room with
  | O => Bad
  | S room =>
      match ptr with
      | [] => Need
      | c :: rest =>
          if c =? CR then
            match rest with
            | [] => Need
            | c2 :: _ => if c2 =? LF then Line [] else Bad
            end
          else if nul && (c =? NUL) then Bad
          else match scan_line nul room rest with Line l => Line (c :: l) | r => r end
      end
  end.

(** [len >= 2 && ptr[0] == '\r' && ptr[1] == '\n'] *)
Definition starts_crlf (ptr : list Z) : bool :=
  match ptr with c1 :: c2 :: _ => (c1 =? CR) && (c2 =? LF) | _ => false end.

Definition __parse_start_line (ptr : list Z) (p : http_parser) (h : heap)
    : Z * http_parser * heap :=
  if starts_crlf ptr then (1, set_header_offset (header_offset p + 2) p, h)
  else
    match scan_line true HTTP_START_LINE_MAX ptr with
    | Need => (0, p, h)
    | Bad => (-2, p, h)
    | Line start_line =>
        match strchr_split SP start_line with
        | None => (-2, p, h)
        | Some (p1, rest) =>
            match strchr_split SP rest with
            | None => (-2, p, h)
            | Some (p2, p3) =>
                let '(ret, p, h) :=
                  (if is_resp p then __match_status_line p1 p2 p3 p h
                   else __match_request_line p1 p2 p3 p h) in
                if ret <? 0 then (-1, p, h)
                else (1, set_header_state HPS_HEADER_NAME
                           (set_header_offset (header_offset p + len start_line + 2) p), h)
            end
        end
    end.

(** The loop of [__parse_header_name] from index [i] on: the value returned, the
    index reached and [namebuf] after the stores.  A store outside [namebuf] is
    [None]; reading a byte as [signed char] rejects NUL and everything above 127. *)
Fixpoint header_name_loop (i : nat) (ptr namebuf : list Z) : option (Z * nat * list Z) :=
  match ptr with
  | c :: rest =>
      if (i <? HTTP_HEADER_NAME_MAX)%nat then
        if c =? COLON then
          nb ← write (Z.of_nat i) [NUL] namebuf; Some (1, i, nb)
        else if schar c <=? 0 then Some (-2, i, namebuf)
        else nb ← write (Z.of_nat i) [c] namebuf; header_name_loop (S i) rest nb
      else Some (-2, i, namebuf)
  | [] => if (i =? HTTP_HEADER_NAME_MAX)%nat then Some (-2, i, namebuf) else Some (0, i, namebuf)
  end.

Definition __parse_header_name (ptr : list Z) (p : http_parser) : option (Z * http_parser) :=
  if starts_crlf ptr then
    Some (1, set_header_state HPS_HEADER_COMPLETE (set_header_offset (header_offset p + 2) p))
  else
    '(ret, i, nb) ← header_name_loop 0 ptr (namebuf p);
    let p := set_namebuf nb p in
    if ret =? 1 then
      Some (1, set_header_state HPS_HEADER_VALUE
                 (set_header_offset (header_offset p + Z.of_nat i + 1) p))
    else Some (ret, p).

Definition is_blank (c : Z) : bool := (c =? SP) || (c =? HT).

(** [while (i > 0) if (header_value[i - 1] is blank) i--;], on the value in
    reverse order. *)
Fixpoint trim_blank (rv : list Z) : list Z :=
  match rv with c :: rv' => if is_blank c then trim_blank rv' else rv | [] => [] end.

Inductive value_result := VNeed | VBad | VDone (rv rest : list Z).

(** The loops of [__parse_header_value]: [skip] is the first inner loop, after
    which the second one reads bytes into [header_value] ([rv] in reverse order,
    so [i] is its length).  At the end of a line the trailing blanks go; a blank
    at the start of the next line continues the value after one space. *)
Fixpoint header_value_loop (skip : bool) (ptr rv : list Z) : value_result :=
  match ptr with
  | [] => VNeed
  | c :: rest =>
      if skip && is_blank c then header_value_loop true rest rv
      else if (length rv =? HTTP_HEADER_VALUE_MAX)%nat then VBad
      else
        match rest with
        | [] => VNeed
        | c2 :: rest2 =>
            if c =? CR then
              if c2 =? LF then
                match rest2 with
                | [] => VNeed
                | c3 :: rest3 =>
                    let rv := trim_blank rv in
                    if is_blank c3 then header_value_loop true rest3 (SP :: rv)
                    else VDone rv rest2
                end
              else VBad
            else if schar c <=? 0 then VBad
            else header_value_loop false rest (c :: rv)
        end
  end.

Definition __parse_header_value (ptr : list Z) (p : http_parser) (h : heap)
    : option (Z * http_parser * heap) :=
  match header_value_loop true ptr [] with
  | VNeed => Some (0, p, h)
  | VBad => Some (-2, p, h)
  | VDone rv rest =>
      let header_value := rev rv ++ [NUL] in
      name_len ← strlen (namebuf p);
      '(ret, p, h) ←
        http_parser_add_header (namebuf p) name_len header_value (len rv) p h;
      if ret <? 0 then Some (-1, p, h)
      else Some (1, set_header_state HPS_HEADER_NAME
                      (set_header_offset (header_offset p + (len ptr - len rest)) p), h)
  end.

(** The bytes from an offset to the end of the message. *)
Definition from (off : Z) (message : list Z) : list Z := drop (Z.to_nat off) message.

(** One turn of the loop of [__parse_message_header]. *)
Definition header_step (message : list Z) (p : http_parser) (h : heap)
    : option (Z * http_parser * heap) :=
  let ptr := from (header_offset p) message in
  match header_state p with
  | HPS_START_LINE => Some (__parse_start_line ptr p h)
  | HPS_HEADER_VALUE => __parse_header_value ptr p h
  | _ => '(ret, p) ← __parse_header_name ptr p; Some (ret, p, h)
  end.

Fixpoint header_loop (fuel : nat) (message : list Z) (p : http_parser) (h : heap)
    : option (Z * http_parser * heap) :=
  match fuel with
  | O => None
  | S fuel =>
      '(ret, p, h) ← header_step message p h;
      if decide (header_state p = HPS_HEADER_COMPLETE) then Some (1, p, h)
      else if 0 <? ret then header_loop fuel message p h
      else Some (ret, p, h)
  end.

(** Every turn that goes on consumes a byte of the message, so one turn more than
    there are bytes is enough. *)
Definition __parse_message_header (message : list Z) (p : http_parser) (h : heap)
    : option (Z * http_parser * heap) :=
  header_loop (S (length message)) message p h.

Definition __parse_chunk_data (ptr : list Z) (p : http_parser) : Z * http_parser :=
  match scan_line false HTTP_CHUNK_LINE_MAX ptr with
  | Need => (0, p)
  | Bad => (-2, p)
  | Line chunk_line =>
      match strtol16 chunk_line with
      | None => (-2, p)
      | Some chunk_size =>
          if chunk_size =? 0 then
            (1, set_chunk_offset (chunk_offset p + (len chunk_line + 2))
                  (set_chunk_state CPS_TRAILER_PART p))
          else if u64 chunk_size <? CHUNK_SIZE_MAX then
            let chunk_size := chunk_size + len chunk_line + 4 in
            if len ptr <? chunk_size then (0, p)
            else (1, set_chunk_offset (chunk_offset p + chunk_size) p)
          else (-2, p)
      end
  end.

Definition __parse_trailer_part (ptr : list Z) (p : http_parser) : Z * http_parser :=
  match scan_line false HTTP_TRAILER_LINE_MAX ptr with
  | Need => (0, p)
  | Bad => (-2, p)
  | Line line =>
      let p := set_chunk_offset (chunk_offset p + len line + 2) p in
      (1, match line with [] => set_chunk_state CPS_CHUNK_COMPLETE p | _ => p end)
  end.

Fixpoint chunk_loop (fuel : nat) (message : list Z) (p : http_parser)
    : option (Z * http_parser) :=
  match fuel with
  | O => None
  | S fuel =>
      let ptr := from (chunk_offset p) message in
      let '(ret, p) :=
        match chunk_state p with
        | CPS_CHUNK_DATA => __parse_chunk_data ptr p
        | _ => __parse_trailer_part ptr p
        end in
      if decide (chunk_state p = CPS_CHUNK_COMPLETE) then Some (1, p)
      else if 0 <? ret then chunk_loop fuel message p
      else Some (ret, p)
  end.

Definition __parse_chunk (message : list Z) (p : http_parser) : option (Z * http_parser) :=
  chunk_loop (S (length message)) message p.

(** ** The interface *)

(** [parser] is not cleared first: the fields that are not listed keep what the
    memory held. *)
Definition http_parser_init (is_resp : bool) (p : http_parser) : http_parser :=
  mk_parser HPS_START_LINE (chunk_state p) 0 (chunk_offset p)
    (if is_resp then SIZE_MAX else 0) SIZE_MAX None None None None None []
    (namebuf p) [] 0 0 false false false false true false false is_resp.

(** [while (new_size < need) new_size *= 2;]: doubling 64 times from a positive
    size reaches every [size_t]. *)
Fixpoint grow (fuel : nat) (new_size need : Z) : option Z :=
  match fuel with
  | O => None
  | S fuel => if new_size <? need then grow fuel (u64 (new_size * 2)) need else Some new_size
  end.

(** The part of [http_parser_append_message] that makes room for [n] bytes. *)
Definition ensure_room (n : Z) (p : http_parser) (h : heap)
    : option (bool * http_parser * heap) :=
  let need := u64 (msgsize p + n + 1) in
  if bufsize p <? need then
    new_size ← grow 65 (Z.max HTTP_MSGBUF_INIT_SIZE (u64 (2 * bufsize p))) need;
    let '(ok, h) := malloc h in
    Some (ok, if ok then set_bufsize new_size p else p, h)
  else Some (true, p, h).

(** [memcpy(msgbuf + msgsize, buf, n); msgsize += n;] into the [bufsize]
    bytes of [msgbuf]. *)
Definition store_message (bytes : list Z) (p : http_parser) : option http_parser :=
  if msgsize p + len bytes <=? bufsize p then
    Some (set_msgsize (msgsize p + len bytes)
            (set_msgbuf (take (Z.to_nat (msgsize p)) (msgbuf p) ++ bytes ++
                         drop (Z.to_nat (msgsize p) + length bytes) (msgbuf p)) p))
  else None.

(** The message received so far. *)
Definition message (p : http_parser) : list Z := take (Z.to_nat (msgsize p)) (msgbuf p).

(** What happens when the header has just been completed. *)
Definition start_body (p : http_parser) : http_parser :=
  if chunked p then set_chunk_state CPS_CHUNK_DATA (set_chunk_offset (header_offset p) p)
  else if transfer_length p =? SIZE_MAX then set_transfer_length (content_length p) p
  else p.

(** The end of the message is at [total]: give back what follows it. *)
Definition finish (total n : Z) (p : http_parser) : Z * Z * http_parser :=
  (1, u64 (n - (msgsize p - total)), set_complete true (set_msgsize total p)).

Definition append_body (n : Z) (p : http_parser) : option (Z * Z * http_parser) :=
  if negb (transfer_length p =? SIZE_MAX) then
    let total := u64 (header_offset p + transfer_length p) in
    if total <=? msgsize p then Some (finish total n p) else Some (0, n, p)
  else if negb (chunked p) then Some (0, n, p)
  else
    '(ret, p) ←
      (if decide (chunk_state p = CPS_CHUNK_COMPLETE) then Some (1, p)
       else __parse_chunk (message p) p);
    if ret <=? 0 then Some (ret, n, p) else Some (finish (chunk_offset p) n p).

(** The result: the value returned, [*n], the parser and the allocator. *)
Definition http_parser_append_message (buf : list Z) (n : Z) (p : http_parser) (h : heap)
    : option (Z * Z * http_parser * heap) :=
  if complete p then Some (1, 0, p, h)
  else
    '(ok, p, h) ← ensure_room n p h;
    if negb ok then Some (-1, n, p, h)
    else
      bytes ← memcpy n buf;
      p ← store_message bytes p;
      '(ret, p, h) ←
        (if decide (header_state p = HPS_HEADER_COMPLETE) then Some (1, p, h)
         else
           '(ret, p, h) ← __parse_message_header (message p) p h;
           Some (ret, if ret <=? 0 then p else start_body p, h));
      if ret <=? 0 then Some (ret, n, p, h)
      else '(ret, n, p) ← append_body n p; Some (ret, n, p, h).

Definition http_parser_header_complete (p : http_parser) : bool :=
  bool_decide (header_state p = HPS_HEADER_COMPLETE).

(** The body and the parser, whose buffer gets a NUL after the message; [Some
    None] is the return value 1. *)
Definition http_parser_get_body (p : http_parser) : option (option (list Z) * http_parser) :=
  if complete p && bool_decide (header_state p = HPS_HEADER_COMPLETE) then
    if msgsize p <? bufsize p then
      let body := from (header_offset p) (message p) in
      let n := Z.to_nat (msgsize p) in
      Some (Some body, set_msgbuf (take n (msgbuf p) ++ NUL :: drop (S n) (msgbuf p)) p)
    else None
  else Some (None, p).

(** The five functions [http_parser_set_method], [..._uri], [..._version],
    [..._code], [..._phrase]: duplicate the string, then replace the old one. *)
Definition set_string (set : option (list Z) -> http_parser -> http_parser) (s : list Z)
    (p : http_parser) (h : heap) : Z * http_parser * heap :=
  let '(ok, h) := malloc h in
  if ok then (0, set (Some s) p, h) else (-1, p, h).

Definition http_parser_set_method := set_string set_method.
Definition http_parser_set_uri := set_string set_uri.
Definition http_parser_set_version := set_string set_version.
Definition http_parser_set_code := set_string set_code.
Definition http_parser_set_phrase := set_string set_phrase.

Definition http_parser_close_message (p : http_parser) : http_parser := set_complete true p.

(** ** Header cursors

    [cursor->next] is a position in the list: 0 is the list head, [k] the [k]-th
    line. *)
Record http_header_cursor := mk_cursor { next : nat }.

Definition http_header_cursor_init : http_header_cursor := mk_cursor 0.
Definition http_header_cursor_rewind (c : http_header_cursor) : http_header_cursor := mk_cursor 0.

(** The name and the value of a line, through the pointers the cursor returns:
    [buf], [name_len] bytes and [buf + name_len + 2], [value_len] bytes. *)
Definition line_name (l : header_line) : option (list Z) := memcpy (name_len l) (buf l).
Definition line_value (l : header_line) : option (list Z) :=
  if 0 <=? name_len l then memcpy (value_len l) (drop (Z.to_nat (name_len l + 2)) (buf l)) else None.

(** [Some None] is the return value 1 (no more headers). *)
Definition http_header_cursor_next (p : http_parser) (c : http_header_cursor)
    : option (option (list Z * list Z) * http_header_cursor) :=
  match header_list p !! next c with
  | Some line =>
      n ← line_name line; v ← line_value line;
      Some (Some (n, v), mk_cursor (S (next c)))
  | None => Some (None, c)
  end.

(** The loop of [http_header_cursor_find] over the lines after position [k]. *)
Fixpoint cursor_find_loop (name : list Z) (name_len : Z) (k : nat) (lines : list header_line)
    : option (option (list Z) * http_header_cursor) :=
  match lines with
  | [] => Some (None, mk_cursor k)
  | line :: lines =>
      if line_matches name name_len line then
        v ← line_value line; Some (Some v, mk_cursor (S k))
      else cursor_find_loop name name_len (S k) lines
  end.

Definition http_header_cursor_find (name : list Z) (name_len : Z) (p : http_parser)
    (c : http_header_cursor) : option (option (list Z) * http_header_cursor) :=
  cursor_find_loop name name_len (next c) (drop (next c) (header_list p)).

(** Remove the line the cursor is on and step back; 1 at the list head. *)
Definition http_header_cursor_erase (p : http_parser) (c : http_header_cursor)
    : Z * http_parser * http_header_cursor :=
  match next c with
  | O => (1, p, c)
  | S k =>
      (0, set_header_list (take k (header_list p) ++ drop (S k) (header_list p)) p, mk_cursor k)
  end.
