(* ===== verification/HttpScan.v ===== *)
(** * Facts about the scanning loops of the HTTP parser

    Each loop looks for the end of a line in the bytes received so far.  What
    makes the parser incremental is proved here, loop by loop: a decision taken
    on a prefix of the message is the decision on the whole message ([*_ext]);
    when the prefix does not decide, the element that is found later ends after
    that prefix ([*_need]); an element lies within the bytes given ([*_len]). *)

From S2P Require Import Prelude CLib HttpParser.

Local Open Scope Z_scope.

(** The limits are reasoned about as numbers, not unfolded. *)
#[global] Opaque HTTP_START_LINE_MAX HTTP_HEADER_VALUE_MAX HTTP_CHUNK_LINE_MAX
  HTTP_TRAILER_LINE_MAX HTTP_HEADER_NAME_MAX.

(** ** Lines ended by CR LF *)

Lemma scan_line_ext nul room ptr ext :
  scan_line nul room ptr <> Need -> scan_line nul room (ptr ++ ext) = scan_line nul room ptr.
Proof.
  revert ptr. induction room as [|room IH]; intros [|c ptr]; cbn; [done..|].
  destruct (c =? CR); [by destruct ptr|].
  destruct (nul && _); [done|]. intros H.
  rewrite IH; [done|]. by destruct (scan_line nul room ptr).
Qed.

Lemma scan_line_need nul room ptr ext l :
  scan_line nul room ptr = Need -> scan_line nul room (ptr ++ ext) = Line l ->
  len ptr < len l + 2.
Proof.
  revert ptr l. induction room as [|room IH]; intros [|c ptr] l; cbn; [done..|lia|].
  destruct (c =? CR) eqn:Ec.
  - destruct ptr as [|c2 ptr]; [cbn; lia|]. by destruct (c2 =? LF).
  - destruct (nul && _); [done|].
    destruct (scan_line nul room ptr) eqn:E1; [|done..]. intros _.
    destruct (scan_line nul room (ptr ++ ext)) as [| |l'] eqn:E2; intros; simplify_eq.
    specialize (IH _ _ E1 E2). cbn. lia.
Qed.

Lemma scan_line_len nul room ptr l : scan_line nul room ptr = Line l -> len l + 2 <= len ptr.
Proof.
  revert ptr l. induction room as [|room IH]; intros [|c ptr] l; cbn; [done..|].
  destruct (c =? CR).
  - destruct ptr as [|c2 ptr]; [done|]. destruct (c2 =? LF); intros; simplify_eq. cbn. lia.
  - destruct (nul && _); [done|]. destruct (scan_line nul room ptr) as [| |l'] eqn:E;
      intros; simplify_eq. specialize (IH _ _ E). cbn. lia.
Qed.

(** The line is the text before the first CR. *)
Lemma scan_line_found nul room l rest :
  (length l < room)%nat -> Forall (fun c => c <> CR /\ (nul = true -> c <> NUL)) l ->
  scan_line nul room (l ++ CR :: LF :: rest) = Line l.
Proof.
  intros Hr Hl. revert room Hr. induction Hl as [|c l [Hc Hn] Hl IH]; intros [|room] Hr;
    cbn in Hr |- *; [lia|done|lia|].
  replace (c =? CR) with false by lia.
  replace (nul && (c =? NUL)) with false by (destruct nul; [specialize (Hn eq_refl); cbn; lia|done]).
  rewrite IH by lia. done.
Qed.

Lemma starts_crlf_ext ptr ext : starts_crlf ptr = true -> starts_crlf (ptr ++ ext) = true.
Proof. by destruct ptr as [|c1 [|c2 ptr]]. Qed.

Lemma starts_crlf_len ptr : starts_crlf ptr = true -> 2 <= len ptr.
Proof. destruct ptr as [|c1 [|c2 ptr]]; cbn; [done..|lia]. Qed.

(** More bytes make a blank line of something only when there was at most the CR. *)
Lemma starts_crlf_new ptr ext :
  starts_crlf ptr = false -> starts_crlf (ptr ++ ext) = true -> ptr = [] \/ ptr = [CR].
Proof.
  destruct ptr as [|c1 [|c2 ptr]]; cbn; [auto| |congruence].
  destruct ext as [|c2 ext]; [done|]. intros _ H. right. f_equal. lia.
Qed.

(** ** Header names *)

(** The name [__parse_header_name] reads, without the buffer. *)
Inductive name_result := NNeed | NBad | NName (name : list Z).

Fixpoint scan_name (room : nat) (ptr : list Z) : name_result :=
  match room with
  | O => NBad
  | S room =>
      match ptr with
      | [] => NNeed
      | c :: rest =>
          if c =? COLON then NName []
          else if schar c <=? 0 then NBad
          else match scan_name room rest with NName l => NName (c :: l) | r => r end
      end
  end.

Lemma scan_name_ext room ptr ext :
  scan_name room ptr <> NNeed -> scan_name room (ptr ++ ext) = scan_name room ptr.
Proof.
  revert ptr. induction room as [|room IH]; intros [|c ptr]; cbn; [done..|].
  destruct (c =? COLON); [done|]. destruct (schar c <=? 0); [done|]. intros H.
  rewrite IH; [done|]. by destruct (scan_name room ptr).
Qed.

Lemma scan_name_need room ptr ext nm :
  scan_name room ptr = NNeed -> scan_name room (ptr ++ ext) = NName nm -> len ptr <= len nm.
Proof.
  revert ptr nm. induction room as [|room IH]; intros [|c ptr] nm; cbn; [done..|lia|].
  destruct (c =? COLON); [done|]. destruct (schar c <=? 0); [done|].
  destruct (scan_name room ptr) eqn:E1; [|done..]. intros _.
  destruct (scan_name room (ptr ++ ext)) eqn:E2; intros; simplify_eq.
  specialize (IH _ _ E1 E2). cbn. lia.
Qed.

Lemma scan_name_len room ptr nm : scan_name room ptr = NName nm -> len nm + 1 <= len ptr.
Proof.
  revert ptr nm. induction room as [|room IH]; intros [|c ptr] nm; cbn; [done..|].
  destruct (c =? COLON); [intros; simplify_eq; cbn; lia|]. destruct (schar c <=? 0); [done|].
  destruct (scan_name room ptr) eqn:E; intros; simplify_eq. specialize (IH _ _ E). cbn. lia.
Qed.

Lemma scan_name_found room nm rest :
  (length nm < room)%nat -> Forall (fun c => c <> COLON /\ 0 < schar c) nm ->
  scan_name room (nm ++ COLON :: rest) = NName nm.
Proof.
  intros Hr Hl. revert room Hr. induction Hl as [|c l [Hc Hn] Hl IH]; intros [|room] Hr;
    cbn in Hr |- *; [lia|done|lia|].
  replace (c =? COLON) with false by lia. replace (schar c <=? 0) with false by lia.
  rewrite IH by lia. done.
Qed.

(** The C string a buffer holds. *)
Definition cstring (s : list Z) : option (list Z) :=
  n ← strlen s; Some (take (Z.to_nat n) s).
#[global] Arguments cstring : simpl never.

Lemma strlen_bounds s n : strlen s = Some n -> 0 <= n < len s.
Proof.
  revert n. induction s as [|c s IH]; intros n; cbn; [done|].
  destruct (c =? NUL); [intros; simplify_eq; lia|].
  destruct (strlen s) as [k|]; cbn; intros; simplify_eq. specialize (IH k eq_refl). lia.
Qed.

Lemma cstring_cons c s : cstring (c :: s) = if c =? NUL then Some [] else (c ::.) <$> cstring s.
Proof.
  unfold cstring. cbn. destruct (c =? NUL); [done|].
  destruct (strlen s) as [n|] eqn:E; [|done]. apply strlen_bounds in E. cbn.
  replace (Z.to_nat (n + 1)) with (S (Z.to_nat n)) by lia. done.
Qed.

Lemma cstring_strlen s nm : cstring s = Some nm -> strlen s = Some (len nm).
Proof.
  unfold cstring. destruct (strlen s) as [n|] eqn:E; [|done]. intros; simplify_eq/=.
  apply strlen_bounds in E. rewrite length_take. f_equal. lia.
Qed.

Lemma cstring_prefix s nm : cstring s = Some nm -> take (length nm) s = nm.
Proof.
  unfold cstring. destruct (strlen s) as [n|] eqn:E; [|done]. intros; simplify_eq/=.
  apply strlen_bounds in E. rewrite length_take. f_equal. lia.
Qed.

Lemma write_mid (a b : list Z) x c :
  write (len a) [c] (a ++ x :: b) = Some (a ++ c :: b).
Proof.
  unfold write. rewrite length_app. cbn [length].
  replace (_ && _) with true by lia. rewrite Nat2Z.id, take_app_length.
  rewrite (drop_app_ge a) by lia. by replace (length a + 1 - length a)%nat with 1%nat by lia.
Qed.

(** The loop of [__parse_header_name] runs inside [namebuf], whatever it holds,
    and leaves the name there as a C string. *)
Lemma header_name_loop_ok ptr : forall a b,
  (length a + length b = HTTP_HEADER_NAME_MAX)%nat ->
  exists r i nb, header_name_loop (length a) ptr (a ++ b) = Some (r, i, nb) /\
    length nb = HTTP_HEADER_NAME_MAX /\
    match scan_name (length b) ptr with
    | NNeed => r = 0
    | NBad => r = -2
    | NName nm => r = 1 /\ i = (length a + length nm)%nat /\
        exists b', nb = a ++ b' /\ cstring b' = Some nm
    end.
Proof.
  induction ptr as [|c ptr IH]; intros a b Hl; cbn [header_name_loop].
  - destruct b as [|x b]; cbn [length scan_name] in Hl |- *.
    + replace (length a =? HTTP_HEADER_NAME_MAX)%nat with true by lia.
      eexists _, _, _. split; [done|]. rewrite length_app. split; [cbn; lia|done].
    + replace (length a =? HTTP_HEADER_NAME_MAX)%nat with false by lia.
      eexists _, _, _. split; [done|]. rewrite length_app. split; [cbn; lia|done].
  - destruct b as [|x b]; cbn [length scan_name] in Hl |- *.
    { replace (length a <? HTTP_HEADER_NAME_MAX)%nat with false by lia.
      eexists _, _, _. split; [done|]. rewrite length_app. split; [cbn; lia|done]. }
    replace (length a <? HTTP_HEADER_NAME_MAX)%nat with true by lia.
    rewrite !write_mid. cbn [mbind option_bind]. destruct (c =? COLON).
    { eexists _, _, _. split; [done|]. rewrite length_app. cbn. split; [lia|].
      split; [done|]. split; [lia|]. by exists (NUL :: b). }
    destruct (schar c <=? 0) eqn:Ec.
    { eexists _, _, _. split; [done|]. rewrite length_app. split; [cbn; lia|done]. }
    destruct (IH (a ++ [c]) b) as (r & i & nb & E & Hnb & H); [rewrite length_app; cbn; lia|].
    rewrite length_app, <- app_assoc, Nat.add_comm in E. cbn in E. rewrite E.
    eexists _, _, _. split; [done|]. split; [done|].
    destruct (scan_name (length b) ptr) as [| |nm]; [done..|].
    destruct H as (-> & -> & b' & -> & Hb'). split; [done|].
    rewrite length_app. cbn. split; [lia|]. exists (c :: b').
    rewrite <- app_assoc. split; [done|]. rewrite cstring_cons, Hb'.
    unfold schar in Ec. by replace (c =? NUL) with false by (bsplit; lia).
Qed.

(** ** Header values *)

Lemma header_value_loop_ext ptr : forall skip rv ext,
  header_value_loop skip ptr rv <> VNeed ->
  header_value_loop skip (ptr ++ ext) rv =
    match header_value_loop skip ptr rv with VDone v rest => VDone v (rest ++ ext) | r => r end.
Proof.
  remember (length ptr) as n eqn:Hn. revert ptr Hn.
  induction n as [n IH] using lt_wf_ind. intros ptr Hn skip rv ext.
  destruct ptr as [|c ptr]; [done|]. cbn [header_value_loop app].
  destruct (skip && is_blank c); [intros H; apply (IH (length ptr)); cbn in *; [lia|done..]|].
  destruct (length rv =? HTTP_HEADER_VALUE_MAX)%nat; [done|].
  destruct ptr as [|c2 ptr2]; [done|]. cbn [app]. destruct (c =? CR).
  - destruct (c2 =? LF); [|done]. destruct ptr2 as [|c3 ptr3]; [done|]. cbn [app].
    destruct (is_blank c3); [|done].
    intros H. apply (IH (length ptr3)); cbn in *; [lia|done..].
  - destruct (schar c <=? 0); [done|].
    intros H. apply (IH (length (c2 :: ptr2)) ltac:(cbn in *; lia) (c2 :: ptr2) eq_refl), H.
Qed.

Lemma header_value_loop_len ptr : forall skip rv v rest,
  header_value_loop skip ptr rv = VDone v rest -> len rest + 2 <= len ptr.
Proof.
  remember (length ptr) as n eqn:Hn. revert ptr Hn.
  induction n as [n IH] using lt_wf_ind. intros ptr Hn skip rv v rest.
  destruct ptr as [|c ptr]; [done|]. cbn [header_value_loop].
  destruct (skip && is_blank c).
  { intros H. eapply (IH (length ptr)) in H; cbn in *; [lia..]. }
  destruct (length rv =? HTTP_HEADER_VALUE_MAX)%nat; [done|].
  destruct ptr as [|c2 ptr2]; [done|]. destruct (c =? CR).
  - destruct (c2 =? LF); [|done]. destruct ptr2 as [|c3 ptr3]; [done|].
    destruct (is_blank c3); [|intros; simplify_eq; cbn; lia].
    intros H. eapply (IH (length ptr3)) in H; cbn in *; [lia..].
  - destruct (schar c <=? 0); [done|].
    intros H. eapply (IH (length (c2 :: ptr2))) in H; cbn in *; [lia..].
Qed.

Lemma header_value_loop_need ptr : forall skip rv ext v rest,
  header_value_loop skip ptr rv = VNeed ->
  header_value_loop skip (ptr ++ ext) rv = VDone v rest -> len rest <= len ext.
Proof.
  pose proof header_value_loop_len as Hlen.
  remember (length ptr) as n eqn:Hn. revert ptr Hn.
  induction n as [n IH] using lt_wf_ind. intros ptr Hn skip rv ext v rest.
  destruct ptr as [|c ptr]; [cbn; intros _ H%Hlen; lia|]. cbn [header_value_loop app].
  destruct (skip && is_blank c); [apply (IH (length ptr)); cbn in *; lia|].
  destruct (length rv =? HTTP_HEADER_VALUE_MAX)%nat; [done|].
  destruct ptr as [|c2 ptr2]; cbn [app].
  { intros _. destruct ext as [|c2 ext]; [done|]. destruct (c =? CR).
    - destruct (c2 =? LF); [|done]. destruct ext as [|c3 ext]; [done|].
      destruct (is_blank c3); [intros H%Hlen; cbn; lia|intros; simplify_eq; cbn; lia].
    - destruct (schar c <=? 0); [done|]. intros H%Hlen. cbn in *. lia. }
  destruct (c =? CR).
  - destruct (c2 =? LF); [|done]. destruct ptr2 as [|c3 ptr3]; cbn [app].
    { intros _. destruct ext as [|c3 ext]; [done|].
      destruct (is_blank c3); [intros H%Hlen; cbn; lia|intros; simplify_eq; cbn; lia]. }
    destruct (is_blank c3); [|done]. apply (IH (length ptr3)); cbn in *; lia.
  - destruct (schar c <=? 0); [done|].
    apply (IH (length (c2 :: ptr2)) ltac:(cbn in *; lia) (c2 :: ptr2) eq_refl).
Qed.
