(* ===== verification/HttpHeader.v ===== *)
(** * The header of a message, parsed piece by piece

    One turn of [__parse_message_header] is characterised by [good_turn]: it
    stays within its buffers, a decision on a prefix is final, an undecided turn
    changes nothing but the scratch contents of [namebuf], and what completes it
    lies behind the prefix.  The loop inherits these facts; its consequence is
    that parsing a prefix and resuming later is parsing the whole at once. *)

From S2P Require Import Prelude CLib HttpParser HttpScan.

Local Open Scope Z_scope.

(** ** Invariants *)

(** A body length: unknown, or a number of at most 15 digits. *)
Definition length_ok (n : Z) : Prop := n = SIZE_MAX \/ 0 <= n < 10 ^ 15.

(** A stored header line: [name: value\r\n], perhaps followed by the rest of a
    longer value it replaced. *)
Definition line_ok (l : header_line) : Prop :=
  exists n v pad, buf l = line_bytes n v ++ pad /\ name_len l = len n /\ value_len l = len v /\
    len n < 2 ^ 31 /\ len v < 2 ^ 31.

(** The part of the parser the header functions rely on. *)
Record hok (p : http_parser) : Prop := mk_hok {
  hok_namebuf : length (namebuf p) = HTTP_HEADER_NAME_MAX;
  hok_name : header_state p = HPS_HEADER_VALUE -> is_Some (cstring (namebuf p));
  hok_offset : 0 <= header_offset p;
  hok_content : length_ok (content_length p);
  hok_transfer : length_ok (transfer_length p);
  hok_lines : Forall line_ok (header_list p) }.

(** Two parsers that differ at most in what a C program cannot tell apart: the
    contents of [namebuf], except for the name it holds while the value of a
    header is awaited. *)
Definition hsim (p q : http_parser) : Prop :=
  set_namebuf [] p = set_namebuf [] q /\ hok p /\ hok q /\
  (header_state p = HPS_HEADER_VALUE -> cstring (namebuf p) = cstring (namebuf q)).

(** The header functions do not touch the message buffer or the final flags. *)
Definition hframe (p q : http_parser) : Prop :=
  msgbuf q = msgbuf p /\ msgsize q = msgsize p /\ bufsize q = bufsize p /\
  complete q = complete p /\ is_resp q = is_resp p.

Lemma hframe_trans p q r : hframe p q -> hframe q r -> hframe p r.
Proof. unfold hframe. intuition congruence. Qed.

Lemma hsim_refl p : hok p -> hsim p p.
Proof. by intros. Qed.
Lemma hsim_trans p q r : hsim p q -> hsim q r -> hsim p r.
Proof.
  intros (E1 & H1 & H2 & N1) (E2 & _ & H3 & N2). split_and!; [congruence|done..|].
  intros Hs. rewrite N1 by done. apply N2. apply (f_equal header_state) in E1. cbn in E1. congruence.
Qed.
Lemma hsim_sym p q : hsim p q -> hsim q p.
Proof.
  intros (E & H1 & H2 & Hn). split; [by symmetry|]. split; [done|]. split; [done|].
  intros Hs. symmetry. apply Hn. apply (f_equal header_state) in E. cbn in E. by rewrite E.
Qed.
Lemma hsim_inv p q : hsim p q -> q = set_namebuf (namebuf q) p.
Proof.
  destruct p, q. intros [E _]. unfold set_namebuf in *. cbn in *. injection E. intros. by subst.
Qed.

(** A parser that differs in [namebuf] only is similar when the name is the same. *)
Lemma hsim_intro nb p :
  hok p -> length nb = HTTP_HEADER_NAME_MAX ->
  (header_state p = HPS_HEADER_VALUE -> cstring nb = cstring (namebuf p)) -> hsim p (set_namebuf nb p).
Proof.
  intros Hok Hl Hc. split; [done|]. split; [done|]. split; [|by symmetry; auto].
  destruct Hok. constructor; cbn; auto. intros Hs. rewrite Hc by done. auto.
Qed.

(** ** Header lines *)

Lemma strncasecmp_take n a b : strncasecmp_eq n (take n a) b = strncasecmp_eq n a b.
Proof.
  revert a b. induction n as [|n IH]; intros a b; [done|]. destruct a as [|x a]; cbn; [|by rewrite IH].
  specialize (IH [] (tl b)). by rewrite take_nil in IH.
Qed.

Lemma check_header_name nb nm value vl p :
  cstring nb = Some nm ->
  __check_message_header nb (len nm) value vl p = __check_message_header nm (len nm) value vl p.
Proof.
  intros Hc. apply cstring_prefix in Hc.
  assert (H : forall k lit, len nm = Z.of_nat k -> strncasecmp_eq k nb lit = strncasecmp_eq k nm lit).
  { intros k lit Hk. rewrite <- strncasecmp_take. f_equal.
    replace k with (length nm) by lia. done. }
  unfold __check_message_header.
  repeat (match goal with
  | |- context [len nm =? ?k] => destruct (Z.eqb_spec (len nm) k) as [Ek|]; [rewrite !H by done; done|]
  end). done.
Qed.

Lemma atol_digits_bound s : forall acc, 0 <= acc ->
  0 <= atol_digits acc s < (acc + 1) * 10 ^ len s.
Proof.
  induction s as [|c s IH]; intros acc Ha; [cbn; lia|]. cbn [atol_digits].
  assert (Hp : 10 ^ len (c :: s) = 10 * 10 ^ len s) by (cbn [length]; rewrite Nat2Z.inj_succ, Z.pow_succ_r; lia).
  rewrite Hp. assert (0 < 10 ^ len s) by (apply Z.pow_pos_nonneg; lia).
  destruct (is_digit c) eqn:Ed; [|nia]. unfold is_digit in Ed.
  specialize (IH (10 * acc + (c - 48)) ltac:(lia)). nia.
Qed.

(** The headers the parser looks at only change its flags and its lengths. *)
Lemma check_header_ok nm nl value v p :
  0 <= len v -> (exists w, value = v ++ w /\ w <> []) -> length_ok (content_length p) ->
  exists p', __check_message_header nm nl value (len v) p = Some p' /\
    header_state p' = header_state p /\ header_offset p' = header_offset p /\
    namebuf p' = namebuf p /\ header_list p' = header_list p /\
    length_ok (content_length p') /\ transfer_length p' = transfer_length p /\ hframe p p' /\
    (forall nb, __check_message_header nm nl value (len v) (set_namebuf nb p) = Some (set_namebuf nb p')).
Proof.
  intros _ (w & -> & Hw) Hc. unfold __check_message_header.
  assert (Hv : exists c, (v ++ w) !! 0%nat = Some c) by (destruct v, w; [done|eauto..]).
  assert (Hm : memcpy (len v) (v ++ w) = Some v).
  { unfold memcpy. rewrite length_app. replace (_ && _) with true by lia.
    by rewrite Nat2Z.id, take_app_length. }
  destruct Hv as [c Hv]. rewrite Hv, Hm. cbn [mbind option_bind].
  assert (Hb : len v <=? 15 = true -> 0 <= atol_digits 0 v < 10 ^ 15).
  { intros Hl. pose proof (atol_digits_bound v 0 ltac:(lia)) as Hb.
    assert (10 ^ len v <= 10 ^ 15) by (apply Z.pow_le_mono_r; lia). lia. }
  repeat match goal with |- context [if ?b then _ else _] =>
    match b with context [if _ then _ else _] => fail 1 | _ => destruct b eqn:? end end;
    (eexists; split; [reflexivity|]); cbn; unfold hframe; cbn; repeat split; auto;
    right; apply Hb; by destruct (is_digit c).
Qed.

Lemma memcpy_prefix nb nm : cstring nb = Some nm -> memcpy (len nm) nb = Some nm.
Proof.
  intros Hc. pose proof (cstring_strlen _ _ Hc) as Hl%strlen_bounds. unfold memcpy.
  replace (_ && _) with true by lia. by rewrite Nat2Z.id, (cstring_prefix _ _ Hc).
Qed.

Lemma memcpy_app (v w : list Z) : memcpy (len v) (v ++ w) = Some v.
Proof.
  unfold memcpy. rewrite length_app. replace (_ && _) with true by lia.
  by rewrite Nat2Z.id, take_app_length.
Qed.

(** What [http_parser_add_header] does with the name in [namebuf] and a value
    followed by its NUL. *)
Lemma add_header_ok nb nm v p h :
  cstring nb = Some nm -> len nm < 2 ^ 31 -> len v < 2 ^ 31 -> length_ok (content_length p) ->
  Forall line_ok (header_list p) ->
  exists r p' h', http_parser_add_header nb (len nm) (v ++ [NUL]) (len v) p h = Some (r, p', h') /\
    (r = 0 \/ r = -1) /\ (h = [] -> r = 0 /\ h' = []) /\
    header_state p' = header_state p /\ header_offset p' = header_offset p /\
    namebuf p' = namebuf p /\ Forall line_ok (header_list p') /\
    length_ok (content_length p') /\ transfer_length p' = transfer_length p /\ hframe p p' /\
    (forall nb' nb2, cstring nb' = Some nm ->
       http_parser_add_header nb' (len nm) (v ++ [NUL]) (len v) (set_namebuf nb2 p) h =
       Some (r, set_namebuf nb2 p', h')).
Proof.
  intros Hn Hl1 Hl2 Hc Hlines. unfold http_parser_add_header, __add_message_header.
  destruct (malloc h) as [ok h'] eqn:Eh.
  assert (Hh : h = [] -> ok = true /\ h' = []) by (intros ->; cbn in Eh; by simplify_eq).
  destruct ok.
  - rewrite (memcpy_prefix _ _ Hn), memcpy_app. cbn [mbind option_bind].
    change (0 <=? 0) with true. cbv iota. set (line := mk_line _ _ _ _).
    destruct (check_header_ok nm (len nm) (v ++ [NUL]) v (set_header_list (header_list p ++ [line]) p))
      as (p' & E & H1 & H2 & H3 & H4 & H5 & H6 & H7 & H8); [lia|by eexists|done|].
    rewrite (check_header_name _ _ _ _ _ Hn), E. cbn [mbind option_bind].
    exists 0, p', h'. split_and!; try done; [auto|by intros [_ ->]%Hh| |].
    + rewrite H4. apply Forall_app. split; [done|]. apply Forall_singleton.
      exists nm, v, []. cbn. rewrite app_nil_r, !s32_small by lia. done.
    + intros nb' nb2 Hn'. rewrite (memcpy_prefix _ _ Hn'). cbn [mbind option_bind].
      change (0 <=? 0) with true. cbv iota. rewrite (check_header_name _ _ _ _ _ Hn').
      change (set_header_list _ (set_namebuf nb2 p))
        with (set_namebuf nb2 (set_header_list (header_list p ++ [line]) p)).
      by rewrite H8.
  - cbn. exists (-1), p, h'. split_and!; try done; [auto|by intros [? _]%Hh].
Qed.

(** ** One turn *)

(** [header_step] on the bytes that are left. *)
Definition turn (ptr : list Z) (p : http_parser) (h : heap) : option (Z * http_parser * heap) :=
  match header_state p with
  | HPS_START_LINE => Some (__parse_start_line ptr p h)
  | HPS_HEADER_VALUE => __parse_header_value ptr p h
  | _ => '(ret, p) ← __parse_header_name ptr p; Some (ret, p, h)
  end.

Record good_turn (ptr : list Z) (p : http_parser) (h : heap)
    (r : Z) (p' : http_parser) (h' : heap) : Prop := mk_good {
  good_run : turn ptr p h = Some (r, p', h');
  good_hok : hok p';
  good_frame : hframe p p';
  good_ret : r = -2 \/ r = -1 \/ r = 0 \/ r = 1;
  good_mem : h = [] -> h' = [] /\ r <> -1;
  good_stuck : r = 0 -> h' = h /\ hsim p p';
  good_state : r <> 1 -> header_state p' = header_state p /\ header_offset p' = header_offset p;
  good_moves : r = 1 -> header_offset p < header_offset p' <= header_offset p + len ptr;
  good_ext : r <> 0 -> forall ext, turn (ptr ++ ext) p h = Some (r, p', h');
  good_need : r = 0 -> forall ext p2 h2, turn (ptr ++ ext) p h = Some (1, p2, h2) ->
    header_offset p + len ptr <= header_offset p2 /\
    (header_state p2 = HPS_HEADER_COMPLETE -> header_offset p + len ptr < header_offset p2);
  good_sim : forall q, hsim p q ->
    exists q', turn ptr q h = Some (r, q', h') /\ hsim p' q' }.

(** A turn that waits or fails without touching the parser. *)
Lemma good_idle ptr p h r :
  hok p -> turn ptr p h = Some (r, p, h) -> (r = -2 \/ r = 0) ->
  (r <> 0 -> forall ext, turn (ptr ++ ext) p h = Some (r, p, h)) ->
  (r = 0 -> forall ext p2 h2, turn (ptr ++ ext) p h = Some (1, p2, h2) ->
    header_offset p + len ptr <= header_offset p2 /\
    (header_state p2 = HPS_HEADER_COMPLETE -> header_offset p + len ptr < header_offset p2)) ->
  (forall q, hsim p q -> turn ptr q h = Some (r, q, h)) ->
  good_turn ptr p h r p h.
Proof.
  intros Hok Hrun Hr Hext Hneed Hsim.
  constructor; [done|done|done|lia|intros; split; [done|lia]|done|done|lia|done|done|].
  intros q Hq. exists q. split; [auto|done].
Qed.

(** *** The start line *)

(** The two functions that record the start line. *)
Lemma match_line_ok p1 p2 p3 p h :
  hok p ->
  exists r p' h',
    (if is_resp p then __match_status_line p1 p2 p3 p h else __match_request_line p1 p2 p3 p h)
      = (r, p', h') /\
    (r = 0 \/ r = -1) /\ (h = [] -> h' = [] /\ r = 0) /\ hok p' /\ hframe p p' /\
    header_state p' = header_state p /\ header_offset p' = header_offset p /\
    (forall nb,
      (if is_resp p then __match_status_line p1 p2 p3 (set_namebuf nb p) h
       else __match_request_line p1 p2 p3 (set_namebuf nb p) h) = (r, set_namebuf nb p', h')).
Proof.
  intros []. assert (length_ok 0) by (right; lia).
  unfold __match_status_line, __match_request_line, check_version.
  destruct (malloc h) as [ok1 h1] eqn:E1. destruct (malloc h1) as [ok2 h2] eqn:E2.
  destruct (malloc h2) as [ok3 h3] eqn:E3.
  destruct (is_resp p), (old_version p1), (old_version p3), (no_body_code p2), ok1, ok2, ok3;
    (eexists _, _, _; split; [reflexivity|]); (split; [auto|]);
    (split; [intros ->; cbn in E1; simplify_eq; cbn in E2; simplify_eq; cbn in E3; by simplify_eq|]);
    (split; [by constructor|]); unfold hframe; cbn; auto 10.
Qed.

Lemma set_start_ok p n :
  hok p -> 0 <= n -> hok (set_header_offset (header_offset p + n) p).
Proof. intros [] ?. constructor; cbn; auto. lia. Qed.

Lemma set_state_ok st p : st <> HPS_HEADER_VALUE -> hok p -> hok (set_header_state st p).
Proof. intros ? []. by constructor. Qed.

Lemma good_start_line ptr p h :
  hok p -> header_state p = HPS_START_LINE -> exists r p' h', good_turn ptr p h r p' h'.
Proof.
  intros Hok Hs.
  assert (HT : forall ptr, turn ptr p h = Some (__parse_start_line ptr p h)) by (unfold turn; by rewrite Hs).
  assert (HS : forall nb, turn ptr (set_namebuf nb p) h = Some (__parse_start_line ptr (set_namebuf nb p) h))
    by (intros; unfold turn; cbn; by rewrite Hs).
  unfold __parse_start_line in HT, HS.
  destruct (starts_crlf ptr) eqn:Ecr.
  { pose proof (starts_crlf_len _ Ecr).
    exists 1, (set_header_offset (header_offset p + 2) p), h.
    constructor; cbn; auto; try lia; unfold hframe; try done.
    - rewrite HT, Ecr. done.
    - by apply set_start_ok.
    - intros _ ext. rewrite HT, (starts_crlf_ext _ _ Ecr). done.
    - intros q Hq. pose proof (hsim_inv _ _ Hq) as ->.
      exists (set_namebuf (namebuf q) (set_header_offset (header_offset p + 2) p)).
      split; [by rewrite HS|]. destruct Hq as (_ & _ & [Hl _ _ _ _ _] & _). cbn in Hl.
      apply hsim_intro; [by apply set_start_ok|done|]. cbn. by rewrite Hs. }
  assert (Hnocr : scan_line true HTTP_START_LINE_MAX ptr <> Need ->
                  forall ext, starts_crlf (ptr ++ ext) = false).
  { intros Hne ext. destruct (starts_crlf (ptr ++ ext)) eqn:E2; [|done].
    by destruct (starts_crlf_new _ _ Ecr E2) as [-> | ->]. }
  destruct (scan_line true HTTP_START_LINE_MAX ptr) as [| |l] eqn:El.
  - exists 0, p, h. apply good_idle; [done| |auto|done| |].
    + rewrite HT, Ecr, El. done.
    + intros _ ext p2 h2. rewrite HT. destruct (starts_crlf (ptr ++ ext)) eqn:Ecr2.
      { intros; simplify_eq. cbn. rewrite Hs. destruct (starts_crlf_new _ _ Ecr Ecr2) as [-> | ->];
          cbn; split; [lia|done|lia|done]. }
      destruct (scan_line true HTTP_START_LINE_MAX (ptr ++ ext)) as [| |l] eqn:El2; [done..|].
      pose proof (scan_line_need _ _ _ _ _ El El2).
      destruct (strchr_split SP l) as [[p1 rest]|]; [|done].
      destruct (strchr_split SP rest) as [[p2' p3]|]; [|done].
      destruct (match_line_ok p1 p2' p3 p h Hok) as (r & p' & h' & -> & _ & _ & _ & _ & Hst & Ho & _).
      destruct (r <? 0); [done|]. intros; simplify_eq. cbn. rewrite Ho. split; [lia|done].
    + intros q Hq. rewrite (hsim_inv _ _ Hq), HS. done.
  - exists (-2), p, h. apply good_idle; [done| |auto| |done|].
    + rewrite HT, Ecr, El. done.
    + intros _ ext. rewrite HT, Hnocr, scan_line_ext, El; first [done | by rewrite El].
    + intros q Hq. rewrite (hsim_inv _ _ Hq), HS. done.
  - specialize (Hnocr ltac:(done)).
    assert (Hext : forall ext, scan_line true HTTP_START_LINE_MAX (ptr ++ ext) = Line l)
      by (intros; rewrite scan_line_ext; [done|by rewrite El]).
    pose proof (scan_line_len _ _ _ _ El).
    destruct (strchr_split SP l) as [[p1 rest]|] eqn:E1;
      [destruct (strchr_split SP rest) as [[p2 p3]|] eqn:E2|].
    2, 3: exists (-2), p, h; (apply good_idle; [done| |auto| |done|]);
      [by rewrite HT, Ecr, El, E1, ?E2|intros; by rewrite HT, Hnocr, Hext, E1, ?E2
      |intros q Hq; by rewrite (hsim_inv _ _ Hq), HS, ?E1, ?E2].
    destruct (match_line_ok p1 p2 p3 p h Hok)
      as (r & p' & h' & Er & Hr & Hm & Hok' & Hf & Hst & Ho & Hnb).
    destruct Hr as [-> | ->].
    + set (p4 := set_header_state HPS_HEADER_NAME (set_header_offset (header_offset p' + len l + 2) p')).
      assert (Hok4 : hok p4).
      { apply set_state_ok; [done|]. rewrite <- Z.add_assoc. apply set_start_ok; [done|lia]. }
      exists 1, p4, h'. constructor.
      * by rewrite HT, Ecr, El, E1, E2, Er.
      * done.
      * done.
      * auto.
      * intros [-> _]%Hm. done.
      * lia.
      * done.
      * cbn. lia.
      * intros _ ext. by rewrite HT, Hnocr, Hext, E1, E2, Er.
      * lia.
      * intros q Hq. exists (set_namebuf (namebuf q) p4).
        rewrite (hsim_inv _ _ Hq), HS, ?E1, ?E2. cbn [is_resp set_namebuf]. rewrite Hnb. split; [done|].
        apply hsim_intro; [done|apply Hq|done].
    + exists (-1), p', h'. constructor.
      * by rewrite HT, Ecr, El, E1, E2, Er.
      * done.
      * done.
      * auto.
      * intros [_ ?]%Hm. done.
      * lia.
      * done.
      * lia.
      * intros _ ext. by rewrite HT, Hnocr, Hext, E1, E2, Er.
      * lia.
      * intros q Hq. exists (set_namebuf (namebuf q) p').
        rewrite (hsim_inv _ _ Hq), HS, ?E1, ?E2. cbn [is_resp set_namebuf]. rewrite Hnb. split; [done|].
        apply hsim_intro; [done|apply Hq|]. by rewrite Hst, Hs.
Qed.

(** *** The name of a header *)

Lemma parse_header_name_ok ptr p :
  hok p -> starts_crlf ptr = false ->
  exists nb, length nb = HTTP_HEADER_NAME_MAX /\
    match scan_name HTTP_HEADER_NAME_MAX ptr with
    | NNeed => __parse_header_name ptr p = Some (0, set_namebuf nb p)
    | NBad => __parse_header_name ptr p = Some (-2, set_namebuf nb p)
    | NName nm => cstring nb = Some nm /\
        __parse_header_name ptr p = Some (1, set_header_state HPS_HEADER_VALUE
          (set_header_offset (header_offset p + (len nm + 1)) (set_namebuf nb p)))
    end.
Proof.
  intros [Hl _ _ _ _ _] Ecr. unfold __parse_header_name. rewrite Ecr.
  destruct (header_name_loop_ok ptr [] (namebuf p) Hl) as (r & i & nb & E & Hnb & H).
  cbn [app length] in E. rewrite E. cbn [mbind option_bind]. exists nb. split; [done|].
  rewrite Hl in H. destruct (scan_name HTTP_HEADER_NAME_MAX ptr) as [| |nm]; [by subst..|].
  destruct H as (-> & -> & b' & -> & Hb). split; [done|]. cbn [app].
  change (1 =? 1) with true. cbv iota. cbn [header_offset set_namebuf].
  by rewrite Z.add_assoc.
Qed.

Lemma header_name_loop_ext ptr ext : forall i nb r j nb',
  header_name_loop i ptr nb = Some (r, j, nb') -> r <> 0 ->
  header_name_loop i (ptr ++ ext) nb = Some (r, j, nb').
Proof.
  induction ptr as [|c ptr IH]; intros i nb r j nb'; cbn [header_name_loop app].
  - destruct (Nat.eqb_spec i HTTP_HEADER_NAME_MAX); intros; simplify_eq.
    destruct ext as [|c ext]; cbn [header_name_loop].
    + by rewrite Nat.eqb_refl.
    + by rewrite Nat.ltb_irrefl.
  - destruct (i <? HTTP_HEADER_NAME_MAX)%nat; [|done].
    destruct (c =? COLON); [done|]. destruct (schar c <=? 0); [done|].
    destruct (write _ _ _) as [nb1|]; [|done]. cbn. apply IH.
Qed.

Lemma parse_header_name_ext ptr ext p r p' :
  __parse_header_name ptr p = Some (r, p') -> r <> 0 -> starts_crlf (ptr ++ ext) = starts_crlf ptr ->
  __parse_header_name (ptr ++ ext) p = Some (r, p').
Proof.
  intros H Hr Ecr. unfold __parse_header_name in *. rewrite Ecr. destruct (starts_crlf ptr); [done|].
  destruct (header_name_loop 0 ptr (namebuf p)) as [[[r0 i] nb]|] eqn:E; [|done].
  cbn [mbind option_bind] in H. destruct (Z.eqb_spec r0 0) as [->|Hr0]; [cbn in H; simplify_eq; done|].
  rewrite (header_name_loop_ext _ _ _ _ _ _ _ E Hr0). done.
Qed.

Lemma good_header_name ptr p h :
  hok p -> header_state p = HPS_HEADER_NAME -> exists r p' h', good_turn ptr p h r p' h'.
Proof.
  intros Hok Hs.
  assert (HT : forall ptr q, header_state q = HPS_HEADER_NAME ->
      turn ptr q h = '(ret, p) ← __parse_header_name ptr q; Some (ret, p, h))
    by (intros; unfold turn; by case_match).
  assert (Hq : forall q, hsim p q -> header_state q = HPS_HEADER_NAME /\ header_offset q = header_offset p).
  { intros q Hq. by rewrite (hsim_inv _ _ Hq). }
  destruct (starts_crlf ptr) eqn:Ecr.
  { pose proof (starts_crlf_len _ Ecr).
    set (p4 := set_header_state HPS_HEADER_COMPLETE (set_header_offset (header_offset p + 2) p)).
    assert (Hok4 : hok p4) by (apply set_state_ok, set_start_ok; done).
    exists 1, p4, h. constructor; [|done|done|auto|done|lia|done|cbn; lia| |lia|].
    - rewrite HT by done. unfold __parse_header_name. by rewrite Ecr.
    - intros _ ext. rewrite HT by done. unfold __parse_header_name.
      by rewrite (starts_crlf_ext _ _ Ecr).
    - intros q Hsim. exists (set_namebuf (namebuf q) p4). rewrite HT by apply Hq, Hsim.
      unfold __parse_header_name. rewrite Ecr. split.
      + by rewrite (hsim_inv _ _ Hsim).
      + apply hsim_intro; [done|apply Hsim|done]. }
  destruct (parse_header_name_ok ptr p Hok Ecr) as (nb & Hnb & Hrun).
  assert (Hnew : forall ext, starts_crlf (ptr ++ ext) = true -> len ptr < 2).
  { intros ext E2. destruct (starts_crlf_new _ _ Ecr E2) as [-> | ->]; cbn; lia. }
  assert (Hsame : scan_name HTTP_HEADER_NAME_MAX ptr <> NNeed ->
                  forall ext, starts_crlf (ptr ++ ext) = starts_crlf ptr).
  { intros Hne ext. destruct (starts_crlf (ptr ++ ext)) eqn:E2; [|done].
    by destruct (starts_crlf_new _ _ Ecr E2) as [-> | ->]. }
  assert (Hsc : forall q, hsim p q -> hsim (set_namebuf nb p) (set_namebuf nb q)).
  { intros q Hsim. rewrite (hsim_inv _ _ Hsim).
    apply (hsim_intro nb (set_namebuf nb p)); [|done..]. destruct Hok. constructor; cbn; auto.
    by rewrite Hs. }
  destruct (scan_name HTTP_HEADER_NAME_MAX ptr) as [| |nm] eqn:El.
  - exists 0, (set_namebuf nb p), h.
    assert (Hsim0 : hsim p (set_namebuf nb p)) by (apply hsim_intro; [done..|by rewrite Hs]).
    constructor; [|apply Hsim0|done|auto|done|done|done|lia|done| |].
    + rewrite HT, Hrun by done. done.
    + intros _ ext p2 h2. rewrite HT by done. destruct (starts_crlf (ptr ++ ext)) eqn:E2.
      { specialize (Hnew _ E2). unfold __parse_header_name. rewrite E2. cbn. intros; simplify_eq.
        cbn. lia. }
      destruct (parse_header_name_ok (ptr ++ ext) p Hok E2) as (nb2 & _ & H2).
      destruct (scan_name HTTP_HEADER_NAME_MAX (ptr ++ ext)) as [| |nm] eqn:El2;
        [by rewrite H2..|]. destruct H2 as [_ ->]. cbn. intros; simplify_eq. cbn.
      pose proof (scan_name_need _ _ _ _ El El2). split; [lia|done].
    + intros q Hsim.
      destruct (parse_header_name_ok ptr q (proj1 (proj2 (proj2 Hsim))) Ecr) as (nbq & Hnbq & Hq').
      rewrite El in Hq'. exists (set_namebuf nbq q). rewrite HT, Hq' by apply Hq, Hsim.
      split; [done|]. rewrite (hsim_inv _ _ Hsim).
      apply (hsim_intro nbq (set_namebuf nb p)); [apply Hsim0|done|]. cbn. by rewrite Hs.
  - exists (-2), (set_namebuf nb p), h.
    assert (Hsim0 : hsim p (set_namebuf nb p)) by (apply hsim_intro; [done..|by rewrite Hs]).
    constructor; [|apply Hsim0|done|auto|done|lia|done|lia| |lia|].
    + rewrite HT, Hrun by done. done.
    + intros _ ext. rewrite HT, (parse_header_name_ext _ _ _ _ _ Hrun) by first [done | by apply Hsame].
      done.
    + intros q Hsim.
      destruct (parse_header_name_ok ptr q (proj1 (proj2 (proj2 Hsim))) Ecr) as (nbq & Hnbq & Hq').
      rewrite El in Hq'. exists (set_namebuf nbq q). rewrite HT, Hq' by apply Hq, Hsim.
      split; [done|]. rewrite (hsim_inv _ _ Hsim).
      apply (hsim_intro nbq (set_namebuf nb p)); [apply Hsim0|done|]. cbn. by rewrite Hs.
  - destruct Hrun as [Hc Hrun]. pose proof (scan_name_len _ _ _ El).
    set (p4 := set_header_state HPS_HEADER_VALUE _) in Hrun.
    assert (Hok4 : hok p4).
    { destruct Hok. constructor; cbn; auto. lia. }
    exists 1, p4, h. constructor; [|done|done|auto|done|lia|done|cbn; lia| |lia|].
    + rewrite HT, Hrun by done. done.
    + intros _ ext. rewrite HT, (parse_header_name_ext _ _ _ _ _ Hrun) by first [done | by apply Hsame].
      done.
    + intros q Hsim.
      destruct (parse_header_name_ok ptr q (proj1 (proj2 (proj2 Hsim))) Ecr) as (nbq & Hnbq & Hq').
      rewrite El in Hq'. destruct Hq' as [Hcq Hq']. exists (set_namebuf nbq p4).
      rewrite HT, Hq' by apply Hq, Hsim. split; [by rewrite (hsim_inv _ _ Hsim)|].
      apply hsim_intro; [done..|]. intros _. cbn. congruence.
Qed.

(** *** The value of a header *)

Lemma trim_blank_length rv : (length (trim_blank rv) <= length rv)%nat.
Proof. induction rv as [|c rv IH]; cbn; [lia|]. destruct (is_blank c); cbn; lia. Qed.

Lemma header_value_loop_bound ptr : forall skip rv v rest,
  header_value_loop skip ptr rv = VDone v rest ->
  (length rv <= HTTP_HEADER_VALUE_MAX)%nat -> (length v <= HTTP_HEADER_VALUE_MAX)%nat.
Proof.
  remember (length ptr) as n eqn:Hn. revert ptr Hn.
  induction n as [n IH] using lt_wf_ind. intros ptr Hn skip rv v rest.
  destruct ptr as [|c ptr]; [done|]. cbn [header_value_loop].
  destruct (skip && is_blank c).
  { intros H Hl. eapply (IH (length ptr)) in H; cbn [length] in *; lia. }
  destruct (Nat.eqb_spec (length rv) HTTP_HEADER_VALUE_MAX) as [|Hne]; [done|].
  destruct ptr as [|c2 ptr2]; [done|]. destruct (c =? CR).
  - destruct (c2 =? LF); [|done]. destruct ptr2 as [|c3 ptr3]; [done|].
    pose proof (trim_blank_length rv).
    destruct (is_blank c3); [|intros; simplify_eq; lia].
    intros H0 Hl. eapply (IH (length ptr3)) in H0; cbn [length] in *; lia.
  - destruct (schar c <=? 0); [done|].
    intros H Hl. eapply (IH (length (c2 :: ptr2))) in H; cbn [length] in *; lia.
Qed.

Lemma good_header_value ptr p h :
  hok p -> header_state p = HPS_HEADER_VALUE -> exists r p' h', good_turn ptr p h r p' h'.
Proof.
  intros Hok Hs.
  assert (HT : forall ptr q, header_state q = HPS_HEADER_VALUE -> turn ptr q h = __parse_header_value ptr q h)
    by (intros; unfold turn; by case_match).
  assert (Hq : forall q, hsim p q -> header_state q = HPS_HEADER_VALUE /\
            cstring (namebuf q) = cstring (namebuf p)).
  { intros q Hq. pose proof (proj2 (proj2 (proj2 Hq)) Hs) as Hc. by rewrite (hsim_inv _ _ Hq). }
  destruct (hok_name p Hok Hs) as [nm Hnm]. pose proof (cstring_strlen _ _ Hnm) as Hsl.
  pose proof (strlen_bounds _ _ Hsl) as Hnl. rewrite (hok_namebuf p Hok) in Hnl.
  assert (HM : Z.of_nat HTTP_HEADER_NAME_MAX = 64 /\ Z.of_nat HTTP_HEADER_VALUE_MAX = 8192)
    by (by vm_compute).
  (* a finished value, on this input or on a longer one *)
  assert (Hadd : forall v, (length v <= HTTP_HEADER_VALUE_MAX)%nat -> _) by
    (intros v Hv; exact (add_header_ok (namebuf p) nm (rev v) p h Hnm ltac:(lia)
       ltac:(rewrite length_rev; lia) (hok_content p Hok) (hok_lines p Hok))).
  destruct (header_value_loop true ptr []) as [| |v rest] eqn:El.
  - exists 0, p, h. apply good_idle; [done| |auto|done| |].
    + rewrite HT by done. unfold __parse_header_value. by rewrite El.
    + intros _ ext p2 h2. rewrite HT by done. unfold __parse_header_value.
      destruct (header_value_loop true (ptr ++ ext) []) as [| |v rest] eqn:E2; [done..|].
      pose proof (header_value_loop_need _ _ _ _ _ _ El E2).
      pose proof (header_value_loop_bound _ _ _ _ _ E2 ltac:(cbn; lia)) as Hb.
      destruct (Hadd v Hb) as (r & p' & h' & E & _ & _ & _ & Ho & _). rewrite Hsl.
      cbn [mbind option_bind]. rewrite length_rev in E. rewrite E. cbn [mbind option_bind].
      destruct (r <? 0); [done|]. intros; simplify_eq. cbn. rewrite Ho, length_app. split; [lia|done].
    + intros q Hsim. rewrite HT by apply Hq, Hsim. unfold __parse_header_value. by rewrite El.
  - exists (-2), p, h. apply good_idle; [done| |auto| |done|].
    + rewrite HT by done. unfold __parse_header_value. by rewrite El.
    + intros _ ext. rewrite HT by done. unfold __parse_header_value.
      rewrite header_value_loop_ext, El; [done|]. by rewrite El.
    + intros q Hsim. rewrite HT by apply Hq, Hsim. unfold __parse_header_value. by rewrite El.
  - pose proof (header_value_loop_bound _ _ _ _ _ El ltac:(cbn; lia)) as Hb.
    pose proof (header_value_loop_len _ _ _ _ _ El).
    destruct (Hadd v Hb) as (r & p' & h' & E & Hr & Hm & Hst & Ho & Hnb & Hl & Hc & Ht & Hf & Hsim').
    rewrite length_rev in E, Hsim'.
    set (p4 := set_header_state HPS_HEADER_NAME
                 (set_header_offset (header_offset p' + (len ptr - len rest)) p')).
    assert (Hok' : hok p').
    { constructor; [by rewrite Hnb; apply Hok|by rewrite Hnb, Hnm|rewrite Ho; apply Hok|done| |done].
      rewrite Ht. apply Hok. }
    assert (Hok4 : hok p4) by (apply set_state_ok, set_start_ok; [done..|lia]).
    assert (Hext : forall ext, header_value_loop true (ptr ++ ext) [] = VDone v (rest ++ ext))
      by (intros; rewrite header_value_loop_ext, El; [done|by rewrite El]).
    assert (Hlen : forall ext : list Z, len (ptr ++ ext) - len (rest ++ ext) = len ptr - len rest)
      by (intros; rewrite !length_app; lia).
    assert (HR : forall ext q nb, strlen (namebuf q) = Some (len nm) ->
        q = set_namebuf nb p -> cstring (namebuf q) = Some nm ->
        __parse_header_value (ptr ++ ext) q h =
        if r <? 0 then Some (-1, set_namebuf nb p', h') else Some (1, set_namebuf nb p4, h')).
    { intros ext q nb Hsq Eq Hcq. unfold __parse_header_value. rewrite Hext, Hsq.
      cbn [mbind option_bind]. rewrite Eq in Hcq |- *. rewrite (Hsim' _ nb Hcq), Hlen.
      cbn [mbind option_bind]. by destruct (r <? 0). }
    assert (Hself : p = set_namebuf (namebuf p) p) by (by destruct p).
    assert (Hrun : forall ext, __parse_header_value (ptr ++ ext) p h =
        if r <? 0 then Some (-1, p', h') else Some (1, p4, h')).
    { intros ext. rewrite (HR ext p (namebuf p) Hsl Hself Hnm), <- Hnb.
      replace (set_namebuf (namebuf p') p') with p' by (by destruct p').
      by replace (set_namebuf (namebuf p') p4) with p4 by (unfold p4; by destruct p'). }
    assert (Hrun0 : __parse_header_value ptr p h =
        if r <? 0 then Some (-1, p', h') else Some (1, p4, h')).
    { specialize (Hrun []). by rewrite app_nil_r in Hrun. }
    assert (HRq : forall q, hsim p q -> __parse_header_value ptr q h =
        if r <? 0 then Some (-1, set_namebuf (namebuf q) p', h')
        else Some (1, set_namebuf (namebuf q) p4, h')).
    { intros q Hsim. destruct (Hq q Hsim) as [_ Hcq]. rewrite Hnm in Hcq.
      rewrite <- (app_nil_r ptr). apply HR; [by apply cstring_strlen|by apply hsim_inv|done]. }
    clear HR Hext Hsim' E.
    destruct Hr as [-> | ->]; cbn [Z.ltb Z.compare] in *.
    + exists 1, p4, h'. constructor; [by rewrite HT|done|done|auto| |lia|done|cbn; lia| |lia|].
      * intros [_ ->]%Hm. done.
      * intros _ ext. by rewrite HT, Hrun.
      * intros q Hsim. exists (set_namebuf (namebuf q) p4). rewrite HT by apply Hq, Hsim.
        split; [by apply HRq|]. apply hsim_intro; [done|apply Hsim|done].
    + exists (-1), p', h'. constructor; [by rewrite HT|done|done|auto| |lia|done|lia| |lia|].
      * intros [? _]%Hm. done.
      * intros _ ext. by rewrite HT, Hrun.
      * intros q Hsim. exists (set_namebuf (namebuf q) p'). rewrite HT by apply Hq, Hsim.
        split; [by apply HRq|]. apply hsim_intro; [done|apply Hsim|]. intros _.
        destruct (Hq q Hsim) as [_ ->]. by rewrite Hnb.
Qed.

Lemma turn_good ptr p h :
  hok p -> header_state p <> HPS_HEADER_COMPLETE -> exists r p' h', good_turn ptr p h r p' h'.
Proof.
  intros Hok Hs. destruct (header_state p) eqn:E; [by apply good_start_line|
    by apply good_header_name|by apply good_header_value|done].
Qed.

(** ** The loop *)

Lemma len_from off m : 0 <= off <= len m -> len (from off m) = len m - off.
Proof. intros. unfold from. rewrite length_drop. lia. Qed.
Lemma from_app off m ext : 0 <= off <= len m -> from off (m ++ ext) = from off m ++ ext.
Proof. intros. unfold from. rewrite drop_app_le; [done|lia]. Qed.

(** What the loop promises when it returns. *)
Record loop_post (m : list Z) (p : http_parser) (h : heap)
    (r : Z) (p' : http_parser) (h' : heap) : Prop := mk_post {
  post_hok : hok p';
  post_frame : hframe p p';
  post_ret : r = -2 \/ r = -1 \/ r = 0 \/ r = 1;
  post_mem : h = [] -> h' = [] /\ r <> -1;
  post_offset : header_offset p <= header_offset p' <= len m;
  post_complete : r = 1 <-> header_state p' = HPS_HEADER_COMPLETE;
  post_moves : r = 1 -> header_offset p < header_offset p' }.

Section Loop.
  Context (m : list Z).

(** The state in which a turn is taken. *)
Definition ready (p : http_parser) : Prop :=
  hok p /\ header_state p <> HPS_HEADER_COMPLETE /\ header_offset p <= len m.

Lemma ready_turn p h : ready p ->
  exists r p' h', good_turn (from (header_offset p) m) p h r p' h' /\
    (r = 1 -> header_offset p' <= len m) /\
    (header_state p' <> HPS_HEADER_COMPLETE -> (r = 0 \/ r = 1) -> ready p').
Proof.
  intros (Hok & Hs & Ho). destruct (turn_good (from (header_offset p) m) p h Hok Hs) as (r & p' & h' & G).
  pose proof (hok_offset p Hok). pose proof (good_moves _ _ _ _ _ _ G) as Hmv.
  rewrite len_from in Hmv by lia.
  assert (r = 1 -> header_offset p' <= len m) by lia.
  exists r, p', h'. split_and!; [done..|]. intros Hs' Hr. split_and!; [by apply G|done|].
  destruct Hr as [-> | ->]; [|auto].
  pose proof (good_stuck _ _ _ _ _ _ G eq_refl) as [_ Hsim]. by rewrite (hsim_inv _ _ Hsim).
Qed.

Lemma header_loop_total fuel : forall p h,
  ready p -> len m - header_offset p < Z.of_nat fuel ->
  exists r p' h', header_loop fuel m p h = Some (r, p', h') /\ loop_post m p h r p' h'.
Proof.
  induction fuel as [|fuel IH]; intros p h Hp Hf; [destruct Hp as (_ & _ & ?); lia|].
  destruct (ready_turn p h Hp) as (r & p' & h' & G & Ho & Hp'). destruct Hp as (Hok & Hs & Hoff).
  cbn [header_loop]. change (header_step m p h) with (turn (from (header_offset p) m) p h).
  rewrite (good_run _ _ _ _ _ _ G). cbn [mbind option_bind].
  pose proof (good_ret _ _ _ _ _ _ G) as Hr. pose proof (good_moves _ _ _ _ _ _ G) as Hmv.
  rewrite len_from in Hmv by (pose proof (hok_offset p Hok); lia).
  case_decide as Hc.
  - assert (r = 1) as ->.
    { destruct (Z.eqb_spec r 1); [done|]. destruct (good_state _ _ _ _ _ _ G) as [E _]; congruence. }
    exists 1, p', h'. split; [done|]. destruct G. constructor; auto; [lia|done|lia].
  - destruct (Z.ltb_spec 0 r).
    + assert (r = 1) as -> by lia. specialize (Hp' Hc (or_intror eq_refl)).
      destruct (IH p' h' Hp' ltac:(lia)) as (r2 & p2 & h2 & E & P). exists r2, p2, h2.
      split; [done|]. destruct P, G.
      constructor; [done|by eapply hframe_trans|done| |lia|done|lia].
      intros ->. destruct good_mem0 as [-> _]; auto.
    + exists r, p', h'. split; [done|].
      pose proof (good_state _ _ _ _ _ _ G ltac:(lia)) as [Es Eo].
      destruct G. constructor; auto; [lia| |lia]. split; [lia|done].
Qed.

(** Any fuel that is enough gives the same result. *)
Lemma header_loop_fuel f1 : forall f2 p h x,
  header_loop f1 m p h = Some x -> (f1 <= f2)%nat -> header_loop f2 m p h = Some x.
Proof.
  induction f1 as [|f1 IH]; intros [|f2] p h x E Hf; [done|done|lia|].
  cbn [header_loop] in *. destruct (header_step m p h) as [[[r p'] h']|]; [|done].
  cbn [mbind option_bind] in *. case_decide; [done|]. destruct (0 <? r); [|done].
  apply IH; [done|lia].
Qed.

Lemma header_loop_sim fuel : forall p q h r p' h',
  ready p -> hsim p q -> header_loop fuel m p h = Some (r, p', h') ->
  exists q', header_loop fuel m q h = Some (r, q', h') /\ hsim p' q'.
Proof.
  induction fuel as [|fuel IH]; intros p q h r p' h' Hp Hsim E; [done|]. cbn [header_loop] in *.
  destruct (ready_turn p h Hp) as (r1 & p1 & h1 & G & _ & Hp1).
  destruct (good_sim _ _ _ _ _ _ G q Hsim) as (q1 & Eq & Hsim1).
  assert (Eo : header_offset q = header_offset p) by (by rewrite (hsim_inv _ _ Hsim)).
  assert (Es : header_state q1 = header_state p1) by (by rewrite (hsim_inv _ _ Hsim1)).
  change (header_step m p h) with (turn (from (header_offset p) m) p h) in E.
  change (header_step m q h) with (turn (from (header_offset q) m) q h).
  rewrite (good_run _ _ _ _ _ _ G) in E. rewrite Eo, Eq. cbn [mbind option_bind] in *. rewrite Es.
  case_decide as Hc; [simplify_eq; eauto|].
  destruct (Z.ltb_spec 0 r1); [|simplify_eq; eauto].
  eapply IH; [|done..]. apply Hp1; [done|]. pose proof (good_ret _ _ _ _ _ _ G). lia.
Qed.
End Loop.

Lemma ready_ext m ext p : ready m p -> ready (m ++ ext) p.
Proof. unfold ready. rewrite length_app. intros (? & ? & ?). split_and!; [done..|lia]. Qed.

(** A header that a prefix decides is decided the same way by the whole. *)
Lemma header_loop_ext m ext fuel : forall p h r p' h' fuel2,
  ready m p -> header_loop fuel m p h = Some (r, p', h') -> r <> 0 -> (fuel <= fuel2)%nat ->
  header_loop fuel2 (m ++ ext) p h = Some (r, p', h').
Proof.
  induction fuel as [|fuel IH]; intros p h r p' h' [|fuel2] Hp E Hr Hf; [done|done|lia|].
  cbn [header_loop] in *.
  destruct (ready_turn m p h Hp) as (r1 & p1 & h1 & G & _ & Hp1).
  destruct Hp as (Hok & Hs & Ho). pose proof (hok_offset p Hok).
  change (header_step m p h) with (turn (from (header_offset p) m) p h) in E.
  change (header_step (m ++ ext) p h) with (turn (from (header_offset p) (m ++ ext)) p h).
  rewrite (good_run _ _ _ _ _ _ G) in E. rewrite from_app by lia.
  destruct (Z.eqb_spec r1 0) as [->|Hr1].
  { destruct (good_state _ _ _ _ _ _ G ltac:(lia)) as [Es _]. cbn [mbind option_bind] in E.
    rewrite Es, decide_False in E by done. cbn in E. simplify_eq. }
  rewrite (good_ext _ _ _ _ _ _ G Hr1 ext). cbn [mbind option_bind] in *.
  case_decide as Hc; [done|]. destruct (Z.ltb_spec 0 r1); [|done].
  apply IH; [|done|done|lia]. apply Hp1; [done|]. pose proof (good_ret _ _ _ _ _ _ G). lia.
Qed.

(** A header that a prefix leaves open: resuming is parsing the whole, and what
    completes it ends behind the prefix. *)
Lemma header_loop_resume m ext fuel : forall p h p' h',
  ready m p -> header_loop fuel m p h = Some (0, p', h') ->
  ready m p' /\
  forall fuel2, len (m ++ ext) - header_offset p < Z.of_nat fuel2 ->
  exists r p2 q2 h2, header_loop fuel2 (m ++ ext) p h = Some (r, p2, h2) /\
    header_loop fuel2 (m ++ ext) p' h' = Some (r, q2, h2) /\ hsim p2 q2 /\
    (r = 1 -> len m < header_offset p2).
Proof.
  induction fuel as [|fuel IH]; intros p h p' h' Hp E; [done|]. cbn [header_loop] in E.
  destruct (ready_turn m p h Hp) as (r1 & p1 & h1 & G & Ho1 & Hp1).
  pose proof Hp as (Hok & Hs & Ho). pose proof (hok_offset p Hok).
  change (header_step m p h) with (turn (from (header_offset p) m) p h) in E.
  rewrite (good_run _ _ _ _ _ _ G) in E. cbn [mbind option_bind] in E.
  pose proof (good_ret _ _ _ _ _ _ G) as Hr.
  case_decide as Hc; [done|]. destruct (Z.ltb_spec 0 r1).
  - (* a turn that the prefix decides *)
    assert (r1 = 1) as -> by lia. specialize (Hp1 Hc (or_intror eq_refl)).
    destruct (IH p1 h1 p' h' Hp1 E) as [Hp' IH']. split; [done|]. intros fuel2 Hf.
    destruct (good_moves _ _ _ _ _ _ G eq_refl) as [Hmv _].
    destruct fuel2 as [|fuel2]; [rewrite length_app in Hf; lia|].
    destruct (IH' fuel2 ltac:(lia)) as (r & p2 & q2 & h2 & E1 & E2 & Hsim & Hlen).
    exists r, p2, q2, h2. split_and!; [|by eapply header_loop_fuel; [exact E2|lia]|done..].
    cbn [header_loop].
    change (header_step (m ++ ext) p h) with (turn (from (header_offset p) (m ++ ext)) p h).
    rewrite from_app by lia. rewrite (good_ext _ _ _ _ _ _ G ltac:(lia) ext).
    cbn [mbind option_bind]. rewrite decide_False by done. done.
  - (* the turn that waits *)
    simplify_eq. destruct (good_stuck _ _ _ _ _ _ G eq_refl) as [-> Hsim].
    specialize (Hp1 Hc (or_introl eq_refl)). split; [done|]. intros fuel2 Hf.
    destruct (header_loop_total (m ++ ext) fuel2 p h (ready_ext _ _ _ Hp) Hf) as (r & p2 & h2 & E & P).
    destruct (header_loop_sim (m ++ ext) fuel2 p p' h r p2 h2 (ready_ext _ _ _ Hp) Hsim E)
      as (q2 & E2 & Hsim2).
    exists r, p2, q2, h2. split_and!; [done..|]. intros ->.
    destruct fuel2 as [|fuel2]; [done|]. cbn [header_loop] in E.
    destruct (ready_turn (m ++ ext) p h (ready_ext _ _ _ Hp)) as (r3 & p3 & h3 & G3 & _ & Hp3).
    change (header_step (m ++ ext) p h) with (turn (from (header_offset p) (m ++ ext)) p h) in E.
    pose proof (good_run _ _ _ _ _ _ G3) as E3. rewrite E3 in E. rewrite from_app in E3 by lia.
    cbn [mbind option_bind] in E.
    assert (r3 = 1) as ->.
    { destruct (Z.eqb_spec r3 1); [done|]. destruct (good_state _ _ _ _ _ _ G3) as [Es _]; [done|].
      rewrite decide_False in E by congruence. pose proof (good_ret _ _ _ _ _ _ G3).
      destruct (Z.ltb_spec 0 r3); [lia|congruence]. }
    destruct (good_need _ _ _ _ _ _ G eq_refl _ _ _ E3) as [Hn1 Hn2].
    rewrite len_from in Hn1, Hn2 by lia.
    case_decide as Hc3; [simplify_eq; specialize (Hn2 Hc3); lia|]. cbn in E.
    assert (Hp3' : ready (m ++ ext) p3) by (apply Hp3; auto).
    destruct (good_moves _ _ _ _ _ _ G3 eq_refl) as [Hmv _].
    destruct (header_loop_total (m ++ ext) fuel2 p3 h3 Hp3') as (r4 & p4 & h4 & E4 & P4); [lia|].
    rewrite E4 in E. simplify_eq. pose proof (post_moves _ _ _ _ _ _ P4 eq_refl). lia.
Qed.
