(* ===== verification/HttpChunk.v ===== *)
(** * Chunked bodies, parsed piece by piece

    The counterpart of the header's facts for [__parse_chunk]: the loop consumes
    whole chunks and trailer lines, a decision on a prefix is final, and a body
    that a prefix leaves open is completed behind that prefix. *)

From S2P Require Import Prelude CLib HttpParser HttpScan HttpHeader.

Local Open Scope Z_scope.

(** ** The chunk size *)

Lemma hex_value_range c v : hex_value c = Some v -> 0 <= v < 16.
Proof. unfold hex_value, is_digit. intros. bsplit; simplify_eq; lia. Qed.

Lemma hex_digits_nonneg s : forall acc, 0 <= acc -> 0 <= fst (hex_digits acc s).
Proof.
  induction s as [|c s IH]; intros acc Ha; cbn; [done|].
  destruct (hex_value c) as [v|] eqn:E; [|done]. apply hex_value_range in E.
  specialize (IH (16 * acc + v) ltac:(lia)). by destruct (hex_digits _ s).
Qed.

Lemma strtol16_range s v : strtol16 s = Some v -> - 2 ^ 63 <= v < 2 ^ 63.
Proof.
  unfold strtol16. set (skip := fix skip (s : list Z) := _). generalize (skip s). clear.
  intros s. destruct (match s with c :: s' => _ | [] => _ end) as [neg s'].
  set (s2 := match s' with z :: x :: s'' => _ | _ => _ end). clearbody s2.
  pose proof (hex_digits_nonneg s2 0 ltac:(lia)). destruct (hex_digits 0 s2) as [w n].
  cbn [fst] in *. destruct (n =? 0)%nat; [done|]. destruct neg; intros; simplify_eq; lia.
Qed.

(** The size of a chunk that is accepted. *)
Lemma chunk_size_range v :
  - 2 ^ 63 <= v < 2 ^ 63 -> v <> 0 -> u64 v <? CHUNK_SIZE_MAX = true -> 0 < v < 2 ^ 31.
Proof.
  intros Hv Hne Hlt. assert (HC : CHUNK_SIZE_MAX < 2 ^ 31) by (by vm_compute).
  destruct (Z.lt_ge_cases v 0).
  - assert (E : u64 v = v + 2 ^ 64).
    { unfold wrap. rewrite <- (Z_mod_plus_full v 1 (2 ^ 64)). rewrite Z.mod_small; lia. }
    lia.
  - assert (u64 v = v) by (apply wrap_small; lia). lia.
Qed.

(** ** One turn *)

Definition cturn (ptr : list Z) (p : http_parser) : Z * http_parser :=
  match chunk_state p with
  | CPS_CHUNK_DATA => __parse_chunk_data ptr p
  | _ => __parse_trailer_part ptr p
  end.

(** Only the position in the body has changed. *)
Definition cmoved (p p' : http_parser) : Prop :=
  p' = set_chunk_state (chunk_state p') (set_chunk_offset (chunk_offset p') p).

Lemma cmoved_refl p : cmoved p p.
Proof. by destruct p. Qed.
Lemma cmoved_trans p q r : cmoved p q -> cmoved q r -> cmoved p r.
Proof. unfold cmoved. destruct p, q, r. cbn. intros E1 E2. rewrite E1 in E2. cbn in E2. done. Qed.

Record good_cturn (ptr : list Z) (p : http_parser) (r : Z) (p' : http_parser) : Prop := mk_cgood {
  cgood_run : cturn ptr p = (r, p');
  cgood_ret : r = -2 \/ r = 0 \/ r = 1;
  cgood_idle : r <> 1 -> p' = p;
  cgood_moved : cmoved p p';
  cgood_moves : r = 1 -> chunk_offset p < chunk_offset p' <= chunk_offset p + len ptr;
  cgood_ext : r <> 0 -> forall ext, cturn (ptr ++ ext) p = (r, p');
  cgood_need : r = 0 -> forall ext p2, cturn (ptr ++ ext) p = (1, p2) ->
    chunk_offset p + len ptr < chunk_offset p2 }.

Lemma good_chunk_data ptr p :
  chunk_state p = CPS_CHUNK_DATA -> exists r p', good_cturn ptr p r p'.
Proof.
  intros Hs.
  assert (HT : forall ptr, cturn ptr p = __parse_chunk_data ptr p) by (unfold cturn; by rewrite Hs).
  unfold __parse_chunk_data in HT.
  destruct (scan_line false HTTP_CHUNK_LINE_MAX ptr) as [| |l] eqn:El.
  - exists 0, p. constructor; [by rewrite HT, El|auto|done|apply cmoved_refl|lia|done|].
    intros _ ext p2. rewrite HT. destruct (scan_line _ _ (ptr ++ ext)) as [| |l] eqn:E2; [done..|].
    pose proof (scan_line_need _ _ _ _ _ El E2).
    destruct (strtol16 l) as [v|] eqn:Ev; [|done]. apply strtol16_range in Ev.
    destruct (Z.eqb_spec v 0); [intros; simplify_eq; cbn; lia|].
    destruct (u64 v <? CHUNK_SIZE_MAX) eqn:Hlt; [|done].
    pose proof (chunk_size_range v Ev n Hlt).
    destruct (Z.ltb_spec (len (ptr ++ ext)) (v + len l + 4)); [done|].
    intros; simplify_eq. cbn. lia.
  - exists (-2), p. constructor; [by rewrite HT, El|auto|done|apply cmoved_refl|lia| |lia].
    intros _ ext. by rewrite HT, scan_line_ext, El by (by rewrite El).
  - assert (Hext : forall ext, scan_line false HTTP_CHUNK_LINE_MAX (ptr ++ ext) = Line l)
      by (intros; rewrite scan_line_ext; [done|by rewrite El]).
    pose proof (scan_line_len _ _ _ _ El).
    destruct (strtol16 l) as [v|] eqn:Ev.
    2:{ exists (-2), p. constructor; [by rewrite HT, El, Ev|auto|done|apply cmoved_refl|lia| |lia].
        intros _ ext. by rewrite HT, Hext, Ev. }
    pose proof (strtol16_range _ _ Ev) as Hv. destruct (Z.eqb_spec v 0) as [->|Hne].
    { set (p' := set_chunk_offset (chunk_offset p + (len l + 2)) (set_chunk_state CPS_TRAILER_PART p)).
      exists 1, p'. constructor; [by rewrite HT, El, Ev|auto|done|done|cbn; lia| |lia].
      intros _ ext. by rewrite HT, Hext, Ev. }
    destruct (u64 v <? CHUNK_SIZE_MAX) eqn:Hlt.
    2:{ exists (-2), p. constructor; [|auto|done|apply cmoved_refl|lia| |lia].
        - rewrite HT, El, Ev, (proj2 (Z.eqb_neq _ _) Hne), Hlt. done.
        - intros _ ext. rewrite HT, Hext, Ev, (proj2 (Z.eqb_neq _ _) Hne), Hlt. done. }
    pose proof (chunk_size_range v Hv Hne Hlt) as Hrange.
    assert (HT' : forall ext, cturn (ptr ++ ext) p =
      if len (ptr ++ ext) <? v + len l + 4 then (0, p)
      else (1, set_chunk_offset (chunk_offset p + (v + len l + 4)) p)).
    { intros ext. rewrite HT, Hext, Ev, (proj2 (Z.eqb_neq _ _) Hne), Hlt. done. }
    assert (HT0 : cturn ptr p =
      if len ptr <? v + len l + 4 then (0, p)
      else (1, set_chunk_offset (chunk_offset p + (v + len l + 4)) p)).
    { specialize (HT' []). by rewrite app_nil_r in HT'. }
    destruct (Z.ltb_spec (len ptr) (v + len l + 4)).
    + exists 0, p. constructor; [done|auto|done|apply cmoved_refl|lia|done|].
      intros _ ext p2. rewrite HT'. destruct (Z.ltb_spec (len (ptr ++ ext)) (v + len l + 4)); [done|]. intros; simplify_eq. cbn. lia.
    + set (p' := set_chunk_offset _ p) in *.
      exists 1, p'. constructor; [done|auto|done|unfold cmoved, p'; by destruct p|cbn; lia| |lia].
      intros _ ext. rewrite HT'. rewrite length_app.
      by destruct (Z.ltb_spec (Z.of_nat (length ptr + length ext)) (v + len l + 4)); [lia|].
Qed.

Lemma good_trailer ptr p :
  chunk_state p = CPS_TRAILER_PART -> exists r p', good_cturn ptr p r p'.
Proof.
  intros Hs.
  assert (HT : forall ptr, cturn ptr p = __parse_trailer_part ptr p) by (unfold cturn; by rewrite Hs).
  unfold __parse_trailer_part in HT.
  destruct (scan_line false HTTP_TRAILER_LINE_MAX ptr) as [| |l] eqn:El.
  - exists 0, p. constructor; [by rewrite HT, El|auto|done|apply cmoved_refl|lia|done|].
    intros _ ext p2. rewrite HT. destruct (scan_line _ _ (ptr ++ ext)) as [| |l] eqn:E2; [done..|].
    pose proof (scan_line_need _ _ _ _ _ El E2). destruct l; intros; simplify_eq; cbn in *; lia.
  - exists (-2), p. constructor; [by rewrite HT, El|auto|done|apply cmoved_refl|lia| |lia].
    intros _ ext. by rewrite HT, scan_line_ext, El by (by rewrite El).
  - pose proof (scan_line_len _ _ _ _ El).
    assert (Hext : forall ext, scan_line false HTTP_TRAILER_LINE_MAX (ptr ++ ext) = Line l)
      by (intros; rewrite scan_line_ext; [done|by rewrite El]).
    set (p0 := set_chunk_offset (chunk_offset p + len l + 2) p).
    exists 1, (match l with [] => set_chunk_state CPS_CHUNK_COMPLETE p0 | _ => p0 end).
    constructor; [by rewrite HT, El|auto|done|by destruct l, p|destruct l; cbn in *; lia| |lia].
    intros _ ext. by rewrite HT, Hext.
Qed.

Lemma cturn_good ptr p :
  chunk_state p <> CPS_CHUNK_COMPLETE -> exists r p', good_cturn ptr p r p'.
Proof.
  intros Hs. destruct (chunk_state p) eqn:E; [by apply good_chunk_data|by apply good_trailer|done].
Qed.

(** ** The loop *)

Definition cready (m : list Z) (p : http_parser) : Prop :=
  chunk_state p <> CPS_CHUNK_COMPLETE /\ 0 <= chunk_offset p <= len m.

Lemma cready_ext m ext p : cready m p -> cready (m ++ ext) p.
Proof. unfold cready. rewrite length_app. intros [? ?]. split; [done|lia]. Qed.

Record cloop_post (m : list Z) (p : http_parser) (r : Z) (p' : http_parser) : Prop := mk_cpost {
  cpost_moved : cmoved p p';
  cpost_ret : r = -2 \/ r = 0 \/ r = 1;
  cpost_offset : chunk_offset p <= chunk_offset p' <= len m;
  cpost_complete : r = 1 <-> chunk_state p' = CPS_CHUNK_COMPLETE;
  cpost_moves : r = 1 -> chunk_offset p < chunk_offset p' }.

(** One turn of the loop, unfolded. *)
Lemma chunk_loop_S fuel m p :
  chunk_loop (S fuel) m p =
  let '(r, p') := cturn (from (chunk_offset p) m) p in
  if decide (chunk_state p' = CPS_CHUNK_COMPLETE) then Some (1, p')
  else if 0 <? r then chunk_loop fuel m p' else Some (r, p').
Proof. done. Qed.

Lemma cready_turn m p : cready m p ->
  exists r p', good_cturn (from (chunk_offset p) m) p r p' /\
    (r = 1 -> chunk_offset p < chunk_offset p' <= len m) /\
    (chunk_state p' <> CPS_CHUNK_COMPLETE -> cready m p') /\
    (chunk_state p' = CPS_CHUNK_COMPLETE -> r = 1).
Proof.
  intros [Hs Ho]. destruct (cturn_good (from (chunk_offset p) m) p Hs) as (r & p' & G).
  pose proof (cgood_moves _ _ _ _ G) as Hmv. rewrite len_from in Hmv by lia.
  pose proof (cgood_idle _ _ _ _ G) as Hi.
  exists r, p'. split_and!; [done|lia| |].
  - intros Hc. split; [done|]. destruct (Z.eqb_spec r 1); [lia|]. by rewrite Hi.
  - intros Hc. destruct (Z.eqb_spec r 1); [done|]. by rewrite Hi in Hc.
Qed.

Lemma chunk_loop_total m fuel : forall p,
  cready m p -> len m - chunk_offset p < Z.of_nat fuel ->
  exists r p', chunk_loop fuel m p = Some (r, p') /\ cloop_post m p r p'.
Proof.
  induction fuel as [|fuel IH]; intros p Hp Hf; [destruct Hp as (_ & ?); lia|].
  destruct (cready_turn m p Hp) as (r & p' & G & Hmv & Hp' & Hcomp). destruct Hp as [Hs Ho].
  rewrite chunk_loop_S, (cgood_run _ _ _ _ G). pose proof (cgood_ret _ _ _ _ G).
  case_decide as Hc.
  - rewrite (Hcomp Hc) in *. exists 1, p'. split; [done|].
    constructor; [apply G|auto|lia|done|lia].
  - destruct (Z.ltb_spec 0 r).
    + assert (r = 1) as -> by lia.
      destruct (IH p' (Hp' Hc) ltac:(lia)) as (r2 & p2 & E & P). exists r2, p2. split; [done|].
      destruct P, G. constructor; [by eapply cmoved_trans|done|lia|done|lia].
    + exists r, p'. split; [done|]. rewrite (cgood_idle _ _ _ _ G) in * by lia.
      constructor; [apply cmoved_refl|lia|lia|split; [lia|done]|lia].
Qed.

Lemma chunk_loop_fuel m f1 : forall f2 p x,
  chunk_loop f1 m p = Some x -> (f1 <= f2)%nat -> chunk_loop f2 m p = Some x.
Proof.
  induction f1 as [|f1 IH]; intros [|f2] p x E Hf; [done|done|lia|].
  rewrite chunk_loop_S in *. destruct (cturn _ p) as [r p']. case_decide; [done|].
  destruct (0 <? r); [|done]. apply IH; [done|lia].
Qed.

Lemma chunk_loop_ext m ext fuel : forall p r p' fuel2,
  cready m p -> chunk_loop fuel m p = Some (r, p') -> r <> 0 -> (fuel <= fuel2)%nat ->
  chunk_loop fuel2 (m ++ ext) p = Some (r, p').
Proof.
  induction fuel as [|fuel IH]; intros p r p' [|fuel2] Hp E Hr Hf; [done|done|lia|].
  rewrite chunk_loop_S in *.
  destruct (cready_turn m p Hp) as (r1 & p1 & G & _ & Hp1 & Hcomp). destruct Hp as [Hs Ho].
  rewrite (cgood_run _ _ _ _ G) in E. rewrite from_app by lia.
  destruct (Z.eqb_spec r1 0) as [->|Hr1].
  { rewrite decide_False in E by (intros ?%Hcomp; lia). cbn in E. simplify_eq. }
  rewrite (cgood_ext _ _ _ _ G Hr1 ext). case_decide as Hc; [done|].
  destruct (0 <? r1); [|done]. apply IH; [auto|done|done|lia].
Qed.

Lemma chunk_loop_resume m ext fuel : forall p p',
  cready m p -> chunk_loop fuel m p = Some (0, p') ->
  cready m p' /\
  forall fuel2, len (m ++ ext) - chunk_offset p < Z.of_nat fuel2 ->
  exists r p2, chunk_loop fuel2 (m ++ ext) p = Some (r, p2) /\
    chunk_loop fuel2 (m ++ ext) p' = Some (r, p2) /\ (r = 1 -> len m < chunk_offset p2).
Proof.
  induction fuel as [|fuel IH]; intros p p' Hp E; [done|]. rewrite chunk_loop_S in E.
  destruct (cready_turn m p Hp) as (r1 & p1 & G & Hmv & Hp1 & Hcomp). pose proof Hp as [Hs Ho].
  rewrite (cgood_run _ _ _ _ G) in E. pose proof (cgood_ret _ _ _ _ G) as Hr.
  case_decide as Hc; [done|]. destruct (Z.ltb_spec 0 r1).
  - assert (r1 = 1) as -> by lia. destruct (IH p1 p' (Hp1 Hc) E) as [Hp' IH']. split; [done|].
    intros fuel2 Hf. destruct fuel2 as [|fuel2]; [rewrite length_app in Hf; lia|].
    destruct (IH' fuel2 ltac:(lia)) as (r & p2 & E1 & E2 & Hlen). exists r, p2.
    split_and!; [|by eapply chunk_loop_fuel; [exact E2|lia]|done].
    rewrite chunk_loop_S, from_app by lia. rewrite (cgood_ext _ _ _ _ G ltac:(lia) ext).
    by rewrite decide_False.
  - simplify_eq. rewrite (cgood_idle _ _ _ _ G) in * by lia. split; [done|]. intros fuel2 Hf.
    destruct (chunk_loop_total (m ++ ext) fuel2 p (cready_ext _ _ _ Hp) Hf) as (r & p2 & E & P).
    exists r, p2. split_and!; [done..|]. intros ->. destruct fuel2 as [|fuel2]; [done|].
    rewrite chunk_loop_S in E.
    destruct (cready_turn (m ++ ext) p (cready_ext _ _ _ Hp)) as (r3 & p3 & G3 & Hmv3 & Hp3 & Hc3).
    pose proof (cgood_run _ _ _ _ G3) as E3. rewrite E3 in E. rewrite from_app in E3 by lia.
    assert (r3 = 1) as ->.
    { case_decide as Hd; [auto|]. pose proof (cgood_ret _ _ _ _ G3).
      destruct (Z.ltb_spec 0 r3); [lia|]. by simplify_eq. }
    pose proof (cgood_need _ _ _ _ G eq_refl _ _ E3) as Hn. rewrite len_from in Hn by lia.
    case_decide as Hd; [simplify_eq; lia|]. cbn in E.
    destruct (chunk_loop_total (m ++ ext) fuel2 p3 (Hp3 Hd)) as (r4 & p4 & E4 & P4); [lia|].
    rewrite E4 in E. simplify_eq. pose proof (cpost_moves _ _ _ _ P4 eq_refl). lia.
Qed.
