(* ===== verification/HttpAppend.v ===== *)
(** * [http_parser_append_message]: safety and independence of fragmentation

    The bytes of a message may arrive in any pieces.  [analyse] is what the parser
    makes of all the bytes it has, free of the buffer management; an append is an
    analysis of the longer message.  From the facts about the header and the
    chunks it follows that feeding a message in pieces and feeding it at once
    give the same result, the same parser and the same number of bytes consumed,
    and that every call stays within its buffers. *)

From S2P Require Import Prelude CLib HttpParser HttpScan HttpHeader HttpChunk.

Local Open Scope Z_scope.

(** ** The buffer fields are not read while parsing *)

Definition setbuf (mb : list Z) (ms bs : Z) (p : http_parser) : http_parser :=
  set_msgbuf mb (set_msgsize ms (set_bufsize bs p)).

Section SetBuf.
  Context (mb : list Z) (ms bs : Z).
Let sb := setbuf mb ms bs.
Let sb3 : Z * http_parser * heap -> Z * http_parser * heap := fun '(r, q, h) => (r, sb q, h).

Lemma check_header_setbuf nm nl v vl p :
  __check_message_header nm nl v vl (sb p) = sb <$> __check_message_header nm nl v vl p.
Proof.
  unfold __check_message_header.
  repeat match goal with |- context [if ?b then _ else _] =>
    match b with context [if _ then _ else _] => fail 1 | _ => destruct b end end; try done.
  - destruct (v !! 0%nat); cbn; [|done]. destruct (_ && _); [|done].
    by destruct (memcpy vl v).
Qed.

Lemma turn_setbuf ptr p h : turn ptr (sb p) h = sb3 <$> turn ptr p h.
Proof.
  unfold turn. change (header_state (sb p)) with (header_state p).
  destruct (header_state p).
  - unfold __parse_start_line, __match_status_line, __match_request_line, check_version.
    change (is_resp (sb p)) with (is_resp p).
    repeat case_match; simplify_eq; done.
  - unfold __parse_header_name. change (namebuf (sb p)) with (namebuf p).
    destruct (starts_crlf ptr); [done|].
    destruct (header_name_loop 0 ptr (namebuf p)) as [[[r i] nb]|]; [|done]. cbn.
    by destruct (r =? 1).
  - unfold __parse_header_value. change (namebuf (sb p)) with (namebuf p).
    destruct (header_value_loop true ptr []); [done..|].
    destruct (strlen (namebuf p)) as [n|]; [|done]. cbn [mbind option_bind].
    unfold http_parser_add_header, __add_message_header. destruct (malloc h) as [[] h']; [|done].
    destruct (memcpy n (namebuf p)) as [a|]; [|done]. cbn [mbind option_bind].
    destruct (memcpy (len rv) (rev rv ++ [NUL])) as [b|]; [|done]. cbn [mbind option_bind].
    change (0 <=? 0) with true. cbv iota.
    change (set_header_list _ (sb p)) with (sb (set_header_list (header_list p ++
      [mk_line (s32 n) (s32 (len rv)) true (line_bytes a b)]) p)).
    rewrite check_header_setbuf. by destruct (__check_message_header _ _ _ _ _).
  - unfold __parse_header_name. change (namebuf (sb p)) with (namebuf p).
    destruct (starts_crlf ptr); [done|].
    destruct (header_name_loop 0 ptr (namebuf p)) as [[[r i] nb]|]; [|done]. cbn.
    by destruct (r =? 1).
Qed.

Lemma header_loop_setbuf m fuel : forall p h,
  header_loop fuel m (sb p) h = sb3 <$> header_loop fuel m p h.
Proof.
  induction fuel as [|fuel IH]; intros p h; [done|]. cbn [header_loop].
  change (header_step m p h) with (turn (from (header_offset p) m) p h).
  change (header_step m (sb p) h) with (turn (from (header_offset p) m) (sb p) h).
  rewrite turn_setbuf. destruct (turn (from (header_offset p) m) p h) as [[[r q] h']|]; [|done].
  cbn. case_decide; [done|]. destruct (0 <? r); [apply IH|done].
Qed.

End SetBuf.

(** The chunk loop commutes with whatever leaves its position alone. *)
Lemma chunk_loop_commute (f : http_parser -> http_parser) m fuel :
  (forall p, chunk_state (f p) = chunk_state p /\ chunk_offset (f p) = chunk_offset p) ->
  (forall v p, set_chunk_offset v (f p) = f (set_chunk_offset v p)) ->
  (forall v p, set_chunk_state v (f p) = f (set_chunk_state v p)) ->
  forall p, chunk_loop fuel m (f p) = (fun '(r, q) => (r, f q)) <$> chunk_loop fuel m p.
Proof.
  intros Hf Ho Hs. induction fuel as [|fuel IH]; intros p; [done|]. rewrite !chunk_loop_S.
  destruct (Hf p) as [Es Eo]. rewrite Eo.
  assert (E : forall ptr, cturn ptr (f p) = let '(r, q) := cturn ptr p in (r, f q)).
  { intros ptr. unfold cturn, __parse_chunk_data, __parse_trailer_part. rewrite Es, Eo.
    repeat case_match; simplify_eq; by rewrite ?Hs, ?Ho, ?Hs. }
  rewrite E. destruct (cturn (from (chunk_offset p) m) p) as [r q].
  rewrite (proj1 (Hf q)). case_decide; [done|]. destruct (0 <? r); [apply IH|done].
Qed.

(** ** What the parser makes of a message *)

(** The body of the message [m]: waiting (0), wrong (-2), or ending at [total]. *)
Definition analyse_body (m : list Z) (p : http_parser) : option (Z * http_parser * Z) :=
  if negb (transfer_length p =? SIZE_MAX) then
    let total := header_offset p + transfer_length p in
    if total <=? len m then Some (1, p, total) else Some (0, p, 0)
  else if negb (chunked p) then Some (0, p, 0)
  else
    '(r, p) ← chunk_loop (S (length m)) m p;
    if r <=? 0 then Some (r, p, 0) else Some (1, p, chunk_offset p).

Definition analyse (m : list Z) (p : http_parser) (h : heap)
    : option (Z * http_parser * Z * heap) :=
  if decide (header_state p = HPS_HEADER_COMPLETE) then
    '(r, p, t) ← analyse_body m p; Some (r, p, t, h)
  else
    '(r, p, h) ← header_loop (S (length m)) m p h;
    if r <=? 0 then Some (r, p, 0, h)
    else '(r, p, t) ← analyse_body m (start_body p); Some (r, p, t, h).

(** The states in which a message is analysed. *)
Record aready (m : list Z) (p : http_parser) : Prop := mk_aready {
  ar_hok : hok p;
  ar_offset : header_offset p <= len m;
  ar_chunk : header_state p = HPS_HEADER_COMPLETE -> transfer_length p = SIZE_MAX ->
    chunked p = true -> cready m p /\ header_offset p <= chunk_offset p }.

Lemma aready_ext m ext p : aready m p -> aready (m ++ ext) p.
Proof.
  intros []. constructor; [done|rewrite length_app; lia|]. intros Hs Ht Hc.
  destruct (ar_chunk0 Hs Ht Hc). split; [by apply cready_ext|done].
Qed.

Lemma hok_start_body p : hok p -> hok (start_body p).
Proof.
  intros []. unfold start_body. destruct (chunked p); [by constructor|].
  destruct (transfer_length p =? SIZE_MAX); by constructor.
Qed.

Lemma aready_start_body m p :
  hok p -> header_offset p <= len m -> header_state p = HPS_HEADER_COMPLETE ->
  aready m (start_body p) /\ header_state (start_body p) = HPS_HEADER_COMPLETE.
Proof.
  intros Hok Ho Hs. pose proof (hok_offset p Hok). split.
  - constructor; [by apply hok_start_body|unfold start_body; by repeat case_match|].
    intros _ Ht Hc. unfold start_body in *. destruct (chunked p) eqn:Ec; [repeat split; cbn; [done|lia..]|].
    destruct (transfer_length p =? SIZE_MAX); cbn in Hc; congruence.
  - unfold start_body. by repeat case_match.
Qed.

Lemma hok_moved p q : hok p -> cmoved p q -> hok q.
Proof. intros [] E. rewrite E. by constructor. Qed.

(** *** The body *)

Record body_facts (m : list Z) (p : http_parser) (r : Z) (q : http_parser) (t : Z) : Prop := {
  bf_run : analyse_body m p = Some (r, q, t);
  bf_ret : r = -2 \/ r = 0 \/ r = 1;
  bf_moved : cmoved p q;
  bf_ready : r = 0 -> aready m q /\ header_state q = HPS_HEADER_COMPLETE;
  bf_total : r = 1 -> header_offset p <= t <= len m;
  bf_ext : r <> 0 -> forall ext, analyse_body (m ++ ext) p = Some (r, q, t);
  bf_resume : r = 0 -> forall ext, exists r2 q2 t2, analyse_body (m ++ ext) p = Some (r2, q2, t2) /\
    analyse_body (m ++ ext) q = Some (r2, q2, t2) /\ cmoved p q2 /\ (r2 = 1 -> len m < t2) }.

Lemma length_ok_nonneg n : length_ok n -> 0 <= n.
Proof. unfold length_ok, SIZE_MAX. lia. Qed.

Lemma analyse_body_ok m p :
  aready m p -> header_state p = HPS_HEADER_COMPLETE -> exists r q t, body_facts m p r q t.
Proof.
  intros Ha Hs. pose proof (ar_hok _ _ Ha) as Hok. pose proof (hok_offset p Hok).
  pose proof (length_ok_nonneg _ (hok_transfer p Hok)).
  destruct (Z.eqb_spec (transfer_length p) SIZE_MAX) as [Ht|Ht].
  - assert (HB : forall m, analyse_body m p = if negb (chunked p) then Some (0, p, 0) else
      '(r, p) ← chunk_loop (S (length m)) m p;
      if r <=? 0 then Some (r, p, 0) else Some (1, p, chunk_offset p)).
    { intros. unfold analyse_body. by rewrite Ht, Z.eqb_refl. }
    destruct (chunked p) eqn:Ec; cbn [negb] in HB.
    + pose proof (ar_chunk _ _ Ha Hs Ht Ec) as [Hr Hco]. pose proof Hr as [_ Hoff].
      destruct (chunk_loop_total m (S (length m)) p Hr) as (r & q & E & P); [lia|].
      assert (Ec' : chunked q = true /\ transfer_length q = SIZE_MAX /\
                    header_state q = HPS_HEADER_COMPLETE /\ header_offset q = header_offset p).
      { rewrite (cpost_moved _ _ _ _ P). by cbn. }
      exists r, q, (if r <=? 0 then 0 else chunk_offset q).
      pose proof (cpost_ret _ _ _ _ P). constructor.
      * rewrite HB, E. cbn. destruct (Z.leb_spec r 0); [done|]. by replace r with 1 by lia.
      * done.
      * apply P.
      * intros ->. destruct (chunk_loop_resume m [] _ _ _ Hr E) as [Hq _]. split; [|tauto].
        destruct Ec' as (_ & _ & _ & Eo). pose proof (cpost_offset _ _ _ _ P).
        constructor; rewrite ?Eo; [by eapply hok_moved, P|apply Ha|]. intros. split; [done|lia].
      * intros ->. cbn. pose proof (cpost_offset _ _ _ _ P). lia.
      * intros Hne ext. rewrite HB.
        rewrite (chunk_loop_ext m ext _ _ _ _ (S (length (m ++ ext))) Hr E Hne)
          by (rewrite length_app; lia).
        cbn. destruct (Z.leb_spec r 0); [done|]. by replace r with 1 by lia.
      * intros -> ext. destruct (chunk_loop_resume m ext _ _ _ Hr E) as [_ Hres].
        destruct (Hres (S (length (m ++ ext)))) as (r2 & q2 & E1 & E2 & Hlt); [lia|].
        assert ((r2 = -2 \/ r2 = 0 \/ r2 = 1) /\ cmoved p q2) as [Hr2 Hm2].
        { destruct (chunk_loop_total (m ++ ext) (S (length (m ++ ext))) p) as (r3 & q3 & E3 & P3);
            [by apply cready_ext|lia|]. rewrite E1 in E3. simplify_eq. split; apply P3. }
        exists r2, q2, (if r2 <=? 0 then 0 else chunk_offset q2).
        rewrite HB, E1. unfold analyse_body. destruct Ec' as (-> & -> & _). rewrite Z.eqb_refl, E2.
        cbn. destruct (Z.leb_spec r2 0); [split_and!; [done..|lia]|].
        replace r2 with 1 in * by lia. split_and!; [done..|auto].
    + exists 0, p, 0. constructor; [by rewrite HB|auto|apply cmoved_refl|done|done|done|].
      intros _ ext. exists 0, p, 0. rewrite HB. split_and!; [done..|apply cmoved_refl|done].
  - assert (HB : forall m, analyse_body m p = if header_offset p + transfer_length p <=? len m
        then Some (1, p, header_offset p + transfer_length p) else Some (0, p, 0)).
    { intros. unfold analyse_body. by rewrite (proj2 (Z.eqb_neq _ _) Ht). }
    destruct (Z.leb_spec (header_offset p + transfer_length p) (len m)) as [Hle|Hlt].
    + exists 1, p, (header_offset p + transfer_length p).
      constructor; [|auto|apply cmoved_refl|done|lia| |done].
      * rewrite HB. by rewrite (proj2 (Z.leb_le _ _) Hle).
      * intros _ ext. rewrite HB, (proj2 (Z.leb_le _ _)); [done|]. rewrite length_app. lia.
    + exists 0, p, 0. constructor; [|auto|apply cmoved_refl|done|lia|done|].
      * rewrite HB. by rewrite (proj2 (Z.leb_gt _ _) Hlt).
      * intros _ ext. rewrite HB. destruct (_ <=? len (m ++ ext)); eexists _, _, _; (split; [done|]);
          (split; [done|]); (split; [apply cmoved_refl|]); lia.
Qed.

(** Whatever keeps the fields the body depends on commutes with its analysis. *)
Lemma analyse_body_setbuf mb ms bs m p :
  analyse_body m (setbuf mb ms bs p) =
  (fun '(r, q, t) => (r, setbuf mb ms bs q, t)) <$> analyse_body m p.
Proof.
  unfold analyse_body. rewrite (chunk_loop_commute (setbuf mb ms bs)) by done.
  change (transfer_length (setbuf mb ms bs p)) with (transfer_length p).
  change (chunked (setbuf mb ms bs p)) with (chunked p).
  destruct (negb (transfer_length p =? SIZE_MAX)); [by destruct (_ <=? _)|].
  destruct (negb (chunked p)); [done|].
  destruct (chunk_loop _ _ _) as [[r q]|]; [|done]. cbn. by destruct (r <=? 0).
Qed.

Lemma analyse_body_namebuf nb m p :
  analyse_body m (set_namebuf nb p) =
  (fun '(r, q, t) => (r, set_namebuf nb q, t)) <$> analyse_body m p.
Proof.
  unfold analyse_body. rewrite (chunk_loop_commute (set_namebuf nb)) by done.
  change (transfer_length (set_namebuf nb p)) with (transfer_length p).
  change (chunked (set_namebuf nb p)) with (chunked p).
  destruct (negb (transfer_length p =? SIZE_MAX)); [by destruct (_ <=? _)|].
  destruct (negb (chunked p)); [done|].
  destruct (chunk_loop _ _ _) as [[r q]|]; [|done]. cbn. by destruct (r <=? 0).
Qed.

Lemma start_body_namebuf nb p : start_body (set_namebuf nb p) = set_namebuf nb (start_body p).
Proof.
  unfold start_body. change (chunked (set_namebuf nb p)) with (chunked p).
  change (transfer_length (set_namebuf nb p)) with (transfer_length p). by repeat case_match.
Qed.

Lemma analyse_setbuf mb ms bs m p h :
  analyse m (setbuf mb ms bs p) h =
  (fun '(r, q, t, h) => (r, setbuf mb ms bs q, t, h)) <$> analyse m p h.
Proof.
  unfold analyse. change (header_state (setbuf mb ms bs p)) with (header_state p). case_decide.
  - rewrite analyse_body_setbuf. by destruct (analyse_body m p) as [[[??]?]|].
  - rewrite header_loop_setbuf. destruct (header_loop _ _ _ _) as [[[r q] h']|]; [|done]. cbn.
    destruct (r <=? 0); [done|].
    replace (start_body (setbuf mb ms bs q)) with (setbuf mb ms bs (start_body q)).
    2:{ unfold start_body. change (chunked (setbuf mb ms bs q)) with (chunked q).
        change (transfer_length (setbuf mb ms bs q)) with (transfer_length q). by repeat case_match. }
    rewrite analyse_body_setbuf. by destruct (analyse_body m (start_body q)) as [[[??]?]|].
Qed.

(** *** The whole message *)

(** The body does not depend on [namebuf], so similar parsers stay similar. *)
Lemma analyse_body_sim m p q r p' t :
  hsim p q -> header_state p = HPS_HEADER_COMPLETE -> analyse_body m p = Some (r, p', t) ->
  cmoved p p' ->
  exists q', analyse_body m q = Some (r, q', t) /\ hsim p' q'.
Proof.
  intros Hsim Hs E Hm. rewrite (hsim_inv _ _ Hsim), analyse_body_namebuf, E. cbn.
  eexists. split; [done|]. destruct Hsim as (_ & Hp & Hq & _).
  assert (header_state p' = HPS_HEADER_COMPLETE) by (by rewrite Hm).
  apply hsim_intro; [by apply (hok_moved p)|apply Hq|congruence].
Qed.

Lemma start_body_sim p q : hsim p q -> header_state p = HPS_HEADER_COMPLETE ->
  hsim (start_body p) (start_body q).
Proof.
  intros Hsim Hs. rewrite (hsim_inv _ _ Hsim), start_body_namebuf.
  destruct Hsim as (_ & Hp & Hq & _). apply hsim_intro; [by apply hok_start_body|apply Hq|].
  unfold start_body. repeat case_match; cbn; congruence.
Qed.

Record an_facts (m : list Z) (p : http_parser) (h : heap)
    (r : Z) (q : http_parser) (t : Z) (h' : heap) : Prop := {
  an_run : analyse m p h = Some (r, q, t, h');
  an_ret : r = -2 \/ r = -1 \/ r = 0 \/ r = 1;
  an_hok : hok q;
  an_frame : hframe p q;
  an_mem : h = [] -> h' = [] /\ r <> -1;
  an_ready : r = 0 -> aready m q;
  an_total : r = 1 -> header_offset q <= t <= len m /\ header_state q = HPS_HEADER_COMPLETE;
  an_offset : header_offset q <= len m;
  an_ext : r <> 0 -> forall ext, analyse (m ++ ext) p h = Some (r, q, t, h');
  an_resume : r = 0 -> forall ext, exists r2 q2 q3 t2 h2,
    analyse (m ++ ext) p h = Some (r2, q2, t2, h2) /\
    analyse (m ++ ext) q h' = Some (r2, q3, t2, h2) /\ hsim q2 q3 /\ (r2 = 1 -> len m < t2);
  an_sim : forall p1, hsim p p1 ->
    exists q1, analyse m p1 h = Some (r, q1, t, h') /\ hsim q q1 }.

Lemma hframe_start_body p q : hframe p q -> hframe p (start_body q).
Proof. unfold hframe, start_body. by repeat case_match. Qed.
Lemma hframe_moved p q r : hframe p q -> cmoved q r -> hframe p r.
Proof. unfold hframe. intros H E. by rewrite E. Qed.
Lemma start_body_offset p : header_offset (start_body p) = header_offset p.
Proof. unfold start_body. by repeat case_match. Qed.
Lemma moved_offset p q : cmoved p q -> header_offset q = header_offset p /\ header_state q = header_state p.
Proof. intros E. by rewrite E. Qed.

(** With the header already complete. *)
Lemma analyse_ok_body m p h :
  aready m p -> header_state p = HPS_HEADER_COMPLETE -> exists r q t h', an_facts m p h r q t h'.
Proof.
  intros Ha Hs. destruct (analyse_body_ok m p Ha Hs) as (r & q & t & F).
  assert (HA : forall m q, header_state q = HPS_HEADER_COMPLETE ->
    analyse m q h = '(r, p, t) ← analyse_body m q; Some (r, p, t, h)).
  { intros. unfold analyse. by rewrite decide_True. }
  destruct (moved_offset _ _ (bf_moved _ _ _ _ _ F)) as [Eo Es].
  exists r, q, t, h. destruct F, Ha. constructor.
  - by rewrite HA, bf_run0.
  - tauto.
  - by apply (hok_moved p).
  - by apply (hframe_moved _ p).
  - intros ->. split; [done|lia].
  - intros E. by apply bf_ready0.
  - intros E. rewrite Eo, Es. auto.
  - by rewrite Eo.
  - intros Hr ext. by rewrite HA, bf_ext0.
  - intros -> ext. destruct (bf_resume0 eq_refl ext) as (r2 & q2 & t2 & E1 & E2 & Hm & Hlt).
    exists r2, q2, q2, t2, h. rewrite !HA, E1, E2 by congruence.
    split; [done|]. split; [done|]. split; [|done]. by apply hsim_refl, (hok_moved p).
  - intros p1 Hsim. destruct (analyse_body_sim m p p1 r q t) as (q1 & E1 & H1); [done..|].
    exists q1. rewrite HA, E1; [done|]. by rewrite (hsim_inv _ _ Hsim).
Qed.

(** With the header still incomplete. *)
Lemma analyse_ok_header m p h :
  aready m p -> header_state p <> HPS_HEADER_COMPLETE -> exists r q t h', an_facts m p h r q t h'.
Proof.
  intros Ha Hs. assert (Hr : ready m p) by (destruct Ha; by split_and!).
  assert (HA : forall m q h, header_state q <> HPS_HEADER_COMPLETE -> analyse m q h =
    '(r, p, h) ← header_loop (S (length m)) m q h;
    if r <=? 0 then Some (r, p, 0, h)
    else '(r, p, t) ← analyse_body m (start_body p); Some (r, p, t, h)).
  { intros. unfold analyse. by rewrite decide_False. }
  pose proof (hok_offset p (ar_hok _ _ Ha)) as Hpos.
  destruct (header_loop_total m (S (length m)) p h Hr) as (r & p1 & h1 & E & P); [lia|].
  pose proof (post_ret _ _ _ _ _ _ P) as Hret. pose proof (post_complete _ _ _ _ _ _ P) as Hcomp.
  pose proof (post_offset _ _ _ _ _ _ P) as Hoff. pose proof (post_hok _ _ _ _ _ _ P) as Hok1.
  pose proof (post_mem _ _ _ _ _ _ P) as Hmem. pose proof (post_frame _ _ _ _ _ _ P) as Hfr.
  destruct (Z.leb_spec r 0) as [Hr0|Hr0].
  - assert (Hs1 : header_state p1 <> HPS_HEADER_COMPLETE) by (intros Hc%Hcomp; lia).
    exists r, p1, 0, h1. constructor; [|done|done|done|done| |lia|lia| | |].
    + rewrite HA, E by done. cbn. by rewrite (proj2 (Z.leb_le _ _) Hr0).
    + intros ->. constructor; [done|lia|done].
    + intros Hne ext. rewrite HA, (header_loop_ext m ext _ _ _ _ _ _ (S (length (m ++ ext))) Hr E Hne)
        by first [done | rewrite length_app; lia]. cbn. by rewrite (proj2 (Z.leb_le _ _) Hr0).
    + intros -> ext. destruct (header_loop_resume m ext _ _ _ _ _ Hr E) as [_ Hres].
      destruct (Hres (S (length (m ++ ext)))) as (r2 & p2 & q2 & h2 & E1 & E2 & Hsim & Hlt); [lia|].
      destruct (header_loop_total (m ++ ext) (S (length (m ++ ext))) p h (ready_ext _ _ _ Hr))
        as (r3 & p3 & h3 & E3 & P3); [lia|].
      rewrite E1 in E3. simplify_eq. rewrite !HA, E1, E2 by done. cbn [mbind option_bind].
      destruct (Z.leb_spec r3 0) as [Hle|Hgt]; [exists r3, p3, q2, 0, h3; split_and!; [done..|lia]|].
      pose proof (post_ret _ _ _ _ _ _ P3). assert (r3 = 1) as -> by lia. specialize (Hlt eq_refl).
      pose proof (proj1 (post_complete _ _ _ _ _ _ P3) eq_refl) as Hc3.
      destruct (aready_start_body (m ++ ext) p3) as [Ha3 Hs3]; [apply P3|apply P3|done|].
      destruct (analyse_body_ok (m ++ ext) (start_body p3) Ha3 Hs3) as (r4 & q4 & t4 & F4).
      destruct (analyse_body_sim (m ++ ext) (start_body p3) (start_body q2) r4 q4 t4)
        as (q5 & E5 & Hsim5); [by apply start_body_sim|done|apply F4..|].
      rewrite (bf_run _ _ _ _ _ F4), E5. cbn. exists r4, q4, q5, t4, h3. split_and!; [done..|].
      intros ->. pose proof (bf_total _ _ _ _ _ F4 eq_refl) as Ht. rewrite start_body_offset in Ht. lia.
    + intros q Hsim. destruct (header_loop_sim m _ _ q _ _ _ _ Hr Hsim E) as (q1 & E1 & Hsim1).
      exists q1. rewrite HA, E1 by (by rewrite (hsim_inv _ _ Hsim)). cbn.
      by rewrite (proj2 (Z.leb_le _ _) Hr0).
  - assert (r = 1) as -> by lia. pose proof (proj1 Hcomp eq_refl) as Hc1.
    destruct (aready_start_body m p1 Hok1 ltac:(lia) Hc1) as [Ha1 Hs1].
    destruct (analyse_body_ok m (start_body p1) Ha1 Hs1) as (r & q & t & F).
    destruct (moved_offset _ _ (bf_moved _ _ _ _ _ F)) as [Eo Es]. rewrite start_body_offset in Eo.
    assert (HA' : forall ext, analyse (m ++ ext) p h =
        '(r, p, t) ← analyse_body (m ++ ext) (start_body p1); Some (r, p, t, h1)).
    { intros ext. rewrite HA, (header_loop_ext m ext _ _ _ _ _ _ (S (length (m ++ ext))) Hr E)
        by first [done | rewrite length_app; lia]. done. }
    exists r, q, t, h1. destruct F. constructor.
    + by rewrite HA, E; [cbn; rewrite bf_run0|].
    + tauto.
    + by apply (hok_moved (start_body p1)), bf_moved0; apply hok_start_body.
    + eapply hframe_moved; [by apply hframe_start_body|done].
    + intros [-> _]%Hmem. split; [done|lia].
    + intros E0. by apply bf_ready0.
    + intros E0. rewrite start_body_offset in bf_total0. rewrite Eo, Es. auto.
    + lia.
    + intros Hne ext. by rewrite HA', bf_ext0.
    + intros -> ext. destruct (bf_resume0 eq_refl ext) as (r2 & q2 & t2 & E1 & E2 & Hm & Hlt).
      exists r2, q2, q2, t2, h1. rewrite HA', E1. unfold analyse.
      rewrite decide_True by congruence. rewrite E2. split; [done|]. split; [done|]. split; [|done].
      apply hsim_refl, (hok_moved (start_body p1)); [by apply hok_start_body|done].
    + intros q0 Hsim. destruct (header_loop_sim m _ _ q0 _ _ _ _ Hr Hsim E) as (q1 & E1 & Hsim1).
      destruct (analyse_body_sim m (start_body p1) (start_body q1) r q t)
        as (q5 & E5 & Hsim5); [by apply start_body_sim|done..|].
      exists q5. rewrite HA, E1 by (by rewrite (hsim_inv _ _ Hsim)). cbn. by rewrite E5.
Qed.

Lemma analyse_ok m p h : aready m p -> exists r q t h', an_facts m p h r q t h'.
Proof.
  intros Ha. destruct (decide (header_state p = HPS_HEADER_COMPLETE));
    [by apply analyse_ok_body|by apply analyse_ok_header].
Qed.

(** ** The message buffer *)

Lemma grow_ok fuel : forall s need,
  0 < s -> 0 <= need <= 2 ^ 62 -> s < 2 ^ 64 -> need < s * 2 ^ Z.of_nat fuel -> (0 < fuel)%nat ->
  exists r, grow (S fuel) s need = Some r /\ need <= r < 2 ^ 64.
Proof.
  induction fuel as [|fuel IH]; intros s need Hs Hn Hs2 Hk Hf; [lia|].
  cbn [grow]. destruct (Z.ltb_spec s need) as [Hlt|Hge]; [|by exists s].
  rewrite wrap_small by lia.
  assert (E : 2 ^ Z.of_nat (S fuel) = 2 * 2 ^ Z.of_nat fuel) by (rewrite Nat2Z.inj_succ, Z.pow_succ_r; lia).
  destruct fuel as [|fuel].
  - cbn [grow] in *. replace (s * 2 <? need) with false by lia. exists (s * 2). split; [done|lia].
  - apply IH; lia.
Qed.

(** Memory: the buffer holds the message, with room for a terminating NUL. *)
Record buf_ok (p : http_parser) : Prop := mk_bufok {
  bo_size : 0 <= msgsize p <= len (msgbuf p);
  bo_cap : len (msgbuf p) <= bufsize p;
  bo_nul : msgsize p < bufsize p \/ bufsize p = 0 }.

Lemma len_message p : 0 <= msgsize p <= len (msgbuf p) -> len (message p) = msgsize p.
Proof. intros. unfold message. rewrite length_take. lia. Qed.

(** Making room and copying: the message grows by the new bytes. *)
Lemma receive_ok bytes p h :
  buf_ok p -> msgsize p + len bytes < 2 ^ 62 ->
  exists ok p0 h0, ensure_room (len bytes) p h = Some (ok, p0, h0) /\
    (h = [] -> ok = true /\ h0 = []) /\
    if ok then exists mb bs, store_message bytes p0 = Some (setbuf mb (msgsize p + len bytes) bs p) /\
      buf_ok (setbuf mb (msgsize p + len bytes) bs p) /\
      message (setbuf mb (msgsize p + len bytes) bs p) = message p ++ bytes /\
      msgsize p + len bytes < bs
    else p0 = p.
Proof.
  intros [Hs Hc Hn] Hb. unfold ensure_room. rewrite (wrap_small 64 (msgsize p + len bytes + 1)) by lia.
  assert (Hstore : forall bs, msgsize p + len bytes < bs -> len (msgbuf p) <= bs ->
    exists mb, store_message bytes (set_bufsize bs p) =
        Some (setbuf mb (msgsize p + len bytes) bs p) /\
      buf_ok (setbuf mb (msgsize p + len bytes) bs p) /\
      message (setbuf mb (msgsize p + len bytes) bs p) = message p ++ bytes /\
      msgsize p + len bytes < bs).
  { intros bs H1 H2. unfold store_message. cbn [msgsize set_bufsize bufsize].
    rewrite (proj2 (Z.leb_le _ _)) by lia.
    set (mb := take _ _ ++ _). exists mb. split; [done|].
    assert (Hmb : len mb = Z.max (len (msgbuf p)) (msgsize p + len bytes)).
    { unfold mb. cbn [msgbuf set_bufsize]. rewrite !length_app, length_take, length_drop. lia. }
    split; [|split; [|done]].
    - constructor; cbn [setbuf msgbuf msgsize bufsize set_msgbuf set_msgsize set_bufsize]; lia.
    - unfold message, mb. cbn [setbuf msgbuf msgsize set_msgbuf set_msgsize set_bufsize].
      rewrite app_assoc. rewrite take_app_le by (rewrite length_app, length_take; lia).
      rewrite take_ge; [done|]. rewrite length_app, length_take; lia. }
  destruct (Z.ltb_spec (bufsize p) (msgsize p + len bytes + 1)) as [Hlt|Hge].
  - destruct (grow_ok 64 (Z.max HTTP_MSGBUF_INIT_SIZE (u64 (2 * bufsize p))) (msgsize p + len bytes + 1))
      as (r & -> & Hr); [unfold HTTP_MSGBUF_INIT_SIZE; lia|lia| | |lia|].
    { rewrite wrap_small by lia. unfold HTTP_MSGBUF_INIT_SIZE. lia. }
    { unfold HTTP_MSGBUF_INIT_SIZE. change (2 ^ Z.of_nat 64) with (2 ^ 64). lia. }
    cbn [mbind option_bind]. destruct (malloc h) as [ok h0] eqn:Eh.
    assert (h = [] -> ok = true /\ h0 = []) by (intros ->; cbn in Eh; by simplify_eq).
    exists ok, (if ok then set_bufsize r p else p), h0. split; [done|]. split; [done|].
    destruct ok; [|done]. destruct (Hstore r) as (mb & Hst); [lia..|]. by exists mb, r.
  - exists true, p, h. split; [done|]. split; [done|].
    destruct (Hstore (bufsize p)) as (mb & Hst); [lia..|]. exists mb, (bufsize p).
    by replace (set_bufsize (bufsize p) p) with p in Hst by (by destruct p).
Qed.

Lemma hok_setbuf mb ms bs p : hok p -> hok (setbuf mb ms bs p).
Proof. intros []. by constructor. Qed.
Lemma aready_setbuf mb ms bs m p : aready m p -> aready m (setbuf mb ms bs p).
Proof. intros [? ? Hc]. constructor; [by apply hok_setbuf|done|]. intros. by apply Hc. Qed.

(** ** Appending is analysing the longer message *)

Lemma message_frame p q : hframe p q -> message q = message p.
Proof. intros (E1 & E2 & _). unfold message. by rewrite E1, E2. Qed.

(** The parser after a call: the buffer fields, and [complete] at the end. *)
Definition commit (r : Z) (mb : list Z) (size bs t : Z) (q : http_parser) : http_parser :=
  if r =? 1 then set_complete true (setbuf mb t bs q) else setbuf mb size bs q.

Lemma append_body_analyse n p r q t :
  aready (message p) p -> header_state p = HPS_HEADER_COMPLETE -> 0 <= msgsize p <= len (msgbuf p) ->
  msgsize p < 2 ^ 62 -> analyse_body (message p) p = Some (r, q, t) -> cmoved p q ->
  (r = -2 \/ r = 0 \/ r = 1) ->
  append_body n p = Some (if r =? 1 then finish t n q else (r, n, q)).
Proof.
  intros Ha Hs Hb Hsz E Hm Hr. pose proof (len_message p Hb) as Hl.
  pose proof (ar_hok _ _ Ha) as Hok. pose proof (ar_offset _ _ Ha).
  pose proof (hok_transfer p Hok) as Ht. pose proof (hok_offset p Hok).
  unfold append_body, analyse_body in *. destruct (Z.eqb_spec (transfer_length p) SIZE_MAX) as [Et|Et]; cbn [negb] in *.
  - destruct (chunked p) eqn:Ec; cbn [negb] in *; [|by simplify_eq].
    destruct (ar_chunk _ _ Ha Hs Et Ec) as [[Hne _] _]. rewrite decide_False by done.
    unfold __parse_chunk. destruct (chunk_loop _ _ p) as [[r0 q0]|]; [|done].
    cbn [mbind option_bind] in *. destruct (r0 <=? 0) eqn:E0; simplify_eq; [|done].
    by replace (r =? 1) with false by lia.
  - rewrite wrap_small by (destruct Ht; [done|lia]). rewrite Hl in E.
    destruct (header_offset p + transfer_length p <=? msgsize p); by simplify_eq.
Qed.

Lemma append_analyse buf bytes p h :
  buf_ok p -> complete p = false -> aready (message p) p ->
  memcpy (len bytes) buf = Some bytes -> msgsize p + len bytes < 2 ^ 62 ->
  exists ok p0 h0, ensure_room (len bytes) p h = Some (ok, p0, h0) /\
    (h = [] -> ok = true /\ h0 = []) /\
    if ok then
      exists mb bs r q t h', an_facts (message p ++ bytes) p h0 r q t h' /\
        buf_ok (setbuf mb (msgsize p + len bytes) bs q) /\ msgsize p + len bytes < bs /\
        message (setbuf mb (msgsize p + len bytes) bs q) = message p ++ bytes /\
        http_parser_append_message buf (len bytes) p h =
        Some (r, if r =? 1 then u64 (len bytes - (msgsize p + len bytes - t)) else len bytes,
              commit r mb (msgsize p + len bytes) bs t q, h')
    else http_parser_append_message buf (len bytes) p h = Some (-1, len bytes, p, h0).
Proof.
  intros Hb Hc Ha Hm Hsz. destruct (receive_ok bytes p h Hb Hsz) as (ok & p0 & h0 & E & Hh & Hok).
  exists ok, p0, h0. split; [done|]. split; [done|]. unfold http_parser_append_message. rewrite Hc, E.
  cbn [mbind option_bind]. destruct ok; cbn [negb]; [|by subst].
  destruct Hok as (mb & bs & Es & Hb1 & Hmsg & Hbs). set (size := msgsize p + len bytes) in *.
  rewrite Hm. cbn [mbind option_bind]. rewrite Es. cbn [mbind option_bind].
  set (P := setbuf mb size bs p) in *.
  assert (Ham : aready (message p ++ bytes) p) by (by apply aready_ext).
  assert (HaP : aready (message P) P) by (rewrite Hmsg; by apply aready_setbuf).
  destruct (analyse_ok (message p ++ bytes) p h0 Ham) as (r & q & t & h' & F).
  assert (FP : analyse (message P) P h0 = Some (r, setbuf mb size bs q, t, h')).
  { rewrite Hmsg. unfold P. rewrite analyse_setbuf, (an_run _ _ _ _ _ _ _ F). done. }
  exists mb, bs, r, q, t, h'. pose proof (an_frame _ _ _ _ _ _ _ F) as Hfr.
  split; [done|]. split; [by destruct Hb1; constructor|]. split; [done|]. split; [done|].
  change (header_state P) with (header_state p). unfold analyse in FP.
  change (header_state P) with (header_state p) in FP. case_decide as Hs.
  - cbn [mbind option_bind]. destruct (analyse_body_ok _ _ HaP Hs) as (r1 & q1 & t1 & F1).
    rewrite (bf_run _ _ _ _ _ F1) in FP. cbn in FP. simplify_eq.
    rewrite (append_body_analyse _ _ r (setbuf mb size bs q) t); [|done|done|apply Hb1|done|apply F1..].
    cbn [Z.leb Z.compare mbind option_bind]. unfold commit, finish.
    destruct (r =? 1) eqn:Er; [|done]. by replace r with 1 by lia.
  - unfold __parse_message_header. destruct (header_loop _ _ P h0) as [[[r1 q1] h1]|] eqn:El; [|done].
    cbn [mbind option_bind] in *. destruct (r1 <=? 0) eqn:E1.
    + simplify_eq. rewrite ?E1. unfold commit. by replace (r =? 1) with false by lia.
    +
      assert (Hr1 : ready (message P) P) by (destruct HaP; by split_and!).
      destruct (header_loop_total (message P) (S (length (message P))) P h0 Hr1) as (r2 & q2 & h2 & E2 & P2).
      { pose proof (hok_offset p (ar_hok _ _ Ha)). change (header_offset P) with (header_offset p). lia. }
      rewrite El in E2. simplify_eq. pose proof (post_ret _ _ _ _ _ _ P2).
      assert (r2 = 1) as -> by lia.
      pose proof (message_frame _ _ (post_frame _ _ _ _ _ _ P2)) as Em.
      destruct (aready_start_body (message P) q2) as [Ha2 Hs2]; [apply P2|apply P2|by apply P2|].
      assert (Em2 : message (start_body q2) = message P).
      { rewrite <- Em. unfold start_body, message. by repeat case_match. }
      destruct (analyse_body_ok _ _ Ha2 Hs2) as (r3 & q3 & t3 & F3).
      rewrite (bf_run _ _ _ _ _ F3) in FP. cbn in FP. simplify_eq.
      assert (Hfs : msgsize (start_body q2) = size /\ msgbuf (start_body q2) = mb).
      { destruct (hframe_start_body P q2 (post_frame _ _ _ _ _ _ P2)) as (Ef1 & Ef2 & _).
        by rewrite Ef1, Ef2. }
      destruct Hfs as [Hf1 Hf2].
      rewrite (append_body_analyse _ _ r (setbuf mb size bs q) t).
      * unfold commit, finish. destruct (r =? 1) eqn:Er; [|done]. by replace r with 1 by lia.
      * by rewrite Em2.
      * done.
      * rewrite Hf1, Hf2. apply Hb1.
      * by rewrite Hf1.
      * rewrite Em2. apply F3.
      * apply F3.
      * apply F3.
Qed.

(** ** The parser between two calls *)

(** Safe to call: the buffer is sound, and so is the position in it. *)
Definition parser_ok (p : http_parser) : Prop :=
  buf_ok p /\ hok p /\ (complete p = false -> aready (message p) p).

(** Waiting for bytes: what has been received does not end the message. *)
Definition waiting (p : http_parser) : Prop :=
  parser_ok p /\ complete p = false /\
  exists q t, hsim p q /\ analyse (message p) p [] = Some (0, q, t, []).

(** What the users of a parser can see: everything but the spare capacity of the
    message buffer and the scratch contents of [namebuf]. *)
Definition obs_eq (p q : http_parser) : Prop :=
  hsim (setbuf [] 0 0 p) (setbuf [] 0 0 q) /\ msgsize p = msgsize q /\ message p = message q.

Lemma hsim_setbuf mb ms bs p q : hsim p q -> hsim (setbuf mb ms bs p) (setbuf mb ms bs q).
Proof.
  intros Hsim. rewrite (hsim_inv _ _ Hsim). destruct Hsim as (_ & Hp & Hq & Hn).
  apply (hsim_intro (namebuf q) (setbuf mb ms bs p)); [by apply hok_setbuf|apply Hq|].
  intros. by symmetry; apply Hn.
Qed.

Lemma hsim_complete p q : hsim p q -> hsim (set_complete true p) (set_complete true q).
Proof.
  intros Hsim. rewrite (hsim_inv _ _ Hsim). destruct Hsim as (_ & Hp & Hq & Hn).
  apply (hsim_intro (namebuf q) (set_complete true p)); [|apply Hq|].
  - by destruct Hp; constructor.
  - intros. by symmetry; apply Hn.
Qed.

(** Every initialised parser waits. *)
Lemma init_waiting is_resp p :
  length (namebuf p) = HTTP_HEADER_NAME_MAX -> waiting (http_parser_init is_resp p).
Proof.
  intros Hn. set (p0 := http_parser_init is_resp p).
  assert (Hok : hok p0).
  { constructor; cbn; [done|done|lia| |by left|done]. destruct is_resp; [by left|right; lia]. }
  assert (Hb : buf_ok p0) by (constructor; cbn; lia).
  split; [split; [done|split; [done|]]|split; [done|]].
  - intros _. constructor; [done|cbn; lia|done].
  - exists p0, 0. split; [by apply hsim_refl|]. unfold analyse. cbn. done.
Qed.

(** What a call does to a waiting parser when memory is available. *)
Lemma append_waiting bytes p :
  waiting p -> msgsize p + len bytes < 2 ^ 62 ->
  exists mb bs r q t, an_facts (message p ++ bytes) p [] r q t [] /\
    (r = -2 \/ r = 0 \/ r = 1) /\ buf_ok (setbuf mb (msgsize p + len bytes) bs q) /\
    msgsize p + len bytes < bs /\
    message (setbuf mb (msgsize p + len bytes) bs q) = message p ++ bytes /\
    (r = 1 -> msgsize p < t <= msgsize p + len bytes) /\
    http_parser_append_message bytes (len bytes) p [] =
      Some (r, if r =? 1 then t - msgsize p else len bytes,
            commit r mb (msgsize p + len bytes) bs t q, []).
Proof.
  intros ((Hb & Hok & Ha) & Hc & q0 & t0 & _ & E0) Hsz. specialize (Ha Hc).
  assert (Hm : memcpy (len bytes) bytes = Some bytes)
    by (rewrite <- (app_nil_r bytes) at 2; apply memcpy_app).
  destruct (append_analyse bytes bytes p [] Hb Hc Ha Hm Hsz) as (ok & p0 & h0 & _ & Hh & H).
  destruct (Hh eq_refl) as [-> ->].
  destruct H as (mb & bs & r & q & t & h' & F & Hb1 & Hbs & Hmsg & E).
  destruct (an_mem _ _ _ _ _ _ _ F eq_refl) as [-> Hr1]. pose proof (an_ret _ _ _ _ _ _ _ F).
  destruct (analyse_ok (message p) p [] Ha) as (r3 & q3 & t3 & h3 & F3).
  pose proof (an_run _ _ _ _ _ _ _ F3) as E3. rewrite E0 in E3. simplify_eq.
  destruct (an_resume _ _ _ _ _ _ _ F3 eq_refl bytes) as (r4 & q4 & q5 & t4 & h4 & E4 & _ & _ & Hlt).
  rewrite (an_run _ _ _ _ _ _ _ F) in E4. simplify_eq. rewrite (len_message p) in Hlt by apply Hb.
  assert (Ht : r4 = 1 -> msgsize p < t4 <= msgsize p + len bytes).
  { intros ->. destruct (an_total _ _ _ _ _ _ _ F eq_refl) as [Ht _].
    rewrite length_app, Nat2Z.inj_add, (len_message p) in Ht by apply Hb. auto with lia. }
  exists mb, bs, r4, q4, t4. split_and!; try done; [lia|]. rewrite E.
  destruct (Z.eqb_spec r4 1) as [->|]; [|done]. specialize (Ht eq_refl).
  pose proof (bo_size p Hb). rewrite wrap_small by lia. do 4 f_equal. lia.
Qed.

(** After a call that asks for more, the parser waits. *)
Lemma commit_waiting bytes p mb bs q t :
  waiting p -> an_facts (message p ++ bytes) p [] 0 q t [] ->
  buf_ok (setbuf mb (msgsize p + len bytes) bs q) ->
  message (setbuf mb (msgsize p + len bytes) bs q) = message p ++ bytes ->
  waiting (commit 0 mb (msgsize p + len bytes) bs t q).
Proof.
  intros ((Hb & Hok & Ha) & Hc & _) F Hb1 Hmsg. unfold commit. change (0 =? 1) with false. cbv iota.
  split; [split; [done|split; [by apply hok_setbuf, F|]]|split].
  - intros _. rewrite Hmsg. by apply aready_setbuf, F.
  - destruct (an_frame _ _ _ _ _ _ _ F) as (_ & _ & _ & Ec & _). cbn. congruence.
  - destruct (an_resume _ _ _ _ _ _ _ F eq_refl []) as (r2 & q2 & q3 & t2 & h2 & E1 & E2 & Hsim & _).
    rewrite app_nil_r, (an_run _ _ _ _ _ _ _ F) in E1. rewrite app_nil_r in E2.
    injection E1 as <- <- <- <-. rewrite Hmsg, analyse_setbuf, E2. cbn [fmap option_fmap option_map].
    eexists _, _. split; [|done]. by apply hsim_setbuf.
Qed.

(** Two analyses that agree give parsers that cannot be told apart. *)
Lemma commit_obs_eq r mb1 mb2 s1 s2 bs1 bs2 t q1 q2 :
  hsim q1 q2 ->
  (if r =? 1 then take (Z.to_nat t) mb1 = take (Z.to_nat t) mb2
   else s1 = s2 /\ take (Z.to_nat s1) mb1 = take (Z.to_nat s2) mb2) ->
  obs_eq (commit r mb1 s1 bs1 t q1) (commit r mb2 s2 bs2 t q2).
Proof.
  intros Hsim H. unfold commit, obs_eq, message. destruct (r =? 1).
  - split; [|by cbn]. apply (hsim_complete (setbuf [] 0 0 q1) (setbuf [] 0 0 q2)).
    by apply hsim_setbuf.
  - destruct H as [-> H]. split; [|by cbn]. by apply (hsim_setbuf [] 0 0 q1 q2).
Qed.

Lemma take_prefix_message (m1 m2 mb1 mb2 : list Z) s1 s2 t :
  take (Z.to_nat s1) mb1 = m1 -> take (Z.to_nat s2) mb2 = m1 ++ m2 ->
  0 <= t <= s1 -> s1 <= s2 -> len m1 = s1 ->
  take (Z.to_nat t) mb1 = take (Z.to_nat t) mb2.
Proof.
  intros E1 E2 Ht Hs Hl.
  transitivity (take (Z.to_nat t) m1).
  - rewrite <- E1, take_take. f_equal. lia.
  - transitivity (take (Z.to_nat t) (m1 ++ m2)); [rewrite take_app_le; [done|lia]|].
    rewrite <- E2, take_take. f_equal. lia.
Qed.

(** Two pieces and the two pieces together. *)
Lemma append_two b1 b2 p :
  waiting p -> msgsize p + len (b1 ++ b2) < 2 ^ 62 ->
  exists r1 n1 p1, http_parser_append_message b1 (len b1) p [] = Some (r1, n1, p1, []) /\
  exists r n p', http_parser_append_message (b1 ++ b2) (len (b1 ++ b2)) p [] = Some (r, n, p', []) /\
  if r1 =? 0 then
    n1 = len b1 /\ waiting p1 /\ msgsize p1 = msgsize p + len b1 /\
    exists n2 p2, http_parser_append_message b2 (len b2) p1 [] = Some (r, n2, p2, []) /\
      n = len b1 + n2 /\ obs_eq p2 p'
  else r = r1 /\ (r1 = 1 -> n = n1 /\ obs_eq p1 p').
Proof.
  intros Hw Hsz. rewrite length_app in Hsz.
  pose proof Hw as ((Hb & _) & _). pose proof (len_message p (bo_size p Hb)) as Hlm.
  pose proof (bo_size p Hb) as Hms.
  destruct (append_waiting b1 p Hw) as (mb1 & bs1 & r1 & q1 & t1 & F1 & Hr1 & B1 & Hbs1 & M1 & T1 & E1);
    [lia|].
  destruct (append_waiting (b1 ++ b2) p Hw) as (mb & bs & r & q & t & F & Hr & B & Hbs & M & T & E);
    [rewrite length_app; lia|].
  eexists r1, _, _. split; [exact E1|]. eexists r, _, _. split; [exact E|].
  pose proof (an_run _ _ _ _ _ _ _ F) as Ea. rewrite app_assoc in Ea.
  destruct (Z.eqb_spec r1 0) as [->|Hne].
  - pose proof (commit_waiting _ _ _ _ _ _ Hw F1 B1 M1) as Hw1.
    set (p1 := commit 0 mb1 (msgsize p + len b1) bs1 t1 q1) in *.
    assert (Hm1 : message p1 = message p ++ b1) by exact M1.
    assert (Hs1 : msgsize p1 = msgsize p + len b1) by done.
    split; [done|]. split; [done|]. split; [done|].
    destruct (append_waiting b2 p1 Hw1) as (mb2 & bs2 & r2 & q2 & t2 & F2 & Hr2 & B2 & Hbs2 & M2 & T2 & E2);
      [rewrite Hs1; lia|].
    destruct (an_resume _ _ _ _ _ _ _ F1 eq_refl b2) as (r3 & q3 & q4 & t3 & h3 & Ea1 & Ea2 & Hsim & _).
    rewrite Ea in Ea1. injection Ea1 as <- <- <- <-.
    pose proof (an_run _ _ _ _ _ _ _ F2) as Ea3. rewrite Hm1 in Ea3.
    unfold p1, commit in Ea3. change (0 =? 1) with false in Ea3. cbv iota in Ea3.
    rewrite analyse_setbuf, Ea2 in Ea3. cbn [fmap option_fmap option_map] in Ea3.
    injection Ea3 as <- <- <-.
    eexists _, _. split; [exact E2|]. rewrite Hs1, length_app. split.
    { destruct (r =? 1); lia. }
    assert (Hsim' : hsim (setbuf mb1 (msgsize p + len b1) bs1 q4)
                         (setbuf mb1 (msgsize p + len b1) bs1 q)).
    { by apply hsim_setbuf, hsim_sym. }
    rewrite Hs1 in T2. rewrite Hm1 in M2. unfold message in M2 at 1. rewrite Hs1 in M2.
    assert (Hcom : commit r mb (msgsize p + Z.of_nat (length b1 + length b2)) bs t q =
      commit r mb (msgsize p + Z.of_nat (length b1 + length b2)) bs t
        (setbuf mb1 (msgsize p + len b1) bs1 q)) by (unfold commit; by destruct (r =? 1)).
    rewrite Hcom. apply commit_obs_eq; [done|].
    unfold message in M at 1.
    cbn [msgsize msgbuf setbuf set_msgbuf set_msgsize set_bufsize] in M, M2. rewrite length_app in M.
    assert (Ek : take (Z.to_nat (msgsize p + len b1 + len b2)) mb2 =
                 take (Z.to_nat (msgsize p + Z.of_nat (length b1 + length b2))) mb).
    { rewrite M, M2. by rewrite app_assoc. }
    destruct (Z.eqb_spec r 1) as [->|]; [|split; [lia|done]].
    specialize (T2 eq_refl).
    eapply (take_prefix_message _ [] mb2 mb _ _ t M2); [by rewrite app_nil_r, <- Ek|lia..|].
    rewrite !length_app. lia.
  - rewrite (an_ext _ _ _ _ _ _ _ F1 Hne b2) in Ea. injection Ea as <- <- <-. split; [done|]. intros ->.
    split; [done|]. apply commit_obs_eq; [by apply hsim_refl, F|]. change (1 =? 1) with true. cbv iota.
    unfold message in M at 1. unfold message in M1 at 1.
    cbn [msgsize msgbuf setbuf set_msgbuf set_msgsize set_bufsize] in M, M1. specialize (T1 eq_refl). rewrite app_assoc in M.
    eapply (take_prefix_message _ b2); [exact M1|exact M|lia|rewrite length_app; lia|].
    rewrite length_app. lia.
Qed.

(** ** Sequences of pieces *)

(** Feed the pieces of a message one after the other until one ends it or fails:
    the last value returned, the number of bytes accepted and the parser. *)
Fixpoint feed (pieces : list (list Z)) (p : http_parser) : option (Z * Z * http_parser) :=
  match pieces with
  | [] => Some (0, 0, p)
  | b :: pieces =>
      '(r, n, p1, _) ← http_parser_append_message b (len b) p [];
      if r =? 0 then '(r2, n2, p2) ← feed pieces p1; Some (r2, n + n2, p2) else Some (r, n, p1)
  end.

Lemma obs_eq_refl p : hok p -> obs_eq p p.
Proof. intros. split; [|done]. by apply hsim_refl, hok_setbuf. Qed.

Lemma obs_eq_trans p q r : obs_eq p q -> obs_eq q r -> obs_eq p r.
Proof.
  intros (H1 & E1 & M1) (H2 & E2 & M2). split; [by eapply hsim_trans|]. split; congruence.
Qed.

(** Nothing new leaves a waiting parser as it is. *)
Lemma append_nil p : waiting p -> msgsize p < 2 ^ 62 ->
  exists p', http_parser_append_message [] 0 p [] = Some (0, 0, p', []) /\ obs_eq p p'.
Proof.
  intros Hw Hsz. pose proof Hw as ((Hb & _) & _ & q0 & t0 & Hsim & E0).
  destruct (append_waiting [] p Hw) as (mb & bs & r & q & t & F & Hr & B & Hbs & M & T & E); [cbn; lia|].
  pose proof (an_run _ _ _ _ _ _ _ F) as E1. rewrite app_nil_r, E0 in E1.
  injection E1 as <- <- <-. eexists. split; [exact E|].
  assert (Em : msgsize p + len (@nil Z) = msgsize p) by (cbn; lia). rewrite Em, app_nil_r in *.
  unfold commit. change (0 =? 1) with false. cbv iota. split; [|split; [done|by rewrite M]].
  by apply (hsim_setbuf [] 0 0 p q0).
Qed.

Lemma feed_append pieces : forall p,
  waiting p -> msgsize p + len (concat pieces) < 2 ^ 62 ->
  exists r n p1, feed pieces p = Some (r, n, p1) /\
  exists n' p2, http_parser_append_message (concat pieces) (len (concat pieces)) p [] =
      Some (r, n', p2, []) /\ (0 <= r -> n = n' /\ obs_eq p1 p2).
Proof.
  induction pieces as [|b pieces IH]; intros p Hw Hsz; cbn [concat feed] in *.
  - destruct (append_nil p Hw) as (p2 & E & Ho); [cbn in Hsz; lia|].
    exists 0, 0, p. split; [done|]. by exists 0, p2.
  - destruct (append_two b (concat pieces) p Hw Hsz) as (r1 & n1 & p1 & E1 & r & n & p' & E & H).
    rewrite E1. cbn [mbind option_bind]. destruct (r1 =? 0) eqn:Er.
    + destruct H as (-> & Hw1 & Hs1 & n2 & p2 & E2 & -> & Ho).
      rewrite length_app in Hsz. destruct (IH p1 Hw1) as (r3 & n3 & p3 & E3 & n4 & p4 & E4 & H4);
        [lia|]. rewrite E2 in E4. injection E4 as <- <- <-. rewrite E3. cbn [mbind option_bind].
      eexists r, _, p3. split; [done|]. exists (len b + n2), p'. split; [exact E|].
      intros Hr. destruct (H4 Hr) as [-> Ho3]. split; [done|]. by eapply obs_eq_trans.
    + destruct H as [-> H]. exists r1, n1, p1. split; [done|]. exists n, p'. split; [done|].
      intros Hr. destruct (append_waiting b p Hw) as (mb & bs & r2 & q & t & _ & Hr2 & _ & _ & _ & _ & E3);
        [rewrite length_app in Hsz; lia|].
      rewrite E1 in E3. injection E3 as E3 _ _. destruct H; [lia|]. done.
Qed.

(** ** Claims *)

(** C1. Feeding a message in pieces is feeding it at once: starting from any
    waiting parser (in particular a freshly initialised one), whatever the bytes
    and however they are cut, [http_parser_append_message] on the pieces and on
    their concatenation return the same value; unless the message is wrong they
    accept the same number of bytes and leave parsers that differ only in spare
    capacity and in the scratch contents of [namebuf]. *)
Theorem feed_pieces pieces p :
  waiting p -> msgsize p + len (concat pieces) < 2 ^ 62 ->
  exists r n p1 n' p2, feed pieces p = Some (r, n, p1) /\
    http_parser_append_message (concat pieces) (len (concat pieces)) p [] = Some (r, n', p2, []) /\
    (0 <= r -> n = n' /\ obs_eq p1 p2).
Proof.
  intros Hw Hsz. destruct (feed_append pieces p Hw Hsz) as (r & n & p1 & E & n' & p2 & E2 & H).
  by exists r, n, p1, n', p2.
Qed.

(** Accounting: a call on a waiting parser returns 0 after storing all the
    bytes and leaves a waiting parser, or -2, or 1 with [complete] set; in the
    last case [*n] says how many of the bytes belong to the message, at least one
    and at most all of them, and the message ends exactly there. *)
Theorem append_accounts bytes p :
  waiting p -> msgsize p + len bytes < 2 ^ 62 ->
  exists r n p', http_parser_append_message bytes (len bytes) p [] = Some (r, n, p', []) /\
    ((r = 0 /\ n = len bytes /\ waiting p' /\ message p' = message p ++ bytes) \/
     (r = -2 /\ n = len bytes) \/
     (r = 1 /\ 0 < n <= len bytes /\ complete p' = true /\ parser_ok p' /\
      message p' = message p ++ take (Z.to_nat n) bytes)).
Proof.
  intros Hw Hsz. pose proof Hw as ((Hb & _) & _). pose proof (bo_size p Hb).
  pose proof (len_message p (bo_size p Hb)) as Hlm.
  destruct (append_waiting bytes p Hw Hsz) as (mb & bs & r & q & t & F & Hr & B & Hbs & M & T & E).
  eexists r, _, _. split; [exact E|].
  destruct Hr as [-> | [-> | ->]]; [right; left; done|left|right; right].
  - split; [done|]. split; [done|]. split; [by eapply commit_waiting|exact M].
  - specialize (T eq_refl). change (1 =? 1) with true. cbv iota. split; [done|]. split; [lia|].
    split; [done|]. destruct B as [B1 B2 B3]. cbn in B1, B2, B3. split.
    + split; [constructor; cbn; lia|]. split; [|done].
      pose proof (an_hok _ _ _ _ _ _ _ F) as []. by constructor.
    + unfold commit. change (1 =? 1) with true. cbv iota. unfold message in M at 1. cbn in M.
      transitivity (take (Z.to_nat t) (message p ++ bytes)).
      * rewrite <- M, take_take. unfold message. cbn. f_equal. lia.
      * rewrite take_app_ge by lia. f_equal. f_equal. lia.
Qed.

(** C8. Memory safety: on a sound parser, for any bytes and whatever the answers
    of the allocator, [http_parser_append_message] reads and writes within its
    buffers, ends, returns 0, 1, -1 or -2, and leaves a sound parser when it
    returns 0 or 1 (and a sound message buffer and header list in every case). *)
Theorem append_safe buf bytes p h :
  parser_ok p -> memcpy (len bytes) buf = Some bytes -> msgsize p + len bytes < 2 ^ 62 ->
  exists r n p' h', http_parser_append_message buf (len bytes) p h = Some (r, n, p', h') /\
    (r = -2 \/ r = -1 \/ r = 0 \/ r = 1) /\ buf_ok p' /\ hok p' /\
    (0 <= r -> parser_ok p') /\ (r = 1 -> complete p' = true).
Proof.
  intros (Hb & Hok & Ha) Hm Hsz. destruct (complete p) eqn:Hc.
  { exists 1, 0, p, h. unfold http_parser_append_message. rewrite Hc.
    split; [done|]. split; [auto|]. split; [done|]. split; [done|]. split; [|done].
    intros _. split; [done|]. split; [done|]. by rewrite Hc. }
  destruct (append_analyse buf bytes p h Hb Hc (Ha eq_refl) Hm Hsz) as (ok & p0 & h0 & _ & _ & H).
  destruct ok.
  - destruct H as (mb & bs & r & q & t & h' & F & B & Hbs & M & E).
    eexists r, _, _, h'. split; [exact E|]. split; [apply F|].
    pose proof (an_hok _ _ _ _ _ _ _ F) as Hq. pose proof (bo_size p Hb).
    pose proof (len_message p (bo_size p Hb)) as Hlm. unfold commit.
    destruct (Z.eqb_spec r 1) as [->|Hne].
    + destruct (an_total _ _ _ _ _ _ _ F eq_refl) as [Ht _]. pose proof (hok_offset q Hq).
      rewrite length_app in Ht. destruct B as [B1 B2 B3]. cbn in B1, B2, B3.
      assert (buf_ok (set_complete true (setbuf mb t bs q))) by (constructor; cbn; lia).
      assert (hok (set_complete true (setbuf mb t bs q))) by (by destruct Hq; constructor).
      split; [done|]. split; [done|]. split; [|done]. intros _. split; [done|]. split; [done|]. done.
    + assert (hok (setbuf mb (msgsize p + len bytes) bs q)) by (by apply hok_setbuf).
      split; [done|]. split; [done|]. split; [|lia]. intros Hr.
      split; [done|]. split; [done|]. intros _. rewrite M. apply aready_setbuf.
      pose proof (an_ret _ _ _ _ _ _ _ F). apply F. lia.
  - exists (-1), (len bytes), p, h0. split; [done|]. split; [auto|]. split; [done|]. split; [done|].
    split; lia.
Qed.

(** *** Concrete instances *)

(** A request cut inside its header, and what follows it on the connection. *)
Definition demo_memory : http_parser :=
  mk_parser HPS_START_LINE CPS_CHUNK_DATA 0 0 0 0 None None None None None [] (repeat 7 64)
    [] 0 0 false false false false false false false false.
Definition demo_parser : http_parser := http_parser_init false demo_memory.
(* "GET / HTTP/1.1\r\nA: " and "b\r\n\r\nGE" *)
Definition demo_piece1 : list Z :=
  [71; 69; 84; 32; 47; 32; 72; 84; 84; 80; 47; 49; 46; 49; 13; 10; 65; 58; 32].
Definition demo_piece2 : list Z := [98; 13; 10; 13; 10; 71; 69].

Lemma demo_waiting : waiting demo_parser.
Proof. apply init_waiting. by vm_compute. Qed.

Lemma feed_pieces_witness :
  exists r n p1 n' p2, feed [demo_piece1; demo_piece2] demo_parser = Some (r, n, p1) /\
    http_parser_append_message (demo_piece1 ++ demo_piece2) 26 demo_parser [] = Some (r, n', p2, []) /\
    (0 <= r -> n = n' /\ obs_eq p1 p2).
Proof.
  apply (feed_pieces [demo_piece1; demo_piece2] demo_parser).
  - exact demo_waiting.
  - vm_compute. reflexivity.
Defined.

Lemma append_accounts_witness :
  exists r n p', http_parser_append_message demo_piece1 19 demo_parser [] = Some (r, n, p', []) /\
    ((r = 0 /\ n = 19 /\ waiting p' /\ message p' = demo_piece1) \/
     (r = -2 /\ n = 19) \/
     (r = 1 /\ 0 < n <= 19 /\ complete p' = true /\ parser_ok p' /\
      message p' = take (Z.to_nat n) demo_piece1)).
Proof.
  apply (append_accounts demo_piece1 demo_parser).
  - exact demo_waiting.
  - vm_compute. reflexivity.
Defined.

Lemma append_safe_witness :
  exists r n p' h', http_parser_append_message (demo_piece1 ++ [0]) 19 demo_parser [true; false] =
      Some (r, n, p', h') /\
    (r = -2 \/ r = -1 \/ r = 0 \/ r = 1) /\ buf_ok p' /\ hok p' /\
    (0 <= r -> parser_ok p') /\ (r = 1 -> complete p' = true).
Proof.
  apply (append_safe (demo_piece1 ++ [0]) demo_piece1 demo_parser [true; false]).
  - exact (proj1 demo_waiting).
  - vm_compute. reflexivity.
  - vm_compute. reflexivity.
Defined.
