(* ===== verification/HttpHeaders.v ===== *)
(** * The header list: setting, finding, erasing, printing and parsing back

    The stored lines are seen as the list of the (name, value) pairs they hold.
    On this view [http_parser_set_header] replaces the value of the first header
    with the name or adds one, the cursors walk the list, and what
    [HttpMessage::encode] sends is parsed back to the same pairs. *)

From S2P Require Import Prelude CLib HttpParser HttpScan HttpHeader.

Local Open Scope Z_scope.

(** ** The pairs a list of lines holds *)

Definition line_repr (l : header_line) (h : list Z * list Z) : Prop :=
  exists pad, buf l = line_bytes h.1 h.2 ++ pad /\ name_len l = len h.1 /\ value_len l = len h.2 /\
    len h.1 < 2 ^ 31 /\ len h.2 < 2 ^ 31.

Definition lines_repr : list header_line -> list (list Z * list Z) -> Prop := Forall2 line_repr.

(** The headers of a parser. *)
Definition headers (p : http_parser) (hs : list (list Z * list Z)) : Prop :=
  lines_repr (header_list p) hs.

Lemma line_ok_repr l : line_ok l <-> exists h, line_repr l h.
Proof.
  split; [intros (n & v & pad & H); exists (n, v), pad; tauto|].
  intros ([n v] & pad & H). exists n, v, pad. tauto.
Qed.

(** Names are compared without case, as [strncasecmp] does. *)
Definition same_name (n name : list Z) : bool :=
  (len n =? len name) && strncasecmp_eq (length name) n name.

Lemma strncasecmp_refl n a : strncasecmp_eq n a a = true.
Proof. revert a. induction n as [|n IH]; intros a; cbn; [done|]. rewrite IH, Z.eqb_refl. by rewrite orb_true_r. Qed.

Lemma same_name_refl n : same_name n n = true.
Proof. unfold same_name. by rewrite Z.eqb_refl, strncasecmp_refl. Qed.

Lemma line_matches_repr l h name :
  line_repr l h -> line_matches name (len name) l = same_name h.1 name.
Proof.
  destruct h as [n v]. cbn. intros (pad & Eb & En & _ & Hn & _). unfold line_matches, same_name.
  rewrite En, wrap_small, Nat2Z.id by (cbn in *; lia). cbn [fst] in *.
  destruct (Z.eqb_spec (len n) (len name)) as [E|]; [|done]. cbn [andb].
  rewrite <- strncasecmp_take. f_equal. rewrite Eb. unfold line_bytes. cbn.
  rewrite <- app_assoc, take_app_le by lia. by rewrite take_ge by lia.
Qed.

Lemma drop_name n v pad : drop (length n + 2) (line_bytes n v ++ pad) = v ++ [CR; LF] ++ pad.
Proof.
  unfold line_bytes. rewrite <- !app_assoc, drop_app_ge by lia.
  by replace (length n + 2 - length n)%nat with 2%nat by lia.
Qed.

Lemma line_fields l h : line_repr l h -> line_name l = Some h.1 /\ line_value l = Some h.2.
Proof.
  destruct h as [n v]. intros (pad & Eb & En & Ev & _). cbn [fst snd] in *. unfold line_name, line_value.
  rewrite Eb, En, Ev. split.
  - unfold memcpy, line_bytes. rewrite <- !app_assoc, length_app.
    replace (_ && _) with true by lia. by rewrite Nat2Z.id, take_app_length.
  - replace (0 <=? len n) with true by lia. replace (Z.to_nat (len n + 2)) with (length n + 2)%nat by lia.
    rewrite drop_name. unfold memcpy. rewrite length_app. replace (_ && _) with true by lia.
    by rewrite Nat2Z.id, take_app_length.
Qed.

(** ** Setting *)

Lemma write_at (a b c : list Z) :
  (length b <= length c)%nat -> write (len a) b (a ++ c) = Some (a ++ b ++ drop (length b) c).
Proof.
  intros Hl. unfold write. rewrite length_app. replace (_ && _) with true by lia.
  rewrite Nat2Z.id, take_app_length, drop_app_ge by lia. do 3 f_equal.
  by replace (length a + length b - length a)%nat with (length b) by lia.
Qed.

(** Writing a value and its CR LF behind a name, in a buffer that is large enough. *)
Lemma write_value n v rest :
  len v + 2 <= len rest ->
  exists pad, write (len n + 2) (v ++ [CR; LF]) (n ++ [COLON; SP] ++ rest) = Some (line_bytes n v ++ pad).
Proof.
  intros Hl. replace (len n + 2) with (len (n ++ [COLON; SP])) by (rewrite length_app; cbn; lia).
  rewrite app_assoc, write_at by (rewrite length_app; cbn; lia). eexists. unfold line_bytes.
  by rewrite <- !app_assoc.
Qed.

(** The pair a set line holds afterwards: a longer value gets a new buffer, which
    spells the name as the caller does; otherwise the old spelling stays. *)
Definition set_pair (name v : list Z) (h : list Z * list Z) : list Z * list Z :=
  (if len h.2 <? len v then name else h.1, v).

Lemma set_line_ok name v w l hd h :
  line_repr l hd -> same_name hd.1 name = true -> len v < 2 ^ 31 ->
  exists l' h', set_line name (len name) (v ++ w) (len v) l h = Some (l', h') /\
    (h = [] -> is_Some l') /\
    match l' with Some l' => line_repr l' (set_pair name v hd) | None => True end.
Proof.
  destruct hd as [n v0]. intros Hr Hs Hv. pose proof Hr as (pad & Eb & En & Ev & Hn & Hv0).
  cbn [fst snd] in *. unfold same_name in Hs. apply andb_true_iff in Hs as [Hs _].
  unfold set_line, set_pair. cbn [fst snd]. rewrite Ev, wrap_small by lia.
  destruct (Z.ltb_spec (len v0) (len v)) as [Hlt|Hge].
  - destruct (malloc h) as [[] h'] eqn:Eh.
    + rewrite memcpy_all. cbn [mbind option_bind]. rewrite memcpy_app. cbn [mbind option_bind buf].
      destruct (write_value name v (repeat NUL (Z.to_nat (len v + 2)))) as (pad' & ->);
        [rewrite repeat_length; lia|].
      eexists _, h'. split; [done|]. split; [done|]. exists pad'. cbn.
      rewrite En, s32_small by lia. split_and!; [done|lia|done|lia|done].
    + exists None, h'. split; [done|]. split; [|done]. by intros ->.
  - cbn [mbind option_bind]. rewrite memcpy_app. cbn [mbind option_bind].
    replace (len name + 2) with (len n + 2) by lia.
    replace (buf l) with (n ++ [COLON; SP] ++ (v0 ++ [CR; LF] ++ pad))
      by (rewrite Eb; unfold line_bytes; by rewrite <- !app_assoc).
    destruct (write_value n v (v0 ++ [CR; LF] ++ pad)) as (pad' & ->);
      [rewrite !length_app; cbn; lia|]. cbn [mbind option_bind].
    eexists _, h. split; [done|]. split; [done|]. exists pad'. cbn.
    rewrite En, s32_small by lia. done.
Qed.

(** The view of [set_header] on pairs: the first header with the name gets the
    value, or the pair is added at the end. *)
Fixpoint set_spec (name v : list Z) (hs : list (list Z * list Z)) : list (list Z * list Z) :=
  match hs with
  | [] => [(name, v)]
  | hd :: hs => if same_name hd.1 name then set_pair name v hd :: hs else hd :: set_spec name v hs
  end.

(** The value of the first header with the name. *)
Fixpoint find_spec (name : list Z) (hs : list (list Z * list Z)) : option (list Z) :=
  match hs with
  | [] => None
  | hd :: hs => if same_name hd.1 name then Some hd.2 else find_spec name hs
  end.

(** The loop of [__set_message_header] finds the first header with the name. *)
Lemma set_lines_ok name v w lines : forall hs h,
  lines_repr lines hs -> len v < 2 ^ 31 ->
  exists r h', set_lines name (len name) (v ++ w) (len v) lines h = Some (r, h') /\
    match r with
    | None => h' = h /\ set_spec name v hs = hs ++ [(name, v)]
    | Some (ret, lines') =>
        (ret = 0 /\ lines_repr lines' (set_spec name v hs)) \/ (ret = -1 /\ lines' = lines /\ h <> [])
    end.
Proof.
  induction lines as [|l lines IH]; intros hs h Hr Hv; inversion Hr as [|? hd ? hs' Hl Hr']; subst;
    cbn [set_lines set_spec].
  { by exists None, h. }
  rewrite (line_matches_repr _ _ name Hl). destruct (same_name hd.1 name) eqn:Es.
  - destruct (set_line_ok name v w l hd h Hl Es Hv) as (l' & h' & -> & Hm & Hl').
    cbn [mbind option_bind]. destruct l' as [l'|]; eexists _, h'; (split; [done|]).
    + left. split; [done|]. by constructor.
    + right. split_and!; [done..|]. intros E. by destruct (Hm E).
  - destruct (IH hs' h Hr' Hv) as (r & h' & -> & H). cbn [mbind option_bind].
    destruct r as [[ret lines']|]; eexists _, h'; (split; [done|]).
    + destruct H as [[-> H] | (-> & -> & H)]; [left|right]; [|done]. split; [done|]. by constructor.
    + destruct H as [-> ->]. done.
Qed.

(** ** Comparing names *)

Lemma strncasecmp_sym n a b : strncasecmp_eq n a b = strncasecmp_eq n b a.
Proof.
  revert a b. induction n as [|n IH]; intros a b; cbn; [done|]. rewrite (IH (tl a) (tl b)).
  rewrite (Z.eqb_sym (tolower (hd NUL a))).
  destruct (Z.eqb_spec (tolower (hd NUL b)) (tolower (hd NUL a))) as [E|]; [|done]. cbn [andb]. f_equal.
  assert (H0 : forall x, (x =? NUL) = (tolower x =? NUL)) by (intros; unfold tolower; bsplit; lia).
  by rewrite (H0 (hd NUL a)), (H0 (hd NUL b)), E.
Qed.

Lemma strncasecmp_trans n a b c :
  strncasecmp_eq n a b = true -> strncasecmp_eq n b c = true -> strncasecmp_eq n a c = true.
Proof.
  revert a b c. induction n as [|n IH]; intros a b c; cbn; [done|].
  assert (H0 : forall x, tolower x = tolower NUL <-> x = NUL) by (intros; change (tolower NUL) with 0; unfold tolower; bsplit; lia).
  intros [E1 H1]%andb_true_iff [E2 H2]%andb_true_iff. apply Z.eqb_eq in E1, E2.
  rewrite E1, E2, Z.eqb_refl. cbn [andb]. apply orb_true_iff in H1 as [H1 | H1], H2 as [H2 | H2];
    apply orb_true_iff.
  1, 2: by left.
  - left. apply Z.eqb_eq in H2. rewrite H2 in E1. apply (proj1 (H0 _)) in E1. by rewrite E1.
  - right. by eapply IH.
Qed.

Lemma same_name_trans a b c : same_name a b = true -> same_name a c = same_name b c.
Proof.
  unfold same_name. intros [El E]%andb_true_iff. apply Z.eqb_eq in El. rewrite El.
  destruct (Z.eqb_spec (len b) (len c)) as [E2|]; [|done]. cbn [andb].
  replace (length c) with (length b) by lia. apply eq_true_iff_eq. split; intros H.
  - eapply strncasecmp_trans; [by rewrite strncasecmp_sym|done].
  - by eapply strncasecmp_trans.
Qed.

Lemma same_name_sym a b : same_name a b = same_name b a.
Proof.
  unfold same_name. rewrite (Z.eqb_sym (len a)). destruct (Z.eqb_spec (len b) (len a)); [|done].
  cbn [andb]. rewrite strncasecmp_sym. f_equal. lia.
Qed.

(** Setting and finding obey the laws of a map. *)
Lemma find_set name v name2 hs :
  find_spec name2 (set_spec name v hs) = if same_name name name2 then Some v else find_spec name2 hs.
Proof.
  induction hs as [|[n v0] hs IH]; cbn; [by destruct (same_name name name2)|].
  destruct (same_name n name) eqn:E; cbn [find_spec set_pair fst snd].
  - assert (E2 : same_name (if len v0 <? len v then name else n) name2 = same_name name name2)
      by (destruct (_ <? _); [done|by apply same_name_trans]).
    rewrite E2. destruct (same_name name name2) eqn:E3; [done|].
    by rewrite (same_name_trans _ _ name2 E), E3.
  - rewrite IH. destruct (same_name n name2) eqn:E2; [|done].
    destruct (same_name name name2) eqn:E3; [|done].
    rewrite (same_name_trans _ _ name E2), same_name_sym, E3 in E. done.
Qed.

(** ** Cursors *)

Lemma find_loop_ok name lines : forall hs k,
  lines_repr lines hs ->
  exists c, cursor_find_loop name (len name) k lines = Some (find_spec name hs, c) /\
    (find_spec name hs = None -> next c = (k + length hs)%nat) /\
    (forall v, find_spec name hs = Some v -> exists i n, next c = S (k + i) /\
       hs !! i = Some (n, v) /\ same_name n name = true /\
       Forall (fun hd => same_name hd.1 name = false) (take i hs)).
Proof.
  induction lines as [|l lines IH]; intros hs k Hr; inversion Hr as [|? [n v] ? hs' Hl Hr']; subst;
    cbn [cursor_find_loop find_spec].
  { exists (mk_cursor k). cbn. split_and!; [done|lia|done]. }
  rewrite (line_matches_repr _ _ name Hl). cbn [fst snd]. destruct (same_name n name) eqn:Es.
  - destruct (line_fields _ _ Hl) as [_ ->]. cbn [mbind option_bind]. eexists. split; [done|].
    split; [done|]. intros v' [= <-]. exists 0%nat, n. cbn. rewrite Nat.add_0_r. split_and!; done.
  - destruct (IH hs' (S k) Hr') as (c & -> & H1 & H2). exists c. split; [done|]. split.
    + intros H%H1. cbn. lia.
    + intros v' (i & n' & E & Hi & Hn & HF)%H2. exists (S i), n'. cbn. split_and!; [lia|done..|].
      by constructor.
Qed.

Lemma headers_lookup p hs i :
  headers p hs -> (exists l h, header_list p !! i = Some l /\ hs !! i = Some h /\ line_repr l h) \/
    (header_list p !! i = None /\ hs !! i = None).
Proof.
  intros H. destruct (header_list p !! i) as [l|] eqn:E.
  - destruct (Forall2_lookup_l _ _ _ _ _ H E) as (h & ? & ?). left. eauto.
  - right. split; [done|]. apply lookup_ge_None. apply Forall2_length in H.
    apply lookup_ge_None in E. lia.
Qed.

(** ** The calls *)

(** What the checks leave alone. *)
Lemma check_keeps name nl v w p :
  w <> [] -> hok p ->
  exists p', __check_message_header name nl (v ++ w) (len v) p = Some p' /\
    header_list p' = header_list p /\ hok p'.
Proof.
  intros Hw Hok.
  destruct (check_header_ok name nl (v ++ w) v p) as (p' & E & H1 & H2 & H3 & H4 & H5 & H6 & _);
    [lia|by exists w|apply Hok|].
  exists p'. split; [done|]. split; [done|]. destruct Hok. constructor; try congruence.
  intros Hs. rewrite H3. apply hok_name. congruence.
Qed.

Lemma hok_set_lines ls p : Forall line_ok ls -> hok p -> hok (set_header_list ls p).
Proof. intros ? []. by constructor. Qed.

Lemma lines_repr_ok ls hs : lines_repr ls hs -> Forall line_ok ls.
Proof. induction 1; constructor; [apply line_ok_repr; eauto|done]. Qed.

(** Adding at the end of the list. *)
Lemma add_line_ok name v w p h hs :
  headers p hs -> len name < 2 ^ 31 -> len v < 2 ^ 31 ->
  exists r p1 h', __add_message_header name (len name) (v ++ w) (len v) p h = Some (r, p1, h') /\
    ((r = 0 /\ exists ls, p1 = set_header_list ls p /\ lines_repr ls (hs ++ [(name, v)])) \/
     (r = -1 /\ p1 = p /\ h <> [])).
Proof.
  intros Hh Hn Hv. unfold __add_message_header. destruct (malloc h) as [[] h'] eqn:Eh.
  - rewrite memcpy_all, memcpy_app. cbn [mbind option_bind]. eexists _, _, _. split; [done|].
    left. split; [done|]. eexists. split; [done|]. apply Forall2_app; [done|]. constructor; [|constructor].
    exists []. cbn. rewrite app_nil_r, !s32_small by lia. done.
  - eexists _, _, _. split; [done|]. right. split_and!; [done..|]. by intros ->.
Qed.

(** [http_parser_set_header] and the cursors behave like a case-insensitive
    map on the stored headers: a successful call replaces the value of the first
    header with that name, or appends the pair, without ever writing outside a
    line's buffer (whether the new value fits in place or needs a new buffer);
    a failed allocation leaves the headers as they were.  Afterwards a search
    from the start returns the new value for every spelling of the name, and for
    every other name what it returned before. *)
Theorem set_header_correct name v w p h hs :
  hok p -> headers p hs -> len name < 2 ^ 31 -> len v < 2 ^ 31 -> w <> [] ->
  exists r p' h', http_parser_set_header name (len name) (v ++ w) (len v) p h = Some (r, p', h') /\
    hok p' /\ (h = [] -> r = 0) /\
    ((r = -1 /\ p' = p) \/
     (r = 0 /\ headers p' (set_spec name v hs) /\
      forall name2, exists c,
        http_header_cursor_find name2 (len name2) p' http_header_cursor_init =
        Some (if same_name name name2 then Some v else find_spec name2 hs, c))).
Proof.
  intros Hok Hh Hn Hv Hw. unfold http_parser_set_header, __set_message_header.
  assert (Hset : forall ls, lines_repr ls (set_spec name v hs) ->
    exists p', __check_message_header name (len name) (v ++ w) (len v) (set_header_list ls p) = Some p' /\
      hok p' /\ headers p' (set_spec name v hs) /\
      forall name2, exists c,
        http_header_cursor_find name2 (len name2) p' http_header_cursor_init =
        Some (if same_name name name2 then Some v else find_spec name2 hs, c)).
  { intros ls Hls. destruct (check_keeps name (len name) v w (set_header_list ls p) Hw) as (p' & E & El & Hok').
    { apply hok_set_lines; [by eapply lines_repr_ok|done]. }
    exists p'. unfold headers. rewrite El. split_and!; [done..|]. intros name2.
    unfold http_header_cursor_find. rewrite El.
    cbn [next http_header_cursor_init header_list set_header_list]. rewrite drop_0.
    destruct (find_loop_ok name2 ls _ 0%nat Hls) as (c & -> & _). exists c. by rewrite find_set. }
  destruct (set_lines_ok name v w (header_list p) hs h Hh Hv) as (r & h' & -> & H).
  cbn [mbind option_bind]. destruct r as [[ret lines']|].
  - destruct H as [[-> H] | (-> & -> & H)].
    + destruct (Hset lines' H) as (p' & E & H'). cbn [mbind option_bind Z.leb Z.compare]. rewrite E.
      cbn [mbind option_bind]. eexists _, _, _. split; [done|].
      split; [tauto|]. split; [done|]. right. tauto.
    + cbn. eexists _, _, _. split; [done|]. assert (Ep : set_header_list (header_list p) p = p) by (by destruct p).
      rewrite Ep. split_and!; [done..|]. by left.
  - destruct H as [-> Espec].
    destruct (add_line_ok name v w p h hs Hh Hn Hv) as (r & p1 & h2 & -> & [(-> & ls & -> & Hls) | (-> & -> & Hne)]);
      cbn [mbind option_bind].
    + rewrite <- Espec in Hls. destruct (Hset ls Hls) as (p' & E & H'). cbn [mbind option_bind Z.leb Z.compare]. rewrite E.
      cbn [mbind option_bind].
      eexists _, _, _. split; [done|]. split; [tauto|]. split; [done|]. right. tauto.
    + cbn. eexists _, _, _. split; [done|]. split_and!; [done..|]. by left.
Qed.

(** A cursor walks the stored headers in order: at any position, [next]
    returns the following pair, byte for byte, and 1 at the end; [find] skips to
    the first later header with the name (any spelling) or to the end; [erase]
    removes exactly the header the cursor is on and steps back, so that the next
    [next] returns the header after the one removed. *)
Theorem cursor_correct p hs k :
  headers p hs -> (k <= length hs)%nat ->
  http_header_cursor_next p (mk_cursor k) =
    Some (match hs !! k with Some h => (Some h, mk_cursor (S k)) | None => (None, mk_cursor k) end) /\
  (forall name, exists c, http_header_cursor_find name (len name) p (mk_cursor k) =
     Some (find_spec name (drop k hs), c) /\
     match find_spec name (drop k hs) with
     | Some v => exists n, hs !! pred (next c) = Some (n, v) /\ same_name n name = true /\
         (k < next c)%nat /\ Forall (fun h => same_name h.1 name = false) (take (pred (next c) - k) (drop k hs))
     | None => next c = length hs
     end) /\
  (forall l1 h l2, hs = l1 ++ h :: l2 -> k = S (length l1) ->
     exists p' c, http_header_cursor_erase p (mk_cursor k) = (0, p', c) /\ headers p' (l1 ++ l2) /\
       http_header_cursor_next p' c =
       Some (match l2 with h2 :: _ => (Some h2, mk_cursor k) | [] => (None, c) end)).
Proof.
  intros Hh Hk.
  assert (Hnext : forall p hs k, headers p hs -> http_header_cursor_next p (mk_cursor k) =
    Some (match hs !! k with Some h => (Some h, mk_cursor (S k)) | None => (None, mk_cursor k) end)).
  { clear. intros p hs k Hh. unfold http_header_cursor_next. cbn [next].
    destruct (headers_lookup p hs k Hh) as [(l & [n v] & -> & -> & Hl) | [-> ->]]; [|done].
    by destruct (line_fields _ _ Hl) as [-> ->]. }
  split; [by apply Hnext|]. split.
  - intros name. unfold http_header_cursor_find. cbn [next].
    assert (Hd : lines_repr (drop k (header_list p)) (drop k hs)) by (by apply Forall2_drop).
    destruct (find_loop_ok name _ _ k Hd) as (c & -> & Hnone & Hsome). exists c. split; [done|].
    destruct (find_spec name (drop k hs)) as [v|].
    + destruct (Hsome v eq_refl) as (i & n & E & Hi & Hn & HF). exists n. rewrite E. cbn [pred].
      rewrite lookup_drop in Hi. replace (k + i - k)%nat with i by lia. split_and!; [done..|lia|done].
    + rewrite (Hnone eq_refl), length_drop. lia.
  - intros l1 h l2 -> ->. unfold http_header_cursor_erase. cbn [next].
    set (p' := set_header_list _ p). exists p', (mk_cursor (length l1)). split; [done|].
    assert (Hp' : headers p' (l1 ++ l2)).
    { unfold headers, p'. cbn [header_list set_header_list]. apply Forall2_app_inv_r in Hh as
        (k1 & k2 & H1 & H2 & ->). inversion H2 as [|l ? k2' ? Hl H2']; subst.
      pose proof (Forall2_length _ _ _ H1) as El. rewrite <- El.
      rewrite take_app_length. rewrite drop_app_ge by lia.
      replace (S (length k1) - length k1)%nat with 1%nat by lia. by apply Forall2_app. }
    split; [done|]. rewrite (Hnext _ _ _ Hp'). rewrite lookup_app_r, Nat.sub_diag by lia.
    by destruct l2.
Qed.

(** ** Printing and parsing back *)

(** The three strings of the start line, as [HttpMessage::encode] picks them. *)
Definition start_line (p : http_parser) : option (list Z * list Z * list Z) :=
  match method p with
  | Some m => u ← uri p; v ← version p; Some (m, u, v)
  | None => v ← version p; c ← code p; ph ← phrase p; Some (v, c, ph)
  end.

(** The bytes of a line that are sent: [name_len + 2 + value_len + 2] of them. *)
Definition line_wire (l : header_line) : option (list Z) :=
  memcpy (name_len l + 2 + value_len l + 2) (buf l).

(** The vectors [HttpMessage::encode] fills before the body, concatenated. *)
Definition encode (p : http_parser) : option (list Z) :=
  '(a, b, c) ← start_line p;
  ls ← mapM line_wire (header_list p);
  Some (a ++ [SP] ++ b ++ [SP] ++ c ++ [CR; LF] ++ concat ls ++ [CR; LF]).

(** What can stand in a message: no separators inside the parts, no blanks around
    a value, and the parser's limits. *)
Definition token_ok (s : list Z) : Prop := Forall (fun c => c <> SP /\ c <> CR /\ c <> NUL) s.
Definition text_ok (s : list Z) : Prop := Forall (fun c => c <> CR /\ c <> NUL) s.
Definition name_ok (n : list Z) : Prop :=
  len n < 64 /\ Forall (fun c => c <> COLON /\ c <> CR /\ is_blank c = false /\ 0 < schar c) n.
Definition value_ok (v : list Z) : Prop :=
  len v < 8192 /\ Forall (fun c => c <> CR /\ 0 < schar c) v /\
  (forall c, head v = Some c -> is_blank c = false) /\ (forall c, last v = Some c -> is_blank c = false).

Lemma strchr_found a b : token_ok a -> strchr_split SP (a ++ SP :: b) = Some (a, b).
Proof.
  induction 1 as [|c a [Hc _] Ha IH]; cbn; [done|].
  rewrite (proj2 (Z.eqb_neq _ _) Hc), IH. done.
Qed.

Lemma line_wire_repr l h : line_repr l h -> line_wire l = Some (line_bytes h.1 h.2).
Proof.
  destruct h as [n v]. intros (pad & Eb & En & Ev & _). cbn [fst snd] in *. unfold line_wire.
  rewrite Eb, En, Ev. replace (len n + 2 + len v + 2) with (len (line_bytes n v))
    by (unfold line_bytes; rewrite !length_app; cbn; lia). apply memcpy_app.
Qed.

Lemma lines_wire ls hs : lines_repr ls hs ->
  mapM line_wire ls = Some (map (fun h => line_bytes h.1 h.2) hs).
Proof.
  induction 1 as [|l h ls hs Hl Hls IH]; [done|]. cbn. by rewrite (line_wire_repr _ _ Hl), IH.
Qed.

(** Reading a value up to its end of line. *)
Lemma header_value_found v c3 rest : forall rv,
  Forall (fun c => c <> CR /\ 0 < schar c) v -> is_blank c3 = false ->
  (length v + length rv < HTTP_HEADER_VALUE_MAX)%nat ->
  header_value_loop false (v ++ CR :: LF :: c3 :: rest) rv =
  VDone (trim_blank (rev v ++ rv)) (c3 :: rest).
Proof.
  induction v as [|c v IH]; intros rv Hv Hc3 Hl; cbn [length app rev] in *.
  - cbn [header_value_loop andb]. rewrite (proj2 (Nat.eqb_neq _ _)) by lia. cbn. by rewrite Hc3.
  - apply Forall_cons in Hv as [[Hc Hs] Hv]. cbn [header_value_loop andb].
    rewrite (proj2 (Nat.eqb_neq _ _)) by lia.
    destruct (v ++ CR :: LF :: c3 :: rest) as [|c2 rest2] eqn:E; [by destruct v|].
    rewrite (proj2 (Z.eqb_neq _ _) Hc). replace (schar c <=? 0) with false by lia.
    rewrite IH by (cbn [length]; first [done | lia]). by rewrite <- app_assoc.
Qed.

Lemma header_value_whole v c3 rest :
  value_ok v -> is_blank c3 = false ->
  header_value_loop true (SP :: v ++ CR :: LF :: c3 :: rest) [] = VDone (rev v) (c3 :: rest).
Proof.
  intros (Hl & Hf & Hh & Hlast) Hc3. cbn [header_value_loop is_blank andb].
  change (is_blank SP) with true. cbv iota.
  assert (HM : Z.of_nat HTTP_HEADER_VALUE_MAX = 8192) by (by vm_compute).
  assert (Hskip : header_value_loop true (v ++ CR :: LF :: c3 :: rest) [] =
                  header_value_loop false (v ++ CR :: LF :: c3 :: rest) []).
  { destruct v as [|c v]; [done|]. cbn [app header_value_loop andb]. by rewrite (Hh c eq_refl). }
  rewrite Hskip, header_value_found by (cbn [length]; first [done | lia]).
  rewrite app_nil_r. f_equal.
  destruct (rev v) as [|c rv] eqn:E; [done|]. cbn. rewrite Hlast; [done|].
  apply (f_equal (@rev Z)) in E. rewrite rev_involutive in E. rewrite E. cbn. apply last_snoc.
Qed.

(** The fields the start line lives in. *)
Definition same_start (p q : http_parser) : Prop :=
  method q = method p /\ uri q = uri p /\ version q = version p /\ code q = code p /\ phrase q = phrase p.

Lemma check_same_start nm nl v vl p p' :
  __check_message_header nm nl v vl p = Some p' -> same_start p p'.
Proof.
  unfold __check_message_header. intros E.
  repeat match type of E with context [if ?b then _ else _] =>
    match b with context [if _ then _ else _] => fail 1 | _ => destruct b end end;
    try (injection E as <-; done).
  destruct (v !! 0%nat); [|done]. cbn in E. destruct (_ && _); [|by injection E as <-].
  destruct (memcpy vl v); [|done]. cbn in E. by injection E as <-.
Qed.

(** The two turns that read one header. *)
Lemma turns_header n v c3 rest p hs :
  hok p -> header_state p = HPS_HEADER_NAME -> headers p hs -> name_ok n -> value_ok v ->
  is_blank c3 = false -> starts_crlf (n ++ COLON :: SP :: v ++ CR :: LF :: c3 :: rest) = false ->
  exists p1 p2, turn (line_bytes n v ++ c3 :: rest) p [] = Some (1, p1, []) /\
    header_state p1 = HPS_HEADER_VALUE /\ header_offset p1 = header_offset p + (len n + 1) /\
    turn (SP :: v ++ CR :: LF :: c3 :: rest) p1 [] = Some (1, p2, []) /\
    hok p2 /\ header_state p2 = HPS_HEADER_NAME /\
    header_offset p2 = header_offset p + len (line_bytes n v) /\
    headers p2 (hs ++ [(n, v)]) /\ same_start p p2.
Proof.
  intros Hok Hs Hh [Hn Hnf] Hv Hc3 Hcr.
  assert (HM : Z.of_nat HTTP_HEADER_NAME_MAX = 64) by (by vm_compute).
  assert (El : line_bytes n v ++ c3 :: rest = n ++ COLON :: SP :: v ++ CR :: LF :: c3 :: rest)
    by (unfold line_bytes; by rewrite <- !app_assoc).
  destruct (parse_header_name_ok _ p Hok Hcr) as (nb & Hnb & Hrun).
  rewrite scan_name_found in Hrun; [|lia|].
  2:{ eapply Forall_impl; [exact Hnf|]. cbn. tauto. }
  destruct Hrun as [Hc Hrun]. set (p1 := set_header_state HPS_HEADER_VALUE _) in Hrun.
  assert (Hok1 : hok p1) by (destruct Hok; constructor; cbn; auto; lia).
  assert (Hlv : len v < 2 ^ 31) by (destruct Hv; lia).
  destruct (add_line_ok n v [NUL] p1 [] hs Hh ltac:(lia) Hlv)
    as (r & p2 & h' & Ea & [(-> & ls & -> & Hls) | (_ & _ & ?)]); [|done].
  destruct (check_keeps n (len n) v [NUL] (set_header_list ls p1)) as (p3 & Ec & Elist & Hok3);
    [done|by apply hok_set_lines; [eapply lines_repr_ok|]|].
  destruct (check_header_ok n (len n) (v ++ [NUL]) v (set_header_list ls p1)) as
    (p4 & Ec4 & H1 & H2 & _); [lia|by exists [NUL]|apply Hok1|]. rewrite Ec in Ec4. injection Ec4 as <-.
  assert (Eadd : http_parser_add_header nb (len n) (v ++ [NUL]) (len v) p1 [] = Some (0, p3, [])).
  { unfold http_parser_add_header, __add_message_header in *. cbn [malloc] in *.
    rewrite memcpy_all in Ea. rewrite (memcpy_prefix _ _ Hc). rewrite memcpy_app in *.
    cbn [mbind option_bind Z.leb Z.compare] in *. injection Ea as Els _.
    rewrite (check_header_name _ _ _ _ _ Hc).
    cbn [header_list set_header_list]. change (header_list p1) with (header_list p). by rewrite Els, Ec. }
  set (p5 := set_header_state HPS_HEADER_NAME (set_header_offset
     (header_offset p3 + (len (SP :: v ++ CR :: LF :: c3 :: rest) - len (c3 :: rest))) p3)).
  exists p1, p5.
  assert (Hpos : 0 <= len (SP :: v ++ CR :: LF :: c3 :: rest) - len (c3 :: rest))
    by (cbn [length]; rewrite length_app; cbn [length]; lia).
  split; [unfold turn; rewrite Hs, El, Hrun; done|]. split; [done|]. split; [done|]. split.
  { unfold turn, __parse_header_value. change (header_state p1) with HPS_HEADER_VALUE. cbv iota.
    rewrite header_value_whole by done. change (namebuf p1) with nb.
    rewrite (cstring_strlen _ _ Hc). cbn [mbind option_bind]. rewrite rev_involutive, length_rev, Eadd.
    done. }
  split; [apply set_state_ok, set_start_ok; done|]. split; [done|]. split; [|split].
  - cbn [header_offset p5 set_header_state set_header_offset]. rewrite H2.
    cbn [header_offset set_header_list p1 set_header_state set_header_offset].
    unfold line_bytes. rewrite !length_app. cbn [length]. rewrite length_app. cbn [length]. lia.
  - unfold headers. change (header_list p5) with (header_list p3). by rewrite Elist.
  - apply check_same_start in Ec. exact Ec.
Qed.

Lemma from_pre (pre m : list Z) : from (len pre) (pre ++ m) = m.
Proof. unfold from. by rewrite Nat2Z.id, drop_app_length. Qed.

Lemma same_start_trans p q r : same_start p q -> same_start q r -> same_start p r.
Proof. unfold same_start. intuition congruence. Qed.

(** One turn of the loop that goes on. *)
Lemma header_loop_turn fuel m p p1 h1 :
  turn (from (header_offset p) m) p [] = Some (1, p1, h1) ->
  header_state p1 <> HPS_HEADER_COMPLETE ->
  header_loop (S fuel) m p [] = header_loop fuel m p1 h1.
Proof.
  intros E Hs. cbn [header_loop].
  change (header_step m p []) with (turn (from (header_offset p) m) p []).
  rewrite E. cbn [mbind option_bind]. by rewrite decide_False.
Qed.

(** What comes after a header line: another name, or the blank line. *)
Lemma after_line hs body :
  Forall (fun h => name_ok h.1) hs ->
  exists c rest, concat (map (fun h => line_bytes h.1 h.2) hs) ++ CR :: LF :: body = c :: rest /\
    is_blank c = false.
Proof.
  intros [|[n v] hs' [_ Hn] _]; [by eexists _, _|]. destruct n as [|c n]; [by eexists _, _|].
  apply Forall_cons in Hn as [Hc _]. eexists _, _. split; [done|]. cbn in *. tauto.
Qed.

Lemma headers_loop m body hs : forall pre p hs0 fuel,
  m = pre ++ concat (map (fun h => line_bytes h.1 h.2) hs) ++ CR :: LF :: body ->
  hok p -> header_state p = HPS_HEADER_NAME -> header_offset p = len pre -> headers p hs0 ->
  Forall (fun h => name_ok h.1 /\ value_ok h.2) hs -> (2 * length hs < fuel)%nat ->
  exists q, header_loop fuel m p [] = Some (1, q, []) /\ header_state q = HPS_HEADER_COMPLETE /\
    headers q (hs0 ++ hs) /\ same_start p q /\ header_offset q = len m - len body.
Proof.
  induction hs as [|[n v] hs IH]; intros pre p hs0 fuel Em Hok Hs Ho Hh Hf Hfuel.
  - destruct fuel as [|fuel]; [lia|]. cbn [header_loop].
    change (header_step m p []) with (turn (from (header_offset p) m) p []).
    rewrite Ho, Em, from_pre. unfold turn. rewrite Hs. cbn.
    eexists. split; [done|]. split; [done|]. rewrite app_nil_r. split; [done|]. split; [done|].
    cbn. rewrite Ho, length_app. cbn. lia.
  - destruct fuel as [|[|fuel]]; cbn [length] in Hfuel; [lia..|].
    apply Forall_cons in Hf as [[Hn Hv] Hf]. cbn [map concat fst snd] in Em.
    destruct (after_line hs body) as (c3 & rest & Erest & Hc3);
      [eapply Forall_impl; [exact Hf|by intros ? []]|].
    rewrite <- app_assoc, Erest in Em.
    destruct (turns_header n v c3 rest p hs0 Hok Hs Hh Hn Hv Hc3)
      as (p1 & p2 & E1 & Hs1 & Ho1 & E2 & Hok2 & Hs2 & Ho2 & Hh2 & Hst).
    { destruct Hn as [_ Hn]. destruct n as [|c n]; [done|]. apply Forall_cons in Hn as [(_ & Hc & _) _].
      cbn. by destruct (n ++ _); [|rewrite (proj2 (Z.eqb_neq _ _) Hc)]. }
    rewrite (header_loop_turn _ _ _ p1 []); [|by rewrite Ho, Em, from_pre|congruence].
    rewrite (header_loop_turn _ _ _ p2 []); [| |congruence].
    2:{ rewrite Ho1, Ho, Em. etrans; [|exact E2]. f_equal.
        replace (len pre + (len n + 1)) with (len (pre ++ n ++ [COLON]))
          by (rewrite !length_app; cbn; lia).
        replace (pre ++ line_bytes n v ++ c3 :: rest)
          with ((pre ++ n ++ [COLON]) ++ SP :: v ++ CR :: LF :: c3 :: rest)
          by (unfold line_bytes; by rewrite <- !app_assoc). apply from_pre. }
    destruct (IH (pre ++ line_bytes n v) p2 (hs0 ++ [(n, v)]) fuel) as (q & E & Hq & Hhq & Hstq & Hoq);
      [by rewrite Em, <- app_assoc, Erest|done|done|by rewrite Ho2, Ho, length_app; lia|done|done|lia|].
    exists q. split; [done|]. split; [done|]. split; [by rewrite <- app_assoc in Hhq|].
    split; [by eapply same_start_trans|done].
Qed.

(** The start line of a fresh parser. *)
Lemma start_line_turn a b c rest resp p0 :
  let p := http_parser_init resp p0 in
  length (namebuf p0) = HTTP_HEADER_NAME_MAX ->
  token_ok a -> token_ok b -> text_ok c -> a <> [] -> len a + len b + len c + 2 < 8192 ->
  exists p1, turn (a ++ [SP] ++ b ++ [SP] ++ c ++ [CR; LF] ++ rest) p [] = Some (1, p1, []) /\
    hok p1 /\ header_state p1 = HPS_HEADER_NAME /\
    header_offset p1 = len (a ++ [SP] ++ b ++ [SP] ++ c ++ [CR; LF]) /\ headers p1 [] /\
    start_line p1 = Some (a, b, c) /\ (method p1 = None <-> resp = true).
Proof.
  intros p Hnb Ha Hb Hc Hne Hl.
  assert (Hok : hok p).
  { constructor; cbn; [done|done|lia| |by left|done]. destruct resp; [by left|right; lia]. }
  set (l := a ++ [SP] ++ b ++ [SP] ++ c).
  assert (El : a ++ [SP] ++ b ++ [SP] ++ c ++ [CR; LF] ++ rest = l ++ CR :: LF :: rest)
    by (unfold l; by rewrite <- !app_assoc).
  assert (HM : Z.of_nat HTTP_START_LINE_MAX = 8192) by (by vm_compute).
  assert (Hlen : len l = len a + len b + len c + 2) by (unfold l; rewrite !length_app; cbn; lia).
  assert (Hscan : scan_line true HTTP_START_LINE_MAX (l ++ CR :: LF :: rest) = Line l).
  { apply scan_line_found; [lia|]. unfold l, token_ok, text_ok in *.
    repeat (apply Forall_app; split); try (repeat constructor; done);
      (eapply Forall_impl; [eassumption|]); cbn; tauto. }
  assert (Hcr : starts_crlf (l ++ CR :: LF :: rest) = false).
  { unfold l. destruct a as [|x a]; [done|]. apply Forall_cons in Ha as [(_ & Hx & _) _]. cbn.
    by destruct ((a ++ _) ++ _); [|rewrite (proj2 (Z.eqb_neq _ _) Hx)]. }
  rewrite El. unfold turn. change (header_state p) with HPS_START_LINE. cbv iota.
  unfold __parse_start_line. rewrite Hcr, Hscan. unfold l at 1.
  cbn [app]. rewrite (strchr_found a), (strchr_found b) by done. change (is_resp p) with resp.
  assert (Hoff : len l + 2 = len (a ++ SP :: b ++ SP :: c ++ [CR; LF]))
    by (rewrite Hlen, length_app; cbn [length]; rewrite length_app; cbn [length]; rewrite length_app; cbn; lia).
  destruct (match_line_ok a b c p [] Hok) as (r & p1 & h' & E & Hr & Hm & Hok1 & Hf & Hs1 & Ho1 & _).
  destruct (Hm eq_refl) as [-> ->]. change (is_resp p) with resp in E. rewrite E.
  cbn [Z.ltb Z.compare].
  eexists. split; [reflexivity|]. split; [|split; [done|split]].
  - apply set_state_ok; [done|]. rewrite <- Z.add_assoc. apply set_start_ok; [done|lia].
  - cbn [header_offset set_header_state set_header_offset]. rewrite Ho1, <- Hoff. cbn. lia.
  - destruct resp; unfold __match_status_line, __match_request_line, check_version in E;
      cbn [malloc] in E; injection E as E;
      destruct (old_version a), (old_version c), (no_body_code b); rewrite <- E; cbn;
      (split; [constructor|split; [done|done]]).
Qed.

(** C21. Round trip: the bytes [HttpMessage::encode] sends for a message whose
    parts contain no separators and respect the parser's limits, followed by
    anything, are read back by a fresh parser of the same kind (request or
    response) to the same start line and the same headers, and the header ends
    exactly where the encoding does. *)
Theorem encode_parse p a b c hs q0 body :
  start_line p = Some (a, b, c) -> headers p hs ->
  token_ok a -> token_ok b -> text_ok c -> a <> [] -> len a + len b + len c + 2 < 8192 ->
  Forall (fun h => name_ok h.1 /\ value_ok h.2) hs ->
  length (namebuf q0) = HTTP_HEADER_NAME_MAX ->
  exists bytes q, encode p = Some bytes /\
    __parse_message_header (bytes ++ body)
      (http_parser_init (bool_decide (method p = None)) q0) [] = Some (1, q, []) /\
    start_line q = Some (a, b, c) /\ headers q hs /\ header_offset q = len bytes.
Proof.
  intros Est Hh Ha Hb Hc Hne Hl Hf Hnb. unfold encode. rewrite Est. cbn [mbind option_bind].
  rewrite (lines_wire _ _ Hh). cbn [mbind option_bind].
  set (lines := concat _). set (start := a ++ [SP] ++ b ++ [SP] ++ c ++ [CR; LF]).
  eexists. assert (Eb : a ++ [SP] ++ b ++ [SP] ++ c ++ [CR; LF] ++ lines ++ [CR; LF] =
    start ++ lines ++ [CR; LF]) by (unfold start; by rewrite <- !app_assoc).
  rewrite Eb.
  destruct (start_line_turn a b c (lines ++ CR :: LF :: body) (bool_decide (method p = None)) q0 Hnb
    Ha Hb Hc Hne Hl) as (p1 & E1 & Hok1 & Hs1 & Ho1 & Hh1 & Hst1 & Hm1).
  set (q1 := http_parser_init _ q0) in *.
  set (m := (start ++ lines ++ [CR; LF]) ++ body).
  assert (Em : m = start ++ lines ++ CR :: LF :: body)
    by (unfold m; by rewrite <- !app_assoc).
  assert (Hfuel : (2 * length hs + 2 < S (length m))%nat).
  { rewrite Em, !length_app. cbn [length]. unfold lines.
    assert (H : (4 * length hs <= length (concat (map (fun h => line_bytes h.1 h.2) hs)))%nat).
    { clear. induction hs as [|[n v] hs IH]; cbn [map concat length]; [lia|].
      rewrite length_app. unfold line_bytes at 1. rewrite !length_app. cbn [length fst snd]. lia. }
    assert (0 < length start)%nat by (unfold start; destruct a; [done|cbn; lia]). lia. }
  destruct (headers_loop m body hs start p1 [] (length m)) as (q & E & Hq & Hhq & Hstq & Hoq);
    [done|done|done|done|done|done|lia|].
  exists q. split; [done|]. split.
  { unfold __parse_message_header. rewrite (header_loop_turn _ _ _ p1 []); [done| |congruence].
    change (header_offset q1) with 0. change ((start ++ lines ++ [CR; LF]) ++ body) with m. rewrite Em. etrans; [|exact E1]. f_equal. unfold start.
    change (from 0 ?x) with x. by rewrite <- !app_assoc. }
  split; [|split; [done|]].
  - destruct Hstq as (E2 & E3 & E4 & E5 & E6). unfold start_line. rewrite E2, E3, E4, E5, E6.
    exact Hst1.
  - rewrite Hoq. unfold m. rewrite (length_app _ body). lia.
Qed.

(** *** Concrete instances *)

(** "Host: a" and "Via: bc" on a GET / HTTP/1.1. *)
Definition demo_host : list Z := [72; 111; 115; 116].
Definition demo_via : list Z := [86; 105; 97].
Definition demo_headers : list (list Z * list Z) := [(demo_host, [97]); (demo_via, [98; 99])].
Definition demo_blank : http_parser :=
  mk_parser HPS_START_LINE CPS_CHUNK_DATA 0 0 0 0 None None None None None [] (repeat 7 64)
    [] 0 0 false false false false false false false false.
Definition demo_request : http_parser :=
  set_method (Some [71; 69; 84]) (set_uri (Some [47])
  (set_version (Some [72; 84; 84; 80; 47; 49; 46; 49])
  (set_header_list [mk_line 4 1 true (line_bytes demo_host [97]); mk_line 3 2 true (line_bytes demo_via [98; 99])]
  (http_parser_init false demo_blank)))).

Lemma demo_repr : headers demo_request demo_headers.
Proof. repeat constructor; exists []; repeat split; vm_compute; reflexivity. Qed.

Lemma demo_hok : hok demo_request.
Proof.
  constructor; [by vm_compute|done|by vm_compute|right; by vm_compute|by left|].
  eapply lines_repr_ok, demo_repr.
Qed.

Lemma set_header_correct_witness :
  exists r p' h', http_parser_set_header [104; 79; 83; 84] 4 [98; 98; 0] 2 demo_request [] = Some (r, p', h') /\
    hok p' /\ ([] = [] :> heap -> r = 0) /\
    ((r = -1 /\ p' = demo_request) \/
     (r = 0 /\ headers p' (set_spec [104; 79; 83; 84] [98; 98] demo_headers) /\
      forall name2, exists c,
        http_header_cursor_find name2 (len name2) p' http_header_cursor_init =
        Some (if same_name [104; 79; 83; 84] name2 then Some [98; 98] else find_spec name2 demo_headers, c))).
Proof.
  apply (set_header_correct [104; 79; 83; 84] [98; 98] [0] demo_request [] demo_headers).
  - exact demo_hok.
  - exact demo_repr.
  - vm_compute. reflexivity.
  - vm_compute. reflexivity.
  - discriminate.
Defined.

Lemma cursor_correct_witness :
  exists p' c, http_header_cursor_erase demo_request (mk_cursor 1) = (0, p', c) /\
    headers p' [(demo_via, [98; 99])] /\
    http_header_cursor_next p' c = Some (Some (demo_via, [98; 99]), mk_cursor 1).
Proof.
  destruct (cursor_correct demo_request demo_headers 1 demo_repr ltac:(vm_compute; lia)) as (_ & _ & H).
  exact (H [] (demo_host, [97]) [(demo_via, [98; 99])] eq_refl eq_refl).
Defined.

Lemma encode_parse_witness :
  exists bytes q, encode demo_request = Some bytes /\
    __parse_message_header (bytes ++ [1; 2; 3]) (http_parser_init false demo_blank) [] = Some (1, q, []) /\
    start_line q = Some ([71; 69; 84], [47], [72; 84; 84; 80; 47; 49; 46; 49]) /\
    headers q demo_headers /\ header_offset q = len bytes.
Proof.
  apply (encode_parse demo_request [71; 69; 84] [47] [72; 84; 84; 80; 47; 49; 46; 49] demo_headers
    demo_blank [1; 2; 3]).
  - reflexivity.
  - exact demo_repr.
  - repeat constructor; discriminate.
  - repeat constructor; discriminate.
  - repeat constructor; discriminate.
  - discriminate.
  - vm_compute. reflexivity.
  - repeat constructor; try discriminate; cbn; intros c Hc; injection Hc as <-; reflexivity.
  - vm_compute. reflexivity.
Defined.
