(* ===== verification/HttpBody.v ===== *)
(** * Bodies of messages: the chunk cursor of [src/protocol/HttpUtil.cc]

    [HttpChunkCursor] walks over the body of a message the parser has accepted, and
    [HttpUtil::decode_chunked_body] puts its chunks together.  The cursor reads the sizes again
    from the message buffer, without looking at the end of it: what it returns rests on
    what [http_parser.c] has checked.  [chunked_body] says what a chunked body is;
    the parser accepts only these, and on them the cursor gives the data of
    the chunks. *)

From S2P Require Import Prelude CLib HttpParser HttpScan HttpHeader HttpHeaders HttpChunk HttpAppend.

Local Open Scope Z_scope.

(** ** Definitions *)

(** [strtol(s, &end, 16)] on a buffer: the value and the text from [end] on; [None]: the end of the buffer is
    read.  White space, a sign and the prefix [0x] are accepted, the result saturates. *)
Fixpoint skip_space (s : list Z) : option (list Z) :=
  match s with [] => None | c :: s' => if isspace c then skip_space s' else Some s end.
Definition sign_of (s : list Z) : bool * list Z :=
  match s with c :: s' => if c =? 45 then (true, s') else if c =? 43 then (false, s') else (false, s) | [] => (false, []) end.
Definition skip_0x (s : list Z) : list Z :=
  match s with
  | z :: x :: s' => if (z =? 48) && (tolower x =? 120) && (0 <? snd (hex_digits 0 s'))%nat then s' else s
  | _ => s
  end.
Fixpoint read_hex (acc : Z) (n : nat) (s : list Z) : option (Z * nat * list Z) :=
  match s with
  | [] => None
  | c :: s' => match hex_value c with Some v => read_hex (16 * acc + v) (S n) s' | None => Some (acc, n, s) end
  end.
Definition strtol_end (s : list Z) : option (Z * list Z) :=
  s1 ← skip_space s;
  let '(neg, s2) := sign_of s1 in
  '(v, n, s3) ← read_hex 0 0 (skip_0x s2);
  if (n =? 0)%nat then Some (0, s) else Some (if neg : bool then Z.max (- 2 ^ 63) (- v) else Z.min (2 ^ 63 - 1) v, s3).

(** [strchr(s, c)] on a buffer: [Some None] is NULL. *)
Fixpoint strchr_from (c : Z) (s : list Z) : option (option (list Z)) :=
  match s with
  | [] => None
  | x :: s' => if x =? c then Some (Some s) else if x =? NUL then Some None else strchr_from c s'
  end.

(** [class HttpChunkCursor]; a pointer into the message buffer is the text from there on. *)
Record chunk_cursor := mk_chunks { c_body : option (list Z); c_len : Z; c_pos : list Z; c_chunked : bool; c_end : bool }.

(** [get_parsed_body]: the text from the body on, its length, and the parser with the buffer terminated. *)
Definition get_parsed_body (p : http_parser) : option (option (list Z * Z) * http_parser) :=
  '(o, p) ← http_parser_get_body p;
  Some (match o with Some b => Some (from (header_offset p) (msgbuf p), len b) | None => None end, p).

Definition chunk_cursor_init (p : http_parser) : option (chunk_cursor * http_parser) :=
  '(o, p) ← get_parsed_body p;
  Some (match o with
        | Some (body, n) => mk_chunks (Some body) n body (chunked p) false
        | None => mk_chunks None 0 [] false true
        end, p).

(** [HttpChunkCursor::next]: the text of the chunk and its size; [Some None] is [false], and a NULL
    pointer used is undefined behaviour. *)
Definition chunk_next (c : chunk_cursor) : option (option (list Z * Z) * chunk_cursor) :=
  if c_end c then Some (None, c)
  else if negb (c_chunked c) then
    body ← c_body c; Some (Some (body, c_len c), mk_chunks (c_body c) (c_len c) (c_pos c) (c_chunked c) true)
  else
    '(v, e) ← strtol_end (c_pos c);
    let size := u64 v in
    if size =? 0 then Some (None, mk_chunks (c_body c) (c_len c) (c_pos c) (c_chunked c) true)
    else
      o ← strchr_from CR e;
      cur ← o;
      let rest n := if n <=? len cur then Some (drop (Z.to_nat n) cur) else None in
      chunk ← rest 2; pos ← rest (size + 4);
      Some (Some (chunk, size), mk_chunks (c_body c) (c_len c) pos (c_chunked c) false).
Definition chunk_rewind (c : chunk_cursor) : chunk_cursor :=
  match c_body c with Some body => mk_chunks (c_body c) (c_len c) body (c_chunked c) false | None => c end.

(** The loop of [decode_chunked_body]; a chunk takes a byte of the buffer at least. *)
Fixpoint decode_loop (fuel : nat) (c : chunk_cursor) (res : list Z) : option (list Z) :=
  match fuel with
  | O => None
  | S fuel =>
      '(o, c) ← chunk_next c;
      match o with
      | None => Some res
      | Some (chunk, size) => d ← memcpy size chunk; decode_loop fuel c (res ++ d)
      end
  end.
Definition decode_chunked_body (p : http_parser) : option (list Z) :=
  '(c, p) ← chunk_cursor_init p;
  '(o, p) ← get_parsed_body p;
  match o with Some _ => decode_loop (S (length (msgbuf p))) c [] | None => Some [] end.

(** ** Chunked bodies *)

(** The trailer: lines up to an empty one. *)
Inductive trailer : list Z -> Prop :=
  | trailer_end : trailer [CR; LF]
  | trailer_line l t : l <> [] -> CR ∉ l -> trailer t -> trailer (l ++ [CR; LF] ++ t).

(** A chunked body, the data of its chunks and the lines with their sizes. *)
Inductive chunked_body : list Z -> list Z -> list (list Z) -> Prop :=
  | chunks_end l t : CR ∉ l -> strtol16 l = Some 0 -> trailer t -> chunked_body (l ++ [CR; LF] ++ t) [] [l]
  | chunks_more l d e b data ls : CR ∉ l -> strtol16 l = Some (len d) -> 0 < len d < 2 ^ 31 -> length e = 2%nat ->
      chunked_body b data ls -> chunked_body (l ++ [CR; LF] ++ d ++ e ++ b) (d ++ data) (l :: ls).

(** ** Numbers *)

Lemma hex_digits_read s : forall acc n, exists r k, hex_digits acc s = (r, k) /\ (k <= length s)%nat /\
  forall c rest, hex_value c = None -> read_hex acc n (s ++ c :: rest) = Some (r, (n + k)%nat, drop k s ++ c :: rest).
Proof.
  induction s as [|x s IH]; intros acc n; cbn [hex_digits read_hex].
  - exists acc, O. split_and!; [done|cbn; lia|]. intros c rest E. cbn. rewrite E. by rewrite Nat.add_0_r.
  - destruct (hex_value x) as [v|] eqn:Ex.
    + destruct (IH (16 * acc + v) (S n)) as (r & k & E & Hk & H). exists r, (S k). rewrite E. split_and!; [done|cbn; lia|].
      intros c rest Ec. cbn [app read_hex]. rewrite Ex, H by done. f_equal. f_equal. f_equal. lia.
    + exists acc, O. split_and!; [done|lia|]. intros c rest Ec. cbn. rewrite Ex. by rewrite Nat.add_0_r.
Qed.

(** [strtol16] of the model of the parser, by the same steps. *)
Definition skip_all (s : list Z) : list Z := default [] (skip_space s).
Lemma strtol16_steps s : strtol16 s =
  let '(neg, s2) := sign_of (skip_all s) in
  let '(v, n) := hex_digits 0 (skip_0x s2) in
  if (n =? 0)%nat then None else Some (if neg : bool then Z.max (- 2 ^ 63) (- v) else Z.min (2 ^ 63 - 1) v).
Proof.
  unfold strtol16. set (skip := fix skip (s : list Z) : list Z := match s with c :: s' => if isspace c then skip s' else s | [] => [] end).
  assert (E : forall s, skip s = skip_all s). { clear. induction s as [|c s IH]; [done|]. unfold skip_all in *. cbn. by destruct (isspace c). }
  by rewrite E.
Qed.

Lemma skip_space_app s s1 ext : skip_space s = Some s1 -> skip_space (s ++ ext) = Some (s1 ++ ext) /\ s1 <> [] /\ exists j, s1 = drop j s.
Proof.
  induction s as [|c s IH]; cbn; [done|]. destruct (isspace c); [|intros [= <-]; split_and!; [done|done|by exists O]].
  intros H. destruct (IH H) as (E & Hn & j & ->). split_and!; [done|done|by exists (S j)].
Qed.
Lemma hex_digits_app s c rest : hex_value c = None -> forall acc, hex_digits acc (s ++ c :: rest) = hex_digits acc s.
Proof. intros Hc. induction s as [|x s IH]; intros acc; cbn; [by rewrite Hc|]. destruct (hex_value x); [by rewrite IH|done]. Qed.
Lemma skip_0x_app s rest : skip_0x (s ++ CR :: rest) = skip_0x s ++ CR :: rest /\ exists j, skip_0x s = drop j s.
Proof.
  destruct s as [|z [|x s]]; cbn -[hex_digits tolower].
  - split; [by destruct rest|by exists O].
  - replace (tolower CR =? 120) with false by done. rewrite andb_false_r. cbn. split; [done|by exists O].
  - rewrite hex_digits_app by done. destruct (_ && _); split; try done; [by exists 2%nat|by exists O].
Qed.
Lemma sign_of_app s ext : s <> [] -> sign_of (s ++ ext) = ((sign_of s).1, (sign_of s).2 ++ ext) /\ exists j, (sign_of s).2 = drop j s.
Proof.
  intros Hs. destruct s as [|c s]; [done|]. cbn. destruct (c =? 45); [split; [done|by exists 1%nat]|]. destruct (c =? 43); (split; [done|]); [by exists 1%nat|by exists O].
Qed.

(** The size of a chunk is read from the buffer as the parser read it from the line. *)
Lemma strtol_line l v rest : strtol16 l = Some v -> exists k, strtol_end (l ++ CR :: rest) = Some (v, drop k l ++ CR :: rest).
Proof.
  rewrite strtol16_steps. unfold strtol_end, skip_all. destruct (skip_space l) as [s1|] eqn:E1; cbn [default]; [|done]. change (id s1) with s1.
  destruct (skip_space_app l s1 (CR :: rest) E1) as (E2 & Hn & j1 & Ej1). rewrite E2. cbn [mbind option_bind].
  destruct (sign_of_app s1 (CR :: rest) Hn) as (E3 & j2 & Ej2). rewrite E3. destruct (sign_of s1) as [neg s2]. cbn [fst snd] in *.
  destruct (skip_0x_app s2 rest) as (E4 & j3 & Ej3). rewrite E4. destruct (hex_digits_read (skip_0x s2) 0 0) as (r & k & E5 & Hk & E6).
  rewrite E5, (E6 CR rest) by done. cbn [mbind option_bind Nat.add]. destruct (k =? 0)%nat; [done|]. intros [= <-].
  exists (j1 + (j2 + (j3 + k)))%nat. by rewrite Ej3, Ej2, Ej1, !drop_drop.
Qed.

Lemma strchr_line l rest : CR ∉ l -> NUL ∉ l -> strchr_from CR (l ++ CR :: rest) = Some (Some (CR :: rest)).
Proof.
  induction l as [|c l IH]; [done|]. intros [H1 H2]%not_elem_of_cons [H3 H4]%not_elem_of_cons. cbn. rewrite (proj2 (Z.eqb_neq c CR)) by congruence. rewrite (proj2 (Z.eqb_neq c NUL)) by congruence. by apply IH.
Qed.
Lemma strchr_nul l rest : CR ∉ l -> NUL ∈ l -> strchr_from CR (l ++ CR :: rest) = Some None.
Proof.
  induction l as [|c l IH]; [by intros _ ?%elem_of_nil|]. intros [H1 H2]%not_elem_of_cons H3. cbn. rewrite (proj2 (Z.eqb_neq c CR)) by congruence. destruct (Z.eqb_spec c NUL) as [|Hc]; [done|].
  apply IH; [done|]. apply elem_of_cons in H3 as [E|]; [by symmetry in E|done].
Qed.
Lemma drop_not_in {A} (x : A) k l : x ∉ l -> x ∉ drop k l.
Proof. intros H Hd. apply H. rewrite <- (take_drop k l). apply elem_of_app. by right. Qed.

(** ** The cursor on a chunked body *)

Definition reading (body pos : list Z) (n : Z) (e : bool) : chunk_cursor := mk_chunks (Some body) n pos true e.

(** One step on a chunk, and at the end. *)
Lemma chunk_next_more body n l d e b ext : CR ∉ l -> NUL ∉ l -> strtol16 l = Some (len d) -> 0 < len d < 2 ^ 31 -> length e = 2%nat ->
  chunk_next (reading body ((l ++ [CR; LF] ++ d ++ e ++ b) ++ ext) n false) = Some (Some (d ++ e ++ b ++ ext, len d), reading body (b ++ ext) n false).
Proof.
  intros Hc Hn Hv Hd He. unfold chunk_next, reading. cbn [c_end c_chunked negb c_pos c_body c_len]. replace ((l ++ [CR; LF] ++ d ++ e ++ b) ++ ext) with (l ++ CR :: LF :: d ++ e ++ b ++ ext) by (rewrite <- !app_assoc; done).
  destruct (strtol_line l (len d) (LF :: d ++ e ++ b ++ ext) Hv) as (k & E). rewrite E. cbn [mbind option_bind]. rewrite (wrap_small 64 (len d)) by lia.
  rewrite (proj2 (Z.eqb_neq (len d) 0)) by lia. rewrite strchr_line by by apply drop_not_in. cbn [mbind option_bind].
  rewrite (proj2 (Z.leb_le 2 _)) by (cbn; rewrite !length_app; lia). rewrite (proj2 (Z.leb_le (len d + 4) _)) by (cbn; rewrite !length_app; lia).
  cbn [mbind option_bind]. replace (Z.to_nat (len d + 4)) with (2 + (length d + length e))%nat by lia.
  replace (drop (2 + (length d + length e)) (CR :: LF :: d ++ e ++ b ++ ext)) with (b ++ ext); [done|].
  cbn [Nat.add drop]. rewrite app_assoc, <- length_app. by rewrite drop_app_length.
Qed.
Lemma chunk_next_end body n l t ext : CR ∉ l -> strtol16 l = Some 0 -> chunk_next (reading body ((l ++ [CR; LF] ++ t) ++ ext) n false) = Some (None, reading body ((l ++ [CR; LF] ++ t) ++ ext) n true).
Proof.
  intros Hc Hv. unfold chunk_next, reading. cbn [c_end c_chunked negb c_pos c_body c_len]. rewrite <- !app_assoc. cbn [app].
  destruct (strtol_line l 0 (LF :: t ++ ext) Hv) as (k & ->). done.
Qed.
Lemma chunk_next_nul body n l d e b ext : CR ∉ l -> strtol16 l = Some (len d) -> 0 < len d < 2 ^ 31 ->
  (exists k, strtol_end (l ++ CR :: LF :: d ++ e ++ b ++ ext) = Some (len d, drop k l ++ CR :: LF :: d ++ e ++ b ++ ext) /\ NUL ∈ drop k l) ->
  chunk_next (reading body ((l ++ [CR; LF] ++ d ++ e ++ b) ++ ext) n false) = None.
Proof.
  intros Hc Hv Hd (k & E & Hn). unfold chunk_next, reading. cbn [c_end c_chunked negb c_pos c_body c_len]. replace ((l ++ [CR; LF] ++ d ++ e ++ b) ++ ext) with (l ++ CR :: LF :: d ++ e ++ b ++ ext) by (rewrite <- !app_assoc; done).
  rewrite E. cbn [mbind option_bind]. rewrite (wrap_small 64 (len d)) by lia.
  rewrite (proj2 (Z.eqb_neq (len d) 0)) by lia. by rewrite strchr_nul by (try done; by apply drop_not_in).
Qed.

(** The loop gives the data of the chunks. *)
Lemma chunks_decoded body n ext b data ls : chunked_body b data ls -> Forall (fun l => NUL ∉ l) ls ->
  forall fuel res, (length b < fuel)%nat -> decode_loop fuel (reading body (b ++ ext) n false) res = Some (res ++ data).
Proof.
  induction 1 as [l t Hc Hv Ht|l d e b data ls Hc Hv Hd He H IH]; intros Hn [|fuel] res Hf; [lia| |lia|]; inversion Hn; subst; cbn [decode_loop].
  - rewrite chunk_next_end by done. cbn [mbind option_bind]. by rewrite app_nil_r.
  - rewrite chunk_next_more by done. cbn [mbind option_bind]. rewrite HttpHeader.memcpy_app. cbn [mbind option_bind].
    rewrite !length_app in Hf. cbn in Hf. rewrite IH by (done || lia). by rewrite app_assoc.
Qed.

(** ** What the parser accepts *)

Lemma scan_line_text nul room ptr l : scan_line nul room ptr = Line l -> CR ∉ l /\ exists rest, ptr = l ++ [CR; LF] ++ rest.
Proof.
  revert ptr l. induction room as [|room IH]; intros [|c ptr] l; cbn [scan_line]; [done..|]. destruct (Z.eqb_spec c CR) as [->|Hc].
  - destruct ptr as [|c2 rest]; [done|]. destruct (Z.eqb_spec c2 LF) as [->|]; [|done]. intros [= <-]. split; [apply not_elem_of_nil|by exists rest].
  - destruct (nul && _); [done|]. destruct (scan_line nul room ptr) as [| |l'] eqn:E; [done..|]. intros [= <-]. destruct (IH _ _ E) as (Hn & rest & ->).
    split; [|by exists rest]. apply not_elem_of_cons. split; [congruence|done].
Qed.

Lemma from_shift o m a rest : 0 <= o -> from o m = a ++ rest -> from (o + len a) m = rest.
Proof. intros Ho E. unfold from in *. replace (Z.to_nat (o + len a)) with (Z.to_nat o + length a)%nat by lia. rewrite <- drop_drop, E. by rewrite drop_app_length. Qed.

Lemma trailer_loop m fuel : forall p p', chunk_state p = CPS_TRAILER_PART -> 0 <= chunk_offset p -> chunk_loop fuel m p = Some (1, p') ->
  exists t rest, from (chunk_offset p) m = t ++ rest /\ chunk_offset p' = chunk_offset p + len t /\ trailer t.
Proof.
  induction fuel as [|fuel IH]; intros p p' Hs Ho E; [done|]. rewrite chunk_loop_S in E. unfold cturn in E. rewrite Hs in E. unfold __parse_trailer_part in E.
  destruct (scan_line _ _ _) as [| |l] eqn:El; [rewrite decide_False in E by (cbn; congruence); cbn in E; congruence..|]. destruct (scan_line_text _ _ _ _ El) as (Hc & rest & Er).
  destruct l as [|c l].
  - cbn in E. injection E as <-. exists [CR; LF], rest. split_and!; [exact Er|cbn; lia|constructor].
  - rewrite decide_False in E by (cbn; by rewrite Hs). cbn [Z.ltb Z.compare] in E. destruct (IH (set_chunk_offset (chunk_offset p + len (c :: l) + 2) p) p' Hs) with (2 := E) as (t & rest2 & E2 & E3 & Ht); [cbn; lia|].
    cbn [chunk_offset set_chunk_offset] in E2, E3. assert (Ef : from (chunk_offset p + len (c :: l) + 2) m = rest).
    { replace (chunk_offset p + len (c :: l) + 2) with (chunk_offset p + len ((c :: l) ++ [CR; LF])) by (rewrite length_app; cbn; lia). apply from_shift; [done|]. by rewrite Er, <- app_assoc. }
    exists ((c :: l) ++ [CR; LF] ++ t), rest2. split_and!.
    + rewrite Er, <- Ef, E2, <- !app_assoc. done.
    + rewrite E3, !length_app. cbn. lia.
    + by apply trailer_line.
Qed.

Lemma chunk_loop_body m fuel : forall p p', chunk_state p = CPS_CHUNK_DATA -> 0 <= chunk_offset p -> chunk_loop fuel m p = Some (1, p') ->
  exists b rest data ls, from (chunk_offset p) m = b ++ rest /\ chunk_offset p' = chunk_offset p + len b /\ chunked_body b data ls.
Proof.
  induction fuel as [|fuel IH]; intros p p' Hs Ho E; [done|]. rewrite chunk_loop_S in E. unfold cturn in E. rewrite Hs in E. unfold __parse_chunk_data in E.
  destruct (scan_line _ _ _) as [| |l] eqn:El; [rewrite decide_False in E by (cbn; congruence); cbn in E; congruence..|]. destruct (scan_line_text _ _ _ _ El) as (Hc & rest & Er).
  destruct (strtol16 l) as [v|] eqn:Ev; [|rewrite decide_False in E by (cbn; congruence); cbn in E; congruence].
  assert (Hf : from (chunk_offset p + (len l + 2)) m = rest).
  { replace (len l + 2) with (len (l ++ [CR; LF])) by (rewrite length_app; cbn; lia). apply from_shift; [done|]. by rewrite Er, <- app_assoc. }
  destruct (Z.eqb_spec v 0) as [->|Hv].
  - rewrite decide_False in E by done. cbn [Z.ltb Z.compare] in E.
    destruct (trailer_loop m fuel (set_chunk_offset (chunk_offset p + (len l + 2)) (set_chunk_state CPS_TRAILER_PART p)) p' eq_refl) with (2 := E) as (t & rest2 & E2 & E3 & Ht);
      [cbn; lia|]. cbn [chunk_offset set_chunk_offset] in E2, E3. rewrite Hf in E2. exists (l ++ [CR; LF] ++ t), rest2, [], [l]. split_and!.
    + rewrite Er, E2, <- !app_assoc. done.
    + rewrite E3, !length_app. cbn. lia.
    + by apply chunks_end.
  - destruct (u64 v <? CHUNK_SIZE_MAX) eqn:Hlt; [|rewrite decide_False in E by (cbn; congruence); cbn in E; congruence]. pose proof (chunk_size_range v (strtol16_range _ _ Ev) Hv Hlt) as Hr. cbv zeta in E.
    destruct (Z.ltb_spec (len (from (chunk_offset p) m)) (v + len l + 4)) as [Hl|Hl]; [rewrite decide_False in E by (cbn; congruence); cbn in E; congruence|].
    rewrite decide_False in E by (cbn; by rewrite Hs). cbn [Z.ltb Z.compare] in E. destruct (IH (set_chunk_offset (chunk_offset p + (v + len l + 4)) p) p' Hs) with (2 := E) as (b & rest2 & data & ls & E2 & E3 & Hb); [cbn; lia|].
    cbn [chunk_offset set_chunk_offset] in E2, E3. rewrite Er in Hl. rewrite !length_app in Hl. cbn in Hl.
    set (d := take (Z.to_nat v) rest). set (e := take 2 (drop (Z.to_nat v) rest)).
    assert (Hd : len d = v) by (unfold d; rewrite length_take; lia). assert (He : length e = 2%nat) by (unfold e; rewrite length_take, length_drop; lia).
    assert (Erest : rest = d ++ e ++ b ++ rest2).
    { rewrite <- E2. replace (chunk_offset p + (v + len l + 4)) with (chunk_offset p + (len l + 2) + (v + 2)) by lia. unfold from in *. rewrite Z2Nat.inj_add by lia. rewrite <- drop_drop, Hf.
      unfold d, e. rewrite Z2Nat.inj_add by lia. rewrite <- (drop_drop _ _ (Z.to_nat v)). by rewrite !take_drop. }
    exists (l ++ [CR; LF] ++ d ++ e ++ b), rest2, (d ++ data), (l :: ls). split_and!.
    + rewrite Er, Erest at 1. rewrite <- !app_assoc. done.
    + rewrite E3, !length_app. cbn. lia.
    + apply chunks_more; try done; by rewrite Hd.
Qed.

(** ** Messages fed to a parser *)

Lemma feed_complete pieces : forall p n p1, waiting p -> msgsize p + len (concat pieces) < 2 ^ 62 -> feed pieces p = Some (1, n, p1) ->
  parser_ok p1 /\ complete p1 = true /\ 0 < msgsize p1.
Proof.
  induction pieces as [|b pieces IH]; intros p n p1 Hw Hsz E; cbn [feed concat] in *; [done|]. rewrite length_app in Hsz.
  destruct (append_accounts b p Hw) as (r & n1 & q & E1 & H); [lia|]. rewrite E1 in E. cbn [mbind option_bind] in E.
  destruct H as [(-> & _ & Hq & Hm)|[(-> & _)|(-> & Hn & Hc & Hok & Hm)]]; cbn in E.
  - destruct (feed pieces q) as [[[r2 n2] p2]|] eqn:E2; [|done]. cbn in E. injection E as -> <- ->. apply (IH q n2); [done| |done].
    assert (Hs : msgsize q = msgsize p + len b).
    { destruct Hq as ((Hbq & _) & _). destruct Hw as ((Hbp & _) & _). pose proof (len_message q (bo_size q Hbq)). pose proof (len_message p (bo_size p Hbp)). rewrite Hm, length_app in *. lia. }
    lia.
  - done.
  - injection E as _ <-. split_and!; [done|done|]. destruct Hok as (Hbq & _). pose proof (len_message q (bo_size q Hbq)) as Hl. rewrite Hm, length_app, length_take in Hl. lia.
Qed.

(** A message accepted: where its body is, and that it is a chunked body when it says so. *)
Lemma feed_body pieces is_resp mem n p : length (namebuf mem) = HTTP_HEADER_NAME_MAX -> len (concat pieces) < 2 ^ 62 ->
  feed pieces (http_parser_init is_resp mem) = Some (1, n, p) ->
  header_state p = HPS_HEADER_COMPLETE /\ 0 <= header_offset p <= msgsize p /\
  (chunked p = true -> transfer_length p = SIZE_MAX -> exists data ls, chunked_body (from (header_offset p) (message p)) data ls).
Proof.
  intros Hnb Hsz E. pose proof (init_waiting is_resp mem Hnb) as Hw. set (p0 := http_parser_init is_resp mem) in *.
  destruct (feed_append pieces p0 Hw) as (r & n1 & p1 & E1 & n2 & p2 & E2 & H); [exact Hsz|]. rewrite E in E1. injection E1 as <- <- <-. destruct (H ltac:(lia)) as [_ (Hsim & Hms & Hmsg)]. clear H.
  destruct (append_waiting (concat pieces) p0 Hw) as (mb & bs & r & q & t & F & _ & _ & _ & Hm & Ht & E3); [exact Hsz|]. rewrite E2 in E3. injection E3 as <- _ ->. set (m := concat pieces) in *. change (message p0 ++ m) with m in *.
  specialize (Ht eq_refl). destruct (an_total _ _ _ _ _ _ _ F eq_refl) as [Hho Hst]. pose proof (hok_offset q (an_hok _ _ _ _ _ _ _ F)) as Hh0.
  pose proof (hsim_inv _ _ Hsim) as Hinv. unfold commit in *. change (1 =? 1) with true in *. cbv iota in *.
  assert (F1 : header_state p = header_state q /\ header_offset p = header_offset q /\ chunked p = chunked q /\ transfer_length p = transfer_length q).
  { pose proof (f_equal header_state Hinv) as I1. pose proof (f_equal header_offset Hinv) as I2. pose proof (f_equal chunked Hinv) as I3. pose proof (f_equal transfer_length Hinv) as I4. cbn in I1, I2, I3, I4. split_and!; congruence. }
  destruct F1 as (G1 & G2 & G3 & G4). cbn in Hms. rewrite G1, G2, G3, G4, Hms. split; [done|]. split; [lia|]. intros Hc Htr.
  assert (Em : message p = take (Z.to_nat t) m).
  { rewrite Hmsg. unfold message in Hm at 1. cbn in Hm. unfold message. cbn. rewrite <- Hm, take_take. f_equal. cbn in Ht. lia. }
  rewrite Em. pose proof (an_run _ _ _ _ _ _ _ F) as R. unfold analyse in R. rewrite decide_False in R by done.
  destruct (header_loop _ m p0 []) as [[[r1 q1] h1]|] eqn:Eh; [|done]. cbn [mbind option_bind] in R. destruct (Z.leb_spec r1 0) as [Hr1|Hr1]; [injection R as ? _ _ _; lia|].
  destruct (analyse_body m (start_body q1)) as [[[r3 q3] t3]|] eqn:Eb; [|done]. cbn [mbind option_bind] in R. injection R as -> -> -> _.
  unfold analyse_body in Eb. destruct (transfer_length (start_body q1) =? SIZE_MAX) eqn:Et; cbn [negb] in Eb.
  2:{ destruct (_ <=? _); [|done]. injection Eb as <- _. apply Z.eqb_neq in Et. congruence. }
  destruct (chunked (start_body q1)) eqn:Ec; cbn [negb] in Eb; [|done].
  assert (Es : start_body q1 = set_chunk_state CPS_CHUNK_DATA (set_chunk_offset (header_offset q1) q1)).
  { clear - Ec. unfold start_body in *. destruct (chunked q1) eqn:Ec1; [reflexivity|]. exfalso. destruct (transfer_length q1 =? SIZE_MAX); cbn in Ec; congruence. }
  rewrite Es in Eb. destruct (chunk_loop (S (length m)) m _) as [[r4 q4]|] eqn:El; [|done]. cbn [mbind option_bind] in Eb.
  assert (Ho1 : 0 <= header_offset q1 <= len m).
  { destruct Hw as ((_ & Hok0 & _) & _). destruct (header_loop_total m (S (length m)) p0 []) as (r5 & q5 & h5 & E5 & P5); [split_and!; [done|done|cbn; lia]|cbn; lia|].
    rewrite Eh in E5. injection E5 as <- <- <-. pose proof (post_offset _ _ _ _ _ _ P5) as Hp. cbn in Hp. lia. }
  destruct (chunk_loop_total m (S (length m)) (set_chunk_state CPS_CHUNK_DATA (set_chunk_offset (header_offset q1) q1))) as (r6 & q6 & E6 & P6); [split; [done|exact Ho1]|cbn; lia|].
  rewrite El in E6. injection E6 as <- <-. pose proof (cpost_ret _ _ _ _ P6) as Hr4. destruct (Z.leb_spec r4 0) as [|Hr4']; [injection Eb as ? _ _; lia|]. injection Eb as <- <-. assert (r4 = 1) as -> by lia.
  destruct (chunk_loop_body m _ (set_chunk_state CPS_CHUNK_DATA (set_chunk_offset (header_offset q1) q1)) _ eq_refl (proj1 Ho1) El) as (b & rest & data & ls & B1 & B2 & B3). exists data, ls. cbn [chunk_offset set_chunk_state set_chunk_offset] in B1, B2.
  assert (Eo : header_offset q4 = header_offset q1) by (pose proof (cpost_moved _ _ _ _ P6) as Hcm; by rewrite Hcm). rewrite Eo.
  replace (from (header_offset q1) (take (Z.to_nat (chunk_offset q4)) m)) with b; [done|]. unfold from in *. rewrite B2, Z2Nat.inj_add, Nat2Z.id by lia. rewrite <- take_drop_commute, B1. by rewrite take_app_length.
Qed.

(** [http_parser_get_body] terminates the buffer, which has the body where it was. *)
Lemma parsed_body_ok p : parser_ok p -> complete p = true -> header_state p = HPS_HEADER_COMPLETE -> 0 < msgsize p -> 0 <= header_offset p <= msgsize p ->
  exists ext p', get_parsed_body p = Some (Some (from (header_offset p) (message p) ++ NUL :: ext, len (from (header_offset p) (message p))), p') /\
    parser_ok p' /\ complete p' = true /\ header_state p' = HPS_HEADER_COMPLETE /\ msgsize p' = msgsize p /\ header_offset p' = header_offset p /\ chunked p' = chunked p /\ message p' = message p /\
    (length (message p) < length (msgbuf p'))%nat.
Proof.
  intros (Hb & Hok & Ha) Hc Hs Hms Ho. pose proof Hb as [B1 B2 B3]. pose proof (len_message p B1) as Hl. unfold get_parsed_body, http_parser_get_body. rewrite Hc, bool_decide_eq_true_2 by done. cbn [andb].
  rewrite (proj2 (Z.ltb_lt _ _)) by lia. cbn [mbind option_bind]. set (n := Z.to_nat (msgsize p)). set (mb := take n (msgbuf p) ++ NUL :: drop (S n) (msgbuf p)).
  assert (Hm : take n mb = message p). { unfold mb, message, n. rewrite take_app_le by (rewrite length_take; lia). rewrite take_take. by rewrite Nat.min_id. }
  assert (Hlb : len mb = Z.max (len (msgbuf p)) (msgsize p + 1)). { unfold mb, n. rewrite length_app, length_take. cbn. rewrite length_drop. lia. }
  exists (drop (S n) (msgbuf p)), (set_msgbuf mb p). split_and!; try done.
  - f_equal. f_equal. f_equal. f_equal. unfold from. cbn [header_offset set_msgbuf msgbuf]. unfold mb. rewrite drop_app_le by (rewrite length_take; lia). done.
  - split; [constructor; cbn; [lia|lia|by left; destruct B3; lia]|]. split; [by destruct Hok|]. intros E. cbn in E. congruence.
  - cbn [msgbuf set_msgbuf]. lia.
Qed.

(** The cursor and the loop on a body that is not chunked. *)
Lemma decode_loop_whole body n data ext fuel : (2 <= fuel)%nat -> body = data ++ ext -> n = len data -> decode_loop fuel (mk_chunks (Some body) n body false false) [] = Some data.
Proof.
  intros Hf -> ->. destruct fuel as [|[|fuel]]; [lia..|]. set (c := mk_chunks _ _ _ _ _).
  assert (E1 : chunk_next c = Some (Some (data ++ ext, len data), mk_chunks (Some (data ++ ext)) (len data) (data ++ ext) false true)) by done.
  cbn [decode_loop]. rewrite E1. cbn [mbind option_bind]. rewrite HttpHeader.memcpy_app. done.
Qed.

Lemma decode_body_ok p : parser_ok p -> complete p = true -> header_state p = HPS_HEADER_COMPLETE -> 0 < msgsize p -> 0 <= header_offset p <= msgsize p ->
  let body := from (header_offset p) (message p) in
  (chunked p = false -> decode_chunked_body p = Some body) /\
  (chunked p = true -> forall data ls, chunked_body body data ls -> Forall (fun l => NUL ∉ l) ls -> decode_chunked_body p = Some data) /\
  (chunked p = true -> body = [] -> decode_chunked_body p = Some []).
Proof.
  intros Hok Hc Hs Hms Ho body. destruct (parsed_body_ok p Hok Hc Hs Hms Ho) as (ext & p' & E1 & Hok' & Hc' & Hs' & Hms' & Ho' & Hch' & Hm' & _).
  destruct (parsed_body_ok p' Hok' Hc' Hs' ltac:(lia) ltac:(lia)) as (ext2 & p2 & E2 & _ & _ & _ & _ & _ & _ & _ & Hl). rewrite Hm' in Hl. fold body in E1.
  assert (Hfuel : (length body <= length (message p))%nat) by (unfold body, from; rewrite length_drop; lia).
  unfold decode_chunked_body, chunk_cursor_init. rewrite E1. cbn [mbind option_bind]. rewrite E2. cbn [mbind option_bind]. rewrite Hch'. split_and!.
  - intros ->. eapply decode_loop_whole; [lia|done|done].
  - intros -> data ls Hb Hn. change (mk_chunks ?b ?n ?b' true false) with (reading (body ++ NUL :: ext) (body ++ NUL :: ext) n false). rewrite (chunks_decoded _ _ _ _ _ _ Hb Hn) by lia. done.
  - intros -> Hb. rewrite Hb. cbn [decode_loop app]. unfold chunk_next, strtol_end. cbn [c_end c_chunked negb c_pos skip_space]. 
    destruct ext as [|x ext]; done.
Qed.


(** A chunked request with two chunks and a trailer, and one with a NUL in a line:
    ["1;", 0, "\r\nx\r\n0\r\n\r\n"]. *)
Definition str_chunked : list Z := [99; 104; 117; 110; 107; 101; 100].
Definition demo_head : list Z := [71; 69; 84; 32; 47; 32; 72; 84; 84; 80; 47; 49; 46; 49; 13; 10] ++ str_Transfer_Encoding ++ [58] ++ str_chunked ++ [13; 10; 13; 10].
Definition demo_chunks : list Z := [50; 13; 10; 97; 98; 13; 10; 49; 59; 120; 13; 10; 99; 13; 10; 48; 13; 10; 84; 13; 10; 13; 10].
Definition demo_nul : list Z := [49; 59; 0; 13; 10; 120; 13; 10; 48; 13; 10; 13; 10].
Definition accepted (pieces : list (list Z)) : http_parser := match feed pieces demo_parser with Some (1, _, p) => p | _ => demo_parser end.

(** A NUL in the line with the size of a chunk is accepted by the parser, and the cursor, which looks
    for the end of the line with [strchr], then goes on from a NULL pointer. *)
Theorem decode_chunked_nul : feed [demo_head ++ demo_nul] demo_parser = Some (1, len (demo_head ++ demo_nul), accepted [demo_head ++ demo_nul]) /\
  decode_chunked_body (accepted [demo_head ++ demo_nul]) = None.
Proof. split; vm_compute; reflexivity. Qed.

