(* ===== verification/HttpMessage.v ===== *)
(** * HTTP messages: [src/protocol/HttpMessage.cc] and [HttpMessage.h]

    A message is a parser with the body to be sent, a list of blocks.  [encode] fills the vectors
    the communicator writes: the start line, one vector for each header, the blocks of the
    body, the last of which are put together when there are not vectors enough.  [append] gives the
    bytes received to the parser and limits their number; a request answers an
    [Expect: 100-continue] and requests it refuses, a response skips [100 Continue].

    A block is the bytes it has; the contents of blocks that are not copied is taken when they are
    appended.  What the peer is sent by [feedback] is a list of texts, and the results of the writes come from a
    list of answers (an exhausted list means that all was written). *)

From stdpp Require Import strings.
From S2P Require Import Prelude CLib HttpParser HttpScan HttpHeader HttpHeaders HttpChunk HttpAppend.

Local Open Scope Z_scope.

(** ** Definitions *)

Inductive errno := EBADMSG | EMSGSIZE | ENOMEM | EOVERFLOW | ENOBUFS | ENOSPC | EOTHER.

(** [class HttpMessage]; [size_limit] is [ProtocolMessage]'s. *)
Record http_message := mk_message { parser : http_parser; cur_size : Z; size_limit : Z; output_body : list (list Z); output_body_size : Z }.
Definition with_parser (p : http_parser) (m : http_message) : http_message := mk_message p (cur_size m) (size_limit m) (output_body m) (output_body_size m).
Definition with_size (n : Z) (m : http_message) : http_message := mk_message (parser m) n (size_limit m) (output_body m) (output_body_size m).
Definition with_body (l : list (list Z)) (n : Z) (m : http_message) : http_message := mk_message (parser m) (cur_size m) (size_limit m) l n.

Definition http_message_init (is_resp : bool) (mem : http_parser) : http_message := mk_message (http_parser_init is_resp mem) 0 SIZE_MAX [] 0.

(** *** The body to be sent *)

Definition append_output_body (buf : list Z) (size : Z) (m : http_message) (h : heap) : option (bool * http_message * heap) :=
  let '(ok, h) := malloc h in
  if ok then b ← memcpy size buf; Some (true, with_body (output_body m ++ [b]) (u64 (output_body_size m + size)) m, h)
  else Some (false, m, h).
Definition append_output_body_nocopy (buf : list Z) (size : Z) (m : http_message) (h : heap) : option (bool * http_message * heap) :=
  let '(ok, h) := malloc h in
  if ok then b ← memcpy size buf; Some (true, with_body (output_body m ++ [b]) (u64 (output_body_size m + size)) m, h)
  else Some (false, m, h).
(** The blocks, [max] at most. *)
Fixpoint blocks_loop (n max : Z) (l : list (list Z)) : list (list Z) :=
  match l with [] => [] | b :: l => if n =? max then [] else b :: blocks_loop (n + 1) max l end.
Definition get_output_body_blocks (max : Z) (m : http_message) : list (list Z) := blocks_loop 0 max (output_body m).

(** [memcpy] of the blocks one after the other into a buffer, from [off] on. *)
Fixpoint copy_blocks (off : Z) (l : list (list Z)) (buf : list Z) : option (list Z) :=
  match l with [] => Some buf | b :: l => buf ← write off b buf; copy_blocks (off + len b) l buf end.
(** [get_output_body_merged]: the buffer and [*size]. *)
Definition get_output_body_merged (buf : list Z) (size : Z) (m : http_message) : option (bool * option errno * list Z * Z) :=
  if size <? output_body_size m then Some (false, Some ENOSPC, buf, size)
  else buf ← copy_blocks 0 (output_body m) buf; Some (true, None, buf, output_body_size m).
Definition clear_output_body (m : http_message) : http_message := with_body [] 0 m.

(** [combine_from]: the blocks from a position on become one of [size] bytes, which hold
    anything before they are written. *)
Definition combine_from (pre rest : list (list Z)) (size : Z) (h : heap) : option (option (list Z) * list (list Z) * heap) :=
  let '(ok, h) := malloc h in
  if ok then b ← copy_blocks 0 rest (repeat NUL (Z.to_nat size)); Some (Some b, pre ++ [b], h)
  else Some (None, pre ++ rest, h).

(** *** [encode] *)

(** The vectors of the headers from number [i] on. *)
Fixpoint header_vectors (i max : Z) (lines : list header_line) : option (list (list Z)) :=
  match lines with
  | [] => Some []
  | l :: lines =>
      if i =? max then Some []
      else w ← line_wire l; vs ← header_vectors (i + 1) max lines; Some (w :: vs)
  end.

(** The vectors of the blocks from number [i] on; the blocks before are in [pre]. *)
Fixpoint body_vectors (i max size : Z) (pre rest : list (list Z)) (h : heap) : option (option (list (list Z)) * list (list Z) * heap) :=
  match rest with
  | [] => Some (Some [], pre, h)
  | b :: rest' =>
      if (i + 1 =? max) && negb (bool_decide (rest' = [])) then
        '(o, bs, h) ← combine_from pre rest size h;
        Some (match o with Some c => Some [c] | None => None end, bs, h)
      else if i <? max then
        '(o, bs, h) ← body_vectors (i + 1) max (u64 (size - len b)) (pre ++ [b]) rest' h;
        Some (match o with Some vs => Some (b :: vs) | None => None end, bs, h)
      else None
  end.

Inductive encoded := EncVectors (vs : list (list Z)) | EncError (e : errno).

Definition encode_message (max : Z) (m : http_message) (h : heap) : option (encoded * http_message * heap) :=
  match start_line (parser m) with
  | None => Some (EncError EBADMSG, m, h)
  | Some (a, b, c) =>
      if max <? 6 then None
      else
        hs ← header_vectors 6 max (header_list (parser m));
        let i := 6 + len hs in
        if max <=? i + 1 then Some (EncError EOVERFLOW, m, h)
        else
          '(o, bs, h) ← body_vectors (i + 1) max (output_body_size m) [] (output_body m) h;
          let m := with_body bs (output_body_size m) m in
          Some (match o with
                | Some vs => EncVectors ([a; [SP]; b; [SP]; c; [CR; LF]] ++ hs ++ [[CR; LF]] ++ vs)
                | None => EncError ENOMEM
                end, m, h)
  end.

(** *** Receiving *)

(** [append]: the value returned, [errno], [*size]. *)
Definition message_append (buf : list Z) (n : Z) (m : http_message) (h : heap) : option (Z * option errno * Z * http_message * heap) :=
  '(ret, n, p, h) ← http_parser_append_message buf n (parser m) h;
  let m := with_parser p m in
  if 0 <=? ret then
    let m := with_size (u64 (cur_size m + n)) m in
    if size_limit m <? cur_size m then Some (-1, Some EMSGSIZE, n, m, h) else Some (ret, None, n, m, h)
  else if ret =? -2 then Some (-1, Some EBADMSG, n, m, h)
  else Some (ret, Some ENOMEM, n, m, h).

(** What the peer was sent, and the answers of the writes to come. *)
Record peer := mk_peer { sent : list (list Z); answers : list Z }.
Definition feedback (text : list Z) (w : peer) : Z * peer :=
  match answers w with
  | [] => (len text, mk_peer (sent w ++ [text]) [])
  | r :: l => (r, mk_peer (sent w ++ [text]) l)
  end.

(** The texts, as the bytes of the strings of the source. *)
Definition bytes_of (s : String.string) : list Z := (fun b => Z.of_N (Ascii.N_of_ascii b)) <$> String.list_ascii_of_string s.
Definition CRLF : list Z := [CR; LF].
Definition CONTENT_LENGTH_ZERO : list Z := bytes_of "Content-Length: 0"%string.
Definition CONNECTION_CLOSE : list Z := bytes_of "Connection: close"%string.
Definition HTTP_100_RESP : list Z := bytes_of "HTTP/1.1 100 Continue"%string ++ CRLF ++ CRLF.
Definition refusal (status : list Z) : list Z := status ++ CRLF ++ CONTENT_LENGTH_ZERO ++ CRLF ++ CONNECTION_CLOSE ++ CRLF ++ CRLF.
Definition HTTP_400_RESP : list Z := refusal (bytes_of "HTTP/1.1 400 Bad Request"%string).
Definition HTTP_413_RESP : list Z := refusal (bytes_of "HTTP/1.1 413 Request Entity Too Large"%string).
Definition HTTP_417_RESP : list Z := refusal (bytes_of "HTTP/1.1 417 Expectation Failed"%string).

Definition handle_expect_continue (m : http_message) (w : peer) : Z * option errno * peer :=
  let trans_len := transfer_length (parser m) in
  if negb (trans_len =? SIZE_MAX) && (size_limit m <? u64 (header_offset (parser m) + trans_len)) then
    let '(_, w) := feedback HTTP_417_RESP w in (-1, Some EMSGSIZE, w)
  else
    let '(ret, w) := feedback HTTP_100_RESP w in
    if negb (u64 ret =? len HTTP_100_RESP) then (-1, if 0 <=? ret then Some ENOBUFS else Some EOTHER, w) else (0, None, w).

(** [HttpRequest::append] *)
Definition request_append (buf : list Z) (n : Z) (m : http_message) (h : heap) (w : peer) : option (Z * option errno * Z * http_message * heap * peer) :=
  '(ret, e, n, m, h) ← message_append buf n m h;
  if ret =? 0 then
    if expect_continue (parser m) && http_parser_header_complete (parser m) then
      let m := with_parser (set_expect_continue false (parser m)) m in
      let '(ret, e, w) := handle_expect_continue m w in Some (ret, e, n, m, h, w)
    else Some (ret, e, n, m, h, w)
  else if ret <? 0 then
    let w :=
      match e with
      | Some EBADMSG => snd (feedback HTTP_400_RESP w)
      | Some EMSGSIZE => snd (feedback HTTP_413_RESP w)
      | _ => w
      end in
    Some (ret, e, n, m, h, w)
  else Some (ret, e, n, m, h, w).

Definition str_100 : list Z := [49; 48; 48].
(** [HttpResponse::append]; a NULL code compared is undefined behaviour. *)
Definition response_append (buf : list Z) (n : Z) (m : http_message) (h : heap) : option (Z * option errno * Z * http_message * heap) :=
  '(ret, e, n, m, h) ← message_append buf n m h;
  if 0 <? ret then
    c ← code (parser m);
    if bool_decide (c = str_100) then Some (0, e, n, with_parser (http_parser_init true (parser m)) m, h)
    else Some (ret, e, n, m, h)
  else Some (ret, e, n, m, h).

(** ** The body to be sent *)

(** The size of the body is that of its blocks. *)
Definition body_ok (m : http_message) : Prop := output_body_size m = len (concat (output_body m)) /\ output_body_size m < 2 ^ 64.

Lemma copy_blocks_ok l : forall off done rest, off = len done -> len (concat l) <= len rest ->
  copy_blocks off l (done ++ rest) = Some (done ++ concat l ++ drop (length (concat l)) rest).
Proof.
  induction l as [|b l IH]; intros off dn rest -> Hl; cbn [copy_blocks concat] in *; [done|]. rewrite length_app in Hl.
  assert (Ew : write (len dn) b (dn ++ rest) = Some ((dn ++ b) ++ drop (length b) rest)).
  { unfold write. rewrite length_app, (proj2 (Z.leb_le 0 _)), (proj2 (Z.leb_le (_ + _) _)) by lia. cbn [andb]. f_equal. rewrite Nat2Z.id, take_app_length. rewrite <- app_assoc. f_equal. f_equal.
    rewrite drop_app_ge by lia. f_equal. lia. }
  rewrite Ew. cbn [mbind option_bind]. rewrite (IH (len dn + len b) (dn ++ b)); [|rewrite length_app; lia|rewrite length_drop; lia].
  rewrite drop_drop, length_app, <- !app_assoc. done.
Qed.
(** The blocks put together, in a buffer of their size. *)
Lemma copy_all l size : size = len (concat l) -> copy_blocks 0 l (repeat NUL (Z.to_nat size)) = Some (concat l).
Proof.
  intros ->. set (r := repeat NUL (Z.to_nat (len (concat l)))). assert (Hr : length r = length (concat l)) by (unfold r; rewrite repeat_length; lia).
  assert (H : copy_blocks 0 l r = Some (concat l ++ drop (length (concat l)) r)) by (apply (copy_blocks_ok l 0 [] r); [done|lia]). rewrite H, drop_ge by lia. by rewrite app_nil_r.
Qed.

(** ** The vectors *)

Lemma header_vectors_ok lines ws max : forall i, mapM line_wire lines = Some ws -> i <= max ->
  header_vectors i max lines = Some (take (Z.to_nat (max - i)) ws).
Proof.
  revert ws. induction lines as [|l lines IH]; intros ws i E Hi.
  - injection E as <-. cbn. by rewrite take_nil.
  - cbn in E. destruct (line_wire l) as [w|] eqn:Ew; [|done]. cbn in E. destruct (mapM line_wire lines) as [ws'|]; [|done]. injection E as <-. cbn [header_vectors].
    destruct (Z.eqb_spec i max) as [->|Hn]; [by rewrite Z.sub_diag|]. rewrite Ew. cbn [mbind option_bind]. rewrite (IH ws' (i + 1) eq_refl) by lia. cbn.
    by replace (Z.to_nat (max - i)) with (S (Z.to_nat (max - (i + 1)))) by lia.
Qed.

(** The vectors are the body, whether blocks were put together or not; the body stays the same. *)
Lemma body_vectors_ok max rest : forall i size pre h, size = len (concat rest) -> size < 2 ^ 64 -> i < max \/ rest = [] ->
  exists o bs h', body_vectors i max size pre rest h = Some (o, bs, h') /\ concat bs = concat (pre ++ rest) /\
    match o with
    | Some vs => concat vs = concat rest /\ i + len vs <= Z.max i max
    | None => h <> []
    end.
Proof.
  induction rest as [|b rest IH]; intros i size pre h Hs Hsz Hi; cbn [body_vectors].
  - exists (Some []), pre, h. rewrite app_nil_r. split_and!; [done|done|done|cbn; lia].
  - destruct Hi as [Hi|]; [|done]. destruct ((i + 1 =? max) && negb (bool_decide (rest = []))) eqn:E.
    + unfold combine_from. destruct (malloc h) as [ok h1] eqn:Eh. destruct ok.
      * rewrite copy_all by done. cbn [mbind option_bind]. eexists _, _, h1. split; [done|]. split; [by rewrite !concat_app; cbn; rewrite app_nil_r|]. split; [by cbn; rewrite app_nil_r|cbn; lia].
      * cbn [mbind option_bind]. eexists _, _, h1. split; [done|]. split; [done|]. intros ->. by cbn in Eh.
    + rewrite (proj2 (Z.ltb_lt i max)) by done. cbn [concat] in Hs. rewrite length_app in Hs.
      destruct (IH (i + 1) (u64 (size - len b)) (pre ++ [b]) h) as (o & bs & h' & E1 & E2 & E3); [rewrite wrap_small by lia; lia|rewrite wrap_small by lia; lia| |].
      { destruct (decide (rest = [])) as [->|Hr]; [by right|left]. rewrite bool_decide_eq_false_2 in E by done. rewrite andb_true_r in E. apply Z.eqb_neq in E. lia. }
      rewrite E1. cbn [mbind option_bind]. eexists _, bs, h'. split; [done|]. split; [by rewrite E2, <- app_assoc|].
      destruct o as [vs|]; [|done]. destruct E3 as [E3 E4]. split; [cbn; by rewrite E3|cbn; lia].
Qed.

(** C22. The vectors are the message.  [encode] on a message whose lines are headers: when a part of the start line is
    missing it fails with [EBADMSG], and with [EOVERFLOW] exactly when the vectors do not hold the start
    line, the headers and the empty line with one to spare; otherwise it fails only for want of
    memory, or fills at most [max] vectors, which together are the start line and the headers as
    [HttpHeaders.encode] prints them and the body.  In every case the bytes of the body stay what they were. *)
Theorem encode_message_correct max m h hs : 6 <= max -> headers (parser m) hs -> body_ok m ->
  exists r m' h', encode_message max m h = Some (r, m', h') /\ parser m' = parser m /\ body_ok m' /\ concat (output_body m') = concat (output_body m) /\
    match r with
    | EncVectors vs => 6 + len hs + 1 < max /\ len vs <= max /\ exists head, encode (parser m) = Some head /\ concat vs = head ++ concat (output_body m)
    | EncError EBADMSG => start_line (parser m) = None
    | EncError EOVERFLOW => is_Some (start_line (parser m)) /\ max <= 6 + len hs + 1
    | EncError e => e = ENOMEM /\ h <> []
    end.
Proof.
  intros Hmax Hh [Hb Hb2]. unfold encode_message. destruct (start_line (parser m)) as [[[a b] c]|] eqn:Es; [|by exists (EncError EBADMSG), m, h].
  rewrite (proj2 (Z.ltb_ge max 6)) by done. pose proof (lines_wire _ _ Hh) as Hw. rewrite (header_vectors_ok _ _ max 6 Hw) by done. cbn [mbind option_bind].
  set (ws := map (fun x => line_bytes x.1 x.2) hs) in *. assert (Hl : length ws = length hs) by apply length_map. rewrite length_take.
  destruct (Z.leb_spec max (6 + Z.of_nat (Z.to_nat (max - 6) `min` length ws) + 1)) as [Ho|Ho].
  - exists (EncError EOVERFLOW), m, h. split_and!; try done. lia.
  - assert (Et : take (Z.to_nat (max - 6)) ws = ws) by (apply take_ge; lia). rewrite Et. replace (Z.to_nat (max - 6) `min` length ws)%nat with (length ws) in * by lia.
    destruct (body_vectors_ok max (output_body m) (6 + len ws + 1) (output_body_size m) [] h Hb Hb2) as (o & bs & h' & E1 & E2 & E3); [left; lia|].
    rewrite E1. cbn [mbind option_bind]. eexists _, _, h'. split; [done|]. split; [done|]. split; [by split; [rewrite Hb; by cbn; rewrite E2|]|]. split; [done|].
    destruct o as [vs|]; [|by split]. destruct E3 as [E3 E4]. split; [lia|]. split; [rewrite !length_app; cbn; lia|].
    unfold encode. rewrite Es. cbn [mbind option_bind]. rewrite Hw. cbn [mbind option_bind]. eexists. split; [done|].
    rewrite !concat_app, E3. cbn [concat]. rewrite !app_nil_r, <- !app_assoc. cbn [app]. done.
Qed.

(** ** Receiving a message *)

(** [expect_continue] is not looked at once the header is complete. *)
Lemma analyse_body_expect m p : analyse_body m (set_expect_continue false p) = (fun '(r, q, t) => (r, set_expect_continue false q, t)) <$> analyse_body m p.
Proof.
  unfold analyse_body. cbn [transfer_length set_expect_continue header_offset chunked]. destruct (negb _); [by destruct (_ <=? _)|]. destruct (negb (chunked p)); [done|].
  rewrite (chunk_loop_commute (set_expect_continue false)) by done. destruct (chunk_loop _ _ p) as [[r q]|]; [|done]. cbn. by destruct (r <=? 0).
Qed.
Lemma hsim_expect p q : hsim p q -> hsim (set_expect_continue false p) (set_expect_continue false q).
Proof.
  intros Hsim. rewrite (hsim_inv _ _ Hsim). destruct Hsim as (_ & Hp & Hq & Hn).
  apply (hsim_intro (namebuf q) (set_expect_continue false p)); [by destruct Hp; constructor|apply Hq|]. intros. by symmetry; apply Hn.
Qed.
Lemma waiting_expect p : waiting p -> header_state p = HPS_HEADER_COMPLETE -> waiting (set_expect_continue false p).
Proof.
  intros ((Hb & Hok & Ha) & Hc & q & t & Hsim & E) Hs. split; [split; [by destruct Hb; constructor|split; [by destruct Hok|]]|split; [done|]].
  - intros _. destruct (Ha Hc) as [A1 A2 A3]. constructor; [by destruct A1|done|done].
  - exists (set_expect_continue false q), t. split; [by apply hsim_expect|]. unfold analyse in *. cbn [header_state set_expect_continue]. rewrite decide_True in * by done.
    change (message (set_expect_continue false p)) with (message p). rewrite analyse_body_expect. destruct (analyse_body (message p) p) as [[[r1 q1] t1]|]; [|done]. cbn in *. by injection E as -> -> ->.
Qed.

(** What a call does to a parser that waits, for a message: the verdict, the size, the flags. *)
Record verdict (bytes : list Z) (p : http_parser) (r n : Z) (p' : http_parser) : Prop := mk_verdict {
  v_run : http_parser_append_message bytes (len bytes) p [] = Some (r, n, p', []);
  v_ret : r = -2 \/ r = 0 \/ r = 1;
  v_wait : r = 0 -> n = len bytes /\ waiting p';
  v_done : r = 1 -> 0 < n <= len bytes /\ complete p' = true /\ parser_ok p';
  v_size : 0 <= r -> msgsize p' = msgsize p + n;
  v_header : header_state p = HPS_HEADER_COMPLETE -> 0 <= r -> header_state p' = HPS_HEADER_COMPLETE /\ expect_continue p' = expect_continue p }.

Lemma append_verdict bytes p : waiting p -> msgsize p + len bytes < 2 ^ 62 -> exists r n p', verdict bytes p r n p'.
Proof.
  intros Hw Hsz. destruct (append_accounts bytes p Hw Hsz) as (r & n & p' & E & H).
  destruct (append_waiting bytes p Hw Hsz) as (mb & bs & r' & q & t & F & Hr & B & Hbs & M & T & E'). rewrite E in E'. injection E' as <- En Ep.
  pose proof Hw as ((Hb & _) & _). pose proof (bo_size p Hb) as Hms.
  exists r, n, p'. constructor; [done|done| | | |].
  - intros ->. destruct H as [(_ & H1 & H2 & _)|[(? & _)|(? & _)]]; done.
  - intros ->. destruct H as [(? & _)|[(? & _)|(_ & H1 & H2 & H3 & _)]]; done.
  - intros H0. rewrite Ep, En. unfold commit. destruct (Z.eqb_spec r 1) as [->|]; cbn; [lia|]. destruct Hr as [-> | [-> | ->]]; [lia|done|done].
  - intros Hs H0. pose proof (an_run _ _ _ _ _ _ _ F) as R. unfold analyse in R. rewrite decide_True in R by done. destruct (analyse_body _ p) as [[[r1 q1] t1]|] eqn:Eb; [|done]. cbn in R. injection R as -> -> ->.
    assert (Hcm : cmoved p q).
    { destruct Hw as ((_ & _ & Ha) & Hc & _). destruct (analyse_body_ok (message p ++ bytes) p (aready_ext _ bytes _ (Ha Hc)) Hs) as (r2 & q2 & t2 & Bf). pose proof (bf_run _ _ _ _ _ Bf) as Eb2. rewrite Eb in Eb2. injection Eb2 as <- <- <-. apply Bf. }
    rewrite Ep. unfold commit. split; destruct (r =? 1); cbn; rewrite Hcm; done.
Qed.

(** A message that is being received: what was received was counted. *)
Definition receiving (m : http_message) : Prop := waiting (parser m) /\ cur_size m = msgsize (parser m) /\ 0 <= cur_size m.

Lemma message_append_ok bytes m r n p : verdict bytes (parser m) r n p -> 0 <= cur_size m -> cur_size m + len bytes < 2 ^ 62 ->
  message_append bytes (len bytes) m [] =
  Some (if r <? 0 then (-1, Some EBADMSG, n, with_parser p m, []) else
        let m' := with_size (cur_size m + n) (with_parser p m) in
        if size_limit m <? cur_size m + n then (-1, Some EMSGSIZE, n, m', []) else (r, None, n, m', [])).
Proof.
  intros V H0 Hsz. unfold message_append. rewrite (v_run _ _ _ _ _ V). cbn [mbind option_bind].
  destruct (v_ret _ _ _ _ _ V) as [-> | Hr]; [done|]. assert (Hn : 0 <= n <= len bytes).
  { destruct Hr as [-> | ->]; [destruct (v_wait _ _ _ _ _ V eq_refl) as [-> _]; lia|pose proof (v_done _ _ _ _ _ V eq_refl); lia]. }
  rewrite (proj2 (Z.leb_le 0 r)), (proj2 (Z.ltb_ge r 0)) by lia. cbn [cur_size with_parser size_limit with_size]. rewrite wrap_small by lia. by destruct (size_limit m <? _).
Qed.

(** The replies of a request that is received: [p] is the parser after the call. *)
Definition announced_fits (m : http_message) (p : http_parser) : bool :=
  (transfer_length p =? SIZE_MAX) || (u64 (header_offset p + transfer_length p) <=? size_limit m).
Definition request_reply (m : http_message) (r n : Z) (p : http_parser) : option (list Z) :=
  if r <? 0 then Some HTTP_400_RESP
  else if size_limit m <? cur_size m + n then Some HTTP_413_RESP
  else if (r =? 0) && expect_continue p && http_parser_header_complete p then Some (if announced_fits m p then HTTP_100_RESP else HTTP_417_RESP)
  else None.

Lemma request_append_ok bytes m w r n p : receiving m -> verdict bytes (parser m) r n p -> cur_size m + len bytes < 2 ^ 62 ->
  exists ret e m' w', request_append bytes (len bytes) m [] w = Some (ret, e, n, m', [], w') /\
    sent w' = sent w ++ match request_reply m r n p with Some t => [t] | None => [] end /\
    size_limit m' = size_limit m /\
    (ret = 0 -> r = 0 /\ receiving m' /\ cur_size m' = cur_size m + len bytes /\ cur_size m' <= size_limit m /\
       (request_reply m r n p = None \/ request_reply m r n p = Some HTTP_100_RESP /\ header_state (parser m') = HPS_HEADER_COMPLETE /\ expect_continue (parser m') = false) /\
       (header_state (parser m) = HPS_HEADER_COMPLETE -> expect_continue (parser m) = false -> request_reply m r n p = None /\ header_state (parser m') = HPS_HEADER_COMPLETE /\ expect_continue (parser m') = false)) /\
    (0 < ret -> ret = 1 /\ r = 1 /\ complete (parser m') = true /\ cur_size m' = msgsize (parser m') /\ cur_size m' <= size_limit m /\ request_reply m r n p = None) /\
    (ret < 0 -> ret = -1 /\
       (request_reply m r n p = Some HTTP_100_RESP /\ answers w <> [] \/
        (request_reply m r n p = Some HTTP_400_RESP /\ r = -2 /\ e = Some EBADMSG \/ request_reply m r n p = Some HTTP_413_RESP /\ size_limit m < cur_size m + n /\ e = Some EMSGSIZE \/
         request_reply m r n p = Some HTTP_417_RESP /\ announced_fits m p = false /\ e = Some EMSGSIZE) /\ (header_state (parser m) = HPS_HEADER_COMPLETE -> expect_continue (parser m) = false -> request_reply m r n p <> Some HTTP_417_RESP))).
Proof.
  intros (Hw & Hcs & H0) V Hsz. pose proof (message_append_ok bytes m r n p V H0 Hsz) as E. unfold request_append. rewrite E. clear E. cbn [mbind option_bind]. unfold request_reply.
  destruct (v_ret _ _ _ _ _ V) as [-> | Hr].
  { cbn [Z.ltb Z.compare]. change (-1 =? 0) with false. cbv iota. eexists (-1), _, _, _. split; [done|]. split; [by unfold feedback; destruct (answers w)|]. split; [done|].
    split; [lia|]. split; [lia|]. intros _. split; [done|]. right. split; [by left|]. intros _ _ [=]. }
  rewrite (proj2 (Z.ltb_ge r 0)) by lia. cbv zeta. destruct (Z.ltb_spec (size_limit m) (cur_size m + n)) as [Hl|Hl].
  { change (-1 =? 0) with false. change (-1 <? 0) with true. cbv iota. eexists (-1), _, _, _. split; [done|]. split; [by unfold feedback; destruct (answers w)|]. split; [done|].
    split; [lia|]. split; [lia|]. intros _. split; [done|]. right. split; [by right; left|]. intros _ _ [=]. }
  destruct Hr as [-> | ->].
  - destruct (v_wait _ _ _ _ _ V eq_refl) as [-> Hwp]. pose proof (v_size _ _ _ _ _ V ltac:(lia)) as Hms. cbn [Z.eqb andb parser with_size with_parser].
    destruct (expect_continue p && http_parser_header_complete p) eqn:Ex.
    + apply andb_true_iff in Ex as [Ex Hh]. unfold http_parser_header_complete in Hh. apply bool_decide_eq_true in Hh.
      assert (Hnot : header_state (parser m) = HPS_HEADER_COMPLETE -> expect_continue (parser m) = false -> False) by (intros A B; destruct (v_header _ _ _ _ _ V A ltac:(lia)) as [_ C]; congruence).
      unfold handle_expect_continue. cbn [parser with_parser with_size transfer_length set_expect_continue header_offset size_limit].
      set (m' := with_parser (set_expect_continue false p) _).
      replace (negb (transfer_length p =? SIZE_MAX) && (size_limit m <? u64 (header_offset p + transfer_length p))) with (negb (announced_fits m p)) by (unfold announced_fits; rewrite negb_orb, Z.leb_antisym, negb_involutive; done).
      destruct (announced_fits m p) eqn:Ef; cbn [negb].
      * destruct (answers w) as [|a l] eqn:Ea; unfold feedback; rewrite Ea.
        -- change (u64 (len HTTP_100_RESP) =? len HTTP_100_RESP) with true. cbn [negb]. eexists 0, _, m', _. split; [done|]. split; [done|]. split; [done|]. split; [|split; lia].
           intros _. split; [done|]. split; [split; [by apply waiting_expect|cbn; lia]|]. split; [cbn; lia|]. split; [cbn; lia|]. split; [by right|]. intros A B. by destruct (Hnot A B).
        -- destruct (negb (u64 a =? len HTTP_100_RESP)).
           ++ eexists (-1), _, m', _. split; [done|]. split; [done|]. split; [done|]. split; [lia|]. split; [lia|]. intros _. split; [done|]. by left.
           ++ eexists 0, _, m', _. split; [done|]. split; [done|]. split; [done|]. split; [|split; lia].
              intros _. split; [done|]. split; [split; [by apply waiting_expect|cbn; lia]|]. split; [cbn; lia|]. split; [cbn; lia|]. split; [by right|]. intros A B. by destruct (Hnot A B).
      * unfold feedback. destruct (answers w); (eexists (-1), _, m', _; split; [done|]; split; [done|]; split; [done|]; split; [lia|]; split; [lia|]; intros _; split; [done|]; right; split; [by right; right|]);
          intros A B; by destruct (Hnot A B).
    + eexists 0, _, _, w. split; [done|]. split; [by rewrite app_nil_r|]. split; [done|]. split; [|split; lia]. intros _. split; [done|]. split; [split; [done|cbn; lia]|]. split; [cbn; lia|]. split; [cbn; lia|].
      split; [by left|]. intros A B. destruct (v_header _ _ _ _ _ V A ltac:(lia)) as [C D]. split; [done|]. split; [done|]. cbn. congruence.
  - destruct (v_done _ _ _ _ _ V eq_refl) as (Hn & Hc & _). pose proof (v_size _ _ _ _ _ V ltac:(lia)) as Hms. change (1 =? 0) with false. change (1 <? 0) with false. cbv iota. cbn [andb].
    eexists 1, _, _, w. split; [done|]. split; [by rewrite app_nil_r|]. split; [done|]. split; [lia|]. split; [|lia]. intros _. split_and!; try done; cbn; lia.
Qed.

(** A request in pieces, until one ends it or it is refused. *)
Fixpoint request_feed (pieces : list (list Z)) (m : http_message) (w : peer) : option (Z * http_message * peer) :=
  match pieces with
  | [] => Some (0, m, w)
  | b :: pieces =>
      '(ret, _, _, m, _, w) ← request_append b (len b) m [] w;
      if ret =? 0 then request_feed pieces m w else Some (ret, m, w)
  end.

(** The replies to a request; [asked]: [100 Continue] was sent. *)
Definition replies_ok (asked : bool) (w : peer) (ret : Z) (l : list (list Z)) : Prop :=
  exists pre, (pre = [] \/ asked = false /\ pre = [HTTP_100_RESP]) /\
    (0 <= ret -> l = pre) /\
    (ret < 0 -> l = pre ++ [HTTP_400_RESP] \/ l = pre ++ [HTTP_413_RESP] \/ asked = false /\ l = [HTTP_417_RESP] \/ asked = false /\ answers w <> [] /\ l = [HTTP_100_RESP]).

Lemma request_answers bytes n m h w ret e n' m' h' w' : request_append bytes n m h w = Some (ret, e, n', m', h', w') -> answers w = [] -> answers w' = [].
Proof.
  unfold request_append. destruct (message_append bytes n m h) as [[[[[r e1] n1] m1] h1]|]; [|done]. cbn [mbind option_bind]. intros E Hw.
  assert (F : forall t, answers (snd (feedback t w)) = []) by (intros t; unfold feedback; by rewrite Hw).
  destruct (r =? 0); [|destruct (r <? 0); injection E as _ _ _ _ _ <-; [destruct e1 as [[]|]; by rewrite ?F|done]].
  destruct (_ && _); [|by injection E as _ _ _ _ _ <-]. unfold handle_expect_continue in E. cbv zeta in E.
  pose proof (F HTTP_417_RESP) as F1. pose proof (F HTTP_100_RESP) as F2. destruct (feedback HTTP_417_RESP w) as [a1 w1]. destruct (feedback HTTP_100_RESP w) as [a2 w2]. cbn [snd] in *.
  destruct (_ && _); [by injection E as _ _ _ _ _ <-|]. destruct (negb _); by injection E as _ _ _ _ _ <-.
Qed.

Lemma request_feed_ok pieces : forall asked m w, receiving m -> (asked = true -> header_state (parser m) = HPS_HEADER_COMPLETE /\ expect_continue (parser m) = false) ->
  cur_size m + len (concat pieces) < 2 ^ 62 ->
  exists ret m' w' l, request_feed pieces m w = Some (ret, m', w') /\ sent w' = sent w ++ l /\ replies_ok asked w ret l /\
    (ret = 0 -> receiving m' /\ cur_size m' = cur_size m + len (concat pieces) /\ (cur_size m <= size_limit m -> cur_size m' <= size_limit m)) /\
    (ret <> 0 -> ret = -1 \/ ret = 1 /\ complete (parser m') = true /\ cur_size m' = msgsize (parser m') /\ cur_size m' <= size_limit m).
Proof.
  induction pieces as [|b pieces IH]; intros asked m w Hm Ha Hsz; cbn [request_feed concat] in *.
  { exists 0, m, w, []. split; [done|]. split; [by rewrite app_nil_r|]. split; [exists []; split; [by left|]; split; [done|lia]|]. split; [|done]. intros _. split; [done|]. split; [cbn; lia|done]. }
  rewrite length_app in Hsz. pose proof Hm as (Hw & Hcs & H0). destruct (append_verdict b (parser m) Hw) as (r & n & p & V); [lia|].
  destruct (request_append_ok b m w r n p Hm V) as (ret & e & m1 & w1 & E & Hs & Hlim & R0 & R1 & R2); [lia|]. rewrite E. cbn [mbind option_bind].
  destruct (Z.eqb_spec ret 0) as [->|Hr].
  - destruct (R0 eq_refl) as (-> & Hm1 & Hc1 & Hl1 & Hrep & Hkeep). clear R0 R1 R2.
    assert (Hasked : asked = true -> request_reply m 0 n p = None /\ header_state (parser m1) = HPS_HEADER_COMPLETE /\ expect_continue (parser m1) = false) by (intros A; destruct (Ha A); by apply Hkeep).
    set (asked' := asked || match request_reply m 0 n p with Some _ => true | None => false end).
    destruct (IH asked' m1 w1 Hm1) as (ret & m' & w' & l & E' & Hs' & (pre & Hp & Hp0 & Hp1) & F0 & F1); [|lia|].
    { unfold asked'. destruct asked; [intros _; tauto|]. destruct Hrep as [-> | (-> & ?)]; done. }
    exists ret, m', w', ((match request_reply m 0 n p with Some t => [t] | None => [] end) ++ l). split; [done|]. split; [by rewrite Hs', Hs, <- app_assoc|].
    split; [|split; [intros Hz; destruct (F0 Hz) as (G1 & G2 & G3); split; [done|]; rewrite length_app, G2, Hc1; split; [lia|]; intros _; rewrite <- Hlim, <- Hc1, <- G2; apply G3; lia|rewrite <- Hlim; exact F1]].
    pose proof (fun H => request_answers _ _ _ _ _ _ _ _ _ _ _ E H) as Han.
    destruct Hrep as [Hrep|(Hrep & _)]; unfold asked' in Hp, Hp1; rewrite Hrep in Hp, Hp1 |- *.
    + rewrite orb_false_r in Hp, Hp1. cbn [app]. exists pre. split; [done|]. split; [done|]. intros Hz. destruct (Hp1 Hz) as [?|[?|[?|(? & ? & ?)]]]; [by left|by right; left|by right; right; left|]. do 3 right. split; [done|]. split; [|done]. intros Hw0. by apply Han in Hw0.
    + rewrite orb_true_r in Hp, Hp1. assert (asked = false) as -> by (destruct asked; [destruct (Hasked eq_refl); congruence|done]). destruct Hp as [-> | [? _]]; [|done]. cbn [app]. exists [HTTP_100_RESP]. split; [by right|].
      split; [intros Hz; by rewrite (Hp0 Hz)|]. intros Hz. destruct (Hp1 Hz) as [-> | [-> | [[? _]|[? _]]]]; [by left|by right; left|done|done].
  - exists ret, m1, w1, (match request_reply m r n p with Some t => [t] | None => [] end). split; [done|]. split; [done|]. split; [|split; [done|]].
    2:{ intros _. destruct (Z.lt_ge_cases ret 0) as [Hlt|Hge]; [left; by apply R2|right]. destruct (R1 ltac:(lia)) as (? & ? & ? & ? & ? & ?). done. }
    exists []. split; [by left|]. split.
    + intros Hz. destruct (R1 ltac:(lia)) as (_ & _ & _ & _ & _ & ->). done.
    + intros Hz. destruct (R2 Hz) as [_ [(Hrep & Hn)|([(Hrep & _)|[(Hrep & _)|(Hrep & _)]] & Hno)]]; rewrite Hrep.
      * do 3 right. split; [|done]. destruct asked; [|done]. exfalso. destruct (Ha eq_refl) as [A B]. unfold request_reply in Hrep. destruct (v_ret _ _ _ _ _ V) as [-> | Hrr]; [done|]. rewrite (proj2 (Z.ltb_ge r 0)) in Hrep by lia.
        destruct (_ <? _); [done|]. destruct (v_header _ _ _ _ _ V A ltac:(lia)) as [_ C]. rewrite C, B, andb_false_r in Hrep. done.
      * by left.
      * by right; left.
      * right; right; left. split; [|done]. destruct asked; [|done]. destruct (Ha eq_refl) as [A B]. by destruct (Hno A B).
Qed.


(** ** Responses *)

(** A response whose start line was read has a code. *)
Definition coded (p : http_parser) : Prop := is_resp p = true /\ (header_state p <> HPS_START_LINE -> is_Some (code p)).

Lemma header_step_coded m p h r p' h' : header_step m p h = Some (r, p', h') -> coded p -> is_resp p' = is_resp p -> coded p'.
Proof.
  intros E [Hr Hc] Hr'. split; [congruence|]. unfold header_step in E. destruct (header_state p) eqn:Es.
  - injection E as E. unfold __parse_start_line in E. destruct (starts_crlf _); [injection E as _ <- _; cbn; by rewrite Es|]. destruct (scan_line _ _ _); [injection E as _ <- _; cbn; by rewrite Es..|].
    destruct (strchr_split SP line) as [[p1 rest]|]; [|injection E as _ <- _; cbn; by rewrite Es]. destruct (strchr_split SP rest) as [[p2 p3]|]; [|injection E as _ <- _; cbn; by rewrite Es].
    rewrite Hr in E. unfold __match_status_line, check_version in E. assert (Hs : forall b b2 : bool, header_state (if b then set_transfer_length 0 (if b2 then set_keep_alive false p else p) else if b2 then set_keep_alive false p else p) = HPS_START_LINE) by (by intros [] []).
    destruct (malloc h) as [[] h1]; [|injection E as _ <- _; by rewrite Hs]. destruct (malloc h1) as [[] h2]; [|injection E as _ <- _; by rewrite Hs]. destruct (malloc h2) as [[] h3]; [|injection E as _ <- _; by rewrite Hs].
    injection E as _ <- _. cbn. by eexists.
  - specialize (Hc ltac:(done)). unfold __parse_header_name in E. destruct (starts_crlf _); [injection E as _ <- _; done|]. destruct (header_name_loop _ _ _) as [[[r0 i] nb]|]; [|done]. cbn in E. destruct (r0 =? 1); by injection E as _ <- _.
  - specialize (Hc ltac:(done)). unfold __parse_header_value in E. destruct (header_value_loop _ _ _) as [| |rv rest]; [by injection E as _ <- _..|].
    destruct (strlen (namebuf p)) as [nl|]; [|done]. cbn [mbind option_bind] in E. unfold http_parser_add_header, __add_message_header in E. destruct (malloc h) as [[] h1].
    + destruct (memcpy nl _) as [n1|]; [|done]. cbn [mbind option_bind] in E. destruct (memcpy _ (rev rv ++ [NUL])) as [v1|]; [|done]. cbn [mbind option_bind Z.leb Z.compare] in E.
      destruct (__check_message_header _ _ _ _ _) as [p2|] eqn:Ec; [|done]. cbn in E. injection E as _ <- _. destruct (check_same_start _ _ _ _ _ _ Ec) as (_ & _ & _ & E4 & _). cbn in *. by rewrite E4.
    + cbn in E. by injection E as _ <- _.
  - specialize (Hc ltac:(done)). unfold __parse_header_name in E. destruct (starts_crlf _); [injection E as _ <- _; done|]. destruct (header_name_loop _ _ _) as [[[r0 i] nb]|]; [|done]. cbn in E. destruct (r0 =? 1); by injection E as _ <- _.
Qed.
Lemma header_loop_coded m fuel : forall p h r p' h', ready m p -> header_loop fuel m p h = Some (r, p', h') -> coded p -> coded p'.
Proof.
  induction fuel as [|fuel IH]; intros p h r p' h' Hp E Hc; [done|]. cbn [header_loop] in E. destruct (ready_turn m p h Hp) as (r1 & p1 & h1 & G & _ & Hp1).
  destruct (header_step m p h) as [[[r2 p2] h2]|] eqn:Et; [|done]. pose proof (good_run _ _ _ _ _ _ G) as Eg. change (turn (from (header_offset p) m) p h) with (header_step m p h) in Eg. rewrite Et in Eg. injection Eg as -> -> ->.
  cbn [mbind option_bind] in E. assert (Hc1 : coded p1). { eapply header_step_coded; [exact Et|done|]. by destruct (good_frame _ _ _ _ _ _ G) as (_ & _ & _ & _ & ?). }
  case_decide as Hs; [by injection E as _ <- _|]. destruct (Z.ltb_spec 0 r1) as [H|H]; [|by injection E as _ <- _]. pose proof (good_ret _ _ _ _ _ _ G). eapply IH; [apply Hp1; [done|lia]|exact E|done].
Qed.
Lemma append_coded bytes p r n p' : waiting p -> msgsize p + len bytes < 2 ^ 62 -> verdict bytes p r n p' -> coded p -> 0 <= r -> coded p' /\ (r = 1 -> header_state p' = HPS_HEADER_COMPLETE).
Proof.
  intros Hw Hsz V Hc H0. destruct (append_waiting bytes p Hw Hsz) as (mb & bs & r' & q & t & F & Hr & B & Hbs & M & T & E'). rewrite (v_run _ _ _ _ _ V) in E'. injection E' as <- _ ->.
  assert (Hq : coded q).
  { destruct Hw as ((_ & Hok & Ha) & Hcp & _). specialize (Ha Hcp). destruct (aready_ext _ bytes _ Ha) as [A1 A2 A3]. pose proof (an_run _ _ _ _ _ _ _ F) as R. pose proof (an_frame _ _ _ _ _ _ _ F) as (_ & _ & _ & _ & Hresp). split; [rewrite Hresp; apply Hc|]. unfold analyse in R.
    assert (Hmv : forall a b t, analyse_body (message p ++ bytes) a = Some (r, b, t) -> code b = code a).
    { intros a b t0 Eb. unfold analyse_body in Eb. destruct (negb _); [destruct (_ <=? _); by injection Eb as _ <- _|]. destruct (negb (chunked a)); [by injection Eb as _ <- _|].
      pose proof (chunk_loop_commute (set_code (Some [])) (message p ++ bytes) (S (length (message p ++ bytes))) ltac:(done) ltac:(done) ltac:(done) a) as Hcm.
      pose proof (chunk_loop_commute (set_code (code a)) (message p ++ bytes) (S (length (message p ++ bytes))) ltac:(done) ltac:(done) ltac:(done) a) as Hcn.
      replace (set_code (code a) a) with a in Hcn by (by destruct a). destruct (chunk_loop _ _ a) as [[r1 q1]|]; [|done]. cbn in Hcn, Eb. injection Hcn as Hcn. assert (q1 = b) as <- by (destruct (r1 <=? 0); by injection Eb). by rewrite Hcn. }
    case_decide as Hs.
    - destruct (analyse_body _ p) as [[[r1 q1] t1]|] eqn:Eb; [|done]. cbn in R. injection R as -> -> ->. intros _. rewrite (Hmv _ _ _ Eb). apply Hc. by rewrite Hs.
    - destruct (header_loop _ _ p []) as [[[r1 q1] h1]|] eqn:Eh; [|done]. cbn [mbind option_bind] in R. assert (Hc1 : coded q1) by (eapply header_loop_coded; [|exact Eh|done]; split_and!; done).
      destruct (Z.leb_spec r1 0); [injection R as -> -> _ _; apply Hc1|]. destruct (analyse_body _ (start_body q1)) as [[[r2 q2] t2]|] eqn:Eb; [|done]. cbn in R. injection R as -> -> _ _. intros Hst. rewrite (Hmv _ _ _ Eb).
      assert (Esb : code (start_body q1) = code q1) by (unfold start_body; by destruct (chunked q1), (transfer_length q1 =? SIZE_MAX)). rewrite Esb. apply Hc1.
      destruct (header_loop_total (message p ++ bytes) (S (length (message p ++ bytes))) p []) as (r5 & q5 & h5 & E5 & P5); [split_and!; done|pose proof (hok_offset p Hok); lia|].
      rewrite Eh in E5. injection E5 as <- <- <-. pose proof (post_ret _ _ _ _ _ _ P5). assert (r1 = 1) as Hr1 by lia. rewrite (proj1 (post_complete _ _ _ _ _ _ P5) Hr1). done. }
  unfold commit. split; [destruct (r =? 1); by destruct Hq|]. intros ->. cbn. by destruct (an_total _ _ _ _ _ _ _ F eq_refl).
Qed.

Definition fresh (mem : http_parser) (cur limit : Z) : http_message := mk_message (http_parser_init true mem) cur limit [] 0.

(** The bytes read, given to [append] until it says more than 0, as the poller does: what is left of them. *)
Fixpoint response_read (fuel : nat) (buf : list Z) (m : http_message) : option (Z * option errno * list Z * http_message) :=
  match fuel with
  | O => None
  | S fuel =>
      '(ret, e, n, m, _) ← response_append buf (len buf) m [];
      let rest := drop (Z.to_nat n) buf in
      if (ret =? 0) && negb (bool_decide (rest = [])) then response_read fuel rest m else Some (ret, e, rest, m)
  end.

(** A response with the code 100, which every new parser accepts. *)
Definition interim (x : list Z) : Prop := forall mem, length (namebuf mem) = HTTP_HEADER_NAME_MAX ->
  exists p, http_parser_append_message x (len x) (http_parser_init true mem) [] = Some (1, len x, p, []) /\ code p = Some str_100.

(** What a response makes of the bytes received. *)
Lemma response_append_ok bytes m r n p : verdict bytes (parser m) r n p -> waiting (parser m) -> coded (parser m) -> 0 <= cur_size m -> msgsize (parser m) <= cur_size m -> cur_size m + len bytes < 2 ^ 62 ->
  exists ret e m', response_append bytes (len bytes) m [] = Some (ret, e, n, m', []) /\
    (r < 0 -> ret = -1 /\ e = Some EBADMSG) /\
    (0 <= r -> size_limit m < cur_size m + n -> ret = -1 /\ e = Some EMSGSIZE) /\
    (0 <= r -> cur_size m + n <= size_limit m -> cur_size m' = cur_size m + n /\ cur_size m' <= size_limit m' /\
      (r = 0 -> ret = 0 /\ parser m' = p /\ waiting p /\ coded p /\ msgsize p = msgsize (parser m) + n) /\
      (r = 1 -> exists c, code p = Some c /\
         (c = str_100 /\ ret = 0 /\ parser m' = http_parser_init true p /\ waiting (parser m') /\ coded (parser m') \/
          c <> str_100 /\ ret = 1 /\ parser m' = p /\ complete p = true))).
Proof.
  intros V Hw Hc H0 Hle Hsz. unfold response_append. rewrite (message_append_ok bytes m r n p V H0 Hsz). cbn [mbind option_bind].
  destruct (v_ret _ _ _ _ _ V) as [-> | Hr]. { eexists (-1), _, _. split; [done|]. split; [done|]. split; lia. }
  rewrite (proj2 (Z.ltb_ge r 0)) by lia. cbv zeta. destruct (Z.ltb_spec (size_limit m) (cur_size m + n)) as [Hl|Hl].
  { eexists (-1), _, _. split; [done|]. split; [lia|]. split; [done|lia]. }
  destruct (append_coded bytes (parser m) r n p Hw ltac:(lia) V Hc ltac:(lia)) as [Hcp Hst]. destruct Hr as [-> | ->].
  - change (0 <? 0) with false. cbv iota. eexists 0, _, _. split; [done|]. split; [lia|]. split; [lia|]. intros _ _. destruct (v_wait _ _ _ _ _ V eq_refl) as [_ Hwp]. split; [done|]. split; [done|]. split; [|lia]. intros _. split_and!; try done. by apply (v_size _ _ _ _ _ V).
  - change (0 <? 1) with true. cbv iota. destruct Hcp as [Hresp Hcode]. destruct (Hcode ltac:(by rewrite Hst)) as [c Ec]. cbn [parser with_size with_parser]. rewrite Ec. cbn [mbind option_bind].
    destruct (v_done _ _ _ _ _ V eq_refl) as (_ & Hcp & (_ & Hok & _)). case_bool_decide as Hc1.
    + eexists 0, _, _. split; [done|]. split; [lia|]. split; [lia|]. intros _ _. split; [done|]. split; [done|]. split; [lia|]. intros _. exists c. split; [done|]. left. split_and!; try done. cbn. apply init_waiting, Hok.
    + eexists 1, _, _. split; [done|]. split; [lia|]. split; [lia|]. intros _ _. split; [done|]. split; [done|]. split; [lia|]. intros _. exists c. split; [done|]. by right.
Qed.

Lemma fresh_coded mem : coded (http_parser_init true mem).
Proof. split; [done|]. by intros []. Qed.

(** C38. Responses, and the interim ones before them.  [append] of a response returns the parser's verdict, with
    [EBADMSG] for a wrong response and [EMSGSIZE] for one beyond the limit, and has its code when it is complete; whole responses with the
    code 100 before a response are skipped: all that is left of them is their size, the
    response is received by a parser that has just been initialised. *)
Theorem response_interim xs final k mem cur limit : length (namebuf mem) = HTTP_HEADER_NAME_MAX -> Forall interim xs -> final <> [] -> 0 <= cur ->
  cur + len (concat xs) <= limit -> cur + len (concat xs ++ final) < 2 ^ 62 ->
  exists mem', length (namebuf mem') = HTTP_HEADER_NAME_MAX /\
    response_read (length xs + k) (concat xs ++ final) (fresh mem cur limit) = response_read k final (fresh mem' (cur + len (concat xs)) limit) /\
    exists r n p, http_parser_append_message final (len final) (http_parser_init true mem') [] = Some (r, n, p, []) /\
    exists ret e m', response_append final (len final) (fresh mem' (cur + len (concat xs)) limit) [] = Some (ret, e, n, m', []) /\
      (r < 0 -> ret = -1 /\ e = Some EBADMSG) /\
      (0 <= r -> limit < cur + len (concat xs) + n -> ret = -1 /\ e = Some EMSGSIZE) /\
      (0 <= r -> cur + len (concat xs) + n <= limit -> (r = 0 -> ret = 0 /\ parser m' = p /\ waiting p) /\
        (r = 1 -> exists c, code p = Some c /\ complete p = true /\ ret = if bool_decide (c = str_100) then 0 else 1)).
Proof.
  revert mem cur. induction xs as [|x xs IH]; intros mem cur Hnb Hx Hf H0 Hlim Hsz; cbn [concat length Nat.add app] in *.
  - exists mem. replace (cur + Z.of_nat 0) with cur in * by lia. split; [done|]. split; [done|]. pose proof (init_waiting true mem Hnb) as Hw.
    destruct (append_verdict final (http_parser_init true mem) Hw) as (r & n & p & V); [cbn; lia|]. exists r, n, p. split; [apply V|].
    destruct (response_append_ok final (fresh mem cur limit) r n p V Hw) as (ret & e & m' & E & F1 & F2 & F3); [apply fresh_coded|exact H0|exact H0|cbn; lia|].
    exists ret, e, m'. split; [done|]. split; [done|]. split; [done|]. intros A B. destruct (F3 A B) as (_ & _ & G0 & G1). split; [intros C; destruct (G0 C) as (? & ? & ? & _); done|].
    intros C. destruct (G1 C) as (c & Ec & G). exists c. split; [done|]. destruct (v_done _ _ _ _ _ V C) as (_ & Hcp & _). split; [done|]. destruct G as [(-> & -> & _)|(Hc & -> & _)]; [done|by rewrite bool_decide_eq_false_2].
  - inversion Hx as [|? ? Hx1 Hxs]; subst. rewrite !length_app in *. pose proof (init_waiting true mem Hnb) as Hw. destruct (Hx1 mem Hnb) as (p1 & E1 & Ec1).
    rewrite <- app_assoc in *. set (rest := concat xs ++ final) in *. assert (Hrest : len rest = len (concat xs) + len final) by (unfold rest; rewrite length_app; lia). assert (Hne : rest <> []) by (unfold rest; by destruct (concat xs)).
    destruct (append_two x rest (http_parser_init true mem) Hw) as (r1 & n1 & p1' & E1' & r & n & p & E & H); [rewrite length_app; cbn; lia|]. rewrite E1 in E1'. injection E1' as <- <- <-. cbn in H. destruct H as [-> H]. destruct (H eq_refl) as [-> Ho].
    destruct (append_verdict (x ++ rest) (http_parser_init true mem) Hw) as (r2 & n2 & p2 & V); [rewrite length_app; cbn; lia|]. pose proof (v_run _ _ _ _ _ V) as E2. rewrite E in E2. injection E2 as <- <- <-.
    assert (Ec : code p = Some str_100). { destruct Ho as (Hsim & _). pose proof (f_equal code (hsim_inv _ _ Hsim)) as I. cbn in I. by rewrite I. }
    destruct (response_append_ok (x ++ rest) (fresh mem cur limit) 1 (len x) p V Hw) as (ret & e & m' & Er & _ & _ & F3); [apply fresh_coded|exact H0|exact H0|rewrite length_app; cbn; lia|].
    destruct F3 as (Hcur & Hlim' & _ & G1); [lia|cbn; lia|]. destruct (G1 eq_refl) as (c & Ec' & G). rewrite Ec in Ec'. injection Ec' as <-. destruct G as [(_ & -> & Hp & _)|[? _]]; [|done].
    cbn [response_read]. rewrite Er. cbn [mbind option_bind]. rewrite Nat2Z.id, drop_app_length. rewrite bool_decide_eq_false_2 by done. cbn [Z.eqb negb andb].
    assert (Em : m' = fresh p (cur + len x) limit).
    { unfold response_append in Er. rewrite (message_append_ok (x ++ rest) (fresh mem cur limit) 1 (len x) p V) in Er by (cbn; rewrite ?length_app; lia). cbn [mbind option_bind Z.ltb Z.compare] in Er. cbv zeta in Er.
      rewrite (proj2 (Z.ltb_ge (size_limit (fresh mem cur limit)) _)) in Er by (cbn; lia). cbn [parser with_size with_parser] in Er. rewrite Ec in Er. cbn in Er. by injection Er as _ <-. }
    rewrite Em. destruct (v_done _ _ _ _ _ V eq_refl) as (_ & _ & (_ & Hok & _)).
    destruct (IH p (cur + len x)) as (mem' & Hnb' & I1 & I2); [apply Hok|done|done|lia|lia|lia|].
    exists mem'. split; [done|]. replace (cur + Z.of_nat (length x + length (concat xs))) with (cur + len x + len (concat xs)) by lia. split; [exact I1|exact I2].
Qed.

(** *** Concrete instances *)

Definition demo_message : http_message := mk_message demo_request 0 SIZE_MAX [[97; 98]; [99]; [100; 101]] 5.
(** Ten vectors: six for the start line, two headers, the empty line, and the three blocks as one. *)
Lemma encode_message_correct_witness : exists vs m', encode_message 10 demo_message [] = Some (EncVectors vs, m', []) /\ len vs = 10 /\ output_body m' = [[97; 98; 99; 100; 101]] /\
  exists head, encode demo_request = Some head /\ concat vs = head ++ [97; 98; 99; 100; 101].
Proof.
  destruct (encode_message_correct 10 demo_message [] demo_headers) as (r & m' & h' & E & _ & _ & Hb & H); [lia|exact demo_repr|by vm_compute|].
  vm_compute in E. injection E as <- <- <-. destruct H as (_ & _ & H). eexists _, _. split; [vm_compute; reflexivity|]. split; [vm_compute; reflexivity|]. split; [vm_compute; reflexivity|]. exact H.
Defined.

Definition demo_expect : list Z := bytes_of "POST / HTTP/1.1"%string ++ CRLF ++ bytes_of "Expect: 100-continue"%string ++ CRLF ++ bytes_of "Content-Length: 3"%string ++ CRLF ++ CRLF.

Lemma interim_100 : interim HTTP_100_RESP.
Proof. intros mem _. eexists. split; [vm_compute; reflexivity|reflexivity]. Qed.
Definition demo_final : list Z := bytes_of "HTTP/1.1 200 OK"%string ++ CRLF ++ bytes_of "Content-Length: 0"%string ++ CRLF ++ CRLF.
Lemma response_interim_witness : exists mem', response_read 3 (HTTP_100_RESP ++ HTTP_100_RESP ++ demo_final) (fresh demo_memory 0 200) = response_read 1 demo_final (fresh mem' 50 200).
Proof.
  destruct (response_interim [HTTP_100_RESP; HTTP_100_RESP] demo_final 1 demo_memory 0 200) as (mem' & _ & H & _); [vm_compute; reflexivity|repeat constructor; apply interim_100|done|lia|vm_compute; done|vm_compute; done|].
  exists mem'. exact H.
Defined.
