(* ===== verification/HttpMap.v ===== *)
(** * The header map and the status lines of [src/protocol/HttpUtil.cc]

    [HttpHeaderMap] collects the headers of a message by their names in lower case, so
    that a look-up does not walk over the list; [HttpHeaderCursor::find_and_erase] takes
    one header out; [set_response_status] sets the code and the reason phrase of a
    response.  The map is compared with what the cursor of [http_parser.c] finds. *)

From stdpp Require Import gmap strings.
From S2P Require Import Prelude CLib HttpParser HttpScan HttpHeader HttpHeaders HttpMessage.

Local Open Scope Z_scope.

(** ** Definitions *)

(** [header_map_]; [std::transform] with [tolower]. *)
Definition header_map : Type := gmap (list Z) (list (list Z)).
Definition lower (s : list Z) : list Z := tolower <$> s.

(** The loop of the constructor over the headers. *)
Fixpoint header_map_loop (fuel : nat) (p : http_parser) (c : http_header_cursor) (m : header_map) : option header_map :=
  match fuel with
  | O => None
  | S fuel =>
      '(o, c) ← http_header_cursor_next p c;
      match o with
      | None => Some m
      | Some (n, v) => header_map_loop fuel p c (<[lower n := default [] (m !! lower n) ++ [v]]> m)
      end
  end.
Definition header_map_new (p : http_parser) : option header_map := header_map_loop (S (length (header_list p))) p http_header_cursor_init ∅.

Definition key_exists (key : list Z) (m : header_map) : bool := bool_decide (is_Some (m !! lower key)).
(** [get(key)] gives the empty string, [get(key, value)] [false] when there is none. *)
Definition get_value (key : list Z) (m : header_map) : option (list Z) := match m !! lower key with Some (v :: _) => Some v | _ => None end.
Definition get (key : list Z) (m : header_map) : list Z := default [] (get_value key m).
(** [get_strict(key)] is [header_map_[key]]: a key that is not there is entered. *)
Definition get_strict (key : list Z) (m : header_map) : list (list Z) * header_map :=
  match m !! lower key with Some vs => (vs, m) | None => ([], <[lower key := []]> m) end.
(** [get_strict(key, values)]. *)
Definition get_strict_values (key : list Z) (m : header_map) : option (list (list Z)) := match m !! lower key with Some (v :: vs) => Some (v :: vs) | _ => None end.

(** [HttpHeaderCursor::find_and_erase]: the result, the parser and the cursor. *)
Definition find_and_erase (name : list Z) (p : http_parser) (c : http_header_cursor) : option (bool * http_parser * http_header_cursor) :=
  '(o, c) ← http_header_cursor_find name (len name) p c;
  match o with
  | Some _ => let '(r, p, c) := http_header_cursor_erase p c in Some (r =? 0, p, c)
  | None => Some (false, p, c)
  end.

(** [sprintf(buf, "%d", n)]. *)
Fixpoint digits (fuel : nat) (n : Z) (acc : list Z) : list Z :=
  match fuel with
  | O => acc
  | S fuel => let acc := (48 + n mod 10) :: acc in if n <? 10 then acc else digits fuel (n / 10) acc
  end.
Definition decimal (n : Z) : list Z := if n <? 0 then 45 :: digits 10 (- n) [] else digits 10 n [].

(** The [switch] of [set_response_status]. *)
Definition reason_phrases : list (Z * String.string) := 
  [(100, "Continue"); (101, "Switching Protocols"); (102, "Processing"); (200, "OK"); (201, "Created");
   (202, "Accepted"); (203, "Non-Authoritative Information"); (204, "No Content"); (205, "Reset Content");
   (206, "Partial Content"); (207, "Multi-Status"); (208, "Already Reported"); (226, "IM Used");
   (300, "Multiple Choices"); (301, "Moved Permanently"); (302, "Found"); (303, "See Other");
   (304, "Not Modified"); (305, "Use Proxy"); (306, "Switch Proxy"); (307, "Temporary Redirect");
   (308, "Permanent Redirect"); (400, "Bad Request"); (401, "Unauthorized"); (402, "Payment Required");
   (403, "Forbidden"); (404, "Not Found"); (405, "Method Not Allowed"); (406, "Not Acceptable");
   (407, "Proxy Authentication Required"); (408, "Request Timeout"); (409, "Conflict"); (410, "Gone");
   (411, "Length Required"); (412, "Precondition Failed"); (413, "Request Entity Too Large");
   (414, "Request-URI Too Long"); (415, "Unsupported Media Type"); (416, "Requested Range Not Satisfiable");
   (417, "Expectation Failed"); (418, "I'm a teapot"); (420, "Enhance Your Caim");
   (421, "Misdirected Request"); (422, "Unprocessable Entity"); (423, "Locked"); (424, "Failed Dependency");
   (425, "Too Early"); (426, "Upgrade Required"); (428, "Precondition Required"); (429, "Too Many Requests");
   (431, "Request Header Fields Too Large"); (444, "No Response");
   (450, "Blocked by Windows Parental Controls"); (451, "Unavailable For Legal Reasons");
   (494, "Request Header Too Large"); (500, "Internal Server Error"); (501, "Not Implemented");
   (502, "Bad Gateway"); (503, "Service Unavailable"); (504, "Gateway Timeout");
   (505, "HTTP Version Not Supported"); (506, "Variant Also Negotiates"); (507, "Insufficient Storage");
   (508, "Loop Detected"); (510, "Not Extended"); (511, "Network Authentication Required")]%string.
Definition reason_phrase (status : Z) : list Z :=
  match filter (fun x => x.1 = status) reason_phrases with x :: _ => bytes_of x.2 | [] => bytes_of "Unknown"%string end.
(** [char buf[32]]; [None]: the text does not fit. *)
Definition set_response_status (p : http_parser) (status : Z) (h : heap) : option (http_parser * heap) :=
  let s := decimal status in
  if len s <? 32 then
    let '(_, p, h) := http_parser_set_code s p h in
    let '(_, p, h) := http_parser_set_phrase (reason_phrase status) p h in
    Some (p, h)
  else None.

(** ** The map *)

Definition no_nul (s : list Z) : Prop := Forall (fun c => c <> NUL) s.

Lemma lower_nul c : tolower c = NUL <-> c = NUL.
Proof. unfold tolower. bsplit; lia. Qed.

(** Comparing without case is comparing the names in lower case. *)
Lemma strncasecmp_lower a : forall b, length a = length b -> no_nul a ->
  strncasecmp_eq (length a) a b = bool_decide (lower a = lower b).
Proof.
  induction a as [|x a IH]; intros [|y b]; cbn [length]; intros Hl Ha; try lia.
  { by rewrite bool_decide_true. }
  apply Forall_cons in Ha as [Hx Ha]. cbn [strncasecmp_eq hd tl].
  change (lower (x :: a)) with (tolower x :: lower a). change (lower (y :: b)) with (tolower y :: lower b).
  rewrite (IH b) by (lia || done). rewrite (proj2 (Z.eqb_neq _ _) Hx). cbn [orb].
  destruct (Z.eqb_spec (tolower x) (tolower y)) as [E|E]; cbn [andb].
  - apply bool_decide_ext. rewrite E. split; [by intros ->|by intros [= ->]].
  - symmetry. apply bool_decide_false. by intros [= ? ?].
Qed.

Lemma same_name_lower n k : no_nul n -> same_name n k = bool_decide (lower n = lower k).
Proof.
  intros Hn. unfold same_name. destruct (Z.eqb_spec (len n) (len k)) as [E|E]; cbn [andb].
  - replace (length k) with (length n) by lia. apply strncasecmp_lower; [lia|done].
  - symmetry. apply bool_decide_false. intros H%(f_equal length). unfold lower in H. rewrite !length_fmap in H. lia.
Qed.

(** The values of the headers with a name, in the order of the message. *)
Definition values_of (key : list Z) (hs : list (list Z * list Z)) : list (list Z) :=
  (filter (fun h => lower h.1 = lower key) hs).*2.

(** The map that collects the values of a list of headers. *)
Definition maps (m : header_map) (hs : list (list Z * list Z)) : Prop :=
  forall key, m !! lower key = match values_of key hs with [] => None | vs => Some vs end.

Lemma lower_lower s : lower (lower s) = lower s.
Proof.
  unfold lower. rewrite <- list_fmap_compose. apply list_fmap_ext. intros _ c _. cbn. unfold tolower. bsplit; lia.
Qed.

Lemma maps_snoc m hs n v : maps m hs -> maps (<[lower n := default [] (m !! lower n) ++ [v]]> m) (hs ++ [(n, v)]).
Proof.
  unfold maps, header_map in *. intros H key. unfold values_of. rewrite filter_app, fmap_app. fold (values_of key hs).
  destruct (decide (lower n = lower key)) as [E|E].
  - rewrite E, lookup_insert_eq, H. rewrite filter_cons_True by done. cbn [filter list_filter fmap list_fmap].
    by destruct (values_of key hs).
  - rewrite lookup_insert_ne by done. rewrite filter_cons_False by done. cbn. rewrite app_nil_r. apply H.
Qed.

(** The cursor walks over the headers one by one. *)
Lemma cursor_walk p hs k : headers p hs ->
  http_header_cursor_next p (mk_cursor k) =
  Some (match hs !! k with Some h => (Some h, mk_cursor (S k)) | None => (None, mk_cursor k) end).
Proof.
  intros Hh. unfold http_header_cursor_next. cbn [next].
  destruct (headers_lookup p hs k Hh) as [(l & [n v] & -> & -> & Hl) | [-> ->]]; [|done].
  by destruct (line_fields _ _ Hl) as [-> ->].
Qed.

Lemma header_map_loop_ok p rest : forall pre fuel m,
  headers p (pre ++ rest) -> maps m pre -> (length rest < fuel)%nat ->
  exists m', header_map_loop fuel p (mk_cursor (length pre)) m = Some m' /\ maps m' (pre ++ rest).
Proof.
  induction rest as [|[n v] rest IH]; intros pre [|fuel] m Hh Hm Hf; cbn [length] in Hf; try lia;
    cbn [header_map_loop]; rewrite (cursor_walk _ _ _ Hh).
  - rewrite app_nil_r, lookup_ge_None_2 by lia. by exists m.
  - rewrite list_lookup_middle by done. cbn [mbind option_bind].
    destruct (IH (pre ++ [(n, v)]) fuel _ ltac:(by rewrite <- app_assoc) (maps_snoc _ _ n v Hm) ltac:(lia)) as (m' & E & Hm').
    rewrite length_app, Nat.add_1_r in E. rewrite <- app_assoc in Hm'. by exists m'.
Qed.

Lemma header_map_new_ok p hs : headers p hs -> exists m, header_map_new p = Some m /\ maps m hs.
Proof.
  intros Hh. unfold header_map_new. apply (header_map_loop_ok p hs []); [done| |].
  - intros key. unfold header_map. by rewrite lookup_empty.
  - pose proof (Forall2_length _ _ _ Hh). lia.
Qed.

Lemma find_spec_values key hs : Forall (fun h => no_nul h.1) hs -> find_spec key hs = head (values_of key hs).
Proof.
  induction 1 as [|[n v] hs Hn Hs IH]; [done|]. cbn [find_spec fst snd]. rewrite same_name_lower by done.
  unfold values_of. destruct (decide (lower n = lower key)) as [E|E].
  - by rewrite bool_decide_true, filter_cons_True.
  - by rewrite bool_decide_false, filter_cons_False, IH.
Qed.

(** A search from the start of the list. *)
Lemma find_from_start key p hs : headers p hs ->
  exists c, http_header_cursor_find key (len key) p http_header_cursor_init = Some (find_spec key hs, c).
Proof.
  intros Hh. destruct (find_loop_ok key _ hs 0 Hh) as (c & E & _). exists c.
  unfold http_header_cursor_find. cbn [next http_header_cursor_init]. by rewrite drop_0.
Qed.

(** What the look-ups of the map give, in terms of the values of the headers. *)
Lemma maps_get m hs key : maps m hs ->
  get_value key m = head (values_of key hs) /\ get key m = default [] (head (values_of key hs)) /\
  get_strict_values key m = match values_of key hs with [] => None | vs => Some vs end /\
  (get_strict key m).1 = values_of key hs /\
  key_exists key m = bool_decide (values_of key hs <> []).
Proof.
  intros H. unfold get, get_value, get_strict_values, get_strict, key_exists. rewrite (H key).
  by destruct (values_of key hs).
Qed.

(** [get_strict] of one argument enters the key. *)
Lemma get_strict_state key key' m :
  let m' := (get_strict key m).2 in
  get_value key' m' = get_value key' m /\ get_strict_values key' m' = get_strict_values key' m /\
  (get_strict key' m').1 = (get_strict key' m).1 /\
  key_exists key' m' = bool_decide (lower key = lower key') || key_exists key' m.
Proof.
  unfold get_value, get_strict_values, key_exists, get_strict, header_map in *. destruct (m !! lower key) as [vs|] eqn:E; cbn [fst snd]; cbv zeta.
  { split_and!; try done. destruct (decide (lower key = lower key')) as [El|El].
    - by rewrite <- El, E, (bool_decide_true (lower key = lower key)).
    - by rewrite (bool_decide_false (lower key = lower key')). }
  destruct (decide (lower key = lower key')) as [El|El].
  - rewrite <- El, lookup_insert_eq, E. by rewrite (bool_decide_true (lower key = lower key)).
  - rewrite lookup_insert_ne, (bool_decide_false (lower key = lower key')) by done. by destruct (m !! lower key').
Qed.

(** ** The decimal number *)

Lemma digits_value fuel : forall n acc, 0 <= n < 10 ^ Z.of_nat fuel -> (0 < fuel)%nat ->
  atol_digits 0 (digits fuel n acc) = atol_digits n acc.
Proof.
  induction fuel as [|fuel IH]; intros n acc Hn Hf; [lia|]. cbn [digits].
  rewrite Nat2Z.inj_succ, Z.pow_succ_r in Hn by lia.
  assert (Hm : 0 <= n mod 10 < 10) by (apply Z.mod_pos_bound; lia).
  pose proof (Z_div_mod_eq_full n 10) as Hd.
  assert (Hc : forall a, atol_digits a ((48 + n mod 10) :: acc) = atol_digits (10 * a + n mod 10) acc).
  { intros a. cbn [atol_digits]. unfold is_digit. replace (_ && _) with true by (symmetry; bsplit; lia). f_equal. lia. }
  destruct (Z.ltb_spec n 10) as [Hl|Hl].
  - rewrite Hc. f_equal. rewrite Z.mod_small by lia. lia.
  - destruct fuel as [|fuel]; [cbn in Hn; lia|]. rewrite IH by lia. rewrite Hc. f_equal. lia.
Qed.

Lemma digits_text fuel : forall n acc, 0 <= n -> Forall (fun c => is_digit c = true) acc ->
  Forall (fun c => is_digit c = true) (digits fuel n acc) /\ len (digits fuel n acc) <= Z.of_nat fuel + len acc.
Proof.
  induction fuel as [|fuel IH]; intros n acc Hn Ha; cbn [digits]; [split; [done|lia]|].
  assert (Hm : 0 <= n mod 10 < 10) by (apply Z.mod_pos_bound; lia).
  assert (Ha' : Forall (fun c => is_digit c = true) ((48 + n mod 10) :: acc)).
  { constructor; [|done]. unfold is_digit. bsplit; lia. }
  destruct (n <? 10); [split; [done|cbn; lia]|].
  destruct (IH (n / 10) _ ltac:(apply Z.div_pos; lia) Ha') as [H1 H2]. split; [done|]. cbn in H2 |- *. lia.
Qed.

Lemma decimal_text n : - 2 ^ 31 <= n < 2 ^ 31 -> len (decimal n) < 32 /\ token_ok (decimal n).
Proof.
  intros Hn. assert (Hd : forall s, Forall (fun c => is_digit c = true) s -> token_ok s).
  { intros s Hs. eapply Forall_impl; [exact Hs|]. intros c. cbn. unfold is_digit. intros [H1%Z.leb_le H2%Z.leb_le]%andb_true_iff. split_and!; lia. }
  unfold decimal. destruct (Z.ltb_spec n 0).
  - destruct (digits_text 10 (- n) []) as [H1 H2]; [lia|done|]. cbn [length] in H2 |- *. split; [lia|].
    constructor; [done|]. by apply Hd.
  - destruct (digits_text 10 n []) as [H1 H2]; [lia|done|]. cbn [length] in H2. split; [lia|by apply Hd].
Qed.

Lemma decimal_value n : 0 <= n < 2 ^ 31 -> atol_digits 0 (decimal n) = n.
Proof.
  intros Hn. unfold decimal. destruct (Z.ltb_spec n 0); [lia|]. by rewrite digits_value by (cbn; lia).
Qed.

(** The phrases are printable and short. *)
Lemma reason_phrase_ok n : text_ok (reason_phrase n) /\ len (reason_phrase n) < 64.
Proof.
  assert (Hb : forall s, forallb (fun c => negb (c =? CR) && negb (c =? NUL)) s && (len s <? 64) = true -> text_ok s /\ len s < 64).
  { intros s [Hs Hl]%andb_true_iff. split; [|lia]. apply List.Forall_forall. intros c Hc.
    rewrite forallb_forall in Hs. specialize (Hs c Hc). cbn. lia. }
  apply Hb. unfold reason_phrase.
  assert (Ht : forallb (fun x => forallb (fun c => negb (c =? CR) && negb (c =? NUL)) (bytes_of x.2) && (len (bytes_of x.2) <? 64)) reason_phrases = true)
    by (by vm_compute).
  destruct (filter _ reason_phrases) as [|x l] eqn:E; [by vm_compute|].
  rewrite forallb_forall in Ht. apply (Ht x). apply list_elem_of_In.
  assert (Hx : x ∈ filter (fun x => x.1 = n) reason_phrases) by (rewrite E; by left).
  by apply list_elem_of_filter in Hx as [_ Hx].
Qed.

(** Which codes announce a message without a body. *)
Lemma no_body_decimal n : 100 <= n < 1000 ->
  no_body_code (decimal n) = (n <? 200) || (n =? 204) || (n =? 304).
Proof.
  intros Hn. assert (Hall : forallb (fun k => let n := Z.of_nat k in
    Bool.eqb (no_body_code (decimal n)) ((n <? 200) || (n =? 204) || (n =? 304))) (seq 100 900) = true) by (by vm_compute).
  rewrite forallb_forall in Hall. specialize (Hall (Z.to_nat n)). cbv zeta in Hall.
  rewrite Z2Nat.id in Hall by lia. apply Bool.eqb_prop, Hall, in_seq. lia.
Qed.

(** ** Properties *)

(** [HttpHeaderMap] answers like the cursor of the parser: built from a
    message, it holds under every name, in whatever case, the values of all headers with
    that name in the order of the message; [get] gives the first of them, which is what
    [http_header_cursor_find] finds from the start of the list, and [key_exists] says
    whether there is one.  [get_strict] of one argument gives all of them, but it enters
    the key: no look-up of a value changes by it, yet from then on [key_exists] says that
    a header is there. *)
Theorem header_map_correct p hs :
  headers p hs -> Forall (fun h => no_nul h.1) hs ->
  exists m, header_map_new p = Some m /\
    forall key,
      get_strict_values key m = (match values_of key hs with [] => None | vs => Some vs end) /\
      (exists c, http_header_cursor_find key (len key) p http_header_cursor_init = Some (get_value key m, c)) /\
      get key m = default [] (get_value key m) /\
      key_exists key m = bool_decide (values_of key hs <> []) /\
      (get_strict key m).1 = values_of key hs /\
      forall key', let m' := (get_strict key m).2 in
        get_value key' m' = get_value key' m /\ get_strict_values key' m' = get_strict_values key' m /\
        (get_strict key' m').1 = values_of key' hs /\
        key_exists key' m' = bool_decide (lower key = lower key') || key_exists key' m.
Proof.
  intros Hh Hn. destruct (header_map_new_ok p hs Hh) as (m & E & Hm). exists m. split; [done|].
  intros key. destruct (maps_get m hs key Hm) as (E1 & E2 & E3 & E4 & E5). split_and!; try done.
  - destruct (find_from_start key p hs Hh) as (c & Ec). exists c. by rewrite Ec, E1, find_spec_values.
  - intros key'. cbv zeta. destruct (get_strict_state key key' m) as (F1 & F2 & F3 & F4).
    destruct (maps_get m hs key' Hm) as (_ & _ & _ & G & _). by rewrite F1, F2, F3, F4.
Qed.

(** [find_and_erase] takes out exactly one header: when there is one with the name
    at or behind the cursor, the first of these leaves the list, the others stay in
    their order, and the cursor stands before the place where it was; else nothing
    changes and the answer is [false]. *)
Theorem find_and_erase_correct name p hs k :
  headers p hs ->
  exists r p' c, find_and_erase name p (mk_cursor k) = Some (r, p', c) /\
    (r = true -> exists l1 n v l2, hs = l1 ++ (n, v) :: l2 /\ (k <= length l1)%nat /\ same_name n name = true /\
       Forall (fun h => same_name h.1 name = false) (drop k l1) /\
       headers p' (l1 ++ l2) /\ c = mk_cursor (length l1)) /\
    (r = false -> p' = p /\ Forall (fun h => same_name h.1 name = false) (drop k hs)).
Proof.
  intros Hh. unfold find_and_erase, http_header_cursor_find. cbn [next].
  assert (Hd : lines_repr (drop k (header_list p)) (drop k hs)) by (by apply Forall2_drop).
  destruct (find_loop_ok name _ _ k Hd) as (c & -> & Hnone & Hsome). cbn [mbind option_bind].
  destruct (find_spec name (drop k hs)) as [v|] eqn:Ef.
  - destruct (Hsome v eq_refl) as (i & n & Ec & Hi & Hn & HF). unfold http_header_cursor_erase. rewrite Ec.
    eexists _, _, _. split; [done|]. split; [|done]. intros _. rewrite lookup_drop in Hi.
    pose proof (lookup_lt_Some _ _ _ Hi) as Hlt.
    exists (take (k + i) hs), n, v, (drop (S (k + i)) hs).
    rewrite length_take, Nat.min_l by lia. split_and!.
    + symmetry. by apply take_drop_middle.
    + lia.
    + done.
    + rewrite skipn_firstn_comm. by replace (k + i - k)%nat with i by lia.
    + unfold headers. cbn [header_list set_header_list]. apply Forall2_app; [by apply Forall2_take|by apply Forall2_drop].
    + done.
  - eexists _, _, _. split; [done|]. split; [done|]. intros _. split; [done|].
    clear -Ef. induction (drop k hs) as [|h l IH]; [constructor|]. cbn in Ef.
    destruct (same_name h.1 name) eqn:E; [done|]. constructor; [done|by apply IH].
Qed.

(** The status line of a response.  [set_response_status] fits its [char buf[32]]
    for every [int]; whatever allocation fails, the code and the phrase are each the new
    one or the old one and nothing else of the message changes.  When memory is there,
    the line that is sent is read back by a fresh parser to the same three parts, the
    digits give the number again, and the parser announces no body for exactly the codes
    1xx, 204 and 304. *)
Theorem response_status p n v q0 rest :
  - 2 ^ 31 <= n < 2 ^ 31 -> method p = None -> version p = Some v ->
  token_ok v -> v <> [] -> len v < 8000 -> length (namebuf q0) = HTTP_HEADER_NAME_MAX ->
  (forall h, exists c ph h', set_response_status p n h = Some (set_phrase ph (set_code c p), h') /\
     (c = Some (decimal n) \/ c = code p) /\ (ph = Some (reason_phrase n) \/ ph = phrase p)) /\
  exists p' q, set_response_status p n [] = Some (p', []) /\
    start_line p' = Some (v, decimal n, reason_phrase n) /\
    turn (v ++ [SP] ++ decimal n ++ [SP] ++ reason_phrase n ++ [CR; LF] ++ rest) (http_parser_init true q0) [] = Some (1, q, []) /\
    start_line q = Some (v, decimal n, reason_phrase n) /\
    (0 <= n -> atol_digits 0 (decimal n) = n) /\
    (100 <= n < 1000 -> no_body_code (decimal n) = (n <? 200) || (n =? 204) || (n =? 304)).
Proof.
  intros Hn Hm Ev Hv Hne Hl Hnb. destruct (decimal_text n Hn) as [Hd Ht].
  destruct (reason_phrase_ok n) as [Hp Hpl].
  unfold set_response_status, http_parser_set_code, http_parser_set_phrase, set_string.
  rewrite (proj2 (Z.ltb_lt _ _) Hd). split.
  - intros h. destruct (malloc h) as [[] h1], (malloc h1) as [[] h2]; eexists _, _, h2.
    + split; [reflexivity|auto].
    + split; [|split; [by left|by right]]. by destruct p.
    + split; [|split; [by right|by left]]. by destruct p.
    + split; [|split; [by right|by right]]. by destruct p.
  - destruct (start_line_turn v (decimal n) (reason_phrase n) rest true q0 Hnb Hv Ht Hp Hne ltac:(lia))
      as (q & E & _ & _ & _ & _ & Hs & _).
    eexists _, q. split; [reflexivity|]. split.
    { unfold start_line. cbn [method set_phrase set_code version code phrase]. by rewrite Hm, Ev. }
    split_and!; [done|done|intros; apply decimal_value; lia|apply no_body_decimal].
Qed.

(** *** Concrete instances *)

(** [VIA] finds the header [Via]. *)
Lemma header_map_correct_witness :
  exists m, header_map_new demo_request = Some m /\ key_exists [86; 73; 65] m = true /\
    get_strict_values [86; 73; 65] m = Some [[98; 99]].
Proof.
  assert (Hn : Forall (fun h => no_nul h.1) demo_headers) by (repeat constructor; done).
  destruct (header_map_correct demo_request demo_headers demo_repr Hn) as (m & E & H). exists m. split; [done|].
  destruct (H [86; 73; 65]) as (E1 & _ & _ & E2 & _). rewrite E1, E2. split; [by vm_compute|by vm_compute].
Defined.

(** Erasing [Host] from the start leaves [Via]; there is no second one. *)
Lemma find_and_erase_correct_witness :
  exists p' c, find_and_erase demo_host demo_request http_header_cursor_init = Some (true, p', c) /\
    headers p' [(demo_via, [98; 99])] /\ c = http_header_cursor_init.
Proof.
  destruct (find_and_erase_correct demo_host demo_request demo_headers 0 demo_repr) as (r & p' & c & E & Ht & _).
  assert (Er : r = true).
  { assert (Ev : match find_and_erase demo_host demo_request (mk_cursor 0) with Some (r, _, _) => r | None => false end = true) by (by vm_compute).
    by rewrite E in Ev. }
  exists p', c. rewrite Er in E. split; [exact E|].
  destruct (Ht Er) as (l1 & n & v & l2 & Eh & _ & Hs & HF & Hh & ->).
  destruct l1 as [|x l1]; [by injection Eh as <- <- <-|].
  injection Eh as <- _. apply Forall_cons in HF as [HF _]. by vm_compute in HF.
Defined.

(** A response without memory trouble gets "200 OK". *)
Lemma response_status_witness :
  exists p' q, set_response_status (set_version (Some [72; 49]) demo_blank) 200 [] = Some (p', []) /\
    start_line p' = Some ([72; 49], decimal 200, bytes_of "OK"%string) /\ start_line q = start_line p'.
Proof.
  destruct (response_status (set_version (Some [72; 49]) demo_blank) 200 [72; 49] demo_blank []) as [_ (p' & q & E & Es & _ & Eq & _)];
    [lia|done|done|by repeat constructor|done|cbn; lia|done|].
  exists p', q. split; [exact E|]. split; [exact Es|]. by rewrite Eq, Es.
Defined.
