(* ===== verification/MsgQueue.v ===== *)
(** * The message queue of [src/kernel/msgqueue.c]

    Two intrusive singly linked lists: producers append to the one [put_head]
    heads, under [put_mutex]; consumers take from the one [get_head] heads, under
    [get_mutex]; a consumer that finds its list empty swaps the two.

    The first part is the memory: the link cells (those of the messages and the
    two heads) in a store, and the statements of each critical section as
    functions on it.  The second part is the concurrency: one step of a thread is
    one critical section or one operation on a mutex or condition variable, and
    [step] interleaves the threads.  A waiting thread may wake up spuriously.

    [refines_deque] states what the queue promises: every step is a step of an
    abstract sequence of messages, or does not change it. *)

From S2P Require Import Prelude.

Local Open Scope Z_scope.

Abbreviation loc := positive.
Abbreviation tid := nat.

(** ** Memory *)

(** [msgqueue_t] without its mutexes; the cells [head1] and [head2] live in the
    store with the links of the messages ([link] is [msg + linkoff]). *)
Record queue := mk_queue {
  cells : gmap loc (option loc);
  msg_max : Z;
  msg_cnt : Z;
  nonblock : bool;
  get_head : loc;
  put_head : loc;
  put_tail : loc }.

Definition head1 : loc := 1%positive.
Definition head2 : loc := 2%positive.

Definition load (p : loc) (q : queue) : option (option loc) := cells q !! p.
Definition store (p : loc) (v : option loc) (q : queue) : option queue :=
  if decide (is_Some (cells q !! p)) then
    Some (mk_queue (<[p := v]> (cells q)) (msg_max q) (msg_cnt q) (nonblock q)
            (get_head q) (put_head q) (put_tail q))
  else None.
Definition set_tail (p : loc) (q : queue) : queue :=
  mk_queue (cells q) (msg_max q) (msg_cnt q) (nonblock q) (get_head q) (put_head q) p.
Definition set_cnt (n : Z) (q : queue) : queue :=
  mk_queue (cells q) (msg_max q) n (nonblock q) (get_head q) (put_head q) (put_tail q).
Definition set_nonblock (b : bool) (q : queue) : queue :=
  mk_queue (cells q) (msg_max q) (msg_cnt q) b (get_head q) (put_head q) (put_tail q).

(** A queue as [msgqueue_create] leaves it, in a memory that holds some messages. *)
Definition msgqueue_create (maxlen : Z) (m : gmap loc (option loc)) : queue :=
  mk_queue (<[head1 := None]> (<[head2 := None]> m)) maxlen 0 false head1 head2 head2.

(** [queue->msg_cnt > queue->msg_max - 1], on [size_t]. *)
Definition full (q : queue) : bool := u64 (msg_max q - 1) <? msg_cnt q.

(** [*put_tail = link; put_tail = link; msg_cnt++;] *)
Definition put_body (link : loc) (q : queue) : option queue :=
  q ← store (put_tail q) (Some link) q;
  let q := set_tail link q in
  Some (set_cnt (u64 (msg_cnt q + 1)) q).

(** [*link = *get_head; *get_head = link;] *)
Definition put_head_fast (link : loc) (q : queue) : option queue :=
  v ← load (get_head q) q;
  q ← store link v q;
  store (get_head q) (Some link) q.

(** [*link = *put_head; if ( *link == NULL) put_tail = link; *put_head = link; msg_cnt++;] *)
Definition put_head_slow (link : loc) (q : queue) : option queue :=
  v ← load (put_head q) q;
  q ← store link v q;
  let q := match v with None => set_tail link q | Some _ => q end in
  q ← store (put_head q) (Some link) q;
  Some (set_cnt (u64 (msg_cnt q + 1)) q).

(** The part of [__msgqueue_swap] after the wait: the count, whether the
    producers are woken, and the queue. *)
Definition swap_body (q : queue) : Z * bool * queue :=
  let cnt := msg_cnt q in
  (cnt, full q,
   mk_queue (cells q) (msg_max q) 0 (nonblock q) (put_head q) (get_head q) (get_head q)).

(** [msg = *get_head - linkoff; *get_head = **get_head;] *)
Definition get_body (q : queue) : option (loc * queue) :=
  v ← load (get_head q) q;
  link ← v;
  next ← load link q;
  q ← store (get_head q) next q;
  Some (link, q).

(** ** Threads *)

(** Where a thread stands.  [b] in the waiting states: it has been signalled. *)
Inductive pc :=
  | Idle
  | PutLock (m : loc)                     (* msgqueue_put: before pthread_mutex_lock *)
  | PutTest (m : loc)                     (* at the while, holding put_mutex *)
  | PutWait (m : loc) (b : bool)          (* in pthread_cond_wait on put_cond *)
  | PutSignal                             (* before pthread_cond_signal(get_cond) *)
  | HeadLock (m : loc)                    (* msgqueue_put_head *)
  | HeadTest (m : loc)                    (* at the first while, holding put_mutex *)
  | HeadFast (m : loc)                    (* holding get_mutex after the trylock *)
  | HeadTest2 (m : loc)                   (* at the second while, holding put_mutex *)
  | HeadWait (m : loc) (b : bool)
  | GetLock                               (* msgqueue_get *)
  | GetTest                               (* at the if, holding get_mutex *)
  | SwapLock                              (* __msgqueue_swap, holding get_mutex *)
  | SwapTest                              (* at the while, holding both mutexes *)
  | SwapWait (b : bool)                   (* in pthread_cond_wait on get_cond *)
  | SwapDone (cnt : Z)                    (* the swap has returned *)
  | BlockLock                             (* msgqueue_set_nonblock: nonblock is set *)
  | BlockIn.                              (* holding put_mutex *)

#[export] Instance pc_eq_dec : EqDecision pc.
Proof. solve_decision. Defined.

(** The shared state.  [free] is the set of messages the callers own: not in the
    queue, and not handed to a call in progress. *)
Record state := mk_state {
  q : queue;
  get_mutex : option tid;
  put_mutex : option tid;
  free : gset loc;
  pcs : tid -> pc }.

Definition at_pc (f : tid -> pc) (t : tid) (p : pc) : tid -> pc :=
  fun u => if decide (u = t) then p else f u.

(** [pthread_cond_broadcast(&put_cond)]. *)
Definition wake_put (p : pc) : pc :=
  match p with PutWait m _ => PutWait m true | HeadWait m _ => HeadWait m true | p => p end.
Definition broadcast_put (b : bool) (f : tid -> pc) : tid -> pc :=
  if b then fun u => wake_put (f u) else f.

(** [pthread_cond_signal(&get_cond)]: one waiting thread, if there is any. *)
Inductive signal_get (f : tid -> pc) : (tid -> pc) -> Prop :=
  | signal_none : (forall t, f t <> SwapWait false) -> signal_get f f
  | signal_one t : f t = SwapWait false -> signal_get f (at_pc f t (SwapWait true)).

(** What a step does to the sequence of messages. *)
Inductive event :=
  | ETau
  | EPut (m : loc)           (* a message is appended *)
  | EHead (m : loc)          (* a message is put in front of all the others *)
  | EMiddle (m : loc)        (* a message is put in front of the producers' list only *)
  | EGet (m : loc)
  | EEmpty                   (* [msgqueue_get] is going to return NULL *)
  | ENonblock (b : bool).

(** The steps of [msgqueue_put]. *)
Inductive step_put (t : tid) : state -> event -> state -> Prop :=
  | put_start x x' g o fr f m : f t = Idle -> m ∈ fr -> store m None x = Some x' ->
      step_put t (mk_state x g o fr f) ETau (mk_state x' g o (fr ∖ {[m]}) (at_pc f t (PutLock m)))
  | put_lock x g fr f m : f t = PutLock m ->
      step_put t (mk_state x g None fr f) ETau (mk_state x g (Some t) fr (at_pc f t (PutTest m)))
  | put_wait x g o fr f m : f t = PutTest m -> full x && negb (nonblock x) = true ->
      step_put t (mk_state x g o fr f) ETau (mk_state x g None fr (at_pc f t (PutWait m false)))
  | put_wake x g fr f m b : f t = PutWait m b ->
      step_put t (mk_state x g None fr f) ETau (mk_state x g (Some t) fr (at_pc f t (PutTest m)))
  | put_done x x' g o fr f m : f t = PutTest m -> full x && negb (nonblock x) = false ->
      put_body m x = Some x' ->
      step_put t (mk_state x g o fr f) (EPut m) (mk_state x' g None fr (at_pc f t PutSignal))
  | put_signal x g o fr f f' : f t = PutSignal -> signal_get f f' ->
      step_put t (mk_state x g o fr f) ETau (mk_state x g o fr (at_pc f' t Idle)).

(** The steps of [msgqueue_put_head].  [*get_head] is read without [get_mutex];
    when the trylock fails the loop tests again. *)
Inductive step_put_head (t : tid) : state -> event -> state -> Prop :=
  | head_start x g o fr f m : f t = Idle -> m ∈ fr ->
      step_put_head t (mk_state x g o fr f) ETau (mk_state x g o (fr ∖ {[m]}) (at_pc f t (HeadLock m)))
  | head_lock x g fr f m : f t = HeadLock m ->
      step_put_head t (mk_state x g None fr f) ETau (mk_state x g (Some t) fr (at_pc f t (HeadTest m)))
  | head_trylock x o fr f m y : f t = HeadTest m -> load (get_head x) x = Some (Some y) ->
      step_put_head t (mk_state x None o fr f) ETau (mk_state x (Some t) None fr (at_pc f t (HeadFast m)))
  | head_fast x x' g o fr f m : f t = HeadFast m -> put_head_fast m x = Some x' ->
      step_put_head t (mk_state x g o fr f) (EHead m) (mk_state x' None o fr (at_pc f t Idle))
  | head_none x g o fr f m : f t = HeadTest m -> load (get_head x) x = Some None ->
      step_put_head t (mk_state x g o fr f) ETau (mk_state x g o fr (at_pc f t (HeadTest2 m)))
  | head_wait x g o fr f m : f t = HeadTest2 m -> full x && negb (nonblock x) = true ->
      step_put_head t (mk_state x g o fr f) ETau (mk_state x g None fr (at_pc f t (HeadWait m false)))
  | head_wake x g fr f m b : f t = HeadWait m b ->
      step_put_head t (mk_state x g None fr f) ETau (mk_state x g (Some t) fr (at_pc f t (HeadTest2 m)))
  | head_done x x' g o fr f m v : f t = HeadTest2 m -> full x && negb (nonblock x) = false ->
      put_head_slow m x = Some x' -> load (get_head x) x = Some v ->
      step_put_head t (mk_state x g o fr f) (match v with None => EHead m | Some _ => EMiddle m end)
        (mk_state x' g None fr (at_pc f t PutSignal)).

(** The steps of [msgqueue_get] and [__msgqueue_swap]. *)
Inductive step_get (t : tid) : state -> event -> state -> Prop :=
  | get_start x g o fr f : f t = Idle ->
      step_get t (mk_state x g o fr f) ETau (mk_state x g o fr (at_pc f t GetLock))
  | get_lock x o fr f : f t = GetLock ->
      step_get t (mk_state x None o fr f) ETau (mk_state x (Some t) o fr (at_pc f t GetTest))
  | get_first x x' g o fr f y m : f t = GetTest -> load (get_head x) x = Some (Some y) ->
      get_body x = Some (m, x') ->
      step_get t (mk_state x g o fr f) (EGet m) (mk_state x' None o (fr ∪ {[m]}) (at_pc f t Idle))
  | get_swap x g o fr f : f t = GetTest -> load (get_head x) x = Some None ->
      step_get t (mk_state x g o fr f) ETau (mk_state x g o fr (at_pc f t SwapLock))
  | swap_lock x g fr f : f t = SwapLock ->
      step_get t (mk_state x g None fr f) ETau (mk_state x g (Some t) fr (at_pc f t SwapTest))
  | swap_wait x g o fr f : f t = SwapTest -> (msg_cnt x =? 0) && negb (nonblock x) = true ->
      step_get t (mk_state x g o fr f) ETau (mk_state x g None fr (at_pc f t (SwapWait false)))
  | swap_wake x g fr f b : f t = SwapWait b ->
      step_get t (mk_state x g None fr f) ETau (mk_state x g (Some t) fr (at_pc f t SwapTest))
  | swap_done x x' g o fr f cnt b : f t = SwapTest -> (msg_cnt x =? 0) && negb (nonblock x) = false ->
      swap_body x = (cnt, b, x') ->
      step_get t (mk_state x g o fr f) (if cnt =? 0 then EEmpty else ETau)
        (mk_state x' g None fr (at_pc (broadcast_put b f) t (SwapDone cnt)))
  | get_second x x' g o fr f cnt m : f t = SwapDone cnt -> 0 < cnt -> get_body x = Some (m, x') ->
      step_get t (mk_state x g o fr f) (EGet m) (mk_state x' None o (fr ∪ {[m]}) (at_pc f t Idle))
  | get_null x g o fr f : f t = SwapDone 0 ->
      step_get t (mk_state x g o fr f) ETau (mk_state x None o fr (at_pc f t Idle)).

(** The steps of [msgqueue_set_nonblock] and [msgqueue_set_block]. *)
Inductive step_block (t : tid) : state -> event -> state -> Prop :=
  | block_start x g o fr f : f t = Idle ->
      step_block t (mk_state x g o fr f) (ENonblock true)
        (mk_state (set_nonblock true x) g o fr (at_pc f t BlockLock))
  | block_lock x g fr f : f t = BlockLock ->
      step_block t (mk_state x g None fr f) ETau (mk_state x g (Some t) fr (at_pc f t BlockIn))
  | block_wake x g o fr f f' : f t = BlockIn -> signal_get f f' ->
      step_block t (mk_state x g o fr f) ETau
        (mk_state x g None fr (at_pc (broadcast_put true f') t Idle))
  | block_off x g o fr f : f t = Idle ->
      step_block t (mk_state x g o fr f) (ENonblock false)
        (mk_state (set_nonblock false x) g o fr f).

Definition step (t : tid) (s : state) (e : event) (s' : state) : Prop :=
  step_put t s e s' \/ step_put_head t s e s' \/ step_get t s e s' \/ step_block t s e s'.

(** Executions of any number of threads. *)
Inductive exec (s0 : state) : list event -> state -> Prop :=
  | exec_nil : exec s0 [] s0
  | exec_snoc es s e s' t : exec s0 es s -> step t s e s' -> exec s0 (es ++ [e]) s'.

(** The start: a fresh queue and the messages [pool], all owned by the callers. *)
Definition initial (maxlen : Z) (pool : gset loc) : state :=
  mk_state (msgqueue_create maxlen (gset_to_gmap None pool)) None None pool (fun _ => Idle).

(** ** The abstract queue *)

Inductive deque_step : list loc -> event -> list loc -> Prop :=
  | dq_tau l : deque_step l ETau l
  | dq_nonblock l b : deque_step l (ENonblock b) l
  | dq_put l m : deque_step l (EPut m) (l ++ [m])
  | dq_head l m : deque_step l (EHead m) (m :: l)
  | dq_middle l1 l2 m : l1 <> [] -> deque_step (l1 ++ l2) (EMiddle m) (l1 ++ m :: l2)
  | dq_get l m : deque_step (m :: l) (EGet m) l
  | dq_empty : deque_step [] EEmpty [].

Inductive deque_run : list loc -> list event -> list loc -> Prop :=
  | run_nil l : deque_run l [] l
  | run_snoc l es l1 e l2 : deque_run l es l1 -> deque_step l1 e l2 -> deque_run l (es ++ [e]) l2.

(** ** Chains of links *)

Fixpoint chain (m : gmap loc (option loc)) (p : loc) (l : list loc) : Prop :=
  match l with
  | [] => m !! p = Some None
  | x :: l => m !! p = Some (Some x) /\ chain m x l
  end.

Fixpoint last_of (p : loc) (l : list loc) : loc :=
  match l with [] => p | x :: l => last_of x l end.

Lemma mq_chain_frame m m' p l :
  chain m p l -> (forall x, x = p \/ x ∈ l -> m' !! x = m !! x) -> chain m' p l.
Proof.
  revert p. induction l as [|y l IH]; intros p; cbn; intros H F; [by rewrite F; auto|].
  destruct H as [H1 H2]. rewrite F by auto. split; [done|]. apply IH; [done|].
  intros x [-> | Hx]; apply F; set_solver.
Qed.

Lemma chain_head m p l : chain m p l -> m !! p = Some (head l).
Proof. destruct l; cbn; [done|tauto]. Qed.

Lemma last_of_in p l : last_of p l = p \/ last_of p l ∈ l.
Proof.
  revert p. induction l as [|y l IH]; intros p; cbn; [auto|]. destruct (IH y) as [-> | H]; set_solver.
Qed.

Lemma last_of_snoc p l x : last_of p (l ++ [x]) = x.
Proof. revert p. induction l as [|y l IH]; intros p; cbn; auto. Qed.

Lemma chain_snoc m p l x :
  chain m p l -> (p ∉ l) -> NoDup l -> x <> p -> (x ∉ l) -> m !! x = Some None ->
  chain (<[last_of p l := Some x]> m) p (l ++ [x]).
Proof.
  revert p. induction l as [|y l IH]; intros p; cbn; intros H Hp Hd Hx Hxl Hmx.
  - split; [by rewrite lookup_insert_eq|]. by rewrite lookup_insert_ne.
  - destruct H as [H1 H2]. apply list.NoDup_cons in Hd as [Hy Hd].
    assert (last_of y l <> p) by (destruct (last_of_in y l) as [-> | ?]; set_solver).
    split; [by rewrite lookup_insert_ne|]. apply IH; set_solver.
Qed.

Lemma store_run p v x w : cells x !! p = Some w ->
  store p v x = Some (mk_queue (<[p := v]> (cells x)) (msg_max x) (msg_cnt x) (nonblock x)
            (get_head x) (put_head x) (put_tail x)).
Proof. intros E. unfold store. rewrite decide_True; [done|]. by rewrite E. Qed.

(** ** The queue holds two lists *)

Record qinv (x : queue) (l1 l2 : list loc) : Prop := mk_qinv {
  q_get : chain (cells x) (get_head x) l1;
  q_put : chain (cells x) (put_head x) l2;
  q_tail : put_tail x = last_of (put_head x) l2;
  q_cnt : msg_cnt x = len l2;
  q_nodup : NoDup (get_head x :: put_head x :: l1 ++ l2) }.

(** An operation that writes only the cells of the queue and of [link]. *)
Definition qframe (x x' : queue) (l : list loc) : Prop :=
  msg_max x' = msg_max x /\ nonblock x' = nonblock x /\
  get_head x' = get_head x /\ put_head x' = put_head x /\
  (forall p, p ∉ get_head x :: put_head x :: l -> cells x' !! p = cells x !! p) /\
  (forall p, is_Some (cells x !! p) -> is_Some (cells x' !! p)).

Lemma is_Some_insert (m : gmap loc (option loc)) p q v : is_Some (m !! p) -> is_Some (<[q := v]> m !! p).
Proof. intros H. destruct (decide (p = q)) as [->|]; [by rewrite lookup_insert_eq; eauto|by rewrite lookup_insert_ne]. Qed.

(** Membership and distinctness facts, once the hypotheses are split. *)
Ltac ap_hyps :=
  repeat match goal with
  | H : _ /\ _ |- _ => destruct H
  | H : _ ∉ _ :: _ |- _ => rewrite not_elem_of_cons in H
  | H : _ ∉ _ ++ _ |- _ => rewrite not_elem_of_app in H
  end.

Ltac ap :=
  ap_hyps; repeat first [rewrite not_elem_of_cons | rewrite not_elem_of_app | rewrite list.elem_of_nil];
  repeat split;
  first [ assumption | congruence | tauto
        | intros ->; tauto | intros <-; tauto
        | let E := fresh in intros E; rewrite ?E in *; tauto ].

(** A store outside a chain. *)
Ltac chain_tac :=
  let z := fresh "z" in let Hz := fresh "Hz" in
  intros z Hz; rewrite !lookup_insert_ne; [done|..]; destruct Hz as [-> | Hz]; ap.

Lemma put_body_ok x l1 l2 link :
  qinv x l1 l2 -> (link ∉ get_head x :: put_head x :: l1 ++ l2) -> cells x !! link = Some None ->
  len l2 + 1 < 2 ^ 64 ->
  exists x', put_body link x = Some x' /\ qinv x' l1 (l2 ++ [link]) /\
    qframe x x' (l1 ++ l2) /\ msg_cnt x' = msg_cnt x + 1.
Proof.
  intros [Hg Hp Ht Hc Hd] Hl Hn Hsz. rewrite !not_elem_of_cons, not_elem_of_app in Hl.
  destruct Hl as (Hlg & Hlp & Hl1 & Hl2).
  apply list.NoDup_cons in Hd as [Hdg Hd]. apply list.NoDup_cons in Hd as [Hdp Hd].
  rewrite not_elem_of_cons, not_elem_of_app in Hdg. rewrite not_elem_of_app in Hdp.
  pose proof Hd as (Hd1 & Hd2 & Hdis)%NoDup_app_inv.
  assert (Htail : put_tail x <> get_head x /\ (put_tail x ∉ l1) /\
      (forall p, p <> put_head x -> (p ∉ l2) -> put_tail x <> p)).
  { pose proof (last_of_in (put_head x) l2) as Hin. rewrite <- Ht in Hin. destruct Hin as [E | Hin].
    - rewrite E. split; [intros E2; by symmetry in E2; tauto|]. split; [tauto|]. intros; congruence.
    - split; [intros E; rewrite E in Hin; tauto|]. split; [intros ?; by eapply Hdis|].
      intros p _ Hp2 E. rewrite E in Hin. tauto. }
  destruct Htail as (Htg & Ht1 & Htp).
  assert (Hcell : is_Some (cells x !! put_tail x)).
  { rewrite Ht. clear -Hp. revert Hp. generalize (put_head x). induction l2 as [|y l IH]; intros p; cbn;
      [by intros ->|intros [_ ?]; auto]. }
  destruct Hcell as [w Hw]. unfold put_body. rewrite (store_run _ _ _ _ Hw). cbn [mbind option_bind].
  eexists. split; [done|]. cbn. rewrite wrap_small by lia. split; [|split; [|lia]].
  - constructor; cbn.
    + eapply mq_chain_frame; [exact Hg|]. chain_tac.
    + rewrite Ht. apply chain_snoc; [done|tauto|done|done|done|done].
    + by rewrite last_of_snoc.
    + rewrite length_app. cbn. lia.
    + rewrite app_assoc. apply list.NoDup_cons. split; [ap|]. apply list.NoDup_cons.
      split; [ap|]. rewrite list.NoDup_app. split_and!; [done| |apply NoDup_singleton].
      intros p Hp1 ->%list_elem_of_singleton. apply elem_of_app in Hp1. tauto.
  - unfold qframe. cbn. split_and!; [done..| |intros; by apply is_Some_insert].
    intros p Hq. rewrite !not_elem_of_cons, not_elem_of_app in Hq.
    rewrite lookup_insert_ne; [done|]. apply Htp; tauto.
Qed.

Lemma put_head_fast_ok x l1 l2 link :
  qinv x l1 l2 -> (link ∉ get_head x :: put_head x :: l1 ++ l2) -> is_Some (cells x !! link) ->
  exists x', put_head_fast link x = Some x' /\ qinv x' (link :: l1) l2 /\
    qframe x x' (link :: l1 ++ l2) /\ msg_cnt x' = msg_cnt x.
Proof.
  intros [Hg Hp Ht Hc Hd] Hl [w Hw]. rewrite !not_elem_of_cons, not_elem_of_app in Hl.
  destruct Hl as (Hlg & Hlp & Hl1 & Hl2).
  apply list.NoDup_cons in Hd as [Hdg Hd]. apply list.NoDup_cons in Hd as [Hdp Hd].
  rewrite not_elem_of_cons, not_elem_of_app in Hdg. rewrite not_elem_of_app in Hdp.
  unfold put_head_fast, load. rewrite (chain_head _ _ _ Hg). cbn [mbind option_bind].
  rewrite (store_run _ _ _ _ Hw). cbn [mbind option_bind].
  erewrite store_run; cbn [cells get_head];
    [|rewrite lookup_insert_ne by congruence; apply (chain_head _ _ _ Hg)].
  eexists. split; [done|]. split; [|split; [|done]].
  - constructor; cbn; [| |done|done|].
    + split; [by rewrite lookup_insert_eq|].
      destruct l1 as [|y l1]; cbn in *; [rewrite lookup_insert_ne by congruence; by rewrite lookup_insert_eq|].
      split; [rewrite lookup_insert_ne by congruence; by rewrite lookup_insert_eq|].
      eapply mq_chain_frame; [apply Hg|]. chain_tac.
    + eapply mq_chain_frame; [exact Hp|]. chain_tac.
    + apply list.NoDup_cons. split; [ap|]. apply list.NoDup_cons. split; [ap|].
      apply list.NoDup_cons. split; [ap|done].
  - unfold qframe. cbn. split_and!; [done..| |intros; by repeat apply is_Some_insert].
    intros p Hq. rewrite !not_elem_of_cons, not_elem_of_app in Hq. rewrite !lookup_insert_ne; [done|ap..].
Qed.

Lemma put_head_slow_ok x l1 l2 link :
  qinv x l1 l2 -> (link ∉ get_head x :: put_head x :: l1 ++ l2) -> is_Some (cells x !! link) ->
  len l2 + 1 < 2 ^ 64 ->
  exists x', put_head_slow link x = Some x' /\ qinv x' l1 (link :: l2) /\
    qframe x x' (link :: l1 ++ l2) /\ msg_cnt x' = msg_cnt x + 1.
Proof.
  intros [Hg Hp Ht Hc Hd] Hl [w Hw] Hsz. rewrite !not_elem_of_cons, not_elem_of_app in Hl.
  destruct Hl as (Hlg & Hlp & Hl1 & Hl2).
  apply list.NoDup_cons in Hd as [Hdg Hd]. apply list.NoDup_cons in Hd as [Hdp Hd].
  rewrite not_elem_of_cons, not_elem_of_app in Hdg. rewrite not_elem_of_app in Hdp.
  unfold put_head_slow, load. rewrite (chain_head _ _ _ Hp). cbn [mbind option_bind].
  rewrite (store_run _ _ _ _ Hw). cbn [mbind option_bind].
  set (x1 := match head l2 with Some _ => _ | None => _ end).
  assert (E1 : cells x1 = <[link := head l2]> (cells x) /\ msg_max x1 = msg_max x /\
    msg_cnt x1 = msg_cnt x /\ nonblock x1 = nonblock x /\ get_head x1 = get_head x /\
    put_head x1 = put_head x /\ put_tail x1 = last_of link l2).
  { unfold x1. destruct l2 as [|y l2]; cbn in *; [done|]. split_and!; done. }
  destruct E1 as (E1 & E2 & E3 & E4 & E5 & E6 & E7).
  erewrite store_run; [|rewrite E1, E6, lookup_insert_ne by congruence; apply (chain_head _ _ _ Hp)].
  eexists. split; [done|]. cbn. rewrite E3, wrap_small by lia. split; [|split; [|lia]].
  - constructor; cbn; rewrite ?E1, ?E5, ?E6, ?E7.
    + eapply mq_chain_frame; [exact Hg|]. chain_tac.
    + split; [by rewrite lookup_insert_eq|].
      destruct l2 as [|y l2]; cbn in *; [rewrite lookup_insert_ne by congruence; by rewrite lookup_insert_eq|].
      split; [rewrite lookup_insert_ne by congruence; by rewrite lookup_insert_eq|].
      eapply mq_chain_frame; [apply Hp|]. chain_tac.
    + done.
    + rewrite Hc. lia.
    + rewrite <- Permutation_middle. apply list.NoDup_cons. split; [ap|]. apply list.NoDup_cons.
      split; [ap|]. apply list.NoDup_cons. split; [ap|done].
  - unfold qframe. cbn. rewrite E1, E2, E4, E5, E6.
    split_and!; [done..| |intros; by repeat apply is_Some_insert].
    intros p Hq. rewrite !not_elem_of_cons, not_elem_of_app in Hq. rewrite !lookup_insert_ne; [done|ap..].
Qed.

Lemma swap_body_ok x l2 :
  qinv x [] l2 -> exists x', swap_body x = (len l2, full x, x') /\ qinv x' l2 [] /\
    msg_max x' = msg_max x /\ nonblock x' = nonblock x /\ cells x' = cells x /\
    get_head x' = put_head x /\ put_head x' = get_head x /\ msg_cnt x' = 0.
Proof.
  intros [Hg Hp Ht Hc Hd]. unfold swap_body. rewrite Hc. eexists. split; [done|].
  split; [|done]. constructor; cbn; [done..|]. rewrite app_nil_r. cbn in Hd. by rewrite list.Permutation_swap.
Qed.

Lemma get_body_ok x m l1 l2 :
  qinv x (m :: l1) l2 ->
  exists x', get_body x = Some (m, x') /\ qinv x' l1 l2 /\ qframe x x' (m :: l1 ++ l2) /\
    msg_cnt x' = msg_cnt x.
Proof.
  intros [[Hg1 Hg2] Hp Ht Hc Hd]. cbn in Hd.
  apply list.NoDup_cons in Hd as [Hdg Hd]. apply list.NoDup_cons in Hd as [Hdp Hd].
  apply list.NoDup_cons in Hd as [Hm Hd]. unfold get_body, load. rewrite Hg1. cbn [mbind option_bind].
  rewrite (chain_head _ _ _ Hg2). cbn [mbind option_bind]. rewrite (store_run _ _ _ _ Hg1).
  eexists. split; [done|]. split; [|split; [|done]].
  - constructor; cbn; [| |done|done|].
    + destruct l1 as [|y l1]; cbn in *; [by rewrite lookup_insert_eq|].
      split; [by rewrite lookup_insert_eq|]. eapply mq_chain_frame; [apply Hg2|]. chain_tac.
    + eapply mq_chain_frame; [exact Hp|]. chain_tac.
    + apply list.NoDup_cons. split; [ap|]. apply list.NoDup_cons. split; [ap|done].
  - unfold qframe. cbn. split_and!; [done..| |intros; by apply is_Some_insert].
    intros p Hq. rewrite !not_elem_of_cons, not_elem_of_app in Hq. rewrite lookup_insert_ne; [done|ap].
Qed.

(** ** The invariant of the threads *)

Definition msg_of (p : pc) : option loc :=
  match p with
  | PutLock m | PutTest m | PutWait m _ | HeadLock m | HeadTest m | HeadFast m | HeadTest2 m
  | HeadWait m _ => Some m
  | _ => None
  end.
(** In [msgqueue_put] the link has been cleared. *)
Definition cleared (p : pc) : bool :=
  match p with PutLock _ | PutTest _ | PutWait _ _ => true | _ => false end.
Definition holds_put (p : pc) : bool :=
  match p with PutTest _ | HeadTest _ | HeadTest2 _ | SwapTest | BlockIn => true | _ => false end.
Definition holds_get (p : pc) : bool :=
  match p with
  | HeadFast _ | GetTest | SwapLock | SwapTest | SwapWait _ | SwapDone _ => true | _ => false end.
Definition swapping (p : pc) : bool :=
  match p with SwapLock | SwapTest | SwapWait _ => true | _ => false end.
Definition waits_put (p : pc) : bool :=
  match p with PutWait _ false | HeadWait _ false => true | _ => false end.
(** A thread that is going to signal. *)
Definition will_wake (p : pc) : bool := match p with BlockLock | BlockIn => true | _ => false end.
Definition will_signal (p : pc) : bool :=
  match p with PutSignal | BlockLock | BlockIn => true | _ => false end.

Record inv (pool : gset loc) (s : state) (l1 l2 : list loc) : Prop := mk_inv {
  i_queue : qinv (q s) l1 l2;
  i_heads : (get_head (q s) = head1 /\ put_head (q s) = head2) \/
            (get_head (q s) = head2 /\ put_head (q s) = head1);
  i_pool : forall p, p ∈ pool -> is_Some (cells (q s) !! p) /\ p <> head1 /\ p <> head2;
  i_size : Z.of_nat (size pool) < 2 ^ 64;
  i_in : forall p, p ∈ l1 ++ l2 -> p ∈ pool;
  i_free : forall p, p ∈ free s -> p ∈ pool /\ (p ∉ l1 ++ l2);
  i_msg : forall t m, msg_of (pcs s t) = Some m ->
    m ∈ pool /\ (m ∉ l1 ++ l2) /\ (m ∉ free s) /\
    (cleared (pcs s t) = true -> cells (q s) !! m = Some None);
  i_sep : forall t u m, msg_of (pcs s t) = Some m -> msg_of (pcs s u) = Some m -> t = u;
  i_put : forall t, holds_put (pcs s t) = true -> put_mutex s = Some t;
  i_get : forall t, holds_get (pcs s t) = true -> get_mutex s = Some t;
  i_fast : forall t m, pcs s t = HeadFast m -> l1 <> [];
  i_swap : forall t, swapping (pcs s t) = true -> l1 = [];
  i_done : forall t c, pcs s t = SwapDone c -> c = len l1;
  i_getw : forall t, pcs s t = SwapWait false ->
    (msg_cnt (q s) = 0 /\ nonblock (q s) = false) \/ exists u, will_signal (pcs s u) = true;
  i_putw : forall t, waits_put (pcs s t) = true ->
    (full (q s) = true /\ nonblock (q s) = false) \/ exists u, will_wake (pcs s u) = true }.

(** A message that is not in the queue is none of its cells. *)
Lemma not_cell pool s l1 l2 m :
  inv pool s l1 l2 -> m ∈ pool -> (m ∉ l1 ++ l2) ->
  m ∉ get_head (q s) :: put_head (q s) :: l1 ++ l2.
Proof.
  intros I Hm Hn. destruct (i_pool _ _ _ _ I m Hm) as (_ & H1 & H2).
  destruct (i_heads _ _ _ _ I) as [[-> ->] | [-> ->]]; ap.
Qed.

(** There are fewer messages than a [size_t] can count. *)
Lemma queue_size pool s l1 l2 m :
  inv pool s l1 l2 -> m ∈ pool -> (m ∉ l1 ++ l2) -> len l2 + 1 < 2 ^ 64.
Proof.
  intros I Hm Hn. assert (H : (size (list_to_set (m :: l2) : gset loc) <= size pool)%nat).
  { apply subseteq_size. intros p Hp%elem_of_list_to_set. apply elem_of_cons in Hp as [-> | Hp]; [done|].
    apply (i_in _ _ _ _ I). apply elem_of_app. auto. }
  pose proof (i_size _ _ _ _ I). pose proof (q_nodup _ _ _ (i_queue _ _ _ _ I)) as Hd.
  rewrite size_list_to_set in H; [cbn in H; lia|].
  apply list.NoDup_cons in Hd as [_ Hd]. apply list.NoDup_cons in Hd as [_ Hd].
  apply NoDup_app_inv in Hd as (_ & Hd & _). apply list.NoDup_cons. split; [ap|done].
Qed.

(** The cases of a thread table that has changed at one thread. *)
Ltac threads :=
  unfold at_pc in *; repeat case_decide; subst;
  cbn [msg_of cleared holds_put holds_get swapping waits_put will_wake will_signal] in *.

(** A step that moves one thread between two program points and changes neither
    the queue nor the messages. *)
Lemma inv_move pool x g g' o o' fr f t p1 l1 l2 :
  inv pool (mk_state x g o fr f) l1 l2 ->
  msg_of p1 = msg_of (f t) -> (cleared p1 = true -> cleared (f t) = true) ->
  (forall u, u <> t -> holds_put (f u) = true -> o' = Some u) ->
  (forall u, u <> t -> holds_get (f u) = true -> g' = Some u) ->
  (holds_put p1 = true -> o' = Some t) -> (holds_get p1 = true -> g' = Some t) ->
  (forall m, p1 = HeadFast m -> l1 <> []) -> (swapping p1 = true -> l1 = []) ->
  (forall c, p1 = SwapDone c -> c = len l1) ->
  (p1 = SwapWait false -> msg_cnt x = 0 /\ nonblock x = false) ->
  (waits_put p1 = true -> full x = true /\ nonblock x = false) ->
  (will_signal (f t) = true -> will_signal p1 = true) ->
  (will_wake (f t) = true -> will_wake p1 = true) ->
  inv pool (mk_state x g' o' fr (at_pc f t p1)) l1 l2.
Proof.
  intros [] Hm Hc Ho Hg Hp Hgt Hf Hs Hd Hgw Hpw Hws Hww. cbn in *.
  constructor; cbn; try done.
  - intros u m. threads; [rewrite Hm|]; intros Hu; destruct (i_msg0 _ _ Hu) as (? & ? & ? & ?);
      split_and!; auto.
  - intros u v m. threads; rewrite ?Hm; intros; eauto.
  - intros u. threads; eauto.
  - intros u. threads; eauto.
  - intros u m. threads; eauto.
  - intros u. threads; eauto.
  - intros u c. threads; eauto.
  - intros u. threads; [auto|]. intros Hu%i_getw0. destruct Hu as [|[v Hv]]; [auto|]. right.
    destruct (decide (v = t)) as [->|]; [exists t; rewrite decide_True by done; auto|].
    exists v. by rewrite decide_False.
  - intros u. threads; [auto|]. intros Hu%i_putw0. destruct Hu as [|[v Hv]]; [auto|]. right.
    destruct (decide (v = t)) as [->|]; [exists t; rewrite decide_True by done; auto|].
    exists v. by rewrite decide_False.
Qed.

(** After [pthread_cond_signal(&get_cond)] nobody waits unsignalled: the only
    thread that can wait there is the owner of [get_mutex]. *)
Lemma signal_get_all pool s l1 l2 f' :
  inv pool s l1 l2 -> signal_get (pcs s) f' -> forall u, f' u <> SwapWait false.
Proof.
  intros I [Hn | t Ht] u; [apply Hn|]. unfold at_pc. case_decide as E; [done|]. intros Hu.
  assert (Some t = Some u) by (rewrite <- (i_get _ _ _ _ I t), <- (i_get _ _ _ _ I u); by rewrite ?Ht, ?Hu).
  congruence.
Qed.

(** A thread that is only signalled stands where it stood. *)
Definition same_place (p p' : pc) : Prop :=
  p' = p \/ (p = SwapWait false /\ p' = SwapWait true) \/
  (exists m, p = PutWait m false /\ p' = PutWait m true) \/
  (exists m, p = HeadWait m false /\ p' = HeadWait m true).

Lemma same_place_signal f f' u : signal_get f f' -> same_place (f u) (f' u).
Proof.
  intros [_ | t Ht]; [by left|]. unfold at_pc. case_decide; [subst; right; left; auto|by left].
Qed.
Lemma same_place_wake b f u : same_place (f u) (broadcast_put b f u).
Proof.
  unfold broadcast_put. destruct b; [|by left]. destruct (f u) as [| | |? []| | | | | |? []| | | | | | | |];
    cbn; first [by left | right; right; left; by eexists | right; right; right; by eexists].
Qed.
Lemma same_place_trans p1 p2 p3 : same_place p1 p2 -> same_place p2 p3 -> same_place p1 p3.
Proof. unfold same_place. naive_solver. Qed.

Lemma same_place_facts p p' : same_place p p' ->
  msg_of p' = msg_of p /\ cleared p' = cleared p /\ holds_put p' = holds_put p /\
  holds_get p' = holds_get p /\ swapping p' = swapping p /\ will_wake p' = will_wake p /\
  will_signal p' = will_signal p /\ (forall m, p' = HeadFast m -> p = HeadFast m) /\
  (forall c, p' = SwapDone c -> p = SwapDone c) /\ (p' = SwapWait false -> p = SwapWait false) /\
  (waits_put p' = true -> waits_put p = true).
Proof. unfold same_place. naive_solver. Qed.

(** Signals alone keep the invariant. *)
Lemma inv_signal pool x g o fr f f' l1 l2 :
  inv pool (mk_state x g o fr f) l1 l2 -> (forall u, same_place (f u) (f' u)) ->
  inv pool (mk_state x g o fr f') l1 l2.
Proof.
  intros [] Hf. assert (F := fun u => same_place_facts _ _ (Hf u)). cbn in *.
  constructor; cbn; try done.
  - intros u m. destruct (F u) as (-> & -> & _). apply i_msg0.
  - intros u v m. destruct (F u) as (-> & _), (F v) as (-> & _). apply i_sep0.
  - intros u. destruct (F u) as (_ & _ & -> & _). apply i_put0.
  - intros u. destruct (F u) as (_ & _ & _ & -> & _). apply i_get0.
  - intros u m Hu. eapply i_fast0, F, Hu.
  - intros u. destruct (F u) as (_ & _ & _ & _ & -> & _). apply i_swap0.
  - intros u c Hu. eapply i_done0, F, Hu.
  - intros u Hu. destruct (i_getw0 u) as [|[v Hv]]; [by apply F|auto|]. right. exists v.
    by destruct (F v) as (_ & _ & _ & _ & _ & _ & -> & _).
  - intros u Hu. destruct (i_putw0 u) as [|[v Hv]]; [by apply F|auto|]. right. exists v.
    by destruct (F v) as (_ & _ & _ & _ & _ & -> & _).
Qed.

(** Writing the link of a message the callers own. *)
Lemma inv_write pool x x' g o fr f m l1 l2 :
  inv pool (mk_state x g o fr f) l1 l2 -> m ∈ fr -> store m None x = Some x' ->
  inv pool (mk_state x' g o fr f) l1 l2 /\ cells x' !! m = Some None.
Proof.
  intros I Hm E. destruct (i_free _ _ _ _ I m Hm) as [Hp Hn].
  pose proof (not_cell _ _ _ _ _ I Hp Hn) as Hcell. destruct (i_pool _ _ _ _ I m Hp) as ([w Hw] & _).
  cbn in Hcell, Hw. rewrite (store_run _ _ _ _ Hw) in E. injection E as <-.
  cbn [cells]. rewrite lookup_insert_eq. split; [|done].
  destruct I. cbn in *. constructor; cbn; try done.
  - destruct i_queue0. constructor; cbn; try done; (eapply mq_chain_frame; [eassumption|]); chain_tac.
  - intros p Hp'. destruct (i_pool0 p Hp') as (H1 & H2). split; [by apply is_Some_insert|done].
  - intros u m' Hu. destruct (i_msg0 _ _ Hu) as (H1 & H2 & H3 & H4). split_and!; [done..|].
    intros Hc. rewrite lookup_insert_ne; [auto|]. by intros <-.
Qed.

(** A call starts with a message of its caller. *)
Lemma inv_take pool x g o fr f t m p1 l1 l2 :
  inv pool (mk_state x g o fr f) l1 l2 -> f t = Idle -> m ∈ fr ->
  (p1 = PutLock m /\ cells x !! m = Some None \/ p1 = HeadLock m) ->
  inv pool (mk_state x g o (fr ∖ {[m]}) (at_pc f t p1)) l1 l2.
Proof.
  intros I Ht Hm Hp1. destruct (i_free _ _ _ _ I m Hm) as [Hp Hn].
  assert (F : msg_of p1 = Some m /\ (cleared p1 = true -> cells x !! m = Some None) /\
    holds_put p1 = false /\ holds_get p1 = false /\ swapping p1 = false /\ waits_put p1 = false /\
    (forall m', p1 <> HeadFast m') /\ (forall c, p1 <> SwapDone c) /\ p1 <> SwapWait false)
    by (destruct Hp1 as [[-> ?] | ->]; split_and!; done).
  destruct F as (F1 & F2 & F3 & F4 & F5 & F6 & F7 & F8 & F9). destruct I. cbn in *.
  constructor; cbn; try done.
  - intros p Hp'. apply i_free0. clear -Hp'. set_solver.
  - intros u m'. unfold at_pc. case_decide as Hu.
    + rewrite F1. intros [= <-]. split_and!; [done|done|clear; set_solver|done].
    + intros H. destruct (i_msg0 _ _ H) as (H1 & H2 & H3 & H4). split_and!; [done|done| |done].
      clear -H3. set_solver.
  - intros u v m'. unfold at_pc. repeat case_decide; subst; rewrite ?F1; intros Hu Hv; simplify_eq;
      [done| | |by eauto]; exfalso; [destruct (i_msg0 _ _ Hv) as (_ & _ & ? & _)|
      destruct (i_msg0 _ _ Hu) as (_ & _ & ? & _)]; done.
  - intros u. unfold at_pc. case_decide; [congruence|auto].
  - intros u. unfold at_pc. case_decide; [congruence|auto].
  - intros u m'. unfold at_pc. case_decide; [by intros ?%F7|eauto].
  - intros u. unfold at_pc. case_decide; [congruence|eauto].
  - intros u c. unfold at_pc. case_decide; [by intros ?%F8|eauto].
  - intros u. unfold at_pc at 1. case_decide; [done|]. intros Hu. destruct (i_getw0 u Hu) as [|[v Hv]];
      [auto|]. right. exists v. unfold at_pc. case_decide; [subst; by rewrite Ht in Hv|done].
  - intros u. unfold at_pc at 1. case_decide; [congruence|]. intros Hu.
    destruct (i_putw0 u Hu) as [|[v Hv]]; [auto|]. right. exists v. unfold at_pc.
    case_decide; [subst; by rewrite Ht in Hv|done].
Qed.

(** A thread puts its message into the queue. *)
Lemma inv_insert pool x x' g g' o o' fr f t m p1 l1 l2 l1' l2' :
  inv pool (mk_state x g o fr f) l1 l2 -> msg_of (f t) = Some m -> will_signal (f t) = false ->
  qinv x' l1' l2' -> qframe x x' (m :: l1 ++ l2) -> msg_cnt x <= msg_cnt x' ->
  (forall p, p ∈ l1' ++ l2' <-> p = m \/ p ∈ l1 ++ l2) ->
  (p1 = PutSignal /\ l1' = l1 /\ g' = g /\ holds_put (f t) = true /\ o' = None) \/
    (p1 = Idle /\ holds_get (f t) = true /\ l1' = m :: l1 /\ g' = None /\ o' = o) ->
  inv pool (mk_state x' g' o' fr (at_pc f t p1)) l1' l2'.
Proof.
  intros I Hmt Hst Hq (Fm & Fn & Fg & Fp & Fc & Fa) Hcnt Hin Hcase.
  destruct (i_msg _ _ _ _ I t m Hmt) as (Hmp & Hmq & Hmf & _).
  assert (Hp1 : msg_of p1 = None /\ holds_put p1 = false /\ holds_get p1 = false /\
    swapping p1 = false /\ waits_put p1 = false /\ (forall m', p1 <> HeadFast m') /\
    (forall c, p1 <> SwapDone c) /\ p1 <> SwapWait false)
    by (destruct Hcase as [(-> & _) | (-> & _)]; split_and!; done).
  destruct Hp1 as (F1 & F2 & F3 & F4 & F5 & F6 & F7 & F8).
  assert (Hget : forall u, u <> t -> holds_get (f u) = true -> g' = Some u /\ l1' = l1 /\ p1 = PutSignal).
  { intros u Hu Hg. pose proof (i_get _ _ _ _ I u Hg) as E1. cbn in E1.
    destruct Hcase as [(-> & -> & -> & _) | (_ & Ht & _)]; [done|].
    pose proof (i_get _ _ _ _ I t Ht) as E2. cbn in E2. congruence. }
  assert (Hput : forall u, u <> t -> holds_put (f u) = true -> o' = Some u).
  { intros u Hu Hg. pose proof (i_put _ _ _ _ I u Hg) as E1. cbn in E1.
    destruct Hcase as [(_ & _ & _ & Ht & _) | (_ & _ & _ & _ & ->)]; [|done].
    pose proof (i_put _ _ _ _ I t Ht) as E2. cbn in E2. congruence. }
  pose proof (fun p => not_cell _ _ _ _ p I) as Hcell. destruct I. cbn in *.
  constructor; cbn; try done.
  - by rewrite Fg, Fp.
  - intros p Hp. destruct (i_pool0 p Hp) as [? ?]. split; [by apply Fa|done].
  - intros p [-> | Hp]%Hin; auto.
  - intros p Hp. destruct (i_free0 p Hp) as [H1 H2]. split; [done|]. intros [-> | ?]%Hin; done.
  - intros u m'. unfold at_pc. case_decide as Hu; [congruence|]. intros H.
    destruct (i_msg0 _ _ H) as (H1 & H2 & H3 & H4).
    assert (m' <> m) by (intros ->; by apply Hu, (i_sep0 _ _ m)).
    split_and!; [done| |done|].
    + intros [-> | ?]%Hin; done.
    + intros Hc. rewrite Fc; [auto|]. specialize (Hcell m' H1 H2). ap.
  - intros u v m'. unfold at_pc. repeat case_decide; subst; try congruence. eauto.
  - intros u. unfold at_pc. case_decide; [congruence|auto].
  - intros u. unfold at_pc. case_decide; [congruence|]. intros H'. by apply Hget.
  - intros u m'. unfold at_pc. case_decide as Hu; [by intros ?%F6|]. intros H'.
    destruct (Hget u Hu) as (_ & -> & _); [by rewrite H'|eauto].
  - intros u. unfold at_pc. case_decide as Hu; [congruence|]. intros H'.
    destruct (Hget u Hu) as (_ & -> & _); [by destruct (f u)|eauto].
  - intros u c. unfold at_pc. case_decide as Hu; [by intros ?%F7|]. intros H'.
    destruct (Hget u Hu) as (_ & -> & _); [by rewrite H'|eauto].
  - intros u. unfold at_pc at 1. case_decide as Hu; [done|]. intros H'.
    destruct (Hget u Hu) as (_ & _ & ->); [by rewrite H'|]. right. exists t. unfold at_pc.
    by rewrite decide_True.
  - intros u. unfold at_pc at 1. case_decide as Hu; [congruence|]. intros H'.
    destruct (i_putw0 u H') as [[Hf Hn]|[v Hv]].
    + left. unfold full in *. rewrite Fm, Fn. split; [lia|done].
    + right. exists v. unfold at_pc. case_decide; [|done]. subst. by destruct (f t).
Qed.

(** A consumer takes the first message and releases [get_mutex]. *)
Lemma inv_remove pool x x' g o fr f t m l1 l2 :
  inv pool (mk_state x g o fr f) (m :: l1) l2 -> holds_get (f t) = true -> msg_of (f t) = None ->
  will_signal (f t) = false -> holds_put (f t) = false ->
  qinv x' l1 l2 -> qframe x x' (m :: l1 ++ l2) -> msg_cnt x' = msg_cnt x ->
  inv pool (mk_state x' None o (fr ∪ {[m]}) (at_pc f t Idle)) l1 l2.
Proof.
  intros I Htg Htm Hts Htp Hq (Fm & Fn & Fg & Fp & Fc & Fa) Hcnt.
  assert (Hget : forall u, u <> t -> holds_get (f u) = true -> False).
  { intros u Hu H. pose proof (i_get _ _ _ _ I u H) as E1. pose proof (i_get _ _ _ _ I t Htg) as E2.
    cbn in *. congruence. }
  assert (Hm : m ∉ l1 ++ l2).
  { pose proof (q_nodup _ _ _ (i_queue _ _ _ _ I)) as Hd. cbn in Hd.
    apply list.NoDup_cons in Hd as [_ Hd]. apply list.NoDup_cons in Hd as [_ Hd].
    by apply list.NoDup_cons in Hd as [Hd _]. }
  assert (Hmp : m ∈ pool) by (apply (i_in _ _ _ _ I); cbn; by left).
  pose proof (fun p => not_cell _ _ _ _ p I) as Hcell. destruct I. cbn in *.
  constructor; cbn; try done.
  - by rewrite Fg, Fp.
  - intros p Hp. destruct (i_pool0 p Hp) as [? ?]. split; [by apply Fa|done].
  - intros p Hp. apply i_in0. by right.
  - intros p [Hp | ->%elem_of_singleton]%elem_of_union; [|done].
    destruct (i_free0 p Hp) as [H1 H2]. split; [done|]. ap.
  - intros u m'. unfold at_pc. case_decide as Hu; [done|]. intros H.
    destruct (i_msg0 _ _ H) as (H1 & H2 & H3 & H4). split_and!; [done| | |].
    + ap.
    + rewrite not_elem_of_union, not_elem_of_singleton. split; [done|]. intros ->.
      apply H2. by left.
    + intros Hc. rewrite Fc; [auto|]. apply Hcell; done.
  - intros u v m'. unfold at_pc. repeat case_decide; subst; try done. eauto.
  - intros u. unfold at_pc. case_decide; [done|auto].
  - intros u. unfold at_pc. case_decide as Hu; [done|]. intros H. by destruct (Hget u Hu).
  - intros u m'. unfold at_pc. case_decide as Hu; [done|]. intros H.
    destruct (Hget u Hu). by rewrite H.
  - intros u. unfold at_pc. case_decide as Hu; [done|]. intros H.
    destruct (Hget u Hu). by destruct (f u).
  - intros u c. unfold at_pc. case_decide as Hu; [done|]. intros H.
    destruct (Hget u Hu). by rewrite H.
  - intros u. unfold at_pc at 1. case_decide as Hu; [done|]. intros H.
    destruct (Hget u Hu). by rewrite H.
  - intros u. unfold at_pc at 1. case_decide as Hu; [done|]. intros H.
    destruct (i_putw0 u H) as [[Hf Hn]|[v Hv]].
    + left. unfold full in *. rewrite Fm, Fn, Hcnt. done.
    + right. exists v. unfold at_pc. case_decide; [|done]. subst. by destruct (f t).
Qed.

(** A consumer swaps the two lists and wakes the producers if they were stopped. *)
Lemma inv_swapped pool x x' g o fr f t l2 :
  inv pool (mk_state x g o fr f) [] l2 -> f t = SwapTest -> swap_body x = (len l2, full x, x') ->
  inv pool (mk_state x' g None fr (at_pc (broadcast_put (full x) f) t (SwapDone (len l2)))) l2 [].
Proof.
  intros I Ht E.
  destruct (swap_body_ok x l2 (i_queue _ _ _ _ I)) as (x1 & E1 & Hq & Hmax & Hnb & Hc & Hg & Hp & Hcnt).
  rewrite E in E1. injection E1 as <-.
  assert (I' : inv pool (mk_state x g o fr (broadcast_put (full x) f)) [] l2).
  { eapply inv_signal; [exact I|]. intros u. apply same_place_wake. }
  assert (Ht' : broadcast_put (full x) f t = SwapTest) by (unfold broadcast_put; destruct (full x); by rewrite ?Ht).
  assert (Hwait : forall u, waits_put (broadcast_put (full x) f u) = true -> full x = false).
  { intros u. destruct (full x); [|done]. cbn. by destruct (f u) as [| | |? []| | | | | |? []| | | | | | | |]. }
  revert Ht' Hwait I'. generalize (broadcast_put (full x) f). clear f I Ht. intros f Ht Hwait I.
  assert (Hget : forall u, u <> t -> holds_get (f u) = true -> False).
  { intros u Hu H. pose proof (i_get _ _ _ _ I u H) as E1. pose proof (i_get _ _ _ _ I t) as E2.
    cbn in E1, E2. rewrite Ht in E2. specialize (E2 eq_refl). congruence. }
  assert (Hput : forall u, u <> t -> holds_put (f u) = true -> False).
  { intros u Hu H. pose proof (i_put _ _ _ _ I u H) as E1. pose proof (i_put _ _ _ _ I t) as E2.
    cbn in E1, E2. rewrite Ht in E2. specialize (E2 eq_refl). congruence. }
  destruct I. cbn in *. constructor; cbn; rewrite ?app_nil_r; try done.
  - rewrite Hg, Hp. tauto.
  - by rewrite Hc.
  - intros u m'. unfold at_pc. case_decide as Hu; [done|]. rewrite Hc. auto.
  - intros u v m'. unfold at_pc. repeat case_decide; subst; try done. eauto.
  - intros u. unfold at_pc. case_decide as Hu; [done|]. intros H. by destruct (Hput u Hu).
  - intros u. unfold at_pc. case_decide as Hu; [subst; rewrite <- (i_get0 t); by rewrite ?Ht|].
    intros H. by destruct (Hget u Hu).
  - intros u m'. unfold at_pc. case_decide as Hu; [done|]. intros H. destruct (Hget u Hu). by rewrite H.
  - intros u. unfold at_pc. case_decide as Hu; [done|]. intros H. destruct (Hget u Hu). by destruct (f u).
  - intros u c. unfold at_pc. case_decide as Hu; [by intros [= <-]|]. intros H.
    destruct (Hget u Hu). by rewrite H.
  - intros u. unfold at_pc at 1. case_decide as Hu; [done|]. intros H. destruct (Hget u Hu). by rewrite H.
  - intros u. unfold at_pc at 1. case_decide as Hu; [done|]. intros H.
    pose proof (Hwait u H). destruct (i_putw0 u H) as [[? _]|[v Hv]]; [congruence|].
    right. exists v. unfold at_pc. case_decide; [subst; by rewrite Ht in Hv|done].
Qed.

(** Turning the non-blocking mode on or off. *)
Lemma inv_nonblock pool x g o fr f b l1 l2 :
  inv pool (mk_state x g o fr f) l1 l2 ->
  b = false \/ (exists u, will_wake (f u) = true) ->
  inv pool (mk_state (set_nonblock b x) g o fr f) l1 l2.
Proof.
  intros [] Hb. cbn in *. constructor; cbn; try done.
  - by destruct i_queue0; constructor.
  - intros u Hu. destruct Hb as [-> | [v Hv]]; [|right; exists v; by destruct (f v)].
    destruct (i_getw0 u Hu) as [[? _]|]; [by left|by right].
  - intros u Hu. destruct Hb as [-> | [v Hv]]; [|right; by exists v].
    destruct (i_putw0 u Hu) as [[? _]|]; [by left|by right].
Qed.

(** ** Every step keeps the invariant and is a step of the abstract queue *)

Ltac move_tac Ht := eapply inv_move; [eassumption|rewrite ?Ht; try done..]; cbn.

(** Threads other than the one that holds a mutex do not hold it. *)
Lemma others_put pool x g o fr f t l1 l2 u o' :
  inv pool (mk_state x g o fr f) l1 l2 -> holds_put (f t) = true -> u <> t ->
  holds_put (f u) = true -> o' = Some u.
Proof.
  intros I Ht Hu H. pose proof (i_put _ _ _ _ I t Ht). pose proof (i_put _ _ _ _ I u H). cbn in *. congruence.
Qed.
Lemma others_get pool x g o fr f t l1 l2 u g' :
  inv pool (mk_state x g o fr f) l1 l2 -> holds_get (f t) = true -> u <> t ->
  holds_get (f u) = true -> g' = Some u.
Proof.
  intros I Ht Hu H. pose proof (i_get _ _ _ _ I t Ht). pose proof (i_get _ _ _ _ I u H). cbn in *. congruence.
Qed.

Lemma step_put_inv pool t s e s' l1 l2 :
  inv pool s l1 l2 -> step_put t s e s' ->
  exists l1' l2', inv pool s' l1' l2' /\ deque_step (l1 ++ l2) e (l1' ++ l2').
Proof.
  intros I Hstep. inversion Hstep as [x x' g o fr f m Ht Hm E|x g fr f m Ht|x g o fr f m Ht Hw
    |x g fr f m b Ht|x x' g o fr f m Ht Hw E|x g o fr f f' Ht Hsig]; subst; clear Hstep.
  - exists l1, l2. split; [|constructor]. destruct (inv_write _ _ _ _ _ _ _ _ _ _ I Hm E) as [I' Hc].
    eapply inv_take; [exact I'|done|done|by left].
  - exists l1, l2. split; [|constructor]. move_tac Ht.
    + intros u _ Hu. by apply (i_put _ _ _ _ I) in Hu.
    + intros u _ Hu. by apply (i_get _ _ _ _ I) in Hu.
  - exists l1, l2. split; [|constructor]. apply andb_true_iff in Hw as [Hfl Hnb%negb_true_iff]. move_tac Ht.
    + intros u Hu Hh. eapply others_put; [exact I|by rewrite Ht|done..].
    + intros u _ Hu. by apply (i_get _ _ _ _ I) in Hu.
  - exists l1, l2. split; [|constructor]. move_tac Ht.
    + intros u _ Hu. by apply (i_put _ _ _ _ I) in Hu.
    + intros u _ Hu. by apply (i_get _ _ _ _ I) in Hu.
  - destruct (i_msg _ _ _ _ I t m) as (Hmp & Hmq & _ & Hc); [cbn; by rewrite Ht|].
    cbn in Hc. rewrite Ht in Hc.
    destruct (put_body_ok x l1 l2 m (i_queue _ _ _ _ I)) as (x1 & E1 & Hq & (F1 & F2 & F3 & F4 & F5 & F6) & Hcnt);
      [by apply (not_cell _ _ _ _ _ I)|by apply Hc|by eapply queue_size|].
    rewrite E in E1. injection E1 as <-. exists l1, (l2 ++ [m]). split; [|rewrite app_assoc; constructor].
    eapply inv_insert; [exact I|by rewrite Ht|by rewrite Ht|exact Hq| |lia| |].
    + unfold qframe. split_and!; try done. intros p Hp. apply F5. ap.
    + intros p. rewrite !elem_of_app, list_elem_of_singleton. tauto.
    + left. by rewrite Ht.
  - exists l1, l2. split; [|constructor].
    pose proof (signal_get_all _ _ _ _ f' I Hsig) as Hnone.
    assert (I' : inv pool (mk_state x g o fr f') l1 l2).
    { eapply inv_signal; [exact I|]. intros u. by apply same_place_signal. }
    assert (Ht' : f' t = PutSignal).
    { destruct (same_place_signal _ _ t Hsig) as [E | [[E _] | [(? & E & _) | (? & E & _)]]]; congruence. }
    clear I Hsig Ht. destruct I'. cbn in *. constructor; cbn; try done.
    + intros u m. threads; [done|apply i_msg0].
    + intros u v m. threads; try done. apply i_sep0.
    + intros u. threads; [done|auto].
    + intros u. threads; [done|auto].
    + intros u m. threads; [done|eauto].
    + intros u. threads; [done|eauto].
    + intros u c. threads; [done|eauto].
    + intros u. threads; [done|]. intros Hu. by destruct (Hnone u).
    + intros u. unfold at_pc at 1. case_decide; [done|]. intros Hu.
      destruct (i_putw0 u Hu) as [|[v Hv]]; [auto|]. right. exists v. unfold at_pc.
      case_decide; [subst; by rewrite Ht' in Hv|done].
Qed.

Lemma load_get x l1 l2 : qinv x l1 l2 -> load (get_head x) x = Some (head l1).
Proof. intros [H _ _ _ _]. apply (chain_head _ _ _ H). Qed.

Lemma step_put_head_inv pool t s e s' l1 l2 :
  inv pool s l1 l2 -> step_put_head t s e s' ->
  exists l1' l2', inv pool s' l1' l2' /\ deque_step (l1 ++ l2) e (l1' ++ l2').
Proof.
  intros I Hstep. inversion Hstep as [x g o fr f m Ht Hm|x g fr f m Ht|x o fr f m y Ht Hl
    |x x' g o fr f m Ht E|x g o fr f m Ht Hl|x g o fr f m Ht Hw|x g fr f m b Ht
    |x x' g o fr f m v Ht Hw E Hl]; subst; clear Hstep.
  - exists l1, l2. split; [|constructor]. eapply inv_take; [exact I|done|done|by right].
  - exists l1, l2. split; [|constructor]. move_tac Ht.
    + intros u _ Hu. by apply (i_put _ _ _ _ I) in Hu.
    + intros u _ Hu. by apply (i_get _ _ _ _ I) in Hu.
  - exists l1, l2. split; [|constructor]. pose proof (load_get _ _ _ (i_queue _ _ _ _ I)) as Hl'.
    cbn in Hl'. rewrite Hl in Hl'. move_tac Ht.
    + intros u Hu Hh. eapply others_put; [exact I|by rewrite Ht|done..].
    + intros u _ Hu. by apply (i_get _ _ _ _ I) in Hu.
    + intros m' _ ->. done.
  - destruct (i_msg _ _ _ _ I t m) as (Hmp & Hmq & _ & _); [cbn; by rewrite Ht|].
    destruct (put_head_fast_ok x l1 l2 m (i_queue _ _ _ _ I)) as (x1 & E1 & Hq & Hfr & Hcnt);
      [by apply (not_cell _ _ _ _ _ I)|apply (i_pool _ _ _ _ I m Hmp)|].
    rewrite E in E1. injection E1 as <-. exists (m :: l1), l2. split; [|constructor].
    eapply inv_insert; [exact I|by rewrite Ht|by rewrite Ht|exact Hq|exact Hfr|lia| |].
    + intros p. cbn. rewrite elem_of_cons. tauto.
    + right. by rewrite Ht.
  - exists l1, l2. split; [|constructor]. move_tac Ht.
    + intros u Hu Hh. by apply (i_put _ _ _ _ I) in Hh.
    + intros u _ Hu. by apply (i_get _ _ _ _ I) in Hu.
    + intros _. pose proof (i_put _ _ _ _ I t) as Hp. cbn in Hp. rewrite Ht in Hp. auto.
  - exists l1, l2. split; [|constructor]. apply andb_true_iff in Hw as [Hfl Hnb%negb_true_iff]. move_tac Ht.
    + intros u Hu Hh. eapply others_put; [exact I|by rewrite Ht|done..].
    + intros u _ Hu. by apply (i_get _ _ _ _ I) in Hu.
  - exists l1, l2. split; [|constructor]. move_tac Ht.
    + intros u _ Hu. by apply (i_put _ _ _ _ I) in Hu.
    + intros u _ Hu. by apply (i_get _ _ _ _ I) in Hu.
  - destruct (i_msg _ _ _ _ I t m) as (Hmp & Hmq & _ & _); [cbn; by rewrite Ht|].
    destruct (put_head_slow_ok x l1 l2 m (i_queue _ _ _ _ I)) as (x1 & E1 & Hq & Hfr & Hcnt);
      [by apply (not_cell _ _ _ _ _ I)|apply (i_pool _ _ _ _ I m Hmp)|by eapply queue_size|].
    rewrite E in E1. injection E1 as <-. exists l1, (m :: l2).
    pose proof (load_get _ _ _ (i_queue _ _ _ _ I)) as Hl'. cbn in Hl'. rewrite Hl in Hl'.
    injection Hl' as ->. split.
    + eapply inv_insert; [exact I|by rewrite Ht|by rewrite Ht|exact Hq|exact Hfr|lia| |].
      * intros p. rewrite !elem_of_app, elem_of_cons. tauto.
      * left. by rewrite Ht.
    + destruct l1 as [|y l1]; constructor. done.
Qed.

Lemma step_get_inv pool t s e s' l1 l2 :
  inv pool s l1 l2 -> step_get t s e s' ->
  exists l1' l2', inv pool s' l1' l2' /\ deque_step (l1 ++ l2) e (l1' ++ l2').
Proof.
  intros I Hstep. inversion Hstep as [x g o fr f Ht|x o fr f Ht|x x' g o fr f y m Ht Hl E|x g o fr f Ht Hl
    |x g fr f Ht|x g o fr f Ht Hw|x g fr f b Ht|x x' g o fr f cnt b Ht Hw E|x x' g o fr f cnt m Ht Hc E
    |x g o fr f Ht]; subst; clear Hstep.
  - exists l1, l2. split; [|constructor]. move_tac Ht.
    + intros u _ Hu. by apply (i_put _ _ _ _ I) in Hu.
    + intros u _ Hu. by apply (i_get _ _ _ _ I) in Hu.
  - exists l1, l2. split; [|constructor]. move_tac Ht.
    + intros u _ Hu. by apply (i_put _ _ _ _ I) in Hu.
    + intros u _ Hu. by apply (i_get _ _ _ _ I) in Hu.
  - pose proof (load_get _ _ _ (i_queue _ _ _ _ I)) as Hl'. cbn in Hl'. rewrite Hl in Hl'.
    destruct l1 as [|z l1]; [done|]. destruct (get_body_ok x z l1 l2 (i_queue _ _ _ _ I)) as (x1 & E1 & Hq & Hfr & Hcnt).
    rewrite E in E1. injection E1 as <- <-. exists l1, l2. split; [|constructor].
    eapply inv_remove; [exact I|by rewrite Ht..|exact Hq|exact Hfr|done].
  - exists l1, l2. split; [|constructor]. pose proof (load_get _ _ _ (i_queue _ _ _ _ I)) as Hl'.
    cbn in Hl'. rewrite Hl in Hl'. move_tac Ht.
    + intros u _ Hu. by apply (i_put _ _ _ _ I) in Hu.
    + intros u _ Hu. by apply (i_get _ _ _ _ I) in Hu.
    + intros _. pose proof (i_get _ _ _ _ I t) as Hp. cbn in Hp. rewrite Ht in Hp. auto.
    + intros _. by destruct l1.
  - exists l1, l2. split; [|constructor]. move_tac Ht.
    + intros u _ Hu. by apply (i_put _ _ _ _ I) in Hu.
    + intros u _ Hu. by apply (i_get _ _ _ _ I) in Hu.
    + intros _. pose proof (i_get _ _ _ _ I t) as Hp. cbn in Hp. rewrite Ht in Hp. auto.
    + intros _. apply (i_swap _ _ _ _ I t). cbn. by rewrite Ht.
  - exists l1, l2. split; [|constructor].
    apply andb_true_iff in Hw as [Hz%Z.eqb_eq Hnb%negb_true_iff]. move_tac Ht.
    + intros u Hu Hh. eapply others_put; [exact I|by rewrite Ht|done..].
    + intros u _ Hu. by apply (i_get _ _ _ _ I) in Hu.
    + intros _. pose proof (i_get _ _ _ _ I t) as Hp. cbn in Hp. rewrite Ht in Hp. auto.
    + intros _. apply (i_swap _ _ _ _ I t). cbn. by rewrite Ht.
  - exists l1, l2. split; [|constructor]. move_tac Ht.
    + intros u _ Hu. by apply (i_put _ _ _ _ I) in Hu.
    + intros u _ Hu. by apply (i_get _ _ _ _ I) in Hu.
    + intros _. pose proof (i_get _ _ _ _ I t) as Hp. cbn in Hp. rewrite Ht in Hp. auto.
    + intros _. apply (i_swap _ _ _ _ I t). cbn. by rewrite Ht.
  - assert (l1 = []) as -> by (apply (i_swap _ _ _ _ I t); cbn; by rewrite Ht).
    destruct (swap_body_ok x l2 (i_queue _ _ _ _ I)) as (x1 & E1 & _).
    pose proof E as E'. rewrite E1 in E'. injection E' as <- <- <-.
    exists l2, []. split; [by eapply inv_swapped|]. rewrite app_nil_r. cbn.
    destruct l2; cbn; constructor.
  - assert (Hd : cnt = len l1) by (apply (i_done _ _ _ _ I t); done).
    destruct l1 as [|z l1]; [cbn in Hd; lia|].
    destruct (get_body_ok x z l1 l2 (i_queue _ _ _ _ I)) as (x1 & E1 & Hq & Hfr & Hcnt).
    rewrite E in E1. injection E1 as <- <-. exists l1, l2. split; [|constructor].
    eapply inv_remove; [exact I|by rewrite Ht..|exact Hq|exact Hfr|done].
  - exists l1, l2. split; [|constructor]. move_tac Ht.
    + intros u _ Hu. by apply (i_put _ _ _ _ I) in Hu.
    + intros u Hu Hh. eapply others_get; [exact I|by rewrite Ht|done..].
Qed.

Lemma step_block_inv pool t s e s' l1 l2 :
  inv pool s l1 l2 -> step_block t s e s' ->
  exists l1' l2', inv pool s' l1' l2' /\ deque_step (l1 ++ l2) e (l1' ++ l2').
Proof.
  intros I Hstep. inversion Hstep as [x g o fr f Ht|x g fr f Ht|x g o fr f f' Ht Hsig|x g o fr f Ht];
    subst; clear Hstep; exists l1, l2; (split; [|constructor]).
  - apply inv_nonblock; [|right; exists t; unfold at_pc; by rewrite decide_True]. move_tac Ht.
    + intros u _ Hu. by apply (i_put _ _ _ _ I) in Hu.
    + intros u _ Hu. by apply (i_get _ _ _ _ I) in Hu.
  - move_tac Ht.
    + intros u _ Hu. by apply (i_put _ _ _ _ I) in Hu.
    + intros u _ Hu. by apply (i_get _ _ _ _ I) in Hu.
  - pose proof (signal_get_all _ _ _ _ f' I Hsig) as Hnone.
    assert (Hsp : forall u, same_place (f u) (broadcast_put true f' u)).
    { intros u. eapply same_place_trans; [by apply same_place_signal|apply same_place_wake]. }
    assert (I' : inv pool (mk_state x g o fr (broadcast_put true f')) l1 l2) by (by eapply inv_signal).
    assert (Hg : forall u, broadcast_put true f' u <> SwapWait false).
    { intros u Hu. apply (Hnone u). cbn in Hu. by destruct (f' u). }
    assert (Hp : forall u, waits_put (broadcast_put true f' u) = false).
    { intros u. cbn. by destruct (f' u) as [| | |? []| | | | | |? []| | | | | | | |]. }
    assert (Ht' : broadcast_put true f' t = BlockIn).
    { destruct (Hsp t) as [E | [[E _] | [(? & E & _) | (? & E & _)]]]; congruence. }
    revert I' Hg Hp Ht'. generalize (broadcast_put true f'). clear. intros f I Hg Hp Ht.
    assert (Hothers : forall u, holds_put (f t) = true -> u <> t -> holds_put (f u) = true -> None = Some u)
      by (intros u; exact (others_put _ _ _ _ _ _ t _ _ u None I)).
    destruct I. cbn in *.
    constructor; cbn; try done.
    + intros u m. threads; [done|apply i_msg0].
    + intros u v m. threads; try done. apply i_sep0.
    + intros u. unfold at_pc. case_decide as Hu; [done|]. apply Hothers; [by rewrite Ht|done].
    + intros u. threads; [done|auto].
    + intros u m. threads; [done|eauto].
    + intros u. threads; [done|eauto].
    + intros u c. threads; [done|eauto].
    + intros u. threads; [done|]. intros Hu. by destruct (Hg u).
    + intros u. threads; [done|]. rewrite Hp. done.
  - apply inv_nonblock; [done|by left].
Qed.

Lemma step_inv pool t s e s' l1 l2 :
  inv pool s l1 l2 -> step t s e s' ->
  exists l1' l2', inv pool s' l1' l2' /\ deque_step (l1 ++ l2) e (l1' ++ l2').
Proof.
  intros I [H | [H | [H | H]]]; [eapply step_put_inv|eapply step_put_head_inv|eapply step_get_inv|
    eapply step_block_inv]; done.
Qed.

Lemma initial_inv maxlen pool :
  (head1 ∉ pool) -> (head2 ∉ pool) -> Z.of_nat (size pool) < 2 ^ 64 -> inv pool (initial maxlen pool) [] [].
Proof.
  intros H1 H2 Hs. unfold initial, msgqueue_create. constructor; cbn; try done.
  - constructor; cbn; try done.
    + by rewrite lookup_insert_eq.
    + rewrite lookup_insert_ne by done. by rewrite lookup_insert_eq.
    + apply list.NoDup_cons. split; [|apply list.NoDup_singleton]. by rewrite list_elem_of_singleton.
  - by left.
  - intros p Hp. assert (p <> head1) by (intros ->; done). assert (p <> head2) by (intros ->; done).
    split; [|done]. rewrite !lookup_insert_ne by congruence. exists None. by apply lookup_gset_to_gmap_Some.
  - intros p Hp. by apply elem_of_nil in Hp.
  - intros p Hp. by split; [|apply list.not_elem_of_nil].
Qed.

Lemma exec_inv maxlen pool es s :
  (head1 ∉ pool) -> (head2 ∉ pool) -> Z.of_nat (size pool) < 2 ^ 64 ->
  exec (initial maxlen pool) es s ->
  exists l1 l2, inv pool s l1 l2 /\ deque_run [] es (l1 ++ l2).
Proof.
  intros H1 H2 Hs. induction 1 as [|es s e s' t _ (l1 & l2 & I & Hr) Hst].
  - exists [], []. split; [by apply initial_inv|constructor].
  - destruct (step_inv _ _ _ _ _ _ _ I Hst) as (l1' & l2' & I' & Hd). exists l1', l2'.
    split; [done|]. by econstructor.
Qed.

(** ** The properties *)

(** The messages the events insert, and those they take, in order. *)
Definition inserted (e : event) : list loc :=
  match e with EPut m | EHead m | EMiddle m => [m] | _ => [] end.
Definition taken (e : event) : list loc := match e with EGet m => [m] | _ => [] end.
Definition is_put_head (e : event) : bool := match e with EHead _ | EMiddle _ => true | _ => false end.

Lemma deque_run_perm l es l' :
  deque_run l es l' -> l ++ concat (map inserted es) ≡ₚ concat (map taken es) ++ l'.
Proof.
  induction 1 as [l|l es l1 e l2 _ IH Hs]; cbn; [by rewrite app_nil_r|].
  rewrite !map_app, !concat_app, app_assoc, IH. cbn. rewrite !app_nil_r.
  rewrite <- !app_assoc. apply Permutation_app_head.
  inversion Hs; subst; cbn; rewrite ?app_nil_r; solve_Permutation.
Qed.

Lemma deque_run_fifo l es l' :
  deque_run l es l' -> existsb is_put_head es = false ->
  l ++ concat (map inserted es) = concat (map taken es) ++ l'.
Proof.
  induction 1 as [l|l es l1 e l2 _ IH Hs]; cbn; intros Hn; [by rewrite app_nil_r|].
  rewrite existsb_app in Hn. apply orb_false_iff in Hn as [Hn1 Hn2].
  rewrite !map_app, !concat_app, app_assoc, (IH Hn1). cbn. rewrite !app_nil_r, <- !app_assoc. f_equal.
  inversion Hs; subst; cbn in *; rewrite ?app_nil_r; done.
Qed.

(** Whether a thread can go on without waiting for a mutex. *)
Definition running (p : pc) : bool :=
  match p with
  | PutLock _ | PutWait _ _ | HeadLock _ | HeadWait _ _ | HeadTest _ | GetLock | SwapLock | SwapWait _ | BlockLock => false
  | _ => true
  end.

Lemma signal_get_total pool s l1 l2 : inv pool s l1 l2 -> exists f', signal_get (pcs s) f'.
Proof.
  intros I. destruct (get_mutex s) as [v|] eqn:E.
  - destruct (decide (pcs s v = SwapWait false)) as [Hv|Hv].
    + eexists. by apply (signal_one _ v).
    + exists (pcs s). constructor. intros t Ht. pose proof (i_get _ _ _ _ I t) as Hg.
      rewrite Ht in Hg. specialize (Hg eq_refl). congruence.
  - exists (pcs s). constructor. intros t Ht. pose proof (i_get _ _ _ _ I t) as Hg.
    rewrite Ht in Hg. specialize (Hg eq_refl). congruence.
Qed.

Lemma inv_progress pool s l1 l2 t :
  inv pool s l1 l2 -> running (pcs s t) = true -> exists e s', step t s e s'.
Proof.
  intros I Hr. destruct (signal_get_total _ _ _ _ I) as [f' Hf']. destruct s as [x g o fr f]. cbn in *.
  destruct (f t) eqn:Ht; cbn in Hr; try done.
  - eexists _, _. right. right. left. by apply get_start.
  - destruct (full x && negb (nonblock x)) eqn:Hw.
    + eexists _, _. left. by eapply put_wait.
    + destruct (i_msg _ _ _ _ I t m) as (Hmp & Hmq & _ & Hc); [cbn; by rewrite Ht|].
      cbn in Hc. rewrite Ht in Hc.
      destruct (put_body_ok x l1 l2 m (i_queue _ _ _ _ I)) as (x1 & E1 & _);
        [by apply (not_cell _ _ _ _ _ I)|by apply Hc|by eapply queue_size|].
      eexists _, _. left. by eapply put_done.
  - eexists _, _. left. by eapply put_signal.
  - destruct (i_msg _ _ _ _ I t m) as (Hmp & Hmq & _ & _); [cbn; by rewrite Ht|].
    destruct (put_head_fast_ok x l1 l2 m (i_queue _ _ _ _ I)) as (x1 & E1 & _);
      [by apply (not_cell _ _ _ _ _ I)|apply (i_pool _ _ _ _ I m Hmp)|].
    eexists _, _. right. left. by eapply head_fast.
  - destruct (full x && negb (nonblock x)) eqn:Hw.
    + eexists _, _. right. left. by eapply head_wait.
    + destruct (i_msg _ _ _ _ I t m) as (Hmp & Hmq & _ & _); [cbn; by rewrite Ht|].
      destruct (put_head_slow_ok x l1 l2 m (i_queue _ _ _ _ I)) as (x1 & E1 & _);
        [by apply (not_cell _ _ _ _ _ I)|apply (i_pool _ _ _ _ I m Hmp)|by eapply queue_size|].
      eexists _, _. right. left. eapply head_done; try done. apply (load_get _ _ _ (i_queue _ _ _ _ I)).
  - pose proof (load_get _ _ _ (i_queue _ _ _ _ I)) as Hl. cbn in Hl. destruct l1 as [|m l1].
    + eexists _, _. right. right. left. by eapply get_swap.
    + destruct (get_body_ok x m l1 l2 (i_queue _ _ _ _ I)) as (x1 & E1 & _).
      eexists _, _. right. right. left. by eapply get_first.
  - destruct ((msg_cnt x =? 0) && negb (nonblock x)) eqn:Hw.
    + eexists _, _. right. right. left. by eapply swap_wait.
    + destruct (swap_body x) as [[cnt b] x'] eqn:E.
      eexists _, _. right. right. left. by eapply swap_done.
  - assert (Hd : cnt = len l1) by (apply (i_done _ _ _ _ I t); done). destruct l1 as [|m l1].
    + subst. eexists _, _. right. right. left. by eapply get_null.
    + destruct (get_body_ok x m l1 l2 (i_queue _ _ _ _ I)) as (x1 & E1 & _).
      eexists _, _. right. right. left. eapply get_second; [done|cbn in *; lia|done].
  - eexists _, _. right. right. right. by eapply block_wake.
Qed.

(** What an operation leaves of the bound, the mode and the count. *)
Lemma store_bounds p v x x' : store p v x = Some x' ->
  msg_max x' = msg_max x /\ nonblock x' = nonblock x /\ msg_cnt x' = msg_cnt x.
Proof. unfold store. case_decide; [|done]. by intros [= <-]. Qed.
Lemma put_body_bounds link x x' : put_body link x = Some x' ->
  msg_max x' = msg_max x /\ nonblock x' = nonblock x /\ msg_cnt x' = u64 (msg_cnt x + 1).
Proof.
  unfold put_body. intros (y & E & [= <-])%bind_Some. apply store_bounds in E as (? & ? & E). cbn. by rewrite E.
Qed.
Lemma put_head_fast_bounds link x x' : put_head_fast link x = Some x' ->
  msg_max x' = msg_max x /\ nonblock x' = nonblock x /\ msg_cnt x' = msg_cnt x.
Proof.
  unfold put_head_fast. intros (v & _ & H)%bind_Some. apply bind_Some in H as (y & E1 & E2).
  apply store_bounds in E1 as (E1 & E1' & E1''). apply store_bounds in E2 as (E2 & E2' & E2'').
  repeat split; congruence.
Qed.
Lemma put_head_slow_bounds link x x' : put_head_slow link x = Some x' ->
  msg_max x' = msg_max x /\ nonblock x' = nonblock x /\ msg_cnt x' = u64 (msg_cnt x + 1).
Proof.
  unfold put_head_slow. intros (v & _ & H)%bind_Some. apply bind_Some in H as (y & E1 & H).
  apply bind_Some in H as (z & E2 & [= <-]).
  apply store_bounds in E1 as (E1 & E1' & E1''). apply store_bounds in E2 as (E2 & E2' & E2'').
  destruct v; cbn in *; repeat split; congruence.
Qed.
Lemma get_body_bounds x m x' : get_body x = Some (m, x') ->
  msg_max x' = msg_max x /\ nonblock x' = nonblock x /\ msg_cnt x' = msg_cnt x.
Proof.
  unfold get_body. intros (v & _ & H)%bind_Some. apply bind_Some in H as (k & _ & H).
  apply bind_Some in H as (y & _ & H). apply bind_Some in H as (z & E & [= <- <-]). by apply store_bounds in E.
Qed.

Definition bounded (maxlen : Z) (x : queue) : Prop :=
  msg_max x = maxlen /\ nonblock x = false /\ 0 <= msg_cnt x <= maxlen.

Lemma bounded_incr maxlen x x' : 1 <= maxlen < 2 ^ 64 -> bounded maxlen x ->
  full x && negb (nonblock x) = false ->
  msg_max x' = msg_max x -> nonblock x' = nonblock x -> msg_cnt x' = u64 (msg_cnt x + 1) ->
  bounded maxlen x'.
Proof.
  intros Hm (E1 & E2 & E3) Hf. unfold bounded. rewrite E2 in Hf. unfold full, u64, wrap in *. rewrite E1 in *.
  rewrite andb_true_r in Hf. rewrite Z.mod_small in Hf by lia. intros -> -> ->.
  rewrite Z.mod_small by lia. lia.
Qed.
Lemma bounded_same maxlen x x' : bounded maxlen x ->
  msg_max x' = msg_max x -> nonblock x' = nonblock x -> msg_cnt x' = msg_cnt x -> bounded maxlen x'.
Proof. intros (E1 & E2 & E3). unfold bounded. intros -> -> ->. done. Qed.

Lemma step_bounded maxlen t s e s' :
  1 <= maxlen < 2 ^ 64 -> bounded maxlen (q s) -> e <> ENonblock true -> step t s e s' -> bounded maxlen (q s').
Proof.
  intros Hm B Hn [H | [H | [H | H]]]; destruct H; cbn in *; try done.
  - destruct (store_bounds _ _ _ _ H1) as (? & ? & ?). by eapply bounded_same.
  - destruct (put_body_bounds _ _ _ H1) as (? & ? & ?). by eapply bounded_incr.
  - destruct (put_head_fast_bounds _ _ _ H0) as (? & ? & ?). by eapply bounded_same.
  - destruct (put_head_slow_bounds _ _ _ H1) as (? & ? & ?). by eapply bounded_incr.
  - destruct (get_body_bounds _ _ _ H1) as (? & ? & ?). by eapply bounded_same.
  - unfold swap_body in H1. injection H1 as _ _ <-. destruct B as (? & ? & ?). repeat split; cbn; try done; lia.
  - destruct (get_body_bounds _ _ _ H1) as (? & ? & ?). by eapply bounded_same.
  - destruct B as (? & ? & ?). repeat split; cbn; first [done|lia].
Qed.

Section properties.
Context (maxlen : Z) (pool : gset loc).
Context (Hhead1 : head1 ∉ pool) (Hhead2 : head2 ∉ pool) (Hpool : Z.of_nat (size pool) < 2 ^ 64).


(** C10. No message is lost, duplicated or made up: the messages inserted are, up
    to order, those that were taken together with those that the two lists
    hold; and when nobody used [msgqueue_put_head], the order is that of the
    insertions. *)
Theorem msgqueue_no_loss es s :
  exec (initial maxlen pool) es s ->
  exists l1 l2, chain (cells (q s)) (get_head (q s)) l1 /\ chain (cells (q s)) (put_head (q s)) l2 /\
    concat (map inserted es) ≡ₚ concat (map taken es) ++ l1 ++ l2 /\
    (existsb is_put_head es = false -> concat (map inserted es) = concat (map taken es) ++ l1 ++ l2).
Proof.
  intros H. destruct (exec_inv _ _ _ _ Hhead1 Hhead2 Hpool H) as (l1 & l2 & I & R). exists l1, l2.
  destruct (i_queue _ _ _ _ I). split_and!; try done.
  - exact (deque_run_perm _ _ _ R).
  - exact (deque_run_fifo _ _ _ R).
Qed.

(** No wake-up is lost: a consumer that waits and has not been signalled
    waits on an empty, blocking queue, unless some thread is on its way to the
    [pthread_cond_signal]; and a producer that waits and has not been woken
    waits on a full, blocking queue, unless a thread in [msgqueue_set_nonblock]
    is on its way to the broadcast. *)
Theorem msgqueue_no_lost_wakeup es s t :
  exec (initial maxlen pool) es s ->
  (pcs s t = SwapWait false ->
     (msg_cnt (q s) = 0 /\ nonblock (q s) = false) \/ exists u, will_signal (pcs s u) = true) /\
  (waits_put (pcs s t) = true ->
     (full (q s) = true /\ nonblock (q s) = false) \/ exists u, will_wake (pcs s u) = true).
Proof.
  intros H. destruct (exec_inv _ _ _ _ Hhead1 Hhead2 Hpool H) as (l1 & l2 & I & R). split.
  - apply (i_getw _ _ _ _ I).
  - apply (i_putw _ _ _ _ I).
Qed.

(** The mutexes exclude, and no step goes wrong: a mutex is held by at most
    one thread, and a thread that is not waiting for one can always make its
    next step, which in particular dereferences no NULL and no dangling link. *)
Theorem msgqueue_safe es s :
  exec (initial maxlen pool) es s ->
  (forall t u, holds_put (pcs s t) = true -> holds_put (pcs s u) = true -> t = u) /\
  (forall t u, holds_get (pcs s t) = true -> holds_get (pcs s u) = true -> t = u) /\
  (forall t, running (pcs s t) = true -> exists e s', step t s e s').
Proof.
  intros H. destruct (exec_inv _ _ _ _ Hhead1 Hhead2 Hpool H) as (l1 & l2 & I & R). split_and!.
  - intros t u Ht%(i_put _ _ _ _ I) Hu%(i_put _ _ _ _ I). congruence.
  - intros t u Ht%(i_get _ _ _ _ I) Hu%(i_get _ _ _ _ I). congruence.
  - intros t. by apply (inv_progress pool s l1 l2).
Qed.

(** C28. While nobody asked for the non-blocking mode, the producers' list never
    holds more than [maxlen] messages. *)
Theorem msgqueue_bounded es s :
  exec (initial maxlen pool) es s -> 1 <= maxlen < 2 ^ 64 -> (ENonblock true ∉ es) ->
  exists l2, chain (cells (q s)) (put_head (q s)) l2 /\ len l2 <= maxlen.
Proof.
  intros H Hm Hn. assert (B : bounded maxlen (q s)).
  { clear - H Hm Hn. induction H as [|es s e s' t _ IH Hst]; [repeat split; cbn; lia|].
    rewrite not_elem_of_app in Hn. destruct Hn as [Hn1 Hn2].
    eapply step_bounded; [done|by apply IH| |exact Hst]. intros ->. apply Hn2. by left. }
  destruct (exec_inv _ _ _ _ Hhead1 Hhead2 Hpool H) as (l1 & l2 & I & R). exists l2.
  destruct (i_queue _ _ _ _ I) as [? ? ? Hc _]. split; [done|]. rewrite <- Hc. apply B.
Qed.
End properties.

(** ** Witnesses *)

Definition demo_pool : gset loc := {[3%positive; 4%positive]}.

(** Thread 1 finds the queue empty and waits; thread 0 puts the message 3 and
    wakes it; thread 1 takes it. *)
Definition demo_events : list event :=
  [ETau; ETau; ETau; ETau; ETau; ETau; ETau; EPut 3%positive; ETau; ETau; ETau; EGet 3%positive].

Ltac fwd t k := match goal with H : exec _ _ _ |- _ =>
  let H' := fresh in eassert (H' : _) by (eapply (exec_snoc _ _ _ _ _ t); [exact H|k]); clear H; cbn in H' end.
Ltac calc := first [reflexivity | vm_compute; reflexivity].

Lemma demo_exec : exists s, exec (initial 2 demo_pool) demo_events s.
Proof.
  pose proof (exec_nil (initial 2 demo_pool)) as H. unfold initial in H at 2.
  fwd 1%nat ltac:(right; right; left; apply get_start; calc).
  fwd 1%nat ltac:(right; right; left; apply get_lock; calc).
  fwd 1%nat ltac:(right; right; left; apply get_swap; calc).
  fwd 1%nat ltac:(right; right; left; apply swap_lock; calc).
  fwd 1%nat ltac:(right; right; left; apply swap_wait; calc).
  fwd 0%nat ltac:(left; eapply (put_start _ _ _ _ _ _ _ 3%positive); [calc|by vm_compute|calc]).
  fwd 0%nat ltac:(left; eapply put_lock; calc).
  fwd 0%nat ltac:(left; eapply put_done; calc).
  fwd 0%nat ltac:(left; eapply put_signal; [calc|apply (signal_one _ 1%nat); calc]).
  fwd 1%nat ltac:(right; right; left; eapply swap_wake; calc).
  fwd 1%nat ltac:(right; right; left; eapply swap_done; calc).
  fwd 1%nat ltac:(right; right; left; eapply get_second; calc).
  match goal with H : exec _ _ _ |- _ => eexists; exact H end.
Qed.

Lemma demo_pool_ok : (head1 ∉ demo_pool) /\ (head2 ∉ demo_pool) /\ Z.of_nat (size demo_pool) < 2 ^ 64.
Proof. split_and!; [refine (bool_decide_unpack _ _); by vm_compute..|reflexivity]. Qed.


Lemma msgqueue_no_loss_witness :
  exists s, exec (initial 2 demo_pool) demo_events s /\
    chain (cells (q s)) (get_head (q s)) [] /\ chain (cells (q s)) (put_head (q s)) [].
Proof.
  destruct demo_pool_ok as (H1 & H2 & H3). destruct demo_exec as [s H].
  destruct (msgqueue_no_loss 2 demo_pool H1 H2 H3 demo_events s H) as (l1 & l2 & Hc1 & Hc2 & _ & Hf).
  specialize (Hf eq_refl). cbn in Hf. exists s. split; [exact H|].
  destruct l1; [|discriminate]. destruct l2; [|discriminate]. split; [exact Hc1|exact Hc2].
Defined.

Lemma msgqueue_no_lost_wakeup_witness :
  exists s, exec (initial 2 demo_pool) demo_events s /\
    (waits_put (pcs s 0%nat) = true ->
       (full (q s) = true /\ nonblock (q s) = false) \/ exists u, will_wake (pcs s u) = true).
Proof.
  destruct demo_pool_ok as (H1 & H2 & H3). destruct demo_exec as [s H]. exists s. split; [exact H|].
  apply (msgqueue_no_lost_wakeup 2 demo_pool H1 H2 H3 demo_events s 0%nat H).
Defined.

Lemma msgqueue_safe_witness :
  exists s, exec (initial 2 demo_pool) demo_events s /\
    (forall t, running (pcs s t) = true -> exists e s', step t s e s').
Proof.
  destruct demo_pool_ok as (H1 & H2 & H3). destruct demo_exec as [s H]. exists s. split; [exact H|].
  apply (msgqueue_safe 2 demo_pool H1 H2 H3 demo_events s H).
Defined.

Lemma msgqueue_bounded_witness :
  exists s l2, exec (initial 2 demo_pool) demo_events s /\
    chain (cells (q s)) (put_head (q s)) l2 /\ len l2 <= 2.
Proof.
  destruct demo_pool_ok as (H1 & H2 & H3). destruct demo_exec as [s H].
  destruct (msgqueue_bounded 2 demo_pool H1 H2 H3 demo_events s H ltac:(lia)) as (l2 & Hc & Hl).
  - intros Hin. repeat (apply elem_of_cons in Hin as [Hin|Hin]; [discriminate|]). by apply elem_of_nil in Hin.
  - exists s, l2. split; [exact H|]. split; [exact Hc|exact Hl].
Defined.
