(* ===== verification/ThrdPool.v ===== *)
(** * The thread pool of [src/kernel/thrdpool.c]

    Worker threads take tasks from a message queue.  A thread that leaves
    ([thrdpool_decrease], [thrdpool_exit], the end of the pool) does not have its
    id kept anywhere: it leaves its own id in the pool and joins the thread that
    left before it, so that [thrdpool_destroy] has one thread to join.  A task may
    destroy the pool it runs in; its thread is detached and frees the pool.

    The queue is the sequence the message queue promises ([deque_step] of
    [MsgQueue]); its elements are the entries [malloc] returned, whose memory is
    [entries].  A step is one critical section of [pool->mutex], one operation of
    the queue, one [pthread_join] or one test of the loop; reads and writes of a
    freed pool or entry are excluded by a theorem, not by the steps.

    [pool_joined], [executed], [handed] and [scheduled] are the history: the threads joined, the
    tasks taken by a worker, those given to [pending], those scheduled. *)

From S2P Require Import Prelude RBTree MsgQueue.

Local Open Scope Z_scope.

Definition thread := positive.

(** [struct thrdpool_task]: a task of a client, or the exit routine that
    [thrdpool_decrease] schedules. *)
Inductive task := TUser (t : positive) | TExitRoutine.

#[export] Instance task_eq_dec : EqDecision task.
Proof. solve_decision. Defined.

(** Where a caller of [thrdpool_destroy] is. *)
Inductive dstate := DTerminate | DWait | DJoin (tid : ptr) | DDrain.

(** Where a thread of the pool is: the loop of [__thrdpool_routine], then
    [__thrdpool_exit_routine]. *)
Inductive tstate :=
  | TTest
  | TGet
  | TRun (t : positive)
  | TAfter
  | TExit
  | TJoin (tid : ptr)
  | TDestroy (d : dstate)
  | TDone.

(** [struct __thrdpool]; [tid] is [None] for [__zero_tid], [terminate] is the
    pointer being set, [pool_freed] whether [free(pool)] was called. *)
Record pool := mk_pool {
  queue : list loc;
  queue_nonblock : bool;
  nthreads : Z;
  tid : ptr;
  terminate : bool;
  pool_freed : bool }.

Record psys := mk_psys {
  po : pool;
  thr : gmap thread tstate;
  ext : option dstate;           (* a caller of [thrdpool_destroy] outside the pool *)
  creating : bool;               (* [thrdpool_increase] holds the mutex, [nthreads++] is to come *)
  entries : gmap loc task;
  pool_joined : list thread;
  executed : list positive;
  handed : list positive;
  scheduled : list positive }.

Definition set_thr (x : thread) (k : tstate) (s : psys) : psys :=
  mk_psys (po s) (<[x := k]> (thr s)) (ext s) (creating s) (entries s) (pool_joined s) (executed s) (handed s) (scheduled s).
Definition set_po (p : pool) (s : psys) : psys :=
  mk_psys p (thr s) (ext s) (creating s) (entries s) (pool_joined s) (executed s) (handed s) (scheduled s).
Definition set_ext (d : option dstate) (s : psys) : psys :=
  mk_psys (po s) (thr s) d (creating s) (entries s) (pool_joined s) (executed s) (handed s) (scheduled s).
Definition set_creating (b : bool) (s : psys) : psys :=
  mk_psys (po s) (thr s) (ext s) b (entries s) (pool_joined s) (executed s) (handed s) (scheduled s).
Definition add_joined (x : thread) (s : psys) : psys :=
  mk_psys (po s) (thr s) (ext s) (creating s) (entries s) (x :: pool_joined s) (executed s) (handed s) (scheduled s).

Definition with_queue (q : list loc) (p : pool) : pool :=
  mk_pool q (queue_nonblock p) (nthreads p) (tid p) (terminate p) (pool_freed p).
Definition with_nthreads (n : Z) (p : pool) : pool :=
  mk_pool (queue p) (queue_nonblock p) n (tid p) (terminate p) (pool_freed p).
Definition free_pool (p : pool) : pool :=
  mk_pool (queue p) (queue_nonblock p) (nthreads p) (tid p) (terminate p) true.

(** The critical section of [__thrdpool_exit_routine]; the signal wakes a waiting
    [DWait], which tests its condition anyway. *)
Definition leave (x : thread) (p : pool) : pool :=
  mk_pool (queue p) (queue_nonblock p) (u64 (nthreads p - 1)) (Some x) (terminate p) (pool_freed p).

(** The critical section of [__thrdpool_terminate], up to the loop. *)
Definition __thrdpool_terminate (in_pool : bool) (p : pool) : pool :=
  mk_pool (queue p) true (if in_pool then u64 (nthreads p - 1) else nthreads p) (tid p) true (pool_freed p).

(** The work of [__thrdpool_schedule] and [thrdpool_decrease]: an entry [e] fresh from
    [malloc], put in the queue at the end or, as far as [msgqueue_put_head]
    promises it, in front. *)
Definition tasks_of (t : task) : list positive := match t with TUser t => [t] | TExitRoutine => [] end.
Definition put_entry (e : loc) (t : task) (q : list loc) (s : psys) : psys :=
  mk_psys (with_queue q (po s)) (thr s) (ext s) (creating s) (<[e := t]> (entries s))
    (pool_joined s) (executed s) (handed s) (tasks_of t ++ scheduled s).

(** [task_routine = entry->task.routine; ...; free(entry);] in a worker. *)
Definition take_entry (e : loc) (t : task) (q : list loc) (s : psys) : psys :=
  mk_psys (with_queue q (po s)) (thr s) (ext s) (creating s) (delete e (entries s))
    (pool_joined s) (tasks_of t ++ executed s) (handed s) (scheduled s).
(** [if (pending && routine != exit_routine) pending(&entry->task); free(entry);] *)
Definition drain_entry (e : loc) (t : task) (q : list loc) (s : psys) : psys :=
  mk_psys (with_queue q (po s)) (thr s) (ext s) (creating s) (delete e (entries s))
    (pool_joined s) (executed s) (tasks_of t ++ handed s) (scheduled s).

(** [thrdpool_destroy] by a thread of the pool or from outside: the next state of
    the caller. *)
Inductive who := Inside (x : thread) | Outside.
Definition at_destroy (w : who) (d : dstate) (s : psys) : Prop :=
  match w with Inside x => thr s !! x = Some (TDestroy d) | Outside => ext s = Some d end.
Definition to_destroy (w : who) (d : dstate) (s : psys) : psys :=
  match w with Inside x => set_thr x (TDestroy d) s | Outside => set_ext (Some d) s end.
Definition in_pool (w : who) : bool := match w with Inside _ => true | Outside => false end.
(** The end: [if (!in_pool) free(pool);], and a task goes on to return. *)
Definition end_destroy (w : who) (s : psys) : psys :=
  match w with Inside x => set_thr x TAfter s | Outside => set_ext None (set_po (free_pool (po s)) s) end.

(** Who may call the interface: a running task, or a client of a pool that is not
    being destroyed. *)
Definition caller (s : psys) : Prop :=
  (exists x t, thr s !! x = Some (TRun t)) \/
  (ext s = None /\ terminate (po s) = false /\ pool_freed (po s) = false /\
   forall x d, thr s !! x <> Some (TDestroy d)).

(** Who makes a step: a client, the code of a task, the pool itself. *)
Inductive actor := AClient | ATask | APool.

Inductive pstep : actor -> psys -> psys -> Prop :=
  (* the clients: [thrdpool_schedule] and [thrdpool_decrease] *)
  | ps_schedule s e t q ev :
      caller s -> entries s !! e = None ->
      (exists u, t = TUser u /\ ev = EPut e) \/ t = TExitRoutine /\ (ev = EHead e \/ ev = EMiddle e) ->
      deque_step (queue (po s)) ev q ->
      pstep AClient s (put_entry e t q s)
  (* [thrdpool_increase], in two steps *)
  | ps_create s x :
      caller s -> creating s = false -> thr s !! x = None ->
      pstep AClient s (set_creating true (set_thr x TTest s))
  | ps_count s :
      creating s = true ->
      pstep APool s (set_creating false (set_po (with_nthreads (u64 (nthreads (po s) + 1)) (po s)) s))
  (* [thrdpool_destroy] outside the pool, once *)
  | ps_destroy s :
      ext s = None -> (forall x d, thr s !! x <> Some (TDestroy d)) -> terminate (po s) = false ->
      pool_freed (po s) = false ->
      pstep AClient s (set_ext (Some DTerminate) s)
  (* [__thrdpool_routine] *)
  | ps_test s x :
      thr s !! x = Some TTest ->
      pstep APool s (set_thr x (if terminate (po s) then TExit else TGet) s)
  | ps_get s x e q t :
      thr s !! x = Some TGet -> deque_step (queue (po s)) (EGet e) q -> entries s !! e = Some t ->
      pstep APool s (set_thr x (match t with TUser u => TRun u | TExitRoutine => TExit end) (take_entry e t q s))
  | ps_null s x :
      thr s !! x = Some TGet -> deque_step (queue (po s)) EEmpty [] -> queue_nonblock (po s) = true ->
      pstep APool s (set_thr x TExit s)
  (* a task returns, calls [thrdpool_exit], or destroys its pool *)
  | ps_return s x t :
      thr s !! x = Some (TRun t) -> pstep ATask s (set_thr x TAfter s)
  | ps_exit_call s x t :
      thr s !! x = Some (TRun t) -> pstep ATask s (set_thr x TExit s)
  | ps_destroy_call s x t :
      thr s !! x = Some (TRun t) -> ext s = None -> (forall y d, thr s !! y <> Some (TDestroy d)) ->
      terminate (po s) = false -> pstep ATask s (set_thr x (TDestroy DTerminate) s)
  | ps_after s x :
      thr s !! x = Some TAfter ->
      pstep APool s
        (if nthreads (po s) =? 0 then set_thr x TDone (set_po (free_pool (po s)) s) else set_thr x TTest s)
  (* [__thrdpool_exit_routine] *)
  | ps_leave s x :
      thr s !! x = Some TExit -> creating s = false ->
      pstep APool s (set_thr x (TJoin (tid (po s))) (set_po (leave x (po s)) s))
  | ps_join_none s x :
      thr s !! x = Some (TJoin None) -> pstep APool s (set_thr x TDone s)
  | ps_join s x y :
      thr s !! x = Some (TJoin (Some y)) -> thr s !! y = Some TDone ->
      pstep APool s (set_thr x TDone (add_joined y s))
  (* [thrdpool_destroy] *)
  | ps_terminate s w :
      at_destroy w DTerminate s -> creating s = false ->
      pstep APool s (to_destroy w DWait (set_po (__thrdpool_terminate (in_pool w) (po s)) s))
  | ps_wait s w :
      at_destroy w DWait s -> creating s = false -> nthreads (po s) = 0 ->
      pstep APool s (to_destroy w (DJoin (tid (po s))) s)
  | ps_djoin_none s w :
      at_destroy w (DJoin None) s -> pstep APool s (to_destroy w DDrain s)
  | ps_djoin s w y :
      at_destroy w (DJoin (Some y)) s -> thr s !! y = Some TDone ->
      pstep APool s (to_destroy w DDrain (add_joined y s))
  | ps_drain s w e q t :
      at_destroy w DDrain s -> deque_step (queue (po s)) (EGet e) q -> entries s !! e = Some t ->
      pstep APool s (drain_entry e t q s)
  | ps_end s w :
      at_destroy w DDrain s -> deque_step (queue (po s)) EEmpty [] ->
      pstep APool s (end_destroy w s).

(** [__thrdpool_create_threads]: the threads [pthread_create] grants, until the
    first refusal; [creation n granted] is how many. *)
Fixpoint create_threads (want : nat) (granted : list bool) : nat :=
  match want, granted with
  | S want, true :: granted => S (create_threads want granted)
  | _, _ => O
  end.

(** [thrdpool_create]: the pool with its threads at work, or, when a thread is
    missing, being terminated by [__thrdpool_create_threads]. *)
Definition thrdpool_create (n : nat) (granted : list bool) : psys :=
  let k := create_threads n granted in
  mk_psys (mk_pool [] false (Z.of_nat k) None false false)
    (list_to_map ((fun i => (Pos.of_succ_nat i, TTest)) <$> seq 0 k))
    (if (k =? n)%nat then None else Some DTerminate) false ∅ [] [] [] [].

(** [thrdpool_increase] is called while the pool has a thread, and [nthreads] does
    not overflow. *)
Definition guarded (a b : psys) : Prop :=
  creating a = false -> creating b = true -> 0 < nthreads (po a) < 2 ^ 64 - 1.

Inductive preach (n : nat) (granted : list bool) : psys -> Prop :=
  | preach_init : preach n granted (thrdpool_create n granted)
  | preach_step l a b : preach n granted a -> pstep l a b -> guarded a b -> preach n granted b.

(** ** The tasks *)

Definition entry_tasks (es : gmap loc task) (e : loc) : list positive :=
  match es !! e with Some t => tasks_of t | None => [] end.

(** The queue holds the entries that are allocated; every task scheduled was taken,
    handed back or waits. *)
Record tasks_inv (s : psys) : Prop := mk_tasks_inv {
  ti_nodup : NoDup (queue (po s));
  ti_dom : forall e, e ∈ queue (po s) <-> is_Some (entries s !! e);
  ti_tasks : scheduled s ≡ₚ executed s ++ handed s ++ (queue (po s) ≫= entry_tasks (entries s)) }.

(** A step that leaves the queue alone. *)
Lemma tasks_same s s' : queue (po s') = queue (po s) -> entries s' = entries s -> executed s' = executed s ->
  handed s' = handed s -> scheduled s' = scheduled s -> tasks_inv s -> tasks_inv s'.
Proof. intros E1 E2 E3 E4 E5 []. constructor; by rewrite ?E1, ?E2, ?E3, ?E4, ?E5. Qed.

Lemma deque_put_perm q ev q' e : ev = EPut e \/ ev = EHead e \/ ev = EMiddle e -> deque_step q ev q' -> q' ≡ₚ e :: q.
Proof.
  intros [->|[->| ->]] H; inversion H; subst.
  - symmetry. apply Permutation_cons_append.
  - done.
  - symmetry. apply Permutation_middle.
Qed.

Lemma bind_entries_insert es e t q : (e ∉ q) -> q ≫= entry_tasks (<[e := t]> es) = q ≫= entry_tasks es.
Proof.
  induction q as [|y q IH]; intros H; [done|]. apply not_elem_of_cons in H as [H1 H2]. cbn. rewrite IH by done.
  f_equal. unfold entry_tasks. by rewrite lookup_insert_ne.
Qed.
Lemma bind_entries_delete es e q : (e ∉ q) -> q ≫= entry_tasks (delete e es) = q ≫= entry_tasks es.
Proof.
  induction q as [|y q IH]; intros H; [done|]. apply not_elem_of_cons in H as [H1 H2]. cbn. rewrite IH by done.
  f_equal. unfold entry_tasks. by rewrite lookup_delete_ne.
Qed.

Lemma tasks_put s e t q ev : tasks_inv s -> entries s !! e = None ->
  ev = EPut e \/ ev = EHead e \/ ev = EMiddle e -> deque_step (queue (po s)) ev q -> tasks_inv (put_entry e t q s).
Proof.
  intros [Hd Hm Ht] He Hev Hq. pose proof (deque_put_perm _ _ _ _ Hev Hq) as P.
  assert (Hn : e ∉ queue (po s)) by (rewrite Hm; rewrite He; by intros [? ?]).
  constructor; cbn.
  - rewrite P. by constructor.
  - intros y. rewrite P, elem_of_cons, Hm. destruct (decide (y = e)) as [->|Hy].
    + rewrite lookup_insert_eq. naive_solver.
    + rewrite lookup_insert_ne by done. naive_solver.
  - rewrite P, Ht. cbn. rewrite bind_entries_insert by done. unfold entry_tasks at 2. rewrite lookup_insert_eq.
    solve_Permutation.
Qed.

Lemma tasks_take s s' e t q : tasks_inv s -> deque_step (queue (po s)) (EGet e) q -> entries s !! e = Some t ->
  queue (po s') = q -> entries s' = delete e (entries s) -> scheduled s' = scheduled s ->
  executed s' ++ handed s' ≡ₚ tasks_of t ++ executed s ++ handed s -> tasks_inv s'.
Proof.
  intros [Hd Hm Ht] Hq He E1 E2 E3 E4. inversion Hq as [| | | | |l m El|]; subst. rewrite <- El in *. 
  apply NoDup_cons in Hd as [Hn Hd]. constructor; rewrite ?E1, ?E2, ?E3.
  - done.
  - intros y. destruct (decide (y = e)) as [->|Hy].
    + rewrite lookup_delete_eq. split; [done|by intros [? ?]].
    + rewrite lookup_delete_ne by done. rewrite <- Hm, elem_of_cons. naive_solver.
  - rewrite Ht. cbn. rewrite bind_entries_delete by done. unfold entry_tasks at 1. rewrite He. rewrite app_assoc, (app_assoc (executed s')).
    rewrite E4. solve_Permutation.
Qed.

Lemma tasks_step l a b : pstep l a b -> tasks_inv a -> tasks_inv b.
Proof.
  intros St Ti. destruct St; try (by eapply tasks_same; [..|exact Ti]); try (destruct w; by eapply tasks_same; [..|exact Ti]).
  - eapply tasks_put; [done|done| |done]. naive_solver.
  - eapply tasks_take; [done..|]. cbn. by rewrite <- app_assoc.
  - eapply (tasks_same s); [by destruct (_ =? 0)..|done].
  - eapply tasks_take; [done..|]. cbn. solve_Permutation.
Qed.

Lemma tasks_reach n g s : preach n g s -> tasks_inv s.
Proof.
  induction 1 as [|l a b _ IH St _]; [|by eapply tasks_step].
  constructor; cbn; [constructor|intros e; rewrite lookup_empty; split; [by intros ?%not_elem_of_nil|by intros [? ?]]|done].
Qed.

(** ** The threads *)

(** The threads of [js] wait in [pthread_join], each for the one that left before
    it, the first for [prev]. *)
Fixpoint waiting (m : gmap thread tstate) (prev : ptr) (js : list thread) : Prop :=
  match js with
  | [] => True
  | x :: js => m !! x = Some (TJoin prev) /\ waiting m (Some x) js
  end.
Fixpoint end_of (prev : ptr) (js : list thread) : ptr :=
  match js with [] => prev | x :: js => end_of (Some x) js end.

(** The life of the pool: at work, being destroyed by [w], its destroying task on
    the way back to the worker loop, freed. *)
Inductive phase := PRun | PDest (w : who) (d : dstate) | PReturn (x : thread) | PFreed (w : who).

Definition detached (ph : phase) : list thread :=
  match ph with
  | PDest (Inside _) DTerminate => []
  | PDest (Inside x) _ | PReturn x | PFreed (Inside x) => [x]
  | _ => []
  end.
(** The threads [nthreads] counts. *)
Definition working (k : tstate) : Prop :=
  match k with TTest | TGet | TRun _ | TAfter | TExit | TDestroy DTerminate => True | _ => False end.
(** The last thread that left is joined. *)
Definition past_join (ph : phase) : bool :=
  match ph with PDest _ DDrain | PReturn _ | PFreed _ => true | _ => false end.

Definition phase_ok (s : psys) (live js : list thread) (ph : phase) : Prop :=
  match ph with
  | PRun => True
  | PDest w d => at_destroy w d s /\
      match d with
      | DTerminate | DWait => True
      | DJoin t => live = [] /\ t = tid (po s)
      | DDrain => live = [] /\ js = []
      end
  | PReturn x => thr s !! x = Some TAfter /\ live = [] /\ js = [] /\ queue (po s) = []
  | PFreed w => live = [] /\ js = [] /\ queue (po s) = [] /\
      match w with Inside x => thr s !! x = Some TDone | Outside => True end
  end.

(** [live] work, [ds] are gone (the last one first), [js] leave. *)
Record threads_inv (s : psys) (live ds js : list thread) (ph : phase) : Prop := mk_threads_inv {
  th_nodup : NoDup (live ++ ds ++ js ++ detached ph);
  th_dom : forall x, is_Some (thr s !! x) <-> x ∈ live ++ ds ++ js ++ detached ph;
  th_live : forall x k, x ∈ live -> thr s !! x = Some k -> working k;
  th_done : forall x, x ∈ ds -> thr s !! x = Some TDone;
  th_wait : waiting (thr s) (head ds) js;
  th_tid : tid (po s) = end_of (head ds) js;
  th_count : nthreads (po s) + Z.b2z (creating s) = Z.of_nat (length live);
  th_bound : Z.of_nat (length live) < 2 ^ 64;
  th_creating : creating s = true -> 0 < nthreads (po s);
  th_dest : forall x d, thr s !! x = Some (TDestroy d) -> ph = PDest (Inside x) d;
  th_nonblock : queue_nonblock (po s) = terminate (po s);
  th_joined : pool_joined s = if past_join ph then ds else tail ds;
  th_ext : ext s = match ph with PDest Outside d => Some d | _ => None end;
  th_terminate : terminate (po s) = match ph with PRun | PDest _ DTerminate => false | _ => true end;
  th_freed : pool_freed (po s) = match ph with PFreed _ => true | _ => false end;
  th_phase : phase_ok s live js ph }.

Lemma insert_known (m : gmap thread tstate) x k k' y : m !! x = Some k -> is_Some (<[x := k']> m !! y) <-> is_Some (m !! y).
Proof. intros H. rewrite lookup_insert_is_Some. destruct (decide (x = y)) as [<-|?]; rewrite ?H; naive_solver. Qed.

Lemma waiting_frame m x k prev js : (x ∉ js) -> waiting (<[x := k]> m) prev js <-> waiting m prev js.
Proof.
  revert prev. induction js as [|y js IH]; intros prev Hx; [done|]. apply not_elem_of_cons in Hx as [H1 H2]. cbn.
  by rewrite lookup_insert_ne, IH.
Qed.
Lemma waiting_app m prev js x : waiting m prev (js ++ [x]) <-> waiting m prev js /\ m !! x = Some (TJoin (end_of prev js)).
Proof. revert prev. induction js as [|y js IH]; intros prev; cbn; [tauto|]. rewrite IH. tauto. Qed.
Lemma end_of_app prev js x : end_of prev (js ++ [x]) = Some x.
Proof. revert prev. induction js as [|y js IH]; intros prev; cbn; [done|]. apply IH. Qed.

(** A waiting thread is the first, or waits for a waiting one. *)
Lemma waiting_pred m prev js x : waiting m prev js -> x ∈ js ->
  exists p, m !! x = Some (TJoin p) /\
    ((exists js', js = x :: js' /\ p = prev) \/ exists y q, y ∈ js /\ p = Some y /\ m !! y = Some (TJoin q)).
Proof.
  revert prev. induction js as [|y js IH]; intros prev W Hx; [by apply not_elem_of_nil in Hx|].
  destruct W as [W1 W2]. apply elem_of_cons in Hx as [->|Hx]; [by eauto 10|].
  destruct (IH _ W2 Hx) as (p & Hp & [(js' & -> & ->)|(z & q & Hz & -> & Hq)]).
  - exists (Some y). split; [done|]. right. exists y, prev. by rewrite elem_of_cons; auto.
  - exists (Some z). split; [done|]. right. exists z, q. by rewrite elem_of_cons; auto.
Qed.
Lemma waiting_end m prev js : waiting m prev js -> js = [] \/ exists y p, end_of prev js = Some y /\ y ∈ js /\ m !! y = Some (TJoin p).
Proof.
  revert prev. induction js as [|y js IH]; intros prev W; [by left|]. right. destruct W as [W1 W2]. cbn.
  destruct (IH _ W2) as [->|(z & p & E & Hz & Hp)].
  - exists y, prev. split_and!; [done| |done]. by apply list_elem_of_singleton.
  - exists z, p. by rewrite elem_of_cons; auto.
Qed.

Lemma th_class s live ds js ph x k : threads_inv s live ds js ph -> thr s !! x = Some k ->
  x ∈ live /\ working k \/ x ∈ ds /\ k = TDone \/ (x ∈ js /\ exists p, k = TJoin p) \/
  x ∈ detached ph /\ ((exists d, ph = PDest (Inside x) d /\ d <> DTerminate /\ k = TDestroy d) \/
    ph = PReturn x /\ k = TAfter \/ ph = PFreed (Inside x) /\ k = TDone).
Proof.
  intros I Hk. assert (H : x ∈ live ++ ds ++ js ++ detached ph) by (apply (th_dom _ _ _ _ _ I); by rewrite Hk).
  rewrite !elem_of_app in H. destruct H as [H|[H|[H|H]]].
  - left. split; [done|]. by eapply th_live.
  - right; left. split; [done|]. apply (th_done _ _ _ _ _ I) in H. congruence.
  - right; right; left. split; [done|]. destruct (waiting_pred _ _ _ _ (th_wait _ _ _ _ _ I) H) as (p & Hp & _).
    exists p. congruence.
  - right; right; right. split; [done|]. pose proof (th_phase _ _ _ _ _ I) as P. destruct ph as [|[y|] d|y|[y|]]; cbn in H, P.
    + by apply not_elem_of_nil in H.
    + left. exists d. destruct d; [by apply not_elem_of_nil in H|..]; apply list_elem_of_singleton in H as <-;
        destruct P as [P _]; split_and!; congruence.
    + by apply not_elem_of_nil in H.
    + apply list_elem_of_singleton in H as <-. right; left. split; [done|]. destruct P. congruence.
    + apply list_elem_of_singleton in H as <-. right; right. split; [done|]. destruct P as (_ & _ & _ & P). congruence.
    + by apply not_elem_of_nil in H.
Qed.

Lemma th_at s live ds js ph w d : threads_inv s live ds js ph -> at_destroy w d s -> ph = PDest w d.
Proof.
  intros I H. destruct w as [x|]; cbn in H; [by eapply th_dest|]. rewrite (th_ext _ _ _ _ _ I) in H.
  destruct ph as [|[|] ?| |]; congruence.
Qed.

Lemma th_perm s live live' ds js ph : live ≡ₚ live' -> threads_inv s live ds js ph -> threads_inv s live' ds js ph.
Proof.
  intros P I. destruct I as [Nd Dm Lv Dn Wt Td Ct Bd Cr Ds Nb Jn Ex Tm Fr Ph]. constructor; try done.
  - by rewrite <- P.
  - intros x. by rewrite <- P.
  - intros x k. rewrite <- P. apply Lv.
  - by rewrite <- P.
  - by rewrite <- P.
  - assert (E : live = [] -> live' = []) by (intros ->; symmetry; by apply Permutation_nil_l).
    destruct ph as [|w [| | |]| |]; cbn in *; naive_solver.
Qed.

Lemma th_phase_live s live js ph x : phase_ok s live js ph -> x ∈ live ->
  ph = PRun \/ exists w d, ph = PDest w d /\ at_destroy w d s /\ (d = DTerminate \/ d = DWait).
Proof.
  intros P H. assert (live <> []) by (intros ->; by apply not_elem_of_nil in H).
  destruct ph as [|w [| | |]| |]; cbn in P; naive_solver.
Qed.

Lemma live_apart s live ds js ph x y : threads_inv s live ds js ph -> x ∈ live -> y ∈ ds \/ y ∈ js \/ y ∈ detached ph -> y <> x.
Proof.
  intros I Hx Hy ->. pose proof (th_nodup _ _ _ _ _ I) as Nd. rewrite NoDup_app in Nd. destruct Nd as (_ & Nd & _).
  apply (Nd x Hx). rewrite !elem_of_app. tauto.
Qed.

(** A thread at work goes on. *)
Lemma th_move s s' live ds js ph x k k' q :
  threads_inv s live ds js ph -> thr s !! x = Some k -> x ∈ live -> working k' ->
  (forall d, k <> TDestroy d) -> (forall d, k' <> TDestroy d) ->
  thr s' = <[x := k']> (thr s) -> po s' = with_queue q (po s) ->
  ext s' = ext s -> creating s' = creating s -> pool_joined s' = pool_joined s ->
  threads_inv s' live ds js ph.
Proof.
  intros I Hk Hx Wk' Nk Nk' E1 E2 E3 E4 E5.
  pose proof (fun y => live_apart _ _ _ _ _ _ y I Hx) as Ap.
  pose proof (th_phase_live _ _ _ _ _ (th_phase _ _ _ _ _ I) Hx) as Pl.
  destruct I as [Nd Dm Lv Dn Wt Td Ct Bd Cr Ds Nb Jn Ex Tm Fr Ph].
  constructor; rewrite ?E1, ?E2, ?E3, ?E4, ?E5; try done.
  - intros y. rewrite <- Dm. by eapply insert_known.
  - intros y ky Hy. rewrite lookup_insert_Some. intros [[<- <-]|[_ H]]; [done|by eapply Lv].
  - intros y Hy. rewrite lookup_insert_ne by (apply not_eq_sym; auto). by apply Dn.
  - apply waiting_frame; [|done]. intros H. by apply (Ap x); auto.
  - intros y d. rewrite lookup_insert_Some. intros [[<- H]|[_ H]]; [by apply Nk' in H|by apply Ds].
  - destruct Pl as [->|(w & d & -> & A & [-> | ->])]; [done|..]; (split; [|done]);
      destruct w as [y|]; cbn in *; try congruence; rewrite E1, lookup_insert_ne; congruence.
Qed.

(** A step on the queue only. *)
Lemma th_queue s s' live ds js ph q :
  threads_inv s live ds js ph -> thr s' = thr s -> po s' = with_queue q (po s) ->
  ext s' = ext s -> creating s' = creating s -> pool_joined s' = pool_joined s ->
  ph = PRun \/ (exists w d, ph = PDest w d) -> threads_inv s' live ds js ph.
Proof.
  intros I E1 E2 E3 E4 E5 Hp. destruct I as [Nd Dm Lv Dn Wt Td Ct Bd Cr Ds Nb Jn Ex Tm Fr Ph].
  constructor; rewrite ?E1, ?E2, ?E3, ?E4, ?E5; try done.
  destruct Hp as [->|(w & d & ->)]; [done|]. destruct w, d; cbn in *; by rewrite ?E1, ?E2, ?E3.
Qed.

Ltac th_open I := destruct I as [Nd Dm Lv Dn Wt Td Ct Bd Cr Ds Nb Jn Ex Tm Fr Ph].

(** [thrdpool_increase]: the thread runs, then it is counted. *)
Lemma th_create s live ds js ph x : threads_inv s live ds js ph -> creating s = false -> thr s !! x = None ->
  0 < nthreads (po s) < 2 ^ 64 - 1 -> threads_inv (set_creating true (set_thr x TTest s)) (x :: live) ds js ph.
Proof.
  intros I Hc Hx Hn. assert (Nx : x ∉ live ++ ds ++ js ++ detached ph).
  { intros H. apply (th_dom _ _ _ _ _ I) in H as [? ?]. congruence. }
  pose proof (th_count _ _ _ _ _ I) as Cn. rewrite Hc in Cn. cbn [Z.b2z] in Cn.
  destruct live as [|u live]; [cbn in Cn; lia|].
  pose proof (th_phase_live _ _ _ _ u (th_phase _ _ _ _ _ I) (list_elem_of_here _ _)) as Pl.
  th_open I. rewrite !not_elem_of_app in Nx. destruct Nx as (Nl & Nds & Njs & Ndt). constructor; cbn; try done.
  - apply NoDup_cons. split; [|done]. rewrite app_comm_cons, !not_elem_of_app. auto.
  - intros y. rewrite elem_of_cons, <- Dm, lookup_insert_is_Some. destruct (decide (x = y)); naive_solver.
  - intros y k Hy. rewrite lookup_insert_Some. intros [[_ <-]|[Hne H]]; [done|].
    apply elem_of_cons in Hy as [->|Hy]; [done|by eapply Lv].
  - intros y Hy. rewrite lookup_insert_ne by (intros ->; done). auto.
  - by apply waiting_frame.
  - cbn in Cn. lia.
  - cbn in Cn. lia.
  - lia.
  - intros y d. rewrite lookup_insert_Some. intros [[_ ?]|[_ H]]; [done|by apply Ds].
  - destruct Pl as [->|(w & d & -> & A & [-> | ->])]; [done|..]; (split; [|done]);
      destruct w as [y|]; cbn in *; try congruence; rewrite lookup_insert_ne; congruence.
Qed.

Lemma th_counted s live ds js ph : threads_inv s live ds js ph -> creating s = true ->
  threads_inv (set_creating false (set_po (with_nthreads (u64 (nthreads (po s) + 1)) (po s)) s)) live ds js ph.
Proof.
  intros I Hc. th_open I. rewrite Hc in Ct. cbn [Z.b2z] in Ct. constructor; cbn; try done.
  unfold u64. rewrite Z.mod_small by lia. lia.
Qed.

(** A call of [thrdpool_destroy]. *)
Lemma th_call s live ds js x k : threads_inv s live ds js PRun -> thr s !! x = Some k ->  x ∈ live ->
  threads_inv (set_thr x (TDestroy DTerminate) s) live ds js (PDest (Inside x) DTerminate).
Proof.
  intros I Hk Hx. pose proof (fun y => live_apart _ _ _ _ _ _ y I Hx) as Ap. th_open I. constructor; cbn; try done.
  - intros y. rewrite <- Dm. by eapply insert_known.
  - intros y ky Hy. rewrite lookup_insert_Some. intros [[<- <-]|[_ H]]; [done|by eapply Lv].
  - intros y Hy. rewrite lookup_insert_ne by (apply not_eq_sym; auto). by apply Dn.
  - apply waiting_frame; [|done]. intros H. by apply (Ap x); auto.
  - intros y d. rewrite lookup_insert_Some. intros [[<- [= <-]]|[_ H]]; [done|by apply Ds in H].
  - split; [|done]. by rewrite lookup_insert_eq.
Qed.
Lemma th_call_out s live ds js : threads_inv s live ds js PRun ->
  threads_inv (set_ext (Some DTerminate) s) live ds js (PDest Outside DTerminate).
Proof. intros I. th_open I. constructor; cbn; try done. intros x d H. by apply Ds in H. Qed.

Lemma live_split s live ds js ph x : threads_inv s live ds js ph -> x ∈ live ->
  exists live', threads_inv s (x :: live') ds js ph /\ (x ∉ live').
Proof.
  intros I Hx. apply elem_of_Permutation in Hx as [live' P]. exists live'.
  assert (I' : threads_inv s (x :: live') ds js ph) by (by eapply th_perm). split; [done|].
  pose proof (th_nodup _ _ _ _ _ I') as Nd. cbn in Nd. apply NoDup_cons in Nd as [Nx _].
  rewrite !not_elem_of_app in Nx. tauto.
Qed.

(** A thread leaves the counted ones: to wait for the last that left, or to destroy
    the pool. *)
Lemma th_leave s live ds js ph x : threads_inv s (x :: live) ds js ph -> thr s !! x = Some TExit -> creating s = false ->
  threads_inv (set_thr x (TJoin (tid (po s))) (set_po (leave x (po s)) s)) live ds (js ++ [x]) ph.
Proof.
  intros I Hk Hc. assert (Hx : x ∈ x :: live) by constructor.
  pose proof (fun y => live_apart _ _ _ _ _ _ y I Hx) as Ap.
  pose proof (th_phase_live _ _ _ _ _ (th_phase _ _ _ _ _ I) Hx) as Pl. th_open I.
  assert (Nj : x ∉ js) by (intros H; by apply (Ap x); auto).
  assert (Nl : x ∉ live) by (cbn in Nd; apply NoDup_cons in Nd as [H _]; rewrite !not_elem_of_app in H; tauto).
  assert (P : live ++ ds ++ (js ++ [x]) ++ detached ph ≡ₚ (x :: live) ++ ds ++ js ++ detached ph) by solve_Permutation.
  rewrite Hc in *. cbn [Z.b2z length] in Ct, Bd. constructor; cbn; try done.
  - by rewrite P.
  - intros y. rewrite P, <- Dm. by eapply insert_known.
  - intros y k Hy. rewrite lookup_insert_ne by (by intros ->). apply Lv. by constructor.
  - intros y Hy. rewrite lookup_insert_ne by (apply not_eq_sym; auto). by apply Dn.
  - rewrite waiting_app, lookup_insert_eq, Td. split; [by apply waiting_frame|done].
  - by rewrite end_of_app.
  - unfold u64. rewrite Hc, Z.mod_small by lia. cbn. lia.
  - lia.
  - by rewrite Hc.
  - intros y d. rewrite lookup_insert_Some. intros [[_ ?]|[_ H]]; [done|by apply Ds].
  - destruct Pl as [->|(w & d & -> & A & [-> | ->])]; [done|..]; (split; [|done]);
      destruct w as [y|]; cbn in *; try congruence; rewrite lookup_insert_ne; congruence.
Qed.

Lemma th_terminated s live ds js x : threads_inv s (x :: live) ds js (PDest (Inside x) DTerminate) -> creating s = false ->
  threads_inv (to_destroy (Inside x) DWait (set_po (__thrdpool_terminate true (po s)) s)) live ds js (PDest (Inside x) DWait).
Proof.
  intros I Hc. assert (Hx : x ∈ x :: live) by constructor.
  pose proof (fun y => live_apart _ _ _ _ _ _ y I Hx) as Ap. th_open I. destruct Ph as [Hk _]. cbn in Hk.
  assert (Nl : x ∉ live) by (cbn in Nd; apply NoDup_cons in Nd as [H _]; rewrite !not_elem_of_app in H; tauto).
  cbn [detached] in *. rewrite app_nil_r in *.
  assert (P : live ++ ds ++ js ++ [x] ≡ₚ (x :: live) ++ ds ++ js) by solve_Permutation.
  rewrite Hc in *. cbn [Z.b2z length] in Ct, Bd. constructor; cbn; try done.
  - by rewrite P.
  - intros y. rewrite P, <- Dm. by eapply insert_known.
  - intros y k Hy. rewrite lookup_insert_ne by (by intros ->). apply Lv. by constructor.
  - intros y Hy. rewrite lookup_insert_ne by (apply not_eq_sym; auto). by apply Dn.
  - apply waiting_frame; [|done]. intros H. by apply (Ap x); auto.
  - unfold u64. rewrite Hc, Z.mod_small by lia. cbn. lia.
  - lia.
  - by rewrite Hc.
  - intros y d. rewrite lookup_insert_Some. intros [[<- [= <-]]|[Hne H]]; [done|]. apply Ds in H. congruence.
  - split; [|done]. by rewrite lookup_insert_eq.
Qed.
Lemma th_terminated_out s live ds js : threads_inv s live ds js (PDest Outside DTerminate) ->
  threads_inv (to_destroy Outside DWait (set_po (__thrdpool_terminate false (po s)) s)) live ds js (PDest Outside DWait).
Proof. intros I. th_open I. constructor; cbn; try done. intros x d H. by apply Ds in H. Qed.

(** A thread that left has joined the one before it. *)
Lemma th_gone s s' live ds js ph x : threads_inv s live ds (x :: js) ph ->
  thr s' = <[x := TDone]> (thr s) -> po s' = po s -> ext s' = ext s -> creating s' = creating s ->
  pool_joined s' = option_list (head ds) ++ pool_joined s ->
  threads_inv s' live (x :: ds) js ph.
Proof.
  intros I E1 E2 E3 E4 E5. th_open I. destruct Wt as [Hk Wt].
  assert (P : live ++ (x :: ds) ++ js ++ detached ph ≡ₚ live ++ ds ++ (x :: js) ++ detached ph) by solve_Permutation.
  assert (Nx : (x ∉ live) /\ (x ∉ js) /\ (x ∉ detached ph)).
  { assert (P' : live ++ ds ++ (x :: js) ++ detached ph ≡ₚ x :: live ++ ds ++ js ++ detached ph) by solve_Permutation.
    rewrite P' in Nd. apply NoDup_cons in Nd as [Nx _]. rewrite !not_elem_of_app in Nx. tauto. }
  destruct Nx as (N1 & N2 & N3). constructor; rewrite ?E1, ?E2, ?E3, ?E4; try done.
  - by rewrite P.
  - intros y. rewrite P, <- Dm. by eapply insert_known.
  - intros y k Hy. rewrite lookup_insert_ne by (by intros ->). by apply Lv.
  - intros y Hy. destruct (decide (x = y)) as [<-|Hne]; [by rewrite lookup_insert_eq|]. rewrite lookup_insert_ne by done.
    apply Dn. by apply elem_of_cons in Hy as [->|].
  - by apply waiting_frame.
  - intros y d. rewrite lookup_insert_Some. intros [[_ ?]|[_ H]]; [done|by apply Ds].
  - rewrite E5, Jn. destruct ph as [|w [| | |]| |]; cbn in Ph |- *; try (by destruct ds); destruct_and?; try done.
  - destruct ph as [|[y|] d|y|[y|]]; cbn in Ph, N3 |- *; try done; rewrite ?E1, ?E2, ?E3.
    + destruct Ph as [A B]. rewrite lookup_insert_ne by (intros ->; congruence). destruct d; naive_solver.
    + destruct d; naive_solver.
    + destruct Ph as (A & B & C & D). done.
    + naive_solver.
    + naive_solver.
Qed.

(** The destroying thread goes on. *)
Lemma th_destroy s s' live ds js w d d' :
  threads_inv s live ds js (PDest w d) -> s' = to_destroy w d' s \/ (exists y, s' = to_destroy w d' (add_joined y s)) ->
  d <> DTerminate -> d' <> DTerminate ->
  pool_joined s' = (if past_join (PDest w d') then ds else tail ds) ->
  match d' with DTerminate | DWait => True | DJoin t => live = [] /\ t = tid (po s) | DDrain => live = [] /\ js = [] end ->
  threads_inv s' live ds js (PDest w d').
Proof.
  intros I Hs Hd Hd' Jn' Hp. th_open I. destruct Ph as [A _].
  assert (Dt : detached (PDest w d') = detached (PDest w d)) by (by destruct w, d, d').
  assert (T' : terminate (po s) = true) by (by destruct d).
  assert (E : po s' = po s /\ creating s' = creating s) by (destruct Hs as [-> | [y ->]]; by destruct w). destruct E as [E1 E2].
  destruct w as [x|].
  - assert (E : thr s' = <[x := TDestroy d']> (thr s)) by (destruct Hs as [-> | [y ->]]; done).
    assert (E3 : ext s' = ext s) by (destruct Hs as [-> | [y ->]]; done).
    assert (Dx : detached (PDest (Inside x) d) = [x]) by (by destruct d). cbn [at_destroy] in A.
    assert (Nx : (x ∉ live) /\ (x ∉ ds) /\ (x ∉ js)).
    { rewrite Dx in Nd. rewrite !app_assoc in Nd. apply NoDup_app in Nd as (_ & Nx & _).
      rewrite <- !not_elem_of_app, !app_assoc. intros Hx. apply (Nx _ Hx). by apply list_elem_of_singleton. }
    destruct Nx as (N1 & N2 & N3). constructor; rewrite ?E, ?E1, ?E2, ?E3, ?Dt; try done.
    + intros y. rewrite <- Dm. by eapply insert_known.
    + intros y k Hy. rewrite lookup_insert_ne by (by intros ->). by apply Lv.
    + intros y Hy. rewrite lookup_insert_ne by (by intros ->). by apply Dn.
    + by apply waiting_frame.
    + intros y k. rewrite lookup_insert_Some. intros [[<- [= <-]]|[Hne H]]; [done|]. apply Ds in H. congruence.
    + rewrite T'. by destruct d'.
    + split; [cbn; by rewrite E, lookup_insert_eq|by rewrite E1].
  - assert (E : thr s' = thr s) by (destruct Hs as [-> | [y ->]]; done).
    assert (E3 : ext s' = Some d') by (destruct Hs as [-> | [y ->]]; done).
    constructor; rewrite ?E, ?E1, ?E2, ?E3, ?Dt; try done.
    + intros y k H. by apply Ds in H.
    + rewrite T'. by destruct d'.
    + split; [done|by rewrite E1].
Qed.

Lemma th_freed_out s ds : threads_inv s [] ds [] (PDest Outside DDrain) -> queue (po s) = [] ->
  threads_inv (end_destroy Outside s) [] ds [] (PFreed Outside).
Proof. intros I Hq. th_open I. constructor; cbn; try done. intros x d H. by apply Ds in H. Qed.

Lemma th_returning s ds x : threads_inv s [] ds [] (PDest (Inside x) DDrain) -> queue (po s) = [] ->
  threads_inv (end_destroy (Inside x) s) [] ds [] (PReturn x).
Proof.
  intros I Hq. th_open I. destruct Ph as [A _]. cbn in A, Nd, Dm.
  assert (Nx : x ∉ ds). { apply NoDup_app in Nd as (_ & Nx & _). intros Hx. apply (Nx _ Hx). by apply list_elem_of_singleton. }
  constructor; cbn; try done.
  - intros y. rewrite <- Dm. by eapply insert_known.
  - by intros y k ?%not_elem_of_nil.
  - intros y Hy. rewrite lookup_insert_ne by (by intros ->). by apply Dn.
  - intros y d. rewrite lookup_insert_Some. intros [[<- ?]|[Hne H]]; [done|]. apply Ds in H. congruence.
  - by rewrite lookup_insert_eq.
Qed.
Lemma th_freed_in s ds x : threads_inv s [] ds [] (PReturn x) ->
  threads_inv (set_thr x TDone (set_po (free_pool (po s)) s)) [] ds [] (PFreed (Inside x)).
Proof.
  intros I. th_open I. destruct Ph as (A & _ & _ & Hq). cbn in A, Nd, Dm.
  assert (Nx : x ∉ ds). { apply NoDup_app in Nd as (_ & Nx & _). intros Hx. apply (Nx _ Hx). by apply list_elem_of_singleton. }
  constructor; cbn; try done.
  - intros y. rewrite <- Dm. by eapply insert_known.
  - by intros y k ?%not_elem_of_nil.
  - intros y Hy. rewrite lookup_insert_ne by (by intros ->). by apply Dn.
  - intros y d. rewrite lookup_insert_Some. intros [[<- ?]|[Hne H]]; [done|]. by apply Ds in H.
  - by rewrite lookup_insert_eq.
Qed.

Lemma th_nil s ds js ph live : threads_inv s live ds js ph -> creating s = false -> nthreads (po s) = 0 -> live = [].
Proof.
  intros I Hc Hn. pose proof (th_count _ _ _ _ _ I) as Ct. rewrite Hc, Hn in Ct. cbn in Ct.
  apply length_zero_iff_nil. lia.
Qed.
Lemma th_live_count s live ds js ph x : threads_inv s live ds js ph -> x ∈ live -> 0 < nthreads (po s).
Proof.
  intros I Hx. destruct live as [|y live]; [by apply not_elem_of_nil in Hx|].
  pose proof (th_count _ _ _ _ _ I) as Ct. pose proof (th_creating _ _ _ _ _ I) as Cr. cbn [length] in Ct.
  destruct (creating s); cbn in Ct; [auto|lia].
Qed.
Lemma th_caller s live ds js ph : threads_inv s live ds js ph -> caller s -> ph = PRun \/ exists w d, ph = PDest w d.
Proof.
  intros I [(x & t & Hx)|(E1 & E2 & E3 & E4)].
  - destruct (th_class _ _ _ _ _ _ _ I Hx) as [[Hl _]|[[_ ?]|[[_ [? ?]]|[_ H]]]]; [|done..|naive_solver].
    destruct (th_phase_live _ _ _ _ _ (th_phase _ _ _ _ _ I) Hl); naive_solver.
  - pose proof (th_terminate _ _ _ _ _ I) as T. rewrite E2 in T. destruct ph as [|w [| | |]| |]; naive_solver.
Qed.

(** Where a thread at work is. *)
Lemma th_working s live ds js ph x k : threads_inv s live ds js ph -> thr s !! x = Some k -> working k ->
  x ∈ live \/ ph = PReturn x /\ k = TAfter.
Proof.
  intros I Hk W. destruct (th_class _ _ _ _ _ _ _ I Hk) as [[? _]|[[_ ->]|[[_ [? ->]]|[_ H]]]]; [by left|done..|].
  destruct H as [(d & _ & Hd & ->)|[?|[_ ->]]]; [by destruct d|by right|done].
Qed.

Definition threads_ok (s : psys) : Prop := exists live ds js ph, threads_inv s live ds js ph.

Lemma ok_move s s' x k k' q : threads_ok s -> thr s !! x = Some k -> working k -> working k' -> k <> TAfter ->
  (forall d, k <> TDestroy d) -> (forall d, k' <> TDestroy d) ->
  thr s' = <[x := k']> (thr s) -> po s' = with_queue q (po s) ->
  ext s' = ext s -> creating s' = creating s -> pool_joined s' = pool_joined s -> threads_ok s'.
Proof.
  intros (live & ds & js & ph & I) Hk W W' Na. intros. exists live, ds, js, ph.
  destruct (th_working _ _ _ _ _ _ _ I Hk W) as [Hl|[_ ?]]; [|done]. by eapply th_move.
Qed.

Lemma ok_after s x : threads_ok s -> thr s !! x = Some TAfter ->
  threads_ok (if nthreads (po s) =? 0 then set_thr x TDone (set_po (free_pool (po s)) s) else set_thr x TTest s).
Proof.
  intros (live & ds & js & ph & I) Hk. destruct (th_working _ _ _ _ _ _ _ I Hk) as [Hl|[-> _]]; [done|..].
  - pose proof (th_live_count _ _ _ _ _ _ I Hl). rewrite (proj2 (Z.eqb_neq _ 0)) by lia.
    exists live, ds, js, ph. eapply (th_move _ _ _ _ _ _ x _ TTest (queue (po s))); try done. by destruct s as [[]].
  - assert (E : live = [] /\ js = []) by (destruct (th_phase _ _ _ _ _ I) as (_ & -> & -> & _); done).
    destruct E as [-> ->]. pose proof (th_count _ _ _ _ _ I) as Ct. pose proof (th_creating _ _ _ _ _ I) as Cr. cbn in Ct.
    assert (E : nthreads (po s) = 0) by (destruct (creating s); cbn in Ct; [|lia]; specialize (Cr eq_refl); lia).
    rewrite E. exists [], ds, [], (PFreed (Inside x)). by apply th_freed_in.
Qed.

Lemma ok_joined s s' x p : threads_ok s -> thr s !! x = Some (TJoin p) ->
  (p = None /\ s' = set_thr x TDone s) \/
  (exists y, p = Some y /\ thr s !! y = Some TDone /\ s' = set_thr x TDone (add_joined y s)) -> threads_ok s'.
Proof.
  intros (live & ds & js & ph & I) Hk Hs.
  destruct (th_class _ _ _ _ _ _ _ I Hk) as [[_ ?]|[[_ ?]|[[Hj _]|[_ H]]]]; [done|done| |naive_solver].
  destruct (waiting_pred _ _ _ _ (th_wait _ _ _ _ _ I) Hj) as (p' & Hp & Hc).
  assert (p' = p) as -> by congruence.
  destruct Hc as [(js' & -> & ->)|(y & q & _ & -> & Hy)].
  - exists live, (x :: ds), js', ph.
    destruct Hs as [[E ->]|(y & E & _ & ->)]; eapply th_gone; try done; cbn; by rewrite E.
  - destruct Hs as [[? _]|(z & [= <-] & Hz & _)]; [done|]. congruence.
Qed.

Lemma ok_terminate s w : threads_ok s -> at_destroy w DTerminate s -> creating s = false ->
  threads_ok (to_destroy w DWait (set_po (__thrdpool_terminate (in_pool w) (po s)) s)).
Proof.
  intros (live & ds & js & ph & I) A Hc. assert (ph = PDest w DTerminate) as -> by (by eapply th_at). destruct w as [x|].
  - destruct (th_working _ _ _ _ _ _ _ I A) as [Hl|[? _]]; [done| |done].
    destruct (live_split _ _ _ _ _ _ I Hl) as (live' & I' & _). exists live', ds, js, (PDest (Inside x) DWait).
    by apply th_terminated.
  - exists live, ds, js, (PDest Outside DWait). by apply th_terminated_out.
Qed.

Lemma ok_wait s w : threads_ok s -> at_destroy w DWait s -> creating s = false -> nthreads (po s) = 0 ->
  threads_ok (to_destroy w (DJoin (tid (po s))) s).
Proof.
  intros (live & ds & js & ph & I) A Hc Hn. assert (ph = PDest w DWait) as -> by (by eapply th_at).
  assert (live = []) as -> by (by eapply th_nil). exists [], ds, js, (PDest w (DJoin (tid (po s)))).
  eapply th_destroy; [exact I|by left|done..| |done].
  pose proof (th_joined _ _ _ _ _ I) as Jn. cbn [past_join] in Jn |- *. rewrite <- Jn. by destruct w.
Qed.

Lemma ok_djoin s s' w p : threads_ok s -> at_destroy w (DJoin p) s ->
  (p = None /\ s' = to_destroy w DDrain s) \/
  (exists y, p = Some y /\ thr s !! y = Some TDone /\ s' = to_destroy w DDrain (add_joined y s)) -> threads_ok s'.
Proof.
  intros (live & ds & js & ph & I) A Hs. assert (ph = PDest w (DJoin p)) as -> by (by eapply th_at).
  destruct (th_phase _ _ _ _ _ I) as (_ & -> & Ep). rewrite (th_tid _ _ _ _ _ I) in Ep.
  assert (js = []) as ->.
  { destruct (waiting_end _ _ _ (th_wait _ _ _ _ _ I)) as [->|(y & q & E & _ & Hy)]; [done|].
    destruct Hs as [[-> _]|(z & -> & Hz & _)]; congruence. }
  cbn in Ep. pose proof (th_joined _ _ _ _ _ I) as Jn. cbn in Jn. exists [], ds, [], (PDest w DDrain).
  eapply th_destroy; [exact I| |done|done| |done].
  - destruct Hs as [[_ ->]|(y & _ & _ & ->)]; eauto.
  - destruct Hs as [[-> ->]|(y & -> & _ & ->)]; destruct w, ds; cbn in *; congruence.
Qed.

Lemma ok_end s w : threads_ok s -> at_destroy w DDrain s -> queue (po s) = [] -> threads_ok (end_destroy w s).
Proof.
  intros (live & ds & js & ph & I) A Hq. assert (ph = PDest w DDrain) as -> by (by eapply th_at).
  destruct (th_phase _ _ _ _ _ I) as (_ & -> & ->). destruct w as [x|].
  - exists [], ds, [], (PReturn x). by apply th_returning.
  - exists [], ds, [], (PFreed Outside). by apply th_freed_out.
Qed.

(** No one destroys a pool that is at work. *)
Lemma th_run s live ds js ph : threads_inv s live ds js ph -> ext s = None -> (forall x d, thr s !! x <> Some (TDestroy d)) ->
  terminate (po s) = false -> ph = PRun.
Proof.
  intros I E N T. pose proof (th_terminate _ _ _ _ _ I) as T'. pose proof (th_ext _ _ _ _ _ I) as E'.
  pose proof (th_phase _ _ _ _ _ I) as P. destruct ph as [|[y|] [| | |]| |]; cbn in *; try congruence.
  destruct P as [P _]. by apply N in P.
Qed.

Lemma with_queue_same p : p = with_queue (queue p) p.
Proof. by destruct p. Qed.

Lemma ok_step l a b : pstep l a b -> guarded a b -> threads_ok a -> threads_ok b.
Proof.
  intros St G T. destruct St as [s e t q ev C _ _ _|s x C Hc Hx|s Hc|s E N Tm _|s x Hx|s x e q t Hx _ _|s x Hx _ _
    |s x t Hx|s x t Hx|s x t Hx E N Tm|s x Hx|s x Hx Hc|s x Hx|s x y Hx Hy|s w A Hc|s w A Hc Hn|s w A|s w y A Hy
    |s w e q t A _ _|s w A D].
  - destruct T as (live & ds & js & ph & I). exists live, ds, js, ph. eapply th_queue; try done. by eapply th_caller.
  - destruct T as (live & ds & js & ph & I). exists (x :: live), ds, js, ph. apply th_create; try done. by apply G.
  - destruct T as (live & ds & js & ph & I). exists live, ds, js, ph. by apply th_counted.
  - destruct T as (live & ds & js & ph & I). assert (ph = PRun) as -> by (by eapply th_run).
    exists live, ds, js, (PDest Outside DTerminate). by apply th_call_out.
  - eapply (ok_move s _ x TTest _ (queue (po s))); try done; try (by destruct (terminate _)). apply with_queue_same.
  - eapply (ok_move s _ x TGet _ q); try done; by destruct t.
  - eapply (ok_move s _ x TGet TExit (queue (po s))); try done. apply with_queue_same.
  - eapply (ok_move s _ x _ TAfter (queue (po s))); try done. apply with_queue_same.
  - eapply (ok_move s _ x _ TExit (queue (po s))); try done. apply with_queue_same.
  - destruct T as (live & ds & js & ph & I). assert (ph = PRun) as -> by (by eapply th_run).
    destruct (th_working _ _ _ _ _ _ _ I Hx) as [Hl|[? _]]; [done| |done].
    exists live, ds, js, (PDest (Inside x) DTerminate). by eapply th_call.
  - by apply ok_after.
  - destruct T as (live & ds & js & ph & I). destruct (th_working _ _ _ _ _ _ _ I Hx) as [Hl|[_ ?]]; [done| |done].
    destruct (live_split _ _ _ _ _ _ I Hl) as (live' & I' & _). exists live', ds, (js ++ [x]), ph. by apply th_leave.
  - eapply ok_joined; [done|done|by left].
  - eapply ok_joined; [done|done|right; by exists y].
  - by apply ok_terminate.
  - by apply ok_wait.
  - eapply ok_djoin; [done|done|by left].
  - eapply ok_djoin; [done|done|right; by exists y].
  - destruct T as (live & ds & js & ph & I). exists live, ds, js, ph. eapply th_queue; try done.
    right. exists w, DDrain. by eapply th_at.
  - apply ok_end; [done|done|]. by inversion D.
Qed.

Lemma create_threads_le n g : (create_threads n g <= n)%nat.
Proof. revert g. induction n as [|n IH]; intros [|[|] g]; cbn; [lia..| |lia]. specialize (IH g). lia. Qed.

Lemma ok_init n g : Z.of_nat n < 2 ^ 64 -> threads_ok (thrdpool_create n g).
Proof.
  intros Hn. unfold thrdpool_create. pose proof (create_threads_le n g). set (k := create_threads n g) in *.
  set (m := (list_to_map ((fun i => (Pos.of_succ_nat i, TTest)) <$> seq 0 k) : gmap thread tstate)).
  assert (Hf : NoDup (Pos.of_succ_nat <$> seq 0 k)) by (apply NoDup_fmap_2; [intros ? ?; lia|apply NoDup_seq]).
  assert (Hd : forall x, is_Some (m !! x) <-> x ∈ Pos.of_succ_nat <$> seq 0 k).
  { intros x. rewrite <- elem_of_dom. unfold m. rewrite dom_list_to_map, elem_of_list_to_set.
    rewrite <- list_fmap_compose. done. }
  assert (Hm : forall x v, m !! x = Some v -> v = TTest).
  { intros x v H2%elem_of_list_to_map_2. by apply list_elem_of_fmap in H2 as (i & [= _ ->] & _). }
  exists (Pos.of_succ_nat <$> seq 0 k), [], [], (if (k =? n)%nat then PRun else PDest Outside DTerminate).
  constructor; cbn; try done; try (by destruct (k =? n)%nat); rewrite ?length_fmap, ?length_seq.
  - destruct (k =? n)%nat; cbn; by rewrite app_nil_r.
  - intros x. rewrite Hd. destruct (k =? n)%nat; cbn; by rewrite app_nil_r.
  - intros x v _ Hx. by rewrite (Hm _ _ Hx).
  - by intros x ?%not_elem_of_nil.
  - lia.
  - lia.
  - intros x d Hx. by apply Hm in Hx.
Qed.

Lemma ok_reach n g s : Z.of_nat n < 2 ^ 64 -> preach n g s -> threads_ok s.
Proof. intros Hn. induction 1 as [|l a b _ IH St G]; [by apply ok_init|by eapply ok_step]. Qed.

(** ** The end of the pool *)

(** The work left when the pool is terminated. *)
Definition drank (d : dstate) : nat := match d with DTerminate => 4 | DWait => 3 | DJoin _ => 2 | DDrain => 1 end.
Definition rank (k : tstate) : nat :=
  match k with
  | TDestroy d => 6 + drank d
  | TGet => 6 | TRun _ => 5 | TAfter => 4 | TTest => 3 | TExit => 2 | TJoin _ => 1 | TDone => 0
  end.
Definition ranks (m : gmap thread tstate) : nat := map_fold (fun _ k n => rank k + n)%nat O m.
Definition pool_work (s : psys) : nat :=
  ranks (thr s) + length (queue (po s)) + from_option drank O (ext s) + (if creating s then 1 else 0).

Lemma ranks_insert m x k k' : m !! x = Some k -> (ranks (<[x := k']> m) + rank k = ranks m + rank k')%nat.
Proof.
  intros H. unfold ranks. rewrite (map_fold_delete_L _ _ x k m) by (done || intros; lia).
  rewrite <- insert_delete_eq. rewrite map_fold_insert_L by (done || apply lookup_delete_eq || intros; lia). lia.
Qed.

(** A run of the pool and of its tasks. *)
Inductive prun : nat -> psys -> psys -> Prop :=
  | prun_done s : prun 0 s s
  | prun_step n l a b c : l <> AClient -> pstep l a b -> prun n b c -> prun (S n) a c.

Lemma step_terminate l a b : pstep l a b -> terminate (po a) = true -> terminate (po b) = true.
Proof. intros St T. destruct St; try (by destruct w); cbn; try done. by destruct (_ =? 0). Qed.

Lemma step_guarded l a b : pstep l a b -> l <> AClient -> guarded a b.
Proof.
  intros St Hl E1 E2. exfalso. destruct St; try done; cbn in *; try congruence; try (destruct w; cbn in *; congruence).
  destruct (_ =? 0); cbn in *; congruence.
Qed.

Lemma step_work l a b : pstep l a b -> l <> AClient -> terminate (po a) = true -> (pool_work b < pool_work a)%nat.
Proof.
  intros St Hl T. unfold pool_work.
  destruct St as [s e t q ev C _ _ _|s x C Hc Hx|s Hc|s E N Tm _|s x Hx|s x e q t Hx D _|s x Hx _ _
    |s x t Hx|s x t Hx|s x t Hx E N Tm|s x Hx|s x Hx Hc|s x Hx|s x y Hx Hy|s w A Hc|s w A Hc Hn|s w A|s w y A Hy
    |s w e q t A D _|s w A D]; try done; try (destruct w as [x|]; cbn in A); cbn -[rank ranks drank]; rewrite ?A, ?Hc, ?T; try (inversion D; subst).
  all: try match goal with |- context [?n =? 0] => destruct (n =? 0); cbn -[rank ranks drank] end.
  all: try match goal with t : task |- _ => destruct t end.
  all: try match goal with H : thr _ !! ?x = Some ?k |- context [ranks (<[?x := ?k']> _)] =>
    pose proof (ranks_insert _ _ _ k' H) as R; cbn [rank drank] in R end.
  all: cbn [length from_option drank]; try lia.
Qed.

Lemma run_work n a b : prun n a b -> terminate (po a) = true -> terminate (po b) = true /\ (n + pool_work b <= pool_work a)%nat.
Proof.
  induction 1 as [|n l a b c Hl St _ IH]; intros T; [auto with lia|].
  pose proof (step_work _ _ _ St Hl T). destruct (IH (step_terminate _ _ _ St T)). split; [done|lia].
Qed.

Lemma run_reach n g k a b : prun k a b -> preach n g a -> preach n g b.
Proof.
  induction 1 as [|k l a b c Hl St _ IH]; intros R; [done|]. apply IH. by eapply preach_step, step_guarded.
Qed.

(** A thread at work can go on, or leaves. *)
Lemma step_live s live ds js ph x : threads_inv s live ds js ph -> tasks_inv s -> terminate (po s) = true ->
  x ∈ live -> creating s = false -> exists l b, l <> AClient /\ pstep l s b.
Proof.
  intros I Ti T Hx Hc. assert (Hs : is_Some (thr s !! x)) by (apply (th_dom _ _ _ _ _ I); apply elem_of_app; by left).
  destruct Hs as [k Hk]. pose proof (th_live _ _ _ _ _ I _ _ Hx Hk) as W.
  destruct k as [| |t| | |p|[| | |]|]; try done.
  - exists APool. eexists. split; [done|]. by apply ps_test.
  - destruct (queue (po s)) as [|e q] eqn:Eq.
    + exists APool. eexists. split; [done|]. eapply ps_null; [done|rewrite Eq; constructor|].
      by rewrite (th_nonblock _ _ _ _ _ I).
    + assert (He : is_Some (entries s !! e)) by (apply (ti_dom _ Ti); rewrite Eq; by constructor).
      destruct He as [t He]. exists APool. eexists. split; [done|]. eapply ps_get; [done|rewrite Eq; constructor|done].
  - exists ATask. eexists. split; [done|]. by eapply ps_return.
  - exists APool. eexists. split; [done|]. by apply ps_after.
  - exists APool. eexists. split; [done|]. by apply ps_leave.
  - pose proof (th_terminate _ _ _ _ _ I) as T'. rewrite (th_dest _ _ _ _ _ I _ _ Hk) in T'. congruence.
Qed.

(** A pool being destroyed is never stuck. *)
Lemma step_progress s : threads_ok s -> tasks_inv s -> terminate (po s) = true -> pool_freed (po s) = false ->
  exists l b, l <> AClient /\ pstep l s b.
Proof.
  intros (live & ds & js & ph & I) Ti T F.
  destruct (creating s) eqn:Hc; [exists APool; eexists; split; [done|]; by apply ps_count|].
  destruct live as [|x live]; [|eapply step_live; [done..|by constructor|done]].
  destruct js as [|y js].
  2:{ pose proof (th_wait _ _ _ _ _ I) as [Hk _]. destruct ds as [|d ds]; exists APool; eexists; (split; [done|]).
      - by apply ps_join_none.
      - eapply ps_join; [done|]. apply (th_done _ _ _ _ _ I). by constructor. }
  pose proof (th_phase _ _ _ _ _ I) as P. pose proof (th_terminate _ _ _ _ _ I) as T'.
  pose proof (th_freed _ _ _ _ _ I) as F'. pose proof (th_count _ _ _ _ _ I) as Ct. rewrite Hc in Ct. cbn in Ct.
  destruct ph as [|w d|x|w]; cbn in P; [congruence| |destruct P; exists APool; eexists; split; [done|]; by apply ps_after|congruence].
  destruct P as [A P]. destruct d as [| |t|]; [congruence|..].
  - exists APool. eexists. split; [done|]. eapply ps_wait; [done|done|lia].
  - destruct P as [_ ->]. rewrite (th_tid _ _ _ _ _ I) in A. cbn in A. destruct ds as [|d ds]; exists APool; eexists; (split; [done|]).
    + by eapply ps_djoin_none.
    + eapply ps_djoin; [done|]. apply (th_done _ _ _ _ _ I). by constructor.
  - destruct (queue (po s)) as [|e q] eqn:Eq.
    + exists APool. eexists. split; [done|]. eapply ps_end; [done|rewrite Eq; constructor].
    + assert (He : is_Some (entries s !! e)) by (apply (ti_dom _ Ti); rewrite Eq; by constructor).
      destruct He as [t He]. exists APool. eexists. split; [done|]. eapply ps_drain; [done|rewrite Eq; constructor|done].
Qed.

Lemma no_destroyer s w d : at_destroy w d s -> ext s = None -> (forall x k, thr s !! x = Some k -> k = TDone) -> False.
Proof. intros A E D. destruct w; cbn in A; [by apply D in A|congruence]. Qed.

(** ** The contract *)

(** C29. Every task is taken by a worker, handed to [pending] or still queued, exactly
    once: no task is lost or run twice, whatever the threads of the pool do. *)
Theorem thrdpool_tasks_once n granted s : preach n granted s ->
  NoDup (queue (po s)) /\ (forall e, e ∈ queue (po s) <-> is_Some (entries s !! e)) /\
  scheduled s ≡ₚ executed s ++ handed s ++ (queue (po s) ≫= entry_tasks (entries s)).
Proof. intros R. by destruct (tasks_reach _ _ _ R). Qed.

(** C30. The pool is freed when everything is over, and nothing touches it any more:
    no step is possible, every thread has returned, each was joined exactly once
    (the one thread that is not is the task that destroyed its own pool, which was
    detached), every entry is freed and every task was taken or handed back. *)
Theorem thrdpool_destroy_correct n granted s : Z.of_nat n < 2 ^ 64 -> preach n granted s -> pool_freed (po s) = true ->
  (forall l s', ~ pstep l s s') /\
  (forall x k, thr s !! x = Some k -> k = TDone) /\
  (exists det, (length det <= 1)%nat /\ NoDup (det ++ pool_joined s) /\
    forall x, is_Some (thr s !! x) <-> x ∈ det ++ pool_joined s) /\
  queue (po s) = [] /\ entries s = ∅ /\ scheduled s ≡ₚ executed s ++ handed s.
Proof.
  intros Hn R F. pose proof (tasks_reach _ _ _ R) as Ti. destruct (ok_reach _ _ _ Hn R) as (live & ds & js & ph & I).
  pose proof (th_freed _ _ _ _ _ I) as F'. rewrite F in F'. destruct ph as [| | |w]; try done.
  destruct (th_phase _ _ _ _ _ I) as (-> & -> & Q & _).
  assert (Dn : forall x k, thr s !! x = Some k -> k = TDone).
  { intros x k Hk. destruct (th_class _ _ _ _ _ _ _ I Hk) as [[?%not_elem_of_nil _]|[[_ ?]|[[?%not_elem_of_nil _]|[_ H]]]];
      [done|done|done|naive_solver]. }
  split_and!; [|done| |done| |].
  - intros l s' St. pose proof (th_creating _ _ _ _ _ I) as Cr. pose proof (th_count _ _ _ _ _ I) as Ct. cbn in Ct.
    pose proof (th_ext _ _ _ _ _ I) as E. cbn in E.
    assert (C : ~ caller s) by (intros [(x & t & Hx)|(_ & _ & ? & _)]; [by apply Dn in Hx|congruence]).
    assert (Hc : creating s = false) by (destruct (creating s); [specialize (Cr eq_refl); cbn in Ct; lia|done]).
    destruct St; try done; try congruence; try (match goal with H : thr _ !! _ = Some _ |- _ => by apply Dn in H end);
      by eapply no_destroyer.
  - pose proof (th_joined _ _ _ _ _ I) as Jn. cbn in Jn. rewrite Jn. exists (detached (PFreed w)).
    pose proof (th_nodup _ _ _ _ _ I) as Nd. cbn [app] in Nd. split_and!.
    + by destruct w; cbn; lia.
    + by rewrite Permutation_app_comm.
    + intros x. rewrite (th_dom _ _ _ _ _ I). cbn [app]. by rewrite (Permutation_app_comm ds).
  - apply map_empty. intros e. destruct (entries s !! e) eqn:He; [|done].
    assert (He' : e ∈ queue (po s)) by (apply (ti_dom _ Ti); by rewrite He). rewrite Q in He'. by apply not_elem_of_nil in He'.
  - pose proof (ti_tasks _ Ti) as P. rewrite Q in P. cbn in P. by rewrite app_nil_r in P.
Qed.

(** C31. A pool that is terminated comes to its end: the pool and its tasks make at
    most [pool_work] steps, and as long as the pool is not freed one of them can
    make a step; no thread waits for ever, neither for its predecessor in the chain
    of joins nor in the destroying call. *)
Theorem thrdpool_destroy_terminates n granted s : Z.of_nat n < 2 ^ 64 -> preach n granted s -> terminate (po s) = true ->
  forall k s', prun k s s' -> (k <= pool_work s)%nat /\
    (pool_freed (po s') = true \/ exists l s'', l <> AClient /\ pstep l s' s'').
Proof.
  intros Hn R T k s' Hr. destruct (run_work _ _ _ Hr T) as [T' Hk]. split; [lia|].
  pose proof (run_reach _ _ _ _ _ Hr R) as R'. destruct (pool_freed (po s')) eqn:F; [by left|right].
  apply step_progress; [by eapply ok_reach|by eapply tasks_reach|done|done].
Qed.

(** A task destroys the pool of one thread it runs in, while another task is queued. *)
Definition demo_terminated : psys :=
  mk_psys (mk_pool [11%positive] true 0 None true false) {[ 1%positive := TDestroy DWait ]} None false
    {[ 11%positive := TUser 8 ]} [] [7%positive] [] [8%positive; 7%positive].
Definition demo_freed : psys :=
  mk_psys (mk_pool [] true 0 None true true) {[ 1%positive := TDone ]} None false ∅ [] [7%positive] [8%positive] [8%positive; 7%positive].

Lemma no_dest_ok s : forallb (fun p => match p.2 with TDestroy _ => false | _ => true end) (map_to_list (thr s)) = true ->
  forall x d, thr s !! x <> Some (TDestroy d).
Proof. intros H x d Hx. apply elem_of_map_to_list in Hx. rewrite forallb_forall in H. apply list_elem_of_In, H in Hx. done. Qed.
Lemma caller_idle s : ext s = None -> terminate (po s) = false -> pool_freed (po s) = false ->
  forallb (fun p => match p.2 with TDestroy _ => false | _ => true end) (map_to_list (thr s)) = true -> caller s.
Proof. intros. right. split_and!; try done. by apply no_dest_ok. Qed.

Tactic Notation "pool_step" hyp(H) uconstr(st) := let N := fresh in
  unshelve epose proof (preach_step _ _ _ _ _ H st _) as N;
  [first [reflexivity | by econstructor | by intros ? ? | by left; eauto | by apply caller_idle | by apply no_dest_ok]..|clear H; rename N into H].

Lemma demo_terminated_reach : preach 1 [true] demo_terminated.
Proof.
  pose proof (preach_init 1 [true]) as H.
  pool_step H (ps_schedule _ 10 (TUser 7) [10%positive] (EPut 10) _ _ _ _).
  pool_step H (ps_schedule _ 11 (TUser 8) [10%positive; 11%positive] (EPut 11) _ _ _ _).
  pool_step H (ps_test _ 1%positive _).
  pool_step H (ps_get _ 1%positive 10%positive [11%positive] (TUser 7) _ _ _).
  pool_step H (ps_destroy_call _ 1%positive 7%positive _ _ _ _).
  pool_step H (ps_terminate _ (Inside 1%positive) _ _).
  exact H.
Qed.
Lemma demo_freed_reach : preach 1 [true] demo_freed.
Proof.
  pose proof demo_terminated_reach as H.
  pool_step H (ps_wait _ (Inside 1%positive) _ _ _).
  pool_step H (ps_djoin_none _ (Inside 1%positive) _).
  pool_step H (ps_drain _ (Inside 1%positive) 11%positive [] (TUser 8) _ _ _).
  pool_step H (ps_end _ (Inside 1%positive) _ _).
  pool_step H (ps_after _ 1%positive _).
  exact H.
Qed.

Lemma thrdpool_tasks_once_witness : scheduled demo_terminated ≡ₚ executed demo_terminated ++ handed demo_terminated ++ [8%positive].
Proof. exact (proj2 (proj2 (thrdpool_tasks_once 1 [true] demo_terminated demo_terminated_reach))). Defined.

Lemma thrdpool_destroy_correct_witness : preach 1 [true] demo_freed /\ scheduled demo_freed ≡ₚ executed demo_freed ++ handed demo_freed.
Proof. split; [exact demo_freed_reach|]. by apply (thrdpool_destroy_correct 1 [true] demo_freed ltac:(lia) demo_freed_reach). Defined.

Lemma thrdpool_destroy_terminates_witness : preach 1 [true] demo_terminated /\ (forall k s', prun k demo_terminated s' -> (k <= 10)%nat).
Proof. split; [exact demo_terminated_reach|]. intros k s' H. by apply (thrdpool_destroy_terminates 1 [true] demo_terminated ltac:(lia) demo_terminated_reach eq_refl k s'). Defined.
