(* ===== verification/JsonText.v ===== *)
(** * The strings of JSON texts: [src/util/json_parser.c]

    The scanner reads a NUL-terminated text through [cursor], the list of the
    bytes from the pointer to the terminator: reading past it gives [None], like
    any other undefined behaviour ([int] overflow, a write outside the buffer).  A
    function that can fail returns [inl] of the negative code the source returns,
    or [inr] of what it stores through its pointers.

    [jchars] is the specification: which texts between two quotes are strings, and
    the bytes they stand for. *)

From S2P Require Import Prelude CLib.

Local Open Scope Z_scope.

(** ** Results *)

(** [None]: undefined behaviour; [Some (inl ret)]: the error [ret < 0]. *)
Abbreviation res A := (option (Z + A)).

Definition rbind {A B} (e : res A) (k : A -> res B) : res B :=
  match e with None => None | Some (inl r) => Some (inl r) | Some (inr x) => k x end.

Declare Scope res_scope.
Notation "x <-! e ; k" := (rbind e (fun x => k))
  (at level 20, e at level 100, k at level 200, only parsing) : res_scope.
Notation "' x <-! e ; k" := (rbind e (fun x => k))
  (at level 20, x pattern, e at level 100, k at level 200, only parsing) : res_scope.
Local Open Scope res_scope.

(** [n++] on an [int]. *)
Definition int_incr (n : Z) : option Z := if n =? 2 ^ 31 - 1 then None else Some (n + 1).

(** ** The operations *)

(** The loop of [__json_string_length], entered with [len = n]. *)
Fixpoint string_length_loop (cursor : list Z) (n : Z) : option Z :=
  match cursor with
  | [] => None
  | c :: s =>
      if c =? 34 then Some n
      else if c =? 92 then
        match s with
        | [] => None
        | c :: s => if c =? NUL then Some (-2) else n ← int_incr n; string_length_loop s n
        end
      else if c <? 32 then Some (-2)
      else n ← int_incr n; string_length_loop s n
  end.

Definition __json_string_length (cursor : list Z) : option Z := string_length_loop cursor 0.

Fixpoint hex4_loop (i : nat) (cursor : list Z) (code : Z) : res (list Z * Z) :=
  match i with
  | O => Some (inr (cursor, code))
  | S i =>
      match cursor with
      | [] => None
      | c :: s =>
          match hex_value c with
          | Some hex => hex4_loop i s (u32 (Z.shiftl code 4 + hex))
          | None => Some (inl (-2))
          end
      end
  end.

Definition __parse_json_hex4 (cursor : list Z) : res (list Z * Z) := hex4_loop 4 cursor 0.

(** The bytes stored in [utf8], each converted to [char]. *)
Definition utf8_bytes (code : Z) : list Z :=
  map u8
    (if code <=? 0x7f then [code]
     else if code <=? 0x7ff then
       [Z.lor 0xc0 (Z.shiftr code 6); Z.lor 0x80 (Z.land code 0x3f)]
     else if code <=? 0xffff then
       [Z.lor 0xe0 (Z.shiftr code 12); Z.lor 0x80 (Z.land (Z.shiftr code 6) 0x3f);
        Z.lor 0x80 (Z.land code 0x3f)]
     else
       [Z.lor 0xf0 (Z.shiftr code 18); Z.lor 0x80 (Z.land (Z.shiftr code 12) 0x3f);
        Z.lor 0x80 (Z.land (Z.shiftr code 6) 0x3f); Z.lor 0x80 (Z.land code 0x3f)]).

(** The second half of a surrogate pair: [*end] and the code point. *)
Definition surrogate_pair (cursor : list Z) (code : Z) : res (list Z * Z) :=
  match cursor with
  | [] => None
  | c :: s =>
      if negb (c =? 92) then Some (inl (-2))
      else match s with
      | [] => None
      | c :: s =>
          if negb (c =? 117) then Some (inl (-2))
          else
            '(fin, next) <-! __parse_json_hex4 s;
            if (next <? 0xdc00) || (0xdfff <? next) then Some (inl (-2))
            else Some (inr (fin,
              u32 (Z.lor (Z.shiftl (Z.land code 0x3ff) 10) (Z.land next 0x3ff) + 0x10000)))
      end
  end.

(** [*end] and the bytes written to [utf8]. *)
Definition __parse_json_unicode (cursor : list Z) : res (list Z * list Z) :=
  '(fin, code) <-! __parse_json_hex4 cursor;
  if (0xdc00 <=? code) && (code <=? 0xdfff) then Some (inl (-2))
  else
    '(fin, code) <-!
      (if (0xd800 <=? code) && (code <=? 0xdbff) then surrogate_pair fin code
       else Some (inr (fin, code)));
    Some (inr (fin, utf8_bytes code)).

Definition simple_escape (c : Z) : option Z :=
  if c =? 34 then Some 34
  else if c =? 92 then Some 92
  else if c =? 47 then Some 47
  else if c =? 98 then Some 8
  else if c =? 102 then Some 12
  else if c =? 110 then Some 10
  else if c =? 114 then Some 13
  else if c =? 116 then Some 9
  else None.

(** The loop of [__parse_json_string]: [str] points into a buffer with [room]
    bytes left, after the bytes [out] (reversed) it has stored. *)
Fixpoint string_loop (fuel : nat) (cursor : list Z) (room : Z) (out : list Z)
    : res (list Z * list Z) :=
  match fuel with
  | O => None
  | S fuel =>
      match cursor with
      | [] => None
      | c :: s =>
          if c =? 34 then if 1 <=? room then Some (inr (s, rev out)) else None
          else if c =? 92 then
            match s with
            | [] => None
            | c :: s =>
                match simple_escape c with
                | Some e =>
                    if 1 <=? room then string_loop fuel s (room - 1) (e :: out) else None
                | None =>
                    if c =? 117 then
                      '(s, utf8) <-! __parse_json_unicode s;
                      if len utf8 <=? room
                      then string_loop fuel s (room - len utf8) (rev utf8 ++ out)
                      else None
                    else Some (inl (-2))
                end
            end
          else if 1 <=? room then string_loop fuel s (room - 1) (c :: out)
          else None
      end
  end.

(** [str] is a buffer of [room] bytes; the result is [*end] and the bytes stored
    before the terminating NUL. *)
Definition __parse_json_string (cursor : list Z) (room : Z) : res (list Z * list Z) :=
  string_loop (S (length cursor)) cursor room [].

(** ** Which texts are strings *)

(** The value of four hexadecimal digits. *)
Definition hex4 (h : list Z) (code : Z) : Prop :=
  exists a b c d va vb vc vd, h = [a; b; c; d] /\
    hex_value a = Some va /\ hex_value b = Some vb /\ hex_value c = Some vc /\ hex_value d = Some vd /\
    code = ((va * 16 + vb) * 16 + vc) * 16 + vd.

Definition is_high (code : Z) : Prop := 0xd800 <= code <= 0xdbff.
Definition is_low (code : Z) : Prop := 0xdc00 <= code <= 0xdfff.

(** The code point a surrogate pair stands for. *)
Definition pair_code (hi lo : Z) : Z := (hi - 0xd800) * 0x400 + (lo - 0xdc00) + 0x10000.

Inductive jchars : list Z -> list Z -> Prop :=
  | jc_nil : jchars [] []
  | jc_plain c t v : 32 <= c -> c <> 34 -> c <> 92 -> jchars t v -> jchars (c :: t) (c :: v)
  | jc_escape c e t v : simple_escape c = Some e -> jchars t v -> jchars (92 :: c :: t) (e :: v)
  | jc_unicode h code t v : hex4 h code -> ~ is_high code -> ~ is_low code -> jchars t v ->
      jchars (92 :: 117 :: h ++ t) (utf8_bytes code ++ v)
  | jc_pair h hi h' lo t v : hex4 h hi -> is_high hi -> hex4 h' lo -> is_low lo -> jchars t v ->
      jchars (92 :: 117 :: h ++ 92 :: 117 :: h' ++ t) (utf8_bytes (pair_code hi lo) ++ v).
#[export] Hint Constructors jchars : workflow.

(** ** Code points and UTF-8 *)

Definition is_scalar (code : Z) : Prop := 0 <= code <= 0x10ffff /\ ~ is_high code /\ ~ is_low code.

Definition is_cont (b : Z) : bool := (0x80 <=? b) && (b <=? 0xbf).

(** The decoder of RFC 3629: the first code point of a byte string and what
    follows it. *)
Definition utf8_decode (s : list Z) : option (Z * list Z) :=
  match s with
  | b0 :: s =>
      if b0 <=? 0x7f then Some (b0, s)
      else if b0 <=? 0xdf then
        match s with
        | b1 :: s =>
            let code := (b0 - 0xc0) * 64 + (b1 - 0x80) in
            if is_cont b1 && (0x80 <=? code) then Some (code, s) else None
        | _ => None
        end
      else if b0 <=? 0xef then
        match s with
        | b1 :: b2 :: s =>
            let code := ((b0 - 0xe0) * 64 + (b1 - 0x80)) * 64 + (b2 - 0x80) in
            if is_cont b1 && is_cont b2 && (0x800 <=? code) &&
              negb ((0xd800 <=? code) && (code <=? 0xdfff))
            then Some (code, s) else None
        | _ => None
        end
      else
        match s with
        | b1 :: b2 :: b3 :: s =>
            let code := (((b0 - 0xf0) * 64 + (b1 - 0x80)) * 64 + (b2 - 0x80)) * 64 + (b3 - 0x80) in
            if is_cont b1 && is_cont b2 && is_cont b3 && (0x10000 <=? code) && (code <=? 0x10ffff)
            then Some (code, s) else None
        | _ => None
        end
  | [] => None
  end.

(** Bit fields that do not overlap add up. *)
Lemma lor_shift a b k : 0 <= k -> 0 <= b < 2 ^ k -> Z.lor (a * 2 ^ k) b = a * 2 ^ k + b.
Proof.
  intros Hk Hb. symmetry. apply Z.add_nocarry_lor. rewrite <- (Z.shiftl_mul_pow2 a k Hk).
  apply Z.bits_inj'. intros n Hn. rewrite Z.land_spec, Z.bits_0.
  destruct (Z.ltb_spec n k) as [H|H].
  - by rewrite Z.shiftl_spec_low.
  - replace (Z.testbit b n) with false; [apply andb_false_r|]. symmetry.
    destruct (Z.eq_dec b 0) as [->|]; [apply Z.bits_0|]. apply Z.bits_above_log2; [lia|].
    apply Z.log2_lt_pow2; [lia|]. apply Z.lt_le_trans with (2 ^ k); [lia|].
    apply Z.pow_le_mono_r; lia.
Qed.

Lemma land_low a k : 0 <= k -> Z.land a (Z.ones k) = a mod 2 ^ k.
Proof. intros. by apply Z.land_ones. Qed.

Lemma utf8_bytes_eq code : 0 <= code <= 0x10ffff ->
  utf8_bytes code =
    (if code <=? 0x7f then [code]
     else if code <=? 0x7ff then [0xc0 + code / 64; 0x80 + code mod 64]
     else if code <=? 0xffff then [0xe0 + code / 4096; 0x80 + code / 64 mod 64; 0x80 + code mod 64]
     else [0xf0 + code / 262144; 0x80 + code / 4096 mod 64; 0x80 + code / 64 mod 64; 0x80 + code mod 64]).
Proof.
  intros Hc. unfold utf8_bytes. rewrite !Z.shiftr_div_pow2 by lia.
  change 0x3f with (Z.ones 6). rewrite !land_low by lia.
  change (2 ^ 6) with 64. change (2 ^ 12) with 4096. change (2 ^ 18) with 262144.
  assert (Hl : forall x, Z.lor 0x80 (x mod 64) = 0x80 + x mod 64).
  { intros x. apply (lor_shift 2 (x mod 64) 6); [lia|]. apply Z.mod_pos_bound. lia. }
  assert (Hb : forall x, u8 (0x80 + x mod 64) = 0x80 + x mod 64).
  { intros x. apply wrap_small. pose proof (Z.mod_pos_bound x 64). lia. }
  rewrite !Hl. destruct (code <=? 0x7f) eqn:H1; [cbn; f_equal; apply wrap_small; lia|].
  destruct (code <=? 0x7ff) eqn:H2; [|destruct (code <=? 0xffff) eqn:H3]; cbn [map]; rewrite !Hb;
    repeat f_equal.
  - assert (0 <= code / 64 < 32) by (split; [apply Z.div_pos|apply Z.div_lt_upper_bound]; lia).
    pose proof (lor_shift 6 (code / 64) 5) as E. change (6 * 2 ^ 5) with 192 in E.
    rewrite E by lia. apply wrap_small. lia.
  - assert (0 <= code / 4096 < 16) by (split; [apply Z.div_pos|apply Z.div_lt_upper_bound]; lia).
    pose proof (lor_shift 14 (code / 4096) 4) as E. change (14 * 2 ^ 4) with 224 in E.
    rewrite E by lia. apply wrap_small. lia.
  - assert (0 <= code / 262144 < 5) by (split; [apply Z.div_pos|apply Z.div_lt_upper_bound]; lia).
    pose proof (lor_shift 30 (code / 262144) 3) as E. change (30 * 2 ^ 3) with 240 in E.
    rewrite E by lia. apply wrap_small. lia.
Qed.

Lemma utf8_bytes_length code : (1 <= length (utf8_bytes code) <= 4)%nat.
Proof. unfold utf8_bytes. rewrite length_map. bsplit; cbn; lia. Qed.

Lemma utf8_bytes_length_bmp code : code <= 0xffff -> (1 <= length (utf8_bytes code) <= 3)%nat.
Proof. intros. unfold utf8_bytes. rewrite length_map. bsplit; cbn; lia. Qed.

Lemma json_hex_value_range c v : hex_value c = Some v -> 0 <= v < 16 /\ 32 <= c /\ c <> 34 /\ c <> 92.
Proof. unfold hex_value, is_digit. intros H. bsplit; simplify_eq; lia. Qed.

Lemma hex4_range h code : hex4 h code -> 0 <= code <= 0xffff.
Proof.
  intros (a & b & c & d & va & vb & vc & vd & _ & Ha & Hb & Hc & Hd & ->).
  apply json_hex_value_range in Ha, Hb, Hc, Hd. lia.
Qed.

Lemma pair_code_range hi lo : is_high hi -> is_low lo -> 0x10000 <= pair_code hi lo <= 0x10ffff.
Proof. unfold is_high, is_low, pair_code. lia. Qed.

(** What [surrogate_pair] computes with shifts and masks. *)
Lemma pair_code_bits hi lo : is_high hi -> is_low lo ->
  u32 (Z.lor (Z.shiftl (Z.land hi 0x3ff) 10) (Z.land lo 0x3ff) + 0x10000) = pair_code hi lo.
Proof.
  unfold is_high, is_low, pair_code. intros Hh Hl. change 0x3ff with (Z.ones 10).
  rewrite !land_low, Z.shiftl_mul_pow2 by lia. change (2 ^ 10) with 1024.
  assert (E1 : hi mod 1024 = hi - 0xd800) by (symmetry; apply (Z.mod_unique _ _ 54); lia).
  assert (E2 : lo mod 1024 = lo - 0xdc00) by (symmetry; apply (Z.mod_unique _ _ 55); lia).
  rewrite E1, E2, (lor_shift _ _ 10) by lia. rewrite wrap_small; lia.
Qed.

(** ** The scanners *)

(** The four digits, or the error, wherever a closing quote follows. *)
Lemma hex4_loop_spec i : forall s code, 34 ∈ s ->
  hex4_loop i s code = Some (inl (-2)) \/
  exists h r code', s = h ++ r /\ length h = i /\ 34 ∈ r /\ hex4_loop i s code = Some (inr (r, code')).
Proof.
  induction i as [|i IH]; intros s code Hs; cbn [hex4_loop].
  - right. by exists [], s, code.
  - destruct s as [|c s]; [by apply elem_of_nil in Hs|]. destruct (hex_value c) as [v|] eqn:Hv; [|by left].
    apply json_hex_value_range in Hv. apply elem_of_cons in Hs as [Hs|Hs]; [lia|].
    destruct (IH s (u32 (Z.shiftl code 4 + v)) Hs) as [E|(h & r & code' & -> & Hl & Hr & E)]; [by left|].
    right. exists (c :: h), r, code'. cbn. auto.
Qed.

Lemma hex4_loop_digits h r code : hex4 h code -> __parse_json_hex4 (h ++ r) = Some (inr (r, code)).
Proof.
  intros (a & b & c & d & va & vb & vc & vd & -> & Ha & Hb & Hc & Hd & ->).
  unfold __parse_json_hex4. cbn [app hex4_loop]. rewrite Ha, Hb, Hc, Hd.
  apply json_hex_value_range in Ha, Hb, Hc, Hd. repeat f_equal. rewrite !Z.shiftl_mul_pow2 by lia.
  change (2 ^ 4) with 16.
  rewrite (wrap_small 32 (0 * 16 + va)) by lia. rewrite (wrap_small 32 ((0 * 16 + va) * 16 + vb)) by lia.
  rewrite (wrap_small 32 (((0 * 16 + va) * 16 + vb) * 16 + vc)) by lia.
  by rewrite wrap_small by lia.
Qed.

Lemma hex4_loop_inv h r code : length h = 4%nat -> __parse_json_hex4 (h ++ r) = Some (inr (r, code)) -> hex4 h code.
Proof.
  destruct h as [|a [|b [|c [|d [|]]]]]; cbn; try done. intros _ E.
  destruct (hex_value a) as [va|] eqn:Ha; [|done]. destruct (hex_value b) as [vb|] eqn:Hb; [|done].
  destruct (hex_value c) as [vc|] eqn:Hc; [|done]. destruct (hex_value d) as [vd|] eqn:Hd; [|done].
  assert (H4 : hex4 [a; b; c; d] (((va * 16 + vb) * 16 + vc) * 16 + vd)) by (exists a, b, c, d, va, vb, vc, vd; by split_and!).
  pose proof (hex4_loop_digits [a; b; c; d] r _ H4) as E'. unfold __parse_json_hex4 in E'. cbn in E'.
  rewrite Ha, Hb, Hc, Hd in E'. rewrite E in E'. by injection E' as ->.
Qed.

Lemma hex4_spec s : 34 ∈ s ->
  __parse_json_hex4 s = Some (inl (-2)) \/
  exists h r code, s = h ++ r /\ 34 ∈ r /\ hex4 h code /\ __parse_json_hex4 s = Some (inr (r, code)).
Proof.
  intros Hs. destruct (hex4_loop_spec 4 s 0 Hs) as [E|(h & r & code & -> & Hl & Hr & E)]; [by left|].
  right. exists h, r, code. split_and!; try done. by apply (hex4_loop_inv h r).
Qed.

(** [__parse_json_unicode]: one or two groups of digits, or the error. *)
Inductive junicode : list Z -> list Z -> Prop :=
  | ju_one h code : hex4 h code -> ~ is_high code -> ~ is_low code -> junicode h (utf8_bytes code)
  | ju_pair h hi h' lo : hex4 h hi -> is_high hi -> hex4 h' lo -> is_low lo ->
      junicode (h ++ 92 :: 117 :: h') (utf8_bytes (pair_code hi lo)).

Lemma surrogate_spec s hi : 34 ∈ s -> is_high hi ->
  surrogate_pair s hi = Some (inl (-2)) \/
  exists h r lo, s = 92 :: 117 :: h ++ r /\ 34 ∈ r /\ hex4 h lo /\ is_low lo /\
    surrogate_pair s hi = Some (inr (r, pair_code hi lo)).
Proof.
  intros Hs Hi. destruct s as [|c s]; [by apply elem_of_nil in Hs|]. cbn [surrogate_pair].
  destruct (Z.eqb_spec c 92) as [->|]; [|by left]. cbn [negb].
  apply elem_of_cons in Hs as [Hs|Hs]; [lia|]. destruct s as [|c s]; [by apply elem_of_nil in Hs|].
  destruct (Z.eqb_spec c 117) as [->|]; [|by left]. cbn [negb].
  apply elem_of_cons in Hs as [Hs|Hs]; [lia|].
  destruct (hex4_spec s Hs) as [->|(h & r & lo & -> & Hr & Hh & ->)]; [by left|]. cbn [rbind].
  destruct ((lo <? 0xdc00) || (0xdfff <? lo)) eqn:Hb; [by left|]. right.
  assert (is_low lo) by (unfold is_low; lia). exists h, r, lo. split_and!; try done.
  by rewrite pair_code_bits.
Qed.

Lemma unicode_spec s : 34 ∈ s ->
  __parse_json_unicode s = Some (inl (-2)) \/
  exists t r v, s = t ++ r /\ 34 ∈ r /\ junicode t v /\ __parse_json_unicode s = Some (inr (r, v)).
Proof.
  intros Hs. unfold __parse_json_unicode.
  destruct (hex4_spec s Hs) as [->|(h & r & code & -> & Hr & Hh & ->)]; [by left|]. cbn [rbind].
  destruct ((0xdc00 <=? code) && (code <=? 0xdfff)) eqn:Hlow; [by left|].
  destruct ((0xd800 <=? code) && (code <=? 0xdbff)) eqn:Hhigh.
  - assert (Hi : is_high code) by (unfold is_high; lia).
    destruct (surrogate_spec r code Hr Hi) as [->|(h' & r' & lo & -> & Hr' & Hh' & Hlo & ->)]; [by left|].
    right. exists (h ++ 92 :: 117 :: h'), r', (utf8_bytes (pair_code code lo)).
    split_and!; [by rewrite <- app_assoc|done|by constructor|done].
  - right. exists h, r, (utf8_bytes code). split_and!; [done..| |done].
    constructor; [done|unfold is_high; lia|unfold is_low; lia].
Qed.

Lemma unicode_complete t v r : junicode t v -> __parse_json_unicode (t ++ r) = Some (inr (r, v)).
Proof.
  intros [h code Hh Hi Hl|h hi h' lo Hh Hi Hh' Hl]; unfold __parse_json_unicode.
  - rewrite (hex4_loop_digits _ _ _ Hh). cbn [rbind]. unfold is_high, is_low in *.
    replace ((0xdc00 <=? code) && _) with false by lia. by replace ((0xd800 <=? code) && _) with false by lia.
  - rewrite <- app_assoc, (hex4_loop_digits _ _ _ Hh). cbn [rbind app].
    pose proof Hi as Hi'. pose proof Hl as Hl'. unfold is_high, is_low in Hi', Hl'.
    replace ((0xdc00 <=? hi) && _) with false by lia. replace ((0xd800 <=? hi) && _) with true by lia.
    cbn [surrogate_pair]. rewrite (hex4_loop_digits _ _ _ Hh'). cbn [rbind Z.eqb Pos.eqb negb].
    replace ((lo <? 0xdc00) || _) with false by lia. by rewrite pair_code_bits.
Qed.

Lemma jchars_unicode u v t w : junicode u v -> jchars t w -> jchars (92 :: 117 :: u ++ t) (v ++ w).
Proof. intros [] Ht; [by constructor|]. rewrite <- app_assoc. by constructor. Qed.

(** ** The length that is counted first *)

Lemma length_loop_plain c s n : 32 <= c -> c <> 34 -> c <> 92 -> n < 2 ^ 31 - 1 ->
  string_length_loop (c :: s) n = string_length_loop s (n + 1).
Proof.
  intros. cbn [string_length_loop]. replace (c =? 34) with false by lia.
  replace (c =? 92) with false by lia. replace (c <? 32) with false by lia.
  unfold int_incr. by replace (n =? _) with false by lia.
Qed.

Lemma length_loop_escape c s n : c <> NUL -> n < 2 ^ 31 - 1 ->
  string_length_loop (92 :: c :: s) n = string_length_loop s (n + 1).
Proof.
  intros. cbn [string_length_loop Z.eqb Pos.eqb]. replace (c =? NUL) with false by lia.
  unfold int_incr. by replace (n =? _) with false by lia.
Qed.

Lemma length_loop_hex h code r n : hex4 h code -> n < 2 ^ 31 - 4 ->
  string_length_loop (h ++ r) n = string_length_loop r (n + 4).
Proof.
  intros (a & b & c & d & va & vb & vc & vd & -> & Ha & Hb & Hc & Hd & ->) Hn.
  apply json_hex_value_range in Ha, Hb, Hc, Hd. cbn [app].
  rewrite !length_loop_plain by lia. f_equal. lia.
Qed.

Lemma hex4_length h code : hex4 h code -> length h = 4%nat.
Proof. by intros (a & b & c & d & va & vb & vc & vd & -> & _). Qed.

(** The bytes of an escape fit in the characters it counts for. *)
Lemma length_loop_unicode t v r n : junicode t v -> n + len t + 2 < 2 ^ 31 ->
  exists d, string_length_loop (92 :: 117 :: t ++ r) n = string_length_loop r (n + d) /\
    len v <= d <= len t + 1.
Proof.
  intros [h code Hh _ _|h hi h' lo Hh _ Hh' _] Hn; rewrite length_loop_escape by lia.
  - pose proof (hex4_length _ _ Hh). exists 5. rewrite (length_loop_hex _ _ _ _ Hh) by lia.
    split; [f_equal; lia|]. pose proof (hex4_range _ _ Hh). pose proof (utf8_bytes_length_bmp code). lia.
  - pose proof (hex4_length _ _ Hh). pose proof (hex4_length _ _ Hh').
    rewrite length_app in *. cbn [length] in *.
    exists 10. rewrite <- app_assoc, (length_loop_hex _ _ _ _ Hh) by lia. cbn [app].
    rewrite length_loop_escape, (length_loop_hex _ _ _ _ Hh') by lia. split; [f_equal; lia|].
    pose proof (utf8_bytes_length (pair_code hi lo)). lia.
Qed.

(** Induction over a text, one character or one escape at a time. *)
Lemma text_ind (P : list Z -> Prop) :
  P [] -> P [92] -> (forall d s, P s -> P (92 :: d :: s)) -> (forall c s, c <> 92 -> P s -> P (c :: s)) ->
  forall s, P s.
Proof.
  intros H0 H1 H2 H3 s. remember (length s) as m eqn:Hm. revert s Hm.
  induction (lt_wf m) as [m _ IH]. intros s ->. destruct s as [|c s]; [done|].
  destruct (Z.eq_dec c 92) as [->|Hc].
  - destruct s as [|d s]; [done|]. apply H2. eapply IH; [|done]. cbn. lia.
  - apply H3; [done|]. eapply IH; [|done]. cbn. lia.
Qed.

Lemma length_loop_total s : forall n, 0 <= n -> n + len s < 2 ^ 31 -> NUL ∈ s ->
  string_length_loop s n = Some (-2) \/
  exists k, string_length_loop s n = Some k /\ n <= k <= n + len s.
Proof.
  induction s as [| |d s IH|c s Hc IH] using text_ind; intros n Hn Hl Hs; cbn [length] in Hl.
  - by apply elem_of_nil in Hs.
  - by apply list_elem_of_singleton in Hs.
  - apply elem_of_cons in Hs as [Hs|Hs]; [done|]. destruct (Z.eq_dec d NUL) as [->|Hd]; [by left|].
    apply elem_of_cons in Hs as [Hs|Hs]; [lia|]. rewrite length_loop_escape by lia.
    destruct (IH (n + 1)) as [|(k & E & Hk)]; [lia..|done|by left|]. right. exists k. cbn [length]. split; [done|lia].
  - destruct (Z.eq_dec c 34) as [->|Hq]; [right; exists n; cbn; split; [done|lia]|].
    destruct (Z.ltb_spec c 32) as [Hs'|Hs'].
    { left. cbn. replace (c =? 34) with false by lia. replace (c =? 92) with false by lia.
      by replace (c <? 32) with true by lia. }
    rewrite length_loop_plain by lia. apply elem_of_cons in Hs as [Hs|Hs]; [lia|].
    destruct (IH (n + 1)) as [|(k & E & Hk)]; [lia..|done|by left|]. right. exists k. cbn [length]. split; [done|lia].
Qed.

(** A length is returned only where a quote closes the string. *)
Lemma length_loop_quote s : forall n k, 0 <= n -> n + len s < 2 ^ 31 ->
  string_length_loop s n = Some k -> 0 <= k -> n <= k /\ 34 ∈ s.
Proof.
  induction s as [| |d s IH|c s Hc IH] using text_ind; intros n k Hn Hl E Hk; cbn [length] in Hl; try done.
  - destruct (Z.eq_dec d NUL) as [->|Hd]; [cbn in E; by simplify_eq|]. rewrite length_loop_escape in E by lia.
    apply IH in E as [? ?]; [|lia..]. rewrite !elem_of_cons. split; [lia|tauto].
  - destruct (Z.eq_dec c 34) as [->|Hq]; [cbn in E; simplify_eq; rewrite elem_of_cons; split; [lia|tauto]|].
    destruct (Z.ltb_spec c 32) as [Hs'|Hs'].
    { cbn in E. replace (c =? 34) with false in E by lia. replace (c =? 92) with false in E by lia.
      replace (c <? 32) with true in E by lia. simplify_eq. }
    rewrite length_loop_plain in E by lia. apply IH in E as [? ?]; [|lia..].
    rewrite !elem_of_cons. split; [lia|tauto].
Qed.

(** ** The string scanner *)

Lemma simple_escape_ne c e : simple_escape c = Some e -> c <> NUL /\ (c =? 117) = false.
Proof. unfold simple_escape. intros. bsplit; simplify_eq; lia. Qed.

(** Every run that starts where [__json_string_length] counted [k - n] characters
    and has room for them and the terminator stays in bounds, and accepts exactly
    the strings of the specification. *)
Lemma string_loop_spec fuel : forall s n k room out,
  (length s < fuel)%nat -> 0 <= n -> n + len s < 2 ^ 31 ->
  string_length_loop s n = Some k -> 0 <= k -> k - n + 1 <= room ->
  string_loop fuel s room out = Some (inl (-2)) \/
  exists t v r, s = t ++ 34 :: r /\ jchars t v /\ len v <= k - n /\
    string_loop fuel s room out = Some (inr (r, rev out ++ v)).
Proof.
  induction fuel as [|fuel IH]; intros s n k room out Hf Hn Hl E Hk Hr; [lia|].
  pose proof (length_loop_quote s n k Hn Hl E Hk) as [Hnk Hq].
  destruct s as [|c s]; [done|]. cbn [string_loop]. cbn [length] in Hf, Hl.
  destruct (Z.eqb_spec c 34) as [->|Hc].
  { right. exists [], [], s. replace (1 <=? room) with true by lia. rewrite app_nil_r.
    split_and!; [done|constructor|cbn; lia|done]. }
  destruct (Z.eqb_spec c 92) as [->|Hb].
  - destruct s as [|c' s]; [done|]. cbn [length] in Hf, Hl.
    destruct (simple_escape c') as [e|] eqn:He.
    + pose proof (simple_escape_ne _ _ He) as [H0 _]. rewrite length_loop_escape in E by lia.
      replace (1 <=? room) with true by lia.
      destruct (IH s (n + 1) k (room - 1) (e :: out)) as [->|(t & v & r & -> & Ht & Hv & ->)];
        [lia..|done|lia|lia|by left|]. right.
      exists (92 :: c' :: t), (e :: v), r. cbn. rewrite <- app_assoc.
      split_and!; [done|by constructor|cbn in *; lia|done].
    + destruct (Z.eqb_spec c' 117) as [->|]; [|by left].
      assert (Hqs : 34 ∈ s) by (rewrite !elem_of_cons in Hq; naive_solver lia).
      destruct (unicode_spec s Hqs) as [->|(u & r & v & -> & Hr' & Hu & ->)]; [by left|]. cbn [rbind].
      rewrite length_app in Hl, Hf.
      destruct (length_loop_unicode u v r n Hu ltac:(lia)) as (d & Ed & Hd1 & Hd2). rewrite Ed in E.
      assert (Hnk' : n + d <= k).
      { eapply (length_loop_quote r (n + d) k); [lia| |done|done]. lia. }
      replace (len v <=? room) with true by lia.
      destruct (IH r (n + d) k (room - len v) (rev v ++ out)) as [->|(t & w & r' & -> & Ht & Hw & ->)];
        [lia..|done|lia|lia|by left|]. right.
      exists (92 :: 117 :: u ++ t), (v ++ w), r'. rewrite rev_app_distr, rev_involutive, <- app_assoc.
      split_and!; [by cbn; rewrite <- app_assoc|by apply jchars_unicode|rewrite length_app; lia|done].
  - assert (H32 : 32 <= c).
    { destruct (Z.ltb_spec c 32); [|done]. cbn in E. replace (c =? 34) with false in E by lia.
      replace (c =? 92) with false in E by lia. replace (c <? 32) with true in E by lia. simplify_eq. }
    rewrite length_loop_plain in E by lia. replace (1 <=? room) with true by lia.
    destruct (IH s (n + 1) k (room - 1) (c :: out)) as [->|(t & v & r & -> & Ht & Hv & ->)];
      [lia..|done|lia|lia|by left|]. right.
    exists (c :: t), (c :: v), r. cbn. rewrite <- app_assoc.
    split_and!; [done|by constructor|cbn in *; lia|done].
Qed.

(** A string of the specification is accepted. *)
Lemma length_loop_complete t v r : jchars t v -> forall n, 0 <= n -> n + len t < 2 ^ 31 ->
  exists k, string_length_loop (t ++ 34 :: r) n = Some k /\ n + len v <= k <= n + len t.
Proof.
  induction 1 as [|c t v H1 H2 H3 Ht IH|c e t v He Ht IH|h code t v Hh Hi Hl Ht IH|h hi h' lo t v Hh Hi Hh' Hl Ht IH];
    intros n Hn Hb; cbn [length app] in *; rewrite ?length_app in *; cbn [length] in *; rewrite ?length_app in *.
  - exists n. cbn. split; [done|lia].
  - rewrite length_loop_plain by lia. destruct (IH (n + 1)) as (k & E & Hk); [lia..|]. exists k. split; [done|lia].
  - rewrite length_loop_escape; [|by eapply simple_escape_ne|lia].
    destruct (IH (n + 1)) as (k & E & Hk); [lia..|]. exists k. split; [done|lia].
  - rewrite <- app_assoc.
    destruct (length_loop_unicode h (utf8_bytes code) (t ++ 34 :: r) n) as (d & -> & Hd); [by constructor|lia|].
    destruct (IH (n + d)) as (k & E & Hk); [lia..|]. exists k. split; [done|lia].
  - replace ((h ++ 92 :: 117 :: h' ++ t) ++ 34 :: r) with ((h ++ 92 :: 117 :: h') ++ (t ++ 34 :: r))
      by (rewrite <- !app_assoc; cbn; by rewrite <- app_assoc).
    destruct (length_loop_unicode (h ++ 92 :: 117 :: h') (utf8_bytes (pair_code hi lo)) (t ++ 34 :: r) n)
      as (d & -> & Hd); [by econstructor|rewrite length_app; cbn [length]; lia|]. rewrite length_app in Hd. cbn [length] in Hd.
    destruct (IH (n + d)) as (k & E & Hk); [lia..|]. exists k. split; [done|lia].
Qed.

Lemma string_loop_complete t v r : jchars t v -> forall fuel room out,
  (length (t ++ 34%Z :: r) < fuel)%nat -> len v + 1 <= room ->
  string_loop fuel (t ++ 34 :: r) room out = Some (inr (r, rev out ++ v)).
Proof.
  induction 1 as [|c t v H1 H2 H3 Ht IH|c e t v He Ht IH|h code t v Hh Hi Hl Ht IH|h hi h' lo t v Hh Hi Hh' Hl Ht IH];
    intros [|fuel] room out Hf Hr; try lia; cbn [string_loop app]; cbn [length app] in *.
  - rewrite app_nil_r. cbn. by replace (1 <=? room) with true by lia.
  - replace (c =? 34) with false by lia. replace (c =? 92) with false by lia.
    replace (1 <=? room) with true by lia. rewrite IH by lia. cbn. by rewrite <- app_assoc.
  - cbn [Z.eqb Pos.eqb]. rewrite He. replace (1 <=? room) with true by lia. rewrite IH by lia.
    cbn. by rewrite <- app_assoc.
  - cbn [Z.eqb Pos.eqb]. change (simple_escape 117) with (@None Z). cbn iota.
    rewrite <- app_assoc, (unicode_complete h (utf8_bytes code)) by (by constructor). cbn [rbind].
    rewrite !length_app in *. replace (len (utf8_bytes code) <=? room) with true by lia.
    rewrite IH by (rewrite ?length_app; cbn [length] in *; lia). by rewrite rev_app_distr, rev_involutive, <- app_assoc.
  - cbn [Z.eqb Pos.eqb]. change (simple_escape 117) with (@None Z). cbn iota.
    replace ((h ++ 92 :: 117 :: h' ++ t) ++ 34 :: r) with ((h ++ 92 :: 117 :: h') ++ (t ++ 34 :: r))
      by (rewrite <- !app_assoc; cbn; by rewrite <- app_assoc).
    rewrite (unicode_complete _ (utf8_bytes (pair_code hi lo))) by (by econstructor). cbn [rbind].
    rewrite !length_app in *. cbn [length] in *. rewrite !length_app in *.
    replace (len (utf8_bytes (pair_code hi lo)) <=? room) with true by lia.
    rewrite IH by (rewrite ?length_app; cbn [length] in *; lia). by rewrite rev_app_distr, rev_involutive, <- app_assoc.
Qed.

Lemma utf8_round code r : is_scalar code -> utf8_decode (utf8_bytes code ++ r) = Some (code, r).
Proof.
  unfold is_scalar, is_high, is_low. intros (Hc & Hi & Hl). rewrite utf8_bytes_eq by lia.
  pose proof (Z.mod_pos_bound code 64). pose proof (Z.mod_pos_bound (code / 64) 64).
  pose proof (Z.mod_pos_bound (code / 4096) 64). pose proof (Z.div_mod code 64).
  pose proof (Z.div_mod (code / 64) 64). pose proof (Z.div_mod (code / 4096) 64).
  pose proof (Z.div_div code 64 64). pose proof (Z.div_div code 4096 64).
  change (64 * 64) with 4096 in *. change (4096 * 64) with 262144 in *.
  assert (0 <= code / 64) by (apply Z.div_pos; lia).
  assert (0 <= code / 4096) by (apply Z.div_pos; lia).
  assert (0 <= code / 262144) by (apply Z.div_pos; lia).
  unfold utf8_decode, is_cont. bsplit; cbn [app]; bsplit; try lia; simplify_eq; try (repeat f_equal; lia).
Qed.

(** ** The properties *)

(** Strings: on every NUL-terminated text, the two passes of the scanner (the
    count, then the copy into a buffer of that many bytes and one more) stay
    inside the text and the buffer, terminate, and agree with the specification:
    they accept exactly the texts that start with a JSON string and its closing
    quote, and store the bytes it stands for. *)
Theorem json_string_correct s :
  NUL ∈ s -> len s < 2 ^ 31 ->
  (exists t v r k, s = t ++ 34 :: r /\ jchars t v /\
     __json_string_length s = Some k /\ len v <= k /\ __parse_json_string s (k + 1) = Some (inr (r, v))) \/
  ((forall t v r, s = t ++ 34 :: r -> ~ jchars t v) /\
   (__json_string_length s = Some (-2) \/
    exists k, 0 <= k /\ __json_string_length s = Some k /\ __parse_json_string s (k + 1) = Some (inl (-2)))).
Proof.
  intros Hs Hl. unfold __json_string_length, __parse_json_string.
  assert (Hc : forall t v r, s = t ++ 34 :: r -> jchars t v ->
    exists k, string_length_loop s 0 = Some k /\ 0 <= k /\
      string_loop (S (length s)) s (k + 1) [] = Some (inr (r, v))).
  { intros t v r -> Ht. rewrite length_app in Hl. cbn [length] in Hl.
    destruct (length_loop_complete t v r Ht 0) as (k & E & Hk); [lia..|]. exists k.
    split_and!; [done|lia|]. rewrite (string_loop_complete t v r Ht); [done|lia|lia]. }
  destruct (length_loop_total s 0) as [E|(k & E & Hk)]; [lia..|done| |].
  { right. split; [|by left]. intros t v r Es Ht. destruct (Hc t v r Es Ht) as (k & E' & ? & _).
    rewrite E in E'. injection E'. lia. }
  destruct (string_loop_spec (S (length s)) s 0 k (k + 1) []) as [E'|(t & v & r & Es & Ht & Hv & E')]; try lia; try done.
  - right. split; [|right; exists k; auto with lia]. intros t v r Es Ht.
    destruct (Hc t v r Es Ht) as (k' & E1 & _ & E2). rewrite E in E1. injection E1 as <-. congruence.
  - left. exists t, v, r, k. split_and!; [done..|lia|done].
Qed.

(** Unicode escapes: what [__parse_json_unicode] stores for the digits of a
    \u escape, or of a surrogate pair, is the UTF-8 encoding of a Unicode scalar
    value, at most four bytes long, which a strict decoder reads back; it stops
    right after the digits. *)
Theorem json_unicode_utf8 s r v :
  34 ∈ s -> __parse_json_unicode s = Some (inr (r, v)) ->
  (1 <= length v <= 4)%nat /\
  exists t code, s = t ++ r /\ is_scalar code /\
    (forall rest, utf8_decode (v ++ rest) = Some (code, rest)) /\
    (hex4 t code \/ exists h hi h' lo, t = h ++ 92 :: 117 :: h' /\
       hex4 h hi /\ is_high hi /\ hex4 h' lo /\ is_low lo /\ code = pair_code hi lo).
Proof.
  intros Hs E. destruct (unicode_spec s Hs) as [E'|(t & r' & v' & -> & Hr & Hu & E')]; [congruence|].
  rewrite E in E'. injection E' as <- <-. destruct Hu as [h code Hh Hi Hl|h hi h' lo Hh Hi Hh' Hl].
  - split; [apply utf8_bytes_length|]. pose proof (hex4_range _ _ Hh).
    assert (is_scalar code) by (split_and!; [lia|lia|done..]).
    exists h, code. split_and!; [done|done|intros; by apply utf8_round|by left].
  - split; [apply utf8_bytes_length|]. pose proof (pair_code_range _ _ Hi Hl).
    assert (is_scalar (pair_code hi lo)) by (split_and!; [lia|lia|unfold is_high; lia|unfold is_low; lia]).
    eexists _, (pair_code hi lo). split_and!; [done|done|intros; by apply utf8_round|].
    right. exists h, hi, h', lo. split_and!; done.
Qed.

(** ** Witnesses *)

(** An escaped e with an acute accent between an a and a newline. *)
Definition demo_text : list Z := [97; 92; 117; 48; 48; 101; 57; 92; 110; 34; 0].

Lemma json_string_correct_witness :
  NUL ∈ demo_text /\ len demo_text < 2 ^ 31 /\
  exists k, __json_string_length demo_text = Some k /\
    __parse_json_string demo_text (k + 1) = Some (inr ([0], [97; 195; 169; 10])).
Proof.
  assert (H1 : NUL ∈ demo_text) by (unfold demo_text; do 10 right; left).
  assert (H2 : len demo_text < 2 ^ 31) by reflexivity.
  split; [exact H1|]. split; [exact H2|].
  destruct (json_string_correct demo_text H1 H2) as [(t & v & r & k & _ & _ & E1 & _ & E2)|[_ [E|(k & _ & E1 & E2)]]].
  - exists k. split; [exact E1|]. vm_compute in E1. injection E1 as <-. vm_compute. reflexivity.
  - vm_compute in E. discriminate.
  - vm_compute in E1. injection E1 as <-. vm_compute in E2. discriminate.
Defined.

(** The digits of [\ud83d\ude00], U+1F600. *)
Lemma json_unicode_utf8_witness :
  exists t code, [100; 56; 51; 100; 92; 117; 100; 101; 48; 48; 34] = t ++ [34] /\
    is_scalar code /\ utf8_decode ([240; 159; 152; 128] ++ [1]) = Some (code, [1]).
Proof.
  destruct (json_unicode_utf8 [100; 56; 51; 100; 92; 117; 100; 101; 48; 48; 34] [34] [240; 159; 152; 128])
    as (_ & t & code & E & Hs & Hd & _).
  - do 10 right. left.
  - vm_compute. reflexivity.
  - exists t, code. split; [exact E|]. split; [exact Hs|exact (Hd [1])].
Defined.
