(* ===== verification/JsonNumber.v ===== *)
(** * The numbers of JSON texts: [src/util/json_parser.c]

    [__parse_json_number] checks the syntax of a number and finds its integer
    digits, its fraction digits and its exponent; [__evaluate_json_number] keeps
    the first 18 significant digits as a [long long] mantissa, brings the exponent
    near zero, and multiplies or divides by a power of ten from a table.

    A [double] is a [spec_float] with 53 bits of precision and the operations
    round to nearest, ties to even; the constants of the table are the correctly
    rounded powers of ten.  Overflow of an [int] or of the [long long], and an index
    outside the table, give [None]. *)

From Stdlib Require Import SpecFloat.
From S2P Require Import Prelude CLib JsonText.

Local Open Scope Z_scope.
Local Open Scope res_scope.

(** ** Doubles *)

Abbreviation double := spec_float.
Definition double_of_Z (z : Z) : double := binary_normalize 53 1024 z 0 false.
Definition double_mul : double -> double -> double := SFmul 53 1024.
Definition double_div : double -> double -> double := SFdiv 53 1024.

(** [__power_of_10[k]]. *)
Definition power_of_10 (k : Z) : option double :=
  if (0 <=? k) && (k <=? 308) then Some (double_of_Z (10 ^ k)) else None.

(** A value that must fit in an [int], in a [long long]. *)
Definition int (z : Z) : option Z :=
  if (- 2 ^ 31 <=? z) && (z <? 2 ^ 31) then Some z else None.
Definition llong (z : Z) : option Z :=
  if (- 2 ^ 63 <=? z) && (z <? 2 ^ 63) then Some z else None.

(** ** [__evaluate_json_number] *)

(** [mant *= 10; mant += *p - '0';] *)
Definition push_digit (mant c : Z) : option Z := m ← llong (mant * 10); llong (m + (c - 48)).

(** [while (isdigit( *integer) && figures < 18)] *)
Fixpoint mantissa_loop (s : list Z) (mant figures : Z) : option (list Z * Z * Z) :=
  match s with
  | [] => None
  | c :: s' =>
      if is_digit c && (figures <? 18) then
        mant ← push_digit mant c; mantissa_loop s' mant (figures + 1)
      else Some (s, mant, figures)
  end.

(** [while (isdigit( *integer)) { exp++; integer++; }] *)
Fixpoint extra_loop (s : list Z) (exp : Z) : option Z :=
  match s with
  | [] => None
  | c :: s => if is_digit c then exp ← int (exp + 1); extra_loop s exp else Some exp
  end.

(** [while ( *fraction == '0') { exp--; fraction++; }] *)
Fixpoint zeros_loop (s : list Z) (exp : Z) : option (list Z * Z) :=
  match s with
  | [] => None
  | c :: s' => if c =? 48 then exp ← int (exp - 1); zeros_loop s' exp else Some (s, exp)
  end.

(** [while (isdigit( *fraction) && figures < 18)] *)
Fixpoint fraction_loop (s : list Z) (mant exp figures : Z) : option (Z * Z * Z) :=
  match s with
  | [] => None
  | c :: s =>
      if is_digit c && (figures <? 18) then
        mant ← push_digit mant c; exp ← int (exp - 1); fraction_loop s mant exp (figures + 1)
      else Some (mant, exp, figures)
  end.

(** [while (exp > 0 && figures < 18)] *)
Fixpoint scale_up (fuel : nat) (mant exp figures : Z) : option (Z * Z * Z) :=
  match fuel with
  | O => None
  | S fuel =>
      if (0 <? exp) && (figures <? 18) then
        mant ← llong (mant * 10); scale_up fuel mant (exp - 1) (figures + 1)
      else Some (mant, exp, figures)
  end.

(** [while (exp < 0 && mant % 10 == 0)] *)
Fixpoint scale_down (fuel : nat) (mant exp figures : Z) : option (Z * Z * Z) :=
  match fuel with
  | O => None
  | S fuel =>
      if (exp <? 0) && (Z.rem mant 10 =? 0) then
        scale_down fuel (Z.quot mant 10) (exp + 1) (figures - 1)
      else Some (mant, exp, figures)
  end.

(** The mantissa and the exponent brought to their final form. *)
Definition scale (mant exp figures : Z) : option (Z * Z * Z) :=
  if negb (exp =? 0) && negb (figures =? 0) then
    '(mant, exp, figures) ← scale_up 20 mant exp figures;
    scale_down 20 mant exp figures
  else Some (mant, exp, figures).

(** The conversion to [double]. *)
Definition to_double (mant exp figures : Z) : option double :=
  let num := double_of_Z mant in
  if negb (exp =? 0) && negb (figures =? 0) then
    if 291 <? exp then Some (S754_infinity false)
    else if 0 <? exp then p ← power_of_10 exp; Some (double_mul num p)
    else if -309 <? exp then p ← power_of_10 (- exp); Some (double_div num p)
    else if -324 - figures <? exp then
      p ← power_of_10 (- exp - 308);
      q ← power_of_10 308;
      Some (double_div (double_div num p) q)
    else Some (S754_zero false)
  else Some num.

Definition __evaluate_json_number (integer fraction : list Z) (exp : Z) : option double :=
  c ← head integer;
  let sign := c =? 45 in
  let integer := if sign then tail integer else integer in
  c ← head integer;
  '(mant, figures, exp, fraction) ←
    (if negb (c =? 48) then
       '(integer, mant, figures) ← mantissa_loop (tail integer) (c - 48) 1;
       exp ← extra_loop integer exp;
       Some (mant, figures, exp, fraction)
     else
       '(fraction, exp) ← zeros_loop fraction exp;
       Some (0, 0, exp, fraction));
  '(mant, exp, figures) ← fraction_loop fraction mant exp figures;
  '(mant, exp, figures) ← scale mant exp figures;
  num ← to_double mant exp figures;
  Some (if sign then SFopp num else num).

(** ** [__parse_json_number] *)

(** [while (isdigit( *cursor)) cursor++;] *)
Fixpoint skip_digits (s : list Z) : option (list Z) :=
  match s with
  | [] => None
  | c :: s' => if is_digit c then skip_digits s' else Some s
  end.

(** [while (isdigit( *cursor) && exp < 2000000)] *)
Fixpoint exponent_loop (s : list Z) (exp : Z) : option (list Z * Z) :=
  match s with
  | [] => None
  | c :: s' =>
      if is_digit c && (exp <? 2000000) then
        exp ← int (exp * 10); exp ← int (exp + (c - 48)); exponent_loop s' exp
      else Some (s, exp)
  end.

(** The fraction: the new [cursor] and [fraction]. *)
Definition parse_fraction (cursor : list Z) : res (list Z * list Z) :=
  c ← head cursor;
  if c =? 46 then
    let fraction := tail cursor in
    c ← head fraction;
    if negb (is_digit c) then Some (inl (-2))
    else cursor ← skip_digits (tail fraction); Some (inr (cursor, fraction))
  else Some (inr (cursor, [NUL])).

(** The exponent: the new [cursor] and [exp]. *)
Definition parse_exponent (cursor : list Z) : res (list Z * Z) :=
  c ← head cursor;
  if (c =? 69) || (c =? 101) then
    let cursor := tail cursor in
    c ← head cursor;
    let sign := c =? 45 in
    let cursor := if sign || (c =? 43) then tail cursor else cursor in
    c ← head cursor;
    if negb (is_digit c) then Some (inl (-2))
    else
      '(cursor, exp) ← exponent_loop (tail cursor) (c - 48);
      cursor ← skip_digits cursor;
      Some (inr (cursor, if sign then - exp else exp))
  else Some (inr (cursor, 0)).

Definition __parse_json_number (cursor : list Z) : res (list Z * double) :=
  let integer := cursor in
  c ← head cursor;
  let cursor := if c =? 45 then tail cursor else cursor in
  c ← head cursor;
  if negb (is_digit c) then Some (inl (-2))
  else
    c1 ← head (tail cursor);
    if (c =? 48) && is_digit c1 then Some (inl (-2))
    else
      cursor ← skip_digits (tail cursor);
      '(cursor, fraction) <-! parse_fraction cursor;
      '(cursor, exp) <-! parse_exponent cursor;
      if 1000000 <? len integer - len cursor then Some (inl (-2))
      else num ← __evaluate_json_number integer fraction exp; Some (inr (cursor, num)).

(** ** Which texts are numbers, and their values *)

Definition digits (ds : list Z) : Prop := Forall (fun c => is_digit c = true) ds.

(** The number the digits of a list write. *)
Definition digits_value (ds : list Z) : Z := fold_left (fun a c => a * 10 + (c - 48)) ds 0.

Fixpoint drop_zeros (ds : list Z) : list Z :=
  match ds with c :: ds' => if c =? 48 then drop_zeros ds' else ds | [] => [] end.

(** No zero in front, unless it is the only digit. *)
Definition int_part (ds : list Z) : Prop :=
  digits ds /\ ds <> [] /\ (ds = [48] \/ head ds <> Some 48).

(** [.digits], or nothing. *)
Definition frac_text (fs : list Z) : list Z := match fs with [] => [] | _ => 46 :: fs end.

(** The exponent keeps its value up to two million, which is far outside the range
    of the doubles whatever the other digits. *)
Definition exp_clamped (ds : list Z) : Z :=
  fold_left (fun a c => if a <? 2000000 then a * 10 + (c - 48) else a) ds 0.

Inductive exp_text : list Z -> Z -> Prop :=
  | exp_none : exp_text [] 0
  | exp_plain e ds : e = 69 \/ e = 101 -> digits ds -> ds <> [] -> exp_text (e :: ds) (exp_clamped ds)
  | exp_plus e ds : e = 69 \/ e = 101 -> digits ds -> ds <> [] -> exp_text (e :: 43 :: ds) (exp_clamped ds)
  | exp_minus e ds : e = 69 \/ e = 101 -> digits ds -> ds <> [] -> exp_text (e :: 45 :: ds) (- exp_clamped ds).

Record decimal := mk_decimal { d_neg : bool; d_int : list Z; d_frac : list Z; d_exp : Z }.

(** The text of a number. *)
Inductive jnumber : list Z -> decimal -> Prop :=
  | jnumber_intro (neg : bool) ds fs et x :
      int_part ds -> digits fs -> exp_text et x ->
      len ((if neg then [45] else []) ++ ds ++ frac_text fs ++ et) <= 1000000 ->
      jnumber ((if neg then [45] else []) ++ ds ++ frac_text fs ++ et) (mk_decimal neg ds fs x).

(** The significant digits, the mantissa kept, and its exponent. *)
Definition significant (d : decimal) : list Z := drop_zeros (d_int d ++ d_frac d).
Definition figures (d : decimal) : Z := Z.min 18 (len (significant d)).
Definition mantissa (d : decimal) : Z := digits_value (take 18 (significant d)).
Definition exponent (d : decimal) : Z :=
  d_exp d - len (d_frac d) + (len (significant d) - figures d).

(** The double a number is read as. *)
Definition decimal_double (d : decimal) : option double :=
  '(mant, exp, fig) ← scale (mantissa d) (exponent d) (figures d);
  num ← to_double mant exp fig;
  Some (if d_neg d then SFopp num else num).

(** ** Digits *)

(** [s] goes on with something that is not a digit. *)
Definition stops (s : list Z) : Prop := exists c s', s = c :: s' /\ is_digit c = false.

Abbreviation push := (fold_left (fun a c => a * 10 + (c - 48))).

Lemma push_bounds ds : forall a, digits ds -> 0 <= a ->
  a * 10 ^ len ds <= push ds a < (a + 1) * 10 ^ len ds.
Proof.
  induction ds as [|c ds IH]; intros a Hd Ha; [cbn; lia|]. apply Forall_cons in Hd as [Hc Hd].
  unfold is_digit in Hc. cbn [fold_left length].
  replace (Z.of_nat (S (length ds))) with (Z.of_nat (length ds) + 1) by lia. rewrite Z.pow_add_r by lia.
  pose proof (Z.pow_pos_nonneg 10 (len ds)). destruct (IH (a * 10 + (c - 48))) as [H1 H2]; [done|lia|nia].
Qed.

Lemma push_lt ds a f : digits ds -> 0 <= a < 10 ^ f -> 0 <= f -> 0 <= push ds a < 10 ^ (f + len ds).
Proof.
  intros Hd Ha Hf. rewrite Z.pow_add_r by lia. pose proof (push_bounds ds a Hd ltac:(lia)).
  pose proof (Z.pow_pos_nonneg 10 (len ds)). nia.
Qed.

Lemma pow10_le_18 f : 0 <= f <= 18 -> 10 ^ f <= 10 ^ 18.
Proof. intros. apply Z.pow_le_mono_r; lia. Qed.

Lemma int_ok z : - 2 ^ 31 <= z < 2 ^ 31 -> int z = Some z.
Proof. intros. unfold int. by replace (_ && _) with true by lia. Qed.
Lemma llong_ok z : - 2 ^ 63 <= z < 2 ^ 63 -> llong z = Some z.
Proof. intros. unfold llong. by replace (_ && _) with true by lia. Qed.

Lemma push_digit_ok mant c f : is_digit c = true -> 0 <= mant < 10 ^ f -> 0 <= f < 18 ->
  push_digit mant c = Some (mant * 10 + (c - 48)) /\ 0 <= mant * 10 + (c - 48) < 10 ^ (f + 1).
Proof.
  intros Hc Hm Hf. unfold is_digit in Hc. pose proof (pow10_le_18 (f + 1) ltac:(lia)) as H.
  rewrite Z.pow_add_r in H |- * by lia. unfold push_digit. rewrite llong_ok by lia.
  cbn [mbind option_bind]. rewrite llong_ok by lia. split; [done|lia].
Qed.

Lemma digits_drop n ds : digits ds -> digits (drop n ds).
Proof. apply Forall_drop. Qed.
Lemma digits_take n ds : digits ds -> digits (take n ds).
Proof. apply Forall_take. Qed.

Lemma mantissa_loop_ok ds r : stops r -> digits ds -> forall mant fig,
  0 <= mant < 10 ^ fig -> 0 <= fig <= 18 ->
  let n := Z.to_nat (18 - fig) in
  mantissa_loop (ds ++ r) mant fig =
    Some (drop n ds ++ r, push (take n ds) mant, fig + len (take n ds)).
Proof.
  intros (c & r' & -> & Hs). induction 1 as [|d ds Hd _ IH]; intros mant fig Hm Hf; cbn zeta.
  - cbn [app mantissa_loop]. rewrite Hs, drop_nil, take_nil. cbn. by rewrite Z.add_0_r.
  - cbn [app mantissa_loop]. rewrite Hd. destruct (Z.ltb_spec fig 18) as [H|H]; cbn [andb].
    + destruct (push_digit_ok mant d fig) as [-> Hm']; [done..|lia|]. cbn [mbind option_bind].
      rewrite IH by lia. cbn zeta. replace (Z.to_nat (18 - fig)) with (S (Z.to_nat (18 - (fig + 1)))) by lia.
      cbn [take drop fold_left length]. f_equal. f_equal. lia.
    + replace (Z.to_nat (18 - fig)) with 0%nat by lia. cbn. by rewrite Z.add_0_r.
Qed.

Lemma extra_loop_ok ds r : stops r -> digits ds -> forall exp,
  - 2 ^ 31 <= exp -> exp + len ds < 2 ^ 31 -> extra_loop (ds ++ r) exp = Some (exp + len ds).
Proof.
  intros (c & r' & -> & Hs). induction 1 as [|d ds Hd _ IH]; intros exp H1 H2; cbn [app extra_loop length] in *.
  - rewrite Hs. f_equal. lia.
  - rewrite Hd, int_ok by lia. cbn [mbind option_bind]. rewrite IH by lia. f_equal. lia.
Qed.

Lemma zeros_loop_ok fs r : stops r -> digits fs -> forall exp,
  exp < 2 ^ 31 -> - 2 ^ 31 <= exp - len fs ->
  zeros_loop (fs ++ r) exp = Some (drop_zeros fs ++ r, exp - (len fs - len (drop_zeros fs))).
Proof.
  intros (c & r' & -> & Hs). induction 1 as [|d fs Hd Hfs IH]; intros exp H1 H2; cbn [app zeros_loop length drop_zeros] in *.
  - replace (c =? 48) with false by (unfold is_digit in Hs; lia). f_equal. f_equal. lia.
  - destruct (d =? 48) eqn:E.
    + rewrite int_ok by lia. cbn [mbind option_bind]. rewrite IH by lia. f_equal. f_equal. lia.
    + f_equal. f_equal. cbn [length]. lia.
Qed.

Lemma fraction_loop_ok fs r : stops r -> digits fs -> forall mant exp fig,
  0 <= mant < 10 ^ fig -> 0 <= fig <= 18 -> exp < 2 ^ 31 -> - 2 ^ 31 <= exp - len fs ->
  let n := Z.to_nat (18 - fig) in
  fraction_loop (fs ++ r) mant exp fig =
    Some (push (take n fs) mant, exp - len (take n fs), fig + len (take n fs)).
Proof.
  intros (c & r' & -> & Hs). induction 1 as [|d fs Hd _ IH]; intros mant exp fig Hm Hf H1 H2; cbn zeta.
  - cbn [app fraction_loop]. rewrite Hs, take_nil. cbn. by rewrite Z.add_0_r, Z.sub_0_r.
  - cbn [app fraction_loop length] in *. rewrite Hd. destruct (Z.ltb_spec fig 18) as [H|H]; cbn [andb].
    + destruct (push_digit_ok mant d fig) as [-> Hm']; [done..|lia|]. cbn [mbind option_bind].
      rewrite int_ok by lia. cbn [mbind option_bind].
      rewrite IH by lia. cbn zeta. replace (Z.to_nat (18 - fig)) with (S (Z.to_nat (18 - (fig + 1)))) by lia.
      cbn [take fold_left length]. f_equal. f_equal; [f_equal|]; lia.
    + replace (Z.to_nat (18 - fig)) with 0%nat by lia. cbn. by rewrite Z.add_0_r, Z.sub_0_r.
Qed.

Lemma drop_zeros_length ds : (length (drop_zeros ds) <= length ds)%nat.
Proof. induction ds as [|c ds IH]; cbn; [done|]. destruct (c =? 48); cbn; lia. Qed.

Lemma drop_zeros_digits ds : digits ds -> digits (drop_zeros ds).
Proof. induction 1 as [|c ds Hc Hd IH]; cbn; [constructor|]. destruct (c =? 48); [done|by constructor]. Qed.

(** The evaluation of a well-formed number is that of its significant digits. *)
Lemma evaluate_ok neg ds fs x r1 r2 :
  int_part ds -> digits fs -> stops r1 -> stops r2 ->
  - 2 ^ 30 <= x <= 2 ^ 30 -> len ds + len fs <= 1000000 ->
  __evaluate_json_number ((if neg : bool then [45] else []) ++ ds ++ r1) (fs ++ r2) x =
    decimal_double (mk_decimal neg ds fs x).
Proof.
  intros (Hd & Hne & Hz) Hf Hr1 Hr2 Hx Hl. destruct ds as [|c ds]; [done|]. cbn [length] in Hl.
  apply Forall_cons in Hd as [Hc Hd]. pose proof Hc as Hc'. unfold is_digit in Hc'.
  unfold __evaluate_json_number.
  assert (E1 : head ((if neg then [45] else []) ++ (c :: ds) ++ r1) = Some (if neg then 45 else c)) by (by destruct neg).
  rewrite E1. cbn [mbind option_bind]. replace ((if neg then 45 else c) =? 45) with neg by (destruct neg; lia).
  assert (E2 : (if neg then tail ((if neg then [45] else []) ++ (c :: ds) ++ r1)
                else (if neg then [45] else []) ++ (c :: ds) ++ r1) = (c :: ds) ++ r1) by (by destruct neg).
  rewrite E2. clear E1 E2. cbn [app head tail mbind option_bind].
  unfold decimal_double, exponent, mantissa, figures, significant. cbn [d_int d_frac d_exp d_neg].
  destruct (Z.eqb_spec c 48) as [->|Hc0]; cbn [negb].
  - destruct Hz as [Hz|Hz]; [injection Hz as ->|done].
    rewrite zeros_loop_ok by (try done; lia). cbn [mbind option_bind].
    pose proof (drop_zeros_length fs). pose proof (drop_zeros_digits fs Hf).
    rewrite fraction_loop_ok by (try done; lia). cbn [mbind option_bind]. cbn zeta.
    cbn [app drop_zeros]. rewrite Z.eqb_refl. change (Z.to_nat (18 - 0)) with 18%nat.
    rewrite length_take. unfold digits_value.
    replace (0 + Z.of_nat (18 `min` length (drop_zeros fs)))
      with (Z.min 18 (len (drop_zeros fs))) by lia.
    by replace (x - (len fs - len (drop_zeros fs)) - Z.of_nat (18 `min` length (drop_zeros fs)))
      with (x - len fs + (len (drop_zeros fs) - Z.min 18 (len (drop_zeros fs)))) by lia.
  - rewrite mantissa_loop_ok by (try done; lia). cbn [mbind option_bind]. cbn zeta.
    change (Z.to_nat (18 - 1)) with 17%nat.
    rewrite extra_loop_ok by (try done; rewrite ?length_drop; try apply digits_drop; try done; lia).
    cbn [mbind option_bind]. rewrite !length_drop, !length_take.
    assert (H1 : 0 <= push (take 17 ds) (c - 48) < 10 ^ (1 + len (take 17 ds))).
    { apply push_lt; [by apply digits_take|lia..]. }
    rewrite length_take in H1.
    rewrite fraction_loop_ok by (try done; lia). cbn [mbind option_bind]. cbn zeta.
    cbn [app drop_zeros]. replace (c =? 48) with false by lia. unfold digits_value.
    change (take 18 (c :: ds ++ fs)) with (c :: take 17 (ds ++ fs)). rewrite take_app.
    cbn [fold_left]. rewrite fold_left_app. rewrite !length_take. cbn [length]. rewrite length_app.
    replace (0 * 10 + (c - 48)) with (c - 48) by lia.
    replace (Z.to_nat (18 - (1 + Z.of_nat (17 `min` length ds)))) with (17 - length ds)%nat by lia.
    replace (x + Z.of_nat (length ds - 17) - Z.of_nat ((17 - length ds) `min` length fs))
      with (x - len fs + (Z.of_nat (S (length ds + length fs)) - Z.min 18 (Z.of_nat (S (length ds + length fs))))) by lia.
    by replace (1 + Z.of_nat (17 `min` length ds) + Z.of_nat ((17 - length ds) `min` length fs))
      with (Z.min 18 (Z.of_nat (S (length ds + length fs)))) by lia.
Qed.

(** ** Scaling and conversion *)

(** The mantissa has exactly [f] digits. *)
Definition has_figures (m f : Z) : Prop := 1 <= f <= 18 /\ 10 ^ (f - 1) <= m < 10 ^ f.

Lemma has_figures_llong m f : has_figures m f -> 0 < m < 10 ^ 18.
Proof.
  intros [Hf Hm]. pose proof (pow10_le_18 f ltac:(lia)). pose proof (Z.pow_pos_nonneg 10 (f - 1)). lia.
Qed.

Lemma has_figures_up m f : has_figures m f -> f < 18 -> has_figures (m * 10) (f + 1).
Proof.
  intros [Hf Hm] H. split; [lia|]. replace (f + 1 - 1) with (f - 1 + 1) by lia.
  rewrite !Z.pow_add_r by lia. lia.
Qed.

Lemma has_figures_down m f : has_figures m f -> Z.rem m 10 = 0 -> has_figures (Z.quot m 10) (f - 1) /\ Z.quot m 10 * 10 = m.
Proof.
  intros Hm Hr. pose proof (has_figures_llong _ _ Hm). destruct Hm as [Hf Hm].
  pose proof (Z.quot_rem m 10 ltac:(lia)) as E. rewrite Hr in E.
  assert (Hf1 : f <> 1) by (intros ->; change (10 ^ 1) with 10 in Hm; change (10 ^ (1 - 1)) with 1 in Hm;
    assert (Z.quot m 10 = 0) by (apply Z.quot_small; lia); lia).
  replace (10 ^ f) with (10 ^ (f - 1) * 10) in Hm by (replace f with (f - 1 + 1) at 2 by lia; by rewrite Z.pow_add_r by lia).
  replace (10 ^ (f - 1)) with (10 ^ (f - 1 - 1) * 10) in Hm at 1
    by (replace (f - 1) with (f - 1 - 1 + 1) at 2 by lia; by rewrite Z.pow_add_r by lia).
  split; [split; lia|lia].
Qed.

Lemma scale_up_ok fuel : forall m e f, has_figures m f -> 18 - f < Z.of_nat fuel ->
  exists k, 0 <= k /\ scale_up fuel m e f = Some (m * 10 ^ k, e - k, f + k) /\
    has_figures (m * 10 ^ k) (f + k) /\ (0 < k -> 0 <= e - k) /\ (0 < e - k -> f + k = 18).
Proof.
  induction fuel as [|fuel IH]; intros m e f Hm Hf; [destruct Hm; lia|]. cbn [scale_up].
  destruct ((0 <? e) && (f <? 18)) eqn:E.
  - pose proof (has_figures_llong _ _ (has_figures_up m f Hm ltac:(lia))).
    rewrite llong_ok by lia. cbn [mbind option_bind].
    destruct (IH (m * 10) (e - 1) (f + 1)) as (k & Hk & -> & Hm' & H1 & H2);
      [apply has_figures_up; [done|lia]|lia|]. exists (k + 1).
    rewrite Z.pow_add_r by lia. replace (m * (10 ^ k * 10 ^ 1)) with (m * 10 * 10 ^ k) by lia.
    replace (e - (k + 1)) with (e - 1 - k) by lia. replace (f + (k + 1)) with (f + 1 + k) by lia.
    split_and!; [lia|done|done|lia|done].
  - exists 0. rewrite Z.mul_1_r, Z.sub_0_r, Z.add_0_r. destruct Hm. split_and!; [done..|lia|lia].
Qed.

Lemma scale_down_ok fuel : forall m e f, has_figures m f -> f < Z.of_nat fuel ->
  exists k m', 0 <= k /\ scale_down fuel m e f = Some (m', e + k, f - k) /\ m = m' * 10 ^ k /\
    has_figures m' (f - k) /\ (0 < k -> e + k <= 0).
Proof.
  induction fuel as [|fuel IH]; intros m e f Hm Hf; [destruct Hm; lia|]. cbn [scale_down].
  destruct ((e <? 0) && (Z.rem m 10 =? 0)) eqn:E.
  - destruct (has_figures_down m f Hm ltac:(lia)) as [Hm' Eq].
    destruct (IH (Z.quot m 10) (e + 1) (f - 1) Hm' ltac:(lia)) as (k & m' & Hk & -> & Em & Hm'' & H1).
    exists (k + 1), m'. rewrite Z.pow_add_r by lia.
    replace (e + (k + 1)) with (e + 1 + k) by lia. replace (f - (k + 1)) with (f - 1 - k) by lia.
    split_and!; [lia|done|lia|done|lia].
  - exists 0, m. rewrite Z.mul_1_r, Z.sub_0_r, Z.add_0_r. split_and!; [done..|lia].
Qed.

(** The scaled pair stands for the same number. *)
Definition same_value (m e m' e' : Z) : Prop :=
  exists k, 0 <= k /\ ((m' = m * 10 ^ k /\ e' = e - k) \/ (m = m' * 10 ^ k /\ e' = e + k)).

Lemma scale_ok m e f : has_figures m f ->
  exists m' e' f', scale m e f = Some (m', e', f') /\ has_figures m' f' /\ same_value m e m' e' /\
    (e = 0 -> m' = m /\ e' = 0) /\ (0 < e' -> f' = 18).
Proof.
  intros Hm. unfold scale. destruct (Z.eqb_spec e 0) as [->|He].
  { exists m, 0, f. split_and!; [done..| |done|lia]. exists 0. lia. }
  replace (f =? 0) with false by (destruct Hm; lia). cbn [negb andb].
  destruct (scale_up_ok 20 m e f Hm ltac:(destruct Hm; lia)) as (k & Hk & -> & Hm1 & H1 & H2).
  cbn [mbind option_bind].
  destruct (scale_down_ok 20 (m * 10 ^ k) (e - k) (f + k) Hm1 ltac:(destruct Hm1; lia))
    as (j & m' & Hj & -> & Em & Hm2 & H3).
  exists m', (e - k + j), (f + k - j). split_and!; [done..| |lia|].
  - destruct (Z.eq_dec k 0) as [->|Hk0].
    + exists j. split; [done|]. right. split; [lia|lia].
    + assert (j = 0) as -> by lia. exists k. split; [done|]. left. split; [lia|lia].
  - intros Hp. assert (j = 0) by lia. subst j. lia.
Qed.

Lemma to_double_total m e f : 0 <= f <= 18 -> exists x, to_double m e f = Some x.
Proof.
  intros Hf. unfold to_double, power_of_10. destruct (negb (e =? 0) && negb (f =? 0)) eqn:E; [|by eexists].
  destruct (Z.ltb_spec 291 e); [by eexists|]. destruct (Z.ltb_spec 0 e).
  { replace ((0 <=? e) && (e <=? 308)) with true by lia. by eexists. }
  destruct (Z.ltb_spec (-309) e).
  { replace ((0 <=? - e) && (- e <=? 308)) with true by lia. by eexists. }
  destruct (Z.ltb_spec (-324 - f) e); [|by eexists].
  replace ((0 <=? - e - 308) && (- e - 308 <=? 308)) with true by lia.
  replace ((0 <=? 308) && (308 <=? 308)) with true by lia. by eexists.
Qed.

(** ** The mantissa *)

Lemma drop_zeros_value ds : digits ds -> digits_value (drop_zeros ds) = digits_value ds.
Proof.
  unfold digits_value. induction 1 as [|c ds Hc Hd IH]; cbn [drop_zeros fold_left]; [done|].
  destruct (Z.eqb_spec c 48) as [->|]; [|done]. cbn. done.
Qed.

Lemma drop_zeros_head ds : match drop_zeros ds with c :: _ => c <> 48 | [] => True end.
Proof. induction ds as [|c ds IH]; cbn; [done|]. destruct (Z.eqb_spec c 48); [done|]. done. Qed.

Lemma value_figures ds n : digits ds -> (n <= 18)%nat -> 
  match ds with c :: _ => c <> 48 | [] => True end -> take n ds <> [] ->
  has_figures (digits_value (take n ds)) (len (take n ds)).
Proof.
  intros Hd Hn Hh Hne. destruct n as [|n]; [done|]. destruct ds as [|c ds]; [done|]. cbn [take] in *.
  apply Forall_cons in Hd as [Hc Hd]. unfold is_digit in Hc.
  unfold digits_value. cbn [fold_left length]. replace (0 * 10 + (c - 48)) with (c - 48) by lia.
  pose proof (push_bounds (take n ds) (c - 48) (digits_take _ _ Hd) ltac:(lia)) as Hb.
  assert (length (take n ds) <= n)%nat by (rewrite length_take; lia).
  pose proof (Z.pow_pos_nonneg 10 (len (take n ds))).
  split; [lia|]. replace (Z.of_nat (S (length (take n ds))) - 1) with (len (take n ds)) by lia.
  replace (Z.of_nat (S (length (take n ds)))) with (len (take n ds) + 1) by lia.
  rewrite Z.pow_add_r by lia. nia.
Qed.

Lemma mantissa_cases d : digits (d_int d) -> digits (d_frac d) ->
  (significant d = [] /\ mantissa d = 0 /\ figures d = 0) \/
  (significant d <> [] /\ has_figures (mantissa d) (figures d)).
Proof.
  intros Hi Hf. unfold mantissa, figures. pose proof (drop_zeros_head (d_int d ++ d_frac d)) as Hh.
  assert (Hs : digits (significant d)) by (apply drop_zeros_digits, Forall_app; done).
  unfold significant in *. destruct (drop_zeros (d_int d ++ d_frac d)) as [|c ds] eqn:E; [by left|right].
  split; [done|]. replace (Z.min 18 (len (c :: ds))) with (len (take 18 (c :: ds))) by (rewrite length_take; lia).
  by apply value_figures.
Qed.

Lemma mantissa_bounds d : digits (d_int d) -> digits (d_frac d) ->
  let j := len (significant d) - figures d in
  0 <= j /\ mantissa d * 10 ^ j <= digits_value (d_int d ++ d_frac d) < (mantissa d + 1) * 10 ^ j.
Proof.
  intros Hi Hf. cbn zeta. unfold mantissa, figures.
  assert (Hs : digits (significant d)) by (apply drop_zeros_digits, Forall_app; done).
  rewrite <- (drop_zeros_value (d_int d ++ d_frac d)) by (apply Forall_app; done).
  change (drop_zeros (d_int d ++ d_frac d)) with (significant d). revert Hs. generalize (significant d). intros ds Hs.
  split; [lia|]. replace (len ds - Z.min 18 (len ds)) with (len (drop 18 ds)) by (rewrite length_drop; lia).
  assert (E : digits_value ds = push (drop 18 ds) (digits_value (take 18 ds)))
    by (unfold digits_value; by rewrite <- fold_left_app, take_drop).
  rewrite E. unfold digits_value.
  apply push_bounds; [by apply digits_drop|].
  destruct (push_lt (take 18 ds) 0 0 (digits_take _ _ Hs)); [cbn; lia|lia|done].
Qed.

Lemma decimal_double_total d : digits (d_int d) -> digits (d_frac d) -> exists x, decimal_double d = Some x.
Proof.
  intros Hi Hf. unfold decimal_double. destruct (mantissa_cases d Hi Hf) as [(_ & -> & ->)|[_ Hm]].
  - unfold scale. rewrite andb_false_r. cbn [mbind option_bind].
    destruct (to_double_total 0 (exponent d) 0) as [x ->]; [lia|]. by eexists.
  - destruct (scale_ok _ (exponent d) _ Hm) as (m & e & f & -> & Hm' & _). cbn [mbind option_bind].
    destruct (to_double_total m e f) as [x ->]; [destruct Hm'; lia|]. by eexists.
Qed.

(** ** The syntax *)

(** What may follow a number: the scanner takes the longest one. *)
Definition number_follow (fs et r : list Z) : Prop :=
  stops r /\ (et = [] -> head r <> Some 69 /\ head r <> Some 101 /\ (fs = [] -> head r <> Some 46)).

Lemma stops_app_nonnil a r : a <> [] -> (forall c a', a = c :: a' -> is_digit c = false) -> stops (a ++ r).
Proof. destruct a as [|c a]; [done|]. intros _ H. exists c, (a ++ r). split; [done|by eapply H]. Qed.

Lemma skip_digits_ok ds r : digits ds -> stops r -> skip_digits (ds ++ r) = Some r.
Proof.
  intros Hd (c & r' & -> & Hc). induction Hd as [|d ds Hd _ IH]; cbn [app skip_digits]; [by rewrite Hc|by rewrite Hd].
Qed.

Lemma digits_split s : NUL ∈ s -> exists ds r, s = ds ++ r /\ digits ds /\ stops r /\ NUL ∈ r.
Proof.
  induction s as [|c s IH]; intros Hs; [by apply elem_of_nil in Hs|]. destruct (is_digit c) eqn:Hc.
  - apply elem_of_cons in Hs as [<-|Hs]; [done|]. destruct (IH Hs) as (ds & r & -> & Hd & Hr & Hn).
    exists (c :: ds), r. split_and!; [done|by constructor|done|done].
  - exists [], (c :: s). split_and!; [done|constructor|by exists c, s|done].
Qed.

Lemma exponent_loop_ok ds r : digits ds -> stops r -> forall e, 0 <= e < 20000000 ->
  exists ds2, digits ds2 /\
    exponent_loop (ds ++ r) e =
      Some (ds2 ++ r, fold_left (fun a c => if a <? 2000000 then a * 10 + (c - 48) else a) ds e) /\
    0 <= fold_left (fun a c => if a <? 2000000 then a * 10 + (c - 48) else a) ds e < 20000000.
Proof.
  intros Hd (c & r' & -> & Hs). induction Hd as [|d ds Hd Hds IH]; intros e He; cbn [app exponent_loop fold_left].
  - rewrite Hs. exists []. split_and!; [constructor|done|lia..].
  - rewrite Hd. destruct (Z.ltb_spec e 2000000) as [H|H]; cbn [andb].
    + pose proof Hd as Hd'. unfold is_digit in Hd'. rewrite int_ok by lia. cbn [mbind option_bind].
      rewrite int_ok by lia. cbn [mbind option_bind]. apply IH. lia.
    + assert (E : fold_left (fun a c => if a <? 2000000 then a * 10 + (c - 48) else a) ds e = e).
      { clear - H. induction ds as [|d ds IH]; [done|]. cbn. by replace (e <? 2000000) with false by lia. }
      rewrite E. exists (d :: ds). split_and!; [by apply Forall_cons|done|lia..].
Qed.

Lemma exp_text_range et x : exp_text et x -> - 20000000 < x < 20000000.
Proof.
  assert (H : forall ds, digits ds -> 0 <= exp_clamped ds < 20000000).
  { intros ds Hd. destruct (exponent_loop_ok ds [NUL] Hd ltac:(by exists NUL, []) 0) as (_ & _ & _ & H); [lia|done]. }
  intros [|e ds _ Hd _|e ds _ Hd _|e ds _ Hd _]; try specialize (H ds Hd); lia.
Qed.

Lemma parse_exponent_digits ds r : digits ds -> ds <> [] -> stops r ->
  exists c ds' ds2, ds = c :: ds' /\ is_digit c = true /\ digits ds2 /\
    exponent_loop (ds' ++ r) (c - 48) = Some (ds2 ++ r, exp_clamped ds).
Proof.
  intros Hd Hne Hr. destruct ds as [|c ds]; [done|]. apply Forall_cons in Hd as [Hc Hd].
  pose proof Hc as Hc'. unfold is_digit in Hc'.
  destruct (exponent_loop_ok ds r Hd Hr (c - 48)) as (ds2 & Hd2 & E & _); [lia|].
  exists c, ds, ds2. split_and!; [done..|]. rewrite E. unfold exp_clamped. cbn [fold_left]. 
  by replace (0 * 10 + (c - 48)) with (c - 48) by lia.
Qed.

Lemma parse_exponent_complete et x r : exp_text et x -> stops r ->
  (et = [] -> head r <> Some 69 /\ head r <> Some 101) -> parse_exponent (et ++ r) = Some (inr (r, x)).
Proof.
  intros He Hr Hf. unfold parse_exponent. destruct He as [|e ds He Hd Hne|e ds He Hd Hne|e ds He Hd Hne].
  1: { destruct Hf as [H1 H2]; [done|]. destruct Hr as (c & r' & -> & Hc). cbn in *.
    by replace ((c =? 69) || (c =? 101)) with false by (destruct (Z.eqb_spec c 69), (Z.eqb_spec c 101); first [done|congruence]). }
  all: destruct (parse_exponent_digits ds r Hd Hne Hr) as (c & ds' & ds2 & -> & Hc & Hd2 & E);
    cbn [app head tail mbind option_bind]; replace ((e =? 69) || (e =? 101)) with true by lia;
    pose proof Hc as Hc'; unfold is_digit in Hc'.
  1: replace (c =? 45) with false by lia; replace (c =? 43) with false by lia.
  all: cbn [orb head tail mbind option_bind Z.eqb Pos.eqb]; rewrite Hc; cbn [negb head tail mbind option_bind]; rewrite E;
    cbn [mbind option_bind]; by rewrite skip_digits_ok.
Qed.

Lemma parse_fraction_complete fs r : digits fs -> stops r -> (fs = [] -> head r <> Some 46) ->
  exists r2, stops r2 /\ parse_fraction (frac_text fs ++ r) = Some (inr (r, fs ++ r2)).
Proof.
  intros Hd Hr Hf. unfold parse_fraction. destruct fs as [|c fs].
  - specialize (Hf eq_refl). destruct Hr as (c & r' & -> & Hc). cbn in *. exists [NUL]. split; [by exists NUL, []|].
    by destruct (Z.eqb_spec c 46); [congruence|].
  - apply Forall_cons in Hd as [Hc Hd]. exists r. split; [done|].
    cbn [frac_text app head tail mbind option_bind Z.eqb Pos.eqb]. rewrite Hc. cbn [negb].
    rewrite skip_digits_ok by done. done.
Qed.

(** A number of the specification is accepted, and evaluated. *)
Lemma number_complete t d r : jnumber t d ->
  (exists et x, exp_text et x /\ d_exp d = x /\
     t = (if d_neg d then [45] else []) ++ d_int d ++ frac_text (d_frac d) ++ et /\ number_follow (d_frac d) et r) ->
  __parse_json_number (t ++ r) = (v ← decimal_double d; Some (inr (r, v))).
Proof.
  intros Ht (et & x & He & Ex & Et & Hr & Hf). destruct Ht as [neg ds fs et' x' Hds Hfs He' Hl].
  cbn [d_neg d_int d_frac d_exp] in *. subst x'.
  rewrite !app_inv_head_iff in Et. subst et'. pose proof (exp_text_range _ _ He) as Hx.
  pose proof Hds as (Hd & Hne & Hz). destruct ds as [|c ds]; [done|]. apply Forall_cons in Hd as [Hc Hd].
  pose proof Hc as Hc'. unfold is_digit in Hc'.
  set (sg := if neg then [45] else []) in *.
  assert (Hse : stops (et ++ r)).
  { destruct et as [|e et]; [done|]. exists e, (et ++ r). split; [done|].
    inversion He; subst; unfold is_digit; lia. }
  assert (Hfe : fs = [] -> head (et ++ r) <> Some 46).
  { intros ->. destruct et as [|e et]; [apply Hf; done|]. inversion He; subst; cbn; intros [= ->]; lia. }
  assert (Hsf : stops (frac_text fs ++ et ++ r)) by (destruct fs as [|f fs]; [done|by exists 46, (f :: fs ++ et ++ r)]).
  destruct (parse_fraction_complete fs (et ++ r) Hfs Hse Hfe) as (r2 & Hr2 & Ef).
  unfold __parse_json_number.
  assert (E1 : (sg ++ (c :: ds) ++ frac_text fs ++ et) ++ r = sg ++ c :: ds ++ frac_text fs ++ et ++ r)
    by (rewrite <- !app_assoc; done). rewrite E1.
  assert (E2 : head (sg ++ c :: ds ++ frac_text fs ++ et ++ r) = Some (if neg then 45 else c)) by (by destruct neg).
  rewrite E2. cbn [mbind option_bind]. replace ((if neg then 45 else c) =? 45) with neg by (destruct neg; lia).
  assert (E3 : (if neg then tail (sg ++ c :: ds ++ frac_text fs ++ et ++ r) else sg ++ c :: ds ++ frac_text fs ++ et ++ r)
    = c :: ds ++ frac_text fs ++ et ++ r) by (by destruct neg). rewrite E3.
  cbn [head tail mbind option_bind]. rewrite Hc. cbn [negb].
  assert (Hh : exists c1, head (ds ++ frac_text fs ++ et ++ r) = Some c1 /\ (c =? 48) && is_digit c1 = false).
  { destruct Hz as [Hz|Hz].
    - injection Hz as -> ->. destruct Hsf as (c1 & q & E & Hq). cbn [app]. rewrite E. by exists c1.
    - destruct (ds ++ frac_text fs ++ et ++ r) as [|c1 q] eqn:E.
      + destruct Hsf as (c1 & q & E' & _). rewrite E' in E. by destruct ds.
      + exists c1. split; [done|]. replace (c =? 48) with false; [done|]. cbn in Hz. symmetry. apply Z.eqb_neq. congruence. }
  destruct Hh as (c1 & -> & E4). cbn [mbind option_bind]. rewrite E4. rewrite skip_digits_ok by done.
  cbn [mbind option_bind]. rewrite Ef. cbn [rbind].
  rewrite (parse_exponent_complete et x r) by (try done; intros; split; by apply Hf). cbn [rbind].
  rewrite <- E1, length_app. replace (1000000 <? _) with false by (cbn [app length] in *; lia).
  rewrite E1. unfold sg in *. change (c :: ds ++ frac_text fs ++ et ++ r) with ((c :: ds) ++ frac_text fs ++ et ++ r).
  rewrite (evaluate_ok neg (c :: ds) fs x (frac_text fs ++ et ++ r) r2); [done..|lia|].
  rewrite !length_app in Hl. destruct fs; cbn [frac_text length] in *; lia.
Qed.

Lemma elem_nul_head s : NUL ∈ s -> exists c s', s = c :: s' /\ (c <> NUL -> NUL ∈ s').
Proof.
  destruct s as [|c s]; intros Hs; [by apply elem_of_nil in Hs|]. exists c, s. split; [done|].
  apply elem_of_cons in Hs as [<-|Hs]; done.
Qed.

Lemma parse_fraction_sound s : NUL ∈ s -> stops s ->
  parse_fraction s = Some (inl (-2)) \/
  exists fs r fr, s = frac_text fs ++ r /\ digits fs /\ NUL ∈ r /\ stops r /\
    (fs = [] -> head r <> Some 46) /\ parse_fraction s = Some (inr (r, fr)).
Proof.
  intros Hs Hst. unfold parse_fraction. destruct (elem_nul_head s Hs) as (c & s' & -> & Hn).
  cbn [head tail mbind option_bind]. destruct (Z.eqb_spec c 46) as [->|Hc].
  - specialize (Hn ltac:(done)). destruct (elem_nul_head s' Hn) as (d & s2 & -> & Hn2).
    cbn [head tail mbind option_bind]. destruct (is_digit d) eqn:Hd; cbn [negb]; [|by left].
    assert (NUL ∈ s2) as Hn2' by (apply Hn2; unfold is_digit in Hd; lia).
    destruct (digits_split s2 Hn2') as (ds & r & -> & Hds & Hr & Hnr). right.
    exists (d :: ds), r, (d :: ds ++ r). rewrite skip_digits_ok by done.
    split_and!; try done. by constructor.
  - right. exists [], (c :: s'), [NUL]. split_and!; try done. + constructor. + cbn. congruence.
Qed.

Lemma parse_exponent_sound s : NUL ∈ s -> stops s ->
  parse_exponent s = Some (inl (-2)) \/
  exists et r x, s = et ++ r /\ exp_text et x /\ NUL ∈ r /\ stops r /\
    (et = [] -> head r <> Some 69 /\ head r <> Some 101) /\ parse_exponent s = Some (inr (r, x)).
Proof.
  intros Hs Hst. destruct (elem_nul_head s Hs) as (e & s' & -> & Hn).
  destruct ((e =? 69) || (e =? 101)) eqn:He.
  - specialize (Hn ltac:(lia)). destruct (elem_nul_head s' Hn) as (c & s2 & -> & Hn2).
    set (sgn := (c =? 45) || (c =? 43)).
    assert (Hcur : exists cur, (if sgn then s2 else c :: s2) = cur /\ NUL ∈ cur).
    { exists (if sgn then s2 else c :: s2). split; [done|]. unfold sgn.
      destruct ((c =? 45) || (c =? 43)) eqn:E; [apply Hn2; lia|done]. }
    destruct Hcur as (cur & Ecur & Hcur). destruct (elem_nul_head cur Hcur) as (d & s3 & -> & Hn3).
    destruct (is_digit d) eqn:Hd.
    + assert (Hn3' : NUL ∈ s3) by (apply Hn3; unfold is_digit in Hd; lia).
      destruct (digits_split s3 Hn3') as (ds & r & -> & Hds & Hr & Hnr). right.
      assert (Hdd : digits (d :: ds)) by (by constructor).
      assert (Het : exists et x, e :: c :: s2 = et ++ r /\ exp_text et x /\ et <> []).
      { unfold sgn in Ecur. destruct (Z.eqb_spec c 45) as [->|H1]; [|destruct (Z.eqb_spec c 43) as [->|H2]];
          cbn [orb] in Ecur; rewrite ?Ecur; eexists _, _.
        - split_and!; [|apply (exp_minus e (d :: ds)); [lia|done|done]|done]. cbn. by rewrite <- Ecur.
        - split_and!; [|apply (exp_plus e (d :: ds)); [lia|done|done]|done]. cbn. by rewrite <- Ecur.
        - split_and!; [|apply (exp_plain e (d :: ds)); [lia|done|done]|done]. done. }
      destruct Het as (et & x & Es & Het & Hne). exists et, r, x.
      assert (Hf : et = [] -> head r <> Some 69 /\ head r <> Some 101) by done.
      split_and!; try done. rewrite Es. by apply parse_exponent_complete.
    + left. unfold parse_exponent. cbn [head tail mbind option_bind]. rewrite He. cbn [head tail mbind option_bind].
      fold sgn. rewrite Ecur. cbn [head mbind option_bind]. by rewrite Hd.
  - right. exists [], (e :: s'), 0. assert (Hf : head (e :: s') <> Some 69 /\ head (e :: s') <> Some 101)
      by (cbn; split; intros [= ->]; done).
    split_and!; try done; try apply Hf; try constructor. unfold parse_exponent. cbn [head mbind option_bind]. by rewrite He.
Qed.

Lemma number_sound s : NUL ∈ s ->
  __parse_json_number s = Some (inl (-2)) \/
  exists t d r et, s = t ++ r /\ NUL ∈ r /\ jnumber t d /\ exp_text et (d_exp d) /\
    t = (if d_neg d then [45] else []) ++ d_int d ++ frac_text (d_frac d) ++ et /\ number_follow (d_frac d) et r.
Proof.
  intros Hs. unfold __parse_json_number. destruct (elem_nul_head s Hs) as (c & s' & -> & Hn).
  cbn [head mbind option_bind]. set (neg := c =? 45).
  assert (Hcur : exists cur, (if neg then s' else c :: s') = cur /\ NUL ∈ cur /\ c :: s' = (if neg then [45] else []) ++ cur).
  { exists (if neg then s' else c :: s'). unfold neg. destruct (Z.eqb_spec c 45) as [->|]; [|done].
    split_and!; [done|by apply Hn|done]. }
  destruct Hcur as (cur & Ecur & Hcur & Es). change (if neg then tail (c :: s') else c :: s') with (if neg then s' else c :: s').
  rewrite Ecur. destruct (elem_nul_head cur Hcur) as (d & s2 & -> & Hn2).
  cbn [head tail mbind option_bind]. destruct (is_digit d) eqn:Hd; cbn [negb]; [|by left].
  assert (Hn2' : NUL ∈ s2) by (apply Hn2; unfold is_digit in Hd; lia).
  destruct (digits_split s2 Hn2') as (ds & r & -> & Hds & Hr & Hnr).
  destruct (elem_nul_head (ds ++ r) Hn2') as (c1 & s3 & E3 & _). rewrite E3. cbn [head mbind option_bind].
  destruct ((d =? 48) && is_digit c1) eqn:Hz; [by left|]. rewrite <- E3. rewrite skip_digits_ok by done.
  cbn [mbind option_bind].
  destruct (parse_fraction_sound r Hnr Hr) as [->|(fs & r2 & fr & -> & Hfs & Hn3 & Hr2 & Hf & Ef)]; [by left|].
  rewrite Ef. cbn [rbind].
  destruct (parse_exponent_sound r2 Hn3 Hr2) as [->|(et & r3 & x & -> & Het & Hn4 & Hr3 & Hfe & Ee)]; [by left|].
  rewrite Ee. cbn [rbind].
  assert (Hip : int_part (d :: ds)).
  { split_and!; [by constructor|done|]. destruct (Z.eqb_spec d 48) as [->|]; [left|right; cbn; congruence].
    destruct ds as [|d1 ds]; [done|]. injection E3 as <- _. apply Forall_cons in Hds as [Hd1 _]. by rewrite Hd1 in Hz. }
  rewrite Es. destruct (Z.ltb_spec 1000000 (len ((if neg then [45] else []) ++ d :: ds ++ frac_text fs ++ et ++ r3) - len r3)) as [Hl|Hl];
    [by left|]. right.
  exists ((if neg then [45] else []) ++ (d :: ds) ++ frac_text fs ++ et), (mk_decimal neg (d :: ds) fs x), r3, et.
  cbn [d_neg d_int d_frac d_exp]. split_and!; try done.
  - rewrite <- !app_assoc. done.
  - constructor; [done..|]. rewrite !length_app in *. cbn [length] in *. rewrite !length_app in *. lia.
  - split; [done|]. intros ->. split_and!; [by apply Hfe..|]. intros ->. by apply Hf.
Qed.

(** ** The properties *)

(** Numbers: on every NUL-terminated text, [__parse_json_number] stays inside
    the text, terminates, and accepts exactly the texts that start with a JSON
    number of at most a million characters, the longest it can take; the value
    is the double of its significant digits and exponent, and [*end] is what
    follows.  Anything else is rejected with [-2]. *)
Theorem json_number_correct s :
  NUL ∈ s ->
  let number t d r := exists et, s = t ++ r /\ jnumber t d /\ exp_text et (d_exp d) /\
    t = (if d_neg d then [45] else []) ++ d_int d ++ frac_text (d_frac d) ++ et /\
    number_follow (d_frac d) et r in
  (exists t d r v, number t d r /\ decimal_double d = Some v /\ __parse_json_number s = Some (inr (r, v))) \/
  ((forall t d r, ~ number t d r) /\ __parse_json_number s = Some (inl (-2))).
Proof.
  intros Hs number.
  assert (Hc : forall t d r, number t d r ->
    exists v, decimal_double d = Some v /\ __parse_json_number s = Some (inr (r, v))).
  { intros t d r (et & -> & Ht & He & Et & Hf).
    rewrite (number_complete t d r Ht) by (exists et, (d_exp d); done).
    destruct (decimal_double_total d) as [v ->]; [destruct Ht as [? ? ? ? ? [? _] ? _ _]; done..|]. by exists v. }
  destruct (number_sound s Hs) as [E|(t & d & r & et & Es & Hn & Ht & He & Et & Hf)].
  - right. split; [|done]. intros t d r H. destruct (Hc t d r H) as (v & _ & E'). congruence.
  - left. destruct (Hc t d r) as (v & Ev & E); [by exists et|]. exists t, d, r, v. split; [by exists et|done].
Qed.

(** The mantissa and the exponent: the evaluation keeps at most 18 significant
    digits in a [long long], which bound the number from below within one unit of
    the last digit kept (all of it, when there are no more than 18 of them); the
    scaling does not change the value; no operation overflows and no index leaves
    the table of powers; and an integer of at most 18 digits is converted with a
    single rounding. *)
Theorem json_number_value d :
  int_part (d_int d) -> digits (d_frac d) ->
  let j := len (significant d) - figures d in
  (0 <= mantissa d < 10 ^ 18 /\ 0 <= j /\
   mantissa d * 10 ^ j <= digits_value (d_int d ++ d_frac d) < (mantissa d + 1) * 10 ^ j) /\
  (exists m e f, scale (mantissa d) (exponent d) (figures d) = Some (m, e, f) /\
     same_value (mantissa d) (exponent d) m e /\ 0 <= m < 10 ^ 18) /\
  (exists v, decimal_double d = Some v) /\
  (d_frac d = [] -> d_exp d = 0 -> len (d_int d) <= 18 ->
     let v := double_of_Z (digits_value (d_int d)) in
     decimal_double d = Some (if d_neg d then SFopp v else v)).
Proof.
  intros Hi Hf j. pose proof Hi as (Hd & Hne & Hz).
  pose proof (mantissa_bounds d Hd Hf) as Hb. pose proof (mantissa_cases d Hd Hf) as Hc. split_and!; try apply Hb.
  - destruct Hc as [(_ & -> & _)|[_ Hm]]; [lia|]. apply has_figures_llong in Hm. lia.
  - destruct Hc as [(_ & -> & _)|[_ Hm]]; [lia|]. apply has_figures_llong in Hm. lia.
  - destruct Hc as [(_ & -> & ->)|[_ Hm]].
    + exists 0, (exponent d), 0. unfold scale. rewrite andb_false_r. split_and!; [done| |lia..]. exists 0. lia.
    + destruct (scale_ok _ (exponent d) _ Hm) as (m & e & f & E & Hm' & Hv & _). exists m, e, f.
      apply has_figures_llong in Hm'. split_and!; [done..|lia|lia].
  - by apply decimal_double_total.
  - intros E1 E2 Hl v. unfold decimal_double, exponent. rewrite E1, E2. cbn [length].
    pose proof (drop_zeros_length (d_int d ++ d_frac d)) as Hs. rewrite E1, app_nil_r in Hs.
    assert (Ev : mantissa d = digits_value (d_int d)).
    { unfold mantissa, significant. rewrite E1, app_nil_r, take_ge by lia. by apply drop_zeros_value. }
    unfold figures, significant in *. rewrite E1, app_nil_r in *.
    replace (0 - Z.of_nat 0 + _) with 0 by lia. unfold scale, to_double. cbn. by rewrite Ev.
Qed.

(** The cut-offs of the conversion: when it answers infinity, the scaled
    mantissa has 18 digits, so the number is above the range of the doubles, and
    when it answers zero, the number is below half of the smallest one. *)
Theorem json_number_range d m e f :
  int_part (d_int d) -> digits (d_frac d) ->
  scale (mantissa d) (exponent d) (figures d) = Some (m, e, f) -> 0 < m ->
  (291 < e -> to_double m e f = Some (S754_infinity false) /\ 2 ^ 1024 < m * 10 ^ e) /\
  (e <= -324 - f -> to_double m e f = Some (S754_zero false) /\ m * 2 ^ 1075 < 10 ^ (- e)).
Proof.
  intros (Hd & _) Hf E Hm.
  destruct (mantissa_cases d Hd Hf) as [(_ & E1 & E2)|[_ Hfig]].
  { rewrite E1, E2 in E. unfold scale in E. rewrite andb_false_r in E. injection E as <- _ _. lia. }
  destruct (scale_ok _ (exponent d) _ Hfig) as (m' & e' & f' & E' & Hm' & _ & _ & H18).
  rewrite E in E'. injection E' as <- <- <-. destruct Hm' as [Hf' Hm'].
  unfold to_double. split; intros He.
  - replace (e =? 0) with false by lia. replace (f =? 0) with false by lia. cbn [negb andb].
    replace (291 <? e) with true by lia. split; [done|]. rewrite (H18 ltac:(lia)) in Hm'.
    apply Z.lt_le_trans with (10 ^ 17 * 10 ^ 292); [by vm_compute|].
    apply Z.mul_le_mono_nonneg; [lia|cbn in *; lia|lia|]. apply Z.pow_le_mono_r; lia.
  - replace (e =? 0) with false by lia. replace (f =? 0) with false by lia. cbn [negb andb].
    replace (291 <? e) with false by lia. replace (0 <? e) with false by lia.
    replace (-309 <? e) with false by lia. replace (-324 - f <? e) with false by lia. split; [done|].
    apply Z.lt_le_trans with (10 ^ f * 2 ^ 1075); [apply Z.mul_lt_mono_pos_r; lia|].
    apply Z.le_trans with (10 ^ f * 10 ^ 324); [apply Z.mul_le_mono_nonneg_l; [lia|]; by vm_compute|].
    rewrite <- Z.pow_add_r by lia. apply Z.pow_le_mono_r; lia.
Qed.

(** ** Witnesses *)

(** [-12.5e3,] *)
Definition demo_number : list Z := [45; 49; 50; 46; 53; 101; 51; 44; 0].

Lemma json_number_correct_witness :
  exists v, __parse_json_number demo_number = Some (inr ([44; 0], v)) /\ v = SFopp (double_of_Z 12500).
Proof.
  assert (Hs : NUL ∈ demo_number) by (unfold demo_number; do 8 right; left).
  destruct (json_number_correct demo_number Hs) as [(t & d & r & v & _ & _ & E)|[_ E]].
  - vm_compute in E. injection E as <- <-. eexists. split; [vm_compute; reflexivity|vm_compute; reflexivity].
  - vm_compute in E. discriminate.
Defined.

Lemma json_number_value_witness :
  decimal_double (mk_decimal true [52; 50] [] 0) = Some (SFopp (double_of_Z 42)).
Proof.
  apply (json_number_value (mk_decimal true [52; 50] [] 0)); try reflexivity.
  - split; [repeat constructor|]. split; [discriminate|right; discriminate].
  - constructor.
  - discriminate.
Defined.

Lemma json_number_range_witness :
  to_double 900000000000000000 292 18 = Some (S754_infinity false) /\ 2 ^ 1024 < 900000000000000000 * 10 ^ 292.
Proof.
  apply (json_number_range (mk_decimal false [57] [] 309) 900000000000000000 292 18).
  - split; [repeat constructor|]. split; [discriminate|right; discriminate].
  - constructor.
  - vm_compute. reflexivity.
  - reflexivity.
  - reflexivity.
Defined.
