(* ===== verification/JsonObject.v ===== *)
(** * The containers of JSON values: [src/util/json_parser.c]

    A JSON object keeps its members twice: in a list, in the order of insertion,
    and in a red-black tree sorted by name, where equal names stay in the order of
    arrival.  A JSON array is a list of elements.  Members and elements are
    identified by an address (that of the structure, from which [container_of]
    reaches its [list], [rb], [value] and [name] fields); a [pos] of the source, a
    pointer to a list head, is [None] for the head of the container and [Some x]
    for the member [x].  The doubly linked list is the sequence of its nodes (the
    pointers are the subject of [ListHead.v]); the tree is a store of
    [RBTree.v].

    The operations are polymorphic in the values. *)

From S2P Require Import Prelude CLib RBTree RBInsert RBErase RBSearch JsonText.

Local Open Scope Z_scope.

(** ** Strings *)

(** The C string a buffer holds: the bytes before the first NUL. *)
Fixpoint cstr (s : list Z) : list Z :=
  match s with [] => [] | c :: s => if c =? NUL then [] else c :: cstr s end.

Fixpoint lexicographic (a b : list Z) : Z :=
  match a, b with
  | [], [] => 0
  | [], _ :: _ => -1
  | _ :: _, [] => 1
  | x :: a, y :: b => if x <? y then -1 else if y <? x then 1 else lexicographic a b
  end.

(** The sign of [strcmp(a, b)]. *)
Definition strcmp (a b : list Z) : Z := lexicographic (cstr a) (cstr b).

(** ** Data *)

(** [json_object_t]: [members] are the nodes of the list headed by [head], each
    with its name and its value. *)
Record json_object V := mk_object {
  members : list (loc * (list Z * V));
  root : RBTree.state;
  osize : Z }.
Arguments mk_object {V}.
Arguments members {V}.
Arguments root {V}.
Arguments osize {V}.

(** [json_array_t]. *)
Record json_array V := mk_array { elements : list (loc * V); asize : Z }.
Arguments mk_array {V}.
Arguments elements {V}.
Arguments asize {V}.

(** ** Positions in a list *)

Section Lists.
Context {X : Type}.
Implicit Types (l : list (loc * X)) (pos : option loc).

(** [list_add(&x->list, pos)]. *)
Fixpoint insert_after (pos : option loc) (x : loc * X) (l : list (loc * X)) : option (list (loc * X)) :=
  match pos with
  | None => Some (x :: l)
  | Some p =>
      match l with
      | [] => None
      | y :: l => if decide (y.1 = p) then Some (y :: x :: l) else l ← insert_after pos x l; Some (y :: l)
      end
  end.

(** [pos->prev] and [pos->next]; the neighbour of the last node is the head. *)
Fixpoint prev_from (before : option loc) (p : loc) l : option (option loc) :=
  match l with
  | [] => None
  | y :: l => if decide (y.1 = p) then Some before else prev_from (Some y.1) p l
  end.
Definition pos_prev pos l : option (option loc) :=
  match pos with None => Some (fst <$> last l) | Some p => prev_from None p l end.
Fixpoint next_from (p : loc) l : option (option loc) :=
  match l with
  | [] => None
  | y :: l => if decide (y.1 = p) then Some (fst <$> head l) else next_from p l
  end.
Definition pos_next pos l : option (option loc) :=
  match pos with None => Some (fst <$> head l) | Some p => next_from p l end.

(** [list_del(&x->list)]: what [x] held, and the other nodes. *)
Fixpoint list_remove (p : loc) l : option (X * list (loc * X)) :=
  match l with
  | [] => None
  | y :: l => if decide (y.1 = p) then Some (y.2, l) else '(v, l) ← list_remove p l; Some (v, y :: l)
  end.

(** An address that is none of the nodes': what [malloc] returns. *)
Definition new_loc l : loc := foldr (fun y n => Pos.max (Pos.succ y.1) n) 1%positive l.

End Lists.

(** ** Objects *)

Section Objects.
Context {V : Type}.
Implicit Types (o : json_object V) (name : list Z) (pos : option loc).

Definition init_object : json_object V := mk_object [] (mk_state ∅ None) 0.

(** [rb_entry(p, json_member_t, rb)->name]. *)
Definition name_of o (x : loc) : list Z :=
  match find (fun y => bool_decide (y.1 = x)) (members o) with Some (_, (name, _)) => name | None => [] end.

Definition object_fuel o : nat := rb_fuel (S (length (members o))).

(** [memb] is the new node [x]; its [rb] field is not initialised. *)
Definition __insert_json_member (x : loc) name (v : V) pos o : option (json_object V) :=
  let before y := strcmp name (name_of o y) <? 0 in
  let cell := mk_rb_node None None None RB_RED in
  tree ← rb_insert_sorted before (object_fuel o) x
           (mk_state (<[x := cell]> (mem (root o))) (rb_root (root o)));
  ms ← insert_after pos (x, (name, v)) (members o);
  Some (mk_object ms tree (osize o)).

Definition json_object_find name o : option (option loc) :=
  rb_find (fun y => strcmp name (name_of o y)) (object_fuel o) (rb_root (root o)) (root o).

Definition json_object_size o : Z := osize o.

(** The values and the names of an object are handled by pointers to the fields
    of the member, so the four iterators are two functions on positions. *)
Definition json_object_next_name pos o : option (option loc) := pos_next pos (members o).
Definition json_object_next_value pos o : option (option loc) := pos_next pos (members o).
Definition json_object_prev_name pos o : option (option loc) := pos_prev pos (members o).
Definition json_object_prev_value pos o : option (option loc) := pos_prev pos (members o).

(** The part of [__json_object_insert] after the allocations: [memb] holds [name]
    and [v]. *)
Definition object_insert_member name (v : V) pos o : option (loc * json_object V) :=
  let x := new_loc (members o) in
  o ← __insert_json_member x name v pos o;
  n ← int_incr (osize o);
  Some (x, mk_object (members o) (root o) n).

(** The part of [json_object_remove] after the allocation: the value to move and
    the object. *)
Definition object_remove_member (x : loc) o : option (V * json_object V) :=
  '((_, v), ms) ← list_remove x (members o);
  tree ← rb_erase (object_fuel o) x (root o);
  Some (v, mk_object ms (mk_state (delete x (mem tree)) (rb_root tree)) (osize o - 1)).

End Objects.

(** ** Arrays *)

Section Arrays.
Context {V : Type}.
Implicit Types (a : json_array V) (pos : option loc).

Definition init_array : json_array V := mk_array [] 0.

Definition json_array_size a : Z := asize a.
Definition json_array_next_value pos a : option (option loc) := pos_next pos (elements a).
Definition json_array_prev_value pos a : option (option loc) := pos_prev pos (elements a).

(** The part of [__json_array_insert] after the allocations. *)
Definition array_insert_element (v : V) pos a : option (loc * json_array V) :=
  let x := new_loc (elements a) in
  l ← insert_after pos (x, v) (elements a);
  n ← int_incr (asize a);
  Some (x, mk_array l n).

(** The part of [json_array_remove] after the allocation. *)
Definition array_remove_element (x : loc) a : option (V * json_array V) :=
  '(v, l) ← list_remove x (elements a);
  Some (v, mk_array l (asize a - 1)).

End Arrays.

(** ** The loops over a container *)

(** [json_object_for_each(name, val, obj)] and its three siblings: the nodes
    visited, from the position [pos]. *)
Fixpoint for_each (next : option loc -> option (option loc)) (fuel : nat) (pos : option loc) : option (list loc) :=
  match fuel with
  | O => None
  | S fuel =>
      p ← next pos;
      match p with
      | None => Some []
      | Some x => l ← for_each next fuel (Some x); Some (x :: l)
      end
  end.

Definition json_object_for_each {V} (o : json_object V) : option (list loc) :=
  for_each (fun pos => json_object_next_value pos o) (S (length (members o))) None.
Definition json_object_for_each_prev {V} (o : json_object V) : option (list loc) :=
  for_each (fun pos => json_object_prev_value pos o) (S (length (members o))) None.
Definition json_array_for_each {V} (a : json_array V) : option (list loc) :=
  for_each (fun pos => json_array_next_value pos a) (S (length (elements a))) None.
Definition json_array_for_each_prev {V} (a : json_array V) : option (list loc) :=
  for_each (fun pos => json_array_prev_value pos a) (S (length (elements a))) None.

(** ** The order of names *)

Lemma lexicographic_opp a b : lexicographic b a = - lexicographic a b.
Proof.
  revert b. induction a as [|x a IH]; intros [|y b]; cbn; try done.
  destruct (Z.ltb_spec x y), (Z.ltb_spec y x); try lia; done.
Qed.

Lemma lexicographic_zero a b : lexicographic a b = 0 <-> a = b.
Proof.
  revert b. induction a as [|x a IH]; intros [|y b]; cbn; try done.
  destruct (Z.ltb_spec x y), (Z.ltb_spec y x); try (split; [lia|intros [= -> ->]; lia]).
  rewrite IH. split; [intros ->; f_equal; lia|by intros [= -> ->]].
Qed.

Lemma lexicographic_trans a b c : lexicographic a b <= 0 -> lexicographic b c <= 0 -> lexicographic a c <= 0.
Proof.
  revert b c. induction a as [|x a IH]; intros [|y b] [|z c]; cbn; try lia.
  destruct (Z.ltb_spec x y), (Z.ltb_spec y x), (Z.ltb_spec y z), (Z.ltb_spec z y),
    (Z.ltb_spec x z), (Z.ltb_spec z x); try lia. apply IH.
Qed.

Lemma strcmp_opp a b : strcmp b a = - strcmp a b.
Proof. apply lexicographic_opp. Qed.
Lemma strcmp_zero a b : strcmp a b = 0 <-> cstr a = cstr b.
Proof. apply lexicographic_zero. Qed.
Lemma strcmp_trans a b c : strcmp a b <= 0 -> strcmp b c <= 0 -> strcmp a c <= 0.
Proof. apply lexicographic_trans. Qed.

Lemma strcmp_lt_le a b c : strcmp a b < 0 -> strcmp b c <= 0 -> strcmp a c < 0.
Proof.
  intros H1 H2. pose proof (strcmp_trans a b c ltac:(lia) H2). destruct (Z.eq_dec (strcmp a c) 0) as [E|]; [|lia].
  unfold strcmp in *. apply lexicographic_zero in E. rewrite <- E, lexicographic_opp in H2. lia.
Qed.

(** ** Positions *)

Section ListLemmas.
Context {X : Type}.
Implicit Types (l : list (loc * X)).

Lemma insert_after_ok pos x l :
  match pos with Some p => p ∈ map fst l | None => True end ->
  exists l1 l2, l = l1 ++ l2 /\ insert_after pos x l = Some (l1 ++ x :: l2) /\
    fst <$> last l1 = pos.
Proof.
  destruct pos as [p|]; [|exists [], l; by destruct l].
  induction l as [|y l IH]; intros Hp; [by apply elem_of_nil in Hp|]. cbn [map] in Hp. cbn [insert_after].
  case_decide as Hy; [exists [y], l; by rewrite <- Hy|].
  apply elem_of_cons in Hp as [->|Hp]; [done|]. destruct (IH Hp) as (l1 & l2 & -> & E & Hl).
  exists (y :: l1), l2. cbn in E |- *. rewrite E. split_and!; [done|done|].
  destruct l1 as [|z l1]; [done|]. exact Hl.
Qed.

Lemma list_remove_ok p l : p ∈ map fst l ->
  exists l1 v l2, l = l1 ++ (p, v) :: l2 /\ list_remove p l = Some (v, l1 ++ l2).
Proof.
  induction l as [|y l IH]; intros Hp; [by apply elem_of_nil in Hp|]. cbn [map] in Hp. cbn [list_remove].
  case_decide as Hy; [exists [], y.2, l; by destruct y; cbn in *; subst|].
  apply elem_of_cons in Hp as [->|Hp]; [done|]. destruct (IH Hp) as (l1 & v & l2 & -> & E).
  exists (y :: l1), v, l2. rewrite E. done.
Qed.

(** The iterators go through the list in both directions. *)
Lemma pos_next_ok l1 x v l2 : NoDup (map fst (l1 ++ (x, v) :: l2)) ->
  pos_next (Some x) (l1 ++ (x, v) :: l2) = Some (fst <$> head l2).
Proof.
  cbn [pos_next]. induction l1 as [|y l1 IH]; intros Hd; cbn [app map next_from] in *; [by rewrite decide_True|].
  apply list.NoDup_cons in Hd as [Hy Hd]. rewrite decide_False; [by apply IH|].
  intros <-. apply Hy. rewrite map_app. apply elem_of_app. right. by left.
Qed.

Lemma prev_from_ok l1 x v l2 before : NoDup (map fst (l1 ++ (x, v) :: l2)) ->
  prev_from before x (l1 ++ (x, v) :: l2) = Some (match last l1 with Some y => Some y.1 | None => before end).
Proof.
  revert before. induction l1 as [|y l1 IH]; intros before Hd; cbn [app map prev_from] in *; [by rewrite decide_True|].
  apply list.NoDup_cons in Hd as [Hy Hd]. rewrite decide_False.
  - rewrite IH by done. rewrite last_cons. by destruct (last l1).
  - intros <-. apply Hy. rewrite map_app. apply elem_of_app. right. by left.
Qed.

Lemma pos_prev_ok l1 x v l2 : NoDup (map fst (l1 ++ (x, v) :: l2)) ->
  pos_prev (Some x) (l1 ++ (x, v) :: l2) = Some (fst <$> last l1).
Proof. intros Hd. cbn [pos_prev]. rewrite prev_from_ok by done. by destruct (last l1). Qed.

Lemma new_loc_fresh l : (new_loc l) ∉ map fst l.
Proof.
  assert (H : forall x, x ∈ map fst l -> (x < new_loc l)%positive).
  { intros x. unfold new_loc. induction l as [|y l IH]; [by intros ?%elem_of_nil|].
    cbn [map foldr]. intros [->|Hx]%elem_of_cons; [lia|]. specialize (IH Hx). lia. }
  intros Hx. specialize (H _ Hx). lia.
Qed.

End ListLemmas.

(** ** The invariant of an object *)

Section Objects.
Context {V : Type}.
Implicit Types (o : json_object V) (name : list Z) (pos : option loc).

Definition ids o : list loc := map fst (members o).

(** The tree holds the members, sorted by name. *)
Record sorted_tree o (l : list loc) : Prop := mk_sorted_tree {
  st_holds : rb_holds (root o) l;
  st_perm : l ≡ₚ ids o;
  st_nodup : NoDup (ids o);
  st_sorted : StronglySorted (fun x y => strcmp (name_of o x) (name_of o y) <= 0) l }.

(** During the parse of an object its size is not set yet. *)
Definition object_tree_ok o : Prop := exists l, sorted_tree o l.
Definition object_ok o : Prop := object_tree_ok o /\ osize o = len (members o).

Definition valid_pos pos o : Prop := match pos with Some p => p ∈ ids o | None => True end.

Lemma name_of_in o x name v : NoDup (ids o) -> (x, (name, v)) ∈ members o -> name_of o x = name.
Proof.
  unfold name_of, ids. induction (members o) as [|[y [n w]] l IH]; intros Hd Hx; [by apply elem_of_nil in Hx|].
  cbn [map] in Hd. apply list.NoDup_cons in Hd as [Hy Hd]. cbn. apply elem_of_cons in Hx as [Hx|Hx].
  - injection Hx as -> -> ->. by rewrite bool_decide_true.
  - rewrite bool_decide_false; [by apply IH|]. intros ->. apply Hy. apply (list_elem_of_fmap_2 fst) in Hx. done.
Qed.

Lemma ids_member o x : x ∈ ids o -> exists name v, (x, (name, v)) ∈ members o.
Proof. intros Hx. apply list_elem_of_fmap in Hx as ([y [n v]] & -> & H). eauto. Qed.

Lemma name_of_perm o o' x : NoDup (ids o) -> x ∈ ids o -> NoDup (ids o') ->
  (forall m, m ∈ members o -> m ∈ members o' ) -> name_of o' x = name_of o x.
Proof.
  intros Hd Hx Hd' H. destruct (ids_member o x Hx) as (n & v & Hm).
  rewrite (name_of_in o x n v), (name_of_in o' x n v); auto.
Qed.

Lemma object_fuel_height o l t : l ≡ₚ ids o -> valid t -> inorder t = l -> (height t < object_fuel o)%nat.
Proof.
  intros Hp Hv <-. apply rb_fuel_enough; [done|]. rewrite Hp. unfold ids. rewrite length_map. lia.
Qed.

Lemma init_object_ok : object_ok (@init_object V).
Proof.
  split; [|done]. exists []. constructor; try constructor. exists Leaf. split_and!; [|by exists 0%nat; constructor|done].
  split_and!; [constructor|done|done].
Qed.

Lemma before_mono o name : forall x y, strcmp (name_of o x) (name_of o y) <= 0 ->
  (strcmp name (name_of o x) <? 0) = true -> (strcmp name (name_of o y) <? 0) = true.
Proof. intros x y H1 H2. pose proof (strcmp_lt_le name (name_of o x) (name_of o y)). lia. Qed.

(** Inserting a member anywhere in the list. *)
Lemma insert_member_ok x name v pos o :
  object_tree_ok o -> (x ∉ ids o) -> valid_pos pos o ->
  exists o' l1 l2, __insert_json_member x name v pos o = Some o' /\ object_tree_ok o' /\
    members o = l1 ++ l2 /\ fst <$> last l1 = pos /\ members o' = l1 ++ (x, (name, v)) :: l2 /\ osize o' = osize o.
Proof.
  intros (l & [Hh Hp Hd Hs]) Hx Hpos.
  destruct (insert_after_ok pos (x, (name, v)) (members o) Hpos) as (m1 & m2 & Em & Ei & Hl).
  destruct (sorted_partition _ (fun y => strcmp name (name_of o y) <? 0) l Hs (before_mono o name))
    as (l1 & l2 & -> & H1 & H2).
  set (s0 := mk_state (<[x := mk_rb_node None None None RB_RED]> (mem (root o))) (rb_root (root o))).
  assert (Hxl : x ∉ l1 ++ l2) by (by rewrite Hp).
  assert (H0 : rb_holds s0 (l1 ++ l2)).
  { eapply rb_holds_frame; [exact Hh|done|]. intros q Hq. cbn. apply lookup_insert_ne. congruence. }
  destruct H0 as (t & Ht & Hv & Et).
  destruct (rb_insert_sorted_ok (fun y => strcmp name (name_of o y) <? 0) (object_fuel o) s0 t x
    (mk_rb_node None None None RB_RED) l1 l2) as (s' & t' & E & Ht' & Hv' & Et' & _); try done.
  { by eapply object_fuel_height. }
  { by rewrite Et. }
  { cbn. by rewrite lookup_insert_eq. }
  set (o' := mk_object (m1 ++ (x, (name, v)) :: m2) s' (osize o)).
  exists o', m1, m2. unfold __insert_json_member. fold s0. rewrite E. cbn [mbind option_bind]. rewrite Ei.
  assert (Hp' : l1 ++ x :: l2 ≡ₚ ids o').
  { unfold ids in *. cbn. rewrite map_app. cbn. rewrite <- !Permutation_middle, Hp, Em, map_app. done. }
  assert (Hd' : NoDup (ids o')).
  { rewrite <- Hp', <- Permutation_middle. apply list.NoDup_cons. split; [done|]. by rewrite Hp. }
  assert (Hn : forall y, y ∈ l1 ++ l2 -> name_of o' y = name_of o y).
  { intros y Hy. apply name_of_perm; [done|by rewrite <- Hp|done|]. intros m Hm. rewrite Em in Hm. cbn.
    rewrite elem_of_app, elem_of_cons. apply elem_of_app in Hm. tauto. }
  assert (Hnx : name_of o' x = name) by (apply (name_of_in o' x name v); [done|cbn; apply elem_of_app; right; by left]).
  split_and!; try done. exists (l1 ++ x :: l2). constructor; [by exists t'|done|done|]. cbn [root].
  apply sorted_insert.
  - eapply sorted_impl; [|exact Hs]. intros y z Hy Hz. by rewrite !Hn.
  - rewrite Forall_forall in H1 |- *. intros y Hy. rewrite Hnx, Hn by (apply elem_of_app; by left).
    specialize (H1 y Hy). rewrite strcmp_opp. lia.
  - rewrite Forall_forall in H2 |- *. intros y Hy. rewrite Hnx, Hn by (apply elem_of_app; by right).
    specialize (H2 y Hy). lia.
Qed.

(** Looking a name up. *)
Lemma find_ok name o : object_tree_ok o ->
  exists r, json_object_find name o = Some r /\
    match r with
    | Some x => exists n v, (x, (n, v)) ∈ members o /\ cstr n = cstr name
    | None => forall x n v, (x, (n, v)) ∈ members o -> cstr n <> cstr name
    end.
Proof.
  intros (l & [Hh Hp Hd Hs]).
  destruct (sorted_partition _ (fun y => strcmp name (name_of o y) <? 0) l Hs (before_mono o name))
    as (l12 & l3 & -> & H12 & H3).
  pose proof (StronglySorted_app_1_l _ _ _ Hs) as Hs12.
  destruct (sorted_partition _ (fun y => strcmp name (name_of o y) <=? 0) l12 Hs12) as (l1 & l2 & -> & H1 & H2).
  { intros x y Hxy Hx. pose proof (strcmp_trans name (name_of o x) (name_of o y)). lia. }
  destruct Hh as (t & Ht & Hv & Et).
  destruct (rb_find_ok (fun y => strcmp name (name_of o y)) (root o) t [] l1 l3 l2 (object_fuel o)) as (r & E & Hr).
  { exact Ht. }
  { by rewrite Et, <- app_assoc. }
  { eapply Forall_impl; [exact H1|]. cbn. lia. }
  { apply Forall_app in H12 as [_ H12]. rewrite Forall_forall in *. intros y Hy.
    specialize (H12 y Hy). specialize (H2 y Hy). cbn in *. lia. }
  { eapply Forall_impl; [exact H3|]. cbn. lia. }
  { by eapply object_fuel_height. }
  exists r. unfold json_object_find. rewrite (proj2 (proj2 Ht)). split; [done|].
  apply Forall_app in H12 as [_ H12]. rewrite Forall_forall in *. destruct r as [x|].
  - assert (Hx : x ∈ ids o) by (rewrite <- Hp, !elem_of_app; auto).
    destruct (ids_member o x Hx) as (n & v & Hm). exists n, v. split; [done|].
    rewrite <- (name_of_in o x n v) by done. symmetry. apply strcmp_zero.
    specialize (H12 x Hr). specialize (H2 x Hr). cbn in *. lia.
  - intros x n v Hm Hc. subst l2. assert (Hx : x ∈ l1 ++ l3).
    { rewrite app_nil_r in Hp. rewrite Hp. by apply (list_elem_of_fmap_2 fst) in Hm. }
    assert (Hz : strcmp name (name_of o x) = 0) by (rewrite (name_of_in o x n v) by done; by apply strcmp_zero).
    apply elem_of_app in Hx as [Hx|Hx]; [specialize (H1 x Hx)|specialize (H3 x Hx)]; cbn in *; lia.
Qed.

(** Taking a member out. *)
Lemma remove_member_ok x o : object_tree_ok o -> x ∈ ids o ->
  exists l1 name v l2 o', members o = l1 ++ (x, (name, v)) :: l2 /\
    object_remove_member x o = Some (v, o') /\ object_tree_ok o' /\ members o' = l1 ++ l2 /\ osize o' = osize o - 1.
Proof.
  intros (l & [Hh Hp Hd Hs]) Hx.
  destruct (list_remove_ok x (members o) Hx) as (m1 & [name v] & m2 & Em & Er).
  assert (Hxl : x ∈ l) by (by rewrite Hp). apply list_elem_of_split in Hxl as (l1 & l2 & ->).
  destruct Hh as (t & Ht & Hv & Et).
  destruct (rb_erase_ok (object_fuel o) (root o) t x l1 l2) as (s' & t' & E & Ht' & Hv' & Et' & _); try done.
  { by eapply object_fuel_height. }
  exists m1, name, v, m2. eexists. unfold object_remove_member. rewrite Er. cbn [mbind option_bind]. rewrite E.
  split_and!; try done. cbn [root members osize].
  set (o' := mk_object (m1 ++ m2) (mk_state (delete x (mem s')) (rb_root s')) (osize o - 1)).
  assert (Hids : ids o ≡ₚ x :: ids o').
  { unfold ids. rewrite Em. cbn. rewrite !map_app. cbn. by rewrite <- Permutation_middle. }
  assert (Hp' : l1 ++ l2 ≡ₚ ids o').
  { rewrite <- Permutation_middle, Hids in Hp. by apply Permutation_cons_inv in Hp. }
  assert (Hd' : NoDup (ids o')) by (rewrite Hids in Hd; by apply list.NoDup_cons in Hd as [_ Hd]).
  assert (Hxn : x ∉ l1 ++ l2) by (rewrite Hp'; rewrite Hids in Hd; by apply list.NoDup_cons in Hd as [Hd _]).
  exists (l1 ++ l2). constructor; [|done|done|].
  - apply (rb_holds_frame s'); [by exists t'|done|]. intros q Hq. cbn. apply lookup_delete_ne. congruence.
  - eapply sorted_impl; [|eapply sorted_remove, Hs]. intros y z Hy Hz Hyz.
    assert (Hn : forall w, w ∈ l1 ++ l2 -> name_of o w = name_of o' w).
    { intros w Hw. apply name_of_perm; [done|by rewrite <- Hp'|done|]. intros m Hm. rewrite Em.
      cbn in Hm. rewrite elem_of_app, elem_of_cons. apply elem_of_app in Hm. tauto. }
    change (strcmp (name_of o' y) (name_of o' z) <= 0). rewrite <- !Hn by done. exact Hyz.
Qed.

End Objects.

(** ** Loops *)

Section Loops.
Context {X : Type}.
Implicit Types (l : list (loc * X)).

Lemma for_each_next l : NoDup (map fst l) -> forall l2 l1 fuel,
  l = l1 ++ l2 -> (length l2 < fuel)%nat ->
  for_each (fun pos => pos_next pos l) fuel (fst <$> last l1) = Some (map fst l2).
Proof.
  intros Hd. induction l2 as [|[x v] l2 IH]; intros l1 [|fuel] -> Hf; cbn [length] in Hf; try lia; cbn [for_each].
  - rewrite app_nil_r in *. destruct (last l1) as [[y w]|] eqn:El; cbn [fmap option_fmap option_map fst].
    + apply last_Some in El as [l0 ->]. by rewrite (pos_next_ok l0 y w []).
    + apply last_None in El as ->. done.
  - assert (E : pos_next (fst <$> last l1) (l1 ++ (x, v) :: l2) = Some (Some x)).
    { destruct (last l1) as [[y w]|] eqn:El; cbn [fmap option_fmap option_map fst].
      - apply last_Some in El as [l0 ->]. rewrite <- app_assoc in *. cbn [app] in *. by rewrite pos_next_ok.
      - apply last_None in El as ->. done. }
    rewrite E. cbn [mbind option_bind].
    specialize (IH (l1 ++ [(x, v)]) fuel). rewrite last_snoc in IH. cbn [fmap option_fmap option_map fst] in IH.
    rewrite IH; [done|by rewrite <- app_assoc|lia].
Qed.

Lemma for_each_prev l : NoDup (map fst l) -> forall l1 l2 fuel,
  l = l1 ++ l2 -> (length l1 < fuel)%nat ->
  for_each (fun pos => pos_prev pos l) fuel (fst <$> head l2) = Some (rev (map fst l1)).
Proof.
  intros Hd l1. induction l1 as [|[x v] l1 IH] using rev_ind; intros l2 [|fuel] -> Hf; try lia; cbn [for_each].
  - cbn [app] in *. destruct l2 as [|[y w] l2]; [done|]. cbn [head fmap option_fmap option_map fst].
    pose proof (pos_prev_ok [] y w l2 Hd) as E. cbn [app] in E. by rewrite E.
  - rewrite length_app in Hf. cbn [length] in Hf.
    assert (E : pos_prev (fst <$> head l2) ((l1 ++ [(x, v)]) ++ l2) = Some (Some x)).
    { destruct l2 as [|[y w] l2]; cbn [head fmap option_fmap option_map fst].
      - rewrite app_nil_r. cbn [pos_prev]. by rewrite last_snoc.
      - rewrite pos_prev_ok by done. by rewrite last_snoc. }
    rewrite E. cbn [mbind option_bind].
    specialize (IH ([(x, v)] ++ l2) fuel). cbn [app head fmap option_fmap option_map fst] in IH.
    rewrite IH; [|by rewrite <- app_assoc|lia]. cbn [mbind option_bind].
    by rewrite map_app, rev_app_distr.
Qed.

End Loops.

(** ** The properties *)

(** Insertion into an object keeps its invariant (the tree holds exactly the
    members, sorted by name, in a valid red-black tree; the list holds them in
    order; the size counts them), puts the new member right after [pos], and the
    member gets an address of its own. *)
Theorem object_insert_correct {V} name (v : V) pos (o : json_object V) :
  object_ok o -> valid_pos pos o -> osize o < 2 ^ 31 - 1 ->
  exists x o' l1 l2, object_insert_member name v pos o = Some (x, o') /\ object_ok o' /\ (x ∉ ids o) /\
    members o = l1 ++ l2 /\ fst <$> last l1 = pos /\ members o' = l1 ++ (x, (name, v)) :: l2 /\
    json_object_size o' = json_object_size o + 1.
Proof.
  intros [Ht Hs] Hp Hb. pose proof (new_loc_fresh (members o)) as Hx.
  destruct (insert_member_ok (new_loc (members o)) name v pos o Ht Hx Hp) as (o' & l1 & l2 & E & Ht' & E1 & E2 & E3 & E4).
  unfold object_insert_member. rewrite E. cbn [mbind option_bind]. unfold int_incr. rewrite E4.
  replace (osize o =? 2 ^ 31 - 1) with false by lia. cbn [mbind option_bind].
  eexists _, _, l1, l2. split_and!; try done. split.
  - destruct Ht' as (l & [? ? ? ?]). exists l. by constructor.
  - cbn. rewrite E3, Hs, E1, !length_app. cbn [length]. lia.
Qed.

(** Lookup by name: [json_object_find] returns a member of that name when there
    is one, and NULL only when there is none, whatever duplicates the object
    holds; it terminates within the height of the tree. *)
Theorem object_find_correct {V} name (o : json_object V) :
  object_ok o ->
  exists r, json_object_find name o = Some r /\
    match r with
    | Some x => exists n v, (x, (n, v)) ∈ members o /\ cstr n = cstr name
    | None => forall x n v, (x, (n, v)) ∈ members o -> cstr n <> cstr name
    end.
Proof. intros [Ht _]. by apply find_ok. Qed.

(** Removal takes exactly its member out of the list and of the tree, hands
    back its value, and keeps the invariant of the object. *)
Theorem object_remove_correct {V} x (o : json_object V) :
  object_ok o -> x ∈ ids o ->
  exists l1 name v l2 o', members o = l1 ++ (x, (name, v)) :: l2 /\
    object_remove_member x o = Some (v, o') /\ object_ok o' /\ members o' = l1 ++ l2.
Proof.
  intros [Ht Hs] Hx. destruct (remove_member_ok x o Ht Hx) as (l1 & name & v & l2 & o' & E1 & E2 & Ht' & E3 & E4).
  exists l1, name, v, l2, o'. split_and!; try done. split; [done|].
  rewrite E4, Hs, E1, E3, !length_app. cbn [length]. lia.
Qed.

(** The loops over a container terminate and visit all its nodes, in the order
    of the list forwards and in the opposite order backwards. *)
Theorem for_each_correct {V} (o : json_object V) (a : json_array V) :
  object_ok o -> NoDup (map fst (elements a)) ->
  json_object_for_each o = Some (ids o) /\ json_object_for_each_prev o = Some (rev (ids o)) /\
  json_array_for_each a = Some (map fst (elements a)) /\
  json_array_for_each_prev a = Some (rev (map fst (elements a))).
Proof.
  intros [(l & [_ _ Hd _]) _] Ha. split_and!.
  - apply (for_each_next (members o) Hd (members o) []); [done|lia].
  - apply (for_each_prev (members o) Hd (members o) []); [by rewrite app_nil_r|lia].
  - apply (for_each_next (elements a) Ha (elements a) []); [done|lia].
  - apply (for_each_prev (elements a) Ha (elements a) []); [by rewrite app_nil_r|lia].
Qed.

(** Arrays: insertion puts the value right after [pos] at a new address,
    removal takes exactly its element out and hands back its value, and the size
    goes on counting the elements. *)
Theorem array_correct {V} (a : json_array V) pos v :
  NoDup (map fst (elements a)) -> asize a = len (elements a) -> asize a < 2 ^ 31 - 1 ->
  match pos with Some p => p ∈ map fst (elements a) | None => True end ->
  (exists x a' l1 l2, array_insert_element v pos a = Some (x, a') /\ NoDup (map fst (elements a')) /\
     asize a' = len (elements a') /\ elements a = l1 ++ l2 /\ fst <$> last l1 = pos /\ elements a' = l1 ++ (x, v) :: l2) /\
  (forall p, pos = Some p -> exists l1 w l2 a', elements a = l1 ++ (p, w) :: l2 /\
     array_remove_element p a = Some (w, a') /\ elements a' = l1 ++ l2 /\
     NoDup (map fst (elements a')) /\ asize a' = len (elements a')).
Proof.
  intros Hd Hs Hb Hp. split.
  - destruct (insert_after_ok pos (new_loc (elements a), v) (elements a) Hp) as (l1 & l2 & E & Ei & Hl).
    pose proof (new_loc_fresh (elements a)) as Hx. unfold array_insert_element. rewrite Ei. cbn [mbind option_bind].
    unfold int_incr. replace (asize a =? 2 ^ 31 - 1) with false by lia. cbn [mbind option_bind].
    eexists _, _, l1, l2. cbn [elements asize]. split_and!; try done.
    + cbn [elements]. rewrite map_app. cbn [map fst]. rewrite <- Permutation_middle, <- map_app, <- E. by apply list.NoDup_cons.
    + cbn [elements asize]. rewrite Hs, E, !length_app. cbn [length]. lia.
  - intros p ->. destruct (list_remove_ok p (elements a) Hp) as (l1 & w & l2 & E & Er).
    unfold array_remove_element. rewrite Er. cbn [mbind option_bind]. eexists l1, w, l2, _. cbn [elements asize].
    split_and!; try done.
    + cbn [elements]. rewrite E, map_app in Hd. cbn in Hd. rewrite <- Permutation_middle in Hd.
      apply list.NoDup_cons in Hd as [_ Hd]. by rewrite map_app.
    + cbn [elements asize]. rewrite Hs, E, !length_app. cbn [length]. lia.
Qed.

(** ** Witnesses *)

(** The object {b: 1, a: 2, b: 3}. *)
Definition demo_object : json_object Z :=
  match ('(_, o) ← object_insert_member [98] 1 None init_object;
         '(x, o) ← object_insert_member [97] 2 (fst <$> last (members o)) o;
         '(_, o) ← object_insert_member [98] 3 (Some x) o; Some o) with
  | Some o => o
  | None => init_object
  end.

Lemma demo_object_ok : object_ok demo_object.
Proof.
  unfold demo_object.
  assert (I : forall name v pos (o : json_object Z), object_ok o -> valid_pos pos o -> osize o < 100 ->
    exists x o', object_insert_member name v pos o = Some (x, o') /\ object_ok o' /\ valid_pos (Some x) o' /\
      osize o' = osize o + 1 /\ valid_pos (fst <$> last (members o')) o').
  { intros name v pos o [Ht Hs] Hp Hb. pose proof (new_loc_fresh (members o)) as Hx.
    destruct (insert_member_ok (new_loc (members o)) name v pos o Ht Hx Hp) as (o' & l1 & l2 & E & Ht' & E1 & E2 & E3 & E4).
    unfold object_insert_member. rewrite E. cbn [mbind option_bind]. unfold int_incr. rewrite E4.
    replace (osize o =? 2 ^ 31 - 1) with false by lia. cbn [mbind option_bind].
    eexists _, _. split; [reflexivity|]. split_and!; [split| |done|].
    - destruct Ht' as (l & [? ? ? ?]). exists l. by constructor.
    - cbn. rewrite E3, Hs, E1, !length_app. cbn [length]. lia.
    - unfold valid_pos, ids. cbn [members]. rewrite E3, map_app. apply elem_of_app. right. by left.
    - unfold valid_pos, ids. cbn [members]. destruct (last (members o')) as [m|] eqn:El; [|done].
      cbn. apply (list_elem_of_fmap_2 fst). by apply last_Some_elem_of. }
  destruct (I [98] 1 None init_object init_object_ok Logic.I ltac:(done)) as (x1 & o1 & -> & H1 & _ & S1 & L1).
  cbn [mbind option_bind]. change (osize init_object) with 0 in S1.
  destruct (I [97] 2 _ o1 H1 L1 ltac:(lia)) as (x2 & o2 & -> & H2 & L2 & S2 & _). cbn [mbind option_bind].
  destruct (I [98] 3 _ o2 H2 L2 ltac:(lia)) as (x3 & o3 & -> & H3 & _). done.
Qed.

Lemma object_insert_correct_witness :
  exists x o', object_insert_member [99] 4 None demo_object = Some (x, o') /\ object_ok o' /\ json_object_size o' = 4.
Proof.
  destruct (object_insert_correct [99] 4 None demo_object demo_object_ok Logic.I) as (x & o' & l1 & l2 & E & Ho & _ & _ & _ & _ & Hs).
  - vm_compute. reflexivity.
  - exists x, o'. split; [exact E|]. split; [exact Ho|]. rewrite Hs. vm_compute. reflexivity.
Defined.

Lemma object_find_correct_witness :
  exists x n v, json_object_find [98] demo_object = Some (Some x) /\ (x, (n, v)) ∈ members demo_object /\ cstr n = [98].
Proof.
  destruct (object_find_correct [98] demo_object demo_object_ok) as ([x|] & E & H).
  - destruct H as (n & v & Hm & Hn). exists x, n, v. split; [exact E|]. split; [exact Hm|exact Hn].
  - vm_compute in E. discriminate.
Defined.

Lemma object_remove_correct_witness :
  exists x v o', object_remove_member x demo_object = Some (v, o') /\ object_ok o' /\ length (members o') = 2%nat.
Proof.
  assert (E0 : exists x y z, ids demo_object = [x; y; z]) by (vm_compute; eauto).
  destruct E0 as (x & y & z & E0).
  destruct (object_remove_correct x demo_object demo_object_ok) as (l1 & name & v & l2 & o' & E1 & E2 & Ho & E3).
  - rewrite E0. left.
  - exists x, v, o'. split; [exact E2|]. split; [exact Ho|].
    assert (E4 : length (members demo_object) = 3%nat) by reflexivity.
    rewrite E1 in E4. rewrite length_app in E4. rewrite E3, length_app. cbn [length] in E4. lia.
Defined.

Lemma demo_nodup : NoDup (map fst (elements (mk_array [(1%positive, 5); (2%positive, 6)] 2))).
Proof. cbn. apply list.NoDup_cons. split; [|apply list.NoDup_singleton]. by rewrite list_elem_of_singleton. Qed.

Lemma for_each_correct_witness :
  json_object_for_each demo_object = Some (ids demo_object) /\
  json_array_for_each (mk_array [(1%positive, 5); (2%positive, 6)] 2) = Some [1%positive; 2%positive].
Proof.
  destruct (for_each_correct demo_object (mk_array [(1%positive, 5); (2%positive, 6)] 2) demo_object_ok) as (H1 & _ & H2 & _).
  - exact demo_nodup.
  - split; [exact H1|exact H2].
Defined.

Lemma array_correct_witness :
  exists x a', array_insert_element 7 (Some 1%positive) (mk_array [(1%positive, 5); (2%positive, 6)] 2) = Some (x, a') /\
    asize a' = len (elements a').
Proof.
  destruct (array_correct (mk_array [(1%positive, 5); (2%positive, 6)] 2) (Some 1%positive) 7)
    as ((x & a' & l1 & l2 & E & _ & Hs & _) & _).
  - exact demo_nodup.
  - reflexivity.
  - reflexivity.
  - left.
  - exists x, a'. split; [exact E|exact Hs].
Defined.
