(* ===== verification/JsonValue.v ===== *)
(** * JSON values: [src/util/json_parser.c]

    A [json_value_t] owns its strings, members and elements: a value is a tree.
    The allocator is a list of answers ([CLib.v]) and the number of live
    blocks, so that leaks and double frees are visible in the model: [blocks]
    counts what a value owns, and every operation states how [live] changes.

    An operation returns [None] where the source has undefined behaviour; NULL
    and the negative results are [None] inside. *)

From S2P Require Import Prelude CLib RBTree RBSearch JsonText JsonNumber JsonObject.

Local Open Scope Z_scope.

(** ** Memory *)

Record memory := mk_memory { answers : heap; live : Z }.

Definition alloc (m : memory) : bool * memory :=
  let '(b, h) := malloc (answers m) in (b, mk_memory h (if b then live m + 1 else live m)).
Definition free (m : memory) : memory := mk_memory (answers m) (live m - 1).

(** ** Data *)

(** [json_value_t]; a string is the contents of its buffer before the final
    NUL. *)
Inductive json_value :=
  | JSON_VALUE_STRING (s : list Z)
  | JSON_VALUE_NUMBER (d : double)
  | JSON_VALUE_OBJECT (o : json_object json_value)
  | JSON_VALUE_ARRAY (a : json_array json_value)
  | JSON_VALUE_TRUE
  | JSON_VALUE_FALSE
  | JSON_VALUE_NULL.

(** ** Destruction *)

(** [__destroy_json_members] and [__destroy_json_elements], over the destruction
    of a value. *)
Fixpoint destroy_members {V} (destroy : V -> memory -> memory) (l : list (loc * (list Z * V))) (m : memory) : memory :=
  match l with
  | [] => m
  | (_, (_, v)) :: l => destroy_members destroy l (free (destroy v m))
  end.
Fixpoint destroy_elements {V} (destroy : V -> memory -> memory) (l : list (loc * V)) (m : memory) : memory :=
  match l with
  | [] => m
  | (_, v) :: l => destroy_elements destroy l (free (destroy v m))
  end.

Fixpoint __destroy_json_value (val : json_value) (m : memory) : memory :=
  match val with
  | JSON_VALUE_STRING _ => free m
  | JSON_VALUE_OBJECT o => destroy_members __destroy_json_value (members o) m
  | JSON_VALUE_ARRAY a => destroy_elements __destroy_json_value (elements a) m
  | _ => m
  end.

Definition __destroy_json_members (o : json_object json_value) : memory -> memory :=
  destroy_members __destroy_json_value (members o).
Definition __destroy_json_elements (a : json_array json_value) : memory -> memory :=
  destroy_elements __destroy_json_value (elements a).

Definition json_value_destroy (val : json_value) (m : memory) : memory := free (__destroy_json_value val m).

(** ** Creation *)

(** What the variable arguments hold: an [ArgValue] (type 0) is moved. *)
Inductive argument :=
  | ArgValue (src : json_value)
  | ArgString (str : list Z)
  | ArgNumber (d : double)
  | ArgObject | ArgArray | ArgTrue | ArgFalse | ArgNull.

(** The contents of [dest]. *)
Definition __move_json_value (src : json_value) : json_value :=
  match src with
  | JSON_VALUE_STRING s => JSON_VALUE_STRING s
  | JSON_VALUE_NUMBER d => JSON_VALUE_NUMBER d
  | JSON_VALUE_OBJECT o => JSON_VALUE_OBJECT (mk_object (members o ++ []) (root o) (osize o))
  | JSON_VALUE_ARRAY a => JSON_VALUE_ARRAY (mk_array (elements a ++ []) (asize a))
  | v => v
  end.

Definition __set_json_value (arg : argument) (m : memory) : option json_value * memory :=
  match arg with
  | ArgValue src => (Some (__move_json_value src), free m)
  | ArgString str =>
      let '(b, m) := alloc m in
      if b then (Some (JSON_VALUE_STRING (cstr str)), m) else (None, m)
  | ArgNumber d => (Some (JSON_VALUE_NUMBER d), m)
  | ArgObject => (Some (JSON_VALUE_OBJECT init_object), m)
  | ArgArray => (Some (JSON_VALUE_ARRAY init_array), m)
  | ArgTrue => (Some JSON_VALUE_TRUE, m)
  | ArgFalse => (Some JSON_VALUE_FALSE, m)
  | ArgNull => (Some JSON_VALUE_NULL, m)
  end.

Definition json_value_create (arg : argument) (m : memory) : option json_value * memory :=
  let '(b, m) := alloc m in
  if b then
    let '(r, m) := __set_json_value arg m in
    match r with Some v => (Some v, m) | None => (None, free m) end
  else (None, m).

(** ** Copies *)

(** The loops of [__copy_json_members] and [__copy_json_elements]: whether they
    reach the end, and what they have made of the container. *)
Fixpoint copy_members {V} (copy : V -> memory -> option (option V * memory))
    (l : list (loc * (list Z * V))) (dest : json_object V) (m : memory)
    : option (bool * json_object V * memory) :=
  match l with
  | [] => Some (true, dest, m)
  | (_, (name, v)) :: l =>
      let '(b, m) := alloc m in
      if b then
        '(r, m) ← copy v m;
        match r with
        | None => Some (false, dest, free m)
        | Some w =>
            pos ← pos_prev None (members dest);
            dest ← __insert_json_member (new_loc (members dest)) (cstr name) w pos dest;
            copy_members copy l dest m
        end
      else Some (false, dest, m)
  end.

Fixpoint copy_elements {V} (copy : V -> memory -> option (option V * memory))
    (l : list (loc * V)) (dest : json_array V) (m : memory)
    : option (bool * json_array V * memory) :=
  match l with
  | [] => Some (true, dest, m)
  | (_, v) :: l =>
      let '(b, m) := alloc m in
      if b then
        '(r, m) ← copy v m;
        match r with
        | None => Some (false, dest, free m)
        | Some w =>
            pos ← pos_prev None (elements dest);
            els ← insert_after pos (new_loc (elements dest), w) (elements dest);
            copy_elements copy l (mk_array els (asize dest)) m
        end
      else Some (false, dest, m)
  end.

Fixpoint __copy_json_value (src : json_value) (m : memory) : option (option json_value * memory) :=
  match src with
  | JSON_VALUE_STRING s =>
      let '(b, m) := alloc m in
      Some (if b then Some (JSON_VALUE_STRING (cstr s)) else None, m)
  | JSON_VALUE_OBJECT o =>
      '(b, dest, m) ← copy_members __copy_json_value (members o) init_object m;
      let ret := if b : bool then osize o else -1 in
      if ret <? 0 then Some (None, __destroy_json_members dest m)
      else Some (Some (JSON_VALUE_OBJECT (mk_object (members dest) (root dest) (osize o))), m)
  | JSON_VALUE_ARRAY a =>
      '(b, dest, m) ← copy_elements __copy_json_value (elements a) init_array m;
      let ret := if b : bool then asize a else -1 in
      if ret <? 0 then Some (None, __destroy_json_elements dest m)
      else Some (Some (JSON_VALUE_ARRAY (mk_array (elements dest) (asize a))), m)
  | v => Some (Some v, m)
  end.

Definition json_value_copy (val : json_value) (m : memory) : option (option json_value * memory) :=
  let '(b, m) := alloc m in
  if b then
    '(r, m) ← __copy_json_value val m;
    match r with Some v => Some (Some v, m) | None => Some (None, free m) end
  else Some (None, m).

(** ** Accessors *)

Definition json_value_type (val : json_value) : Z :=
  match val with
  | JSON_VALUE_STRING _ => 1 | JSON_VALUE_NUMBER _ => 2 | JSON_VALUE_OBJECT _ => 3 | JSON_VALUE_ARRAY _ => 4
  | JSON_VALUE_TRUE => 5 | JSON_VALUE_FALSE => 6 | JSON_VALUE_NULL => 7
  end.
Definition json_value_string (val : json_value) : option (list Z) :=
  match val with JSON_VALUE_STRING s => Some s | _ => None end.
Definition json_value_number (val : json_value) : double :=
  match val with JSON_VALUE_NUMBER d => d | _ => SpecFloat.S754_nan end.
Definition json_value_object (val : json_value) : option (json_object json_value) :=
  match val with JSON_VALUE_OBJECT o => Some o | _ => None end.
Definition json_value_array (val : json_value) : option (json_array json_value) :=
  match val with JSON_VALUE_ARRAY a => Some a | _ => None end.

(** ** Editing *)

(** The new member (NULL is [None]), the object and the memory. *)
Definition __json_object_insert (name : list Z) (arg : argument) (pos : option loc)
    (o : json_object json_value) (m : memory) : option (option loc * json_object json_value * memory) :=
  let '(b, m) := alloc m in
  if b then
    let '(r, m) := __set_json_value arg m in
    match r with
    | None => Some (None, o, free m)
    | Some v => '(x, o) ← object_insert_member (cstr name) v pos o; Some (Some x, o, m)
    end
  else Some (None, o, m).

Definition json_object_append (o : json_object json_value) (name : list Z) (arg : argument) (m : memory) :=
  pos ← pos_prev None (members o); __json_object_insert name arg pos o m.
Definition json_object_insert_after (val : option loc) (o : json_object json_value) (name : list Z) (arg : argument) (m : memory) :=
  __json_object_insert name arg val o m.
Definition json_object_insert_before (val : option loc) (o : json_object json_value) (name : list Z) (arg : argument) (m : memory) :=
  pos ← pos_prev val (members o); __json_object_insert name arg pos o m.

(** The value taken out is in a block of its own. *)
Definition json_object_remove (x : loc) (o : json_object json_value) (m : memory)
    : option (option json_value * json_object json_value * memory) :=
  let '(b, m) := alloc m in
  if b then
    '(v, o) ← object_remove_member x o;
    Some (Some (__move_json_value v), o, free m)
  else Some (None, o, m).

Definition __json_array_insert (arg : argument) (pos : option loc)
    (a : json_array json_value) (m : memory) : option (option loc * json_array json_value * memory) :=
  let '(b, m) := alloc m in
  if b then
    let '(r, m) := __set_json_value arg m in
    match r with
    | None => Some (None, a, free m)
    | Some v => '(x, a) ← array_insert_element v pos a; Some (Some x, a, m)
    end
  else Some (None, a, m).

Definition json_array_append (a : json_array json_value) (arg : argument) (m : memory) :=
  pos ← pos_prev None (elements a); __json_array_insert arg pos a m.
Definition json_array_insert_after (val : option loc) (a : json_array json_value) (arg : argument) (m : memory) :=
  __json_array_insert arg val a m.
Definition json_array_insert_before (val : option loc) (a : json_array json_value) (arg : argument) (m : memory) :=
  pos ← pos_prev val (elements a); __json_array_insert arg pos a m.

Definition json_array_remove (x : loc) (a : json_array json_value) (m : memory)
    : option (option json_value * json_array json_value * memory) :=
  let '(b, m) := alloc m in
  if b then
    '(v, a) ← array_remove_element x a;
    Some (Some (__move_json_value v), a, free m)
  else Some (None, a, m).

(** ** Induction over values *)

Section Induction.
Context (P : json_value -> Prop).
Context (Hstring : forall s, P (JSON_VALUE_STRING s)) (Hnumber : forall d, P (JSON_VALUE_NUMBER d))
  (Hobject : forall o, Forall (fun x => P x.2.2) (members o) -> P (JSON_VALUE_OBJECT o))
  (Harray : forall a, Forall (fun x => P x.2) (elements a) -> P (JSON_VALUE_ARRAY a))
  (Htrue : P JSON_VALUE_TRUE) (Hfalse : P JSON_VALUE_FALSE) (Hnull : P JSON_VALUE_NULL).

Fixpoint json_induction (val : json_value) : P val :=
  match val with
  | JSON_VALUE_STRING s => Hstring s
  | JSON_VALUE_NUMBER d => Hnumber d
  | JSON_VALUE_OBJECT o =>
      Hobject o ((fix go l : Forall (fun x : loc * (list Z * json_value) => P x.2.2) l :=
        match l with
        | [] => Forall_nil_2 _
        | x :: l => Forall_cons_2 (fun x : loc * (list Z * json_value) => P x.2.2) x l (json_induction x.2.2) (go l)
        end) (members o))
  | JSON_VALUE_ARRAY a =>
      Harray a ((fix go l : Forall (fun x : loc * json_value => P x.2) l :=
        match l with
        | [] => Forall_nil_2 _
        | x :: l => Forall_cons_2 (fun x : loc * json_value => P x.2) x l (json_induction x.2) (go l)
        end) (elements a))
  | JSON_VALUE_TRUE => Htrue
  | JSON_VALUE_FALSE => Hfalse
  | JSON_VALUE_NULL => Hnull
  end.
End Induction.

(** ** What a value means, owns and guarantees *)

(** The JSON value, without addresses and trees. *)
Inductive jval :=
  | VString (s : list Z)
  | VNumber (d : double)
  | VObject (l : list (list Z * jval))
  | VArray (l : list jval)
  | VTrue | VFalse | VNull.

Fixpoint meaning (val : json_value) : jval :=
  match val with
  | JSON_VALUE_STRING s => VString s
  | JSON_VALUE_NUMBER d => VNumber d
  | JSON_VALUE_OBJECT o => VObject (map (fun x => (x.2.1, meaning x.2.2)) (members o))
  | JSON_VALUE_ARRAY a => VArray (map (fun x => meaning x.2) (elements a))
  | JSON_VALUE_TRUE => VTrue
  | JSON_VALUE_FALSE => VFalse
  | JSON_VALUE_NULL => VNull
  end.

(** Strings up to their first NUL, which is all a copy keeps. *)
Fixpoint visible (v : jval) : jval :=
  match v with
  | VString s => VString (cstr s)
  | VObject l => VObject (map (fun x => (cstr x.1, visible x.2)) l)
  | VArray l => VArray (map visible l)
  | v => v
  end.

Definition sum_blocks {X} (f : X -> Z) (l : list X) : Z := foldr (fun x n => 1 + f x + n) 0 l.

(** The number of blocks a value owns, besides the structure it is in. *)
Fixpoint blocks (val : json_value) : Z :=
  match val with
  | JSON_VALUE_STRING _ => 1
  | JSON_VALUE_OBJECT o => sum_blocks (fun x => blocks x.2.2) (members o)
  | JSON_VALUE_ARRAY a => sum_blocks (fun x => blocks x.2) (elements a)
  | _ => 0
  end.

Definition array_ok {V} (a : json_array V) : Prop := NoDup (map fst (elements a)) /\ asize a = len (elements a).

Inductive json_ok : json_value -> Prop :=
  | ok_string s : json_ok (JSON_VALUE_STRING s)
  | ok_number d : json_ok (JSON_VALUE_NUMBER d)
  | ok_object o : object_ok o -> Forall (fun x => json_ok x.2.2) (members o) -> json_ok (JSON_VALUE_OBJECT o)
  | ok_array a : array_ok a -> Forall (fun x => json_ok x.2) (elements a) -> json_ok (JSON_VALUE_ARRAY a)
  | ok_true : json_ok JSON_VALUE_TRUE
  | ok_false : json_ok JSON_VALUE_FALSE
  | ok_null : json_ok JSON_VALUE_NULL.
#[export] Hint Constructors json_ok : workflow.

Lemma sum_blocks_nil {X} (f : X -> Z) : sum_blocks f [] = 0.
Proof. done. Qed.
Lemma sum_blocks_cons {X} (f : X -> Z) x l : sum_blocks f (x :: l) = 1 + f x + sum_blocks f l.
Proof. done. Qed.
Lemma sum_blocks_app {X} (f : X -> Z) l1 l2 : sum_blocks f (l1 ++ l2) = sum_blocks f l1 + sum_blocks f l2.
Proof. induction l1 as [|x l1 IH]; [done|]. cbn [app]. rewrite !sum_blocks_cons. lia. Qed.
#[global] Arguments sum_blocks : simpl never.

Lemma sum_blocks_nonneg {X} (f : X -> Z) l : Forall (fun x => 0 <= f x) l -> 0 <= sum_blocks f l.
Proof. induction 1; [done|]. rewrite sum_blocks_cons. lia. Qed.

Lemma blocks_nonneg val : 0 <= blocks val.
Proof. induction val using json_induction; cbn; try lia; by apply sum_blocks_nonneg. Qed.

(** ** Destruction *)

Definition shift (n : Z) (m : memory) : memory := mk_memory (answers m) (live m + n).
Lemma shift_shift a b m : shift a (shift b m) = shift (b + a) m.
Proof. unfold shift. cbn. f_equal. lia. Qed.
Lemma shift_zero m : shift 0 m = m.
Proof. unfold shift. rewrite Z.add_0_r. by destruct m. Qed.
Lemma free_shift m : free m = shift (-1) m.
Proof. done. Qed.

Lemma destroy_members_ok {V} (f : V -> memory -> memory) (b : V -> Z) l :
  Forall (fun x => forall m, f x.2.2 m = shift (- b x.2.2) m) l ->
  forall m, destroy_members f l m = shift (- sum_blocks (fun x => b x.2.2) l) m.
Proof.
  induction 1 as [|[x [n v]] l Hx _ IH]; intros m; cbn; [by rewrite shift_zero|].
  rewrite IH, free_shift, Hx, !shift_shift. f_equal. rewrite sum_blocks_cons. cbn. lia.
Qed.
Lemma destroy_elements_ok {V} (f : V -> memory -> memory) (b : V -> Z) l :
  Forall (fun x => forall m, f x.2 m = shift (- b x.2) m) l ->
  forall m, destroy_elements f l m = shift (- sum_blocks (fun x => b x.2) l) m.
Proof.
  induction 1 as [|[x v] l Hx _ IH]; intros m; cbn; [by rewrite shift_zero|].
  rewrite IH, free_shift, Hx, !shift_shift. f_equal. rewrite sum_blocks_cons. cbn. lia.
Qed.

Lemma destroy_ok val : forall m, __destroy_json_value val m = shift (- blocks val) m.
Proof.
  induction val using json_induction; intros m; cbn [__destroy_json_value blocks]; try by rewrite shift_zero.
  - done.
  - by apply destroy_members_ok.
  - by apply destroy_elements_ok.
Qed.

Lemma destroy_members_eq o m : __destroy_json_members o m = shift (- blocks (JSON_VALUE_OBJECT o)) m.
Proof. apply (destroy_ok (JSON_VALUE_OBJECT o)). Qed.
Lemma destroy_elements_eq a m : __destroy_json_elements a m = shift (- blocks (JSON_VALUE_ARRAY a)) m.
Proof. apply (destroy_ok (JSON_VALUE_ARRAY a)). Qed.

(** ** Appending to a container *)

Lemma alloc_cases m :
  (exists h, alloc m = (true, mk_memory h (live m + 1)) /\ (answers m = [] -> h = [])) \/
  (exists h, alloc m = (false, mk_memory h (live m)) /\ answers m <> []).
Proof.
  unfold alloc, malloc. destruct (answers m) as [|[] h] eqn:E; [left|left|right]; eexists; by split.
Qed.

Lemma last_pos_valid {V} (o : json_object V) : valid_pos (fst <$> last (members o)) o.
Proof.
  unfold valid_pos, ids. destruct (last (members o)) as [x|] eqn:E; [|done]. cbn.
  apply (list_elem_of_fmap_2 fst). by apply last_Some_elem_of.
Qed.

(** A list is split in one way after a given node. *)
Lemma split_unique {A B} (f : A -> B) k1 k2 l1 l2 :
  NoDup (map f (k1 ++ k2)) -> k1 ++ k2 = l1 ++ l2 -> f <$> last k1 = f <$> last l1 -> k1 = l1 /\ k2 = l2.
Proof.
  intros Hd E El. destruct k1 as [|y k1 _] using rev_ind; destruct l1 as [|z l1 _] using rev_ind;
    rewrite ?last_snoc in El; try done. cbn in El. injection El as El.
  repeat rewrite <- app_assoc in E. repeat rewrite <- app_assoc in Hd. cbn [app] in E, Hd.
  assert (E3 : map f k1 ++ f y :: map f k2 = map f l1 ++ f y :: map f l2).
  { apply (f_equal (map f)) in E. rewrite !map_app in E. cbn [map] in E. rewrite El. rewrite El in E. exact E. }
  rewrite map_app in Hd. cbn in Hd. destruct (NoDup_split_unique _ _ _ _ _ Hd E3) as [E4 _].
  apply (f_equal length) in E4. rewrite !length_map in E4.
  apply app_inj_1 in E as [-> E]; [|done]. by injection E as -> ->.
Qed.

Lemma split_last {A B} (f : A -> B) l1 l2 : NoDup (map f (l1 ++ l2)) -> f <$> last l1 = f <$> last (l1 ++ l2) -> l2 = [].
Proof. intros Hd E. apply (split_unique f l1 l2 (l1 ++ l2) []); [done|by rewrite app_nil_r|done]. Qed.

(** [pos->prev]. *)
Lemma pos_prev_valid {V} (o : json_object V) pos : NoDup (ids o) -> valid_pos pos o ->
  exists q l1 l2, pos_prev pos (members o) = Some q /\ members o = l1 ++ l2 /\ fst <$> head l2 = pos /\
    fst <$> last l1 = q /\ valid_pos q o.
Proof.
  intros Hd Hp. destruct pos as [p|].
  - destruct (ids_member o p Hp) as (n & v & Hm). apply list_elem_of_split in Hm as (l1 & l2 & E).
    exists (fst <$> last l1), l1, ((p, (n, v)) :: l2). unfold ids in Hd. rewrite E in Hd |- *. rewrite pos_prev_ok by done.
    split_and!; try done. unfold valid_pos, ids. destruct (last l1) as [y|] eqn:El; [|done]. cbn.
    apply (list_elem_of_fmap_2 fst). rewrite E. apply elem_of_app. left. by apply last_Some_elem_of.
  - exists (fst <$> last (members o)), (members o), []. rewrite app_nil_r. split_and!; try done. apply last_pos_valid.
Qed.

(** [__insert_json_member] at [obj->head.prev]. *)
Lemma append_member_ok {V} name (v : V) o : object_tree_ok o ->
  exists o' x, (pos ← pos_prev None (members o); __insert_json_member (new_loc (members o)) name v pos o) = Some o' /\
    object_tree_ok o' /\ members o' = members o ++ [(x, (name, v))] /\ osize o' = osize o.
Proof.
  intros Ht. cbn [pos_prev mbind option_bind].
  destruct (insert_member_ok (new_loc (members o)) name v (fst <$> last (members o)) o Ht (new_loc_fresh _) (last_pos_valid o))
    as (o' & l1 & l2 & E & Ht' & E1 & E2 & E3 & E4).
  exists o', (new_loc (members o)). split_and!; try done. rewrite E3.
  destruct Ht as (l & [_ _ Hd _]). unfold ids in Hd.
  assert (l2 = []) as ->; [|by rewrite E1, app_nil_r]. apply (split_last fst l1); [by rewrite <- E1|by rewrite <- E1].
Qed.

Lemma append_element_ok {V} (v : V) l : NoDup (map fst l) ->
  exists x, (pos ← pos_prev None l; insert_after pos (new_loc l, v) l) = Some (l ++ [(x, v)]) /\ x ∉ map fst l.
Proof.
  intros Hd. cbn [pos_prev mbind option_bind].
  destruct (insert_after_ok (fst <$> last l) (new_loc l, v) l) as (l1 & l2 & E & Ei & El).
  { destruct (last l) as [x|] eqn:E; [|done]. cbn. apply (list_elem_of_fmap_2 fst). by apply last_Some_elem_of. }
  exists (new_loc l). split; [|apply new_loc_fresh]. rewrite Ei.
  assert (l2 = []) as ->; [|by rewrite E, app_nil_r]. apply (split_last fst l1); [by rewrite <- E|by rewrite <- E].
Qed.

Lemma nodup_snoc {A} (l : list A) x : NoDup l -> (x ∉ l) -> NoDup (l ++ [x]).
Proof. intros Hd Hx. rewrite <- Permutation_cons_append. by apply list.NoDup_cons. Qed.

(** ** Copies *)

Definition copied (src : json_value) (m : memory) (r : option json_value) (m' : memory) : Prop :=
  (answers m = [] -> answers m' = []) /\
  match r with
  | Some w => json_ok w /\ meaning w = visible (meaning src) /\ blocks w = blocks src /\ live m' = live m + blocks src
  | None => live m' = live m /\ answers m <> []
  end.

Definition copies (src : json_value) : Prop :=
  forall m, exists r m', __copy_json_value src m = Some (r, m') /\ copied src m r m'.

Abbreviation member_meaning := (fun x : loc * (list Z * json_value) => (x.2.1, meaning x.2.2)).
Abbreviation member_blocks := (sum_blocks (fun x : loc * (list Z * json_value) => blocks x.2.2)).
Abbreviation element_blocks := (sum_blocks (fun x : loc * json_value => blocks x.2)).

Lemma copy_members_ok l : Forall (fun x => copies x.2.2) l -> forall dest m,
  object_tree_ok dest -> Forall (fun x => json_ok x.2.2) (members dest) ->
  exists b dest' m', copy_members __copy_json_value l dest m = Some (b, dest', m') /\
    object_tree_ok dest' /\ Forall (fun x => json_ok x.2.2) (members dest') /\
    (answers m = [] -> answers m' = []) /\
    live m' - member_blocks (members dest') = live m - member_blocks (members dest) /\
    if b : bool then
      map member_meaning (members dest') =
        map member_meaning (members dest) ++ map (fun x => (cstr x.2.1, visible (meaning x.2.2))) l /\
      member_blocks (members dest') = member_blocks (members dest) + member_blocks l
    else answers m <> [].
Proof.
  induction 1 as [|[y [n v]] l Hc _ IH]; intros dest m Ht Ho; cbn [copy_members].
  { exists true, dest, m. cbn [map]. rewrite app_nil_r, sum_blocks_nil. split_and!; try done; lia. }
  destruct (alloc_cases m) as [(h & -> & Hh)|(h & -> & Hh)].
  2: { exists false, dest, (mk_memory h (live m)). split_and!; try done. }
  destruct (Hc (mk_memory h (live m + 1))) as (r & m1 & E & Ha & Hr). cbn [snd] in E. rewrite E. cbn [mbind option_bind].
  cbn [answers live] in Ha, Hr. destruct r as [w|].
  - destruct Hr as (Hw & Hm & Hb & Hl). destruct (append_member_ok (cstr n) w dest Ht) as (d1 & x & E1 & Ht1 & Em & _).
    cbn [pos_prev mbind option_bind] in E1 |- *. rewrite E1. cbn [mbind option_bind].
    assert (Ho1 : Forall (fun x => json_ok x.2.2) (members d1)) by (rewrite Em; apply Forall_app; split; [done|by constructor]).
    destruct (IH d1 m1 Ht1 Ho1) as (b & d2 & m2 & E2 & Ht2 & Ho2 & Ha2 & Hl2 & Hb2).
    exists b, d2, m2. rewrite Em, sum_blocks_app, sum_blocks_cons, sum_blocks_nil in Hl2. cbn [snd] in Hl2. split_and!; try done.
    + intros HA. auto.
    + cbn [snd] in *. lia.
    + destruct b; [|auto]. rewrite Em, map_app, sum_blocks_app, sum_blocks_cons, sum_blocks_nil in Hb2. cbn [map snd fst app] in Hb2 |- *.
      destruct Hb2 as [Hb2 Hb3]. rewrite Hb2, Hm, <- app_assoc. split; [done|]. rewrite sum_blocks_cons. cbn [snd] in *. lia.
  - exists false, dest, (free m1). destruct Hr as [Hl HA]. split_and!; try done; cbn; auto. lia.
Qed.

Lemma copy_elements_ok l : Forall (fun x => copies x.2) l -> forall dest m,
  NoDup (map fst (elements dest)) -> Forall (fun x => json_ok x.2) (elements dest) ->
  exists b dest' m', copy_elements __copy_json_value l dest m = Some (b, dest', m') /\
    NoDup (map fst (elements dest')) /\ Forall (fun x => json_ok x.2) (elements dest') /\
    (answers m = [] -> answers m' = []) /\
    live m' - element_blocks (elements dest') = live m - element_blocks (elements dest) /\
    if b : bool then
      map (fun x => meaning x.2) (elements dest') =
        map (fun x => meaning x.2) (elements dest) ++ map (fun x => visible (meaning x.2)) l /\
      element_blocks (elements dest') = element_blocks (elements dest) + element_blocks l
    else answers m <> [].
Proof.
  induction 1 as [|[y v] l Hc _ IH]; intros dest m Ht Ho; cbn [copy_elements].
  { exists true, dest, m. cbn [map]. rewrite app_nil_r, sum_blocks_nil. split_and!; try done; lia. }
  destruct (alloc_cases m) as [(h & -> & Hh)|(h & -> & Hh)].
  2: { exists false, dest, (mk_memory h (live m)). split_and!; try done. }
  destruct (Hc (mk_memory h (live m + 1))) as (r & m1 & E & Ha & Hr). cbn [snd] in E. rewrite E. cbn [mbind option_bind].
  cbn [answers live] in Ha, Hr. destruct r as [w|].
  - destruct Hr as (Hw & Hm & Hb & Hl). destruct (append_element_ok w (elements dest) Ht) as (x & E1 & Hx).
    cbn [pos_prev mbind option_bind] in E1 |- *. rewrite E1. cbn [mbind option_bind].
    destruct (IH (mk_array (elements dest ++ [(x, w)]) (asize dest)) m1) as (b & d2 & m2 & E2 & Ht2 & Ho2 & Ha2 & Hl2 & Hb2).
    { cbn. rewrite map_app. by apply nodup_snoc. }
    { cbn. apply Forall_app. split; [done|by constructor]. }
    cbn [elements] in Hl2, Hb2. rewrite sum_blocks_app, sum_blocks_cons, sum_blocks_nil in Hl2. cbn [snd] in Hl2.
    exists b, d2, m2. split_and!; try done.
    + intros HA. auto.
    + cbn [snd] in *. lia.
    + destruct b; [|auto]. rewrite map_app, sum_blocks_app, sum_blocks_cons, sum_blocks_nil in Hb2. cbn [map snd fst app] in Hb2 |- *.
      destruct Hb2 as [Hb2 Hb3]. rewrite Hb2, Hm, <- app_assoc. split; [done|]. rewrite sum_blocks_cons. cbn [snd] in *. lia.
  - exists false, dest, (free m1). destruct Hr as [Hl HA]. split_and!; try done; cbn; auto. lia.
Qed.

Lemma copy_ok src : json_ok src -> copies src.
Proof.
  induction src as [s|d|o IH|a IH| | |] using json_induction; intros Hok m; cbn [__copy_json_value].
  - destruct (alloc_cases m) as [(h & -> & Hh)|(h & -> & Hh)].
    + eexists _, _. split; [done|]. split; [done|]. cbn. split_and!; [constructor|done..].
    + eexists _, _. split; [done|]. split; [done|]. done.
  - eexists _, _. split; [done|]. split; [done|]. cbn. split_and!; [constructor|done..|lia].
  - inversion Hok as [| |o' Ho Hm| | | |]; subst. destruct Ho as [Ht Hs].
    assert (IH' : Forall (fun x => copies x.2.2) (members o)).
    { rewrite Forall_forall in IH, Hm |- *. intros x Hx. by apply IH, Hm. }
    destruct (copy_members_ok (members o) IH' init_object m) as (b & d & m1 & E & Ht1 & Hj & Ha & Hl & Hb);
      [apply init_object_ok|constructor|]. rewrite E. cbn [mbind option_bind]. cbn [members init_object] in *. rewrite sum_blocks_nil in Hl.
    destruct b.
    + destruct Hb as [Hb1 Hb2]. rewrite sum_blocks_nil in Hb2. cbn [map app] in Hb1. replace (osize o <? 0) with false by lia.
      eexists _, _. split; [done|]. split; [done|]. cbn [meaning visible blocks members].
      split_and!; [|by rewrite Hb1, map_map|lia|lia].
      constructor; [|done]. split; cbn.
      * destruct Ht1 as (l & [? ? ? ?]). exists l. by constructor.
      * apply (f_equal length) in Hb1. rewrite !length_map in Hb1. lia.
    + cbn [Z.ltb Z.compare]. eexists _, _. split; [done|]. rewrite destroy_members_eq. cbn.
      split; [done|]. split; [cbn [shift live]; lia|done].
  - inversion Hok as [| | |a' Ho Hm| | |]; subst. destruct Ho as [Ht Hs].
    assert (IH' : Forall (fun x => copies x.2) (elements a)).
    { rewrite Forall_forall in IH, Hm |- *. intros x Hx. by apply IH, Hm. }
    destruct (copy_elements_ok (elements a) IH' init_array m) as (b & d & m1 & E & Ht1 & Hj & Ha & Hl & Hb);
      [apply NoDup_nil_2|constructor|]. rewrite E. cbn [mbind option_bind]. cbn [elements init_array] in *. rewrite sum_blocks_nil in Hl.
    destruct b.
    + destruct Hb as [Hb1 Hb2]. rewrite sum_blocks_nil in Hb2. cbn [map app] in Hb1. replace (asize a <? 0) with false by lia.
      eexists _, _. split; [done|]. split; [done|]. cbn [meaning visible blocks elements].
      split_and!; [|by rewrite Hb1, map_map|lia|lia].
      constructor; [|done]. split; cbn; [done|]. apply (f_equal length) in Hb1. rewrite !length_map in Hb1. lia.
    + cbn [Z.ltb Z.compare]. eexists _, _. split; [done|]. rewrite destroy_elements_eq. cbn.
      split; [done|]. split; [cbn [shift live]; lia|done].
  - eexists _, _. split; [done|]. split; [done|]. cbn. split_and!; [constructor|done..|lia].
  - eexists _, _. split; [done|]. split; [done|]. cbn. split_and!; [constructor|done..|lia].
  - eexists _, _. split; [done|]. split; [done|]. cbn. split_and!; [constructor|done..|lia].
Qed.

(** ** Arguments *)

Definition argument_meaning (arg : argument) : jval :=
  match arg with
  | ArgValue src => meaning src
  | ArgString str => VString (cstr str)
  | ArgNumber d => VNumber d
  | ArgObject => VObject []
  | ArgArray => VArray []
  | ArgTrue => VTrue
  | ArgFalse => VFalse
  | ArgNull => VNull
  end.

(** The blocks that change hands with an argument: a moved value and its
    structure. *)
Definition argument_blocks (arg : argument) : Z := match arg with ArgValue src => 1 + blocks src | _ => 0 end.
Definition argument_ok (arg : argument) : Prop := match arg with ArgValue src => json_ok src | _ => True end.

Lemma move_value_eq src : __move_json_value src = src.
Proof. destruct src as [| |[]|[]| | |]; cbn; rewrite ?app_nil_r; done. Qed.

Lemma set_value_ok arg m : argument_ok arg ->
  exists r m', __set_json_value arg m = (r, m') /\
    match r with
    | Some v => json_ok v /\ meaning v = argument_meaning arg /\ live m' = live m + blocks v - argument_blocks arg
    | None => live m' = live m /\ answers m <> [] /\ argument_blocks arg = 0
    end.
Proof.
  intros Ha. destruct arg as [src|str|d| | | | |]; cbn [__set_json_value argument_meaning argument_blocks argument_ok] in *.
  - rewrite move_value_eq. eexists _, _. split; [done|]. cbn. split_and!; [done..|lia].
  - destruct (alloc_cases m) as [(h & -> & _)|(h & -> & Hh)]; eexists _, _; (split; [done|]).
    + split_and!; [constructor|done|]. cbn. lia.
    + done.
  - eexists _, _. split; [done|]. split_and!; [constructor|done|]. cbn. lia.
  - eexists _, _. split; [done|]. split_and!; [constructor; [apply init_object_ok|constructor]|done|]. cbn. rewrite sum_blocks_nil. lia.
  - eexists _, _. split; [done|]. split_and!; [constructor; [split; [apply NoDup_nil_2|done]|constructor]|done|]. cbn. rewrite sum_blocks_nil. lia.
  - eexists _, _. split; [done|]. split_and!; [constructor|done|]. cbn. lia.
  - eexists _, _. split; [done|]. split_and!; [constructor|done|]. cbn. lia.
  - eexists _, _. split; [done|]. split_and!; [constructor|done|]. cbn. lia.
Qed.

Definition object_blocks (o : json_object json_value) : Z := blocks (JSON_VALUE_OBJECT o).

(** [__json_object_insert], on every path. *)
Lemma object_insert_ok name arg pos o m :
  json_ok (JSON_VALUE_OBJECT o) -> valid_pos pos o -> argument_ok arg -> osize o < 2 ^ 31 - 1 ->
  exists r o' m', __json_object_insert name arg pos o m = Some (r, o', m') /\ json_ok (JSON_VALUE_OBJECT o') /\
    match r with
    | Some x => exists l1 l2 v, members o = l1 ++ l2 /\ fst <$> last l1 = pos /\
        members o' = l1 ++ (x, (cstr name, v)) :: l2 /\ meaning v = argument_meaning arg /\
        live m' - object_blocks o' = live m - object_blocks o - argument_blocks arg
    | None => o' = o /\ live m' = live m /\ answers m <> []
    end.
Proof.
  intros Hok Hp Ha Hb. inversion Hok as [| |? [Ht Hs] Hf| | | |]; subst. unfold __json_object_insert.
  destruct (alloc_cases m) as [(h & -> & Hh)|(h & -> & Hh)].
  2: { eexists _, _, _. split; [done|]. done. }
  destruct (set_value_ok arg (mk_memory h (live m + 1)) Ha) as (r & m1 & -> & Hr). destruct r as [v|].
  2: { eexists _, _, _. split; [done|]. split; [done|]. destruct Hr as (Hl & Hn & _). split_and!; [done|cbn in *; lia|].
    intros E. by apply Hn, Hh. }
  destruct Hr as (Hv & Hm & Hl).
  destruct (insert_member_ok (new_loc (members o)) (cstr name) v pos o Ht (new_loc_fresh _) Hp) as (o' & l1 & l2 & E & Ht' & E1 & E2 & E3 & E4).
  unfold object_insert_member. rewrite E. cbn [mbind option_bind]. unfold int_incr. rewrite E4.
  replace (osize o =? 2 ^ 31 - 1) with false by lia. cbn [mbind option_bind].
  eexists _, _, _. split; [done|]. split.
  - constructor; cbn [members osize].
    + split; cbn [members osize].
      * destruct Ht' as (l & [? ? ? ?]). exists l. by constructor.
      * rewrite E3, Hs, E1, !length_app. cbn [length]. lia.
    + rewrite E3. rewrite E1 in Hf. apply Forall_app in Hf as [? ?]. apply Forall_app. split; [done|]. by constructor.
  - exists l1, l2, v. cbn [members]. split_and!; try done. unfold object_blocks. cbn [blocks members].
    rewrite E3, E1, !sum_blocks_app, sum_blocks_cons. cbn [fst snd answers live] in *. lia.
Qed.

(** ** The properties *)

(** Copies: [json_value_copy] terminates; it returns a well-formed value of its
    own blocks that means the same as the original (strings up to their first
    NUL), and destroying it frees exactly what it took; it returns NULL only when
    an allocation failed, and then it has freed everything it had allocated. *)
Theorem json_copy_correct val m :
  json_ok val ->
  exists r m', json_value_copy val m = Some (r, m') /\
    match r with
    | Some w => json_ok w /\ meaning w = visible (meaning val) /\ live m' = live m + 1 + blocks w /\
        live (json_value_destroy w m') = live m
    | None => live m' = live m /\ answers m <> []
    end.
Proof.
  intros Hok. unfold json_value_copy. destruct (alloc_cases m) as [(h & -> & Hh)|(h & -> & Hh)].
  2: { eexists _, _. split; [done|]. done. }
  destruct (copy_ok val Hok (mk_memory h (live m + 1))) as (r & m1 & -> & _ & Hr). cbn [mbind option_bind].
  destruct r as [w|]; eexists _, _; (split; [done|]); cbn [answers live] in Hr.
  - destruct Hr as (Hw & Hm & Hb & Hl). unfold json_value_destroy. rewrite destroy_ok, free_shift, shift_shift.
    split_and!; [done|done|lia|cbn; lia].
  - destruct Hr as [Hl Hn]. split; [cbn; lia|]. intros E. by apply Hn, Hh.
Qed.

(** Creation and destruction: [json_value_create] makes the value its
    arguments describe, or returns NULL without leaking; [json_value_destroy]
    frees every block of a value and its structure, once. *)
Theorem json_create_destroy arg m :
  argument_ok arg ->
  exists r m', json_value_create arg m = (r, m') /\
    match r with
    | Some v => json_ok v /\ meaning v = argument_meaning arg /\
        live m' = live m + 1 + blocks v - argument_blocks arg /\
        live (json_value_destroy v m') = live m - argument_blocks arg
    | None => live m' = live m /\ answers m <> []
    end.
Proof.
  intros Ha. unfold json_value_create. destruct (alloc_cases m) as [(h & -> & Hh)|(h & -> & Hh)].
  2: { eexists _, _. split; [done|]. done. }
  destruct (set_value_ok arg (mk_memory h (live m + 1)) Ha) as (r & m1 & -> & Hr). cbn [answers live] in Hr.
  destruct r as [v|]; eexists _, _; (split; [done|]).
  - destruct Hr as (Hv & Hm & Hl). unfold json_value_destroy. rewrite destroy_ok, free_shift, shift_shift.
    split_and!; [done|done|lia|cbn; lia].
  - destruct Hr as (Hl & Hn & _). split; [cbn; lia|]. intros E. by apply Hn, Hh.
Qed.

(** Editing an object: append, insertion before or after a member and removal
    keep the object well formed, put the member where they say, and account for
    every block: what the object owns grows by what was allocated or moved in, and
    a removed value is handed over with the blocks it owned.  On a failed
    allocation the object and the number of live blocks are unchanged. *)
Theorem json_object_edit name arg pos o m :
  json_ok (JSON_VALUE_OBJECT o) -> valid_pos pos o -> argument_ok arg -> osize o < 2 ^ 31 - 1 ->
  let edited before e :=
    exists r o' m', e = Some (r, o', m') /\ json_ok (JSON_VALUE_OBJECT o') /\
      match r with
      | Some x => exists l1 l2 v, members o = l1 ++ l2 /\ before l1 l2 /\
          members o' = l1 ++ (x, (cstr name, v)) :: l2 /\ meaning v = argument_meaning arg /\
          live m' - object_blocks o' = live m - object_blocks o - argument_blocks arg
      | None => o' = o /\ live m' = live m /\ answers m <> []
      end in
  edited (fun _ l2 => l2 = []) (json_object_append o name arg m) /\
  edited (fun l1 _ => fst <$> last l1 = pos) (json_object_insert_after pos o name arg m) /\
  edited (fun _ l2 => fst <$> head l2 = pos) (json_object_insert_before pos o name arg m) /\
  (forall x, pos = Some x -> exists r o' m', json_object_remove x o m = Some (r, o', m') /\
     json_ok (JSON_VALUE_OBJECT o') /\
     match r with
     | Some v => exists l1 n l2, members o = l1 ++ (x, (n, v)) :: l2 /\ members o' = l1 ++ l2 /\ json_ok v /\
         live m' = live m /\ object_blocks o = object_blocks o' + 1 + blocks v
     | None => o' = o /\ live m' = live m /\ answers m <> []
     end).
Proof.
  intros Hok Hp Ha Hb edited.
  inversion Hok as [| |? [Ht Hs] Hf| | | |]; subst. pose proof Ht as (l & [_ _ Hd _]). split_and!.
  - destruct (object_insert_ok name arg (fst <$> last (members o)) o m Hok (last_pos_valid o) Ha Hb)
      as (r & o' & m' & E & Hok' & Hr). exists r, o', m'. split; [exact E|]. split; [done|]. destruct r as [x|]; [|done].
    destruct Hr as (l1 & l2 & v & E1 & E2 & Hr). exists l1, l2, v. split; [done|]. split; [|done].
    unfold ids in Hd. rewrite E1 in Hd, E2. by apply (split_last fst l1).
  - destruct (object_insert_ok name arg pos o m Hok Hp Ha Hb) as (r & o' & m' & E & Hok' & Hr). by exists r, o', m'.
  - destruct (pos_prev_valid o pos Hd Hp) as (q & k1 & k2 & E0 & Ek & Eh & El & Hq).
    unfold json_object_insert_before. rewrite E0. cbn [mbind option_bind].
    destruct (object_insert_ok name arg q o m Hok Hq Ha Hb) as (r & o' & m' & E & Hok' & Hr). exists r, o', m'.
    split; [done|]. split; [done|]. destruct r as [x|]; [|done]. destruct Hr as (l1 & l2 & v & E1 & E2 & Hr).
    exists l1, l2, v. split; [done|]. split; [|done].
    destruct (split_unique fst k1 k2 l1 l2) as [_ <-]; [by rewrite <- Ek|congruence|congruence|done].
  - intros x ->. unfold json_object_remove. destruct (alloc_cases m) as [(h & -> & Hh)|(h & -> & Hh)].
    2: { eexists _, _, _. split; [done|]. done. }
    destruct (remove_member_ok x o Ht Hp) as (l1 & n & v & l2 & o' & E1 & E2 & Ht' & E3 & E4).
    rewrite E2. cbn [mbind option_bind]. rewrite move_value_eq. eexists _, _, _. split; [done|].
    rewrite E1 in Hf. apply Forall_app in Hf as [Hf1 Hf2]. apply Forall_cons in Hf2 as [Hv Hf2]. split.
    + constructor; [split; [done|]|rewrite E3; by apply Forall_app]. rewrite E4, Hs, E1, E3, !length_app. cbn [length]. lia.
    + exists l1, n, l2. split_and!; try done; [cbn; lia|]. unfold object_blocks. cbn [blocks].
      rewrite E1, E3, !sum_blocks_app, sum_blocks_cons. cbn [snd]. lia.
Qed.

(** ** Witnesses *)

(** The object {b: "x", a: null} and the memory it was built in. *)
Definition demo_value : option (json_object json_value * memory) :=
  '(_, o, m) ← json_object_append init_object [98] (ArgString [120]) (mk_memory [] 1);
  '(_, o, m) ← json_object_append o [97] ArgNull m;
  Some (o, m).

Lemma demo_value_ok : exists o m, demo_value = Some (o, m) /\ json_ok (JSON_VALUE_OBJECT o) /\ live m = 4 /\ osize o = 2.
Proof.
  unfold demo_value, json_object_append. cbn [pos_prev last members init_object fmap option_fmap option_map mbind option_bind].
  assert (H0 : json_ok (JSON_VALUE_OBJECT init_object)) by (constructor; [apply init_object_ok|constructor]).
  destruct (object_insert_ok [98] (ArgString [120]) None init_object (mk_memory [] 1) H0 Logic.I Logic.I ltac:(done))
    as (r & o1 & m1 & E1 & H1 & _). rewrite E1. cbn [mbind option_bind].
  pose proof E1 as E1'. vm_compute in E1'. injection E1' as <- E2 E3. clear E1.
  destruct (object_insert_ok [97] ArgNull (fst <$> last (members o1)) o1 m1 H1 (last_pos_valid o1) Logic.I)
    as (r & o2 & m2 & E & H2 & _); [by rewrite <- E2|]. exists o2, m2. rewrite E. split; [done|]. split; [done|].
  rewrite <- E2, <- E3 in E. vm_compute in E. by injection E as _ <- <-.
Qed.

Lemma json_copy_correct_witness :
  exists o m r m', demo_value = Some (o, m) /\ json_value_copy (JSON_VALUE_OBJECT o) m = Some (r, m') /\
    (r <> None -> live m' = 8).
Proof.
  destruct demo_value_ok as (o & m & E & Hok & Hm & _). pose proof E as E'. vm_compute in E'. injection E' as Eo Em.
  destruct (json_copy_correct (JSON_VALUE_OBJECT o) m Hok) as (r & m' & Ec & Hr).
  exists o, m, r, m'. split; [exact E|]. split; [exact Ec|]. intros Hn. destruct r as [w|]; [|congruence].
  rewrite <- Eo, <- Em in Ec. vm_compute in Ec. injection Ec as _ <-. reflexivity.
Defined.

Lemma json_create_destroy_witness :
  exists v, json_value_create (ArgString [97; 98; 0; 99]) (mk_memory [] 0) = (Some v, mk_memory [] 2) /\
    meaning v = VString [97; 98].
Proof.
  destruct (json_create_destroy (ArgString [97; 98; 0; 99]) (mk_memory [] 0) Logic.I) as ([v|] & m' & E & H).
  - vm_compute in E. injection E as <- <-. eexists. split; [vm_compute; reflexivity|]. apply H.
  - vm_compute in E. discriminate.
Defined.

Lemma json_object_edit_witness :
  exists o m r o' m', demo_value = Some (o, m) /\
    json_object_insert_before None o [99] (ArgNumber (double_of_Z 3)) m = Some (r, o', m') /\
    json_ok (JSON_VALUE_OBJECT o').
Proof.
  destruct demo_value_ok as (o & m & E & Hok & _ & Hs).
  destruct (json_object_edit [99] (ArgNumber (double_of_Z 3)) None o m Hok Logic.I Logic.I) as (_ & _ & (r & o' & m' & Ei & Hi & _) & _).
  - rewrite Hs. reflexivity.
  - exists o, m, r, o', m'. split; [exact E|]. split; [exact Ei|exact Hi].
Defined.
