(* ===== verification/JsonParser.v ===== *)
(** * The JSON parser of [src/util/json_parser.c]

    The recursive descent: values call objects and arrays, which call values one
    level deeper, down to [JSON_DEPTH_LIMIT].  The recursion takes its fuel from
    the levels that are left ([1025 - depth] is enough), and the loops over the
    members and the elements take theirs from the length of the text.

    [jtext] is the grammar: which texts are JSON values of at most the given
    nesting, and the values they stand for. *)

From S2P Require Import Prelude CLib RBTree RBSearch JsonText JsonNumber JsonObject JsonValue.

Local Open Scope Z_scope.

Definition JSON_DEPTH_LIMIT : Z := 1024.

(** [None]: undefined behaviour; [inl ret]: an error; [inr]: a result. *)
Abbreviation parse A := (option ((Z + A) * memory)).

Definition fail {A} (ret : Z) (m : memory) : parse A := Some (inl ret, m).

Definition bind_parse {A B} (e : parse A) (k : A -> memory -> parse B) : parse B :=
  '(r, m) ← e; match r with inl ret => fail ret m | inr x => k x m end.

(** A scanner that does not allocate. *)
Definition lift {A} (e : res A) (m : memory) : parse A := r ← e; Some (r, m).

(** [while (isspace( *cursor)) cursor++;] *)
Fixpoint skip_spaces (s : list Z) : option (list Z) :=
  match s with [] => None | c :: s' => if isspace c then skip_spaces s' else Some s end.

(** [strncmp(cursor, lit, strlen(lit)) == 0] *)
Fixpoint strncmp_eq (lit cursor : list Z) : option bool :=
  match lit with
  | [] => Some true
  | x :: lit => match cursor with [] => None | c :: s => if c =? x then strncmp_eq lit s else Some false end
  end.

Definition lit_true : list Z := [116; 114; 117; 101].
Definition lit_false : list Z := [102; 97; 108; 115; 101].
Definition lit_null : list Z := [110; 117; 108; 108].

Definition parse_literal (lit : list Z) (val : json_value) (cursor : list Z) (m : memory) : parse (list Z * json_value) :=
  b ← strncmp_eq lit cursor;
  if b : bool then Some (inr (drop (length lit) cursor, val), m) else fail (-2) m.

(** A string and its buffer: [malloc] of the length counted, and one. *)
Definition parse_string_value (cursor : list Z) (m : memory) : parse (list Z * json_value) :=
  ret ← __json_string_length cursor;
  if ret <? 0 then fail ret m
  else
    let '(b, m) := alloc m in
    if b then
      r ← __parse_json_string cursor (ret + 1);
      match r with
      | inl ret => fail ret (free m)
      | inr (cursor, s) => Some (inr (cursor, JSON_VALUE_STRING s), m)
      end
    else fail (-1) m.

Section Containers.
(** [__parse_json_value] at a given depth. *)
Context (parse_value : Z -> list Z -> memory -> parse (list Z * json_value)).

(** [memb->name] has [room] bytes: [*end], the name and the value. *)
Definition __parse_json_member (cursor : list Z) (depth room : Z) (m : memory)
    : parse (list Z * list Z * json_value) :=
  bind_parse (lift (__parse_json_string cursor room) m) (fun x m =>
    let '(cursor, name) := x in
    cursor ← skip_spaces cursor;
    c ← head cursor;
    if negb (c =? 58) then fail (-2) m
    else
      cursor ← skip_spaces (tail cursor);
      bind_parse (parse_value depth cursor m) (fun x m =>
        let '(cursor, val) := x in Some (inr (cursor, name, val), m))).

(** The loop of [__parse_json_members]; the object is returned in every case. *)
Fixpoint members_loop (fuel : nat) (cursor : list Z) (depth : Z) (obj : json_object json_value) (cnt : Z)
    (m : memory) : option ((Z + (list Z * Z)) * json_object json_value * memory) :=
  match fuel with
  | O => None
  | S fuel =>
      c ← head cursor;
      if negb (c =? 34) then Some (inl (-2), obj, m)
      else
        let cursor := tail cursor in
        ret ← __json_string_length cursor;
        if ret <? 0 then Some (inl ret, obj, m)
        else
          let '(b, m) := alloc m in
          if b then
            '(r, m) ← __parse_json_member cursor depth (ret + 1) m;
            match r with
            | inl ret => Some (inl ret, obj, free m)
            | inr (cursor, name, val) =>
                pos ← pos_prev None (members obj);
                obj ← __insert_json_member (new_loc (members obj)) name val pos obj;
                cnt ← int_incr cnt;
                cursor ← skip_spaces cursor;
                c ← head cursor;
                if c =? 44 then
                  cursor ← skip_spaces (tail cursor);
                  members_loop fuel cursor depth obj cnt m
                else if c =? 125 then Some (inr (tail cursor, cnt), obj, m)
                else Some (inl (-2), obj, m)
            end
          else Some (inl (-1), obj, m)
  end.

Definition __parse_json_members (cursor : list Z) (depth : Z) (obj : json_object json_value) (m : memory)
    : option ((Z + (list Z * Z)) * json_object json_value * memory) :=
  cursor ← skip_spaces cursor;
  c ← head cursor;
  if c =? 125 then Some (inr (tail cursor, 0), obj, m)
  else members_loop (S (length cursor)) cursor depth obj 0 m.

Definition __parse_json_object (cursor : list Z) (depth : Z) (m : memory) : parse (list Z * json_value) :=
  if depth =? JSON_DEPTH_LIMIT then fail (-3) m
  else
    '(r, obj, m) ← __parse_json_members cursor (depth + 1) init_object m;
    match r with
    | inl ret => fail ret (__destroy_json_members obj m)
    | inr (cursor, ret) => Some (inr (cursor, JSON_VALUE_OBJECT (mk_object (members obj) (root obj) ret)), m)
    end.

(** The loop of [__parse_json_elements]. *)
Fixpoint elements_loop (fuel : nat) (cursor : list Z) (depth : Z) (arr : json_array json_value) (cnt : Z)
    (m : memory) : option ((Z + (list Z * Z)) * json_array json_value * memory) :=
  match fuel with
  | O => None
  | S fuel =>
      let '(b, m) := alloc m in
      if b then
        '(r, m) ← parse_value depth cursor m;
        match r with
        | inl ret => Some (inl ret, arr, free m)
        | inr (cursor, val) =>
            pos ← pos_prev None (elements arr);
            els ← insert_after pos (new_loc (elements arr), val) (elements arr);
            let arr := mk_array els (asize arr) in
            cnt ← int_incr cnt;
            cursor ← skip_spaces cursor;
            c ← head cursor;
            if c =? 44 then
              cursor ← skip_spaces (tail cursor);
              elements_loop fuel cursor depth arr cnt m
            else if c =? 93 then Some (inr (tail cursor, cnt), arr, m)
            else Some (inl (-2), arr, m)
        end
      else Some (inl (-1), arr, m)
  end.

Definition __parse_json_elements (cursor : list Z) (depth : Z) (arr : json_array json_value) (m : memory)
    : option ((Z + (list Z * Z)) * json_array json_value * memory) :=
  cursor ← skip_spaces cursor;
  c ← head cursor;
  if c =? 93 then Some (inr (tail cursor, 0), arr, m)
  else elements_loop (S (length cursor)) cursor depth arr 0 m.

Definition __parse_json_array (cursor : list Z) (depth : Z) (m : memory) : parse (list Z * json_value) :=
  if depth =? JSON_DEPTH_LIMIT then fail (-3) m
  else
    '(r, arr, m) ← __parse_json_elements cursor (depth + 1) init_array m;
    match r with
    | inl ret => fail ret (__destroy_json_elements arr m)
    | inr (cursor, ret) => Some (inr (cursor, JSON_VALUE_ARRAY (mk_array (elements arr) ret)), m)
    end.

End Containers.

(** [*end] and the value. *)
Fixpoint __parse_json_value (fuel : nat) (depth : Z) (cursor : list Z) (m : memory)
    : parse (list Z * json_value) :=
  match fuel with
  | O => None
  | S fuel =>
      c ← head cursor;
      if c =? 34 then parse_string_value (tail cursor) m
      else if (c =? 45) || is_digit c then
        bind_parse (lift (__parse_json_number cursor) m) (fun x m =>
          let '(cursor, num) := x in Some (inr (cursor, JSON_VALUE_NUMBER num), m))
      else if c =? 123 then __parse_json_object (__parse_json_value fuel) (tail cursor) depth m
      else if c =? 91 then __parse_json_array (__parse_json_value fuel) (tail cursor) depth m
      else if c =? 116 then parse_literal lit_true JSON_VALUE_TRUE cursor m
      else if c =? 102 then parse_literal lit_false JSON_VALUE_FALSE cursor m
      else if c =? 110 then parse_literal lit_null JSON_VALUE_NULL cursor m
      else fail (-2) m
  end.

(** The levels of recursion below a value at the depth 0. *)
Definition depth_fuel : nat := 1025.

(** [json_value_parse] over the parser of a value at the depth 0. *)
Definition parse_document (parse_value : Z -> list Z -> memory -> parse (list Z * json_value))
    (cursor : list Z) (m : memory) : option (option json_value * memory) :=
  let '(b, m) := alloc m in
  if b then
    cursor ← skip_spaces cursor;
    '(r, m) ← parse_value 0 cursor m;
    match r with
    | inl _ => Some (None, free m)
    | inr (cursor, val) =>
        cursor ← skip_spaces cursor;
        c ← head cursor;
        if c =? NUL then Some (Some val, m)
        else Some (None, free (__destroy_json_value val m))
    end
  else Some (None, m).

Definition json_value_parse : list Z -> memory -> option (option json_value * memory) :=
  parse_document (__parse_json_value depth_fuel).

(** ** The grammar *)

Definition spaces (w : list Z) : Prop := Forall (fun c => isspace c = true) w.

Section Grammar.
(** The texts of the values one level deeper. *)
Context (value : list Z -> jval -> Prop).

(** A member and the white space after it. *)
Inductive jmember : list Z -> list Z * jval -> Prop :=
  | jmember_intro tn n w1 w2 tv v w3 :
      jchars tn n -> spaces w1 -> spaces w2 -> value tv v -> spaces w3 ->
      jmember (34 :: tn ++ 34 :: w1 ++ 58 :: w2 ++ tv ++ w3) (n, v).

Inductive jelement : list Z -> jval -> Prop :=
  | jelement_intro tv v w : value tv v -> spaces w -> jelement (tv ++ w) v.

(** Items separated by commas. *)
Inductive jitems {X} (item : list Z -> X -> Prop) : list Z -> list X -> Prop :=
  | jitems_one t x : item t x -> jitems item t [x]
  | jitems_more t x w t' l : item t x -> spaces w -> jitems item t' l -> jitems item (t ++ 44 :: w ++ t') (x :: l).

End Grammar.

Inductive jtext : Z -> list Z -> jval -> Prop :=
  | jt_string d t s : jchars t s -> jtext d (34 :: t ++ [34]) (VString s)
  | jt_number d t n v : jnumber t n -> decimal_double n = Some v -> jtext d t (VNumber v)
  | jt_object_nil d w : d <> JSON_DEPTH_LIMIT -> spaces w -> jtext d (123 :: w ++ [125]) (VObject [])
  | jt_object d w t l : d <> JSON_DEPTH_LIMIT -> spaces w -> jitems (jmember (jtext (d + 1))) t l ->
      jtext d (123 :: w ++ t ++ [125]) (VObject l)
  | jt_array_nil d w : d <> JSON_DEPTH_LIMIT -> spaces w -> jtext d (91 :: w ++ [93]) (VArray [])
  | jt_array d w t l : d <> JSON_DEPTH_LIMIT -> spaces w -> jitems (jelement (jtext (d + 1))) t l ->
      jtext d (91 :: w ++ t ++ [93]) (VArray l)
  | jt_true d : jtext d lit_true VTrue
  | jt_false d : jtext d lit_false VFalse
  | jt_null d : jtext d lit_null VNull.

(** A NUL-terminated document. *)
Definition jdocument (s : list Z) (v : jval) : Prop :=
  exists w1 t w2 rest, s = w1 ++ t ++ w2 ++ NUL :: rest /\ spaces w1 /\ jtext 0 t v /\ spaces w2.

(** ** Scanning *)

Ltac lengths H := repeat first [rewrite length_app in H | progress cbn [length] in H].


Lemma spaces_split s : NUL ∈ s ->
  exists w c r, s = w ++ c :: r /\ spaces w /\ isspace c = false /\ skip_spaces s = Some (c :: r) /\ NUL ∈ c :: r.
Proof.
  induction s as [|c s IH]; intros Hs; [by apply elem_of_nil in Hs|]. cbn [skip_spaces]. destruct (isspace c) eqn:Hc.
  - apply elem_of_cons in Hs as [<-|Hs]; [done|]. destruct (IH Hs) as (w & d & r & -> & Hw & Hd & E & Hn).
    exists (c :: w), d, r. split_and!; [done|by constructor|done..].
  - exists [], c, s. split_and!; [done|constructor|done..].
Qed.

Lemma skip_spaces_ok w c r : spaces w -> isspace c = false -> skip_spaces (w ++ c :: r) = Some (c :: r).
Proof. intros Hw Hc. induction Hw as [|d w Hd _ IH]; cbn [app skip_spaces]; [by rewrite Hc|by rewrite Hd]. Qed.

Lemma nul_tail c s : NUL ∈ c :: s -> c <> NUL -> NUL ∈ s.
Proof. intros [<-|H]%elem_of_cons; done. Qed.

Lemma nul_app (l r : list Z) : NUL ∈ r -> NUL ∈ l ++ r.
Proof. intros. apply elem_of_app. by right. Qed.

Lemma strncmp_eq_ok lit s : NUL ∈ s -> (NUL ∉ lit) ->
  exists b, strncmp_eq lit s = Some b /\ (b = true -> s = lit ++ drop (length lit) s /\ NUL ∈ drop (length lit) s).
Proof.
  revert s. induction lit as [|x lit IH]; intros s Hs Hl; cbn [strncmp_eq length].
  - exists true. by rewrite drop_0.
  - destruct s as [|c s]; [by apply elem_of_nil in Hs|]. rewrite not_elem_of_cons in Hl.
    destruct (Z.eqb_spec c x) as [->|]; [|by exists false].
    destruct (IH s) as (b & E & H); [eapply nul_tail; [exact Hs|naive_solver]|naive_solver|].
    exists b. split; [done|]. intros ->. destruct H as [H1 H2]; [done|]. cbn. by rewrite <- H1.
Qed.

Lemma strncmp_eq_refl lit r : strncmp_eq lit (lit ++ r) = Some true.
Proof. induction lit as [|x lit IH]; cbn; [done|]. by rewrite Z.eqb_refl. Qed.

Lemma hex4_nul h code : hex4 h code -> NUL ∉ h.
Proof.
  intros (a & b & c & d & va & vb & vc & vd & -> & Ha & Hb & Hc & Hd & _).
  apply json_hex_value_range in Ha, Hb, Hc, Hd. rewrite !not_elem_of_cons. split_and!; try lia. apply list.not_elem_of_nil.
Qed.

(** A string has no NUL in its text. *)
Lemma jchars_nul t v : jchars t v -> NUL ∉ t.
Proof.
  intros Ht Hs. induction Ht as [|c t v H1 H2 H3 Ht IH|c e t v He Ht IH|h code t v Hh Hi Hlo Ht IH|h hi h' lo t v Hh Hi Hh' Hlo Ht IH].
  - by apply elem_of_nil in Hs.
  - apply elem_of_cons in Hs as [Hs|Hs]; [lia|auto].
  - apply simple_escape_ne in He as [He _]. rewrite !elem_of_cons in Hs. destruct Hs as [Hs|[Hs|Hs]]; try lia; auto.
  - rewrite !elem_of_cons, elem_of_app in Hs. destruct Hs as [Hs|[Hs|[Hs|Hs]]]; try lia; auto. by apply hex4_nul in Hh.
  - rewrite !elem_of_cons, elem_of_app, !elem_of_cons, elem_of_app in Hs.
    destruct Hs as [Hs|[Hs|[Hs|[Hs|[Hs|[Hs|Hs]]]]]]; try lia; auto; [by apply hex4_nul in Hh|by apply hex4_nul in Hh'].
Qed.

(** ** The outcomes of the parser *)

(** The text read, its value and the blocks taken; or an error that took none.
    The memory answers go on being favourable when they were. *)
Definition outcome {A} (s : list Z) (m : memory) (good : list Z -> A -> Prop) (owned : A -> Z)
    (r : Z + (list Z * A)) (m' : memory) : Prop :=
  (answers m = [] -> answers m' = []) /\
  match r with
  | inl _ => live m' = live m
  | inr (cursor, x) => (exists t, s = t ++ cursor /\ good t x) /\ NUL ∈ cursor /\ live m' = live m + owned x
  end.

Definition good_value (d : Z) (t : list Z) (val : json_value) : Prop := json_ok val /\ jtext d t (meaning val).

(** [parse_value] is right at depth [d]. *)
Definition parses (parse_value : Z -> list Z -> memory -> parse (list Z * json_value)) (d : Z) : Prop :=
  forall s m, NUL ∈ s -> len s < 2 ^ 31 ->
    exists r m', parse_value d s m = Some (r, m') /\ outcome s m (good_value d) blocks r m'.

Lemma string_value_ok d s m : NUL ∈ s -> len s < 2 ^ 31 ->
  exists r m', parse_string_value s m = Some (r, m') /\ outcome (34 :: s) m (good_value d) blocks r m'.
Proof.
  intros Hs Hl. unfold parse_string_value, __json_string_length, __parse_json_string.
  destruct (length_loop_total s 0) as [->|(k & E & Hk)]; [lia..|done| |].
  { eexists _, _. split; [done|]. by split. }
  rewrite E. cbn [mbind option_bind]. replace (k <? 0) with false by lia.
  destruct (alloc_cases m) as [(h & -> & Hh)|(h & -> & Hh)].
  2: { eexists _, _. split; [done|]. split; [done|]. done. }
  destruct (string_loop_spec (S (length s)) s 0 k (k + 1) []) as [->|(t & v & r & -> & Ht & Hv & ->)]; try lia; try done.
  - cbn [mbind option_bind]. eexists _, _. split; [done|]. split; [done|]. cbn. lia.
  - cbn [mbind option_bind rev app]. eexists _, _. split; [done|]. split; [done|]. split_and!.
    + exists (34 :: t ++ [34]). split; [cbn; by rewrite <- app_assoc|]. split; [constructor|by constructor].
    + apply elem_of_app in Hs as [Hs|Hs]; [by apply jchars_nul in Ht|by apply nul_tail in Hs].
    + cbn. lia.
Qed.

Section Sound.
Context (parse_value : Z -> list Z -> memory -> parse (list Z * json_value)) (d : Z).
Context (Hparse : parses parse_value d).

Lemma member_ok s k m : NUL ∈ s -> len s < 2 ^ 31 -> __json_string_length s = Some k -> 0 <= k ->
  exists r m', __parse_json_member parse_value s d (k + 1) m = Some (r, m') /\
    (answers m = [] -> answers m' = []) /\
    match r with
    | inl _ => live m' = live m
    | inr (cursor, name, val) =>
        (exists tn w1 w2 tv, s = tn ++ 34 :: w1 ++ 58 :: w2 ++ tv ++ cursor /\ jchars tn name /\
           spaces w1 /\ spaces w2 /\ jtext d tv (meaning val)) /\
        NUL ∈ cursor /\ json_ok val /\ live m' = live m + blocks val
    end.
Proof.
  intros Hs Hl E Hk. unfold __parse_json_member, __parse_json_string, __json_string_length in *.
  destruct (string_loop_spec (S (length s)) s 0 k (k + 1) []) as [->|(tn & name & r & -> & Htn & _ & ->)]; try lia; try done.
  { cbn [lift bind_parse mbind option_bind]. eexists _, _. split; [done|]. done. }
  cbn [lift bind_parse mbind option_bind rev app].
  assert (Hr : NUL ∈ r) by (apply elem_of_app in Hs as [Hs|Hs]; [by apply jchars_nul in Htn|by apply nul_tail in Hs]).
  destruct (spaces_split r Hr) as (w1 & c & r1 & -> & Hw1 & Hc & -> & Hn1). cbn [mbind option_bind head].
  destruct (Z.eqb_spec c 58) as [->|Hc58]; cbn [negb].
  2: { eexists _, _. split; [done|]. done. }
  cbn [tail]. apply nul_tail in Hn1; [|done].
  destruct (spaces_split r1 Hn1) as (w2 & c2 & r2 & -> & Hw2 & Hc2 & -> & Hn2). cbn [mbind option_bind].
  lengths Hl. assert (Hl2 : len (c2 :: r2) < 2 ^ 31).
  { cbn [length]. lia. }
  destruct (Hparse (c2 :: r2) m Hn2 Hl2) as (rv & m1 & -> & Ha & Hv). unfold bind_parse. cbn [mbind option_bind].
  destruct rv as [ret|[cursor val]]; eexists _, _; (split; [done|]); (split; [done|]); [done|].
  destruct Hv as ((tv & E2 & Hok & Htv) & Hn & Hlive). split_and!; try done.
  exists tn, w1, w2, tv. rewrite E2. split_and!; try done. 
Qed.

Lemma members_loop_ok fuel : forall s obj cnt m, (length s < fuel)%nat -> NUL ∈ s -> cnt + len s < 2 ^ 31 ->
  object_tree_ok obj -> Forall (fun x => json_ok x.2.2) (members obj) -> cnt = len (members obj) ->
  exists r obj' m', members_loop parse_value fuel s d obj cnt m = Some (r, obj', m') /\
    object_tree_ok obj' /\ Forall (fun x => json_ok x.2.2) (members obj') /\
    (answers m = [] -> answers m' = []) /\
    live m' - member_blocks (members obj') = live m - member_blocks (members obj) /\
    match r with
    | inl _ => True
    | inr (cursor, n) => n = len (members obj') /\ NUL ∈ cursor /\
        exists t l, s = t ++ 125 :: cursor /\ jitems (jmember (jtext d)) t l /\
          map member_meaning (members obj') = map member_meaning (members obj) ++ l
    end.
Proof.
  induction fuel as [|fuel IH]; intros s obj cnt m Hf Hs Hl Ht Ho Hcnt; [lia|]. cbn [members_loop].
  destruct (elem_nul_head s Hs) as (c & s1 & -> & Hn). cbn [head tail mbind option_bind length] in *.
  destruct (Z.eqb_spec c 34) as [->|]; cbn [negb]; [|eexists _, _, _; split; [done|]; done].
  specialize (Hn ltac:(done)).
  destruct (length_loop_total s1 0) as [E|(k & E & Hk)]; [lia..|done| |]; unfold __json_string_length; rewrite E; cbn [mbind option_bind].
  { eexists _, _, _; split; [done|]; done. }
  replace (k <? 0) with false by lia.
  destruct (alloc_cases m) as [(h & -> & Hh)|(h & -> & Hh)].
  2: { eexists _, _, _. split; [done|]. by split_and!. }
  destruct (member_ok s1 k (mk_memory h (live m + 1)) Hn ltac:(lia) E ltac:(lia)) as (r & m1 & -> & Ha & Hr).
  cbn [mbind option_bind answers live] in *. destruct r as [ret|[[cur name] val]].
  { eexists _, _, _. split; [done|]. split_and!; try done; cbn; auto. lia. }
  destruct Hr as ((tn & w1 & w2 & tv & Es & Htn & Hw1 & Hw2 & Htv) & Hcur & Hval & Hlive).
  destruct (append_member_ok name val obj Ht) as (o1 & x & E1 & Ht1 & Em & _).
  cbn [pos_prev mbind option_bind] in E1 |- *. rewrite E1. cbn [mbind option_bind]. unfold int_incr.
  replace (cnt =? 2 ^ 31 - 1) with false by lia. cbn [mbind option_bind].
  assert (Ho1 : Forall (fun x => json_ok x.2.2) (members o1)) by (rewrite Em; apply Forall_app; split; [done|by constructor]).
  assert (Hb1 : live m1 - member_blocks (members o1) = live m - member_blocks (members obj)).
  { rewrite Em, sum_blocks_app, sum_blocks_cons, sum_blocks_nil. cbn [snd]. lia. }
  assert (Em' : map member_meaning (members o1) = map member_meaning (members obj) ++ [(name, meaning val)])
    by (by rewrite Em, map_app).
  assert (Hlen : len (members o1) = cnt + 1) by (rewrite Em, length_app; cbn; lia).
  destruct (spaces_split cur Hcur) as (w3 & c & r & -> & Hw3 & Hc & -> & Hn3). cbn [mbind option_bind head tail].
  assert (Hitem : jmember (jtext d) (34 :: tn ++ 34 :: w1 ++ 58 :: w2 ++ tv ++ w3) (name, meaning val)) by (by constructor).
  assert (Es' : 34 :: s1 = (34 :: tn ++ 34 :: w1 ++ 58 :: w2 ++ tv ++ w3) ++ c :: r).
  { rewrite Es. cbn. rewrite <- !app_assoc. cbn. rewrite <- !app_assoc. cbn. by rewrite <- !app_assoc. }
  assert (Hlen1 : (length s1 >= S (length r))%nat).
  { apply (f_equal length) in Es'. rewrite length_app in Es'. cbn [length] in Es'. lia. }
  destruct (Z.eqb_spec c 44) as [->|Hc44].
  - apply nul_tail in Hn3; [|done].
    destruct (spaces_split r Hn3) as (w4 & c4 & r4 & -> & Hw4 & Hc4 & -> & Hn4). cbn [mbind option_bind].
    rewrite length_app in Hlen1. cbn [length] in Hlen1.
    destruct (IH (c4 :: r4) o1 (cnt + 1) m1) as (rr & o2 & m2 & E2 & Ht2 & Ho2 & Ha2 & Hb2 & Hr2);
      [cbn [length]; lia|done|cbn [length]; lia|done|done|lia|].
    exists rr, o2, m2. split_and!; try done; [auto|lia|]. destruct rr as [|[cur n]]; [done|].
    destruct Hr2 as (Hn2 & Hcur2 & t & l & Et & Hitems & Em2). split_and!; try done.
    exists ((34 :: tn ++ 34 :: w1 ++ 58 :: w2 ++ tv ++ w3) ++ 44 :: w4 ++ t), ((name, meaning val) :: l).
    split_and!.
    + rewrite Es', Et. rewrite <- (app_assoc _ (44 :: w4 ++ t)). cbn [app]. by rewrite <- (app_assoc w4).
    + by apply jitems_more.
    + rewrite Em2, Em', <- app_assoc. done.
  - destruct (Z.eqb_spec c 125) as [->|Hc125].
    + exists (inr (r, cnt + 1)), o1, m1. split_and!; try done; [auto|by apply nul_tail in Hn3|].
      exists (34 :: tn ++ 34 :: w1 ++ 58 :: w2 ++ tv ++ w3), [(name, meaning val)]. split_and!; [done|by constructor|done].
    + exists (inl (-2)), o1, m1. split_and!; try done. auto.
Qed.

Lemma elements_loop_ok fuel : forall s arr cnt m, (length s < fuel)%nat -> NUL ∈ s -> cnt + len s < 2 ^ 31 ->
  NoDup (map fst (elements arr)) -> Forall (fun x => json_ok x.2) (elements arr) -> cnt = len (elements arr) ->
  exists r arr' m', elements_loop parse_value fuel s d arr cnt m = Some (r, arr', m') /\
    NoDup (map fst (elements arr')) /\ Forall (fun x => json_ok x.2) (elements arr') /\
    (answers m = [] -> answers m' = []) /\
    live m' - element_blocks (elements arr') = live m - element_blocks (elements arr) /\
    match r with
    | inl _ => True
    | inr (cursor, n) => n = len (elements arr') /\ NUL ∈ cursor /\
        exists t l, s = t ++ 93 :: cursor /\ jitems (jelement (jtext d)) t l /\
          map (fun x => meaning x.2) (elements arr') = map (fun x => meaning x.2) (elements arr) ++ l
    end.
Proof.
  induction fuel as [|fuel IH]; intros s arr cnt m Hf Hs Hl Ht Ho Hcnt; [lia|]. cbn [elements_loop].
  destruct (alloc_cases m) as [(h & -> & Hh)|(h & -> & Hh)].
  2: { eexists _, _, _. split; [done|]. by split_and!. }
  destruct (Hparse s (mk_memory h (live m + 1)) Hs ltac:(lia)) as (r & m1 & -> & Ha & Hr).
  cbn [mbind option_bind answers live] in *. destruct r as [ret|[cur val]].
  { eexists _, _, _. split; [done|]. split_and!; try done; cbn; auto. lia. }
  destruct Hr as ((tv & Es & Hval & Htv) & Hcur & Hlive).
  destruct (append_element_ok val (elements arr) Ht) as (x & E1 & Hx).
  cbn [pos_prev mbind option_bind] in E1 |- *. rewrite E1. cbn [mbind option_bind]. unfold int_incr.
  replace (cnt =? 2 ^ 31 - 1) with false by (destruct s; [by apply elem_of_nil in Hs|cbn [length] in Hl; lia]).
  cbn [mbind option_bind]. set (a1 := mk_array (elements arr ++ [(x, val)]) (asize arr)).
  assert (Hd1 : NoDup (map fst (elements a1))) by (cbn; rewrite map_app; by apply nodup_snoc).
  assert (Ho1 : Forall (fun x => json_ok x.2) (elements a1)) by (apply Forall_app; split; [done|by constructor]).
  assert (Hb1 : live m1 - element_blocks (elements a1) = live m - element_blocks (elements arr)).
  { cbn [elements a1]. rewrite sum_blocks_app, sum_blocks_cons, sum_blocks_nil. cbn [snd]. lia. }
  assert (Em' : map (fun x => meaning x.2) (elements a1) = map (fun x => meaning x.2) (elements arr) ++ [meaning val])
    by (cbn; by rewrite map_app).
  assert (Hlen : len (elements a1) = cnt + 1) by (cbn; rewrite length_app; cbn; lia).
  destruct (spaces_split cur Hcur) as (w3 & c & r & -> & Hw3 & Hc & -> & Hn3). cbn [mbind option_bind head tail].
  assert (Hitem : jelement (jtext d) (tv ++ w3) (meaning val)) by (by constructor).
  assert (Es' : s = (tv ++ w3) ++ c :: r) by (by rewrite Es, app_assoc).
  assert (Hlen1 : (length s >= S (length r))%nat).
  { apply (f_equal length) in Es'. rewrite length_app in Es'. cbn [length] in Es'. lia. }
  destruct (Z.eqb_spec c 44) as [->|Hc44].
  - apply nul_tail in Hn3; [|done].
    destruct (spaces_split r Hn3) as (w4 & c4 & r4 & -> & Hw4 & Hc4 & -> & Hn4). cbn [mbind option_bind].
    rewrite length_app in Hlen1. cbn [length] in Hlen1.
    destruct (IH (c4 :: r4) a1 (cnt + 1) m1) as (rr & o2 & m2 & E2 & Ht2 & Ho2 & Ha2 & Hb2 & Hr2);
      [cbn [length]; lia|done|cbn [length]; lia|done|done|lia|].
    exists rr, o2, m2. split_and!; try done; [auto|lia|]. destruct rr as [|[cur n]]; [done|].
    destruct Hr2 as (Hn2 & Hcur2 & t & l & Et & Hitems & Em2). split_and!; try done.
    exists ((tv ++ w3) ++ 44 :: w4 ++ t), (meaning val :: l). split_and!.
    + rewrite Es', Et. rewrite <- (app_assoc _ (44 :: w4 ++ t)). cbn [app]. by rewrite <- (app_assoc w4).
    + by apply jitems_more.
    + rewrite Em2, Em', <- app_assoc. done.
  - destruct (Z.eqb_spec c 93) as [->|Hc93].
    + exists (inr (r, cnt + 1)), a1, m1. split_and!; try done; [auto|by apply nul_tail in Hn3|].
      exists (tv ++ w3), [meaning val]. split_and!; [done|by constructor|done].
    + exists (inl (-2)), a1, m1. split_and!; try done. auto.
Qed.

End Sound.

Section SoundContainers.
Context (parse_value : Z -> list Z -> memory -> parse (list Z * json_value)) (d : Z).
Context (Hparse : d <> JSON_DEPTH_LIMIT -> parses parse_value (d + 1)).

Lemma object_ok_loop obj n : object_tree_ok obj -> n = len (members obj) -> Forall (fun x => json_ok x.2.2) (members obj) ->
  json_ok (JSON_VALUE_OBJECT (mk_object (members obj) (root obj) n)).
Proof.
  intros (l & [? ? ? ?]) -> Hf. constructor; [|done]. split; [|done]. exists l. by constructor.
Qed.

Lemma parse_object_ok s m : NUL ∈ s -> len s < 2 ^ 31 ->
  exists r m', __parse_json_object parse_value s d m = Some (r, m') /\ outcome (123 :: s) m (good_value d) blocks r m'.
Proof.
  intros Hs Hl. unfold __parse_json_object. destruct (Z.eqb_spec d JSON_DEPTH_LIMIT) as [|Hd].
  { eexists _, _. split; [done|]. done. }
  unfold __parse_json_members.
  destruct (spaces_split s Hs) as (w & c & r & -> & Hw & Hc & -> & Hn). cbn [mbind option_bind head tail].
  destruct (Z.eqb_spec c 125) as [->|Hc125].
  - cbn [mbind option_bind]. eexists _, _. split; [done|]. split; [done|]. split_and!.
    + exists (123 :: w ++ [125]). split; [cbn; by rewrite <- app_assoc|]. split; [|by constructor].
      apply (object_ok_loop init_object 0); [apply init_object_ok|done|constructor].
    + by apply nul_tail in Hn.
    + cbn. rewrite sum_blocks_nil. lia.
  - rewrite length_app in Hl.
    destruct (members_loop_ok parse_value (d + 1) (Hparse Hd) (S (length (c :: r))) (c :: r) init_object 0 m)
      as (rr & obj & m1 & E & Ht & Ho & Ha & Hb & Hr); [lia|done|lia|apply init_object_ok|constructor|done|].
    rewrite E. cbn [mbind option_bind]. cbn [members init_object] in Hb, Hr. rewrite sum_blocks_nil in Hb.
    destruct rr as [ret|[cur n]].
    + eexists _, _. split; [done|]. rewrite destroy_members_eq. split; [done|]. cbn [shift live blocks]. lia.
    + destruct Hr as (-> & Hcur & t & l & Et & Hitems & Em). eexists _, _. split; [done|]. split; [done|]. split_and!.
      * exists (123 :: w ++ t ++ [125]). rewrite Et. split; [cbn; by rewrite <- !app_assoc|].
        split; [by apply object_ok_loop|]. cbn [meaning members]. cbn [map app] in Em. rewrite Em. by constructor.
      * done.
      * cbn [blocks members]. lia.
Qed.

Lemma parse_array_ok s m : NUL ∈ s -> len s < 2 ^ 31 ->
  exists r m', __parse_json_array parse_value s d m = Some (r, m') /\ outcome (91 :: s) m (good_value d) blocks r m'.
Proof.
  intros Hs Hl. unfold __parse_json_array. destruct (Z.eqb_spec d JSON_DEPTH_LIMIT) as [|Hd].
  { eexists _, _. split; [done|]. done. }
  unfold __parse_json_elements.
  destruct (spaces_split s Hs) as (w & c & r & -> & Hw & Hc & -> & Hn). cbn [mbind option_bind head tail].
  destruct (Z.eqb_spec c 93) as [->|Hc93].
  - cbn [mbind option_bind]. eexists _, _. split; [done|]. split; [done|]. split_and!.
    + exists (91 :: w ++ [93]). split; [cbn; by rewrite <- app_assoc|]. split; [|by constructor].
      constructor; [split; [apply NoDup_nil_2|done]|constructor].
    + by apply nul_tail in Hn.
    + cbn. rewrite sum_blocks_nil. lia.
  - rewrite length_app in Hl.
    destruct (elements_loop_ok parse_value (d + 1) (Hparse Hd) (S (length (c :: r))) (c :: r) init_array 0 m)
      as (rr & arr & m1 & E & Ht & Ho & Ha & Hb & Hr); [lia|done|lia|apply NoDup_nil_2|constructor|done|].
    rewrite E. cbn [mbind option_bind]. cbn [elements init_array] in Hb, Hr. rewrite sum_blocks_nil in Hb.
    destruct rr as [ret|[cur n]].
    + eexists _, _. split; [done|]. rewrite destroy_elements_eq. split; [done|]. cbn [shift live blocks]. lia.
    + destruct Hr as (-> & Hcur & t & l & Et & Hitems & Em). eexists _, _. split; [done|]. split; [done|]. split_and!.
      * exists (91 :: w ++ t ++ [93]). rewrite Et. split; [cbn; by rewrite <- !app_assoc|].
        split; [by constructor|]. cbn [meaning elements]. cbn [map app] in Em. rewrite Em. by constructor.
      * done.
      * cbn [blocks elements]. lia.
Qed.

End SoundContainers.

Lemma literal_ok d lit val s m : NUL ∈ s -> (NUL ∉ lit) -> json_ok val -> jtext d lit (meaning val) -> blocks val = 0 ->
  exists r m', parse_literal lit val s m = Some (r, m') /\ outcome s m (good_value d) blocks r m'.
Proof.
  intros Hs Hlit Hok Ht Hb. unfold parse_literal. destruct (strncmp_eq_ok lit s Hs Hlit) as (b & -> & H).
  cbn [mbind option_bind]. destruct b; [|eexists _, _; by split].
  destruct H as [E Hn]; [done|]. eexists _, _. split; [done|]. split; [done|]. split_and!; [|done|lia].
  exists lit. split; [done|]. done.
Qed.

Lemma parse_value_ok fuel : forall d, 0 <= d <= 1024 -> 1025 - d <= Z.of_nat fuel -> parses (__parse_json_value fuel) d.
Proof.
  induction fuel as [|fuel IH]; intros d Hd Hf s m Hs Hl; [lia|]. cbn [__parse_json_value].
  assert (Hin : d <> JSON_DEPTH_LIMIT -> parses (__parse_json_value fuel) (d + 1)).
  { unfold JSON_DEPTH_LIMIT. intros. apply IH; lia. }
  destruct (elem_nul_head s Hs) as (c & s' & -> & Hn). cbn [head tail mbind option_bind].
  assert (Hl' : len s' < 2 ^ 31) by (cbn [length] in Hl; lia).
  destruct (Z.eqb_spec c 34) as [->|]; [apply string_value_ok; [by apply Hn|done]|].
  destruct ((c =? 45) || is_digit c).
  { destruct (number_sound (c :: s') Hs) as [->|(t & dn & r & et & Es & Hnr & Hj & He & Et & Hfo)].
    - cbn [lift bind_parse mbind option_bind]. eexists _, _. by split.
    - rewrite Es, (number_complete t dn r Hj) by (exists et, (d_exp dn); done).
      destruct (decimal_double_total dn) as [v Ev]; [destruct Hj as [? ? ? ? ? [? _] ? _ _]; done..|]. rewrite Ev.
      cbn [lift bind_parse mbind option_bind]. eexists _, _. split; [done|]. split; [done|]. split_and!; [|done|cbn; lia].
      exists t. split; [done|]. split; [constructor|by econstructor]. }
  destruct (Z.eqb_spec c 123) as [->|]; [apply (parse_object_ok _ d Hin); [by apply Hn|done]|].
  destruct (Z.eqb_spec c 91) as [->|]; [apply (parse_array_ok _ d Hin); [by apply Hn|done]|].
  assert (Hlit : forall lit : list Z, Forall (fun c => c <> NUL) lit -> NUL ∉ lit).
  { intros lit H H'. rewrite Forall_forall in H. by apply (H NUL). }
  destruct (c =? 116); [apply literal_ok; [done|apply Hlit; by repeat constructor|constructor|constructor|done]|].
  destruct (c =? 102); [apply literal_ok; [done|apply Hlit; by repeat constructor|constructor|constructor|done]|].
  destruct (c =? 110); [apply literal_ok; [done|apply Hlit; by repeat constructor|constructor|constructor|done]|].
  eexists _, _. by split.
Qed.

(** ** The grammar is accepted *)

(** What may follow a value in a text. *)
Definition delimited (r : list Z) : Prop :=
  exists c r', r = c :: r' /\ (isspace c = true \/ c = 44 \/ c = 125 \/ c = 93 \/ c = NUL).

Lemma delimited_number fs et r : delimited r -> number_follow fs et r.
Proof.
  intros (c & r' & -> & Hc). assert (Hn : is_digit c = false /\ c <> 69 /\ c <> 101 /\ c <> 46)
    by (unfold isspace, is_digit in *; lia).
  destruct Hn as (H1 & H2 & H3 & H4). split; [by exists c, r'|]. intros _. cbn. split_and!; congruence.
Qed.

Lemma delimited_spaces w c r : spaces w -> c = 44 \/ c = 125 \/ c = 93 \/ c = NUL -> delimited (w ++ c :: r).
Proof.
  intros Hw Hc. destruct Hw as [|x w Hx Hw]; [exists c, r; tauto|]. exists x, (w ++ c :: r). auto.
Qed.

Lemma jtext_head d t v : jtext d t v -> exists c t', t = c :: t' /\ isspace c = false /\ c <> 93.
Proof.
  destruct 1 as [? t s|? t n v Hn ?|? w|? w t l|? w|? w t l| | |]; try (eexists _, _; split; [done|]; unfold isspace; lia).
  destruct Hn as [neg ds fs et x (Hd & Hne & _) _ _ _]. destruct ds as [|c ds]; [done|].
  apply Forall_cons in Hd as [Hc _]. destruct neg; eexists _, _; (split; [done|]);
    unfold isspace, is_digit in *; lia.
Qed.

(** [parse_value] accepts the grammar at depth [d] when memory is available. *)
Definition accepts (parse_value : Z -> list Z -> memory -> parse (list Z * json_value)) (d : Z) : Prop :=
  forall t v r m, jtext d t v -> delimited r -> NUL ∈ r -> len (t ++ r) < 2 ^ 31 -> answers m = [] ->
    exists w m', parse_value d (t ++ r) m = Some (inr (r, w), m') /\ meaning w = v /\ answers m' = [].

Lemma alloc_available m : answers m = [] -> alloc m = (true, mk_memory [] (live m + 1)).
Proof. unfold alloc, malloc. by intros ->. Qed.

Lemma length_complete t v r : jchars t v -> len t < 2 ^ 31 ->
  exists k, __json_string_length (t ++ 34 :: r) = Some k /\ 0 <= k /\
    __parse_json_string (t ++ 34 :: r) (k + 1) = Some (inr (r, v)).
Proof.
  intros Ht Hl. destruct (length_loop_complete t v r Ht 0) as (k & E & Hk); [lia..|]. exists k.
  split_and!; [done|lia|]. unfold __parse_json_string. by rewrite (string_loop_complete t v r Ht) by lia.
Qed.

Section Complete.
Context (parse_value : Z -> list Z -> memory -> parse (list Z * json_value)) (d : Z).
Context (Haccept : accepts parse_value d).

(** One turn of the loop over the members. *)
Lemma member_turn t n v c r fuel obj cnt m :
  jmember (jtext d) t (n, v) -> c = 44 \/ c = 125 -> NUL ∈ r -> cnt + len (t ++ c :: r) < 2 ^ 31 -> 0 <= cnt ->
  object_tree_ok obj -> answers m = [] ->
  exists obj' m', object_tree_ok obj' /\ answers m' = [] /\
    map member_meaning (members obj') = map member_meaning (members obj) ++ [(n, v)] /\
    members_loop parse_value (S fuel) (t ++ c :: r) d obj cnt m =
      (if c =? 44 then cursor ← skip_spaces r; members_loop parse_value fuel cursor d obj' (cnt + 1) m'
       else if c =? 125 then Some (inr (r, cnt + 1), obj', m') else Some (inl (-2), obj', m')).
Proof.
  intros Hm Hc Hn Hl Hcnt Ht HA. inversion Hm as [tn n' w1 w2 tv v' w3 Htn Hw1 Hw2 Htv Hw3]; subst n' v' t.
  destruct (jtext_head _ _ _ Htv) as (x & tv' & Ev & Hx & _). 
  assert (E0 : (34 :: tn ++ 34 :: w1 ++ 58 :: w2 ++ tv ++ w3) ++ c :: r =
    34 :: tn ++ 34 :: (w1 ++ 58 :: (w2 ++ tv ++ w3 ++ c :: r))).
  { cbn. rewrite <- !app_assoc. cbn. rewrite <- !app_assoc. cbn. by rewrite <- !app_assoc. }
  rewrite E0 in Hl |- *. cbn [members_loop head tail mbind option_bind Z.eqb Pos.eqb negb]. lengths Hl.
  destruct (length_complete tn n (w1 ++ 58 :: w2 ++ tv ++ w3 ++ c :: r) Htn ltac:(lia)) as (k & -> & Hk & Ep).
  cbn [mbind option_bind]. replace (k <? 0) with false by lia. rewrite alloc_available by done.
  unfold __parse_json_member. rewrite Ep. cbn [lift bind_parse mbind option_bind].
  rewrite skip_spaces_ok by done. cbn [mbind option_bind head tail Z.eqb Pos.eqb negb].
  rewrite Ev. cbn [app]. rewrite skip_spaces_ok by done. rewrite Ev in Htv. cbn [mbind option_bind].
  destruct (Haccept (x :: tv') v (w3 ++ c :: r) (mk_memory [] (live m + 1)) Htv) as (w & m1 & Ew & Ewm & HA1).
  { apply delimited_spaces; [done|tauto]. }
  { apply nul_app. by right. }
  { rewrite !length_app. cbn [length]. rewrite Ev in Hl. cbn [length] in Hl. lia. }
  { done. }
  cbn [app] in Ew. rewrite Ew. cbn [bind_parse mbind option_bind].
  destruct (append_member_ok n w obj Ht) as (o1 & y & E1 & Ht1 & Em & _).
  cbn [pos_prev mbind option_bind] in E1 |- *. rewrite E1. cbn [mbind option_bind]. unfold int_incr.
  replace (cnt =? 2 ^ 31 - 1) with false by lia. cbn [mbind option_bind].
  rewrite skip_spaces_ok by (done || (unfold isspace; lia)). cbn [mbind option_bind head tail].
  exists o1, m1. split_and!; [done|done| |done]. rewrite Em, map_app. cbn. by rewrite Ewm.
Qed.

Lemma members_loop_complete t l : jitems (jmember (jtext d)) t l -> forall r fuel obj cnt m,
  (length (t ++ 125%Z :: r) < fuel)%nat -> NUL ∈ r -> cnt + len (t ++ 125 :: r) < 2 ^ 31 -> 0 <= cnt ->
  object_tree_ok obj -> answers m = [] ->
  exists n obj' m', members_loop parse_value fuel (t ++ 125 :: r) d obj cnt m = Some (inr (r, n), obj', m') /\
    answers m' = [] /\ map member_meaning (members obj') = map member_meaning (members obj) ++ l.
Proof.
  induction 1 as [t [n v] Hi|t [n v] w t' l Hi Hw Hl IH]; intros r fuel obj cnt m Hf Hn Hb Hc Ht HA.
  - destruct fuel as [|fuel]; [lia|].
    destruct (member_turn t n v 125 r fuel obj cnt m Hi ltac:(auto) Hn Hb Hc Ht HA) as (o1 & m1 & _ & HA1 & Em & ->).
    eexists _, _, _. split; [done|]. done.
  - destruct fuel as [|fuel]; [lia|].
    assert (E0 : (t ++ 44 :: w ++ t') ++ 125 :: r = t ++ 44 :: (w ++ t' ++ 125 :: r))
      by (rewrite <- app_assoc; cbn; by rewrite <- app_assoc). rewrite E0 in Hf, Hb |- *.
    destruct (member_turn t n v 44 (w ++ t' ++ 125 :: r) fuel obj cnt m Hi ltac:(auto)) as (o1 & m1 & Ht1 & HA1 & Em & ->);
      [apply nul_app, nul_app; by right|done..|].
    cbn [Z.eqb Pos.eqb]. assert (Hh : exists q, t' = 34 :: q).
    { destruct Hl as [? ? Hi'|? ? ? ? ? Hi' _ _]; destruct Hi'; by eexists. }
    destruct Hh as [q ->]. cbn [app]. rewrite skip_spaces_ok by done. cbn [mbind option_bind].
    lengths Hf. lengths Hb.
    destruct (IH r fuel o1 (cnt + 1) m1) as (k & o2 & m2 & E2 & HA2 & Em2); try done;
      [cbn [app length]; rewrite length_app; cbn [length]; lia|cbn [app length]; rewrite length_app; cbn [length]; lia|lia|].
    cbn [app] in E2. rewrite E2. eexists _, _, _. split; [done|]. split; [done|]. by rewrite Em2, Em, <- app_assoc.
Qed.

(** The same for the elements. *)
Lemma element_turn t v c r fuel arr cnt m :
  jelement (jtext d) t v -> c = 44 \/ c = 93 -> NUL ∈ r -> cnt + len (t ++ c :: r) < 2 ^ 31 -> 0 <= cnt ->
  NoDup (map fst (elements arr)) -> answers m = [] ->
  exists arr' m', NoDup (map fst (elements arr')) /\ answers m' = [] /\
    map (fun x => meaning x.2) (elements arr') = map (fun x => meaning x.2) (elements arr) ++ [v] /\
    elements_loop parse_value (S fuel) (t ++ c :: r) d arr cnt m =
      (if c =? 44 then cursor ← skip_spaces r; elements_loop parse_value fuel cursor d arr' (cnt + 1) m'
       else if c =? 93 then Some (inr (r, cnt + 1), arr', m') else Some (inl (-2), arr', m')).
Proof.
  intros Hm Hc Hn Hl Hcnt Ht HA. destruct Hm as [tv v w Htv Hw]. rewrite <- app_assoc in Hl |- *.
  cbn [elements_loop]. rewrite alloc_available by done. lengths Hl.
  destruct (Haccept tv v (w ++ c :: r) (mk_memory [] (live m + 1)) Htv) as (val & m1 & Ew & Ewm & HA1).
  { apply delimited_spaces; [done|tauto]. }
  { apply nul_app. by right. }
  { rewrite !length_app. cbn [length]. lia. }
  { done. }
  rewrite Ew. cbn [mbind option_bind].
  destruct (append_element_ok val (elements arr) Ht) as (y & E1 & Hy).
  cbn [pos_prev mbind option_bind] in E1 |- *. rewrite E1. cbn [mbind option_bind]. unfold int_incr.
  replace (cnt =? 2 ^ 31 - 1) with false by lia. cbn [mbind option_bind].
  rewrite skip_spaces_ok by (done || (unfold isspace; lia)). cbn [mbind option_bind head tail].
  eexists (mk_array (elements arr ++ [(y, val)]) (asize arr)), m1. split_and!; [|done| |done]; cbn [elements]; rewrite map_app.
  - by apply nodup_snoc.
  - cbn. by rewrite Ewm.
Qed.

Lemma elements_loop_complete t l : jitems (jelement (jtext d)) t l -> forall r fuel arr cnt m,
  (length (t ++ 93%Z :: r) < fuel)%nat -> NUL ∈ r -> cnt + len (t ++ 93 :: r) < 2 ^ 31 -> 0 <= cnt ->
  NoDup (map fst (elements arr)) -> answers m = [] ->
  exists n arr' m', elements_loop parse_value fuel (t ++ 93 :: r) d arr cnt m = Some (inr (r, n), arr', m') /\
    answers m' = [] /\ map (fun x => meaning x.2) (elements arr') = map (fun x => meaning x.2) (elements arr) ++ l.
Proof.
  induction 1 as [t v Hi|t v w t' l Hi Hw Hl IH]; intros r fuel arr cnt m Hf Hn Hb Hc Ht HA.
  - destruct fuel as [|fuel]; [lia|].
    destruct (element_turn t v 93 r fuel arr cnt m Hi ltac:(auto) Hn Hb Hc Ht HA) as (o1 & m1 & _ & HA1 & Em & ->).
    eexists _, _, _. split; [done|]. done.
  - destruct fuel as [|fuel]; [lia|].
    assert (E0 : (t ++ 44 :: w ++ t') ++ 93 :: r = t ++ 44 :: (w ++ t' ++ 93 :: r))
      by (rewrite <- app_assoc; cbn; by rewrite <- app_assoc). rewrite E0 in Hf, Hb |- *.
    destruct (element_turn t v 44 (w ++ t' ++ 93 :: r) fuel arr cnt m Hi ltac:(auto)) as (o1 & m1 & Ht1 & HA1 & Em & ->);
      [apply nul_app, nul_app; by right|done..|].
    cbn [Z.eqb Pos.eqb]. assert (Hh : exists x q, t' = x :: q /\ isspace x = false).
    { destruct Hl as [? ? Hi'|? ? ? ? ? Hi' _ _]; destruct Hi' as [tv ? ? Htv _];
        apply jtext_head in Htv as (x & q & -> & Hx & _); by eexists _, _. }
    destruct Hh as (x & q & -> & Hx). cbn [app]. rewrite skip_spaces_ok by done. cbn [mbind option_bind].
    lengths Hf. lengths Hb.
    destruct (IH r fuel o1 (cnt + 1) m1) as (k & o2 & m2 & E2 & HA2 & Em2); try done;
      [cbn [app length]; rewrite length_app; cbn [length]; lia|cbn [app length]; rewrite length_app; cbn [length]; lia|lia|].
    cbn [app] in E2. rewrite E2. eexists _, _, _. split; [done|]. split; [done|]. by rewrite Em2, Em, <- app_assoc.
Qed.

End Complete.

Lemma string_value_complete t s r m : jchars t s -> len t < 2 ^ 31 -> answers m = [] ->
  exists w m', parse_string_value (t ++ 34 :: r) m = Some (inr (r, w), m') /\ meaning w = VString s /\ answers m' = [].
Proof.
  intros Ht Hl HA. unfold parse_string_value. destruct (length_complete t s r Ht Hl) as (k & -> & Hk & Ep).
  cbn [mbind option_bind]. replace (k <? 0) with false by lia. rewrite alloc_available by done. rewrite Ep.
  cbn [mbind option_bind]. by eexists _, _.
Qed.

Section CompleteContainers.
Context (parse_value : Z -> list Z -> memory -> parse (list Z * json_value)) (d : Z).
Context (Hd : d <> JSON_DEPTH_LIMIT) (Haccept : accepts parse_value (d + 1)).

Lemma object_complete w t l r m :
  spaces w -> (t = [] /\ l = []) \/ jitems (jmember (jtext (d + 1))) t l -> NUL ∈ r ->
  len (w ++ t ++ 125 :: r) < 2 ^ 31 -> answers m = [] ->
  exists val m', __parse_json_object parse_value (w ++ t ++ 125 :: r) d m = Some (inr (r, val), m') /\
    meaning val = VObject l /\ answers m' = [].
Proof.
  intros Hw Hi Hn Hl HA. unfold __parse_json_object. replace (d =? JSON_DEPTH_LIMIT) with false by lia.
  unfold __parse_json_members. destruct Hi as [[-> ->]|Hi].
  { cbn [app]. rewrite skip_spaces_ok by done. cbn [mbind option_bind head tail Z.eqb Pos.eqb]. by eexists _, _. }
  assert (Hh : exists q, t = 34 :: q) by (destruct Hi as [? ? Hi'|? ? ? ? ? Hi' _ _]; destruct Hi'; by eexists).
  destruct Hh as [q ->]. lengths Hl. cbn [app]. rewrite skip_spaces_ok by done. cbn [mbind option_bind head Z.eqb Pos.eqb].
  destruct (members_loop_complete _ _ Haccept _ _ Hi r (S (length (34 :: q ++ 125 :: r))) init_object 0 m)
    as (n & obj & m1 & E & HA1 & Em); [cbn [app]; lia|done|rewrite length_app; cbn [length]; lia|lia|apply init_object_ok|done|].
  cbn [app] in E. rewrite E. cbn [mbind option_bind]. eexists _, _. split; [done|]. split; [|done].
  cbn [meaning members]. by rewrite Em.
Qed.

Lemma array_complete w t l r m :
  spaces w -> (t = [] /\ l = []) \/ jitems (jelement (jtext (d + 1))) t l -> NUL ∈ r ->
  len (w ++ t ++ 93 :: r) < 2 ^ 31 -> answers m = [] ->
  exists val m', __parse_json_array parse_value (w ++ t ++ 93 :: r) d m = Some (inr (r, val), m') /\
    meaning val = VArray l /\ answers m' = [].
Proof.
  intros Hw Hi Hn Hl HA. unfold __parse_json_array. replace (d =? JSON_DEPTH_LIMIT) with false by lia.
  unfold __parse_json_elements. destruct Hi as [[-> ->]|Hi].
  { cbn [app]. rewrite skip_spaces_ok by done. cbn [mbind option_bind head tail Z.eqb Pos.eqb]. by eexists _, _. }
  assert (Hh : exists x q, t = x :: q /\ isspace x = false /\ x <> 93).
  { destruct Hi as [? ? Hi'|? ? ? ? ? Hi' _ _]; destruct Hi' as [tv ? ? Htv _];
      apply jtext_head in Htv as (x & q & -> & Hx & Hx'); by eexists _, _. }
  destruct Hh as (x & q & -> & Hx & Hx93). lengths Hl. cbn [app]. rewrite skip_spaces_ok by done.
  cbn [mbind option_bind head]. replace (x =? 93) with false by lia.
  destruct (elements_loop_complete _ _ Haccept _ _ Hi r (S (length (x :: q ++ 93 :: r))) init_array 0 m)
    as (n & arr & m1 & E & HA1 & Em); [cbn [app]; lia|done|rewrite length_app; cbn [length]; lia|lia|apply NoDup_nil_2|done|].
  cbn [app] in E. rewrite E. cbn [mbind option_bind]. eexists _, _. split; [done|]. split; [|done].
  cbn [meaning elements]. by rewrite Em.
Qed.

End CompleteContainers.

Lemma parse_value_complete fuel : forall d, 0 <= d <= 1024 -> 1025 - d <= Z.of_nat fuel -> accepts (__parse_json_value fuel) d.
Proof.
  induction fuel as [|fuel IH]; intros d Hd Hf t v r m Ht Hr Hn Hl HA; [lia|].
  assert (Hin : d <> JSON_DEPTH_LIMIT -> accepts (__parse_json_value fuel) (d + 1)).
  { unfold JSON_DEPTH_LIMIT. intros. apply IH; lia. }
  cbn [__parse_json_value]. clear IH.
  destruct Ht as [d t s Hs|d t n v Hj Ev|d w Hd' Hw|d w t l Hd' Hw Hi|d w Hd' Hw|d w t l Hd' Hw Hi|d|d|d].
  - cbn [app head tail mbind option_bind Z.eqb Pos.eqb]. rewrite <- app_assoc. cbn [app].
    lengths Hl. apply string_value_complete; [done|lia|done].
  - assert (Hnum : __parse_json_number (t ++ r) = (v ← decimal_double n; Some (inr (r, v)))).
    { apply number_complete; [done|]. destruct Hj as [neg ds fs et x Hds Hfs He Hlen].
      exists et, x. split_and!; try done. by apply delimited_number. }
    assert (Hh : exists c t', t ++ r = c :: t' /\ (c =? 34) = false /\ (c =? 45) || is_digit c = true).
    { destruct Hj as [neg ds fs et x (Hds & Hne & _) _ _ _]. destruct ds as [|c ds]; [done|].
      apply Forall_cons in Hds as [Hc _]. destruct neg; eexists _, _; (split; [done|]); unfold is_digit in *; lia. }
    destruct Hh as (c & t' & E & H1 & H2). rewrite E in Hnum |- *. cbn [head mbind option_bind]. rewrite H1, H2, Hnum, Ev.
    cbn [lift bind_parse mbind option_bind]. by eexists _, _.
  - lengths Hl. cbn. rewrite <- app_assoc. apply (object_complete _ d Hd' (Hin Hd') w [] [] r m); auto.
    cbn [app]. rewrite length_app. cbn [length]. lia.
  - lengths Hl. cbn. rewrite <- !app_assoc. apply (object_complete _ d Hd' (Hin Hd') w t l r m); auto.
    rewrite !length_app. cbn [length]. lia.
  - lengths Hl. cbn. rewrite <- app_assoc. apply (array_complete _ d Hd' (Hin Hd') w [] [] r m); auto.
    cbn [app]. rewrite length_app. cbn [length]. lia.
  - lengths Hl. cbn. rewrite <- !app_assoc. apply (array_complete _ d Hd' (Hin Hd') w t l r m); auto.
    rewrite !length_app. cbn [length]. lia.
  - by eexists _, _.
  - by eexists _, _.
  - by eexists _, _.
Qed.

Section Document.
Context (parse_value : Z -> list Z -> memory -> parse (list Z * json_value)).

Lemma parse_document_ok s m : parses parse_value 0 -> NUL ∈ s -> len s < 2 ^ 31 ->
  exists r m', parse_document parse_value s m = Some (r, m') /\
    match r with
    | Some val => json_ok val /\ jdocument s (meaning val) /\ live m' = live m + 1 + blocks val
    | None => live m' = live m
    end.
Proof.
  intros Hp Hs Hl. unfold parse_document. destruct (alloc_cases m) as [(h & -> & Hh)|(h & -> & Hh)].
  2: { by eexists _, _. }
  destruct (spaces_split s Hs) as (w1 & c & r & -> & Hw1 & Hc & -> & Hn). cbn [mbind option_bind].
  rewrite length_app in Hl. assert (Hl2 : len (c :: r) < 2 ^ 31) by lia.
  destruct (Hp (c :: r) (mk_memory h (live m + 1)) Hn Hl2)
    as (rv & m1 & -> & _ & Hr). cbn [mbind option_bind live] in *. destruct rv as [ret|[cur val]].
  { eexists _, _. split; [done|]. cbn. lia. }
  destruct Hr as ((t & Et & Hok & Ht) & Hcur & Hlive).
  destruct (spaces_split cur Hcur) as (w2 & c2 & r2 & -> & Hw2 & Hc2 & -> & Hn2). cbn [mbind option_bind head].
  destruct (Z.eqb_spec c2 NUL) as [->|]; eexists _, _; (split; [done|]).
  - split_and!; [done| |lia]. exists w1, t, w2, r2. by rewrite Et.
  - rewrite destroy_ok. cbn. lia.
Qed.

Lemma parse_document_complete s m v : accepts parse_value 0 -> len s < 2 ^ 31 -> answers m = [] -> jdocument s v ->
  exists val m', parse_document parse_value s m = Some (Some val, m') /\ meaning val = v.
Proof.
  intros Hp Hl HA (w1 & t & w2 & rest & -> & Hw1 & Ht & Hw2). unfold parse_document. rewrite alloc_available by done.
  destruct (jtext_head _ _ _ Ht) as (x & q & -> & Hx & _). lengths Hl.
  cbn [app]. rewrite skip_spaces_ok by done. cbn [mbind option_bind].
  destruct (Hp (x :: q) v (w2 ++ NUL :: rest) (mk_memory [] (live m + 1)) Ht) as (val & m1 & E & Em & HA1).
  { apply delimited_spaces; auto. }
  { apply nul_app. by left. }
  { rewrite !length_app. cbn [length]. lia. }
  { done. }
  cbn [app] in E. rewrite E. cbn [mbind option_bind]. rewrite skip_spaces_ok by done.
  cbn [mbind option_bind head Z.eqb]. by eexists _, _.
Qed.

End Document.

(** The fuel of [json_value_parse] is enough. *)
Lemma depth_fuel_enough : 1025 - 0 <= Z.of_nat depth_fuel.
Proof. by vm_compute. Qed.

Lemma parse_root_ok : parses (__parse_json_value depth_fuel) 0.
Proof. apply parse_value_ok; [lia|apply depth_fuel_enough]. Qed.
Lemma parse_root_complete : accepts (__parse_json_value depth_fuel) 0.
Proof. apply parse_value_complete; [lia|apply depth_fuel_enough]. Qed.

(** ** The properties *)

(** C11. Safety of the parser: on every NUL-terminated text shorter than two
    gigabytes, whatever allocations fail, [json_value_parse] terminates within
    1025 levels of recursion, reads and writes inside its buffers, and either
    returns a well-formed value of a document of the grammar, owning exactly the
    blocks that were allocated, or returns NULL with everything freed. *)
Theorem json_parse_safe s m :
  NUL ∈ s -> len s < 2 ^ 31 ->
  exists r m', json_value_parse s m = Some (r, m') /\
    match r with
    | Some val => json_ok val /\ jdocument s (meaning val) /\ live m' = live m + 1 + blocks val
    | None => live m' = live m
    end.
Proof. exact (parse_document_ok _ s m parse_root_ok). Qed.

(** C4. Correctness of the parser: when memory is available, the documents
    [json_value_parse] accepts are exactly those of the grammar (at most 1024
    nested containers), and the value it builds is the one the grammar gives. *)
Theorem json_parse_correct s m :
  NUL ∈ s -> len s < 2 ^ 31 -> answers m = [] ->
  (exists val m', json_value_parse s m = Some (Some val, m') /\
     (forall v, jdocument s v <-> meaning val = v)) \/
  ((exists m', json_value_parse s m = Some (None, m')) /\ forall v, ~ jdocument s v).
Proof.
  intros Hs Hl HA.
  pose proof (fun v => parse_document_complete _ s m v parse_root_complete Hl HA) as Hc. fold json_value_parse in Hc.
  destruct (parse_document_ok _ s m parse_root_ok Hs Hl) as (r & m' & E & Hr). fold json_value_parse in E.
  revert Hc E. generalize json_value_parse. intros parse Hc E. destruct r as [val|].
  - left. exists val, m'. split; [done|]. intros v. split; [|intros <-; apply Hr]. intros Hv.
    destruct (Hc v Hv) as (val' & m2 & E' & <-). rewrite E in E'. by injection E' as <-.
  - right. split; [by exists m'|]. intros v Hv. destruct (Hc v Hv) as (val' & m2 & E' & _). congruence.
Qed.

(** ** Witnesses *)

(** [ {"a": [1, true], "a": "b"} ] *)
Definition demo_json : list Z :=
  [32; 123; 34; 97; 34; 58; 32; 91; 49; 44; 32; 116; 114; 117; 101; 93; 44; 34; 97; 34; 58; 34; 98; 34; 125; 0].

Lemma demo_json_nul : NUL ∈ demo_json.
Proof. unfold demo_json. do 25 right. left. Qed.

Definition demo_meaning : jval := VObject [([97], VArray [VNumber (double_of_Z 1); VTrue]); ([97], VString [98])].
Definition observe (e : option (option json_value * memory)) : option (option jval * Z) :=
  match e with
  | Some (Some val, m) => Some (Some (meaning val), live m)
  | Some (None, m) => Some (None, live m)
  | None => None
  end.

Lemma demo_observed : observe (json_value_parse demo_json (mk_memory [] 0)) = Some (Some demo_meaning, 6).
Proof. vm_compute. reflexivity. Qed.

Lemma json_parse_safe_witness :
  exists val m', json_value_parse demo_json (mk_memory [] 0) = Some (Some val, m') /\ json_ok val /\ live m' = 6.
Proof.
  destruct (json_parse_safe demo_json (mk_memory [] 0) demo_json_nul eq_refl) as (r & m' & E & H).
  pose proof demo_observed as D. rewrite E in D. destruct r as [val|]; [|discriminate].
  injection D as D1 D2. exists val, m'. split; [exact E|]. split; [apply H|exact D2].
Defined.

Lemma json_parse_correct_witness : jdocument demo_json demo_meaning.
Proof.
  pose proof demo_observed as D.
  destruct (json_parse_correct demo_json (mk_memory [] 0) demo_json_nul eq_refl eq_refl)
    as [(val & m' & E & H)|[[m' E] _]]; rewrite E in D.
  - apply H. injection D as D _. exact D.
  - discriminate.
Defined.
