(* ===== verification/Series.v ===== *)
(** * The task queue of a series: [SeriesWork] of [src/factory/Workflow.cc]

    The tasks of a series wait in a ring buffer ([queue], [queue_size], [front],
    [back]) that doubles when it is full; [last] runs when the ring is empty.  The
    fields are [int]; an index is used as the code uses it, and the doubling is
    undefined when it leaves the range of [int].  Memory that [new SubTask *[n]] does not
    initialise holds [None].

    [repr s l]: the ring of [s] holds the sequence [l].  [Workflow] works with the
    sequence. *)

From S2P Require Import Prelude RBTree.

Local Open Scope Z_scope.

Record ring := mk_ring {
  queue : list ptr;
  queue_size : Z;
  front : Z;
  back : Z }.

(** [SeriesWork::SeriesWork]: the queue is the member [buf]. *)
Definition new_ring : ring := mk_ring (replicate 4 None) 4 0 0.

Definition q_get (q : list ptr) (i : Z) : option ptr := if 0 <=? i then q !! Z.to_nat i else None.
Definition q_set (q : list ptr) (i : Z) (v : ptr) : option (list ptr) :=
  if (0 <=? i) && (i <? Z.of_nat (length q)) then Some (<[Z.to_nat i := v]> q) else None.

(** The copy loop of [expand_queue]; [fuel] bounds the iterations. *)
Fixpoint expand_loop (fuel : nat) (r : ring) (new : list ptr) (i j : Z) : option (list ptr * Z) :=
  match fuel with
  | O => None
  | S fuel =>
      v ← q_get (queue r) j; new ← q_set new i v;
      let i := i + 1 in
      let j := if j + 1 =? queue_size r then 0 else j + 1 in
      if negb (j =? back r) then expand_loop fuel r new i j else Some (new, i)
  end.

Definition int_max : Z := 2 ^ 31 - 1.

Definition expand_queue (r : ring) : option ring :=
  let size := 2 * queue_size r in
  if int_max <? size then None
  else
    '(q, i) ← expand_loop (S (Z.to_nat (queue_size r))) r (replicate (Z.to_nat size) None) 0 (front r);
    Some (mk_ring q size 0 i).

Definition push_front (task : loc) (r : ring) : option ring :=
  let front := if front r - 1 =? -1 then queue_size r - 1 else front r - 1 in
  q ← q_set (queue r) front (Some task);
  let r := mk_ring q (queue_size r) front (back r) in
  if front =? back r then expand_queue r else Some r.

Definition push_back (task : loc) (r : ring) : option ring :=
  q ← q_set (queue r) (back r) (Some task);
  let back := if back r + 1 =? queue_size r then 0 else back r + 1 in
  let r := mk_ring q (queue_size r) (front r) back in
  if front r =? back then expand_queue r else Some r.

(** The critical section of [pop_task]: the task and the state after it; [last] is the
    member of that name. *)
Definition take_task (r : ring) (last : ptr) : option (ptr * ring * ptr) :=
  if negb (front r =? back r) then
    task ← q_get (queue r) (front r);
    let front := if front r + 1 =? queue_size r then 0 else front r + 1 in
    Some (task, mk_ring (queue r) (queue_size r) front (back r), last)
  else Some (last, r, None).

(** ** The sequence a ring holds *)

(** The index [i] places after [f] in a ring of [n]. *)
Definition ring_at (n f i : nat) : nat := if decide (f + i < n)%nat then (f + i)%nat else (f + i - n)%nat.

Definition holds (q : list ptr) (n f : nat) (l : list loc) : Prop :=
  forall i x, l !! i = Some x -> q !! ring_at n f i = Some (Some x).

(** A ring of [n] cells whose front is at [f]; it is full only inside a push. *)
Record ring_ok (r : ring) (l : list loc) (n f : nat) : Prop := mk_ring_ok {
  rk_size : queue_size r = Z.of_nat n;
  rk_len : length (queue r) = n;
  rk_front : front r = Z.of_nat f;
  rk_fn : (f < n)%nat;
  rk_ln : (length l <= n)%nat;
  rk_back : back r = Z.of_nat (ring_at n f (length l));
  rk_holds : holds (queue r) n f l }.

Definition repr (r : ring) (l : list loc) : Prop :=
  exists n f, ring_ok r l n f /\ (length l < n)%nat.

Ltac ring_lia := unfold ring_at in *; repeat case_decide; lia.

Lemma q_get_nat q i : q_get q (Z.of_nat i) = q !! i.
Proof. unfold q_get. rewrite (proj2 (Z.leb_le 0 _)) by lia. by rewrite Nat2Z.id. Qed.
Lemma q_set_nat q i v : (i < length q)%nat -> q_set q (Z.of_nat i) v = Some (<[i := v]> q).
Proof.
  intros H. unfold q_set. rewrite (proj2 (Z.leb_le 0 _)), (proj2 (Z.ltb_lt _ _)) by lia. by rewrite Nat2Z.id.
Qed.
Lemma of_nat_eqb a b : (Z.of_nat a =? Z.of_nat b) = (a =? b)%nat.
Proof. destruct (Nat.eqb_spec a b), (Z.eqb_spec (Z.of_nat a) (Z.of_nat b)); lia. Qed.
(** The next index of a ring. *)
Lemma ring_next n f i : (0 < n)%nat -> (f < n)%nat -> (i < n)%nat ->
  (if Z.of_nat (ring_at n f i) + 1 =? Z.of_nat n then 0 else Z.of_nat (ring_at n f i) + 1) = Z.of_nat (ring_at n f (S i)).
Proof. intros. destruct (Z.eqb_spec (Z.of_nat (ring_at n f i) + 1) (Z.of_nat n)); ring_lia. Qed.

(** The copy loop unrolls the ring. *)
Lemma expand_loop_ok r l n f : ring_ok r l n f -> length l = n ->
  forall k fuel new, (k < n)%nat -> (n - k < fuel)%nat -> (n <= length new)%nat ->
    (forall i, (i < k)%nat -> new !! i = Some (l !! i)) ->
    exists new', expand_loop fuel r new (Z.of_nat k) (Z.of_nat (ring_at n f k)) = Some (new', Z.of_nat n) /\
      length new' = length new /\ forall i, (i < n)%nat -> new' !! i = Some (l !! i).
Proof.
  intros I Hl k fuel. revert k. induction fuel as [|fuel IH]; intros k new Hk Hf Hn Hp; [lia|]. cbn [expand_loop].
  destruct (lookup_lt_is_Some_2 l k ltac:(lia)) as [x Hx].
  rewrite q_get_nat, (rk_holds _ _ _ _ I k x Hx). cbn [mbind option_bind]. rewrite q_set_nat by lia. cbn [mbind option_bind].
  pose proof (rk_fn _ _ _ _ I). rewrite (rk_size _ _ _ _ I), ring_next by lia. replace (Z.of_nat k + 1) with (Z.of_nat (S k)) by lia.
  rewrite (rk_back _ _ _ _ I), of_nat_eqb, Hl.
  assert (Hp' : forall i, (i < S k)%nat -> <[k := Some x]> new !! i = Some (l !! i)).
  { intros i Hi. destruct (decide (i = k)) as [->|Hne]; [rewrite list_lookup_insert_eq by lia; by rewrite Hx|].
    rewrite list_lookup_insert_ne by done. apply Hp. lia. }
  destruct (Nat.eqb_spec (ring_at n f (S k)) (ring_at n f n)) as [E|E]; cbn [negb].
  - assert (S k = n) as Ek by ring_lia. 
    exists (<[k := Some x]> new). split; [by rewrite Ek|]. split; [apply length_insert|intros i Hi; apply Hp'; lia].
  - assert (S k <> n) by congruence. destruct (IH (S k) (<[k := Some x]> new)) as (new' & E1 & E2 & E3); [lia|lia|by rewrite length_insert|done|].
    exists new'. rewrite E1, E2, length_insert. done.
Qed.

Lemma expand_queue_ok r l n f : ring_ok r l n f -> length l = n -> 2 * Z.of_nat n <= int_max ->
  exists r', expand_queue r = Some r' /\ ring_ok r' l (2 * n) 0.
Proof.
  intros I Hl Hm. unfold expand_queue. rewrite (rk_size _ _ _ _ I), (proj2 (Z.ltb_ge _ _)) by lia.
  pose proof (rk_fn _ _ _ _ I). rewrite (rk_front _ _ _ _ I). replace (Z.to_nat (2 * Z.of_nat n)) with (2 * n)%nat by lia.
  rewrite Nat2Z.id.
  destruct (expand_loop_ok _ _ _ _ I Hl 0 (S n) (replicate (2 * n) None)) as (q & E1 & E2 & E3); [lia|lia|rewrite length_replicate; lia|lia|].
  replace (ring_at n f 0) with f in E1 by ring_lia. change (Z.of_nat 0) with 0 in E1. rewrite E1. cbn [mbind option_bind].
  eexists. split; [done|]. rewrite length_replicate in E2. constructor; cbn [queue_size queue front back]; try lia.
  - ring_lia.
  - intros i x Hx. pose proof (lookup_lt_Some _ _ _ Hx). replace (ring_at (2 * n) 0 i) with i by ring_lia.
    rewrite E3 by lia. by rewrite Hx.
Qed.

Lemma ring_grow r l n f : ring_ok r l n f -> 2 * Z.of_nat n <= int_max -> (0 < length l)%nat ->
  exists r', (if front r =? back r then expand_queue r else Some r) = Some r' /\ repr r' l /\
    (queue_size r' = queue_size r \/ queue_size r' = 2 * len l).
Proof.
  intros I Hm Hl. pose proof (rk_fn _ _ _ _ I). pose proof (rk_ln _ _ _ _ I).
  rewrite (rk_front _ _ _ _ I), (rk_back _ _ _ _ I), of_nat_eqb.
  destruct (Nat.eqb_spec f (ring_at n f (length l))) as [E|E].
  - destruct (expand_queue_ok _ _ _ _ I) as (r' & E' & I'); [ring_lia|done|]. exists r'. split_and!; [done| |].
    + exists (2 * n)%nat, O. split; [done|lia].
    + right. rewrite (rk_size _ _ _ _ I'). ring_lia.
  - exists r. split_and!; [done| |by left]. exists n, f. split; [done|]. ring_lia.
Qed.

Definition room (r : ring) : Prop := 2 * queue_size r <= int_max.

Lemma push_back_ok t r l : repr r l -> room r -> exists r', push_back t r = Some r' /\ repr r' (l ++ [t]) /\
  (queue_size r' = queue_size r \/ queue_size r' = 2 * len (l ++ [t])).
Proof.
  intros (n & f & I & Hl) Hm. unfold room in Hm. rewrite (rk_size _ _ _ _ I) in Hm. pose proof (rk_fn _ _ _ _ I).
  unfold push_back. rewrite (rk_back _ _ _ _ I), q_set_nat by (rewrite (rk_len _ _ _ _ I); ring_lia). cbn [mbind option_bind].
  rewrite (rk_size _ _ _ _ I), ring_next by lia. rewrite <- (rk_size _ _ _ _ I).
  apply (ring_grow (mk_ring _ (queue_size r) (front r) (Z.of_nat (ring_at n f (S (length l))))) _ n f); [|done|rewrite length_app; cbn; lia].
  pose proof (rk_len _ _ _ _ I) as Hlen. constructor; cbn [queue queue_size front back]; try done.
  - by apply I.
  - by rewrite length_insert.
  - by apply I.
  - rewrite length_app. cbn. lia.
  - rewrite length_app. cbn. by rewrite Nat.add_1_r.
  - intros i x Hx. apply lookup_snoc_Some in Hx as [[Hi Hx]|[-> ->]].
    + rewrite list_lookup_insert_ne by ring_lia. by apply (rk_holds _ _ _ _ I).
    + rewrite list_lookup_insert_eq by (rewrite Hlen; ring_lia). done.
Qed.

Lemma push_front_ok t r l : repr r l -> room r -> exists r', push_front t r = Some r' /\ repr r' (t :: l) /\
  (queue_size r' = queue_size r \/ queue_size r' = 2 * len (t :: l)).
Proof.
  intros (n & f & I & Hl) Hm. unfold room in Hm. rewrite (rk_size _ _ _ _ I) in Hm. pose proof (rk_fn _ _ _ _ I).
  unfold push_front. rewrite (rk_size _ _ _ _ I), (rk_front _ _ _ _ I).
  set (g := if decide (f = 0)%nat then (n - 1)%nat else (f - 1)%nat).
  assert (Eg : (if Z.of_nat f - 1 =? -1 then Z.of_nat n - 1 else Z.of_nat f - 1) = Z.of_nat g).
  { unfold g. destruct (Z.eqb_spec (Z.of_nat f - 1) (-1)); case_decide; lia. }
  assert (Hg : (g < n)%nat) by (unfold g; case_decide; lia).
  pose proof (rk_len _ _ _ _ I) as Hlen. rewrite Eg, q_set_nat by lia. cbn [mbind option_bind].
  apply (ring_grow (mk_ring _ (Z.of_nat n) (Z.of_nat g) (back r)) _ n g); [|done|cbn; lia].
  constructor; cbn [queue queue_size front back]; try done.
  - by rewrite length_insert.
  - rewrite (rk_back _ _ _ _ I). f_equal. unfold g. cbn. case_decide; ring_lia.
  - intros [|i] x Hx; cbn in Hx.
    + injection Hx as <-. replace (ring_at n g 0) with g by ring_lia. by rewrite list_lookup_insert_eq by lia.
    + pose proof (lookup_lt_Some _ _ _ Hx). replace (ring_at n g (S i)) with (ring_at n f i) by (unfold g; case_decide; ring_lia).
      rewrite list_lookup_insert_ne by (unfold g; case_decide; ring_lia). by apply (rk_holds _ _ _ _ I).
Qed.

Lemma take_task_ok r l last : repr r l -> exists r', repr r' (tail l) /\ queue_size r' = queue_size r /\
  take_task r last = Some (match l with [] => (last, r', None) | x :: _ => (Some x, r', last) end).
Proof.
  intros (n & f & I & Hl). pose proof (rk_fn _ _ _ _ I). unfold take_task.
  rewrite (rk_front _ _ _ _ I), (rk_back _ _ _ _ I), of_nat_eqb. destruct l as [|x l].
  - cbn [length]. replace (ring_at n f 0) with f by ring_lia. rewrite Nat.eqb_refl. cbn [negb].
    exists r. split_and!; [by exists n, f|done|done].
  - cbn [length] in *. rewrite (proj2 (Nat.eqb_neq _ _)) by ring_lia. cbn [negb]. rewrite q_get_nat.
    pose proof (rk_holds _ _ _ _ I O x eq_refl) as Hx. replace (ring_at n f 0) with f in Hx by ring_lia.
    rewrite Hx. cbn [mbind option_bind].
    eexists. split_and!; [|..|done]; [|done]. exists n, (ring_at n f 1). split; [|cbn; lia].
    rewrite (rk_size _ _ _ _ I). constructor; cbn [queue queue_size front back tail]; try done.
    + apply I.
    + pose proof (ring_next n f 0 ltac:(lia) ltac:(lia) ltac:(lia)) as E. replace (ring_at n f 0) with f in E by ring_lia. exact E.
    + ring_lia.
    + lia.
    + f_equal. ring_lia.
    + intros i y Hy. pose proof (lookup_lt_Some _ _ _ Hy). replace (ring_at n (ring_at n f 1) i) with (ring_at n f (S i)) by ring_lia.
      by apply (rk_holds _ _ _ _ I).
Qed.

(** ** The queue as a whole *)

Inductive qop := OFront (t : loc) | OBack (t : loc) | OPop.

(** Calls on one series: the tasks [pop_task] takes, and the state. *)
Fixpoint run_ring (ops : list qop) (r : ring) (last : ptr) : option (list ptr * ring * ptr) :=
  match ops with
  | [] => Some ([], r, last)
  | OFront t :: ops => r ← push_front t r; run_ring ops r last
  | OBack t :: ops => r ← push_back t r; run_ring ops r last
  | OPop :: ops =>
      '(t, r, last) ← take_task r last;
      '(ts, r, last) ← run_ring ops r last;
      Some (t :: ts, r, last)
  end.

(** The same calls on a sequence of tasks. *)
Fixpoint run_seq (ops : list qop) (l : list loc) (last : ptr) : list ptr * list loc * ptr :=
  match ops with
  | [] => ([], l, last)
  | OFront t :: ops => run_seq ops (t :: l) last
  | OBack t :: ops => run_seq ops (l ++ [t]) last
  | OPop :: ops =>
      match l with
      | [] => let '(ts, l', last') := run_seq ops [] None in (last :: ts, l', last')
      | x :: l => let '(ts, l', last') := run_seq ops l last in (Some x :: ts, l', last')
      end
  end.

Lemma run_ring_ok ops : forall r l last b, repr r l -> queue_size r <= 2 * b + 4 -> len l <= b ->
  2 * (b + len ops) + 4 <= 2 ^ 30 ->
  exists r', run_ring ops r last = Some ((run_seq ops l last).1.1, r', (run_seq ops l last).2) /\
    repr r' (run_seq ops l last).1.2.
Proof.
  induction ops as [|o ops IH]; intros r l last b R Hs Hl Hb; [by exists r|]. cbn [length] in Hb.
  assert (Hr : room r) by (unfold room, int_max; lia).
  destruct o as [t|t|]; cbn [run_ring run_seq].
  - destruct (push_front_ok t r l R Hr) as (r' & E & R' & Hq). rewrite E. cbn [mbind option_bind].
    apply (IH r' (t :: l) last (b + 1)); cbn [length] in *; [done|lia|lia|lia].
  - destruct (push_back_ok t r l R Hr) as (r' & E & R' & Hq). rewrite E. cbn [mbind option_bind].
    rewrite length_app in Hq. cbn [length] in Hq.
    apply (IH r' (l ++ [t]) last (b + 1)); rewrite ?length_app; cbn [length]; [done|lia|lia|lia].
  - destruct (take_task_ok r l last R) as (r' & R' & Hq & E). rewrite E. destruct l as [|x l]; cbn [tail mbind option_bind] in *.
    + destruct (IH r' [] None b R') as (r2 & E2 & R2); [lia|cbn; lia|lia|]. rewrite E2. cbn [mbind option_bind].
      exists r2. destruct (run_seq ops [] None) as [[ts l2] last2]. done.
    + cbn [length] in Hl. destruct (IH r' l last b R') as (r2 & E2 & R2); [lia|lia|lia|]. rewrite E2. cbn [mbind option_bind].
      exists r2. destruct (run_seq ops l last) as [[ts l2] last2]. done.
Qed.

(** The ring buffer of a series is a sequence: whatever is pushed and popped (fewer
    than 2^29 calls, so that doubling stays within [int]), no index is out of range
    and each pop takes the task the sequence has in front, then [last], then none. *)
Theorem series_queue_refines ops last : len ops < 2 ^ 29 - 2 ->
  exists r, run_ring ops new_ring last = Some ((run_seq ops [] last).1.1, r, (run_seq ops [] last).2) /\
    repr r (run_seq ops [] last).1.2.
Proof.
  intros H. apply (run_ring_ok ops new_ring [] last 0); [|cbn; lia..].
  exists 4%nat, O. split; [|cbn; lia]. constructor; cbn; try done; lia.
Qed.

Lemma series_queue_refines_witness :
  exists r, run_ring [OBack 1; OFront 2; OBack 3; OBack 4; OBack 5; OPop; OPop; OPop; OPop; OPop; OPop; OPop] new_ring (Some 9%positive)
    = Some ([Some 2; Some 1; Some 3; Some 4; Some 5; Some 9; None]%positive, r, None) /\ repr r [].
Proof.
  exact (series_queue_refines [OBack 1; OFront 2; OBack 3; OBack 4; OBack 5; OPop; OPop; OPop; OPop; OPop; OPop; OPop]
    (Some 9%positive) eq_refl).
Defined.

(** ** The buffer of a parallel

    [ParallelWork] keeps the first tasks and the series in the two halves of one
    array: [subtasks] is its start, [all_series] its middle. *)

Record pbuf := mk_pbuf { cells : list ptr; buf_size : nat; subtasks_nr : nat }.

(** [ParallelWork::ParallelWork(cb)] *)
Definition new_pbuf : pbuf := mk_pbuf (replicate 8 None) 4 0.

(** [memcpy] of [n] pointers. *)
Definition copy_cells (dst : list ptr) (at_ : nat) (src : list ptr) (from n : nat) : list ptr :=
  take at_ dst ++ take n (drop from src) ++ drop (at_ + n) dst.

Definition expand_buf (b : pbuf) : pbuf :=
  let size := (2 * buf_size b)%nat in
  let buf := replicate (2 * size) None in
  let buf := copy_cells buf 0 (cells b) 0 (subtasks_nr b) in
  let buf := copy_cells buf size (cells b) (buf_size b) (subtasks_nr b) in
  mk_pbuf buf size (subtasks_nr b).

(** [ParallelWork::add_series]; [first] is [series->first]. *)
Definition add_to_buf (series first : loc) (b : pbuf) : pbuf :=
  let b := if (subtasks_nr b =? buf_size b)%nat then expand_buf b else b in
  mk_pbuf (<[subtasks_nr b := Some first]> (<[(buf_size b + subtasks_nr b)%nat := Some series]> (cells b)))
    (buf_size b) (S (subtasks_nr b)).

(** The arrays the members point to. *)
Definition buf_subtasks (b : pbuf) : list ptr := take (subtasks_nr b) (cells b).
Definition buf_series (b : pbuf) : list ptr := take (subtasks_nr b) (drop (buf_size b) (cells b)).
Definition buf_ok (b : pbuf) : Prop := (0 < buf_size b /\ length (cells b) = 2 * buf_size b /\ subtasks_nr b <= buf_size b)%nat.

Lemma expand_buf_ok b : buf_ok b -> buf_ok (expand_buf b) /\ buf_subtasks (expand_buf b) = buf_subtasks b /\
  buf_series (expand_buf b) = buf_series b /\ (subtasks_nr (expand_buf b) < buf_size (expand_buf b))%nat.
Proof.
  intros (H0 & H1 & H2). destruct b as [c bs n]. unfold expand_buf, buf_ok, buf_subtasks, buf_series, copy_cells in *.
  cbn [cells buf_size subtasks_nr] in *. rewrite !drop_0, !take_0. cbn [app]. set (size := (2 * bs)%nat).
  set (X := take n c ++ drop (0 + n) (replicate (2 * size) None)).
  assert (LX : length X = (2 * size)%nat) by (unfold X; rewrite length_app, length_take, length_drop, length_replicate; lia).
  assert (LT : length (take size X) = size) by (rewrite length_take; lia).
  rewrite drop_app_length' by lia. rewrite (take_app_length' (take n (drop bs c))) by (rewrite length_take, length_drop; lia).
  rewrite (take_app_le (take size X)) by lia. rewrite take_take, Nat.min_l by lia.
  assert (TX : take n X = take n c) by (unfold X; apply take_app_length'; rewrite length_take; lia). rewrite TX. split; [|split; [done|split; [done|lia]]].
  rewrite !length_app, LT, length_take, !length_drop, LX. lia.
Qed.

(** A series is added at the end, whether the buffer grows or not. *)
Lemma add_to_buf_ok s f b : buf_ok b -> buf_ok (add_to_buf s f b) /\ buf_subtasks (add_to_buf s f b) = buf_subtasks b ++ [Some f] /\
  buf_series (add_to_buf s f b) = buf_series b ++ [Some s].
Proof.
  intros Hb. unfold add_to_buf.
  assert (H : exists b', (if (subtasks_nr b =? buf_size b)%nat then expand_buf b else b) = b' /\ buf_ok b' /\ buf_subtasks b' = buf_subtasks b /\
    buf_series b' = buf_series b /\ (subtasks_nr b' < buf_size b')%nat).
  { destruct (Nat.eqb_spec (subtasks_nr b) (buf_size b)); [eexists; split; [done|]; by apply expand_buf_ok|].
    exists b. split_and!; try done; [apply Hb..|]. destruct Hb as (_ & _ & ?). lia. }
  destruct H as (b' & -> & (H0 & H1 & H2) & <- & <- & H3). destruct b' as [c bs n]. unfold buf_ok, buf_subtasks, buf_series. cbn in *.
  rewrite !length_insert. split; [lia|]. split.
  - rewrite (take_S_r _ _ (Some f)) by (rewrite list_lookup_insert_eq; [done|rewrite length_insert; lia]).
    rewrite take_insert_ge, take_insert_ge by lia. done.
  - rewrite (take_S_r _ _ (Some s)).
    + f_equal. rewrite drop_insert_lt, drop_insert_ge by lia.
      replace (bs + n - bs)%nat with n by lia. by rewrite take_insert_ge.
    + rewrite lookup_drop, list_lookup_insert_ne by lia. apply list_lookup_insert_eq. lia.
Qed.
