(* ===== verification/Workflow.v ===== *)
(** * Series and parallels: [src/kernel/SubTask.cc], [src/factory/Workflow.cc]

    A task is run by [dispatch] and ends with [subtask_done], which calls [done],
    takes the next task of the series, and, at the end of a series inside a
    parallel, counts down the parallel.  Tasks end on any thread, in any order, and
    delete themselves.

    The objects are two stores: tasks ([tk]; a [ParallelWork] is a task with [subs])
    and series ([sr]).  A thread is a stack of frames; [frame_step] is one step of
    its top frame, a few statements of the source, and [None] where it would use an
    object that is not there.  The tasks of a series are a sequence, which is what
    the ring of [Series] promises.  A task without [subs] is one whose completion
    comes from outside ([running]); its [done] is the one of [WFTimerTask].

    [started], [killed] and [stat] are not fields of the source: they record how far a
    parallel was dispatched or destroyed and what a series is at. *)

From S2P Require Import Prelude RBTree Series.

Local Open Scope nat_scope.

(** ** Objects *)

Inductive status := Fresh | Active | Fin.

#[export] Instance status_eq_dec : EqDecision status.
Proof. solve_decision. Defined.

(** [ParallelTask] and [ParallelWork]; [subtasks_nr] is the length of the lists. *)
Record pobj := mk_pobj {
  subtasks : list loc;
  all_series : list loc;
  nleft : Z;
  started : nat;
  killed : nat }.

(** [SubTask]: [parent], [pointer] (the series). *)
Record tobj := mk_tobj {
  subs : option pobj;
  parent : ptr;
  pointer : ptr }.

(** [SeriesWork]. *)
Record sobj := mk_sobj {
  first : loc;
  last : ptr;
  tasks : list loc;
  canceled : bool;
  finished : bool;
  in_parallel : ptr;
  stat : status }.

(** [running]: tasks whose completion is awaited; [waiting]: parallels that are
    dispatched and wait for their series, the newest first. *)
Record heap := mk_heap {
  tk : gmap loc tobj;
  sr : gmap loc sobj;
  running : list loc;
  waiting : list loc }.

Definition set_tk (m : gmap loc tobj) (h : heap) : heap := mk_heap m (sr h) (running h) (waiting h).
Definition set_sr (m : gmap loc sobj) (h : heap) : heap := mk_heap (tk h) m (running h) (waiting h).
Definition set_running (l : list loc) (h : heap) : heap := mk_heap (tk h) (sr h) l (waiting h).
Definition set_waiting (l : list loc) (h : heap) : heap := mk_heap (tk h) (sr h) (running h) l.

Definition put_task (t : loc) (o : tobj) (h : heap) : heap := set_tk (<[t := o]> (tk h)) h.
Definition free_task (t : loc) (h : heap) : heap := set_tk (delete t (tk h)) h.
Definition put_series (s : loc) (o : sobj) (h : heap) : heap := set_sr (<[s := o]> (sr h)) h.
Definition free_series (s : loc) (h : heap) : heap := set_sr (delete s (sr h)) h.

Definition set_parent (q : ptr) (o : tobj) : tobj := mk_tobj (subs o) q (pointer o).
Definition set_subs (po : pobj) (o : tobj) : tobj := mk_tobj (Some po) (parent o) (pointer o).
Definition set_nleft (n : Z) (po : pobj) : pobj := mk_pobj (subtasks po) (all_series po) n (started po) (killed po).
Definition set_started (i : nat) (po : pobj) : pobj := mk_pobj (subtasks po) (all_series po) (nleft po) i (killed po).
Definition set_killed (i : nat) (po : pobj) : pobj := mk_pobj (subtasks po) (all_series po) (nleft po) (started po) i.
Definition set_tasks (l : list loc) (q : ptr) (o : sobj) : sobj :=
  mk_sobj (first o) q l (canceled o) (finished o) (in_parallel o) (stat o).
Definition set_stat (x : status) (o : sobj) : sobj :=
  mk_sobj (first o) (last o) (tasks o) (canceled o) (finished o) (in_parallel o) x.
Definition set_in_parallel (q : ptr) (o : sobj) : sobj :=
  mk_sobj (first o) (last o) (tasks o) (canceled o) (finished o) q (stat o).
Definition finish (o : sobj) : sobj :=
  mk_sobj (first o) (last o) (tasks o) (canceled o) true (in_parallel o) Fin.
Definition cancel_series (o : sobj) : sobj :=
  mk_sobj (first o) (last o) (tasks o) true (finished o) (in_parallel o) (stat o).

(** ** Threads *)

Inductive frame :=
  | FDispatch (t : loc)                      (* [t->dispatch()] *)
  | FLoop (p : loc) (i n : nat)              (* the loop of [ParallelTask::dispatch], at subtask [i] of [n] *)
  | FDone (t : loc)                          (* the loop of [subtask_done], [cur] is [t] *)
  | FCall (t : loc) (par : ptr)              (* [t->done()], the callback is running; [par] is [parent] *)
  | FPop (s : loc) (par : ptr)               (* [series->pop()] *)
  | FTake (s : loc) (c : bool) (par : ptr)   (* the same, [canceled] is read *)
  | FNext (t : loc) (par : ptr)              (* [done] returned [t] *)
  | FNull (par : ptr)                        (* [done] returned NULL *)
  | FDel (t : loc)                           (* [delete t] *)
  | FKill (p : loc) (i : nat)                (* [~ParallelWork], at series [i] *)
  | FDrain (s : loc) (k : option ptr).       (* the delete loop of [pop] (then [FNull]) or of [dismiss_recursive] *)

(** [SeriesWork::pop_task]. *)
Definition pop_task (s : loc) (h : heap) : option (heap * ptr) :=
  o ← sr h !! s;
  match tasks o with
  | t :: l => Some (put_series s (set_tasks l (last o) o) h, Some t)
  | [] =>
      match last o with
      | Some t => Some (put_series s (set_tasks [] None o) h, Some t)
      | None =>
          Some (match in_parallel o with None => free_series s h | Some _ => put_series s (finish o) h end, None)
      end
  end.

(** [for (i = 0; i < subtasks_nr; i++) delete all_series[i];] *)
Fixpoint free_all (l : list loc) (r : gmap loc sobj) : option (gmap loc sobj) :=
  match l with
  | [] => Some r
  | s :: l => match r !! s with Some _ => free_all l (delete s r) | None => None end
  end.

(** [ParallelTask::dispatch], up to the loop; a task of the other kinds starts. *)
Definition do_dispatch (t : loc) (h : heap) : option (heap * list frame) :=
  o ← tk h !! t;
  match subs o with
  | None => Some (set_running (t :: running h) h, [])
  | Some po =>
      let n := length (subtasks po) in
      let h := put_task t (set_subs (set_nleft (Z.of_nat n) po) o) h in
      if n =? 0 then Some (h, [FDone t]) else Some (set_waiting (t :: waiting h) h, [FLoop t 0 n])
  end.

(** [( *p)->parent = this; ( *p)->dispatch(); } while (++p != end)] *)
Definition do_loop (p : loc) (i n : nat) (h : heap) : option (heap * list frame) :=
  o ← tk h !! p; po ← subs o; x ← subtasks po !! i; ox ← tk h !! x;
  s ← all_series po !! i; so ← sr h !! s;
  let h := put_task x (set_parent (Some p) ox) (put_task p (set_subs (set_started (S i) po) o) h) in
  Some (put_series s (set_stat Active so) h, FDispatch x :: if S i =? n then [] else [FLoop p (S i) n]).

(** The rest of [done] after the callback, up to [series->pop()]. *)
Definition do_call (t : loc) (par : ptr) (h : heap) : option (heap * list frame) :=
  o ← tk h !! t; s ← pointer o;
  r ← match subs o with Some po => free_all (all_series po) (sr h) | None => Some (sr h) end;
  Some (free_task t (set_sr r h), [FPop s par]).

(** [if (__sync_sub_and_fetch(&parent->nleft, 1) == 0) { cur = parent; continue; }] *)
Definition do_null (p : loc) (h : heap) : option (heap * list frame) :=
  o ← tk h !! p; po ← subs o;
  let n := u64 (nleft po - 1) in
  let h := put_task p (set_subs (set_nleft n po) o) h in
  if (n =? 0)%Z then Some (set_waiting (filter (.≠ p) (waiting h)) h, [FDone p]) else Some (h, []).

(** [all_series[i]->in_parallel = NULL; all_series[i]->dismiss_recursive();], and
    at the end the object goes. *)
Definition do_kill (p : loc) (i : nat) (h : heap) : option (heap * list frame) :=
  o ← tk h !! p; po ← subs o;
  match all_series po !! i with
  | None => Some (free_task p h, [])
  | Some s =>
      so ← sr h !! s;
      let h := put_task p (set_subs (set_killed (S i) po) o) h in
      Some (put_series s (set_stat Active (set_in_parallel None so)) h, [FDel (first so); FDrain s None; FKill p (S i)])
  end.

Definition frame_step (f : frame) (h : heap) : option (heap * list frame) :=
  match f with
  | FDispatch t => do_dispatch t h
  | FLoop p i n => do_loop p i n h
  | FDone t => o ← tk h !! t; Some (h, [FCall t (parent o)])
  | FCall t par => do_call t par h
  | FPop s par => o ← sr h !! s; Some (h, [FTake s (canceled o) par])
  | FTake s c par =>
      '(h, r) ← pop_task s h;
      Some (h, match r with
               | None => [FNull par]
               | Some t => if (c : bool) then [FDel t; FDrain s (Some par)] else [FNext t par]
               end)
  | FNext t par => o ← tk h !! t; Some (put_task t (set_parent par o) h, [FDispatch t])
  | FNull None => Some (h, [])
  | FNull (Some p) => do_null p h
  | FDel t =>
      o ← tk h !! t;
      match subs o with None => Some (free_task t h, []) | Some _ => Some (h, [FKill t 0]) end
  | FKill p i => do_kill p i h
  | FDrain s k =>
      '(h, r) ← pop_task s h;
      Some (h, match r with
               | Some t => [FDel t; FDrain s k]
               | None => match k with Some par => [FNull par] | None => [] end
               end)
  end.

(** ** The system: the objects, the threads, and the tasks the client holds *)

Record wsys := mk_wsys {
  hp : heap;
  stacks : list (list frame);
  user : list loc }.

Inductive where_to := ToFront | ToBack | ToLast.
(** [push_front], [push_back], [set_last_task]. *)
Definition put_in (w : where_to) (t : loc) (o : sobj) : sobj :=
  match w with
  | ToFront => set_tasks (t :: tasks o) (last o) o
  | ToBack => set_tasks (tasks o ++ [t]) (last o) o
  | ToLast => set_tasks (tasks o) (Some t) o
  end.
Definition set_pointer (s : loc) (o : tobj) : tobj := mk_tobj (subs o) (parent o) (Some s).
(** [new SeriesWork(first, callback)]. *)
Definition new_series (t : loc) : sobj := mk_sobj t None [] false false None Fresh.
(** [new ParallelWork(callback)]. *)
Definition new_parallel : pobj := mk_pobj [] [] 0 0 0.
(** [ParallelWork::add_series]. *)
Definition add_series (s first : loc) (po : pobj) : pobj :=
  mk_pobj (subtasks po ++ [first]) (all_series po ++ [s]) (nleft po) (started po) (killed po).

(** A client may push to a series it has not started, and in the callback of a task
    to the series of the task. *)
Definition may_push (w : wsys) (s : loc) (o : sobj) : Prop :=
  (stat o = Fresh /\ in_parallel o = None) \/
  (exists t par ot, FCall t par ∈ concat (stacks w) /\ tk (hp w) !! t = Some ot /\ pointer ot = Some s).

Inductive wstep : wsys -> wsys -> Prop :=
  (* a thread *)
  | ws_frame h l1 f st l2 u h' fs :
      frame_step f h = Some (h', fs) ->
      wstep (mk_wsys h (l1 ++ (f :: st) :: l2) u) (mk_wsys h' (l1 ++ (fs ++ st) :: l2) u)
  (* a task completes: a thread calls [subtask_done] *)
  | ws_complete h l1 t l2 st u :
      running h = l1 ++ t :: l2 ->
      wstep (mk_wsys h st u) (mk_wsys (set_running (l1 ++ l2) h) ([FDone t] :: st) u)
  (* the client *)
  | ws_new h st u t po :
      tk h !! t = None -> po = None \/ po = Some new_parallel ->
      wstep (mk_wsys h st u) (mk_wsys (put_task t (mk_tobj po None None) h) st (t :: u))
  | ws_series h st u1 t u2 s o :
      sr h !! s = None -> tk h !! t = Some o ->
      wstep (mk_wsys h st (u1 ++ t :: u2))
        (mk_wsys (put_task t (set_pointer s o) (put_series s (new_series t) h)) st (u1 ++ u2))
  | ws_add h st u p o po s so :
      p ∈ u -> tk h !! p = Some o -> subs o = Some po -> sr h !! s = Some so -> stat so = Fresh -> in_parallel so = None ->
      (len (subtasks po) + 1 < 2 ^ 64)%Z ->
      wstep (mk_wsys h st u)
        (mk_wsys (put_task p (set_subs (add_series s (first so) po) o) (put_series s (set_in_parallel (Some p) so) h)) st u)
  | ws_push h st u1 t u2 s o so w :
      tk h !! t = Some o -> sr h !! s = Some so -> may_push (mk_wsys h st (u1 ++ t :: u2)) s so ->
      (w = ToLast -> last so = None) ->
      wstep (mk_wsys h st (u1 ++ t :: u2))
        (mk_wsys (put_task t (set_pointer s o) (put_series s (put_in w t so) h)) st (u1 ++ u2))
  | ws_cancel h st u s so :
      sr h !! s = Some so -> wstep (mk_wsys h st u) (mk_wsys (put_series s (cancel_series so) h) st u)
  (* [SeriesWork::start], [SeriesWork::dismiss], [dismiss] of a task *)
  | ws_start h st u s so :
      sr h !! s = Some so -> stat so = Fresh -> in_parallel so = None ->
      wstep (mk_wsys h st u) (mk_wsys (put_series s (set_stat Active so) h) ([FDispatch (first so)] :: st) u)
  | ws_dismiss h st u s so :
      sr h !! s = Some so -> stat so = Fresh -> in_parallel so = None ->
      wstep (mk_wsys h st u)
        (mk_wsys (put_series s (set_stat Active so) h) ([FDel (first so); FDrain s None] :: st) u)
  | ws_drop h st u1 t u2 :
      wstep (mk_wsys h st (u1 ++ t :: u2)) (mk_wsys h ([FDel t] :: st) (u1 ++ u2)).

Definition wf_init : wsys := mk_wsys (mk_heap ∅ ∅ [] []) [] [].
Inductive wreach : wsys -> Prop :=
  | wreach_init : wreach wf_init
  | wreach_step a b : wreach a -> wstep a b -> wreach b.

(** ** Ownership *)

(** What holds tasks and series: the frames, the tasks at work, the parallels that
    wait; [IEnd p i] is a parallel that is done, its first [i] series deleted. *)
Inductive item := IRun (t : loc) | IWait (p : loc) | IFrame (f : frame) | IEnd (p : loc) (i : nat).

Definition task_series (m : gmap loc tobj) (t : loc) : list loc :=
  match m !! t with Some o => option_list (pointer o) | None => [] end.
Definition task_par (m : gmap loc tobj) (t : loc) : list loc :=
  match m !! t with Some o => option_list (parent o) | None => [] end.

Definition i_tasks (x : item) : list loc :=
  match x with
  | IRun t | IWait t | IEnd t _ => [t]
  | IFrame (FDispatch t) | IFrame (FDone t) | IFrame (FCall t _) | IFrame (FNext t _) | IFrame (FDel t) | IFrame (FKill t _) => [t]
  | _ => []
  end.
Definition i_series (m : gmap loc tobj) (x : item) : list loc :=
  match x with
  | IRun t | IWait t => task_series m t
  | IFrame (FDispatch t) | IFrame (FDone t) | IFrame (FCall t _) | IFrame (FNext t _) => task_series m t
  | IFrame (FPop s _) | IFrame (FTake s _ _) | IFrame (FDrain s _) => [s]
  | _ => []
  end.
Definition i_par (m : gmap loc tobj) (x : item) : list loc :=
  match x with
  | IRun t | IWait t | IFrame (FDispatch t) | IFrame (FDone t) => task_par m t
  | IFrame (FCall _ q) | IFrame (FPop _ q) | IFrame (FTake _ _ q) | IFrame (FNext _ q) | IFrame (FNull q) => option_list q
  | IFrame (FDrain _ (Some q)) => option_list q
  | _ => []
  end.
Definition i_loop (x : item) : list loc := match x with IFrame (FLoop p _ _) => [p] | _ => [] end.

(** The tasks a series holds. *)
Definition held (o : sobj) : list loc :=
  (if decide (stat o = Fresh) then [first o] else []) ++ tasks o ++ option_list (last o).
Definition all_held (r : gmap loc sobj) : list loc := map_to_list r ≫= (fun p => held p.2).

(** A parallel no series of which was touched. *)
Definition untouched (o : tobj) : Prop := forall po, subs o = Some po -> started po = 0 /\ killed po = 0.
Definition idle (m : gmap loc tobj) (t : loc) (q : ptr) : Prop :=
  exists o, m !! t = Some o /\ pointer o = q /\ parent o = None /\ untouched o.

Definition in_par (r : gmap loc sobj) (s : loc) : option ptr := in_parallel <$> r !! s.

(** A task of a series that is active, inside [q]. *)
Definition token (m : gmap loc tobj) (r : gmap loc sobj) (t : loc) (q : ptr) (P : tobj -> Prop) : Prop :=
  exists o s, m !! t = Some o /\ pointer o = Some s /\ in_par r s = Some q /\ P o.

Definition all_started (o : tobj) : Prop :=
  forall po, subs o = Some po -> started po = length (all_series po) /\ killed po = 0.

Definition item_ok (m : gmap loc tobj) (r : gmap loc sobj) (x : item) : Prop :=
  match x with
  | IRun t => exists q, token m r t q (fun o => subs o = None /\ parent o = q)
  | IWait t => exists q, token m r t q (fun o => parent o = q /\ exists po, subs o = Some po /\ killed po = 0 /\ started po <= length (all_series po))
  | IFrame (FDispatch t) => exists q, token m r t q (fun o => parent o = q /\ untouched o)
  | IFrame (FLoop p i n) => exists o po, m !! p = Some o /\ subs o = Some po /\ started po = i /\ length (all_series po) = n /\ i < n
  | IFrame (FDone t) => exists q, token m r t q (fun o => parent o = q /\ all_started o)
  | IFrame (FCall t q) => token m r t q all_started
  | IFrame (FNext t q) => token m r t q untouched
  | IFrame (FPop s q) | IFrame (FTake s _ q) => in_par r s = Some q
  | IFrame (FNull _) => True
  | IFrame (FDel t) => exists o, m !! t = Some o /\ untouched o
  | IFrame (FKill t i) => exists o po, m !! t = Some o /\ subs o = Some po /\ started po = 0 /\ killed po = i
  | IFrame (FDrain s k) => in_par r s = Some (default None k)
  | IEnd p i => exists o po, m !! p = Some o /\ subs o = Some po /\ started po = length (all_series po) /\ killed po = i
  end.

(** The series of a parallel: those from [killed] on belong to it, those from
    [started] on are not begun. *)
Record par_ok (r : gmap loc sobj) (p : loc) (po : pobj) : Prop := mk_par_ok {
  pk_len : length (subtasks po) = length (all_series po);
  pk_nodup : NoDup (all_series po);
  pk_max : (len (all_series po) < 2 ^ 64)%Z;
  pk_series : forall j s, all_series po !! j = Some s -> killed po <= j ->
    exists o, r !! s = Some o /\ in_parallel o = Some p /\ subtasks po !! j = Some (first o) /\ (stat o = Fresh <-> started po <= j) }.

Definition cnt (p : loc) (l : list loc) : nat := length (filter (p =.) l).

Record inv (m : gmap loc tobj) (r : gmap loc sobj) (F : list item) (U : list loc) : Prop := mk_inv {
  v_nodup : NoDup (U ++ (F ≫= i_tasks) ++ all_held r);
  v_dom : forall t, is_Some (m !! t) <-> t ∈ U ++ (F ≫= i_tasks) ++ all_held r;
  v_snodup : NoDup (F ≫= i_series m);
  v_active : forall s, s ∈ F ≫= i_series m <-> exists o, r !! s = Some o /\ stat o = Active;
  v_user : forall t, t ∈ U -> idle m t None;
  v_held : forall s o, r !! s = Some o -> (forall t, t ∈ held o -> idle m t (Some s)) /\
    (stat o = Fin -> tasks o = [] /\ last o = None /\ in_parallel o <> None /\ finished o = true);
  v_par : forall p o po, m !! p = Some o -> subs o = Some po -> par_ok r p po;
  v_back : forall s o p, r !! s = Some o -> in_parallel o = Some p ->
    exists op po j, m !! p = Some op /\ subs op = Some po /\ all_series po !! j = Some s /\ killed po <= j;
  v_item : forall x, x ∈ F -> item_ok m r x;
  v_loops : NoDup (F ≫= i_loop);
  v_loop : forall p, p ∈ F ≫= i_loop -> IWait p ∈ F;
  v_wait : forall p, p ∈ F ≫= i_par m -> IWait p ∈ F;
  v_count : forall p o po, IWait p ∈ F -> m !! p = Some o -> subs o = Some po ->
    (0 < nleft po < 2 ^ 64)%Z /\ nleft po = (Z.of_nat (length (all_series po) - started po) + Z.of_nat (cnt p (F ≫= i_par m)))%Z /\
    (p ∉ F ≫= i_loop -> started po = length (all_series po)) }.

(** ** Frame rules *)

Lemma cnt_perm p l l' : l ≡ₚ l' -> cnt p l = cnt p l'.
Proof. intros H. unfold cnt. by rewrite H. Qed.
Lemma cnt_here p l : cnt p (p :: l) = S (cnt p l).
Proof. unfold cnt. by rewrite filter_cons_True. Qed.
Lemma cnt_other p q l : p <> q -> cnt p (q :: l) = cnt p l.
Proof. intros H. unfold cnt. by rewrite filter_cons_False. Qed.
Lemma cnt_app p l l' : cnt p (l ++ l') = cnt p l + cnt p l'.
Proof. unfold cnt. by rewrite filter_app, length_app. Qed.
Lemma cnt_pos p l : p ∈ l -> 0 < cnt p l.
Proof.
  intros H. unfold cnt. assert (Hf : p ∈ filter (p =.) l) by (by apply list_elem_of_filter).
  destruct (filter _ l); [by apply not_elem_of_nil in Hf|cbn; lia].
Qed.
Lemma cnt_zero p l : p ∉ l -> cnt p l = 0.
Proof.
  intros H. unfold cnt. destruct (filter (p =.) l) as [|x l'] eqn:E; [done|].
  assert (Hx : x ∈ filter (p =.) l) by (rewrite E; constructor). by apply list_elem_of_filter in Hx as [-> ?].
Qed.

Lemma item_in F x t : x ∈ F -> t ∈ i_tasks x -> t ∈ F ≫= i_tasks.
Proof. intros H1 H2. apply list_elem_of_bind. by exists x. Qed.

Definition same_on (m m' : gmap loc tobj) (F : list item) : Prop := forall t, t ∈ F ≫= i_tasks -> m' !! t = m !! t.

Lemma i_series_same m m' x : (forall t, t ∈ i_tasks x -> m' !! t = m !! t) -> i_series m' x = i_series m x.
Proof.
  intros H. destruct x as [t|t|[]|]; cbn in *; try done; unfold task_series; by rewrite H by constructor.
Qed.
Lemma i_par_same m m' x : (forall t, t ∈ i_tasks x -> m' !! t = m !! t) -> i_par m' x = i_par m x.
Proof.
  intros H. destruct x as [t|t|[]|]; cbn in *; try done; unfold task_par; by rewrite H by constructor.
Qed.
Lemma bind_same {A} (f g : item -> list A) F : (forall x, x ∈ F -> f x = g x) -> F ≫= f = F ≫= g.
Proof.
  induction F as [|x F IH]; intros H; [done|]. cbn. rewrite H by constructor. f_equal. apply IH. intros y Hy. apply H. by constructor.
Qed.
Lemma series_same m m' F : same_on m m' F -> F ≫= i_series m' = F ≫= i_series m.
Proof. intros H. apply bind_same. intros x Hx. apply i_series_same. intros t Ht. apply H. by eapply item_in. Qed.
Lemma par_same m m' F : same_on m m' F -> F ≫= i_par m' = F ≫= i_par m.
Proof. intros H. apply bind_same. intros x Hx. apply i_par_same. intros t Ht. apply H. by eapply item_in. Qed.

(** An item keeps what it knows when its task and the parallel of its series stay. *)
Lemma token_same m m' r r' t q P : token m r t q P -> m' !! t = m !! t ->
  (forall s, s ∈ task_series m t -> in_par r' s = in_par r s) -> token m' r' t q P.
Proof.
  intros (o & s & H1 & H2 & H3 & H4) E Hs. exists o, s. split_and!; [by rewrite E|done| |done].
  rewrite Hs; [done|]. unfold task_series. rewrite H1, H2. constructor.
Qed.
Lemma item_same m m' r r' x : item_ok m r x -> (forall t, t ∈ i_tasks x -> m' !! t = m !! t) ->
  (forall s, s ∈ i_series m x -> in_par r' s = in_par r s) ->
  (forall p i n, x = IFrame (FLoop p i n) -> item_ok m' r' x) -> item_ok m' r' x.
Proof.
  intros H Ht Hs Hl.
  assert (T : forall t q P, i_tasks x = [t] -> i_series m x = task_series m t -> token m r t q P -> token m' r' t q P).
  { intros t q P E1 E2 Hk. eapply token_same; [done|apply Ht; rewrite E1; constructor|by rewrite <- E2]. }
  destruct x as [t|t|[t|p i n|t|t q|s q|s c q|t q|q|t|p i|s k]|p i]; cbn [item_ok] in *.
  - destruct H as [q H]. exists q. by apply T.
  - destruct H as [q H]. exists q. by apply T.
  - destruct H as [q H]. exists q. by apply T.
  - by eapply Hl.
  - destruct H as [q H]. exists q. by apply T.
  - by apply T.
  - rewrite Hs by constructor. done.
  - rewrite Hs by constructor. done.
  - by apply T.
  - done.
  - rewrite Ht by constructor. done.
  - rewrite Ht by constructor. done.
  - rewrite Hs by constructor. done.
  - rewrite Ht by constructor. done.
Qed.

Lemma all_held_insert r s o : r !! s = None -> all_held (<[s := o]> r) ≡ₚ held o ++ all_held r.
Proof. intros H. unfold all_held. by rewrite map_to_list_insert. Qed.
Lemma all_held_lookup r s o : r !! s = Some o -> all_held r ≡ₚ held o ++ all_held (delete s r).
Proof.
  intros H. rewrite <- (all_held_insert (delete s r) s o) by apply lookup_delete_eq. by rewrite insert_delete_id.
Qed.
Lemma all_held_update r s o o' : r !! s = Some o -> all_held (<[s := o']> r) ≡ₚ held o' ++ all_held (delete s r).
Proof. intros H. rewrite <- insert_delete_eq. apply all_held_insert, lookup_delete_eq. Qed.
Lemma all_held_same r s o o' : r !! s = Some o -> held o' = held o -> all_held (<[s := o']> r) ≡ₚ all_held r.
Proof. intros H E. rewrite (all_held_update _ _ _ _ H), (all_held_lookup _ _ _ H). by rewrite E. Qed.
Lemma held_in r s o t : r !! s = Some o -> t ∈ held o -> t ∈ all_held r.
Proof. intros H Ht. rewrite (all_held_lookup _ _ _ H). apply elem_of_app. by left. Qed.
Lemma all_held_in r t : t ∈ all_held r -> exists s o, r !! s = Some o /\ t ∈ held o.
Proof.
  intros H. apply list_elem_of_bind in H as ([s o] & H1 & H2). apply elem_of_map_to_list in H2. eauto.
Qed.

(** The same objects, held by other items. *)
Lemma inv_swap m r F F' U U' : inv m r F U ->
  U' ++ (F' ≫= i_tasks) ≡ₚ U ++ (F ≫= i_tasks) -> F' ≫= i_series m ≡ₚ F ≫= i_series m -> F' ≫= i_par m ≡ₚ F ≫= i_par m ->
  F' ≫= i_loop ≡ₚ F ≫= i_loop -> (forall p, IWait p ∈ F' <-> IWait p ∈ F) -> (forall t, t ∈ U' -> t ∈ U) ->
  (forall x, x ∈ F' -> item_ok m r x) -> inv m r F' U'.
Proof.
  intros I E1 E2 E3 E4 Ew Hu Hi. destruct I as [A1 A2 B1 B2 Us Hd Pr Bk It L1 L2 Wt Ct].
  rewrite app_assoc in A1. setoid_rewrite app_assoc in A2.
  constructor; rewrite ?app_assoc, ?E1, ?E2, ?E3, ?E4; try done.
  - intros t. by rewrite E1.
  - intros s. by rewrite E2.
  - intros t Ht. by apply Us, Hu.
  - intros p. rewrite E4, Ew. apply L2.
  - intros p. rewrite E3, Ew. apply Wt.
  - intros p o po. rewrite Ew, (cnt_perm _ _ _ E3), E4. apply Ct.
Qed.
Lemma inv_perm m r F F' U : F ≡ₚ F' -> inv m r F U -> inv m r F' U.
Proof.
  intros P I. eapply inv_swap; [exact I|by rewrite P..| |done|].
  - intros p. by rewrite P.
  - intros x. rewrite <- P. apply (v_item _ _ _ _ I).
Qed.

(** Items replaced by items that hold the same. *)
Lemma inv_replace m r X Y F U : inv m r (X ++ F) U ->
  (Y ≫= i_tasks) ≡ₚ (X ≫= i_tasks) -> Y ≫= i_series m ≡ₚ X ≫= i_series m -> Y ≫= i_par m ≡ₚ X ≫= i_par m ->
  Y ≫= i_loop ≡ₚ X ≫= i_loop -> (forall p, IWait p ∈ Y <-> IWait p ∈ X) -> (forall x, x ∈ Y -> item_ok m r x) ->
  inv m r (Y ++ F) U.
Proof.
  intros I E1 E2 E3 E4 Ew Hi. eapply inv_swap; [exact I|..]; rewrite ?bind_app, ?E1, ?E2, ?E3, ?E4; try done.
  - intros p. rewrite !elem_of_app, Ew. done.
  - intros x [Hx|Hx]%elem_of_app; [by apply Hi|]. apply (v_item _ _ _ _ I), elem_of_app. by right.
Qed.

(** A task in the hands of an item is nowhere else. *)
Lemma task_alone m r x F U t : inv m r (x :: F) U -> t ∈ i_tasks x ->
  (t ∉ U) /\ (t ∉ F ≫= i_tasks) /\ (t ∉ all_held r) /\ is_Some (m !! t).
Proof.
  intros I Ht. pose proof (v_nodup _ _ _ _ I) as Nd. pose proof (proj2 (v_dom _ _ _ _ I t)) as Dm. cbn in Nd, Dm.
  rewrite !elem_of_app in Dm. apply NoDup_app in Nd as (_ & N1 & Nd). rewrite <- app_assoc in Nd.
  apply NoDup_app in Nd as (_ & N2 & _). split_and!.
  - intros H. apply (N1 _ H). rewrite !elem_of_app. auto.
  - intros H. apply (N2 _ Ht). apply elem_of_app. by left.
  - intros H. apply (N2 _ Ht). apply elem_of_app. by right.
  - apply Dm. auto.
Qed.

Lemma idle_same m m' t q : m' !! t = m !! t -> idle m t q -> idle m' t q.
Proof. intros E (o & H). exists o. by rewrite E. Qed.

(** Another object for a task in hand ([FDel]). *)
Lemma inv_task m r F U t o o' : inv m r (IFrame (FDel t) :: F) U -> m !! t = Some o -> subs o' = subs o ->
  inv (<[t := o']> m) r (IFrame (FDel t) :: F) U.
Proof.
  intros I Ho Es. destruct (task_alone _ _ _ _ _ t I) as (Nu & Nf & Nh & _); [constructor|].
  assert (Sf : same_on m (<[t := o']> m) F) by (intros y Hy; rewrite lookup_insert_ne; [done|by intros ->]).
  pose proof (series_same _ _ _ Sf) as Es1. pose proof (par_same _ _ _ Sf) as Es2.
  assert (Lk : forall p op po, <[t := o']> m !! p = Some op -> subs op = Some po -> exists op', m !! p = Some op' /\ subs op' = Some po).
  { intros p op po. rewrite lookup_insert_Some. intros [[<- <-]|[_ H]] Hs; [exists o; by rewrite <- Es|eauto]. }
  destruct I as [A1 A2 B1 B2 Us Hd Pr Bk It L1 L2 Wt Ct]. constructor; try done.
  - intros y. rewrite <- A2, lookup_insert_is_Some. destruct (decide (t = y)) as [<-|]; [rewrite Ho|]; naive_solver.
  - cbn. by rewrite Es1.
  - cbn. by rewrite Es1.
  - intros y Hy. eapply idle_same; [|by apply Us]. apply lookup_insert_ne. by intros ->.
  - intros s so Hs. split; [|by eapply Hd]. intros y Hy. eapply idle_same; [|by eapply Hd].
    apply lookup_insert_ne. intros ->. by eapply Nh, held_in.
  - intros p op po Hp Hs. destruct (Lk _ _ _ Hp Hs) as (op' & ? & ?). by eapply Pr.
  - intros s so p Hs Hp. destruct (Bk _ _ _ Hs Hp) as (op & po & j & H1 & H2 & H3).
    destruct (decide (t = p)) as [<-|Hne]; [exists o', po, j; rewrite lookup_insert_eq, Es; naive_solver|].
    exists op, po, j. by rewrite lookup_insert_ne.
  - intros x [->|Hx]%elem_of_cons.
    + exists o'. rewrite lookup_insert_eq. split; [done|]. intros po. rewrite Es.
      destruct (It (IFrame (FDel t)) ltac:(constructor)) as (o2 & H2 & H3). assert (o2 = o) as -> by congruence. apply H3.
    + eapply item_same; [apply It; by constructor|..|done|].
      * intros y Hy. apply Sf. by eapply item_in.
      * intros p i n ->. destruct (It (IFrame (FLoop p i n)) ltac:(by constructor)) as (op & po & H1 & H2 & H3).
        cbn. destruct (decide (t = p)) as [<-|Hne]; [exists o', po; rewrite lookup_insert_eq, Es; naive_solver|].
        exists op, po. by rewrite lookup_insert_ne.
  - cbn. rewrite Es2. apply Wt.
  - intros p op po Hp H1 H2. cbn. rewrite Es2. destruct (Lk _ _ _ H1 H2) as (op' & ? & ?). by eapply Ct.
Qed.

(** The end of a task in hand that no series belongs to. *)
Lemma inv_free m r x F U t : inv m r (x :: F) U -> (forall p, x <> IWait p) -> i_tasks x = [t] -> i_series m x = [] ->
  i_par m x = [] -> i_loop x = [] ->
  (forall s o, r !! s = Some o -> in_parallel o <> Some t) -> inv (delete t m) r F U.
Proof.
  intros I Nx E1 E2 E3 E4 Np. destruct (task_alone _ _ _ _ _ t I) as (Nu & Nf & Nh & _); [rewrite E1; constructor|].
  assert (Sf : same_on m (delete t m) F) by (intros y Hy; rewrite lookup_delete_ne; [done|by intros ->]).
  pose proof (series_same _ _ _ Sf) as Es1. pose proof (par_same _ _ _ Sf) as Es2.
  assert (Nw : forall p, IWait p ∈ x :: F -> IWait p ∈ F /\ p <> t).
  { intros p [H|H]%elem_of_cons; [by symmetry in H; apply Nx in H|]. split; [done|]. intros ->. apply Nf. eapply item_in; [exact H|constructor]. }
  destruct I as [A1 A2 B1 B2 Us Hd Pr Bk It L1 L2 Wt Ct].
  assert (C1 : (x :: F) ≫= i_tasks = t :: (F ≫= i_tasks)) by (by rewrite bind_cons, E1).
  assert (C2 : (x :: F) ≫= i_series m = F ≫= i_series m) by (by rewrite bind_cons, E2).
  assert (C3 : (x :: F) ≫= i_par m = F ≫= i_par m) by (by rewrite bind_cons, E3).
  assert (C4 : (x :: F) ≫= i_loop = F ≫= i_loop) by (by rewrite bind_cons, E4).
  rewrite C1 in A1, A2. rewrite C2 in B1, B2. rewrite C3 in Wt, Ct. rewrite C4 in L1, L2, Ct. cbn [app] in *. constructor; rewrite ?Es1, ?Es2; try done.
  - apply NoDup_app in A1 as (N1 & N2 & N3). apply NoDup_cons in N3 as [N3 N4]. apply NoDup_app. split_and!; [done| |done].
    intros y Hy. apply N2 in Hy. by apply not_elem_of_cons in Hy as [_ ?].
  - intros y. rewrite lookup_delete_is_Some, A2, elem_of_app, elem_of_cons, !elem_of_app.
    destruct (decide (t = y)) as [<-|Hne]; [tauto|]. split; [intros [_ [?|[?|?]]]; auto; congruence|tauto].
  - intros y Hy. eapply idle_same; [|by apply Us]. apply lookup_delete_ne. by intros ->.
  - intros s so Hs. split; [|by eapply Hd]. intros y Hy. eapply idle_same; [|by eapply Hd].
    apply lookup_delete_ne. intros ->. by eapply Nh, held_in.
  - intros p op po [_ Hp]%lookup_delete_Some Hs. by eapply Pr.
  - intros s so p Hs Hp. destruct (Bk _ _ _ Hs Hp) as (op & po & j & H1 & H2 & H3). exists op, po, j.
    rewrite lookup_delete_ne; [done|]. intros ->. by eapply Np.
  - intros z Hz. eapply item_same; [apply It; by constructor|..|done|].
    + intros y Hy. apply Sf. by eapply item_in.
    + intros p i n ->. destruct (It (IFrame (FLoop p i n)) ltac:(by constructor)) as (op & po & H1).
      exists op, po. rewrite lookup_delete_ne; [done|]. apply not_eq_sym. apply Nw, L2. apply list_elem_of_bind.
      eexists. split; [|exact Hz]. constructor.
  - intros p Hp. by apply Nw, L2.
  - intros p Hp. by apply Nw, Wt.
  - intros p op po Hp [_ Hm]%lookup_delete_Some Hs. eapply Ct; [by constructor|done|done].
Qed.

(** A series that goes on, or ends inside a parallel. *)
Lemma inv_series m r F F' U s o o' : inv m r F U -> r !! s = Some o ->
  in_parallel o' = in_parallel o -> first o' = first o -> (stat o' = Fresh <-> stat o = Fresh) ->
  (F' ≫= i_tasks) ++ held o' ≡ₚ (F ≫= i_tasks) ++ held o ->
  (F' ≫= i_series m ≡ₚ F ≫= i_series m /\ stat o' = stat o) \/ (F ≫= i_series m ≡ₚ s :: (F' ≫= i_series m) /\ stat o = Active /\ stat o' = Fin) ->
  F' ≫= i_par m ≡ₚ F ≫= i_par m -> F' ≫= i_loop ≡ₚ F ≫= i_loop -> (forall p, IWait p ∈ F' <-> IWait p ∈ F) ->
  (forall t, t ∈ held o' -> idle m t (Some s)) -> (stat o' = Fin -> tasks o' = [] /\ last o' = None /\ in_parallel o' <> None /\ finished o' = true) ->
  (forall x, x ∈ F' -> item_ok m r x) -> inv m (<[s := o']> r) F' U.
Proof.
  intros I Ho Eq Ef Es Et Ha Ep El Ew Hh Hf Hi.
  assert (Eh : forall l, l ++ (F' ≫= i_tasks) ++ all_held (<[s := o']> r) ≡ₚ l ++ (F ≫= i_tasks) ++ all_held r).
  { intros l. rewrite (all_held_update _ _ _ _ Ho), (all_held_lookup _ _ _ Ho), !app_assoc.
    rewrite <- (app_assoc l), <- (app_assoc l (F ≫= _)), Et. by rewrite !app_assoc. }
  assert (Eip : forall s', in_par (<[s := o']> r) s' = in_par r s').
  { intros s'. unfold in_par. destruct (decide (s = s')) as [<-|Hne]; [|by rewrite lookup_insert_ne].
    rewrite lookup_insert_eq, Ho. cbn. by rewrite Eq. }
  destruct I as [A1 A2 B1 B2 Us Hd Pr Bk It L1 L2 Wt Ct]. constructor; rewrite ?El; try done.
  - by rewrite Eh.
  - intros t. by rewrite Eh.
  - destruct Ha as [[-> _]|[E _]]; [done|]. rewrite E in B1. by apply NoDup_cons in B1 as [_ ?].
  - intros s'. destruct Ha as [[Ea Est]|(Ea & Est & Est')].
    + rewrite Ea, B2. destruct (decide (s = s')) as [<-|Hne]; [rewrite lookup_insert_eq, Ho|by rewrite lookup_insert_ne].
      split; intros (z & [= <-] & Hz); eexists; (split; [done|congruence]).
    + rewrite Ea in B1. apply NoDup_cons in B1 as [Nin _]. specialize (B2 s'). rewrite Ea, elem_of_cons in B2.
      destruct (decide (s = s')) as [<-|Hne].
      * rewrite lookup_insert_eq. split; [done|intros (z & [= <-] & Hz); congruence].
      * rewrite lookup_insert_ne, <- B2 by done. split; [by right|intros [?|?]; congruence].
  - intros s' so. rewrite lookup_insert_Some. intros [[<- <-]|[_ H]]; [done|by apply Hd].
  - intros p op po H1 H2. destruct (Pr _ _ _ H1 H2) as [Q1 Q2 Q3 Q4]. constructor; try done.
    intros j s' Hj Hk. destruct (Q4 _ _ Hj Hk) as (so & R1 & R2 & R3 & R4).
    destruct (decide (s = s')) as [<-|Hne]; [|exists so; by rewrite lookup_insert_ne].
    exists o'. assert (so = o) as -> by congruence. rewrite lookup_insert_eq, Eq, Ef, Es. done.
  - intros s' so p. rewrite lookup_insert_Some. intros [[<- <-]|[_ H]]; [rewrite Eq|]; by eapply Bk.
  - intros x Hx. eapply item_same; [by apply Hi|done|intros; apply Eip|].
    intros p i n ->. by apply (Hi _ Hx).
  - intros p. rewrite El, Ew. apply L2.
  - intros p. rewrite Ep, Ew. apply Wt.
  - intros p op po. rewrite Ew, (cnt_perm _ _ _ Ep), El. apply Ct.
Qed.

(** The end of a series that is in no parallel. *)
Lemma inv_series_end m r F F' U s o : inv m r F U -> r !! s = Some o -> in_parallel o = None -> stat o = Active -> held o = [] ->
  F' ≫= i_tasks ≡ₚ F ≫= i_tasks -> F ≫= i_series m ≡ₚ s :: (F' ≫= i_series m) ->
  F' ≫= i_par m ≡ₚ F ≫= i_par m -> F' ≫= i_loop ≡ₚ F ≫= i_loop -> (forall p, IWait p ∈ F' <-> IWait p ∈ F) ->
  (forall x, x ∈ F' -> item_ok m r x) -> inv m (delete s r) F' U.
Proof.
  intros I Ho Hp Ha Hh Et Ea Ep El Ew Hi.
  assert (Eh : all_held (delete s r) ≡ₚ all_held r) by (rewrite (all_held_lookup r s o Ho), Hh; done).
  destruct I as [A1 A2 B1 B2 Us Hd Pr Bk It L1 L2 Wt Ct]. rewrite Ea in B1. apply NoDup_cons in B1 as [Nin B1].
  constructor; rewrite ?El; try done.
  - by rewrite Et, Eh.
  - intros t. by rewrite Et, Eh.
  - intros s'. specialize (B2 s'). rewrite Ea, elem_of_cons in B2. destruct (decide (s = s')) as [<-|Hne].
    + rewrite lookup_delete_eq. split; [done|by intros (? & ? & _)].
    + rewrite lookup_delete_ne, <- B2 by done. split; [by right|intros [?|?]; congruence].
  - intros s' so [_ H]%lookup_delete_Some. by apply Hd.
  - intros p op po H1 H2. destruct (Pr _ _ _ H1 H2) as [Q1 Q2 Q3 Q4]. constructor; try done.
    intros j s' Hj Hk. destruct (Q4 _ _ Hj Hk) as (so & R1 & R2 & R3). exists so.
    rewrite lookup_delete_ne; [done|]. intros ->. congruence.
  - intros s' so p [_ H]%lookup_delete_Some. by apply Bk.
  - intros x Hx. eapply item_same; [by apply Hi|done| |].
    + intros s' Hs'. unfold in_par. rewrite lookup_delete_ne; [done|]. intros ->. apply Nin. apply list_elem_of_bind. by exists x.
    + intros p i n ->. by apply (Hi _ Hx).
  - intros p. rewrite El, Ew. apply L2.
  - intros p. rewrite Ep, Ew. apply Wt.
  - intros p op po. rewrite Ew, (cnt_perm _ _ _ Ep), El. apply Ct.
Qed.

(** A series that was not begun is taken in hand with its first task. *)
Lemma inv_open m r F U s o : inv m r F U -> r !! s = Some o -> stat o = Fresh -> in_parallel o = None ->
  inv m (<[s := set_stat Active o]> r) (IFrame (FDel (first o)) :: IFrame (FDrain s None) :: F) U.
Proof.
  intros I Ho Hf Hp.
  assert (Eh : held o = first o :: held (set_stat Active o)) by (unfold held; cbn; by rewrite decide_True).
  assert (Ef : idle m (first o) (Some s)) by (eapply (v_held _ _ _ _ I); [done|rewrite Eh; constructor]).
  assert (Eip : forall s', in_par (<[s := set_stat Active o]> r) s' = in_par r s').
  { intros s'. unfold in_par. destruct (decide (s = s')) as [<-|Hne]; [|by rewrite lookup_insert_ne].
    by rewrite lookup_insert_eq, Ho. }
  assert (P : forall l, l ++ (first o :: F ≫= i_tasks) ++ all_held (<[s := set_stat Active o]> r) ≡ₚ l ++ (F ≫= i_tasks) ++ all_held r).
  { intros l. rewrite (all_held_update _ _ _ _ Ho), (all_held_lookup r s o Ho), Eh. solve_Permutation. }
  assert (Ns : s ∉ F ≫= i_series m). { rewrite (v_active _ _ _ _ I). intros (z & Hz & Hz'). congruence. }
  destruct I as [A1 A2 B1 B2 Us Hd Pr Bk It L1 L2 Wt Ct]. constructor; try done.
  - change ((_ :: _ :: F) ≫= i_tasks) with (first o :: F ≫= i_tasks). by rewrite P.
  - intros t. change ((_ :: _ :: F) ≫= i_tasks) with (first o :: F ≫= i_tasks). by rewrite P.
  - cbn. by constructor.
  - intros s'. cbn. rewrite elem_of_cons, B2. destruct (decide (s = s')) as [<-|Hne].
    + rewrite lookup_insert_eq. split; [intros _; by eexists|by left].
    + rewrite lookup_insert_ne by done. split; [intros [?|?]; [congruence|done]|by right].
  - intros s' so. rewrite lookup_insert_Some. intros [[<- <-]|[_ H]]; [|by apply Hd]. split; [|done].
    intros t Ht. eapply Hd; [exact Ho|]. rewrite Eh. by constructor.
  - intros p op po H1 H2. destruct (Pr _ _ _ H1 H2) as [Q1 Q2 Q3 Q4]. constructor; try done.
    intros j s' Hj Hk. destruct (Q4 _ _ Hj Hk) as (so & R1 & R2 & R3). exists so.
    rewrite lookup_insert_ne; [done|]. intros ->. congruence.
  - intros s' so p. rewrite lookup_insert_Some. intros [[<- <-]|[_ H]]; [cbn; congruence|by apply Bk].
  - intros x [->|[->|Hx]%elem_of_cons]%elem_of_cons.
    + destruct Ef as (z & ? & _ & _ & ?). by exists z.
    + cbn. rewrite Eip. unfold in_par. rewrite Ho. cbn. by rewrite Hp.
    + eapply item_same; [by apply It|done|intros; apply Eip|]. intros p i n ->. by apply (It _ Hx).
  - intros p Hp'. do 2 (apply elem_of_cons; right). by apply L2.
  - intros p Hp'. do 2 (apply elem_of_cons; right). by apply Wt.
  - intros p op po Hw. do 2 (apply elem_of_cons in Hw as [?|Hw]; [done|]). by apply Ct.
Qed.

(** [new SeriesWork]. *)
Lemma inv_new_series m r F U s t : inv m r (IFrame (FDel t) :: F) U -> r !! s = None -> idle m t (Some s) ->
  inv m (<[s := new_series t]> r) F U.
Proof.
  intros I Hs Hi.
  assert (P : forall l, l ++ (F ≫= i_tasks) ++ all_held (<[s := new_series t]> r) ≡ₚ l ++ ((IFrame (FDel t) :: F) ≫= i_tasks) ++ all_held r).
  { intros l. rewrite all_held_insert by done. cbn. solve_Permutation. }
  assert (Ns : s ∉ F ≫= i_series m). { intros H. apply (v_active _ _ _ _ I) in H as (z & Hz & _). congruence. }
  assert (Hn : forall s' z, r !! s' = Some z -> s' <> s) by (intros s' z Hz ->; congruence).
  destruct I as [A1 A2 B1 B2 Us Hd Pr Bk It L1 L2 Wt Ct]. cbn [mbind list_bind i_series i_par i_loop app] in *.
  assert (Ew : forall p, IWait p ∈ IFrame (FDel t) :: F -> IWait p ∈ F) by (intros p [?|?]%elem_of_cons; done).
  constructor; try done.
  - by rewrite P.
  - intros y. by rewrite P.
  - intros s'. rewrite B2. destruct (decide (s = s')) as [<-|Hne]; [rewrite lookup_insert_eq, Hs|by rewrite lookup_insert_ne].
    split; [by intros (? & ? & _)|by intros (? & [= <-] & ?)].
  - intros s' so. rewrite lookup_insert_Some. intros [[<- <-]|[_ H]]; [|by apply Hd]. split; [|done].
    cbn. by intros y ->%list_elem_of_singleton.
  - intros p op po H1 H2. destruct (Pr _ _ _ H1 H2) as [Q1 Q2 Q3 Q4]. constructor; try done.
    intros j s' Hj Hk. destruct (Q4 _ _ Hj Hk) as (so & R1 & R2). exists so.
    rewrite lookup_insert_ne; [done|]. by eapply not_eq_sym, Hn.
  - intros s' so p. rewrite lookup_insert_Some. intros [[<- <-]|[_ H]]; [done|by apply Bk].
  - intros x Hx. eapply item_same; [apply It; by constructor|done| |].
    + intros s' Hs'. unfold in_par. rewrite lookup_insert_ne; [done|]. intros ->. apply Ns. apply list_elem_of_bind. by exists x.
    + intros p i n ->. apply (It (IFrame (FLoop p i n))). by constructor.
  - intros p Hp. by apply Ew, L2.
  - intros p Hp. by apply Ew, Wt.
  - intros p op po Hp. apply Ct. by constructor.
Qed.

(** [new] of a task or of an empty parallel. *)
Lemma inv_new m r F U t po : inv m r F U -> m !! t = None -> po = None \/ po = Some new_parallel ->
  inv (<[t := mk_tobj po None None]> m) r F (t :: U).
Proof.
  intros I Ht Hpo. assert (Nt : t ∉ U ++ (F ≫= i_tasks) ++ all_held r).
  { intros H. apply (v_dom _ _ _ _ I) in H as [? ?]. congruence. }
  rewrite !not_elem_of_app in Nt. destruct Nt as (Nu & Nf & Nh).
  assert (Sf : same_on m (<[t := mk_tobj po None None]> m) F) by (intros y Hy; rewrite lookup_insert_ne; [done|by intros ->]).
  pose proof (series_same _ _ _ Sf) as Es1. pose proof (par_same _ _ _ Sf) as Es2.
  destruct I as [A1 A2 B1 B2 Us Hd Pr Bk It L1 L2 Wt Ct]. constructor; rewrite ?Es1, ?Es2; try done.
  - cbn. apply NoDup_cons. split; [|done]. rewrite !not_elem_of_app. done.
  - intros y. cbn. rewrite elem_of_cons, <- A2, lookup_insert_is_Some. destruct (decide (t = y)); naive_solver.
  - intros y [->|Hy]%elem_of_cons.
    + eexists. rewrite lookup_insert_eq. split_and!; [done..|]. intros po' E. cbn in E. destruct Hpo as [->| ->]; naive_solver.
    + eapply idle_same; [|by apply Us]. apply lookup_insert_ne. by intros ->.
  - intros s so Hs. split; [|by eapply Hd]. intros y Hy. eapply idle_same; [|by eapply Hd].
    apply lookup_insert_ne. intros ->. by eapply Nh, held_in.
  - intros p op po'. rewrite lookup_insert_Some. intros [[<- <-]|[_ H]]; [|by apply Pr]. cbn. destruct Hpo as [->| ->]; [done|].
    intros [= <-]. constructor; cbn; [done|constructor|lia|done].
  - intros s so p Hs Hp. destruct (Bk _ _ _ Hs Hp) as (op & po' & j & H1 & H2). exists op, po', j.
    rewrite lookup_insert_ne; [done|]. intros ->. congruence.
  - intros x Hx. eapply item_same; [by apply It|..|done|].
    + intros y Hy. apply Sf. by eapply item_in.
    + intros p i n ->. destruct (It _ Hx) as (op & po' & H1 & H2). exists op, po'.
      rewrite lookup_insert_ne; [done|]. intros ->. congruence.
  - intros p op po' Hp. rewrite lookup_insert_ne; [by apply Ct|]. intros ->. apply Nf. eapply item_in; [exact Hp|constructor].
Qed.

(** ** A parallel changes *)

Lemma subs_series m p o po F : m !! p = Some o -> F ≫= i_series (<[p := set_subs po o]> m) = F ≫= i_series m.
Proof.
  intros H. apply bind_same. intros x _. assert (E : forall t, task_series (<[p := set_subs po o]> m) t = task_series m t).
  { intros t. unfold task_series. destruct (decide (p = t)) as [<-|Hne]; [by rewrite lookup_insert_eq, H|by rewrite lookup_insert_ne]. }
  destruct x as [t|t|[]|]; cbn; rewrite ?E; done.
Qed.
Lemma subs_par m p o po F : m !! p = Some o -> F ≫= i_par (<[p := set_subs po o]> m) = F ≫= i_par m.
Proof.
  intros H. apply bind_same. intros x _. assert (E : forall t, task_par (<[p := set_subs po o]> m) t = task_par m t).
  { intros t. unfold task_par. destruct (decide (p = t)) as [<-|Hne]; [by rewrite lookup_insert_eq, H|by rewrite lookup_insert_ne]. }
  destruct x as [t|t|[]|]; cbn; rewrite ?E; done.
Qed.
Lemma subs_dom (m : gmap loc tobj) p o po y : m !! p = Some o -> is_Some (<[p := set_subs po o]> m !! y) <-> is_Some (m !! y).
Proof. intros H. rewrite lookup_insert_is_Some. destruct (decide (p = y)) as [<-|]; [rewrite H|]; naive_solver. Qed.
Lemma subs_idle m p o po t q : m !! p = Some o -> (t = p -> untouched (set_subs po o)) -> idle m t q -> idle (<[p := set_subs po o]> m) t q.
Proof.
  intros H Hu (z & H1 & H2 & H3 & H4). destruct (decide (p = t)) as [<-|Hne]; [|exists z; by rewrite lookup_insert_ne].
  assert (z = o) as -> by congruence. exists (set_subs po o). rewrite lookup_insert_eq. auto.
Qed.

(** The rest of the items when the parallel [p] changes. *)
Lemma items_frame m r r' p o' F : (forall x, x ∈ F -> item_ok m r x) -> (p ∉ F ≫= i_tasks) ->
  (forall s, s ∈ F ≫= i_series m -> in_par r' s = in_par r s) ->
  (forall i n, IFrame (FLoop p i n) ∈ F -> item_ok (<[p := o']> m) r' (IFrame (FLoop p i n))) ->
  forall x, x ∈ F -> item_ok (<[p := o']> m) r' x.
Proof.
  intros It Np Hr Hl x Hx. eapply item_same; [by apply It|..].
  - intros t Ht. apply lookup_insert_ne. intros ->. apply Np. by eapply item_in.
  - intros s Hs. apply Hr. apply list_elem_of_bind. by exists x.
  - intros p' i n ->. destruct (decide (p' = p)) as [->|Hne]; [by apply Hl|].
    destruct (It _ Hx) as (z & po & H). exists z, po. by rewrite lookup_insert_ne.
Qed.

(** Only the count changes. *)
Lemma inv_count m r F F' U p o po n : inv m r F U -> m !! p = Some o -> subs o = Some po ->
  F' ≫= i_tasks ≡ₚ F ≫= i_tasks -> F' ≫= i_series m ≡ₚ F ≫= i_series m ->
  let m' := <[p := set_subs (set_nleft n po) o]> m in
  (forall x, x ∈ F' -> item_ok m' r x) -> NoDup (F' ≫= i_loop) -> (forall q, q ∈ F' ≫= i_loop -> IWait q ∈ F') ->
  (forall q, q ∈ F' ≫= i_par m -> IWait q ∈ F') ->
  (forall q oq pq, IWait q ∈ F' -> m' !! q = Some oq -> subs oq = Some pq ->
    (0 < nleft pq < 2 ^ 64)%Z /\ nleft pq = (Z.of_nat (length (all_series pq) - started pq) + Z.of_nat (cnt q (F' ≫= i_par m)))%Z /\
    (q ∉ F' ≫= i_loop -> started pq = length (all_series pq))) ->
  inv m' r F' U.
Proof.
  intros I Hp Hs E1 E2 m' It' L1' L2' Wt' Ct'. destruct I as [A1 A2 B1 B2 Us Hd Pr Bk It L1 L2 Wt Ct].
  assert (Un : untouched o -> untouched (set_subs (set_nleft n po) o)) by (intros Hu q [= <-]; apply (Hu po Hs)).
  assert (Id : forall t q, idle m t q -> idle m' t q).
  { intros t q Hi. apply subs_idle; [done| |done]. intros ->. apply Un.
    destruct Hi as (z & Hz & _ & _ & Hu). rewrite Hp in Hz. by injection Hz as ->. }
  constructor; unfold m'; rewrite ?(subs_series _ _ _ _ _ Hp), ?(subs_par _ _ _ _ _ Hp); try done.
  - by rewrite E1.
  - intros t. rewrite subs_dom by done. by rewrite E1.
  - by rewrite E2.
  - intros s. by rewrite E2.
  - intros t Ht. by apply Id, Us.
  - intros s so H. split; [|by apply (Hd _ _ H)]. intros t Ht. apply Id. by apply (Hd _ _ H).
  - intros q oq pq. rewrite lookup_insert_Some. intros [[<- <-]|[_ H]] Hq; [|by eapply Pr].
    injection Hq as <-. destruct (Pr _ _ _ Hp Hs). by constructor.
  - intros s so q H1 H2. destruct (Bk _ _ _ H1 H2) as (oq & pq & j & H3 & H4 & H5).
    destruct (decide (p = q)) as [<-|Hne]; [|exists oq, pq, j; by rewrite lookup_insert_ne].
    assert (pq = po) as -> by congruence. exists (set_subs (set_nleft n po) o), (set_nleft n po), j. by rewrite lookup_insert_eq.
Qed.

(** A parallel and one of its series change. *)
Lemma inv_par m r F F' U p o po po' s so so' : inv m r F U -> m !! p = Some o -> subs o = Some po -> r !! s = Some so ->
  let m' := <[p := set_subs po' o]> m in let r' := <[s := so']> r in
  (F' ≫= i_tasks) ++ held so' ≡ₚ (F ≫= i_tasks) ++ held so ->
  (F' ≫= i_series m ≡ₚ F ≫= i_series m /\ stat so' = stat so) \/ (F' ≫= i_series m ≡ₚ s :: (F ≫= i_series m) /\ stat so = Fresh /\ stat so' = Active) ->
  stat so' <> Fin -> in_parallel so = None \/ in_parallel so = Some p -> (forall t, t ∈ held so' -> t ∈ held so) ->
  (p ∈ U \/ p ∈ all_held r -> untouched (set_subs po' o)) -> par_ok r' p po' ->
  in_parallel so' = None \/ in_parallel so' = Some p /\ (exists j, all_series po' !! j = Some s /\ killed po' <= j) ->
  (forall j z, all_series po !! j = Some z -> killed po <= j -> z <> s -> all_series po' !! j = Some z /\ killed po' <= j) ->
  (forall x, x ∈ F' -> item_ok m' r' x) -> NoDup (F' ≫= i_loop) -> (forall q, q ∈ F' ≫= i_loop -> IWait q ∈ F') ->
  (forall q, q ∈ F' ≫= i_par m -> IWait q ∈ F') ->
  (forall q oq pq, IWait q ∈ F' -> m' !! q = Some oq -> subs oq = Some pq ->
    (0 < nleft pq < 2 ^ 64)%Z /\ nleft pq = (Z.of_nat (length (all_series pq) - started pq) + Z.of_nat (cnt q (F' ≫= i_par m)))%Z /\
    (q ∉ F' ≫= i_loop -> started pq = length (all_series pq))) ->
  inv m' r' F' U.
Proof.
  intros I Hp Hs Hso m' r' Et Ea Nf Hin Hsub Un Pk Hin' Hback It' L1' L2' Wt' Ct'.
  destruct I as [A1 A2 B1 B2 Us Hd Pr Bk It L1 L2 Wt Ct].
  assert (P : forall l, l ++ (F' ≫= i_tasks) ++ all_held r' ≡ₚ l ++ (F ≫= i_tasks) ++ all_held r).
  { intros l. unfold r'. rewrite (all_held_update _ _ _ _ Hso), (all_held_lookup r s so Hso), !app_assoc.
    rewrite <- (app_assoc l), <- (app_assoc l (F ≫= _)), Et. by rewrite !app_assoc. }
  constructor; unfold m'; rewrite ?(subs_series _ _ _ _ _ Hp), ?(subs_par _ _ _ _ _ Hp); try done.
  - by rewrite P.
  - intros t. rewrite subs_dom by done. by rewrite P.
  - destruct Ea as [[-> _]|(-> & Hf & _)]; [done|]. constructor; [|done]. rewrite B2. intros (z & ? & ?). congruence.
  - intros z. unfold r'. destruct Ea as [[Ea Est]|(Ea & Est & Est')]; rewrite Ea, ?elem_of_cons, B2;
      (destruct (decide (s = z)) as [<-|Hne]; [rewrite lookup_insert_eq, ?Hso|rewrite lookup_insert_ne by done]).
    + split; intros (y & [= <-] & Hy); eexists; (split; [done|congruence]).
    + done.
    + split; [intros _; eauto|by left].
    + split; [intros [?|?]; [congruence|done]|by right].
  - intros t Ht. apply subs_idle; [done|intros ->; auto|by apply Us].
  - intros z oz. unfold r'. rewrite lookup_insert_Some. intros [[<- <-]|[_ H]].
    + split; [|done]. intros t Ht%Hsub. apply subs_idle; [done|intros ->; apply Un; right; by eapply held_in|by apply (Hd _ _ Hso)].
    + split; [|by apply (Hd _ _ H)]. intros t Ht. apply subs_idle; [done|intros ->; apply Un; right; by eapply held_in|by apply (Hd _ _ H)].
  - intros q oq pq. rewrite lookup_insert_Some. intros [[<- <-]|[Hne H]] Hq; [by injection Hq as <-|].
    destruct (Pr _ _ _ H Hq) as [Q1 Q2 Q3 Q4]. constructor; try done. intros j z Hj Hk.
    destruct (Q4 _ _ Hj Hk) as (oz & R1 & R2 & R3). exists oz. unfold r'. rewrite lookup_insert_ne; [done|].
    intros ->. destruct Hin; congruence.
  - intros z oz q. unfold r'. rewrite lookup_insert_Some. intros [[<- <-]|[Hne H]] Hq.
    + destruct Hin' as [?|[E (j & Hj)]]; [congruence|]. assert (q = p) as -> by congruence.
      exists (set_subs po' o), po', j. by rewrite lookup_insert_eq.
    + destruct (Bk _ _ _ H Hq) as (oq & pq & j & H3 & H4 & H5 & H6).
      destruct (decide (p = q)) as [<-|Hnq]; [|exists oq, pq, j; by rewrite lookup_insert_ne].
      assert (pq = po) as -> by congruence. exists (set_subs po' o), po', j. rewrite lookup_insert_eq. eauto.
Qed.

(** ** The steps of a parallel *)

Lemma in_cons {A} (x y : A) l : x ∈ y :: l -> x <> y -> x ∈ l.
Proof. by intros [?|?]%elem_of_cons ?. Qed.

(** A parallel in hand is counted down by no one. *)
Lemma par_free m r x F U p : inv m r (x :: F) U -> p ∈ i_tasks x -> (forall q, x <> IWait q) ->
  (p ∉ (x :: F) ≫= i_par m) /\ (IWait p ∉ F) /\ (p ∉ (x :: F) ≫= i_loop).
Proof.
  intros I Hp Nx. destruct (task_alone _ _ _ _ _ p I Hp) as (_ & Nf & _).
  assert (Nw : IWait p ∉ F) by (intros H; apply Nf; eapply item_in; [exact H|constructor]).
  split_and!; [|done|]; intros H; [apply (v_wait _ _ _ _ I) in H|apply (v_loop _ _ _ _ I) in H];
    apply in_cons in H; try done; by apply not_eq_sym.
Qed.

Lemma inv_dispatch m r F U p o po : inv m r (IFrame (FDispatch p) :: F) U -> m !! p = Some o -> subs o = Some po ->
  length (subtasks po) <> 0 ->
  inv (<[p := set_subs (set_nleft (Z.of_nat (length (subtasks po))) po) o]> m) r
    (IWait p :: IFrame (FLoop p 0 (length (subtasks po))) :: F) U.
Proof.
  intros I Hp Hs Hn. destruct (par_free _ _ _ _ _ p I) as (N1 & N2 & N3); [constructor|done|].
  destruct (task_alone _ _ _ _ _ p I) as (_ & Nf & _); [constructor|]. pose proof (v_par _ _ _ _ I _ _ _ Hp Hs) as Pk.
  destruct (v_item _ _ _ _ I (IFrame (FDispatch p)) ltac:(constructor)) as (q & o2 & s & H1 & H2 & H3 & H4 & H5).
  assert (o2 = o) as -> by congruence. destruct (H5 _ Hs) as [H6 H7]. pose proof (pk_len _ _ _ Pk) as Hl. pose proof (pk_max _ _ _ Pk) as Hm.
  eapply inv_count; [exact I|done|done|done|done|..].
  - intros x [->|[->|Hx]%elem_of_cons]%elem_of_cons.
    + exists q, (set_subs (set_nleft (Z.of_nat (length (subtasks po))) po) o), s. rewrite lookup_insert_eq.
      split_and!; [done..|]. eexists. split; [done|]. cbn. split; [done|lia].
    + eexists _, _. rewrite lookup_insert_eq. split_and!; [done..|]. lia.
    + eapply (items_frame m r r); [|done|done| |exact Hx].
      * intros y Hy. apply (v_item _ _ _ _ I). by constructor.
      * intros i n Hi. exfalso. apply N3. cbn. apply list_elem_of_bind. eexists. split; [|exact Hi]. constructor.
  - cbn. constructor; [by cbn in N3|]. apply (v_loops _ _ _ _ I).
  - intros y. cbn. intros [->|Hy]%elem_of_cons; [constructor|]. do 2 (apply elem_of_cons; right).
    apply (v_loop _ _ _ _ I) in Hy. by apply in_cons in Hy.
  - intros y Hy. do 2 (apply elem_of_cons; right). eapply in_cons; [by apply (v_wait _ _ _ _ I)|done].
  - intros y oy py Hy. rewrite lookup_insert_Some. intros [[<- <-]|[Hne Hm']] Hpy.
    + injection Hpy as <-. cbn [nleft set_nleft started all_series].
      change (cnt p _) with (cnt p ((IFrame (FDispatch p) :: F) ≫= i_par m)). rewrite (cnt_zero p _ N1), H6.
      split_and!; [lia|lia|lia|]. intros Hl'. exfalso. apply Hl'. cbn. constructor.
    + assert (Hy' : IWait y ∈ IFrame (FDispatch p) :: F) by (apply elem_of_cons; right; do 2 (apply in_cons in Hy; [|congruence]); done).
      destruct (v_count _ _ _ _ I _ _ _ Hy' Hm' Hpy) as (C1 & C2 & C3). split_and!; [lia|lia|done|].
      intros Hl'. apply C3. cbn in Hl' |- *. by apply not_elem_of_cons in Hl' as [_ ?].
Qed.

(** A parallel without series is done at once. *)
Lemma inv_dispatch_empty m r F U p o po : inv m r (IFrame (FDispatch p) :: F) U -> m !! p = Some o -> subs o = Some po ->
  length (subtasks po) = 0 -> inv (<[p := set_subs (set_nleft 0 po) o]> m) r (IFrame (FDone p) :: F) U.
Proof.
  intros I Hp Hs Hn. destruct (par_free _ _ _ _ _ p I) as (N1 & N2 & N3); [constructor|done|].
  destruct (task_alone _ _ _ _ _ p I) as (_ & Nf & _); [constructor|]. pose proof (pk_len _ _ _ (v_par _ _ _ _ I _ _ _ Hp Hs)) as Hl.
  destruct (v_item _ _ _ _ I (IFrame (FDispatch p)) ltac:(constructor)) as (q & o2 & s & H1 & H2 & H3 & H4 & H5).
  assert (o2 = o) as -> by congruence. destruct (H5 _ Hs) as [H6 H7].
  assert (Ew : forall y, IWait y ∈ IFrame (FDispatch p) :: F -> IWait y ∈ IFrame (FDone p) :: F).
  { intros y Hy. apply in_cons in Hy; [|done]. by constructor. }
  eapply inv_count; [exact I|done|done|done|done|..].
  - intros x [->|Hx]%elem_of_cons.
    + exists q, (set_subs (set_nleft 0 po) o), s. rewrite lookup_insert_eq. split_and!; [done..|]. intros y [= <-]. cbn. lia.
    + revert x Hx. eapply (items_frame m r r); [|done|done|].
      * intros y Hy. apply (v_item _ _ _ _ I). by constructor.
      * intros i n Hi. exfalso. apply N3. cbn. apply list_elem_of_bind. eexists. split; [|exact Hi]. constructor.
  - apply (v_loops _ _ _ _ I).
  - intros y Hy. by apply Ew, (v_loop _ _ _ _ I).
  - intros y Hy. by apply Ew, (v_wait _ _ _ _ I).
  - intros y oy py Hy. apply in_cons in Hy; [|done]. rewrite lookup_insert_ne by (by intros ->). apply (v_count _ _ _ _ I). by constructor.
Qed.

(** [__sync_sub_and_fetch(&parent->nleft, 1)] *)
Lemma inv_null m r F U p o po : inv m r (IFrame (FNull (Some p)) :: IWait p :: F) U -> m !! p = Some o -> subs o = Some po ->
  u64 (nleft po - 1) = (nleft po - 1)%Z /\
  inv (<[p := set_subs (set_nleft (nleft po - 1) po) o]> m) r
    ((if (nleft po - 1 =? 0)%Z then IFrame (FDone p) else IWait p) :: F) U.
Proof.
  intros I Hp Hs.
  assert (I' : inv m r (IWait p :: IFrame (FNull (Some p)) :: F) U) by (eapply inv_perm; [|exact I]; constructor).
  destruct (task_alone _ _ _ _ _ p I') as (_ & Nf & _); [constructor|]. cbn in Nf.
  destruct (v_count _ _ _ _ I' p o po ltac:(constructor) Hp Hs) as (C1 & C2 & C3).
  assert (Ec : cnt p ((IWait p :: IFrame (FNull (Some p)) :: F) ≫= i_par m) = S (cnt p ((IWait p :: F) ≫= i_par m))).
  { change ((IWait p :: IFrame (FNull (Some p)) :: F) ≫= i_par m) with (i_par m (IWait p) ++ [p] ++ (F ≫= i_par m)).
    change ((IWait p :: F) ≫= i_par m) with (i_par m (IWait p) ++ (F ≫= i_par m)). rewrite !cnt_app.
    unfold cnt at 2. rewrite filter_cons_True by done. cbn. lia. }
  assert (It : forall x, x ∈ IFrame (FDone p) :: IWait p :: F -> (x = IFrame (FDone p) -> nleft po = 1%Z) ->
    item_ok (<[p := set_subs (set_nleft (nleft po - 1) po) o]> m) r x).
  { destruct (v_item _ _ _ _ I' (IWait p) ltac:(constructor)) as (q & o2 & s & H1 & H2 & H3 & H4 & po2 & H5 & H6 & H7).
    assert (o2 = o) as -> by congruence. assert (po2 = po) as -> by congruence.
    intros x [->|[->|Hx]%elem_of_cons]%elem_of_cons Hd.
    - exists q, (set_subs (set_nleft (nleft po - 1) po) o), s. rewrite lookup_insert_eq. split_and!; [done..|].
      intros y [= <-]. cbn. specialize (Hd eq_refl). lia.
    - exists q, (set_subs (set_nleft (nleft po - 1) po) o), s. rewrite lookup_insert_eq. split_and!; [done..|]. by eexists.
    - eapply (items_frame m r r); [|exact Nf|done| |exact Hx].
      + intros y Hy. apply (v_item _ _ _ _ I). by do 2 constructor.
      + intros i n Hi. destruct (v_item _ _ _ _ I (IFrame (FLoop p i n)) ltac:(by do 2 constructor)) as (z & pz & Z1 & Z2 & Z3).
        assert (z = o) as -> by congruence. assert (pz = po) as -> by congruence. eexists _, _. by rewrite lookup_insert_eq. }
  split; [unfold u64; rewrite Z.mod_small by lia; done|].
  assert (Ct' : forall y oy py, y <> p -> IWait y ∈ F -> m !! y = Some oy -> subs oy = Some py ->
    (0 < nleft py < 2 ^ 64)%Z /\ nleft py = (Z.of_nat (length (all_series py) - started py) + Z.of_nat (cnt y ((IWait p :: F) ≫= i_par m)))%Z /\
    (y ∉ F ≫= i_loop -> started py = length (all_series py))).
  { intros y oy py Hne Hy Hmy Hsy. destruct (v_count _ _ _ _ I' y oy py ltac:(by do 2 constructor) Hmy Hsy) as (D1 & D2 & D3).
    split; [done|]. split; [|done]. rewrite D2. do 2 f_equal.
    change ((IWait p :: IFrame (FNull (Some p)) :: F) ≫= i_par m) with (i_par m (IWait p) ++ [p] ++ (F ≫= i_par m)).
    change ((IWait p :: F) ≫= i_par m) with (i_par m (IWait p) ++ (F ≫= i_par m)). rewrite !cnt_app.
    rewrite (cnt_zero y [p]); [done|]. by intros ?%list_elem_of_singleton. }
  assert (Wt : forall y, y ∈ (IWait p :: F) ≫= i_par m -> IWait y ∈ IWait p :: F).
  { intros y Hy. assert (Hy' : IWait y ∈ IFrame (FNull (Some p)) :: IWait p :: F) by (apply (v_wait _ _ _ _ I); cbn; by right).
    by apply in_cons in Hy'. }
  assert (Lp : forall y, y ∈ F ≫= i_loop -> IWait y ∈ IWait p :: F).
  { intros y Hy. pose proof (v_loop _ _ _ _ I y Hy) as Hy'. by apply in_cons in Hy'. }
  destruct (Z.eqb_spec (nleft po - 1) 0) as [E|E].
  - assert (Np : p ∉ (IWait p :: F) ≫= i_par m).
    { intros H. pose proof (cnt_pos _ _ H). lia. }
    eapply inv_count; [exact I|done|done|done|done|..].
    + intros x [->|Hx]%elem_of_cons; [apply It; [constructor|lia]|]. apply It; [by do 2 constructor|]. intros ->.
      exfalso. apply Nf. eapply item_in; [exact Hx|constructor].
    + apply (v_loops _ _ _ _ I).
    + intros y Hy. assert (Hne : y <> p).
      { intros ->. apply list_elem_of_bind in Hy as ([| |[|p' i n| | | | | | | | |]|] & H1 & H2); try by apply not_elem_of_nil in H1.
        apply list_elem_of_singleton in H1 as <-. apply in_cons in H2; [|done]. destruct (v_item _ _ _ _ I _ (list_elem_of_further _ _ _ (list_elem_of_further _ _ _ H2))) as (z & pz & Z1 & Z2 & Z3 & Z4 & Z5).
        assert (z = o) as -> by congruence. assert (pz = po) as -> by congruence. lia. }
      apply elem_of_cons. right. eapply in_cons; [by apply Lp|congruence].
    + intros y Hy. apply elem_of_cons. right. apply Wt in Hy as Hy'. eapply in_cons; [exact Hy'|]. intros [= ->]. done.
    + intros y oy py Hy Hmy Hsy. apply in_cons in Hy; [|done]. rewrite lookup_insert_Some in Hmy.
      destruct Hmy as [[<- _]|[Hne Hmy]]; [exfalso; apply Nf; eapply item_in; [exact Hy|constructor]|].
      eapply Ct'; [by apply not_eq_sym|done..].
  - eapply inv_count; [exact I|done|done|done|done|..].
    + intros x Hx. apply It; [by apply elem_of_cons; right|]. intros ->. exfalso. apply in_cons in Hx; [|done].
      apply Nf. eapply item_in; [exact Hx|constructor].
    + apply (v_loops _ _ _ _ I).
    + intros y Hy. by apply Lp.
    + done.
    + intros y oy py Hy Hmy Hsy. rewrite lookup_insert_Some in Hmy. destruct Hmy as [[<- <-]|[Hne Hmy]].
      * injection Hsy as <-. cbn [nleft set_nleft started all_series]. split_and!; [lia|lia|lia|]. intros Hl. by apply C3.
      * eapply Ct'; [by apply not_eq_sym| |done..]. apply in_cons in Hy; [done|congruence].
Qed.

(** A series at work inside [p] will count [p] down. *)
Lemma item_par m r x s p : item_ok m r x -> s ∈ i_series m x -> in_par r s = Some (Some p) -> p ∈ i_par m x.
Proof.
  assert (Tk : forall t q P, token m r t q P -> s ∈ task_series m t -> in_par r s = Some (Some p) -> q = Some p).
  { intros t q P (o & s' & H1 & H2 & H3 & _) Hs Hq. unfold task_series in Hs. rewrite H1, H2 in Hs.
    apply list_elem_of_singleton in Hs as ->. congruence. }
  assert (Tp : forall t q P, token m r t q P -> (forall o, P o -> parent o = q) -> task_par m t = option_list q).
  { intros t q P (o & s' & H1 & _ & _ & H4) Hp. unfold task_par. by rewrite H1, (Hp _ H4). }
  destruct x as [t|t|[t|p' i n|t|t q|s' q|s' c q|t q|q|t|p' i|s' k]|p' i]; cbn [item_ok i_series i_par]; intros H Hs Hq;
    try by apply not_elem_of_nil in Hs.
  - destruct H as [q H]. rewrite (Tp _ _ _ H) by naive_solver. rewrite (Tk _ _ _ H Hs Hq). constructor.
  - destruct H as [q H]. rewrite (Tp _ _ _ H) by naive_solver. rewrite (Tk _ _ _ H Hs Hq). constructor.
  - destruct H as [q H]. rewrite (Tp _ _ _ H) by naive_solver. rewrite (Tk _ _ _ H Hs Hq). constructor.
  - destruct H as [q H]. rewrite (Tp _ _ _ H) by naive_solver. rewrite (Tk _ _ _ H Hs Hq). constructor.
  - rewrite (Tk _ _ _ H Hs Hq). constructor.
  - apply list_elem_of_singleton in Hs as ->. rewrite H in Hq. injection Hq as ->. constructor.
  - apply list_elem_of_singleton in Hs as ->. rewrite H in Hq. injection Hq as ->. constructor.
  - rewrite (Tk _ _ _ H Hs Hq). constructor.
  - apply list_elem_of_singleton in Hs as ->. rewrite H in Hq. injection Hq as Hq. destruct k as [q|]; cbn in *; [|done]. rewrite Hq. constructor.
Qed.
Lemma active_par m r F U s p : inv m r F U -> s ∈ F ≫= i_series m -> in_par r s = Some (Some p) -> p ∈ F ≫= i_par m.
Proof.
  intros I (x & H1 & H2)%list_elem_of_bind Hp. apply list_elem_of_bind. exists x. split; [|done].
  eapply item_par; [by apply (v_item _ _ _ _ I)|done..].
Qed.

Lemma nodup_at (l : list loc) i j x y : NoDup l -> l !! i = Some x -> l !! j = Some y -> i <> j -> x <> y.
Proof. intros N H1 H2 Hne ->. apply Hne. by eapply NoDup_lookup. Qed.

(** [ParallelWork::add_series] *)
Lemma inv_add m r F U p o po s so : inv m r F U -> p ∈ U -> m !! p = Some o -> subs o = Some po -> r !! s = Some so ->
  stat so = Fresh -> in_parallel so = None -> (len (subtasks po) + 1 < 2 ^ 64)%Z ->
  inv (<[p := set_subs (add_series s (first so) po) o]> m) (<[s := set_in_parallel (Some p) so]> r) F U.
Proof.
  intros I Hu Hp Hs Hso Hf Hq Hm. pose proof (v_par _ _ _ _ I _ _ _ Hp Hs) as [Q1 Q2 Q3 Q4].
  assert (Un : started po = 0 /\ killed po = 0).
  { destruct (v_user _ _ _ _ I p Hu) as (z & Hz & _ & _ & Hz'). assert (z = o) as -> by congruence. auto. }
  destruct Un as [U1 U2].
  assert (Nf : p ∉ F ≫= i_tasks).
  { pose proof (v_nodup _ _ _ _ I) as Nd. apply NoDup_app in Nd as (_ & Nd & _). intros H. apply (Nd _ Hu). apply elem_of_app. by left. }
  assert (Ns : s ∉ all_series po).
  { intros [j Hj]%list_elem_of_lookup. destruct (Q4 _ _ Hj ltac:(lia)) as (z & Z1 & Z2 & _). congruence. }
  assert (Nw : IWait p ∉ F) by (intros H; apply Nf; eapply item_in; [exact H|constructor]).
  assert (Na : s ∉ F ≫= i_series m). { rewrite (v_active _ _ _ _ I). intros (z & ? & ?). congruence. }
  eapply (inv_par m r F F U p o po _ s so); try done.
  - by left.
  - cbn. by rewrite Hf.
  - by left.
  - intros _ q [= <-]. done.
  - constructor; cbn [subtasks all_series started killed add_series].
    + rewrite !length_app. cbn. lia.
    + apply NoDup_app. split_and!; [done| |apply NoDup_singleton]. intros x Hx ->%list_elem_of_singleton. done.
    + rewrite length_app. cbn. lia.
    + intros j z Hj Hk. apply lookup_snoc_Some in Hj as [[Hlt Hj]|[-> ->]].
      * destruct (Q4 _ _ Hj Hk) as (oz & Z1 & Z2 & Z3 & Z4). exists oz.
        rewrite lookup_insert_ne by (intros ->; by apply Ns; eapply list_elem_of_lookup_2). split; [done|]. split; [done|].
        split; [|done]. by rewrite lookup_app_l by lia.
      * exists (set_in_parallel (Some p) so). rewrite lookup_insert_eq. split; [done|]. split; [done|].
        split; [rewrite <- Q1; by rewrite list_lookup_middle|]. cbn. rewrite Hf. split; [lia|done].
  - right. split; [done|]. exists (length (all_series po)). cbn. rewrite list_lookup_middle by done. split; [done|lia].
  - intros j z Hj Hk Hz. cbn. split; [|lia]. rewrite lookup_app_l; [done|]. by eapply lookup_lt_Some.
  - eapply (items_frame m r); [apply (v_item _ _ _ _ I)|done| |].
    + intros z Hz. unfold in_par. rewrite lookup_insert_ne; [done|by intros ->].
    + intros i n Hl. exfalso. apply Nw. apply (v_loop _ _ _ _ I). apply list_elem_of_bind. eexists. split; [|exact Hl]. constructor.
  - apply (v_loops _ _ _ _ I).
  - apply (v_loop _ _ _ _ I).
  - apply (v_wait _ _ _ _ I).
  - intros q oq pq Hw. rewrite lookup_insert_ne by (by intros ->). by apply (v_count _ _ _ _ I).
Qed.

(** [all_series[i]->in_parallel = NULL] *)
Lemma inv_kill m r F U p i o po s so : inv m r (IFrame (FKill p i) :: F) U -> m !! p = Some o -> subs o = Some po ->
  all_series po !! i = Some s -> r !! s = Some so ->
  stat so = Fresh /\
  inv (<[p := set_subs (set_killed (S i) po) o]> m) (<[s := set_in_parallel None so]> r) (IFrame (FKill p (S i)) :: F) U.
Proof.
  intros I Hp Hs Hi Hso. pose proof (v_par _ _ _ _ I _ _ _ Hp Hs) as [Q1 Q2 Q3 Q4].
  destruct (par_free _ _ _ _ _ p I) as (N1 & N2 & N3); [constructor|done|].
  destruct (task_alone _ _ _ _ _ p I) as (Nu & Nf & Nh & _); [constructor|].
  destruct (v_item _ _ _ _ I (IFrame (FKill p i)) ltac:(constructor)) as (z & pz & Z1 & Z2 & Z3 & Z4).
  assert (z = o) as -> by congruence. assert (pz = po) as -> by congruence. clear Z1 Z2.
  destruct (Q4 _ _ Hi ltac:(lia)) as (so2 & S1 & S2 & S3 & S4). assert (so2 = so) as -> by congruence.
  assert (Hf : stat so = Fresh) by (apply S4; lia). split; [done|].
  assert (Na : s ∉ F ≫= i_series m). { intros H. apply (v_active _ _ _ _ I) in H as (y & ? & ?). congruence. }
  assert (Ex : forall q, IWait q ∈ IFrame (FKill p i) :: F -> IWait q ∈ IFrame (FKill p (S i)) :: F).
  { intros q Hq. apply in_cons in Hq; [|done]. by constructor. }
  eapply (inv_par m r _ _ U p o po _ s so); [exact I|done|done|done|..]; try done.
  - by left.
  - cbn. by rewrite Hf.
  - by right.
  - by intros [?|?].
  - constructor; cbn [subtasks all_series started killed set_killed]; try done.
    intros j z Hj Hk. destruct (Q4 _ _ Hj ltac:(lia)) as (oz & O1 & O2 & O3). exists oz.
    rewrite lookup_insert_ne; [done|]. eapply nodup_at; [exact Q2|exact Hi|exact Hj|lia].
  - by left.
  - intros j z Hj Hk Hz. split; [done|]. cbn. destruct (decide (j = i)) as [->|]; [congruence|lia].
  - intros x [->|Hx]%elem_of_cons.
    + eexists _, _. rewrite lookup_insert_eq. done.
    + revert x Hx. eapply (items_frame m r); [|done| |].
      * intros y Hy. apply (v_item _ _ _ _ I). by constructor.
      * intros z Hz. unfold in_par. rewrite lookup_insert_ne; [done|by intros ->].
      * intros k n Hl. exfalso. apply N3. apply list_elem_of_bind. exists (IFrame (FLoop p k n)). split; [constructor|by constructor].
  - apply (v_loops _ _ _ _ I).
  - intros q Hq. apply Ex. by apply (v_loop _ _ _ _ I).
  - intros q Hq. apply Ex. by apply (v_wait _ _ _ _ I).
  - intros q oq pq Hw. apply in_cons in Hw; [|done]. rewrite lookup_insert_ne by (by intros ->). apply (v_count _ _ _ _ I). by constructor.
Qed.

(** The loop of [ParallelTask::dispatch] begins the series [i]. *)
Lemma inv_loop m r F U p i n o po s so : inv m r (IFrame (FLoop p i n) :: IWait p :: F) U -> m !! p = Some o -> subs o = Some po ->
  all_series po !! i = Some s -> r !! s = Some so ->
  inv (<[p := set_subs (set_started (S i) po) o]> m) (<[s := set_stat Active so]> r)
    (IFrame (FDel (first so)) :: IFrame (FDrain s (Some (Some p))) :: IWait p :: (if S i =? n then [] else [IFrame (FLoop p (S i) n)]) ++ F) U.
Proof.
  intros I Hp Hs Hi Hso. pose proof (v_par _ _ _ _ I _ _ _ Hp Hs) as [Q1 Q2 Q3 Q4].
  assert (I' : inv m r (IWait p :: IFrame (FLoop p i n) :: F) U) by (eapply inv_perm; [|exact I]; constructor).
  destruct (task_alone _ _ _ _ _ p I') as (Nu & Nf & Nh & _); [constructor|]. cbn in Nf.
  destruct (v_item _ _ _ _ I (IFrame (FLoop p i n)) ltac:(constructor)) as (z & pz & Z1 & Z2 & Z3 & Z4 & Z5).
  assert (z = o) as -> by congruence. assert (pz = po) as -> by congruence. clear Z1 Z2.
  destruct (v_item _ _ _ _ I' (IWait p) ltac:(constructor)) as (q & z & w & W1 & W2 & W3 & W4 & pz & W5 & W6 & W7).
  assert (z = o) as -> by congruence. assert (pz = po) as -> by congruence. clear W1 W5.
  destruct (v_count _ _ _ _ I p o po ltac:(do 2 constructor) Hp Hs) as (C1 & C2 & C3).
  destruct (Q4 _ _ Hi ltac:(lia)) as (so2 & S1 & S2 & S3 & S4). assert (so2 = so) as -> by congruence.
  assert (Hf : stat so = Fresh) by (apply S4; lia).
  assert (Eh : held so = first so :: held (set_stat Active so)) by (unfold held; cbn; by rewrite decide_True).
  assert (Idf : idle m (first so) (Some s)) by (eapply (v_held _ _ _ _ I); [done|rewrite Eh; constructor]).
  assert (Nfp : first so <> p) by (intros E; apply Nh; eapply held_in; [exact Hso|rewrite Eh, E; constructor]).
  pose proof (v_loops _ _ _ _ I) as Nl. cbn in Nl. apply NoDup_cons in Nl as [Nl1 Nl2].
  set (L := if S i =? n then [] else [IFrame (FLoop p (S i) n)]).
  assert (L0 : forall A (f : item -> list A), (forall a b c, f (IFrame (FLoop a b c)) = []) -> L ≫= f = []).
  { intros A f Hf'. unfold L. destruct (S i =? n); cbn; [done|]. by rewrite Hf'. }
  assert (Ew : forall y, IWait y ∈ IFrame (FLoop p i n) :: IWait p :: F ->
    IWait y ∈ IFrame (FDel (first so)) :: IFrame (FDrain s (Some (Some p))) :: IWait p :: L ++ F).
  { intros y Hy. apply in_cons in Hy; [|done]. do 2 (apply elem_of_cons; right). apply elem_of_cons in Hy as [->|Hy]; [constructor|].
    apply elem_of_cons; right. apply elem_of_app. by right. }
  assert (El : forall y, y ∈ (L ++ F) ≫= i_loop -> y ∈ (IFrame (FLoop p i n) :: IWait p :: F) ≫= i_loop).
  { intros y. rewrite bind_app, elem_of_app. cbn. intros [Hy|Hy]; [|by right]. unfold L in Hy. destruct (S i =? n); [by apply not_elem_of_nil in Hy|].
    cbn in Hy. apply list_elem_of_singleton in Hy as ->. constructor. }
  assert (Ep : (IFrame (FDel (first so)) :: IFrame (FDrain s (Some (Some p))) :: IWait p :: L ++ F) ≫= i_par m
    = p :: (IFrame (FLoop p i n) :: IWait p :: F) ≫= i_par m).
  { cbn. rewrite bind_app, L0 by done. done. }
  eapply (inv_par m r _ _ U p o po _ s so); [exact I|done|done|done|..]; try done.
  - cbn. rewrite bind_app, L0, Eh by done. solve_Permutation.
  - right. split; [|done]. cbn. rewrite bind_app, L0 by done. done.
  - by right.
  - intros t Ht. rewrite Eh. by constructor.
  - by intros [?|?].
  - constructor; cbn [subtasks all_series started killed set_started]; try done.
    intros j z Hj Hk. destruct (decide (j = i)) as [->|Hne].
    + assert (z = s) as -> by congruence. exists (set_stat Active so). rewrite lookup_insert_eq. cbn.
      split; [done|]. split; [done|]. split; [done|]. split; [done|lia].
    + destruct (Q4 _ _ Hj Hk) as (oz & O1 & O2 & O3 & O4). exists oz.
      rewrite lookup_insert_ne by (eapply nodup_at; [exact Q2|exact Hi|exact Hj|done]).
      split; [done|]. split; [done|]. split; [done|]. rewrite O4. lia.
  - right. split; [done|]. exists i. cbn. split; [done|lia].
  - assert (Er : forall y, in_par (<[s := set_stat Active so]> r) y = in_par r y).
    { intros y. unfold in_par. destruct (decide (s = y)) as [<-|]; [by rewrite lookup_insert_eq, Hso|by rewrite lookup_insert_ne]. }
    intros x [->|[->|[->|[Hx|Hx]%elem_of_app]%elem_of_cons]%elem_of_cons]%elem_of_cons.
    + destruct Idf as (y & Y1 & _ & _ & Y2). exists y. by rewrite lookup_insert_ne.
    + cbn. rewrite Er. unfold in_par. rewrite Hso. cbn. by rewrite S2.
    + exists q, (set_subs (set_started (S i) po) o), w. rewrite lookup_insert_eq, Er. split_and!; [done..|]. eexists. split; [done|].
      cbn. split; [done|lia].
    + unfold L in Hx. destruct (Nat.eqb_spec (S i) n); [by apply not_elem_of_nil in Hx|]. apply list_elem_of_singleton in Hx as ->.
      eexists _, _. rewrite lookup_insert_eq. cbn. split_and!; [done..|]. lia.
    + revert x Hx. eapply (items_frame m r); [|exact Nf|intros; apply Er|].
      * intros y Hy. apply (v_item _ _ _ _ I). by do 2 constructor.
      * intros k n' Hl. exfalso. apply Nl1. apply list_elem_of_bind. exists (IFrame (FLoop p k n')). split; [constructor|done].
  - cbn. rewrite bind_app. unfold L. destruct (S i =? n); cbn; [done|]. by constructor.
  - intros y Hy. apply Ew. apply (v_loop _ _ _ _ I). by apply El.
  - intros y. rewrite Ep. intros [->|Hy]%elem_of_cons; apply Ew; [do 2 constructor|by apply (v_wait _ _ _ _ I)].
  - intros y oy py Hy. assert (Hy' : IWait y ∈ IFrame (FLoop p i n) :: IWait p :: F).
    { do 2 (apply in_cons in Hy; [|done]). apply elem_of_cons; right. apply elem_of_cons in Hy as [->|[Hy|Hy]%elem_of_app]; [constructor| |by constructor].
      unfold L in Hy. destruct (S i =? n); [by apply not_elem_of_nil in Hy|by apply list_elem_of_singleton in Hy]. }
    rewrite lookup_insert_Some. intros [[<- <-]|[Hne Hm]] Hsy.
    + injection Hsy as <-. cbn [nleft set_started started all_series]. rewrite Ep, cnt_here. split; [done|]. split; [lia|].
      intros Hl. cbn. cbn in Hl. rewrite bind_app, not_elem_of_app in Hl. destruct Hl as [Hl _]. unfold L in Hl.
        destruct (Nat.eqb_spec (S i) n); [lia|]. exfalso. apply Hl. constructor.
    + destruct (v_count _ _ _ _ I y oy py Hy' Hm Hsy) as (D1 & D2 & D3). split; [done|]. rewrite Ep, cnt_other by (by apply not_eq_sym).
      split; [done|].
      intros Hl. apply D3. cbn in Hl |- *. apply not_elem_of_cons. split; [done|]. rewrite bind_app, not_elem_of_app in Hl. tauto.
Qed.

(** [delete this->all_series[i]] in [ParallelWork::done]: the series is over. *)
Lemma inv_fin m r F U p i o po s : inv m r (IEnd p i :: F) U -> m !! p = Some o -> subs o = Some po -> all_series po !! i = Some s ->
  is_Some (r !! s) /\ inv (<[p := set_subs (set_killed (S i) po) o]> m) (delete s r) (IEnd p (S i) :: F) U.
Proof.
  intros I Hp Hs Hi. pose proof (v_par _ _ _ _ I _ _ _ Hp Hs) as [Q1 Q2 Q3 Q4].
  destruct (par_free _ _ _ _ _ p I) as (N1 & N2 & N3); [constructor|done|].
  destruct (task_alone _ _ _ _ _ p I) as (Nu & Nf & Nh & _); [constructor|].
  destruct (v_item _ _ _ _ I (IEnd p i) ltac:(constructor)) as (z & pz & Z1 & Z2 & Z3 & Z4).
  assert (z = o) as -> by congruence. assert (pz = po) as -> by congruence. clear Z1 Z2.
  destruct (Q4 _ _ Hi ltac:(lia)) as (so & S1 & S2 & S3 & S4). split; [by rewrite S1|].
  pose proof (lookup_lt_Some _ _ _ Hi) as Hlt.
  assert (Na : s ∉ F ≫= i_series m).
  { intros H. apply N1. eapply active_par; [exact I|exact H|]. unfold in_par. rewrite S1. cbn. by rewrite S2. }
  assert (Hf : stat so = Fin).
  { destruct (stat so) eqn:E; [|exfalso; apply Na; apply (v_active _ _ _ _ I); eauto|done]. assert (started po <= i) by (by apply S4). lia. }
  assert (Hh : held so = []).
  { unfold held. rewrite Hf. cbn. destruct (v_held _ _ _ _ I _ _ S1) as [_ H]. destruct (H Hf) as (-> & -> & _). done. }
  assert (Eh : all_held (delete s r) ≡ₚ all_held r) by (rewrite (all_held_lookup r s so S1), Hh; done).
  assert (Ew : forall q, IWait q ∈ IEnd p i :: F -> IWait q ∈ IEnd p (S i) :: F).
  { intros q Hq. apply in_cons in Hq; [|done]. by constructor. }
  destruct I as [A1 A2 B1 B2 Us Hd Pr Bk It L1 L2 Wt Ct].
  assert (Id : forall t q, t <> p -> idle m t q -> idle (<[p := set_subs (set_killed (S i) po) o]> m) t q).
  { intros t q Hne. by apply subs_idle. }
  constructor; rewrite ?(subs_series _ _ _ _ _ Hp), ?(subs_par _ _ _ _ _ Hp); try done.
  - by rewrite Eh.
  - intros t. rewrite subs_dom by done. by rewrite Eh.
  - intros z. rewrite (B2 z : z ∈ (IEnd p (S i) :: F) ≫= i_series m <-> _). destruct (decide (s = z)) as [<-|Hne]; [|by rewrite lookup_delete_ne].
    rewrite lookup_delete_eq, S1. split; [intros (y & [= <-] & ?); congruence|by intros (? & ? & _)].
  - intros t Ht. apply Id; [by intros ->|by apply Us].
  - intros z oz [_ H]%lookup_delete_Some. split; [|by apply (Hd _ _ H)]. intros t Ht. apply Id; [|by apply (Hd _ _ H)].
    intros ->. by eapply Nh, held_in.
  - intros q oq pq. rewrite lookup_insert_Some. intros [[<- <-]|[Hne H]] Hq.
    + injection Hq as <-. constructor; cbn [subtasks all_series started killed set_killed]; try done.
      intros j z Hj Hk. destruct (Q4 _ _ Hj ltac:(lia)) as (oz & O1 & O2). exists oz.
      rewrite lookup_delete_ne; [done|]. eapply nodup_at; [exact Q2|exact Hi|exact Hj|lia].
    + destruct (Pr _ _ _ H Hq) as [R1 R2 R3 R4]. constructor; try done. intros j z Hj Hk.
      destruct (R4 _ _ Hj Hk) as (oz & O1 & O2 & O3). exists oz. rewrite lookup_delete_ne; [done|]. intros ->. congruence.
  - intros z oz q [Hne H]%lookup_delete_Some Hq. destruct (Bk _ _ _ H Hq) as (oq & pq & j & H3 & H4 & H5 & H6).
    destruct (decide (p = q)) as [<-|Hnq]; [|exists oq, pq, j; by rewrite lookup_insert_ne].
    assert (pq = po) as -> by congruence. exists (set_subs (set_killed (S i) po) o), (set_killed (S i) po), j.
    rewrite lookup_insert_eq. cbn. split_and!; [done..|]. destruct (decide (j = i)) as [->|]; [congruence|lia].
  - intros x [->|Hx]%elem_of_cons; [eexists _, _; by rewrite lookup_insert_eq|]. revert x Hx. eapply (items_frame m r); [|done| |].
    + intros y Hy. apply It. by constructor.
    + intros z Hz. unfold in_par. rewrite lookup_delete_ne; [done|by intros ->].
    + intros k n Hl. exfalso. apply N3. apply list_elem_of_bind. exists (IFrame (FLoop p k n)). split; [constructor|by constructor].
  - intros q Hq. by apply Ew, L2.
  - intros q Hq. by apply Ew, Wt.
  - intros q oq pq Hw. apply in_cons in Hw; [|done]. rewrite lookup_insert_ne by (by intros ->). apply Ct. by constructor.
Qed.

Lemma free_all_ok l : forall m r p i o po F U, inv m r (IEnd p i :: F) U -> m !! p = Some o -> subs o = Some po ->
  drop i (all_series po) = l -> exists r', free_all l r = Some r' /\ inv (delete p m) r' F U.
Proof.
  induction l as [|s l IH]; intros m r p i o po F U I Hp Hs Hd; cbn [free_all].
  - exists r. split; [done|]. eapply inv_free; [exact I|done..|]. intros s so Hso Hq.
    destruct (v_back _ _ _ _ I _ _ _ Hso Hq) as (oq & pq & j & H1 & H2 & H3 & H4).
    assert (pq = po) as -> by congruence. destruct (v_item _ _ _ _ I (IEnd p i) ltac:(constructor)) as (z & pz & Z1 & Z2 & _ & Z4).
    assert (pz = po) as -> by congruence. apply lookup_lt_Some in H3. apply (f_equal length) in Hd. rewrite length_drop in Hd. cbn in Hd. lia.
  - assert (Hi : all_series po !! i = Some s) by (rewrite <- (Nat.add_0_r i), <- lookup_drop, Hd; done).
    destruct (inv_fin _ _ _ _ _ _ _ _ _ I Hp Hs Hi) as ([so Hso] & I'). rewrite Hso.
    destruct (IH _ _ p (S i) (set_subs (set_killed (S i) po) o) (set_killed (S i) po) F U I') as (r' & E & I2); [apply lookup_insert_eq|done| |].
    + cbn. rewrite <- (Nat.add_1_r i), <- drop_drop, Hd. done.
    + exists r'. by rewrite delete_insert_eq in I2.
Qed.

(** ** The steps of a thread *)

Lemma drain_series m r F U s k : inv m r (IFrame (FDrain s k) :: F) U ->
  exists o, r !! s = Some o /\ stat o = Active /\ in_parallel o = default None k.
Proof.
  intros I. assert (Hs : s ∈ (IFrame (FDrain s k) :: F) ≫= i_series m) by (cbn; constructor).
  apply (v_active _ _ _ _ I) in Hs as (o & Ho & Ha). exists o. split_and!; [done..|].
  pose proof (v_item _ _ _ _ I (IFrame (FDrain s k)) ltac:(constructor)) as H. cbn in H. unfold in_par in H. rewrite Ho in H.
  cbn in H. congruence.
Qed.

(** A task leaves its series. *)
Lemma wf_inv_take m r F U s k o t l q : inv m r (IFrame (FDrain s k) :: F) U -> r !! s = Some o -> stat o = Active ->
  tasks o ++ option_list (last o) = t :: l ++ option_list q ->
  inv m (<[s := set_tasks l q o]> r) (IFrame (FDel t) :: IFrame (FDrain s k) :: F) U /\ idle m t (Some s).
Proof.
  intros I Ho Ha E. assert (Eh : held o = t :: held (set_tasks l q o)) by (unfold held; cbn; rewrite Ha; cbn; exact E).
  assert (Hi : forall y, y ∈ held o -> idle m y (Some s)) by apply (v_held _ _ _ _ I _ _ Ho).
  split; [|apply Hi; rewrite Eh; constructor].
  eapply (inv_series m r (IFrame (FDrain s k) :: F)); [exact I|done..| |by left| | | | | |]; try done.
  - cbn. rewrite Eh. solve_Permutation.
  - intros p. rewrite !elem_of_cons. naive_solver.
  - intros y Hy. apply Hi. rewrite Eh. by constructor.
  - cbn. congruence.
  - intros x [->|Hx]%elem_of_cons; [|by apply (v_item _ _ _ _ I)].
    destruct (Hi t) as (z & Z1 & _ & _ & Z2); [rewrite Eh; constructor|]. by exists z.
Qed.

(** [pop_task] on a series in hand. *)
Lemma pop_task_ok h F U s k : inv (tk h) (sr h) (IFrame (FDrain s k) :: F) U ->
  exists h' res, pop_task s h = Some (h', res) /\ tk h' = tk h /\ running h' = running h /\ waiting h' = waiting h /\
    match res with
    | Some t => inv (tk h) (sr h') (IFrame (FDel t) :: IFrame (FDrain s k) :: F) U /\ idle (tk h) t (Some s)
    | None => inv (tk h) (sr h') ((match k with Some q => [IFrame (FNull q)] | None => [] end) ++ F) U
    end.
Proof.
  intros I. destruct (drain_series _ _ _ _ _ _ I) as (o & Ho & Ha & Hp). unfold pop_task. rewrite Ho. cbn [mbind option_bind].
  destruct (tasks o) as [|t l] eqn:Et; [destruct (last o) as [t|] eqn:El|].
  - eexists _, (Some t). do 4 (split; [done|]). eapply wf_inv_take; [done..|]. by rewrite Et, El.
  - eexists _, None. split_and!; [done|by destruct (in_parallel o)..|].
    assert (Hh : held o = []) by (unfold held; by rewrite Ha, Et, El).
    set (K := match k with Some q => [IFrame (FNull q)] | None => [] end).
    assert (K1 : K ≫= i_tasks = [] /\ K ≫= i_series (tk h) = [] /\ K ≫= i_loop = []) by (by destruct k). destruct K1 as (K1 & K2 & K3).
    assert (K4 : K ≫= i_par (tk h) = i_par (tk h) (IFrame (FDrain s k))) by (destruct k as [q|]; cbn; by rewrite ?app_nil_r).
    assert (K5 : forall p, IWait p ∈ K ++ F <-> IWait p ∈ IFrame (FDrain s k) :: F).
    { intros p. rewrite elem_of_app, elem_of_cons. split; (intros [Hx|Hx]; [|by right]); [|done].
      destruct k; cbn in Hx; [by apply list_elem_of_singleton in Hx|by apply not_elem_of_nil in Hx]. }
    assert (K6 : forall x, x ∈ K ++ F -> item_ok (tk h) (sr h) x).
    { intros x [Hx|Hx]%elem_of_app; [|apply (v_item _ _ _ _ I); by constructor]. destruct k as [q|]; cbn in Hx; [|by apply not_elem_of_nil in Hx].
      by apply list_elem_of_singleton in Hx as ->. }
    destruct (in_parallel o) as [p|] eqn:Eq.
    + eapply (inv_series _ _ (IFrame (FDrain s k) :: F)); [exact I|done|done|done| | | | | |done| | |done].
      * cbn. by rewrite Ha.
      * rewrite bind_app, K1, Hh. unfold held. cbn. by rewrite Et, El, !app_nil_r.
      * right. rewrite bind_app, K2. done.
      * rewrite bind_app, K4. done.
      * rewrite bind_app, K3. done.
      * unfold held. cbn. rewrite Et, El. by intros y ?%not_elem_of_nil.
      * cbn. by rewrite Eq.
    + eapply (inv_series_end _ _ (IFrame (FDrain s k) :: F)); [exact I|done..| | | | |done|done]; rewrite bind_app.
      * by rewrite K1.
      * by rewrite K2.
      * by rewrite K4.
      * by rewrite K3.
  - eexists _, (Some t). do 4 (split; [done|]). eapply wf_inv_take; [done..|]. by rewrite Et.
Qed.

(** One item for another: they hold the same task, series and parallel. *)
Lemma inv_one m r f g F U : inv m r (IFrame f :: F) U ->
  i_tasks (IFrame g) = i_tasks (IFrame f) -> i_series m (IFrame g) = i_series m (IFrame f) ->
  i_par m (IFrame g) = i_par m (IFrame f) -> i_loop (IFrame g) = i_loop (IFrame f) -> item_ok m r (IFrame g) ->
  inv m r (IFrame g :: F) U.
Proof.
  intros I E1 E2 E3 E4 Ho. apply (inv_replace m r [IFrame f] [IFrame g] F U I); cbn [mbind list_bind]; rewrite ?E1, ?E2, ?E3, ?E4; try done.
  - intros p. by rewrite !list_elem_of_singleton.
  - by intros x ->%list_elem_of_singleton.
Qed.

(** A task in hand and its series in hand are the task of the series, and back. *)
Lemma inv_join m r f t s k F U : inv m r (IFrame (FDel t) :: IFrame (FDrain s k) :: F) U ->
  i_tasks (IFrame f) = [t] -> i_series m (IFrame f) = [s] -> i_par m (IFrame f) = i_par m (IFrame (FDrain s k)) ->
  i_loop (IFrame f) = [] -> item_ok m r (IFrame f) -> inv m r (IFrame f :: F) U.
Proof.
  intros I E1 E2 E3 E4 Ho. apply (inv_replace m r [IFrame (FDel t); IFrame (FDrain s k)] [IFrame f] F U I);
    cbn [mbind list_bind]; rewrite ?E1, ?E2, ?E3, ?E4; try done.
  - intros p. rewrite list_elem_of_singleton, elem_of_cons, list_elem_of_singleton. naive_solver.
  - by intros x ->%list_elem_of_singleton.
Qed.

Section FrameSteps.
Context (h : heap) (F : list item) (U : list loc).

(** What a step of a frame gives: it is possible, the rest goes on. *)
Definition step_ok (f : frame) : Prop :=
  exists h' new, frame_step f h = Some (h', new) /\ running h' = running h /\ waiting h' = waiting h /\
    (forall q, IWait q ∈ F -> task_par (tk h') q = task_par (tk h) q) /\
    inv (tk h') (sr h') ((IFrame <$> new) ++ F) U.

Local Abbreviation winv f := (inv (tk h) (sr h) (IFrame f :: F) U).

Lemma step_done t : winv (FDone t) -> step_ok (FDone t).
Proof.
  intros I. destruct (v_item _ _ _ _ I (IFrame (FDone t)) ltac:(constructor)) as (q & o & s & H1 & H2 & H3 & H4 & H5).
  exists h. eexists. split; [cbn; by rewrite H1|]. do 3 (split; [done|]). eapply inv_one; [exact I|done|done| |done|].
  - cbn. unfold task_par. by rewrite H1.
  - cbn. rewrite H4. by exists o, s.
Qed.

Lemma step_pop s q : winv (FPop s q) -> step_ok (FPop s q).
Proof.
  intros I. pose proof (v_item _ _ _ _ I (IFrame (FPop s q)) ltac:(constructor)) as H. cbn in H. unfold in_par in H.
  destruct (sr h !! s) as [o|] eqn:Ho; [|done]. exists h. eexists. split; [cbn; by rewrite Ho|]. do 3 (split; [done|]).
  eapply inv_one; [exact I|done..|]. cbn. unfold in_par. by rewrite Ho.
Qed.

Lemma step_take s c q : winv (FTake s c q) -> step_ok (FTake s c q).
Proof.
  intros I. assert (I' : winv (FDrain s (Some q))).
  { eapply inv_one; [exact I|done..|]. exact (v_item _ _ _ _ I (IFrame (FTake s c q)) ltac:(constructor)). }
  destruct (pop_task_ok _ _ _ _ _ I') as (h' & res & E & E1 & E2 & E3 & I2). exists h'. eexists.
  split; [cbn; rewrite E; cbn; done|]. rewrite E1. do 3 (split; [done|]). destruct res as [t|]; [|exact I2]. destruct I2 as [I2 Hi].
  destruct c; [exact I2|]. destruct Hi as (o & H1 & H2 & H3 & H4). eapply inv_join; [exact I2|done| |done|done|].
  - cbn. unfold task_series. by rewrite H1, H2.
  - exists o, s. split_and!; [done..| |done]. exact (v_item _ _ _ _ I2 (IFrame (FDrain s (Some q))) ltac:(do 2 constructor)).
Qed.

Lemma step_drain s k : winv (FDrain s k) -> step_ok (FDrain s k).
Proof.
  intros I. destruct (pop_task_ok _ _ _ _ _ I) as (h' & res & E & E1 & E2 & E3 & I2). exists h'. eexists.
  split; [cbn; rewrite E; cbn; done|]. rewrite E1. do 3 (split; [done|]). destruct res as [t|]; [apply I2|]. by destruct k.
Qed.

Lemma step_next t q : winv (FNext t q) -> step_ok (FNext t q).
Proof.
  intros I. destruct (v_item _ _ _ _ I (IFrame (FNext t q)) ltac:(constructor)) as (o & s & H1 & H2 & H3 & H4).
  destruct (task_alone _ _ _ _ _ t I) as (_ & Nf & _); [constructor|].
  exists (put_task t (set_parent q o) h). eexists. split; [cbn; by rewrite H1|]. split; [done|]. split; [done|]. split.
  { intros y Hy. unfold task_par. cbn. rewrite lookup_insert_ne; [done|]. intros ->. apply Nf. eapply item_in; [exact Hy|constructor]. }
  assert (I1 : inv (tk h) (sr h) (IFrame (FDel t) :: IFrame (FDrain s (Some q)) :: F) U).
  { apply (inv_replace _ _ [IFrame (FNext t q)] [IFrame (FDel t); IFrame (FDrain s (Some q))] F U I); cbn; try done.
    - unfold task_series. by rewrite H1, H2.
    - intros p. rewrite list_elem_of_singleton, elem_of_cons, list_elem_of_singleton. naive_solver.
    - intros x [->| ->%list_elem_of_singleton]%elem_of_cons; [by exists o|done]. }
  eapply (inv_task _ _ _ _ t o (set_parent q o)) in I1; [|done|done].
  eapply inv_join; [exact I1|done|..]; cbn; unfold task_series, task_par; rewrite ?lookup_insert_eq; cbn; rewrite ?H2; try done.
  exists q, (set_parent q o), s. rewrite lookup_insert_eq. done.
Qed.

Lemma step_del t : winv (FDel t) -> step_ok (FDel t).
Proof.
  intros I. destruct (v_item _ _ _ _ I (IFrame (FDel t)) ltac:(constructor)) as (o & H1 & H2).
  destruct (task_alone _ _ _ _ _ t I) as (_ & Nf & _); [constructor|]. unfold step_ok. cbn. rewrite H1. cbn.
  destruct (subs o) as [po|] eqn:Es.
  - exists h. eexists. split; [done|]. do 3 (split; [done|]). eapply inv_one; [exact I|done..|]. exists o, po. destruct (H2 _ Es). done.
  - exists (free_task t h). eexists. split; [done|]. split; [done|]. split; [done|]. split.
    + intros y Hy. unfold task_par. cbn. rewrite lookup_delete_ne; [done|]. intros ->. apply Nf. eapply item_in; [exact Hy|constructor].
    + eapply inv_free; [exact I|done..|]. intros s so Hs Hp. destruct (v_back _ _ _ _ I _ _ _ Hs Hp) as (z & pz & j & Z1 & Z2 & _). congruence.
Qed.

Lemma step_kill p i : winv (FKill p i) -> step_ok (FKill p i).
Proof.
  intros I. destruct (v_item _ _ _ _ I (IFrame (FKill p i)) ltac:(constructor)) as (o & po & H1 & H2 & H3 & H4).
  destruct (task_alone _ _ _ _ _ p I) as (_ & Nf & _); [constructor|]. unfold step_ok. cbn. unfold do_kill. rewrite H1. cbn. rewrite H2. cbn.
  destruct (all_series po !! i) as [s|] eqn:Ei.
  - destruct (pk_series _ _ _ (v_par _ _ _ _ I _ _ _ H1 H2) _ _ Ei ltac:(lia)) as (so & S1 & _). rewrite S1. cbn.
    destruct (inv_kill _ _ _ _ _ _ _ _ _ _ I H1 H2 Ei S1) as [Hf I1].
    eexists _, _. split; [done|]. split; [done|]. split; [done|]. split.
    + intros y Hy. unfold task_par. cbn. rewrite lookup_insert_ne; [done|]. intros ->. apply Nf. eapply item_in; [exact Hy|constructor].
    + eapply (inv_open _ _ _ _ s (set_in_parallel None so)) in I1; [|apply lookup_insert_eq|done|done].
      rewrite insert_insert_eq in I1. exact I1.
  - exists (free_task p h). eexists. split; [done|]. split; [done|]. split; [done|]. split.
    + intros y Hy. unfold task_par. cbn. rewrite lookup_delete_ne; [done|]. intros ->. apply Nf. eapply item_in; [exact Hy|constructor].
    + eapply inv_free; [exact I|done..|]. intros s so Hs Hp. destruct (v_back _ _ _ _ I _ _ _ Hs Hp) as (z & pz & j & Z1 & Z2 & Z3 & Z4).
      assert (pz = po) as -> by congruence. apply lookup_lt_Some in Z3. apply lookup_ge_None in Ei. lia.
Qed.

Lemma step_call t q : winv (FCall t q) -> step_ok (FCall t q).
Proof.
  intros I. destruct (v_item _ _ _ _ I (IFrame (FCall t q)) ltac:(constructor)) as (o & s & H1 & H2 & H3 & H4).
  destruct (task_alone _ _ _ _ _ t I) as (_ & Nf & _); [constructor|].
  assert (Keep : forall y, IWait y ∈ F -> task_par (delete t (tk h)) y = task_par (tk h) y).
  { intros y Hy. unfold task_par. rewrite lookup_delete_ne; [done|]. intros ->. apply Nf. eapply item_in; [exact Hy|constructor]. }
  assert (Mk : forall r x, inv (tk h) r (x :: IFrame (FDrain s (Some q)) :: F) U -> inv (tk h) r (x :: IFrame (FPop s q) :: F) U).
  { intros r x I'. apply (inv_perm _ _ (IFrame (FPop s q) :: x :: F)); [constructor|]. eapply (inv_one _ _ (FDrain s (Some q))); try done.
    - eapply inv_perm; [|exact I']. constructor.
    - exact (v_item _ _ _ _ I' (IFrame (FDrain s (Some q))) ltac:(do 2 constructor)). }
  unfold step_ok. cbn. unfold do_call. rewrite H1. cbn. rewrite H2. cbn. destruct (subs o) as [po|] eqn:Es.
  - destruct (H4 _ Es) as [D1 D2].
    assert (I1 : inv (tk h) (sr h) (IEnd t 0 :: IFrame (FPop s q) :: F) U).
    { apply Mk. apply (inv_replace _ _ [IFrame (FCall t q)] [IEnd t 0; IFrame (FDrain s (Some q))] F U I); cbn; try done.
      - unfold task_series. by rewrite H1, H2.
      - intros p. rewrite list_elem_of_singleton, elem_of_cons, list_elem_of_singleton. naive_solver.
      - intros x [->| ->%list_elem_of_singleton]%elem_of_cons; [by exists o, po|done]. }
    destruct (free_all_ok (all_series po) _ _ _ _ _ _ _ _ I1 H1 Es eq_refl) as (r' & E & I2). rewrite E. cbn.
    eexists _, _. split; [done|]. split; [done|]. split; [done|]. split; [exact Keep|exact I2].
  - eexists _, _. split; [done|]. split; [done|]. split; [done|]. split; [exact Keep|]. cbn.
    assert (I1 : inv (tk h) (sr h) (IFrame (FDel t) :: IFrame (FPop s q) :: F) U).
    { apply Mk. apply (inv_replace _ _ [IFrame (FCall t q)] [IFrame (FDel t); IFrame (FDrain s (Some q))] F U I); cbn; try done.
      - unfold task_series. by rewrite H1, H2.
      - intros p. rewrite list_elem_of_singleton, elem_of_cons, list_elem_of_singleton. naive_solver.
      - intros x [->| ->%list_elem_of_singleton]%elem_of_cons; [|done]. exists o. split; [done|]. intros po. congruence. }
    eapply inv_free; [exact I1|done..|]. intros z so Hs Hp. destruct (v_back _ _ _ _ I _ _ _ Hs Hp) as (y & pz & j & Z1 & Z2 & _). congruence.
Qed.

Lemma step_loop p i n : winv (FLoop p i n) -> step_ok (FLoop p i n).
Proof.
  intros I. destruct (v_item _ _ _ _ I (IFrame (FLoop p i n)) ltac:(constructor)) as (o & po & H1 & H2 & H3 & H4 & H5).
  assert (Hw : IWait p ∈ F).
  { assert (H : IWait p ∈ IFrame (FLoop p i n) :: F) by (apply (v_loop _ _ _ _ I); cbn; constructor). by apply in_cons in H. }
  apply elem_of_Permutation in Hw as [F' PF].
  assert (I0 : inv (tk h) (sr h) (IFrame (FLoop p i n) :: IWait p :: F') U) by (eapply inv_perm; [|exact I]; by rewrite PF).
  destruct (v_par _ _ _ _ I _ _ _ H1 H2) as [Q1 Q2 Q3 Q4].
  destruct (lookup_lt_is_Some_2 (all_series po) i ltac:(lia)) as [s Hs].
  assert (Hk : killed po = 0).
  { destruct (v_item _ _ _ _ I (IWait p) ltac:(constructor; rewrite PF; constructor)) as (q & z & w & W1 & W2 & W3 & W4 & pz & W5 & W6 & _). congruence. }
  destruct (Q4 _ _ Hs ltac:(lia)) as (so & S1 & S2 & S3 & S4).
  assert (Hf : first so ∈ held so) by (unfold held; rewrite decide_True by (apply S4; lia); constructor).
  destruct (proj1 (v_held _ _ _ _ I _ _ S1) _ Hf) as (ox & X1 & X2 & X3 & X4).
  assert (Np : first so <> p).
  { assert (I1 : inv (tk h) (sr h) (IWait p :: IFrame (FLoop p i n) :: F') U) by (eapply inv_perm; [|exact I0]; constructor).
    intros E. destruct (task_alone _ _ _ _ _ p I1) as (_ & _ & Nh & _); [constructor|]. apply Nh. eapply held_in; [exact S1|]. by rewrite <- E. }
  pose proof (inv_loop _ _ _ _ _ _ _ _ _ _ _ I0 H1 H2 Hs S1) as I1.
  destruct (task_alone _ _ _ _ _ (first so) I1) as (_ & Nf & _); [constructor|].
  unfold step_ok. cbn. unfold do_loop. rewrite H1. cbn. rewrite H2. cbn. rewrite S3. cbn. rewrite X1. cbn. rewrite Hs. cbn. rewrite S1. cbn.
  eexists _, _. split; [done|]. split; [done|]. split; [done|]. split.
  - intros y Hy. unfold task_par. cbn.
    assert (Hne : first so <> y).
    { intros <-. apply Nf. cbn. rewrite PF in Hy. apply elem_of_cons in Hy as [[= Hy]|Hy]; [done|].
      apply elem_of_cons. right. rewrite bind_app. apply elem_of_app. right.
      eapply item_in; [exact Hy|constructor]. }
    rewrite lookup_insert_ne by done. destruct (decide (p = y)) as [<-|Hy']; [by rewrite lookup_insert_eq, H1|by rewrite lookup_insert_ne].
  - cbn [tk sr put_series put_task set_tk set_sr].
    eapply (inv_task _ _ _ _ (first so) ox (set_parent (Some p) ox)) in I1; [|by rewrite lookup_insert_ne|done].
    eapply (inv_join _ _ (FDispatch (first so))) in I1; [| |..]; cbn; unfold task_series, task_par; rewrite ?lookup_insert_eq; cbn; rewrite ?X2; try done.
    + eapply inv_perm; [|exact I1]. rewrite PF.
      change (match n with 0 => false | S m' => i =? m' end) with (S i =? n). destruct (S i =? n); cbn; solve_Permutation.
    + exists (Some p), (set_parent (Some p) ox), s. rewrite lookup_insert_eq. split_and!; [done..| |done|done].
      unfold in_par. rewrite lookup_insert_eq. cbn. by rewrite S2.
Qed.

Lemma step_null_none : winv (FNull None) -> step_ok (FNull None).
Proof.
  intros I. exists h, []. do 4 (split; [done|]). apply (inv_replace _ _ [IFrame (FNull None)] [] F U I); cbn; try done.
  - intros p. by rewrite list_elem_of_singleton, elem_of_nil.
  - by intros x ?%not_elem_of_nil.
Qed.

End FrameSteps.

(** ** The system *)

Definition background (h : heap) : list item := (IRun <$> running h) ++ (IWait <$> waiting h).
Definition items (w : wsys) : list item := background (hp w) ++ (IFrame <$> concat (stacks w)).

(** A parallel that waits inside another was dispatched after it. *)
Fixpoint nested (m : gmap loc tobj) (l : list loc) : Prop :=
  match l with [] => True | p :: l => (forall q, q ∈ task_par m p -> q ∈ l) /\ nested m l end.

Definition wf_sys (w : wsys) : Prop :=
  inv (tk (hp w)) (sr (hp w)) (items w) (user w) /\ nested (tk (hp w)) (waiting (hp w)).

Lemma nested_same m m' l : (forall p, p ∈ l -> task_par m' p = task_par m p) -> nested m l -> nested m' l.
Proof.
  induction l as [|p l IH]; intros H Hn; [done|]. destruct Hn as [H1 H2]. split; [rewrite H by constructor; done|].
  apply IH; [|done]. intros q Hq. apply H. by constructor.
Qed.
Lemma nested_filter m l p : (forall q, q ∈ l -> p ∉ task_par m q) -> nested m l -> nested m (filter (.≠ p) l).
Proof.
  induction l as [|x l IH]; intros H Hn; [done|]. destruct Hn as [H1 H2]. specialize (IH (fun q Hq => H q (list_elem_of_further _ _ _ Hq)) H2).
  rewrite filter_cons. destruct (decide (x ≠ p)); [|done]. split; [|done]. intros q Hq. apply list_elem_of_filter.
  split; [|by apply H1]. intros ->. by eapply H; [constructor|].
Qed.

Lemma wait_item h q : IWait q ∈ background h <-> q ∈ waiting h.
Proof.
  unfold background. rewrite elem_of_app. split.
  - intros [(x & ? & _)%list_elem_of_fmap|(x & [= ->] & ?)%list_elem_of_fmap]; done.
  - intros H. right. apply list_elem_of_fmap. eauto.
Qed.
Lemma wait_in h fs q : IWait q ∈ background h ++ (IFrame <$> fs) <-> q ∈ waiting h.
Proof.
  rewrite elem_of_app, wait_item. split; [|by left]. intros [?|(x & ? & _)%list_elem_of_fmap]; done.
Qed.

(** [FDispatch] and the last [FNull] change what is in the background. *)
Lemma bg_dispatch h F U t : inv (tk h) (sr h) (IFrame (FDispatch t) :: background h ++ F) U -> nested (tk h) (waiting h) ->
  (forall q, IWait q ∉ F) ->
  exists h' new, frame_step (FDispatch t) h = Some (h', new) /\ inv (tk h') (sr h') ((IFrame <$> new) ++ background h' ++ F) U /\
    nested (tk h') (waiting h').
Proof.
  intros I Hn Nf. destruct (v_item _ _ _ _ I (IFrame (FDispatch t)) ltac:(constructor)) as (q & o & s & H1 & H2 & H3 & H4 & H5).
  destruct (task_alone _ _ _ _ _ t I) as (_ & Nt & _); [constructor|].
  assert (Nw : t ∉ waiting h).
  { intros H. apply Nt. eapply (item_in _ (IWait t)); [|constructor]. apply elem_of_app. left. by apply wait_item. }
  cbn [frame_step]. unfold do_dispatch. rewrite H1. cbn [mbind option_bind]. destruct (subs o) as [po|] eqn:Es.
  - set (h1 := put_task t _ h). assert (Hs : forall p, p ∈ waiting h -> task_par (tk h1) p = task_par (tk h) p).
    { intros p Hp. unfold task_par, h1. cbn. rewrite lookup_insert_ne; [done|by intros ->]. }
    destruct (Nat.eqb_spec (length (subtasks po)) 0) as [E|E].
    + exists h1, [FDone t]. split; [done|]. split; [|by eapply nested_same]. unfold h1. rewrite E. by apply inv_dispatch_empty.
    + eexists _, _. split; [done|]. split.
      * eapply inv_perm; [|exact (inv_dispatch _ _ _ _ _ _ _ I H1 Es E)]. unfold background. cbn. solve_Permutation.
      * split; [|by eapply nested_same]. intros y Hy. cbn in Hy.
        assert (Hy' : y ∈ task_par (tk h) t) by (unfold task_par in *; rewrite lookup_insert_eq in Hy; by rewrite H1).
        assert (Hw : IWait y ∈ IFrame (FDispatch t) :: background h ++ F) by (apply (v_wait _ _ _ _ I); cbn; apply elem_of_app; by left).
        apply in_cons in Hw; [|done]. apply elem_of_app in Hw as [Hw|Hw]; [by apply wait_item|by apply Nf in Hw].
  - eexists _, _. split; [done|]. split; [|done]. cbn [fmap list_fmap app].
    apply (inv_perm _ _ (IRun t :: background h ++ F)); [by unfold background|].
    apply (inv_replace _ _ [IFrame (FDispatch t)] [IRun t] _ U I); try done.
    + intros p. rewrite !list_elem_of_singleton. naive_solver.
    + intros x ->%list_elem_of_singleton. exists q, o, s. done.
Qed.

Lemma bg_null h F U p : inv (tk h) (sr h) (IFrame (FNull (Some p)) :: background h ++ F) U -> nested (tk h) (waiting h) ->
  (forall q, IWait q ∉ F) ->
  exists h' new, frame_step (FNull (Some p)) h = Some (h', new) /\ inv (tk h') (sr h') ((IFrame <$> new) ++ background h' ++ F) U /\
    nested (tk h') (waiting h').
Proof.
  intros I Hn Nf.
  assert (Hw : p ∈ waiting h).
  { assert (Hw : IWait p ∈ IFrame (FNull (Some p)) :: background h ++ F) by (apply (v_wait _ _ _ _ I); cbn; constructor).
    apply in_cons in Hw; [|done]. apply elem_of_app in Hw as [Hw|Hw]; [by apply wait_item|by apply Nf in Hw]. }
  apply list_elem_of_split in Hw as (w1 & w2 & Ew).
  assert (I0 : inv (tk h) (sr h) (IFrame (FNull (Some p)) :: IWait p :: (IRun <$> running h) ++ (IWait <$> w1 ++ w2) ++ F) U).
  { eapply inv_perm; [|exact I]. unfold background. rewrite Ew, !fmap_app. cbn. solve_Permutation. }
  destruct (v_item _ _ _ _ I0 (IWait p) ltac:(do 2 constructor)) as (q & o & s & H1 & H2 & H3 & H4 & po & H5 & _).
  destruct (inv_null _ _ _ _ _ _ _ I0 H1 H5) as [E I1]. cbn [frame_step]. unfold do_null. rewrite H1. cbn [mbind option_bind]. rewrite H5.
  cbn [mbind option_bind]. rewrite E. set (h1 := put_task p _ h) in *.
  assert (Hs : forall y, task_par (tk h1) y = task_par (tk h) y).
  { intros y. unfold task_par, h1. cbn. destruct (decide (p = y)) as [<-|]; [by rewrite lookup_insert_eq, H1|by rewrite lookup_insert_ne]. }
  assert (Nw : p ∉ w1 ++ w2).
  { assert (I2 : inv (tk h) (sr h) (IWait p :: IFrame (FNull (Some p)) :: (IRun <$> running h) ++ (IWait <$> w1 ++ w2) ++ F) U).
    { eapply inv_perm; [|exact I0]. constructor. }
    destruct (task_alone _ _ _ _ _ p I2) as (_ & Nt & _); [constructor|]. intros H. apply Nt.
    eapply (item_in _ (IWait p)); [|constructor]. apply elem_of_cons. right. rewrite !elem_of_app. right; left. apply list_elem_of_fmap. eauto. }
  destruct (Z.eqb_spec (nleft po - 1) 0) as [E0|E0].
  - assert (Ef : filter (.≠ p) (waiting h) = w1 ++ w2).
    { rewrite Ew, filter_app, filter_cons_False by (intros H; by apply H). rewrite not_elem_of_app in Nw. destruct Nw as [N1 N2].
      assert (Hid : forall l : list loc, p ∉ l -> filter (.≠ p) l = l).
      { intros l Hl. induction l as [|x l IH]; [done|]. apply not_elem_of_cons in Hl as [? ?]. rewrite filter_cons_True by congruence. by rewrite IH. }
      by rewrite !Hid. }
    eexists _, _. split; [done|]. split.
    + eapply inv_perm; [|exact I1]. unfold background. cbn [waiting set_waiting running]. unfold h1 at 2. cbn [waiting put_task set_tk]. rewrite Ef. cbn. solve_Permutation.
    + cbn [tk set_waiting waiting]. apply nested_filter; [|eapply nested_same; [|exact Hn]; intros; apply Hs].
      intros y Hy Hp. rewrite Hs in Hp.
      assert (Hc : p ∈ ((IFrame (FDone p) :: (IRun <$> running h) ++ (IWait <$> w1 ++ w2) ++ F) ≫= i_par (tk h1))).
      { destruct (decide (y = p)) as [->|Hne].
        - cbn. apply elem_of_app. left. by rewrite Hs.
        - apply list_elem_of_bind. exists (IWait y). split; [cbn; by rewrite Hs|]. apply elem_of_cons. right. rewrite !elem_of_app. right; left.
          apply list_elem_of_fmap. exists y. split; [done|]. unfold h1 in Hy. cbn in Hy. rewrite Ew in Hy. apply elem_of_app in Hy as [?|[?|?]%elem_of_cons]; apply elem_of_app; auto; done. }
      destruct (par_free _ _ _ _ _ p I1) as (N1 & _); [constructor|done|]. by apply N1.
  - eexists _, _. split; [done|]. split; [|eapply nested_same; [|exact Hn]; intros; apply Hs].
    eapply inv_perm; [|exact I1]. unfold background, h1. cbn. rewrite Ew, !fmap_app. cbn. solve_Permutation.
Qed.

Lemma frame_wait (fs : list frame) q : IWait q ∉ IFrame <$> fs.
Proof. intros (x & ? & _)%list_elem_of_fmap. done. Qed.

(** A frame of a thread can make its step, and all is well after it. *)
Lemma frame_safe f h F U : inv (tk h) (sr h) (IFrame f :: background h ++ (IFrame <$> F)) U -> nested (tk h) (waiting h) ->
  exists h' new, frame_step f h = Some (h', new) /\
    inv (tk h') (sr h') ((IFrame <$> new) ++ background h' ++ (IFrame <$> F)) U /\ nested (tk h') (waiting h').
Proof.
  intros I Hn. assert (Q : step_ok h (background h ++ (IFrame <$> F)) U f -> exists h' new, frame_step f h = Some (h', new) /\
    inv (tk h') (sr h') ((IFrame <$> new) ++ background h' ++ (IFrame <$> F)) U /\ nested (tk h') (waiting h')).
  { intros (h' & new & E & E1 & E2 & E3 & I'). exists h', new. split; [done|]. unfold background at 1 in I'. unfold background.
    rewrite E1, E2. split; [done|]. eapply nested_same; [|exact Hn]. intros p Hp. apply E3. apply elem_of_app. left. by apply wait_item. }
  destruct f as [t|p i n|t|t q|s q|s c q|t q|[p|]|t|p i|s k].
  - apply bg_dispatch; [done|done|apply frame_wait].
  - by apply Q, step_loop.
  - by apply Q, step_done.
  - by apply Q, step_call.
  - by apply Q, step_pop.
  - by apply Q, step_take.
  - by apply Q, step_next.
  - apply bg_null; [done|done|apply frame_wait].
  - by apply Q, step_null_none.
  - by apply Q, step_del.
  - by apply Q, step_kill.
  - by apply Q, step_drain.
Qed.

Lemma items_top h l1 f st l2 u :
  items (mk_wsys h (l1 ++ (f :: st) :: l2) u) ≡ₚ IFrame f :: background h ++ (IFrame <$> concat l1 ++ st ++ concat l2).
Proof. unfold items. cbn. rewrite concat_app, !fmap_app. cbn. rewrite fmap_app. solve_Permutation. Qed.
Lemma items_push h l1 fs st l2 u :
  items (mk_wsys h (l1 ++ (fs ++ st) :: l2) u) ≡ₚ (IFrame <$> fs) ++ background h ++ (IFrame <$> concat l1 ++ st ++ concat l2).
Proof. unfold items. cbn. rewrite concat_app. cbn. rewrite !fmap_app. solve_Permutation. Qed.

Lemma wf_frame h l1 f st l2 u : wf_sys (mk_wsys h (l1 ++ (f :: st) :: l2) u) ->
  exists h' fs, frame_step f h = Some (h', fs) /\ wf_sys (mk_wsys h' (l1 ++ (fs ++ st) :: l2) u).
Proof.
  intros [I Hn]. cbn in Hn. destruct (frame_safe f h (concat l1 ++ st ++ concat l2) u) as (h' & fs & E & I' & Hn'); [|done|].
  - eapply inv_perm; [apply items_top|exact I].
  - exists h', fs. split; [done|]. split; [|done]. eapply inv_perm; [symmetry; apply items_push|exact I'].
Qed.

(** ** The client *)

(** A task of the client is taken in hand. *)
Lemma inv_user m r F u1 t u2 : inv m r F (u1 ++ t :: u2) -> inv m r (IFrame (FDel t) :: F) (u1 ++ u2) /\ idle m t None.
Proof.
  intros I. assert (Hi : idle m t None) by (apply (v_user _ _ _ _ I); apply elem_of_app; right; constructor). split; [|done].
  eapply inv_swap; [exact I|..]; cbn; try done.
  - solve_Permutation.
  - intros p. rewrite elem_of_cons. naive_solver.
  - intros y. rewrite !elem_of_app, elem_of_cons. tauto.
  - intros x [->|Hx]%elem_of_cons; [|by apply (v_item _ _ _ _ I)]. destruct Hi as (o & H1 & _ & _ & H2). by exists o.
Qed.

(** ... and put in a series. *)
Lemma inv_held m r F U t s o so so' : inv m r (IFrame (FDel t) :: F) U -> m !! t = Some o -> idle m t None ->
  r !! s = Some so -> held so' ≡ₚ t :: held so -> stat so <> Fin -> stat so' = stat so -> in_parallel so' = in_parallel so -> first so' = first so ->
  inv (<[t := set_pointer s o]> m) (<[s := so']> r) F U.
Proof.
  intros I Ho Hi Hs Eh Nf E1 E2 E3.
  assert (I1 : inv (<[t := set_pointer s o]> m) r (IFrame (FDel t) :: F) U) by (eapply inv_task; [exact I|done|done]).
  assert (Hi' : idle (<[t := set_pointer s o]> m) t (Some s)).
  { destruct Hi as (z & Z1 & Z2 & Z3 & Z4). assert (z = o) as -> by congruence. eexists. rewrite lookup_insert_eq. done. }
  eapply (inv_series _ _ (IFrame (FDel t) :: F)); [exact I1|done|done|done| | |by left| | | | | |]; try done.
  - by rewrite E1.
  - rewrite Eh. cbn. solve_Permutation.
  - intros p. rewrite elem_of_cons. naive_solver.
  - intros y. rewrite Eh. intros [->|Hy]%elem_of_cons; [done|]. by apply (v_held _ _ _ _ I1 _ _ Hs).
  - congruence.
  - intros x Hx. apply (v_item _ _ _ _ I1). by constructor.
Qed.

Lemma held_put w t so : (w = ToLast -> last so = None) -> held (put_in w t so) ≡ₚ t :: held so.
Proof.
  intros H. unfold held. destruct w; cbn.
  - destruct (decide _); cbn; solve_Permutation.
  - destruct (decide _); cbn; rewrite <- ?app_assoc; solve_Permutation.
  - rewrite (H eq_refl). destruct (decide _); cbn; solve_Permutation.
Qed.

Lemma nested_put m l t o o' : m !! t = Some o -> parent o' = parent o -> nested m l -> nested (<[t := o']> m) l.
Proof.
  intros H E. apply nested_same. intros p _. unfold task_par. destruct (decide (t = p)) as [<-|]; [|by rewrite lookup_insert_ne].
  by rewrite lookup_insert_eq, H, E.
Qed.

Lemma wf_step a b : wstep a b -> wf_sys a -> wf_sys b.
Proof.
  intros St W. destruct St as [h l1 f st l2 u h' fs E|h l1 t l2 st u E|h st u t po Ht Hpo|h st u1 t u2 s o Hs Ht
    |h st u p o po s so Hu Hp Hpo Hs Hf Hq Hm|h st u1 t u2 s o so w Ht Hs Hm Hl|h st u s so Hs|h st u s so Hs Hf Hq|h st u s so Hs Hf Hq|h st u1 t u2].
  - destruct (wf_frame _ _ _ _ _ _ W) as (h2 & fs2 & E2 & W2). congruence.
  - destruct W as [I Hn]. split; [|done]. cbn [hp tk sr user set_running] in *.
    eapply (inv_perm _ _ ([IFrame (FDone t)] ++ (IRun <$> l1 ++ l2) ++ (IWait <$> waiting h) ++ (IFrame <$> concat st))).
    { unfold items, background. cbn. rewrite !fmap_app. solve_Permutation. }
    eapply (inv_replace _ _ [IRun t]); cbn; try done.
    + eapply inv_perm; [|exact I]. unfold items, background. cbn. rewrite E, !fmap_app. cbn. solve_Permutation.
    + intros p. rewrite !list_elem_of_singleton. naive_solver.
    + assert (Hi : item_ok (tk h) (sr h) (IRun t)).
      { apply (v_item _ _ _ _ I). unfold items, background. cbn. rewrite E, !fmap_app, !elem_of_app. left; left. right. constructor. }
      destruct Hi as (q & o & s & H1 & H2 & H3 & H4 & H5). intros x ->%list_elem_of_singleton. exists q, o, s.
      split_and!; [done..|]. intros po. congruence.
  - destruct W as [I Hn]. split; [by apply inv_new|]. eapply nested_same; [|exact Hn]. intros p Hp. unfold task_par. cbn.
    rewrite lookup_insert_ne; [done|]. intros ->. assert (Hw : IWait p ∈ items (mk_wsys h st u)) by (by apply wait_in).
    destruct (v_item _ _ _ _ I _ Hw) as (? & o & ? & ? & _). cbn in *. congruence.
  - destruct W as [I Hn]. apply inv_user in I as [I Hi]. cbn in Ht, Hs, Hn. split; [|by eapply nested_put].
    eapply (inv_new_series (<[t := set_pointer s o]> (tk h)) (sr h) _ _ s t); [by eapply inv_task|done|].
    destruct Hi as (z & Z1 & Z2 & Z3 & Z4). cbn in Z1. assert (z = o) as -> by congruence. eexists. rewrite lookup_insert_eq. done.
  - destruct W as [I Hn]. split; [by apply inv_add|by eapply nested_put].
  - destruct W as [I Hn]. assert (Nf : stat so <> Fin).
    { intros Ef. destruct Hm as [[? _]|(t' & q & ot & Hc & Ho & Ep)]; [congruence|]. cbn in Hc, Ho.
      assert (Hx : IFrame (FCall t' q) ∈ items (mk_wsys h st (u1 ++ t :: u2))) by (unfold items; apply elem_of_app; right; apply list_elem_of_fmap; eauto).
      assert (Ha : s ∈ items (mk_wsys h st (u1 ++ t :: u2)) ≫= i_series (tk h)).
      { apply list_elem_of_bind. exists (IFrame (FCall t' q)). split; [|done]. cbn. unfold task_series. rewrite Ho, Ep. constructor. }
      apply (v_active _ _ _ _ I) in Ha as (z & Z1 & Z2). cbn in Z1. congruence. }
    apply inv_user in I as [I Hi]. split; [|by eapply nested_put].
    eapply inv_held; [exact I|done|done|done|by apply held_put|done|by destruct w..].
  - destruct W as [I Hn]. split; [|done]. eapply (inv_series _ _ _ _ _ s so (cancel_series so)); [exact I|done|done|done|done|done|by left|done|done|done|..].
    + apply (v_held _ _ _ _ I _ _ Hs).
    + apply (v_held _ _ _ _ I _ _ Hs).
    + apply (v_item _ _ _ _ I).
  - destruct W as [I Hn]. split; [|done]. eapply (inv_open _ _ _ _ s so) in I as I1; [|done..]. cbn [hp tk sr put_series set_sr user] in *.
    assert (Hi : idle (tk h) (first so) (Some s)).
    { apply (v_held _ _ _ _ I _ _ Hs). unfold held. rewrite decide_True by done. constructor. }
    destruct Hi as (o & H1 & H2 & H3 & H4).
    eapply (inv_join _ _ (FDispatch (first so))) in I1; [| |..]; cbn; unfold task_series, task_par; rewrite ?H1; cbn; rewrite ?H2, ?H3; try done.
    + eapply inv_perm; [|exact I1]. unfold items. cbn. solve_Permutation.
    + exists None, o, s. split_and!; [done..| |done|done]. unfold in_par. rewrite lookup_insert_eq. cbn. by rewrite Hq.
  - destruct W as [I Hn]. split; [|done]. eapply (inv_open _ _ _ _ s so) in I; [|done..].
    eapply inv_perm; [|exact I]. unfold items. cbn. solve_Permutation.
  - destruct W as [I Hn]. apply inv_user in I as [I _]. split; [|done]. eapply inv_perm; [|exact I]. unfold items. cbn. solve_Permutation.
Qed.

Lemma wf_reach w : wreach w -> wf_sys w.
Proof.
  induction 1 as [|a b _ IH St]; [|by eapply wf_step]. split; [|done]. constructor; cbn; try done; try (by constructor); try (by intros ? ?%not_elem_of_nil).
  - intros t. rewrite lookup_empty. split; [by intros [? ?]|by intros ?%not_elem_of_nil].
  - intros s. split; [by intros ?%not_elem_of_nil|]. by intros (o & Ho & _); rewrite lookup_empty in Ho.
Qed.

Lemma nested_in m l p q : nested m l -> q ∈ l -> p ∈ task_par m q -> p ∈ l.
Proof.
  induction l as [|x l IH]; intros Hn Hq Hp; [by apply not_elem_of_nil in Hq|]. destruct Hn as [H1 H2]. apply elem_of_cons. right.
  apply elem_of_cons in Hq as [->|Hq]; [by apply H1|by apply IH].
Qed.

(** Something that waits has something to wait for. *)
Lemma quiet_waiting w : wf_sys w -> concat (stacks w) = [] -> running (hp w) = [] -> waiting (hp w) = [].
Proof.
  intros [I Hn] Es Er. destruct (waiting (hp w)) as [|p l] eqn:Ew; [done|exfalso].
  assert (Ei : items w = IWait <$> p :: l) by (unfold items, background; by rewrite Es, Er, Ew; cbn; rewrite app_nil_r).
  rewrite Ei in I. assert (Nl : forall l', (IWait <$> l') ≫= i_loop = []) by (induction l'; cbn; congruence).
  assert (Hw : IWait p ∈ IWait <$> p :: l) by constructor.
  destruct (v_item _ _ _ _ I _ Hw) as (q & o & s & H1 & H2 & H3 & H4 & po & H5 & _).
  destruct (v_count _ _ _ _ I p o po Hw H1 H5) as (C1 & C2 & C3).
  assert (Hs : started po = length (all_series po)) by (apply C3; rewrite Nl; apply not_elem_of_nil).
  assert (Hp : p ∈ (IWait <$> p :: l) ≫= i_par (tk (hp w))).
  { destruct (decide (p ∈ (IWait <$> p :: l) ≫= i_par (tk (hp w)))) as [|Hno]; [done|]. apply cnt_zero in Hno. lia. }
  assert (Hl : p ∈ l).
  { apply list_elem_of_bind in Hp as (x & Hx & (y & -> & Hy)%list_elem_of_fmap). cbn in Hx. destruct Hn as [H6 H7].
    apply elem_of_cons in Hy as [->|Hy]; [by apply H6|by eapply nested_in]. }
  destruct (task_alone _ _ (IWait p) (list_fmap _ _ IWait l) (user w) p I) as (_ & Nf & _); [constructor|]. apply Nf.
  eapply (item_in _ (IWait p)); [|constructor]. apply list_elem_of_fmap. eauto.
Qed.

(** ** The contract *)

(** C18. No thread of the library uses an object that is gone: in every state clients and
    threads can reach, the next step of each thread finds its task, series and
    parallel (no use after free, no double delete, no lost parent), no task is in
    two hands, and the counts of the parallels do not wrap. *)
Theorem workflow_safe w : wreach w ->
  (forall l1 f st l2, stacks w = l1 ++ (f :: st) :: l2 -> is_Some (frame_step f (hp w))) /\
  NoDup (user w ++ (items w ≫= i_tasks) ++ all_held (sr (hp w))) /\
  (forall t, is_Some (tk (hp w) !! t) <-> t ∈ user w ++ (items w ≫= i_tasks) ++ all_held (sr (hp w))).
Proof.
  intros R. pose proof (wf_reach _ R) as W. split; [|split; apply W].
  intros l1 f st l2 E. destruct w as [h ss u]. cbn in E. subst ss.
  destruct (wf_frame _ _ _ _ _ _ W) as (h' & fs & E & _). eexists. exact E.
Qed.

(** The callback of a parallel runs when all its series are over, and only then:
    each of them is finished and empty, and no thread or task is at work in it. *)
Theorem parallel_joins w p q o po : wreach w -> FCall p q ∈ concat (stacks w) -> tk (hp w) !! p = Some o -> subs o = Some po ->
  forall s, s ∈ all_series po -> (s ∉ items w ≫= i_series (tk (hp w))) /\
    exists so, sr (hp w) !! s = Some so /\ finished so = true /\ tasks so = [] /\ last so = None.
Proof.
  intros R Hc Ho Hs s [j Hj]%list_elem_of_lookup. destruct (wf_reach _ R) as [I _].
  assert (Hx : IFrame (FCall p q) ∈ items w) by (unfold items; apply elem_of_app; right; apply list_elem_of_fmap; eauto).
  apply elem_of_Permutation in Hx as [F P].
  assert (I' : inv (tk (hp w)) (sr (hp w)) (IFrame (FCall p q) :: F) (user w)) by (by eapply inv_perm).
  destruct (v_item _ _ _ _ I' (IFrame (FCall p q)) ltac:(constructor)) as (o2 & s2 & H1 & _ & _ & H4).
  assert (o2 = o) as -> by congruence. destruct (H4 _ Hs) as [D1 D2].
  destruct (pk_series _ _ _ (v_par _ _ _ _ I' _ _ _ Ho Hs) _ _ Hj ltac:(lia)) as (so & S1 & S2 & S3 & S4).
  pose proof (lookup_lt_Some _ _ _ Hj).
  destruct (par_free _ _ _ _ _ p I') as (N1 & _); [constructor|done|].
  assert (Na : s ∉ items w ≫= i_series (tk (hp w))).
  { rewrite P. intros Ha. apply N1. eapply active_par; [exact I'|exact Ha|]. unfold in_par. rewrite S1. cbn. by rewrite S2. }
  split; [done|]. exists so. split; [done|]. destruct (v_held _ _ _ _ I _ _ S1) as [_ Hf].
  assert (Es : stat so = Fin).
  { destruct (stat so) eqn:E; [|exfalso; apply Na; apply (v_active _ _ _ _ I); eauto|done]. assert (started po <= j) by (by apply S4). lia. }
  by destruct (Hf Es) as (? & ? & _ & ?).
Qed.

(** C19. Nothing is stuck and nothing leaks: when no thread is inside the library and no
    task is at work, every series and parallel that was begun is over and deleted; what
    is left belongs to the client or to series that were not begun. *)
Theorem workflow_quiescent w : wreach w -> concat (stacks w) = [] -> running (hp w) = [] ->
  waiting (hp w) = [] /\ (forall s so, sr (hp w) !! s = Some so -> stat so = Fresh) /\
  (forall t, is_Some (tk (hp w) !! t) <-> t ∈ user w \/ exists s so, sr (hp w) !! s = Some so /\ t ∈ held so).
Proof.
  intros R Es Er. pose proof (wf_reach _ R) as W. pose proof (quiet_waiting _ W Es Er) as Ew. destruct W as [I _].
  assert (Ei : items w = []) by (unfold items, background; by rewrite Es, Er, Ew). rewrite Ei in I.
  assert (Dm : forall t, is_Some (tk (hp w) !! t) <-> t ∈ user w \/ exists s so, sr (hp w) !! s = Some so /\ t ∈ held so).
  { intros t. rewrite (v_dom _ _ _ _ I t). cbn. rewrite elem_of_app. split; (intros [H|H]; [by left|right]).
    - by apply all_held_in.
    - destruct H as (s & so & H1 & H2). by eapply held_in. }
  split; [done|]. split; [|done]. intros s so Hs. destruct (stat so) eqn:E; [done|..].
  - assert (Ha : s ∈ [] ≫= i_series (tk (hp w))) by (apply (v_active _ _ _ _ I); eauto). by apply not_elem_of_nil in Ha.
  - destruct (v_held _ _ _ _ I _ _ Hs) as [_ Hf]. destruct (Hf E) as (_ & _ & Hp & _).
    destruct (in_parallel so) as [p|] eqn:Ep; [|done]. destruct (v_back _ _ _ _ I _ _ _ Hs Ep) as (o & po & j & B1 & B2 & B3 & B4).
    assert (Hi : exists q, idle (tk (hp w)) p q).
    { destruct (proj1 (Dm p)) as [H|(z & oz & H1 & H2)]; [by rewrite B1|exists None; by apply (v_user _ _ _ _ I)|].
      exists (Some z). by apply (v_held _ _ _ _ I _ _ H1). }
    destruct Hi as (q & z & Z1 & _ & _ & Z2). assert (z = o) as -> by congruence. destruct (Z2 _ B2) as [Z3 Z4].
    destruct (pk_series _ _ _ (v_par _ _ _ _ I _ _ _ B1 B2) _ _ B3 B4) as (oz & Y1 & _ & _ & Y2).
    assert (oz = so) as -> by congruence. assert (stat so = Fresh) by (apply Y2; lia). congruence.
Qed.

(** ** Executable runs *)

Inductive cmd :=
  | CFrame (i : nat) | CComplete (i : nat) | CNew (t : loc) (par : bool) | CSeries (i : nat) (s : loc)
  | CAdd (p s : loc) | CPush (i : nat) (s : loc) | CStart (s : loc).

Definition sys_step (c : cmd) (w : wsys) : option wsys :=
  match c with
  | CFrame i =>
      st ← stacks w !! i;
      match st with
      | [] => None
      | f :: st => '(h, fs) ← frame_step f (hp w); Some (mk_wsys h (<[i := fs ++ st]> (stacks w)) (user w))
      end
  | CComplete i =>
      t ← running (hp w) !! i;
      Some (mk_wsys (set_running (take i (running (hp w)) ++ drop (S i) (running (hp w))) (hp w)) ([FDone t] :: stacks w) (user w))
  | CNew t par =>
      match tk (hp w) !! t with
      | Some _ => None
      | None => Some (mk_wsys (put_task t (mk_tobj (if par then Some new_parallel else None) None None) (hp w)) (stacks w) (t :: user w))
      end
  | CSeries i s =>
      t ← user w !! i; o ← tk (hp w) !! t;
      match sr (hp w) !! s with
      | Some _ => None
      | None => Some (mk_wsys (put_task t (set_pointer s o) (put_series s (new_series t) (hp w))) (stacks w)
          (take i (user w) ++ drop (S i) (user w)))
      end
  | CAdd p s =>
      o ← tk (hp w) !! p; po ← subs o; so ← sr (hp w) !! s;
      if decide (p ∈ user w /\ stat so = Fresh /\ in_parallel so = None /\ (len (subtasks po) + 1 < 2 ^ 64)%Z) then
        Some (mk_wsys (put_task p (set_subs (add_series s (first so) po) o) (put_series s (set_in_parallel (Some p) so) (hp w)))
          (stacks w) (user w))
      else None
  | CPush i s =>
      t ← user w !! i; o ← tk (hp w) !! t; so ← sr (hp w) !! s;
      if decide (stat so = Fresh /\ in_parallel so = None) then
        Some (mk_wsys (put_task t (set_pointer s o) (put_series s (put_in ToBack t so) (hp w))) (stacks w)
          (take i (user w) ++ drop (S i) (user w)))
      else None
  | CStart s =>
      so ← sr (hp w) !! s;
      if decide (stat so = Fresh /\ in_parallel so = None) then
        Some (mk_wsys (put_series s (set_stat Active so) (hp w)) ([FDispatch (first so)] :: stacks w) (user w))
      else None
  end.

Lemma sys_step_ok c w w' : sys_step c w = Some w' -> wstep w w'.
Proof.
  destruct w as [h ss u]. destruct c as [i|i|t par|i s|p s|i s|s]; cbn; intros E.
  - apply bind_Some in E as (st & Hst & E). destruct st as [|f st]; [done|]. apply bind_Some in E as ([h' fs] & Hf & [= <-]).
    rewrite <- (take_drop_middle ss i (f :: st) Hst) at 1. rewrite insert_take_drop by (by eapply lookup_lt_Some). by apply ws_frame.
  - apply bind_Some in E as (t & Ht & [= <-]). apply ws_complete. by rewrite take_drop_middle.
  - destruct (tk h !! t) eqn:Et; [done|]. injection E as <-. apply ws_new; [done|]. destruct par; auto.
  - apply bind_Some in E as (t & Ht & E). apply bind_Some in E as (o & Ho & E). destruct (sr h !! s) eqn:Es; [done|]. injection E as <-.
    rewrite <- (take_drop_middle u i t Ht) at 1. by apply ws_series.
  - apply bind_Some in E as (o & Ho & E). apply bind_Some in E as (po & Hp & E). apply bind_Some in E as (so & Hs & E).
    destruct (decide _) as [(? & ? & ? & ?)|]; [|done]. injection E as <-. by apply ws_add.
  - apply bind_Some in E as (t & Ht & E). apply bind_Some in E as (o & Ho & E). apply bind_Some in E as (so & Hs & E).
    destruct (decide _) as [[? ?]|]; [|done]. injection E as <-. rewrite <- (take_drop_middle u i t Ht) at 1.
    apply (ws_push h ss _ t _ s o so ToBack); try done. by left.
  - apply bind_Some in E as (so & Hs & E). destruct (decide _) as [[? ?]|]; [|done]. injection E as <-. by apply ws_start.
Qed.

Fixpoint sys_run (cs : list cmd) (w : wsys) : option wsys :=
  match cs with [] => Some w | c :: cs => w ← sys_step c w; sys_run cs w end.
Lemma sys_run_ok cs : forall w w', sys_run cs w = Some w' -> wreach w -> wreach w'.
Proof.
  induction cs as [|c cs IH]; intros w w' E R; [by injection E as <-|]. apply bind_Some in E as (w1 & E1 & E2).
  eapply IH; [exact E2|]. eapply wreach_step; [exact R|by eapply sys_step_ok].
Qed.

(** Two tasks in two series of a parallel, which another series runs. *)
Definition demo_build : list cmd :=
  [CNew 1 false; CSeries 0 10; CNew 2 false; CSeries 0 11; CNew 3 true; CAdd 3 10; CAdd 3 11; CSeries 0 12; CStart 12].
(** The first task ends before the second is dispatched. *)
Definition demo_joined : list cmd :=
  demo_build ++ [CFrame 0; CFrame 0; CFrame 0; CComplete 0; CFrame 0; CFrame 0; CFrame 0; CFrame 0; CFrame 0;
    CFrame 1; CFrame 1; CComplete 0; CFrame 0; CFrame 0; CFrame 0; CFrame 0; CFrame 0; CFrame 0].
Definition demo_over : list cmd := demo_joined ++ [CFrame 0; CFrame 0; CFrame 0; CFrame 0].

Definition demo_state (cs : list cmd) : wsys := default wf_init (sys_run cs wf_init).
Lemma demo_reach cs : match sys_run cs wf_init with Some _ => true | None => false end = true -> wreach (demo_state cs).
Proof.
  intros H. unfold demo_state. destruct (sys_run cs wf_init) as [w|] eqn:E; [|done]. eapply sys_run_ok; [exact E|constructor].
Qed.

Lemma workflow_safe_witness : wreach (demo_state demo_joined) /\ is_Some (frame_step (FCall 3 None) (hp (demo_state demo_joined))).
Proof.
  assert (R : wreach (demo_state demo_joined)) by (apply demo_reach; vm_compute; reflexivity). split; [done|].
  apply (proj1 (workflow_safe (demo_state demo_joined) R) [] (FCall 3 None) [] [[]; []]). vm_compute. reflexivity.
Defined.

Lemma parallel_joins_witness : exists so, sr (hp (demo_state demo_joined)) !! 11%positive = Some so /\ finished so = true /\ tasks so = [] /\ last so = None.
Proof.
  assert (R : wreach (demo_state demo_joined)) by (apply demo_reach; vm_compute; reflexivity).
  apply (parallel_joins (demo_state demo_joined) 3 None (mk_tobj (Some (mk_pobj [1%positive; 2%positive] [10%positive; 11%positive] 0 2 0)) None (Some 12%positive))
    (mk_pobj [1%positive; 2%positive] [10%positive; 11%positive] 0 2 0) R).
  - vm_compute. constructor.
  - vm_compute. reflexivity.
  - reflexivity.
  - do 2 constructor.
Defined.

Lemma workflow_quiescent_witness : wreach (demo_state demo_over) /\ waiting (hp (demo_state demo_over)) = [] /\
  (forall t, is_Some (tk (hp (demo_state demo_over)) !! t) <-> t ∈ user (demo_state demo_over) \/
    exists s so, sr (hp (demo_state demo_over)) !! s = Some so /\ t ∈ held so).
Proof.
  assert (R : wreach (demo_state demo_over)) by (apply demo_reach; vm_compute; reflexivity).
  destruct (workflow_quiescent (demo_state demo_over) R) as (W & _ & H); [vm_compute; reflexivity..|]. by split_and!.
Defined.
