(* ===== verification/Crc32c.v ===== *)
(** * The checksum of [src/util/crc32c.c]

    CRC-32C three ways: one bit at a time (the reference, [crc_ref]), eight bytes at a time
    with tables ([crc32c_sw]), and with the processor's instruction on three blocks at
    once, which are put together with an operator that appends zeros ([crc32c_hw]).
    The instruction is a parameter of the model, with the behaviour its manual gives.

    A checksum is a [Z] below [2^32]; the running value of the code is a [uint64_t]
    below [2^64].  Memory is the list of the bytes from [next] on; [addr] is the value
    of the pointer, which only decides how many bytes the first loop takes. *)

From S2P Require Import Prelude.

Local Open Scope Z_scope.

Definition POLY : Z := 0x82f63b78.

(** [crc & 1 ? (crc >> 1) ^ POLY : crc >> 1] *)
Definition crc_bit (crc : Z) : Z :=
  if Z.testbit crc 0 then Z.lxor (Z.shiftr crc 1) POLY else Z.shiftr crc 1.
Fixpoint crc_bits (n : nat) (crc : Z) : Z := match n with O => crc | S n => crc_bit (crc_bits n crc) end.

(** ** The reference *)

Definition crc_byte (crc b : Z) : Z := crc_bits 8 (Z.lxor crc b).
Definition crc_bytes (crc : Z) (bs : list Z) : Z := fold_left crc_byte bs crc.
Definition crc_ref (crc : Z) (bs : list Z) : Z := Z.lxor (crc_bytes (Z.lxor crc 0xffffffff) bs) 0xffffffff.

(** ** Tables *)

Abbreviation table := (list (list Z)).
Definition at_ (t : table) (k : nat) (n : Z) : Z := nth (Z.to_nat n) (nth k t []) 0.

Definition bytes_256 : list Z := Z.of_nat <$> seq 0 256.

(** [crc32c_init_sw] *)
Definition table0 : list Z := crc_bits 8 <$> bytes_256.
Definition next_entry (crc : Z) : Z := Z.lxor (nth (Z.to_nat (Z.land crc 0xff)) table0 0) (Z.shiftr crc 8).
Definition crc32c_init_sw : table := (fun k => Nat.iter k next_entry <$> table0) <$> seq 0 8.

(** ** Software *)

(** [crc = crc32c_table[0][(crc ^ *next++) & 0xff] ^ (crc >> 8)] *)
Definition sw_byte (t : table) (crc b : Z) : Z := Z.lxor (at_ t 0 (Z.land (Z.lxor crc b) 0xff)) (Z.shiftr crc 8).

(** [le64toh] of eight bytes. *)
Fixpoint le_bytes (bs : list Z) : Z := match bs with [] => 0 | b :: bs => Z.lxor b (Z.shiftl (le_bytes bs) 8) end.

Definition sw_quad (t : table) (crc ncopy : Z) : Z :=
  let crc := Z.lxor crc ncopy in
  Z.lxor (at_ t 7 (Z.land crc 0xff))
  (Z.lxor (at_ t 6 (Z.land (Z.shiftr crc 8) 0xff))
  (Z.lxor (at_ t 5 (Z.land (Z.shiftr crc 16) 0xff))
  (Z.lxor (at_ t 4 (Z.land (Z.shiftr crc 24) 0xff))
  (Z.lxor (at_ t 3 (Z.land (Z.shiftr crc 32) 0xff))
  (Z.lxor (at_ t 2 (Z.land (Z.shiftr crc 40) 0xff))
  (Z.lxor (at_ t 1 (Z.land (Z.shiftr crc 48) 0xff))
          (at_ t 0 (Z.shiftr crc 56)))))))).

(** [while (len && ((uintptr_t)next & 7) != 0)]: the bytes left and the value. *)
Fixpoint align_loop (step : Z -> Z -> Z) (addr : Z) (bs : list Z) (crc : Z) : list Z * Z :=
  match bs with
  | [] => ([], crc)
  | b :: bs' => if Z.land addr 7 =? 0 then (bs, crc) else align_loop step (addr + 1) bs' (step crc b)
  end.

(** [while (len >= 8)] *)
Fixpoint quad_loop (step : Z -> Z -> Z) (bs : list Z) (crc : Z) : list Z * Z :=
  match bs with
  | b0 :: b1 :: b2 :: b3 :: b4 :: b5 :: b6 :: b7 :: bs' =>
      quad_loop step bs' (step crc (le_bytes [b0; b1; b2; b3; b4; b5; b6; b7]))
  | _ => (bs, crc)
  end.

Definition crc32c_sw (t : table) (crci addr : Z) (bs : list Z) : Z :=
  let '(bs, crc) := align_loop (sw_byte t) addr bs (Z.lxor crci 0xffffffff) in
  let '(bs, crc) := quad_loop (sw_quad t) bs crc in
  Z.lxor (u32 (fold_left (sw_byte t) bs crc)) 0xffffffff.

Example crc32c_check :
  crc32c_sw crc32c_init_sw 0 5 [49; 50; 51; 52; 53; 54; 55; 56; 57; 49; 50; 51; 52; 53; 54; 55; 56; 57]
  = crc_ref 0 [49; 50; 51; 52; 53; 54; 55; 56; 57; 49; 50; 51; 52; 53; 54; 55; 56; 57].
Proof. vm_compute. reflexivity. Qed.

(** ** Polynomials *)

Lemma crc_bit_xor a b : crc_bit (Z.lxor a b) = Z.lxor (crc_bit a) (crc_bit b).
Proof.
  unfold crc_bit. rewrite Z.lxor_spec, Z.shiftr_lxor. destruct (Z.testbit a 0), (Z.testbit b 0); cbn [xorb].
  - rewrite (Z.lxor_comm (Z.shiftr b 1)), <- Z.lxor_assoc, (Z.lxor_assoc (Z.shiftr a 1)), Z.lxor_nilpotent, Z.lxor_0_r. done.
  - by rewrite !Z.lxor_assoc, (Z.lxor_comm (Z.shiftr b 1)).
  - by rewrite !Z.lxor_assoc.
  - done.
Qed.
Lemma crc_bits_xor n a b : crc_bits n (Z.lxor a b) = Z.lxor (crc_bits n a) (crc_bits n b).
Proof. induction n as [|n IH]; [done|]. cbn [crc_bits]. by rewrite IH, crc_bit_xor. Qed.
Lemma crc_bits_add n k x : crc_bits (n + k) x = crc_bits n (crc_bits k x).
Proof. induction n as [|n IH]; [done|]. cbn [crc_bits Nat.add]. by rewrite IH. Qed.
Lemma crc_bits_zero n : crc_bits n 0 = 0.
Proof. induction n as [|n IH]; [done|]. cbn [crc_bits]. by rewrite IH. Qed.

(** Bits that are shifted out one by one are shifted out at once. *)
Lemma crc_bits_shiftl n x : crc_bits n (Z.shiftl x (Z.of_nat n)) = x.
Proof.
  revert x. induction n as [|n IH]; intros x; [apply Z.shiftl_0_r|]. rewrite <- Nat.add_1_r, crc_bits_add.
  replace (crc_bits 1 (Z.shiftl x (Z.of_nat (n + 1)))) with (Z.shiftl x (Z.of_nat n)); [apply IH|].
  cbn [crc_bits]. unfold crc_bit. rewrite Z.shiftl_spec_low by lia. rewrite Z.shiftr_shiftl_l by lia. f_equal. lia.
Qed.

(** A value is its low byte and the rest. *)
Lemma split_byte x : 0 <= x -> x = Z.lxor (Z.land x 0xff) (Z.shiftl (Z.shiftr x 8) 8).
Proof.
  intros Hx. apply Z.bits_inj'. intros n Hn. rewrite Z.lxor_spec, Z.land_spec. change 0xff with (Z.ones 8).
  destruct (Z.lt_ge_cases n 8) as [Hlt|Hge].
  - rewrite Z.shiftl_spec_low, Z.ones_spec_low by lia. by rewrite andb_true_r, xorb_false_r.
  - rewrite Z.shiftl_spec_high, Z.ones_spec_high, Z.shiftr_spec by lia. rewrite andb_false_r, xorb_false_l. f_equal. lia.
Qed.
Lemma crc_bits_split x : 0 <= x -> crc_bits 8 x = Z.lxor (crc_bits 8 (Z.land x 0xff)) (Z.shiftr x 8).
Proof.
  intros Hx. rewrite (split_byte x) at 1 by done. rewrite crc_bits_xor. f_equal. apply (crc_bits_shiftl 8).
Qed.

Lemma lxor_range k a b : 0 <= k -> 0 <= a < 2 ^ k -> 0 <= b < 2 ^ k -> 0 <= Z.lxor a b < 2 ^ k.
Proof.
  intros Hk Ha Hb. assert (Hz : forall x, 0 <= x < 2 ^ k -> Z.shiftr x k = 0) by (intros x Hx; rewrite Z.shiftr_div_pow2 by lia; by apply Z.div_small).
  assert (H0 : 0 <= Z.lxor a b) by (apply Z.lxor_nonneg; lia). split; [done|].
  assert (H : Z.shiftr (Z.lxor a b) k = 0) by (by rewrite Z.shiftr_lxor, !Hz).
  rewrite Z.shiftr_div_pow2 in H by lia. apply Z.div_small_iff in H; lia.
Qed.
Lemma shiftr_range k n x : 0 <= n <= k -> 0 <= x < 2 ^ k -> 0 <= Z.shiftr x n < 2 ^ (k - n).
Proof.
  intros Hn Hx. rewrite Z.shiftr_div_pow2 by lia. split; [apply Z.div_pos; lia|]. apply Z.div_lt_upper_bound; [lia|].
  rewrite <- Z.pow_add_r by lia. replace (n + (k - n)) with k by lia. lia.
Qed.
Lemma shiftr_byte b : is_byte b -> Z.shiftr b 8 = 0.
Proof. intros H. unfold is_byte in H. rewrite Z.shiftr_div_pow2 by lia. by apply Z.div_small. Qed.
Lemma land_byte x : is_byte (Z.land x 0xff).
Proof. unfold is_byte. change 0xff with (Z.ones 8). rewrite Z.land_ones by lia. apply Z.mod_pos_bound. lia. Qed.

Lemma crc_bit_range k x : 32 < k -> 0 <= x < 2 ^ k -> 0 <= crc_bit x < 2 ^ (k - 1).
Proof.
  intros Hk Hx. pose proof (shiftr_range k 1 x ltac:(lia) Hx) as Hs. unfold crc_bit. destruct (Z.testbit x 0); [|done].
  apply lxor_range; [lia|done|]. assert (2 ^ 32 <= 2 ^ (k - 1)) by (apply Z.pow_le_mono_r; lia). unfold POLY. lia.
Qed.
Lemma crc_bit_range32 x : 0 <= x < 2 ^ 32 -> 0 <= crc_bit x < 2 ^ 32.
Proof. intros Hx. apply (crc_bit_range 33); lia. Qed.
Lemma crc_bits_range n x : 0 <= x < 2 ^ 32 -> 0 <= crc_bits n x < 2 ^ 32.
Proof. intros Hx. induction n as [|n IH]; [done|]. by apply crc_bit_range32. Qed.
Lemma crc_bits_down n k x : 32 + Z.of_nat n <= k -> 0 <= x < 2 ^ k -> 0 <= crc_bits n x < 2 ^ (k - Z.of_nat n).
Proof.
  intros Hk Hx. induction n as [|n IH]; [by rewrite Z.sub_0_r|]. cbn [crc_bits].
  replace (k - Z.of_nat (S n)) with (k - Z.of_nat n - 1) by lia. apply crc_bit_range; [lia|]. apply IH. lia.
Qed.
Lemma crc_bits_quad x : 0 <= x < 2 ^ 64 -> 0 <= crc_bits 64 x < 2 ^ 32.
Proof.
  intros Hx. change 64%nat with (32 + 32)%nat. rewrite crc_bits_add. apply crc_bits_range.
  apply (crc_bits_down 32 64); [lia|done].
Qed.
Lemma byte_word b : is_byte b -> 0 <= b < 2 ^ 32.
Proof. unfold is_byte. lia. Qed.

(** ** The tables hold what they should *)

Lemma nth_bytes {A} (f : Z -> A) d n : is_byte n -> nth (Z.to_nat n) (f <$> bytes_256) d = f n.
Proof.
  intros H. unfold is_byte in H. rewrite nth_lookup. unfold bytes_256. rewrite !list_lookup_fmap, lookup_seq_lt by lia. cbn.
  by rewrite Z2Nat.id by lia.
Qed.
Lemma next_entry_ok c : 0 <= c -> next_entry c = crc_bits 8 c.
Proof.
  intros Hc. unfold next_entry, table0. rewrite nth_bytes by apply land_byte. symmetry. by apply crc_bits_split.
Qed.
Lemma iter_entry k n : is_byte n -> Nat.iter k next_entry (crc_bits 8 n) = crc_bits (8 * S k) n.
Proof.
  intros Hn. induction k as [|k IH]; [done|]. rewrite Nat.iter_succ, IH. pose proof (crc_bits_range (8 * S k) n (byte_word _ Hn)).
  rewrite next_entry_ok by lia. rewrite <- crc_bits_add. f_equal. lia.
Qed.
Lemma table_at k n : (k < 8)%nat -> is_byte n -> at_ crc32c_init_sw k n = crc_bits (8 * S k) n.
Proof.
  intros Hk Hn. unfold at_, crc32c_init_sw. rewrite (nth_lookup _ k), list_lookup_fmap, lookup_seq_lt by lia. cbn [fmap option_fmap option_map default from_option].
  unfold id, table0. cbn [Nat.add]. rewrite <- list_fmap_compose, nth_bytes by done. by apply iter_entry.
Qed.

(** One byte, eight bytes. *)
Lemma sw_byte_ok c b : 0 <= c -> is_byte b -> sw_byte crc32c_init_sw c b = crc_byte c b.
Proof.
  intros Hc Hb. unfold sw_byte, crc_byte. assert (0 <= Z.lxor c b) by (apply Z.lxor_nonneg; unfold is_byte in Hb; lia).
  rewrite table_at by (lia || apply land_byte). rewrite (crc_bits_split (Z.lxor c b)) by done.
  by rewrite Z.shiftr_lxor, (shiftr_byte b), Z.lxor_0_r.
Qed.

Lemma crc_bits_peel j x : 0 <= x -> crc_bits (8 * S j) x = Z.lxor (crc_bits (8 * S j) (Z.land x 0xff)) (crc_bits (8 * j) (Z.shiftr x 8)).
Proof.
  intros Hx. replace (8 * S j)%nat with (8 * j + 8)%nat by lia. rewrite !crc_bits_add. rewrite (crc_bits_split x) by done.
  by rewrite crc_bits_xor.
Qed.

Lemma sw_quad_ok c d : 0 <= c < 2 ^ 64 -> 0 <= d < 2 ^ 64 -> sw_quad crc32c_init_sw c d = crc_bits 64 (Z.lxor c d).
Proof.
  intros Hc Hd. unfold sw_quad. pose proof (lxor_range 64 c d ltac:(lia) Hc Hd) as Hx. set (x := Z.lxor c d) in *.
  assert (Hs : forall n, 0 <= Z.shiftr x n) by (intros; apply Z.shiftr_nonneg; lia).
  assert (E : forall n, 0 <= n -> Z.shiftr (Z.shiftr x n) 8 = Z.shiftr x (n + 8)) by (intros n Hn; rewrite Z.shiftr_shiftr by lia; f_equal; lia).
  assert (H7 : is_byte (Z.shiftr x 56)) by (apply (shiftr_range 64 56 x); [lia|done]).
  rewrite !table_at by (lia || apply land_byte || done).
  change 64%nat with (8 * 8)%nat. rewrite (crc_bits_peel 7 x) by lia. f_equal. 
  rewrite (crc_bits_peel 6 (Z.shiftr x 8)) by apply Hs. f_equal. rewrite E by lia. change (8 + 8) with 16.
  rewrite (crc_bits_peel 5 (Z.shiftr x 16)) by apply Hs. f_equal. rewrite E by lia. change (16 + 8) with 24.
  rewrite (crc_bits_peel 4 (Z.shiftr x 24)) by apply Hs. f_equal. rewrite E by lia. change (24 + 8) with 32.
  rewrite (crc_bits_peel 3 (Z.shiftr x 32)) by apply Hs. f_equal. rewrite E by lia. change (32 + 8) with 40.
  rewrite (crc_bits_peel 2 (Z.shiftr x 40)) by apply Hs. f_equal. rewrite E by lia. change (40 + 8) with 48.
  by rewrite (crc_bits_peel 1 (Z.shiftr x 48)), E by (lia || apply Hs).
Qed.

(** Bytes one after the other are bytes at once. *)
Lemma crc_bytes_le bs c : crc_bytes c bs = crc_bits (8 * length bs) (Z.lxor c (le_bytes bs)).
Proof.
  revert c. induction bs as [|b bs IH]; intros c; [cbn; by rewrite Z.lxor_0_r|]. cbn [crc_bytes fold_left le_bytes length].
  unfold crc_bytes in IH. rewrite IH. replace (8 * S (length bs))%nat with (8 * length bs + 8)%nat by lia.
  rewrite crc_bits_add, <- Z.lxor_assoc, (crc_bits_xor 8).
  by rewrite (crc_bits_shiftl 8 (le_bytes bs) : crc_bits 8 (Z.shiftl (le_bytes bs) 8) = _).
Qed.
Lemma le_bytes_range bs : Forall is_byte bs -> 0 <= le_bytes bs < 2 ^ (8 * len bs).
Proof.
  induction 1 as [|b bs Hb _ IH]; [cbn; lia|]. cbn [le_bytes length]. apply lxor_range; [lia| |].
  - unfold is_byte in Hb. assert (2 ^ 8 <= 2 ^ (8 * Z.of_nat (S (length bs)))) by (apply Z.pow_le_mono_r; lia). lia.
  - rewrite Z.shiftl_mul_pow2 by lia. replace (8 * Z.of_nat (S (length bs))) with (8 * len bs + 8) by lia. rewrite Z.pow_add_r by lia. nia.
Qed.

Lemma crc_bytes_app c bs bs' : crc_bytes c (bs ++ bs') = crc_bytes (crc_bytes c bs) bs'.
Proof. apply fold_left_app. Qed.
Lemma crc_byte_range c b : 0 <= c < 2 ^ 32 -> is_byte b -> 0 <= crc_byte c b < 2 ^ 32.
Proof. intros Hc Hb. apply crc_bits_range, lxor_range; [lia|done|by apply byte_word]. Qed.
Lemma crc_bytes_range c bs : 0 <= c < 2 ^ 32 -> Forall is_byte bs -> 0 <= crc_bytes c bs < 2 ^ 32.
Proof. intros Hc Hb. revert c Hc. induction Hb as [|b bs Hb _ IH]; intros c Hc; [done|]. apply IH. by apply crc_byte_range. Qed.

(** ** The loops *)

Section Loops.
Context (byte quad : Z -> Z -> Z).
Hypothesis byte_ok : forall c b, 0 <= c < 2 ^ 32 -> is_byte b -> byte c b = crc_byte c b.
Hypothesis quad_ok : forall c d, 0 <= c < 2 ^ 32 -> 0 <= d < 2 ^ 64 -> quad c d = crc_bits 64 (Z.lxor c d).

Lemma byte_loop_ok bs c : 0 <= c < 2 ^ 32 -> Forall is_byte bs -> fold_left byte bs c = crc_bytes c bs.
Proof.
  intros Hc Hb. revert c Hc. induction Hb as [|b bs Hb _ IH]; intros c Hc; [done|]. cbn. rewrite byte_ok by done.
  apply IH. by apply crc_byte_range.
Qed.

Lemma align_loop_ok bs : forall addr c, 0 <= c < 2 ^ 32 -> Forall is_byte bs ->
  exists bs1 bs2, bs = bs1 ++ bs2 /\ align_loop byte addr bs c = (bs2, crc_bytes c bs1).
Proof.
  induction bs as [|b bs IH]; intros addr c Hc Hb; [by exists [], []|]. apply Forall_cons in Hb as [Hb Hbs]. cbn [align_loop].
  destruct (Z.land addr 7 =? 0); [by exists [], (b :: bs)|]. rewrite byte_ok by done.
  destruct (IH (addr + 1) (crc_byte c b)) as (bs1 & bs2 & -> & E); [by apply crc_byte_range|done|]. exists (b :: bs1), bs2. by rewrite E.
Qed.

Lemma quad_step c b8 : 0 <= c < 2 ^ 32 -> Forall is_byte b8 -> length b8 = 8%nat -> quad c (le_bytes b8) = crc_bytes c b8.
Proof.
  intros Hc Hb Hl. pose proof (le_bytes_range _ Hb) as Hr. rewrite Hl in Hr. rewrite quad_ok by done. by rewrite crc_bytes_le, Hl.
Qed.

Lemma quad_loop_ok n : forall bs c, (length bs <= n)%nat -> 0 <= c < 2 ^ 32 -> Forall is_byte bs ->
  exists bs1 bs2, bs = bs1 ++ bs2 /\ (length bs2 < 8)%nat /\ quad_loop quad bs c = (bs2, crc_bytes c bs1).
Proof.
  induction n as [|n IH]; intros bs c Hn Hc Hb; [destruct bs; [|cbn in Hn; lia]; exists [], []; split; [done|]; split; [cbn; lia|done]|].
  destruct bs as [|b0 [|b1 [|b2 [|b3 [|b4 [|b5 [|b6 [|b7 bs]]]]]]]]; try (eexists [], _; split; [done|]; split; [cbn; lia|done]).
  cbn [quad_loop]. change (b0 :: b1 :: b2 :: b3 :: b4 :: b5 :: b6 :: b7 :: bs) with ([b0; b1; b2; b3; b4; b5; b6; b7] ++ bs) in *.
  apply Forall_app in Hb as [Hb8 Hbs]. rewrite quad_step by done. rewrite length_app in Hn. cbn [length] in Hn.
  destruct (IH bs (crc_bytes c [b0; b1; b2; b3; b4; b5; b6; b7])) as (bs1 & bs2 & -> & Hl & E); [lia|by apply crc_bytes_range|done|].
  exists ([b0; b1; b2; b3; b4; b5; b6; b7] ++ bs1), bs2. split; [by rewrite <- app_assoc|]. split; [done|]. by rewrite E, crc_bytes_app.
Qed.
End Loops.

Lemma init_range crc : 0 <= crc < 2 ^ 32 -> 0 <= Z.lxor crc 0xffffffff < 2 ^ 32.
Proof. intros H. by apply lxor_range. Qed.

(** The table-driven checksum, eight bytes at a time, is the checksum computed bit by
    bit, for every buffer, length, alignment and initial value. *)
Theorem crc32c_sw_correct crc addr bs : 0 <= crc < 2 ^ 32 -> Forall is_byte bs ->
  crc32c_sw crc32c_init_sw crc addr bs = crc_ref crc bs.
Proof.
  intros Hc Hb. unfold crc32c_sw, crc_ref. pose proof (init_range _ Hc) as H0. set (c0 := Z.lxor crc 0xffffffff) in *.
  assert (B : forall c b, 0 <= c < 2 ^ 32 -> is_byte b -> sw_byte crc32c_init_sw c b = crc_byte c b) by (intros; apply sw_byte_ok; [lia|done]).
  assert (Q : forall c d, 0 <= c < 2 ^ 32 -> 0 <= d < 2 ^ 64 -> sw_quad crc32c_init_sw c d = crc_bits 64 (Z.lxor c d)) by (intros; apply sw_quad_ok; lia).
  destruct (align_loop_ok _ B bs addr c0 H0 Hb) as (b1 & b2 & -> & ->). apply Forall_app in Hb as [Hb1 Hb2].
  pose proof (crc_bytes_range _ _ H0 Hb1) as H1.
  destruct (quad_loop_ok _ Q _ b2 _ (le_n _) H1 Hb2) as (b3 & b4 & -> & _ & ->). apply Forall_app in Hb2 as [Hb3 Hb4].
  pose proof (crc_bytes_range _ _ H1 Hb3) as H2. rewrite (byte_loop_ok _ B) by done. rewrite <- !crc_bytes_app.
  f_equal. apply wrap_small. rewrite !crc_bytes_app. by apply crc_bytes_range.
Qed.

Lemma crc32c_sw_correct_witness :
  crc32c_sw crc32c_init_sw 0 5 [49; 50; 51; 52; 53; 54; 55; 56; 57] = 0xE3069283.
Proof.
  rewrite (crc32c_sw_correct 0 5 [49; 50; 51; 52; 53; 54; 55; 56; 57]); [vm_compute; reflexivity|lia|].
  repeat constructor; unfold is_byte; lia.
Defined.

(** ** Appending zeros *)

(** [gf2_matrix_times]; [None] past the end of the matrix. *)
Fixpoint gf2_loop (mat : list Z) (vec sum : Z) : option Z :=
  if vec =? 0 then Some sum
  else
    match mat with
    | [] => None
    | row :: mat => gf2_loop mat (Z.shiftr vec 1) (if Z.testbit vec 0 then Z.lxor sum row else sum)
    end.
Definition gf2_matrix_times (mat : list Z) (vec : Z) : option Z := gf2_loop mat vec 0.
Definition gf2_matrix_square (mat : list Z) : option (list Z) := mapM (gf2_matrix_times mat) mat.

(** [odd[0] = POLY; row = 1; for (n = 1; n < 32; n++) { odd[n] = row; row <<= 1; }] *)
Definition one_bit : list Z := POLY :: ((fun n => u32 (Z.shiftl 1 (Z.of_nat n))) <$> seq 0 31).

(** The loop of [crc32c_zeros_op]; [fuel] bounds the iterations. *)
Fixpoint zeros_loop (fuel : nat) (odd : list Z) (len : Z) : option (list Z) :=
  match fuel with
  | O => None
  | S fuel =>
      even ← gf2_matrix_square odd;
      let len := Z.shiftr len 1 in
      if len =? 0 then Some even
      else
        odd ← gf2_matrix_square even;
        let len := Z.shiftr len 1 in
        if len =? 0 then Some odd else zeros_loop fuel odd len
  end.
Definition crc32c_zeros_op (len : Z) : option (list Z) :=
  even ← gf2_matrix_square one_bit; odd ← gf2_matrix_square even; zeros_loop 33 odd len.

Definition crc32c_zeros (len : Z) : option table :=
  op ← crc32c_zeros_op len;
  mapM (fun k => mapM (fun n => gf2_matrix_times op (u32 (Z.shiftl n (8 * Z.of_nat k)))) bytes_256) (seq 0 4).

Definition crc32c_shift (zeros : table) (crc : Z) : Z :=
  Z.lxor (at_ zeros 0 (Z.land crc 0xff))
  (Z.lxor (at_ zeros 1 (Z.land (Z.shiftr crc 8) 0xff))
  (Z.lxor (at_ zeros 2 (Z.land (Z.shiftr crc 16) 0xff))
          (at_ zeros 3 (Z.shiftr crc 24)))).

Definition LONG : nat := Z.to_nat 8192.
Definition SHORT : nat := Z.to_nat 256.

(** [crc32c_long] and [crc32c_short] as [crc32c_init_hw] fills them with [crc32c_zeros]. *)
Definition crc32c_init_hw (zeros : Z -> option table) : option (table * table) :=
  l ← zeros (Z.of_nat LONG); s ← zeros (Z.of_nat SHORT); Some (l, s).

(** ** Hardware *)

Section Hardware.
(** The instructions [crc32b] and [crc32q]. *)
Context (crc32b crc32q : Z -> Z -> Z).

(** The three streams of the inner loop, [n] iterations from the pointers on. *)
Fixpoint triple_loop (n : nat) (c0 c1 c2 : Z) (p0 p1 p2 : list Z) : Z * Z * Z :=
  match n with
  | O => (c0, c1, c2)
  | S n =>
      triple_loop n (crc32q c0 (le_bytes (take 8 p0))) (crc32q c1 (le_bytes (take 8 p1))) (crc32q c2 (le_bytes (take 8 p2)))
        (drop 8 p0) (drop 8 p1) (drop 8 p2)
  end.

(** [while (len >= size * 3)]; [fuel] bounds the iterations. *)
Fixpoint block_loop (fuel : nat) (size : nat) (zeros : table) (bs : list Z) (crc0 : Z) : list Z * Z :=
  match fuel with
  | O => (bs, crc0)
  | S fuel =>
      if (length bs <? 3 * size)%nat then (bs, crc0)
      else
        let '(c0, c1, c2) := triple_loop (size / 8) crc0 0 0 bs (drop size bs) (drop (2 * size) bs) in
        let c0 := Z.lxor (crc32c_shift zeros c0) c1 in
        let c0 := Z.lxor (crc32c_shift zeros c0) c2 in
        block_loop fuel size zeros (drop (3 * size) bs) c0
  end.

Definition crc32c_hw (long short : table) (crc addr : Z) (bs : list Z) : Z :=
  let '(bs, crc0) := align_loop crc32b addr bs (Z.lxor crc 0xffffffff) in
  let '(bs, crc0) := block_loop (length bs) LONG long bs crc0 in
  let '(bs, crc0) := block_loop (length bs) SHORT short bs crc0 in
  let '(bs, crc0) := quad_loop crc32q bs crc0 in
  Z.lxor (u32 (fold_left crc32b bs crc0)) 0xffffffff.

End Hardware.

(** ** The operator *)

(** The matrix of [k] zero bits. *)
Definition op_of (k : nat) : list Z := (fun i => crc_bits k (Z.shiftl 1 (Z.of_nat i))) <$> seq 0 32.

Lemma one_bit_op : one_bit = op_of 1.
Proof. vm_compute. reflexivity. Qed.

Lemma gf2_loop_ok k n : forall j vec sum, 0 <= vec < 2 ^ Z.of_nat n ->
  gf2_loop ((fun i => crc_bits k (Z.shiftl 1 (Z.of_nat i))) <$> seq j n) vec sum = Some (Z.lxor sum (crc_bits k (Z.shiftl vec (Z.of_nat j)))).
Proof.
  induction n as [|n IH]; intros j vec sum Hv.
  - assert (vec = 0) as -> by (cbn in Hv; lia). cbn. by rewrite Z.shiftl_0_l, crc_bits_zero, Z.lxor_0_r.
  - cbn [seq fmap list_fmap gf2_loop]. destruct (Z.eqb_spec vec 0) as [->|Hne].
    { by rewrite Z.shiftl_0_l, crc_bits_zero, Z.lxor_0_r. }
    pose proof (shiftr_range (Z.of_nat (S n)) 1 vec ltac:(lia) Hv) as Hs.
    replace (Z.of_nat (S n) - 1) with (Z.of_nat n) in Hs by lia.
    change (list_fmap Z Z) with (@fmap list list_fmap Z Z). rewrite (IH (S j)) by done. f_equal.
    assert (E : vec = Z.lxor (if Z.testbit vec 0 then 1 else 0) (Z.shiftl (Z.shiftr vec 1) 1)).
    { apply Z.bits_inj'. intros b Hb. rewrite Z.lxor_spec. destruct (Z.eq_dec b 0) as [->|Hb0].
      - rewrite Z.shiftl_spec_low by lia. destruct (Z.testbit vec 0); done.
      - rewrite Z.shiftl_spec_high, Z.shiftr_spec by lia. replace (b - 1 + 1) with b by lia.
        assert (Hz : Z.testbit (if Z.testbit vec 0 then 1 else 0) b = false).
        { destruct (Z.testbit vec 0); [|apply Z.testbit_0_l]. apply (Z.bits_above_log2 1 b); cbn; lia. }
        by rewrite Hz, xorb_false_l. }
    rewrite E at 3. rewrite Z.shiftl_lxor, crc_bits_xor, <- Z.lxor_assoc, Z.shiftl_shiftl by lia.
    replace (1 + Z.of_nat j) with (Z.of_nat (S j)) by lia. f_equal. destruct (Z.testbit vec 0); [done|].
    by rewrite Z.shiftl_0_l, crc_bits_zero, Z.lxor_0_r.
Qed.
Lemma times_op k v : 0 <= v < 2 ^ 32 -> gf2_matrix_times (op_of k) v = Some (crc_bits k v).
Proof. intros Hv. unfold gf2_matrix_times, op_of. rewrite gf2_loop_ok by done. by rewrite Z.shiftl_0_r, Z.lxor_0_l. Qed.

Lemma one_range i : (i < 32)%nat -> 0 <= Z.shiftl 1 (Z.of_nat i) < 2 ^ 32.
Proof. intros Hi. rewrite Z.shiftl_1_l. split; [lia|]. apply Z.pow_lt_mono_r; lia. Qed.
Lemma mapM_fmap {A B} (f : A -> option B) (g : A -> B) l : (forall x, x ∈ l -> f x = Some (g x)) -> mapM f l = Some (g <$> l).
Proof.
  induction l as [|x l IH]; intros H; [done|]. cbn. rewrite H by constructor. cbn. rewrite IH; [done|]. intros y Hy. apply H. by constructor.
Qed.

Lemma square_op k : gf2_matrix_square (op_of k) = Some (op_of (2 * k)).
Proof.
  unfold gf2_matrix_square. rewrite (mapM_fmap _ (crc_bits k)).
  - f_equal. unfold op_of. rewrite <- list_fmap_compose. apply list_fmap_ext. intros i x _. cbn. rewrite <- crc_bits_add. f_equal. lia.
  - intros x (i & -> & Hi%elem_of_seq)%list_elem_of_fmap. apply times_op, crc_bits_range, one_range. lia.
Qed.

(** Squaring doubles the zeros. *)
Lemma crc_zeros_loop_ok m : forall fuel s, (m <= 2 * fuel - 1)%nat -> (0 < fuel)%nat ->
  zeros_loop fuel (op_of (4 * s)) (2 ^ Z.of_nat m) = Some (op_of (8 * s * 2 ^ m)).
Proof.
  induction m as [m IH] using lt_wf_ind. intros [|fuel] s Hf Hp; [lia|]. cbn [zeros_loop]. rewrite square_op. cbn [mbind option_bind].
  assert (Hs : forall j, Z.shiftr (2 ^ Z.of_nat (S j)) 1 = 2 ^ Z.of_nat j).
  { intros j. rewrite Z.shiftr_div_pow2 by lia. replace (Z.of_nat (S j)) with (Z.of_nat j + 1) by lia.
    rewrite Z.pow_add_r by lia. by rewrite Z.div_mul. }
  destruct m as [|[|m]].
  - cbn [Z.of_nat]. change (Z.shiftr (2 ^ 0) 1 =? 0) with true. cbn beta iota. do 2 f_equal. cbn. lia.
  - rewrite Hs. change (2 ^ Z.of_nat 0 =? 0) with false. cbn beta iota. rewrite square_op. cbn [mbind option_bind].
    change (Z.shiftr (2 ^ Z.of_nat 0) 1 =? 0) with true. cbn beta iota. do 2 f_equal. cbn. lia.
  - rewrite Hs, (proj2 (Z.eqb_neq _ 0)) by lia. rewrite square_op. cbn [mbind option_bind]. rewrite Hs, (proj2 (Z.eqb_neq _ 0)) by lia.
    replace (2 * (2 * (4 * s)))%nat with (4 * (4 * s))%nat by lia. rewrite (IH m) by lia. do 2 f_equal. cbn [Nat.pow]. lia.
Qed.
Lemma zeros_op_run one even odd n res : one = one_bit -> gf2_matrix_square one = Some even -> gf2_matrix_square even = Some odd ->
  zeros_loop 33 odd n = res -> crc32c_zeros_op n = res.
Proof. intros -> E1 E2 <-. unfold crc32c_zeros_op. rewrite E1. cbn [mbind option_bind]. by rewrite E2. Qed.
Lemma zeros_op_ok m : (m < 64)%nat -> crc32c_zeros_op (2 ^ Z.of_nat m) = Some (op_of (8 * 2 ^ m)).
Proof.
  intros Hm. eapply zeros_op_run; [symmetry; apply one_bit_op|apply square_op|apply square_op|].
  replace (2 * (2 * 1))%nat with (4 * 1)%nat by lia. rewrite (crc_zeros_loop_ok m 33 1) by lia. by rewrite Nat.mul_1_r.
Qed.

Definition zeros_table (k : nat) : table := (fun j => (fun n => crc_bits k (Z.shiftl n (8 * Z.of_nat j))) <$> bytes_256) <$> seq 0 4.

Lemma byte_shift n j : is_byte n -> (j < 4)%nat -> 0 <= Z.shiftl n (8 * Z.of_nat j) < 2 ^ 32.
Proof.
  unfold is_byte. intros Hn Hj. rewrite Z.shiftl_mul_pow2 by lia.
  assert (2 ^ (8 * Z.of_nat j) <= 2 ^ 24) by (apply Z.pow_le_mono_r; lia). nia.
Qed.
Lemma bytes_256_in n : n ∈ bytes_256 <-> is_byte n.
Proof.
  unfold bytes_256, is_byte. rewrite list_elem_of_fmap. split.
  - intros (i & -> & Hi%elem_of_seq). lia.
  - intros H. exists (Z.to_nat n). rewrite elem_of_seq. lia.
Qed.
Lemma zeros_ok m : (m < 64)%nat -> crc32c_zeros (2 ^ Z.of_nat m) = Some (zeros_table (8 * 2 ^ m)).
Proof.
  intros Hm. unfold crc32c_zeros. rewrite zeros_op_ok by done. cbn [mbind option_bind].
  apply (mapM_fmap _ (fun j => (fun n => crc_bits (8 * 2 ^ m) (Z.shiftl n (8 * Z.of_nat j))) <$> bytes_256)).
  intros j Hj%elem_of_seq. apply (mapM_fmap _ (fun n => crc_bits (8 * 2 ^ m) (Z.shiftl n (8 * Z.of_nat j)))).
  intros n Hn%bytes_256_in. pose proof (byte_shift n j Hn ltac:(lia)). rewrite wrap_small by done. by apply times_op.
Qed.

Lemma zeros_size m size : (m < 64)%nat -> Z.of_nat size = 2 ^ Z.of_nat m -> crc32c_zeros (Z.of_nat size) = Some (zeros_table (8 * size)).
Proof.
  intros Hm Es. rewrite Es, zeros_ok by done. assert (size = 2 ^ m)%nat as ->; [|done].
  apply Nat2Z.inj. by rewrite Es, Nat2Z.inj_pow.
Qed.

Lemma zeros_at k j n : (j < 4)%nat -> is_byte n -> at_ (zeros_table k) j n = crc_bits k (Z.shiftl n (8 * Z.of_nat j)).
Proof.
  intros Hj Hn. unfold at_, zeros_table. rewrite (nth_lookup _ j), list_lookup_fmap, lookup_seq_lt by lia.
  cbn [fmap option_fmap option_map default from_option]. unfold id. cbn [Nat.add]. by rewrite nth_bytes.
Qed.
Lemma crc32c_shift_ok k c : 0 <= c < 2 ^ 32 -> crc32c_shift (zeros_table k) c = crc_bits k c.
Proof.
  intros Hc. unfold crc32c_shift. assert (H3 : is_byte (Z.shiftr c 24)) by (apply (shiftr_range 32 24 c); [lia|done]).
  rewrite !zeros_at by (lia || apply land_byte || done). rewrite <- !crc_bits_xor. f_equal. cbn [Z.of_nat Z.mul Pos.mul Pos.of_succ_nat Pos.succ].
  assert (Hs : forall n, 0 <= Z.shiftr c n) by (intros; apply Z.shiftr_nonneg; lia).
  pose proof (split_byte c ltac:(lia)) as E0. pose proof (split_byte (Z.shiftr c 8) (Hs 8)) as E1. pose proof (split_byte (Z.shiftr c 16) (Hs 16)) as E2.
  rewrite Z.shiftr_shiftr in E1, E2 by lia. change (8 + 8) with 16 in E1. change (16 + 8) with 24 in E2.
  symmetry. rewrite E0 at 1. rewrite E1 at 1. rewrite E2 at 1. rewrite !Z.shiftl_lxor, !Z.shiftl_shiftl, Z.shiftl_0_r by lia. done.
Qed.

(** ** Three streams *)

(** A checksum of a block goes on from the one before it. *)
Lemma crc_bytes_shift c bs : crc_bytes c bs = Z.lxor (crc_bits (8 * length bs) c) (crc_bytes 0 bs).
Proof. rewrite !crc_bytes_le, Z.lxor_0_l. by rewrite crc_bits_xor. Qed.

Section HardwareCorrect.
Context (crc32b crc32q : Z -> Z -> Z).
(** The manual: the instructions divide by the polynomial of CRC-32C. *)
Hypothesis crc32b_doc : forall c b, 0 <= c < 2 ^ 32 -> is_byte b -> crc32b c b = crc_bits 8 (Z.lxor c b).
Hypothesis crc32q_doc : forall c d, 0 <= c < 2 ^ 32 -> 0 <= d < 2 ^ 64 -> crc32q c d = crc_bits 64 (Z.lxor c d).

Lemma stream_step c p n : 0 <= c < 2 ^ 32 -> Forall is_byte p -> (8 * S n <= length p)%nat ->
  crc_bytes (crc32q c (le_bytes (take 8 p))) (take (8 * n) (drop 8 p)) = crc_bytes c (take (8 * S n) p) /\
  0 <= crc32q c (le_bytes (take 8 p)) < 2 ^ 32.
Proof.
  intros Hc Hp Hl. assert (Ht : Forall is_byte (take 8 p)) by (by apply Forall_take).
  rewrite (quad_step _ crc32q_doc) by (done || rewrite length_take; lia). split; [|by apply crc_bytes_range].
  rewrite <- crc_bytes_app. f_equal. rewrite (take_take_drop p 8). f_equal. lia.
Qed.

Lemma triple_loop_ok n : forall c0 c1 c2 p0 p1 p2,
  0 <= c0 < 2 ^ 32 -> 0 <= c1 < 2 ^ 32 -> 0 <= c2 < 2 ^ 32 -> Forall is_byte p0 -> Forall is_byte p1 -> Forall is_byte p2 ->
  (8 * n <= length p0)%nat -> (8 * n <= length p1)%nat -> (8 * n <= length p2)%nat ->
  triple_loop crc32q n c0 c1 c2 p0 p1 p2 =
    (crc_bytes c0 (take (8 * n) p0), crc_bytes c1 (take (8 * n) p1), crc_bytes c2 (take (8 * n) p2)).
Proof.
  induction n as [|n IH]; intros c0 c1 c2 p0 p1 p2 H0 H1 H2 P0 P1 P2 L0 L1 L2; [done|]. cbn [triple_loop].
  destruct (stream_step c0 p0 n H0 P0 L0) as [E0 R0], (stream_step c1 p1 n H1 P1 L1) as [E1 R1], (stream_step c2 p2 n H2 P2 L2) as [E2 R2].
  rewrite IH by (done || (by apply Forall_drop) || (rewrite length_drop; lia)). by rewrite E0, E1, E2.
Qed.

Lemma block_loop_ok size fuel : forall bs c, (0 < size)%nat -> (size mod 8 = 0)%nat -> 0 <= c < 2 ^ 32 -> Forall is_byte bs ->
  exists b1 b2, bs = b1 ++ b2 /\ block_loop crc32q fuel size (zeros_table (8 * size)) bs c = (b2, crc_bytes c b1).
Proof.
  induction fuel as [|fuel IH]; intros bs c Hs Hm Hc Hb; [by exists [], bs|]. cbn [block_loop].
  destruct (Nat.ltb_spec (length bs) (3 * size)) as [Hlt|Hge]; [by exists [], bs|].
  assert (E8 : (8 * (size / 8) = size)%nat) by (pose proof (Nat.div_mod size 8 ltac:(lia)); lia).
  rewrite triple_loop_ok by (lia || done || (by apply Forall_drop) || (rewrite ?length_drop, ?E8; lia)). rewrite E8.
  set (x0 := take size bs). set (x1 := take size (drop size bs)). set (x2 := take size (drop (2 * size) bs)).
  assert (F0 : Forall is_byte x0) by (by apply Forall_take). assert (F1 : Forall is_byte x1) by (by apply Forall_take, Forall_drop).
  assert (F2 : Forall is_byte x2) by (by apply Forall_take, Forall_drop).
  assert (L1 : length x1 = size) by (unfold x1; rewrite length_take, length_drop; lia).
  assert (L2 : length x2 = size) by (unfold x2; rewrite length_take, length_drop; lia).
  pose proof (crc_bytes_range _ _ Hc F0) as R0. pose proof (crc_bytes_range _ _ R0 F1) as R1.
  assert (J1 : Z.lxor (crc32c_shift (zeros_table (8 * size)) (crc_bytes c x0)) (crc_bytes 0 x1) = crc_bytes (crc_bytes c x0) x1).
  { rewrite crc32c_shift_ok by done. rewrite (crc_bytes_shift (crc_bytes c x0) x1). by rewrite L1. }
  assert (J2 : Z.lxor (crc32c_shift (zeros_table (8 * size)) (crc_bytes (crc_bytes c x0) x1)) (crc_bytes 0 x2) = crc_bytes (crc_bytes (crc_bytes c x0) x1) x2).
  { rewrite crc32c_shift_ok by done. rewrite (crc_bytes_shift (crc_bytes (crc_bytes c x0) x1) x2). by rewrite L2. }
  cbn beta iota zeta. rewrite J1, J2. pose proof (crc_bytes_range _ _ R1 F2) as R2.
  destruct (IH (drop (3 * size) bs) _ Hs Hm R2 ltac:(by apply Forall_drop)) as (b1 & b2 & E & ->).
  exists (x0 ++ x1 ++ x2 ++ b1), b2. split; [|by rewrite !crc_bytes_app].
  rewrite <- !app_assoc, <- E. unfold x0, x1, x2. replace (drop (3 * size) bs) with (drop size (drop (2 * size) bs)) by (rewrite drop_drop; f_equal; lia).
  rewrite take_drop. replace (drop (2 * size) bs) with (drop size (drop size bs)) by (rewrite drop_drop; f_equal; lia). by rewrite !take_drop.
Qed.

Lemma init_hw_run zeros l s : zeros (Z.of_nat LONG) = Some l -> zeros (Z.of_nat SHORT) = Some s -> crc32c_init_hw zeros = Some (l, s).
Proof. intros E1 E2. unfold crc32c_init_hw. rewrite E1. cbn [mbind option_bind]. by rewrite E2. Qed.
Lemma init_hw_ok : crc32c_init_hw crc32c_zeros = Some (zeros_table (8 * LONG), zeros_table (8 * SHORT)).
Proof.
  apply init_hw_run.
  - apply (zeros_size 13); [lia|]. vm_compute. reflexivity.
  - apply (zeros_size 8); [lia|]. vm_compute. reflexivity.
Qed.

Lemma hw_ref crc addr bs : 0 <= crc < 2 ^ 32 -> Forall is_byte bs ->
  crc32c_hw crc32b crc32q (zeros_table (8 * LONG)) (zeros_table (8 * SHORT)) crc addr bs = crc_ref crc bs.
Proof.
  intros Hc Hb. unfold crc32c_hw, crc_ref. pose proof (init_range _ Hc) as H0. set (c0 := Z.lxor crc 0xffffffff) in *.
  destruct (align_loop_ok _ crc32b_doc bs addr c0 H0 Hb) as (b1 & b2 & -> & ->). apply Forall_app in Hb as [Hb1 Hb2].
  pose proof (crc_bytes_range _ _ H0 Hb1) as H1.
  destruct (block_loop_ok LONG (length b2) b2 _ ltac:(unfold LONG; lia) eq_refl H1 Hb2) as (b3 & b4 & -> & ->). apply Forall_app in Hb2 as [Hb3 Hb4].
  pose proof (crc_bytes_range _ _ H1 Hb3) as H2.
  destruct (block_loop_ok SHORT (length b4) b4 _ ltac:(unfold SHORT; lia) eq_refl H2 Hb4) as (b5 & b6 & -> & ->). apply Forall_app in Hb4 as [Hb5 Hb6].
  pose proof (crc_bytes_range _ _ H2 Hb5) as H3.
  destruct (quad_loop_ok _ crc32q_doc _ b6 _ (le_n _) H3 Hb6) as (b7 & b8 & -> & _ & ->). apply Forall_app in Hb6 as [Hb7 Hb8].
  pose proof (crc_bytes_range _ _ H3 Hb7) as H4. rewrite (byte_loop_ok _ crc32b_doc) by done. rewrite !crc_bytes_app. f_equal.
  apply wrap_small. by apply crc_bytes_range.
Qed.
End HardwareCorrect.

(** The checksum computed with the instruction (in three streams joined by the operator
    that appends 8192 or 256 zero bytes) is the checksum computed bit by bit, whatever the
    buffer, its length and alignment, and the tables the initialisation makes exist. *)
Theorem crc32c_hw_correct crc32b crc32q crc addr bs :
  (forall c b, 0 <= c < 2 ^ 32 -> is_byte b -> crc32b c b = crc_bits 8 (Z.lxor c b)) ->
  (forall c d, 0 <= c < 2 ^ 32 -> 0 <= d < 2 ^ 64 -> crc32q c d = crc_bits 64 (Z.lxor c d)) ->
  0 <= crc < 2 ^ 32 -> Forall is_byte bs ->
  exists long short, crc32c_init_hw crc32c_zeros = Some (long, short) /\ crc32c_hw crc32b crc32q long short crc addr bs = crc_ref crc bs.
Proof.
  intros Hb Hq Hc Hbs. exists (zeros_table (8 * LONG)), (zeros_table (8 * SHORT)). split; [apply init_hw_ok|]. by apply hw_ref.
Qed.

Lemma crc32c_hw_correct_witness : exists long short, crc32c_init_hw crc32c_zeros = Some (long, short) /\
  crc32c_hw (fun c b => crc_bits 8 (Z.lxor c b)) (fun c d => crc_bits 64 (Z.lxor c d)) long short 0 5 (replicate 800 7)
    = crc_ref 0 (replicate 800 7).
Proof.
  apply (crc32c_hw_correct (fun c b => crc_bits 8 (Z.lxor c b)) (fun c d => crc_bits 64 (Z.lxor c d)) 0 5 (replicate 800 7));
    [done|done|lia|]. apply Forall_replicate. unfold is_byte. lia.
Defined.

(** [crc32c]: the one or the other. *)
Definition crc32c (crc32b crc32q : Z -> Z -> Z) (sse42 : bool) (sw long short : table) (crc addr : Z) (bs : list Z) : Z :=
  if sse42 then crc32c_hw crc32b crc32q long short crc addr bs else crc32c_sw sw crc addr bs.
