(* ===== verification/CommSched.v ===== *)
(** * Targets and groups: [src/kernel/CommScheduler.cc]

    A target has a load and a maximum load; a group keeps its targets in a binary
    heap ordered by relative load, so that its top is the least loaded one.  A target
    knows its place in the heap ([index]).

    The heap operations move a hole through the array as the code does and write
    [index] where the code does; [tg_heap] is the part of the array below
    [heap_size], [heap_buf_size] its capacity.  An operation under the mutex is one
    step; a caller that waits is counted in [wait_cnt] and wakes up in any order.
    [holders] is not in the source: it counts the acquisitions that were not released. *)

From S2P Require Import Prelude RBTree.

Local Open Scope nat_scope.

Record target := mk_target {
  t_max : Z;
  t_cur : Z;
  t_wait : Z;
  t_group : option loc;
  t_index : nat }.

Definition set_index (i : nat) (t : target) : target := mk_target (t_max t) (t_cur t) (t_wait t) (t_group t) i.
Definition set_cur (n : Z) (t : target) : target := mk_target (t_max t) n (t_wait t) (t_group t) (t_index t).
Definition set_twait (n : Z) (t : target) : target := mk_target (t_max t) (t_cur t) n (t_group t) (t_index t).
Definition set_group (g : option loc) (t : target) : target := mk_target (t_max t) (t_cur t) (t_wait t) g (t_index t).

(** The targets in memory, by address. *)
Abbreviation targets := (loc -> target).
Definition upd (x : loc) (f : target -> target) (T : targets) : targets := fun y => if decide (y = x) then f (T y) else T y.

(** [CommSchedGroup::target_cmp] *)
Definition target_cmp (T : targets) (x y : loc) : Z :=
  let load1 := u64 (t_cur (T x) * t_max (T y)) in
  let load2 := u64 (t_cur (T y) * t_max (T x)) in
  if (load1 <? load2)%Z then (-1)%Z else if (load2 <? load1)%Z then 1%Z else 0%Z.

Definition parent_of (i : nat) : nat := (i - 1) / 2.

(** The loop of [heap_adjust]; [fuel] bounds the iterations. *)
Fixpoint adjust_loop (fuel : nat) (swap_on_equal : Z) (target : loc) (index : nat) (H : list loc) (T : targets) : list loc * targets * nat :=
  match fuel with
  | O => (H, T, index)
  | S fuel =>
      if index =? 0 then (H, T, index)
      else
        let parent := H !!! parent_of index in
        if (target_cmp T target parent <? swap_on_equal)%Z then
          adjust_loop fuel swap_on_equal target (parent_of index) (<[index := parent]> H) (upd parent (set_index index) T)
        else (H, T, index)
  end.
Definition heap_adjust (index : nat) (swap_on_equal : Z) (H : list loc) (T : targets) : list loc * targets :=
  let target := H !!! index in
  let '(H, T, index) := adjust_loop (S index) swap_on_equal target index H T in
  (<[index := target]> H, upd target (set_index index) T).

(** The loop of [heapify] and what follows it; [heap_size] is the length of the array. *)
Fixpoint heapify_loop (fuel : nat) (target : loc) (top : nat) (H : list loc) (T : targets) : list loc * targets * nat :=
  match fuel with
  | O => (H, T, top)
  | S fuel =>
      let last := length H - 1 in
      let i := 2 * top + 1 in
      if i <? last then
        let c0 := H !!! i in
        let c1 := H !!! S i in
        if (target_cmp T c0 target <? 0)%Z then
          if (target_cmp T c1 c0 <? 0)%Z
          then heapify_loop fuel target (S i) (<[top := c1]> H) (upd c1 (set_index top) T)
          else heapify_loop fuel target i (<[top := c0]> H) (upd c0 (set_index top) T)
        else if (target_cmp T c1 target <? 0)%Z
        then heapify_loop fuel target (S i) (<[top := c1]> H) (upd c1 (set_index top) T)
        else (H, T, top)
      else if (i =? last) && (target_cmp T (H !!! i) target <? 0)%Z
      then (<[top := H !!! i]> H, upd (H !!! i) (set_index top) T, i)
      else (H, T, top)
  end.
Definition heapify (top : nat) (H : list loc) (T : targets) : list loc * targets :=
  let target := H !!! top in
  let '(H, T, top) := heapify_loop (S (length H)) target top H T in
  (<[top := target]> H, upd target (set_index top) T).

Record group := mk_group {
  tg_heap : list loc;
  heap_buf_size : Z;
  g_max : Z;
  g_cur : Z;
  g_wait : Z }.

Definition int_max : Z := 2 ^ 31 - 1.

(** [heap_insert]; [mem] is whether [realloc] has memory.  The doubled capacity is
    undefined when it is not an [int]. *)
Definition heap_insert (mem : bool) (x : loc) (g : group) (T : targets) : option (group * targets) + unit :=
  let full := (len (tg_heap g) =? heap_buf_size g)%Z in
  if full && (int_max <? 2 * heap_buf_size g)%Z then inr tt
  else if full && negb mem then inl None
  else
    let size := if full then (2 * heap_buf_size g)%Z else heap_buf_size g in
    let n := length (tg_heap g) in
    let '(H, T) := heap_adjust n 0 (tg_heap g ++ [x]) (upd x (set_index n) T) in
    inl (Some (mk_group H size (g_max g) (g_cur g) (g_wait g), T)).

(** [heap_remove] *)
Definition heap_remove (index : nat) (g : group) (T : targets) : group * targets :=
  let n := length (tg_heap g) - 1 in
  let H := take n (tg_heap g) in
  if index =? n then (mk_group H (heap_buf_size g) (g_max g) (g_cur g) (g_wait g), T)
  else
    let target := tg_heap g !!! n in
    let '(H, T) := heap_adjust index 0 (<[index := target]> H) (upd target (set_index index) T) in
    let '(H, T) := heapify (t_index (T target)) H T in
    (mk_group H (heap_buf_size g) (g_max g) (g_cur g) (g_wait g), T).

(** ** Heaps *)

Section Heap.
Context (cmp : loc -> loc -> Z).
Hypothesis cmp_trans : forall x y z, (cmp x y <= 0 -> cmp y z <= 0 -> cmp x z <= 0)%Z.
Hypothesis cmp_anti : forall x y, cmp y x = (- cmp x y)%Z.

Definition child (p c : nat) : Prop := c = 2 * p + 1 \/ c = 2 * p + 2.
Definition le_at (L : list loc) (i j : nat) : Prop := forall x y, L !! i = Some x -> L !! j = Some y -> (cmp x y <= 0)%Z.

Definition heap (L : list loc) : Prop := forall p c, child p c -> le_at L p c.
(** In order except at [k]. *)
Record heap_but (L : list loc) (k : nat) : Prop := mk_heap_but {
  hb_away : forall p c, child p c -> p <> k -> c <> k -> le_at L p c;
  hb_across : forall p c, child p k -> child k c -> le_at L p c }.
Definition up_ok (L : list loc) (k : nat) : Prop := forall p, child p k -> le_at L p k.
Definition down_ok (L : list loc) (k : nat) : Prop := forall c, child k c -> le_at L k c.

Lemma heap_of_but L k : heap_but L k -> up_ok L k -> down_ok L k -> heap L.
Proof.
  intros [H1 _] Hu Hd p c Hc. destruct (decide (p = k)) as [->|Hp]; [by apply Hd|].
  destruct (decide (c = k)) as [->|Hk]; [by apply Hu|by apply H1].
Qed.

Definition swap (L : list loc) (i j : nat) : list loc := <[i := L !!! j]> (<[j := L !!! i]> L).

Lemma swap_at L i j m : i < length L -> j < length L -> i <> j ->
  swap L i j !! m = if decide (m = i) then L !! j else if decide (m = j) then L !! i else L !! m.
Proof.
  intros Hi Hj Hne. unfold swap. destruct (decide (m = i)) as [->|Hm]; [|destruct (decide (m = j)) as [->|Hm']].
  - rewrite list_lookup_insert_eq by (by rewrite length_insert). symmetry. by apply list_lookup_lookup_total_lt.
  - rewrite list_lookup_insert_ne by done. rewrite list_lookup_insert_eq by done. symmetry. by apply list_lookup_lookup_total_lt.
  - by rewrite !list_lookup_insert_ne.
Qed.

(** A step up. *)
Lemma step_up L k p : heap_but L k -> child p k -> k < length L -> le_at L k p ->
  heap_but (swap L k p) p /\ down_ok (swap L k p) p.
Proof.
  intros [H1 H2] Hp Hk Hle. assert (Hpk : p < k) by (unfold child in Hp; lia).
  assert (S : forall m, swap L k p !! m = if decide (m = k) then L !! p else if decide (m = p) then L !! k else L !! m) by (intros; apply swap_at; lia).
  destruct (lookup_lt_is_Some_2 L p ltac:(lia)) as [xp Xp]. destruct (lookup_lt_is_Some_2 L k Hk) as [xk Xk].
  split; [constructor|].
  - intros a b Hab Ha Hb x y. rewrite !S. rewrite (decide_False (P := a = p)), (decide_False (P := b = p)) by done.
    destruct (decide (a = k)) as [->|Ha']; [|destruct (decide (b = k)) as [->|Hb']].
    + rewrite decide_False by (unfold child in Hab; lia). by apply H2.
    + intros _ _. exfalso. unfold child in Hp, Hab. lia.
    + by apply H1.
  - intros a b Hap Hpb x y. rewrite !S. rewrite (decide_False (P := a = k)), (decide_False (P := a = p)) by (unfold child in *; lia).
    assert (Ha : le_at L a p) by (apply H1; unfold child in *; lia).
    destruct (decide (b = k)) as [->|Hb]; [apply Ha|]. rewrite decide_False by (unfold child in *; lia).
    intros X Y. eapply cmp_trans; [by eapply Ha|]. eapply (H1 p b); [done|unfold child in *; lia|done|done|done].
  - intros b Hpb x y. rewrite !S. rewrite (decide_False (P := p = k)), (decide_True (P := p = p)) by lia.
    intros X. destruct (decide (b = k)) as [->|Hb]; [intros Y; by eapply Hle|]. rewrite decide_False by (unfold child in *; lia).
    intros Y. eapply cmp_trans; [by eapply Hle|]. eapply (H1 p b); [done|unfold child in *; lia|done|done|done].
Qed.

(** A step down, to the smaller child. *)
Lemma step_down L k c : heap_but L k -> child k c -> c < length L -> le_at L c k -> (forall d, child k d -> le_at L c d) ->
  heap_but (swap L k c) c /\ up_ok (swap L k c) c.
Proof.
  intros [H1 H2] Hc Hl Hle Hmin. assert (Hkc : k < c) by (unfold child in Hc; lia).
  assert (S : forall m, swap L k c !! m = if decide (m = k) then L !! c else if decide (m = c) then L !! k else L !! m) by (intros; apply swap_at; lia).
  split; [constructor|].
  - intros a b Hab Ha Hb x y. rewrite !S. rewrite (decide_False (P := a = c)), (decide_False (P := b = c)) by done.
    destruct (decide (a = k)) as [->|Ha']; [|destruct (decide (b = k)) as [->|Hb']].
    + rewrite decide_False by (unfold child in Hab; lia). by apply Hmin.
    + by apply H2.
    + by apply H1.
  - intros a b Hac Hcb x y. assert (a = k) as -> by (unfold child in *; lia). rewrite !S. rewrite decide_True by done.
    rewrite !decide_False by (unfold child in *; lia). apply H1; [done|unfold child in *; lia|unfold child in *; lia].
  - intros a Hac x y. assert (a = k) as -> by (unfold child in *; lia). rewrite !S. rewrite (decide_True (P := k = k)) by done.
    rewrite (decide_False (P := c = k)), (decide_True (P := c = c)) by lia. apply Hle.
Qed.
End Heap.

(** ** The hole in the array *)

Lemma insert_perm (H : list loc) i t : i < length H -> <[i := t]> H ≡ₚ t :: delete i H.
Proof.
  intros Hi. rewrite (delete_Permutation _ i t) by (by apply list_lookup_insert_eq). apply perm_skip.
  by rewrite !delete_take_drop, take_insert_ge, drop_insert_lt by lia.
Qed.
Lemma hole_perm (H : list loc) i j t : i < length H -> j < length H -> i <> j ->
  <[j := t]> (<[i := H !!! j]> H) ≡ₚ <[i := t]> H.
Proof.
  intros Hi Hj Hne. rewrite (insert_perm _ j) by (by rewrite length_insert). rewrite (insert_perm H i t) by done. apply perm_skip.
  apply (Permutation_cons_inv (a := H !!! j)). rewrite <- (insert_perm H i (H !!! j)) by done. symmetry.
  apply delete_Permutation. rewrite list_lookup_insert_ne by done. by apply list_lookup_lookup_total_lt.
Qed.
Lemma hole_swap (H : list loc) i j t : i < length H -> j < length H -> i <> j ->
  <[j := t]> (<[i := H !!! j]> H) = swap (<[i := t]> H) i j.
Proof.
  intros Hi Hj Hne. unfold swap. rewrite list_lookup_total_insert_eq, list_lookup_total_insert_ne by done.
  rewrite (list_insert_insert_ne _ i j) by done. by rewrite list_insert_insert_eq.
Qed.

(** The targets change only in [index]. *)
Definition same_loads (T T' : targets) : Prop := forall x, T' x = set_index (t_index (T' x)) (T x).
Lemma same_refl T : same_loads T T.
Proof. intros x. by destruct (T x). Qed.
Lemma same_upd T T' x i : same_loads T T' -> same_loads T (upd x (set_index i) T').
Proof. intros H y. unfold upd. destruct (decide (y = x)); [|apply H]. rewrite (H y). done. Qed.
Lemma same_trans T T' T'' : same_loads T T' -> same_loads T' T'' -> same_loads T T''.
Proof. intros H1 H2 x. rewrite (H2 x), (H1 x). done. Qed.
Lemma same_cmp T T' x y : same_loads T T' -> target_cmp T' x y = target_cmp T x y.
Proof. intros H. unfold target_cmp. rewrite (H x), (H y). done. Qed.

(** Every target but the one in hand knows its place. *)
Definition placed_but (H : list loc) (T : targets) (k : nat) : Prop := forall i x, i <> k -> H !! i = Some x -> t_index (T x) = i.
Definition placed (H : list loc) (T : targets) : Prop := forall i x, H !! i = Some x -> t_index (T x) = i.

Lemma placed_move H T k j t : NoDup (<[k := t]> H) -> placed_but H T k -> j <> k -> j < length H -> k < length H ->
  placed_but (<[k := H !!! j]> H) (upd (H !!! j) (set_index k) T) j.
Proof.
  intros Nd Pl Hjk Hj Hk i x Hi Hx. unfold upd. destruct (decide (i = k)) as [->|Hne].
  - rewrite list_lookup_insert_eq in Hx by done. injection Hx as <-. by rewrite decide_True.
  - rewrite list_lookup_insert_ne in Hx by done. rewrite decide_False; [by apply Pl|]. intros ->. apply Hi.
    eapply NoDup_lookup; [exact Nd| |].
    + rewrite list_lookup_insert_ne by done. exact Hx.
    + rewrite list_lookup_insert_ne by done. by apply list_lookup_lookup_total_lt.
Qed.
Lemma placed_end H T k t : NoDup (<[k := t]> H) -> placed_but H T k -> k < length H -> placed (<[k := t]> H) (upd t (set_index k) T).
Proof.
  intros Nd Pl Hk i x Hx. unfold upd. destruct (decide (i = k)) as [->|Hne].
  - rewrite list_lookup_insert_eq in Hx by done. injection Hx as <-. by rewrite decide_True.
  - rewrite decide_False; [apply Pl; [done|]; by rewrite list_lookup_insert_ne in Hx|]. intros ->. apply Hne.
    eapply NoDup_lookup; [exact Nd|exact Hx|by apply list_lookup_insert_eq].
Qed.

Lemma parent_child i : i <> 0 -> child (parent_of i) i.
Proof. intros Hi. unfold parent_of, child. pose proof (Nat.div_mod (i - 1) 2 ltac:(lia)). pose proof (Nat.mod_upper_bound (i - 1) 2 ltac:(lia)). lia. Qed.
Lemma child_parent p i : child p i -> p = parent_of i.
Proof.
  intros H. pose proof (parent_child i ltac:(unfold child in H; lia)). unfold child in *. lia.
Qed.

(** Only the targets of the array change. *)
Lemma upd_other x f T y : y <> x -> upd x f T y = T y.
Proof. intros H. unfold upd. by rewrite decide_False. Qed.
Lemma total_in (H : list loc) i : i < length H -> H !!! i ∈ H.
Proof. intros Hi. eapply list_elem_of_lookup_2. by apply list_lookup_lookup_total_lt. Qed.
Lemma insert_sub (H : list loc) i z y : z ∈ H -> y ∈ <[i := z]> H -> y ∈ H.
Proof.
  intros Hz [j Hj]%list_elem_of_lookup. apply list_lookup_insert_Some in Hj as [(-> & -> & _)|[_ Hj]]; [done|].
  by eapply list_elem_of_lookup_2.
Qed.

Lemma adjust_frame sw t : forall fuel i H T x, i < length H -> x ∉ H -> (adjust_loop fuel sw t i H T).1.2 x = T x.
Proof.
  induction fuel as [|fuel IH]; intros i H T x Hi Hx; cbn [adjust_loop]; [done|]. destruct (Nat.eqb_spec i 0); [done|].
  assert (Hp : parent_of i < length H) by (pose proof (parent_child i ltac:(done)); unfold child in *; lia).
  pose proof (total_in H _ Hp) as Hin. destruct (_ <? sw)%Z; [|done]. rewrite IH.
  - apply upd_other. by intros ->.
  - by rewrite length_insert.
  - intros Hx'. by apply insert_sub in Hx'.
Qed.
Lemma heapify_frame t : forall fuel top H T x, top < length H -> x ∉ H -> (heapify_loop fuel t top H T).1.2 x = T x.
Proof.
  induction fuel as [|fuel IH]; intros top H T x Ht Hx; cbn [heapify_loop]; [done|]. set (i := 2 * top + 1).
  assert (Go : forall c, c < length H -> (heapify_loop fuel t c (<[top := H !!! c]> H) (upd (H !!! c) (set_index top) T)).1.2 x = T x).
  { intros c Hc. pose proof (total_in H _ Hc). rewrite IH; [|by rewrite length_insert|intros Hx'; by apply insert_sub in Hx'].
    apply upd_other. by intros ->. }
  destruct (Nat.ltb_spec i (length H - 1)).
  - repeat match goal with |- context [if ?b then _ else _] => destruct b end; first [done|apply Go; lia].
  - destruct (Nat.eqb_spec i (length H - 1)); cbn [andb]; [|done]. destruct (_ <? 0)%Z; [|done]. cbn. apply upd_other. intros ->.
    apply Hx. apply total_in. lia.
Qed.
Lemma heap_adjust_frame i sw H T x : i < length H -> x ∉ H -> (heap_adjust i sw H T).2 x = T x.
Proof.
  intros Hi Hx. unfold heap_adjust. pose proof (adjust_frame sw (H !!! i) (S i) i H T x Hi Hx) as E. destruct (adjust_loop _ _ _ _ _ _) as [[H' T'] k].
  cbn in *. rewrite upd_other; [done|]. intros ->. by apply Hx, total_in.
Qed.
Lemma heapify_frame_all i H T x : i < length H -> x ∉ H -> (heapify i H T).2 x = T x.
Proof.
  intros Hi Hx. unfold heapify. pose proof (heapify_frame (H !!! i) (S (length H)) i H T x Hi Hx) as E. destruct (heapify_loop _ _ _ _ _) as [[H' T'] k].
  cbn in *. rewrite upd_other; [done|]. intros ->. by apply Hx, total_in.
Qed.

Section Sift.
Context (T0 : targets).
Local Abbreviation cmp := (target_cmp T0).
Hypothesis cmp_trans : forall x y z, (cmp x y <= 0 -> cmp y z <= 0 -> cmp x z <= 0)%Z.
Hypothesis cmp_anti : forall x y, cmp y x = (- cmp x y)%Z.

(** What a sift gives: the array with the target in the hole [k]. *)
Record sifted (target : loc) (H : list loc) (index : nat) (H' : list loc) (T' : targets) (k : nat) : Prop := mk_sifted {
  sf_len : length H' = length H;
  sf_k : k < length H';
  sf_perm : <[k := target]> H' ≡ₚ <[index := target]> H;
  sf_but : heap_but cmp (<[k := target]> H') k;
  sf_up : up_ok cmp (<[k := target]> H') k;
  sf_loads : same_loads T0 T';
  sf_placed : placed_but H' T' k }.

Lemma adjust_loop_ok sw target : (sw = 0 \/ sw = 1)%Z -> forall fuel index H T, index < fuel -> index < length H ->
  NoDup (<[index := target]> H) -> heap_but cmp (<[index := target]> H) index -> same_loads T0 T -> placed_but H T index ->
  let '(H', T', k) := adjust_loop fuel sw target index H T in
  sifted target H index H' T' k /\ (down_ok cmp (<[index := target]> H) index -> down_ok cmp (<[k := target]> H') k).
Proof.
  intros Hsw. induction fuel as [|fuel IH]; intros index H T Hf Hl Nd Hb Sm Pl; [lia|]. cbn [adjust_loop].
  destruct (Nat.eqb_spec index 0) as [->|H0].
  { split; [|done]. constructor; try done. intros p Hp. unfold child in Hp. lia. }
  pose proof (parent_child index H0) as Hc. set (p := parent_of index) in *. assert (Hpi : p < index) by (unfold child in Hc; lia).
  assert (Ht : <[index := target]> H !! index = Some target) by (by apply list_lookup_insert_eq).
  assert (Hp : <[index := target]> H !! p = Some (H !!! p)).
  { rewrite list_lookup_insert_ne by lia. apply list_lookup_lookup_total_lt. lia. }
  rewrite (same_cmp _ _ _ _ Sm). destruct (Z.ltb_spec (cmp target (H !!! p)) sw) as [Hlt|Hge].
  - assert (Hle : le_at cmp (<[index := target]> H) index p).
    { intros x y Hx Hy. rewrite Ht in Hx. rewrite Hp in Hy. injection Hx as <-. injection Hy as <-. lia. }
    destruct (step_up cmp cmp_trans _ _ p Hb Hc) as [Hb' Hd']; [by rewrite length_insert|done|].
    rewrite <- hole_swap in Hb', Hd' by lia.
    specialize (IH p (<[index := H !!! p]> H) (upd (H !!! p) (set_index index) T)).
    destruct (adjust_loop fuel sw target p _ _) as [[H' T'] k]. destruct IH as [Sf Df]; try done.
    + lia.
    + rewrite length_insert. lia.
    + rewrite hole_perm by lia. done.
    + by apply same_upd.
    + eapply placed_move; [exact Nd|done|lia|lia|lia].
    + split; [|intros _; by apply Df]. destruct Sf. constructor; try done; [by rewrite length_insert in *|].
      rewrite sf_perm0. apply hole_perm; lia.
  - split; [|done]. constructor; try done. intros q Hq x y Hx Hy. assert (q = p) as -> by (by apply child_parent).
    rewrite Ht in Hy. rewrite Hp in Hx. injection Hx as <-. injection Hy as <-. rewrite cmp_anti. lia.
Qed.

(** One step of the hole downwards. *)
Lemma hole_down target top c H T : c < length H -> child top c ->
  NoDup (<[top := target]> H) -> heap_but cmp (<[top := target]> H) top -> same_loads T0 T -> placed_but H T top ->
  (cmp (H !!! c) target <= 0)%Z -> (forall d, child top d -> d < length H -> (cmp (H !!! c) (H !!! d) <= 0)%Z) ->
  let H1 := <[top := H !!! c]> H in let T1 := upd (H !!! c) (set_index top) T in
  NoDup (<[c := target]> H1) /\ heap_but cmp (<[c := target]> H1) c /\ up_ok cmp (<[c := target]> H1) c /\
  same_loads T0 T1 /\ placed_but H1 T1 c /\ <[c := target]> H1 ≡ₚ <[top := target]> H.
Proof.
  intros Hc Hch Nd Hb Sm Pl Hle Hmin H1 T1. assert (Htc : top < c) by (unfold child in Hch; lia).
  assert (At : forall d, d <> top -> d < length H -> <[top := target]> H !! d = Some (H !!! d)).
  { intros d Hd Hl. rewrite list_lookup_insert_ne by done. by apply list_lookup_lookup_total_lt. }
  destruct (step_down cmp _ _ c Hb Hch) as [Hb' Hu'].
  - by rewrite length_insert.
  - intros x y Hx Hy. rewrite At in Hx by lia. rewrite list_lookup_insert_eq in Hy by lia. injection Hx as <-. by injection Hy as <-.
  - intros d Hd x y Hx Hy. pose proof (lookup_lt_Some _ _ _ Hy) as Hdl. rewrite length_insert in Hdl.
    rewrite At in Hx, Hy by (unfold child in *; lia). injection Hx as <-. injection Hy as <-. by apply Hmin.
  - rewrite <- hole_swap in Hb', Hu' by lia. split_and!; try done.
    + unfold H1. rewrite hole_perm by lia. done.
    + by apply same_upd.
    + eapply placed_move; [exact Nd|done|lia|lia|lia].
    + apply hole_perm; lia.
Qed.

Lemma heapify_loop_ok target : forall fuel top H T, length H - top < fuel -> top < length H ->
  NoDup (<[top := target]> H) -> heap_but cmp (<[top := target]> H) top -> up_ok cmp (<[top := target]> H) top ->
  same_loads T0 T -> placed_but H T top ->
  let '(H', T', k) := heapify_loop fuel target top H T in
  sifted target H top H' T' k /\ down_ok cmp (<[k := target]> H') k.
Proof.
  induction fuel as [|fuel IH]; intros top H T Hf Hl Nd Hb Hu Sm Pl; [lia|]. cbn [heapify_loop].
  set (i := 2 * top + 1).
  assert (At : forall d, d <> top -> d < length H -> <[top := target]> H !! d = Some (H !!! d)).
  { intros d Hd Hdl. rewrite list_lookup_insert_ne by done. by apply list_lookup_lookup_total_lt. }
  assert (Stop : (forall d, child top d -> d < length H -> (cmp target (H !!! d) <= 0)%Z) ->
    sifted target H top H T top /\ down_ok cmp (<[top := target]> H) top).
  { intros Hd. split; [by constructor|]. intros d Hch x y Hx Hy. pose proof (lookup_lt_Some _ _ _ Hy) as Hdl. rewrite length_insert in Hdl.
    rewrite list_lookup_insert_eq in Hx by done. rewrite At in Hy by (unfold child in *; lia). injection Hx as <-. injection Hy as <-. by apply Hd. }
  assert (Go : forall c, c < length H -> child top c -> (cmp (H !!! c) target <= 0)%Z ->
    (forall d, child top d -> d < length H -> (cmp (H !!! c) (H !!! d) <= 0)%Z) ->
    let '(H', T', k) := heapify_loop fuel target c (<[top := H !!! c]> H) (upd (H !!! c) (set_index top) T) in
    sifted target H top H' T' k /\ down_ok cmp (<[k := target]> H') k).
  { intros c Hcl Hch Hle Hmin. destruct (hole_down target top c H T Hcl Hch Nd Hb Sm Pl Hle Hmin) as (D1 & D2 & D3 & D4 & D5 & D6).
    specialize (IH c (<[top := H !!! c]> H) (upd (H !!! c) (set_index top) T)). rewrite length_insert in IH.
    destruct (heapify_loop fuel target c _ _) as [[H' T'] k]. destruct IH as [Sf Df]; try done; [unfold child in Hch; lia|].
    split; [|done]. destruct Sf as [S1 S2 S3 S4 S5 S6 S7]. rewrite length_insert in S1. constructor; try done. by rewrite S3. }
  assert (Cd : forall d, child top d -> d = i \/ d = S i) by (unfold child, i; lia).
  rewrite !(same_cmp _ _ _ _ Sm).
  destruct (Nat.ltb_spec i (length H - 1)) as [Hi|Hi].
  - destruct (Z.ltb_spec (cmp (H !!! i) target) 0) as [C0|C0].
    + destruct (Z.ltb_spec (cmp (H !!! S i) (H !!! i)) 0) as [C1|C1].
      * apply Go; [lia|unfold child, i; lia|eapply cmp_trans; [|apply Z.lt_le_incl, C0]; lia|].
        intros d [-> | ->]%Cd _; [lia|]. pose proof (cmp_anti (H !!! S i) (H !!! S i)). lia.
      * apply Go; [lia|unfold child, i; lia|lia|]. intros d [-> | ->]%Cd _; [pose proof (cmp_anti (H !!! i) (H !!! i)); lia|].
        rewrite cmp_anti. lia.
    + destruct (Z.ltb_spec (cmp (H !!! S i) target) 0) as [C1|C1].
      * apply Go; [lia|unfold child, i; lia|lia|]. intros d [-> | ->]%Cd _; [|pose proof (cmp_anti (H !!! S i) (H !!! S i)); lia].
        eapply cmp_trans; [apply Z.lt_le_incl, C1|]. rewrite cmp_anti. lia.
      * apply Stop. intros d [-> | ->]%Cd _; rewrite cmp_anti; lia.
  - destruct (Nat.eqb_spec i (length H - 1)) as [Ei|Ei]; cbn [andb].
    + destruct (Z.ltb_spec (cmp (H !!! i) target) 0) as [C0|C0].
      * destruct (hole_down target top i H T) as (D1 & D2 & D3 & D4 & D5 & D6); try done; [lia|unfold child, i; lia|lia|..].
        { intros d [-> | ->]%Cd Hd; [pose proof (cmp_anti (H !!! i) (H !!! i)); lia|lia]. }
        split.
        { constructor; rewrite ?length_insert; try done. lia. }
        intros d Hd x y _ Hy. apply lookup_lt_Some in Hy. rewrite !length_insert in Hy. unfold child in Hd. lia.
      * apply Stop. intros d [-> | ->]%Cd Hd; [rewrite cmp_anti; lia|lia].
    + apply Stop. intros d [-> | ->]%Cd Hd; lia.
Qed.

(** ** The operations *)

(** The array is a heap, its targets know their places. *)
Record heap_ok (H : list loc) (T : targets) : Prop := mk_heap_ok {
  hk_nodup : NoDup H;
  hk_heap : heap cmp H;
  hk_placed : placed H T;
  hk_loads : same_loads T0 T }.

Lemma sifted_ok target H index H' T' k : NoDup (<[index := target]> H) -> sifted target H index H' T' k ->
  down_ok cmp (<[k := target]> H') k -> heap_ok (<[k := target]> H') (upd target (set_index k) T').
Proof.
  intros Nd [S1 S2 S3 S4 S5 S6 S7] Hd. assert (Nd' : NoDup (<[k := target]> H')) by (by rewrite S3). constructor.
  - done.
  - by eapply heap_of_but.
  - by apply placed_end.
  - by apply same_upd.
Qed.

Lemma insert_self (H : list loc) i : i < length H -> <[i := H !!! i]> H = H.
Proof. intros Hi. apply list_insert_id. by apply list_lookup_lookup_total_lt. Qed.

(** [heap_adjust] after the load at [index] went down. *)
Lemma heap_adjust_ok sw index H T : (sw = 0 \/ sw = 1)%Z -> index < length H -> NoDup H -> heap_but cmp H index -> down_ok cmp H index ->
  same_loads T0 T -> placed_but H T index ->
  let '(H', T') := heap_adjust index sw H T in heap_ok H' T' /\ H' ≡ₚ H.
Proof.
  intros Hsw Hi Nd Hb Hd Sm Pl. unfold heap_adjust. pose proof (insert_self _ _ Hi) as Es.
  pose proof (adjust_loop_ok sw (H !!! index) Hsw (S index) index H T ltac:(lia) Hi) as A. rewrite Es in A. specialize (A Nd Hb Sm Pl).
  destruct (adjust_loop _ _ _ _ _ _) as [[H' T'] k]. destruct A as [Sf Df]. split.
  - eapply sifted_ok; [|exact Sf|by apply Df]. by rewrite Es.
  - rewrite (sf_perm _ _ _ _ _ _ Sf). by rewrite Es.
Qed.

(** [heapify] after the load at [top] went up. *)
Lemma heapify_ok top H T : top < length H -> NoDup H -> heap_but cmp H top -> up_ok cmp H top -> same_loads T0 T -> placed_but H T top ->
  let '(H', T') := heapify top H T in heap_ok H' T' /\ H' ≡ₚ H.
Proof.
  intros Hi Nd Hb Hu Sm Pl. unfold heapify. pose proof (insert_self _ _ Hi) as Es.
  pose proof (heapify_loop_ok (H !!! top) (S (length H)) top H T ltac:(lia) Hi) as A. rewrite Es in A. specialize (A Nd Hb Hu Sm Pl).
  destruct (heapify_loop _ _ _ _ _) as [[H' T'] k]. destruct A as [Sf Df]. split.
  - eapply sifted_ok; [|exact Sf|done]. by rewrite Es.
  - rewrite (sf_perm _ _ _ _ _ _ Sf). by rewrite Es.
Qed.

(** Both, as [heap_remove] calls them. *)
Lemma adjust_heapify_ok index H T : index < length H -> NoDup H -> heap_but cmp H index -> same_loads T0 T -> placed_but H T index ->
  let '(H1, T1) := heap_adjust index 0 H T in
  let '(H', T') := heapify (t_index (T1 (H !!! index))) H1 T1 in heap_ok H' T' /\ H' ≡ₚ H /\ forall y, y ∉ H -> T' y = T y.
Proof.
  intros Hi Nd Hb Sm Pl. pose proof (fun y Hy => heap_adjust_frame index 0 H T y Hi Hy) as F1. unfold heap_adjust in *. pose proof (insert_self _ _ Hi) as Es. set (t := H !!! index) in *.
  pose proof (adjust_loop_ok 0 t (or_introl eq_refl) (S index) index H T ltac:(lia) Hi) as A. rewrite Es in A. specialize (A Nd Hb Sm Pl).
  destruct (adjust_loop _ _ _ _ _ _) as [[H1 T1] k]. destruct A as [[S1 S2 S3 S4 S5 S6 S7] _]. rewrite Es in S3.
  replace (t_index (upd t (set_index k) T1 t)) with k by (unfold upd; by rewrite decide_True).
  assert (Nd1 : NoDup (<[k := t]> H1)) by (by rewrite S3). assert (Hk : k < length (<[k := t]> H1)) by (by rewrite length_insert).
  pose proof (heapify_ok k (<[k := t]> H1) (upd t (set_index k) T1) Hk Nd1 S4 S5) as B.
  pose proof (fun y Hy => heapify_frame_all k (<[k := t]> H1) (upd t (set_index k) T1) y Hk Hy) as F2.
  destruct (heapify _ _ _) as [H' T']. cbn in F1, F2. destruct B as [B1 B2].
  - by apply same_upd.
  - intros i x _ Hx. by eapply placed_end.
  - split; [done|]. split; [by rewrite B2|]. intros y Hy. rewrite F2 by (by rewrite S3). by apply F1.
Qed.
End Sift.

(** ** The order on loads *)

Definition load_ok (t : target) : Prop := (0 <= t_cur t <= t_max t /\ 0 < t_max t < 2 ^ 32)%Z.
Definition less_loaded (T : targets) (x y : loc) : Prop := (t_cur (T x) * t_max (T y) <= t_cur (T y) * t_max (T x))%Z.

Section Order.
Context (T : targets).
Hypothesis T_ok : forall x, load_ok (T x).

Lemma load_prod x y : (0 <= t_cur (T x) * t_max (T y) < 2 ^ 64)%Z.
Proof. pose proof (T_ok x). pose proof (T_ok y). unfold load_ok in *. nia. Qed.
Lemma target_cmp_le x y : (target_cmp T x y <= 0)%Z <-> less_loaded T x y.
Proof.
  unfold target_cmp, less_loaded. rewrite !wrap_small by apply load_prod.
  destruct (Z.ltb_spec (t_cur (T x) * t_max (T y)) (t_cur (T y) * t_max (T x))); [lia|].
  destruct (Z.ltb_spec (t_cur (T y) * t_max (T x)) (t_cur (T x) * t_max (T y))); lia.
Qed.
Lemma target_cmp_trans x y z : (target_cmp T x y <= 0 -> target_cmp T y z <= 0 -> target_cmp T x z <= 0)%Z.
Proof.
  rewrite !target_cmp_le. unfold less_loaded. intros H1 H2. pose proof (T_ok x) as [? ?]. pose proof (T_ok y) as [? ?]. pose proof (T_ok z) as [? ?].
  apply (Z.mul_le_mono_pos_r _ _ (t_max (T y))); [lia|]. nia.
Qed.
Lemma target_cmp_anti x y : target_cmp T y x = (- target_cmp T x y)%Z.
Proof.
  unfold target_cmp. destruct (Z.ltb_spec (u64 (t_cur (T x) * t_max (T y))) (u64 (t_cur (T y) * t_max (T x)))),
    (Z.ltb_spec (u64 (t_cur (T y) * t_max (T x))) (u64 (t_cur (T x) * t_max (T y)))); lia.
Qed.

(** The top of a heap is the least loaded. *)
Lemma heap_top H x : heap (target_cmp T) H -> H !! 0 = Some x -> forall y, y ∈ H -> less_loaded T x y.
Proof.
  intros Hh H0 y [i Hi]%list_elem_of_lookup. apply target_cmp_le. revert y Hi.
  induction i as [i IH] using lt_wf_ind. intros y Hi. destruct (decide (i = 0)) as [->|Hne].
  - assert (y = x) as -> by congruence. pose proof (target_cmp_anti x x). lia.
  - pose proof (parent_child i Hne) as Hc. pose proof (lookup_lt_Some _ _ _ Hi).
    destruct (lookup_lt_is_Some_2 H (parent_of i)) as [z Hz]; [unfold child in Hc; lia|].
    eapply target_cmp_trans; [apply (IH (parent_of i)); [unfold child in Hc; lia|done]|]. by eapply Hh.
Qed.
End Order.

(** ** The system *)

Record sched := mk_sched {
  tg : targets;
  gr : loc -> group;
  holders : list loc }.

Definition set_gr (g : loc) (x : group) (G : loc -> group) : loc -> group := fun y => if decide (y = g) then x else G y.
Definition with_heap (H : list loc) (n : Z) (g : group) : group := mk_group H (heap_buf_size g) (g_max g) n (g_wait g).
Definition with_sums (m c : Z) (g : group) : group := mk_group (tg_heap g) (heap_buf_size g) m c (g_wait g).
Definition with_gwait (n : Z) (g : group) : group := mk_group (tg_heap g) (heap_buf_size g) (g_max g) (g_cur g) n.

(** [CommSchedTarget::init], [CommSchedGroup::init] *)
Definition target_init (max_connections : Z) : option target :=
  if (max_connections =? 0)%Z then None else Some (mk_target max_connections 0 0 None 0).
Definition group_init : group := mk_group [] 4 0 0 0.

(** [if (this->cur_load < this->max_load) { ... }] of [CommSchedTarget::acquire] *)
Definition target_take (x : loc) (s : sched) : option sched :=
  let T := tg s in
  if (t_cur (T x) <? t_max (T x))%Z then
    let T := upd x (set_cur (u64 (t_cur (T x) + 1))) T in
    match t_group (T x) with
    | None => Some (mk_sched T (gr s) (x :: holders s))
    | Some g =>
        let '(H, T) := heapify (t_index (T x)) (tg_heap (gr s g)) T in
        Some (mk_sched T (set_gr g (with_heap H (u64 (g_cur (gr s g) + 1)) (gr s g)) (gr s)) (x :: holders s))
    end
  else None.

(** The same part of [CommSchedGroup::acquire]. *)
Definition group_take (g : loc) (s : sched) : option (loc * sched) :=
  let G := gr s g in
  if (g_cur G <? g_max G)%Z then
    match tg_heap G with
    | [] => None
    | x :: _ =>
        let T := upd x (set_cur (u64 (t_cur (tg s x) + 1))) (tg s) in
        let '(H, T) := heapify 0 (tg_heap G) T in
        Some (x, mk_sched T (set_gr g (with_heap H (u64 (g_cur G + 1)) G) (gr s)) (x :: holders s))
    end
  else None.

(** [CommSchedTarget::release]; [idle] is [has_idle_conn()]. *)
Definition target_release (x : loc) (idle : bool) (s : sched) : sched :=
  let T := upd x (set_cur (u64 (t_cur (tg s x) - 1))) (tg s) in
  match t_group (T x) with
  | None => mk_sched T (gr s) (holders s)
  | Some g =>
      let '(H, T) := heap_adjust (t_index (T x)) (if idle then 1 else 0)%Z (tg_heap (gr s g)) T in
      mk_sched T (set_gr g (with_heap H (u64 (g_cur (gr s g) - 1)) (gr s g)) (gr s)) (holders s)
  end.
Definition drop_holder (x : loc) (s : sched) (l : list loc) : sched := mk_sched (tg s) (gr s) l.

Inductive reply := ROk | EExist | EInval | EBusy | ENoEnt | ENoMem.

(** [CommSchedGroup::add] *)
Definition group_add (mem : bool) (g x : loc) (s : sched) : option (sched * reply) :=
  let t := tg s x in
  match t_group t with
  | None =>
      if (t_wait t =? 0)%Z then
        match heap_insert mem x (gr s g) (tg s) with
        | inr _ => None
        | inl None => Some (s, ENoMem)
        | inl (Some (G, T)) =>
            let T := upd x (set_group (Some g)) T in
            let G := with_sums (u64 (g_max G + t_max (T x))) (u64 (g_cur G + t_cur (T x))) G in
            Some (mk_sched T (set_gr g G (gr s)) (holders s), ROk)
        end
      else Some (s, EBusy)
  | Some g' => Some (s, if decide (g' = g) then EExist else EInval)
  end.

(** [CommSchedGroup::remove] *)
Definition group_remove (g x : loc) (s : sched) : sched * reply :=
  let t := tg s x in
  if decide (t_group t = Some g) then
    if (t_wait t =? 0)%Z then
      let '(G, T) := heap_remove (t_index t) (gr s g) (tg s) in
      let G := with_sums (u64 (g_max G - t_max (T x))) (u64 (g_cur G - t_cur (T x))) G in
      (mk_sched (upd x (set_group None) T) (set_gr g G (gr s)) (holders s), ROk)
    else (s, EBusy)
  else (s, ENoEnt).

(** [this->wait_cnt++] and [this->wait_cnt--] around the wait. *)
Definition target_wait (d : Z) (x : loc) (s : sched) : sched := mk_sched (upd x (fun t => set_twait (t_wait t + d) t) (tg s)) (gr s) (holders s).
Definition group_wait (d : Z) (g : loc) (s : sched) : sched := mk_sched (tg s) (set_gr g (with_gwait (g_wait (gr s g) + d) (gr s g)) (gr s)) (holders s).

Inductive sstep : sched -> sched -> Prop :=
  | st_take x s s' : target_take x s = Some s' -> sstep s s'
  | st_group_take g s x s' : group_take g s = Some (x, s') -> sstep s s'
  | st_wait x s : (t_max (tg s x) <= t_cur (tg s x))%Z -> sstep s (target_wait 1 x s)
  | st_wake x s : (0 < t_wait (tg s x))%Z -> sstep s (target_wait (-1) x s)
  | st_group_wait g s : (g_max (gr s g) <= g_cur (gr s g))%Z -> sstep s (group_wait 1 g s)
  | st_group_wake g s : (0 < g_wait (gr s g))%Z -> sstep s (group_wait (-1) g s)
  | st_release x idle s l1 l2 : holders s = l1 ++ x :: l2 -> sstep s (drop_holder x (target_release x idle s) (l1 ++ l2))
  | st_add mem g x s s' r : group_add mem g x s = Some (s', r) -> sstep s s'
  | st_remove g x s s' r : group_remove g x s = (s', r) -> sstep s s'.

(** The targets are initialised, no group has any. *)
Definition sched_init (max : loc -> Z) : sched :=
  mk_sched (fun x => mk_target (max x) 0 0 None 0) (fun _ => group_init) [].
Inductive sreach (max : loc -> Z) : sched -> Prop :=
  | sreach_init : sreach max (sched_init max)
  | sreach_step a b : sreach max a -> sstep a b -> sreach max b.

(** ** The invariant *)

Definition zsum (f : loc -> Z) (l : list loc) : Z := foldr (fun x n => f x + n)%Z 0%Z l.
Definition hcount (x : loc) (l : list loc) : Z := Z.of_nat (length (filter (x =.) l)).

Record group_ok (T : targets) (g : group) : Prop := mk_group_ok {
  gk_nodup : NoDup (tg_heap g);
  gk_heap : heap (target_cmp T) (tg_heap g);
  gk_placed : placed (tg_heap g) T;
  gk_cur : g_cur g = zsum (fun x => t_cur (T x)) (tg_heap g);
  gk_max : g_max g = zsum (fun x => t_max (T x)) (tg_heap g);
  gk_size : (len (tg_heap g) <= heap_buf_size g <= int_max)%Z;
  gk_pos : (0 < heap_buf_size g)%Z }.

Record sched_ok (s : sched) : Prop := mk_sched_ok {
  so_load : forall x, load_ok (tg s x);
  so_group : forall g, group_ok (tg s) (gr s g);
  so_member : forall x g, t_group (tg s x) = Some g <-> x ∈ tg_heap (gr s g);
  so_held : forall x, t_cur (tg s x) = hcount x (holders s) }.

Lemma zsum_cons f x l : zsum f (x :: l) = (f x + zsum f l)%Z.
Proof. done. Qed.
Lemma zsum_perm f l l' : l ≡ₚ l' -> zsum f l = zsum f l'.
Proof. unfold zsum. induction 1; cbn; lia. Qed.
Lemma zsum_same f f' l : (forall x, x ∈ l -> f' x = f x) -> zsum f' l = zsum f l.
Proof. induction l as [|x l IH]; intros H; [done|]. rewrite !zsum_cons, H by constructor. rewrite IH; [done|]. intros y Hy. apply H. by constructor. Qed.
Lemma zsum_one f f' l x d : NoDup l -> x ∈ l -> f' x = (f x + d)%Z -> (forall y, y <> x -> f' y = f y) -> zsum f' l = (zsum f l + d)%Z.
Proof.
  intros Nd Hx E1 E2. apply elem_of_Permutation in Hx as [l' P]. rewrite (zsum_perm f' _ _ P), (zsum_perm f _ _ P). rewrite P in Nd.
  apply NoDup_cons in Nd as [Nx _]. rewrite !zsum_cons, (zsum_same f f' l'); [lia|]. intros y Hy. apply E2. by intros ->.
Qed.
Lemma zsum_bound f l b : (forall x, (0 <= f x <= b)%Z) -> (0 <= zsum f l <= len l * b)%Z.
Proof. intros H. induction l as [|x l IH]; [cbn; lia|]. pose proof (H x). rewrite zsum_cons. cbn [length]. lia. Qed.
Lemma zsum_le f f' l : (forall x, (f x <= f' x)%Z) -> (zsum f l <= zsum f' l)%Z.
Proof. intros H. induction l as [|x l IH]; [done|]. pose proof (H x). rewrite !zsum_cons. lia. Qed.

Lemma upd_same x f T : upd x f T x = f (T x).
Proof. unfold upd. by rewrite decide_True. Qed.
Lemma cmp_away T x f a b : a <> x -> b <> x -> target_cmp (upd x f T) a b = target_cmp T a b.
Proof. intros Ha Hb. unfold target_cmp. by rewrite !upd_other. Qed.

Section LoadChange.
Context (T : targets) (H : list loc) (x : loc) (n : Z) (i : nat).
Hypothesis T_ok : forall y, load_ok (T y).
Hypothesis n_ok : (0 <= n <= t_max (T x))%Z.
Hypothesis Nd : NoDup H.
Hypothesis Hh : heap (target_cmp T) H.
Hypothesis Hi : H !! i = Some x.
Let T1 := upd x (set_cur n) T.

Lemma changed_ok y : load_ok (T1 y).
Proof.
  unfold T1, upd. destruct (decide (y = x)) as [->|]; [|apply T_ok]. pose proof (T_ok x) as [? ?]. split; cbn; lia.
Qed.
Lemma away_at j y : j <> i -> H !! j = Some y -> y <> x.
Proof. intros Hj Hy ->. apply Hj. by eapply NoDup_lookup. Qed.

Lemma change_but : heap_but (target_cmp T1) H i.
Proof.
  constructor.
  - intros p c Hc Hp Hk a b Ha Hb. pose proof (away_at p a Hp Ha). pose proof (away_at c b Hk Hb). unfold T1. rewrite cmp_away by done. by eapply Hh.
  - intros p c Hp Hc a b Ha Hb. assert (Np : p <> i /\ c <> i) by (unfold child in *; lia).
    pose proof (away_at p a (proj1 Np) Ha). pose proof (away_at c b (proj2 Np) Hb). unfold T1. rewrite cmp_away by done. apply (target_cmp_trans T T_ok a x b); [by apply (Hh p i)|by apply (Hh i c)].
Qed.
Lemma change_up : (t_cur (T x) <= n)%Z -> up_ok (target_cmp T1) H i.
Proof.
  intros Hn p Hp a b Ha Hb. assert (b = x) as -> by congruence. assert (Np : p <> i) by (unfold child in *; lia).
  pose proof (away_at p a Np Ha) as Na.
  pose proof (Hh p i Hp a x Ha Hi) as Hle. apply (target_cmp_le T T_ok) in Hle. apply (target_cmp_le T1 changed_ok).
  unfold less_loaded, T1 in *. rewrite (upd_other _ _ _ _ Na), upd_same. cbn. pose proof (T_ok a) as [? ?]. nia.
Qed.
Lemma change_down : (n <= t_cur (T x))%Z -> down_ok (target_cmp T1) H i.
Proof.
  intros Hn c Hc a b Ha Hb. assert (a = x) as -> by congruence. assert (Nc : c <> i) by (unfold child in *; lia).
  pose proof (away_at c b Nc Hb) as Nb.
  pose proof (Hh i c Hc x b Hi Hb) as Hle. apply (target_cmp_le T T_ok) in Hle. apply (target_cmp_le T1 changed_ok).
  unfold less_loaded, T1 in *. rewrite (upd_other _ _ _ _ Nb), upd_same. cbn. pose proof (T_ok b) as [? ?]. nia.
Qed.
Lemma change_placed : placed H T -> placed H T1.
Proof.
  intros Pl j y Hy. unfold T1, upd. destruct (decide (y = x)); cbn; by apply Pl.
Qed.
End LoadChange.

Lemma group_frame T T' g : group_ok T g -> (forall x, x ∈ tg_heap g -> T' x = T x) -> group_ok T' g.
Proof.
  intros [G1 G2 G3 G4 G5 G6 G7] E. constructor; try done.
  - intros p c Hc a b Ha Hb. unfold target_cmp. rewrite !E by (by eapply list_elem_of_lookup_2). by eapply G2.
  - intros i x Hx. rewrite E by (by eapply list_elem_of_lookup_2). by apply G3.
  - rewrite G4. symmetry. apply zsum_same. intros x Hx. by rewrite E.
  - rewrite G5. symmetry. apply zsum_same. intros x Hx. by rewrite E.
Qed.

Lemma sum_small (T : targets) H b : (forall x, load_ok (T x)) -> (len H <= b <= int_max)%Z ->
  (0 <= zsum (fun x => t_cur (T x)) H < 2 ^ 64)%Z /\ (0 <= zsum (fun x => t_max (T x)) H < 2 ^ 64)%Z.
Proof.
  intros Ho Hl. pose proof (zsum_bound (fun x => t_cur (T x)) H (2 ^ 32) ltac:(intros x; pose proof (Ho x) as [? ?]; lia)).
  pose proof (zsum_bound (fun x => t_max (T x)) H (2 ^ 32) ltac:(intros x; pose proof (Ho x) as [? ?]; lia)). unfold int_max in Hl. lia.
Qed.

Lemma heap_same T1 T' H : same_loads T1 T' -> heap (target_cmp T1) H -> heap (target_cmp T') H.
Proof. intros Sm Hh p c Hc a b Ha Hb. rewrite (same_cmp _ _ _ _ Sm). by eapply Hh. Qed.

(** The load of a target of a group changes, and the heap is put in order. *)
Lemma sched_change s x n g H' T' l : sched_ok s -> t_group (tg s x) = Some g -> (0 <= n <= t_max (tg s x))%Z ->
  heap_ok (upd x (set_cur n) (tg s)) H' T' -> H' ≡ₚ tg_heap (gr s g) ->
  (forall y, y ∉ tg_heap (gr s g) -> T' y = upd x (set_cur n) (tg s) y) ->
  (forall y, t_cur (upd x (set_cur n) (tg s) y) = hcount y l) ->
  sched_ok (mk_sched T' (set_gr g (with_heap H' (u64 (g_cur (gr s g) + (n - t_cur (tg s x)))) (gr s g)) (gr s)) l).
Proof.
  intros [S1 S2 S3 S4] Hg Hn [K1 K2 K3 K4] P Fr Hl. set (T1 := upd x (set_cur n) (tg s)) in *.
  pose proof (proj1 (S3 x g) Hg) as Hx. pose proof (S2 g) as [G1 G2 G3 G4 G5 G6 G7].
  pose proof (changed_ok (tg s) x n S1 Hn) as L1.
  assert (E1 : zsum (fun y => t_cur (T' y)) H' = (g_cur (gr s g) + (n - t_cur (tg s x)))%Z).
  { rewrite (zsum_perm _ _ _ P), G4. apply (zsum_one _ _ _ x); [done|done|..].
    - rewrite (K4 x). cbn. unfold T1. rewrite upd_same. cbn. lia.
    - intros y Hy. rewrite (K4 y). cbn. unfold T1. by rewrite upd_other. }
  constructor; cbn.
  - intros y. rewrite (K4 y). apply L1.
  - intros g'. unfold set_gr. destruct (decide (g' = g)) as [->|Hne].
    + constructor; cbn; try done.
      * by eapply heap_same.
      * etrans; [apply wrap_small|symmetry; exact E1]. rewrite <- E1. eapply sum_small; [|rewrite P; exact G6]. intros y. rewrite (K4 y). apply L1.
      * etrans; [exact G5|]. symmetry. etrans; [exact (zsum_perm _ _ _ P)|]. apply zsum_same. intros y _. rewrite (K4 y). cbn. unfold T1, upd. by destruct (decide (y = x)).
      * by rewrite P.
    + eapply group_frame; [apply S2|]. intros y Hy. apply S3 in Hy. assert (Ny : y ∉ tg_heap (gr s g)) by (intros Hy'; apply S3 in Hy'; congruence).
      rewrite Fr by done. apply upd_other. intros ->. congruence.
  - intros y g'. rewrite (K4 y). cbn. replace (t_group (T1 y)) with (t_group (tg s y)) by (unfold T1, upd; by destruct (decide (y = x))).
    rewrite S3. unfold set_gr. destruct (decide (g' = g)) as [->|]; [cbn; by rewrite P|done].
  - intros y. rewrite (K4 y). apply Hl.
Qed.

Lemma hcount_cons x y l : hcount y (x :: l) = (hcount y l + (if decide (y = x) then 1 else 0))%Z.
Proof.
  unfold hcount. rewrite filter_cons. destruct (decide (y = x)); cbn [length]; lia.
Qed.
Lemma hcount_perm y l l' : l ≡ₚ l' -> hcount y l = hcount y l'.
Proof. intros P. unfold hcount. by rewrite P. Qed.

(** One more, one less. *)
Lemma take_count s x : sched_ok s -> forall y, t_cur (upd x (set_cur (t_cur (tg s x) + 1)) (tg s) y) = hcount y (x :: holders s).
Proof.
  intros So y. rewrite hcount_cons, <- (so_held _ So). unfold upd. destruct (decide (y = x)) as [->|]; cbn; lia.
Qed.

Lemma release_count s x l1 l2 : sched_ok s -> holders s = l1 ++ x :: l2 ->
  (0 < t_cur (tg s x))%Z /\ forall y, t_cur (upd x (set_cur (t_cur (tg s x) - 1)) (tg s) y) = hcount y (l1 ++ l2).
Proof.
  intros So Hh. assert (P : holders s ≡ₚ x :: l1 ++ l2) by (rewrite Hh; symmetry; apply Permutation_middle).
  assert (E : forall y, t_cur (tg s y) = (hcount y (l1 ++ l2) + (if decide (y = x) then 1 else 0))%Z).
  { intros y. rewrite (so_held _ So), (hcount_perm _ _ _ P). apply hcount_cons. }
  split.
  - rewrite E, decide_True by done. unfold hcount. lia.
  - intros y. unfold upd. destruct (decide (y = x)) as [->|Hy]; cbn; rewrite E; [rewrite decide_True by done|rewrite decide_False by done]; lia.
Qed.

Lemma take_in_group s x g : sched_ok s -> t_group (tg s x) = Some g -> (t_cur (tg s x) < t_max (tg s x))%Z ->
  let T1 := upd x (set_cur (t_cur (tg s x) + 1)) (tg s) in
  let '(H, T) := heapify (t_index (tg s x)) (tg_heap (gr s g)) T1 in
  sched_ok (mk_sched T (set_gr g (with_heap H (u64 (g_cur (gr s g) + 1)) (gr s g)) (gr s)) (x :: holders s)).
Proof.
  intros So Hg Hc T1. pose proof (so_load _ So x) as [Lx Mx]. pose proof (so_group _ So g) as [G1 G2 G3 G4 G5 G6 G7].
  pose proof (proj1 (so_member _ So x g) Hg) as [i Hi]%list_elem_of_lookup. rewrite (G3 i x Hi). pose proof (lookup_lt_Some _ _ _ Hi) as Hl.
  assert (Hn : (0 <= t_cur (tg s x) + 1 <= t_max (tg s x))%Z) by lia.
  pose proof (changed_ok (tg s) x _ (so_load _ So) Hn) as L1.
  pose proof (heapify_ok T1 (target_cmp_trans T1 L1) (target_cmp_anti T1) i (tg_heap (gr s g)) T1 Hl G1) as A.
  pose proof (fun y Hy => heapify_frame_all i (tg_heap (gr s g)) T1 y Hl Hy) as Fr.
  destruct (heapify i (tg_heap (gr s g)) T1) as [H T]. destruct A as [K P].
  - apply (change_but _ _ _ _ _ (so_load _ So) G1 G2 Hi).
  - apply (change_up _ _ _ _ _ (so_load _ So) Hn G1 G2 Hi). lia.
  - apply same_refl.
  - intros j y _. by apply change_placed.
  - replace (g_cur (gr s g) + 1)%Z with (g_cur (gr s g) + (t_cur (tg s x) + 1 - t_cur (tg s x)))%Z by lia.
    apply (sched_change s x (t_cur (tg s x) + 1)); try done. by apply take_count.
Qed.

Lemma release_in_group s x g sw l1 l2 : sched_ok s -> t_group (tg s x) = Some g -> holders s = l1 ++ x :: l2 -> (sw = 0 \/ sw = 1)%Z ->
  let T1 := upd x (set_cur (t_cur (tg s x) - 1)) (tg s) in
  let '(H, T) := heap_adjust (t_index (tg s x)) sw (tg_heap (gr s g)) T1 in
  sched_ok (mk_sched T (set_gr g (with_heap H (u64 (g_cur (gr s g) - 1)) (gr s g)) (gr s)) (l1 ++ l2)).
Proof.
  intros So Hg Hh Hsw T1. pose proof (so_load _ So x) as [Lx Mx]. pose proof (so_group _ So g) as [G1 G2 G3 G4 G5 G6 G7].
  pose proof (release_count s x l1 l2 So Hh) as [Hpos Hcount].
  pose proof (proj1 (so_member _ So x g) Hg) as [i Hi]%list_elem_of_lookup. rewrite (G3 i x Hi). pose proof (lookup_lt_Some _ _ _ Hi) as Hl.
  assert (Hn : (0 <= t_cur (tg s x) - 1 <= t_max (tg s x))%Z) by lia.
  pose proof (changed_ok (tg s) x _ (so_load _ So) Hn) as L1.
  pose proof (heap_adjust_ok T1 (target_cmp_trans T1 L1) (target_cmp_anti T1) sw i (tg_heap (gr s g)) T1 Hsw Hl G1) as A.
  pose proof (fun y Hy => heap_adjust_frame i sw (tg_heap (gr s g)) T1 y Hl Hy) as Fr.
  destruct (heap_adjust i sw (tg_heap (gr s g)) T1) as [H T]. destruct A as [K P].
  - apply (change_but _ _ _ _ _ (so_load _ So) G1 G2 Hi).
  - apply (change_down _ _ _ _ _ (so_load _ So) Hn G1 G2 Hi). lia.
  - apply same_refl.
  - intros j y _. by apply change_placed.
  - replace (g_cur (gr s g) - 1)%Z with (g_cur (gr s g) + (t_cur (tg s x) - 1 - t_cur (tg s x)))%Z by lia.
    apply (sched_change s x (t_cur (tg s x) - 1)); done.
Qed.

(** A target outside every group. *)
Lemma sched_change_alone s x n l : sched_ok s -> t_group (tg s x) = None -> (0 <= n <= t_max (tg s x))%Z ->
  (forall y, t_cur (upd x (set_cur n) (tg s) y) = hcount y l) -> sched_ok (mk_sched (upd x (set_cur n) (tg s)) (gr s) l).
Proof.
  intros [S1 S2 S3 S4] Hg Hn Hl. constructor; cbn.
  - by apply changed_ok.
  - intros g. eapply group_frame; [apply S2|]. intros y Hy. apply upd_other. intros ->. apply S3 in Hy. congruence.
  - intros y g. rewrite <- S3. unfold upd. by destruct (decide (y = x)).
  - done.
Qed.

Lemma take_ok s x s' : sched_ok s -> target_take x s = Some s' -> sched_ok s'.
Proof.
  intros So. unfold target_take. destruct (Z.ltb_spec (t_cur (tg s x)) (t_max (tg s x))) as [Hc|]; [|done].
  pose proof (so_load _ So x) as [Lx Mx]. rewrite wrap_small by lia. rewrite upd_same. cbn [t_group t_index set_cur].
  destruct (t_group (tg s x)) as [g|] eqn:Hg.
  - pose proof (take_in_group s x g So Hg Hc) as A. cbv zeta in A. destruct (heapify _ _ _) as [H T]. by intros [= <-].
  - intros [= <-]. apply sched_change_alone; [done|done|lia|by apply take_count].
Qed.
Lemma sched_release_ok s x idle l1 l2 : sched_ok s -> holders s = l1 ++ x :: l2 -> sched_ok (drop_holder x (target_release x idle s) (l1 ++ l2)).
Proof.
  intros So Hh. unfold target_release, drop_holder. pose proof (release_count s x l1 l2 So Hh) as [Hpos Hcount].
  pose proof (so_load _ So x) as [Lx Mx]. rewrite wrap_small by lia. rewrite upd_same. cbn [t_group t_index set_cur].
  destruct (t_group (tg s x)) as [g|] eqn:Hg.
  - pose proof (release_in_group s x g (if idle then 1 else 0)%Z l1 l2 So Hg Hh ltac:(destruct idle; lia)) as A. cbv zeta in A.
    by destruct (heap_adjust _ _ _ _) as [H T].
  - cbn. apply sched_change_alone; [done|done|lia|done].
Qed.

(** The top has room when the group has. *)
Lemma zsum_some f f' l : (zsum f l < zsum f' l)%Z -> exists x, x ∈ l /\ (f x < f' x)%Z.
Proof.
  induction l as [|x l IH]; [cbn; lia|]. rewrite !zsum_cons. intros H. destruct (decide (f x < f' x)%Z) as [Hx|Hx].
  - exists x. split; [by constructor|done].
  - destruct IH as (y & Hy & E); [lia|]. exists y. split; [by constructor|done].
Qed.
Lemma zsum_full f f' l y : (forall x, (f x <= f' x)%Z) -> (zsum f' l <= zsum f l)%Z -> y ∈ l -> f y = f' y.
Proof.
  intros H. induction l as [|x l IH]; [by intros _ ?%not_elem_of_nil|]. rewrite !zsum_cons. intros Hs [->|Hy]%elem_of_cons.
  - pose proof (H x). pose proof (zsum_le f f' l H). lia.
  - apply IH; [|done]. pose proof (H x). lia.
Qed.
Lemma top_room s g x l : sched_ok s -> tg_heap (gr s g) = x :: l -> (g_cur (gr s g) < g_max (gr s g))%Z ->
  (t_cur (tg s x) < t_max (tg s x))%Z /\ forall y, y ∈ tg_heap (gr s g) -> less_loaded (tg s) x y.
Proof.
  intros So E Hc. pose proof (so_group _ So g) as [G1 G2 G3 G4 G5 G6 G7]. rewrite G4, G5 in Hc. apply zsum_some in Hc as (y & Hy & Hlt).
  assert (Least : forall y, y ∈ tg_heap (gr s g) -> less_loaded (tg s) x y).
  { apply (heap_top _ (so_load _ So)); [done|]. by rewrite E. }
  split; [|done]. pose proof (Least y Hy) as Le. unfold less_loaded in Le. pose proof (so_load _ So x) as [? ?]. pose proof (so_load _ So y) as [? ?]. nia.
Qed.
Lemma group_take_ok s g x s' : sched_ok s -> group_take g s = Some (x, s') -> sched_ok s'.
Proof.
  intros So. unfold group_take. destruct (Z.ltb_spec (g_cur (gr s g)) (g_max (gr s g))) as [Hc|]; [|done].
  destruct (tg_heap (gr s g)) as [|y l] eqn:E; [done|]. destruct (top_room s g y l So E Hc) as [Hy _].
  assert (Hg : t_group (tg s y) = Some g) by (apply (so_member _ So); rewrite E; constructor).
  pose proof (so_load _ So y) as [Ly My]. rewrite wrap_small by lia.
  pose proof (take_in_group s y g So Hg Hy) as A. cbv zeta in A. rewrite (gk_placed _ _ (so_group _ So g) 0 y) in A by (by rewrite E).
  rewrite E in A. destruct (heapify _ _ _) as [H T]. by intros [= <- <-].
Qed.

(** ** Joining and leaving a group *)

(** An array that differs from a heap at one place. *)
Lemma heap_but_at T H H1 k : (forall x, load_ok (T x)) -> heap (target_cmp T) H ->
  (forall j y, j <> k -> H1 !! j = Some y -> H !! j = Some y) -> heap_but (target_cmp T) H1 k.
Proof.
  intros Ho Hh E. constructor.
  - intros p c Hc Hp Hk a b Ha Hb. apply E in Ha, Hb; [|done|done]. by apply (Hh p c).
  - intros p c Hp Hc a b Ha Hb. assert (Np : p <> k /\ c <> k /\ k < c) by (unfold child in *; lia). destruct Np as (N1 & N2 & N3).
    apply (E p a N1) in Ha. apply (E c b N2) in Hb. pose proof (lookup_lt_Some _ _ _ Hb).
    destruct (lookup_lt_is_Some_2 H k ltac:(lia)) as [z Hz]. apply (target_cmp_trans T Ho a z b); [by apply (Hh p k)|by apply (Hh k c)].
Qed.

Lemma insert_heap_ok T H x : (forall y, load_ok (T y)) -> NoDup H -> heap (target_cmp T) H -> placed H T -> x ∉ H ->
  let '(H', T') := heap_adjust (length H) 0 (H ++ [x]) (upd x (set_index (length H)) T) in
  heap_ok T H' T' /\ H' ≡ₚ x :: H /\ forall y, y ∉ x :: H -> T' y = T y.
Proof.
  intros Ho Nd Hh Pl Hx. set (n := length H). set (T1 := upd x (set_index n) T).
  assert (Hn : n < length (H ++ [x])) by (rewrite length_app; cbn; lia).
  assert (P0 : H ++ [x] ≡ₚ x :: H) by (symmetry; apply Permutation_cons_append).
  assert (At : forall j y, j <> n -> (H ++ [x]) !! j = Some y -> H !! j = Some y).
  { intros j y Hj Hy. pose proof (lookup_lt_Some _ _ _ Hy) as Hl. rewrite length_app in Hl. cbn in Hl. by rewrite lookup_app_l in Hy by (unfold n in *; lia). }
  pose proof (heap_adjust_ok T (target_cmp_trans T Ho) (target_cmp_anti T) 0 n (H ++ [x]) T1 (or_introl eq_refl) Hn) as A.
  pose proof (fun y Hy => heap_adjust_frame n 0 (H ++ [x]) T1 y Hn Hy) as Fr.
  destruct (heap_adjust n 0 (H ++ [x]) T1) as [H' T']. destruct A as [K P].
  - rewrite P0. by constructor.
  - by apply (heap_but_at T H).
  - intros c Hc a b _ Hb. apply lookup_lt_Some in Hb. rewrite length_app in Hb. cbn in Hb. unfold child, n in *. lia.
  - apply same_upd, same_refl.
  - intros j y Hj Hy. apply (At j y Hj) in Hy. unfold T1. rewrite upd_other; [by apply Pl|]. intros ->. by eapply Hx, list_elem_of_lookup_2.
  - split; [done|]. split; [by rewrite P, P0|]. intros y Hy. cbn in Fr. rewrite Fr by (by rewrite P0). apply upd_other. intros ->. apply Hy. constructor.
Qed.

(** The array without its last. *)
Lemma last_split (H : list loc) : H <> [] -> H = take (length H - 1) H ++ [H !!! (length H - 1)].
Proof.
  intros Hne. assert (Hl : length H - 1 < length H) by (destruct H; [done|cbn; lia]).
  rewrite <- (take_drop (length H - 1) H) at 1. f_equal. rewrite (drop_S H (H !!! (length H - 1)) (length H - 1)).
  - f_equal. apply drop_ge. lia.
  - by apply list_lookup_lookup_total_lt.
Qed.

Lemma remove_heap_ok T g i x : (forall y, load_ok (T y)) -> group_ok T g -> tg_heap g !! i = Some x ->
  let '(g', T') := heap_remove i g T in
  g' = mk_group (tg_heap g') (heap_buf_size g) (g_max g) (g_cur g) (g_wait g) /\
  heap_ok T (tg_heap g') T' /\ tg_heap g ≡ₚ x :: tg_heap g' /\ forall y, y ∉ tg_heap g -> T' y = T y.
Proof.
  intros Ho [G1 G2 G3 _ _ _ _] Hi. pose proof (lookup_lt_Some _ _ _ Hi) as Hl. unfold heap_remove. set (H := tg_heap g) in *. set (n := length H - 1).
  assert (Hs : H = take n H ++ [H !!! n]) by (apply last_split; intros E; rewrite E in Hl; cbn in Hl; lia).
  assert (Hn : length (take n H) = n) by (rewrite length_take; unfold n; lia).
  assert (At : forall j y, take n H !! j = Some y -> H !! j = Some y) by (intros j y [? ?]%lookup_take_Some; done).
  destruct (Nat.eqb_spec i n) as [->|Hne].
  - cbn. split; [done|]. assert (x = H !!! n) as -> by (by apply list_lookup_total_correct in Hi). split; [|split; [rewrite Hs at 1; symmetry; apply Permutation_cons_append|done]].
    constructor.
    + rewrite Hs in G1. by apply NoDup_app in G1 as [? _].
    + intros p c Hc a b Ha Hb. apply (G2 p c Hc); by apply At.
    + intros j y Hy. by apply G3, At.
    + apply same_refl.
  - set (t := H !!! n). set (H1 := <[i := t]> (take n H)). set (T1 := upd t (set_index i) T).
    assert (Hi1 : i < length (take n H)) by (unfold n in *; lia).
    assert (Hx : take n H !! i = Some x) by (rewrite lookup_take_lt; [done|lia]).
    assert (Ht : H !! n = Some t) by (apply list_lookup_lookup_total_lt; unfold n; lia).
    assert (P1 : H ≡ₚ x :: H1).
    { unfold H1. rewrite (insert_perm (take n H) i t Hi1). rewrite Hs at 1. rewrite <- Permutation_cons_append. fold t.
      rewrite (delete_Permutation (take n H) i x Hx) at 1. apply perm_swap. }
    assert (Nd1 : NoDup H1) by (rewrite P1 in G1; by apply NoDup_cons in G1 as [_ ?]).
    assert (E1 : H1 !!! i = t) by (apply list_lookup_total_correct, list_lookup_insert_eq; done).
    assert (At1 : forall j y, j <> i -> H1 !! j = Some y -> H !! j = Some y).
    { intros j y Hj Hy. unfold H1 in Hy. rewrite list_lookup_insert_ne in Hy by done. by apply At. }
    pose proof (adjust_heapify_ok T (target_cmp_trans T Ho) (target_cmp_anti T) i H1 T1) as A. rewrite E1 in A.
    destruct (heap_adjust i 0 H1 T1) as [H2 T2]. destruct (heapify (t_index (T2 t)) H2 T2) as [H3 T3]. cbn.
    split; [done|]. destruct A as (K & P & Fr).
    + unfold H1. by rewrite length_insert.
    + done.
    + by apply (heap_but_at T H).
    + apply same_upd, same_refl.
    + intros j y Hj Hy. apply (At1 j y Hj) in Hy as Hy'. unfold T1. rewrite upd_other; [by apply G3|]. intros ->.
      apply lookup_lt_Some in Hy. unfold H1 in Hy. rewrite length_insert, Hn in Hy. pose proof (NoDup_lookup _ _ _ _ G1 Hy' Ht). lia.
    + split; [done|]. split; [by rewrite P|]. intros y Hy. rewrite Fr.
      * apply upd_other. intros ->. by eapply Hy, list_elem_of_lookup_2.
      * intros Hy'. apply Hy. rewrite P1. by constructor.
Qed.

Lemma loads_upd x f T T' : (forall t, f t = set_index (t_index (f t)) (set_group (t_group (f t)) t)) -> same_loads T T' ->
  forall y, t_cur (upd x f T' y) = t_cur (T y) /\ t_max (upd x f T' y) = t_max (T y).
Proof. intros Hf Sm y. unfold upd. destruct (decide (y = x)); [rewrite Hf|]; rewrite (Sm y); done. Qed.
Lemma cmp_loads T T' a b : (forall y, t_cur (T' y) = t_cur (T y) /\ t_max (T' y) = t_max (T y)) -> target_cmp T' a b = target_cmp T a b.
Proof. intros E. unfold target_cmp. destruct (E a) as [-> ->]. by destruct (E b) as [-> ->]. Qed.

(** The group [g] gets another array, and [x] is in it or not. *)
Lemma sched_regroup s x g og H' T' size : sched_ok s -> (t_group (tg s x) = None \/ t_group (tg s x) = Some g) -> (og = None \/ og = Some g) ->
  heap_ok (tg s) H' T' -> (forall y, y ∉ H' -> y <> x -> T' y = tg s y) -> (len H' <= size <= int_max)%Z -> (0 < size)%Z ->
  (forall y, y ∈ H' <-> t_group (upd x (set_group og) (tg s) y) = Some g) ->
  sched_ok (mk_sched (upd x (set_group og) T') (set_gr g (mk_group H' size (zsum (fun y => t_max (tg s y)) H') (zsum (fun y => t_cur (tg s y)) H') (g_wait (gr s g))) (gr s)) (holders s)).
Proof.
  intros [S1 S2 S3 S4] Hx Hog [K1 K2 K3 K4] Fr Hs Hp Hm. set (T2 := upd x (set_group og) T').
  pose proof (loads_upd x (set_group og) (tg s) T' ltac:(by intros []) K4) as L. fold T2 in L.
  assert (Gr : forall y, t_group (T2 y) = t_group (upd x (set_group og) (tg s) y)).
  { intros y. unfold T2, upd. destruct (decide (y = x)); [done|]. by rewrite (K4 y). }
  assert (Other : forall y g', g' <> g -> y ∈ tg_heap (gr s g') -> y <> x /\ y ∉ H').
  { intros y g' Hne Hy. apply S3 in Hy. assert (Nx : y <> x) by (intros ->; destruct Hx; congruence). split; [done|].
    intros Hy'. apply Hm in Hy'. rewrite upd_other in Hy' by done. congruence. }
  constructor; cbn.
  - intros y. unfold load_ok. destruct (L y) as [-> ->]. apply S1.
  - intros g'. unfold set_gr. destruct (decide (g' = g)) as [->|Hne].
    + constructor; cbn; try done.
      * intros p c Hc a b Ha Hb. rewrite (cmp_loads _ _ _ _ L). by eapply K2.
      * intros i y Hy. unfold T2, upd. destruct (decide (y = x)); cbn; by apply K3.
      * symmetry. apply zsum_same. intros y _. apply L.
      * symmetry. apply zsum_same. intros y _. apply L.
    + eapply group_frame; [apply S2|]. intros y Hy. destruct (Other y g' Hne Hy). unfold T2. rewrite upd_other by done. by apply Fr.
  - intros y g'. rewrite Gr. unfold set_gr. destruct (decide (g' = g)) as [->|Hne]; [by rewrite Hm|].
    rewrite <- S3. unfold upd. destruct (decide (y = x)) as [->|]; [|done]. cbn. destruct Hog as [-> | ->], Hx as [-> | ->]; naive_solver.
  - intros y. destruct (L y) as [-> _]. apply S4.
Qed.

Lemma sched_add_ok mem s g x s' r : sched_ok s -> group_add mem g x s = Some (s', r) -> sched_ok s'.
Proof.
  intros So. unfold group_add. destruct (t_group (tg s x)) as [g'|] eqn:Hg; [by intros [= <- _]|]. destruct (t_wait (tg s x) =? 0)%Z; [|by intros [= <- _]].
  pose proof (so_group _ So g) as [G1 G2 G3 G4 G5 G6 G7]. assert (Hx : x ∉ tg_heap (gr s g)) by (intros Hx; apply (so_member _ So) in Hx; congruence).
  unfold heap_insert. pose proof (insert_heap_ok (tg s) (tg_heap (gr s g)) x (so_load _ So) G1 G2 G3 Hx) as A.
  destruct (heap_adjust _ _ _ _) as [H' T']. destruct A as (K & P & Fr).
  set (size := if (len (tg_heap (gr s g)) =? heap_buf_size (gr s g))%Z then (2 * heap_buf_size (gr s g))%Z else heap_buf_size (gr s g)).
  destruct (_ && (int_max <? _)%Z) eqn:Hov; [done|]. destruct (_ && negb mem); [by intros [= <- _]|]. intros [= <- _].
  pose proof (loads_upd x (set_group (Some g)) (tg s) T' ltac:(by intros []) (hk_loads _ _ _ K) x) as [-> ->].
  assert (Hs : (len H' <= size <= int_max)%Z /\ (0 < size)%Z).
  { rewrite P. cbn [length]. unfold size. destruct (Z.eqb_spec (len (tg_heap (gr s g))) (heap_buf_size (gr s g))) as [E|E]; cbn in Hov; lia. }
  pose proof (sum_small (tg s) H' size (so_load _ So) (proj1 Hs)) as [B1 B2].
  replace (u64 (g_max (gr s g) + t_max (tg s x))) with (zsum (fun y => t_max (tg s y)) H').
  2:{ rewrite (zsum_perm _ _ _ P), zsum_cons, <- G5 in *. rewrite wrap_small; lia. }
  replace (u64 (g_cur (gr s g) + t_cur (tg s x))) with (zsum (fun y => t_cur (tg s y)) H').
  2:{ rewrite (zsum_perm _ _ _ P), zsum_cons, <- G4 in *. rewrite wrap_small; lia. }
  apply (sched_regroup s x g (Some g)); try done; [by left|by right|..].
  - intros y Hy _. apply Fr. by rewrite <- P.
  - apply Hs.
  - apply Hs.
  - intros y. rewrite P. rewrite elem_of_cons, <- (so_member _ So). unfold upd. destruct (decide (y = x)) as [->|]; cbn; naive_solver.
Qed.

Lemma remove_ok s g x s' r : sched_ok s -> group_remove g x s = (s', r) -> sched_ok s'.
Proof.
  intros So. unfold group_remove. destruct (decide (t_group (tg s x) = Some g)) as [Hg|]; [|by intros [= <- _]].
  destruct (t_wait (tg s x) =? 0)%Z; [|by intros [= <- _]].
  pose proof (so_group _ So g) as [G1 G2 G3 G4 G5 G6 G7]. pose proof (proj1 (so_member _ So x g) Hg) as [i Hi]%list_elem_of_lookup. rewrite (G3 i x Hi).
  pose proof (remove_heap_ok (tg s) (gr s g) i x (so_load _ So) (so_group _ So g) Hi) as A. destruct (heap_remove _ _ _) as [G T'].
  destruct A as (Eg & K & P & Fr). set (H' := tg_heap G) in *. rewrite Eg. intros [= <- _]. unfold with_sums. cbn.
  rewrite (hk_loads _ _ _ K x). cbn.
  assert (Hs : (len H' <= heap_buf_size (gr s g) <= int_max)%Z) by (rewrite P in G6; cbn [length] in G6; lia).
  pose proof (sum_small (tg s) H' _ (so_load _ So) Hs) as [B1 B2].
  replace (u64 (g_max (gr s g) - t_max (tg s x))) with (zsum (fun y => t_max (tg s y)) H').
  2:{ rewrite (zsum_perm _ _ _ P), zsum_cons in G5. rewrite wrap_small; lia. }
  replace (u64 (g_cur (gr s g) - t_cur (tg s x))) with (zsum (fun y => t_cur (tg s y)) H').
  2:{ rewrite (zsum_perm _ _ _ P), zsum_cons in G4. rewrite wrap_small; lia. }
  assert (Nx : x ∉ H') by (rewrite P in G1; by apply NoDup_cons in G1 as [? _]).
  apply (sched_regroup s x g None); try done; [by right|by left|..].
  - intros y Hy Hne. apply Fr. rewrite P. rewrite elem_of_cons. naive_solver.
  - intros y. unfold upd. destruct (decide (y = x)) as [->|Hne]; cbn; [naive_solver|]. rewrite (so_member _ So), P, elem_of_cons. naive_solver.
Qed.

Lemma sched_wait_ok d x s : sched_ok s -> sched_ok (target_wait d x s).
Proof.
  intros [S1 S2 S3 S4]. set (f := fun t => set_twait (t_wait t + d) t).
  assert (L : forall y, t_cur (upd x f (tg s) y) = t_cur (tg s y) /\ t_max (upd x f (tg s) y) = t_max (tg s y)) by (intros y; unfold upd; by destruct (decide (y = x))).
  constructor; cbn; fold f.
  - intros y. unfold load_ok. destruct (L y) as [-> ->]. apply S1.
  - intros g. destruct (S2 g) as [G1 G2 G3 G4 G5 G6 G7]. constructor; try done.
    + intros p c Hc a b Ha Hb. rewrite (cmp_loads _ _ _ _ L). by eapply G2.
    + intros i y Hy. unfold upd. destruct (decide (y = x)); cbn; by apply G3.
    + rewrite G4. symmetry. apply zsum_same. intros y _. apply L.
    + rewrite G5. symmetry. apply zsum_same. intros y _. apply L.
  - intros y g. rewrite <- S3. unfold upd. by destruct (decide (y = x)).
  - intros y. destruct (L y) as [-> _]. apply S4.
Qed.
Lemma group_wait_ok d g s : sched_ok s -> sched_ok (group_wait d g s).
Proof.
  intros [S1 S2 S3 S4]. constructor; cbn; try done.
  - intros g'. unfold set_gr. destruct (decide (g' = g)) as [->|]; [|apply S2]. by destruct (S2 g).
  - intros y g'. unfold set_gr. destruct (decide (g' = g)) as [->|]; apply S3.
Qed.

Lemma init_ok max : (forall x, (0 < max x < 2 ^ 32)%Z) -> sched_ok (sched_init max).
Proof.
  intros Hm. constructor; cbn; try done.
  - intros x. split; cbn; [pose proof (Hm x); lia|apply Hm].
  - intros g. constructor; cbn; try done. apply NoDup_nil_2.
  - intros x g. split; [done|]. by intros ?%not_elem_of_nil.
Qed.
Lemma sstep_ok s s' : sched_ok s -> sstep s s' -> sched_ok s'.
Proof.
  intros So. destruct 1; eauto using take_ok, group_take_ok, sched_wait_ok, group_wait_ok, sched_release_ok, sched_add_ok, remove_ok.
Qed.
Lemma sreach_ok max s : (forall x, (0 < max x < 2 ^ 32)%Z) -> sreach max s -> sched_ok s.
Proof. intros Hm. induction 1; eauto using init_ok, sstep_ok. Qed.

(** C23. Whatever acquisitions, releases, waits, additions to groups and removals are
    made, by any number of threads: the load of a target is the number of
    acquisitions not released and at most its maximum; a target is in the array of
    its group and of no other, once, at the place it has in [index]; the array is in
    heap order; and the loads of a group are the sums over its targets (with
    connection limits below [2^32], for which [target_cmp] does not overflow). *)
Theorem sched_invariant max s : (forall x, (0 < max x < 2 ^ 32)%Z) -> sreach max s -> sched_ok s.
Proof. apply sreach_ok. Qed.

(** Two targets in a group, one of them acquired. *)
Definition example_max : loc -> Z := fun _ => 2%Z.
Lemma sched_example_reach : exists s, sreach example_max s /\ tg_heap (gr s 1%positive) = [2%positive; 3%positive] /\ holders s = [3%positive].
Proof.
  eexists. split.
  - eapply sreach_step; [eapply sreach_step; [eapply sreach_step; [constructor|]|]|].
    + eapply (st_add true 1%positive 2%positive). reflexivity.
    + eapply (st_add true 1%positive 3%positive). reflexivity.
    + eapply (st_take 3%positive). reflexivity.
  - split; reflexivity.
Qed.
Lemma sched_invariant_witness : exists s, sreach example_max s /\ sched_ok s /\ holders s = [3%positive].
Proof.
  destruct sched_example_reach as (s & Hr & _ & E). exists s. split; [done|]. split; [|done].
  apply (sched_invariant example_max); [intros x; unfold example_max; lia|done].
Defined.

(** An acquisition from a group takes a target that is the least loaded of the
    group, relative to its maximum, and below its maximum; it fails only when every
    target of the group is at its maximum. *)
Theorem group_acquire_least max s g : (forall x, (0 < max x < 2 ^ 32)%Z) -> sreach max s ->
  match group_take g s with
  | Some (x, s') => t_group (tg s x) = Some g /\ (t_cur (tg s x) < t_max (tg s x))%Z /\
      (forall y, t_group (tg s y) = Some g -> less_loaded (tg s) x y) /\
      (forall y, t_cur (tg s' y) = (t_cur (tg s y) + (if decide (y = x) then 1 else 0))%Z)
  | None => forall y, t_group (tg s y) = Some g -> t_cur (tg s y) = t_max (tg s y)
  end.
Proof.
  intros Hm Hr. pose proof (sreach_ok _ _ Hm Hr) as So. pose proof (so_group _ So g) as [G1 G2 G3 G4 G5 G6 G7].
  destruct (group_take g s) as [[x s']|] eqn:E.
  - pose proof (group_take_ok _ _ _ _ So E) as So'. unfold group_take in E. destruct (Z.ltb_spec (g_cur (gr s g)) (g_max (gr s g))) as [Hc|]; [|done].
    destruct (tg_heap (gr s g)) as [|z l] eqn:Eh; [done|]. destruct (heapify _ _ _) as [H T] eqn:Eq. injection E as -> <-.
    destruct (top_room s g x l So Eh Hc) as [Hx Hl]. split; [apply (so_member _ So); rewrite Eh; constructor|]. split; [done|].
    split; [intros y Hy; apply Hl; by apply (so_member _ So)|].
    intros y. rewrite (so_held _ So' y), (so_held _ So y). apply hcount_cons.
  - intros y Hy. pose proof (so_load _ So y) as [Ly _]. apply (so_member _ So) in Hy. unfold group_take in E.
    destruct (Z.ltb_spec (g_cur (gr s g)) (g_max (gr s g))) as [Hc|Hc].
    + exfalso. destruct (tg_heap (gr s g)) as [|z l] eqn:Eh; [by apply not_elem_of_nil in Hy|]. by destruct (heapify _ _ _).
    + apply (zsum_full (fun z => t_cur (tg s z)) (fun z => t_max (tg s z)) (tg_heap (gr s g))); [intros z; apply (so_load _ So z)|lia|done].
Qed.
Lemma group_acquire_least_witness : exists s, sreach example_max s /\ match group_take 1%positive s with
  | Some (x, s') => t_group (tg s x) = Some 1%positive /\ (t_cur (tg s x) < t_max (tg s x))%Z /\
      (forall y, t_group (tg s y) = Some 1%positive -> less_loaded (tg s) x y) /\
      (forall y, t_cur (tg s' y) = (t_cur (tg s y) + (if decide (y = x) then 1 else 0))%Z)
  | None => forall y, t_group (tg s y) = Some 1%positive -> t_cur (tg s y) = t_max (tg s y)
  end.
Proof.
  destruct sched_example_reach as (s & Hr & _). exists s. split; [done|].
  apply (group_acquire_least example_max s 1%positive); [intros x; unfold example_max; lia|done].
Defined.
