(* ===== verification/StringUtil.v ===== *)
(** * String utilities: [src/util/StringUtil.cc]

    Percent coding and its inverse, splitting and stripping.  A string is the list of
    its bytes.  [url_decode] works in place on the array of the string and its
    terminating NUL, with an index to read and one to write, as the code does;
    a read or write outside the array gives [None].  The character classes are those
    of the C locale; a byte above 127 is in none of them. *)

From S2P Require Import Prelude CLib.

Local Open Scope Z_scope.

(** ** Character classes *)

Definition isupper (c : Z) : bool := (65 <=? c) && (c <=? 90).
Definition islower (c : Z) : bool := (97 <=? c) && (c <=? 122).
Definition isxdigit (c : Z) : bool := is_digit c || ((65 <=? c) && (c <=? 70)) || ((97 <=? c) && (c <=? 102)).
Definition isalnum (c : Z) : bool := is_digit c || isupper c || islower c.

(** ** Percent coding *)

(** One digit of [__htoi]. *)
Definition hex_digit (c : Z) : Z :=
  let c := if isupper c then tolower c else c in
  if (48 <=? c) && (c <=? 57) then c - 48 else c - 97 + 10.
Definition __htoi (s0 s1 : Z) : Z := hex_digit s0 * 16 + hex_digit s1.
Definition __itoh (n : Z) : Z := if 9 <? n then n - 10 + 65 else n + 48.

(** [isxdigit(data[1]) && isxdigit(data[2])], and the two bytes. *)
Definition escape_at (buf : list Z) (data : nat) : option (option (Z * Z)) :=
  s0 ← buf !! S data;
  if isxdigit s0 then
    s1 ← buf !! S (S data);
    Some (if isxdigit s1 then Some (s0, s1) else None)
  else Some None.
Definition store (buf : list Z) (dest : nat) (c : Z) : option (list Z) :=
  if decide (dest < length buf)%nat then Some (<[dest := c]> buf) else None.

(** The loop of [__url_decode]; [fuel] bounds the bytes that are left. *)
Fixpoint decode_loop (fuel : nat) (buf : list Z) (dest data : nat) : option (list Z * nat) :=
  match fuel with
  | O => None
  | S fuel =>
      c ← buf !! data;
      if c =? NUL then buf ← store buf dest NUL; Some (buf, dest)
      else
        e ← (if c =? 37 then escape_at buf data else Some None);
        match e with
        | Some (s0, s1) => buf ← store buf dest (u8 (__htoi s0 s1)); decode_loop fuel buf (S dest) (S (data + 2))
        | None =>
            buf ← store buf dest (if c =? 43 then SP else c);
            decode_loop fuel buf (S dest) (S data)
        end
  end.
Definition url_decode (str : list Z) : option (list Z) :=
  match str with
  | [] => Some []
  | _ => '(buf, sz) ← decode_loop (S (length str)) (str ++ [NUL]) 0 0; Some (take sz buf)
  end.

(** The bytes [url_encode] and [url_encode_component] keep. *)
Definition plain_component (c : Z) : bool :=
  isalnum c || (c =? 45) || (c =? 95) || (c =? 46) || (c =? 33) || (c =? 126) || (c =? 42) || (c =? 39) || (c =? 40) || (c =? 41).
Definition plain_url (c : Z) : bool :=
  plain_component c || (c =? 58) || (c =? 47) || (c =? 64) || (c =? 63) || (c =? 35) || (c =? 38).

Definition encode_byte (plain : Z -> bool) (c : Z) : list Z :=
  if c =? SP then [43]
  else if plain c then [c]
  else [37; __itoh (Z.shiftr c 4); __itoh (c mod 16)].
Fixpoint encode_loop (plain : Z -> bool) (str : list Z) : list Z :=
  match str with
  | [] => []
  | c :: str => encode_byte plain c ++ encode_loop plain str
  end.
Definition url_encode : list Z -> list Z := encode_loop plain_url.
Definition url_encode_component : list Z -> list Z := encode_loop plain_component.

(** ** Splitting *)

(** [std::find]: what is before the separator, and what is after it. *)
Fixpoint find (sep : Z) (s : list Z) : list Z * option (list Z) :=
  match s with
  | [] => ([], None)
  | c :: s => if c =? sep then ([], Some s) else let '(a, b) := find sep s in (c :: a, b)
  end.
Fixpoint split_loop (fuel : nat) (sep : Z) (s : list Z) : list (list Z) :=
  match fuel with
  | O => []
  | S fuel => match find sep s with (a, Some b) => a :: split_loop fuel sep b | (a, None) => [a] end
  end.
Definition split (str : list Z) (sep : Z) : list (list Z) := split_loop (S (length str)) sep str.

Definition keep (a : list Z) (l : list (list Z)) : list (list Z) := match a with [] => l | _ => a :: l end.
Fixpoint split_filter_loop (fuel : nat) (sep : Z) (s : list Z) : list (list Z) :=
  match fuel with
  | O => []
  | S fuel => match find sep s with (a, Some b) => keep a (split_filter_loop fuel sep b) | (a, None) => keep a [] end
  end.
Definition split_filter_empty (str : list Z) (sep : Z) : list (list Z) := split_filter_loop (S (length str)) sep str.

(** [while (st <= ed) { if (!isspace( *st)) break; st++; }]; the second loop of [strip] is
    the same from the other end. *)
Fixpoint skip_spaces (s : list Z) : list Z :=
  match s with
  | [] => []
  | c :: t => if negb (isspace c) then s else skip_spaces t
  end.
Definition strip (str : list Z) : list Z := reverse (skip_spaces (reverse (skip_spaces str))).

Fixpoint same_bytes (str prefix : list Z) : bool :=
  match prefix, str with
  | [], _ => true
  | p :: prefix, c :: str => if negb (c =? p) then false else same_bytes str prefix
  | _ :: _, [] => false
  end.
Definition start_with (str prefix : list Z) : bool :=
  if decide (length str < length prefix)%nat then false else same_bytes str prefix.

(** ** Decoding in place *)

(** The decoded string, on lists. *)
Fixpoint decode (s : list Z) : list Z :=
  match s with
  | [] => []
  | c :: t =>
      if c =? NUL then []
      else if c =? 37 then
        match t with
        | s0 :: s1 :: t' => if isxdigit s0 && isxdigit s1 then u8 (__htoi s0 s1) :: decode t' else c :: decode t
        | _ => c :: decode t
        end
      else (if c =? 43 then SP else c) :: decode t
  end.

Lemma store_ok buf dest c : (dest < length buf)%nat -> store buf dest c = Some (<[dest := c]> buf).
Proof. intros H. unfold store. by rewrite decide_True. Qed.
Lemma take_store buf dest (c : Z) : (dest < length buf)%nat -> take (S dest) (<[dest := c]> buf) = take dest buf ++ [c].
Proof.
  intros H. rewrite (take_S_r _ _ c) by (by apply list_lookup_insert_eq). by rewrite take_insert_ge by lia.
Qed.

(** One turn: a byte is written, [k] are read. *)
Lemma decode_turn fuel buf dest data t c k out :
  (forall buf' dest', (dest' <= data + k)%nat -> drop (data + k) buf' = drop k (t ++ [NUL]) -> length buf' = length buf ->
    exists b, decode_loop fuel buf' dest' (data + k) = Some (b, dest' + length out)%nat /\ take (dest' + length out) b = take dest' buf' ++ out) ->
  (dest <= data)%nat -> (1 <= k)%nat -> drop data buf = t ++ [NUL] -> (dest < length buf)%nat ->
  exists b, (buf' ← store buf dest c; decode_loop fuel buf' (S dest) (data + k)) = Some (b, dest + length (c :: out))%nat /\
    take (dest + length (c :: out)) b = take dest buf ++ c :: out.
Proof.
  intros IH Hd Hk Hb Hl. rewrite store_ok by done. cbn [mbind option_bind]. destruct (IH (<[dest := c]> buf) (S dest)) as (b & E1 & E2).
  - lia.
  - rewrite drop_insert_lt by lia. rewrite <- (drop_drop buf), Hb. done.
  - by rewrite length_insert.
  - exists b. cbn [length]. rewrite Nat.add_succ_r. split; [exact E1|]. rewrite <- Nat.add_succ_l, E2, take_store by done.
    by rewrite <- app_assoc.
Qed.

Lemma drop_at {A} (l : list A) n t : drop n l = t -> forall k, l !! (n + k)%nat = t !! k.
Proof. intros <- k. by rewrite lookup_drop. Qed.

Lemma decode_stop fuel buf dest data : (dest <= data)%nat -> buf !! data = Some NUL ->
  exists b, decode_loop (S fuel) buf dest data = Some (b, dest + 0)%nat /\ take (dest + 0) b = take dest buf ++ [].
Proof.
  intros Hd E. pose proof (lookup_lt_Some _ _ _ E). cbn [decode_loop]. rewrite E. cbn. rewrite store_ok by lia. cbn.
  eexists. rewrite Nat.add_0_r. split; [done|]. rewrite app_nil_r. by apply take_insert_ge.
Qed.

Lemma decode_loop_ok : forall fuel t buf dest data, (length t < fuel)%nat -> (dest <= data)%nat -> drop data buf = t ++ [NUL] ->
  exists b, decode_loop fuel buf dest data = Some (b, dest + length (decode t))%nat /\
    take (dest + length (decode t)) b = take dest buf ++ decode t.
Proof.
  induction fuel as [|fuel IH]; intros t buf dest data Hf Hd Hb; [lia|]. pose proof (drop_at _ _ _ Hb) as At.
  assert (Hl : (data < length buf)%nat).
  { assert (length (drop data buf) <> 0)%nat by (rewrite Hb, length_app; cbn; lia). rewrite length_drop in *. lia. }
  destruct t as [|c t]; [apply decode_stop; [done|by rewrite <- (Nat.add_0_r data), At]|].
  pose proof (At 0%nat) as A0. rewrite Nat.add_0_r in A0. cbn in A0. cbn [decode].
  destruct (Z.eqb_spec c NUL) as [->|Hc]; [by apply decode_stop|].
  cbn [decode_loop]. rewrite A0. cbn [mbind option_bind]. rewrite (proj2 (Z.eqb_neq c NUL) Hc).
  assert (One : forall x, exists b, (buf' ← store buf dest x; decode_loop fuel buf' (S dest) (S data)) = Some (b, dest + length (x :: decode t))%nat /\
    take (dest + length (x :: decode t)) b = take dest buf ++ x :: decode t).
  { intros x. replace (S data) with (data + 1)%nat by lia. apply (decode_turn fuel buf dest data (c :: t)); try done; [|lia].
    intros buf' dest' H1 H2 _. cbn [drop app] in H2. apply IH; [cbn in Hf; lia|done|exact H2]. }
  destruct (Z.eqb_spec c 37) as [->|Hp].
  2:{ apply One. }
  unfold escape_at. replace (S data) with (data + 1)%nat in * by lia. replace (S (data + 1)) with (data + 2)%nat by lia. rewrite !At.
  destruct t as [|s0 [|s1 t]]; cbn [lookup list_lookup app mbind option_bind].
  - apply One.
  - destruct (isxdigit s0); apply One.
  - destruct (isxdigit s0) eqn:X0; cbn [andb mbind option_bind]; [|apply One].
    destruct (isxdigit s1) eqn:X1; cbn [andb mbind option_bind]; [|apply One].
    replace (S (data + 2)) with (data + 3)%nat by lia. apply (decode_turn fuel buf dest data (37 :: s0 :: s1 :: t)); try done; [|lia|lia].
    intros buf' dest' H1 H2 _. cbn [drop app] in H2. apply IH; [cbn in Hf; lia|done|exact H2].
Qed.

(** [url_decode] stays in the array, terminates, and gives the decoded string. *)
Lemma url_decode_ok s : url_decode s = Some (decode s).
Proof.
  destruct s as [|c s]; [done|]. unfold url_decode.
  destruct (decode_loop_ok (S (length (c :: s))) (c :: s) ((c :: s) ++ [NUL]) 0 0 ltac:(lia) ltac:(lia) eq_refl) as (b & E1 & E2).
  rewrite E1. cbn [mbind option_bind Nat.add]. cbn [Nat.add] in E2. by rewrite E2.
Qed.

(** ** Coding and decoding *)

Definition percent_free (plain : Z -> bool) : Prop := forall c, plain c = true -> c <> NUL /\ c <> 37 /\ c <> 43 /\ c <> SP.
Lemma component_free : percent_free plain_component.
Proof. intros c. unfold plain_component, isalnum, is_digit, isupper, islower. lia. Qed.
Lemma url_free : percent_free plain_url.
Proof. intros c. unfold plain_url, plain_component, isalnum, is_digit, isupper, islower. lia. Qed.

Lemma itoh_hex n : 0 <= n < 16 -> isxdigit (__itoh n) = true /\ hex_digit (__itoh n) = n.
Proof.
  intros Hn. unfold __itoh, isxdigit, hex_digit, isupper, tolower, is_digit. destruct (Z.ltb_spec 9 n); split.
  - lia.
  - rewrite (proj2 (andb_true_iff (65 <=? n - 10 + 65) (n - 10 + 65 <=? 90))) by lia. destruct (_ && _) eqn:E; lia.
  - lia.
  - replace ((65 <=? n + 48) && (n + 48 <=? 90)) with false by lia. destruct (_ && _) eqn:E; lia.
Qed.

Lemma decode_encode_byte plain c t : percent_free plain -> is_byte c -> decode (encode_byte plain c ++ t) = c :: decode t.
Proof.
  intros Pf Hb. unfold is_byte in Hb. unfold encode_byte. destruct (Z.eqb_spec c SP) as [->|Hs]; [done|].
  destruct (plain c) eqn:Hp.
  - apply Pf in Hp as (? & ? & ? & ?). cbn [app decode].
    rewrite (proj2 (Z.eqb_neq c NUL)), (proj2 (Z.eqb_neq c 37)), (proj2 (Z.eqb_neq c 43)) by done. done.
  - rewrite Z.shiftr_div_pow2 by lia. change (2 ^ 4) with 16.
    assert (H1 : 0 <= c / 16 < 16) by (split; [apply Z.div_pos|apply Z.div_lt_upper_bound]; lia).
    assert (H2 : 0 <= c mod 16 < 16) by (apply Z.mod_pos_bound; lia).
    destruct (itoh_hex _ H1) as [X0 D0]. destruct (itoh_hex _ H2) as [X1 D1]. cbn [app decode]. change (37 =? NUL) with false. change (37 =? 37) with true.
    cbn [andb]. rewrite X0, X1. cbn [andb]. unfold __htoi. rewrite D0, D1. f_equal. rewrite wrap_small; [|lia].
    pose proof (Z.div_mod c 16 ltac:(lia)). lia.
Qed.
Lemma decode_encode plain s : percent_free plain -> Forall is_byte s -> decode (encode_loop plain s) = s.
Proof.
  intros Pf. induction 1 as [|c s Hc _ IH]; [done|]. cbn [encode_loop]. rewrite decode_encode_byte by done. by rewrite IH.
Qed.

(** The bytes of an encoded string. *)
Lemma encode_bytes plain s x : Forall is_byte s -> x ∈ encode_loop plain s -> plain x = true \/ x = 43 \/ x = 37 \/ isxdigit x = true.
Proof.
  induction 1 as [|c s Hc _ IH]; cbn [encode_loop]; [by intros ?%not_elem_of_nil|]. unfold is_byte in Hc. unfold encode_byte.
  assert (0 <= c / 16 < 16) by (split; [apply Z.div_pos|apply Z.div_lt_upper_bound]; lia).
  assert (0 <= c mod 16 < 16) by (apply Z.mod_pos_bound; lia).
  rewrite elem_of_app. intros [Hx|Hx]; [|by apply IH]. destruct (c =? SP); [|destruct (plain c) eqn:Hp].
  - apply list_elem_of_singleton in Hx as ->. by right; left.
  - apply list_elem_of_singleton in Hx as ->. by left.
  - rewrite Z.shiftr_div_pow2 in Hx by lia. change (2 ^ 4) with 16 in Hx. rewrite !elem_of_cons in Hx.
    destruct Hx as [-> | [-> | [-> | Hx]]]; [by right; right; left|..|by apply not_elem_of_nil in Hx]; right; right; right; by apply itoh_hex.
Qed.
Lemma component_bytes s x : Forall is_byte s -> x ∈ url_encode_component s -> x <> 38 /\ x <> 61 /\ x <> 63 /\ x <> 35 /\ x <> 47 /\ x <> 58 /\ x <> 64.
Proof.
  intros Hs Hx. apply encode_bytes in Hx; [|done]. unfold plain_component, isxdigit, isalnum, is_digit, isupper, islower in Hx. lia.
Qed.

(** [url_decode] undoes [url_encode] and [url_encode_component], for every string of
    bytes, NUL included, while it works in place on the array of the string. *)
Theorem url_code_roundtrip s : Forall is_byte s ->
  url_decode (url_encode s) = Some s /\ url_decode (url_encode_component s) = Some s.
Proof.
  intros Hs. rewrite !url_decode_ok. unfold url_encode, url_encode_component.
  by rewrite !decode_encode by (done || apply url_free || apply component_free).
Qed.
Lemma url_code_roundtrip_witness : url_decode (url_encode [0; 32; 37; 43; 97; 200]) = Some [0; 32; 37; 43; 97; 200] /\
  url_decode (url_encode_component [0; 32; 37; 43; 97; 200]) = Some [0; 32; 37; 43; 97; 200].
Proof. apply (url_code_roundtrip [0; 32; 37; 43; 97; 200]). repeat constructor; unfold is_byte; lia. Defined.

(** ** Splitting and joining *)

Fixpoint join (sep : Z) (l : list (list Z)) : list Z :=
  match l with
  | [] => []
  | [a] => a
  | a :: l => a ++ sep :: join sep l
  end.

Lemma str_find_ok sep s : let '(a, b) := find sep s in sep ∉ a /\ (length a <= length s)%nat /\
  match b with Some b => s = a ++ sep :: b | None => s = a end.
Proof.
  induction s as [|c s IH]; cbn; [split_and!; [by apply not_elem_of_nil|done|done]|].
  destruct (Z.eqb_spec c sep) as [->|Hc]; [split_and!; [by apply not_elem_of_nil|cbn; lia|done]|].
  destruct (find sep s) as [a b]. destruct IH as (I1 & I2 & I3). split_and!; [rewrite elem_of_cons; naive_solver|cbn; lia|].
  destruct b; by rewrite I3.
Qed.
Lemma find_app sep a b : sep ∉ a -> find sep (a ++ sep :: b) = (a, Some b).
Proof.
  induction a as [|c a IH]; intros Ha; cbn; [by rewrite Z.eqb_refl|]. rewrite elem_of_cons in Ha.
  rewrite (proj2 (Z.eqb_neq c sep)) by naive_solver. rewrite IH by naive_solver. done.
Qed.
Lemma find_none sep a : sep ∉ a -> find sep a = (a, None).
Proof.
  induction a as [|c a IH]; intros Ha; cbn; [done|]. rewrite elem_of_cons in Ha.
  rewrite (proj2 (Z.eqb_neq c sep)) by naive_solver. rewrite IH by naive_solver. done.
Qed.

Lemma split_loop_ok sep : forall fuel s, (length s < fuel)%nat ->
  let l := split_loop fuel sep s in l <> [] /\ join sep l = s /\ Forall (fun a => sep ∉ a) l.
Proof.
  induction fuel as [|fuel IH]; intros s Hf; [lia|]. cbn [split_loop]. pose proof (str_find_ok sep s) as F. destruct (find sep s) as [a [b|]].
  - destruct F as (F1 & _ & ->). destruct (IH b) as (I1 & I2 & I3); [rewrite length_app in Hf; cbn in Hf; lia|].
    split_and!; [done| |by constructor]. destruct (split_loop fuel sep b) eqn:E; [done|]. rewrite <- I2. done.
  - destruct F as (F1 & _ & ->). split_and!; [done|done|by repeat constructor].
Qed.
(** The parts of a string, joined, are the string; they do not contain the separator. *)
Lemma split_ok s sep : split s sep <> [] /\ join sep (split s sep) = s /\ Forall (fun a => sep ∉ a) (split s sep).
Proof. apply split_loop_ok. lia. Qed.

Lemma split_loop_join sep : forall l fuel, l <> [] -> Forall (fun a => sep ∉ a) l -> (length (join sep l) < fuel)%nat ->
  split_loop fuel sep (join sep l) = l.
Proof.
  induction l as [|a [|b l] IH]; intros fuel Hne Hf Hl; [done|..].
  - destruct fuel as [|fuel]; [lia|]. apply Forall_cons in Hf as [Ha _]. cbn. by rewrite find_none.
  - apply Forall_cons in Hf as [Ha Hf]. cbn [join] in *. destruct fuel as [|fuel]; [lia|]. cbn [split_loop]. rewrite find_app by done.
    rewrite IH; [done|done|done|]. rewrite length_app in Hl. cbn [length] in Hl. lia.
Qed.
Lemma split_join sep l : l <> [] -> Forall (fun a => sep ∉ a) l -> split (join sep l) sep = l.
Proof. intros Hne Hf. apply split_loop_join; [done|done|lia]. Qed.

Lemma split_filter_loop_ok sep : forall fuel s, split_filter_loop fuel sep s = filter (fun a => a <> []) (split_loop fuel sep s).
Proof.
  assert (K : forall a l, keep a (filter (fun a : list Z => a <> []) l) = filter (fun a => a <> []) (a :: l)).
  { intros a l. rewrite filter_cons. by destruct a. }
  induction fuel as [|fuel IH]; intros s; cbn [split_filter_loop split_loop]; [done|]. destruct (find sep s) as [a [b|]].
  - by rewrite IH, K.
  - rewrite <- K. done.
Qed.
(** The header says the result has no empty string; it has all the others, in order. *)
Lemma split_filter_ok s sep : split_filter_empty s sep = filter (fun a => a <> []) (split s sep).
Proof. apply split_filter_loop_ok. Qed.

(** ** Stripping, prefixes *)

Lemma str_skip_spaces_ok s : exists pre, s = pre ++ skip_spaces s /\ Forall (fun c => isspace c = true) pre /\
  forall c, head (skip_spaces s) = Some c -> isspace c = false.
Proof.
  induction s as [|c s IH]; cbn; [by exists []|]. destruct (isspace c) eqn:E; cbn [negb].
  - destruct IH as (pre & I0 & I1 & I2). exists (c :: pre). split_and!; [|by constructor|exact I2]. cbn. by f_equal.
  - exists []. split_and!; [done|done|]. by intros ? [= <-].
Qed.

(** [strip] takes white space off both ends, and all of it. *)
Lemma strip_ok s : exists pre post, s = pre ++ strip s ++ post /\
  Forall (fun c => isspace c = true) pre /\ Forall (fun c => isspace c = true) post /\
  (forall c, head (strip s) = Some c -> isspace c = false) /\ (forall c, last (strip s) = Some c -> isspace c = false).
Proof.
  unfold strip. destruct (str_skip_spaces_ok s) as (pre & E1 & P1 & H1). destruct (str_skip_spaces_ok (reverse (skip_spaces s))) as (post & E2 & P2 & H2).
  set (m := skip_spaces (reverse (skip_spaces s))) in *. exists pre, (reverse post).
  assert (E3 : skip_spaces s = reverse m ++ reverse post) by (by rewrite <- reverse_app, <- E2, reverse_involutive).
  split_and!; [by rewrite <- E3|done|by apply Forall_reverse| |].
  - intros c Hc. apply H1. rewrite E3. by destruct (reverse m).
  - intros c Hc. apply H2. by rewrite last_reverse in Hc.
Qed.

Lemma start_with_ok s p : start_with s p = true <-> p `prefix_of` s.
Proof.
  unfold start_with. assert (S : forall s, same_bytes s p = true <-> p `prefix_of` s).
  { induction p as [|x p IH]; intros t; [split; [intros _; apply prefix_nil|by destruct t]|]. destruct t as [|c t].
    - split; [done|]. intros Hp. by apply prefix_nil_not in Hp.
    - cbn. destruct (Z.eqb_spec c x) as [->|Hc]; cbn [negb].
      + rewrite IH. split; [apply prefix_cons|apply prefix_cons_inv_2].
      + split; [done|]. intros H. apply prefix_cons_inv_1 in H. congruence. }
  destruct (decide (length s < length p)%nat) as [Hl|]; [|apply S]. split; [done|]. intros Hp. apply prefix_length in Hp. lia.
Qed.
