(* ===== verification/HttpTask.v ===== *)
(** * The server task of HTTP: [src/factory/HttpTaskImpl.cc]

    [WFHttpServerTask] completes a response before it is sent: version and status when the
    user has not set them, the length of the body, the [Connection] header, and how long
    the connection is kept, which the client may ask for with a [Keep-Alive] header.
    [handle] notes what the request says, [message_out] completes the response; what
    [WFServerTask] does afterwards is the matter of [Workflow] and [CommServer].

    The response is the message of [HttpMessage]; failing allocations answer from a
    list, as there.  The results of the calls are ignored as the code does.  A number
    outside [int] is undefined ([None]), for [atoi] as for the product. *)

From stdpp Require Import strings.
From S2P Require Import Prelude CLib HttpParser HttpScan HttpHeader HttpHeaders HttpMessage HttpMap StringUtil.

Local Open Scope Z_scope.

(** ** Definitions *)

(** [atoi] of a string; [strcasecmp]. *)
Definition int (z : Z) : option Z := if (- 2 ^ 31 <=? z) && (z <? 2 ^ 31) then Some z else None.
Definition atoi (s : list Z) : option Z :=
  match skip_spaces s with
  | c :: s' => if c =? 45 then int (- atol_digits 0 s') else if c =? 43 then int (atol_digits 0 s') else int (atol_digits 0 (c :: s'))
  | [] => Some 0
  end.
Definition strcasecmp_eq (a b : list Z) : bool := strncasecmp_eq (S (length a `max` length b)) a b.

Definition HTTP_KEEPALIVE_MAX : Z := 300 * 1000.
Definition str_timeout : list Z := [116; 105; 109; 101; 111; 117; 116].
Definition str_max : list Z := [109; 97; 120].
Definition str_HTTP_1_1 : list Z := [72; 84; 84; 80; 47; 49; 46; 49].

Record server_task := mk_task {
  req : http_message;
  resp : http_message;
  keep_alive_timeo : Z;
  req_is_alive : bool;
  req_has_keep_alive_header : bool;
  req_keep_alive : list Z }.

(** [WFHttpServerTask::handle] in the state [WFT_STATE_TOREPLY]. *)
Definition handle_toreply (t : server_task) : option server_task :=
  let p := parser (req t) in
  let alive := keep_alive p in
  if alive && has_keep_alive p then
    '(o, _) ← http_header_cursor_find str_Keep_Alive 10 p http_header_cursor_init;
    Some (match o with
          | Some v => mk_task (req t) (resp t) (keep_alive_timeo t) alive true v
          | None => mk_task (req t) (resp t) (keep_alive_timeo t) alive false (req_keep_alive t)
          end)
  else Some (mk_task (req t) (resp t) (keep_alive_timeo t) alive (req_has_keep_alive_header t) (req_keep_alive t)).

(** The two strings of a parameter: [split(kv, '=')], with [0] when there is no value. *)
Definition param (kv : list Z) : option (list Z * list Z) :=
  let arr := split kv 61 in
  let arr := if (length arr <? 2)%nat then arr ++ [[48]] else arr in
  k ← arr !! 0%nat; v ← arr !! 1%nat; Some (strip k, strip v).

(** The loop over the parameters of [Keep-Alive]. *)
Fixpoint params_loop (seq : Z) (params : list (list Z)) (flag timeo : Z) : option Z :=
  match params with
  | [] => Some timeo
  | kv :: params =>
      '(key, val) ← param kv;
      if (Z.land flag 1 =? 0) && strcasecmp_eq key str_timeout then
        let flag := Z.lor flag 1 in
        v ← atoi val; timeo ← int (1000 * v);
        if flag =? 3 then Some timeo else params_loop seq params flag timeo
      else if (Z.land flag 2 =? 0) && strcasecmp_eq key str_max then
        let flag := Z.lor flag 2 in
        v ← atoi val;
        if v <=? seq then Some 0
        else if flag =? 3 then Some timeo else params_loop seq params flag timeo
      else params_loop seq params flag timeo
  end.

Definition default_version (p : http_parser) (h : heap) : http_parser * heap :=
  match version p with
  | Some _ => (p, h)
  | None => let '(_, p, h) := http_parser_set_version str_HTTP_1_1 p h in (p, h)
  end.
Definition default_status (p : http_parser) (h : heap) : option (http_parser * heap) :=
  match code p, phrase p with
  | Some _, Some _ => Some (p, h)
  | Some s, None => status_code ← atoi s; set_response_status p status_code h
  | None, _ => set_response_status p 200 h
  end.
(** [char buf[32]; sprintf(buf, "%zu", size)] *)
Definition decimal_size (size : Z) : list Z := digits 20 size [].
Definition default_length (size : Z) (p : http_parser) (h : heap) : option (http_parser * heap) :=
  if negb (chunked p) && negb (has_content_length p) then
    let buf := decimal_size size in
    if len buf <? 32 then
      '(_, p, h) ← http_parser_add_header str_Content_Length 14 (buf ++ [NUL]) (len buf) p h; Some (p, h)
    else None
  else Some (p, h).
(** The time the connection is kept. *)
Definition kept_for (seq : Z) (p : http_parser) (t : server_task) : option Z :=
  let is_alive := if has_connection p then keep_alive p else req_is_alive t in
  if negb is_alive then Some 0
  else
    timeo ← (if req_has_keep_alive_header t then params_loop seq (split (req_keep_alive t) 44) 0 (keep_alive_timeo t)
             else Some (keep_alive_timeo t));
    Some (if HTTP_KEEPALIVE_MAX <? u32 timeo then HTTP_KEEPALIVE_MAX else timeo).
Definition default_connection (timeo : Z) (p : http_parser) (h : heap) : option (http_parser * heap) :=
  if negb (has_connection p) then
    let value := if timeo =? 0 then str_close else str_Keep_Alive in
    '(_, p, h) ← http_parser_add_header str_Connection 10 (value ++ [NUL]) (len value) p h; Some (p, h)
  else Some (p, h).

Definition message_out (seq : Z) (t : server_task) (h : heap) : option (server_task * heap) :=
  let '(p, h) := default_version (parser (resp t)) h in
  '(p, h) ← default_status p h;
  '(p, h) ← default_length (output_body_size (resp t)) p h;
  timeo ← kept_for seq p t;
  '(p, h) ← default_connection timeo p h;
  Some (mk_task (req t) (with_parser p (resp t)) timeo (req_is_alive t) (req_has_keep_alive_header t) (req_keep_alive t), h).

(** ** The parameters of [Keep-Alive] *)

Lemma param_total kv : is_Some (param kv).
Proof.
  unfold param, split. set (arr := split_loop _ _ _).
  assert (Ha : (0 < length arr)%nat) by (unfold arr; cbn [split_loop]; destruct (find 61 kv) as [? []]; cbn; lia).
  destruct arr as [|a [|b l]]; [cbn in Ha; lia|done|done].
Qed.

(** The value of a parameter with the key [lit]. *)
Definition param_value (lit kv : list Z) : option (list Z) :=
  '(k, v) ← param kv; if strcasecmp_eq k lit then Some v else None.
Definition first_value (lit : list Z) (params : list (list Z)) : option (list Z) := head (omap (param_value lit) params).
Definition number (s : list Z) : Z := default 0 (atoi s).

(** What the client asks for: the first [timeout], in seconds, unless the first [max] is reached. *)
Definition requested (seq : Z) (params : list (list Z)) (timeo : Z) : Z :=
  let timeo := match first_value str_timeout params with Some v => 1000 * number v | None => timeo end in
  match first_value str_max params with Some v => if number v <=? seq then 0 else timeo | None => timeo end.

(** The numbers are in the range of [int]. *)
Definition param_ok (kv : list Z) : Prop :=
  (forall v, param_value str_timeout kv = Some v -> exists n, atoi v = Some n /\ - 2 ^ 31 <= 1000 * n < 2 ^ 31) /\
  (forall v, param_value str_max kv = Some v -> is_Some (atoi v)).

Lemma keys_differ k : strcasecmp_eq k str_timeout = true -> strcasecmp_eq k str_max = false.
Proof.
  unfold strcasecmp_eq, str_timeout, str_max. cbn [strncasecmp_eq hd]. intros [E _]%andb_true_iff.
  apply Z.eqb_eq in E. rewrite E. done.
Qed.

Lemma int_in z : - 2 ^ 31 <= z < 2 ^ 31 -> int z = Some z.
Proof. intros H. unfold int. by replace (_ && _) with true by lia. Qed.

(** One turn of the loop, by what the parameter is. *)
Lemma first_value_cons lit kv params :
  first_value lit (kv :: params) = match param_value lit kv with Some v => Some v | None => first_value lit params end.
Proof. unfold first_value. cbn. by destruct (param_value lit kv). Qed.

Definition asked (seq : Z) (params : list (list Z)) (flag timeo : Z) : Z :=
  let timeo := if flag =? 1 then timeo else match first_value str_timeout params with Some v => 1000 * number v | None => timeo end in
  if flag =? 2 then timeo
  else match first_value str_max params with Some v => if number v <=? seq then 0 else timeo | None => timeo end.

(** Evaluate the tests of the two bits. *)
Ltac bits :=
  repeat match goal with
  | |- context [Z.land ?a ?b] => let r := eval vm_compute in (Z.land a b) in change (Z.land a b) with r
  | |- context [Z.lor ?a ?b] => let r := eval vm_compute in (Z.lor a b) in change (Z.lor a b) with r
  end; cbn [Z.eqb Pos.eqb andb].

Lemma params_loop_ok seq params : forall flag timeo, flag = 0 \/ flag = 1 \/ flag = 2 -> Forall param_ok params ->
  params_loop seq params flag timeo = Some (asked seq params flag timeo).
Proof.
  induction params as [|kv params IH]; intros flag timeo Hf Hp; cbn [params_loop].
  { unfold asked. cbn. by destruct (flag =? 1), (flag =? 2). }
  apply Forall_cons in Hp as [[Ht Hm] Hp]. destruct (param_total kv) as [[k v] Ek].
  assert (Et : param_value str_timeout kv = if strcasecmp_eq k str_timeout then Some v else None) by (unfold param_value; by rewrite Ek).
  assert (Em : param_value str_max kv = if strcasecmp_eq k str_max then Some v else None) by (unfold param_value; by rewrite Ek).
  rewrite Ek. cbn [mbind option_bind]. rewrite Et in Ht. rewrite Em in Hm.
  unfold asked. rewrite !first_value_cons, Et, Em.
  destruct (strcasecmp_eq k str_timeout) eqn:E1.
  - rewrite (keys_differ _ E1). destruct (Ht v eq_refl) as (n & En & Hn). rewrite andb_false_r.
    destruct Hf as [-> | [-> | ->]]; bits; rewrite ?En; cbn [mbind option_bind]; rewrite ?(int_in _ Hn);
      cbn [mbind option_bind]; rewrite ?IH by (exact Hp || lia); unfold asked, number; by rewrite ?En.
  - rewrite andb_false_r. destruct (strcasecmp_eq k str_max) eqn:E2.
    + destruct (Hm v eq_refl) as [n En].
      destruct Hf as [-> | [-> | ->]]; bits; unfold number at 1; rewrite ?En; cbn [mbind option_bind default]; unfold id;
        try (destruct (n <=? seq); [done|]); rewrite ?IH by (exact Hp || lia); by unfold asked.
    + rewrite andb_false_r. by rewrite IH.
Qed.

Lemma requested_ok seq params timeo : Forall param_ok params -> params_loop seq params 0 timeo = Some (requested seq params timeo).
Proof. intros H. rewrite params_loop_ok by tauto. done. Qed.

(** ** Completing the response *)

(** What a step may change of a parser: the start line, the headers and the length. *)
Definition same_connection (p q : http_parser) : Prop := has_connection q = has_connection p /\ keep_alive q = keep_alive p.
(** A step gives the parser [f p], or, for want of memory, one with the same connection. *)
Definition completes (f : http_parser -> http_parser) (p : http_parser) (h : heap) (r : option (http_parser * heap)) : Prop :=
  exists p' h', r = Some (p', h') /\ same_connection p p' /\ (h = [] -> h' = [] /\ p' = f p).

Definition with_version (p : http_parser) : http_parser :=
  match version p with Some _ => p | None => set_version (Some str_HTTP_1_1) p end.
Definition with_status (p : http_parser) : http_parser :=
  let set n := set_phrase (Some (reason_phrase n)) (set_code (Some (decimal n)) p) in
  match code p, phrase p with Some _, Some _ => p | Some s, None => set (number s) | None, _ => set 200 end.
Definition add_line (name v : list Z) (p : http_parser) : http_parser :=
  set_header_list (header_list p ++ [mk_line (len name) (len v) true (line_bytes name v)]) p.
Definition with_length (size : Z) (p : http_parser) : http_parser :=
  if negb (chunked p) && negb (has_content_length p) then
    let q := set_has_content_length true (add_line str_Content_Length (decimal_size size) p) in
    if len (decimal_size size) <=? 15 then set_content_length size q else q
  else p.
Definition with_connection (timeo : Z) (p : http_parser) : http_parser :=
  if negb (has_connection p) then
    set_keep_alive (negb (timeo =? 0)) (set_has_connection true (add_line str_Connection (if timeo =? 0 then str_close else str_Keep_Alive) p))
  else p.

Lemma malloc_nil : malloc [] = (true, []).
Proof. done. Qed.

Lemma default_version_ok p h : completes with_version p h (Some (default_version p h)).
Proof.
  unfold default_version, http_parser_set_version, set_string. destruct (version p) eqn:E.
  - exists p, h. split_and!; [done|done|]. intros ->. unfold with_version. by rewrite E.
  - destruct (malloc h) as [ok h'] eqn:Eh. exists (if ok then set_version (Some str_HTTP_1_1) p else p), h'.
    split; [by destruct ok|]. split; [by destruct ok|]. intros ->. rewrite malloc_nil in Eh. injection Eh as <- <-. unfold with_version. by rewrite E.
Qed.

Lemma set_response_status_ok p n h : - 2 ^ 31 <= n < 2 ^ 31 ->
  completes (fun p => set_phrase (Some (reason_phrase n)) (set_code (Some (decimal n)) p)) p h (set_response_status p n h).
Proof.
  intros Hn. destruct (decimal_text n Hn) as [Hd _].
  unfold set_response_status, http_parser_set_code, http_parser_set_phrase, set_string.
  rewrite (proj2 (Z.ltb_lt _ _) Hd). destruct (malloc h) as [ok1 h1] eqn:E1, (malloc h1) as [ok2 h2] eqn:E2.
  exists (let q := if ok1 then set_code (Some (decimal n)) p else p in if ok2 then set_phrase (Some (reason_phrase n)) q else q), h2.
  split; [destruct ok1, ok2; cbn; by rewrite E2|]. split; [by destruct ok1, ok2|].
  intros ->. rewrite malloc_nil in E1. injection E1 as <- <-. rewrite malloc_nil in E2. by injection E2 as <- <-.
Qed.

Lemma default_status_ok p h : (forall s, code p = Some s -> phrase p = None -> is_Some (atoi s)) ->
  completes with_status p h (default_status p h).
Proof.
  intros Hs. unfold default_status, with_status.
  assert (Ha : forall s n, atoi s = Some n -> - 2 ^ 31 <= n < 2 ^ 31).
  { assert (Hi : forall z n, int z = Some n -> - 2 ^ 31 <= n < 2 ^ 31).
    { intros z n. unfold int. destruct (_ && _) eqn:E; [|done]. intros [= <-]. lia. }
    intros s n. unfold atoi. destruct (skip_spaces s) as [|c s']; [intros [= <-]; lia|].
    destruct (c =? 45); [apply Hi|]. destruct (c =? 43); apply Hi. }
  destruct (code p) as [s|] eqn:Ec, (phrase p) as [ph|] eqn:Ep.
  - exists p, h. split_and!; [done|done|]. intros ->. unfold with_status. by rewrite Ec, Ep.
  - destruct (Hs s eq_refl eq_refl) as [n En]. rewrite En. cbn [mbind option_bind].
    destruct (set_response_status_ok p n h (Ha _ _ En)) as (p' & h' & E & Hc & Hnil). exists p', h'. split_and!; [done|done|].
    intros Hh. destruct (Hnil Hh) as [-> ->]. unfold with_status, number. by rewrite Ec, Ep, En.
  - destruct (set_response_status_ok p 200 h ltac:(lia)) as (p' & h' & E & Hc & Hnil). exists p', h'. split_and!; [done|done|].
    intros Hh. destruct (Hnil Hh) as [-> ->]. unfold with_status. by rewrite Ec.
  - destruct (set_response_status_ok p 200 h ltac:(lia)) as (p' & h' & E & Hc & Hnil). exists p', h'. split_and!; [done|done|].
    intros Hh. destruct (Hnil Hh) as [-> ->]. unfold with_status. by rewrite Ec.
Qed.

Lemma add_header_run name v p h q : len name < 2 ^ 31 -> len v < 2 ^ 31 ->
  __check_message_header name (len name) (v ++ [NUL]) (len v) (add_line name v p) = Some q ->
  http_parser_add_header name (len name) (v ++ [NUL]) (len v) p h =
  Some (if (malloc h).1 then 0 else -1, if (malloc h).1 then q else p, (malloc h).2).
Proof.
  intros Hn Hv Hc. unfold http_parser_add_header, __add_message_header. destruct (malloc h) as [[] h']; cbn [fst snd mbind option_bind]; [|done].
  rewrite memcpy_all, memcpy_app. cbn [mbind option_bind]. rewrite !s32_small by lia. unfold add_line in Hc. by rewrite Hc.
Qed.

Lemma digits_some fuel : forall n acc, (0 < fuel \/ 0 < length acc)%nat -> (0 < length (digits fuel n acc))%nat.
Proof.
  induction fuel as [|fuel IH]; intros n acc Ha; cbn [digits]; [lia|]. destruct (n <? 10); [cbn; lia|]. apply IH. cbn. lia.
Qed.

(** The length of the body, in digits. *)
Lemma decimal_size_ok size : 0 <= size < 2 ^ 64 ->
  len (decimal_size size) <= 20 /\ atol_digits 0 (decimal_size size) = size /\
  exists c s, decimal_size size = c :: s /\ is_digit c = true.
Proof.
  intros Hs. unfold decimal_size. destruct (digits_text 20 size []) as [H1 H2]; [lia|done|].
  assert (Ev : atol_digits 0 (digits 20 size []) = size) by (rewrite digits_value; [done|lia|lia]).
  split; [cbn [length] in H2; lia|]. split; [done|].
  pose proof (digits_some 20 size [] ltac:(lia)) as Hl.
  destruct (digits 20 size []) as [|c s]; [cbn in Hl; lia|]. exists c, s. split; [done|by apply Forall_cons in H1 as [H1 _]].
Qed.

Lemma default_length_ok size p h : 0 <= size < 2 ^ 64 -> completes (with_length size) p h (default_length size p h).
Proof.
  intros Hs. destruct (decimal_size_ok size Hs) as (Hl & Hv & c & s & E & Hc). unfold default_length, with_length.
  destruct (negb (chunked p) && negb (has_content_length p)) eqn:Eb.
  - rewrite (proj2 (Z.ltb_lt _ 32)) by lia. set (q := with_length size p).
    assert (Eq : __check_message_header str_Content_Length (len str_Content_Length) (decimal_size size ++ [NUL]) (len (decimal_size size)) (add_line str_Content_Length (decimal_size size) p) = Some q).
    { assert (E0 : (decimal_size size ++ [NUL]) !! 0%nat = Some c) by (by rewrite E).
      unfold __check_message_header. rewrite E0, memcpy_app. cbn [mbind option_bind].
      change (len str_Content_Length =? 6) with false. change (len str_Content_Length =? 10) with false.
      change (len str_Content_Length =? 14) with true. change (strncasecmp_eq 14 str_Content_Length str_Content_Length) with true.
      cbv iota. rewrite Hc, Hv. unfold q, with_length. rewrite Eb. by destruct (len (decimal_size size) <=? 15). }
    assert (Hn : len str_Content_Length < 2 ^ 31) by (by vm_compute). assert (Hd : len (decimal_size size) < 2 ^ 31) by lia.
    change 14 with (len str_Content_Length). rewrite (add_header_run str_Content_Length (decimal_size size) p h q Hn Hd Eq). cbn [mbind option_bind].
    eexists _, _. split; [done|]. split.
    + destruct (malloc h) as [[] h']; cbn [fst]; [|done]. unfold q, with_length. rewrite Eb. by destruct (len (decimal_size size) <=? 15).
    + intros ->. rewrite malloc_nil. done.
  - exists p, h. split_and!; [done|done|]. intros ->. by rewrite Eb.
Qed.

Lemma default_connection_ok timeo p h :
  exists p' h', default_connection timeo p h = Some (p', h') /\ (h = [] -> h' = [] /\ p' = with_connection timeo p).
Proof.
  unfold default_connection, with_connection. destruct (negb (has_connection p)) eqn:Eb.
  - set (v := if timeo =? 0 then str_close else str_Keep_Alive). set (q := with_connection timeo p).
    assert (Eq : __check_message_header str_Connection (len str_Connection) (v ++ [NUL]) (len v) (add_line str_Connection v p) = Some q).
    { unfold q, with_connection, v. rewrite Eb. by destruct (timeo =? 0). }
    assert (Hn : len str_Connection < 2 ^ 31) by (by vm_compute). assert (Hd : len v < 2 ^ 31) by (unfold v; by destruct (timeo =? 0)).
    change 10 with (len str_Connection). rewrite (add_header_run str_Connection v p h q Hn Hd Eq).
    cbn [mbind option_bind]. eexists _, _. split; [done|]. intros ->. rewrite malloc_nil. unfold q, with_connection. by rewrite Eb.
  - exists p, h. split; [done|]. by intros ->.
Qed.

(** ** The time the connection is kept *)

Definition clamp (timeo : Z) : Z := if HTTP_KEEPALIVE_MAX <? u32 timeo then HTTP_KEEPALIVE_MAX else timeo.
(** What is asked for by whoever decides: the user's own [Connection] header, or the request. *)
Definition kept (seq : Z) (p : http_parser) (t : server_task) : Z :=
  if (if has_connection p then keep_alive p else req_is_alive t) then
    clamp (if req_has_keep_alive_header t then requested seq (split (req_keep_alive t) 44) (keep_alive_timeo t) else keep_alive_timeo t)
  else 0.

Lemma kept_for_ok seq p q t : same_connection p q ->
  (req_has_keep_alive_header t = true -> Forall param_ok (split (req_keep_alive t) 44)) ->
  kept_for seq q t = Some (kept seq p t).
Proof.
  intros [E1 E2] Hp. unfold kept_for, kept. rewrite E1, E2.
  destruct (if has_connection p then keep_alive p else req_is_alive t); [|done]. cbn [negb].
  destruct (req_has_keep_alive_header t); [|done]. by rewrite requested_ok by (by apply Hp).
Qed.

Lemma clamp_range z : - 2 ^ 31 <= z < 2 ^ 31 -> 0 <= clamp z <= HTTP_KEEPALIVE_MAX.
Proof.
  intros Hz. unfold clamp, HTTP_KEEPALIVE_MAX. destruct (Z.ltb_spec (300 * 1000) (u32 z)) as [|H]; [lia|].
  destruct (Z.ltb_spec z 0); [|rewrite wrap_small in H by lia; lia].
  assert (u32 z = z + 2 ^ 32) as E by (unfold wrap; rewrite <- (Z.mod_add z 1 (2 ^ 32)) by lia; rewrite Z.mod_small; lia). lia.
Qed.

Lemma requested_range seq params timeo : Forall param_ok params -> - 2 ^ 31 <= timeo < 2 ^ 31 -> - 2 ^ 31 <= requested seq params timeo < 2 ^ 31.
Proof.
  intros Hp Ht. unfold requested.
  assert (Hm : - 2 ^ 31 <= match first_value str_timeout params with Some v => 1000 * number v | None => timeo end < 2 ^ 31).
  { induction Hp as [|kv params [H _] Hp IH]; [done|]. rewrite first_value_cons.
    destruct (param_value str_timeout kv) as [v|]; [|done]. destruct (H v eq_refl) as (n & En & Hn). unfold number. by rewrite En. }
  destruct (first_value str_max params) as [v|]; [|done]. destruct (number v <=? seq); [lia|done].
Qed.

(** ** The response *)

Lemma headers_add p hs name v : headers p hs -> len name < 2 ^ 31 -> len v < 2 ^ 31 -> headers (add_line name v p) (hs ++ [(name, v)]).
Proof.
  intros Hh Hn Hv. apply Forall2_app; [done|]. constructor; [|constructor]. exists []. cbn [fst snd buf name_len value_len]. rewrite app_nil_r. done.
Qed.

(** The headers the task adds. *)
Definition added_length (size : Z) (p : http_parser) : list (list Z * list Z) :=
  if chunked p || has_content_length p then [] else [(str_Content_Length, decimal_size size)].
Definition added_connection (timeo : Z) (p : http_parser) : list (list Z * list Z) :=
  if has_connection p then [] else [(str_Connection, if timeo =? 0 then str_close else str_Keep_Alive)].

Lemma with_length_headers size p hs : 0 <= size < 2 ^ 64 -> headers p hs -> headers (with_length size p) (hs ++ added_length size p).
Proof.
  intros Hs Hh. destruct (decimal_size_ok size Hs) as [Hl _]. unfold with_length, added_length.
  destruct (chunked p), (has_content_length p); cbn [negb andb orb]; [by rewrite app_nil_r..|].
  assert (H : headers (add_line str_Content_Length (decimal_size size) p) (hs ++ [(str_Content_Length, decimal_size size)]))
    by (apply headers_add; [done|by vm_compute|lia]).
  by destruct (len (decimal_size size) <=? 15).
Qed.
Lemma with_connection_headers timeo p hs : headers p hs -> headers (with_connection timeo p) (hs ++ added_connection timeo p).
Proof.
  intros Hh. unfold with_connection, added_connection. destruct (has_connection p); cbn [negb]; [by rewrite app_nil_r|].
  apply headers_add; [done|by vm_compute|by destruct (timeo =? 0)].
Qed.

(** The parts of the start line. *)
Definition sent_line (p : http_parser) : list Z * list Z * list Z :=
  let n := match code p with Some s => number s | None => 200 end in
  (default str_HTTP_1_1 (version p),
   match code p, phrase p with Some c, Some _ => c | _, _ => decimal n end,
   match code p, phrase p with Some _, Some ph => ph | _, _ => reason_phrase n end).

Lemma filled_ok p : let q := with_status (with_version p) in
  method q = method p /\ header_list q = header_list p /\ chunked q = chunked p /\ has_content_length q = has_content_length p /\
  same_connection p q /\ (version q, code q, phrase q) = (Some (sent_line p).1.1, Some (sent_line p).1.2, Some (sent_line p).2).
Proof.
  unfold with_status, with_version, sent_line, same_connection.
  destruct (version p) as [v|] eqn:Ev, (code p) as [c|] eqn:Ec, (phrase p) as [ph|] eqn:Ep; cbn; rewrite ?Ev, ?Ec, ?Ep; cbn; rewrite ?Ev, ?Ec, ?Ep; done.
Qed.

(** The length and the connection leave the start line alone. *)
Lemma rest_ok size timeo p : let q := with_connection timeo (with_length size p) in
  start_line q = start_line p /\ chunked q || has_content_length q = true /\ has_connection q = true /\
  (has_connection p = false -> keep_alive q = negb (timeo =? 0)).
Proof.
  unfold with_connection, with_length, start_line.
  destruct (chunked p) eqn:E1, (has_content_length p) eqn:E2, (len (decimal_size size) <=? 15), (has_connection p) eqn:E3; cbn; rewrite ?E1, ?E2, ?E3; cbn; rewrite ?E1, ?E2, ?E3; done.
Qed.

(** C15. What [WFHttpServerTask] sends.  For a response the user has filled in whatever
    way, [message_out] sets the time the connection is kept: 0 when the request, or
    the user's own [Connection] header, ends it; otherwise what was set or the client asks for
    in [Keep-Alive] (0 when this request reaches [max]), cut to 300 seconds at most.  The request and the
    body stay as they are.  When memory is there, the start line is complete, with HTTP/1.1
    and 200 OK or the phrase of the code where the user set none; the message is
    delimited: it is chunked, has the user's length, or gets the size of its body; and without a
    header of the user, [Connection] says [close] exactly when the time is 0.  The user's
    headers stay in front. *)
Theorem message_out_correct seq t h hs :
  let p := parser (resp t) in
  headers p hs -> method p = None -> 0 <= output_body_size (resp t) < 2 ^ 64 -> - 2 ^ 31 <= keep_alive_timeo t < 2 ^ 31 ->
  (forall s, code p = Some s -> phrase p = None -> is_Some (atoi s)) ->
  (req_has_keep_alive_header t = true -> Forall param_ok (split (req_keep_alive t) 44)) ->
  exists t' h', message_out seq t h = Some (t', h') /\
    keep_alive_timeo t' = kept seq p t /\ 0 <= keep_alive_timeo t' <= HTTP_KEEPALIVE_MAX /\
    req t' = req t /\ resp t' = with_parser (parser (resp t')) (resp t) /\
    (h = [] -> let q := parser (resp t') in
       h' = [] /\ start_line q = Some (sent_line p) /\
       headers q (hs ++ added_length (output_body_size (resp t)) p ++ added_connection (keep_alive_timeo t') p) /\
       chunked q || has_content_length q = true /\ has_connection q = true /\
       (has_connection p = false -> keep_alive q = negb (keep_alive_timeo t' =? 0))).
Proof.
  intros p Hh Hm Hs Ht Hc Hp. unfold message_out. fold p.
  destruct (default_version_ok p h) as (p1 & h1 & E1 & S1 & N1). injection E1 as E1. rewrite E1.
  assert (Hc1 : forall s, code p1 = Some s -> phrase p1 = None -> is_Some (atoi s)).
  { unfold default_version, http_parser_set_version, set_string in E1.
    destruct (version p); [by injection E1 as <- _|]. destruct (malloc h) as [[] h0]; by injection E1 as <- _. }
  destruct (default_status_ok p1 h1 Hc1) as (p2 & h2 & -> & S2 & N2). cbn [mbind option_bind].
  destruct (default_length_ok (output_body_size (resp t)) p2 h2 Hs) as (p3 & h3 & -> & S3 & N3). cbn [mbind option_bind].
  assert (S : same_connection p p3) by (unfold same_connection in *; intuition congruence).
  rewrite (kept_for_ok seq p p3 t S Hp). cbn [mbind option_bind].
  destruct (default_connection_ok (kept seq p t) p3 h3) as (p4 & h4 & -> & N4). cbn [mbind option_bind].
  eexists _, h4. split; [done|]. split; [done|]. split.
  { cbn [keep_alive_timeo]. unfold kept. destruct (if has_connection p then _ else _); [|unfold HTTP_KEEPALIVE_MAX; lia].
    apply clamp_range. destruct (req_has_keep_alive_header t); [|done]. apply requested_range; [by apply Hp|done]. }
  split; [done|]. split; [done|]. intros Hh0. cbn [resp parser with_parser keep_alive_timeo].
  destruct (N1 Hh0) as [Hh1 ->]. destruct (N2 Hh1) as [Hh2 ->]. destruct (N3 Hh2) as [Hh3 ->]. destruct (N4 Hh3) as [-> ->].
  destruct (filled_ok p) as (F1 & F2 & F3 & F4 & F5 & F6). set (q2 := with_status (with_version p)) in *.
  destruct (rest_ok (output_body_size (resp t)) (kept seq p t) q2) as (G1 & G2 & G3 & G4).
  split; [done|]. split.
  { rewrite G1. unfold start_line. rewrite F1, Hm. injection F6 as -> -> ->. cbn [mbind option_bind]. reflexivity. }
  split; [|split; [done|split; [done|]]].
  - rewrite app_assoc.
    assert (Hh2' : headers q2 hs) by (unfold headers; by rewrite F2).
    pose proof (with_length_headers (output_body_size (resp t)) q2 hs Hs Hh2') as H3.
    pose proof (with_connection_headers (kept seq p t) _ _ H3) as H4.
    assert (E3 : added_length (output_body_size (resp t)) q2 = added_length (output_body_size (resp t)) p) by (unfold added_length; by rewrite F3, F4).
    assert (E4 : added_connection (kept seq p t) (with_length (output_body_size (resp t)) q2) = added_connection (kept seq p t) p)
      by (unfold added_connection; by rewrite (proj1 S)).
    by rewrite E3, E4 in H4.
  - intros Hn. apply G4. by rewrite (proj1 F5).
Qed.

(** [handle] keeps what the request says: whether it keeps the connection, and the value of the first
    [Keep-Alive] header, in whatever case its name is written. *)
Theorem handle_toreply_correct t hs :
  let p := parser (req t) in
  headers p hs ->
  exists t', handle_toreply t = Some t' /\ req_is_alive t' = keep_alive p /\
    req t' = req t /\ resp t' = resp t /\ keep_alive_timeo t' = keep_alive_timeo t /\
    (keep_alive p = true -> has_keep_alive p = true ->
       req_has_keep_alive_header t' = bool_decide (is_Some (find_spec str_Keep_Alive hs)) /\
       forall v, find_spec str_Keep_Alive hs = Some v -> req_keep_alive t' = v).
Proof.
  intros p Hh. unfold handle_toreply. fold p. destruct (keep_alive p && has_keep_alive p) eqn:Eb.
  - destruct (find_from_start str_Keep_Alive p hs Hh) as (c & Ec).
    change 10 with (len str_Keep_Alive). rewrite Ec. cbn [mbind option_bind]. eexists. split; [done|].
    apply andb_true_iff in Eb as [Ea _]. destruct (find_spec str_Keep_Alive hs) as [v|]; cbn; split_and!; try done.
    intros _ _. split; [done|]. by intros ? [= <-].
  - eexists. split; [done|]. cbn. split_and!; try done. intros Ea Eh. by rewrite Ea, Eh in Eb.
Qed.

(** *** Concrete instances *)

(** A request with [Keep-Alive: timeout=5, MAX=100], an empty response. *)
Definition demo_response : http_message := http_message_init true demo_blank.
Definition demo_task (v : list Z) : server_task := mk_task (http_message_init false demo_blank) demo_response 0 true true v.
Definition demo_keep_alive : list Z := bytes_of "timeout=5, MAX=100"%string.

Lemma message_out_correct_witness :
  exists t', message_out 3 (demo_task demo_keep_alive) [] = Some (t', []) /\ keep_alive_timeo t' = 5000 /\
    headers (parser (resp t')) [(str_Content_Length, [48]); (str_Connection, str_Keep_Alive)] /\
    start_line (parser (resp t')) = Some (str_HTTP_1_1, [50; 48; 48], bytes_of "OK"%string).
Proof.
  destruct (message_out_correct 3 (demo_task demo_keep_alive) [] []) as (t' & h' & E & Ek & _ & _ & _ & Hq).
  - constructor.
  - done.
  - cbn. lia.
  - cbn. lia.
  - done.
  - intros _. repeat constructor.
    + intros v Ev. vm_compute in Ev. injection Ev as <-. exists 5. split; [done|lia].
    + intros v Ev. by vm_compute in Ev.
    + intros v Ev. by vm_compute in Ev.
    + intros v Ev. vm_compute in Ev. injection Ev as <-. by exists 100.
  - destruct (Hq eq_refl) as (-> & Es & Hh & _). assert (Ev : keep_alive_timeo t' = 5000) by (rewrite Ek; by vm_compute).
    exists t'. split; [exact E|]. split; [exact Ev|]. rewrite Ev in Hh. split; [exact Hh|]. rewrite Es. by vm_compute.
Defined.

(** A client that asks for more than 2147483 seconds makes the product overflow. *)
Theorem keep_alive_overflow seq : message_out seq (demo_task (bytes_of "timeout=2147484"%string)) [] = None.
Proof. by vm_compute. Qed.
