(* ===== verification/URIParser.v ===== *)
(** * URIs: [src/util/URIParser.cc], [URIParser.h]

    [parse] looks for the parts of a URI in one pass, with an index and two arrays of
    offsets, checks the characters of the first four parts with a table and copies
    the parts out.  The model keeps the index and, next to it, the text that starts
    there ([str + i]); [buf] is the whole text with its terminating NUL.  Reading past
    the NUL, an index outside an array or a copy from outside the text gives [None].
    Offsets are natural numbers: a text is shorter than [2^31].

    The fields of [ParsedURI] are strings it owns; [realloc] and [strdup] answer from
    a list, as in the other files. *)

From S2P Require Import Prelude CLib StringUtil.

Local Open Scope Z_scope.

(** ** Tables *)

Abbreviation URI_SCHEME := 0%nat.
Abbreviation URI_USERINFO := 1%nat.
Abbreviation URI_HOST := 2%nat.
Abbreviation URI_PORT := 3%nat.
Abbreviation URI_QUERY := 4%nat.
Abbreviation URI_FRAGMENT := 5%nat.
Abbreviation URI_PATH := 6%nat.
Abbreviation URI_PART_ELEMENTS := 7%nat.

Definition valid_char : list (list Z) :=
 [
  [0; 0; 0; 0; 0; 0; 0; 0; 0; 0; 0; 0; 0; 0; 0; 0; 0; 0; 0; 0; 0; 0; 0; 0; 0; 0; 0; 0; 0; 0; 0; 0;
   0; 0; 0; 0; 0; 0; 0; 0; 0; 0; 0; 1; 0; 1; 1; 0; 1; 1; 1; 1; 1; 1; 1; 1; 1; 1; 0; 0; 0; 0; 0; 0;
   0; 1; 1; 1; 1; 1; 1; 1; 1; 1; 1; 1; 1; 1; 1; 1; 1; 1; 1; 1; 1; 1; 1; 1; 1; 1; 1; 0; 0; 0; 0; 0;
   0; 1; 1; 1; 1; 1; 1; 1; 1; 1; 1; 1; 1; 1; 1; 1; 1; 1; 1; 1; 1; 1; 1; 1; 1; 1; 1; 0; 0; 0; 0; 0;
   0; 0; 0; 0; 0; 0; 0; 0; 0; 0; 0; 0; 0; 0; 0; 0; 0; 0; 0; 0; 0; 0; 0; 0; 0; 0; 0; 0; 0; 0; 0; 0;
   0; 0; 0; 0; 0; 0; 0; 0; 0; 0; 0; 0; 0; 0; 0; 0; 0; 0; 0; 0; 0; 0; 0; 0; 0; 0; 0; 0; 0; 0; 0; 0;
   0; 0; 0; 0; 0; 0; 0; 0; 0; 0; 0; 0; 0; 0; 0; 0; 0; 0; 0; 0; 0; 0; 0; 0; 0; 0; 0; 0; 0; 0; 0; 0;
   0; 0; 0; 0; 0; 0; 0; 0; 0; 0; 0; 0; 0; 0; 0; 0; 0; 0; 0; 0; 0; 0; 0; 0; 0; 0; 0; 0; 0; 0; 0; 0];
  [0; 0; 0; 0; 0; 0; 0; 0; 0; 0; 0; 0; 0; 0; 0; 0; 0; 0; 0; 0; 0; 0; 0; 0; 0; 0; 0; 0; 0; 0; 0; 0;
   0; 1; 0; 0; 1; 1; 1; 1; 1; 1; 1; 1; 1; 1; 1; 0; 1; 1; 1; 1; 1; 1; 1; 1; 1; 1; 1; 1; 0; 1; 0; 0;
   0; 1; 1; 1; 1; 1; 1; 1; 1; 1; 1; 1; 1; 1; 1; 1; 1; 1; 1; 1; 1; 1; 1; 1; 1; 1; 1; 0; 0; 0; 0; 1;
   0; 1; 1; 1; 1; 1; 1; 1; 1; 1; 1; 1; 1; 1; 1; 1; 1; 1; 1; 1; 1; 1; 1; 1; 1; 1; 1; 0; 0; 0; 1; 0;
   0; 0; 0; 0; 0; 0; 0; 0; 0; 0; 0; 0; 0; 0; 0; 0; 0; 0; 0; 0; 0; 0; 0; 0; 0; 0; 0; 0; 0; 0; 0; 0;
   0; 0; 0; 0; 0; 0; 0; 0; 0; 0; 0; 0; 0; 0; 0; 0; 0; 0; 0; 0; 0; 0; 0; 0; 0; 0; 0; 0; 0; 0; 0; 0;
   0; 0; 0; 0; 0; 0; 0; 0; 0; 0; 0; 0; 0; 0; 0; 0; 0; 0; 0; 0; 0; 0; 0; 0; 0; 0; 0; 0; 0; 0; 0; 0;
   0; 0; 0; 0; 0; 0; 0; 0; 0; 0; 0; 0; 0; 0; 0; 0; 0; 0; 0; 0; 0; 0; 0; 0; 0; 0; 0; 0; 0; 0; 0; 0];
  [0; 0; 0; 0; 0; 0; 0; 0; 0; 0; 0; 0; 0; 0; 0; 0; 0; 0; 0; 0; 0; 0; 0; 0; 0; 0; 0; 0; 0; 0; 0; 0;
   0; 1; 0; 0; 1; 1; 1; 1; 1; 1; 1; 1; 1; 1; 1; 0; 1; 1; 1; 1; 1; 1; 1; 1; 1; 1; 1; 1; 0; 1; 0; 0;
   0; 1; 1; 1; 1; 1; 1; 1; 1; 1; 1; 1; 1; 1; 1; 1; 1; 1; 1; 1; 1; 1; 1; 1; 1; 1; 1; 1; 0; 1; 0; 1;
   0; 1; 1; 1; 1; 1; 1; 1; 1; 1; 1; 1; 1; 1; 1; 1; 1; 1; 1; 1; 1; 1; 1; 1; 1; 1; 1; 0; 0; 0; 1; 0;
   0; 0; 0; 0; 0; 0; 0; 0; 0; 0; 0; 0; 0; 0; 0; 0; 0; 0; 0; 0; 0; 0; 0; 0; 0; 0; 0; 0; 0; 0; 0; 0;
   0; 0; 0; 0; 0; 0; 0; 0; 0; 0; 0; 0; 0; 0; 0; 0; 0; 0; 0; 0; 0; 0; 0; 0; 0; 0; 0; 0; 0; 0; 0; 0;
   0; 0; 0; 0; 0; 0; 0; 0; 0; 0; 0; 0; 0; 0; 0; 0; 0; 0; 0; 0; 0; 0; 0; 0; 0; 0; 0; 0; 0; 0; 0; 0;
   0; 0; 0; 0; 0; 0; 0; 0; 0; 0; 0; 0; 0; 0; 0; 0; 0; 0; 0; 0; 0; 0; 0; 0; 0; 0; 0; 0; 0; 0; 0; 0];
  [0; 0; 0; 0; 0; 0; 0; 0; 0; 0; 0; 0; 0; 0; 0; 0; 0; 0; 0; 0; 0; 0; 0; 0; 0; 0; 0; 0; 0; 0; 0; 0;
   0; 0; 0; 0; 0; 0; 0; 0; 0; 0; 0; 0; 0; 0; 0; 0; 1; 1; 1; 1; 1; 1; 1; 1; 1; 1; 0; 0; 0; 0; 0; 0;
   0; 0; 0; 0; 0; 0; 0; 0; 0; 0; 0; 0; 0; 0; 0; 0; 0; 0; 0; 0; 0; 0; 0; 0; 0; 0; 0; 0; 0; 0; 0; 0;
   0; 0; 0; 0; 0; 0; 0; 0; 0; 0; 0; 0; 0; 0; 0; 0; 0; 0; 0; 0; 0; 0; 0; 0; 0; 0; 0; 0; 0; 0; 0; 0;
   0; 0; 0; 0; 0; 0; 0; 0; 0; 0; 0; 0; 0; 0; 0; 0; 0; 0; 0; 0; 0; 0; 0; 0; 0; 0; 0; 0; 0; 0; 0; 0;
   0; 0; 0; 0; 0; 0; 0; 0; 0; 0; 0; 0; 0; 0; 0; 0; 0; 0; 0; 0; 0; 0; 0; 0; 0; 0; 0; 0; 0; 0; 0; 0;
   0; 0; 0; 0; 0; 0; 0; 0; 0; 0; 0; 0; 0; 0; 0; 0; 0; 0; 0; 0; 0; 0; 0; 0; 0; 0; 0; 0; 0; 0; 0; 0;
   0; 0; 0; 0; 0; 0; 0; 0; 0; 0; 0; 0; 0; 0; 0; 0; 0; 0; 0; 0; 0; 0; 0; 0; 0; 0; 0; 0; 0; 0; 0; 0]].

Definition authority_map : list nat :=
  [URI_PART_ELEMENTS; 0; 0; 0; 0; 0; 0; 0; 0; 0; 0; 0; 0; 0; 0; 0; 0; 0; 0; 0; 0; 0; 0; 0; 0; 0; 0; 0; 0; 0; 0; 0;
   0; 0; 0; URI_FRAGMENT; 0; 0; 0; 0; 0; 0; 0; 0; 0; 0; 0; URI_PATH; 0; 0; 0; 0; 0; 0; 0; 0; 0; 0; URI_HOST; 0; 0; 0; 0; URI_QUERY;
   URI_USERINFO; 0; 0; 0; 0; 0; 0; 0; 0; 0; 0; 0; 0; 0; 0; 0; 0; 0; 0; 0; 0; 0; 0; 0; 0; 0; 0; 0; 0; 0; 0; 0;
   0; 0; 0; 0; 0; 0; 0; 0; 0; 0; 0; 0; 0; 0; 0; 0; 0; 0; 0; 0; 0; 0; 0; 0; 0; 0; 0; 0; 0; 0; 0; 0;
   0; 0; 0; 0; 0; 0; 0; 0; 0; 0; 0; 0; 0; 0; 0; 0; 0; 0; 0; 0; 0; 0; 0; 0; 0; 0; 0; 0; 0; 0; 0; 0;
   0; 0; 0; 0; 0; 0; 0; 0; 0; 0; 0; 0; 0; 0; 0; 0; 0; 0; 0; 0; 0; 0; 0; 0; 0; 0; 0; 0; 0; 0; 0; 0;
   0; 0; 0; 0; 0; 0; 0; 0; 0; 0; 0; 0; 0; 0; 0; 0; 0; 0; 0; 0; 0; 0; 0; 0; 0; 0; 0; 0; 0; 0; 0; 0;
   0; 0; 0; 0; 0; 0; 0; 0; 0; 0; 0; 0; 0; 0; 0; 0; 0; 0; 0; 0; 0; 0; 0; 0; 0; 0; 0; 0; 0; 0; 0; 0]%nat.

(** ** The offsets *)

(** [a[k] = v] *)
Definition aset (a : list nat) (k v : nat) : option (list nat) := if decide (k < length a)%nat then Some (<[k := v]> a) else None.

(** [i + strlen(str + i)]; [rest] is [str + i]. *)
Definition end_from (i : nat) (rest : list Z) : option nat := n ← strlen rest; Some (i + Z.to_nat n)%nat.

(** [for (i = 0; str[i]; i++) if (str[i] == ':') { end_idx[URI_SCHEME] = i++; break; }]:
    the end of the scheme, [i] and [str + i]. *)
Fixpoint scheme_loop (rest : list Z) (i : nat) : option (nat * nat * list Z) :=
  match rest with
  | [] => None
  | c :: t =>
      if c =? NUL then Some (O, i, rest)
      else if c =? COLON then Some (i, S i, t)
      else scheme_loop t (S i)
  end.

Record scan := mk_scan {
  s_i : nat;
  s_rest : list Z;
  pre_state : nat;
  start_idx : list nat;
  end_idx : list nat;
  skip_path : bool }.

(** [for (; ; i++) switch (authority_map[(unsigned char)str[i]])] *)
Fixpoint authority_loop (buf rest : list Z) (i pre : nat) (st en : list nat) (in_ipv6 skip : bool) : option scan :=
  match rest with
  | [] => None
  | c :: t =>
      k ← authority_map !! Z.to_nat c;
      match k with
      | 0%nat => authority_loop buf t (S i) pre st en in_ipv6 skip
      | URI_USERINFO =>
          n ← head t;
          let in_ipv6 := if n =? 91 then true else in_ipv6 in
          en ← aset en URI_USERINFO i;
          st ← aset st URI_HOST (S i);
          authority_loop buf t (S i) URI_HOST st en in_ipv6 skip
      | URI_HOST =>
          p ← (if decide (i = 0)%nat then None else buf !! (i - 1)%nat);
          let in_ipv6 := if p =? 93 then false else in_ipv6 in
          if in_ipv6 then authority_loop buf t (S i) pre st en in_ipv6 skip
          else
            en ← aset en URI_HOST i;
            st ← aset st URI_PORT (S i);
            authority_loop buf t (S i) URI_PORT st en in_ipv6 skip
      | URI_QUERY =>
          en ← aset en pre i;
          st ← aset st URI_QUERY (S i);
          authority_loop buf t (S i) URI_QUERY st en in_ipv6 true
      | URI_FRAGMENT =>
          en ← aset en pre i;
          st ← aset st URI_FRAGMENT (S i);
          e ← end_from i rest;
          en ← aset en URI_FRAGMENT e;
          Some (mk_scan i rest URI_PART_ELEMENTS st en true)
      | URI_PATH =>
          if skip then authority_loop buf t (S i) pre st en in_ipv6 skip
          else st ← aset st URI_PATH i; Some (mk_scan i rest pre st en skip)
      | URI_PART_ELEMENTS => Some (mk_scan i rest pre st en true)
      | _ => Some (mk_scan i rest pre st en skip)
      end
  end.

(** [while (str[i + 1]) { if (str[++i] == '#') break; }] *)
Fixpoint hash_loop (rest : list Z) (i : nat) : option (nat * list Z) :=
  match rest with
  | [] => None
  | _ :: t =>
      n ← head t;
      if n =? NUL then Some (i, rest)
      else if n =? 35 then Some (S i, t)
      else hash_loop t (S i)
  end.

(** [for (; str[i]; i++)] of the path, and the assignment after it; [fuel] bounds the
    text that is left. *)
Fixpoint path_loop (fuel : nat) (rest : list Z) (i pre : nat) (st en : list nat) : option (list nat * list nat) :=
  match fuel with
  | O => None
  | S fuel =>
      c ← head rest;
      if c =? NUL then e ← end_from i rest; en ← aset en pre e; Some (st, en)
      else
        '(i, rest, pre, st, en) ←
          (if c =? 63 then
             en ← aset en URI_PATH i;
             st ← aset st URI_QUERY (S i);
             '(i, rest) ← hash_loop rest i;
             Some (i, rest, URI_QUERY, st, en)
           else Some (i, rest, pre, st, en));
        c ← head rest;
        if c =? 35 then
          en ← aset en pre i;
          st ← aset st URI_FRAGMENT (S i);
          e ← end_from i rest;
          en ← aset en URI_FRAGMENT e;
          Some (st, en)
        else path_loop fuel (tail rest) (S i) pre st en
  end.

Abbreviation zeros := (replicate URI_PART_ELEMENTS O).

(** The authority, if there is one, from [str + i]. *)
Definition enter (buf rest : list Z) (i : nat) (en : list nat) : option scan :=
  c0 ← head rest;
  c1 ← (if c0 =? 47 then head (tail rest) else Some NUL);
  if (c0 =? 47) && (c1 =? 47) then
    let i := (i + 2)%nat in
    let rest := drop 2 rest in
    c ← head rest;
    st ← (if c =? 91 then Some zeros else aset zeros URI_USERINFO i);
    st ← aset st URI_HOST i;
    authority_loop buf rest i URI_HOST st en (c =? 91) false
  else
    st ← aset zeros URI_PATH i;
    Some (mk_scan i rest URI_PATH st en false).

(** The path, the query and the fragment. *)
Definition finish_parts (s : scan) : option (list nat * list nat) :=
  en ← (if decide (pre_state s = URI_PART_ELEMENTS) then Some (end_idx s) else aset (end_idx s) (pre_state s) (s_i s));
  if skip_path s then Some (start_idx s, en)
  else path_loop (S (length (s_rest s))) (s_rest s) (s_i s) URI_PATH (start_idx s) en.

(** The offsets of the parts; [Some None] is [return -1]. *)
Definition locate (buf : list Z) : option (option (list nat * list nat)) :=
  '(e, i, rest) ← scheme_loop buf 0;
  if decide (e = 0)%nat then Some None
  else
    en ← aset zeros URI_SCHEME e;
    s ← enter buf rest i en;
    r ← finish_parts s;
    Some (Some r).

(** ** The check of the characters and the copies *)

(** [for (j = start_idx[i]; j < end_idx[i]; j++) if (!valid_char[i][str[j]])] *)
Fixpoint check_loop (n : nat) (row : list Z) (buf : list Z) (j : nat) : option bool :=
  match n with
  | O => Some true
  | S n =>
      c ← buf !! j;
      v ← row !! Z.to_nat c;
      if v =? 0 then Some false else check_loop n row buf (S j)
  end.
Fixpoint check_parts (rows : list (list Z)) (k : nat) (buf : list Z) (st en : list nat) : option bool :=
  match rows with
  | [] => Some true
  | row :: rows =>
      s ← st !! k;
      e ← en !! k;
      b ← check_loop (e - s) row buf s;
      if b : bool then check_parts rows (S k) buf st en else Some false
  end.

Inductive uri_state := URI_STATE_INIT | URI_STATE_SUCCESS | URI_STATE_INVALID | URI_STATE_ERROR.
#[export] Instance uri_state_dec : EqDecision uri_state.
Proof. solve_decision. Defined.

Record parsed_uri := mk_uri {
  scheme : option (list Z);
  userinfo : option (list Z);
  host : option (list Z);
  port : option (list Z);
  path : option (list Z);
  query : option (list Z);
  fragment : option (list Z);
  state : uri_state;
  error : Z }.

Definition uri_init : parsed_uri := mk_uri None None None None None None None URI_STATE_INIT 0.

(** [*dst[k] = v] *)
Definition set_dst (k : nat) (v : option (list Z)) (u : parsed_uri) : parsed_uri :=
  let '(mk_uri a b c d p q f s e) := u in
  match k with
  | URI_SCHEME => mk_uri v b c d p q f s e
  | URI_USERINFO => mk_uri a v c d p q f s e
  | URI_HOST => mk_uri a b v d p q f s e
  | URI_PORT => mk_uri a b c v p q f s e
  | URI_QUERY => mk_uri a b c d p v f s e
  | URI_FRAGMENT => mk_uri a b c d p q v s e
  | _ => mk_uri a b c d v q f s e
  end.
Definition set_state (s : uri_state) (u : parsed_uri) : parsed_uri :=
  mk_uri (scheme u) (userinfo u) (host u) (port u) (path u) (query u) (fragment u) s (error u).
Definition set_error (e : Z) (u : parsed_uri) : parsed_uri :=
  mk_uri (scheme u) (userinfo u) (host u) (port u) (path u) (query u) (fragment u) (state u) e.

Definition ENOMEM : Z := 12.

(** The text that is copied for part [k]. *)
Definition part_text (k s e : nat) (buf : list Z) : option (list Z) :=
  let n := (e - s)%nat in
  c0 ← buf !! s;
  c1 ← buf !! (e - 1)%nat;
  if bool_decide (k = URI_HOST) && (c0 =? 91) && (c1 =? 93)
  then (if decide (n < 2)%nat then None else memcpy (Z.of_nat (n - 2)) (drop (S s) buf))
  else memcpy (Z.of_nat n) (drop s buf).

(** The last loop of [parse], from part [k] on; the answer is [return]. *)
Fixpoint copy_parts (n k : nat) (h : heap) (buf : list Z) (st en : list nat) (u : parsed_uri) : option (Z * parsed_uri * heap) :=
  match n with
  | O => Some (0, set_state URI_STATE_SUCCESS u, h)
  | S n =>
      s ← st !! k;
      e ← en !! k;
      if decide (s < e)%nat then
        let '(ok, h) := malloc h in
        if ok : bool then
          v ← part_text k s e buf;
          copy_parts n (S k) h buf st en (set_dst k (Some v) u)
        else Some (-1, set_error ENOMEM (set_state URI_STATE_ERROR (set_dst k None u)), h)
      else copy_parts n (S k) h buf st en (set_dst k None u)
  end.

Definition parse (h : heap) (str : list Z) (u : parsed_uri) : option (Z * parsed_uri * heap) :=
  let u := set_state URI_STATE_INVALID u in
  let buf := str ++ [NUL] in
  l ← locate buf;
  match l with
  | None => Some (-1, u, h)
  | Some (st, en) =>
      b ← check_parts valid_char 0 buf st en;
      if b : bool then copy_parts URI_PART_ELEMENTS 0 h buf st en u else Some (-1, u, h)
  end.

(** ** Copies of a [ParsedURI] *)

(** [if (uri.f) { f = strdup(uri.f); if (!f) break; }]; [None] is [break]. *)
Definition dup (v : option (list Z)) (h : heap) : option (option (list Z)) * heap :=
  match v with
  | None => (Some None, h)
  | Some s => let '(ok, h) := malloc h in (if ok : bool then Some (Some s) else None, h)
  end.

(** The [do { ... } while (0)] of [ParsedURI::copy]: the strings that are copied, and
    [succ]. *)
Fixpoint dup_all (l : list (option (list Z))) (h : heap) : list (option (list Z)) * bool * heap :=
  match l with
  | [] => ([], true, h)
  | v :: l =>
      match dup v h with
      | (None, h) => ([], false, h)
      | (Some v, h) => let '(l, b, h) := dup_all l h in (v :: l, b, h)
      end
  end.
Definition fields (u : parsed_uri) : list (option (list Z)) :=
  [scheme u; userinfo u; host u; port u; path u; query u; fragment u].
Definition of_fields (l : list (option (list Z))) (s : uri_state) (e : Z) : parsed_uri :=
  let f k := nth k l None in mk_uri (f 0%nat) (f 1%nat) (f 2%nat) (f 3%nat) (f 4%nat) (f 5%nat) (f 6%nat) s e.

Definition copy (u : parsed_uri) (h : heap) : parsed_uri * heap :=
  if decide (state u = URI_STATE_SUCCESS) then
    let '(l, succ, h) := dup_all (fields u) h in
    if succ then (of_fields l (state u) (error u), h)
    else (set_error ENOMEM (set_state URI_STATE_ERROR uri_init), h)
  else (set_error (error u) (set_state (state u) uri_init), h).

(** The move constructor: the new object and what is left in the old one. *)
Definition move (u : parsed_uri) : parsed_uri * parsed_uri :=
  (mk_uri (scheme u) (userinfo u) (host u) (port u) (path u) (query u) (fragment u) (state u) (error u), uri_init).

(** ** Queries and paths *)

(** A pass of the loop of [split_query]. *)
Definition query_turn (ele : list Z) (res : gmap (list Z) (list Z)) : gmap (list Z) (list Z) :=
  if decide (ele = []) then res
  else
    let kv := split ele 61 in
    let key := nth 0 kv [] in
    if decide (key = []) then res
    else
      match res !! key with
      | Some _ => res
      | None => if decide (length kv = 1)%nat then <[key := []]> res else <[key := nth 1 kv []]> res
      end.
Definition split_query (q : list Z) : gmap (list Z) (list Z) :=
  if decide (q = []) then ∅ else fold_left (fun res ele => query_turn ele res) (split q 38) ∅.

(** A pass of the loop of [split_query_strict]. *)
Definition strict_turn (ele : list Z) (res : gmap (list Z) (list (list Z))) : gmap (list Z) (list (list Z)) :=
  if decide (ele = []) then res
  else
    let kv := split ele 61 in
    let key := nth 0 kv [] in
    if decide (key = []) then res
    else
      let old := default [] (res !! key) in
      if decide (length kv = 1)%nat then <[key := old ++ [[]]]> res else <[key := old ++ [nth 1 kv []]]> res.
Definition split_query_strict (q : list Z) : gmap (list Z) (list (list Z)) :=
  if decide (q = []) then ∅ else fold_left (fun res ele => strict_turn ele res) (split q 38) ∅.

Definition split_path (p : list Z) : list (list Z) := split_filter_empty p 47.

(** ** Nothing outside the text is read *)

(** The bytes of a C string. *)
Definition is_char (c : Z) : Prop := 0 < c < 256.
Lemma char_nonzero w : Forall is_char w -> NUL ∉ w.
Proof. intros H Hx. rewrite Forall_forall in H. specialize (H _ Hx). unfold is_char in H. lia. Qed.

Lemma strlen_text w : Forall is_char w -> strlen (w ++ [NUL]) = Some (len w).
Proof.
  induction 1 as [|c w Hc _ IH]; [done|]. cbn [app strlen]. unfold is_char in Hc. rewrite (proj2 (Z.eqb_neq c NUL)) by lia.
  rewrite IH. cbn [mbind option_bind length]. f_equal. lia.
Qed.
Lemma end_from_ok i w : Forall is_char w -> end_from i (w ++ [NUL]) = Some (i + length w)%nat.
Proof. intros H. unfold end_from. rewrite strlen_text by done. cbn. do 2 f_equal. lia. Qed.

(** Offsets in a text of [n] bytes. *)
Definition offsets (n : nat) (a : list nat) : Prop := length a = 7%nat /\ Forall (fun x => (x <= n)%nat) a.
Lemma aset_ok n a k v : offsets n a -> (k < 7)%nat -> (v <= n)%nat -> aset a k v = Some (<[k := v]> a) /\ offsets n (<[k := v]> a).
Proof.
  intros [H1 H2] Hk Hv. unfold aset. rewrite decide_True by lia. split; [done|]. split; [by rewrite length_insert|]. by apply Forall_insert.
Qed.
Lemma offsets_zero n : offsets n (replicate 7 O).
Proof. split; [done|]. apply Forall_replicate. lia. Qed.

(** [rest] is [str + i]. *)
Definition at_text (n i : nat) (rest w : list Z) : Prop := rest = w ++ [NUL] /\ Forall is_char w /\ (i + length w = n)%nat.
Lemma at_next n i c t w : at_text n i (c :: t) (c :: w) -> at_text n (S i) t w.
Proof. intros (H1 & H2 & H3). injection H1 as ->. apply Forall_cons in H2 as [_ H2]. cbn in H3. split_and!; [done|done|lia]. Qed.

Lemma authority_map_at c : 0 <= c < 256 -> exists k, authority_map !! Z.to_nat c = Some k.
Proof. intros Hc. apply lookup_lt_is_Some_2. change (length authority_map) with (Z.to_nat 256). lia. Qed.

Record scan_ok (n : nat) (s : scan) : Prop := mk_scan_ok {
  sk_rest : exists w, at_text n (s_i s) (s_rest s) w;
  sk_pre : (pre_state s <= 7)%nat;
  sk_start : offsets n (start_idx s);
  sk_end : offsets n (end_idx s) }.

(** Writing an offset that is in range. *)
Ltac aset_step :=
  match goal with
  | |- context [aset ?a ?k ?v] =>
      let E := fresh "E" in let O := fresh "O" in
      match goal with
      | A : offsets ?n a |- _ => destruct (aset_ok n a k v A ltac:(lia) ltac:(lia)) as [E O]; rewrite E; cbn [mbind option_bind]
      end
  end.

Lemma authority_safe buf n : length buf = S n -> forall w rest i pre st en v6 skip,
  at_text n i rest w -> (1 <= i)%nat -> (pre < 7)%nat -> offsets n st -> offsets n en ->
  exists s, authority_loop buf rest i pre st en v6 skip = Some s /\ scan_ok n s.
Proof.
  intros Hb. induction w as [|c w IH]; intros rest i pre st en v6 skip Hr Hi Hp Hst Hen.
  - destruct Hr as (-> & _ & Hn). eexists. split; [reflexivity|]. constructor; cbn; [|lia|done|done].
    exists []. by split_and!.
  - pose proof Hr as (-> & Hc & Hn). cbn [length] in Hn. pose proof (at_next n i c (w ++ [NUL]) w Hr) as Hr'.
    assert (Stop : forall pre' st' en' skip', (pre' <= 7)%nat -> offsets n st' -> offsets n en' ->
      exists s, Some (mk_scan i ((c :: w) ++ [NUL]) pre' st' en' skip') = Some s /\ scan_ok n s).
    { intros. eexists. split; [done|]. constructor; cbn; [by exists (c :: w)|done|done|done]. }
    cbn [app] in *. cbn [authority_loop]. pose proof (Forall_inv Hc) as Hc0. unfold is_char in Hc0.
    destruct (authority_map_at c ltac:(lia)) as [k ->]. cbn [mbind option_bind].
    destruct k as [|[|[|[|[|[|[|[|k]]]]]]]].
    + apply IH; try done; lia.
    + assert (Hh : exists x, head (w ++ [NUL]) = Some x) by (destruct w; by eexists). destruct Hh as [x ->]. cbn [mbind option_bind].
      do 2 aset_step. apply IH; try done; lia.
    + rewrite decide_False by lia. assert (Hq : exists x, buf !! (i - 1)%nat = Some x) by (apply lookup_lt_is_Some_2; lia).
      destruct Hq as [x ->]. cbn [mbind option_bind]. destruct (if x =? 93 then false else v6); [apply IH; try done; lia|].
      do 2 aset_step. apply IH; try done; lia.
    + by apply Stop; [lia|..].
    + do 2 aset_step. apply IH; try done; lia.
    + do 2 aset_step. change (c :: w ++ [NUL]) with ((c :: w) ++ [NUL]). rewrite end_from_ok by done. cbn [mbind option_bind].
      replace (i + length (c :: w))%nat with n by (cbn [length]; lia). aset_step. by apply Stop.
    + destruct skip; [apply IH; try done; lia|]. aset_step. by apply Stop; [lia|..].
    + by apply Stop; [lia|..].
    + by apply Stop; [lia|..].
Qed.

Lemma hash_safe n : forall w c rest i, at_text n i rest (c :: w) -> exists i' rest' c' w', hash_loop rest i = Some (i', rest') /\
  at_text n i' rest' (c' :: w') /\ (length w' <= length w)%nat /\ (i <= i')%nat.
Proof.
  induction w as [|d w IH]; intros c rest i Hr; pose proof Hr as (-> & _ & _).
  - exists i, ([c] ++ [NUL]), c, []. by split_and!.
  - pose proof (at_next n i c _ _ Hr) as Hr'. pose proof Hr' as (_ & Hd & _). pose proof (Forall_inv Hd) as Hd0. unfold is_char in Hd0.
    cbn [app hash_loop head mbind option_bind]. rewrite (proj2 (Z.eqb_neq d NUL)) by lia. destruct (d =? 35).
    + eexists _, _, d, w. split_and!; [done|exact Hr'|cbn; lia|lia].
    + destruct (IH d _ _ Hr') as (i' & rest' & c' & w' & E & A & L & I). exists i', rest', c', w'. split_and!; [exact E|exact A|cbn; lia|lia].
Qed.

Lemma path_safe n : forall fuel w rest i pre st en, (length w < fuel)%nat -> at_text n i rest w -> (pre < 7)%nat -> offsets n st -> offsets n en ->
  exists st' en', path_loop fuel rest i pre st en = Some (st', en') /\ offsets n st' /\ offsets n en'.
Proof.
  induction fuel as [|fuel IH]; intros w rest i pre st en Hf Hr Hp Hst Hen; [lia|]. cbn [path_loop].
  destruct w as [|c w].
  - pose proof Hr as (-> & _ & Hn). cbn [app head mbind option_bind]. change (NUL =? NUL) with true. cbn [length] in Hn.
    change (end_from i [NUL]) with (end_from i ([] ++ [NUL])). rewrite end_from_ok by constructor. cbn [mbind option_bind length].
    replace (i + 0)%nat with n by lia. aset_step. eauto.
  - assert (Go : forall i0 rest0 c0 w0 pre0 st0 en0, at_text n i0 rest0 (c0 :: w0) -> (length w0 <= length w)%nat -> (pre0 < 7)%nat -> offsets n st0 -> offsets n en0 ->
      exists st' en', (c ← head rest0; if c =? 35 then en ← aset en0 pre0 i0; st ← aset st0 URI_FRAGMENT (S i0); e ← end_from i0 rest0;
        en ← aset en URI_FRAGMENT e; Some (st, en) else path_loop fuel (tail rest0) (S i0) pre0 st0 en0) = Some (st', en') /\ offsets n st' /\ offsets n en').
    { intros i0 rest0 c0 w0 pre0 st0 en0 Hr0 Hl0 Hp0 Hst0 Hen0. pose proof Hr0 as (-> & Hc0 & Hn0). cbn [length] in Hn0. cbn [app head mbind option_bind tail].
      destruct (c0 =? 35).
      - do 2 aset_step. change (c0 :: w0 ++ [NUL]) with ((c0 :: w0) ++ [NUL]). rewrite end_from_ok by done. cbn [mbind option_bind length].
        replace (i0 + S (length w0))%nat with n by lia. aset_step. eauto.
      - apply (IH w0); [cbn in Hf; lia|exact (at_next n i0 c0 _ _ Hr0)|done|done|done]. }
    pose proof Hr as (-> & Hc & Hn). cbn [length] in Hn. pose proof (Forall_inv Hc) as Hc0. unfold is_char in Hc0.
    cbn [app head mbind option_bind]. rewrite (proj2 (Z.eqb_neq c NUL)) by lia. destruct (c =? 63).
    + do 2 aset_step. destruct (hash_safe n w c _ i Hr) as (i' & rest' & c' & w' & Eh & A & L & I). cbn [app] in Eh. rewrite Eh. cbn [mbind option_bind].
      by apply (Go i' rest' c' w'); [done|done|lia|..].
    + cbn [mbind option_bind]. apply (Go i _ c w); try done.
Qed.

Lemma scheme_safe n : forall w rest i, at_text n i rest w -> exists e i' rest' w', scheme_loop rest i = Some (e, i', rest') /\
  at_text n i' rest' w' /\ (e <= n)%nat /\ (e = 0 \/ 1 <= i')%nat.
Proof.
  induction w as [|c w IH]; intros rest i Hr; pose proof Hr as (-> & Hc & Hn).
  - exists O, i, [NUL], []. split_and!; [done|done|lia|by left].
  - pose proof (Forall_inv Hc) as Hc0. unfold is_char in Hc0. pose proof (at_next n i c _ _ Hr) as Hr'.
    cbn [app scheme_loop]. rewrite (proj2 (Z.eqb_neq c NUL)) by lia. destruct (c =? COLON).
    + exists i, (S i), (w ++ [NUL]), w. cbn in Hn. split_and!; [done|exact Hr'|lia|right; lia].
    + apply IH. exact Hr'.
Qed.

Lemma at_head n i rest w : at_text n i rest w -> exists c, head rest = Some c.
Proof. intros (-> & _). destruct w; by eexists. Qed.
Lemma at_drop2 n i rest w : at_text n i rest w -> head rest = Some 47 -> head (tail rest) = Some 47 -> exists w', at_text n (i + 2) (drop 2 rest) w'.
Proof.
  intros (-> & Hc & Hn) H1 H2. destruct w as [|a [|b w]]; [done..|]. exists w. cbn [length] in Hn.
  apply Forall_cons in Hc as [_ [_ Hc]%Forall_cons]. split_and!; [done|done|lia].
Qed.

Lemma finish_safe n s : scan_ok n s -> exists st en, finish_parts s = Some (st, en) /\ offsets n st /\ offsets n en.
Proof.
  intros [[w Hw] S2 S3 S4]. assert (Hl : (length w < S (length (s_rest s)))%nat /\ (s_i s <= n)%nat).
  { destruct Hw as (-> & _ & Hn). rewrite length_app. cbn. lia. } destruct Hl as [Hl Hsi].
  assert (Fin : forall en, offsets n en -> exists st' en', (if skip_path s then Some (start_idx s, en)
    else path_loop (S (length (s_rest s))) (s_rest s) (s_i s) URI_PATH (start_idx s) en) = Some (st', en') /\ offsets n st' /\ offsets n en').
  { intros en Hen. destruct (skip_path s); [eauto|]. apply (path_safe n _ w); try done; lia. }
  unfold finish_parts. destruct (decide _); cbn [mbind option_bind]; [by apply Fin|]. aset_step. by apply Fin.
Qed.

Lemma enter_safe buf n rest i w en : length buf = S n -> at_text n i rest w -> (1 <= i)%nat -> offsets n en ->
  exists s, enter buf rest i en = Some s /\ scan_ok n s.
Proof.
  intros Hb Hr Hi Hen. pose proof (offsets_zero n) as O0. assert (Hi2 : (i <= n)%nat) by (destruct Hr as (_ & _ & ?); lia). unfold enter.
  destruct (at_head _ _ _ _ Hr) as [c0 H0]. rewrite H0. cbn [mbind option_bind].
  assert (Path : exists s, (st ← aset zeros URI_PATH i; Some (mk_scan i rest URI_PATH st en false)) = Some s /\ scan_ok n s).
  { aset_step. eexists. split; [done|]. constructor; cbn; [by exists w|lia|done|done]. }
  destruct (Z.eqb_spec c0 47) as [->|Hc0]; [|exact Path]. destruct (at_head n (S i) (tail rest) (tail w)) as [c1 H1].
  { destruct Hr as (-> & Hc & Hn). destruct w as [|a w]; [done|]. apply Forall_cons in Hc as [_ Hc]. cbn in Hn. split_and!; [done|done|cbn; lia]. }
  rewrite H1. cbn [mbind option_bind andb]. destruct (Z.eqb_spec c1 47) as [->|Hc1]; [|exact Path].
  destruct (at_drop2 _ _ _ _ Hr H0 H1) as [w2 H2]. destruct (at_head _ _ _ _ H2) as [c H3]. rewrite H3. cbn [mbind option_bind].
  assert ((i + 2 <= n)%nat) by (destruct H2 as (_ & _ & ?); lia).
  assert (Auth : forall st v6, offsets n st -> exists s, (st ← aset st URI_HOST (i + 2)%nat; authority_loop buf (drop 2 rest) (i + 2) URI_HOST st en v6 false) = Some s /\ scan_ok n s).
  { intros st v6 Hst. aset_step. by apply (authority_safe buf n Hb w2); [|lia|lia|..]. }
  destruct (c =? 91); [by apply Auth|]. aset_step. by apply Auth.
Qed.

Lemma locate_safe str : Forall is_char str -> exists r, locate (str ++ [NUL]) = Some r /\
  match r with None => True | Some (st, en) => offsets (length str) st /\ offsets (length str) en end.
Proof.
  intros Hs. set (n := length str). set (buf := str ++ [NUL]). unfold locate.
  assert (Hb : length buf = S n) by (unfold buf; rewrite length_app; cbn; lia).
  destruct (scheme_safe n str buf 0) as (e & i & rest & w & -> & Hr & He & Hi); [by split_and!|]. cbn [mbind option_bind].
  destruct (decide (e = 0)%nat) as [|He0]; [by eexists|]. pose proof (offsets_zero n) as O0. aset_step.
  destruct (enter_safe buf n rest i w _ Hb Hr ltac:(lia) O) as (s & -> & Sk). cbn [mbind option_bind].
  destruct (finish_safe n s Sk) as (st & en & -> & O1 & O2). by eexists.
Qed.

Lemma check_loop_safe row buf : length row = 256%nat -> Forall is_byte buf -> forall n j, (j + n <= length buf)%nat -> exists b, check_loop n row buf j = Some b.
Proof.
  intros Hrow Hb. induction n as [|n IH]; intros j Hj; cbn [check_loop]; [by eexists|].
  destruct (lookup_lt_is_Some_2 buf j ltac:(lia)) as [c Ec]. rewrite Ec. cbn [mbind option_bind].
  rewrite Forall_lookup in Hb. pose proof (Hb _ _ Ec) as Hc. unfold is_byte in Hc.
  destruct (lookup_lt_is_Some_2 row (Z.to_nat c) ltac:(lia)) as [v ->]. cbn [mbind option_bind]. destruct (v =? 0); [by eexists|]. apply IH. lia.
Qed.
Lemma offsets_at n a k : offsets n a -> (k < 7)%nat -> exists x, a !! k = Some x /\ (x <= n)%nat.
Proof.
  intros [H1 H2] Hk. destruct (lookup_lt_is_Some_2 a k ltac:(lia)) as [x Hx]. exists x. split; [done|]. rewrite Forall_lookup in H2. by eapply H2.
Qed.
Lemma check_safe n buf st en : (n < length buf)%nat -> Forall is_byte buf -> offsets n st -> offsets n en -> forall rows k,
  Forall (fun row => length row = 256%nat) rows -> (k + length rows <= 7)%nat -> exists b, check_parts rows k buf st en = Some b.
Proof.
  intros Hn Hb Hst Hen. induction rows as [|row rows IH]; intros k Hr Hk; cbn [check_parts]; [by eexists|]. cbn [length] in Hk.
  apply Forall_cons in Hr as [Hrow Hr].
  destruct (offsets_at n st k Hst ltac:(lia)) as (s & -> & Hs). destruct (offsets_at n en k Hen ltac:(lia)) as (e & -> & He). cbn [mbind option_bind].
  destruct (check_loop_safe row buf Hrow Hb (e - s) s ltac:(lia)) as [b ->]. cbn [mbind option_bind]. destruct b; [|by eexists]. apply IH; [done|lia].
Qed.

Lemma part_safe n k s e buf : (n < length buf)%nat -> (s < e)%nat -> (e <= n)%nat -> exists v, part_text k s e buf = Some v.
Proof.
  intros Hn Hse He. unfold part_text. destruct (lookup_lt_is_Some_2 buf s ltac:(lia)) as [c0 E0]. destruct (lookup_lt_is_Some_2 buf (e - 1) ltac:(lia)) as [c1 E1].
  rewrite E0, E1. cbn [mbind option_bind]. destruct (_ && (c0 =? 91) && (c1 =? 93)) eqn:B.
  - rewrite decide_False; [unfold memcpy; rewrite length_drop; replace (_ && _) with true by lia; by eexists|].
    intros Hlt. assert (e - 1 = s)%nat by lia. assert (c1 = c0) by congruence. lia.
  - unfold memcpy. rewrite length_drop. replace (_ && _) with true by lia. by eexists.
Qed.

Definition outcome (u : parsed_uri) (h : heap) (ret : Z) (u' : parsed_uri) : Prop :=
  (ret = 0 /\ state u' = URI_STATE_SUCCESS) \/
  (ret = -1 /\ state u' = URI_STATE_INVALID /\ fields u' = fields u) \/
  (ret = -1 /\ state u' = URI_STATE_ERROR /\ error u' = ENOMEM /\ false ∈ h).

Lemma set_dst_state k v u : state (set_dst k v u) = state u.
Proof. destruct u. by destruct k as [|[|[|[|[|[|k]]]]]]. Qed.
Lemma malloc_false h h' : malloc h = (false, h') -> false ∈ h.
Proof. destruct h; cbn; [done|]. intros [= -> ->]. constructor. Qed.
Lemma malloc_rest h b h' x : malloc h = (b, h') -> x ∈ h' -> x ∈ h.
Proof. destruct h; cbn; [by intros [= <- <-]|]. intros [= -> ->]. by constructor. Qed.

Lemma copy_safe n buf st en : (n < length buf)%nat -> offsets n st -> offsets n en -> forall m k h u, (k + m <= 7)%nat ->
  exists ret u' h', copy_parts m k h buf st en u = Some (ret, u', h') /\ (ret = 0 /\ state u' = URI_STATE_SUCCESS \/
    ret = -1 /\ state u' = URI_STATE_ERROR /\ error u' = ENOMEM /\ false ∈ h).
Proof.
  intros Hn Hst Hen. induction m as [|m IH]; intros k h u Hk; cbn [copy_parts]; [eexists _, _, _; split; [done|by left]|].
  destruct (offsets_at n st k Hst ltac:(lia)) as (s & -> & Hs). destruct (offsets_at n en k Hen ltac:(lia)) as (e & -> & He). cbn [mbind option_bind].
  destruct (decide (s < e)%nat) as [Hse|]; [|apply IH; lia]. destruct (malloc h) as [ok h'] eqn:Em. destruct ok.
  - destruct (part_safe n k s e buf Hn Hse He) as [v ->]. cbn [mbind option_bind].
    destruct (IH (S k) h' (set_dst k (Some v) u) ltac:(lia)) as (ret & u' & h2 & E & O). eexists _, _, _. split; [exact E|].
    destruct O as [O|(O1 & O2 & O3 & O4)]; [by left|right]. split_and!; [done..|by eapply malloc_rest].
  - eexists _, _, _. split; [done|right]. split_and!; [done|done|done|by eapply malloc_false].
Qed.

(** [parse] returns for every C string and whatever [realloc] answers, and reads and
    copies nothing outside the string and the offset arrays.  It succeeds, or finds the
    string invalid and leaves the parts as they were, or reports that memory ran out. *)
Theorem uri_parse_safe h str u : Forall is_char str -> exists ret u' h', parse h str u = Some (ret, u', h') /\ outcome u h ret u'.
Proof.
  intros Hs. unfold parse, outcome. destruct (locate_safe str Hs) as (r & -> & Hr). cbn [mbind option_bind].
  assert (Hn : (length str < length (str ++ [NUL]))%nat) by (rewrite length_app; cbn; lia).
  assert (Hb : Forall is_byte (str ++ [NUL])).
  { apply Forall_app. split; [|repeat constructor; done]. eapply Forall_impl; [exact Hs|]. intros c. unfold is_char, is_byte. lia. }
  assert (Bad : fields (set_state URI_STATE_INVALID u) = fields u) by done.
  destruct r as [[st en]|]; [|eexists _, _, _; split; [done|]; right; left; by split_and!]. destruct Hr as [O1 O2].
  destruct (check_safe (length str) (str ++ [NUL]) st en Hn Hb O1 O2 valid_char 0) as [b ->]; [repeat constructor|cbn; lia|]. cbn [mbind option_bind].
  destruct b; [|eexists _, _, _; split; [done|]; right; left; by split_and!].
  destruct (copy_safe (length str) (str ++ [NUL]) st en Hn O1 O2 7 0 h (set_state URI_STATE_INVALID u) ltac:(lia)) as (ret & u' & h' & E & O).
  eexists _, _, _. split; [exact E|]. tauto.
Qed.
Lemma uri_parse_safe_witness : exists ret u' h', parse [false] [97; 58; 47; 47; 91; 63] uri_init = Some (ret, u', h') /\ outcome uri_init [false] ret u'.
Proof. apply (uri_parse_safe [false] [97; 58; 47; 47; 91; 63] uri_init). repeat constructor; unfold is_char; lia. Defined.

(** ** Printing and parsing *)

Inductive host_text := HName (h : list Z) | HV6 (h : list Z).
Record uri_parts := mk_parts {
  p_scheme : list Z;
  p_authority : option (option (list Z) * host_text * option (list Z));
  p_path : list Z;
  p_query : option (list Z);
  p_fragment : option (list Z) }.

Definition opt_text (f : list Z -> list Z) (o : option (list Z)) : list Z := match o with Some w => f w | None => [] end.
Definition print_host (h : host_text) : list Z := match h with HName h => h | HV6 h => 91 :: h ++ [93] end.
Definition print_authority (a : option (list Z) * host_text * option (list Z)) : list Z :=
  let '(user, host, port) := a in opt_text (fun w => w ++ [64]) user ++ print_host host ++ opt_text (cons 58) port.
(** [scheme:[//[userinfo@]host[:port]]path[?query][#fragment]] *)
Definition print_uri (p : uri_parts) : list Z :=
  p_scheme p ++ 58 :: match p_authority p with Some a => 47 :: 47 :: print_authority a | None => [] end ++
  p_path p ++ opt_text (cons 63) (p_query p) ++ opt_text (cons 35) (p_fragment p).

Definition valid (k : nat) (c : Z) : Prop := is_char c /\ nth (Z.to_nat c) (nth k valid_char []) 0 <> 0.

Definition host_ok (h : host_text) : Prop :=
  match h with
  | HName h => Forall (valid 2) h /\ 58 ∉ h /\ head h <> Some 91
  | HV6 h => Forall (valid 2) h /\ 93 ∉ h
  end.
Definition opt_ok (P : list Z -> Prop) (o : option (list Z)) : Prop := match o with Some w => P w | None => True end.
Record parts_ok (p : uri_parts) : Prop := mk_parts_ok {
  po_scheme : p_scheme p <> [] /\ Forall (valid 0) (p_scheme p);
  po_authority : match p_authority p with
    | Some (user, host, port) => opt_ok (Forall (valid 1)) user /\ host_ok host /\ opt_ok (Forall (valid 3)) port /\
        (p_path p = [] \/ head (p_path p) = Some 47) /\
        (p_path p = [] -> opt_ok (fun q => 58 ∉ q /\ 63 ∉ q /\ 64 ∉ q) (p_query p))
    | None => forall t, p_path p <> 47 :: 47 :: t
    end;
  po_path : Forall is_char (p_path p) /\ 63 ∉ p_path p /\ 35 ∉ p_path p;
  po_query : opt_ok (fun q => Forall is_char q /\ 35 ∉ q) (p_query p);
  po_fragment : opt_ok (Forall is_char) (p_fragment p) }.

Definition nonempty (w : list Z) : option (list Z) := match w with [] => None | _ => Some w end.
Definition of_opt (o : option (list Z)) : option (list Z) := o ≫= nonempty.
(** What [parse] makes of the parts: an empty part is NULL. *)
Definition uri_of (p : uri_parts) (e : Z) : parsed_uri :=
  let '(user, host, port) :=
    match p_authority p with
    | Some (user, host, port) => (of_opt user, match host with HName h => nonempty h | HV6 h => Some h end, of_opt port)
    | None => (None, None, None)
    end in
  mk_uri (nonempty (p_scheme p)) user host port (nonempty (p_path p)) (of_opt (p_query p)) (of_opt (p_fragment p)) URI_STATE_SUCCESS e.

(** *** The classes of the characters *)

Definition classify (c : Z) : nat :=
  if c =? 35 then URI_FRAGMENT else if c =? 47 then URI_PATH else if c =? 58 then URI_HOST
  else if c =? 63 then URI_QUERY else if c =? 64 then URI_USERINFO else 0%nat.

Lemma all_bytes (P : Z -> bool) : forallb P (Z.of_nat <$> seq 0 256) = true -> forall c, 0 <= c < 256 -> P c = true.
Proof.
  intros H c Hc. rewrite forallb_forall in H. apply H. apply list_elem_of_In, list_elem_of_fmap. exists (Z.to_nat c).
  split; [lia|]. apply elem_of_seq. lia.
Qed.
Definition class_check (c : Z) : bool :=
  (c =? 0) || match authority_map !! Z.to_nat c with Some k => (k =? classify c)%nat | None => false end.
Definition valid_check (c : Z) : bool :=
  forallb (fun k => (nth (Z.to_nat c) (nth k valid_char []) 0 =? 0) || match k with
    | 0%nat => negb (c =? 58)
    | 1%nat => negb (c =? 91) && ((classify c =? 0)%nat || (classify c =? 2)%nat)
    | 2%nat => negb (c =? 64) && ((classify c =? 0)%nat || (classify c =? 2)%nat)
    | 3%nat => (classify c =? 0)%nat
    | _ => true end) [0; 1; 2; 3]%nat.
Lemma class_of c : is_char c -> authority_map !! Z.to_nat c = Some (classify c).
Proof.
  intros Hc. unfold is_char in Hc. assert (A : class_check c = true) by (apply all_bytes; [vm_compute; reflexivity|lia]).
  unfold class_check in A. rewrite (proj2 (Z.eqb_neq c 0)) in A by lia. cbn [orb] in A.
  destruct (authority_map !! Z.to_nat c); [|done]. apply Nat.eqb_eq in A. by subst.
Qed.
Lemma valid_class k c : valid k c -> match k with
  | 0%nat => c <> 58
  | 1%nat => c <> 91 /\ (classify c = 0%nat \/ classify c = URI_HOST)
  | 2%nat => c <> 64 /\ (classify c = 0%nat \/ classify c = URI_HOST)
  | 3%nat => classify c = 0%nat
  | _ => True
  end.
Proof.
  intros [Hc Hv]. unfold is_char in Hc. assert (A : valid_check c = true) by (apply all_bytes; [vm_compute; reflexivity|lia]).
  unfold valid_check in A. rewrite forallb_forall in A.
  destruct k as [|[|[|[|k]]]]; [..|done];
    [specialize (A 0%nat ltac:(cbn; tauto))|specialize (A 1%nat ltac:(cbn; tauto))|specialize (A 2%nat ltac:(cbn; tauto))|specialize (A 3%nat ltac:(cbn; tauto))];
    apply orb_true_iff in A as [A|A]; (apply Z.eqb_eq in A; done) || lia.
Qed.

(** *** The authority, stage by stage *)

Lemma aset_in a k v : (k < length a)%nat -> aset a k v = Some (<[k := v]> a).
Proof. intros H. unfold aset. by rewrite decide_True. Qed.
Ltac set_offsets := rewrite ?aset_in by (cbn; lia); cbn [mbind option_bind insert list_insert].

Definition slice (buf : list Z) (s e : nat) : list Z := take (e - s) (drop s buf).
Lemma slice_at pre w post buf s e : buf = pre ++ w ++ post -> s = length pre -> e = (length pre + length w)%nat -> slice buf s e = w.
Proof. intros -> -> ->. unfold slice. rewrite drop_app_length. replace (_ - _)%nat with (length w) by lia. by rewrite take_app_length. Qed.
Lemma slice_none buf s e : (e <= s)%nat -> slice buf s e = [].
Proof. intros H. unfold slice. by replace (e - s)%nat with O by lia. Qed.

Definition plain (c : Z) : Prop := is_char c /\ classify c = 0%nat.

Lemma plain_one c : is_char c -> classify c = 0%nat -> Forall plain [c].
Proof. intros H1 H2. constructor; [done|constructor]. Qed.

(** Characters without a role. *)
Lemma skip_plain buf : forall w r i pre st en v6 skip, Forall plain w ->
  authority_loop buf (w ++ r) i pre st en v6 skip = authority_loop buf r (i + length w) pre st en v6 skip.
Proof.
  induction w as [|c w IH]; intros r i pre st en v6 skip Hw; [by rewrite Nat.add_0_r|]. apply Forall_cons in Hw as [[Hc Hk] Hw].
  cbn [app authority_loop]. rewrite class_of, Hk by done. cbn [mbind option_bind]. rewrite IH by done. f_equal. cbn. lia.
Qed.
(** A query after the authority: slashes are skipped too. *)
Lemma skip_query buf : forall w r i pre st en v6, Forall (fun c => is_char c /\ (classify c = 0%nat \/ classify c = URI_PATH)) w ->
  authority_loop buf (w ++ r) i pre st en v6 true = authority_loop buf r (i + length w) pre st en v6 true.
Proof.
  induction w as [|c w IH]; intros r i pre st en v6 Hw; [by rewrite Nat.add_0_r|]. apply Forall_cons in Hw as [[Hc Hk] Hw].
  cbn [app authority_loop]. rewrite class_of by done. destruct Hk as [-> | ->]; cbn [mbind option_bind]; rewrite IH by done; f_equal; cbn; lia.
Qed.

Definition host_class (c : Z) : Prop := is_char c /\ (classify c = 0%nat \/ classify c = URI_HOST).

(** The user information: a colon looks like the end of the host. *)
Lemma skip_user buf s0 s1 s2 s4 s5 s6 e0 e1 e3 e4 e5 e6 skip : forall w d r pre s3 e2, buf = d ++ w ++ r -> d <> [] -> Forall host_class w ->
  exists pre' s3' e2', authority_loop buf (w ++ r) (length d) pre [s0; s1; s2; s3; s4; s5; s6]%nat [e0; e1; e2; e3; e4; e5; e6]%nat false skip =
    authority_loop buf r (length d + length w) pre' [s0; s1; s2; s3'; s4; s5; s6]%nat [e0; e1; e2'; e3; e4; e5; e6]%nat false skip.
Proof.
  induction w as [|c w IH]; intros d r pre s3 e2 Hb Hd Hw; [exists pre, s3, e2; by rewrite Nat.add_0_r|]. apply Forall_cons in Hw as [[Hc Hk] Hw].
  assert (Hb' : buf = (d ++ [c]) ++ w ++ r) by (by rewrite <- app_assoc). assert (Hd' : d ++ [c] <> []) by (by destruct d).
  assert (El : S (length d) = length (d ++ [c])) by (rewrite length_app; cbn; lia).
  cbn [app authority_loop]. rewrite class_of by done. cbn [length]. rewrite Nat.add_succ_r, <- Nat.add_succ_l, El.
  destruct Hk as [-> | ->]; cbn [mbind option_bind]; [by apply IH|].
  assert (Hl : (0 < length d)%nat) by (destruct d; [done|cbn; lia]). rewrite decide_False by lia.
  destruct (lookup_lt_is_Some_2 buf (length d - 1)) as [x ->]; [rewrite Hb, length_app; lia|]. cbn [mbind option_bind].
  replace (if x =? 93 then false else false) with false by (by destruct (x =? 93)). cbn. by apply IH.
Qed.

(** The digits and colons between brackets. *)
Lemma skip_v6 buf pre st en skip : forall w d r x, buf = d ++ w ++ r -> last d = Some x -> x <> 93 -> 93 ∉ w -> Forall host_class w ->
  authority_loop buf (w ++ r) (length d) pre st en true skip = authority_loop buf r (length d + length w) pre st en true skip.
Proof.
  induction w as [|c w IH]; intros d r x Hb Hd Hx Hn Hw; [by rewrite Nat.add_0_r|]. apply Forall_cons in Hw as [[Hc Hk] Hw].
  rewrite elem_of_cons in Hn. assert (Hb' : buf = (d ++ [c]) ++ w ++ r) by (by rewrite <- app_assoc).
  assert (El : S (length d) = length (d ++ [c])) by (rewrite length_app; cbn; lia).
  assert (Go : authority_loop buf (w ++ r) (length (d ++ [c])) pre st en true skip = authority_loop buf r (length (d ++ [c]) + length w) pre st en true skip).
  { apply (IH _ _ c); [done|by rewrite last_snoc|naive_solver|naive_solver|done]. }
  cbn [app authority_loop]. rewrite class_of by done. cbn [length]. rewrite Nat.add_succ_r, <- Nat.add_succ_l, El.
  destruct Hk as [-> | ->]; cbn [mbind option_bind]; [done|]. rewrite last_lookup in Hd. replace (pred (length d)) with (length d - 1)%nat in Hd by lia.
  pose proof (lookup_lt_Some _ _ _ Hd). rewrite decide_False by lia. rewrite Hb at 1. rewrite lookup_app_l, Hd by lia. cbn [mbind option_bind].
  rewrite (proj2 (Z.eqb_neq x 93)) by done. done.
Qed.

Lemma host_classes k w : (k = 1 \/ k = 2)%nat -> Forall (valid k) w -> Forall host_class w.
Proof.
  intros Hk Hw. eapply Forall_impl; [exact Hw|]. intros c Hc. pose proof (valid_class _ _ Hc) as A. destruct Hc as [Hc _]. split; [done|].
  destruct Hk as [-> | ->]; tauto.
Qed.
Lemma name_plain w : Forall (valid 2) w -> 58 ∉ w -> Forall plain w.
Proof.
  intros Hw Hn. apply Forall_forall. intros c Hc. rewrite Forall_forall in Hw. pose proof (valid_class _ _ (Hw c Hc)) as [_ A]. destruct (Hw c Hc) as [Hch _].
  split; [done|]. destruct A as [A|A]; [done|]. assert (c = 58) as ->; [|done]. unfold classify in A. repeat destruct (_ =? _) eqn:? in A; lia.
Qed.
Lemma port_plain w : Forall (valid 3) w -> Forall plain w.
Proof. intros Hw. eapply Forall_impl; [exact Hw|]. intros c Hc. pose proof (valid_class _ _ Hc). by destruct Hc. Qed.

Definition is_v6 (h : host_text) : bool := match h with HV6 _ => true | _ => false end.

(** The host. *)
Lemma skip_host buf h d r pre st en skip : host_ok h -> buf = d ++ print_host h ++ r ->
  authority_loop buf (print_host h ++ r) (length d) pre st en (is_v6 h) skip =
  authority_loop buf r (length (d ++ print_host h)) pre st en (is_v6 h) skip.
Proof.
  intros Hh Hb. rewrite length_app. destruct h as [w|w]; cbn [print_host host_ok is_v6] in *.
  - destruct Hh as (H1 & H2 & _). apply skip_plain. by apply name_plain.
  - destruct Hh as (H1 & H2). assert (Hb' : buf = (d ++ [91]) ++ w ++ 93 :: r) by (rewrite Hb; cbn; rewrite <- !app_assoc; done).
    change ((91 :: w ++ [93]) ++ r) with ([91] ++ (w ++ [93]) ++ r). rewrite <- app_assoc.
    rewrite (skip_plain buf [91]) by (apply plain_one; [unfold is_char; lia|done]). rewrite <- (length_app d [91]).
    rewrite (skip_v6 buf pre st en skip w (d ++ [91]) ([93] ++ r) 91); [|done|by rewrite last_snoc|done|done|by eapply (host_classes 2); [right|]].
    rewrite (skip_plain buf [93]) by (apply plain_one; [unfold is_char; lia|done]). f_equal. cbn [length]. rewrite !length_app. cbn. lia.
Qed.

Definition authority_ok (a : option (list Z) * host_text * option (list Z)) : Prop :=
  let '(user, host, port) := a in opt_ok (Forall (valid 1)) user /\ host_ok host /\ opt_ok (Forall (valid 3)) port.
Definition text (o : option (list Z)) : list Z := default [] o.

Lemma host_head h r : host_ok h -> head r <> Some 91 -> r <> [] -> exists c, head (print_host h ++ r) = Some c /\ (c =? 91) = is_v6 h.
Proof.
  intros Hh Hr Hn. destruct h as [w|w]; cbn [print_host is_v6]; [|by exists 91].
  destruct Hh as (_ & _ & H). destruct w as [|c w]; cbn in *.
  - destruct r as [|c r]; [done|]. exists c. split; [done|]. apply Z.eqb_neq. by intros ->.
  - exists c. split; [done|]. apply Z.eqb_neq. by intros ->.
Qed.

Definition user_text (o : option (list Z)) : list Z := opt_text (fun w => w ++ [64]) o.

(** Up to the host. *)
Lemma user_stage buf user host d r e : opt_ok (Forall (valid 1)) user -> host_ok host -> d <> [] -> head r <> Some 91 -> r <> [] ->
  let t := user_text user ++ print_host host ++ r in
  buf = d ++ t -> exists c s1 s3 e1 e2, head t = Some c /\
    authority_loop buf t (length d) 2 (if c =? 91 then [0; 0; length d; 0; 0; 0; 0]%nat else [0; length d; length d; 0; 0; 0; 0]%nat) [e; 0; 0; 0; 0; 0; 0]%nat (c =? 91) false =
    authority_loop buf (print_host host ++ r) (length (d ++ user_text user)) 2
      [0; s1; length (d ++ user_text user); s3; 0; 0; 0]%nat [e; e1; e2; 0; 0; 0; 0]%nat (is_v6 host) false /\
    slice buf s1 e1 = text user.
Proof.
  intros Hu Hh Hd Hr Hn t Hb. destruct (host_head host r Hh Hr Hn) as (ch & Eh & Ev). destruct user as [u|]; cbn [user_text opt_text opt_ok] in *.
  - assert (Hc : exists c, head t = Some c /\ (c =? 91) = false).
    { unfold t. destruct u as [|c u]; [by exists 64|]. exists c. split; [done|]. apply Forall_cons in Hu as [Hc _]. apply valid_class in Hc as [Hc _]. by apply Z.eqb_neq. }
    destruct Hc as (c & Ec & E91). assert (Et : t = u ++ 64 :: print_host host ++ r) by (unfold t; by rewrite <- app_assoc).
    rewrite Et in Hb |- *.
    destruct (skip_user buf 0 (length d) (length d) 0 0 0 e 0 0 0 0 0 false u d (64 :: print_host host ++ r) 2 0 0 Hb Hd) as (pre & s3 & e2 & Es).
    { by eapply (host_classes 1); [left|]. }
    exists c, (length d), s3, (length d + length u)%nat, e2. split; [by rewrite <- Et|]. split; [|by apply (slice_at d u (64 :: print_host host ++ r))].
    rewrite E91, Es. cbn [authority_loop]. rewrite (class_of 64) by (unfold is_char; lia). change (classify 64) with URI_USERINFO. cbn [mbind option_bind]. rewrite Eh.
    cbn [mbind option_bind]. replace (if ch =? 91 then true else false) with (is_v6 host) by (rewrite <- Ev; by destruct (ch =? 91)). cbn -[authority_loop].
    replace (S (length d + length u)) with (length (d ++ u ++ [64])) by (rewrite !length_app; cbn; lia). done.
  - exists ch, (if ch =? 91 then 0%nat else length d), 0%nat, 0%nat, 0%nat. split; [done|]. rewrite app_nil_r, Ev. unfold t. cbn [app].
    split; [by destruct (is_v6 host)|]. apply slice_none. lia.
Qed.

(** The whole of it; [j] is where it ends, and where [end_idx[pre_state]] is to be set. *)
Lemma authority_stage buf user host port d r e : authority_ok (user, host, port) -> d <> [] -> head r <> Some 91 -> r <> [] ->
  let t := print_authority (user, host, port) ++ r in let j := length (d ++ print_authority (user, host, port)) in
  buf = d ++ t -> exists c s1 s2 s3 e1 e2 e3 pre v6, head t = Some c /\ (pre = 2 \/ pre = 3)%nat /\
    authority_loop buf t (length d) 2 (if c =? 91 then [0; 0; length d; 0; 0; 0; 0]%nat else [0; length d; length d; 0; 0; 0; 0]%nat) [e; 0; 0; 0; 0; 0; 0]%nat (c =? 91) false =
    authority_loop buf r j pre [0; s1; s2; s3; 0; 0; 0]%nat [e; e1; e2; e3; 0; 0; 0]%nat v6 false /\
    slice buf s1 e1 = text user /\
    slice buf s2 (if decide (pre = 2) then j else e2)%nat = print_host host /\
    slice buf s3 (if decide (pre = 3) then j else e3)%nat = text port.
Proof.
  intros (Hu & Hh & Hp) Hd Hr Hn t j Hb. set (ut := user_text user). set (pt := opt_text (cons 58) port).
  assert (Et : t = ut ++ print_host host ++ pt ++ r) by (unfold t, print_authority; fold (user_text user) ut pt; by rewrite <- !app_assoc).
  assert (Ej : j = length (d ++ ut ++ print_host host ++ pt)) by done.
  assert (Hr' : head (pt ++ r) <> Some 91 /\ pt ++ r <> []) by (unfold pt; destruct port; done). destruct Hr' as [Hr' Hn'].
  destruct (user_stage buf user host d (pt ++ r) e Hu Hh Hd Hr' Hn') as (c & s1 & s3 & e1 & e2 & Ec & El & Es); [by rewrite Hb, Et|].
  fold ut in Ec, El. rewrite <- Et in Ec, El. rewrite (skip_host buf host (d ++ ut) (pt ++ r)) in El; [|done|rewrite Hb, Et; by rewrite <- !app_assoc].
  set (d2 := (d ++ ut) ++ print_host host) in *. assert (Hb2 : buf = d2 ++ pt ++ r) by (unfold d2; rewrite Hb, Et; by rewrite <- !app_assoc).
  assert (Sh : slice buf (length (d ++ ut)) (length d2) = print_host host).
  { apply (slice_at (d ++ ut) (print_host host) (pt ++ r)); [by rewrite Hb2; unfold d2; rewrite <- !app_assoc|done|unfold d2; by rewrite length_app]. }
  destruct port as [p|]; cbn [opt_text opt_ok] in *.
  - exists c, s1, (length (d ++ ut)), (S (length d2)), e1, (length d2), 0%nat, 3%nat, false. split_and!; [done|by right| |done|done|].
    + rewrite El. unfold pt. cbn [app authority_loop]. rewrite (class_of 58) by (unfold is_char; lia). change (classify 58) with URI_HOST. cbn [mbind option_bind].
      assert (Hd2 : (0 < length d2)%nat) by (unfold d2; rewrite !length_app; destruct d; [done|cbn; lia]).
      rewrite decide_False by lia. destruct (lookup_lt_is_Some_2 d2 (length d2 - 1) ltac:(lia)) as [x Hx].
      rewrite Hb2 at 1. rewrite lookup_app_l, Hx by lia. cbn [mbind option_bind].
      assert (Ex : (if x =? 93 then false else is_v6 host) = false).
      { destruct host as [w|w]; cbn [is_v6]; [by destruct (x =? 93)|]. replace x with 93; [done|].
        assert (E2 : d2 = ((d ++ ut) ++ 91 :: w) ++ [93]) by (unfold d2; cbn [print_host]; by rewrite <- !app_assoc).
        rewrite E2, (length_app _ [93]), Nat.add_sub, list_lookup_middle in Hx by done. by injection Hx. }
      rewrite Ex. set_offsets. rewrite skip_plain by (by apply port_plain). f_equal. rewrite Ej. unfold d2, pt. rewrite !length_app. cbn [length]. lia.
    + rewrite decide_True by done. apply (slice_at (d2 ++ [58]) p r); [rewrite Hb2; unfold pt; by rewrite <- app_assoc|rewrite length_app; cbn; lia|].
      rewrite Ej. unfold d2, pt. rewrite !length_app. cbn [length]. lia.
  - exists c, s1, (length (d ++ ut)), s3, e1, e2, 0%nat, 2%nat, (is_v6 host).
    assert (Ej2 : j = length d2) by (rewrite Ej; unfold d2, pt; by rewrite app_nil_r, <- !app_assoc).
    split_and!; [done|by left|by rewrite El, Ej2|done|by rewrite decide_True, Ej2|]. apply slice_none. rewrite decide_False by lia. lia.
Qed.

(** *** Path, query and fragment *)

Definition is_query (q : list Z) : Prop := Forall is_char q /\ 35 ∉ q.
Definition query_text (o : option (list Z)) : list Z := opt_text (cons 63) o.
Definition fragment_text (o : option (list Z)) : list Z := opt_text (cons 35) o ++ [NUL].

Lemma hash_step x c t i : hash_loop (x :: c :: t) i = if c =? NUL then Some (i, x :: c :: t) else if c =? 35 then Some (S i, c :: t) else hash_loop (c :: t) (S i).
Proof. done. Qed.
Lemma hash_stop q : is_query q -> forall x i, x <> 35 -> exists c, hash_loop (x :: q ++ [NUL]) i = Some (i + length q, [c; NUL])%nat /\ c <> 35.
Proof.
  intros [Hq Hn]. induction Hq as [|c q Hc Hq IH]; intros x i Hx; [exists x; by rewrite Nat.add_0_r|].
  rewrite elem_of_cons in Hn. unfold is_char in Hc. cbn [app]. rewrite hash_step, (proj2 (Z.eqb_neq c NUL)) by lia.
  rewrite (proj2 (Z.eqb_neq c 35)) by naive_solver. destruct (IH ltac:(naive_solver) c (S i)) as (y & E & Hy); [naive_solver|].
  exists y. cbn [app] in E. rewrite E. split; [|done]. do 2 f_equal. cbn. lia.
Qed.
Lemma hash_found q f : is_query q -> forall x i, hash_loop (x :: q ++ 35 :: f) i = Some (S (i + length q), 35 :: f).
Proof.
  intros [Hq Hn]. induction Hq as [|c q Hc Hq IH]; intros x i; [by rewrite Nat.add_0_r|].
  rewrite elem_of_cons in Hn. unfold is_char in Hc. cbn [app]. rewrite hash_step, (proj2 (Z.eqb_neq c NUL)) by lia.
  rewrite (proj2 (Z.eqb_neq c 35)) by naive_solver. rewrite (IH ltac:(naive_solver)). do 2 f_equal. cbn. lia.
Qed.
Lemma path_skip fuel r pre st en : forall w i, Forall is_char w -> 63 ∉ w -> 35 ∉ w ->
  path_loop (length w + fuel) (w ++ r) i pre st en = path_loop fuel r (i + length w) pre st en.
Proof.
  induction w as [|c w IH]; intros i Hw H1 H2; [by rewrite Nat.add_0_r|]. apply Forall_cons in Hw as [Hc Hw]. unfold is_char in Hc.
  rewrite elem_of_cons in H1, H2. cbn [length Nat.add app path_loop head mbind option_bind tail].
  rewrite (proj2 (Z.eqb_neq c NUL)), (proj2 (Z.eqb_neq c 63)) by naive_solver lia. cbn [mbind option_bind head tail].
  rewrite (proj2 (Z.eqb_neq c 35)) by naive_solver. rewrite IH by naive_solver. f_equal. lia.
Qed.

Lemma slice_path d w r : slice (d ++ w ++ r) (length d) (length d + length w) = w.
Proof. by apply (slice_at d w r). Qed.

Lemma path_stage buf d p q f s0 s1 s2 s3 e0 e1 e2 e3 e6 :
  let rest := p ++ query_text q ++ fragment_text f in
  buf = d ++ rest -> Forall is_char p -> 63 ∉ p -> 35 ∉ p -> opt_ok is_query q -> opt_ok (Forall is_char) f ->
  exists s4 s5 e4 e5 e6', path_loop (S (length rest)) rest (length d) 6 [s0; s1; s2; s3; 0; 0; length d]%nat [e0; e1; e2; e3; 0; 0; e6]%nat =
    Some ([s0; s1; s2; s3; s4; s5; length d]%nat, [e0; e1; e2; e3; e4; e5; e6']%nat) /\
    slice buf s4 e4 = text q /\ slice buf s5 e5 = text f /\ slice buf (length d) e6' = p.
Proof.
  intros rest Hb Hp H1 H2 Hq Hf. set (r := query_text q ++ fragment_text f) in *.
  replace (S (length rest)) with (length p + S (length r))%nat by (unfold rest; rewrite length_app; lia).
  unfold rest. rewrite path_skip by done. set (d1 := d ++ p). assert (E1 : (length d + length p)%nat = length d1) by (unfold d1; by rewrite length_app).
  assert (Hb1 : buf = d1 ++ r) by (rewrite Hb; unfold rest, d1; by rewrite <- app_assoc).
  assert (Sp : slice buf (length d) (length d1) = p) by (rewrite Hb; unfold d1; rewrite length_app; apply slice_path). rewrite E1.
  assert (Em : exists m, length r = S m) by (unfold r, fragment_text; rewrite !length_app; cbn; eexists; rewrite Nat.add_1_r, <- plus_n_Sm; done).
  destruct Em as [m ->].
  destruct q as [q|]; cbn [opt_ok text default] in *.
  - unfold r, query_text, opt_text. cbn [app path_loop head mbind option_bind]. change (63 =? NUL) with false. change (63 =? 63) with true. cbv iota.
    set_offsets. set_offsets. destruct f as [f|]; unfold fragment_text, opt_text; cbn [app].
    + rewrite (hash_found q (f ++ [NUL]) Hq). cbn [mbind option_bind head]. change (35 =? 35) with true. cbv iota. set_offsets. set_offsets.
      change (35 :: f ++ [NUL]) with ((35 :: f) ++ [NUL]). rewrite end_from_ok by (constructor; [unfold is_char; lia|exact Hf]). set_offsets.
      eexists _, _, _, _, _. split; [reflexivity|]. split_and!; [..|exact Sp].
      * apply (slice_at (d1 ++ [63]) q (35 :: f ++ [NUL])); [by rewrite Hb1; unfold r; rewrite <- app_assoc|rewrite length_app; cbn; lia|rewrite length_app; cbn; lia].
      * apply (slice_at (d1 ++ 63 :: q ++ [35]) f [NUL]); rewrite ?length_app; cbn [length]; rewrite ?length_app; cbn [length]; [|lia|lia].
        rewrite Hb1. unfold r, query_text, fragment_text, opt_text. cbn. rewrite <- !app_assoc. cbn. by rewrite <- app_assoc.
    + destruct (hash_stop q Hq 63 (length d1) ltac:(done)) as (c & -> & Hc). cbn [mbind option_bind head tail]. rewrite (proj2 (Z.eqb_neq c 35)) by done.
      cbn [path_loop head mbind option_bind]. change (NUL =? NUL) with true. cbv iota.
      change [NUL] with ([] ++ [NUL]). rewrite end_from_ok by constructor. set_offsets.
      eexists _, _, _, _, _. split; [reflexivity|]. split_and!; [..|exact Sp]; [|by apply slice_none].
      apply (slice_at (d1 ++ [63]) q [NUL]); [by rewrite Hb1; unfold r; rewrite <- app_assoc|rewrite length_app; cbn; lia|rewrite length_app; cbn; lia].
  - unfold r, query_text, opt_text. cbn [app]. destruct f as [f|]; unfold fragment_text, opt_text; cbn [app path_loop head mbind option_bind].
    + change (35 =? NUL) with false. change (35 =? 63) with false. change (35 =? 35) with true. cbv iota. cbn [mbind option_bind head]. change (35 =? 35) with true. cbv iota.
      set_offsets. set_offsets. change (35 :: f ++ [NUL]) with ((35 :: f) ++ [NUL]). rewrite end_from_ok by (constructor; [unfold is_char; lia|exact Hf]). set_offsets.
      eexists _, _, _, _, _. split; [reflexivity|]. split_and!; [by apply slice_none| |exact Sp].
      apply (slice_at (d1 ++ [35]) f [NUL]); [by rewrite Hb1; unfold r; rewrite <- app_assoc|rewrite length_app; cbn; lia|rewrite length_app; cbn; lia].
    + change (NUL =? NUL) with true. cbv iota. change [NUL] with ([] ++ [NUL]). rewrite end_from_ok by constructor. set_offsets. rewrite Nat.add_0_r.
      eexists _, _, _, _, _. split; [reflexivity|]. split_and!; [by apply slice_none|by apply slice_none|exact Sp].
Qed.

(** What the authority loop does at a character, or at the end. *)
Lemma authority_query buf t i pre st en v6 skip : (pre < length en)%nat -> (4 < length st)%nat ->
  authority_loop buf (63 :: t) i pre st en v6 skip = authority_loop buf t (S i) 4 (<[4%nat := S i]> st) (<[pre := i]> en) v6 true.
Proof. intros H1 H2. cbn [authority_loop]. rewrite (class_of 63) by (unfold is_char; lia). change (classify 63) with URI_QUERY. cbn [mbind option_bind]. by rewrite !aset_in. Qed.
Lemma authority_end buf f i pre st en v6 skip : opt_ok (Forall is_char) f -> (pre < 7)%nat -> length st = 7%nat -> length en = 7%nat ->
  authority_loop buf (fragment_text f) i pre st en v6 skip =
  match f with
  | Some f => Some (mk_scan i (fragment_text (Some f)) 7 (<[5%nat := S i]> st) (<[5%nat := (i + S (length f))%nat]> (<[pre := i]> en)) true)
  | None => Some (mk_scan i [NUL] pre st en true)
  end.
Proof.
  intros Hf Hp H1 H2. destruct f as [f|]; [|done]. unfold fragment_text, opt_text. cbn [app authority_loop].
  rewrite (class_of 35) by (unfold is_char; lia). change (classify 35) with URI_FRAGMENT. cbn [mbind option_bind]. rewrite !aset_in by lia. cbn [mbind option_bind].
  change (35 :: f ++ [NUL]) with ((35 :: f) ++ [NUL]). rewrite end_from_ok by (constructor; [unfold is_char; lia|exact Hf]). cbn [mbind option_bind].
  by rewrite aset_in by (rewrite length_insert; lia).
Qed.

Lemma authority_tail buf d p q f s1 s2 s3 e e1 e2 e3 pre v6 :
  let r := p ++ query_text q ++ fragment_text f in let j := length d in
  buf = d ++ r -> (pre = 2 \/ pre = 3)%nat -> (p = [] \/ head p = Some 47) ->
  Forall is_char p -> 63 ∉ p -> 35 ∉ p -> opt_ok is_query q -> opt_ok (Forall is_char) f ->
  (p = [] -> opt_ok (fun q => 58 ∉ q /\ 63 ∉ q /\ 64 ∉ q) q) ->
  exists s s4 s5 s6 e4 e5 e6, authority_loop buf r j pre [0; s1; s2; s3; 0; 0; 0]%nat [e; e1; e2; e3; 0; 0; 0]%nat v6 false = Some s /\
    finish_parts s = Some ([0; s1; s2; s3; s4; s5; s6]%nat,
      [e; e1; (if decide (pre = 2) then j else e2); (if decide (pre = 3) then j else e3); e4; e5; e6]%nat) /\
    slice buf s4 e4 = text q /\ slice buf s5 e5 = text f /\ slice buf s6 e6 = p.
Proof.
  intros r j Hb Hpre Hp Hc H1 H2 Hq Hf Hqa. destruct p as [|c p].
  - clear Hp Hc H1 H2. specialize (Hqa eq_refl). destruct q as [q|]; cbn [opt_ok text default] in *.
    + assert (Hpl : Forall (fun c => is_char c /\ (classify c = 0%nat \/ classify c = URI_PATH)) q).
      { destruct Hq as [Hq H35]. destruct Hqa as (H58 & H63 & H64). apply Forall_forall. intros c Hc. rewrite Forall_forall in Hq. split; [by apply Hq|].
        unfold classify. destruct (Z.eqb_spec c 35) as [->|]; [done|]. destruct (c =? 47); [by right|]. destruct (Z.eqb_spec c 58) as [->|]; [done|].
        destruct (Z.eqb_spec c 63) as [->|]; [done|]. destruct (Z.eqb_spec c 64) as [->|]; [done|]. by left. }
      unfold r, query_text, opt_text. cbn [app]. rewrite authority_query by (cbn; lia). rewrite skip_query by done.
      assert (Sq : slice buf (S j) (S j + length q) = q).
      { apply (slice_at (d ++ [63]) q (fragment_text f)); [rewrite Hb; unfold r; by rewrite <- app_assoc|rewrite length_app; cbn; unfold j; lia|rewrite length_app; cbn; unfold j; lia]. }
      destruct f as [f|]; destruct Hpre as [-> | ->]; cbn [insert list_insert]; rewrite authority_end by (done || cbn; lia); eexists _, _, _, 0%nat, _, _, 0%nat;
        (split; [reflexivity|]); (split; [reflexivity|]); cbn [insert list_insert]; (split; [exact Sq|]); cbn [text default]; (split; [|by apply slice_none]).
      1,2: apply (slice_at (d ++ 63 :: q ++ [35]) f [NUL]); rewrite ?length_app; cbn [length]; rewrite ?length_app; cbn [length]; unfold j; [|lia|lia];
        rewrite Hb; unfold r, query_text, fragment_text, opt_text; cbn; rewrite <- !app_assoc; cbn; by rewrite <- app_assoc.
      all: by apply slice_none.
    + unfold r, query_text, opt_text. cbn [app]. destruct f as [f|]; destruct Hpre as [-> | ->]; rewrite authority_end by (done || cbn; lia);
        eexists _, _, _, 0%nat, _, _, 0%nat; (split; [reflexivity|]); (split; [reflexivity|]); (split; [by apply slice_none|]); cbn [text default];
        (split; [|by apply slice_none]).
      1,2: apply (slice_at (d ++ [35]) f [NUL]); rewrite ?length_app; cbn [length]; unfold j; [|lia|lia]; rewrite Hb; unfold r, query_text, fragment_text, opt_text; cbn; by rewrite <- app_assoc.
      all: by apply slice_none.
  - destruct Hp as [|[= ->]]; [done|]. clear Hqa.
    destruct (path_stage buf d (47 :: p) q f 0 s1 s2 s3 e e1 (if decide (pre = 2)%nat then j else e2) (if decide (pre = 3)%nat then j else e3) 0 Hb Hc H1 H2 Hq Hf)
      as (s4 & s5 & e4 & e5 & e6 & E & S4 & S5 & S6).
    exists (mk_scan j r pre [0; s1; s2; s3; 0; 0; j]%nat [e; e1; e2; e3; 0; 0; 0]%nat false), s4, s5, j, e4, e5, e6. split_and!; [| |done|done|done].
    + unfold r at 1. cbn [app authority_loop]. rewrite (class_of 47) by (unfold is_char; lia). change (classify 47) with URI_PATH. cbn [mbind option_bind].
      rewrite aset_in by (cbn; lia). done.
    + unfold finish_parts. cbn [pre_state skip_path start_idx end_idx s_i s_rest]. fold r in E.
      destruct Hpre as [-> | ->]; rewrite decide_False by lia; rewrite aset_in by (cbn; lia); exact E.
Qed.

(** *** The parts are found *)

Definition slices (buf : list Z) (st en : list nat) : list (list Z) := (fun k => slice buf (nth k st O) (nth k en O)) <$> seq 0 7.
Definition texts (p : uri_parts) : list (list Z) :=
  let '(user, host, port) :=
    match p_authority p with Some (user, host, port) => (text user, print_host host, text port) | None => ([], [], []) end in
  [p_scheme p; user; host; port; text (p_query p); text (p_fragment p); p_path p].

Lemma scheme_found r : forall w i, Forall (valid 0) w -> scheme_loop (w ++ 58 :: r) i = Some (i + length w, S (i + length w), r)%nat.
Proof.
  induction w as [|c w IH]; intros i Hw; [by rewrite Nat.add_0_r|]. apply Forall_cons in Hw as [Hc Hw]. pose proof (valid_class _ _ Hc) as Hk. cbv iota beta in Hk.
  destruct Hc as [Hc _]. unfold is_char in Hc. cbn [app scheme_loop]. rewrite (proj2 (Z.eqb_neq c NUL)) by lia. rewrite (proj2 (Z.eqb_neq c COLON)) by done.
  rewrite IH by done. do 3 f_equal; cbn; lia.
Qed.

Lemma tail_head p q f : (p = [] \/ head p = Some 47) -> let r := p ++ query_text q ++ fragment_text f in head r <> Some 91 /\ r <> [].
Proof. intros [->|H]; [destruct q, f; done|]. by destruct p as [|c p]; [|injection H as ->]. Qed.

Lemma no_authority p q f : (forall t, p <> 47 :: 47 :: t) -> let r := p ++ query_text q ++ fragment_text f in
  exists c0 c1, head r = Some c0 /\ (if c0 =? 47 then head (tail r) else Some NUL) = Some c1 /\ (c0 =? 47) && (c1 =? 47) = false.
Proof.
  intros Hp r. destruct p as [|a [|b p]].
  - unfold r. destruct q, f; eexists _, _; split_and!; done.
  - exists a. destruct (a =? 47) eqn:Ea; [|by exists NUL]. destruct q as [q|], f as [f|]; eexists; split_and!; done.
  - exists a. destruct (Z.eqb_spec a 47) as [->|]; [|by exists NUL]. exists b. split_and!; [done|done|]. destruct (Z.eqb_spec b 47) as [->|]; [|done]. by destruct (Hp p).
Qed.

Lemma enter_path buf rest i en c0 c1 : length en = 7%nat -> head rest = Some c0 -> (if c0 =? 47 then head (tail rest) else Some NUL) = Some c1 ->
  (c0 =? 47) && (c1 =? 47) = false -> enter buf rest i en = Some (mk_scan i rest URI_PATH [0; 0; 0; 0; 0; 0; i]%nat en false).
Proof. intros Hn H0 H1 H2. unfold enter. rewrite H0. cbn [mbind option_bind]. rewrite H1. cbn [mbind option_bind]. rewrite H2. done. Qed.
Lemma enter_authority buf t i en c : head t = Some c -> enter buf (47 :: 47 :: t) i en =
  authority_loop buf t (i + 2) 2 (if c =? 91 then [0; 0; i + 2; 0; 0; 0; 0]%nat else [0; i + 2; i + 2; 0; 0; 0; 0]%nat) en (c =? 91) false.
Proof.
  intros Hc. unfold enter. cbn [head tail mbind option_bind]. change (47 =? 47) with true. cbn [andb mbind option_bind tail head]. change (47 =? 47) with true. cbv zeta iota.
  change (drop 2 (47 :: 47 :: t)) with t. rewrite Hc. cbn [mbind option_bind].
  by destruct (c =? 91).
Qed.

Lemma locate_ok p : parts_ok p -> exists st en, locate (print_uri p ++ [NUL]) = Some (Some (st, en)) /\ slices (print_uri p ++ [NUL]) st en = texts p.
Proof.
  intros [[Hs1 Hs2] Ha (Hp1 & Hp2 & Hp3) Hq Hf]. set (buf := print_uri p ++ [NUL]). set (w := p_scheme p) in *.
  set (r := p_path p ++ query_text (p_query p) ++ fragment_text (p_fragment p)).
  set (a := match p_authority p with Some a => 47 :: 47 :: print_authority a | None => [] end).
  assert (Hb : buf = w ++ 58 :: a ++ r) by (unfold buf, print_uri, r, fragment_text, query_text; fold w a; rewrite <- !app_assoc; cbn; by rewrite <- !app_assoc).
  assert (Hl : length w <> 0%nat) by (by destruct w).
  clearbody buf. unfold locate. replace (scheme_loop buf 0) with (scheme_loop (w ++ 58 :: a ++ r) 0) by (by rewrite Hb). rewrite scheme_found by done. cbn [mbind option_bind Nat.add]. rewrite decide_False by lia.
  rewrite aset_in by (cbn; lia). cbn [mbind option_bind insert list_insert replicate].
  assert (Sw : slice buf 0 (length w) = w) by (by apply (slice_at [] w (58 :: a ++ r))).
  unfold texts. destruct (p_authority p) as [[[user host] port]|] eqn:Ea; cbv iota beta.
  - destruct Ha as (Hu & Hh & Hp & Hpa & Hqa). destruct (tail_head _ (p_query p) (p_fragment p) Hpa) as [Hr1 Hr2]. fold r in Hr1, Hr2.
    set (t := print_authority (user, host, port)) in *. set (d := w ++ [58; 47; 47]).
    assert (Hbd : buf = d ++ t ++ r) by (rewrite Hb; unfold d, a; by rewrite <- app_assoc).
    assert (Ed : (S (length w) + 2)%nat = length d) by (unfold d; rewrite length_app; cbn; lia).
    destruct (authority_stage buf user host port d r (length w)) as (c & s1 & s2 & s3 & e1 & e2 & e3 & pre & v6 & Ec & Hpre & El & S1 & S2 & S3);
      [done|unfold d; by destruct w|done|done|exact Hbd|]. fold t in Ec, El, S2, S3.
    destruct (authority_tail buf (d ++ t) (p_path p) (p_query p) (p_fragment p) s1 s2 s3 (length w) e1 e2 e3 pre v6) as (s & s4 & s5 & s6 & e4 & e5 & e6 & E1 & E2 & S4 & S5 & S6);
      try done; [rewrite Hbd; by rewrite <- app_assoc|].
    unfold a. cbn [app]. rewrite (enter_authority _ (t ++ r) _ _ c) by done. rewrite Ed, El. fold r in E1. rewrite E1. cbn [mbind option_bind]. rewrite E2. cbn [mbind option_bind].
    eexists _, _. split; [reflexivity|]. unfold slices. cbn [fmap list_fmap seq nth]. by rewrite Sw, S1, S2, S3, S4, S5, S6.
  - unfold a. cbn [app]. destruct (no_authority _ (p_query p) (p_fragment p) Ha) as (c0 & c1 & H0 & H1 & H2). fold r in H0, H1.
    rewrite (enter_path _ _ _ _ c0 c1) by done. cbn [mbind option_bind]. unfold finish_parts. cbn [pre_state end_idx s_i s_rest skip_path start_idx].
    rewrite decide_False by lia. rewrite aset_in by (cbn; lia). cbn [mbind option_bind insert list_insert].
    assert (Hbd : buf = (w ++ [58]) ++ r) by (rewrite Hb; unfold a; by rewrite <- app_assoc).
    assert (Ed : S (length w) = length (w ++ [58])) by (rewrite length_app; cbn; lia). rewrite Ed.
    destruct (path_stage buf (w ++ [58]) (p_path p) (p_query p) (p_fragment p) 0 0 0 0 (length w) 0 0 0 (length (w ++ [58])) Hbd Hp1 Hp2 Hp3 Hq Hf)
      as (s4 & s5 & e4 & e5 & e6 & E & S4 & S5 & S6). fold r in E. rewrite E. cbn [mbind option_bind]. eexists _, _. split; [reflexivity|].
    unfold slices. cbn [fmap list_fmap seq nth]. by rewrite Sw, S4, S5, S6.
Qed.

(** *** The copies *)

Lemma check_slice row buf : forall n s, (s + n <= length buf)%nat -> Forall (fun c => row !! Z.to_nat c <> Some 0 /\ (Z.to_nat c < length row)%nat) (take n (drop s buf)) ->
  check_loop n row buf s = Some true.
Proof.
  induction n as [|n IH]; intros s Hl Hs; [done|]. destruct (lookup_lt_is_Some_2 buf s ltac:(lia)) as [c Hc].
  rewrite (drop_S _ _ _ Hc) in Hs. cbn [take] in Hs. apply Forall_cons in Hs as [[H1 H2] Hs]. cbn [check_loop]. rewrite Hc. cbn [mbind option_bind].
  destruct (lookup_lt_is_Some_2 row _ H2) as [v Hv]. rewrite Hv. cbn [mbind option_bind].
  destruct (Z.eqb_spec v 0) as [->|]; [done|]. apply IH; [lia|done].
Qed.
Lemma valid_row k row w : valid_char !! k = Some row -> Forall (valid k) w -> Forall (fun c => row !! Z.to_nat c <> Some 0 /\ (Z.to_nat c < length row)%nat) w.
Proof.
  intros Hk Hw. eapply Forall_impl; [exact Hw|]. intros c [Hc Hv]. unfold is_char in Hc.
  assert (Er : nth k valid_char [] = row) by (apply nth_lookup_Some; exact Hk). rewrite Er in Hv.
  assert (Hr : length row = 256%nat).
  { assert (F : Forall (fun row : list Z => length row = 256%nat) valid_char) by (repeat constructor). rewrite Forall_lookup in F. by eapply F. }
  split; [|lia]. intros E. apply Hv. by apply nth_lookup_Some.
Qed.

(** The text copied for a part. *)
Definition copied (k : nat) (w : list Z) : list Z :=
  if bool_decide (k = URI_HOST) && bool_decide (head w = Some 91) && bool_decide (last w = Some 93) then take (length w - 2) (tail w) else w.
Lemma part_slice k s e buf : (s < e)%nat -> (e < length buf)%nat -> let w := slice buf s e in part_text k s e buf = Some (copied k w).
Proof.
  intros Hse He w. assert (Hw : length w = (e - s)%nat) by (unfold w, slice; rewrite length_take, length_drop; lia).
  destruct (lookup_lt_is_Some_2 buf s ltac:(lia)) as [c0 E0]. destruct (lookup_lt_is_Some_2 buf (e - 1) ltac:(lia)) as [c1 E1].
  assert (Hh : head w = Some c0).
  { unfold w, slice. rewrite (drop_S _ _ _ E0). by replace (e - s)%nat with (S (e - s - 1))%nat by lia. }
  assert (Ht : last w = Some c1).
  { rewrite last_lookup, Hw. unfold w, slice. rewrite lookup_take_lt, lookup_drop by lia. rewrite <- E1. f_equal. lia. }
  unfold part_text, copied. rewrite E0, E1, Hh, Ht. cbn [mbind option_bind].
  assert (B : forall a b : Z, bool_decide (Some a = Some b) = (a =? b)).
  { intros a b. destruct (Z.eqb_spec a b) as [->|]; [by apply bool_decide_eq_true|]. apply bool_decide_eq_false. congruence. } rewrite !B.
  assert (Mem : forall n o, (o + n <= length buf)%nat -> memcpy (Z.of_nat n) (drop o buf) = Some (take n (drop o buf))).
  { intros n o Ho. unfold memcpy. rewrite length_drop. replace (_ && _) with true by lia. by rewrite Nat2Z.id. }
  destruct (bool_decide (k = URI_HOST) && (c0 =? 91) && (c1 =? 93)) eqn:Bb; [|rewrite Mem by lia; done].
  apply andb_true_iff in Bb as [[_ Ba]%andb_true_iff Bb]. apply Z.eqb_eq in Ba as ->. apply Z.eqb_eq in Bb as ->.
  assert (2 <= e - s)%nat.
  { destruct (decide (e - s = 1)%nat) as [E|]; [|lia]. rewrite E in Hw. destruct w as [|x [|y l]]; try done. cbn in Hh, Ht. congruence. }
  assert (Et : tail w = take (e - s - 1) (drop (S s) buf)).
  { unfold w, slice. rewrite (drop_S _ _ _ E0). destruct (e - s)%nat as [|n]; [lia|]. cbn. by rewrite Nat.sub_0_r. }
  rewrite decide_False by lia. rewrite Mem by lia. rewrite Et, take_take, Hw. do 2 f_equal. lia.
Qed.

Definition field (k : nat) (w : list Z) : option (list Z) := match w with [] => None | _ => Some (copied k w) end.
Fixpoint set_fields (k : nat) (ws : list (list Z)) (u : parsed_uri) : parsed_uri :=
  match ws with
  | [] => set_state URI_STATE_SUCCESS u
  | w :: ws => set_fields (S k) ws (set_dst k (field k w) u)
  end.

Lemma offsets_nth n a k : offsets n a -> (k < 7)%nat -> a !! k = Some (nth k a O) /\ (nth k a O <= n)%nat.
Proof. intros Ha Hk. destruct (offsets_at n a k Ha Hk) as (x & E & Hx). by rewrite (nth_lookup_Some _ _ _ _ E). Qed.

Lemma copy_slices n buf st en : (n < length buf)%nat -> offsets n st -> offsets n en -> forall m k u, (k + m <= 7)%nat ->
  copy_parts m k [] buf st en u = Some (0, set_fields k ((fun k => slice buf (nth k st O) (nth k en O)) <$> seq k m) u, []).
Proof.
  intros Hn Hst Hen. induction m as [|m IH]; intros k u Hk; [done|]. cbn [copy_parts seq fmap list_fmap set_fields].
  destruct (offsets_nth n st k Hst ltac:(lia)) as [-> Hs]. destruct (offsets_nth n en k Hen ltac:(lia)) as [-> He]. cbn [mbind option_bind malloc].
  set (s := nth k st O) in *. set (e := nth k en O) in *. destruct (decide (s < e)%nat) as [Hse|Hse].
  - rewrite (part_slice k s e buf Hse) by lia. cbn [mbind option_bind]. rewrite IH by lia. do 3 f_equal. unfold field.
    assert (Hw : length (slice buf s e) = (e - s)%nat) by (unfold slice; rewrite length_take, length_drop; lia).
    destruct (slice buf s e); [cbn in Hw; lia|done].
  - rewrite (slice_none buf s e) by lia. rewrite IH by lia. done.
Qed.
Lemma check_slices n buf st en : (n < length buf)%nat -> offsets n st -> offsets n en -> forall rows k, (k + length rows <= 7)%nat ->
  (forall j row, rows !! j = Some row -> Forall (fun c => row !! Z.to_nat c <> Some 0 /\ (Z.to_nat c < length row)%nat) (slice buf (nth (k + j) st O) (nth (k + j) en O))) ->
  check_parts rows k buf st en = Some true.
Proof.
  intros Hn Hst Hen. induction rows as [|row rows IH]; intros k Hk Hr; [done|]. cbn [length] in Hk. cbn [check_parts].
  destruct (offsets_nth n st k Hst ltac:(lia)) as [-> Hs]. destruct (offsets_nth n en k Hen ltac:(lia)) as [-> He]. cbn [mbind option_bind].
  pose proof (Hr 0%nat row eq_refl) as H0. rewrite Nat.add_0_r in H0.
  assert (Ec : check_loop (nth k en O - nth k st O) row buf (nth k st O) = Some true).
  { destruct (decide (nth k st O < nth k en O)%nat); [apply check_slice; [lia|exact H0]|]. by replace (nth k en O - nth k st O)%nat with O by lia. }
  rewrite Ec. cbn [mbind option_bind]. apply IH; [lia|]. intros j row' Hj. replace (S k + j)%nat with (k + S j)%nat by lia. by apply Hr.
Qed.

Lemma opt_texts (P : Z -> Prop) o : opt_ok (Forall P) o -> Forall P (text o).
Proof. by destruct o; [|constructor]. Qed.
Lemma host_valid h : host_ok h -> Forall (valid 2) (print_host h).
Proof.
  assert (V : valid 2 91 /\ valid 2 93) by (split; (split; [unfold is_char; lia|done])). destruct V as [V1 V2].
  destruct h as [w|w]; cbn; [by intros (H & _)|]. intros (H & _). constructor; [done|]. apply Forall_app. split; [done|]. by constructor.
Qed.
Lemma parts_valid p j row : parts_ok p -> valid_char !! j = Some row -> exists w, texts p !! j = Some w /\ Forall (valid j) w.
Proof.
  intros [[_ Hs] Ha _ _ _] Hj. unfold texts. destruct (p_authority p) as [[[user host] port]|].
  - destruct Ha as (Hu & Hh & Hp & _). destruct j as [|[|[|[|j]]]]; [..|done]; (eexists; split; [reflexivity|]);
      [done|by apply opt_texts|by apply host_valid|by apply opt_texts].
  - destruct j as [|[|[|[|j]]]]; [..|done]; (eexists; split; [reflexivity|]); [done|constructor..].
Qed.

Lemma valid_chars k w : Forall (valid k) w -> Forall is_char w.
Proof. intros H. eapply Forall_impl; [exact H|]. by intros c [? _]. Qed.
Lemma opt_chars (f : list Z -> list Z) (P : list Z -> Prop) o : (forall w, P w -> Forall is_char (f w)) -> opt_ok P o -> Forall is_char (opt_text f o).
Proof. intros H Ho. destruct o; [by apply H|constructor]. Qed.
Lemma print_chars p : parts_ok p -> Forall is_char (print_uri p).
Proof.
  intros Ok. pose proof Ok as [[_ Hs] Ha (Hp & _) Hq Hf]. assert (C : forall c, 0 < c < 256 -> Forall is_char [c]) by (intros c Hc; constructor; [done|constructor]).
  unfold print_uri. apply Forall_app. split; [by eapply valid_chars|]. constructor; [unfold is_char; lia|]. rewrite !Forall_app. split_and!.
  - destruct (p_authority p) as [[[user host] port]|]; [|constructor]. destruct Ha as (Hu & Hh & Hpt & _). cbn [print_authority].
    constructor; [unfold is_char; lia|]. constructor; [unfold is_char; lia|]. rewrite !Forall_app. split_and!.
    + eapply opt_chars; [|exact Hu]. intros w Hw. apply Forall_app. split; [by eapply valid_chars|apply C; lia].
    + by eapply valid_chars, host_valid.
    + eapply opt_chars; [|exact Hpt]. intros w Hw. constructor; [unfold is_char; lia|by eapply valid_chars].
  - done.
  - eapply opt_chars; [|exact Hq]. intros w [Hw _]. constructor; [unfold is_char; lia|done].
  - eapply opt_chars; [|exact Hf]. intros w Hw. constructor; [unfold is_char; lia|done].
Qed.

Lemma copied_host h : host_ok h -> field 2 (print_host h) = match h with HName h => nonempty h | HV6 h => Some h end.
Proof.
  destruct h as [w|w]; cbn [print_host host_ok].
  - intros (_ & _ & Hh). destruct w as [|c w]; [done|]. cbn [field nonempty]. unfold copied. rewrite (bool_decide_eq_false_2 (head _ = _)) by done. by rewrite andb_false_r.
  - intros _. cbn [field]. unfold copied. rewrite !bool_decide_eq_true_2; [|change (91 :: w ++ [93]) with ((91 :: w) ++ [93]); apply last_snoc|done|done].
    cbn [andb tail length]. rewrite length_app. cbn [length]. replace (S (length w + 1) - 2)%nat with (length w) by lia. by rewrite take_app_length.
Qed.
Lemma copied_other k w : k <> 2%nat -> field k w = nonempty w.
Proof. intros Hk. destruct w; [done|]. cbn. unfold copied. by rewrite bool_decide_eq_false_2. Qed.
Lemma nonempty_text o : nonempty (text o) = of_opt o.
Proof. by destruct o. Qed.

(** C32. Printing and parsing: the text made of a scheme, an optional authority (user
    information, host name or bracketed address, port), a path, a query and a fragment
    is parsed back into these parts, whatever was in the object before.  When there is
    an authority and no path, the query must not contain a colon, a question mark
    or an at sign. *)
Theorem uri_parse_print p u : parts_ok p -> parse [] (print_uri p) u = Some (0, uri_of p (error u), []).
Proof.
  intros Ok. destruct (locate_ok p Ok) as (st & en & El & Es). pose proof (locate_safe (print_uri p) (print_chars p Ok)) as (r & El' & Of).
  rewrite El in El'. injection El' as <-. destruct Of as [O1 O2]. unfold parse. rewrite El. cbn [mbind option_bind].
  set (buf := print_uri p ++ [NUL]) in *. assert (Hn : (length (print_uri p) < length buf)%nat) by (unfold buf; rewrite length_app; cbn; lia).
  assert (At : forall k, (k < 7)%nat -> texts p !! k = Some (slice buf (nth k st O) (nth k en O))).
  { intros k Hk. rewrite <- Es. unfold slices. rewrite list_lookup_fmap, lookup_seq_lt by lia. done. }
  rewrite (check_slices _ buf st en Hn O1 O2 valid_char 0); [|cbn; lia|].
  2:{ intros j row Hj. destruct (parts_valid p j row Ok Hj) as (w & Ew & Hw). cbn [Nat.add].
      assert (Hj7 : (j < 7)%nat) by (apply lookup_lt_Some in Hj; cbn in Hj; lia). rewrite (At j Hj7) in Ew. injection Ew as ->. by eapply valid_row. }
  cbn [mbind option_bind]. rewrite (copy_slices _ buf st en Hn O1 O2 7 0) by lia. fold (slices buf st en). rewrite Es. do 3 f_equal.
  pose proof (po_authority p Ok) as Ha. unfold texts, uri_of. destruct (p_authority p) as [[[user host] port]|]; cbv iota beta; destruct u; cbn [set_fields set_dst set_state].
  - destruct Ha as (_ & Hh & _). rewrite (copied_host host Hh), !copied_other by lia. rewrite !nonempty_text. done.
  - rewrite !copied_other by lia. rewrite !nonempty_text. done.
Qed.
Lemma uri_parse_print_witness :
  let p := mk_parts [104; 116] (Some (Some [117; 58; 112], HV6 [58; 58; 49], Some [56; 48])) [47; 97] (Some [120; 63; 58]) (Some [102]) in
  parse [] (print_uri p) uri_init = Some (0, uri_of p 0, []) /\ host (uri_of p 0) = Some [58; 58; 49].
Proof.
  split; [|reflexivity]. apply (uri_parse_print _ uri_init).
  assert (N : forall (x : Z) (l : list Z), bool_decide (x ∈ l) = false -> x ∉ l) by (intros x l H; by apply bool_decide_eq_false_1 in H).
  assert (V : forall k c, is_char c -> (nth (Z.to_nat c) (nth k valid_char []) 0 =? 0) = false -> valid k c) by (intros k c H1 H2; split; [done|lia]).
  assert (C : forall l, forallb (fun c => (0 <? c) && (c <? 256)) l = true -> Forall is_char l).
  { intros l H. rewrite forallb_forall in H. apply Forall_forall. intros c Hc. apply list_elem_of_In, H in Hc. unfold is_char. lia. }
  assert (F : forall k l, forallb (fun c => (0 <? c) && (c <? 256) && negb (nth (Z.to_nat c) (nth k valid_char []) 0 =? 0)) l = true -> Forall (valid k) l).
  { intros k l H. rewrite forallb_forall in H. apply Forall_forall. intros c Hc. apply list_elem_of_In, H in Hc. apply V; [unfold is_char|]; lia. }
  constructor; cbn [p_scheme p_authority p_path p_query p_fragment opt_ok host_ok].
  - split; [done|]. apply F. reflexivity.
  - split_and!; [apply F; reflexivity|apply F; reflexivity|apply N; reflexivity|apply F; reflexivity|by right|done].
  - split_and!; [apply C; reflexivity|apply N; reflexivity|apply N; reflexivity].
  - split; [apply C; reflexivity|apply N; reflexivity].
  - apply C. reflexivity.
Defined.

(** The query of a URI that has an authority and no path is scanned by the loop for
    the authority: a second question mark starts it again ([x://h?a?b]), a colon or an
    at sign makes the URI invalid ([x://h?a:b]); with a path they are part of the query. *)
Example query_after_authority :
  (parse [] [120; 58; 47; 47; 104; 63; 97; 63; 98] uri_init ≫= (fun r => query r.1.2)) = Some [98] /\
  (parse [] [120; 58; 47; 47; 104; 47; 63; 97; 63; 98] uri_init ≫= (fun r => query r.1.2)) = Some [97; 63; 98] /\
  (fun r => r.1.1) <$> parse [] [120; 58; 47; 47; 104; 63; 97; 58; 98] uri_init = Some (-1) /\
  (parse [] [120; 58; 47; 47; 104; 47; 63; 97; 58; 98] uri_init ≫= (fun r => query r.1.2)) = Some [97; 58; 98].
Proof. by split_and!. Qed.

(** ** Copies *)

Lemma dup_all_ok l h : let '(l', b, h') := dup_all l h in if b then l' = l else false ∈ h.
Proof.
  revert h. induction l as [|v l IH]; intros h; cbn [dup_all]; [done|]. unfold dup. destruct v as [s|].
  - destruct (malloc h) as [ok h'] eqn:Em. destruct ok; [|by eapply malloc_false]. specialize (IH h'). destruct (dup_all l h') as [[l' b] h2].
    destruct b; [by subst|by eapply malloc_rest].
  - specialize (IH h). destruct (dup_all l h) as [[l' b] h2]. destruct b; [by subst|done].
Qed.
(** A copy is equal, or it is empty and says that memory ran out. *)
Lemma uri_copy_ok u h : let '(u', _) := copy u h in
  (state u = URI_STATE_SUCCESS /\ u' = u) \/
  (state u <> URI_STATE_SUCCESS /\ state u' = state u /\ error u' = error u /\ fields u' = fields uri_init) \/
  (state u' = URI_STATE_ERROR /\ error u' = ENOMEM /\ fields u' = fields uri_init /\ false ∈ h).
Proof.
  unfold copy. destruct (decide (state u = URI_STATE_SUCCESS)) as [Hs|Hs]; [|right; left; by split_and!].
  pose proof (dup_all_ok (fields u) h) as D. destruct (dup_all (fields u) h) as [[l b] h']. destruct b.
  - left. split; [done|]. subst l. by destruct u.
  - right; right. by split_and!.
Qed.

(** ** Queries *)

Definition print_pair (kv : list Z * list Z) : list Z := kv.1 ++ 61 :: kv.2.
Definition print_query (kvs : list (list Z * list Z)) : list Z := join 38 (print_pair <$> kvs).
(** A key that is not empty, and no separator in the key or the value. *)
Definition pair_ok (kv : list Z * list Z) : Prop := kv.1 <> [] /\ 61 ∉ kv.1 /\ 38 ∉ kv.1 /\ 61 ∉ kv.2 /\ 38 ∉ kv.2.

Lemma split_pair kv : pair_ok kv -> print_pair kv <> [] /\ split (print_pair kv) 61 = [kv.1; kv.2].
Proof.
  intros (H1 & H2 & H3 & H4 & H5). split; [unfold print_pair; by destruct (kv.1)|].
  change (print_pair kv) with (join 61 [kv.1; kv.2]). apply split_join; [done|]. by repeat constructor.
Qed.
Lemma split_pairs kvs : kvs <> [] -> Forall pair_ok kvs -> print_query kvs <> [] /\ split (print_query kvs) 38 = print_pair <$> kvs.
Proof.
  intros Hn Hk. split.
  - unfold print_query. destruct kvs as [|kv kvs]; [done|]. apply Forall_cons in Hk as [Hk _]. apply split_pair in Hk as [Hk _].
    destruct kvs; cbn; [done|]. by destruct (print_pair kv).
  - apply split_join; [by destruct kvs|]. rewrite Forall_fmap. eapply Forall_impl; [exact Hk|]. intros kv (H1 & H2 & H3 & H4 & H5). cbn. unfold print_pair.
    rewrite elem_of_app, elem_of_cons. naive_solver.
Qed.

Lemma query_turn_ok kv res : pair_ok kv -> query_turn (print_pair kv) res = res ∪ {[kv.1 := kv.2]}.
Proof.
  intros Hk. destruct (split_pair kv Hk) as [Hn Es]. pose proof Hk as (H1 & _). unfold query_turn. rewrite decide_False by done. rewrite Es. cbn [nth length].
  rewrite decide_False by done. apply map_eq. intros x. rewrite lookup_union. destruct (res !! kv.1) eqn:E.
  - destruct (decide (x = kv.1)) as [->|]; [by rewrite E, union_Some_l|]. rewrite lookup_singleton_ne by done. by rewrite (right_id_L None (∪)).
  - rewrite decide_False by lia. destruct (decide (x = kv.1)) as [->|].
    + by rewrite lookup_insert_eq, E, lookup_singleton_eq.
    + rewrite lookup_insert_ne, lookup_singleton_ne by done. by rewrite (right_id_L None (∪)).
Qed.
Lemma query_fold kvs : Forall pair_ok kvs -> forall res, fold_left (fun res ele => query_turn ele res) (print_pair <$> kvs) res = res ∪ list_to_map kvs.
Proof.
  induction 1 as [|kv kvs Hk _ IH]; intros res; cbn; [by rewrite map_union_empty|]. rewrite IH, query_turn_ok by done.
  rewrite <- map_union_assoc. by rewrite insert_union_singleton_l.
Qed.

Lemma strict_turn_ok kv res x : pair_ok kv -> default [] (strict_turn (print_pair kv) res !! x) = default [] (res !! x) ++ (if decide (kv.1 = x) then [kv.2] else []).
Proof.
  intros Hk. destruct (split_pair kv Hk) as [Hn Es]. pose proof Hk as (H1 & _). unfold strict_turn. rewrite decide_False by done. rewrite Es. cbn [nth length].
  rewrite !decide_False by (done || lia). destruct (decide (kv.1 = x)) as [->|]; [by rewrite lookup_insert_eq|]. rewrite lookup_insert_ne by done. by rewrite app_nil_r.
Qed.
Lemma strict_fold kvs x : Forall pair_ok kvs -> forall res, default [] (fold_left (fun res ele => strict_turn ele res) (print_pair <$> kvs) res !! x) =
  default [] (res !! x) ++ (filter (fun kv => kv.1 = x) kvs).*2.
Proof.
  induction 1 as [|kv kvs Hk _ IH]; intros res; cbn [fmap list_fmap fold_left]; [by rewrite app_nil_r|]. rewrite IH, strict_turn_ok, filter_cons by done.
  rewrite <- app_assoc. f_equal. by destruct (decide (kv.1 = x)).
Qed.

Lemma split_query_ok kvs : Forall pair_ok kvs -> split_query (print_query kvs) = list_to_map kvs.
Proof.
  intros Hk. unfold split_query. destruct kvs as [|kv kvs]; [done|]. destruct (split_pairs (kv :: kvs) ltac:(done) Hk) as [Hn Es].
  rewrite decide_False by done. rewrite Es, query_fold by done. by rewrite map_empty_union.
Qed.
Lemma split_query_strict_ok kvs x : Forall pair_ok kvs -> default [] (split_query_strict (print_query kvs) !! x) = (filter (fun kv => kv.1 = x) kvs).*2.
Proof.
  intros Hk. unfold split_query_strict. destruct kvs as [|kv kvs]; [done|]. destruct (split_pairs (kv :: kvs) ltac:(done) Hk) as [Hn Es].
  rewrite decide_False by done. rewrite Es, strict_fold by done. done.
Qed.

Definition encode_pair (kv : list Z * list Z) : list Z * list Z := (url_encode_component kv.1, url_encode_component kv.2).
Lemma encode_pair_ok kv : kv.1 <> [] -> Forall is_byte kv.1 -> Forall is_byte kv.2 -> pair_ok (encode_pair kv).
Proof.
  intros Hn H1 H2. assert (C : forall s, Forall is_byte s -> 61 ∉ url_encode_component s /\ 38 ∉ url_encode_component s).
  { intros s Hs. split; intros Hx; pose proof (component_bytes s _ Hs Hx) as B; naive_solver. }
  destruct (C _ H1) as [A1 A2]. destruct (C _ H2) as [B1 B2]. split_and!; [|done..]. cbn. destruct (kv.1) as [|c l]; [done|]. unfold url_encode_component. cbn [encode_loop].
  unfold encode_byte. by repeat case_match.
Qed.

(** A query that is built from keys and values with [url_encode_component] is taken
    apart again: [split_query] gives the first value of every key,
    [split_query_strict] all of them in order, and [url_decode] gives back the
    keys and the values, whatever bytes they have. *)
Theorem query_roundtrip kvs : Forall (fun kv => kv.1 <> [] /\ Forall is_byte kv.1 /\ Forall is_byte kv.2) kvs ->
  let q := print_query (encode_pair <$> kvs) in
  split_query q = list_to_map (encode_pair <$> kvs) /\
  (forall x, default [] (split_query_strict q !! x) = (filter (fun kv => kv.1 = x) (encode_pair <$> kvs)).*2) /\
  (forall k v, (k, v) ∈ kvs -> url_decode (url_encode_component k) = Some k /\ url_decode (url_encode_component v) = Some v).
Proof.
  intros Hk q. assert (Hp : Forall pair_ok (encode_pair <$> kvs)).
  { rewrite Forall_fmap. eapply Forall_impl; [exact Hk|]. intros kv (H1 & H2 & H3). by apply encode_pair_ok. }
  split_and!; [by apply split_query_ok|intros x; by apply split_query_strict_ok|]. intros k v Hkv. rewrite Forall_forall in Hk.
  destruct (Hk _ Hkv) as (_ & H1 & H2). rewrite !url_decode_ok. unfold url_encode_component. by rewrite !decode_encode by (done || apply component_free).
Qed.
Lemma query_roundtrip_witness : split_query (print_query (encode_pair <$> [([38], [61; 32]); ([97], [])])) = list_to_map (encode_pair <$> [([38], [61; 32]); ([97], [])]).
Proof.
  apply (query_roundtrip [([38], [61; 32]); ([97], [])]). repeat constructor; cbn; done || unfold is_byte; lia.
Defined.
