(* ===== verification/EncodeStream.v ===== *)
(** * The encode stream: [src/util/EncodeStream.cc], [EncodeStream.h]

    A stream collects pieces of a message in an array of at most [max_] vectors.  A
    piece is referred to or copied into a buffer of the stream; when the array is full
    the pieces after the merged ones are copied together into one buffer.

    A vector points to memory of the client, which does not change, or into a buffer;
    buffers are kept in memory by address, [buf_list_] is their order.  Copies are
    [memcpy] from and [write] to arrays, [None] when they leave them.  The bytes of a
    new buffer are indeterminate (zero in the model). *)

From S2P Require Import Prelude CLib RBTree.

Local Open Scope Z_scope.

Definition ENCODE_BUF_SIZE : Z := 1024.
Definition ALIGN (x a : Z) : Z := Z.land (u64 (x + a - 1)) (u64 (Z.lnot (a - 1))).

Inductive base := BClient (bs : list Z) | BBuf (b : loc) (off : Z).
Record iovec := mk_iov { iov_base : base; iov_len : Z }.
(** [pos] is the offset of [buf->pos] in [data]. *)
Record ebuf := mk_ebuf { pos : Z; data : list Z }.

Record stream := mk_stream {
  vec_ : list iovec;
  max_ : Z;
  size_ : Z;
  bytes_ : Z;
  merged_size_ : Z;
  merged_bytes_ : Z;
  buf_list_ : list loc;
  bufs : gmap loc ebuf }.

Definition new_stream (vectors : list iovec) : stream := mk_stream vectors (len vectors) 0 0 0 0 [] ∅.

Definition with_bufs (l : list loc) (B : gmap loc ebuf) (s : stream) : stream :=
  mk_stream (vec_ s) (max_ s) (size_ s) (bytes_ s) (merged_size_ s) (merged_bytes_ s) l B.

(** [vec_[i] = ...] *)
Definition set_vec (i : Z) (v : iovec) (l : list iovec) : option (list iovec) :=
  if (0 <=? i) && (i <? len l) then Some (<[Z.to_nat i := v]> l) else None.
Definition get_vec (i : Z) (l : list iovec) : option iovec := if 0 <=? i then l !! Z.to_nat i else None.

(** The bytes a vector points to. *)
Definition read_iov (B : gmap loc ebuf) (v : iovec) : option (list Z) :=
  match iov_base v with
  | BClient bs => memcpy (iov_len v) bs
  | BBuf b off => x ← B !! b; if 0 <=? off then memcpy (iov_len v) (drop (Z.to_nat off) (data x)) else None
  end.

(** [new char[n]]: the bytes of [data]. *)
Definition new_data (n : Z) : list Z := replicate (Z.to_nat (if ENCODE_BUF_SIZE <? n then ALIGN n 8 else ENCODE_BUF_SIZE)) 0.

(** The loop of [merge], [n] vectors from [i] on. *)
Fixpoint merge_loop (n : nat) (i p : Z) (s : stream) (dst : list Z) : option (list Z) :=
  match n with
  | O => Some dst
  | S n =>
      v ← get_vec i (vec_ s);
      bs ← read_iov (bufs s) v;
      dst ← write p bs dst;
      merge_loop n (i + 1) (p + iov_len v) s dst
  end.

Definition merge (s : stream) : option stream :=
  let n := u64 (bytes_ s - merged_bytes_ s) in
  dst ← merge_loop (Z.to_nat (size_ s - merged_size_ s)) (merged_size_ s) 0 s (new_data n);
  let b := fresh (dom (bufs s)) in
  v ← set_vec (merged_size_ s) (mk_iov (BBuf b 0) n) (vec_ s);
  Some (mk_stream v (max_ s) (merged_size_ s + 1) (bytes_ s) (merged_size_ s + 1) (bytes_ s)
    (b :: buf_list_ s) (<[b := mk_ebuf (ALIGN n 8) dst]> (bufs s))).

(** The test both functions begin with: there is room, or there is none ([inr], the
    stream has overflowed). *)
Definition make_room (s : stream) : option (stream + stream) :=
  if max_ s <=? size_ s then
    if merged_size_ s + 1 <? max_ s then s ← merge s; Some (inl s)
    else Some (inr (mk_stream (vec_ s) (max_ s) (max_ s + 1) (bytes_ s) (merged_size_ s) (merged_bytes_ s) (buf_list_ s) (bufs s)))
  else Some (inl s).

(** [vec_[size_].iov_base = ...; vec_[size_].iov_len = len; size_++; bytes_ += len] *)
Definition push (v : iovec) (s : stream) : option stream :=
  l ← set_vec (size_ s) v (vec_ s);
  Some (mk_stream l (max_ s) (size_ s + 1) (u64 (bytes_ s + iov_len v)) (merged_size_ s) (merged_bytes_ s) (buf_list_ s) (bufs s)).

(** [append_nocopy(data, len)], [len] is the length of the list. *)
Definition append_nocopy (bs : list Z) (s : stream) : option stream :=
  r ← make_room s;
  match r with
  | inr s => Some s
  | inl s => push (mk_iov (BClient bs) (len bs)) s
  end.

(** The last buffer, or a new one. *)
Definition take_buf (n : Z) (s : stream) : option (loc * ebuf * stream) :=
  let new :=
    let b := fresh (dom (bufs s)) in
    let x := mk_ebuf 0 (new_data n) in
    (b, x, with_bufs (buf_list_ s ++ [b]) (<[b := x]> (bufs s)) s) in
  match last (buf_list_ s) with
  | None => Some new
  | Some b => x ← bufs s !! b; Some (if ENCODE_BUF_SIZE <? pos x + n then new else (b, x, s))
  end.

Definition append_copy (bs : list Z) (s : stream) : option stream :=
  r ← make_room s;
  match r with
  | inr s => Some s
  | inl s =>
      '(b, x, s) ← take_buf (len bs) s;
      d ← write (pos x) bs (data x);
      s ← push (mk_iov (BBuf b (pos x)) (len bs)) (with_bufs (buf_list_ s) (<[b := mk_ebuf (pos x) d]> (bufs s)) s);
      let p := pos x + ALIGN (len bs) 8 in
      let l := if ENCODE_BUF_SIZE <=? p then b :: removelast (buf_list_ s) else buf_list_ s in
      Some (with_bufs l (<[b := mk_ebuf p d]> (bufs s)) s)
  end.

(** [list_for_each_safe] with [list_del] and [delete []]. *)
Fixpoint clear_loop (l : list loc) (s : stream) : option stream :=
  match l with
  | [] => Some s
  | b :: l => _ ← bufs s !! b; clear_loop l (with_bufs (filter (fun x => x <> b) (buf_list_ s)) (delete b (bufs s)) s)
  end.
Definition clear_buf_data (s : stream) : option stream := clear_loop (buf_list_ s) s.
Definition reset (vectors : list iovec) (s : stream) : option stream :=
  s ← clear_buf_data s; Some (mk_stream vectors (len vectors) 0 0 0 0 (buf_list_ s) (bufs s)).

(** The other overloads and the operators call these two. *)
Inductive piece := PNocopy (bs : list Z) | PCopy (bs : list Z).
Definition piece_bytes (p : piece) : list Z := match p with PNocopy bs | PCopy bs => bs end.
Definition append (p : piece) : stream -> option stream := match p with PNocopy bs => append_nocopy bs | PCopy bs => append_copy bs end.
Fixpoint append_all (ps : list piece) (s : stream) : option stream :=
  match ps with
  | [] => Some s
  | p :: ps => s ← append p s; append_all ps s
  end.

(** What is sent: the bytes of the vectors in order. *)
Definition contents (s : stream) : option (list Z) :=
  l ← mapM (read_iov (bufs s)) (take (Z.to_nat (size_ s)) (vec_ s)); Some (concat l).

(** ** Alignment *)

Lemma align_ok x : 0 <= x < 2 ^ 63 -> x <= ALIGN x 8 < x + 8 /\ ALIGN x 8 mod 8 = 0.
Proof.
  intros Hx. unfold ALIGN. rewrite (wrap_small 64 (x + 8 - 1)) by lia.
  assert (E : Z.land (x + 8 - 1) (u64 (Z.lnot (8 - 1))) = (x + 7) / 8 * 8).
  { replace (x + 8 - 1) with (x + 7) by lia. change (u64 (Z.lnot (8 - 1))) with (Z.ldiff (Z.ones 64) (Z.ones 3)).
    apply Z.bits_inj'. intros n Hn. rewrite Z.land_spec, Z.ldiff_spec. 
    change ((x + 7) / 8 * 8) with ((x + 7) / 2 ^ 3 * 2 ^ 3). rewrite <- Z.shiftl_mul_pow2, <- Z.shiftr_div_pow2 by lia.
    destruct (Z.ltb_spec n 3).
    - rewrite (Z.ones_spec_low 3) by lia. cbn [negb]. rewrite !andb_false_r. symmetry. apply Z.shiftl_spec_low. lia.
    - rewrite (Z.ones_spec_high 3) by lia. rewrite Z.shiftl_spec, Z.shiftr_spec by lia. replace (n - 3 + 3) with n by lia. cbn [negb]. rewrite andb_true_r.
      destruct (Z.ltb_spec n 64).
      + rewrite Z.ones_spec_low by lia. apply andb_true_r.
      + rewrite Z.ones_spec_high by lia. rewrite andb_false_r. symmetry. apply Z.bits_above_log2; [lia|].
        apply Z.log2_lt_pow2; [lia|]. assert (2 ^ 64 <= 2 ^ n) by (apply Z.pow_le_mono_r; lia). lia. }
  rewrite E. pose proof (Z.div_mod (x + 7) 8 ltac:(lia)). pose proof (Z.mod_pos_bound (x + 7) 8 ltac:(lia)). split; [lia|].
  apply Z.mod_mul. lia.
Qed.

(** ** The invariant *)

(** A vector points to [bs]; in a buffer, it is below [pos]. *)
Definition iov_ok (B : gmap loc ebuf) (v : iovec) (bs : list Z) : Prop :=
  read_iov B v = Some bs /\ iov_len v = len bs /\
  match iov_base v with BClient _ => True | BBuf b off => 0 <= off /\ exists x, B !! b = Some x /\ off + iov_len v <= pos x end.

Record buf_ok (x : ebuf) : Prop := mk_buf_ok {
  bo_pos : 0 <= pos x <= len (data x);
  bo_align : pos x mod 8 = 0;
  bo_size : ENCODE_BUF_SIZE <= len (data x) }.

(** The pieces so far, [w] of them in [n] appends. *)
Record stream_ok (s : stream) (w : list Z) (n : Z) : Prop := mk_stream_ok {
  so_max : max_ s = len (vec_ s);
  so_size : 0 <= merged_size_ s <= size_ s /\ size_ s <= max_ s /\ 0 < max_ s /\ merged_size_ s < max_ s;
  so_pieces : exists ps, Forall2 (iov_ok (bufs s)) (take (Z.to_nat (size_ s)) (vec_ s)) ps /\ concat ps = w /\
    merged_bytes_ s = len (concat (take (Z.to_nat (merged_size_ s)) ps));
  so_bytes : bytes_ s = len w;
  so_small : len w < 2 ^ 63;
  so_bufs : map_Forall (fun _ x => buf_ok x) (bufs s);
  so_list : forall b, b ∈ buf_list_ s -> is_Some (bufs s !! b);
  so_count : 2 * n + 2 * (max_ s - size_ s) + (max_ s - 1 - merged_size_ s) * (max_ s - merged_size_ s) = max_ s * (max_ s + 1) }.

Lemma memcpy_some n l bs : memcpy n l = Some bs -> bs = take (Z.to_nat n) l /\ 0 <= n <= len l.
Proof. unfold memcpy. destruct (_ && _) eqn:E; [|done]. intros [= <-]. split; [done|lia]. Qed.

(** Vectors survive a new buffer and a write above [pos]. *)
Lemma iov_new B b x v bs : B !! b = None -> iov_ok B v bs -> iov_ok (<[b := x]> B) v bs.
Proof.
  intros Hb (H1 & H2 & H3). unfold iov_ok, read_iov in *. destruct (iov_base v) as [|b' off]; [done|]. destruct H3 as (H3 & y & Hy & H4).
  assert (b' <> b) by congruence. rewrite lookup_insert_ne by done. split_and!; [done|done|done|by exists y].
Qed.
Lemma iov_write B b x d p v bs : B !! b = Some x -> pos x <= p -> take (Z.to_nat (pos x)) d = take (Z.to_nat (pos x)) (data x) -> (len (data x) <= len d) ->
  iov_ok B v bs -> iov_ok (<[b := mk_ebuf p d]> B) v bs.
Proof.
  intros Hb Hp Hd Hl (H1 & H2 & H3). unfold iov_ok, read_iov in *. destruct (iov_base v) as [|b' off]; [done|]. destruct H3 as (H3 & y & Hy & H4).
  destruct (decide (b' = b)) as [->|]; [|rewrite lookup_insert_ne by done; split_and!; [done|done|done|by exists y]].
  rewrite lookup_insert_eq. assert (y = x) as -> by congruence. rewrite Hb in H1. cbn [mbind option_bind data] in *. replace (0 <=? off) with true in * by lia.
  apply memcpy_some in H1 as [E1 E2]. rewrite length_drop in E2. split_and!; [|done|done|exists (mk_ebuf p d); split; [done|cbn; lia]].
  unfold memcpy. rewrite length_drop. replace (_ && _) with true by lia. f_equal. rewrite E1.
  assert (T : forall l : list Z, take (Z.to_nat (iov_len v)) (drop (Z.to_nat off) l) = drop (Z.to_nat off) (take (Z.to_nat off + Z.to_nat (iov_len v)) l)).
  { intros l. by rewrite skipn_firstn_comm, Nat.add_sub_swap, Nat.sub_diag by lia. }
  rewrite !T. f_equal.
  assert (T2 : forall l : list Z, take (Z.to_nat off + Z.to_nat (iov_len v)) l = take (Z.to_nat off + Z.to_nat (iov_len v)) (take (Z.to_nat (pos x)) l)).
  { intros l. rewrite take_take. f_equal. lia. }
  rewrite T2, Hd, <- T2. done.
Qed.

(** The loop of [merge] copies the pieces one after the other. *)
Lemma merge_loop_ok s : forall ps i p dst, Forall2 (iov_ok (bufs s)) (take (length ps) (drop (Z.to_nat i) (vec_ s))) ps -> 0 <= i -> 0 <= p -> p + len (concat ps) <= len dst ->
  exists d, merge_loop (length ps) i p s dst = Some d /\ length d = length dst /\
    take (Z.to_nat (p + len (concat ps))) d = take (Z.to_nat p) dst ++ concat ps.
Proof.
  induction ps as [|bs ps IH]; intros i p dst Hv Hi Hp Hl; cbn [length merge_loop concat] in *.
  - exists dst. split_and!; [done|done|]. rewrite app_nil_r. do 2 f_equal. lia.
  - destruct (drop (Z.to_nat i) (vec_ s)) as [|v l] eqn:Ed; [by inversion Hv|]. cbn [take] in Hv. apply Forall2_cons in Hv as [(V1 & V2 & _) Hv].
    assert (Ev : vec_ s !! Z.to_nat i = Some v) by (by rewrite <- (Nat.add_0_r (Z.to_nat i)), <- lookup_drop, Ed).
    unfold get_vec. replace (0 <=? i) with true by lia. rewrite Ev. cbn [mbind option_bind]. rewrite V1. cbn [mbind option_bind].
    rewrite length_app in Hl. unfold write. replace (_ && _) with true by lia. cbn [mbind option_bind].
    set (d1 := take (Z.to_nat p) dst ++ bs ++ drop (Z.to_nat p + length bs) dst).
    assert (L1 : length d1 = length dst) by (unfold d1; rewrite !length_app, length_take, length_drop; lia).
    destruct (IH (i + 1) (p + iov_len v) d1) as (d & E & L & T).
    + replace (Z.to_nat (i + 1)) with (Z.to_nat i + 1)%nat by lia. rewrite <- drop_drop, Ed. exact Hv.
    + lia.
    + lia.
    + rewrite L1. lia.
    + exists d. split_and!; [done|lia|]. rewrite length_app. replace (p + Z.of_nat (length bs + length (concat ps))) with (p + iov_len v + len (concat ps)) by lia.
      rewrite T, app_assoc. f_equal. unfold d1. rewrite app_assoc, take_app_le, firstn_all2; [done|..]; rewrite length_app, length_take; lia.
Qed.

Lemma new_data_len n : 0 <= n < 2 ^ 63 -> n <= len (new_data n) /\ ENCODE_BUF_SIZE <= len (new_data n) /\ (ENCODE_BUF_SIZE < n -> len (new_data n) = ALIGN n 8).
Proof.
  intros Hn. destruct (align_ok n Hn) as [A _]. unfold new_data. rewrite length_replicate. unfold ENCODE_BUF_SIZE in *. destruct (Z.ltb_spec 1024 n); lia.
Qed.
Lemma align_le n m : 0 <= n < 2 ^ 63 -> n <= m -> m mod 8 = 0 -> ALIGN n 8 <= m.
Proof.
  intros Hn Hm H8. destruct (align_ok n Hn) as [A B]. pose proof (Z.div_mod m 8 ltac:(lia)). pose proof (Z.div_mod (ALIGN n 8) 8 ltac:(lia)). nia.
Qed.
Lemma take_insert_last {A} (l : list A) i x : (i < length l)%nat -> take (S i) (<[i := x]> l) = take i l ++ [x].
Proof. intros H. rewrite (take_S_r _ _ x) by (by apply list_lookup_insert_eq). by rewrite take_insert_ge by lia. Qed.
Lemma concat_split {A} (l : list (list A)) k : concat l = concat (take k l) ++ concat (drop k l).
Proof. rewrite <- concat_app. by rewrite take_drop. Qed.
Lemma fresh_none (B : gmap loc ebuf) : B !! fresh (dom B) = None.
Proof. apply not_elem_of_dom. apply is_fresh. Qed.

(** The buffer [merge] makes. *)
Lemma merge_ok s w n : stream_ok s w n -> size_ s = max_ s -> merged_size_ s + 1 < max_ s ->
  exists s', merge s = Some s' /\ stream_ok s' w n /\ size_ s' < max_ s'.
Proof.
  intros [S1 S2 (ps & P1 & P2 & P3) S4 S5 S6 S7 S8] Hf Hm. set (m := merged_size_ s) in *.
  assert (Lp : length ps = Z.to_nat (size_ s)) by (apply Forall2_length in P1; rewrite <- P1, length_take; lia).
  set (rest := concat (drop (Z.to_nat m) ps)). assert (Lw : len w = len (concat (take (Z.to_nat m) ps)) + len rest).
  { rewrite <- P2, (concat_split ps (Z.to_nat m)), length_app. unfold rest. lia. }
  assert (En : u64 (bytes_ s - merged_bytes_ s) = len rest) by (rewrite S4, P3, wrap_small; lia).
  assert (Hr : 0 <= len rest < 2 ^ 63) by lia. destruct (align_ok _ Hr) as [A1 A2]. destruct (new_data_len _ Hr) as (D1 & D2 & D3).
  unfold merge. rewrite En. fold m. destruct (merge_loop_ok s (drop (Z.to_nat m) ps) m 0 (new_data (len rest))) as (d & Ed & Ld & Td); [|lia|lia|fold rest; lia|].
  { rewrite length_drop, Lp. rewrite <- skipn_firstn_comm. by apply Forall2_drop. }
  fold rest in Td. replace (length (drop (Z.to_nat m) ps)) with (Z.to_nat (size_ s - m)) in Ed by (rewrite length_drop; lia).
  rewrite Ed. cbn [mbind option_bind]. unfold set_vec. replace (_ && _) with true by lia. cbn [mbind option_bind]. eexists. split; [reflexivity|].
  set (b := fresh (dom (bufs s))). pose proof (fresh_none (bufs s)) as Fb. fold b in Fb.
  assert (Bk : buf_ok (mk_ebuf (ALIGN (len rest) 8) d)).
  { constructor; cbn [pos data]; [|done|lia]. rewrite Ld. split; [lia|]. destruct (decide (ENCODE_BUF_SIZE < len rest)); [rewrite D3 by done; lia|].
    etrans; [apply (align_le _ ENCODE_BUF_SIZE); [lia|lia|done]|lia]. }
  split; [|cbn; lia]. constructor; cbn [vec_ max_ size_ bytes_ merged_size_ merged_bytes_ buf_list_ bufs]; try done.
  - by rewrite length_insert.
  - lia.
  - exists (take (Z.to_nat m) ps ++ [rest]). replace (Z.to_nat (m + 1)) with (S (Z.to_nat m)) by lia. split_and!.
    + rewrite take_insert_last by lia. apply Forall2_app.
      * assert (F : Forall2 (iov_ok (bufs s)) (take (Z.to_nat m) (vec_ s)) (take (Z.to_nat m) ps)).
        { apply (Forall2_take _ _ _ (Z.to_nat m)) in P1. rewrite take_take in P1. by replace (Nat.min _ _) with (Z.to_nat m) in P1 by lia. }
        eapply Forall2_impl; [exact F|]. intros v bs. by apply iov_new.
      * constructor; [|constructor]. unfold iov_ok. cbn [iov_base iov_len]. split_and!; [|done|lia|exists (mk_ebuf (ALIGN (len rest) 8) d); rewrite lookup_insert_eq; split; [done|cbn; lia]].
        unfold read_iov. cbn. rewrite lookup_insert_eq. cbn. rewrite drop_0. unfold memcpy. rewrite Ld. replace (_ && _) with true by lia. f_equal.
        rewrite Z.add_0_l in Td. exact Td.
    + rewrite concat_app. cbn. rewrite app_nil_r. unfold rest. by rewrite <- concat_split.
    + rewrite take_ge by (rewrite length_app, length_take; cbn; lia). rewrite concat_app. cbn. rewrite app_nil_r. unfold rest. rewrite <- concat_split, P2. done.
  - by apply map_Forall_insert_2.
  - intros b' [->|Hb']%elem_of_cons; [by rewrite lookup_insert_eq|]. destruct (decide (b' = b)) as [->|]; [by rewrite lookup_insert_eq|]. rewrite lookup_insert_ne by done. by apply S7.
  - nia.
Qed.

Lemma push_ok s w n v bs : stream_ok s w n -> size_ s < max_ s -> iov_ok (bufs s) v bs -> len w + len bs < 2 ^ 63 ->
  exists s', push v s = Some s' /\ stream_ok s' (w ++ bs) (n + 1) /\ bufs s' = bufs s /\ buf_list_ s' = buf_list_ s.
Proof.
  intros [S1 S2 (ps & P1 & P2 & P3) S4 S5 S6 S7 S8] Hf Hv Hl. assert (Lp : length ps = Z.to_nat (size_ s)) by (apply Forall2_length in P1; rewrite <- P1, length_take; lia).
  unfold push, set_vec. replace (_ && _) with true by lia. cbn [mbind option_bind]. eexists. split; [reflexivity|]. split; [|done].
  constructor; cbn [vec_ max_ size_ bytes_ merged_size_ merged_bytes_ buf_list_ bufs]; try done.
  - by rewrite length_insert.
  - lia.
  - exists (ps ++ [bs]). replace (Z.to_nat (size_ s + 1)) with (S (Z.to_nat (size_ s))) by lia. split_and!.
    + rewrite take_insert_last by lia. apply Forall2_app; [done|by constructor].
    + rewrite concat_app. cbn. by rewrite app_nil_r, P2.
    + rewrite P3. rewrite take_app_le by lia. done.
  - pose proof Hv as (_ & Hlen & _). rewrite S4, Hlen, wrap_small, length_app; rewrite ?length_app; lia.
  - rewrite length_app. lia.
  - nia.
Qed.

(** ** The operations *)

Definition overflowed (s : stream) : Prop := size_ s = max_ s + 1 /\ max_ s <= merged_size_ s + 1.

Lemma make_room_ok s w n : stream_ok s w n -> exists r, make_room s = Some r /\
  match r with
  | inl s' => stream_ok s' w n /\ size_ s' < max_ s' /\ max_ s' = max_ s
  | inr s' => overflowed s' /\ max_ s' = max_ s /\ 2 * n = max_ s * (max_ s + 1)
  end.
Proof.
  intros So. pose proof So as [S1 S2 _ S4 S5 S6 S7 S8]. unfold make_room. destruct (Z.leb_spec (max_ s) (size_ s)) as [Hf|Hf]; [|eexists; split; [done|]; by split_and!].
  destruct (Z.ltb_spec (merged_size_ s + 1) (max_ s)) as [Hm|Hm].
  - destruct (merge_ok s w n So ltac:(lia) Hm) as (s' & E & So' & Hs). rewrite E. cbn [mbind option_bind]. eexists. split; [done|]. split_and!; [done|done|].
    unfold merge in E. destruct (merge_loop _ _ _ _ _); [|done]. cbn in E. destruct (set_vec _ _ _); [|done]. by injection E as <-.
  - eexists. split; [done|]. split_and!; [split; cbn; lia|done|]. assert (E1 : size_ s = max_ s) by lia. assert (E2 : merged_size_ s = max_ s - 1) by lia. rewrite E1, E2 in S8. replace (max_ s - 1 - (max_ s - 1)) with 0 in S8 by lia. lia.
Qed.

Lemma take_buf_ok s w n k : stream_ok s w n -> 0 <= k < 2 ^ 63 -> exists b x s', take_buf k s = Some (b, x, s') /\ stream_ok s' w n /\
  vec_ s' = vec_ s /\ size_ s' = size_ s /\ max_ s' = max_ s /\
  bufs s' !! b = Some x /\ last (buf_list_ s') = Some b /\ pos x + k <= len (data x) /\ pos x + ALIGN k 8 <= len (data x).
Proof.
  intros So Hk. pose proof So as [S1 S2 (ps & P1 & P2 & P3) S4 S5 S6 S7 S8]. unfold take_buf. destruct (align_ok k Hk) as [A1 A2]. destruct (new_data_len k Hk) as (D1 & D2 & D3).
  set (b := fresh (dom (bufs s))). set (x := mk_ebuf 0 (new_data k)). pose proof (fresh_none (bufs s)) as Fb. fold b in Fb.
  assert (Ak : ALIGN k 8 <= len (new_data k)).
  { destruct (decide (ENCODE_BUF_SIZE < k)); [rewrite D3 by done; lia|]. etrans; [apply (align_le _ ENCODE_BUF_SIZE); [lia|lia|done]|lia]. }
  assert (New : exists b0 x0 s0, Some (b, x, with_bufs (buf_list_ s ++ [b]) (<[b := x]> (bufs s)) s) = Some (b0, x0, s0) /\ stream_ok s0 w n /\
    vec_ s0 = vec_ s /\ size_ s0 = size_ s /\ max_ s0 = max_ s /\ bufs s0 !! b0 = Some x0 /\ last (buf_list_ s0) = Some b0 /\
    pos x0 + k <= len (data x0) /\ pos x0 + ALIGN k 8 <= len (data x0)).
  { eexists b, x, _. split; [done|]. split; [|split_and!; cbn; [done|done|done|by rewrite lookup_insert_eq|by rewrite last_snoc|lia|lia]].
    constructor; cbn; try done.
    - exists ps. split_and!; [|done|done]. eapply Forall2_impl; [exact P1|]. intros v bs. by apply iov_new.
    - apply map_Forall_insert_2; [|done]. unfold x. constructor; cbn [pos data]; [lia|done|lia].
    - intros b'. rewrite elem_of_app, list_elem_of_singleton. intros [Hb'| ->]; [|by rewrite lookup_insert_eq].
      destruct (decide (b' = b)) as [->|]; [by rewrite lookup_insert_eq|]. rewrite lookup_insert_ne by done. by apply S7. }
  destruct (last (buf_list_ s)) as [b1|] eqn:El; [|exact New]. assert (Hb1 : b1 ∈ buf_list_ s).
  { rewrite last_lookup in El. by eapply list_elem_of_lookup_2. }
  destruct (S7 _ Hb1) as [x1 Hx1]. rewrite Hx1. cbn [mbind option_bind]. destruct (Z.ltb_spec ENCODE_BUF_SIZE (pos x1 + k)) as [Hlt|Hle]; [exact New|].
  destruct (S6 _ _ Hx1) as [O1 O2 O3]. exists b1, x1, s. split_and!; try done; [lia|].
  assert (ALIGN k 8 <= ENCODE_BUF_SIZE - pos x1); [|lia]. apply align_le; [lia|lia|]. unfold ENCODE_BUF_SIZE. rewrite Zminus_mod, O2. done.
Qed.

Lemma nocopy_ok s w n bs : stream_ok s w n -> len w + len bs < 2 ^ 63 -> exists s', append_nocopy bs s = Some s' /\ max_ s' = max_ s /\
  (stream_ok s' (w ++ bs) (n + 1) \/ overflowed s' /\ 2 * n = max_ s * (max_ s + 1)).
Proof.
  intros So Hl. unfold append_nocopy. destruct (make_room_ok s w n So) as (r & -> & Hr). cbn [mbind option_bind]. destruct r as [s1|s1].
  - destruct Hr as (S1 & S2 & S3). destruct (push_ok s1 w n (mk_iov (BClient bs) (len bs)) bs S1 S2) as (s' & E & So' & _).
    + split_and!; [apply memcpy_all|done|done].
    + done.
    + exists s'. split_and!; [done| |by left]. unfold push in E. destruct (set_vec _ _ _); [|done]. injection E as <-. done.
  - destruct Hr as (H1 & H2 & H3). exists s1. split_and!; [done|done|]. right. by split.
Qed.

Lemma write_ok p bs d : 0 <= p -> p + len bs <= len d -> exists d', write p bs d = Some d' /\ length d' = length d /\
  take (Z.to_nat p) d' = take (Z.to_nat p) d /\ take (length bs) (drop (Z.to_nat p) d') = bs.
Proof.
  intros Hp Hl. unfold write. replace (_ && _) with true by lia. eexists. split; [reflexivity|]. split_and!.
  - rewrite !length_app, length_take, length_drop. lia.
  - rewrite take_app_le, take_take by (rewrite length_take; lia). f_equal. lia.
  - rewrite drop_app_ge by (rewrite length_take; lia). rewrite length_take. replace (Z.to_nat p - _)%nat with O by lia. rewrite drop_0. by rewrite take_app_length.
Qed.

Lemma stream_copy_ok s w n bs : stream_ok s w n -> len w + len bs < 2 ^ 63 -> exists s', append_copy bs s = Some s' /\ max_ s' = max_ s /\
  (stream_ok s' (w ++ bs) (n + 1) \/ overflowed s' /\ 2 * n = max_ s * (max_ s + 1)).
Proof.
  intros So Hl. unfold append_copy. destruct (make_room_ok s w n So) as (r & -> & Hr). cbn [mbind option_bind]. destruct r as [s1|s1].
  2:{ destruct Hr as (H1 & H2 & H3). exists s1. split_and!; [done|done|]. right. by split. }
  destruct Hr as (So1 & S2 & S3). assert (Hk : 0 <= len bs < 2 ^ 63) by lia. destruct (align_ok _ Hk) as [A1 A2].
  destruct (take_buf_ok s1 w n (len bs) So1 Hk) as (b & x & s2 & -> & So2 & V2 & Z2 & M2 & Hb & Hlast & L1 & L2). cbn [mbind option_bind].
  pose proof (so_bufs _ _ _ So2 _ _ Hb) as [O1 O2 O3]. destruct (write_ok (pos x) bs (data x)) as (d & -> & Ld & T1 & T2); [lia|lia|]. cbn [mbind option_bind].
  set (p := pos x + ALIGN (len bs) 8). set (B := <[b := mk_ebuf p d]> (bufs s2)).
  assert (Bk : buf_ok (mk_ebuf p d)). { unfold p. constructor; cbn [pos data]; [lia| |lia]. by rewrite Zplus_mod, O2, A2. }
  assert (So3 : stream_ok (with_bufs (buf_list_ s2) B s2) w n).
  { destruct So2 as [C1 C2 (ps & P1 & P2 & P3) C4 C5 C6 C7 C8]. constructor; cbn; try done.
    - exists ps. split_and!; [|done|done]. eapply Forall2_impl; [exact P1|]. intros v vs. apply (iov_write _ _ x); [done|unfold p; lia|done|lia].
    - by apply map_Forall_insert_2.
    - intros b' Hb'. unfold B. destruct (decide (b' = b)) as [->|]; [by rewrite lookup_insert_eq|]. rewrite lookup_insert_ne by done. by apply C7. }
  destruct (push_ok _ w n (mk_iov (BBuf b (pos x)) (len bs)) bs So3) as (s3 & E3 & So4 & B3 & L3); [cbn; lia| |done|].
  { unfold iov_ok, read_iov. cbn [iov_base iov_len bufs with_bufs]. unfold B. rewrite lookup_insert_eq. cbn [mbind option_bind data]. replace (0 <=? pos x) with true by lia.
    split_and!; [|done|lia|exists (mk_ebuf p d); split; [done|cbn [pos]; unfold p; lia]]. unfold memcpy. rewrite length_drop. replace (_ && _) with true by lia.
    rewrite Nat2Z.id. by rewrite T2. }
  assert (E4 : push (mk_iov (BBuf b (pos x)) (len bs)) (with_bufs (buf_list_ s2) (<[b := mk_ebuf (pos x) d]> (bufs s2)) s2) =
    Some (with_bufs (buf_list_ s3) (<[b := mk_ebuf (pos x) d]> (bufs s2)) s3)).
  { unfold push in E3 |- *. cbn [vec_ size_ with_bufs] in *. destruct (set_vec _ _ _); [|done]. cbn [mbind option_bind] in *. by injection E3 as <-. }
  rewrite E4. cbn [mbind option_bind]. eexists. split; [reflexivity|].
  split; [cbn; unfold push in E3; destruct (set_vec _ _ _); [|done]; injection E3 as <-; cbn; lia|]. left.
  cbn [bufs buf_list_ with_bufs]. rewrite insert_insert_eq. fold p B. cbn [bufs with_bufs] in B3. cbn [buf_list_ with_bufs] in L3.
  destruct So4 as [C1 C2 C3 C4 C5 C6 C7 C8]. rewrite B3 in *. constructor; cbn; try done.
  intros b' Hb'. apply C7. rewrite L3 in *. destruct (ENCODE_BUF_SIZE <=? p); [|done].
  assert (Em : buf_list_ s2 = removelast (buf_list_ s2) ++ [b]).
  { apply last_Some in Hlast as [l ->]. by rewrite removelast_last. }
  rewrite Em, elem_of_app, list_elem_of_singleton. rewrite elem_of_cons in Hb'. tauto.
Qed.

Lemma append_ok s w n p : stream_ok s w n -> len w + len (piece_bytes p) < 2 ^ 63 -> exists s', append p s = Some s' /\ max_ s' = max_ s /\
  (stream_ok s' (w ++ piece_bytes p) (n + 1) \/ overflowed s' /\ 2 * n = max_ s * (max_ s + 1)).
Proof. destruct p; [apply nocopy_ok|apply stream_copy_ok]. Qed.
(** An overflow is final. *)
Lemma overflow_stays s p : overflowed s -> exists s', append p s = Some s' /\ overflowed s' /\ max_ s' = max_ s.
Proof.
  intros [H1 H2]. assert (E : make_room s = Some (inr (mk_stream (vec_ s) (max_ s) (max_ s + 1) (bytes_ s) (merged_size_ s) (merged_bytes_ s) (buf_list_ s) (bufs s)))).
  { unfold make_room. replace (max_ s <=? size_ s) with true by lia. by replace (merged_size_ s + 1 <? max_ s) with false by lia. }
  eexists. split; [destruct p; cbn; unfold append_nocopy, append_copy; rewrite E; reflexivity|]. split; [|done]. split; cbn; lia.
Qed.
Lemma overflow_all ps : forall s, overflowed s -> exists s', append_all ps s = Some s' /\ overflowed s' /\ max_ s' = max_ s.
Proof.
  induction ps as [|p ps IH]; intros s Ho; cbn [append_all]; [by exists s|]. destruct (overflow_stays s p Ho) as (s1 & -> & O1 & M1). cbn [mbind option_bind].
  destruct (IH s1 O1) as (s' & E & O' & M'). exists s'. split_and!; [done|exact O'|congruence].
Qed.

Lemma append_all_ok ps : forall s w n, stream_ok s w n -> len w + len (concat (piece_bytes <$> ps)) < 2 ^ 63 -> exists s', append_all ps s = Some s' /\ max_ s' = max_ s /\
  (stream_ok s' (w ++ concat (piece_bytes <$> ps)) (n + len ps) \/ overflowed s' /\ max_ s * (max_ s + 1) < 2 * (n + len ps)).
Proof.
  induction ps as [|p ps IH]; intros s w n So Hl; cbn [append_all fmap list_fmap concat length] in *.
  - exists s. split_and!; [done|done|left]. by rewrite app_nil_r, Z.add_0_r.
  - rewrite length_app in Hl. destruct (append_ok s w n p So) as (s1 & -> & M1 & [So1|[O1 E1]]); [lia|..]; cbn [mbind option_bind].
    + destruct (IH s1 _ _ So1) as (s' & E & M' & D); [rewrite length_app; lia|]. exists s'. split_and!; [done|congruence|].
      rewrite <- app_assoc in D. rewrite M1 in D. replace (n + 1 + len ps) with (n + Z.of_nat (S (length ps))) in D by lia. exact D.
    + destruct (overflow_all ps s1 O1) as (s' & E & O' & M'). exists s'. split_and!; [done|congruence|]. right. split; [done|lia].
Qed.

Lemma contents_ok s w n : stream_ok s w n -> contents s = Some w.
Proof.
  intros [_ _ (ps & P1 & P2 & _) _ _ _ _ _]. unfold contents. assert (E : mapM (read_iov (bufs s)) (take (Z.to_nat (size_ s)) (vec_ s)) = Some ps).
  { apply mapM_Some. eapply Forall2_impl; [exact P1|]. by intros v bs (H & _). }
  rewrite E. cbn [mbind option_bind]. by rewrite P2.
Qed.

(** ** The buffers and their list *)

(** Every buffer is in the list, once. *)
Definition listed (s : stream) : Prop := NoDup (buf_list_ s) /\ (forall b, b ∈ buf_list_ s <-> is_Some (bufs s !! b)).

Lemma listed_new l (B : gmap loc ebuf) b x : NoDup l -> (forall c, c ∈ l <-> is_Some (B !! c)) -> B !! b = None ->
  b ∉ l /\ (forall c, c = b \/ c ∈ l <-> is_Some (<[b := x]> B !! c)).
Proof.
  intros Nd Hl Hb. split; [intros H; apply Hl in H as [? ?]; congruence|]. intros c. rewrite Hl. destruct (decide (c = b)) as [->|Hne].
  - rewrite lookup_insert_eq. split; [done|by left].
  - rewrite lookup_insert_ne by done. split; [by intros [?|?]|by right].
Qed.
Lemma listed_update s b x : listed s -> b ∈ buf_list_ s -> forall c, c ∈ buf_list_ s <-> is_Some (<[b := x]> (bufs s) !! c).
Proof.
  intros [_ H] Hb c. destruct (decide (c = b)) as [->|Hne]; [rewrite lookup_insert_eq; split; [done|by intros _]|by rewrite lookup_insert_ne].
Qed.
Lemma merge_listed s s' : listed s -> merge s = Some s' -> listed s'.
Proof.
  intros [Nd Hl]. unfold merge. destruct (merge_loop _ _ _ _ _) as [dst|]; [|done]. cbn [mbind option_bind]. destruct (set_vec _ _ _) as [v|]; [|done]. cbn [mbind option_bind]. intros [= <-].
  destruct (listed_new _ _ _ (mk_ebuf (ALIGN (u64 (bytes_ s - merged_bytes_ s)) 8) dst) Nd Hl (fresh_none (bufs s))) as [N1 N2].
  split; cbn; [by constructor|]. intros c. rewrite elem_of_cons. apply N2.
Qed.
Lemma room_listed s r : listed s -> make_room s = Some r -> match r with inl s' | inr s' => listed s' end.
Proof.
  intros H. unfold make_room. destruct (max_ s <=? size_ s); [|by intros [= <-]]. destruct (merged_size_ s + 1 <? max_ s); [|by intros [= <-]].
  destruct (merge s) as [s'|] eqn:E; [|done]. cbn. intros [= <-]. by eapply merge_listed.
Qed.
Lemma take_buf_listed n s b x s' : listed s -> take_buf n s = Some (b, x, s') -> listed s' /\ last (buf_list_ s') = Some b.
Proof.
  intros [Nd Hl]. unfold take_buf. set (b0 := fresh (dom (bufs s))).
  destruct (listed_new _ _ b0 (mk_ebuf 0 (new_data n)) Nd Hl (fresh_none (bufs s))) as [N1 N2].
  assert (New : listed (with_bufs (buf_list_ s ++ [b0]) (<[b0 := mk_ebuf 0 (new_data n)]> (bufs s)) s)).
  { split; cbn; [rewrite <- Permutation_cons_append; by constructor|]. intros c. rewrite elem_of_app, list_elem_of_singleton. rewrite <- N2. tauto. }
  destruct (last (buf_list_ s)) as [b1|] eqn:El.
  - destruct (bufs s !! b1) as [x1|]; [|done]. cbn [mbind option_bind]. destruct (_ <? _); intros [= <- <- <-]; [|done]. split; [done|]. cbn. by rewrite last_snoc.
  - intros [= <- <- <-]. split; [done|]. cbn. by rewrite last_snoc.
Qed.
Lemma push_lists v s s' : push v s = Some s' -> buf_list_ s' = buf_list_ s /\ bufs s' = bufs s.
Proof. unfold push. destruct (set_vec _ _ _); [|done]. cbn. by intros [= <-]. Qed.
Lemma append_listed p s s' : listed s -> append p s = Some s' -> listed s'.
Proof.
  intros H. destruct p as [bs|bs]; cbn [append]; unfold append_nocopy, append_copy; destruct (make_room s) as [r|] eqn:Er; try done; cbn [mbind option_bind]; pose proof (room_listed _ _ H Er) as Hr.
  - destruct r as [s1|s1]; [|by intros [= <-]]. intros E. destruct (push_lists _ _ _ E) as [E1 E2]. unfold listed. by rewrite E1, E2.
  - destruct r as [s1|s1]; [|by intros [= <-]]. destruct (take_buf (len bs) s1) as [[[b x] s2]|] eqn:Et; [|done]. cbn [mbind option_bind].
    destruct (take_buf_listed _ _ _ _ _ Hr Et) as [H2 Hlast]. destruct (write (pos x) bs (data x)) as [d|]; [|done]. cbn [mbind option_bind].
    destruct (push _ _) as [s3|] eqn:Ep; [|done]. cbn [mbind option_bind]. destruct (push_lists _ _ _ Ep) as [E1 E2]. cbn in E1, E2. rewrite E1, E2. intros [= <-].
    rewrite insert_insert_eq. apply last_Some in Hlast as [l El]. assert (Hb : b ∈ buf_list_ s2) by (rewrite El; apply elem_of_app; right; by left).
    pose proof (listed_update s2 b (mk_ebuf (pos x + ALIGN (len bs) 8) d) H2 Hb) as Hu. destruct H2 as [Nd _]. split; cbn; [|intros c; rewrite <- Hu].
    + destruct (_ <=? _); [|done]. rewrite El in *. rewrite removelast_last. by rewrite Permutation_cons_append.
    + destruct (_ <=? _); [|done]. rewrite El, removelast_last, elem_of_app, elem_of_cons, list_elem_of_singleton. tauto.
Qed.
Lemma append_all_listed ps : forall s s', listed s -> append_all ps s = Some s' -> listed s'.
Proof.
  induction ps as [|p ps IH]; cbn [append_all]; intros s s' H E; [by injection E as <-|]. destruct (append p s) as [s1|] eqn:E1; [|done]. cbn in E.
  eapply IH; [|exact E]. by eapply append_listed.
Qed.
Lemma clear_loop_ok l : forall s, NoDup l -> buf_list_ s = l -> (forall b, b ∈ l <-> is_Some (bufs s !! b)) ->
  clear_loop l s = Some (with_bufs [] ∅ s).
Proof.
  induction l as [|b l IH]; intros s Nd Hl H; cbn [clear_loop].
  - assert (E : bufs s = ∅) by (apply map_empty; intros c; destruct (bufs s !! c) eqn:Ec; [|done]; by destruct (proj1 (elem_of_nil c) (proj2 (H c) (mk_is_Some _ _ Ec)))).
    destruct s; cbn in *. by subst.
  - apply NoDup_cons in Nd as [Nb Nd]. destruct (proj1 (H b)) as [x Hx]; [by left|]. rewrite Hx. cbn [mbind option_bind].
    assert (Ef : filter (fun c => c <> b) (buf_list_ s) = l).
    { rewrite Hl, filter_cons_False by tauto. by apply filter_ne_id. }
    rewrite IH; [done|done|exact Ef|]. intros c. cbn. destruct (decide (c = b)) as [->|Hne]; [rewrite lookup_delete_eq; split; [done|by intros []]|].
    rewrite lookup_delete_ne by done. rewrite <- H, elem_of_cons. tauto.
Qed.

(** C33. Whatever is appended to a stream of [m] vectors, by reference or by copy: nothing
    is read or written outside the buffers, and up to [m (m + 1) / 2] pieces the
    vectors, at most [m], refer to exactly the bytes appended, in order, and
    [bytes] is their number; only with more pieces the stream overflows and
    reports [m + 1] vectors.  [reset] then frees every buffer, once, and gives an empty stream. *)
Theorem encode_stream_correct vectors ps : vectors <> [] -> len (concat (piece_bytes <$> ps)) < 2 ^ 63 ->
  let m := len vectors in exists s, append_all ps (new_stream vectors) = Some s /\
  (if decide (2 * len ps <= m * (m + 1)) then size_ s <= m /\ contents s = Some (concat (piece_bytes <$> ps)) /\ bytes_ s = len (concat (piece_bytes <$> ps))
  else size_ s = m + 1) /\ (forall vectors', reset vectors' s = Some (new_stream vectors')).
Proof.
  intros Hv Hl m. assert (Hm : 0 < m) by (unfold m; destruct vectors; [done|cbn; lia]).
  assert (So : stream_ok (new_stream vectors) [] 0).
  { constructor; cbn [vec_ max_ size_ bytes_ merged_size_ merged_bytes_ buf_list_ bufs new_stream]; try done.
    - fold m. lia.
    - exists []. split_and!; [constructor|done|done].
    - by intros b ?%not_elem_of_nil.
    - fold m. lia. }
  destruct (append_all_ok ps _ [] 0 So Hl) as (s & E & M & D). exists s. split; [done|]. split.
  2:{ intros vectors'. assert (L : listed s). { eapply append_all_listed; [|exact E]. split; cbn; [constructor|]. intros b. rewrite lookup_empty. split; [by intros ?%elem_of_nil|by intros []]. }
      destruct L as [L1 L2]. unfold reset, clear_buf_data. by rewrite (clear_loop_ok _ s L1 eq_refl L2). }
  cbn [max_ new_stream] in M, D. fold m in M, D. rewrite Z.add_0_l in D.
  destruct D as [D|[[O1 O2] D]].
  - pose proof D as [_ S2 _ S4 _ _ _ S8]. rewrite decide_True by nia. split_and!; [lia|by eapply contents_ok|done].
  - rewrite decide_False by lia. lia.
Qed.
Lemma encode_stream_correct_witness : exists s,
  append_all [PNocopy [1; 2]; PCopy [3]; PCopy [4; 5]] (new_stream [mk_iov (BClient []) 0; mk_iov (BClient []) 0]) = Some s /\ contents s = Some [1; 2; 3; 4; 5].
Proof.
  destruct (encode_stream_correct [mk_iov (BClient []) 0; mk_iov (BClient []) 0] [PNocopy [1; 2]; PCopy [3]; PCopy [4; 5]]) as (s & E & D & _); [done|done|].
  exists s. split; [exact E|]. rewrite decide_True in D by (cbn; lia). apply D.
Defined.
