(* ===== verification/Executor.v ===== *)
(** * The executor: [src/kernel/Executor.cc]

    A session is put into a queue; one task of the thread pool serves a queue that is
    not empty.  The task takes the first session, gives itself back to the pool when
    the queue has more, and only then runs the session, so that sessions of a queue
    start in order and may run at the same time.

    [entries] are the sessions of all queues in the order of the requests, with the
    queue and the block ([struct ExecSessionEntry]) of each; the list of one queue is
    what it has of them.  [pool] are the tasks the pool holds, each with its block: by
    the contract of the thread pool each of them is run once or given to
    [executor_cancel] once, in any order.  A step is what happens between two
    operations on the mutex of the queue; [readers] are the tasks that have read
    [session_list.next], which they do without the mutex.  [mem] are the blocks in use.
    [accepted], [begun], [finished] and [canceled] record what happened. *)

From S2P Require Import Prelude RBTree.

Local Open Scope nat_scope.

Record entry := mk_entry { e_queue : loc; e_block : loc; e_session : loc }.

Record exec := mk_exec {
  entries : list entry;
  pool : list (loc * loc);
  readers : list (loc * loc);
  running : list loc;
  mem : gset loc;
  accepted : list (loc * loc);
  begun : list (loc * loc);
  finished : list loc;
  canceled : list loc }.

Definition of_queue (q : loc) (l : list entry) : list entry := filter (fun e => e_queue e = q) l.
(** [session_list.next] *)
Definition first_of (q : loc) (l : list entry) : option entry := head (of_queue q l).
(** [list_del(&entry->list)] *)
Definition del_entry (b : loc) (l : list entry) : list entry := filter (fun e => e_block e <> b) l.

(** [Executor::request] that succeeds; [t] is the block of the task, if one is scheduled. *)
Definition request (q b t s : loc) (x : exec) : exec :=
  let l := entries x ++ [mk_entry q b s] in
  if decide (of_queue q (entries x) = [])
  then mk_exec l (pool x ++ [(t, q)]) (readers x) (running x) ({[b; t]} ∪ mem x) (accepted x ++ [(q, s)]) (begun x) (finished x) (canceled x)
  else mk_exec l (pool x) (readers x) (running x) ({[b]} ∪ mem x) (accepted x ++ [(q, s)]) (begun x) (finished x) (canceled x).

(** The pool starts a task: its block is freed, the routine reads the first entry. *)
Definition routine_read (p1 p2 : list (loc * loc)) (t q : loc) (e : entry) (x : exec) : exec :=
  mk_exec (entries x) (p1 ++ p2) ((q, e_block e) :: readers x) (running x) (mem x ∖ {[t]}) (accepted x) (begun x) (finished x) (canceled x).

(** [list_del], [list_empty] under the mutex; the block becomes the next task or is freed. *)
Definition routine_start (r1 r2 : list (loc * loc)) (q b s : loc) (x : exec) : exec :=
  let l := del_entry b (entries x) in
  if decide (of_queue q l = [])
  then mk_exec l (pool x) (r1 ++ r2) (s :: running x) (mem x ∖ {[b]}) (accepted x) (begun x ++ [(q, s)]) (finished x) (canceled x)
  else mk_exec l (pool x ++ [(b, q)]) (r1 ++ r2) (s :: running x) (mem x) (accepted x) (begun x ++ [(q, s)]) (finished x) (canceled x).

(** [session->execute()] and [session->handle(ES_STATE_FINISHED, 0)] *)
Definition routine_end (l1 l2 : list loc) (s : loc) (x : exec) : exec :=
  mk_exec (entries x) (pool x) (readers x) (l1 ++ l2) (mem x) (accepted x) (begun x) (s :: finished x) (canceled x).

(** [executor_cancel], and the block of the task is freed. *)
Definition executor_cancel (p1 p2 : list (loc * loc)) (t q : loc) (x : exec) : exec :=
  let l := of_queue q (entries x) in
  mk_exec (filter (fun e => e_queue e <> q) (entries x)) (p1 ++ p2) (readers x) (running x) (mem x ∖ ({[t]} ∪ list_to_set (e_block <$> l)))
    (accepted x) (begun x ++ ((fun e => (q, e_session e)) <$> l)) (finished x) ((e_session <$> l) ++ canceled x).

Inductive xstep : exec -> exec -> Prop :=
  | xs_request q b t s x : b ∉ mem x -> t ∉ mem x -> b <> t -> xstep x (request q b t s x)
  (* [malloc] or [thrdpool_schedule] fails: the entry is taken back *)
  | xs_request_fail x : xstep x x
  | xs_read p1 p2 t q e x : pool x = p1 ++ (t, q) :: p2 -> first_of q (entries x) = Some e -> xstep x (routine_read p1 p2 t q e x)
  | xs_start r1 r2 q b e x : readers x = r1 ++ (q, b) :: r2 -> e ∈ entries x -> e_block e = b -> xstep x (routine_start r1 r2 q b (e_session e) x)
  | xs_end l1 l2 s x : running x = l1 ++ s :: l2 -> xstep x (routine_end l1 l2 s x)
  (* the pool is destroyed: its threads have ended *)
  | xs_cancel p1 p2 t q x : pool x = p1 ++ (t, q) :: p2 -> readers x = [] -> xstep x (executor_cancel p1 p2 t q x).

Definition exec_init : exec := mk_exec [] [] [] [] ∅ [] [] [] [].
Inductive xreach : exec -> Prop :=
  | xreach_init : xreach exec_init
  | xreach_step a b : xreach a -> xstep a b -> xreach b.

(** ** The invariant *)

(** The tasks that serve a queue. *)
Definition serving (q : loc) (x : exec) : nat := length (filter (fun p => p.2 = q) (pool x)) + length (filter (fun p => p.1 = q) (readers x)).
Definition pair_of (e : entry) : loc * loc := (e_queue e, e_session e).

Record exec_ok (x : exec) : Prop := mk_exec_ok {
  xo_serving : forall q, serving q x = if decide (of_queue q (entries x) = []) then 0 else 1;
  xo_reader : forall q b, (q, b) ∈ readers x -> exists e, first_of q (entries x) = Some e /\ e_block e = b;
  xo_blocks : NoDup ((e_block <$> entries x) ++ (pool x).*1);
  xo_mem : forall b, b ∈ mem x <-> b ∈ (e_block <$> entries x) ++ (pool x).*1;
  xo_order : forall q, filter (fun p => p.1 = q) (accepted x) = filter (fun p => p.1 = q) (begun x) ++ (pair_of <$> of_queue q (entries x));
  xo_begun : (begun x).*2 ≡ₚ running x ++ finished x ++ canceled x }.

Lemma of_queue_app q l1 l2 : of_queue q (l1 ++ l2) = of_queue q l1 ++ of_queue q l2.
Proof. apply filter_app. Qed.
Lemma of_queue_one q e : of_queue q [e] = if decide (e_queue e = q) then [e] else [].
Proof. unfold of_queue. rewrite filter_cons. by destruct (decide _). Qed.
Lemma of_queue_in q e l : e ∈ of_queue q l <-> e_queue e = q /\ e ∈ l.
Proof. unfold of_queue. by rewrite list_elem_of_filter. Qed.
Lemma first_split q l e : first_of q l = Some e -> exists l1 l2, l = l1 ++ e :: l2 /\ of_queue q l1 = [] /\ e_queue e = q.
Proof.
  unfold first_of. induction l as [|d l IH]; [done|]. unfold of_queue in *. rewrite filter_cons. destruct (decide (e_queue d = q)) as [Hd|Hd]; cbn.
  - intros [= <-]. by exists [], l.
  - intros H. destruct (IH H) as (l1 & l2 & -> & E & Q). exists (d :: l1), l2. split_and!; [done| |done]. by rewrite filter_cons_False.
Qed.

(** Counting the tasks of a queue. *)
Lemma filter_len_mid {A} (P : A -> Prop) `{!forall x, Decision (P x)} l1 x l2 :
  length (filter P (l1 ++ x :: l2)) = (if decide (P x) then 1 else 0) + length (filter P (l1 ++ l2)).
Proof. rewrite !filter_app, filter_cons, !length_app. destruct (decide (P x)); cbn; lia. Qed.
Lemma filter_len_snoc {A} (P : A -> Prop) `{!forall x, Decision (P x)} l x : length (filter P (l ++ [x])) = (if decide (P x) then 1 else 0) + length (filter P l).
Proof. rewrite filter_app, filter_cons, length_app. destruct (decide (P x)); cbn; lia. Qed.
Lemma filter_len_in {A} (P : A -> Prop) `{!forall x, Decision (P x)} l x : x ∈ l -> P x -> 1 <= length (filter P l).
Proof. intros [l1 [l2 ->]]%list_elem_of_split Hx. rewrite filter_len_mid, decide_True by done. lia. Qed.

Lemma first_app q l l' e : first_of q l = Some e -> first_of q (l ++ l') = Some e.
Proof. unfold first_of. rewrite of_queue_app. by destruct (of_queue q l). Qed.
Lemma first_some q l : of_queue q l <> [] -> exists e, first_of q l = Some e.
Proof. unfold first_of. destruct (of_queue q l); [done|]. by eexists. Qed.

(** A queue that a task of the pool or a reader serves is not empty. *)
Lemma served x q : exec_ok x -> 1 <= serving q x -> of_queue q (entries x) <> [].
Proof. intros Ok H E. rewrite (xo_serving _ Ok), decide_True in H by done. lia. Qed.
Lemma pool_served x t q : (t, q) ∈ pool x -> 1 <= serving q x.
Proof. intros H. unfold serving. pose proof (filter_len_in (fun p : loc * loc => p.2 = q) _ _ H eq_refl). lia. Qed.
Lemma reader_served x b q : (q, b) ∈ readers x -> 1 <= serving q x.
Proof. intros H. unfold serving. pose proof (filter_len_in (fun p : loc * loc => p.1 = q) _ _ H eq_refl). lia. Qed.

Lemma request_ok q b t s x : exec_ok x -> b ∉ mem x -> t ∉ mem x -> b <> t -> exec_ok (request q b t s x).
Proof.
  intros Ok Hb Ht Hne. pose proof Ok as [O1 O2 O3 O4 O5 O6]. rewrite O4 in Hb, Ht. unfold request. set (e := mk_entry q b s).
  assert (Rd : forall q' b', (q', b') ∈ readers x -> exists e0, first_of q' (entries x ++ [e]) = Some e0 /\ e_block e0 = b').
  { intros q' b' H. destruct (O2 _ _ H) as (e0 & E1 & E2). exists e0. split; [by apply first_app|done]. }
  assert (Or : forall q', filter (fun p => p.1 = q') (accepted x ++ [(q, s)]) = filter (fun p => p.1 = q') (begun x) ++ (pair_of <$> of_queue q' (entries x ++ [e]))).
  { intros q'. rewrite filter_app, O5, <- app_assoc, of_queue_app, fmap_app, of_queue_one. cbn [e_queue e]. f_equal. f_equal. rewrite filter_cons. cbn. by destruct (decide (q = q')). }
  destruct (decide (of_queue q (entries x) = [])) as [Eq|Eq]; constructor; cbn [entries pool readers running mem accepted begun finished canceled]; try done.
  - intros q'. unfold serving. cbn [pool readers]. rewrite filter_len_snoc, of_queue_app, of_queue_one. cbn [snd e_queue e]. pose proof (O1 q') as H. unfold serving in H.
    destruct (decide (q = q')) as [->|Hq]; [|rewrite app_nil_r; exact H]. rewrite decide_True in H by done. rewrite Eq, decide_False by done. lia.
  - rewrite fmap_app, fmap_app. cbn [fmap list_fmap e_block e]. rewrite <- !app_assoc. cbn.
    assert (P : (e_block <$> entries x) ++ b :: (pool x).*1 ++ [t] ≡ₚ b :: t :: (e_block <$> entries x) ++ (pool x).*1) by solve_Permutation.
    rewrite P. rewrite !NoDup_cons. split_and!; [rewrite elem_of_cons; naive_solver|done|done].
  - intros b'. rewrite !elem_of_union, !elem_of_singleton, O4, !fmap_app, !elem_of_app. cbn [fmap list_fmap e_block e fst]. rewrite !list_elem_of_singleton. tauto.
  - intros q'. unfold serving. cbn [pool readers]. rewrite of_queue_app, of_queue_one. cbn [e_queue e]. pose proof (O1 q') as H. unfold serving in H.
    destruct (decide (q = q')) as [->|Hq]; [|rewrite app_nil_r; exact H]. rewrite decide_False in H by done. rewrite decide_False by (by destruct (of_queue q' (entries x))). exact H.
  - rewrite fmap_app. cbn [fmap list_fmap e_block e]. rewrite <- !app_assoc. cbn.
    assert (P : (e_block <$> entries x) ++ b :: (pool x).*1 ≡ₚ b :: (e_block <$> entries x) ++ (pool x).*1) by solve_Permutation.
    rewrite P. rewrite NoDup_cons. by split.
  - intros b'. rewrite elem_of_union, elem_of_singleton, O4, fmap_app, !elem_of_app. cbn [fmap list_fmap e_block e]. rewrite list_elem_of_singleton. tauto.
Qed.

Lemma read_ok p1 p2 t q e x : exec_ok x -> pool x = p1 ++ (t, q) :: p2 -> first_of q (entries x) = Some e -> exec_ok (routine_read p1 p2 t q e x).
Proof.
  intros Ok Hp He. pose proof Ok as [O1 O2 O3 O4 O5 O6]. unfold routine_read. constructor; cbn [entries pool readers running mem accepted begun finished canceled]; try done.
  - intros q'. rewrite <- O1. unfold serving. cbn [pool readers]. rewrite Hp, filter_len_mid, filter_cons. cbn [fst snd]. destruct (decide (q = q')); cbn [length]; lia.
  - intros q' b [[= -> ->]|H]%elem_of_cons; [by exists e|by apply O2].
  - rewrite Hp, fmap_app in O3. cbn in O3. rewrite fmap_app. rewrite !app_assoc in *. by apply NoDup_middle_iff in O3 as (_ & _ & ?).
  - intros b. rewrite elem_of_difference, elem_of_singleton, O4, Hp, !fmap_app, !elem_of_app. cbn. rewrite elem_of_cons.
    rewrite Hp, fmap_app in O3. cbn in O3. rewrite app_assoc in O3. apply NoDup_middle_iff in O3 as (N1 & N2 & _). rewrite elem_of_app in N1. naive_solver.
Qed.

Lemma del_entry_mid l1 e l2 : NoDup (e_block <$> l1 ++ e :: l2) -> del_entry (e_block e) (l1 ++ e :: l2) = l1 ++ l2.
Proof.
  rewrite fmap_app. cbn. intros (N1 & N2 & _)%NoDup_middle_iff. unfold del_entry. rewrite filter_app, filter_cons_False by tauto.
  assert (K : forall l : list entry, e_block e ∉ e_block <$> l -> filter (fun d => e_block d <> e_block e) l = l).
  { induction l as [|d l IH]; [done|]. cbn [fmap list_fmap]. rewrite not_elem_of_cons. intros [H1 H2]. rewrite filter_cons_True by congruence. by rewrite IH. }
  by rewrite !K.
Qed.
(** A block has one entry. *)
Lemma block_entry l d e : NoDup (e_block <$> l) -> d ∈ l -> e ∈ l -> e_block d = e_block e -> d = e.
Proof.
  intros Nd [i Hi]%list_elem_of_lookup [j Hj]%list_elem_of_lookup E. assert (i = j); [|congruence].
  eapply NoDup_lookup; [exact Nd|rewrite list_lookup_fmap, Hi; reflexivity|rewrite list_lookup_fmap, Hj; cbn; by rewrite E].
Qed.
Lemma first_in q l e : first_of q l = Some e -> e ∈ l.
Proof. intros H. destruct (first_split _ _ _ H) as (l1 & l2 & -> & _). apply elem_of_app. right. constructor. Qed.

(** Another queue does not see that an entry is removed. *)
Lemma of_queue_mid q l1 e l2 : e_queue e <> q -> of_queue q (l1 ++ e :: l2) = of_queue q (l1 ++ l2).
Proof. intros H. rewrite !of_queue_app. f_equal. unfold of_queue. by rewrite filter_cons_False. Qed.

Lemma start_ok r1 r2 q b e x : exec_ok x -> readers x = r1 ++ (q, b) :: r2 -> e ∈ entries x -> e_block e = b -> exec_ok (routine_start r1 r2 q b (e_session e) x).
Proof.
  intros Ok Hr He Hb. pose proof Ok as [O1 O2 O3 O4 O5 O6]. destruct (O2 q b) as (e' & Ef & Eb); [rewrite Hr; apply elem_of_app; right; constructor|].
  pose proof O3 as (N1 & N2 & N3)%NoDup_app_inv. assert (e' = e) as -> by (apply (block_entry (entries x)); [done|by eapply first_in|done|congruence]).
  destruct (first_split _ _ _ Ef) as (l1 & l2 & El & E1 & Eq). unfold routine_start. rewrite El in N1. rewrite El, <- Hb, (del_entry_mid l1 e l2) by done.
  assert (Hq : of_queue q (entries x) = e :: of_queue q (l1 ++ l2)).
  { rewrite El, !of_queue_app, E1. cbn [app]. unfold of_queue at 1. by rewrite filter_cons_True. }
  assert (Hq' : forall q', q' <> q -> of_queue q' (l1 ++ l2) = of_queue q' (entries x)) by (intros q' Hne; rewrite El; symmetry; apply of_queue_mid; congruence).
  assert (Sv : length (filter (fun p => p.1 = q) (r1 ++ r2)) = 0 /\ length (filter (fun p => p.2 = q) (pool x)) = 0).
  { pose proof (O1 q) as H. unfold serving in H. rewrite Hr, filter_len_mid, decide_True, Hq, decide_False in H by done. lia. }
  destruct Sv as [Sv1 Sv2].
  assert (Rd : forall q' b', (q', b') ∈ r1 ++ r2 -> exists e0, first_of q' (l1 ++ l2) = Some e0 /\ e_block e0 = b').
  { intros q' b' H. assert (q' <> q). { intros ->. pose proof (filter_len_in (fun p : loc * loc => p.1 = q) _ _ H eq_refl). lia. }
    unfold first_of. rewrite Hq' by done. apply O2. rewrite Hr, elem_of_app, elem_of_cons. apply elem_of_app in H. tauto. }
  assert (Or : forall q', filter (fun p => p.1 = q') (accepted x) = filter (fun p => p.1 = q') (begun x ++ [(q, e_session e)]) ++ (pair_of <$> of_queue q' (l1 ++ l2))).
  { intros q'. rewrite O5, filter_app, filter_cons. cbn [fst]. destruct (decide (q = q')) as [<-|Hne]; [|rewrite filter_nil, app_nil_r, Hq' by done; done].
    rewrite Hq, <- app_assoc. cbn. unfold pair_of at 1. by rewrite Eq. }
  assert (Bg : (begun x ++ [(q, e_session e)]).*2 ≡ₚ (e_session e :: running x) ++ finished x ++ canceled x).
  { rewrite fmap_app, O6. cbn. by rewrite Permutation_app_comm. }
  assert (So : forall q', length (filter (fun p => p.2 = q') (pool x)) + length (filter (fun p => p.1 = q') (r1 ++ r2)) =
    if decide (q' = q) then 0 else if decide (of_queue q' (l1 ++ l2) = []) then 0 else 1).
  { intros q'. destruct (decide (q' = q)) as [->|Hne]; [lia|]. rewrite Hq' by done. rewrite <- O1. unfold serving. rewrite Hr, filter_len_mid, decide_False by (cbn; congruence). lia. }
  rewrite El, fmap_app in O3. cbn in O3. rewrite <- app_assoc in O3. cbn in O3. apply NoDup_middle_iff in O3 as (M1 & M2 & M3). rewrite app_assoc, <- fmap_app in M3.
  assert (Mm : forall b', b' ∈ mem x <-> b' = e_block e \/ b' ∈ (e_block <$> l1 ++ l2) ++ (pool x).*1).
  { intros b'. rewrite O4, El, !fmap_app, !elem_of_app. cbn. rewrite elem_of_cons. tauto. }
  rewrite !elem_of_app in M2.
  destruct (decide (of_queue q (l1 ++ l2) = [])) as [Em|Em]; constructor; cbn [entries pool readers running mem accepted begun finished canceled]; try done.
  - intros q'. unfold serving. cbn [pool readers]. rewrite So. destruct (decide (q' = q)) as [->|]; [by rewrite decide_True|done].
  - intros b'. rewrite elem_of_difference, elem_of_singleton, Mm. split; [naive_solver|]. intros H. split; [by right|]. intros ->.
    rewrite fmap_app, !elem_of_app in H. naive_solver.
  - intros q'. unfold serving. cbn [pool readers]. rewrite filter_len_snoc, <- Nat.add_assoc, So. cbn [snd]. destruct (decide (q' = q)) as [->|Hne].
    + rewrite decide_True, decide_False by done. lia.
    + rewrite decide_False by congruence. lia.
  - rewrite (fmap_app fst (pool x)). cbn [fmap list_fmap fst]. rewrite app_assoc. apply NoDup_middle_iff. rewrite app_nil_r. split_and!; [|by apply not_elem_of_nil|done]. rewrite fmap_app, !elem_of_app. naive_solver.
  - intros b'. rewrite Mm, !fmap_app, !elem_of_app. cbn. rewrite list_elem_of_singleton. tauto.
Qed.

Lemma end_ok l1 l2 s x : exec_ok x -> running x = l1 ++ s :: l2 -> exec_ok (routine_end l1 l2 s x).
Proof. intros [O1 O2 O3 O4 O5 O6] Hr. constructor; cbn; try done. rewrite O6, Hr. solve_Permutation. Qed.

Lemma queue_split q l : l ≡ₚ of_queue q l ++ filter (fun e => e_queue e <> q) l.
Proof.
  induction l as [|e l IH]; [done|]. unfold of_queue in *. rewrite !filter_cons. destruct (decide (e_queue e = q)) as [Hq|Hq].
  - rewrite decide_False by tauto. cbn. by rewrite <- IH.
  - rewrite decide_True by done. rewrite <- Permutation_middle. by rewrite <- IH.
Qed.

Lemma cancel_ok p1 p2 t q x : exec_ok x -> pool x = p1 ++ (t, q) :: p2 -> readers x = [] -> exec_ok (executor_cancel p1 p2 t q x).
Proof.
  intros Ok Hp Hr. pose proof Ok as [O1 O2 O3 O4 O5 O6]. unfold executor_cancel. set (l := filter (fun e => e_queue e <> q) (entries x)).
  assert (Hq : of_queue q l = []).
  { apply elem_of_nil_inv. intros e [E [H _]%list_elem_of_filter]%of_queue_in. done. }
  assert (Hq' : forall q', q' <> q -> of_queue q' l = of_queue q' (entries x)).
  { intros q' Hne. unfold l, of_queue. rewrite list_filter_filter. apply list_filter_iff. intros e. naive_solver. }
  assert (Sv : length (filter (fun p => p.2 = q) (p1 ++ p2)) = 0).
  { pose proof (O1 q) as H. unfold serving in H. rewrite Hp, filter_len_mid, decide_True in H by done. destruct (decide _) in H; lia. }
  assert (Pe : e_block <$> entries x ≡ₚ (e_block <$> of_queue q (entries x)) ++ (e_block <$> l)).
  { rewrite <- fmap_app. f_equiv. apply queue_split. }
  assert (P0 : (e_block <$> entries x) ++ (pool x).*1 ≡ₚ ((e_block <$> of_queue q (entries x)) ++ [t]) ++ (e_block <$> l) ++ (p1 ++ p2).*1).
  { rewrite Pe, Hp, !fmap_app. cbn. solve_Permutation. }
  rewrite P0 in O3. apply NoDup_app_inv in O3 as (N1 & N2 & N3).
  constructor; cbn [entries pool readers running mem accepted begun finished canceled]; try done.
  - intros q'. unfold serving. cbn [pool readers]. rewrite Hr. cbn. rewrite Nat.add_0_r. destruct (decide (q' = q)) as [->|Hne]; [by rewrite Hq, decide_True|].
    rewrite Hq' by done. rewrite <- O1. unfold serving. rewrite Hp, Hr, filter_len_mid, decide_False by (cbn; congruence). cbn. lia.
  - rewrite Hr. by intros q' b ?%not_elem_of_nil.
  - intros b. rewrite elem_of_difference, elem_of_union, elem_of_singleton, elem_of_list_to_set, O4, P0, (elem_of_app (_ ++ _)). specialize (N3 b). rewrite (elem_of_app _ [t]), list_elem_of_singleton in *. tauto.
  - intros q'. rewrite O5, filter_app. destruct (decide (q' = q)) as [->|Hne].
    + rewrite Hq. cbn. rewrite app_nil_r. f_equal.
      assert (K : forall m, Forall (fun e => e_queue e = q) m -> pair_of <$> m = filter (fun p : loc * loc => p.1 = q) ((fun e => (q, e_session e)) <$> m)).
      { induction 1 as [|e m He _ IH]; [done|]. cbn [fmap list_fmap]. rewrite filter_cons_True by done. rewrite <- IH. unfold pair_of at 1. by rewrite He. }
      apply K. apply Forall_forall. by intros e [? _]%of_queue_in.
    + rewrite Hq' by done. assert (K : forall m, filter (fun p : loc * loc => p.1 = q') ((fun e => (q, e_session e)) <$> m) = []).
      { induction m as [|e m IH]; [done|]. cbn [fmap list_fmap]. by rewrite filter_cons_False by (cbn; congruence). }
      by rewrite K, app_nil_r.
  - rewrite fmap_app, O6, <- list_fmap_compose. change (snd ∘ _) with e_session. solve_Permutation.
Qed.

Lemma xstep_ok x y : exec_ok x -> xstep x y -> exec_ok y.
Proof. intros Ok. destruct 1; eauto using request_ok, read_ok, start_ok, end_ok, cancel_ok. Qed.
Lemma xreach_ok x : xreach x -> exec_ok x.
Proof.
  induction 1 as [|a b _ IH H]; [|by eapply xstep_ok]. constructor; cbn [entries pool readers mem exec_init app fmap list_fmap]; try done.
  - by intros q b ?%not_elem_of_nil.
  - constructor.
  - intros b. rewrite elem_of_empty. by split; [|intros ?%not_elem_of_nil].
Qed.

(** C34. In every state the executor and its clients can reach: a session that was accepted
    waits, runs, has finished or was canceled, each once, and the sessions of
    a queue begin in the order of the requests; a queue that is not empty is
    served by exactly one task, which finds its first entry where it read it without the
    mutex, so that no step of a task is stuck; and the blocks in use are exactly the entries and the
    tasks, none twice: nothing leaks, and the entry that becomes a task is not freed. *)
Theorem executor_correct x : xreach x ->
  (forall q, filter (fun p => p.1 = q) (accepted x) = filter (fun p => p.1 = q) (begun x) ++ (pair_of <$> of_queue q (entries x))) /\
  (begun x).*2 ≡ₚ running x ++ finished x ++ canceled x /\
  (forall q, of_queue q (entries x) <> [] -> serving q x = 1) /\
  (forall t q, (t, q) ∈ pool x -> exists e, first_of q (entries x) = Some e) /\
  (forall q b, (q, b) ∈ readers x -> exists e, first_of q (entries x) = Some e /\ e_block e = b) /\
  NoDup ((e_block <$> entries x) ++ (pool x).*1) /\ (forall b, b ∈ mem x <-> b ∈ (e_block <$> entries x) ++ (pool x).*1).
Proof.
  intros R. pose proof (xreach_ok x R) as Ok. pose proof Ok as [O1 O2 O3 O4 O5 O6]. split_and!; try done.
  - intros q Hq. by rewrite O1, decide_False.
  - intros t q H. apply first_some. apply (served x); [done|by eapply pool_served].
Qed.

(** Two sessions in a queue; the first has begun and its entry is the task for the second. *)
Lemma executor_correct_witness : exists x, xreach x /\ pool x = [(2%positive, 1%positive)] /\ running x = [5%positive] /\ (forall q, of_queue q (entries x) <> [] -> serving q x = 1).
Proof.
  assert (R : xreach (routine_start [] [] 1 2 5 (routine_read [] [] 3 1 (mk_entry 1 2 5) (request 1 4 7 6 (request 1 2 3 5 exec_init))))).
  { eapply xreach_step; [eapply xreach_step; [eapply xreach_step; [eapply xreach_step; [constructor|]|]|]|].
    - apply (xs_request 1 2 3 5); [apply not_elem_of_empty|apply not_elem_of_empty|done].
    - apply (xs_request 1 4 7 6); [cbn; set_solver|cbn; set_solver|done].
    - by apply (xs_read [] [] 3 1 (mk_entry 1 2 5)).
    - apply (xs_start [] [] 1 2 (mk_entry 1 2 5)); [done|constructor|done]. }
  eexists. split; [exact R|]. split; [reflexivity|]. split; [reflexivity|]. apply (executor_correct _ R).
Defined.
