(* ===== verification/OrderedTree.v ===== *)
(** * Ordered trees as the cache uses them

    What a client that keeps nodes in the order of a key needs of a tree: a search that
    ends at the place of a key and gives the first node not before it, linking a new node
    at that place, replacing a node, removing one.  [ordered_tree] states it over the
    sequence of the nodes; the red-black trees of [rbtree.c] are an instance.  The cache
    is verified against the class. *)

From S2P Require Import Prelude RBTree RBInsert RBErase RBSearch.

Local Open Scope nat_scope.

Class ordered_tree (T : Type) := mk_ordered_tree {
  ot_place : Type;
  ot_empty : T;
  (* the nodes in order *)
  ot_seq : T -> list loc -> Prop;
  (* memory for a node appears and goes *)
  ot_new : loc -> T -> T;
  ot_free : loc -> T -> T;
  (* [before x] is true from the place of the key on *)
  ot_bound : (loc -> bool) -> nat -> T -> option ptr;
  ot_search : (loc -> bool) -> nat -> T -> option (ot_place * ptr);
  ot_link : nat -> loc -> ot_place -> T -> option T;
  ot_replace : loc -> loc -> T -> option T;
  ot_erase : nat -> loc -> T -> option T;
  (* how often the loops go round *)
  ot_fuel : nat -> nat;
  ot_seq_empty : ot_seq ot_empty [];
  ot_seq_nodup t l : ot_seq t l -> NoDup l;
  ot_seq_free t l x : ot_seq t l -> x ∉ l -> ot_seq (ot_free x t) l;
  ot_fuel_mono n m : n <= m -> ot_fuel n <= ot_fuel m;
  ot_bound_ok t l1 l2 before fuel : ot_seq t (l1 ++ l2) -> ot_fuel (length (l1 ++ l2)) <= fuel ->
    Forall (fun y => before y = false) l1 -> Forall (fun y => before y = true) l2 -> ot_bound before fuel t = Some (head l2);
  ot_search_ok t l1 l2 before fuel : ot_seq t (l1 ++ l2) -> ot_fuel (length (l1 ++ l2)) <= fuel ->
    Forall (fun y => before y = false) l1 -> Forall (fun y => before y = true) l2 ->
    exists pl, ot_search before fuel t = Some (pl, head l2) /\
      forall x, x ∉ l1 ++ l2 -> exists t', ot_link fuel x pl (ot_new x t) = Some t' /\ ot_seq t' (l1 ++ x :: l2);
  ot_replace_ok t l1 x l2 y : ot_seq t (l1 ++ x :: l2) -> y ∉ l1 ++ x :: l2 ->
    exists t', ot_replace x y (ot_new y t) = Some t' /\ ot_seq t' (l1 ++ y :: l2);
  ot_erase_ok t l1 x l2 fuel : ot_seq t (l1 ++ x :: l2) -> ot_fuel (length (l1 ++ x :: l2)) <= fuel ->
    exists t', ot_erase fuel x t = Some t' /\ ot_seq t' (l1 ++ l2) }.

(** ** The red-black trees *)

(** [while (p) { e = rb_entry(p); if (!(e->key < key)) { bound = e; p = p->rb_left; } else
    p = p->rb_right; }] *)
Fixpoint rb_bound (before : loc -> bool) (fuel : nat) (p bound : ptr) (s : state) : option ptr :=
  match fuel with
  | O => None
  | S fuel =>
      match p with
      | None => Some bound
      | Some x =>
          if before x then l ← get_left x s; rb_bound before fuel l (Some x) s
          else r ← get_right x s; rb_bound before fuel r bound s
      end
  end.

(** The same loop over links, which keeps the parent too. *)
Fixpoint rb_search (before : loc -> bool) (fuel : nat) (parent : ptr) (p : link) (bound : ptr) (s : state) : option (ptr * link * ptr) :=
  match fuel with
  | O => None
  | S fuel =>
      n ← get_link p s;
      match n with
      | None => Some (parent, p, bound)
      | Some x =>
          if before x then rb_search before fuel (Some x) (LLeft x) (Some x) s
          else rb_search before fuel (Some x) (LRight x) bound s
      end
  end.

(** It is the descent and the search for the bound at once. *)
Lemma rb_search_both before s : forall fuel parent p bound x, get_link p s = Some x ->
  rb_search before fuel parent p bound s =
    ('(pa, l) ← rb_descend before fuel parent p s; b ← rb_bound before fuel x bound s; Some (pa, l, b)).
Proof.
  induction fuel as [|fuel IH]; intros parent p bound x Hx; [done|]. cbn [rb_search rb_descend rb_bound]. rewrite Hx. cbn [mbind option_bind].
  destruct x as [x|]; [|done]. destruct (before x).
  - destruct (get_left x s) as [l|] eqn:E; cbn [mbind option_bind]; [by rewrite (IH _ (LLeft x) _ l)|]. destruct fuel; [done|].
    cbn [rb_search rb_descend get_link]. by rewrite E.
  - destruct (get_right x s) as [r|] eqn:E; cbn [mbind option_bind]; [by rewrite (IH _ (LRight x) _ r)|]. destruct fuel; [done|].
    cbn [rb_search rb_descend get_link]. by rewrite E.
Qed.

Lemma rb_bound_ok before s t : forall k l1 l2 bound fuel, is_tree s (plug k t) -> inorder t = l1 ++ l2 ->
  Forall (fun y => before y = false) l1 -> Forall (fun y => before y = true) l2 -> (height t < fuel)%nat ->
  rb_bound before fuel (root_of t) bound s = Some (match head l2 with Some y => Some y | None => bound end).
Proof.
  induction t as [|c l IHl x r IHr]; intros k l1 l2 bound fuel H E H1 H2 Hf; (destruct fuel as [|fuel]; [lia|]); cbn [inorder root_of rb_bound height] in *.
  - symmetry in E. by apply app_nil in E as [-> ->].
  - destruct (app_split_cases _ _ _ _ _ E) as [(l1' & -> & E') | (l2' & -> & E')].
    + apply Forall_app in H1 as [_ [Hx H1]%Forall_cons]. rewrite Hx. cells H. rd. apply (IHr (InR c l x :: k) l1' l2); [done..|lia].
    + apply Forall_app in H2 as [H2 [Hx _]%Forall_cons]. rewrite Hx. cells H. rd.
      rewrite (IHl (InL c x r :: k) l1 l2' (Some x)) by (done || lia). by destruct l2'.
Qed.

Definition rb_new (x : loc) (s : state) : state := mk_state (<[x := mk_rb_node None None None RB_BLACK]> (mem s)) (rb_root s).
Definition rb_free (x : loc) (s : state) : state := mk_state (delete x (mem s)) (rb_root s).
Definition rb_link (fuel : nat) (x : loc) (pl : ptr * link) (s : state) : option state :=
  s ← rb_link_node x pl.1 pl.2 s; rb_insert_color fuel x s.

Lemma rb_new_holds s l x : rb_holds s l -> x ∉ l -> rb_holds (rb_new x s) l.
Proof. intros H Hx. eapply rb_holds_frame; [exact H|done|]. intros q Hq. cbn. apply lookup_insert_ne. congruence. Qed.
Lemma rb_free_holds s l x : rb_holds s l -> x ∉ l -> rb_holds (rb_free x s) l.
Proof. intros H Hx. eapply rb_holds_frame; [exact H|done|]. intros q Hq. cbn. apply lookup_delete_ne. congruence. Qed.

Lemma rb_place_ok s l1 l2 before fuel : rb_holds s (l1 ++ l2) -> rb_fuel (length (l1 ++ l2)) <= fuel ->
  Forall (fun y => before y = false) l1 -> Forall (fun y => before y = true) l2 ->
  exists pl, ('(pa, l, b) ← rb_search before fuel None LRoot None s; Some ((pa, l), b)) = Some (pl, head l2) /\
    forall x, x ∉ l1 ++ l2 -> exists s', rb_link fuel x pl (rb_new x s) = Some s' /\ rb_holds s' (l1 ++ x :: l2).
Proof.
  intros (t & Ht & Hv & E) Hf H1 H2. rewrite <- E in Hf. apply fuel_height in Hf; [|done].
  destruct (descend_ok before s t [] l1 l2 Ht E H1 H2) as (k & Ek & Epre & Epost & Hrun).
  pose proof (ctx_length k Leaf) as Hk. rewrite app_nil_r in *. cbn in Epre, Epost, Hk. rewrite app_nil_r in Epost. rewrite <- Ek in Hk.
  rewrite (rb_search_both _ _ _ _ _ _ (root_of t)) by (cbn; f_equal; apply Ht). cbn in Hrun. rewrite (Hrun fuel) by lia. cbn [mbind option_bind].
  rewrite (rb_bound_ok before s t [] l1 l2 None fuel Ht E H1 H2 Hf). cbn [mbind option_bind]. exists (parent_of k, klink k).
  split; [by destruct (head l2)|]. intros x Hx. assert (Ht' : is_tree (rb_new x s) (plug k Leaf)).
  { rewrite <- Ek. destruct Ht as (Hd & Hr & Hroot). split_and!; [done| |done]. eapply rep_frame; [exact Hr|]. intros q Hq. cbn. apply lookup_insert_ne. rewrite E in Hq. congruence. }
  rewrite <- E, Ek in Hx. rewrite Ek in Hv.
  destruct (link_insert_ok fuel (rb_new x s) k x (mk_rb_node None None None RB_BLACK)) as (s' & t' & E' & T' & V' & I' & _); [lia|done|done|done|cbn; apply lookup_insert_eq|].
  exists s'. split; [exact E'|]. exists t'. split_and!; [done|done|]. by rewrite I', Epre, Epost.
Qed.

#[export] Instance rb_ordered : ordered_tree state.
Proof.
  refine {| ot_place := ptr * link; ot_empty := mk_state ∅ None; ot_seq := rb_holds; ot_new := rb_new; ot_free := rb_free;
    ot_bound := fun before fuel s => rb_bound before fuel (rb_root s) None s;
    ot_search := fun before fuel s => '(pa, l, b) ← rb_search before fuel None LRoot None s; Some ((pa, l), b);
    ot_link := rb_link; ot_replace := rb_replace_node; ot_erase := rb_erase; ot_fuel := rb_fuel |}.
  - exists Leaf. split_and!; [split_and!; [constructor|done|done]|by exists 0; constructor|done].
  - apply rb_holds_nodup.
  - intros t l x. apply rb_free_holds.
  - intros n m H. unfold rb_fuel. pose proof (Nat.log2_le_mono (S n) (S m)). lia.
  - intros s l1 l2 before fuel (t & Ht & Hv & E) Hf H1 H2. rewrite <- E in Hf. apply fuel_height in Hf; [|done]. rewrite (proj2 (proj2 Ht)).
    rewrite (rb_bound_ok before s t [] l1 l2 None fuel Ht E H1 H2 Hf). by destruct (head l2).
  - apply rb_place_ok.
  - intros s l1 x l2 y H Hy. destruct (rb_replace_node_correct (rb_new y s) x y l1 l2) as (s' & E & H' & _); [by apply rb_new_holds|done|cbn; rewrite lookup_insert_eq; by eexists|].
    eauto.
  - intros s l1 x l2 fuel (t & Ht & Hv & E) Hf. rewrite <- E in Hf. apply fuel_height in Hf; [|done].
    destruct (rb_erase_ok fuel s t x l1 l2 Hf Ht Hv E) as (s' & t' & E' & T' & V' & I' & _). exists s'. split; [done|]. by exists t'.
Defined.
