(* ===== verification/LRUCache.v ===== *)
(** * The cache: [src/util/LRUCache.h]

    A handle is in the cache or only in the hands of callers.  The cache counts the
    references to a handle, its own included; the handles in the cache are in an ordered
    tree and in one of two lists, [in_use] when a caller has a reference, [not_use],
    the oldest first, when none has.  A handle that loses its last reference is freed
    and its value given to the deleter.

    [KEY], [VALUE] and the order [key_lt] ([operator<]) are those of the template; the
    tree is any [ordered_tree].  The lists are sequences, as the theorems on [list.h] give them.
    A failed [assert], and the use of a handle that is freed, is [None].  References are
    unbounded integers.  [deleted] records the values given to the deleter. *)

From S2P Require Import Prelude RBTree RBSearch OrderedTree.

Local Open Scope Z_scope.

Section Cache.
Context {KEY VALUE T : Type} `{OT : ordered_tree T} (key_lt : KEY -> KEY -> bool).

Record handle := mk_handle { value : VALUE; key : KEY; in_cache : bool; refs : Z }.

Record lru := mk_lru {
  max_size : Z;
  size_ : Z;
  not_use : list loc;
  in_use : list loc;
  cache_map : T;
  handles : gmap loc handle;
  deleted : list VALUE }.

Definition lru_new : lru := mk_lru 0 0 [] [] ot_empty ∅ [].

Definition set_lists (n i : list loc) (s : lru) : lru := mk_lru (max_size s) (size_ s) n i (cache_map s) (handles s) (deleted s).
Definition set_handles (m : gmap loc handle) (s : lru) : lru := mk_lru (max_size s) (size_ s) (not_use s) (in_use s) (cache_map s) m (deleted s).
Definition set_map (t : T) (s : lru) : lru := mk_lru (max_size s) (size_ s) (not_use s) (in_use s) t (handles s) (deleted s).
Definition set_size (n : Z) (s : lru) : lru := mk_lru (max_size s) n (not_use s) (in_use s) (cache_map s) (handles s) (deleted s).
Definition set_max_size (n : Z) (s : lru) : lru := mk_lru n (size_ s) (not_use s) (in_use s) (cache_map s) (handles s) (deleted s).

(** [list_del] *)
Definition without (e : loc) (l : list loc) : list loc := filter (fun x => x <> e) l.
Definition list_del (e : loc) (s : lru) : lru := set_lists (without e (not_use s)) (without e (in_use s)) s.
(** [list_move_tail] *)
Definition to_in_use (e : loc) (s : lru) : lru := set_lists (without e (not_use s)) (without e (in_use s) ++ [e]) s.
Definition to_not_use (e : loc) (s : lru) : lru := set_lists (without e (not_use s) ++ [e]) (without e (in_use s)) s.

Definition with_refs (n : Z) (h : handle) : handle := mk_handle (value h) (key h) (in_cache h) n.
Definition uncached (h : handle) : handle := mk_handle (value h) (key h) false (refs h).

Definition ref (e : loc) (s : lru) : option lru :=
  h ← handles s !! e;
  let s := if in_cache h && (refs h =? 1) then to_in_use e s else s in
  Some (set_handles (<[e := with_refs (refs h + 1) h]> (handles s)) s).

Definition unref (e : loc) (s : lru) : option lru :=
  h ← handles s !! e;
  if refs h <=? 0 then None
  else
    let n := refs h - 1 in
    let s := set_handles (<[e := with_refs n h]> (handles s)) s in
    if n =? 0 then
      if in_cache h then None
      else Some (mk_lru (max_size s) (size_ s) (not_use s) (in_use s) (ot_free e (cache_map s)) (delete e (handles s)) (value h :: deleted s))
    else Some (if in_cache h && (n =? 1) then to_not_use e s else s).

Definition erase_node (e : loc) (s : lru) : option lru :=
  h ← handles s !! e;
  if in_cache h then unref e (set_size (size_ s - 1) (set_handles (<[e := uncached h]> (handles s)) (list_del e s)))
  else None.

(** How far the loops on the tree go. *)
Definition fuel (s : lru) : nat := ot_fuel (size (handles s)).
(** [!(e->key < key)] *)
Definition not_before (s : lru) (k : KEY) (e : loc) : bool := match handles s !! e with Some h => negb (key_lt (key h) k) | None => false end.
(** [bound && !(key < bound->key)] *)
Definition found (s : lru) (k : KEY) (bound : ptr) : option (option loc) :=
  match bound with
  | None => Some None
  | Some e => h ← handles s !! e; Some (if key_lt k (key h) then None else Some e)
  end.

Definition get (k : KEY) (s : lru) : option (ptr * lru) :=
  b ← ot_bound (not_before s k) (fuel s) (cache_map s);
  r ← found s k b;
  match r with
  | None => Some (None, s)
  | Some e => s ← ref e s; Some (Some e, s)
  end.

(** [rb_erase(&e->rb, &this->cache_map); this->erase_node(e)] *)
Definition drop_node (e : loc) (s : lru) : option lru := t ← ot_erase (fuel s) e (cache_map s); erase_node e (set_map t s).

(** [while (this->size > this->max_size && !list_empty(&this->not_use))] *)
Fixpoint evict (n : nat) (s : lru) : option lru :=
  match n with
  | O => None
  | S n =>
      match not_use s with
      | e :: _ =>
          if max_size s <? size_ s then
            h ← handles s !! e;
            if refs h =? 1 then s ← drop_node e s; evict n s else None
          else Some s
      | [] => Some s
      end
  end.

(** [put] up to [if (this->max_size > 0)]; [e] is the address [new] gives. *)
Definition put_node (k : KEY) (v : VALUE) (e : loc) (s : lru) : option lru :=
  '(pl, b) ← ot_search (not_before s k) (fuel s) (cache_map s);
  r ← found s k b;
  let f := fuel s in
  let s := set_handles (<[e := mk_handle v k true 2]> (handles s)) (set_map (ot_new e (cache_map s)) s) in
  let s := set_size (size_ s + 1) (set_lists (not_use s) (in_use s ++ [e]) s) in
  match r with
  | Some x => t ← ot_replace x e (cache_map s); erase_node x (set_map t s)
  | None => t ← ot_link f e pl (cache_map s); Some (set_map t s)
  end.

Definition put (k : KEY) (v : VALUE) (e : loc) (s : lru) : option lru :=
  s ← put_node k v e s;
  if 0 <? max_size s then evict (S (length (not_use s))) s else Some s.

Definition release (e : loc) (s : lru) : option lru := unref e s.

Definition del (k : KEY) (s : lru) : option lru :=
  '(r, s) ← get k s;
  match r with
  | None => Some s
  | Some e => s ← unref e s; drop_node e s
  end.

(** [list_for_each_safe] of [prune], and of the destructor. *)
Fixpoint prune_loop (l : list loc) (s : lru) : option lru :=
  match l with
  | [] => Some s
  | e :: l => h ← handles s !! e; if refs h =? 1 then s ← drop_node e s; prune_loop l s else None
  end.
Definition prune (s : lru) : option lru := prune_loop (not_use s) s.

Fixpoint destroy_loop (l : list loc) (s : lru) : option lru :=
  match l with
  | [] => Some s
  | e :: l =>
      h ← handles s !! e;
      if in_cache h && (refs h =? 1)
      then s ← unref e (set_handles (<[e := uncached h]> (handles s)) s); destroy_loop l s
      else None
  end.
Definition lru_destroy (s : lru) : option lru := if decide (in_use s = []) then destroy_loop (not_use s) s else None.

(** ** The invariant *)

Definition count (e : loc) (l : list loc) : Z := Z.of_nat (length (filter (fun x => x = e) l)).

(** The handles against the references [held] by callers, the handles [Q] in the cache
    and the values [made] so far. *)
Record core (s : lru) (held Q : list loc) (made : list VALUE) : Prop := mk_core {
  co_cached : forall e h, handles s !! e = Some h -> in_cache h = true <-> e ∈ Q;
  co_live : forall e, e ∈ held \/ e ∈ Q -> is_Some (handles s !! e);
  co_refs : forall e h, handles s !! e = Some h -> refs h = (if in_cache h then 1 else 0) + count e held /\ 0 < refs h;
  co_nodup : NoDup (not_use s ++ in_use s);
  co_lists : not_use s ++ in_use s ≡ₚ Q;
  co_not_use : forall e, e ∈ not_use s -> count e held = 0;
  co_in_use : forall e, e ∈ in_use s -> 0 < count e held;
  co_size : size_ s = len Q;
  co_made : made ≡ₚ (value <$> (map_to_list (handles s)).*2) ++ deleted s }.

Definition key_at (s : lru) (e : loc) : option KEY := key <$> handles s !! e.
Definition before_at (s : lru) (x y : loc) : Prop :=
  match key_at s x, key_at s y with Some a, Some b => key_lt a b = true | _, _ => False end.
Definition lru_ok (s : lru) (held : list loc) (made : list VALUE) : Prop :=
  exists Q, ot_seq (cache_map s) Q /\ StronglySorted (before_at s) Q /\ core s held Q made.

Lemma count_cons e x l : count e (x :: l) = (if decide (x = e) then 1 else 0) + count e l.
Proof. unfold count. rewrite filter_cons. destruct (decide (x = e)); cbn [length]; lia. Qed.
Lemma count_perm e l l' : l ≡ₚ l' -> count e l = count e l'.
Proof. intros P. unfold count. by rewrite P. Qed.
Lemma count_pos e l : e ∈ l <-> 0 < count e l.
Proof.
  unfold count. induction l as [|x l IH]; [split; [by intros ?%not_elem_of_nil|cbn; lia]|]. rewrite elem_of_cons, filter_cons, IH.
  destruct (decide (x = e)) as [->|]; cbn [length]; [split; [lia|by left]|]. split; [intros [?|?]; [done|lia]|by right].
Qed.

Lemma without_in e l x : x ∈ without e l <-> x <> e /\ x ∈ l.
Proof. unfold without. by rewrite list_elem_of_filter. Qed.
Lemma without_id e l : e ∉ l -> without e l = l.
Proof. apply filter_ne_id. Qed.
Lemma without_app e l l' : without e (l ++ l') = without e l ++ without e l'.
Proof. apply filter_app. Qed.
Lemma without_perm e l : NoDup l -> e ∈ l -> l ≡ₚ e :: without e l.
Proof.
  intros Nd He. apply elem_of_Permutation in He as [l' P]. assert (Nd' : NoDup (e :: l')) by (by rewrite <- P). apply NoDup_cons in Nd' as [N1 _].
  assert (E : without e l ≡ₚ without e (e :: l')) by (unfold without; by rewrite P). rewrite E. unfold without. rewrite filter_cons_False by tauto.
  fold (without e l'). by rewrite without_id.
Qed.
Lemma core_perm s held held' Q Q' made : held ≡ₚ held' -> Q ≡ₚ Q' -> core s held Q made -> core s held' Q' made.
Proof.
  intros Ph Pq [C1 C2 C3 C4 C5 C6 C7 C8 C9]. constructor; try done.
  - intros e h He. rewrite (C1 e h He). by rewrite Pq.
  - intros e. rewrite <- Ph, <- Pq. apply C2.
  - intros e h He. rewrite <- (count_perm e _ _ Ph). by apply C3.
  - by rewrite C5.
  - intros e He. rewrite <- (count_perm e _ _ Ph). by apply C6.
  - intros e He. rewrite <- (count_perm e _ _ Ph). by apply C7.
  - by rewrite C8, Pq.
Qed.
Lemma made_insert (m : gmap loc handle) e h h' : m !! e = Some h -> value h' = value h -> value <$> (map_to_list (<[e := h']> m)).*2 ≡ₚ value <$> (map_to_list m).*2.
Proof.
  intros He Hv. rewrite <- (insert_delete_id m e h He) at 2. rewrite <- insert_delete_eq.
  rewrite !map_to_list_insert by apply lookup_delete_eq. cbn. by rewrite Hv.
Qed.
Lemma made_delete (m : gmap loc handle) e h : m !! e = Some h -> value <$> (map_to_list m).*2 ≡ₚ value h :: (value <$> (map_to_list (delete e m)).*2).
Proof. intros He. rewrite <- (insert_delete_id m e h He) at 1. rewrite map_to_list_insert by apply lookup_delete_eq. done. Qed.

(** A handle in the cache is in the list its references put it in. *)
Lemma in_lists s held Q made e : core s held Q made -> e ∈ Q -> if decide (0 < count e held) then e ∈ in_use s /\ e ∉ not_use s else e ∈ not_use s /\ e ∉ in_use s.
Proof.
  intros [C1 C2 C3 C4 C5 C6 C7 C8 C9] He. rewrite <- C5, elem_of_app in He. destruct (decide (0 < count e held)) as [Hp|Hp]; destruct He as [He|He].
  - specialize (C6 e He). lia.
  - split; [done|]. intros Hn. specialize (C6 e Hn). lia.
  - split; [done|]. intros Hi. specialize (C7 e Hi). lia.
  - specialize (C7 e He). lia.
Qed.
Lemma not_in_lists s held Q made e : core s held Q made -> e ∉ Q -> e ∉ not_use s /\ e ∉ in_use s.
Proof. intros C He. rewrite <- (co_lists _ _ _ _ C), elem_of_app in He. tauto. Qed.

(** The handles after an update of one. *)
Lemma refs_update (m : gmap loc handle) e h (P : loc -> handle -> Prop) : P e h -> (forall x hx, x <> e -> m !! x = Some hx -> P x hx) -> forall x hx, <[e := h]> m !! x = Some hx -> P x hx.
Proof. intros H1 H2 x hx. destruct (decide (x = e)) as [->|]; [rewrite lookup_insert_eq; by intros [= <-]|]. rewrite lookup_insert_ne by done. by apply H2. Qed.

Definition same_cache (s s' : lru) : Prop := max_size s' = max_size s /\ size_ s' = size_ s /\ cache_map s' = cache_map s.

Definition frame (x : loc) (s s' : lru) : Prop := forall y, y <> x -> handles s' !! y = handles s !! y.

Lemma core_ref s held Q made e : core s held Q made -> is_Some (handles s !! e) -> exists s', ref e s = Some s' /\ core s' (e :: held) Q made /\
  same_cache s s' /\ (forall x, key_at s' x = key_at s x) /\ not_use s' = without e (not_use s) /\ frame e s s'.
Proof.
  intros C [h Hh]. pose proof C as [C1 C2 C3 C4 C5 C6 C7 C8 C9]. destruct (C3 e h Hh) as [R1 R2]. unfold ref. rewrite Hh. cbn [mbind option_bind].
  set (h' := with_refs (refs h + 1) h). set (s1 := if in_cache h && (refs h =? 1) then to_in_use e s else s).
  assert (L : NoDup (not_use s1 ++ in_use s1) /\ not_use s1 ++ in_use s1 ≡ₚ Q /\ (forall x, x ∈ not_use s1 -> x <> e /\ x ∈ not_use s) /\ (forall x, x ∈ in_use s1 -> x = e \/ x ∈ in_use s) /\
    not_use s1 = without e (not_use s)).
  { unfold s1. destruct (in_cache h) eqn:Ec; cbn [andb].
    - pose proof (in_lists _ _ _ _ e C (proj1 (C1 e h Hh) Ec)) as I. destruct (Z.eqb_spec (refs h) 1) as [E1|E1].
      + rewrite decide_False in I by lia. destruct I as [I1 I2]. cbn. rewrite (without_id e (in_use s)) by done.
        pose proof C4 as (N1 & N2 & N3)%NoDup_app_inv. pose proof (without_perm e _ N1 I1) as P.
        assert (P2 : without e (not_use s) ++ in_use s ++ [e] ≡ₚ not_use s ++ in_use s) by (rewrite P at 2; solve_Permutation).
        split_and!; [by rewrite P2|by rewrite P2|intros x; rewrite without_in; tauto| |done]. intros x. rewrite elem_of_app, list_elem_of_singleton. tauto.
      + rewrite decide_True in I by lia. destruct I as [I1 I2]. split_and!; [done|done| |tauto|by rewrite without_id]. intros x Hx. split; [congruence|done].
    - destruct (not_in_lists _ _ _ _ e C) as [N _]; [intros HQ; apply (C1 e h Hh) in HQ; congruence|].
      split_and!; [done|done| |tauto|by rewrite without_id]. intros x Hx. split; [congruence|done]. }
  assert (Hs1 : handles s1 = handles s /\ max_size s1 = max_size s /\ size_ s1 = size_ s /\ cache_map s1 = cache_map s /\ deleted s1 = deleted s) by (unfold s1; by destruct (_ && _)).
  destruct Hs1 as (H1 & H2 & H3 & H4 & H5). destruct L as (L1 & L2 & L3 & L4 & L5). rewrite H1. eexists. split; [reflexivity|].
  split; [|split; [by split_and!|split; [|split; [exact L5|intros y Hy; by apply lookup_insert_ne]]]].
  - constructor; cbn; try done.
    + apply refs_update; [by apply (C1 e h)|]. intros x hx _. by apply C1.
    + intros x Hx. destruct (decide (x = e)) as [->|]; [by rewrite lookup_insert_eq|]. rewrite lookup_insert_ne by done. apply C2. rewrite elem_of_cons in Hx. tauto.
    + apply refs_update; [rewrite count_cons, decide_True by done; cbn; lia|]. intros x hx Hne Hx. rewrite count_cons, decide_False by congruence. rewrite Z.add_0_l. by apply C3.
    + intros x Hx. destruct (L3 x Hx). rewrite count_cons, decide_False by congruence. rewrite Z.add_0_l. by apply C6.
    + intros x Hx. rewrite count_cons. destruct (L4 x Hx) as [->|Hi]; [rewrite decide_True by done; unfold count; lia|]. specialize (C7 x Hi). destruct (decide (e = x)); lia.
    + by rewrite H3, C8.
    + rewrite (made_insert _ e h) by done. by rewrite H5.
  - intros x. unfold key_at. cbn. destruct (decide (x = e)) as [->|]; [by rewrite lookup_insert_eq, Hh|by rewrite lookup_insert_ne].
Qed.

Lemma core_unref s held Q made e : core s (e :: held) Q made -> exists s', unref e s = Some s' /\ core s' held Q made /\
  (cache_map s' = cache_map s \/ e ∉ Q /\ cache_map s' = ot_free e (cache_map s)) /\ max_size s' = max_size s /\ size_ s' = size_ s /\ (forall x, x ∈ Q -> key_at s' x = key_at s x) /\
  (forall y, y <> e -> handles s' !! y = handles s !! y) /\ (e ∉ Q -> not_use s' = not_use s /\ in_use s' = in_use s) /\
  not_use s' = not_use s ++ (if decide (e ∈ Q /\ count e held = 0) then [e] else []).
Proof.
  intros C. pose proof C as [C1 C2 C3 C4 C5 C6 C7 C8 C9]. destruct (C2 e) as [h Hh]; [left; constructor|]. destruct (C3 e h Hh) as [R1 R2].
  rewrite count_cons, decide_True in R1 by done. unfold unref. rewrite Hh. cbn [mbind option_bind]. replace (refs h <=? 0) with false by lia.
  assert (Ne : forall x, x <> e -> count x (e :: held) = count x held) by (intros x Hx; rewrite count_cons, decide_False by congruence; lia).
  assert (Cn : 0 <= count e held) by (unfold count; lia).
  destruct (Z.eqb_spec (refs h - 1) 0) as [E0|E0].
  - assert (Ec : in_cache h = false) by (destruct (in_cache h); [lia|done]). rewrite Ec in *. assert (E1 : count e held = 0) by lia. eexists. split; [reflexivity|].
    assert (Nq : e ∉ Q) by (intros HQ; apply (C1 e h Hh) in HQ; congruence). destruct (not_in_lists _ _ _ _ e C Nq) as [N1 N2].
    cbn. rewrite delete_insert_eq. split; [|split_and!; [by right|done|done| |intros y Hy; by apply lookup_delete_ne|done|]].
    + constructor; cbn; try done.
      * intros x hx [Hne Hx]%lookup_delete_Some. by apply C1.
      * intros x Hx. assert (x <> e). { intros ->. destruct Hx as [Hx|]; [|done]. apply count_pos in Hx. lia. }
        rewrite lookup_delete_ne by done. apply C2. rewrite elem_of_cons. tauto.
      * intros x hx [Hne Hx]%lookup_delete_Some. rewrite <- Ne by congruence. by apply C3.
      * intros x Hx. rewrite <- Ne by congruence. by apply C6.
      * intros x Hx. rewrite <- Ne by congruence. by apply C7.
      * rewrite C9, (made_delete _ e h Hh). solve_Permutation.
    + intros x Hx. unfold key_at. cbn. by rewrite lookup_delete_ne by congruence.
    + rewrite decide_False by tauto. by rewrite app_nil_r.
  - set (h' := with_refs (refs h - 1) h). set (s1 := set_handles (<[e := h']> (handles s)) s).
    assert (L : exists n i, (if in_cache h && (refs h - 1 =? 1) then to_not_use e s1 else s1) = set_lists n i s1 /\ (e ∉ Q -> n = not_use s /\ i = in_use s) /\ n = not_use s ++ (if decide (e ∈ Q /\ count e held = 0) then [e] else []) /\ NoDup (n ++ i) /\ n ++ i ≡ₚ Q /\
      (forall x, x ∈ n -> count x held = 0) /\ (forall x, x ∈ i -> 0 < count x held)).
    { destruct (in_cache h) eqn:Ec; cbn [andb].
      - pose proof (in_lists _ _ _ _ e C (proj1 (C1 e h Hh) Ec)) as I. rewrite decide_True in I by (rewrite count_cons, decide_True by done; lia). destruct I as [I1 I2].
        destruct (Z.eqb_spec (refs h - 1) 1) as [E1|E1].
        + exists (not_use s ++ [e]), (without e (in_use s)). unfold to_not_use. change (not_use s1) with (not_use s). change (in_use s1) with (in_use s). rewrite (without_id e (not_use s)) by done. split; [done|]. split; [by intros []; apply (C1 e h Hh)|]. split; [rewrite decide_True by (split; [by apply (C1 e h Hh)|lia]); done|].
          pose proof C4 as (N1 & N2 & N3)%NoDup_app_inv. pose proof (without_perm e _ N2 I1) as P.
          assert (P2 : (not_use s ++ [e]) ++ without e (in_use s) ≡ₚ not_use s ++ in_use s) by (rewrite P at 2; solve_Permutation).
          split_and!; [by rewrite P2|by rewrite P2| |].
          * intros x. rewrite elem_of_app, list_elem_of_singleton. intros [Hx| ->]; [|lia]. rewrite <- Ne by congruence. by apply C6.
          * intros x [Hne Hx]%without_in. rewrite <- Ne by done. by apply C7.
        + exists (not_use s), (in_use s). split; [done|]. split; [done|]. split; [rewrite decide_False by lia; by rewrite app_nil_r|]. split_and!; [done|done| |].
          * intros x Hx. rewrite <- Ne by congruence. by apply C6.
          * intros x Hx. destruct (decide (x = e)) as [->|]; [lia|]. rewrite <- Ne by done. by apply C7.
      - assert (Nq : e ∉ Q) by (intros HQ; apply (C1 e h Hh) in HQ; congruence). exists (not_use s), (in_use s). destruct (not_in_lists _ _ _ _ e C Nq) as [N1 N2].
        split; [done|]. split; [done|]. split; [rewrite decide_False by tauto; by rewrite app_nil_r|]. split_and!; [done|done| |]; intros x Hx; rewrite <- Ne by congruence; [by apply C6|by apply C7]. }
    destruct L as (n & i & -> & L0 & L5 & L1 & L2 & L3 & L4). eexists. split; [reflexivity|]. split; [|split; [by left|]; split; [done|]; split; [done|]; split; [|split; [intros y Hy; by apply lookup_insert_ne|split; [exact L0|exact L5]]]].
    + constructor; cbn; try done.
      * apply refs_update; [by apply (C1 e h)|]. intros x hx _. by apply C1.
      * intros x Hx. destruct (decide (x = e)) as [->|]; [by rewrite lookup_insert_eq|]. rewrite lookup_insert_ne by done. apply C2. rewrite elem_of_cons. tauto.
      * apply refs_update; [cbn; lia|]. intros x hx Hne Hx. rewrite <- Ne by done. by apply C3.
      * by rewrite (made_insert _ e h).
    + intros x _. unfold key_at. cbn. destruct (decide (x = e)) as [->|]; [by rewrite lookup_insert_eq, Hh|by rewrite lookup_insert_ne].
Qed.

Lemma core_erase s held Q Q' made x : core s held Q made -> Q ≡ₚ x :: Q' -> exists s', erase_node x s = Some s' /\ core s' held Q' made /\
  (cache_map s' = cache_map s \/ cache_map s' = ot_free x (cache_map s)) /\ max_size s' = max_size s /\ frame x s s' /\
  not_use s' = without x (not_use s) /\ in_use s' = without x (in_use s).
Proof.
  intros C P. pose proof C as [C1 C2 C3 C4 C5 C6 C7 C8 C9]. assert (Nd : NoDup (x :: Q')) by (rewrite <- P, <- C5; done). apply NoDup_cons in Nd as [Nx Nd].
  assert (Hx : x ∈ Q) by (rewrite P; constructor). destruct (C2 x) as [h Hh]; [by right|]. pose proof (proj2 (C1 x h Hh) Hx) as Ec. destruct (C3 x h Hh) as [R1 R2]. rewrite Ec in R1.
  unfold erase_node. rewrite Hh. cbn [mbind option_bind]. rewrite Ec. set (s1 := set_size _ _).
  assert (Pl : without x (not_use s) ++ without x (in_use s) ≡ₚ Q').
  { apply (Permutation_cons_inv (a := x)). rewrite <- P, <- C5. unfold without. rewrite <- filter_app. symmetry. apply without_perm; [done|]. by rewrite C5. }
  assert (C' : core s1 (x :: held) Q' made).
  { constructor; cbn; try done.
    - apply refs_update; [split; [done|done]|]. intros y hy Hne Hy. rewrite (C1 y hy Hy), P, elem_of_cons. tauto.
    - intros y Hy. destruct (decide (y = x)) as [->|]; [by rewrite lookup_insert_eq|]. rewrite lookup_insert_ne by done. apply C2. rewrite P, elem_of_cons. rewrite elem_of_cons in Hy. tauto.
    - apply refs_update; [rewrite count_cons, decide_True by done; cbn; lia|]. intros y hy Hne Hy. rewrite count_cons, decide_False by congruence. rewrite Z.add_0_l. by apply C3.
    - by rewrite Pl.
    - intros y [Hne Hy]%without_in. rewrite count_cons, decide_False by congruence. rewrite Z.add_0_l. by apply C6.
    - intros y [Hne Hy]%without_in. rewrite count_cons, decide_False by congruence. rewrite Z.add_0_l. by apply C7.
    - rewrite C8, P. cbn. lia.
    - by rewrite (made_insert _ x h). }
  destruct (core_unref s1 held Q' made x C') as (s' & E & C2' & M & X1 & X2 & _ & F & L & _). destruct (L Nx) as [L1 L2]. exists s'. split; [exact E|]. split; [done|].
  split_and!; [|done| |done|done].
  - destruct M as [M|[_ M]]; [by left|by right].
  - intros y Hy. rewrite (F y Hy). cbn. by apply lookup_insert_ne.
Qed.

Lemma core_new s held Q made k v e t : core s held Q made -> handles s !! e = None ->
  core (set_size (size_ s + 1) (set_lists (not_use s) (in_use s ++ [e]) (set_handles (<[e := mk_handle v k true 2]> (handles s)) (set_map t s)))) (e :: held) (e :: Q) (v :: made).
Proof.
  intros [C1 C2 C3 C4 C5 C6 C7 C8 C9] He. assert (Nh : e ∉ held /\ e ∉ Q) by (split; intros H; destruct (C2 e) as [h Hh]; [by left| congruence|by right|congruence]). destruct Nh as [Nh Nq].
  assert (Nl : e ∉ not_use s ++ in_use s) by (by rewrite C5).
  assert (Hc : count e held = 0). { pose proof (count_pos e held). unfold count in *. destruct (decide (0 < Z.of_nat (length (filter (fun x => x = e) held)))); [tauto|lia]. }
  assert (Ne : forall x, x <> e -> count x (e :: held) = count x held) by (intros x Hx; rewrite count_cons, decide_False by congruence; lia).
  assert (P : not_use s ++ in_use s ++ [e] ≡ₚ e :: Q) by (rewrite <- C5; solve_Permutation).
  constructor; cbn; try done.
  - apply refs_update; [split; [by constructor|done]|]. intros x hx Hne Hx. rewrite (C1 x hx Hx), elem_of_cons. tauto.
  - intros x. rewrite !elem_of_cons. intros Hx. destruct (decide (x = e)) as [->|]; [by rewrite lookup_insert_eq|]. rewrite lookup_insert_ne by done. apply C2. tauto.
  - apply refs_update; [rewrite count_cons, decide_True by done; cbn; lia|]. intros x hx Hne Hx. rewrite Ne by done. by apply C3.
  - rewrite P. apply NoDup_cons. split; [done|]. by rewrite <- C5.
  - intros x Hx. rewrite Ne; [by apply C6|]. intros ->. apply Nl. apply elem_of_app. by left.
  - intros x. rewrite elem_of_app, list_elem_of_singleton. intros [Hx| ->]; [|rewrite count_cons, decide_True by done; lia].
    rewrite Ne; [by apply C7|]. intros ->. apply Nl. apply elem_of_app. by right.
  - rewrite C8. cbn. lia.
  - rewrite map_to_list_insert by done. cbn. by rewrite C9.
Qed.

(** ** The operations *)

(** What [operator<] must be. *)
Class key_order : Prop := mk_key_order {
  key_irrefl : forall a, key_lt a a = false;
  key_trans : forall a b c, key_lt a b = true -> key_lt b c = true -> key_lt a c = true;
  key_cotrans : forall a b c, key_lt a b = true -> key_lt a c = true \/ key_lt c b = true }.
Context `{KO : !key_order}.

Definition cached (s : lru) : list loc := not_use s ++ in_use s.
(** The handle's key and [k] are equivalent. *)
Definition at_key (s : lru) (k : KEY) (e : loc) : Prop := exists a, key_at s e = Some a /\ key_lt a k = false /\ key_lt k a = false.
Definition is_found (s : lru) (k : KEY) (r : option loc) : Prop :=
  match r with
  | Some e => e ∈ cached s /\ at_key s k e
  | None => forall e, e ∈ cached s -> ~ at_key s k e
  end.

Lemma ok_key s held Q made e : core s held Q made -> e ∈ Q -> exists a, key_at s e = Some a.
Proof. intros C He. destruct (co_live _ _ _ _ C e) as [h Hh]; [by right|]. exists (key h). unfold key_at. by rewrite Hh. Qed.

Lemma ok_fuel s held Q made : core s held Q made -> NoDup Q -> (ot_fuel (length Q) <= fuel s)%nat.
Proof.
  intros C Nd. apply ot_fuel_mono. rewrite <- (size_list_to_set (C := gset loc) Q Nd), <- size_dom. apply subseteq_size.
  intros e He%elem_of_list_to_set. apply elem_of_dom. apply (co_live _ _ _ _ C). by right.
Qed.

Lemma sorted_keys s s' Q : (forall x, x ∈ Q -> key_at s' x = key_at s x) -> StronglySorted (before_at s) Q -> StronglySorted (before_at s') Q.
Proof.
  intros H Hs. induction Hs as [|x l Hs IH Hx]; constructor.
  - apply IH. intros y Hy. apply H. by right.
  - rewrite Forall_forall in *. intros y Hy. specialize (Hx y Hy). unfold before_at in *. by rewrite !H by (constructor; done || by right).
Qed.

Lemma not_before_key s k e a : key_at s e = Some a -> not_before s k e = negb (key_lt a k).
Proof. unfold key_at, not_before. destruct (handles s !! e); cbn; [by intros [= ->]|done]. Qed.

(** The search splits the sequence at the key, and the bound is the cached handle of the
    key, if there is one. *)
Lemma bound_split s held Q made k : StronglySorted (before_at s) Q -> core s held Q made -> exists l1 l2 r, Q = l1 ++ l2 /\
  Forall (fun y => not_before s k y = false) l1 /\ Forall (fun y => not_before s k y = true) l2 /\
  found s k (head l2) = Some r /\ is_found s k r /\
  (forall y a, y ∈ l1 -> key_at s y = Some a -> key_lt a k = true) /\
  match r with
  | Some x => exists l3, l2 = x :: l3 /\ (forall y a, y ∈ l3 -> key_at s y = Some a -> key_lt k a = true)
  | None => forall y a, y ∈ l2 -> key_at s y = Some a -> key_lt k a = true
  end.
Proof.
  intros Hs C. destruct (sorted_partition (before_at s) (not_before s k) Q Hs) as (l1 & l2 & -> & H1 & H2).
  { intros x y. unfold before_at. destruct (key_at s x) as [a|] eqn:Ea; [|done]. destruct (key_at s y) as [b|] eqn:Eb; [|done].
    rewrite (not_before_key _ _ _ a Ea), (not_before_key _ _ _ b Eb). intros Hab Ha. destruct (key_lt b k) eqn:E; [|done].
    by rewrite (key_trans a b k Hab E) in Ha. }
  assert (K1 : forall y a, y ∈ l1 -> key_at s y = Some a -> key_lt a k = true).
  { intros y a Hy Ha. rewrite Forall_forall in H1. specialize (H1 y Hy). cbn in H1. rewrite (not_before_key _ _ _ a Ha) in H1. by destruct (key_lt a k). }
  assert (In : forall e, e ∈ cached s <-> e ∈ l1 ++ l2) by (intros e; unfold cached; by rewrite (co_lists _ _ _ _ C)).
  destruct l2 as [|x l3].
  { exists l1, [], None. split_and!; try done; [|by intros y a ?%not_elem_of_nil]. intros e He (a & Ha & Hk & _). apply In in He. rewrite app_nil_r in He. by rewrite (K1 e a He Ha) in Hk. }
  destruct (ok_key _ _ _ _ x C) as [a Ha]; [apply elem_of_app; right; constructor|].
  pose proof H2 as [Hx _]%Forall_cons. rewrite (not_before_key _ _ _ a Ha) in Hx.
  assert (K3 : forall y b, y ∈ l3 -> key_at s y = Some b -> key_lt k b = true).
  { intros y b Hy Hb. apply StronglySorted_app_1_r in Hs. inversion Hs as [|? ? _ Hall]; subst. rewrite Forall_forall in Hall. specialize (Hall y Hy). unfold before_at in Hall. rewrite Ha, Hb in Hall.
    destruct (key_cotrans a b k Hall) as [E|E]; [by rewrite E in Hx|done]. }
  exists l1, (x :: l3), (if key_lt k a then None else Some x). split_and!; try done.
  - cbn. unfold key_at in Ha. destruct (handles s !! x) as [h|]; [|done]. cbn in *. by injection Ha as ->.
  - destruct (key_lt k a) eqn:E.
    + intros e He (b & Hb & Hk1 & Hk2). apply In in He. rewrite elem_of_app, elem_of_cons in He. destruct He as [He|[->|He]].
      * by rewrite (K1 e b He Hb) in Hk1.
      * congruence.
      * by rewrite (K3 e b He Hb) in Hk2.
    + split; [apply In, elem_of_app; right; constructor|]. exists a. split_and!; [done|by destruct (key_lt a k)|done].
  - destruct (key_lt k a) eqn:E; [|by exists l3]. intros y b [->|Hy]%elem_of_cons Hb; [congruence|by eapply K3].
Qed.

Lemma ok_cached s held made e : lru_ok s held made -> e ∈ cached s -> exists h, handles s !! e = Some h /\ in_cache h = true /\ refs h = 1 + count e held.
Proof.
  intros (Q & _ & _ & C) He. unfold cached in He. rewrite (co_lists _ _ _ _ C) in He. destruct (co_live _ _ _ _ C e) as [h Hh]; [by right|]. exists h.
  pose proof (proj2 (co_cached _ _ _ _ C e h Hh) He) as Ec. destruct (co_refs _ _ _ _ C e h Hh) as [R _]. by rewrite Ec in R.
Qed.
Lemma ok_size s held made : lru_ok s held made -> size_ s = len (cached s).
Proof. intros (Q & _ & _ & C). rewrite (co_size _ _ _ _ C). unfold cached. by rewrite (co_lists _ _ _ _ C). Qed.
Lemma ok_nodup s held made : lru_ok s held made -> NoDup (cached s).
Proof. intros (Q & _ & _ & C). apply C. Qed.

Lemma get_ok s held made k : lru_ok s held made -> exists r, is_found s k r /\
  match r with
  | None => get k s = Some (None, s)
  | Some e => exists s', get k s = Some (Some e, s') /\ lru_ok s' (e :: held) made /\ same_cache s s' /\ not_use s' = without e (not_use s) /\ (forall x, key_at s' x = key_at s x) /\ frame e s s' /\ cached s' ≡ₚ cached s
  end.
Proof.
  intros (Q & Ht & Hs & C). destruct (bound_split _ _ _ _ k Hs C) as (l1 & l2 & r & -> & H1 & H2 & Hf & Hr & _). exists r. split; [done|].
  pose proof (ok_fuel _ _ _ _ C (ot_seq_nodup _ _ Ht)) as Hfu. unfold get. rewrite (ot_bound_ok _ l1 l2 _ _ Ht Hfu H1 H2). cbn [mbind option_bind]. rewrite Hf. cbn [mbind option_bind].
  destruct r as [e|]; [|done]. destruct Hr as [He _]. unfold cached in He. rewrite (co_lists _ _ _ _ C) in He.
  destruct (core_ref s held _ made e C) as (s' & E & C' & Sm & Hk & Hn & Fr); [apply (co_live _ _ _ _ C); by right|]. rewrite E. exists s'. split; [done|]. split_and!; try done; try apply Sm; [|unfold cached; by rewrite (co_lists _ _ _ _ C), (co_lists _ _ _ _ C')].
  exists (l1 ++ l2). split_and!; [by rewrite (proj2 (proj2 Sm))| |done]. eapply sorted_keys; [|exact Hs]. auto.
Qed.

(** [rb_erase] and [erase_node] of a handle in the cache. *)
Lemma drop_ok s held made x : lru_ok s held made -> x ∈ cached s -> exists s', drop_node x s = Some s' /\ lru_ok s' held made /\ max_size s' = max_size s /\
  frame x s s' /\ not_use s' = without x (not_use s) /\ in_use s' = without x (in_use s).
Proof.
  intros (Q & Ht & Hs & C) Hx. unfold cached in Hx. rewrite (co_lists _ _ _ _ C) in Hx. pose proof (ot_seq_nodup _ _ Ht) as Nd. pose proof (ok_fuel _ _ _ _ C Nd) as Hfu.
  apply list_elem_of_split in Hx as (l1 & l2 & ->). destruct (ot_erase_ok _ l1 x l2 _ Ht Hfu) as (t & E & Ht'). unfold drop_node. rewrite E. cbn [mbind option_bind].
  assert (Nx : x ∉ l1 ++ l2) by (assert (Nd' : NoDup (x :: l1 ++ l2)) by (by rewrite Permutation_middle); by apply NoDup_cons in Nd' as [? _]).
  assert (C1 : core (set_map t s) held (l1 ++ x :: l2) made) by (destruct C; by constructor).
  destruct (core_erase (set_map t s) held _ (l1 ++ l2) made x C1) as (s' & E' & C' & M & X & F & L1 & L2); [by rewrite Permutation_middle|]. exists s'. split; [done|].
  split; [|by split_and!]. exists (l1 ++ l2). split_and!; [|  |done].
  - destruct M as [->| ->]; [done|]. by apply ot_seq_free.
  - eapply sorted_keys; [|eapply sorted_remove; exact Hs]. intros y Hy. unfold key_at. by rewrite (F y) by congruence.
Qed.

(** The first of [not_use] can go. *)
Lemma drop_first s held made e l : lru_ok s held made -> not_use s = e :: l -> exists h s', handles s !! e = Some h /\ refs h = 1 /\
  drop_node e s = Some s' /\ lru_ok s' held made /\ max_size s' = max_size s /\ frame e s s' /\ not_use s' = l /\ in_use s' = in_use s.
Proof.
  intros Hok El. assert (He : e ∈ cached s) by (unfold cached; rewrite El; by left). destruct (ok_cached _ _ _ _ Hok He) as (h & Hh & _ & R).
  assert (R1 : count e held = 0) by (destruct Hok as (Q & _ & _ & C); apply (co_not_use _ _ _ _ C); rewrite El; by left).
  destruct (drop_ok s held made e Hok He) as (s' & E & Hok' & X & F & N & I).
  pose proof (ok_nodup _ _ _ Hok) as Nd. unfold cached in Nd. rewrite El in Nd. cbn in Nd. apply NoDup_cons in Nd as [Ne Nd]. rewrite elem_of_app in Ne.
  exists h, s'. split_and!; try done; [lia| |].
  - rewrite N, El. unfold without. rewrite filter_cons_False by tauto. apply without_id. tauto.
  - rewrite I. apply without_id. tauto.
Qed.

(** The loop of [put] removes the oldest unreferenced handles, as many as are too many. *)
Lemma evict_ok n : forall s held made, lru_ok s held made -> (length (not_use s) < n)%nat -> exists s', evict n s = Some s' /\ lru_ok s' held made /\ max_size s' = max_size s /\
  let j := Z.to_nat (size_ s - max_size s) in not_use s' = skipn j (not_use s) /\ in_use s' = in_use s /\ (forall y, y ∉ firstn j (not_use s) -> handles s' !! y = handles s !! y).
Proof.
  induction n as [|n IH]; intros s held made Hok Hn; [lia|]. cbn [evict]. destruct (not_use s) as [|e l] eqn:El.
  { exists s. split_and!; try done. by rewrite El, skipn_nil. }
  destruct (Z.ltb_spec (max_size s) (size_ s)) as [Hlt|Hge].
  2:{ exists s. replace (Z.to_nat (size_ s - max_size s)) with 0%nat by lia. by split_and!. }
  destruct (drop_first _ _ _ _ _ Hok El) as (h & s1 & Hh & R & E1 & Hok1 & X1 & F1 & N1 & I1). rewrite Hh. cbn [mbind option_bind]. rewrite R. cbn [Z.eqb Pos.eqb]. rewrite E1. cbn [mbind option_bind].
  assert (Sz : size_ s1 = size_ s - 1) by (rewrite (ok_size _ _ _ Hok1), (ok_size _ _ _ Hok); unfold cached; rewrite N1, I1, El; cbn; lia).
  destruct (IH s1 held made Hok1) as (s' & E' & Hok' & X' & N' & I' & F'); [rewrite N1; cbn in Hn; lia|]. exists s'. split; [done|]. split; [done|]. split; [congruence|].
  rewrite N1, X1, Sz in *. replace (Z.to_nat (size_ s - max_size s)) with (S (Z.to_nat (size_ s - 1 - max_size s))) by lia. cbn. split; [done|]. split; [congruence|].
  intros y [Hy1 Hy2]%not_elem_of_cons. rewrite F' by done. by apply F1.
Qed.

Lemma prune_loop_ok l : forall s held made, lru_ok s held made -> not_use s = l -> exists s', prune_loop l s = Some s' /\ lru_ok s' held made /\ max_size s' = max_size s /\
  not_use s' = [] /\ in_use s' = in_use s /\ (forall y, y ∉ l -> handles s' !! y = handles s !! y).
Proof.
  induction l as [|e l IH]; intros s held made Hok El; [exists s; by split_and!|]. cbn [prune_loop].
  destruct (drop_first _ _ _ _ _ Hok El) as (h & s1 & Hh & R & E1 & Hok1 & X1 & F1 & N1 & I1). rewrite Hh. cbn [mbind option_bind]. rewrite R. cbn [Z.eqb Pos.eqb]. rewrite E1. cbn [mbind option_bind].
  destruct (IH s1 held made Hok1 N1) as (s' & E' & Hok' & X' & N' & I' & F'). exists s'. split_and!; try done; [congruence..|]. intros y [Hy1 Hy2]%not_elem_of_cons. rewrite F' by done. by apply F1.
Qed.

Definition minus (r : option loc) (l : list loc) : list loc := match r with Some x => without x l | None => l end.

(** The sequence of the tree with a new handle. *)
Lemma sorted_new s s' l1 l2 e k : StronglySorted (before_at s) (l1 ++ l2) -> (forall y, y ∈ l1 ++ l2 -> is_Some (key_at s y)) -> (forall y, y ∈ l1 ++ l2 -> key_at s' y = key_at s y) -> key_at s' e = Some k ->
  (forall y a, y ∈ l1 -> key_at s y = Some a -> key_lt a k = true) -> (forall y a, y ∈ l2 -> key_at s y = Some a -> key_lt k a = true) -> StronglySorted (before_at s') (l1 ++ e :: l2).
Proof.
  intros Hs Hk Hk' He K1 K2. apply sorted_insert; [by eapply sorted_keys| |]; apply Forall_forall; intros y Hy; unfold before_at; rewrite He.
  - assert (Hy' : y ∈ l1 ++ l2) by (apply elem_of_app; by left). destruct (Hk y Hy') as [a Ha]. rewrite (Hk' y Hy'), Ha. by eapply K1.
  - assert (Hy' : y ∈ l1 ++ l2) by (apply elem_of_app; by right). destruct (Hk y Hy') as [a Ha]. rewrite (Hk' y Hy'), Ha. by eapply K2.
Qed.

Lemma put_node_ok s held made k v e : lru_ok s held made -> handles s !! e = None -> exists r s', is_found s k r /\ put_node k v e s = Some s' /\ lru_ok s' (e :: held) (v :: made) /\
  max_size s' = max_size s /\ not_use s' = minus r (not_use s) /\ in_use s' = minus r (in_use s) ++ [e] /\
  handles s' !! e = Some (mk_handle v k true 2) /\ (forall y, y <> e -> r <> Some y -> handles s' !! y = handles s !! y).
Proof.
  intros (Q & Ht & Hs & C) He. destruct (bound_split _ _ _ _ k Hs C) as (l1 & l2 & r & -> & H1 & H2 & Hf & Hr & K1 & K2). exists r.
  pose proof (ok_fuel _ _ _ _ C (ot_seq_nodup _ _ Ht)) as Hfu. destruct (ot_search_ok _ l1 l2 _ _ Ht Hfu H1 H2) as (pl & Es & Hl).
  assert (Ne : e ∉ l1 ++ l2) by (intros HQ; destruct (co_live _ _ _ _ C e (or_intror HQ)); congruence).
  pose proof (fun t => core_new s held _ made k v e t C He) as Cn. unfold put_node. rewrite Es. cbn [mbind option_bind]. rewrite Hf. cbn [mbind option_bind].
  assert (Hk : forall y, y ∈ l1 ++ l2 -> is_Some (key_at s y)) by (intros y Hy; destruct (ok_key _ _ _ _ y C Hy); by eexists).
  destruct r as [x|].
  - destruct K2 as (l3 & -> & K2). destruct (ot_replace_ok _ l1 x l3 e Ht Ne) as (t & Er & Ht'). cbn [cache_map set_size set_lists set_handles set_map]. rewrite Er. cbn [mbind option_bind].
    pose proof (ot_seq_nodup _ _ Ht) as Nd. assert (Nx : x ∉ l1 ++ e :: l3).
    { assert (Nd' : NoDup (x :: l1 ++ l3)) by (by rewrite Permutation_middle). apply NoDup_cons in Nd' as [Nx _]. rewrite elem_of_app, elem_of_cons in *. intros [?|[->|?]]; tauto. }
    edestruct (core_erase _ _ _ (l1 ++ e :: l3) _ x (Cn t)) as (s' & E & C' & M & X & F & N & I); [rewrite <- !Permutation_middle; constructor|]. exists s'. split; [done|]. split; [exact E|].
    assert (Hne : e <> x) by (intros ->; apply Ne; apply elem_of_app; right; by left). assert (He' : handles s' !! e = Some (mk_handle v k true 2)) by (rewrite (F e) by done; apply lookup_insert_eq).
    split_and!; try done.
    + exists (l1 ++ e :: l3). split_and!; [destruct M as [->| ->]; [done|by apply ot_seq_free]| |eapply core_perm; [done|done|exact C']].
      apply (sorted_new s s' l1 l3 e k); [by eapply sorted_remove| | |by unfold key_at; rewrite He'|done|done]; intros y Hy; assert (Hy' : y ∈ l1 ++ x :: l3) by (rewrite elem_of_app, elem_of_cons in *; tauto); [by apply Hk|].
      unfold key_at. rewrite (F y) by (intros ->; apply Nx; rewrite elem_of_app, elem_of_cons in *; tauto). cbn. by rewrite lookup_insert_ne by congruence.
    + rewrite I. cbn. unfold without. by rewrite filter_app, filter_cons_True.
    + intros y Hy1 Hy2. rewrite (F y) by congruence. cbn. by apply lookup_insert_ne.
  - destruct (Hl e Ne) as (t & El & Ht'). cbn [cache_map set_size set_lists set_handles set_map]. rewrite El. cbn [mbind option_bind]. eexists. split; [done|]. split; [reflexivity|].
    split_and!; try done; [|apply lookup_insert_eq|intros y Hy _; by apply lookup_insert_ne].
    exists (l1 ++ e :: l2). split_and!; [done| |eapply core_perm; [done|apply Permutation_middle|exact (Cn t)]].
    apply (sorted_new s _ l1 l2 e k); try done; [|unfold key_at; cbn; by rewrite lookup_insert_eq]. intros y Hy. unfold key_at. cbn. by rewrite lookup_insert_ne by congruence.
Qed.

(** How many unreferenced handles are too many when [n] are in the cache. *)
Definition excess (s : lru) (n : Z) : nat := if 0 <? max_size s then Z.to_nat (n - max_size s) else 0.

Lemma put_ok s held made k v e : lru_ok s held made -> handles s !! e = None -> exists r s', is_found s k r /\ put k v e s = Some s' /\ lru_ok s' (e :: held) (v :: made) /\
  max_size s' = max_size s /\ (let j := excess s (len (minus r (cached s)) + 1) in not_use s' = skipn j (minus r (not_use s)) /\ in_use s' = minus r (in_use s) ++ [e] /\
  handles s' !! e = Some (mk_handle v k true 2) /\ (forall y, y <> e -> r <> Some y -> y ∉ firstn j (minus r (not_use s)) -> handles s' !! y = handles s !! y)).
Proof.
  intros Hok He. destruct (put_node_ok s held made k v e Hok He) as (r & s1 & Hr & E & Hok1 & X & N & I & H & F). unfold put. rewrite E. cbn [mbind option_bind]. exists r.
  assert (Sz : size_ s1 = len (minus r (cached s)) + 1).
  { rewrite (ok_size _ _ _ Hok1). unfold cached. rewrite N, I. destruct r as [x|]; cbn; unfold without; rewrite ?filter_app, !length_app; cbn; lia. }
  unfold excess. rewrite <- X, <- Sz, <- N. destruct (Z.ltb_spec 0 (max_size s1)); [|exists s1; split_and!; try done; intros y Hy1 Hy2 _; by apply F].
  destruct (evict_ok (S (length (not_use s1))) s1 _ _ Hok1) as (s' & E' & Hok' & X' & N' & I' & F'); [lia|]. exists s'. split_and!; try done; [congruence| |].
  - rewrite F'; [done|]. intros Hy. pose proof (ok_nodup _ _ _ Hok1) as Nd. unfold cached in Nd. apply NoDup_app_inv in Nd as (_ & _ & D). apply (D e); [by eapply subseteq_take|].
    rewrite I. apply elem_of_app. right. by left.
  - intros y Hy1 Hy2 Hy3. rewrite F' by done. by apply F.
Qed.

Lemma lru_ok_perm s held held' made : held ≡ₚ held' -> lru_ok s held made -> lru_ok s held' made.
Proof. intros P (Q & Ht & Hs & C). exists Q. split_and!; [done|done|]. by eapply core_perm. Qed.

Lemma lru_release_ok s held made e : lru_ok s (e :: held) made -> exists s', release e s = Some s' /\ lru_ok s' held made /\ max_size s' = max_size s /\ frame e s s' /\ cached s' ≡ₚ cached s /\
  (forall x, x ∈ cached s -> key_at s' x = key_at s x) /\ not_use s' = not_use s ++ (if decide (e ∈ cached s /\ e ∉ held) then [e] else []).
Proof.
  intros (Q & Ht & Hs & C). destruct (core_unref _ _ _ _ _ C) as (s' & E & C' & M & X & _ & K & F & _ & N). exists s'. split; [exact E|]. split_and!; try done.
  - exists Q. split_and!; [|by eapply sorted_keys|done]. destruct M as [->|[Nq ->]]; [done|by apply ot_seq_free].
  - unfold cached. by rewrite (co_lists _ _ _ _ C), (co_lists _ _ _ _ C').
  - intros x Hx. apply K. unfold cached in Hx. by rewrite (co_lists _ _ _ _ C) in Hx.
  - rewrite N. f_equal. assert (Hq : e ∈ cached s <-> e ∈ Q) by (unfold cached; by rewrite (co_lists _ _ _ _ C)).
    pose proof (count_pos e held) as Hc. assert (0 <= count e held) by (unfold count; lia). assert (He : e ∉ held <-> count e held = 0) by (rewrite Hc; lia).
    destruct (decide (e ∈ Q /\ count e held = 0)); [rewrite decide_True by tauto|rewrite decide_False by tauto]; done.
Qed.

Lemma cached_iff s held made e : lru_ok s held made -> e ∈ cached s <-> exists h, handles s !! e = Some h /\ in_cache h = true.
Proof.
  intros Hok. split; [intros He; destruct (ok_cached _ _ _ _ Hok He) as (h & ? & ? & _); eauto|]. intros (h & Hh & Ec). destruct Hok as (Q & _ & _ & C).
  unfold cached. rewrite (co_lists _ _ _ _ C). by apply (co_cached _ _ _ _ C e h).
Qed.

Lemma lru_del_ok s held made k : lru_ok s held made -> exists r s', is_found s k r /\ del k s = Some s' /\ lru_ok s' held made /\ max_size s' = max_size s /\
  not_use s' = minus r (not_use s) /\ (forall y, y ∈ cached s' <-> r <> Some y /\ y ∈ cached s) /\ (forall y, r <> Some y -> handles s' !! y = handles s !! y).
Proof.
  intros Hok. destruct (get_ok s held made k Hok) as (r & Hr & H). unfold del. exists r. destruct r as [e|].
  2:{ rewrite H. exists s. by split_and!; auto; intros; split; [|intros []]. }
  destruct H as (s1 & E1 & Hok1 & Sm & N1 & _ & F1 & P1). rewrite E1. cbn [mbind option_bind]. destruct Hr as [He Hk].
  destruct (lru_release_ok _ _ _ _ Hok1) as (s2 & E2 & Hok2 & X2 & F2 & P2 & _ & N2). unfold release in E2. rewrite E2. cbn [mbind option_bind].
  assert (He2 : e ∈ cached s2) by (by rewrite P2, P1).
  destruct (drop_ok _ _ _ e Hok2 He2) as (s3 & E3 & Hok3 & X3 & F3 & N3 & I3). exists s3.
  assert (Fr : forall y, e <> y -> handles s3 !! y = handles s !! y) by (intros y Hy; rewrite F3, F2, F1 by congruence; done).
  assert (Ne : e ∉ cached s3) by (unfold cached; rewrite N3, I3, elem_of_app, !without_in; tauto).
  split_and!; try done.
  - rewrite X3, X2. apply Sm.
  - rewrite N3, N2, N1. cbn. rewrite without_app, (without_id e (without e _)) by (rewrite without_in; tauto).
    destruct (decide _); unfold without; [rewrite filter_cons_False by tauto|]; apply app_nil_r.
  - intros y. rewrite (cached_iff _ _ _ y Hok3), (cached_iff _ _ _ y Hok). destruct (decide (e = y)) as [->|Hy].
    + rewrite <- (cached_iff _ _ _ y Hok3). naive_solver.
    + rewrite (Fr y Hy). naive_solver.
  - intros y Hy. apply Fr. congruence.
Qed.

Lemma destroy_loop_ok l : forall s, NoDup l -> (forall e, e ∈ l <-> is_Some (handles s !! e)) -> (forall e h, handles s !! e = Some h -> in_cache h = true /\ refs h = 1) ->
  exists s', destroy_loop l s = Some s' /\ handles s' = ∅ /\ deleted s' ≡ₚ (value <$> (map_to_list (handles s)).*2) ++ deleted s.
Proof.
  induction l as [|e l IH]; intros s Nd Hd Hh; cbn [destroy_loop].
  - assert (E : handles s = ∅) by (apply map_empty; intros x; destruct (handles s !! x) eqn:Ex; [|done]; by destruct (proj1 (elem_of_nil x) (proj2 (Hd x) (mk_is_Some _ _ Ex)))).
    exists s. by rewrite E, map_to_list_empty.
  - apply NoDup_cons in Nd as [Ne Nd]. destruct (proj1 (Hd e)) as [h He]; [by left|]. destruct (Hh e h He) as [Ec R]. rewrite He. cbn [mbind option_bind]. rewrite Ec, R.
    cbn [andb Z.eqb Pos.eqb]. unfold unref. cbn [handles set_handles]. rewrite lookup_insert_eq. cbn [mbind option_bind uncached refs in_cache]. rewrite R.
    change (1 <=? 0) with false. change (1 - 1 =? 0) with true. cbn iota. cbn [mbind option_bind handles]. cbn [handles set_handles]. rewrite insert_insert_eq, delete_insert_eq. match goal with |- context [destroy_loop l ?s1] => destruct (IH s1 Nd) as (s' & E & Em & P) end; [| |exists s'; split; [exact E|]; split; [done|]].
    + intros x. cbn. destruct (decide (x = e)) as [->|]; [rewrite lookup_delete_eq; split; [done|by intros []]|]. rewrite lookup_delete_ne by done. rewrite <- Hd, elem_of_cons. tauto.
    + intros x hx. cbn. intros [_ Hx]%lookup_delete_Some. by apply (Hh x hx).
    + rewrite P. cbn. rewrite (made_delete _ e h He). solve_Permutation.
Qed.

(** The destructor, when no caller has a reference. *)
Lemma lru_destroy_ok s made : lru_ok s [] made -> exists s', lru_destroy s = Some s' /\ handles s' = ∅ /\ deleted s' ≡ₚ made.
Proof.
  intros Hok. pose proof Hok as (Q & _ & _ & C). assert (Ei : in_use s = []).
  { destruct (in_use s) as [|x l] eqn:E; [done|]. assert (H : x ∈ in_use s) by (rewrite E; by left). pose proof (co_in_use _ _ _ _ C x H) as H'. change (count x []) with 0 in H'. lia. }
  unfold lru_destroy. rewrite decide_True by done. pose proof (ok_nodup _ _ _ Hok) as Nd. unfold cached in Nd. rewrite Ei, app_nil_r in Nd.
  assert (Hc : forall e h, handles s !! e = Some h -> in_cache h = true /\ refs h = 1).
  { intros e h Hh. destruct (co_refs _ _ _ _ C e h Hh) as [R P]. change (count e []) with 0 in R. destruct (in_cache h); [split; [done|lia]|lia]. }
  destruct (destroy_loop_ok (not_use s) s Nd) as (s' & E & Em & P); [|exact Hc|].
  - intros e. pose proof (cached_iff _ _ _ e Hok) as Hi. unfold cached in Hi. rewrite Ei, app_nil_r in Hi. rewrite Hi. split; [intros (h & Hh & _); by eexists|]. intros [h Hh]. exists h. split; [done|]. by apply (Hc e h).
  - exists s'. split_and!; [done..|]. by rewrite P, (co_made _ _ _ _ C).
Qed.

(** ** A program with a cache *)

Inductive lop :=
  | OpMaxSize (n : Z)
  | OpGet (k : KEY)
  | OpPut (k : KEY) (v : VALUE) (e : loc)
  | OpRelease (e : loc)
  | OpDel (k : KEY)
  | OpPrune.

Definition exec (op : lop) (s : lru) : option (ptr * lru) :=
  match op with
  | OpMaxSize n => Some (None, set_max_size n s)
  | OpGet k => get k s
  | OpPut k v e => s ← put k v e s; Some (Some e, s)
  | OpRelease e => s ← release e s; Some (None, s)
  | OpDel k => s ← del k s; Some (None, s)
  | OpPrune => s ← prune s; Some (None, s)
  end.

(** What the cache asks of its callers: a reference is released once, and [new] gives memory not in use. *)
Definition allowed (op : lop) (s : lru) (held : list loc) : Prop :=
  match op with OpPut _ _ e => handles s !! e = None | OpRelease e => e ∈ held | OpMaxSize n => 0 <= n | _ => True end.

(** The references of the callers and the values given to the cache. *)
Definition held_after (op : lop) (r : ptr) (held : list loc) : list loc :=
  match op, r with
  | OpRelease e, _ => remove_one e held
  | _, Some e => e :: held
  | _, None => held
  end.
Definition made_after (op : lop) (made : list VALUE) : list VALUE := match op with OpPut _ v _ => v :: made | _ => made end.

Inductive reach : lru -> list loc -> list VALUE -> Prop :=
  | reach_new : reach lru_new [] []
  | reach_step s held made op r s' : reach s held made -> allowed op s held -> exec op s = Some (r, s') -> reach s' (held_after op r held) (made_after op made).

Lemma lru_new_ok : lru_ok lru_new [] [].
Proof.
  exists []. split_and!; [apply ot_seq_empty|constructor|]. constructor; cbn; try done; try (by intros e h; rewrite lookup_empty); try (by intros e ?%elem_of_nil).
  - by intros e [?%elem_of_nil|?%elem_of_nil].
  - constructor.
Qed.

(** Every allowed operation is done, and keeps the invariant. *)
Lemma exec_ok op s held made : lru_ok s held made -> allowed op s held -> exists r s', exec op s = Some (r, s') /\ lru_ok s' (held_after op r held) (made_after op made).
Proof.
  intros Hok Ha. destruct op as [n|k|k v e|e|k|]; cbn [exec allowed held_after made_after] in *.
  - exists None, (set_max_size n s). split; [done|]. destruct Hok as (Q & Ht & Hs & C). exists Q. split_and!; [done|done|]. destruct C. by constructor.
  - destruct (get_ok s held made k Hok) as ([e|] & _ & H); [destruct H as (s' & E & H & _); eauto|eauto].
  - destruct (put_ok s held made k v e Hok Ha) as (r & s' & _ & E & H & _). rewrite E. cbn. eauto.
  - destruct (lru_release_ok s (remove_one e held) made e) as (s' & E & H & _); [eapply lru_ok_perm; [by apply remove_one_perm|done]|]. rewrite E. cbn. eauto.
  - destruct (lru_del_ok s held made k Hok) as (r & s' & _ & E & H & _). rewrite E. cbn. eauto.
  - destruct (prune_loop_ok (not_use s) s held made Hok eq_refl) as (s' & E & H & _). unfold prune. rewrite E. cbn. eauto.
Qed.

Lemma reach_ok s held made : reach s held made -> lru_ok s held made.
Proof.
  induction 1 as [|s held made op r s' Hr IH Ha E]; [apply lru_new_ok|]. destruct (exec_ok op s held made IH Ha) as (r' & s'' & E' & H).
  rewrite E in E'. by injection E' as <- <-.
Qed.

Lemma sorted_cases s Q x y : StronglySorted (before_at s) Q -> x ∈ Q -> y ∈ Q -> x = y \/ before_at s x y \/ before_at s y x.
Proof.
  induction 1 as [|z l Hs IH Hz]; [by intros ?%elem_of_nil|]. rewrite Forall_forall in Hz. intros [->|Hx]%elem_of_cons [->|Hy]%elem_of_cons; auto.
Qed.

(** A key has one handle in the cache. *)
Lemma key_unique s held made k x y : lru_ok s held made -> x ∈ cached s -> y ∈ cached s -> at_key s k x -> at_key s k y -> x = y.
Proof.
  intros (Q & _ & Hs & C) Hx Hy (a & Ha & Ha1 & Ha2) (b & Hb & Hb1 & Hb2). unfold cached in *. rewrite (co_lists _ _ _ _ C) in *.
  destruct (sorted_cases s Q x y Hs Hx Hy) as [?|[H|H]]; [done| |]; unfold before_at in H; rewrite Ha, Hb in H.
  - destruct (key_cotrans a b k H); congruence.
  - destruct (key_cotrans b a k H); congruence.
Qed.

(** After [put] the cache is full at most, or every handle in it is referenced. *)
Lemma put_bounded s held made n s' : lru_ok s' held made -> max_size s' = max_size s -> not_use s' = skipn (excess s (len (n ++ in_use s'))) n ->
  0 < max_size s -> size_ s' <= max_size s \/ not_use s' = [].
Proof.
  intros Hok X N Hm. unfold excess in N. replace (0 <? max_size s) with true in N by lia. rewrite (ok_size _ _ _ Hok). unfold cached.
  destruct (decide (length n <= Z.to_nat (len (n ++ in_use s') - max_size s)))%nat as [Hl|Hl]; [right; rewrite N; by apply skipn_all2|left].
  rewrite length_app in *. rewrite N, length_skipn. lia.
Qed.

End Cache.

(** ** The cache over the red-black trees *)

Section Client.
Context {KEY VALUE : Type} (key_lt : KEY -> KEY -> bool) `{KO : !key_order key_lt}.

(** C35. The cache is safe for any program that releases each reference once.  Every operation
    is done: no [assert] fails, no freed handle is used, no search in the tree fails.  A
    referenced handle is not freed; the count of a handle is the references of the callers
    and one for the cache, and is positive; every value put is in exactly one handle not
    freed or was given to the deleter exactly once; and when all references are released the
    destructor gives each remaining value to the deleter and leaves no handle. *)
Theorem lru_safe (s : lru (KEY := KEY) (VALUE := VALUE) (T := state)) held made : reach key_lt s held made ->
  (forall op, allowed op s held -> is_Some (exec key_lt op s)) /\
  (forall e, e ∈ held -> is_Some (handles s !! e)) /\
  (forall e h, handles s !! e = Some h -> refs h = (if in_cache h then 1 else 0) + count e held /\ 0 < refs h) /\
  made ≡ₚ (value <$> (map_to_list (handles s)).*2) ++ deleted s /\
  (held = [] -> exists s', lru_destroy s = Some s' /\ handles s' = ∅ /\ deleted s' ≡ₚ made).
Proof.
  intros Hok%reach_ok; [|done]. pose proof Hok as (Q & _ & _ & C). split_and!.
  - intros op Ha. destruct (exec_ok key_lt op s held made Hok Ha) as (r & s' & E & _). rewrite E. by eexists.
  - intros e He. apply (co_live _ _ _ _ C). by left.
  - apply (co_refs _ _ _ _ C).
  - apply (co_made _ _ _ _ C).
  - intros ->. by apply (lru_destroy_ok key_lt).
Qed.

(** C24. The cache implements the replacement policy over its order.  A key has at most one
    handle in the cache, and [get] returns it, or NULL when there is none, and takes it out
    of the handles that can be evicted; [release] of the last reference makes a cached
    handle the newest of them; [put] replaces the handle of an equivalent key, enters
    the new one, and removes exactly the oldest unreferenced handles in excess of
    [max_size], so that the cache holds [max_size] handles at most or only referenced
    ones; [del] removes the key; [prune] removes every unreferenced handle. *)
Theorem lru_policy (s : lru (KEY := KEY) (VALUE := VALUE) (T := state)) held made : reach key_lt s held made ->
  (forall k x y, x ∈ cached s -> y ∈ cached s -> at_key key_lt s k x -> at_key key_lt s k y -> x = y) /\
  (forall k, exists r s', is_found key_lt s k r /\ get key_lt k s = Some (r, s') /\ not_use s' = minus r (not_use s) /\ cached s' ≡ₚ cached s) /\
  (forall e, e ∈ held -> exists s', release e s = Some s' /\ cached s' ≡ₚ cached s /\
     not_use s' = not_use s ++ (if decide (e ∈ cached s /\ e ∉ remove_one e held) then [e] else [])) /\
  (forall k v e, handles s !! e = None -> exists r s', is_found key_lt s k r /\ put key_lt k v e s = Some s' /\
     let j := excess s (len (minus r (cached s)) + 1) in
     not_use s' = skipn j (minus r (not_use s)) /\ in_use s' = minus r (in_use s) ++ [e] /\
     handles s' !! e = Some (mk_handle v k true 2) /\
     (forall y, y <> e -> r <> Some y -> y ∉ firstn j (minus r (not_use s)) -> handles s' !! y = handles s !! y) /\
     (0 < max_size s -> size_ s' <= max_size s \/ not_use s' = [])) /\
  (forall k, exists r s', is_found key_lt s k r /\ del key_lt k s = Some s' /\ not_use s' = minus r (not_use s) /\
     (forall y, y ∈ cached s' <-> r <> Some y /\ y ∈ cached s)) /\
  (exists s', prune s = Some s' /\ not_use s' = [] /\ in_use s' = in_use s).
Proof.
  intros Hok%reach_ok; [|done]. split; [intros k x y; by apply (key_unique key_lt s held made)|]. split; [|split; [|split; [|split]]].
  - intros k. destruct (get_ok key_lt s held made k Hok) as (r & Hr & H). exists r. destruct r as [e|]; [|exists s; by split_and!].
    destruct H as (s' & E & _ & _ & N & _ & _ & P). exists s'. by split_and!.
  - intros e He. destruct (lru_release_ok key_lt s (remove_one e held) made e) as (s' & E & _ & _ & _ & P & _ & N); [eapply lru_ok_perm; [by apply remove_one_perm|done]|]. exists s'. by split_and!.
  - intros k v e He. destruct (put_ok key_lt s held made k v e Hok He) as (r & s' & Hr & E & Hok' & X & N & I & H & F). exists r, s'. split; [done|]. split; [done|]. cbn zeta. split_and!; try done.
    apply (put_bounded key_lt s (e :: held) (v :: made) (minus r (not_use s)) s' Hok' X). rewrite N, I. do 2 f_equal. unfold cached.
    destruct r as [x|]; cbn; rewrite ?without_app, !length_app; cbn; lia.
  - intros k. destruct (lru_del_ok key_lt s held made k Hok) as (r & s' & Hr & E & _ & _ & N & P & _). exists r, s'. by split_and!.
  - destruct (prune_loop_ok key_lt (not_use s) s held made Hok eq_refl) as (s' & E & _ & _ & N & I & _). by exists s'.
Qed.

End Client.

(** ** An example: integer keys, room for two *)

#[export] Instance z_keys : key_order Z.ltb.
Proof. constructor; intros; lia. Qed.

Definition example_ops : list (lop (KEY := Z) (VALUE := Z)) :=
  [OpMaxSize 2; OpPut 1 10 1%positive; OpRelease 1%positive; OpPut 2 20 2%positive; OpRelease 2%positive; OpGet 1; OpRelease 1%positive; OpPut 3 30 3%positive].

#[export] Instance allowed_dec {KEY VALUE T} (op : lop (KEY := KEY) (VALUE := VALUE)) (s : lru (T := T)) held : Decision (allowed op s held).
Proof. destruct op; cbn; apply _. Defined.

Fixpoint run (ops : list (lop (KEY := Z) (VALUE := Z))) (s : lru (T := state)) (held : list loc) (made : list Z) : option (lru (T := state) * list loc * list Z) :=
  match ops with
  | [] => Some (s, held, made)
  | op :: ops =>
      if decide (allowed op s held) then '(r, s) ← exec Z.ltb op s; run ops s (held_after op r held) (made_after op made)
      else None
  end.
Lemma lru_run_reach ops : forall s held made s' held' made', run ops s held made = Some (s', held', made') -> reach Z.ltb s held made -> reach Z.ltb s' held' made'.
Proof.
  induction ops as [|op ops IH]; cbn; intros s held made s' held' made' E H; [by injection E as <- <- <-|]. destruct (decide (allowed op s held)); [|done].
  destruct (exec Z.ltb op s) as [[r s1]|] eqn:E1; [|done]. cbn in E. eapply IH; [exact E|]. by eapply reach_step.
Qed.

Definition example : lru (KEY := Z) (VALUE := Z) (T := state) := match run example_ops lru_new [] [] with Some (s, _, _) => s | None => lru_new end.
Lemma lru_example_reach : reach Z.ltb example [3%positive] [30; 20; 10].
Proof. eapply (lru_run_reach example_ops lru_new [] []); [vm_compute; reflexivity|apply reach_new]. Qed.

Lemma lru_safe_witness : is_Some (exec Z.ltb (OpPut 4 40 4%positive) example) /\ deleted example = [20] /\ cached example = [1%positive; 3%positive].
Proof.
  destruct (lru_safe Z.ltb example _ _ lru_example_reach) as (Hop & _). split; [|split; vm_compute; reflexivity]. apply Hop. vm_compute. reflexivity.
Defined.

Lemma lru_policy_witness : exists (r : ptr) (s' : lru (T := state)), get Z.ltb 1 example = Some (r, s') /\ not_use s' = minus r [1%positive].
Proof.
  destruct (lru_policy Z.ltb example _ _ lru_example_reach) as (_ & Hget & _). destruct (Hget 1) as (r & s' & _ & E & N & _). exists r, s'. split; [exact E|].
  rewrite N. replace (not_use example) with [1%positive] by (vm_compute; reflexivity). reflexivity.
Defined.
