(* ===== verification/CommConn.v ===== *)
(** * Connections of the communicator: [src/kernel/Communicator.cc]

    What the client and the server side share: the states of a connection entry, the
    results a poller gives for its descriptor, the nodes of the poller, and the outcome
    of a step of a thread, which may have to wait for a mutex or touch memory
    that was freed.

    By the theorems on the poller a descriptor has one node; when the node is
    taken out of the poller the result for it is put into the message queue once.  The
    handler threads take results in order but run at the same time, so the
    results of an entry are handled in any order: [results] is a multiset.  A call of
    the poller is one step. *)

From S2P Require Import Prelude RBTree.

Local Open Scope Z_scope.

(** [CONN_STATE_...] *)
Inductive conn_state := CONNECTING | CONNECTED | RECEIVING | SUCCESS | IDLE | KEEPALIVE | CLOSING | ERROR.
(** [PD_OP_...] *)
Inductive pd_op := OP_READ | OP_WRITE | OP_CONNECT.
(** [PR_ST_...] *)
Inductive pr_state := PR_SUCCESS | PR_FINISHED | PR_ERROR | PR_DELETED | PR_MODIFIED | PR_STOPPED.
(** [CS_STATE_...] *)
Inductive cs_state := CS_SUCCESS | CS_ERROR | CS_STOPPED | CS_TOREPLY.

#[export] Instance conn_state_eq_dec : EqDecision conn_state.
Proof. solve_decision. Defined.
#[export] Instance pd_op_eq_dec : EqDecision pd_op.
Proof. solve_decision. Defined.
#[export] Instance pr_state_eq_dec : EqDecision pr_state.
Proof. solve_decision. Defined.
#[export] Instance cs_state_eq_dec : EqDecision cs_state.
Proof. solve_decision. Defined.

(** The node of a descriptor; [n_msg]: a message is being received. *)
Record node := mk_node { n_op : pd_op; n_msg : bool }.
(** The result of a poller: what was done and how it ended. *)
Definition result : Type := pd_op * pr_state.

(** A step is done, waits for a mutex, or goes wrong: memory that was freed is used. *)
Inductive outcome (A : Type) := Done (a : A) | Blocked | Fault.
Arguments Done {A}.
Arguments Blocked {A}.
Arguments Fault {A}.

#[export] Instance outcome_ret : MRet outcome := fun A a => Done a.
#[export] Instance outcome_bind : MBind outcome := fun A B f o => match o with Done a => f a | Blocked => Blocked | Fault => Fault end.

(** The program goes on when [b] holds. *)
Definition must (b : bool) : outcome unit := if b then Done tt else Fault.

(** What a program may see of an outcome. *)
Definition safe {A} (o : outcome A) : Prop := o <> Fault.

(** How a message is sent: what [message_out] and [encode], [writev], [malloc] and the
    poller answer. *)
Inductive sent := SentAll | SentPart | SentFail.
Record answers := mk_answers { a_out : bool; a_sent : sent; a_mem : bool; a_poll : bool }.

(** Counting the elements of a kind. *)
Definition cnt {A} (f : A -> bool) (l : list A) : nat := length (filter (fun x => f x = true) l).

Lemma cnt_cons {A} (f : A -> bool) x l : cnt f (x :: l) = (Nat.b2n (f x) + cnt f l)%nat.
Proof. unfold cnt. rewrite filter_cons. destruct (f x) eqn:E; cbn [Nat.b2n]; [by rewrite decide_True|by rewrite decide_False]. Qed.
Lemma cnt_nil {A} (f : A -> bool) : cnt f [] = 0%nat.
Proof. done. Qed.
Lemma cnt_same {A} (f : A -> bool) l1 l2 : l1 ≡ₚ l2 -> cnt f l1 = cnt f l2.
Proof. intros P. unfold cnt. by rewrite P. Qed.
Lemma cnt_remove `{EqDecision A} (f : A -> bool) x l : x ∈ l -> cnt f l = (Nat.b2n (f x) + cnt f (remove_one x l))%nat.
Proof. intros H. rewrite (cnt_same f _ _ (remove_one_perm x l H)). apply cnt_cons. Qed.
Lemma cnt_in {A} (f : A -> bool) x l : x ∈ l -> f x = true -> (0 < cnt f l)%nat.
Proof.
  intros H E. unfold cnt. assert (x ∈ filter (fun x => f x = true) l) as Hx by (by apply list_elem_of_filter). destruct (filter _ l); [by apply elem_of_nil in Hx|cbn; lia].
Qed.
Lemma cnt_none {A} (f : A -> bool) x l : cnt f l = 0%nat -> x ∈ l -> f x = false.
Proof. intros H Hx. destruct (f x) eqn:E; [|done]. pose proof (cnt_in f x l Hx E). lia. Qed.

(** ** Results and nodes of a kind *)

(** The state the session gets when it fails. *)
Definition failed (st : pr_state) : cs_state :=
  match st with PR_DELETED | PR_STOPPED => CS_STOPPED | _ => CS_ERROR end.

(** The values of [CONN_STATE_...]. *)
Definition code (st : conn_state) : Z :=
  match st with CONNECTING => 0 | CONNECTED => 1 | RECEIVING => 2 | SUCCESS => 3 | IDLE => 4 | KEEPALIVE => 5 | CLOSING => 6 | ERROR => 7 end.

Definition num {A} (f : A -> bool) (l : list A) : Z := Z.of_nat (cnt f l).
Definition bz (b : bool) : Z := if b then 1 else 0.
Definition nod (f : node -> bool) (o : option node) : Z := match o with Some n => bz (f n) | None => 0 end.
Definition op_is (op : pd_op) (n : node) : bool :=
  match op, n_op n with OP_READ, OP_READ | OP_WRITE, OP_WRITE | OP_CONNECT, OP_CONNECT => true | _, _ => false end.
Definition reading (n : node) : bool := n_msg n.
Definition r_connect (r : result) : bool := match r with (OP_CONNECT, _) => true | _ => false end.
Definition r_write (r : result) : bool := match r with (OP_WRITE, _) => true | _ => false end.
Definition r_success (r : result) : bool := match r with (OP_READ, PR_SUCCESS) => true | _ => false end.
Definition r_end (r : result) : bool := match r with (OP_READ, (PR_SUCCESS | PR_MODIFIED)) => false | (OP_READ, _) => true | _ => false end.
Definition succeeded (st : pr_state) : bool := match st with PR_SUCCESS => true | _ => false end.
Definition ended (st : pr_state) : bool := match st with PR_FINISHED | PR_ERROR | PR_DELETED | PR_STOPPED => true | _ => false end.
Definition result_ok (r : result) : Prop := match r with (OP_READ, _) => True | (_, st) => ended st = true end.

Lemma num_cons {A} (f : A -> bool) x l : num f (x :: l) = bz (f x) + num f l.
Proof. unfold num, bz. rewrite cnt_cons. destruct (f x); cbn [Nat.b2n]; lia. Qed.
Lemma bz_range b : 0 <= bz b <= 1.
Proof. destruct b; cbn; lia. Qed.
Lemma num_nonneg {A} (f : A -> bool) l : 0 <= num f l.
Proof. unfold num. lia. Qed.
Lemma num_perm {A} (f : A -> bool) l1 l2 : l1 ≡ₚ l2 -> num f l1 = num f l2.
Proof. intros P. unfold num. by rewrite (cnt_same f _ _ P). Qed.
Lemma code_range st : 0 <= code st <= 7.
Proof. destruct st; cbn; lia. Qed.
Lemma code_inj st st' : code st = code st' -> st = st'.
Proof. by destruct st, st'. Qed.

Lemma nod_range o : 0 <= nod reading o <= 1 /\ 0 <= nod (op_is OP_READ) o /\ 0 <= nod (op_is OP_WRITE) o /\ 0 <= nod (op_is OP_CONNECT) o /\
  nod (op_is OP_READ) o + nod (op_is OP_WRITE) o + nod (op_is OP_CONNECT) o <= 1.
Proof. destruct o as [[[] []]|]; cbn; lia. Qed.

Lemma num_pos {A} (f : A -> bool) l : 0 < num f l -> exists x, x ∈ l /\ f x = true.
Proof.
  unfold num, cnt. intros H. destruct (filter (fun x => f x = true) l) as [|x k] eqn:E; [cbn in H; lia|]. exists x.
  assert (Hx : x ∈ filter (fun x => f x = true) l) by (rewrite E; by left). apply list_elem_of_filter in Hx. tauto.
Qed.

(** A list of results of no kind but the one that says a node was modified. *)
Lemma dead_results l : num r_connect l = 0 -> num r_write l = 0 -> num r_success l = 0 -> num r_end l = 0 -> Forall (fun r => r = (OP_READ, PR_MODIFIED)) l.
Proof.
  intros H1 H2 H3 H4. apply Forall_forall. intros r Hr. unfold num in *.
  assert (N : forall f, Z.of_nat (cnt f l) = 0 -> f r = false) by (intros f Hf; apply (cnt_none f r l); [lia|done]).
  apply N in H1, H2, H3, H4. destruct r as [[] []]; cbn in *; done.
Qed.
