(* ===== verification/CommClient.v ===== *)
(** * Requests: the client side of [src/kernel/Communicator.cc]

    A session is sent on an idle connection of its target or on a new one; a handler
    thread hands it back when the reply is complete or something failed, and the
    connection goes to the idle list of the target.  Requesting threads, handler
    threads and the poller work on a connection entry at the same time; the entry has a
    count of references and goes through the states [CONN_STATE_...], guarded
    by the mutex of the target and by its own.

    The state of the library is a map of connections.  A connection is the entry
    with its node in the poller, its [results] that wait in the message queue, and
    the [points] at which threads are that work on the entry.  A step of a thread
    goes from one lock, poller call or call of the user to the next; what is done under the
    mutex of a target is one step.  A step says that it waits for the mutex of the
    entry ([Blocked]) or that it touches an entry that was freed, a session
    that was handed back, or takes an entry out of a list it is not in ([Fault]).
    An entry that was freed keeps its place with [alive] false, so that addresses are not used
    again.  Time limits are not part of the state; [keep] is the test
    [session->timeout != 0] for keep-alive. *)

From S2P Require Import Prelude RBTree CommConn.

Local Open Scope Z_scope.

(** Where a thread is that works on an entry. *)
Inductive point :=
  (* [request_idle_conn], the mutex of the entry is locked *)
  | RTake (s : loc)
  | RSend (s : loc)
  | RFail (s : loc)
  | RError (s : loc)
  | RUnlock
  (* [handle_connect_result] *)
  | HConnect (st : pr_state)
  | HConnectRead
  | HConnectEnd (cs : cs_state)
  | HConnectFree
  (* [handle_request_result] *)
  | HWrite (st : pr_state)
  | HWriteRead
  | HWriteEnd (cs : cs_state)
  | HWriteWait
  (* [handle_incoming_reply] *)
  | HReply (st : pr_state)
  | HReplyUnlock (o : option (option (loc * cs_state)))
  | HReplyEnd (so : option (loc * cs_state))
  (* [__sync_sub_and_fetch(&entry->ref, 1)] *)
  | HDrop.

#[export] Instance point_eq_dec : EqDecision point.
Proof. solve_decision. Defined.

(** [struct CommConnEntry], its node, its results and the threads. *)
Record conn := mk_conn {
  alive : bool;
  state : conn_state;
  ref : Z;
  mutex : bool;
  session : loc;
  target : loc;
  write_iov : bool;
  keep : bool;
  c_node : option node;
  results : list result;
  points : list point }.

Definition with_state (st : conn_state) (c : conn) : conn :=
  mk_conn (alive c) st (ref c) (mutex c) (session c) (target c) (write_iov c) (keep c) (c_node c) (results c) (points c).
Definition with_ref (n : Z) (c : conn) : conn :=
  mk_conn (alive c) (state c) n (mutex c) (session c) (target c) (write_iov c) (keep c) (c_node c) (results c) (points c).
Definition with_mutex (b : bool) (c : conn) : conn :=
  mk_conn (alive c) (state c) (ref c) b (session c) (target c) (write_iov c) (keep c) (c_node c) (results c) (points c).
Definition with_session (s : loc) (c : conn) : conn :=
  mk_conn (alive c) (state c) (ref c) (mutex c) s (target c) (write_iov c) (keep c) (c_node c) (results c) (points c).
Definition with_iov (b : bool) (c : conn) : conn :=
  mk_conn (alive c) (state c) (ref c) (mutex c) (session c) (target c) b (keep c) (c_node c) (results c) (points c).
Definition with_keep (b : bool) (c : conn) : conn :=
  mk_conn (alive c) (state c) (ref c) (mutex c) (session c) (target c) (write_iov c) b (c_node c) (results c) (points c).
Definition with_node (n : option node) (c : conn) : conn :=
  mk_conn (alive c) (state c) (ref c) (mutex c) (session c) (target c) (write_iov c) (keep c) n (results c) (points c).
Definition emit (r : result) (c : conn) : conn :=
  mk_conn (alive c) (state c) (ref c) (mutex c) (session c) (target c) (write_iov c) (keep c) (c_node c) (r :: results c) (points c).
Definition with_results (l : list result) (c : conn) : conn :=
  mk_conn (alive c) (state c) (ref c) (mutex c) (session c) (target c) (write_iov c) (keep c) (c_node c) l (points c).
Definition with_points (l : list point) (c : conn) : conn :=
  mk_conn (alive c) (state c) (ref c) (mutex c) (session c) (target c) (write_iov c) (keep c) (c_node c) (results c) l.
(** [__release_conn] *)
Definition release_conn (c : conn) : conn :=
  mk_conn false (state c) (ref c) (mutex c) (session c) (target c) (write_iov c) (keep c) (c_node c) (results c) (points c).

(** A thread comes to a point. *)
Definition goto (p : point) (c : conn) : conn := with_points (p :: points c) c.

(** ** The poller *)

(** [mpoller_add]: [ok] is false when memory or the kernel fails. *)
Definition mpoller_add (op : pd_op) (ok : bool) (c : conn) : option conn :=
  match c_node c with
  | None => if ok then Some (with_node (Some (mk_node op false)) c) else None
  | Some _ => None
  end.
(** [mpoller_mod]; the error is [ENOENT] ([true]) or another. *)
Definition mpoller_mod (op : pd_op) (ok : bool) (c : conn) : conn + bool :=
  match c_node c with
  | None => inr true
  | Some n => if ok then inl (with_node (Some (mk_node op false)) (emit (n_op n, PR_MODIFIED) c)) else inr false
  end.
Definition mpoller_del (c : conn) : conn :=
  match c_node c with
  | None => c
  | Some n => with_node None (emit (n_op n, PR_DELETED) c)
  end.
(** The poller thread takes the node out. *)
Definition node_ends (st : pr_state) (c : conn) : conn :=
  match c_node c with
  | None => c
  | Some n => with_node None (emit (n_op n, st) c)
  end.

Section Steps.
(** [gone s]: the session was handed back to its owner. *)
Variable gone : loc -> bool.
(** [idle]: the entry is in the idle list of its target. *)

Definition use_entry (c : conn) : outcome unit := must (alive c).
Definition use_session (s : loc) : outcome unit := must (negb (gone s)).

(** What a step does: the connection, the list, sessions handed back, and sessions that
    look for another connection. *)
Record effect := mk_effect { e_conn : conn; e_idle : bool; e_handled : list (loc * cs_state); e_back : list loc }.

(** ** Sending *)

(** [send_message_async] *)
Definition send_message_async (a : answers) (c : conn) : Z * conn :=
  if negb (a_mem a) then (-1, c)
  else
    let c := with_iov true c in
    match state c with
    | IDLE =>
        match mpoller_mod OP_WRITE (a_poll a) c with
        | inl c => (1, c)
        | inr true => (1, with_iov false (with_state RECEIVING c))
        | inr false => (-1, with_iov false c)
        end
    | _ =>
        match mpoller_add OP_WRITE (a_poll a) c with
        | Some c => (1, c)
        | None => if decide (state c = RECEIVING) then (1, with_iov false c) else (-1, with_iov false c)
        end
    end.

(** [send_message], after [session->message_out()]. *)
Definition send_message (a : answers) (c : conn) : outcome (Z * conn) :=
  use_session (session c) ;;
  if negb (a_out a) then Done (-1, c)
  else
    match a_sent a with
    | SentFail => Done (-1, c)
    | SentAll => Done (0, with_state RECEIVING c)
    | SentPart => Done (send_message_async a c)
    end.

(** ** [request_idle_conn] *)

Definition request_take (s : loc) (idle : bool) (c : conn) : outcome effect :=
  use_entry c ;;
  match c_node c with
  | Some _ => Done (mk_effect (goto (RSend s) c) idle [] [])
  | None => Done (mk_effect (with_mutex false (with_state CLOSING c)) idle [] [s])
  end.

Definition request_send (s : loc) (a : answers) (idle : bool) (c : conn) : outcome effect :=
  use_entry c ;;
  let c := with_session s c in
  '(ret, c) ← send_message a c;
  Done (mk_effect (goto (if ret <? 0 then RFail s else RUnlock) c) idle [] []).

Definition request_fail (s : loc) (idle : bool) (c : conn) : outcome effect :=
  use_entry c ;; Done (mk_effect (goto (RError s) (mpoller_del c)) idle [] []).
Definition request_error (idle : bool) (c : conn) : outcome effect :=
  use_entry c ;; Done (mk_effect (goto RUnlock (with_state ERROR c)) idle [] []).
Definition request_unlock (idle : bool) (c : conn) : outcome effect :=
  use_entry c ;; Done (mk_effect (with_mutex false c) idle [] []).

(** ** The results *)

(** [handle_connect_result] *)
Definition connect_result (st : pr_state) (a : answers) (idle : bool) (c : conn) : outcome effect :=
  use_entry c ;;
  match st with
  | PR_FINISHED =>
      '(ret, c) ← send_message a c;
      Done (mk_effect (if ret =? 0 then goto HConnectRead c else if 0 <? ret then c else goto (HConnectEnd CS_ERROR) c) idle [] [])
  | PR_ERROR | PR_DELETED | PR_STOPPED => Done (mk_effect (goto (HConnectEnd (failed st)) c) idle [] [])
  | PR_SUCCESS | PR_MODIFIED => Done (mk_effect c idle [] [])
  end.
Definition connect_read (a : answers) (idle : bool) (c : conn) : outcome effect :=
  use_session (session c) ;;
  match mpoller_add OP_READ (a_poll a) c with
  | Some c => Done (mk_effect c idle [] [])
  | None => Done (mk_effect (goto (HConnectEnd CS_ERROR) c) idle [] [])
  end.
(** [target->release(); session->handle(state, res->error)] *)
Definition connect_end (cs : cs_state) (idle : bool) (c : conn) : outcome effect :=
  use_session (session c) ;; Done (mk_effect (goto HConnectFree c) idle [(session c, cs)] []).
Definition connect_free (idle : bool) (c : conn) : outcome effect :=
  use_entry c ;; Done (mk_effect (release_conn c) idle [] []).

(** [handle_request_result] *)
Definition request_result (st : pr_state) (idle : bool) (c : conn) : outcome effect :=
  use_entry c ;;
  match st with
  | PR_FINISHED => use_session (session c) ;; Done (mk_effect (goto HWriteRead (with_state RECEIVING c)) idle [] [])
  | PR_ERROR | PR_DELETED | PR_STOPPED => Done (mk_effect (goto (HWriteEnd (failed st)) c) idle [] [])
  | PR_SUCCESS | PR_MODIFIED => Done (mk_effect c idle [] [])
  end.
Definition request_read (a : answers) (idle : bool) (c : conn) : outcome effect :=
  match mpoller_add OP_READ (a_poll a) c with
  | Some c => Done (mk_effect c idle [] [])
  | None => Done (mk_effect (goto (HWriteEnd CS_ERROR) c) idle [] [])
  end.
Definition request_end (cs : cs_state) (idle : bool) (c : conn) : outcome effect :=
  use_entry c ;; use_session (session c) ;; Done (mk_effect (goto HWriteWait c) idle [(session c, cs)] []).
(** [pthread_mutex_lock(&entry->mutex); pthread_mutex_unlock(&entry->mutex)] *)
Definition request_wait (idle : bool) (c : conn) : outcome effect :=
  use_entry c ;; if mutex c then Blocked else Done (mk_effect (goto HDrop c) idle [] []).

(** [handle_incoming_reply], up to [pthread_mutex_unlock(&target->mutex)] *)
Definition incoming_reply (st : pr_state) (idle : bool) (c : conn) : outcome effect :=
  use_entry c ;;
  match st with
  | PR_SUCCESS =>
      use_session (session c) ;;
      let so := Some (session c, CS_SUCCESS) in
      if decide (state c = SUCCESS) then
        let c := with_ref (ref c + 1) c in
        if keep c then Done (mk_effect (goto (HReplyEnd so) (with_state IDLE c)) true [] [])
        else Done (mk_effect (goto (HReplyEnd so) (with_state CLOSING c)) idle [] [])
      else Done (mk_effect (goto (HReplyEnd so) c) idle [] [])
  | PR_FINISHED | PR_ERROR | PR_DELETED | PR_STOPPED =>
      if mutex c then Blocked
      else
        let c := with_mutex true c in
        match state c with
        | IDLE => must idle ;; Done (mk_effect (goto (HReplyUnlock (Some None)) c) false [] [])
        | ERROR => Done (mk_effect (goto (HReplyUnlock (Some (Some (session c, CS_ERROR)))) c) idle [] [])
        | RECEIVING => Done (mk_effect (goto (HReplyUnlock (Some (Some (session c, failed st)))) c) idle [] [])
        | SUCCESS => Done (mk_effect (goto (HReplyUnlock None) (with_state CLOSING c)) idle [] [])
        | _ => Done (mk_effect (goto (HReplyUnlock (Some None)) c) idle [] [])
        end
  | PR_MODIFIED => Done (mk_effect c idle [] [])
  end.
(** [pthread_mutex_unlock(mutex)] *)
Definition reply_unlock (o : option (option (loc * cs_state))) (idle : bool) (c : conn) : outcome effect :=
  use_entry c ;;
  let c := with_mutex false c in
  Done (mk_effect (match o with Some so => goto (HReplyEnd so) c | None => c end) idle [] []).
(** [if (session) { target->release(); session->handle(state, res->error); }] *)
Definition reply_end (so : option (loc * cs_state)) (idle : bool) (c : conn) : outcome effect :=
  match so with
  | Some (s, cs) => use_session s ;; Done (mk_effect (goto HDrop c) idle [(s, cs)] [])
  | None => Done (mk_effect (goto HDrop c) idle [] [])
  end.
(** [if (__sync_sub_and_fetch(&entry->ref, 1) == 0) __release_conn(entry);] *)
Definition drop_ref (idle : bool) (c : conn) : outcome effect :=
  use_entry c ;;
  let c := with_ref (ref c - 1) c in
  Done (mk_effect (if ref c =? 0 then release_conn c else c) idle [] []).

(** A thread goes on from its point. *)
Definition step_at (p : point) (a : answers) (idle : bool) (c : conn) : outcome effect :=
  match p with
  | RTake s => request_take s idle c
  | RSend s => request_send s a idle c
  | RFail s => request_fail s idle c
  | RError _ => request_error idle c
  | RUnlock => request_unlock idle c
  | HConnect st => connect_result st a idle c
  | HConnectRead => connect_read a idle c
  | HConnectEnd cs => connect_end cs idle c
  | HConnectFree => connect_free idle c
  | HWrite st => request_result st idle c
  | HWriteRead => request_read a idle c
  | HWriteEnd cs => request_end cs idle c
  | HWriteWait => request_wait idle c
  | HReply st => incoming_reply st idle c
  | HReplyUnlock o => reply_unlock o idle c
  | HReplyEnd so => reply_end so idle c
  | HDrop => drop_ref idle c
  end.
Definition run_point (p : point) (a : answers) (idle : bool) (c : conn) : outcome effect :=
  step_at p a idle (with_points (remove_one p (points c)) c).

(** A handler thread takes a result: [handler_thread_routine], [handle_read_result] and
    [handle_write_result], which frees [write_iov]. *)
Definition handle_result (r : result) (c : conn) : outcome conn :=
  match r with
  | (OP_CONNECT, st) => Done (goto (HConnect st) c)
  | (OP_WRITE, st) => use_entry c ;; must (write_iov c) ;; Done (goto (HWrite st) (with_iov false c))
  | (OP_READ, PR_MODIFIED) => Done c
  | (OP_READ, st) => use_entry c ;; Done (goto (HReply st) c)
  end.
Definition take_result (r : result) (c : conn) : outcome conn := handle_result r (with_results (remove_one r (results c)) c).

(** ** The callbacks of the poller *)

(** [create_reply]; [ok]: [message_in] gives a message. *)
Definition create_reply (ok : bool) (c : conn) : outcome conn :=
  use_entry c ;;
  if decide (state c = RECEIVING)
  then use_session (session c) ;; Done (if ok then with_node (Some (mk_node OP_READ true)) c else node_ends PR_ERROR c)
  else Done (node_ends PR_ERROR c).

(** What [in->append] returns, and [keep_alive_timeout() != 0]. *)
Inductive appended := AppendMore | AppendError | AppendDone (ka : bool).
Definition append_message (r : appended) (c : conn) : outcome conn :=
  use_entry c ;; use_session (session c) ;;
  match r with
  | AppendMore => Done c
  | AppendError => Done (node_ends PR_ERROR c)
  | AppendDone ka =>
      let c := with_keep ka (with_state SUCCESS (with_node (Some (mk_node OP_READ false)) c)) in
      let c := if ka then c else mpoller_del c in
      Done (emit (OP_READ, PR_SUCCESS) c)
  end.

(** [partial_written] *)
Definition partial_written (c : conn) : outcome conn := use_entry c ;; use_session (session c) ;; Done c.

(** What the poller does with the node. *)
Inductive poll := PCreate (ok : bool) | PAppend (r : appended) | PWritten | PEnd (st : pr_state).
(** When it may: messages are read by read nodes, one at a time; a node ends by itself
    ([FINISHED], [ERROR]), with the poller, or is deleted when [stop_flag] is set. *)
Definition may_poll (a : poll) (c : conn) : bool :=
  match a, c_node c with
  | PCreate _, Some (mk_node OP_READ false) => true
  | PAppend _, Some (mk_node OP_READ true) => true
  | PWritten, Some (mk_node OP_WRITE _) => true
  | PEnd (PR_FINISHED | PR_ERROR | PR_DELETED | PR_STOPPED), Some _ => true
  | _, _ => false
  end.
Definition run_poll (a : poll) (c : conn) : outcome conn :=
  match a with
  | PCreate ok => create_reply ok c
  | PAppend r => append_message r c
  | PWritten => partial_written c
  | PEnd st => Done (node_ends st c)
  end.

End Steps.

(** ** The library and its users *)

Record comm := mk_comm {
  conns : gmap loc conn;
  (* the idle lists of the targets *)
  idle_list : list loc;
  (* threads in [request_idle_conn] and [request_new_conn], with session and target *)
  seeking : list (loc * loc);
  opening : list (loc * loc);
  requested : list loc;
  handled : list (loc * cs_state);
  rejected : list loc }.

Definition comm_init : comm := mk_comm ∅ [] [] [] [] [] [].

Inductive act :=
  | ARequest (s t : loc) (passive : bool)
  | ASeek (s t : loc)
  | AOpen (s t : loc) (e : option loc)
  | ARun (e : loc) (p : point) (a : answers)
  | AResult (e : loc) (r : result)
  | APoll (e : loc) (a : poll).

Definition gone (g : comm) (s : loc) : bool := bool_decide (s ∈ (handled g).*1).
Definition is_idle (g : comm) (e : loc) : bool := bool_decide (e ∈ idle_list g).
Definition has_target (g : comm) (t e : loc) : bool := match conns g !! e with Some c => bool_decide (target c = t) | None => false end.

(** [target->idle_list.next] *)
Definition first_idle (g : comm) (t : loc) : option loc := head (filter (fun e => has_target g t e = true) (idle_list g)).
Definition list_del (e : loc) (l : list loc) : list loc := filter (fun x => x <> e) l.
(** [list_add] puts an entry in front. *)
Definition set_idle (e : loc) (old new : bool) (l : list loc) : list loc :=
  match old, new with true, false => list_del e l | false, true => e :: l | _, _ => l end.

Definition set_conn (e : loc) (c : conn) (g : comm) : comm :=
  mk_comm (<[e := c]> (conns g)) (idle_list g) (seeking g) (opening g) (requested g) (handled g) (rejected g).

Definition apply_effect (e : loc) (t : loc) (old : bool) (ef : effect) (g : comm) : comm :=
  mk_comm (<[e := e_conn ef]> (conns g)) (set_idle e old (e_idle ef) (idle_list g)) (((fun s => (s, t)) <$> e_back ef) ++ seeking g) (opening g)
    (requested g) (e_handled ef ++ handled g) (rejected g).

(** [request_idle_conn]: the first entry of the idle list, its mutex locked. *)
Definition seek (s t : loc) (g : comm) : outcome comm :=
  let rest := remove_one (s, t) (seeking g) in
  match first_idle g t with
  | None => Done (mk_comm (conns g) (idle_list g) rest ((s, t) :: opening g) (requested g) (handled g) (rejected g))
  | Some e =>
      match conns g !! e with
      | None => Fault
      | Some c =>
          use_entry c ;;
          if mutex c then Blocked
          else Done (mk_comm (<[e := goto (RTake s) (with_mutex true c)]> (conns g)) (list_del e (idle_list g)) rest (opening g) (requested g) (handled g) (rejected g))
      end
  end.

(** [launch_conn] *)
Definition launch_conn (s t : loc) : conn := mk_conn true CONNECTING 1 false s t false false None [] [].

(** [request_new_conn]: [e] is the entry, if it is made and added to the poller. *)
Definition request_new_conn (s t : loc) (e : option loc) (g : comm) : outcome comm :=
  let rest := remove_one (s, t) (opening g) in
  match e with
  | None => Done (mk_comm (conns g) (idle_list g) (seeking g) rest (requested g) (handled g) (s :: rejected g))
  | Some e =>
      match mpoller_add OP_CONNECT true (launch_conn s t) with
      | Some c => Done (mk_comm (<[e := c]> (conns g)) (idle_list g) (seeking g) rest (requested g) (handled g) (rejected g))
      | None => Blocked
      end
  end.

(** A step; [Blocked] when it is not possible. *)
Definition run (a : act) (g : comm) : outcome comm :=
  match a with
  | ARequest s t passive =>
      if bool_decide (s ∈ requested g) then Blocked
      else if passive then Done (mk_comm (conns g) (idle_list g) (seeking g) (opening g) (s :: requested g) (handled g) (s :: rejected g))
      else Done (mk_comm (conns g) (idle_list g) ((s, t) :: seeking g) (opening g) (s :: requested g) (handled g) (rejected g))
  | ASeek s t => if bool_decide ((s, t) ∈ seeking g) then seek s t g else Blocked
  | AOpen s t e =>
      if bool_decide ((s, t) ∈ opening g) then
        match e with
        | Some x => if conns g !! x is Some _ then Blocked else request_new_conn s t e g
        | None => request_new_conn s t e g
        end
      else Blocked
  | ARun e p a =>
      match conns g !! e with
      | Some c =>
          if bool_decide (p ∈ points c)
          then ef ← run_point (gone g) p a (is_idle g e) c; Done (apply_effect e (target c) (is_idle g e) ef g)
          else Blocked
      | None => Blocked
      end
  | AResult e r =>
      match conns g !! e with
      | Some c => if bool_decide (r ∈ results c) then c ← take_result r c; Done (set_conn e c g) else Blocked
      | None => Blocked
      end
  | APoll e a =>
      match conns g !! e with
      | Some c => if may_poll a c then c ← run_poll (gone g) a c; Done (set_conn e c g) else Blocked
      | None => Blocked
      end
  end.

Inductive reach : comm -> Prop :=
  | reach_init : reach comm_init
  | reach_step g a g' : reach g -> run a g = Done g' -> reach g'.

(** ** The invariant of a connection *)

Definition on_node (f : node -> bool) (c : conn) : Z := nod f (c_node c).

Definition p_connect0 (p : point) : bool := match p with HConnect _ => true | _ => false end.
Definition p_connect1 (p : point) : bool := match p with HConnectRead => true | _ => false end.
Definition p_connect2 (p : point) : bool := match p with HConnectEnd _ => true | _ => false end.
Definition p_free (p : point) : bool := match p with HConnectFree => true | _ => false end.
Definition p_write0 (p : point) : bool := match p with HWrite _ => true | _ => false end.
Definition p_write1 (p : point) : bool := match p with HWriteRead => true | _ => false end.
Definition p_write2 (p : point) : bool := match p with HWriteEnd _ => true | _ => false end.
Definition p_success (p : point) : bool := match p with HReply st => succeeded st | _ => false end.
Definition p_end (p : point) : bool := match p with HReply st => negb (succeeded st) | _ => false end.
Definition p_hold (p : point) : bool := match p with RTake _ | RSend _ | RFail _ | RError _ => true | _ => false end.
Definition p_unlock (p : point) : bool := match p with RUnlock => true | _ => false end.
Definition p_ended (p : point) : bool := match p with HReplyUnlock (Some _) => true | _ => false end.
Definition p_deferred (p : point) : bool := match p with HReplyUnlock None => true | _ => false end.
Definition p_wait (p : point) : bool := match p with HWriteWait => true | _ => false end.
Definition p_drop (p : point) : bool := match p with HReplyEnd _ | HDrop => true | _ => false end.

(** Who has to hand back the session: connecting, sending, receiving. *)
Definition t_start (c : conn) : Z := on_node (op_is OP_CONNECT) c + num r_connect (results c) + num p_connect0 (points c).
Definition t_connect (c : conn) : Z := t_start c + num p_connect1 (points c) + num p_connect2 (points c).
Definition t_iov (c : conn) : Z := on_node (op_is OP_WRITE) c + num r_write (results c).
Definition t_write (c : conn) : Z := t_iov c + num p_write0 (points c) + num p_write1 (points c) + num p_write2 (points c).
Definition t_read (c : conn) : Z := on_node (op_is OP_READ) c + num r_end (results c) + num p_end (points c).
Definition t_success (c : conn) : Z := num r_success (results c) + num p_success (points c).
Definition t_all (c : conn) : Z := t_connect c + num p_free (points c) + t_write c + t_read c.
(** References of threads. *)
Definition t_refs (c : conn) : Z := num p_ended (points c) + num p_wait (points c) + num p_drop (points c).

Definition point_ok (s : loc) (p : point) : Prop :=
  match p with
  | HConnect st | HWrite st => ended st = true
  | HReply st => st <> PR_MODIFIED
  | RFail s' | RError s' => s' = s
  | _ => True
  end.

(** What holds of every entry in use: who has the mutex, what is allocated. *)
Record base_ok (c : conn) : Prop := mk_base_ok {
  b_mutex : bz (mutex c) = num p_ended (points c) + num p_deferred (points c) + num p_hold (points c) + num p_unlock (points c);
  b_iov : bz (write_iov c) = t_iov c;
  b_reading : on_node reading c = 0 \/ code (state c) = 2 /\ on_node (op_is OP_READ) c = 1;
  b_results : Forall result_ok (results c);
  b_points : Forall (point_ok (session c)) (points c) }.

Definition others (c : conn) : Z := num p_ended (points c) + num p_deferred (points c) + num p_wait (points c).

(** The connection is being made, or the entry is about to be freed because this failed. *)
Definition ph_connect (idle : Z) (c : conn) : Prop :=
  ref c = 1 + t_refs c /\
  t_connect c = 1 /\ t_all c = 1 /\ t_success c = 0 /\ others c = 0 /\ num p_hold (points c) + num p_unlock (points c) + num p_drop (points c) = 0 /\ idle = 0 /\
  (t_start c = 1 /\ code (state c) = 0 \/ num p_connect1 (points c) = 1 /\ code (state c) = 2 \/ num p_connect2 (points c) = 1).
Definition ph_free (idle : Z) (c : conn) : Prop :=
  ref c = 1 + t_refs c /\
  num p_free (points c) = 1 /\ t_all c = 1 /\ t_success c = 0 /\ others c = 0 /\ num p_hold (points c) + num p_unlock (points c) + num p_drop (points c) = 0 /\ idle = 0.
(** The request is being sent. *)
Definition ph_write (idle : Z) (c : conn) : Prop :=
  ref c = 1 + t_refs c /\
  t_write c = 1 /\ t_all c = 1 /\ t_success c = 0 /\ others c = 0 /\ num p_hold (points c) = 0 /\ idle = 0 /\
  (code (state c) = 2 \/ (code (state c) = 0 \/ code (state c) = 4) /\ num p_write1 (points c) = 0).
(** The poller reads, or the end of the connection was not handled yet. *)
Definition ph_read (idle : Z) (c : conn) : Prop :=
  ref c = 1 + t_refs c /\
  t_read c = 1 /\ t_all c = 1 /\ others c = 0 /\
  ((code (state c) = 2 \/ code (state c) = 6 \/ code (state c) = 7) /\ t_success c = 0 /\ num p_hold (points c) = 0 /\ idle = 0 \/
   code (state c) = 3 /\ t_success c = 1 /\ num p_hold (points c) = 0 /\ idle = 0 \/
   code (state c) = 4 /\ t_success c = 0 /\ num p_hold (points c) + idle = 1).
(** The end was handled before the reply. *)
Definition ph_deferred (idle : Z) (c : conn) : Prop :=
  ref c = 1 + t_refs c /\
  t_all c = 0 /\ t_success c = 1 /\ code (state c) = 6 /\ num p_hold (points c) + num p_unlock (points c) + num p_ended (points c) + num p_wait (points c) = 0 /\ idle = 0.
(** Only threads that are about to drop their references are left. *)
Definition ph_over (idle : Z) (c : conn) : Prop :=
  ref c = t_refs c /\ 0 < ref c /\
  t_all c = 0 /\ t_success c = 0 /\ num p_hold (points c) = 0 /\ idle = 0 /\ (num p_unlock (points c) = 0 \/ 1 <= num p_wait (points c)).

Definition phase (idle : Z) (c : conn) : Prop :=
  ph_connect idle c \/ ph_free idle c \/ ph_write idle c \/ ph_read idle c \/ ph_deferred idle c \/ ph_over idle c.
Definition live_ok (idle : bool) (c : conn) : Prop := base_ok c /\ phase (bz idle) c.

(** A freed entry: only a thread that still has to unlock its mutex. *)
Record dead_ok (idle : bool) (c : conn) : Prop := mk_dead_ok {
  d_idle : idle = false;
  d_node : c_node c = None;
  d_results : Forall (fun r => r = (OP_READ, PR_MODIFIED)) (results c);
  d_points : Forall (fun p => p = HReplyUnlock None) (points c) }.

Definition conn_ok (idle : bool) (c : conn) : Prop := if alive c then live_ok idle c else dead_ok idle c.

(** The sessions a connection has to hand back. *)
Definition at_work (c : conn) : Prop :=
  0 < t_connect c + t_write c \/ 0 < t_read c /\ (code (state c) = 2 \/ code (state c) = 3 \/ code (state c) = 7) \/ 0 < t_success c /\ code (state c) = 6.
#[export] Instance at_work_dec c : Decision (at_work c).
Proof. unfold at_work. apply _. Defined.
Definition busy (c : conn) : bool := alive c && bool_decide (at_work c).
Definition point_sessions (p : point) : list loc :=
  match p with
  | RTake s | RSend s | RFail s | RError s => [s]
  | HReplyUnlock (Some (Some (s, _))) | HReplyEnd (Some (s, _)) => [s]
  | _ => []
  end.
Definition owned (c : conn) : list loc := (if busy c then [session c] else []) ++ concat (point_sessions <$> points c).
