(* ===== verification/CommClientConn.v ===== *)
(** * Requests: every step keeps the invariant of a connection

    The phases of a connection are linear conditions on the numbers of nodes, results and
    threads of each kind.  For every step of [CommClient]: the phase
    before it is determined by where the thread is, the numbers after it satisfy a phase, and
    the sessions the connection has to hand back are those before, less the ones handed
    back or sent to another connection. *)

From S2P Require Import Prelude RBTree CommConn CommClient.

Local Open Scope Z_scope.

(** ** Steps keep the invariant of a connection *)

#[local] Arguments num : simpl never.
#[local] Arguments code : simpl nomatch.
#[local] Arguments bz : simpl nomatch.
#[local] Arguments nod : simpl nomatch.
Ltac nonneg re po :=
  pose proof (num_nonneg r_connect re); pose proof (num_nonneg r_write re); pose proof (num_nonneg r_success re); pose proof (num_nonneg r_end re);
  pose proof (num_nonneg p_connect0 po); pose proof (num_nonneg p_connect1 po); pose proof (num_nonneg p_connect2 po); pose proof (num_nonneg p_free po);
  pose proof (num_nonneg p_write0 po); pose proof (num_nonneg p_write1 po); pose proof (num_nonneg p_write2 po); pose proof (num_nonneg p_success po);
  pose proof (num_nonneg p_end po); pose proof (num_nonneg p_hold po); pose proof (num_nonneg p_unlock po); pose proof (num_nonneg p_ended po);
  pose proof (num_nonneg p_deferred po); pose proof (num_nonneg p_wait po); pose proof (num_nonneg p_drop po).

(** The counts of a connection whose fields are known. *)
Ltac counts :=
  unfold others, t_refs, t_all, t_success, t_read, t_write, t_iov, t_connect, t_start, on_node in *;
  cbn [goto emit with_points with_results with_state with_ref with_mutex with_session with_iov with_keep with_node
    alive state ref mutex session target write_iov keep c_node results points n_op n_msg] in *;
  rewrite ?num_cons in *;
  cbn [bz nod op_is reading r_connect r_write r_success r_end n_op n_msg p_connect0 p_connect1 p_connect2 p_free p_write0 p_write1 p_write2 p_success p_end p_hold p_unlock p_ended p_deferred p_wait p_drop succeeded negb] in *;
  try match goal with Hq : succeeded _ = false |- _ => rewrite ?Hq; cbn [negb bz] end.
Ltac phases Ph := unfold ph_connect, ph_free, ph_write, ph_read, ph_deferred, ph_over in Ph; destruct Ph as [Ph|[Ph|[Ph|[Ph|[Ph|Ph]]]]].


(** Take a live connection apart; the phases that do not fit are refuted. *)
Ltac ranges :=
  repeat match goal with
  | H : context [bz ?b] |- _ => lazymatch b with true => fail | false => fail | _ => idtac end;
      lazymatch goal with R : 0 <= bz b <= 1 |- _ => fail | _ => pose proof (bz_range b) end
  end.
Ltac take_apart L :=
  destruct L as [[B2 B3 B4 B5 B6] Ph];
  let st := fresh "st" in let re := fresh "re" in let po := fresh "po" in
  let no := fresh "no" in match goal with c : conn |- _ => destruct c as [al st rf mu se ta io ke no re po] end; pose proof (nod_range no); pose proof (code_range st); nonneg re po;
  cbn [alive c_node state mutex write_iov keep session points results code] in *; subst;
  unfold phase in Ph; phases Ph; counts; split_hyps; ranges; try (exfalso; clear B2 B3 B4; lia).
(** Prove that one is well formed. *)
Ltac base_goal := constructor; counts; cbn [code bz] in *; [lia|lia|lia|try done|try done].
Ltac phase_goal := repeat match goal with |- _ /\ _ => split end; lia.
Ltac live_goal tac := split; [base_goal|unfold phase, ph_connect, ph_free, ph_write, ph_read, ph_deferred, ph_over; tac; counts; cbn [code bz] in *; phase_goal].
Ltac at_connect := left.
Ltac at_free := right; left.
Ltac at_write := do 2 right; left.
Ltac at_read := do 3 right; left.
Ltac at_deferred := do 4 right; left.
Ltac at_over := do 5 right.

Lemma busy_on c : alive c = true -> at_work c -> busy c = true.
Proof. intros Ha H. unfold busy. by rewrite Ha, bool_decide_eq_true_2. Qed.
Lemma busy_off c : ~ at_work c -> busy c = false.
Proof. intros H. unfold busy. rewrite bool_decide_eq_false_2 by done. apply andb_false_r. Qed.
Ltac busy_is b :=
  lazymatch b with true => apply busy_on; [done|] | false => apply busy_off end;
  unfold at_work; counts; cbn [code bz] in *; lia.
Ltac own b1 b2 :=
  unfold owned;
  match goal with |- (if busy ?x then _ else _) ++ _ ≡ₚ ((if busy ?y then _ else _) ++ _) ++ _ =>
    let E1 := fresh in let E2 := fresh in
    assert (E1 : busy x = b1) by busy_is b1; assert (E2 : busy y = b2) by busy_is b2; rewrite E1, E2 end;
  counts; cbn [points goto with_points fmap list_fmap concat point_sessions app e_conn e_handled e_back session];
  rewrite ?app_nil_r; try done; try solve_Permutation.

(** A step of a thread at [p], with the others as they are in [c]. *)
Definition good (p : point) (c : conn) (o : outcome effect) : Prop :=
  match o with
  | Fault => False
  | Blocked => mutex c = true
  | Done ef => conn_ok (e_idle ef) (e_conn ef) /\ target (e_conn ef) = target c /\
      owned (goto p c) ≡ₚ owned (e_conn ef) ++ (e_handled ef).*1 ++ e_back ef
  end.

Ltac points_goal := repeat first [ constructor | match goal with H : Forall _ (_ :: _) |- _ => inversion H; clear H; subst end ]; try done.
Ltac step_done ph b1 b2 := cbn [good e_conn e_idle]; unfold conn_ok; split; [live_goal ph; try (inversion B6; subst; points_goal)|split; [done|own b1 b2]].

Ltac start_step Ha := unfold use_entry, use_session, must; rewrite Ha; cbn [mbind outcome_bind].

(** A step that does not change who has to hand back the session. *)
Ltac own_same :=
  unfold owned;
  match goal with |- (if busy ?x then _ else _) ++ _ ≡ₚ ((if busy ?y then _ else _) ++ _) ++ _ =>
    let E := fresh in assert (E : busy x = busy y) by (unfold busy; f_equal; apply bool_decide_ext; unfold at_work; counts; cbn [code bz] in *; lia); rewrite E end;
  counts; cbn [points goto with_points fmap list_fmap concat point_sessions app e_conn e_handled e_back session];
  rewrite ?app_nil_r; try done; try solve_Permutation.
Ltac step_same ph := cbn [good e_conn e_idle]; unfold conn_ok; split; [live_goal ph; try (inversion B6; subst; points_goal)|split; [done|own_same]].

(** The counts are zero: nothing is left but a thread that unlocks. *)
Lemma dead_points l : num p_connect0 l + num p_connect1 l + num p_connect2 l + num p_free l + num p_write0 l + num p_write1 l + num p_write2 l + num p_success l + num p_end l +
  num p_hold l + num p_unlock l + num p_ended l + num p_wait l + num p_drop l = 0 -> Forall (fun p => p = HReplyUnlock None) l.
Proof.
  intros H. nonneg (@nil result) l. apply Forall_forall. intros p Hp.
  assert (N : forall f, num f l = 0 -> f p = false) by (intros f Hf; apply (cnt_none f p l); [unfold num in Hf; lia|done]).
  assert (N1 := N p_connect0). assert (N2 := N p_connect1). assert (N3 := N p_connect2). assert (N4 := N p_free). assert (N5 := N p_write0). assert (N6 := N p_write1). assert (N7 := N p_write2).
  assert (N8 := N p_success). assert (N9 := N p_end). assert (N10 := N p_hold). assert (N11 := N p_unlock). assert (N12 := N p_ended). assert (N13 := N p_wait). assert (N14 := N p_drop).
  destruct p as [ | | | | | | | | | | | | | []|[]| | ]; cbn in *; try done; exfalso;
    match goal with H : _ -> true = false |- _ => discriminate H; lia end.
Qed.

Definition kept (idle : bool) (c : conn) (o : outcome conn) : Prop :=
  match o with
  | Done c' => conn_ok idle c' /\ target c' = target c /\ owned c ≡ₚ owned c'
  | _ => False
  end.
Ltac own_eq :=
  unfold owned;
  match goal with |- (if busy ?x then _ else _) ++ _ ≡ₚ (if busy ?y then _ else _) ++ _ =>
    let E := fresh in assert (E : busy x = busy y) by (unfold busy; f_equal; apply bool_decide_ext; unfold at_work; counts; cbn [code bz] in *; lia); rewrite E end;
  counts; try done.
Ltac kept_same ph := cbn [kept]; unfold conn_ok; split; [live_goal ph; try (inversion B5; subst; points_goal)|split; [done|own_eq]].

Lemma handle_result_ok r idle c : conn_ok idle (emit r c) -> kept idle (emit r c) (handle_result r c).
Proof.
  intros H. unfold conn_ok in H. cbn [alive emit] in H. destruct (alive c) eqn:Ha.
  - pose proof H as L. assert (Hr : result_ok r) by (destruct L as [[_ _ _ B _] _]; by inversion B). unfold handle_result, use_entry. rewrite Ha. cbn [must mbind outcome_bind]. destruct r as [[] st]; cbn [result_ok] in Hr.
    + destruct st; cbn [must mbind outcome_bind].
      all: take_apart L; try (kept_same at_read; fail); try (kept_same at_deferred; fail); try (kept_same at_connect; fail); try (kept_same at_free; fail); try (kept_same at_write; fail); try (kept_same at_over; fail).
    + assert (Hio : write_iov c = true) by (take_apart L; destruct io; [done|cbn [bz] in *; lia]). rewrite Hio. cbn [must mbind outcome_bind]. take_apart L. kept_same at_write.
    + take_apart L. kept_same at_connect.
  - destruct H as [D1 D2 D3 D4]. cbn in D3. inversion D3 as [|? ? Er D3']; subst. cbn [handle_result]. split; [unfold conn_ok; rewrite Ha; by constructor|split; [done|]].
    unfold owned, busy. cbn [alive emit]. by rewrite Ha.
Qed.

Section Local.
Variable gone : loc -> bool.

Lemma request_take_ok s idle c : alive c = true -> live_ok idle (goto (RTake s) c) -> good (RTake s) c (request_take s idle c).
Proof.
  intros Ha L. unfold request_take, use_entry, must. rewrite Ha. cbn [mbind outcome_bind]. destruct (c_node c) as [n|] eqn:En; take_apart L; step_done at_read false false.
Qed.

(** The points that name the session are those that have the entry. *)
Lemma points_session s s' l : num p_hold l = 0 -> Forall (point_ok s) l -> Forall (point_ok s') l.
Proof.
  intros H F. induction F as [|p l Hp F IH]; [constructor|]. rewrite num_cons in H. pose proof (num_nonneg p_hold l). pose proof (bz_range (p_hold p)).
  constructor; [|apply IH; lia]. destruct p; cbn in *; try done; lia.
Qed.

Lemma send_view s idle c : live_ok idle (goto (RSend s) c) -> state c = IDLE /\ write_iov c = false /\ Forall (point_ok s) (points c).
Proof.
  intros L. take_apart L. split_and!.
  - apply code_inj. cbn [code state]. lia.
  - destruct io; [cbn [bz] in *; lia|done].
  - apply (points_session se); [lia|]. by inversion B6.
Qed.
Lemma request_send_ok s a idle c : alive c = true -> gone s = false -> live_ok idle (goto (RSend s) c) -> good (RSend s) c (request_send gone s a idle c).
Proof.
  intros Ha Hg L. destruct (send_view _ _ _ L) as (Hst & Hio & Hp).
  unfold request_send, use_entry, send_message, send_message_async, use_session, must. rewrite Ha. cbn [mbind outcome_bind session with_session state with_iov]. rewrite Hg, Hst. cbn [negb mbind outcome_bind].
  destruct a as [[] [] [] ok]; cbn [a_out a_sent a_mem a_poll negb mbind outcome_bind Z.ltb Z.compare];
    try (take_apart L; step_done at_read false false; fail); try (take_apart L; step_done at_read false true; fail).
  unfold mpoller_mod. cbn [c_node with_iov with_session]. destruct (c_node c) as [[[] m]|] eqn:En; [destruct ok| | |]; cbn [Z.ltb Z.compare Pos.compare Pos.compare_cont].
  - take_apart L. step_done at_write false true.
  - take_apart L. step_done at_read false false.
  - take_apart L.
  - take_apart L.
  - take_apart L. step_done at_read false true.
Qed.

Lemma request_fail_ok s idle c : alive c = true -> live_ok idle (goto (RFail s) c) -> good (RFail s) c (request_fail s idle c).
Proof.
  intros Ha L. unfold request_fail. start_step Ha. unfold mpoller_del. destruct (c_node c) as [[[] m]|] eqn:En; take_apart L; step_done at_read false false.
Qed.
Lemma request_error_ok s idle c : alive c = true -> live_ok idle (goto (RError s) c) -> good (RError s) c (request_error idle c).
Proof.
  intros Ha L. unfold request_error. start_step Ha. assert (Es : session c = s) by (destruct L as [[_ _ _ _ B] _]; inversion B; subst; done).
  assert (Hp : Forall (point_ok s) (points c)) by (destruct L as [[_ _ _ _ B] _]; inversion B; subst; done). take_apart L. step_done at_read false true.
Qed.
Lemma request_unlock_ok idle c : alive c = true -> live_ok idle (goto RUnlock c) -> good RUnlock c (request_unlock idle c).
Proof.
  intros Ha L. unfold request_unlock. start_step Ha. take_apart L; [step_same at_write|step_same at_read|step_same at_over].
Qed.

(** A connection being made. *)
Lemma connect_view st idle c : live_ok idle (goto (HConnect st) c) -> ended st = true /\ state c = CONNECTING /\ c_node c = None /\ write_iov c = false.
Proof.
  intros L. assert (Hs : ended st = true) by (destruct L as [[_ _ _ _ B] _]; inversion B; subst; done). take_apart L. split_and!.
  - done.
  - apply code_inj. cbn [code state]. lia.
  - destruct no as [[[] m]|]; [cbn [nod op_is bz n_op] in *; lia..|done].
  - destruct io; [cbn [bz] in *; lia|done].
Qed.
Lemma connect_result_ok st a idle c : alive c = true -> gone (session c) = false -> live_ok idle (goto (HConnect st) c) -> good (HConnect st) c (connect_result gone st a idle c).
Proof.
  intros Ha Hg L. destruct (connect_view _ _ _ L) as (Hs & Hst & Hn & Hio). unfold connect_result. start_step Ha. destruct st; try done;
    try (take_apart L; step_done at_connect true true; fail).
  unfold send_message, send_message_async, use_session, must. rewrite Hg. cbn [mbind outcome_bind negb state with_iov]. rewrite Hst.
  destruct (a_out a); cbn [negb mbind outcome_bind]; [destruct (a_sent a); cbn [mbind outcome_bind]; [|destruct (a_mem a); cbn [negb mbind outcome_bind]|]|];
    cbn [Z.eqb Z.ltb Z.compare]; try (take_apart L; step_done at_connect true true; fail).
  unfold mpoller_add. cbn [c_node with_iov]. rewrite Hn. destruct (a_poll a); cbn [Z.eqb Z.ltb Z.compare].
  - take_apart L. step_done at_write true true.
  - cbn [state with_iov]. rewrite ?Hst, decide_False by done. cbn [Z.eqb Z.ltb Z.compare]. take_apart L. step_done at_connect true true.
Qed.
Lemma connect_read_ok a idle c : alive c = true -> gone (session c) = false -> live_ok idle (goto HConnectRead c) -> good HConnectRead c (connect_read gone a idle c).
Proof.
  intros Ha Hg L. unfold connect_read, use_session, must. rewrite Hg. cbn [mbind outcome_bind negb]. unfold mpoller_add. destruct (c_node c) as [[[] m]|] eqn:Hn; [take_apart L..|].
  destruct (a_poll a); take_apart L; [step_done at_read true true|step_done at_connect true true].
Qed.
Lemma connect_end_ok cs idle c : alive c = true -> gone (session c) = false -> live_ok idle (goto (HConnectEnd cs) c) -> good (HConnectEnd cs) c (connect_end gone cs idle c).
Proof. intros Ha Hg L. unfold connect_end, use_session, must. rewrite Hg. cbn [mbind outcome_bind negb]. take_apart L. step_done at_free true false. Qed.

Lemma connect_free_ok idle c : alive c = true -> live_ok idle (goto HConnectFree c) -> good HConnectFree c (connect_free idle c).
Proof.
  intros Ha L. unfold connect_free. start_step Ha. assert (Hi : idle = false) by (take_apart L; destruct idle; [cbn [bz] in *; lia|done]).
  assert (Hn : c_node c = None) by (take_apart L; destruct no as [[[] m]|]; [cbn [nod op_is bz n_op] in *; lia..|done]).
  take_apart L. cbn [good e_conn e_idle]. unfold conn_ok. cbn [alive release_conn]. split; [constructor; cbn [results points c_node release_conn]; [done|done|apply dead_results; lia|apply dead_points; lia]|split; [done|]].
  unfold owned. match goal with |- (if busy ?x then _ else _) ++ _ ≡ₚ _ => assert (E : busy x = false) by busy_is false; rewrite E end. cbn. by rewrite app_nil_r.
Qed.
Lemma request_result_ok st idle c : alive c = true -> gone (session c) = false -> live_ok idle (goto (HWrite st) c) -> good (HWrite st) c (request_result gone st idle c).
Proof.
  intros Ha Hg L. assert (Hs : ended st = true) by (destruct L as [[_ _ _ _ B] _]; inversion B; subst; done). unfold request_result. start_step Ha. rewrite Hg. cbn [negb].
  destruct st; try done; cbn [mbind outcome_bind]; take_apart L; step_done at_write true true.
Qed.
Lemma request_read_ok a idle c : alive c = true -> live_ok idle (goto HWriteRead c) -> good HWriteRead c (request_read a idle c).
Proof.
  intros Ha L. unfold request_read, mpoller_add. destruct (c_node c) as [[[] m]|] eqn:Hn; [take_apart L..|].
  destruct (a_poll a); take_apart L; [step_done at_read true true|step_done at_write true true].
Qed.
Lemma request_end_ok cs idle c : alive c = true -> gone (session c) = false -> live_ok idle (goto (HWriteEnd cs) c) -> good (HWriteEnd cs) c (request_end gone cs idle c).
Proof. intros Ha Hg L. unfold request_end. start_step Ha. rewrite Hg. cbn [mbind outcome_bind negb]. take_apart L. step_done at_over true false. Qed.
Lemma request_wait_ok idle c : alive c = true -> live_ok idle (goto HWriteWait c) -> good HWriteWait c (request_wait idle c).
Proof. intros Ha L. unfold request_wait. start_step Ha. destruct (mutex c) eqn:Em; [done|]. take_apart L. cbn [bz] in *. step_same at_over. Qed.

Lemma reply_success_ok idle c : alive c = true -> gone (session c) = false -> live_ok idle (goto (HReply PR_SUCCESS) c) -> good (HReply PR_SUCCESS) c (incoming_reply gone PR_SUCCESS idle c).
Proof.
  intros Ha Hg L. unfold incoming_reply. start_step Ha. rewrite Hg. cbn [negb mbind outcome_bind]. destruct (decide (state c = SUCCESS)) as [Hs|Hs].
  - cbn [keep with_ref]. destruct (keep c) eqn:Hk; take_apart L; step_done at_read true false.
  - assert (Hc : code (state c) <> 3) by (by destruct (state c)). take_apart L. step_done at_over true false.
Qed.
Lemma reply_end_st_ok st idle c : alive c = true -> ended st = true -> live_ok idle (goto (HReply st) c) -> good (HReply st) c (incoming_reply gone st idle c).
Proof.
  intros Ha He L. assert (E : incoming_reply gone st idle c = if mutex c then Blocked else
    let c := with_mutex true c in
    match state c with
    | IDLE => must idle ;; Done (mk_effect (goto (HReplyUnlock (Some None)) c) false [] [])
    | ERROR => Done (mk_effect (goto (HReplyUnlock (Some (Some (session c, CS_ERROR)))) c) idle [] [])
    | RECEIVING => Done (mk_effect (goto (HReplyUnlock (Some (Some (session c, failed st)))) c) idle [] [])
    | SUCCESS => Done (mk_effect (goto (HReplyUnlock None) (with_state CLOSING c)) idle [] [])
    | _ => Done (mk_effect (goto (HReplyUnlock (Some None)) c) idle [] [])
    end).
  { unfold incoming_reply. start_step Ha. by destruct st. }
  rewrite E. destruct (mutex c) eqn:Hm; [exact Hm|]. cbn [state with_mutex]. clear E.
  assert (Hq : succeeded st = false) by (by destruct st).
  destruct (state c) eqn:Hst; take_apart L; rewrite ?Hq in *; cbn [bz negb code] in *; try (exfalso; lia).
  - step_done at_over true false.
  - step_done at_deferred true true.
  - assert (Hi : idle = true) by (destruct idle; [done|cbn [bz] in *; lia]). subst idle. cbn [must mbind outcome_bind]. step_done at_over false false.
  - step_done at_over false false.
  - step_done at_over true false.
Qed.
Lemma reply_unlock_ok o idle c : alive c = true -> live_ok idle (goto (HReplyUnlock o) c) -> good (HReplyUnlock o) c (reply_unlock o idle c).
Proof.
  intros Ha L. unfold reply_unlock. start_step Ha. destruct o as [so|]; take_apart L.
  - destruct so as [[s cs]|]; step_done at_over false false.
  - step_done at_deferred true true.
  - destruct (decide (0 < num p_drop po + num p_wait po)); step_done at_over false false.
Qed.
Lemma reply_end_ok so idle c : alive c = true -> (forall s cs, so = Some (s, cs) -> gone s = false) -> live_ok idle (goto (HReplyEnd so) c) -> good (HReplyEnd so) c (reply_end gone so idle c).
Proof.
  intros Ha Hg L. unfold reply_end. destruct so as [[s cs]|]; [unfold use_session, must; rewrite (Hg s cs eq_refl); cbn [negb mbind outcome_bind]|].
  - take_apart L; [step_same at_write|step_same at_read|step_same at_deferred|step_same at_over].
  - take_apart L; [step_same at_write|step_same at_read|step_same at_deferred|step_same at_over].
Qed.
Lemma drop_ref_ok idle c : alive c = true -> live_ok idle (goto HDrop c) -> good HDrop c (drop_ref idle c).
Proof.
  intros Ha L. unfold drop_ref. start_step Ha. cbn [ref with_ref]. destruct (Z.eqb_spec (ref c - 1) 0) as [E|E].
  - assert (Hi : idle = false) by (take_apart L; destruct idle; [cbn [bz] in *; lia|done]).
    assert (Hn : c_node c = None) by (take_apart L; destruct no as [[[] m]|]; [cbn [nod op_is bz n_op] in *; lia..|done]).
    take_apart L. cbn [good e_conn e_idle]. unfold conn_ok. cbn [alive release_conn with_ref]. split; [constructor; cbn [results points c_node release_conn with_ref]; [done|done|apply dead_results; lia|apply dead_points; lia]|split; [done|]].
    unfold owned. match goal with |- (if busy ?x then _ else _) ++ _ ≡ₚ _ => assert (E' : busy x = false) by busy_is false; rewrite E' end. cbn. by rewrite app_nil_r.
  - take_apart L; [step_same at_write|step_same at_read|step_same at_deferred|step_same at_over].
Qed.

Lemma node_ends_ok n st idle c : alive c = true -> live_ok idle c -> c_node c = Some n -> ended st = true -> kept idle c (Done (node_ends st c)).
Proof.
  intros Ha L Hn He. unfold node_ends. rewrite Hn. destruct n as [[] m]; cbn [n_op].
  - assert (E : r_end (OP_READ, st) = true /\ r_success (OP_READ, st) = false) by (by destruct st). destruct E as [E1 E2].
    take_apart L. destruct st; try done; kept_same at_read.
  - take_apart L. kept_same at_write.
  - take_apart L. kept_same at_connect.
Qed.

Lemma create_reply_ok m ok idle c : alive c = true -> live_ok idle c -> (forall s, s ∈ owned c -> gone s = false) -> c_node c = Some (mk_node OP_READ m) -> kept idle c (create_reply gone ok c).
Proof.
  intros Ha L Hg Hn. unfold create_reply. start_step Ha. destruct (decide (state c = RECEIVING)) as [Hs|Hs]; [|by eapply node_ends_ok].
  assert (Hb : busy c = true) by (take_apart L; busy_is true). rewrite Hg by (unfold owned; rewrite Hb; by left). cbn [negb must mbind outcome_bind].
  destruct ok; [|by eapply node_ends_ok]. take_apart L. kept_same at_read.
Qed.

Lemma client_append_ok r idle c : alive c = true -> live_ok idle c -> (forall s, s ∈ owned c -> gone s = false) -> c_node c = Some (mk_node OP_READ true) -> kept idle c (append_message gone r c).
Proof.
  intros Ha L Hg Hn. unfold append_message. start_step Ha.
  assert (Hb : busy c = true /\ state c = RECEIVING). { take_apart L. split; [busy_is true|]. apply code_inj. cbn [code state]. lia. } destruct Hb as [Hb Hs].
  rewrite Hg by (unfold owned; rewrite Hb; by left). cbn [negb must mbind outcome_bind]. destruct r as [| |ka]; [|by eapply node_ends_ok|].
  - cbn [kept]. unfold conn_ok. by rewrite Ha.
  - unfold mpoller_del. destruct ka; cbn [c_node with_keep with_state with_node n_op]; take_apart L; kept_same at_read.
Qed.

Lemma run_poll_ok a idle c : conn_ok idle c -> (forall s, s ∈ owned c -> gone s = false) -> may_poll a c = true -> kept idle c (run_poll gone a c).
Proof.
  intros H Hg Hm. unfold conn_ok in H. destruct (alive c) eqn:Ha; [|destruct H as [_ D _ _]; unfold may_poll in Hm; rewrite D in Hm; by destruct a as [| | |[]]].
  unfold may_poll in Hm. destruct a as [ok|r| |st]; cbn [run_poll].
  - destruct (c_node c) as [[[] []]|] eqn:Hn; try done. by eapply create_reply_ok.
  - destruct (c_node c) as [[[] []]|] eqn:Hn; try done. by apply client_append_ok.
  - destruct (c_node c) as [[[] m]|] eqn:Hn; try done. assert (Hb : busy c = true) by (take_apart H; busy_is true).
    unfold partial_written. start_step Ha. rewrite Hg by (unfold owned; rewrite Hb; by left). cbn [negb must mbind outcome_bind kept]. unfold conn_ok. by rewrite Ha.
  - destruct (c_node c) as [n|] eqn:Hn; [|by destruct st]. eapply node_ends_ok; [done|done|exact Hn|by destruct st].
Qed.

Lemma step_at_ok p a idle c : conn_ok idle (goto p c) -> (forall s, s ∈ owned (goto p c) -> gone s = false) ->
  (alive c = false /\ p = HReplyUnlock None) \/ good p c (step_at gone p a idle c).
Proof.
  intros H Hg. unfold conn_ok in H. cbn [alive goto with_points] in H. destruct (alive c) eqn:Ha; [|left; destruct H as [_ _ _ D]; by inversion D]. right.
  assert (Hs : busy (goto p c) = true -> gone (session c) = false) by (intros E; apply Hg; unfold owned; rewrite E; by left).
  assert (Hp : forall s, s ∈ point_sessions p -> gone s = false).
  { intros s Hin. apply Hg. unfold owned. apply elem_of_app. right. cbn [points goto with_points fmap list_fmap concat]. apply elem_of_app. by left. }
  destruct p as [s|s|s|s| |st| |cs| |st| |cs| |st|o|so|]; cbn [step_at].
  - by apply request_take_ok.
  - apply request_send_ok; [done| |done]. apply Hp. by left.
  - by apply request_fail_ok.
  - by eapply request_error_ok.
  - by apply request_unlock_ok.
  - apply connect_result_ok; [done|apply Hs; take_apart H; busy_is true|done].
  - apply connect_read_ok; [done|apply Hs; take_apart H; busy_is true|done].
  - apply connect_end_ok; [done|apply Hs; take_apart H; busy_is true|done].
  - by apply connect_free_ok.
  - apply request_result_ok; [done|apply Hs; take_apart H; busy_is true|done].
  - by apply request_read_ok.
  - apply request_end_ok; [done|apply Hs; take_apart H; busy_is true|done].
  - by apply request_wait_ok.
  - assert (Hst : st <> PR_MODIFIED) by (destruct H as [[_ _ _ _ B] _]; by inversion B). destruct st; try done; try by apply reply_end_st_ok.
    apply reply_success_ok; [done|apply Hs; take_apart H; busy_is true|done].
  - by apply reply_unlock_ok.
  - apply reply_end_ok; [done| |done]. intros s cs ->. apply Hp. by left.
  - by apply drop_ref_ok.
Qed.

End Local.
