(* ===== verification/CommClientSafe.v ===== *)
(** * Requests: what the client side guarantees

    The invariant of the library, from the invariant of each connection: every session
    requested is with a connection, on its way to one, handed back or rejected, exactly once.
    Then the theorems, for every interleaving of requesting threads, handler threads and
    the poller. *)

From S2P Require Import Prelude RBTree CommConn CommClient CommClientConn.

Local Open Scope Z_scope.

(** ** Permutations *)

Lemma with_points_counts l c : l ≡ₚ points c -> forall f, num f l = num f (points c).
Proof. intros P f. by apply num_perm. Qed.
Lemma conn_ok_points idle c l : l ≡ₚ points c -> conn_ok idle c -> conn_ok idle (with_points l c).
Proof.
  intros P H. pose proof (with_points_counts l c P) as N. unfold conn_ok in *. cbn [alive with_points]. destruct (alive c).
  - destruct H as [[B2 B3 B4 B5 B6] Ph]. split; [constructor|].
    all: unfold phase, ph_connect, ph_free, ph_write, ph_read, ph_deferred, ph_over, others, t_refs, t_all, t_success, t_read, t_write, t_iov, t_connect, t_start, on_node in *;
      cbn [ref mutex write_iov c_node results points session state with_points]; rewrite ?N; try done.
    by rewrite P.
  - destruct H as [D1 D2 D3 D4]. constructor; try done. cbn. by rewrite P.
Qed.
Lemma conn_ok_results idle c l : l ≡ₚ results c -> conn_ok idle c -> conn_ok idle (with_results l c).
Proof.
  intros P H. assert (N : forall f, num f l = num f (results c)) by (intros f; by apply num_perm). unfold conn_ok in *. cbn [alive with_results]. destruct (alive c).
  - destruct H as [[B2 B3 B4 B5 B6] Ph]. split; [constructor|].
    all: unfold phase, ph_connect, ph_free, ph_write, ph_read, ph_deferred, ph_over, others, t_refs, t_all, t_success, t_read, t_write, t_iov, t_connect, t_start, on_node in *;
      cbn [ref mutex write_iov c_node results points session state with_results]; rewrite ?N; try done.
    by rewrite P.
  - destruct H as [D1 D2 D3 D4]. constructor; try done. cbn. by rewrite P.
Qed.
Lemma busy_points c l : l ≡ₚ points c -> busy (with_points l c) = busy c.
Proof.
  intros P. pose proof (with_points_counts l c P) as N. unfold busy. f_equal. apply bool_decide_ext. unfold at_work, t_success, t_read, t_write, t_iov, t_connect, t_start, on_node.
  cbn [c_node results points state with_points]. by rewrite ?N.
Qed.
Lemma busy_results c l : l ≡ₚ results c -> busy (with_results l c) = busy c.
Proof.
  intros P. assert (N : forall f, num f l = num f (results c)) by (intros f; by apply num_perm). unfold busy. f_equal. apply bool_decide_ext.
  unfold at_work, t_success, t_read, t_write, t_iov, t_connect, t_start, on_node. cbn [c_node results points state with_results]. by rewrite ?N.
Qed.
Lemma owned_points c l : l ≡ₚ points c -> owned (with_points l c) ≡ₚ owned c.
Proof. intros P. unfold owned. rewrite (busy_points c l P). cbn [session points with_points]. by rewrite P. Qed.
Lemma owned_results c l : l ≡ₚ results c -> owned (with_results l c) ≡ₚ owned c.
Proof. intros P. unfold owned. by rewrite (busy_results c l P). Qed.

(** ** The invariant of the library *)

Definition all_owned (m : gmap loc conn) : list loc := concat (owned <$> (map_to_list m).*2).

Lemma all_owned_delete m e c : m !! e = Some c -> all_owned m ≡ₚ owned c ++ all_owned (delete e m).
Proof. intros He. unfold all_owned. rewrite <- (insert_delete_id m e c He) at 1. by rewrite map_to_list_insert by apply lookup_delete_eq. Qed.
Lemma all_owned_new m e c : m !! e = None -> all_owned (<[e := c]> m) ≡ₚ owned c ++ all_owned m.
Proof. intros He. unfold all_owned. by rewrite map_to_list_insert. Qed.
Lemma all_owned_insert m e c c' : m !! e = Some c -> all_owned (<[e := c']> m) ≡ₚ owned c' ++ all_owned (delete e m).
Proof. intros He. rewrite <- insert_delete_eq. apply all_owned_new, lookup_delete_eq. Qed.

Record comm_ok (g : comm) : Prop := mk_comm_ok {
  g_conn : forall e c, conns g !! e = Some c -> conn_ok (is_idle g e) c;
  g_idle : forall e, e ∈ idle_list g -> is_Some (conns g !! e);
  g_nodup : NoDup (idle_list g);
  g_sessions : requested g ≡ₚ all_owned (conns g) ++ (seeking g).*1 ++ (opening g).*1 ++ (handled g).*1 ++ rejected g;
  g_fresh : NoDup (requested g) }.

Lemma owned_live g e c s : comm_ok g -> conns g !! e = Some c -> s ∈ owned c -> gone g s = false.
Proof.
  intros [_ _ _ P N] He Hs. apply bool_decide_eq_false_2. intros Hh. rewrite P in N. rewrite (all_owned_delete _ _ _ He), <- app_assoc in N.
  apply NoDup_app_inv in N as (_ & _ & D). apply (D s Hs). rewrite !elem_of_app. tauto.
Qed.

(** The idle list after a step of an entry. *)
Lemma set_idle_in e old new l : NoDup l -> old = bool_decide (e ∈ l) -> NoDup (set_idle e old new l) /\
  bool_decide (e ∈ set_idle e old new l) = new /\ (forall x, x <> e -> bool_decide (x ∈ set_idle e old new l) = bool_decide (x ∈ l)) /\ (forall x, x ∈ set_idle e old new l -> x = e \/ x ∈ l).
Proof.
  intros Nd ->. destruct (bool_decide (e ∈ l)) eqn:Eo, new; cbn [set_idle].
  - split_and!; [done|done|done|tauto].
  - unfold list_del. split_and!.
    + by apply NoDup_filter.
    + apply bool_decide_eq_false_2. rewrite list_elem_of_filter. tauto.
    + intros x Hx. apply bool_decide_ext. rewrite list_elem_of_filter. tauto.
    + intros x. rewrite list_elem_of_filter. tauto.
  - apply bool_decide_eq_false_1 in Eo. split_and!.
    + by constructor.
    + apply bool_decide_eq_true_2. by left.
    + intros x Hx. apply bool_decide_ext. rewrite elem_of_cons. tauto.
    + intros x. rewrite elem_of_cons. tauto.
  - split_and!; [done|done|done|tauto].
Qed.

(** A change of one connection. *)
Lemma conn_update g e c c' idle l : comm_ok g -> conns g !! e = Some c -> l = set_idle e (is_idle g e) idle (idle_list g) -> conn_ok idle c' ->
  (forall x cx, <[e := c']> (conns g) !! x = Some cx -> conn_ok (bool_decide (x ∈ l)) cx) /\ (forall x, x ∈ l -> is_Some (<[e := c']> (conns g) !! x)) /\ NoDup l.
Proof.
  intros [G1 G2 G3 _ _] He -> H'. destruct (set_idle_in e (is_idle g e) idle (idle_list g) G3 eq_refl) as (S1 & S2 & S3 & S4). split_and!.
  - intros x cx. destruct (decide (x = e)) as [->|Hne]; [rewrite lookup_insert_eq; intros [= <-]; by rewrite S2|]. rewrite lookup_insert_ne by done. intros Hx. rewrite (S3 x Hne). by apply G1.
  - intros x Hx. destruct (decide (x = e)) as [->|Hne]; [by rewrite lookup_insert_eq|]. rewrite lookup_insert_ne by done. destruct (S4 x Hx) as [?|?]; [done|by apply G2].
  - done.
Qed.
Lemma set_idle_same g e : set_idle e (is_idle g e) (is_idle g e) (idle_list g) = idle_list g.
Proof. by destruct (is_idle g e). Qed.

Lemma run_point_ok g e c p a : comm_ok g -> conns g !! e = Some c -> p ∈ points c ->
  match run_point (gone g) p a (is_idle g e) c with
  | Done ef => comm_ok (apply_effect e (target c) (is_idle g e) ef g)
  | Blocked => mutex c = true
  | Fault => alive c = false /\ p = HReplyUnlock None
  end.
Proof.
  intros G He Hp. set (l := remove_one p (points c)). assert (P : p :: l ≡ₚ points c) by (symmetry; by apply remove_one_perm).
  assert (H : conn_ok (is_idle g e) (goto p (with_points l c))) by (apply (conn_ok_points _ c (p :: l) P); by apply (g_conn _ G)).
  pose proof (owned_points c (p :: l) P) as O. unfold run_point. fold l.
  assert (Hg : forall s, s ∈ owned (goto p (with_points l c)) -> gone g s = false) by (intros s Hs; apply (owned_live g e c); [done|done|]; unfold goto in Hs; cbn in Hs; by rewrite <- O).
  destruct (step_at_ok (gone g) p a _ _ H Hg) as [[Ha ->]|Hgood].
  { cbn [step_at]. unfold reply_unlock, use_entry. rewrite Ha. done. }
  destruct (step_at (gone g) p a (is_idle g e) (with_points l c)) as [ef| |]; [|exact Hgood|done]. destruct Hgood as (Hc & _ & Ho).
  destruct (conn_update g e c (e_conn ef) (e_idle ef) _ G He eq_refl Hc) as (U1 & U2 & U3). constructor; cbn [conns idle_list seeking opening requested handled rejected apply_effect]; try done.
  - rewrite (g_sessions _ G), (all_owned_insert _ _ c _ He), (all_owned_delete _ _ _ He), <- O. unfold goto in Ho. cbn in Ho.
    change (with_points (p :: l) c) with (with_points (p :: points (with_points l c)) (with_points l c)). rewrite Ho.
    rewrite !fmap_app, <- list_fmap_compose. cbn [compose]. replace (fst ∘ (fun s => (s, target c)) <$> e_back ef) with (e_back ef) by (symmetry; apply list_fmap_id).
    solve_Permutation.
  - apply G.
Qed.

Lemma run_result_ok g e c r : comm_ok g -> conns g !! e = Some c -> r ∈ results c ->
  match take_result r c with Done c' => comm_ok (set_conn e c' g) | _ => False end.
Proof.
  intros G He Hr. set (l := remove_one r (results c)). assert (P : r :: l ≡ₚ results c) by (symmetry; by apply remove_one_perm).
  assert (H : conn_ok (is_idle g e) (emit r (with_results l c))) by (apply (conn_ok_results _ c (r :: l) P); by apply (g_conn _ G)).
  pose proof (owned_results c (r :: l) P) as O. unfold take_result. fold l. pose proof (handle_result_ok r _ _ H) as K. unfold kept in K. destruct (handle_result r (with_results l c)) as [c'| |]; [|done..].
  destruct K as (Hc & _ & Ho). destruct (conn_update g e c c' (is_idle g e) (idle_list g) G He (eq_sym (set_idle_same g e)) Hc) as (U1 & U2 & U3).
  constructor; cbn [conns idle_list seeking opening requested handled rejected set_conn]; try done.
  - rewrite (g_sessions _ G), (all_owned_insert _ _ c _ He), (all_owned_delete _ _ _ He), <- O. change (with_results (r :: l) c) with (emit r (with_results l c)). by rewrite Ho.
  - apply G.
Qed.

Lemma run_poll_step_ok g e c a : comm_ok g -> conns g !! e = Some c -> may_poll a c = true ->
  match run_poll (gone g) a c with Done c' => comm_ok (set_conn e c' g) | _ => False end.
Proof.
  intros G He Hm. pose proof (run_poll_ok (gone g) a _ c (g_conn _ G e c He) (fun s => owned_live g e c s G He) Hm) as K. unfold kept in K. destruct (run_poll (gone g) a c) as [c'| |]; [|done..].
  destruct K as (Hc & _ & Ho). destruct (conn_update g e c c' (is_idle g e) (idle_list g) G He (eq_sym (set_idle_same g e)) Hc) as (U1 & U2 & U3).
  constructor; cbn [conns idle_list seeking opening requested handled rejected set_conn]; try done.
  - by rewrite (g_sessions _ G), (all_owned_insert _ _ c _ He), (all_owned_delete _ _ _ He), Ho.
  - apply G.
Qed.

(** An entry taken from the idle list. *)
Lemma take_idle_ok s c : alive c = true -> live_ok true c -> mutex c = false ->
  live_ok false (goto (RTake s) (with_mutex true c)) /\ owned (goto (RTake s) (with_mutex true c)) ≡ₚ s :: owned c.
Proof.
  intros Ha L Hm. take_apart L. cbn [bz] in *. split; [live_goal at_read; by constructor|].
  unfold owned. match goal with |- (if busy ?x then _ else _) ++ _ ≡ₚ _ :: (if busy ?y then _ else _) ++ _ => assert (E1 : busy x = false) by busy_is false; assert (E2 : busy y = false) by busy_is false; rewrite E1, E2 end.
  done.
Qed.
Lemma first_idle_in g t e : first_idle g t = Some e -> e ∈ idle_list g /\ has_target g t e = true.
Proof.
  unfold first_idle. intros H. assert (Hin : e ∈ filter (fun x => has_target g t x = true) (idle_list g)) by (destruct (filter _ _); [done|]; injection H as ->; by left).
  apply list_elem_of_filter in Hin. tauto.
Qed.
Lemma remove_sessions (s t : loc) (l : list (loc * loc)) : (s, t) ∈ l -> l.*1 ≡ₚ s :: (remove_one (s, t) l).*1.
Proof. intros H. by rewrite (remove_one_perm _ _ H) at 1. Qed.

Lemma seek_ok g s t : comm_ok g -> (s, t) ∈ seeking g -> match seek s t g with Done g' => comm_ok g' | Blocked => True | Fault => False end.
Proof.
  intros G Hs. pose proof (remove_sessions _ _ _ Hs) as Ps. unfold seek. destruct (first_idle g t) as [e|] eqn:Ef.
  - destruct (first_idle_in _ _ _ Ef) as [Hin _]. destruct (g_idle _ G e Hin) as [c Hc]. rewrite Hc. pose proof (g_conn _ G e c Hc) as H. assert (Hi : is_idle g e = true) by (by apply bool_decide_eq_true_2). rewrite Hi in H.
    unfold conn_ok in H. destruct (alive c) eqn:Ha; [|by destruct H]. unfold use_entry. rewrite Ha. cbn [must mbind outcome_bind]. destruct (mutex c) eqn:Hm; [done|].
    destruct (take_idle_ok s c Ha H Hm) as [L O]. destruct (conn_update g e c (goto (RTake s) (with_mutex true c)) false (list_del e (idle_list g)) G Hc) as (U1 & U2 & U3); [by rewrite Hi|unfold conn_ok; cbn [alive goto with_points with_mutex]; by rewrite Ha|].
    constructor; cbn [conns idle_list seeking opening requested handled rejected]; try done; [|apply G].
    rewrite (g_sessions _ G), (all_owned_insert _ _ c _ Hc), (all_owned_delete _ _ _ Hc), O, Ps. solve_Permutation.
  - constructor; cbn [conns idle_list seeking opening requested handled rejected]; try apply G. rewrite (g_sessions _ G), Ps. cbn. solve_Permutation.
Qed.

Lemma launch_ok s t : conn_ok false (with_node (Some (mk_node OP_CONNECT false)) (launch_conn s t)) /\ owned (with_node (Some (mk_node OP_CONNECT false)) (launch_conn s t)) = [s].
Proof.
  split; [|reflexivity]. unfold conn_ok. cbn [alive with_node launch_conn]. split; [constructor; cbn; try done; try lia; by left|]. left. repeat split; cbn; try lia. by left.
Qed.
Lemma request_new_ok g s t e : comm_ok g -> (s, t) ∈ opening g -> (forall x, e = Some x -> conns g !! x = None) ->
  match request_new_conn s t e g with Done g' => comm_ok g' | _ => False end.
Proof.
  intros G Ho He. pose proof (remove_sessions _ _ _ Ho) as Po. destruct e as [e|]; cbn [request_new_conn].
  - specialize (He e eq_refl). unfold mpoller_add. cbn [c_node launch_conn]. destruct (launch_ok s t) as [L O].
    assert (Ni : e ∉ idle_list g) by (intros Hi; destruct (g_idle _ G e Hi); congruence).
    constructor; cbn [conns idle_list seeking opening requested handled rejected]; try apply G.
    + intros x cx. destruct (decide (x = e)) as [->|Hne]; [rewrite lookup_insert_eq; intros [= <-]; unfold is_idle; cbn [idle_list]; by rewrite bool_decide_eq_false_2|].
      rewrite lookup_insert_ne by done. apply G.
    + intros x Hx. destruct (decide (x = e)) as [->|]; [done|]. rewrite lookup_insert_ne by done. by apply G.
    + rewrite (g_sessions _ G), (all_owned_new _ _ _ He), O, Po. solve_Permutation.
  - constructor; cbn [conns idle_list seeking opening requested handled rejected]; try apply G. rewrite (g_sessions _ G), Po. solve_Permutation.
Qed.

Lemma run_ok a g : comm_ok g -> match run a g with
  | Done g' => comm_ok g'
  | Blocked => True
  | Fault => exists e an c, a = ARun e (HReplyUnlock None) an /\ conns g !! e = Some c /\ alive c = false
  end.
Proof.
  intros G. destruct a as [s t pv|s t|s t e|e p an|e r|e pa]; cbn [run].
  - destruct (bool_decide (s ∈ requested g)) eqn:E; [done|]. apply bool_decide_eq_false_1 in E.
    destruct pv; constructor; cbn [conns idle_list seeking opening requested handled rejected]; try apply G; try (rewrite (g_sessions _ G); cbn; solve_Permutation); by (constructor; [|apply G]).
  - destruct (bool_decide _) eqn:E; [|done]. apply bool_decide_eq_true_1 in E. pose proof (seek_ok g s t G E) as H. by destruct (seek s t g).
  - destruct (bool_decide _) eqn:E; [|done]. apply bool_decide_eq_true_1 in E.
    assert (H : (forall x, e = Some x -> conns g !! x = None) -> match request_new_conn s t e g with Done g' => comm_ok g' | _ => False end) by (intros He; by apply request_new_ok).
    destruct e as [x|]; [destruct (conns g !! x) eqn:Ex; [done|]|].
    + specialize (H ltac:(intros y Hy; by injection Hy as <-)). by destruct (request_new_conn _ _ _ _).
    + specialize (H ltac:(done)). by destruct (request_new_conn _ _ _ _).
  - destruct (conns g !! e) as [c|] eqn:He; [|done]. destruct (bool_decide (p ∈ points c)) eqn:E; [|done]. apply bool_decide_eq_true_1 in E.
    pose proof (run_point_ok g e c p an G He E) as H. destruct (run_point _ _ _ _ _) as [ef| |]; cbn [mbind outcome_bind]; [done|done|]. destruct H as [Ha ->]. by exists e, an, c.
  - destruct (conns g !! e) as [c|] eqn:He; [|done]. destruct (bool_decide (r ∈ results c)) eqn:E; [|done]. apply bool_decide_eq_true_1 in E.
    pose proof (run_result_ok g e c r G He E) as H. by destruct (take_result r c).
  - destruct (conns g !! e) as [c|] eqn:He; [|done]. destruct (may_poll pa c) eqn:E; [|done].
    pose proof (run_poll_step_ok g e c pa G He E) as H. by destruct (run_poll (gone g) pa c).
Qed.

Lemma client_reach_ok g : reach g -> comm_ok g.
Proof.
  induction 1 as [|g a g' _ IH E].
  - constructor; cbn; try done; try constructor. by intros e ?%elem_of_nil.
  - pose proof (run_ok a g IH) as H. by rewrite E in H.
Qed.

(** ** Waiting *)

(** A thread that holds the mutex of the entry. *)
Definition holds (p : point) : bool := p_hold p || p_unlock p || p_ended p || p_deferred p.

Lemma holder_runs g e c : comm_ok g -> conns g !! e = Some c -> alive c = true -> mutex c = true ->
  exists p, p ∈ points c /\ holds p = true /\ forall a, exists g', run (ARun e p a) g = Done g'.
Proof.
  intros G He Ha Hm. pose proof (g_conn _ G e c He) as H. unfold conn_ok in H. rewrite Ha in H. destruct H as [[B2 _ _ _ _] _]. rewrite Hm in B2. cbn [bz] in B2.
  assert (Hp : exists p, p ∈ points c /\ holds p = true).
  { destruct (decide (0 < num p_ended (points c))) as [H|]; [|destruct (decide (0 < num p_deferred (points c))) as [H|]; [|destruct (decide (0 < num p_hold (points c))) as [H|]; [|assert (H : 0 < num p_unlock (points c)) by lia]]];
      apply num_pos in H as (p & Hp & E); exists p; (split; [done|]); unfold holds; rewrite E; by rewrite ?orb_true_r. }
  destruct Hp as (p & Hp & Hh). exists p. split; [done|]. split; [done|]. intros a. pose proof (run_ok (ARun e p a) g G) as K.
  destruct (run (ARun e p a) g) as [g'| |] eqn:E; [by exists g'| |].
  - exfalso. cbn [run] in E. rewrite He, bool_decide_eq_true_2 in E by done. unfold run_point in E. set (c' := with_points _ c) in E.
    assert (Ha' : alive c' = true) by done. destruct p as [s|s|s|s| |st| |cs| |st| |cs| |st|o|so|]; try done; cbn [step_at] in E;
      unfold request_take, request_send, request_fail, request_error, request_unlock, reply_unlock, use_entry, use_session, send_message in E; rewrite Ha' in E; cbn [must mbind outcome_bind session with_session] in E; try done.
    + by destruct (c_node c').
    + unfold use_session, must in E. destruct (negb (gone g s)); cbn [mbind outcome_bind] in E; [|done]. destruct (negb (a_out a)); [done|]. destruct (a_sent a); cbn [mbind outcome_bind] in E; try done. by destruct (send_message_async _ _).
  - destruct K as (e2 & an & c1 & [= -> -> ->] & He2 & Hd). congruence.
Qed.

(** ** The theorems *)

(** A thread unlocks the mutex of an entry that was freed. *)
Definition unlocks_freed (g : comm) (a : act) : Prop :=
  exists e an c, a = ARun e (HReplyUnlock None) an /\ conns g !! e = Some c /\ alive c = false.

(** C6. The client side never uses freed memory, a session that was handed back, or a broken
    list, whatever the users, the handler threads, the poller and the peer do and in whatever order:
    a step is done or waits for a mutex.  The one exception is
    [pthread_mutex_unlock(mutex)] at the end of [handle_incoming_reply], after an end of
    the connection that came before its reply was handled: the entry may have been
    freed by the thread that handled the reply. *)
Theorem client_safe g a : reach g -> run a g = Fault -> unlocks_freed g a.
Proof. intros R E. pose proof (run_ok a g (client_reach_ok g R)) as H. by rewrite E in H. Qed.

(** Nobody is inside the library and the poller has no node. *)
Definition quiet (g : comm) : Prop :=
  seeking g = [] /\ opening g = [] /\ forall e c, conns g !! e = Some c -> c_node c = None /\ results c = [] /\ points c = [].

(** C12. A session is handed back once.  Every session requested is, exactly once, on its way to a
    connection, with a connection that will hand it back, handed back, or
    rejected by [request]; an idle connection is an entry in use with no session.  When
    nobody is inside the library and the poller is empty, every session was handed back or
    rejected and every entry is freed. *)
Theorem client_once g : reach g ->
  NoDup (requested g) /\ requested g ≡ₚ all_owned (conns g) ++ (seeking g).*1 ++ (opening g).*1 ++ (handled g).*1 ++ rejected g /\
  (forall e, e ∈ idle_list g -> exists c, conns g !! e = Some c /\ alive c = true /\ state c = IDLE /\ busy c = false) /\
  (quiet g -> requested g ≡ₚ (handled g).*1 ++ rejected g /\ idle_list g = [] /\ forall e c, conns g !! e = Some c -> alive c = false).
Proof.
  intros R. pose proof (client_reach_ok g R) as G. split_and!; [apply G|apply G| |].
  - intros e He. destruct (g_idle _ G e He) as [c Hc]. exists c. pose proof (g_conn _ G e c Hc) as H. assert (Hi : is_idle g e = true) by (by apply bool_decide_eq_true_2). rewrite Hi in H.
    unfold conn_ok in H. destruct (alive c) eqn:Ha; [|by destruct H]. split_and!; [done|done| |]; take_apart H; cbn [bz] in *.
    + apply code_inj. cbn [code state]. lia.
    + busy_is false.
  - intros (Q1 & Q2 & Q3). assert (D : forall e c, conns g !! e = Some c -> alive c = false).
    { intros e c He. destruct (alive c) eqn:Ha; [|done]. destruct (Q3 e c He) as (N1 & N2 & N3). pose proof (g_conn _ G e c He) as H. unfold conn_ok in H. rewrite Ha in H.
      exfalso. take_apart H; unfold num in *; cbn in *; lia. }
    assert (O : all_owned (conns g) = []).
    { unfold all_owned. apply concat_nil_Forall, Forall_fmap, Forall_forall. intros c Hc. apply list_elem_of_fmap in Hc as ([e c'] & -> & Hc). apply elem_of_map_to_list in Hc.
      cbn. unfold owned, busy. rewrite (D _ _ Hc). destruct (Q3 _ _ Hc) as (_ & _ & ->). done. }
    split_and!; [|  |done].
    + rewrite (g_sessions _ G), O, Q1, Q2. done.
    + destruct (idle_list g) as [|e l] eqn:E; [done|]. destruct (g_idle _ G e) as [c Hc]; [rewrite E; by left|]. pose proof (g_conn _ G e c Hc) as H. unfold conn_ok in H. rewrite (D _ _ Hc) in H.
      destruct H as [Hi _ _ _]. apply bool_decide_eq_false_1 in Hi. exfalso. apply Hi. rewrite E. by left.
Qed.

(** No deadlock on a connection.  A thread that has to wait for the mutex of an entry, or
    a request that finds an idle entry locked, waits for a thread that holds the mutex of an entry in use
    and can always go on. *)
Theorem client_waits g e c p a : reach g -> conns g !! e = Some c -> p ∈ points c -> run (ARun e p a) g = Blocked ->
  exists p', p' ∈ points c /\ holds p' = true /\ forall a', exists g', run (ARun e p' a') g = Done g'.
Proof.
  intros R He Hp E. pose proof (client_reach_ok g R) as G. cbn [run] in E. rewrite He, bool_decide_eq_true_2 in E by done.
  pose proof (run_point_ok g e c p a G He Hp) as H. destruct (run_point _ _ _ _ _) as [ef| |] eqn:Er; [done| |done].
  destruct (alive c) eqn:Ha; [by eapply holder_runs|]. pose proof (g_conn _ G e c He) as Hc. unfold conn_ok in Hc. rewrite Ha in Hc. destruct Hc as [_ _ _ D].
  rewrite Forall_forall in D. rewrite (D p Hp) in Er. unfold run_point in Er. cbn [step_at] in Er. unfold reply_unlock, use_entry in Er. cbn [alive with_points] in Er. by rewrite Ha in Er.
Qed.

(** ** A run *)

Fixpoint run_all (l : list act) (g : comm) : outcome comm :=
  match l with [] => Done g | a :: l => g ← run a g; run_all l g end.
Lemma run_all_reach l : forall g g', reach g -> run_all l g = Done g' -> reach g'.
Proof.
  induction l as [|a l IH]; cbn [run_all]; intros g g' R E; [by injection E as <-|]. destruct (run a g) as [g1| |] eqn:E1; try done. cbn in E.
  eapply IH; [|exact E]. by eapply reach_step.
Qed.

Definition fine : answers := mk_answers true SentAll true true.
(** A request on a new connection; the reply and the end of the connection are in the message
    queue, and two handler threads have taken them. *)
Definition run_both : list act :=
  [ARequest 10 20 false; ASeek 10 20; AOpen 10 20 (Some 1%positive); APoll 1 (PEnd PR_FINISHED); AResult 1 (OP_CONNECT, PR_FINISHED); ARun 1 (HConnect PR_FINISHED) fine;
   ARun 1 HConnectRead fine; APoll 1 (PCreate true); APoll 1 (PAppend (AppendDone true)); APoll 1 (PEnd PR_FINISHED); AResult 1 (OP_READ, PR_SUCCESS); AResult 1 (OP_READ, PR_FINISHED);
   ARun 1 (HReply PR_FINISHED) fine].
(** The thread with the reply is done before the other unlocks. *)
Definition run_race : list act :=
  run_both ++ [ARun 1 (HReply PR_SUCCESS) fine; ARun 1 (HReplyEnd (Some (10%positive, CS_SUCCESS))) fine; ARun 1 HDrop fine].

Definition state_after (l : list act) : comm := match run_all l comm_init with Done g => g | _ => comm_init end.

(** C36. With two handler threads the exception does happen: the reply and the end of a
    connection are handled at the same time, the thread with the reply frees the
    entry, and the other unlocks the mutex in it. *)
Theorem reply_unlock_race : reach (state_after run_race) /\ run (ARun 1 (HReplyUnlock None) fine) (state_after run_race) = Fault.
Proof.
  split; [|vm_compute; reflexivity].
  apply (run_all_reach run_race comm_init); [constructor|vm_compute; reflexivity].
Qed.

Lemma run_both_reach : reach (state_after run_both).
Proof. apply (run_all_reach run_both comm_init); [constructor|vm_compute; reflexivity]. Qed.
Lemma run_race_reach : reach (state_after run_race).
Proof. apply (run_all_reach run_race comm_init); [constructor|vm_compute; reflexivity]. Qed.

Lemma client_safe_witness : unlocks_freed (state_after run_race) (ARun 1 (HReplyUnlock None) fine).
Proof. apply (client_safe (state_after run_race) _ run_race_reach). vm_compute. reflexivity. Defined.
Lemma client_once_witness : NoDup (requested (state_after run_race)) /\ handled (state_after run_race) = [(10%positive, CS_SUCCESS)].
Proof. split; [apply (client_once _ run_race_reach)|vm_compute; reflexivity]. Defined.

(** The reply came, the connection is taken for another request while its end is handled. *)
Definition run_wait : list act :=
  [ARequest 10 20 false; ASeek 10 20; AOpen 10 20 (Some 1%positive); APoll 1 (PEnd PR_FINISHED); AResult 1 (OP_CONNECT, PR_FINISHED); ARun 1 (HConnect PR_FINISHED) fine;
   ARun 1 HConnectRead fine; APoll 1 (PCreate true); APoll 1 (PAppend (AppendDone true)); AResult 1 (OP_READ, PR_SUCCESS);
   ARun 1 (HReply PR_SUCCESS) fine; ARun 1 (HReplyEnd (Some (10%positive, CS_SUCCESS))) fine; ARun 1 HDrop fine;
   ARequest 11 20 false; ASeek 11 20; APoll 1 (PEnd PR_FINISHED); AResult 1 (OP_READ, PR_FINISHED)].
Definition entry_after (l : list act) (e : loc) : conn := match conns (state_after l) !! e with Some c => c | None => launch_conn 1 1 end.

Lemma client_waits_witness : exists p, p ∈ points (entry_after run_wait 1) /\ holds p = true /\ forall a', exists g', run (ARun 1 p a') (state_after run_wait) = Done g'.
Proof.
  apply (client_waits (state_after run_wait) 1%positive (entry_after run_wait 1) (HReply PR_FINISHED) fine).
  - apply (run_all_reach run_wait comm_init); [constructor|vm_compute; reflexivity].
  - vm_compute. reflexivity.
  - vm_compute. constructor.
  - vm_compute. reflexivity.
Defined.
