(* ===== verification/CommServer.v ===== *)
(** * Services: the server side of [src/kernel/Communicator.cc]

    A service listens; an accepted connection has a target of its own, [CommServiceTarget],
    whose idle list holds at most this one connection.  The poller makes a session for each request; a
    handler thread gives it to its owner ([CS_STATE_TOREPLY]), who replies, shuts the connection
    down or deletes the session; after the reply the connection waits for the next
    request in the [alive_list] of the service, from which [drain] takes it.  Entries, targets
    and the service count references: an entry those of the poller and the handler
    threads, a target its entry and its sessions, the service its targets and
    [bind].

    As on the client side ([CommClient]) a connection is the entry with its target,
    its node, its results and the threads that work on it, and what is done under the mutex of
    the target is one step; what is done under the mutex of the service is
    part of one.  A step goes wrong ([Fault]) when it uses an entry, a target, a service or a session
    that was freed or handed over, or takes an entry out of a list it is not in.
    [s_hand] are the sessions in the hands of their owners. *)

From S2P Require Import Prelude RBTree CommConn.

Local Open Scope Z_scope.

(** Where a thread is that works on a connection. *)
Inductive point :=
  (* [handle_listen_result]: the target was accepted *)
  | HAccept
  (* [handle_incoming_request] *)
  | HRequest (st : pr_state)
  | HServe (s : loc)
  | HEnd (so : option (loc * cs_state))
  (* [handle_reply_result] *)
  | HReply (st : pr_state)
  (* [__sync_sub_and_fetch(&entry->ref, 1)] *)
  | HDrop
  (* [target->decref()] *)
  | TDrop.

#[export] Instance point_eq_dec : EqDecision point.
Proof. solve_decision. Defined.

Record sconn := mk_sconn {
  (* [struct CommConnEntry] *)
  alive : bool;
  state : conn_state;
  ref : Z;
  session : loc;
  write_iov : bool;
  (* [class CommServiceTarget]; [idle]: the entry is in [idle_list] *)
  t_alive : bool;
  t_ref : Z;
  idle : bool;
  (* the entry is in [service->alive_list] *)
  kept : bool;
  s_node : option node;
  results : list result;
  points : list point;
  (* the sessions not deleted, with [passive] *)
  sessions : list (loc * Z);
  s_hand : list loc }.

Definition upd_entry (a : bool) (st : conn_state) (n : Z) (i k : bool) (c : sconn) : sconn :=
  mk_sconn a st n (session c) (write_iov c) (t_alive c) (t_ref c) i k (s_node c) (results c) (points c) (sessions c) (s_hand c).
Definition with_state (st : conn_state) (c : sconn) : sconn := upd_entry (alive c) st (ref c) (idle c) (kept c) c.
Definition with_ref (n : Z) (c : sconn) : sconn := upd_entry (alive c) (state c) n (idle c) (kept c) c.
Definition with_idle (b : bool) (c : sconn) : sconn := upd_entry (alive c) (state c) (ref c) b (kept c) c.
Definition with_kept (b : bool) (c : sconn) : sconn := upd_entry (alive c) (state c) (ref c) (idle c) b c.
(** [__release_conn] *)
Definition release_conn (c : sconn) : sconn := upd_entry false (state c) (ref c) (idle c) (kept c) c.
Definition with_session (s : loc) (c : sconn) : sconn :=
  mk_sconn (alive c) (state c) (ref c) s (write_iov c) (t_alive c) (t_ref c) (idle c) (kept c) (s_node c) (results c) (points c) (sessions c) (s_hand c).
Definition with_iov (b : bool) (c : sconn) : sconn :=
  mk_sconn (alive c) (state c) (ref c) (session c) b (t_alive c) (t_ref c) (idle c) (kept c) (s_node c) (results c) (points c) (sessions c) (s_hand c).
Definition with_target (b : bool) (n : Z) (c : sconn) : sconn :=
  mk_sconn (alive c) (state c) (ref c) (session c) (write_iov c) b n (idle c) (kept c) (s_node c) (results c) (points c) (sessions c) (s_hand c).
Definition with_node (n : option node) (c : sconn) : sconn :=
  mk_sconn (alive c) (state c) (ref c) (session c) (write_iov c) (t_alive c) (t_ref c) (idle c) (kept c) n (results c) (points c) (sessions c) (s_hand c).
Definition with_results (l : list result) (c : sconn) : sconn :=
  mk_sconn (alive c) (state c) (ref c) (session c) (write_iov c) (t_alive c) (t_ref c) (idle c) (kept c) (s_node c) l (points c) (sessions c) (s_hand c).
Definition with_points (l : list point) (c : sconn) : sconn :=
  mk_sconn (alive c) (state c) (ref c) (session c) (write_iov c) (t_alive c) (t_ref c) (idle c) (kept c) (s_node c) (results c) l (sessions c) (s_hand c).
Definition with_sessions (l : list (loc * Z)) (h : list loc) (c : sconn) : sconn :=
  mk_sconn (alive c) (state c) (ref c) (session c) (write_iov c) (t_alive c) (t_ref c) (idle c) (kept c) (s_node c) (results c) (points c) l h.

Definition emit (r : result) (c : sconn) : sconn := with_results (r :: results c) c.
Definition goto (p : point) (c : sconn) : sconn := with_points (p :: points c) c.
(** The owner gets a session. *)
Definition give (s : loc) (c : sconn) : sconn := with_sessions (sessions c) (s :: s_hand c) c.
Definition take (s : loc) (c : sconn) : sconn := with_sessions (sessions c) (remove_one s (s_hand c)) c.

(** [session->passive] *)
Definition passive (s : loc) (c : sconn) : option Z := snd <$> head (filter (fun x => x.1 = s) (sessions c)).
Definition set_passive (s : loc) (n : Z) (c : sconn) : sconn :=
  with_sessions ((fun x => if decide (x.1 = s) then (s, n) else x) <$> sessions c) (s_hand c) c.

(** ** The poller *)

Definition mpoller_add (op : pd_op) (ok : bool) (c : sconn) : option sconn :=
  match s_node c with
  | None => if ok then Some (with_node (Some (mk_node op false)) c) else None
  | Some _ => None
  end.
Definition mpoller_mod (op : pd_op) (ok : bool) (c : sconn) : sconn + bool :=
  match s_node c with
  | None => inr true
  | Some n => if ok then inl (with_node (Some (mk_node op false)) (emit (n_op n, PR_MODIFIED) c)) else inr false
  end.
Definition mpoller_del (c : sconn) : sconn :=
  match s_node c with
  | None => c
  | Some n => with_node None (emit (n_op n, PR_DELETED) c)
  end.
Definition node_ends (st : pr_state) (c : sconn) : sconn :=
  match s_node c with
  | None => c
  | Some n => with_node None (emit (n_op n, st) c)
  end.

Section Steps.
(** The service is in use; it listens ([listen_fd >= 0]); [stop_flag]. *)
Variables (svc listening stop_flag : bool).

Definition use_entry (c : sconn) : outcome unit := must (alive c).
Definition use_target (c : sconn) : outcome unit := must (t_alive c).
Definition use_service : outcome unit := must svc.
(** A session not deleted and not with its owner. *)
Definition use_session (s : loc) (c : sconn) : outcome unit := must (bool_decide (s ∈ (sessions c).*1) && negb (bool_decide (s ∈ s_hand c))).

(** ** Sending a reply *)

(** The answers of a reply: those of sending, and [keep_alive_timeout() != 0]. *)
Record reply_answers := mk_reply { r_send : answers; r_keep : bool }.

(** [send_message_sync] when all is written: wait for the next request, or close. *)
Definition sent_all (keep : bool) (c : sconn) : outcome sconn :=
  let c := with_ref (ref c + 1) c in
  if keep then
    use_service ;;
    if listening then Done (with_kept true (with_state KEEPALIVE c)) else Done (with_state CLOSING (mpoller_del c))
  else Done (with_state CLOSING (mpoller_del c)).

(** [send_message_async]; the entry of a reply is [IDLE]. *)
Definition send_message_async (a : answers) (c : sconn) : Z * sconn :=
  if negb (a_mem a) then (-1, c)
  else
    let c := with_iov true c in
    match state c with
    | IDLE =>
        match mpoller_mod OP_WRITE (a_poll a) c with
        | inl c => (1, c)
        | inr true => (1, with_iov false (with_state RECEIVING c))
        | inr false => (-1, with_iov false c)
        end
    | _ =>
        match mpoller_add OP_WRITE (a_poll a) c with
        | Some c => (1, c)
        | None => if decide (state c = RECEIVING) then (1, with_iov false c) else (-1, with_iov false c)
        end
    end.

Definition send_message (r : reply_answers) (c : sconn) : outcome (Z * sconn) :=
  use_session (session c) c ;;
  if negb (a_out (r_send r)) then Done (-1, c)
  else
    match a_sent (r_send r) with
    | SentFail => Done (-1, c)
    | SentAll => c ← sent_all (r_keep r) c; Done (0, c)
    | SentPart => Done (send_message_async (r_send r) c)
    end.

(** [reply_reliable] *)
Definition reply_reliable (r : reply_answers) (c : sconn) : outcome (Z * sconn) :=
  use_target c ;;
  if idle c then
    use_entry c ;;
    '(ret, c) ← send_message r (with_idle false c);
    if ret <? 0 then Done (1, with_state ERROR (mpoller_del c)) else Done (ret, c)
  else Done (-1, c).

(** [reply], for a session with [passive == 2]: the owner gives it to the library.  The
    session is handed back at [HEnd] when all was sent, and at once when there is no
    connection. *)
Definition reply (s : loc) (r : reply_answers) (c : sconn) : outcome sconn :=
  use_target c ;; use_service ;;
  '(ret, c) ← reply_reliable r (set_passive s 3 (take s c));
  if ret =? 0 then use_session s c ;; Done (goto (HEnd (Some (s, CS_SUCCESS))) c)
  else if ret <? 0 then Done (give s c)
  else Done c.

(** [CommServiceTarget::shutdown] *)
Definition target_shutdown (c : sconn) : outcome sconn :=
  use_target c ;;
  if idle c then use_entry c ;; use_service ;; Done (with_state CLOSING (mpoller_del (with_idle false c)))
  else Done c.
(** [Communicator::shutdown] *)
Definition shutdown (s : loc) (c : sconn) : outcome sconn := target_shutdown (set_passive s 3 c).
(** [CommSession::~CommSession] *)
Definition delete_session (s : loc) (p : Z) (c : sconn) : outcome sconn :=
  c ← (if p =? 2 then target_shutdown c else Done c);
  Done (goto TDrop (with_sessions (filter (fun x => x.1 <> s) (sessions c)) (remove_one s (s_hand c)) c)).

(** ** The results *)

(** [handle_listen_result] with [accept_conn]. *)
Definition listen_result (ok added : bool) (c : sconn) : outcome sconn :=
  use_target c ;;
  if ok then
    use_service ;;
    let c := upd_entry true CONNECTED 1 false false c in
    match mpoller_add OP_READ added c with
    | Some c => Done (if stop_flag then mpoller_del c else c)
    | None => Done (goto TDrop (release_conn c))
    end
  else Done (goto TDrop c).

(** [handle_incoming_request] *)
Definition incoming_request (st : pr_state) (c : sconn) : outcome sconn :=
  use_entry c ;; use_target c ;;
  match st with
  | PR_SUCCESS =>
      let s := session c in
      use_session s c ;;
      let c := if decide (state c = SUCCESS) then with_idle true (with_state IDLE (with_ref (ref c + 1) c)) else c in
      Done (goto (HServe s) (set_passive s 2 c))
  | PR_FINISHED | PR_ERROR | PR_DELETED | PR_STOPPED =>
      match state c with
      | KEEPALIVE => use_service ;; must (kept c) ;; Done (goto (HEnd None) (with_kept false c))
      | IDLE => must (idle c) ;; Done (goto (HEnd None) (with_idle false c))
      | ERROR => Done (goto (HEnd (Some (session c, CS_ERROR))) c)
      | RECEIVING => Done (goto (HEnd (Some (session c, failed st))) c)
      | SUCCESS => Done (with_state CLOSING c)
      | _ => Done (goto (HEnd None) c)
      end
  | PR_MODIFIED => Done c
  end.
(** [session->handle(CS_STATE_TOREPLY, 0)] *)
Definition serve (s : loc) (c : sconn) : outcome sconn := use_session s c ;; Done (goto HDrop (give s c)).
(** [session->handle(state, res->error)] *)
Definition end_session (so : option (loc * cs_state)) (c : sconn) : outcome sconn :=
  match so with
  | Some (s, _) => use_session s c ;; Done (goto HDrop (give s c))
  | None => Done (goto HDrop c)
  end.

(** [handle_reply_result]; [keep]: the time limit is not 0, [added]: [mpoller_add] succeeds. *)
Definition reply_result (st : pr_state) (keep added : bool) (c : sconn) : outcome sconn :=
  use_entry c ;;
  let s := session c in
  match st with
  | PR_FINISHED =>
      use_session s c ;;
      if keep then
        use_target c ;;
        let c := with_ref (ref c + 1) c in
        match mpoller_add OP_READ added c with
        | Some c =>
            use_service ;;
            Done (goto (HEnd (Some (s, CS_SUCCESS))) (if negb stop_flag && listening then with_kept true (with_state KEEPALIVE c) else with_state CLOSING (mpoller_del c)))
        | None => Done (goto (HEnd (Some (s, CS_SUCCESS))) (with_ref (ref c - 1) c))
        end
      else Done (goto (HEnd (Some (s, CS_SUCCESS))) c)
  | PR_ERROR | PR_DELETED | PR_STOPPED => Done (goto (HEnd (Some (s, failed st))) c)
  | PR_SUCCESS | PR_MODIFIED => Done c
  end.

(** [if (__sync_sub_and_fetch(&entry->ref, 1) == 0) { __release_conn(entry); target->decref(); }] *)
Definition drop_ref (c : sconn) : outcome sconn :=
  use_entry c ;;
  let c := with_ref (ref c - 1) c in
  Done (if ref c =? 0 then goto TDrop (release_conn c) else c).
(** [CommServiceTarget::decref]; the service loses a reference when the target goes. *)
Definition drop_target (c : sconn) : outcome sconn :=
  use_target c ;;
  let n := t_ref c - 1 in
  if n =? 0 then use_service ;; Done (with_target false n c) else Done (with_target true n c).

(** The choices of a step. *)
Record choice := mk_choice { ch_ok : bool; ch_added : bool; ch_keep : bool }.
Definition step_at (p : point) (a : choice) (c : sconn) : outcome sconn :=
  match p with
  | HAccept => listen_result (ch_ok a) (ch_added a) c
  | HRequest st => incoming_request st c
  | HServe s => serve s c
  | HEnd so => end_session so c
  | HReply st => reply_result st (ch_keep a) (ch_added a) c
  | HDrop => drop_ref c
  | TDrop => drop_target c
  end.
Definition run_point (p : point) (a : choice) (c : sconn) : outcome sconn :=
  step_at p a (with_points (remove_one p (points c)) c).

(** [handle_read_result], [handle_write_result] *)
Definition handle_result (r : result) (c : sconn) : outcome sconn :=
  match r with
  | (OP_WRITE, st) => use_entry c ;; must (write_iov c) ;; Done (goto (HReply st) (with_iov false c))
  | (OP_READ, PR_MODIFIED) => Done c
  | (OP_READ, st) => use_entry c ;; Done (goto (HRequest st) c)
  | (OP_CONNECT, _) => Done c
  end.
Definition take_result (r : result) (c : sconn) : outcome sconn := handle_result r (with_results (remove_one r (results c)) c).

(** ** The callbacks of the poller *)

(** [create_request]; [s] is the session [new_session] gives, if it gives one, [ok]: it
    gives a message. *)
Definition create_request (s : option loc) (ok : bool) (c : sconn) : outcome sconn :=
  use_entry c ;; use_target c ;; use_service ;;
  match state c with
  | KEEPALIVE | CONNECTED =>
      (if decide (state c = KEEPALIVE) then must (kept c) else Done tt) ;;
      let c := with_kept false c in
      match s with
      | None => Done (node_ends PR_ERROR c)
      | Some s =>
          let c := with_target (t_alive c) (t_ref c + 1) (with_sessions (sessions c ++ [(s, 1)]) (s_hand c) (with_state RECEIVING (with_session s c))) in
          Done (if ok then with_node (Some (mk_node OP_READ true)) c else node_ends PR_ERROR c)
      end
  | _ => Done (node_ends PR_ERROR c)
  end.

(** [append_message] *)
Inductive appended := AppendMore | AppendError | AppendDone.
Definition append_message (r : appended) (c : sconn) : outcome sconn :=
  use_entry c ;; use_session (session c) c ;;
  match r with
  | AppendMore => Done c
  | AppendError => Done (node_ends PR_ERROR c)
  | AppendDone => Done (emit (OP_READ, PR_SUCCESS) (with_state SUCCESS (with_node (Some (mk_node OP_READ false)) c)))
  end.
Definition partial_written (c : sconn) : outcome sconn := use_entry c ;; use_session (session c) c ;; Done c.

Inductive poll := PCreate (s : option loc) (ok : bool) | PAppend (r : appended) | PWritten | PEnd (st : pr_state).
Definition may_poll (a : poll) (c : sconn) : bool :=
  match a, s_node c with
  | PCreate _ _, Some (mk_node OP_READ false) => true
  | PAppend _, Some (mk_node OP_READ true) => true
  | PWritten, Some (mk_node OP_WRITE _) => true
  | PEnd (PR_FINISHED | PR_ERROR | PR_DELETED | PR_STOPPED), Some _ => true
  | _, _ => false
  end.
Definition run_poll (a : poll) (c : sconn) : outcome sconn :=
  match a with
  | PCreate s ok => create_request s ok c
  | PAppend r => append_message r c
  | PWritten => partial_written c
  | PEnd st => Done (node_ends st c)
  end.

(** [drain] takes the entry from the list: [mpoller_del] and [CONN_STATE_CLOSING]. *)
Definition drain_entry (c : sconn) : outcome sconn :=
  use_entry c ;; must (kept c) ;; Done (with_state CLOSING (mpoller_del (with_kept false c))).

End Steps.

(** ** The service and its users *)

(** Where [bind] is: the poller has the listening node; it ended ([handle_stop] is called,
    or was); it was deleted by [unbind]; [shutdown_service] closes the descriptor, drains the
    connections, drops the reference. *)
Inductive base := BListen | BEnded | BDeleted | BClose | BDrain | BDrop | BOver.
#[export] Instance base_eq_dec : EqDecision base.
Proof. solve_decision. Defined.

Record server := mk_server {
  conns : gmap loc sconn;
  alive_list : list loc;
  s_ref : Z;
  listening : bool;
  bound : base;
  (* the result of a listening node that ended waits *)
  stopping : bool;
  (* [handle_unbound] was called *)
  unbound : bool;
  (* the sessions made *)
  created : list loc }.

(** [bind] *)
Definition server_init : server := mk_server ∅ [] 1 true BListen false false [].

Inductive act :=
  | SAccept (e : loc)
  | SRun (e : loc) (p : point) (a : choice) (stop : bool)
  | SResult (e : loc) (r : result)
  | SPoll (e : loc) (a : poll)
  | SReply (e s : loc) (r : reply_answers)
  | SShutdown (e s : loc)
  | SDelete (e s : loc)
  | SDrain (max : Z)
  | SListenEnd
  | SStop
  | SUnbind
  | SClosing.

Definition svc (g : server) : bool := negb (unbound g).

(** The list after a step of an entry: [list_add_tail] or [list_del]. *)
Definition list_del (e : loc) (l : list loc) : list loc := filter (fun x => x <> e) l.
Definition set_kept (e : loc) (old new : bool) (l : list loc) : list loc :=
  match old, new with true, false => list_del e l | false, true => l ++ [e] | _, _ => l end.
(** [CommService::decref] *)
Definition decref (g : server) : server :=
  mk_server (conns g) (alive_list g) (s_ref g - 1) (listening g) (bound g) (stopping g) (unbound g || (s_ref g - 1 =? 0)) (created g).
Definition set_conn (e : loc) (c c' : sconn) (g : server) : server :=
  let g := mk_server (<[e := c']> (conns g)) (set_kept e (kept c) (kept c') (alive_list g)) (s_ref g) (listening g) (bound g) (stopping g) (unbound g) (created g) in
  if t_alive c && negb (t_alive c') then decref g else g.
Definition set_bound (b : base) (g : server) : server :=
  mk_server (conns g) (alive_list g) (s_ref g) (listening g) b (stopping g) (unbound g) (created g).
Definition set_stopping (b : bool) (g : server) : server :=
  mk_server (conns g) (alive_list g) (s_ref g) (listening g) (bound g) b (unbound g) (created g).

(** [CommService::drain] *)
Fixpoint drain_loop (l : list loc) (cnt max : Z) (g : server) : outcome server :=
  match l with
  | [] => Done g
  | e :: l =>
      if cnt =? max then Done g
      else
        match conns g !! e with
        | None => Fault
        | Some c => c' ← drain_entry c; drain_loop l (cnt + 1) max (set_conn e c c' g)
        end
  end.
Definition drain (max : Z) (g : server) : outcome server := must (svc g) ;; drain_loop (alive_list g) 0 max g.

(** [Communicator::accept] in the poller thread: a target, of which a handler thread will
    get the result. *)
Definition accepted : sconn := mk_sconn false CONNECTED 0 1 false true 1 false false None [] [HAccept] [] [].
Definition accept (e : loc) (g : server) : outcome server :=
  must (svc g) ;;
  Done (mk_server (<[e := accepted]> (conns g)) (alive_list g) (s_ref g + 1) (listening g) (bound g) (stopping g) (unbound g) (created g)).

(** [unbind]: delete the node, or shut the service down when it has none. *)
Definition unbind (g : server) : outcome server :=
  must (svc g) ;;
  match bound g with
  | BListen => Done (set_bound BDeleted g)
  | BEnded => Done (set_bound BClose g)
  | _ => Blocked
  end.

(** [shutdown_service], called by the handler thread ([PR_ST_DELETED]) or by [unbind]. *)
Definition shutdown_service (g : server) : outcome server :=
  must (svc g) ;;
  match bound g with
  | BDeleted => Done (set_bound BClose g)
  | BClose => Done (mk_server (conns g) (alive_list g) (s_ref g) false BDrain (stopping g) (unbound g) (created g))
  | BDrain => g ← drain (-1) g; Done (set_bound BDrop g)
  | BDrop => Done (decref (set_bound BOver g))
  | _ => Blocked
  end.

(** A step; [Blocked] when it is not possible. *)
Definition on_conn (e : loc) (g : server) (f : sconn -> outcome sconn) : outcome server :=
  match conns g !! e with
  | Some c => c' ← f c; Done (set_conn e c c' g)
  | None => Blocked
  end.
Definition when (b : bool) {A} (o : outcome A) : outcome A := if b then o else Blocked.

Definition run (a : act) (g : server) : outcome server :=
  match a with
  | SAccept e => if conns g !! e is Some _ then Blocked else when (bool_decide (bound g = BListen)) (accept e g)
  | SRun e p a stop => on_conn e g (fun c => when (bool_decide (p ∈ points c)) (run_point (svc g) (listening g) stop p a c))
  | SResult e r => on_conn e g (fun c => when (bool_decide (r ∈ results c)) (take_result r c))
  | SPoll e (PCreate (Some s) ok as a) =>
      when (negb (bool_decide (s ∈ created g)))
        (g ← on_conn e g (fun c => when (may_poll a c) (run_poll (svc g) a c));
         Done (mk_server (conns g) (alive_list g) (s_ref g) (listening g) (bound g) (stopping g) (unbound g) (s :: created g)))
  | SPoll e a => on_conn e g (fun c => when (may_poll a c) (run_poll (svc g) a c))
  | SReply e s r => on_conn e g (fun c => when (bool_decide (s ∈ s_hand c) && bool_decide ((s, 2) ∈ sessions c)) (reply (svc g) (listening g) s r c))
  | SShutdown e s => on_conn e g (fun c => when (bool_decide (s ∈ s_hand c) && bool_decide ((s, 2) ∈ sessions c)) (shutdown (svc g) s c))
  | SDelete e s => on_conn e g (fun c => when (bool_decide (s ∈ s_hand c)) (delete_session (svc g) s (default 0 (passive s c)) c))
  | SDrain max => when (svc g) (drain max g)
  | SListenEnd => match bound g with BListen => Done (set_stopping true (set_bound BEnded g)) | _ => Blocked end
  | SStop => when (stopping g) (must (svc g) ;; Done (set_stopping false g))
  | SUnbind => match bound g with BListen | BEnded => unbind g | _ => Blocked end
  | SClosing => match bound g with BDeleted | BClose | BDrain | BDrop => shutdown_service g | _ => Blocked end
  end.

Inductive reach : server -> Prop :=
  | reach_init : reach server_init
  | reach_step g a g' : reach g -> run a g = Done g' -> reach g'.

(** ** The invariant of a connection *)

Definition on_node (f : node -> bool) (c : sconn) : Z := nod f (s_node c).
Definition p_accept (p : point) : bool := match p with HAccept => true | _ => false end.
Definition p_success (p : point) : bool := match p with HRequest st => succeeded st | _ => false end.
Definition p_end (p : point) : bool := match p with HRequest st => negb (succeeded st) | _ => false end.
Definition p_write (p : point) : bool := match p with HReply _ => true | _ => false end.
Definition p_ref (p : point) : bool := match p with HServe _ | HEnd _ | HDrop => true | _ => false end.
Definition p_target (p : point) : bool := match p with TDrop => true | _ => false end.

Definition t_read (c : sconn) : Z := on_node (op_is OP_READ) c + num r_end (results c) + num p_end (points c).
Definition t_iov (c : sconn) : Z := on_node (op_is OP_WRITE) c + num r_write (results c).
Definition t_write (c : sconn) : Z := t_iov c + num p_write (points c).
Definition t_success (c : sconn) : Z := num r_success (results c) + num p_success (points c).
Definition t_other (c : sconn) : Z := on_node (op_is OP_CONNECT) c + num r_connect (results c).

Definition point_ok (p : point) : Prop :=
  match p with HReply st => ended st = true | HRequest st => st <> PR_MODIFIED | _ => True end.

Record base_ok (c : sconn) : Prop := mk_base_ok {
  b_iov : bz (write_iov c) = t_iov c;
  b_other : t_other c = 0 /\ num p_accept (points c) = 0;
  b_reading : on_node reading c = 0 \/ code (state c) = 2 /\ on_node (op_is OP_READ) c = 1;
  b_results : Forall result_ok (results c);
  b_points : Forall point_ok (points c) }.

(** The poller reads, or the end of the connection was not handled yet.  A kept connection whose
    session could not be made is in no list. *)
Definition ph_read (c : sconn) : Prop :=
  t_read c = 1 /\ t_write c = 0 /\ ref c = 1 + num p_ref (points c) /\
  ((code (state c) = 1 \/ code (state c) = 2 \/ code (state c) = 6 \/ code (state c) = 7) /\ t_success c = 0 /\ bz (idle c) = 0 /\ bz (kept c) = 0 \/
   code (state c) = 3 /\ t_success c = 1 /\ bz (idle c) = 0 /\ bz (kept c) = 0 \/
   code (state c) = 4 /\ t_success c = 0 /\ bz (idle c) = 1 /\ bz (kept c) = 0 \/
   code (state c) = 5 /\ t_success c = 0 /\ bz (idle c) = 0 /\ (bz (kept c) = 1 \/ bz (kept c) = 0 /\ on_node (op_is OP_READ) c = 0)).
(** The reply is being sent. *)
Definition ph_write (c : sconn) : Prop :=
  t_write c = 1 /\ t_read c = 0 /\ ref c = 1 + num p_ref (points c) /\ code (state c) = 4 /\ t_success c = 0 /\ bz (idle c) = 0 /\ bz (kept c) = 0.
(** The end was handled before the request. *)
Definition ph_deferred (c : sconn) : Prop :=
  t_read c = 0 /\ t_write c = 0 /\ ref c = 1 + num p_ref (points c) /\ code (state c) = 6 /\ t_success c = 1 /\ bz (idle c) = 0 /\ bz (kept c) = 0.
Definition ph_over (c : sconn) : Prop :=
  t_read c = 0 /\ t_write c = 0 /\ ref c = num p_ref (points c) /\ 0 < ref c /\ t_success c = 0 /\ bz (idle c) = 0 /\ bz (kept c) = 0.
Definition live_ok (c : sconn) : Prop := base_ok c /\ (ph_read c \/ ph_write c \/ ph_deferred c \/ ph_over c).

(** No entry: none yet, or freed. *)
Record dead_ok (c : sconn) : Prop := mk_dead_ok {
  d_lists : idle c = false /\ kept c = false /\ write_iov c = false;
  d_node : s_node c = None;
  d_results : Forall (fun r => r = (OP_READ, PR_MODIFIED)) (results c);
  d_points : Forall (fun p => p = HAccept \/ p = TDrop) (points c);
  d_accept : 0 < num p_accept (points c) -> num p_accept (points c) = 1 /\ sessions c = [] }.

(** The sessions the library has to hand over. *)
Definition at_work (c : sconn) : Prop :=
  0 < t_write c \/ 0 < t_read c /\ (code (state c) = 2 \/ code (state c) = 3 \/ code (state c) = 7) \/ 0 < t_success c /\ code (state c) = 6.
#[export] Instance at_work_dec c : Decision (at_work c).
Proof. unfold at_work. apply _. Defined.
Definition busy (c : sconn) : bool := alive c && bool_decide (at_work c).
Definition point_sessions (p : point) : list loc := match p with HServe s | HEnd (Some (s, _)) => [s] | _ => [] end.
Definition owned (c : sconn) : list loc := (if busy c then [session c] else []) ++ concat (point_sessions <$> points c).

Record conn_ok (c : sconn) : Prop := mk_conn_ok {
  k_entry : if alive c then live_ok c else dead_ok c;
  k_target : t_ref c = (if alive c then 1 else num p_accept (points c)) + num p_target (points c) + len (sessions c) /\ 0 <= t_ref c /\ t_alive c = (0 <? t_ref c);
  k_sessions : (sessions c).*1 ≡ₚ owned c ++ s_hand c;
  k_nodup : NoDup (sessions c).*1;
  (* only the session of the entry can wait for a reply, and none when a request may come *)
  k_current : forall s, (s, 2) ∈ sessions c -> s = session c /\ (alive c = true -> code (state c) <> 1 /\ code (state c) <> 5 /\ t_write c = 0) }.
