(* ===== verification/CommServerConn.v ===== *)
(** * Services: every step keeps the invariant of a connection

    As for the client side: the phase before a step follows from where the thread is, and the
    numbers after it satisfy a phase. *)

From S2P Require Import Prelude RBTree CommConn CommServer.

Local Open Scope Z_scope.

#[local] Arguments num : simpl never.
#[local] Arguments code : simpl nomatch.
#[local] Arguments bz : simpl nomatch.
#[local] Arguments nod : simpl nomatch.
#[local] Arguments succeeded : simpl nomatch.

Ltac nonneg re po :=
  pose proof (num_nonneg r_connect re); pose proof (num_nonneg r_write re); pose proof (num_nonneg r_success re); pose proof (num_nonneg r_end re);
  pose proof (num_nonneg p_accept po); pose proof (num_nonneg p_success po); pose proof (num_nonneg p_end po); pose proof (num_nonneg p_write po);
  pose proof (num_nonneg p_ref po); pose proof (num_nonneg p_target po).

(** The counts of a connection whose fields are known. *)
Ltac counts :=
  unfold t_read, t_write, t_iov, t_success, t_other, on_node in *;
  cbn [goto emit give take with_points with_results with_state with_ref with_session with_iov with_target with_node with_sessions with_idle with_kept release_conn upd_entry set_passive
    alive state ref session write_iov t_alive t_ref idle kept s_node results points sessions s_hand n_op n_msg] in *;
  rewrite ?num_cons in *;
  cbn [bz nod op_is reading r_connect r_write r_success r_end n_op n_msg p_accept p_success p_end p_write p_ref p_target succeeded negb] in *;
  try match goal with Hq : succeeded _ = false |- _ => rewrite ?Hq; cbn [negb bz] end.
Ltac ranges :=
  repeat match goal with
  | H : context [bz ?b] |- _ => lazymatch b with true => fail | false => fail | _ => idtac end;
      lazymatch goal with R : 0 <= bz b <= 1 |- _ => fail | _ => pose proof (bz_range b) end
  end.

(** Take the connection of a step apart; the phases that do not fit are refuted. *)
Ltac take_apart L :=
  destruct L as [[B1 B2 B3 B4 B5] Ph];
  let st := fresh "st" in let re := fresh "re" in let po := fresh "po" in let no := fresh "no" in
  match goal with c : sconn |- _ => destruct c as [al st rf se io ta tr id ke no re po ss ha] end; pose proof (nod_range no); pose proof (code_range st); nonneg re po;
  cbn [alive s_node state write_iov session points results code idle kept t_alive t_ref sessions s_hand] in *; subst;
  unfold ph_read, ph_write, ph_deferred, ph_over in Ph; destruct Ph as [Ph|[Ph|[Ph|Ph]]]; counts; split_hyps; ranges; cbn [code bz] in *; try (exfalso; clear B1 B3; lia).
Ltac base_goal := constructor; counts; cbn [code bz] in *; [lia|lia|lia|try done|try done].
Ltac phase_goal := repeat match goal with |- _ /\ _ => split end; lia.
Ltac points_goal := repeat first [ constructor | match goal with H : Forall _ (_ :: _) |- _ => inversion H; clear H; subst end ]; try done.
Ltac live_goal tac := split; [base_goal; try (inversion B5; subst; points_goal); try (inversion B4; subst; points_goal)|unfold ph_read, ph_write, ph_deferred, ph_over; tac; counts; cbn [code bz] in *; phase_goal].
Ltac at_read := left.
Ltac at_write := right; left.
Ltac at_deferred := do 2 right; left.
Ltac at_over := do 3 right.

Lemma server_busy_on c : alive c = true -> at_work c -> busy c = true.
Proof. intros Ha H. unfold busy. by rewrite Ha, bool_decide_eq_true_2. Qed.
Lemma server_busy_off c : ~ at_work c -> busy c = false.
Proof. intros H. unfold busy. rewrite bool_decide_eq_false_2 by done. apply andb_false_r. Qed.
Ltac busy_is b :=
  lazymatch b with true => apply server_busy_on; [done|] | false => apply server_busy_off end;
  unfold at_work; counts; cbn [code bz] in *; lia.
Ltac busy_same := unfold busy; f_equal; apply bool_decide_ext; unfold at_work; counts; cbn [code bz] in *; lia.

(** The sessions owned are the same. *)
Ltac own_is tac :=
  unfold owned; match goal with |- ((if busy ?x then _ else _) ++ _) ++ _ ≡ₚ ((if busy ?y then _ else _) ++ _) ++ _ => tac x y end;
  counts; cbn [points goto with_points fmap list_fmap concat point_sessions app session s_hand]; rewrite ?app_nil_r; try done; try solve_Permutation.
Ltac own b1 b2 := own_is ltac:(fun x y => let E1 := fresh in let E2 := fresh in assert (E1 : busy x = b1) by busy_is b1; assert (E2 : busy y = b2) by busy_is b2; rewrite E1, E2).
Ltac own_same := own_is ltac:(fun x y => let E := fresh in assert (E : busy x = busy y) by busy_same; rewrite E).

(** ** The sessions *)

Lemma use_session_owned c s : conn_ok c -> s ∈ owned c -> use_session s c = Done tt.
Proof.
  intros [_ _ P N _] Hs. unfold use_session. assert (H1 : s ∈ (sessions c).*1) by (rewrite P; apply elem_of_app; by left).
  assert (H2 : s ∉ s_hand c). { rewrite P in N. apply NoDup_app_inv in N as (_ & _ & D). intros H. by apply (D s). }
  by rewrite bool_decide_eq_true_2, bool_decide_eq_false_2.
Qed.
Lemma owned_busy c : busy c = true -> session c ∈ owned c.
Proof. intros H. unfold owned. rewrite H. by left. Qed.

(** ** The order of the threads and of the results *)

Lemma live_ok_perm c rs ps : live_ok c -> rs ≡ₚ results c -> ps ≡ₚ points c -> live_ok (with_results rs (with_points ps c)).
Proof.
  intros [[B1 B2 B3 B4 B5] Ph] Hr Hp. split.
  - constructor; unfold t_iov, t_other, on_node in *; cbn; rewrite ?(num_perm _ _ _ Hr), ?(num_perm _ _ _ Hp); try done; by rewrite ?Hr, ?Hp.
  - unfold ph_read, ph_write, ph_deferred, ph_over, t_read, t_write, t_iov, t_success, on_node in *. cbn [results points with_results with_points s_node state idle kept ref].
    by rewrite ?(num_perm _ _ _ Hr), ?(num_perm _ _ _ Hp).
Qed.
Lemma dead_ok_perm c rs ps : dead_ok c -> rs ≡ₚ results c -> ps ≡ₚ points c -> dead_ok (with_results rs (with_points ps c)).
Proof. intros [D1 D2 D3 D4 D5] Hr Hp. constructor; cbn; [done|done|by rewrite Hr|by rewrite Hp|by rewrite (num_perm _ _ _ Hp)]. Qed.
Lemma concat_perm (l1 l2 : list (list loc)) : l1 ≡ₚ l2 -> concat l1 ≡ₚ concat l2.
Proof. induction 1; cbn; [done|by f_equiv|rewrite !(assoc_L (++)); by rewrite (Permutation_app_comm x y)|by etrans]. Qed.
Lemma owned_perm c rs ps : rs ≡ₚ results c -> ps ≡ₚ points c -> owned (with_results rs (with_points ps c)) ≡ₚ owned c.
Proof.
  intros Hr Hp. unfold owned. assert (E : busy (with_results rs (with_points ps c)) = busy c).
  { unfold busy. f_equal. apply bool_decide_ext. unfold at_work, t_write, t_iov, t_read, t_success, on_node. cbn. by rewrite ?(num_perm _ _ _ Hr), ?(num_perm _ _ _ Hp). }
  rewrite E. apply Permutation_app; [done|]. apply concat_perm. cbn. by rewrite Hp.
Qed.
Lemma conn_ok_perm c rs ps : conn_ok c -> rs ≡ₚ results c -> ps ≡ₚ points c -> conn_ok (with_results rs (with_points ps c)).
Proof.
  intros [K1 K2 K3 K4 K5] Hr Hp. constructor.
  - cbn [alive with_results with_points]. destruct (alive c); [by apply live_ok_perm|by apply dead_ok_perm].
  - cbn. by rewrite !(num_perm _ _ _ Hp).
  - rewrite owned_perm by done. done.
  - done.
  - intros s Hs. destruct (K5 s Hs) as [? H]. split; [done|]. intros Ha. destruct (H Ha) as (? & ? & Hw). split_and!; try done. revert Hw.
    unfold t_write, t_iov, on_node. cbn. by rewrite ?(num_perm _ _ _ Hr), ?(num_perm _ _ _ Hp).
Qed.
Lemma conn_ok_point c p : conn_ok c -> p ∈ points c -> conn_ok (goto p (with_points (remove_one p (points c)) c)).
Proof. intros H Hp. apply (conn_ok_perm c (results c) (p :: remove_one p (points c))) in H; [by destruct c|done|]. symmetry. by apply remove_one_perm. Qed.
Lemma conn_ok_result c r : conn_ok c -> r ∈ results c -> conn_ok (emit r (with_results (remove_one r (results c)) c)).
Proof. intros H Hr. apply (conn_ok_perm c (r :: remove_one r (results c)) (points c)) in H; [by destruct c| |done]. symmetry. by apply remove_one_perm. Qed.

(** ** The steps *)

(** What a step of a connection keeps; [l]: the service listens. *)
Definition good (l : bool) (c : sconn) (o : outcome sconn) : Prop :=
  match o with
  | Done c' => conn_ok c' /\ (kept c' = true -> kept c = true \/ l = true) /\ (t_alive c' = true -> t_alive c = true) /\ (sessions c').*1 ⊆ (sessions c).*1
  | _ => False
  end.
Lemma t_alive_pos c : conn_ok c -> 0 < t_ref c -> t_alive c = true.
Proof. intros [_ (_ & _ & E) _ _ _] H. rewrite E. by apply Z.ltb_lt. Qed.
Lemma entry_target c : conn_ok c -> alive c = true -> t_alive c = true.
Proof.
  intros K Ha. apply t_alive_pos; [done|]. destruct K as [_ (E & _) _ _ _]. rewrite Ha in E. cbn match in E. pose proof (num_nonneg p_target (points c)). lia.
Qed.
Lemma session_target c s : conn_ok c -> s ∈ (sessions c).*1 -> t_alive c = true.
Proof.
  intros K Hs. apply t_alive_pos; [done|]. destruct K as [_ (E & _) _ _ _]. assert (0 < len (sessions c)).
  { destruct (sessions c); [by apply elem_of_nil in Hs|cbn; lia]. }
  pose proof (num_nonneg p_target (points c)). pose proof (num_nonneg p_accept (points c)). destruct (alive c); lia.
Qed.
Lemma t_same c c' : (sessions c').*1 = (sessions c).*1 -> len (sessions c') = len (sessions c).
Proof. intros E. rewrite <- (length_fmap fst (sessions c')), E, length_fmap. done. Qed.

(** A step of a connection in use after which the sessions are the same. *)
Lemma good_step l c c' : conn_ok c -> alive c = true -> alive c' = true -> live_ok c' -> owned c ++ s_hand c ≡ₚ owned c' ++ s_hand c' ->
  t_ref c' = t_ref c -> t_alive c' = t_alive c -> num p_target (points c') = num p_target (points c) -> (sessions c').*1 = (sessions c).*1 ->
  (forall s, (s, 2) ∈ sessions c' -> s = session c' /\ code (state c') <> 1 /\ code (state c') <> 5 /\ t_write c' = 0) ->
  (kept c' = true -> kept c = true \/ l = true) -> good l c (Done c').
Proof.
  intros [K1 K2 K3 K4 K5] Ha Ha' L O E1 E2 E3 E4 F Hk. split; [|by rewrite E2, E4]. rewrite Ha in *. constructor; rewrite ?Ha', ?E1, ?E2, ?E3, ?E4, ?(t_same c c'); try done.
  - by rewrite <- O.
  - intros s Hs. destruct (F s Hs) as (? & ?). done.
Qed.

(** Take a connection in use apart. *)
Ltac apart K Ha := let L := fresh "L" in pose proof (k_entry _ K) as L; cbn [alive goto emit with_points with_results] in L; rewrite Ha in L; take_apart L.
(** Where a reply may be awaited after a step that leaves the sessions as they are. *)
Ltac waits K :=
  let s := fresh "s" in let Hs := fresh "Hs" in let H := fresh "H" in intros s Hs; destruct (k_current _ K s Hs) as [-> H]; destruct (H eq_refl) as (? & ? & ?);
  split; [done|]; counts; cbn [code bz] in *; lia.
(** The step ends in phase [ph]; the sessions owned by [o]. *)
Ltac step ph o K := eapply good_step; [exact K|done|done|live_goal ph|o|done|done|counts; lia|done|waits K|cbn; try done; try (by left); try (by right)].

Lemma point_alive p c : conn_ok (goto p c) -> p <> HAccept -> p <> TDrop -> alive c = true.
Proof.
  intros [K _ _ _ _] H1 H2. cbn [alive goto with_points] in K. destruct (alive c); [done|]. destruct K as [_ _ _ D _]. inversion D; subst. tauto.
Qed.

(** An entry without references: nothing is left but targets. *)
Lemma server_dead_points l : Forall point_ok l -> num p_success l = 0 -> num p_end l = 0 -> num p_write l = 0 -> num p_ref l = 0 -> Forall (fun p => p = HAccept \/ p = TDrop) l.
Proof.
  intros F H1 H2 H3 H4. apply Forall_forall. intros p Hp.
  assert (N : forall f, num f l = 0 -> f p = false) by (intros f Hf; apply (cnt_none f p l); [unfold num in Hf; lia|done]).
  apply N in H1, H2, H3, H4. destruct p as [|[]| | | | |]; cbn in *; try done; tauto.
Qed.
Lemma dead_owned ps : Forall (fun p => p = HAccept \/ p = TDrop) ps -> concat (point_sessions <$> ps) = [].
Proof. induction 1 as [|p ps [->| ->] _ IH]; cbn; done. Qed.

Lemma num_none {A} (f : A -> bool) (P : A -> Prop) l : Forall P l -> (forall x, P x -> f x = false) -> num f l = 0.
Proof. intros F H. induction F as [|x l Hx F IH]; [done|]. by rewrite num_cons, (H x Hx), IH. Qed.
(** Nothing is left of an entry. *)
Lemma dead_nums rs ps : Forall (fun r => r = (OP_READ, PR_MODIFIED)) rs -> Forall (fun p => p = HAccept \/ p = TDrop) ps ->
  num r_connect rs = 0 /\ num r_write rs = 0 /\ num r_success rs = 0 /\ num r_end rs = 0 /\ num p_success ps = 0 /\ num p_end ps = 0 /\ num p_write ps = 0 /\ num p_ref ps = 0.
Proof. intros Fr Fp. split_and!; (eapply num_none; [eassumption|]); cbn; [by intros r ->..| | | |]; by intros p [->| ->]. Qed.

Section Local.
(** The service is in use while a target is. *)
Variables (sv li stop : bool) (c : sconn).
Hypothesis Hsv : t_alive c = true -> sv = true.

Lemma serve_ok s : conn_ok (goto (HServe s) c) -> good li (goto (HServe s) c) (serve s c).
Proof.
  intros K. assert (Ha : alive c = true) by (by apply (point_alive _ _ K)).
  assert (Hu : use_session s (goto (HServe s) c) = Done tt). { apply use_session_owned; [done|]. unfold owned. apply elem_of_app. right. cbn. by left. }
  unfold serve. change (use_session s c) with (use_session s (goto (HServe s) c)). rewrite Hu. cbn [mbind outcome_bind]. clear Hu Hsv.
  apart K Ha.
  - step at_read own_same K.
  - step at_write own_same K.
  - step at_deferred own_same K.
  - step at_over own_same K.
Qed.

Lemma end_session_ok so : conn_ok (goto (HEnd so) c) -> good li (goto (HEnd so) c) (end_session so c).
Proof.
  intros K. assert (Ha : alive c = true) by (by apply (point_alive _ _ K)). unfold end_session. destruct so as [[s cs]|].
  - assert (Hu : use_session s (goto (HEnd (Some (s, cs))) c) = Done tt). { apply use_session_owned; [done|]. unfold owned. apply elem_of_app. right. cbn. by left. }
    change (use_session s c) with (use_session s (goto (HEnd (Some (s, cs))) c)). rewrite Hu. cbn [mbind outcome_bind]. clear Hu Hsv.
    apart K Ha; [step at_read own_same K|step at_write own_same K|step at_deferred own_same K|step at_over own_same K].
  - clear Hsv. apart K Ha; [step at_read own_same K|step at_write own_same K|step at_deferred own_same K|step at_over own_same K].
Qed.

Lemma server_drop_ref_ok : conn_ok (goto HDrop c) -> good li (goto HDrop c) (drop_ref c).
Proof.
  intros K. assert (Ha : alive c = true) by (by apply (point_alive _ _ K)). unfold drop_ref, use_entry. rewrite Ha. cbn [must mbind outcome_bind ref with_ref upd_entry]. clear Hsv.
  destruct (Z.eqb_spec (ref c - 1) 0) as [E|E].
  - pose proof (k_target _ K) as (T1 & T2 & T3). cbn [alive goto with_points] in T1. rewrite Ha in T1. cbn match in T1. pose proof (k_sessions _ K) as P. pose proof (k_nodup _ K) as N.
    pose proof (k_entry _ K) as L0. cbn [alive goto with_points] in L0. rewrite Ha in L0. destruct L0 as [[_ _ _ _ F0] _]. inversion F0 as [|? ? _ F1 E1]; subst; cbn [points goto with_points] in F1.
    apart K Ha. assert (Hpo : Forall (fun p => p = HAccept \/ p = TDrop) po) by (apply server_dead_points; [done|lia..]).
    assert (Hio : io = false) by (destruct io; [cbn [bz] in *; lia|done]). assert (Hid : id = false) by (destruct id; [cbn [bz] in *; lia|done]). assert (Hke : ke = false) by (destruct ke; [cbn [bz] in *; lia|done]).
    assert (Hn : no = None) by (destruct no as [[[] m]|]; [cbn [nod op_is bz n_op] in *; lia..|done]). subst. cbn [good]. split; [|done]. constructor; cbn.
    + constructor; cbn; [done|done|apply dead_results; lia|constructor; [by right|done]|rewrite num_cons; cbn; lia].
    + rewrite !num_cons. cbn [bz p_target p_accept]. split; [lia|done].
    + unfold owned in P. match type of P with context [busy ?x] => assert (E' : busy x = false) by busy_is false; rewrite E' in P end. cbn in P. exact P.
    + done.
    + intros s Hs. split; [|done]. by destruct (k_current _ K s Hs).
  - apart K Ha; [step at_read own_same K|step at_write own_same K|step at_deferred own_same K|step at_over own_same K].
Qed.

Lemma drop_target_ok : conn_ok (goto TDrop c) -> good li (goto TDrop c) (drop_target sv c).
Proof.
  intros K. destruct (k_target _ K) as (T1 & T2 & T3). cbn [t_ref t_alive goto with_points alive points sessions] in T1, T2, T3. rewrite !num_cons in T1. cbn [bz p_target p_accept] in T1.
  assert (Hp : 0 < t_ref c) by (pose proof (num_nonneg p_target (points c)); pose proof (num_nonneg p_accept (points c)); destruct (alive c); lia).
  assert (Ht : t_alive c = true) by (rewrite T3; by apply Z.ltb_lt).
  assert (E : drop_target sv c = Done (with_target (0 <? t_ref c - 1) (t_ref c - 1) c)).
  { unfold drop_target, use_target, use_service. rewrite Ht, (Hsv Ht). cbn [must mbind outcome_bind]. destruct (Z.eqb_spec (t_ref c - 1) 0) as [->|Hn]; [done|].
    by replace (0 <? t_ref c - 1) with true by (symmetry; apply Z.ltb_lt; lia). }
  rewrite E. clear E Hsv. cbn [good]. split; [|by split_and!; [left|intros _|]].
  destruct K as [K1 _ K3 K4 K5]. constructor; [|cbn; split; [|split]; [|lia|done]|done|done|].
  - cbn [alive with_target goto with_points] in *. destruct (alive c) eqn:Ha.
    + take_apart K1; [live_goal at_read|live_goal at_write|live_goal at_deferred|live_goal at_over].
    + destruct K1 as [D1 D2 D3 D4 D5]. cbn in D4. inversion D4; subst. by constructor.
  - destruct (alive c); lia.
  - intros s Hs. destruct (K5 s Hs) as [-> H]. split; [done|]. intros Ha. destruct (H Ha) as (? & ? & ?). split_and!; [done..|]. counts. lia.
Qed.

Lemma listen_result_ok ok added : conn_ok (goto HAccept c) -> good li (goto HAccept c) (listen_result sv stop ok added c).
Proof.
  intros K. destruct K as [K1 (T1 & T2 & T3) K3 K4 K5]. cbn [t_ref t_alive goto with_points alive points sessions] in *.
  destruct (alive c) eqn:Ha. { exfalso. destruct K1 as [[_ [_ B] _ _ _] _]. cbn in B. rewrite num_cons in B. cbn in B. pose proof (num_nonneg p_accept (points c)). lia. }
  destruct K1 as [(D0 & D0' & D0'') D2 D3 D4 D5]. cbn [points results goto with_points] in *. inversion D4 as [|? ? _ D4']; subst. rewrite num_cons in D5. cbn [bz p_accept] in D5.
  pose proof (num_nonneg p_accept (points c)). destruct D5 as [D5 Ds]; [lia|]. rewrite !num_cons in T1. cbn [bz p_target p_accept] in T1.
  assert (Hp : 0 < t_ref c) by (pose proof (num_nonneg p_target (points c)); lia).
  assert (Ht : t_alive c = true) by (rewrite T3; by apply Z.ltb_lt). clear K5.
  unfold listen_result, use_target, use_service. rewrite Ht, (Hsv Ht). clear Hsv. cbn [must mbind outcome_bind].
  cbn [sessions goto with_points] in Ds. assert (Ho : concat (point_sessions <$> points c) = []) by by apply dead_owned.
  assert (P : s_hand c = []). { unfold owned, busy in K3. cbn [alive goto with_points] in K3. rewrite Ha in K3. cbn in K3. rewrite Ho, Ds in K3. cbn in K3. by apply Permutation_nil_l in K3. }
  destruct (dead_nums _ _ D3 D4') as (N1 & N2 & N3 & N4 & N5 & N6 & N7 & N9).
  assert (G : forall c', alive c' = true -> state c' = CONNECTED -> ref c' = 1 -> idle c' = false -> kept c' = false -> write_iov c' = false -> t_ref c' = t_ref c -> t_alive c' = t_alive c ->
    points c' = points c -> sessions c' = sessions c -> s_hand c' = s_hand c -> on_node reading c' = 0 -> on_node (op_is OP_WRITE) c' = 0 -> on_node (op_is OP_CONNECT) c' = 0 ->
    on_node (op_is OP_READ) c' + num r_end (results c') = 1 -> num r_connect (results c') = 0 -> num r_write (results c') = 0 -> num r_success (results c') = 0 -> Forall result_ok (results c') ->
    good li (goto HAccept c) (Done c')).
  { clear K3. intros c' E1 E2 E3 E4 E5 E6 E7 E8 E9 E10 E11 F1 F2 F3 F4 F5 F6 F7 F8. split; [|cbn; rewrite E5, E8, E10; split_and!; try done]. constructor; rewrite ?E1, ?E7, ?E8, ?E10, ?E11.
    - split; [constructor; unfold t_iov, t_other; rewrite ?E6, ?E9; cbn [bz]; [lia|lia|lia|done|]|left; unfold ph_read, t_read, t_write, t_iov, t_success; rewrite ?E2, ?E3, ?E4, ?E5, ?E9; cbn [code bz]; phase_goal].
      eapply Forall_impl; [exact D4'|]. by intros p [->| ->].
    - rewrite E9. split; [lia|done].
    - rewrite Ds, P. unfold owned. rewrite E9, Ho, server_busy_off; [done|]. unfold at_work, t_read, t_write, t_iov, t_success. rewrite E2, E9. cbn [code]. lia.
    - rewrite Ds. constructor.
    - rewrite Ds. intros s Hs. by apply elem_of_nil in Hs. }
  assert (R : Forall result_ok (results c)) by (eapply Forall_impl; [exact D3|by intros r ->]).
  assert (T : forall c', alive c' = false -> idle c' = false -> kept c' = false -> write_iov c' = false -> s_node c' = None -> results c' = results c -> points c' = points c -> t_ref c' = t_ref c -> t_alive c' = t_alive c ->
    sessions c' = sessions c -> s_hand c' = s_hand c -> good li (goto HAccept c) (Done (goto TDrop c'))).
  { clear K3 G. intros c' E1 E2 E3 E4 E5 E6 E7 E8 E9 E10 E11. split; [|cbn; rewrite E3, E9, E10; by split_and!]. constructor; cbn; rewrite ?E1, ?E7, ?E8, ?E9, ?E10, ?E11.
    - constructor; cbn; rewrite ?E6, ?E7, ?E10; [done|done|done|constructor; [by right|done]|]. rewrite num_cons. cbn. lia.
    - rewrite !num_cons. cbn [bz p_target p_accept]. split; [lia|done].
    - rewrite Ds, P. unfold owned, busy. cbn. by rewrite E1, E7, Ho.
    - rewrite Ds. constructor.
    - rewrite Ds. intros s Hs. by apply elem_of_nil in Hs. }
  clear K3. cbn [s_node goto with_points] in D2. destruct ok; [|by apply T]. unfold mpoller_add. cbn [s_node upd_entry]. rewrite D2. destruct added; [|by apply T].
  destruct stop; apply G; cbn; rewrite ?num_cons; cbn [bz r_end r_connect r_write r_success]; try done; try lia. by constructor.
Qed.
End Local.
