(* ===== verification/CommServerPoll.v ===== *)
(** * Services: the results, the poller and the owners keep the invariant of a connection

    [handle_incoming_request], [handle_reply_result], the callbacks of the poller, [reply],
    [shutdown], [~CommSession] and [drain], as [CommServerConn] does for the others. *)

From S2P Require Import Prelude RBTree CommConn CommServer CommServerConn.
Local Open Scope Z_scope.
#[local] Arguments num : simpl never.
#[local] Arguments code : simpl nomatch.
#[local] Arguments bz : simpl nomatch.
#[local] Arguments nod : simpl nomatch.
#[local] Arguments succeeded : simpl nomatch.

Section Local.
Variables (sv li stop : bool) (c : sconn).
Hypothesis Hsv : t_alive c = true -> sv = true.

(** A kept connection whose session was not made. *)
Definition unmade (c : sconn) : Prop := state c = KEEPALIVE /\ kept c = false.

Lemma keys_set_passive s n d : (sessions (set_passive s n d)).*1 = (sessions d).*1.
Proof. cbn. rewrite <- list_fmap_compose. apply list_fmap_ext. intros i [x y] _. cbn. by destruct (decide (x = s)) as [->|]. Qed.
Lemma in_set_passive s n d x m : (x, m) ∈ sessions (set_passive s n d) -> x = s /\ m = n \/ x <> s /\ (x, m) ∈ sessions d.
Proof. cbn. intros H. apply list_elem_of_fmap in H as ([y k] & E & H). cbn in E. destruct (decide (y = s)); injection E as -> ->; [by left|by right]. Qed.

Lemma incoming_success_ok : conn_ok (goto (HRequest PR_SUCCESS) c) -> good li (goto (HRequest PR_SUCCESS) c) (incoming_request sv PR_SUCCESS c).
Proof.
  intros K. assert (Ha : alive c = true) by (by apply (point_alive _ _ K)). pose proof (entry_target _ K Ha) as Ht. cbn [t_alive goto with_points] in Ht.
  assert (Hb : busy (goto (HRequest PR_SUCCESS) c) = true) by (clear Hsv; apart K Ha; busy_is true).
  assert (Hu : use_session (session c) (goto (HRequest PR_SUCCESS) c) = Done tt) by exact (use_session_owned _ _ K (owned_busy _ Hb)).
  unfold incoming_request, use_entry, use_target. rewrite Ha, Ht. cbn [must mbind outcome_bind].
  change (use_session (session c) c) with (use_session (session c) (goto (HRequest PR_SUCCESS) c)). rewrite Hu. cbn [mbind outcome_bind]. clear Hu Hb Ht Hsv.
  destruct (decide (state c = SUCCESS)) as [Hs|Hs].
  - eapply good_step; [exact K|done|done|..]; [| |done|done| |apply (keys_set_passive _ _ c)| |].
    + apart K Ha. live_goal at_read.
    + apart K Ha. own true false.
    + apart K Ha. counts. lia.
    + intros s H. apply in_set_passive in H. cbn in H. destruct H as [[-> _]|[Hn H]]; [|by destruct (Hn (proj1 (k_current _ K s H)))]. split; [done|]. apart K Ha. counts. cbn [code]. lia.
    + cbn; by left.
  - assert (Hc : code (state c) <> 3) by (by destruct (state c)).
    eapply good_step; [exact K|done|done|..]; [| |done|done| |apply (keys_set_passive _ _ c)| |].
    + apart K Ha. live_goal at_over.
    + apart K Ha. own true false.
    + apart K Ha. counts. lia.
    + intros s H. apply in_set_passive in H. cbn in H. destruct H as [[-> _]|[Hn H]]; [|by destruct (Hn (proj1 (k_current _ K s H)))]. split; [done|]. apart K Ha. counts. cbn [code]. lia.
    + cbn. by left.
Qed.

Lemma incoming_end_ok st : ended st = true -> conn_ok (goto (HRequest st) c) ->
  good li (goto (HRequest st) c) (incoming_request sv st c) \/ incoming_request sv st c = Fault /\ unmade c.
Proof.
  intros He K. assert (Ha : alive c = true) by (by apply (point_alive _ _ K)). pose proof (entry_target _ K Ha) as Ht. cbn [t_alive goto with_points] in Ht.
  assert (E : incoming_request sv st c = match state c with
      | KEEPALIVE => must (kept c) ;; Done (goto (HEnd None) (with_kept false c))
      | IDLE => must (idle c) ;; Done (goto (HEnd None) (with_idle false c))
      | ERROR => Done (goto (HEnd (Some (session c, CS_ERROR))) c)
      | RECEIVING => Done (goto (HEnd (Some (session c, failed st))) c)
      | SUCCESS => Done (with_state CLOSING c)
      | _ => Done (goto (HEnd None) c)
      end).
  { unfold incoming_request, use_entry, use_target, use_service. rewrite Ha, Ht, (Hsv Ht). by destruct st. }
  rewrite E. clear E Hsv Ht. assert (Hq : succeeded st = false) by (by destruct st).
  destruct (state c) eqn:Hs.
  - exfalso. apart K Ha; rewrite ?Hq in *; cbn [bz negb code] in *; lia.
  - left. apart K Ha; rewrite ?Hq in *; cbn [bz negb code] in *; try (exfalso; lia). step at_over own_same K.
  - left. apart K Ha; rewrite ?Hq in *; cbn [bz negb code] in *; try (exfalso; lia). step at_over ltac:(own true false) K.
  - left. apart K Ha; rewrite ?Hq in *; cbn [bz negb code] in *; try (exfalso; lia). step at_deferred ltac:(own true true) K.
  - left. apart K Ha; rewrite ?Hq in *; cbn [bz negb code] in *; try (exfalso; lia). destruct id; [|exfalso; cbn [bz] in *; lia]. cbn [idle must mbind outcome_bind]. step at_over own_same K.
  - destruct (kept c) eqn:Hk; [left|right; split; [done|by split]]. cbn [must mbind outcome_bind].
    apart K Ha; rewrite ?Hq in *; cbn [bz negb code] in *; try (exfalso; lia). step at_over own_same K.
  - left. apart K Ha; rewrite ?Hq in *; cbn [bz negb code] in *; try (exfalso; lia). step at_over own_same K.
  - left. apart K Ha; rewrite ?Hq in *; cbn [bz negb code] in *; try (exfalso; lia). step at_over ltac:(own true false) K.
Qed.

(** ** The results *)

Lemma busy_session p : conn_ok (goto p c) -> busy (goto p c) = true -> use_session (session c) c = Done tt.
Proof. intros K Hb. exact (use_session_owned _ _ K (owned_busy _ Hb)). Qed.

Lemma reply_view st : conn_ok (goto (HReply st) c) -> alive c = true -> ended st = true /\ busy (goto (HReply st) c) = true /\ s_node c = None /\ write_iov c = false.
Proof.
  intros K Ha. clear Hsv. assert (He : ended st = true). { pose proof (k_entry _ K) as L. cbn [alive goto with_points] in L. rewrite Ha in L. destruct L as [[_ _ _ _ F] _]. by inversion F. }
  apart K Ha. split_and!; [done|busy_is true| |].
  - destruct no as [[[] m]|]; [cbn [nod op_is bz n_op] in *; lia..|done].
  - destruct io; [cbn [bz] in *; lia|done].
Qed.
Lemma reply_result_ok st keep added : conn_ok (goto (HReply st) c) -> good li (goto (HReply st) c) (reply_result sv li stop st keep added c).
Proof.
  intros K. assert (Ha : alive c = true) by (by apply (point_alive _ _ K)). pose proof (entry_target _ K Ha) as Ht. cbn [t_alive goto with_points] in Ht.
  destruct (reply_view st K Ha) as (He & Hb & Hn & Hio). pose proof (busy_session _ K Hb) as Hu. clear Hb.
  unfold reply_result, use_entry, use_target, use_service. rewrite Ha, Ht, (Hsv Ht), Hu. clear Hu Ht Hsv. cbn [must mbind outcome_bind].
  destruct st; try done; cbn [mbind outcome_bind]; try (apart K Ha; step at_over ltac:(own true false) K; fail).
  destruct keep; [|apart K Ha; step at_over ltac:(own true false) K]. unfold mpoller_add. cbn [s_node with_ref upd_entry]. rewrite Hn. destruct added.
  - destruct (negb stop && li) eqn:E.
    + apply andb_true_iff in E as [_ E]. apart K Ha. step at_read ltac:(own true false) K.
    + clear E. apart K Ha. unfold mpoller_del. cbn [s_node with_node n_op]. step at_read ltac:(own true false) K.
  - replace (ref (with_ref (ref c + 1) c) - 1) with (ref c) by (cbn; lia). apart K Ha. step at_over ltac:(own true false) K.
Qed.

Lemma server_handle_result_ok r : conn_ok (emit r c) -> good li (emit r c) (handle_result r c).
Proof.
  intros K. clear Hsv. destruct (alive c) eqn:Ha.
  - assert (Hr : result_ok r). { pose proof (k_entry _ K) as L. cbn [alive emit with_results] in L. rewrite Ha in L. destruct L as [[_ _ _ B _] _]. by inversion B. }
    unfold handle_result, use_entry. rewrite Ha. cbn [must mbind outcome_bind]. destruct r as [[] st]; cbn [result_ok] in Hr.
    + destruct st; cbn [must mbind outcome_bind]; apart K Ha; cbn [bz r_end r_success] in *; try (exfalso; lia); try (step at_read own_same K; fail); try (step at_deferred own_same K; fail); try (step at_write own_same K; fail); step at_over own_same K.
    + assert (Hio : write_iov c = true) by (apart K Ha; destruct io; [done|cbn [bz] in *; lia]). rewrite Hio. cbn [must mbind outcome_bind]. apart K Ha. step at_write own_same K.
    + exfalso. apart K Ha; lia.
  - destruct K as [K1 K2 K3 K4 K5]. cbn [alive emit with_results] in K1. rewrite Ha in K1. destruct K1 as [D1 D2 D3 D4 D5]. cbn in D3. inversion D3 as [|? ? Er D3']; subst. cbn [handle_result].
    split; [|by split_and!; [left|..]]. constructor; rewrite ?Ha; try done.
    + cbn [alive emit with_results] in K2. by rewrite Ha in K2.
    + intros s Hs. split; [|done]. by destruct (K5 s Hs).
Qed.

(** ** The poller *)

Lemma server_node_ends_ok n st : conn_ok c -> alive c = true -> s_node c = Some n -> ended st = true -> good li c (Done (node_ends st c)).
Proof.
  intros K Ha Hn He. clear Hsv. unfold node_ends. rewrite Hn. destruct n as [[] m]; cbn [n_op]; [|apart K Ha; step at_write own_same K|exfalso; apart K Ha].
  destruct st; try done; apart K Ha; (step at_read own_same K).
Qed.
Lemma server_append_message_ok r : conn_ok c -> alive c = true -> s_node c = Some (mk_node OP_READ true) -> good li c (append_message r c).
Proof.
  intros K Ha Hn. assert (Hb : busy c = true) by (clear Hsv; apart K Ha; busy_is true).
  unfold append_message, use_entry. rewrite Ha, (use_session_owned _ _ K (owned_busy _ Hb)). cbn [must mbind outcome_bind]. destruct r.
  - split; [done|]. split_and!; [by left|done|done].
  - by eapply server_node_ends_ok.
  - clear Hsv. apart K Ha. step at_read own_same K.
Qed.
Lemma partial_written_ok n : conn_ok c -> alive c = true -> s_node c = Some n -> n_op n = OP_WRITE -> good li c (partial_written c).
Proof.
  intros K Ha Hn Ho. assert (Hb : busy c = true) by (destruct n as [op m]; cbn in Ho; clear Hsv; apart K Ha; busy_is true).
  unfold partial_written, use_entry. rewrite Ha, (use_session_owned _ _ K (owned_busy _ Hb)). cbn [must mbind outcome_bind]. split; [done|]. split_and!; [by left|done|done].
Qed.

(** A new session. *)
Definition grown (s : loc) (c : sconn) (o : outcome sconn) : Prop :=
  match o with
  | Done c' => conn_ok c' /\ (kept c' = true -> kept c = true) /\ (t_alive c' = true -> t_alive c = true) /\ (sessions c').*1 ⊆ s :: (sessions c).*1
  | _ => False
  end.

Lemma node_dead : s_node c <> None -> conn_ok c -> alive c = true.
Proof. intros Hn [K _ _ _ _]. destruct (alive c); [done|]. destruct K as [_ D _ _ _]. done. Qed.

(** [create_request] goes on: the connection waits for a request. *)
Definition waiting (c : sconn) : Prop := state c = CONNECTED \/ state c = KEEPALIVE /\ kept c = true.
Definition received (s : loc) (c : sconn) : sconn :=
  with_target (t_alive c) (t_ref c + 1) (with_sessions (sessions c ++ [(s, 1)]) (s_hand c) (with_state RECEIVING (with_session s (with_kept false c)))).

Lemma create_request_cases so ok : conn_ok c -> s_node c = Some (mk_node OP_READ false) ->
  (waiting c /\ create_request sv so ok c = match so with
     | None => Done (node_ends PR_ERROR (with_kept false c))
     | Some s => Done (if ok then with_node (Some (mk_node OP_READ true)) (received s c) else node_ends PR_ERROR (received s c))
     end) \/ create_request sv so ok c = Done (node_ends PR_ERROR c).
Proof.
  intros K Hn. assert (Ha : alive c = true) by (apply node_dead; [by rewrite Hn|done]). pose proof (entry_target _ K Ha) as Ht.
  assert (Hk : state c = KEEPALIVE -> kept c = true). { clear Hsv. intros Hs. apart K Ha. destruct ke; [done|cbn [bz] in *; lia]. }
  unfold create_request, use_entry, use_target, use_service. rewrite Ha, Ht, (Hsv Ht). cbn [must mbind outcome_bind].
  destruct (state c) eqn:Hs; try (by right); left; (split; [unfold waiting; rewrite ?Hs; tauto|]).
  - rewrite decide_False by done. cbn [mbind outcome_bind]. destruct so; [|done]. unfold received. cbn [with_kept t_alive upd_entry sessions with_sessions]. done.
  - rewrite decide_True, Hk by done. cbn [must mbind outcome_bind]. destruct so; [|done]. done.
Qed.

Lemma create_none_ok ok : conn_ok c -> s_node c = Some (mk_node OP_READ false) -> good li c (create_request sv None ok c).
Proof.
  intros K Hn. assert (Ha : alive c = true) by (apply node_dead; [by rewrite Hn|done]). destruct (create_request_cases None ok K Hn) as [[W ->]| ->]; [|by eapply server_node_ends_ok]. clear Hsv.
  unfold node_ends. cbn [s_node with_kept upd_entry]. rewrite Hn. cbn [n_op]. destruct W as [W|[W Hk]].
  - apart K Ha. step at_read own_same K.
  - apart K Ha. step at_read own_same K.
Qed.
Lemma create_some_ok s ok : conn_ok c -> s ∉ (sessions c).*1 -> s_node c = Some (mk_node OP_READ false) -> grown s c (create_request sv (Some s) ok c).
Proof.
  intros K Hs Hn. assert (Ha : alive c = true) by (apply node_dead; [by rewrite Hn|done]).
  destruct (create_request_cases (Some s) ok K Hn) as [[W ->]| ->].
  2:{ pose proof (server_node_ends_ok _ PR_ERROR K Ha Hn eq_refl) as (G1 & G2 & G3 & G4). split; [done|]. split_and!; [|done|set_solver]. unfold node_ends. by rewrite Hn. }
  clear Hsv. assert (W' : (code (state c) = 1 \/ code (state c) = 5) /\ t_read c = 1 /\ t_write c = 0 /\ t_success c = 0 /\ idle c = false).
  { destruct W as [W|[W Hk]]; apart K Ha; (split_and!; [lia|lia|lia|lia|destruct id; [cbn [bz] in *; lia|done]]). }
  assert (G : forall c', live_ok c' -> alive c' = true -> session c' = s -> state c' = RECEIVING -> kept c' = false -> t_write c' = 0 -> t_read c' = 1 -> t_alive c' = t_alive c -> t_ref c' = t_ref c + 1 -> points c' = points c ->
    sessions c' = sessions c ++ [(s, 1)] -> s_hand c' = s_hand c -> grown s c (Done c')).
  { intros c' E0 E1 E2 E3 E4 E5 E6 E7 E8 E9 E10 E11. destruct K as [K1 (T1 & T2 & T3) K3 K4 K5]. rewrite Ha in *. split; [|rewrite E4, E7, E10, fmap_app; cbn; split_and!; try done; set_solver].
    constructor; rewrite ?E1, ?E2, ?E3, ?E7, ?E8, ?E10, ?E11; [done| | | |].
    - rewrite E9, length_app. cbn. split_and!; [lia..|]. rewrite T3. cbn match in T1. pose proof (num_nonneg p_target (points c)). destruct (Z.ltb_spec 0 (t_ref c)), (Z.ltb_spec 0 (t_ref c + 1)); lia.
    - rewrite fmap_app, K3. unfold owned. rewrite E2, E9, (server_busy_off c), (server_busy_on c') by (unfold at_work; rewrite ?E3; cbn [code]; try done; lia). cbn. solve_Permutation.
    - rewrite fmap_app. apply NoDup_app. split_and!; [done| |cbn; apply NoDup_singleton]. intros x Hx. cbn. by intros ->%list_elem_of_singleton.
    - intros x Hx. apply elem_of_app in Hx as [Hx|Hx]; [|by apply list_elem_of_singleton in Hx]. exfalso. destruct (K5 x Hx) as [_ H]. destruct (H eq_refl) as (? & ? & _). lia. }
  assert (L : forall n, n = None \/ n = Some (mk_node OP_READ true) -> live_ok (with_node n (with_results ((if n is Some _ then [] else [(OP_READ, PR_ERROR)]) ++ results c) (received s c)))).
  { clear G. intros n Hno. unfold received. destruct Hno as [->| ->]; cbn [app]; destruct W as [W|[W Hk]]; apart K Ha; live_goal at_read. }
  destruct ok.
  - pose proof (L (Some (mk_node OP_READ true)) (or_intror eq_refl)) as L1. cbn [app] in L1.
    apply G; cbn; rewrite ?num_cons; try done; unfold t_write, t_iov, t_read, t_success, on_node in *; cbn; rewrite ?Hn in *; cbn in *; lia.
  - pose proof (L None (or_introl eq_refl)) as L1. cbn [app] in L1. unfold node_ends. cbn [s_node received with_target with_sessions with_state with_session with_kept upd_entry]. rewrite Hn. cbn [n_op].
    apply G; try done; unfold t_write, t_iov, t_read, t_success, on_node in *; cbn; rewrite ?num_cons, ?Hn in *; cbn in *; lia.
Qed.
End Local.

(** ** Owners and [drain] *)

(** The sessions of a connection in another order, or with another [passive]. *)
Lemma conn_ok_sessions l h c : conn_ok c -> l.*1 = (sessions c).*1 -> h ≡ₚ s_hand c -> (forall x, (x, 2) ∈ l -> (x, 2) ∈ sessions c) -> conn_ok (with_sessions l h c).
Proof.
  intros [K1 K2 K3 K4 K5] Hl Hh H2. assert (El : len l = len (sessions c)) by (by rewrite <- (length_fmap fst l), Hl, length_fmap).
  constructor; cbn [alive t_ref t_alive points sessions s_hand session state with_sessions]; rewrite ?Hl, ?El; try done.
  - destruct (alive c); [destruct K1 as [[] Ph]; split; [by constructor|exact Ph]|]. destruct K1 as [D1 D2 D3 D4 D5]. constructor; try done. cbn. intros H. destruct (D5 H) as [? E]. split; [done|]. rewrite E in Hl. by destruct l.
  - change (owned (with_sessions l h c)) with (owned c). by rewrite Hh.
  - intros x Hx. exact (K5 x (H2 x Hx)).
Qed.

Lemma idle_view c : conn_ok c -> idle c = true -> alive c = true /\ state c = IDLE /\ write_iov c = false /\ (forall m, s_node c <> Some (mk_node OP_WRITE m)).
Proof.
  intros K Hi. assert (Ha : alive c = true). { destruct K as [K _ _ _ _]. destruct (alive c); [done|]. destruct K as [(D & _ & _) _ _ _ _]. congruence. }
  split; [done|]. apart K Ha. split_and!; [apply code_inj; cbn [code]; lia|destruct io; [cbn [bz] in *; lia|done]|]. intros m E. subst no. cbn [nod op_is bz n_op] in *. lia.
Qed.
Lemma kept_view c : conn_ok c -> kept c = true -> alive c = true /\ state c = KEEPALIVE.
Proof.
  intros K Hi. assert (Ha : alive c = true). { destruct K as [K _ _ _ _]. destruct (alive c); [done|]. destruct K as [(_ & D & _) _ _ _ _]. congruence. }
  split; [done|]. apart K Ha. apply code_inj. cbn [code]. lia.
Qed.

Lemma drain_entry_ok li c : conn_ok c -> kept c = true -> good li c (drain_entry c).
Proof.
  intros K Hk. destruct (kept_view c K Hk) as [Ha Hs]. unfold drain_entry, use_entry. rewrite Ha, Hk. cbn [must mbind outcome_bind]. unfold mpoller_del. cbn [s_node with_kept upd_entry].
  destruct (s_node c) as [[[] m]|] eqn:Hn; apart K Ha; step at_read own_same K.
Qed.
Lemma target_shutdown_ok sv li c : conn_ok c -> t_alive c = true -> sv = true -> good li c (target_shutdown sv c).
Proof.
  intros K Ht ->. unfold target_shutdown, use_target, use_entry, use_service. rewrite Ht. cbn [must mbind outcome_bind]. destruct (idle c) eqn:Hi.
  - destruct (idle_view c K Hi) as (Ha & Hs & _). rewrite Ha. cbn [must mbind outcome_bind]. unfold mpoller_del. cbn [s_node with_idle upd_entry].
    destruct (s_node c) as [[[] m]|] eqn:Hn; apart K Ha; step at_read own_same K.
  - split; [done|]. split_and!; [by left|done|done].
Qed.
Lemma shutdown_ok sv li s c : conn_ok c -> t_alive c = true -> sv = true -> good li c (shutdown sv s c).
Proof.
  intros K Ht Hsv. unfold shutdown. assert (K' : conn_ok (set_passive s 3 c)).
  { apply conn_ok_sessions; [done|apply (keys_set_passive s 3 c)|done|]. intros x Hx. apply in_set_passive in Hx as [[_ ?]|[_ ?]]; done. }
  pose proof (target_shutdown_ok sv li _ K' Ht Hsv) as G. destruct (target_shutdown sv (set_passive s 3 c)); [|done|done]. destruct G as (G1 & G2 & G3 & G4). split_and!; try done. by rewrite keys_set_passive in G4.
Qed.

Lemma remove_session_ok s c : conn_ok c -> s ∈ s_hand c -> conn_ok (goto TDrop (with_sessions (filter (fun x => x.1 <> s) (sessions c)) (remove_one s (s_hand c)) c)).
Proof.
  intros K Hs. pose proof K as [K1 (T1 & T2 & T3) K3 K4 K5]. pose proof (remove_one_perm _ _ Hs) as P. set (h := remove_one s (s_hand c)) in *.
  assert (EF : (filter (fun x : loc * Z => x.1 <> s) (sessions c)).*1 = filter (fun y => y <> s) (sessions c).*1).
  { clear. induction (sessions c) as [|[x n] l IH]; [done|]. rewrite filter_cons, fmap_cons, filter_cons. cbn [fst]. destruct (decide (x <> s)); cbn; by rewrite IH. }
  assert (E : filter (fun y => y <> s) (sessions c).*1 ≡ₚ owned c ++ h).
  { rewrite K3 in K4. rewrite P in K4. rewrite K3, P. rewrite <- Permutation_middle in *. apply NoDup_cons in K4 as [N _]. rewrite filter_cons_False by (intros []; done). by rewrite filter_ne_id. }
  assert (L : len (sessions c) = 1 + len (filter (fun x : loc * Z => x.1 <> s) (sessions c))).
  { rewrite <- (length_fmap fst (filter _ _)), EF, E, <- (length_fmap fst (sessions c)), K3, !length_app, P. cbn. lia. }
  constructor.
  - cbn [alive goto with_points with_sessions]. destruct (alive c) eqn:Ha.
    + apart K Ha; [live_goal at_read|live_goal at_write|live_goal at_deferred|live_goal at_over].
    + destruct K1 as [D1 D2 D3 D4 D5]. constructor; try done; [constructor; [by right|done]|]. cbn. rewrite num_cons. cbn. intros H. destruct D5 as [_ D5]; [lia|]. rewrite D5 in L. cbn in L. lia.
  - cbn [t_ref t_alive goto with_points with_sessions alive points sessions]. rewrite !num_cons. cbn [bz p_target p_accept]. split; [|done]. destruct (alive c); lia.
  - cbn [sessions goto with_points with_sessions s_hand]. rewrite EF. exact E.
  - cbn [sessions goto with_points with_sessions]. rewrite EF. by apply NoDup_filter.
  - intros x Hx. cbn in Hx. apply list_elem_of_filter in Hx as [_ Hx]. destruct (K5 x Hx) as [-> H]. split; [done|]. intros Ha. destruct (H Ha) as (? & ? & ?). split_and!; [done..|]. counts. lia.
Qed.
Lemma delete_session_ok sv li s p c : conn_ok c -> t_alive c = true -> sv = true -> s ∈ s_hand c -> good li c (delete_session sv s p c).
Proof.
  intros K Ht Hsv Hs. unfold delete_session.
  assert (G : good li c (if p =? 2 then target_shutdown sv c else Done c)) by (destruct (p =? 2); [by apply target_shutdown_ok|split; [done|]; split_and!; [by left|done|done]]).
  assert (E : forall c', (if p =? 2 then target_shutdown sv c else Done c) = Done c' -> s_hand c' = s_hand c).
  { destruct (p =? 2); [|by intros c' [= <-]]. unfold target_shutdown, use_target, use_entry, use_service. rewrite Ht, Hsv. cbn [must mbind outcome_bind].
    destruct (idle c), (alive c); cbn [must mbind outcome_bind]; intros c' [= <-]; try done. unfold mpoller_del. cbn. by destruct (s_node c). }
  destruct (if p =? 2 then _ else _) as [c'| |]; cbn [mbind outcome_bind]; [|done|done]. specialize (E c' eq_refl). destruct G as (G1 & G2 & G3 & G4). split; [apply remove_session_ok; [done|by rewrite E]|].
  split_and!; [done|done|]. cbn. intros x Hx. apply G4. apply list_elem_of_fmap in Hx as ([y n] & -> & Hy). apply list_elem_of_filter in Hy as [_ Hy]. apply list_elem_of_fmap. by eexists.
Qed.

(** [reply]: the session is the library's again, and given back when all was sent or nothing could be. *)
Lemma reply_ok sv li s r c : conn_ok c -> (t_alive c = true -> sv = true) -> s ∈ s_hand c -> (s, 2) ∈ sessions c -> good li c (reply sv li s r c).
Proof.
  intros K Hsv Hs H2. assert (Hk : s ∈ (sessions c).*1) by (apply list_elem_of_fmap; by exists (s, 2)). assert (Ht := session_target _ _ K Hk).
  pose proof (remove_one_perm _ _ Hs) as P. unfold reply, reply_reliable, use_target, use_service. rewrite Ht, (Hsv Ht). cbn [must mbind outcome_bind take set_passive with_sessions t_alive idle]. rewrite Ht. cbn [must mbind outcome_bind].
  clear Hsv. destruct (idle c) eqn:Hi.
  2:{ cbn [mbind outcome_bind Z.eqb Z.ltb Z.compare]. split; [|split_and!; [by left|done|change ((sessions (set_passive s 3 c)).*1 ⊆ (sessions c).*1); by rewrite keys_set_passive]].
      apply (conn_ok_sessions _ _ c K).
      - exact (keys_set_passive s 3 c).
      - by rewrite P.
      - intros x Hx. apply (in_set_passive s 3 c) in Hx as [[_ ?]|[_ ?]]; done. }
  destruct (idle_view c K Hi) as (Ha & Hst & Hio & Hw). unfold use_entry. cbn [alive set_passive take with_sessions]. rewrite Ha. cbn [must mbind outcome_bind].
  assert (Es : s = session c) by by destruct (k_current _ K s H2).
  assert (Hn : s ∉ remove_one s (s_hand c)). { pose proof (k_nodup _ K) as N. rewrite (k_sessions _ K), P in N. apply NoDup_app_inv in N as (_ & N & _). by apply NoDup_cons in N as [? _]. }
  set (h := remove_one s (s_hand c)) in *. set (l := (fun x : loc * Z => if decide (x.1 = s) then (s, 3) else x) <$> sessions c).
  assert (Hl : l.*1 = (sessions c).*1) by exact (keys_set_passive s 3 c).
  assert (Hu : forall d, s_hand d = h -> sessions d = l -> use_session s d = Done tt).
  { intros d E1 E2. unfold use_session. rewrite E1, E2, Hl. rewrite bool_decide_eq_true_2, bool_decide_eq_false_2 by done. done. }
  assert (Hp : forall x, (x, 2) ∈ l -> False). { intros x Hx. apply (in_set_passive s 3 c) in Hx as [[_ ?]|[Hx Hy]]; [done|]. destruct (k_current _ K x Hy) as [-> _]. by rewrite Es in Hx. }
  assert (G : forall c', alive c' = true -> live_ok c' -> owned c ++ s_hand c ≡ₚ owned c' ++ s_hand c' -> t_ref c' = t_ref c -> t_alive c' = t_alive c ->
    num p_target (points c') = num p_target (points c) -> sessions c' = l -> (kept c' = true -> li = true) -> good li c (Done c')).
  { intros c' E1 E2 E3 E4 E5 E6 E7 E8. eapply good_step; try done; [by rewrite E7|rewrite E7; intros x Hx; by apply Hp in Hx|by right; apply E8]. }
  assert (Hq : kept c = false). { clear G. apart K Ha. destruct ke; [cbn [bz] in *; lia|done]. }
  match goal with |- context [send_message _ _ _ ?x] => set (c1 := x) end.
  assert (Hc1 : c1 = mk_sconn true IDLE (ref c) (session c) false (t_alive c) (t_ref c) false false (s_node c) (results c) (points c) l h) by (unfold c1, with_idle, upd_entry, set_passive, take, with_sessions; cbn; by rewrite Ha, Hst, Hio, Hq).
  clearbody l h c1. subst s c1.
  unfold send_message. cbn [session]. rewrite Hu by done. cbn [must mbind outcome_bind].
  assert (Hno : s_node c = None \/ exists m, s_node c = Some (mk_node OP_READ m)).
  { clear G Hu Hp. destruct (s_node c) as [[[] m]|] eqn:E; [by right; exists m|by destruct (Hw m)| |by left]. exfalso. apart K Ha. }
  unfold sent_all, send_message_async, mpoller_mod, mpoller_del, use_service.
  destruct r as [[o sn mem ok] keep]; cbn [r_send r_keep a_out a_sent a_mem a_poll negb]. destruct Hno as [Hno|[m Hno]].
  all: destruct o; cbn [negb]; [destruct sn; [destruct keep; [destruct li|]|destruct mem; cbn [negb state with_state with_iov s_node]; rewrite ?Hno; [try destruct ok|]|]|].
  all: cbn [must mbind outcome_bind Z.ltb Z.eqb Z.compare s_node with_iov with_state with_ref upd_entry]; rewrite ?Hno; cbn [must mbind outcome_bind Z.ltb Z.eqb Z.compare s_node];
    rewrite ?Hu by done; cbn [must mbind outcome_bind Z.ltb Z.eqb Z.compare].
  all: apply G; [done|clear G Hu Hp; apart K Ha; first [live_goal at_read|live_goal at_write]|clear G Hu Hp; apart K Ha|done|done|done|done|cbn; congruence].
  all: first [own false true; rewrite P; solve_Permutation|own false false; rewrite P; solve_Permutation].
Qed.
