(* ===== verification/CommServerSafe.v ===== *)
(** * Services: what the server side promises

    Steps of one connection were shown to keep its invariant ([CommServerConn], [CommServerPoll]);
    here the service with all its connections: the [alive_list], the references of the service,
    the sessions. *)

From S2P Require Import Prelude RBTree CommConn CommServer CommServerConn CommServerPoll.

Local Open Scope Z_scope.

(** ** The steps of a connection *)

Lemma good_from li c c1 o : good li c1 o -> kept c1 = kept c -> t_alive c1 = t_alive c -> sessions c1 = sessions c -> good li c o.
Proof. intros G E1 E2 E3. destruct o as [c'| |]; [|done|done]. unfold good in *. by rewrite E1, E2, E3 in G. Qed.

(** The exception on a connection: the end of a kept connection for which no session was made. *)
Definition ends_unmade (p : point) (c : sconn) : Prop := exists st, p = HRequest st /\ ended st = true /\ unmade c.

Lemma server_run_point_ok sv li stop p a c : conn_ok c -> (t_alive c = true -> sv = true) -> p ∈ points c ->
  good li c (run_point sv li stop p a c) \/ run_point sv li stop p a c = Fault /\ ends_unmade p c.
Proof.
  intros K Hsv Hp. unfold run_point. pose proof (conn_ok_point c p K Hp) as K'. set (c1 := with_points (remove_one p (points c)) c) in *.
  assert (E : good li (goto p c1) (step_at sv li stop p a c1) \/ step_at sv li stop p a c1 = Fault /\ ends_unmade p c1).
  { destruct p as [|st|s|so|st| |]; cbn [step_at].
    - left. by apply listen_result_ok.
    - destruct (decide (st = PR_SUCCESS)) as [->|H1]; [left; by apply incoming_success_ok|].
      assert (He : ended st = true). { assert (Ha : alive c1 = true) by (by apply (point_alive _ _ K')). pose proof (k_entry _ K') as L. cbn [alive goto with_points] in L. rewrite Ha in L.
        destruct L as [[_ _ _ _ F] _]. inversion F as [|? ? F1]. cbn in F1. by destruct st. }
      destruct (incoming_end_ok sv li c1 Hsv st He K') as [|[? ?]]; [by left|right]. split; [done|]. by exists st.
    - left. by apply serve_ok.
    - left. by apply end_session_ok.
    - left. by apply reply_result_ok.
    - left. by apply server_drop_ref_ok.
    - left. by apply drop_target_ok. }
  destruct E as [E|[E1 E2]]; [left|by right]. by eapply good_from.
Qed.
Lemma take_result_ok li r c : conn_ok c -> r ∈ results c -> good li c (take_result r c).
Proof. intros K Hr. unfold take_result. eapply good_from; [apply (server_handle_result_ok li _ r (conn_ok_result c r K Hr))|done..]. Qed.

Lemma may_poll_alive a c : conn_ok c -> may_poll a c = true -> alive c = true /\ s_node c <> None.
Proof.
  intros K H. assert (N : s_node c <> None) by (intros E; unfold may_poll in H; rewrite E in H; by destruct a as [| | |[]]). split; [by apply node_dead|done].
Qed.
Lemma server_run_poll_ok sv li a c : conn_ok c -> (t_alive c = true -> sv = true) -> may_poll a c = true -> (forall s ok, a <> PCreate (Some s) ok) -> good li c (run_poll sv a c).
Proof.
  intros K Hsv H Hn. destruct (may_poll_alive a c K H) as [Ha _]. unfold may_poll in H. destruct a as [[s|] ok|r| |st]; cbn [run_poll].
  - by destruct (Hn s ok).
  - apply create_none_ok; [done|done|]. destruct (s_node c) as [[[] []]|]; done.
  - apply server_append_message_ok; [done|done|]. destruct (s_node c) as [[[] []]|]; done.
  - destruct (s_node c) as [[[] m]|] eqn:E; try done. by eapply partial_written_ok.
  - destruct (s_node c) as [n|] eqn:E; [|by destruct st]. eapply server_node_ends_ok; [done|done|exact E|by destruct st].
Qed.

(** ** The service *)

(** The targets in use. *)
Definition targets (m : gmap loc sconn) : Z := num (fun x : loc * sconn => t_alive x.2) (map_to_list m).

Lemma targets_insert e c m : m !! e = None -> targets (<[e := c]> m) = bz (t_alive c) + targets m.
Proof. intros H. unfold targets. rewrite (num_perm _ _ _ (map_to_list_insert m e c H)). exact (num_cons (fun x : loc * sconn => t_alive x.2) (e, c) _). Qed.
Lemma targets_update e c c' m : m !! e = Some c -> targets (<[e := c']> m) = targets m - bz (t_alive c) + bz (t_alive c').
Proof.
  intros H. assert (E : targets m = bz (t_alive c) + targets (delete e m)) by (unfold targets; rewrite <- (num_perm _ _ _ (map_to_list_delete m e c H)); exact (num_cons (fun x : loc * sconn => t_alive x.2) (e, c) _)).
  rewrite <- insert_delete_eq, targets_insert by apply lookup_delete_eq. lia.
Qed.
Lemma targets_nonneg m : 0 <= targets m.
Proof. apply num_nonneg. Qed.
Lemma targets_pos m e c : m !! e = Some c -> t_alive c = true -> 0 < targets m.
Proof.
  intros H Hc. assert (E : targets m = bz (t_alive c) + targets (delete e m)) by (unfold targets; rewrite <- (num_perm _ _ _ (map_to_list_delete m e c H)); exact (num_cons (fun x : loc * sconn => t_alive x.2) (e, c) _)).
  rewrite Hc in E. cbn in E. pose proof (targets_nonneg (delete e m)). lia.
Qed.

(** The service is bound; it listens until [shutdown_service] closes the descriptor; the list was drained. *)
Definition holds_ref (b : base) : Z := match b with BOver => 0 | _ => 1 end.
Definition may_listen (b : base) : bool := match b with BDrain | BDrop | BOver => false | _ => true end.
Definition drained (b : base) : bool := match b with BDrop | BOver => true | _ => false end.

Record server_ok (g : server) : Prop := mk_server_ok {
  g_conn : forall e c, conns g !! e = Some c -> conn_ok c;
  g_made : forall e c s, conns g !! e = Some c -> s ∈ (sessions c).*1 -> s ∈ created g;
  g_apart : forall e e' c c' s, conns g !! e = Some c -> conns g !! e' = Some c' -> s ∈ (sessions c).*1 -> s ∈ (sessions c').*1 -> e = e';
  g_created : NoDup (created g);
  g_nodup : NoDup (alive_list g);
  g_list : forall e, e ∈ alive_list g <-> exists c, conns g !! e = Some c /\ kept c = true;
  g_ref : s_ref g = holds_ref (bound g) + targets (conns g);
  g_unbound : unbound g = (s_ref g =? 0);
  g_listening : listening g = may_listen (bound g);
  g_drained : drained (bound g) = true -> alive_list g = [] }.

Lemma server_init_ok : server_ok server_init.
Proof. constructor; cbn; try done; try by constructor. intros e. split; [by intros ?%elem_of_nil|by intros (c & ? & _)]. Qed.

Lemma svc_target g e c : server_ok g -> conns g !! e = Some c -> t_alive c = true -> svc g = true.
Proof.
  intros G He Ht. unfold svc. rewrite (g_unbound _ G), (g_ref _ G). pose proof (targets_pos _ _ _ He Ht). assert (0 <= holds_ref (bound g)) by (by destruct (bound g)).
  apply negb_true_iff, Z.eqb_neq. lia.
Qed.
Lemma svc_bound g : server_ok g -> bound g <> BOver -> svc g = true.
Proof.
  intros G Hb. unfold svc. rewrite (g_unbound _ G), (g_ref _ G). pose proof (targets_nonneg (conns g)). apply negb_true_iff, Z.eqb_neq. destruct (bound g); cbn; try done; lia.
Qed.

Lemma list_del_elem e x l : x ∈ list_del e l <-> x <> e /\ x ∈ l.
Proof. unfold list_del. by rewrite list_elem_of_filter. Qed.
Lemma set_kept_list e c c' g : server_ok g -> conns g !! e = Some c ->
  NoDup (set_kept e (kept c) (kept c') (alive_list g)) /\ (forall x, x ∈ set_kept e (kept c) (kept c') (alive_list g) <-> exists d, <[e := c']> (conns g) !! x = Some d /\ kept d = true).
Proof.
  intros G He. pose proof (g_nodup _ G) as N. pose proof (g_list _ G) as L.
  assert (Hin : e ∈ alive_list g <-> kept c = true). { rewrite L. rewrite He. split; [by intros (d & [= <-] & ?)|by exists c]. }
  assert (Hx : forall x, (exists d, <[e := c']> (conns g) !! x = Some d /\ kept d = true) <-> x = e /\ kept c' = true \/ x <> e /\ x ∈ alive_list g).
  { intros x. rewrite L. destruct (decide (x = e)) as [->|Hne]; [rewrite lookup_insert_eq|rewrite lookup_insert_ne by done]; [|naive_solver]. split; [intros (d & [= <-] & ?); by left|]. intros [[_ ?]|[? _]]; [by exists c'|done]. }
  split.
  - unfold set_kept. destruct (kept c) eqn:E1, (kept c'); try done; [by apply NoDup_filter|]. apply NoDup_app. split_and!; [done| |apply NoDup_singleton]. intros x Hl ->%list_elem_of_singleton. apply Hin in Hl. done.
  - intros x. rewrite Hx. unfold set_kept. destruct (kept c) eqn:E1, (kept c'); rewrite ?list_del_elem, ?elem_of_app, ?list_elem_of_singleton; destruct (decide (x = e)) as [->|]; naive_solver.
Qed.

(** New sessions are entered in [created]. *)
Definition make (l : list loc) (g : server) : server :=
  mk_server (conns g) (alive_list g) (s_ref g) (listening g) (bound g) (stopping g) (unbound g) (l ++ created g).

(** A step of one connection. *)
Lemma set_conn_ok l e c c' g : server_ok g -> conns g !! e = Some c -> conn_ok c' -> (kept c' = true -> kept c = true \/ listening g = true) -> (t_alive c' = true -> t_alive c = true) ->
  (forall s, s ∈ (sessions c').*1 -> s ∈ (sessions c).*1 \/ s ∈ l) -> NoDup l -> (forall s, s ∈ l -> s ∉ created g) -> server_ok (make l (set_conn e c c' g)).
Proof.
  intros G He Hc Hk Ht Hs Hl Hf. destruct (set_kept_list e c c' g G He) as [L1 L2].
  set (g1 := mk_server (<[e := c']> (conns g)) (set_kept e (kept c) (kept c') (alive_list g)) (s_ref g) (listening g) (bound g) (stopping g) (unbound g) (created g)).
  assert (E : set_conn e c c' g = if t_alive c && negb (t_alive c') then decref g1 else g1) by done.
  assert (F : forall g2, conns g2 = conns g1 -> alive_list g2 = alive_list g1 -> listening g2 = listening g -> bound g2 = bound g -> created g2 = created g ->
    s_ref g2 = holds_ref (bound g) + targets (conns g1) -> unbound g2 = (s_ref g2 =? 0) -> server_ok (make l g2)).
  { intros g2 E1 E2 E3 E4 E5 E6 E7.
    assert (Hlk : forall x d, conns g2 !! x = Some d -> x = e /\ d = c' \/ x <> e /\ conns g !! x = Some d).
    { intros x d. rewrite E1. cbn. intros [[<- <-]|[? ?]]%lookup_insert_Some; [by left|by right]. }
    assert (Hold : forall x d s, conns g !! x = Some d -> s ∈ (sessions d).*1 -> s ∉ l) by (intros x d s Hx Hd Hin; by apply (Hf s Hin), (g_made _ G x d)).
    constructor; cbn [conns alive_list s_ref listening bound stopping unbound created make]; rewrite ?E2, ?E3, ?E4, ?E5.
    - intros x d Hx. apply Hlk in Hx as [[-> ->]|[_ Hx]]; [done|by apply (g_conn _ G x)].
    - intros x d s Hx Hd. apply elem_of_app. apply Hlk in Hx as [[-> ->]|[_ Hx]]; [destruct (Hs s Hd) as [H|H]; [right; by apply (g_made _ G e c)|by left]|right; by apply (g_made _ G x d)].
    - intros x x' d d' s Hx Hx' Hd Hd'. apply Hlk in Hx as [[-> ->]|[Hne Hx]]; apply Hlk in Hx' as [[-> ->]|[Hne' Hx']]; [done| | |by apply (g_apart _ G x x' d d' s)].
      + destruct (Hs s Hd) as [H|H]; [by apply (g_apart _ G e x' c d' s)|]. by destruct (Hold x' d' s Hx' Hd').
      + destruct (Hs s Hd') as [H|H]; [by apply (g_apart _ G x e d c s)|]. by destruct (Hold x d s Hx Hd).
    - apply NoDup_app. split_and!; [done|done|apply G].
    - done.
    - intros x. rewrite E1. apply L2.
    - by rewrite E6, E1.
    - done.
    - apply G.
    - intros Hd. pose proof (g_drained _ G Hd) as Hnil. unfold g1. cbn [alive_list]. destruct (kept c') eqn:Ek; [|rewrite Hnil; by destruct (kept c)].
      exfalso. destruct (Hk eq_refl) as [H|H]; [|rewrite (g_listening _ G) in H; by destruct (bound g)].
      assert (Hin : e ∈ alive_list g) by (apply (g_list _ G); by exists c). rewrite Hnil in Hin. by apply elem_of_nil in Hin. }
  pose proof (targets_update e c c' _ He) as Hu. pose proof (g_ref _ G) as Hr. pose proof (g_unbound _ G) as Hn. pose proof (targets_nonneg (conns g1)) as Hp. rewrite E. destruct (t_alive c) eqn:Ea; cbn [andb bz] in *.
  - destruct (t_alive c') eqn:Ea'; cbn [negb bz] in *; apply F; try done; cbn; [rewrite Hu; lia|rewrite Hu; lia|].
    assert (E0 : s_ref g <> 0). { unfold g1 in Hp. cbn in Hp. destruct (bound g); cbn in *; lia. } rewrite Hn. apply Z.eqb_neq in E0. by rewrite E0.
  - destruct (t_alive c') eqn:Ea'; [by discriminate Ht|]. cbn [bz] in *. apply F; try done. cbn. rewrite Hu. lia.
Qed.
Lemma make_nil g : make [] g = g.
Proof. by destruct g. Qed.
Lemma set_conn_good e c c' g : server_ok g -> conns g !! e = Some c -> good (listening g) c (Done c') -> server_ok (set_conn e c c' g).
Proof.
  intros G He (H1 & H2 & H3 & H4). rewrite <- (make_nil (set_conn e c c' g)). apply set_conn_ok; try done; [intros s Hs; left; by apply H4|constructor|by intros s ?%elem_of_nil].
Qed.

(** [drain] takes the entries from the list. *)
Lemma drain_entry_keeps c c' : drain_entry c = Done c' -> kept c' = false /\ t_alive c' = t_alive c.
Proof. unfold drain_entry, use_entry, mpoller_del. destruct (alive c), (kept c); try done. cbn. intros [= <-]. by destruct (s_node c). Qed.
Lemma drain_loop_ok max l : forall cnt g, server_ok g -> 0 <= cnt -> (forall x, x ∈ l -> x ∈ alive_list g) -> NoDup l ->
  exists g', drain_loop l cnt max g = Done g' /\ server_ok g' /\ bound g' = bound g /\ created g' = created g /\ (forall x, x ∈ alive_list g' -> x ∈ alive_list g) /\ (max < 0 -> forall x, x ∈ l -> x ∉ alive_list g').
Proof.
  induction l as [|e l IH]; intros cnt g G Hc Hl N; cbn [drain_loop].
  { exists g. split_and!; try done. intros _ x H. by apply elem_of_nil in H. }
  destruct (Z.eqb_spec cnt max) as [->|Hm]; [exists g; split_and!; try done; lia|]. apply NoDup_cons in N as [Ne N].
  destruct (proj1 (g_list _ G e) (Hl e ltac:(by left))) as (c & He & Hk). rewrite He. pose proof (drain_entry_ok (listening g) c (g_conn _ G e c He) Hk) as Hg.
  destruct (drain_entry c) as [c'| |] eqn:Ed; [|done|done]. cbn [mbind outcome_bind]. destruct (drain_entry_keeps c c' Ed) as [Ek Et].
  pose proof (set_conn_good e c c' g G He Hg) as G'. assert (Ea : alive_list (set_conn e c c' g) = list_del e (alive_list g)).
  { unfold set_conn. rewrite Hk, Ek, Et. destruct (t_alive c); done. }
  destruct (IH (cnt + 1) (set_conn e c c' g) G') as (g' & E1 & E2 & E3 & E4 & E5 & E6); [lia| |done|].
  { intros x Hx. rewrite Ea. apply list_del_elem. split; [by intros ->|]. apply Hl. by right. }
  exists g'. split_and!; [done|done| | | |].
  - rewrite E3. unfold set_conn. by destruct (t_alive c && negb (t_alive c')).
  - rewrite E4. unfold set_conn. by destruct (t_alive c && negb (t_alive c')).
  - intros x Hx. apply E5 in Hx. rewrite Ea in Hx. by apply list_del_elem in Hx as [_ ?].
  - intros Hmax x [->|Hx]%elem_of_cons; [|by apply E6]. intros Hin. apply E5 in Hin. rewrite Ea in Hin. by apply list_del_elem in Hin as [? _].
Qed.
Lemma server_drain_ok max g : server_ok g -> svc g = true -> exists g', drain max g = Done g' /\ server_ok g' /\ bound g' = bound g /\ created g' = created g /\ (max < 0 -> alive_list g' = []).
Proof.
  intros G Hs. unfold drain. rewrite Hs. cbn [must mbind outcome_bind]. destruct (drain_loop_ok max (alive_list g) 0 g G) as (g' & E1 & E2 & E3 & E4 & E5 & E6); [lia|done|apply G|].
  exists g'. split_and!; try done. intros Hm. destruct (alive_list g') as [|x k] eqn:E; [done|]. exfalso. apply (E6 Hm x); [apply E5; by left|by left].
Qed.

(** The steps of the service itself. *)
Lemma set_bound_ok b g : server_ok g -> may_listen b = may_listen (bound g) -> holds_ref b = holds_ref (bound g) -> (drained b = true -> alive_list g = []) -> server_ok (set_bound b g).
Proof. intros [? ? ? ? ? ? G1 G2 G3 ?] H1 H2 H3. constructor; try done; cbn; by rewrite ?H1, ?H2. Qed.
Lemma set_stopping_ok b g : server_ok g -> server_ok (set_stopping b g).
Proof. intros []. by constructor. Qed.
Lemma accept_ok e g : server_ok g -> conns g !! e = None -> bound g = BListen -> exists g', accept e g = Done g' /\ server_ok g'.
Proof.
  intros G He Hb. unfold accept. rewrite svc_bound by (by rewrite ?Hb). cbn [must mbind outcome_bind]. eexists. split; [done|]. destruct G as [G1 G2 G3 G4 G5 G6 G7 G8 G9 G10].
  assert (Hlk : forall x d, <[e := accepted]> (conns g) !! x = Some d -> x = e /\ d = accepted \/ x <> e /\ conns g !! x = Some d).
  { intros x d [[<- <-]|[? ?]]%lookup_insert_Some; [by left|by right]. }
  constructor; cbn [conns alive_list s_ref listening bound stopping unbound created]; try done.
  - intros x d Hx. apply Hlk in Hx as [[-> ->]|[_ Hx]]; [|by apply (G1 x)]. constructor; cbn; try done; [|by apply NoDup_nil|by intros s ?%elem_of_nil].
    constructor; cbn; try done; [by constructor; [left|]].
  - intros x d s Hx Hd. apply Hlk in Hx as [[-> ->]|[_ Hx]]; [by apply elem_of_nil in Hd|by apply (G2 x d)].
  - intros x x' d d' s Hx Hx' Hd Hd'. apply Hlk in Hx as [[-> ->]|[_ Hx]]; [by apply elem_of_nil in Hd|]. apply Hlk in Hx' as [[-> ->]|[_ Hx']]; [by apply elem_of_nil in Hd'|]. by apply (G3 x x' d d' s).
  - intros x. rewrite G6. split; intros (d & Hx & Hk).
    + exists d. split; [|done]. rewrite lookup_insert_ne; [done|]. intros ->. congruence.
    + apply Hlk in Hx as [[-> ->]|[_ Hx]]; [done|by exists d].
  - rewrite targets_insert, G7 by done. cbn. lia.
  - rewrite G8. rewrite G7, Hb. cbn. pose proof (targets_nonneg (conns g)). destruct (Z.eqb_spec (1 + targets (conns g)) 0), (Z.eqb_spec (1 + targets (conns g) + 1) 0); lia.
Qed.
Lemma shutdown_service_ok g : server_ok g -> bound g <> BOver -> match shutdown_service g with Done g' => server_ok g' | Blocked => True | Fault => False end.
Proof.
  intros G Hb. unfold shutdown_service. rewrite (svc_bound g G Hb). cbn [must mbind outcome_bind]. destruct (bound g) eqn:E; try done.
  - apply set_bound_ok; [done|by rewrite E..|done].
  - destruct G. constructor; try done; cbn; by rewrite ?E in *.
  - destruct (server_drain_ok (-1) g G) as (g' & -> & G' & Eb & _ & Hl); [apply svc_bound; by rewrite ?E|]. cbn [mbind outcome_bind]. apply set_bound_ok; [done|by rewrite Eb, E..|]. intros _. apply Hl. lia.
  - destruct G as [G1 G2 G3 G4 G5 G6 G7 G8 G9 G10]. rewrite E in *. constructor; try done; cbn; [rewrite G7; cbn; lia|rewrite G8, G7; cbn; pose proof (targets_nonneg (conns g)); by destruct (Z.eqb_spec (1 + targets (conns g)) 0); [lia|]].
Qed.

(** ** The steps *)

(** The two steps that go wrong: the result of the listening node is handled after the service
    was unbound; the end of a kept connection for which [new_session] gave no session. *)
Definition fails (g : server) (a : act) : Prop :=
  a = SStop /\ unbound g = true \/ exists e p ch stop c, a = SRun e p ch stop /\ conns g !! e = Some c /\ ends_unmade p c.

Lemma on_conn_ok g e f : server_ok g -> (forall c, conns g !! e = Some c -> match f c with Done c' => good (listening g) c (Done c') | _ => True end) ->
  match on_conn e g f with Done g' => server_ok g' | Blocked => True | Fault => exists c, conns g !! e = Some c /\ f c = Fault end.
Proof.
  intros G H. unfold on_conn. destruct (conns g !! e) as [c|] eqn:He; [|done]. specialize (H c eq_refl). destruct (f c) as [c'| |] eqn:Ef; cbn; [by apply (set_conn_good e c)|done|by exists c].
Qed.
(** A step of a connection that does not go wrong. *)
Lemma on_conn_safe g e f (b : sconn -> bool) : server_ok g -> (forall c, conns g !! e = Some c -> b c = true -> conn_ok c -> (t_alive c = true -> svc g = true) -> good (listening g) c (f c)) ->
  match on_conn e g (fun c => when (b c) (f c)) with Done g' => server_ok g' | Blocked => True | Fault => False end.
Proof.
  intros G H. assert (Hf : forall c, conns g !! e = Some c -> match when (b c) (f c) with Done c' => good (listening g) c (Done c') | Blocked => True | Fault => False end).
  { intros c He. unfold when. destruct (b c) eqn:E; [|done]. assert (X : good (listening g) c (f c)) by (apply H; [done|done|by apply (g_conn _ G e)|by intros; apply (svc_target g e c)]). by destruct (f c). }
  pose proof (on_conn_ok g e (fun c => when (b c) (f c)) G) as X. destruct (on_conn _ _ _) as [g'| |]; [apply X|done|].
  - intros c He. specialize (Hf c He). by destruct (when _ _).
  - destruct X as (c & He & E); [|specialize (Hf c He); by rewrite E in Hf]. intros c He. specialize (Hf c He). by destruct (when _ _).
Qed.

Lemma hand_session c s : conn_ok c -> s ∈ s_hand c -> s ∈ (sessions c).*1.
Proof. intros [_ _ P _ _] Hs. rewrite P. apply elem_of_app. by right. Qed.

Lemma poll_create_ok g e s ok : server_ok g -> match run (SPoll e (PCreate (Some s) ok)) g with Done g' => server_ok g' | Blocked => True | Fault => False end.
Proof.
  intros G. cbn [run]. unfold when at 1. case_bool_decide as Hs; cbn [negb]; [done|]. unfold on_conn. destruct (conns g !! e) as [c|] eqn:He; [|done]. unfold when.
  destruct (may_poll (PCreate (Some s) ok) c) eqn:Hm; [|done]. pose proof (g_conn _ G e c He) as K. destruct (may_poll_alive _ c K Hm) as [Ha _].
  assert (Hn : s_node c = Some (mk_node OP_READ false)) by (unfold may_poll in Hm; destruct (s_node c) as [[[] []]|]; done).
  assert (Hf : s ∉ (sessions c).*1) by (intros H; by apply Hs, (g_made _ G e c)).
  pose proof (create_some_ok (svc g) (listening g) c (fun H => svc_target g e c G He H) s ok K Hf Hn) as Hg. cbn [run_poll]. destruct (create_request (svc g) (Some s) ok c) as [c'| |]; [|done|done].
  destruct Hg as (G1 & G2 & G3 & G4). cbn [mbind outcome_bind]. apply (set_conn_ok [s] e c c' g); try done.
  - intros Hk. left. by apply G2.
  - intros x Hx. apply G4 in Hx. apply elem_of_cons in Hx as [->|Hx]; [right; by left|by left].
  - apply NoDup_singleton.
  - by intros x ->%list_elem_of_singleton.
Qed.

Lemma server_run_ok a g : server_ok g -> match run a g with Done g' => server_ok g' | Blocked => True | Fault => fails g a end.
Proof.
  intros G. assert (X : forall o : outcome server, match o with Done g' => server_ok g' | Blocked => True | Fault => False end -> match o with Done g' => server_ok g' | Blocked => True | Fault => fails g a end) by (by intros []).
  destruct a as [e|e p ch stop|e r|e po|e s r|e s|e s|max| | | |].
  - apply X. cbn [run]. destruct (conns g !! e) eqn:He; [done|]. unfold when. case_bool_decide as Hb; [|done]. destruct (accept_ok e g G He Hb) as (g' & -> & ?). done.
  - assert (H : forall c, conns g !! e = Some c -> match when (bool_decide (p ∈ points c)) (run_point (svc g) (listening g) stop p ch c) with Done c' => good (listening g) c (Done c') | Blocked => True | Fault => ends_unmade p c end).
    { intros c He. unfold when. case_bool_decide as Hp; [|done]. destruct (server_run_point_ok (svc g) (listening g) stop p ch c (g_conn _ G e c He) (fun H => svc_target g e c G He H) Hp) as [H|[-> ?]]; [|done].
      by destruct (run_point _ _ _ _ _ _). }
    pose proof (on_conn_ok g e (fun c => when (bool_decide (p ∈ points c)) (run_point (svc g) (listening g) stop p ch c)) G) as Y. cbn [run]. destruct (on_conn _ _ _) as [g'| |]; [apply Y|done|].
    + intros c He. specialize (H c He). by destruct (when _ _).
    + destruct Y as (c & He & E); [intros c He; specialize (H c He); by destruct (when _ _)|]. right. exists e, p, ch, stop, c. specialize (H c He). rewrite E in H. done.
  - apply X. cbn [run]. apply (on_conn_safe g e (take_result r) (fun c => bool_decide (r ∈ results c)) G). intros c He Hb K Hs. apply bool_decide_eq_true in Hb. by apply take_result_ok.
  - apply X. destruct po as [[s|] ok|r| |st]; [by apply poll_create_ok|..]; cbn [run];
      match goal with |- context [run_poll _ ?b _] => apply (on_conn_safe g e (run_poll (svc g) b) (may_poll b) G) end; intros c He Hb K Hs; by apply server_run_poll_ok.
  - apply X. cbn [run]. apply (on_conn_safe g e (reply (svc g) (listening g) s r) (fun c => bool_decide (s ∈ s_hand c) && bool_decide ((s, 2) ∈ sessions c)) G).
    intros c He Hb K Hs. apply andb_true_iff in Hb as [H1 H2]. apply bool_decide_eq_true in H1, H2. by apply reply_ok.
  - apply X. cbn [run]. apply (on_conn_safe g e (shutdown (svc g) s) (fun c => bool_decide (s ∈ s_hand c) && bool_decide ((s, 2) ∈ sessions c)) G).
    intros c He Hb K Hs. apply andb_true_iff in Hb as [H1 H2]. apply bool_decide_eq_true in H1, H2. assert (Ht := session_target _ _ K (hand_session _ _ K H1)). apply shutdown_ok; tauto.
  - apply X. cbn [run]. apply (on_conn_safe g e (fun c => delete_session (svc g) s (default 0 (passive s c)) c) (fun c => bool_decide (s ∈ s_hand c)) G).
    intros c He Hb K Hs. apply bool_decide_eq_true in Hb. assert (Ht := session_target _ _ K (hand_session _ _ K Hb)). apply delete_session_ok; tauto.
  - apply X. cbn [run]. unfold when. destruct (svc g) eqn:Es; [|done]. by destruct (server_drain_ok max g G Es) as (g' & -> & ? & _).
  - apply X. cbn [run]. destruct (bound g) eqn:Eb; try done. apply set_stopping_ok, set_bound_ok; [done|by rewrite Eb..|done].
  - cbn [run]. unfold when. destruct (stopping g); [|done]. destruct (svc g) eqn:Es; cbn [must mbind outcome_bind]; [by apply set_stopping_ok|]. left. split; [done|]. unfold svc in Es. by apply negb_false_iff in Es.
  - apply X. cbn [run]. unfold unbind. destruct (bound g) eqn:Eb; try done; rewrite (svc_bound g G) by congruence; cbn [must mbind outcome_bind]; apply set_bound_ok; rewrite ?Eb; try done.
  - apply X. pose proof (shutdown_service_ok g G) as Y. cbn [run]. destruct (bound g) eqn:Eb; try done; by apply Y.
Qed.
Lemma server_reach_ok g : reach g -> server_ok g.
Proof. induction 1 as [|g a g' R IH E]; [apply server_init_ok|]. pose proof (server_run_ok a g IH) as H. by rewrite E in H. Qed.

(** ** What is promised *)


Lemma targets_none m : (forall e c, m !! e = Some c -> t_alive c = false) -> targets m = 0.
Proof.
  intros H. apply (num_none _ (fun x : loc * sconn => t_alive x.2 = false)); [|done]. apply Forall_forall. intros [e c] Hx. apply elem_of_map_to_list in Hx. by apply (H e c).
Qed.
Lemma target_dead c : conn_ok c -> t_alive c = false -> alive c = false /\ sessions c = [].
Proof.
  intros K Ht. split.
  - destruct (alive c) eqn:Ha; [|done]. by rewrite (entry_target c K Ha) in Ht.
  - destruct (sessions c) as [|[s n] l] eqn:E; [done|]. rewrite (session_target c s K) in Ht; [done|]. rewrite E. cbn. by left.
Qed.

(** C13. Sessions are handed over once.  Every session made is new; while it is not deleted it belongs to one
    connection, where either the library has to hand it to its owner, once, or its owner has it.  Only
    the session of the last request can wait for a reply, and while it does no request can come on its
    connection and no reply is being sent. *)
Theorem server_once g : reach g ->
  NoDup (created g) /\
  forall e c, conns g !! e = Some c ->
    (sessions c).*1 ≡ₚ owned c ++ s_hand c /\ NoDup (sessions c).*1 /\
    (forall s, s ∈ (sessions c).*1 -> s ∈ created g /\ forall e' c', conns g !! e' = Some c' -> s ∈ (sessions c').*1 -> e' = e) /\
    (forall s, (s, 2) ∈ sessions c -> s = session c /\ (alive c = true -> state c <> CONNECTED /\ state c <> KEEPALIVE /\ t_write c = 0)).
Proof.
  intros R. pose proof (server_reach_ok g R) as G. split; [apply G|]. intros e c He. pose proof (g_conn _ G e c He) as K. split_and!; [apply K|apply K| |].
  - intros s Hs. split; [by apply (g_made _ G e c)|]. intros e' c' He' Hs'. by apply (g_apart _ G e' e c' c s).
  - intros s Hs. destruct (k_current _ K s Hs) as [? H]. split; [done|]. intros Ha. destruct (H Ha) as (H1 & H2 & H3). split_and!; [intros E; by rewrite E in H1|intros E; by rewrite E in H2|done].
Qed.

(** Nobody is inside the library, the poller has no node and no owner has a session. *)
Definition quiet (g : server) : Prop := forall e c, conns g !! e = Some c -> s_node c = None /\ results c = [] /\ points c = [] /\ s_hand c = [].

(** C20. The service is unbound once all is freed.  The service counts one reference for [bind] and one for every
    target in use; [handle_unbound] was called when and only when none is left, and then every entry is
    freed and every session deleted.  The [alive_list] has the kept connections, all in use,
    and is empty after [shutdown_service].  After [shutdown_service], when nobody is inside the library, the poller is
    empty and the owners have deleted their sessions, the service was unbound. *)
Theorem server_unbound g : reach g ->
  s_ref g = holds_ref (bound g) + targets (conns g) /\ unbound g = (s_ref g =? 0) /\
  NoDup (alive_list g) /\ (forall e, e ∈ alive_list g <-> exists c, conns g !! e = Some c /\ kept c = true /\ alive c = true /\ state c = KEEPALIVE) /\ (drained (bound g) = true -> alive_list g = []) /\
  (unbound g = true -> bound g = BOver /\ forall e c, conns g !! e = Some c -> t_alive c = false /\ alive c = false /\ sessions c = []) /\
  (bound g = BOver -> quiet g -> unbound g = true).
Proof.
  intros R. pose proof (server_reach_ok g R) as G. split_and!; [apply G|apply G|apply G| |apply G| |].
  - intros e. rewrite (g_list _ G). split; intros (c & He & H); exists c; [|tauto]. destruct (kept_view c (g_conn _ G e c He) H). done.
  - intros Hu. rewrite (g_unbound _ G), (g_ref _ G) in Hu. apply Z.eqb_eq in Hu. pose proof (targets_nonneg (conns g)). split; [destruct (bound g); cbn in Hu; try lia; done|].
    intros e c He. assert (Ht : t_alive c = false). { destruct (t_alive c) eqn:Ht; [|done]. pose proof (targets_pos _ e c He Ht). assert (0 <= holds_ref (bound g)) by (by destruct (bound g)). lia. }
    split; [done|]. by apply target_dead; [apply (g_conn _ G e)|].
  - intros Hb Q. rewrite (g_unbound _ G), (g_ref _ G), Hb. cbn [holds_ref]. rewrite targets_none; [done|]. intros e c He. destruct (Q e c He) as (Q1 & Q2 & Q3 & Q4). pose proof (g_conn _ G e c He) as K.
    assert (Ha : alive c = false). { destruct (alive c) eqn:Ha; [|done]. exfalso. apart K Ha; unfold num in *; cbn in *; lia. }
    pose proof (k_sessions _ K) as P. unfold owned, busy in P. rewrite Ha, Q3, Q4 in P. cbn in P. apply Permutation_nil_r in P.
    destruct (k_target _ K) as (T1 & _ & T3). rewrite Ha, Q3 in T1. rewrite T3, T1. rewrite <- (length_fmap fst (sessions c)), P. done.
Qed.

(** ** Runs *)

Fixpoint run_all (l : list act) (g : server) : outcome server :=
  match l with [] => Done g | a :: l => g ← run a g; run_all l g end.
Lemma server_run_all_reach l : forall g g', reach g -> run_all l g = Done g' -> reach g'.
Proof.
  induction l as [|a l IH]; cbn [run_all]; intros g g' R E; [by injection E as <-|]. destruct (run a g) as [g1| |] eqn:E1; try done. cbn in E.
  eapply IH; [|exact E]. by eapply reach_step.
Qed.
Definition state_after (l : list act) : server := match run_all l server_init with Done g => g | _ => server_init end.

Definition fine : choice := mk_choice true true true.
(** A connection, a request, its reply sent at once, the connection kept. *)
Definition run_keep : list act :=
  [SAccept 1; SRun 1 HAccept fine false; SPoll 1 (PCreate (Some 10%positive) true); SPoll 1 (PAppend AppendDone); SResult 1 (OP_READ, PR_SUCCESS);
   SRun 1 (HRequest PR_SUCCESS) fine false; SRun 1 (HServe 10) fine false; SRun 1 HDrop fine false; SReply 1 10 (mk_reply (mk_answers true SentAll true true) true)].
(** Then the session is deleted, the service shut down, the connection closed. *)
Definition run_down : list act :=
  run_keep ++ [SRun 1 (HEnd (Some (10%positive, CS_SUCCESS))) fine false; SRun 1 HDrop fine false; SDelete 1 10; SRun 1 TDrop fine false; SUnbind; SClosing; SClosing; SClosing; SClosing;
   SResult 1 (OP_READ, PR_DELETED); SRun 1 (HRequest PR_DELETED) fine false; SRun 1 (HEnd None) fine false; SRun 1 HDrop fine false; SRun 1 TDrop fine false].
(** No session for the next request. *)
Definition run_unmade : list act := run_keep ++ [SPoll 1 (PCreate None true); SResult 1 (OP_READ, PR_ERROR)].
(** The listening node ended, and the service is unbound before its result is handled. *)
Definition run_stop : list act := [SListenEnd; SUnbind; SClosing; SClosing; SClosing].

Lemma run_down_reach : reach (state_after run_down).
Proof. apply (server_run_all_reach run_down server_init); [apply reach_init|vm_compute; reflexivity]. Qed.
Lemma run_unmade_reach : reach (state_after run_unmade).
Proof. apply (server_run_all_reach run_unmade server_init); [apply reach_init|vm_compute; reflexivity]. Qed.
Lemma run_stop_reach : reach (state_after run_stop).
Proof. apply (server_run_all_reach run_stop server_init); [apply reach_init|vm_compute; reflexivity]. Qed.

(** C37. The two exceptions do happen: when [new_session] gives no session for a request on a kept
    connection, [create_request] has taken the entry out of the [alive_list] and left it
    [CONN_STATE_KEEPALIVE], and [handle_incoming_request] takes it out again; when [unbind] is called
    after the listening node ended, the service can be gone when [handle_listen_result] calls its [handle_stop]. *)
Theorem server_races :
  reach (state_after run_unmade) /\ run (SRun 1 (HRequest PR_ERROR) fine false) (state_after run_unmade) = Fault /\
  reach (state_after run_stop) /\ run SStop (state_after run_stop) = Fault.
Proof. split; [exact run_unmade_reach|]. split; [vm_compute; reflexivity|]. split; [exact run_stop_reach|vm_compute; reflexivity]. Qed.

Lemma server_once_witness : created (state_after run_down) = [10%positive] /\ NoDup (created (state_after run_down)).
Proof. split; [vm_compute; reflexivity|]. apply (server_once _ run_down_reach). Defined.
Lemma server_unbound_witness : unbound (state_after run_down) = true /\ bound (state_after run_down) = BOver /\ s_ref (state_after run_down) = 0.
Proof.
  assert (Hu : unbound (state_after run_down) = true) by (vm_compute; reflexivity). destruct (server_unbound _ run_down_reach) as (_ & H2 & _ & _ & _ & H6 & _).
  split_and!; [exact Hu|by apply H6|]. apply Z.eqb_eq. by rewrite <- H2.
Defined.
